(* ===== verification/_CoqProject ===== *)
-Q . S2P
Prelude.v
Text.v
Error.v
Ebpf.v
Program.v
Verifier.v
MemoryRegion.v
MemoryMapping.v
MappingSearch.v
MappingAccess.v
AlignedMemory.v
ElfParser.v
InsnBuilder.v
Executable.v
AsmParser.v
AsmSource.v
Assembler.v
AssemblerPasses.v
Cfg.v
Disassembler.v
AsmRoundTrip.v
Pages.v
X86.v
X86Decode.v
X86Assembly.v
X86Semantics.v
Jit.v
JitSubroutines.v
JitCompile.v
JitAlu.v
JitCompare.v
ElfLoader.v
LoaderSafety.v
ReadonlySections.v
Relocation.v
Vm.v
Interpreter.v
InterpreterSafety.v
JitSafety.v
JitEmitters.v
JitArms.v
JitBranches.v
JitCode.v
JitCompilation.v
Aarch64.v
ArmEncoding.v
Execution.v
ExecutionLimits.v
JitSimulation.v
LoadedExecution.v
Debugger.v
DebugSession.v
TestSyscalls.v
TestUtils.v
GrammarAware.v
SemanticAware.v
FuzzTargets.v
StaticAnalysis.v
Tarjan.v
TarjanProof.v
TarjanCfg.v
BasicBlocks.v
Dominance.v
DominanceOrder.v
DataFlow.v
DataFlowProof.v
Analyzer.v
