(* ===== verification/Prelude.v ===== *)
(** * A verification of rbpf, a virtual machine for eBPF programs

    rbpf verifies, interprets and compiles programs in (several versions of) the SBPF
    instruction set.  A program is a string of eight-byte instruction slots.  It is
    loaded from an ELF file (src/elf_parser, src/elf.rs) or taken as it is, becomes an
    [Executable] (src/elf.rs), is checked once by the static verifier
    (src/verifier.rs), and is executed by an [EbpfVm] (src/vm.rs) whose interpreter
    (src/interpreter.rs) decodes one instruction at a time (src/ebpf.rs), accesses
    guest memory only through a [MemoryMapping] (src/memory_region.rs) that translates
    guest addresses to host addresses, and calls syscalls registered by the embedder
    (src/program.rs).  The verifier's guarantees are what lets the interpreter index
    registers and program bytes without checks; the mapping's guarantees are what
    keeps a guest inside of its memory; the instruction meter is what makes it stop.
    A verified executable can also be compiled to x86 machine code (src/jit.rs,
    src/x86.rs) in pages of its own (src/memory_management.rs).  Programs are written in
    an assembly language (src/asm_parser.rs, src/assembler.rs) and printed in it
    (src/disassembler.rs), and their control and data flow is analysed for tools
    (src/static_analysis.rs).

    ** Files

    - [Prelude]: outcomes of Rust code ([Exec]: a value, an error or a fault), machine
      integers as [Z] with their wrap-around, little-endian bytes, slices, and the
      lemmas and hints shared by all files.
    - [Text]: strings as lists of characters, numbers and their decimal and hexadecimal
      texts.
    - [Error] (src/error.rs): the error types and [StableResult].
    - [Ebpf] (src/ebpf.rs): the constants, all opcodes, the instruction struct, its
      encoding and decoding.  The crates byteorder and hash32 are the type classes
      [LittleEndian] and [Murmur3] with their documented behaviour as laws.
    - [Program] (src/program.rs, and [Config] of src/vm.rs): versions and their
      feature predicates, configuration, function registries, loaders.  A B-tree map
      is a finite map whose iteration is sorted by key.
    - [Verifier] (src/verifier.rs): [RequisiteVerifier::verify], its loop and its
      checks, and the independent predicate [well_formed_program].
    - [MemoryRegion] (src/memory_region.rs, [MemoryRegion]): address translation of one
      region, with gaps.
    - [MemoryMapping] (src/memory_region.rs): the identity, unaligned and aligned
      mappings with the search cache, region replacement, access violation handlers,
      [map], [load] and [store].  Interior mutability is explicit state passing; host
      memory is a finite map from addresses to bytes.
    - [MappingSearch]: the Eytzinger layout and its search against a linear scan, the
      cache, and the unaligned constructor.
    - [MappingAccess]: the aligned constructor, loads and stores against host memory,
      and the contract [HandlerOk] of an access violation handler.
    - [AlignedMemory] (src/aligned_memory.rs): aligned byte buffers over a [Vec] with
      its address, its capacity and its uninitialised bytes; the allocator is the type
      class [Allocator].
    - [ElfParser] (src/elf_parser): the structures of an ELF file, each read from its
      bytes (type class [ElfPod]), the parser with its checks, and lookups of names.
      A pointer cast is a read that faults outside of the file.
    - [InsnBuilder] (src/insn_builder.rs): the builder of programs, its trait a type
      class.
    - [Executable] (src/elf.rs): executables, and their creation from text bytes.
    - [AsmParser] (src/asm_parser.rs): the grammar of the assembly language, over the
      combinators of the crate combine, which are the type class [Combine] with its
      documented behaviour as laws and a reference instance; character classes are
      [UnicodeTables].
    - [AsmSource]: the statements that a source text parses to.
    - [Assembler] (src/assembler.rs): the table of instructions, encoding, the two passes.
    - [AssemblerPasses]: what the passes agree on, and that they do not fault.
    - [Cfg] (src/static_analysis.rs): the nodes of the control-flow graph and the edges of
      the data-flow graph.
    - [Disassembler] (src/disassembler.rs): the text of an instruction.
    - [AsmRoundTrip]: assembling what was disassembled.
    - [Pages] (src/memory_management.rs): pages of memory; the operating system is the
      type class [PageHost].
    - [X86] (src/x86.rs): x86 instructions and their encoding; [X86Decode]: a decoder of machine
      code, written from the rules of the architecture, and that it inverts the emitter;
      [X86Assembly]: decoded bytes as assembly, and what each constructor stands for;
      [X86Semantics]: what the instructions of arithmetic and comparisons do to registers, memory
      and flags, and how code runs from its bytes.
    - [Jit] (src/jit.rs): the state of the compiler, a state-and-error monad on it, and
      every function that emits code; random numbers are the type class [Rand], the
      layout of the host and the addresses of its functions are [JitHost].
    - [JitSubroutines], [JitCompile] (src/jit.rs): the subroutines behind the anchors;
      the arms of the compiler in source order, its loop, the resolution of jumps, the
      creation and sealing of the pages.
    - [JitAlu]: what the code that the compiler emits for guest arithmetic computes, its sanitised
      constants, shifts and byte swaps included; [JitCompare]: the flags that the code of guest
      comparisons leaves, and the conditions of the branches behind it.
    - [ElfLoader] (src/elf.rs, [Executable::load]): the strict loader of version 3 and
      later, and the lenient loader of earlier versions with validation, relocation and
      the gathering of read-only sections.  Writes of byteorder are the type class
      [LittleEndianWrite]; texts inside of errors are [ErrorText].
    - [LoaderSafety]: every function of the loader cannot fault and what it returns is
      well-formed; calls keep their targets.
    - [ReadonlySections]: what guests see of the read-only sections.
    - [Relocation]: what relocated pairs of slots load.
    - [Vm] (src/vm.rs): context objects (type class [ContextObject] with the laws
      [MeterLaws]), call frames, the machine, syscalls as functions on the machine.
    - [Interpreter] (src/interpreter.rs, and [execute_program] of src/vm.rs): one step
      with every arm of the source's match in its order, in a state-and-error monad,
      frames, calls, syscalls and the run loop.
    - [InterpreterSafety]: the invariant of a running machine, and that every arm of
      the step preserves it and cannot fault on a verified program.
    - [JitSafety]: a Hoare logic for emitters, with a bound on the bytes they write, the
      anchors they need and set, and the jumps they leave to resolve.
    - [JitEmitters], [JitArms], [JitBranches]: that logic applied to the emitters and the
      subroutines, to every instruction of a verified program, and to its jumps.
    - [JitCode], [JitCompilation]: the invariant of the loop over the instructions, the
      resolution of jumps, the pages, and the theorems about whole compilations.
    - [Aarch64] (src/aarch64.rs): AArch64 instructions, the words they are emitted as, and
      their constructors; [ArmEncoding]: a disassembler of such words, by the classes, fields
      and aliases of the architecture, and the instruction each constructor stands for.
    - [Execution]: the theorems about whole executions; [ExecutionLimits]: the executions that
      fault, on machines used again after an error and without metering.
    - [JitSimulation]: compiled arithmetic and jumps against the steps of the interpreter.
    - [LoadedExecution]: loading, verifying and executing in one theorem.
    - [Debugger] (src/debugger.rs): what a gdb client can do to the interpreter, packets and
      descriptions, and the loop of a session; the state machine of the crate gdbstub is the
      type class [GdbStub], which reaches the interpreter through a tree of calls.
    - [DebugSession]: debugged runs against runs without a debugger.
    - [TestSyscalls] (test_utils/src/syscalls.rs): the syscalls of the tests and their context object.
    - [TestUtils] (test_utils/src/lib.rs): the memory mapping and the machine of a test.
    - [GrammarAware], [SemanticAware], [FuzzTargets] (fuzz/fuzz_targets): the generators of
      programs, the configurations, and the targets that run the interpreter and the verifier.
    - [StaticAnalysis], [Tarjan], [Dominance], [DataFlow], [Analyzer]
      (src/static_analysis.rs): the analysis of an executable for tools, as state passing
      on [Analysis]: basic blocks, labels and the printed disassembly; strongly connected
      components, with the explicit stack of the source, the topological order and the
      super root; the hierarchy of dominators; data flow inside of blocks and between
      them; and [from_executable], which runs them in order, with the register trace and its
      branch counters (src/vm.rs, [DynamicAnalysis]).
    - [TarjanProof], [TarjanCfg]: the invariant of the search for components and its end;
      what it means for the graph.
    - [BasicBlocks]: the specification of the split into blocks.
    - [DominanceOrder]: dominators on graphs without cycles, and of settled rounds.
    - [DataFlowProof]: the propagation between blocks ends, and where.

    ** What the theorems show

    - Execution (C1, C2, C4, C17, C18): a program that
      passes the verifier, made from text bytes or loaded from any ELF file, runs
      without faults, within its meter, and its instruction count is what was taken
      from the meter; the verifier and the interpreter agree on the instruction set of
      every version; calls and returns preserve the caller's registers; divisions and
      wide multiplications compute the mathematical results on every branch.
    - Verifier (C3, C19): it accepts exactly the
      well-formed programs, and always stops.
    - Memory (C5, C6, C15, C16): the optimised search equals the
      linear scan in every reachable state; translation is exact (and
      tests the gaps only for the first byte of an access); stores change exactly the host bytes that the
      guest address stands for, in a writable region, or nothing; loads read
      what was stored; the unaligned constructor accepts exactly the region sets it should.
    - Files (C20, C10, C11, C21, C22): the parser and the loaders
      cannot fault on any input (labels of version 3 files aside,
      [LoaderSafety.strict_labels_panic]); a parsed file has the layout its headers describe;
      a loaded executable has its sections and
      its entry point in bounds; relocated calls keep their targets and relocated loads
      yield the addresses they should; guests see read-only sections at their addresses.
    - Buffers (C23): aligned memory refines a
      bounded append-only log.
    - Encoding (C24): built programs decode to what was asked for.
    - Assembly (C12, C13, C14, C25): a disassembly assembles to the
      bytes it was made from; a label is the slot of the instruction behind it; assembled
      text decodes to the instructions emitted; the assembler does not fault on sources of
      a reasonable size; the parser reads the sources of a stated
      grammar.
    - Compilation (C7, C8, C9): compiling a verified executable cannot fault and
      writes only into its own pages; guest jumps become machine branches to the code of their
      targets, taken by the processor exactly when the interpreter jumps; the machine code of guest
      arithmetic, run by the processor, changes the registers as the interpreter does.
    - x86 (C36): the bytes emitted for a call of a constructor disassemble to the
      instruction its name and arguments stand for.
    - Analysis (C26, C27, C28, C29, C30, C31): the blocks
      partition the instructions and their edges are those of the last instruction; the
      components are those of mutual reachability, in topological order; dominators are
      dominators, immediate ones on graphs without cycles; data flow inside of blocks is
      that of the last writes, where the analysis knows the instructions of the version, and between blocks it settles; the whole analysis returns.
    - Debugging (C32): a debugged program stops at its first breakpoint or ends as it
      does without a debugger, and inspection does not disturb it.
    - Tests (C33): the machine made for a test can be made for every file that
      loads and verifies, and runs it safely under syscalls that meet their contract; the syscalls that write and compare memory do what they are named for.
    - Fuzzing (C34, C35): the targets that run the interpreter return, and the
      programs generated with the feature only-verified verify, outside of version 2 and without legacy loads.
    - AArch64 (C37): likewise for the words of AArch64.
    - Limits (C38, C39, C40): behaviours of the code that
      its documentation or its use does not intend, each with the general condition under which
      it occurs.

    ** Conventions, bounds and fuel

    A Rust integer is a [Z] in its range ([in_u], [in_s]); casts, wrapping, saturating
    and checked operations are written out.  Plain operators fault on overflow, as in
    a build with overflow checks, so that a theorem without faults holds for either
    build profile.  [usize] has 64 bits and the host is little-endian.  Slices are not
    longer than [isize::MAX] bytes ([slice_len_ok]), as in Rust.  Loops whose recursion
    is not structural take fuel: the verifier's loop takes the length of the program,
    the Eytzinger search one more than the number of regions, the filling of an aligned
    mapping one more than the number of blocks and regions, a decimal number 20 digits
    (what a [usize] has at most), a run one more than the meter, and
    the compiler's count of slots and its loop the length of the program.  In the analysis,
    the decoding of instructions takes the length of the text, the search for components
    one more than twice the number of nodes, the meeting of two nodes in the hierarchy of
    dominators twice the number of nodes, and the propagation of data flow one more than
    the number of possible edges.  A debugging session may last as long as its client
    wants and takes fuel for its turns.  The rounds of the dominator loop are a parameter: two
    are enough on graphs without cycles, and for others no bound is claimed.  Running out of fuel is the fault [OutOfFuel], and the theorems that exclude
    faults therefore prove that the fuel suffices.

    ** Not modelled

    [JitProgram::invoke] (src/jit.rs), inline assembly that enters the machine code, and the
    semantics of the x86 instructions that access guest memory, call, return and divide: for the
    instruction classes that use them the theorems about compilation are about what is written,
    where, and how it is linked.  [visualize_graphically] of src/static_analysis.rs,
    which writes an analysis as a dot file; the connection of the debugger; the command
    line, the fuzz targets that compare with machine code, benchmarks, and the macros and
    constants of the tests; the [mem_size] estimates of executables and registries, and text
    formatting.  These are input and output, code that runs outside of the model's machine, or
    text for people. *)
From Stdlib Require Export ZArith Lia.
From stdpp Require Export base numbers gmap tactics list.
#[export] Set Default Goal Selector "!".
Open Scope Z_scope.

(** * Outcomes of Rust code *)

(** Ways in which Rust code stops without returning a value. *)
Inductive Fault :=
  | IndexOutOfBounds       (** a checked index or slice range is out of bounds *)
  | ArithmeticOverflow     (** plain [+], [-], [*] leaves the range of its type *)
  | DivisionByZeroFault    (** plain [/] or [%] by zero *)
  | UnwrapNone             (** [unwrap] on [None] or [Err] *)
  | DebugAssertFailed      (** an assertion is false, or [panic!] or [unreachable!] is reached *)
  | InvalidHostAccess      (** a raw pointer access outside of host memory *)
  | UninitializedRead      (** bytes are read that were never written *)
  | CapacityOverflow       (** a [Vec] would exceed [isize::MAX] bytes *)
  | AlignNotPowerOfTwo     (** [align_offset] with an invalid alignment *)
  | OutOfFuel.             (** the model's bound on a loop was too small *)

(** A computation returns a value, returns an error, or stops with a fault. *)
Inductive Exec (E A : Type) :=
  | Ret (a : A)
  | Err (e : E)
  | Panic (f : Fault).
Arguments Ret {E A} a.
Arguments Err {E A} e.
Arguments Panic {E A} f.

Definition exec_bind {E A B} (m : Exec E A) (k : A -> Exec E B) : Exec E B :=
  match m with
  | Ret a => k a
  | Err e => Err e
  | Panic f => Panic f
  end.

Declare Scope rust_scope.
Delimit Scope rust_scope with rust.
Notation "'let!' x := m 'in' k" := (exec_bind m (fun x => k))
  (at level 10, x pattern, m at level 100, k at level 200) : rust_scope.
Notation "m ;; k" := (exec_bind m (fun _ => k))
  (at level 100, k at level 200, right associativity) : rust_scope.

Definition is_panic {E A} (m : Exec E A) : bool :=
  match m with Panic _ => true | _ => false end.

(** [option] used where Rust unwraps or indexes. *)
Definition expect {E A} (f : Fault) (o : option A) : Exec E A :=
  match o with Some a => Ret a | None => Panic f end.

Definition exec_map_err {E F A} (g : E -> F) (m : Exec E A) : Exec F A :=
  match m with Ret a => Ret a | Err e => Err (g e) | Panic f => Panic f end.

(** Guards of a [match] with conditions: the first arm whose pattern and guard
    hold is taken. *)
Fixpoint first_arm {A} (arms : list (bool * A)) : option A :=
  match arms with
  | [] => None
  | (g, a) :: rest => if g then Some a else first_arm rest
  end.

Fixpoint first_true (gs : list bool) : option nat :=
  match gs with
  | [] => None
  | true :: _ => Some O
  | false :: gs => S <$> first_true gs
  end.

(** One arm: a pattern with its guard, and the code it runs. *)
Notation "g ==>> a" := (g, fun _ : unit => a) (at level 95, a at level 200) : rust_scope.

(** The pattern [A | B | ...] on an opcode. *)
Definition opc_in (o : Z) (opcs : list Z) : bool := existsb (Z.eqb o) opcs.

(** * Machine integers

    An integer of a Rust type is a [Z] in the range of the type.  The cast
    [e as uN] is [uwrap N e], the cast [e as iN] is [swrap N e]. *)

Definition uwrap (w z : Z) : Z := z mod 2 ^ w.
Definition swrap (w z : Z) : Z :=
  let m := z mod 2 ^ w in if m <? 2 ^ (w - 1) then m else m - 2 ^ w.

Definition as_u8 : Z -> Z := uwrap 8.
Definition as_u16 : Z -> Z := uwrap 16.
Definition as_u32 : Z -> Z := uwrap 32.
Definition as_u64 : Z -> Z := uwrap 64.
Definition as_u128 : Z -> Z := uwrap 128.
Definition as_i16 : Z -> Z := swrap 16.
Definition as_i32 : Z -> Z := swrap 32.
Definition as_i64 : Z -> Z := swrap 64.
Definition as_i128 : Z -> Z := swrap 128.

Definition in_u (w z : Z) : Prop := 0 <= z < 2 ^ w.
Definition in_s (w z : Z) : Prop := - 2 ^ (w - 1) <= z < 2 ^ (w - 1).

#[export] Instance in_u_dec (w z : Z) : Decision (in_u w z).
Proof. unfold in_u. apply _. Defined.
#[export] Instance in_s_dec (w z : Z) : Decision (in_s w z).
Proof. unfold in_s. apply _. Defined.

Definition u64_max : Z := 2 ^ 64 - 1.
Definition i64_max : Z := 2 ^ 63 - 1.
Definition i64_min : Z := - 2 ^ 63.
Definition i32_max : Z := 2 ^ 31 - 1.
Definition i32_min : Z := - 2 ^ 31.

(** Saturating operations. *)
Definition u64_saturating_add (a b : Z) : Z := Z.min (a + b) u64_max.
Definition u64_saturating_sub (a b : Z) : Z := Z.max (a - b) 0.
Definition u64_saturating_mul (a b : Z) : Z := Z.min (a * b) u64_max.
Definition i64_saturate (z : Z) : Z := Z.max i64_min (Z.min z i64_max).
Definition i64_saturating_add (a b : Z) : Z := i64_saturate (a + b).
Definition i64_saturating_sub (a b : Z) : Z := i64_saturate (a - b).

(** Checked operations: [None] on overflow. *)
Definition u64_checked_add (a b : Z) : option Z :=
  if a + b <=? u64_max then Some (a + b) else None.

(** Plain operators: a fault on overflow, as in the debug profile. *)
Definition u64_add {E} (a b : Z) : Exec E Z :=
  if a + b <=? u64_max then Ret (a + b) else Panic ArithmeticOverflow.
Definition u64_sub {E} (a b : Z) : Exec E Z :=
  if b <=? a then Ret (a - b) else Panic ArithmeticOverflow.
Definition u64_mul {E} (a b : Z) : Exec E Z :=
  if a * b <=? u64_max then Ret (a * b) else Panic ArithmeticOverflow.
Definition i64_add {E} (a b : Z) : Exec E Z :=
  if (i64_min <=? a + b) && (a + b <=? i64_max) then Ret (a + b)
  else Panic ArithmeticOverflow.
Definition i64_sub {E} (a b : Z) : Exec E Z :=
  if (i64_min <=? a - b) && (a - b <=? i64_max) then Ret (a - b)
  else Panic ArithmeticOverflow.
Definition i64_mul {E} (a b : Z) : Exec E Z :=
  if (i64_min <=? a * b) && (a * b <=? i64_max) then Ret (a * b)
  else Panic ArithmeticOverflow.
Definition unsigned_div {E} (a b : Z) : Exec E Z :=
  if b =? 0 then Panic DivisionByZeroFault else Ret (a / b).
Definition unsigned_rem {E} (a b : Z) : Exec E Z :=
  if b =? 0 then Panic DivisionByZeroFault else Ret (a mod b).
(** Signed division truncates; [MIN / -1] overflows. *)
Definition signed_div {E} (w a b : Z) : Exec E Z :=
  if b =? 0 then Panic DivisionByZeroFault
  else if (a =? - 2 ^ (w - 1)) && (b =? -1) then Panic ArithmeticOverflow
  else Ret (Z.quot a b).
Definition signed_rem {E} (w a b : Z) : Exec E Z :=
  if b =? 0 then Panic DivisionByZeroFault
  else if (a =? - 2 ^ (w - 1)) && (b =? -1) then Panic ArithmeticOverflow
  else Ret (Z.rem a b).

(** [wrapping_shl] and [wrapping_shr] take the shift modulo the width; on a
    signed type [wrapping_shr] is arithmetic, which [Z.shiftr] is. *)
Definition u_wrapping_shl (w a s : Z) : Z := uwrap w (Z.shiftl a (s mod w)).
Definition wrapping_shr (w a s : Z) : Z := Z.shiftr a (s mod w).

(** Bytes of an integer, least significant first, and back. *)
Fixpoint le_bytes (n : nat) (z : Z) : list Z :=
  match n with
  | O => []
  | S n => as_u8 z :: le_bytes n (Z.shiftr z 8)
  end.
Fixpoint le_value (bs : list Z) : Z :=
  match bs with
  | [] => 0
  | b :: bs => Z.lor b (Z.shiftl (le_value bs) 8)
  end.
(** [to_be] on a little-endian host. *)
Definition swap_bytes (n : nat) (z : Z) : Z := le_value (reverse (le_bytes n z)).

Definition is_byte (b : Z) : Prop := in_u 8 b.
#[export] Instance is_byte_dec (b : Z) : Decision (is_byte b).
Proof. unfold is_byte. apply _. Defined.
Abbreviation bytes_ok := (Forall is_byte).

(** Slices: indexing faults out of range. *)
Definition index_slice {E A} (l : list A) (i : Z) : Exec E A :=
  if i <? 0 then Panic IndexOutOfBounds else expect IndexOutOfBounds (l !! Z.to_nat i).
(** [array[index] = value] *)
Definition set_index {E A} (l : list A) (i : Z) (a : A) : Exec E (list A) :=
  exec_bind (index_slice l i) (fun _ => Ret (<[Z.to_nat i := a]> l)).
Definition slice_from {E A} (l : list A) (i : Z) : Exec E (list A) :=
  if (0 <=? i) && (i <=? Z.of_nat (length l)) then Ret (drop (Z.to_nat i) l)
  else Panic IndexOutOfBounds.
Definition zlen {A} (l : list A) : Z := Z.of_nat (length l).

(** * Lemmas *)

Create HintDb machine.

Lemma pow2_pos (w : Z) : 0 <= w -> 0 < 2 ^ w.
Proof. intros. apply Z.pow_pos_nonneg; lia. Qed.

Lemma pow2_double (w : Z) : 0 < w -> 2 ^ w = 2 * 2 ^ (w - 1).
Proof. intros. rewrite <-Z.pow_succ_r by lia. f_equal. lia. Qed.

Lemma uwrap_range (w z : Z) : 0 <= w -> in_u w (uwrap w z).
Proof. intros. apply Z.mod_pos_bound, pow2_pos. lia. Qed.

Lemma swrap_range (w z : Z) : 0 < w -> in_s w (swrap w z).
Proof.
  intros Hw. unfold in_s, swrap.
  pose proof (Z.mod_pos_bound z (2 ^ w) (pow2_pos w ltac:(lia))).
  rewrite (pow2_double w) in * by lia.
  destruct (Z.ltb_spec (z mod (2 * 2 ^ (w - 1))) (2 ^ (w - 1))); lia.
Qed.

Lemma uwrap_small (w z : Z) : in_u w z -> uwrap w z = z.
Proof. intros. by apply Z.mod_small. Qed.

Lemma swrap_mod (w z : Z) : 0 < w -> (swrap w z) mod 2 ^ w = z mod 2 ^ w.
Proof.
  intros. unfold swrap. pose proof (pow2_pos w ltac:(lia)).
  destruct (_ <? _); [by rewrite Z.mod_mod by lia|].
  rewrite Zminus_mod, Z.mod_same, Z.sub_0_r, !Z.mod_mod by lia. done.
Qed.

Lemma uwrap_swrap (w z : Z) : 0 < w -> uwrap w (swrap w z) = uwrap w z.
Proof. apply swrap_mod. Qed.

Lemma swrap_uwrap (w z : Z) : 0 <= w -> swrap w (uwrap w z) = swrap w z.
Proof.
  intros. unfold swrap, uwrap. pose proof (pow2_pos w ltac:(lia)).
  by rewrite Z.mod_mod by lia.
Qed.

Lemma uwrap_uwrap (w v z : Z) : 0 <= w <= v -> uwrap w (uwrap v z) = uwrap w z.
Proof.
  intros. unfold uwrap. replace v with (w + (v - w)) by lia.
  rewrite Z.pow_add_r by lia.
  rewrite Z.rem_mul_r by (pose proof (pow2_pos w); pose proof (pow2_pos (v - w)); lia).
  rewrite Zplus_mod, (Z.mul_comm (2 ^ w)), Z.mod_mul, Z.add_0_r, !Z.mod_mod
    by (pose proof (pow2_pos w); lia).
  done.
Qed.

Lemma swrap_small (w z : Z) : 0 < w -> in_s w z -> swrap w z = z.
Proof.
  unfold in_s, swrap. intros Hw Hz. rewrite (pow2_double w) in * by lia.
  pose proof (pow2_pos (w - 1) ltac:(lia)).
  destruct (Z_lt_ge_dec z 0).
  - replace (z mod (2 * 2 ^ (w - 1))) with (z + 2 * 2 ^ (w - 1)).
    + destruct (Z.ltb_spec (z + 2 * 2 ^ (w - 1)) (2 ^ (w - 1))); lia.
    + apply Z.mod_unique_pos with (-1); lia.
  - rewrite Z.mod_small by lia. destruct (Z.ltb_spec z (2 ^ (w - 1))); lia.
Qed.

Lemma swrap_zero (w z : Z) : 0 < w -> in_s w z -> (uwrap w z = 0 <-> z = 0).
Proof.
  intros Hw Hz. split; [|intros ->; apply Z.mod_0_l; pose proof (pow2_pos w); lia].
  intros H0. rewrite <-(swrap_small w z), <-(swrap_uwrap w z), H0 by (done || lia).
  unfold swrap. rewrite Z.mod_0_l by (pose proof (pow2_pos w); lia).
  destruct (Z.ltb_spec 0 (2 ^ (w - 1))); [done|].
  pose proof (pow2_pos (w - 1)). lia.
Qed.

(** Bit operations stay in an unsigned range. *)
Lemma in_u_testbit (w z : Z) :
  0 <= w -> 0 <= z -> (in_u w z <-> forall i, w <= i -> Z.testbit z i = false).
Proof.
  intros Hw Hz. split.
  - intros [_ Hlt] i Hi. destruct (Z.eq_dec z 0) as [->|]; [apply Z.testbit_0_l|].
    apply Z.bits_above_log2; [lia|].
    apply Z.lt_le_trans with w; [|lia]. apply Z.log2_lt_pow2; lia.
  - intros Hbits. split; [done|].
    destruct (Z.eq_dec z 0) as [->|]; [by apply pow2_pos|].
    apply Z.log2_lt_pow2; [lia|]. destruct (Z_lt_ge_dec (Z.log2 z) w); [done|].
    assert (Z.testbit z (Z.log2 z) = false) by (apply Hbits; lia).
    rewrite Z.bit_log2 in *; (congruence || lia).
Qed.

Lemma lor_range (w a b : Z) : 0 <= w -> in_u w a -> in_u w b -> in_u w (Z.lor a b).
Proof.
  intros Hw [Ha0 Ha] [Hb0 Hb]. apply in_u_testbit; [done|by apply Z.lor_nonneg|].
  intros i Hi. rewrite Z.lor_spec.
  rewrite (proj1 (in_u_testbit w a Hw Ha0)), (proj1 (in_u_testbit w b Hw Hb0)); done.
Qed.

Lemma lxor_range (w a b : Z) : 0 <= w -> in_u w a -> in_u w b -> in_u w (Z.lxor a b).
Proof.
  intros Hw [Ha0 Ha] [Hb0 Hb]. apply in_u_testbit; [done|by apply Z.lxor_nonneg|].
  intros i Hi. rewrite Z.lxor_spec.
  rewrite (proj1 (in_u_testbit w a Hw Ha0)), (proj1 (in_u_testbit w b Hw Hb0)); done.
Qed.

Lemma land_range (w a b : Z) : 0 <= w -> in_u w a -> in_u w (Z.land a b).
Proof.
  intros Hw [Ha0 Ha]. apply in_u_testbit; [done|apply Z.land_nonneg; auto|].
  intros i Hi. rewrite Z.land_spec, (proj1 (in_u_testbit w a Hw Ha0)); done.
Qed.

Lemma shiftr_range (w a s : Z) : 0 <= s -> in_u w a -> in_u w (Z.shiftr a s).
Proof.
  intros Hs [Ha0 Ha]. rewrite Z.shiftr_div_pow2 by done.
  pose proof (pow2_pos s Hs). split; [apply Z.div_pos; lia|].
  apply Z.le_lt_trans with a; [|done]. apply Z.div_le_upper_bound; nia.
Qed.

Lemma wrapping_shr_range (w a s : Z) : 0 < w -> in_u w a -> in_u w (wrapping_shr w a s).
Proof. intros. apply shiftr_range; [apply Z.mod_pos_bound; lia|done]. Qed.

Lemma div_range (w a b : Z) : 0 <= b -> in_u w a -> in_u w (a / b).
Proof.
  intros Hb [Ha0 Ha]. destruct (Z.eq_dec b 0) as [->|]; [rewrite Z.div_0_r; split; lia|].
  split; [apply Z.div_pos; lia|].
  apply Z.le_lt_trans with a; [|done]. apply Z.div_le_upper_bound; nia.
Qed.

Lemma mod_range (w a b : Z) : 0 <= b -> in_u w a -> in_u w (a mod b).
Proof.
  intros Hb [Ha0 Ha]. destruct (Z.eq_dec b 0) as [->|]; [rewrite Z.mod_0_r; split; lia|].
  pose proof (Z.mod_pos_bound a b). pose proof (Z.mod_le a b). split; lia.
Qed.

Lemma in_u_weaken (w v z : Z) : 0 <= w <= v -> in_u w z -> in_u v z.
Proof.
  intros ? [? ?]. split; [done|]. apply Z.lt_le_trans with (2 ^ w); [done|].
  apply Z.pow_le_mono_r; lia.
Qed.

(** ** Little-endian bytes *)

Lemma length_le_bytes (n : nat) (z : Z) : length (le_bytes n z) = n.
Proof. revert z. induction n; intros; simpl; auto. Qed.

Lemma le_bytes_ok (n : nat) (z : Z) : bytes_ok (le_bytes n z).
Proof. revert z. induction n; intros; simpl; constructor; auto. by apply uwrap_range. Qed.

Lemma lor_shiftl_add (k b v : Z) :
  0 <= k -> in_u k b -> Z.lor b (Z.shiftl v k) = b + v * 2 ^ k.
Proof.
  intros Hk [Hb0 Hb]. rewrite <-Z.shiftl_mul_pow2, <-Z.add_lor_land by done.
  enough (Z.land b (Z.shiftl v k) = 0) by lia.
  apply Z.bits_inj'. intros i Hi. rewrite Z.land_spec, Z.testbit_0_l.
  destruct (Z_lt_ge_dec i k).
  - rewrite Z.shiftl_spec_low by lia. apply andb_false_r.
  - rewrite (proj1 (in_u_testbit k b Hk Hb0)); [done|by split|lia].
Qed.

Lemma le_value_cons (b : Z) (bs : list Z) :
  is_byte b -> le_value (b :: bs) = b + 256 * le_value bs.
Proof. intros. simpl. rewrite lor_shiftl_add by (done || lia). lia. Qed.

Lemma le_value_range (bs : list Z) : bytes_ok bs -> in_u (8 * zlen bs) (le_value bs).
Proof.
  unfold zlen. induction 1 as [|b bs Hb Hbs IH]; [simpl; unfold in_u; lia|].
  rewrite le_value_cons by done. simpl length. unfold is_byte, in_u in *.
  replace (8 * Z.of_nat (S (length bs))) with (8 + 8 * Z.of_nat (length bs)) by lia.
  rewrite Z.pow_add_r by lia. lia.
Qed.

Lemma le_value_le_bytes (n : nat) (z : Z) : le_value (le_bytes n z) = uwrap (8 * Z.of_nat n) z.
Proof.
  revert z. induction n as [|n IH]; intros z; cbn [le_bytes].
  - symmetry. apply Z.mod_1_r.
  - rewrite le_value_cons by by apply uwrap_range. rewrite IH.
    unfold as_u8, uwrap. rewrite Z.shiftr_div_pow2 by lia.
    replace (8 * Z.of_nat (S n)) with (8 + 8 * Z.of_nat n) by lia.
    rewrite Z.pow_add_r, Z.rem_mul_r by (lia || pose proof (pow2_pos (8 * Z.of_nat n)); lia).
    done.
Qed.

Lemma le_bytes_le_value (bs : list Z) :
  bytes_ok bs -> le_bytes (length bs) (le_value bs) = bs.
Proof.
  induction 1 as [|b bs Hb Hbs IH]; [done|]. cbn [length le_bytes].
  rewrite le_value_cons by done. f_equal.
  - unfold as_u8, uwrap. rewrite Z.mul_comm, Z.mod_add by lia.
    by apply Z.mod_small.
  - rewrite Z.shiftr_div_pow2 by lia. change (2 ^ 8) with 256.
    rewrite Z.add_comm, Z.mul_comm, Z.div_add_l, (Z.div_small b), Z.add_0_r by (done || lia).
    done.
Qed.

Lemma swap_bytes_range (n : nat) (z : Z) : in_u (8 * Z.of_nat n) (swap_bytes n z).
Proof.
  unfold swap_bytes. rewrite <-(length_le_bytes n z) at 1. rewrite <-length_reverse.
  apply le_value_range, Forall_reverse, le_bytes_ok.
Qed.

Lemma swap_bytes_involutive (n : nat) (z : Z) :
  in_u (8 * Z.of_nat n) z -> swap_bytes n (swap_bytes n z) = z.
Proof.
  intros Hz. unfold swap_bytes.
  set (bs := reverse (le_bytes n z)).
  replace n with (length bs) at 1 by (unfold bs; by rewrite length_reverse, length_le_bytes).
  rewrite le_bytes_le_value by apply Forall_reverse, le_bytes_ok.
  unfold bs. by rewrite reverse_involutive, le_value_le_bytes, uwrap_small.
Qed.

(** ** Outcomes *)

(** No fault, and the value returned, if any, satisfies [Q]. *)
Definition safe {E A} (m : Exec E A) (Q : A -> Prop) : Prop :=
  match m with Ret a => Q a | Err _ => True | Panic _ => False end.

Lemma safe_bind {E A B} (P : A -> Prop) (Q : B -> Prop) (m : Exec E A) (k : A -> Exec E B) :
  safe m P -> (forall a, P a -> safe (k a) Q) -> safe (exec_bind m k) Q.
Proof. destruct m; cbn; auto. Qed.
Lemma safe_mono {E A} (P Q : A -> Prop) (m : Exec E A) : safe m P -> (forall a, P a -> Q a) -> safe m Q.
Proof. destruct m; cbn; auto. Qed.
Lemma safe_and {E A} (P Q : A -> Prop) (m : Exec E A) : safe m P -> safe m Q -> safe m (fun a => P a /\ Q a).
Proof. destruct m; cbn; auto. Qed.
Lemma safe_map_err {E F A} (Q : A -> Prop) (g : E -> F) (m : Exec E A) :
  safe m Q -> safe (exec_map_err g m) Q.
Proof. by destruct m. Qed.
Lemma safe_no_panic {E A} (m : Exec E A) (Q : A -> Prop) : safe m Q -> is_panic m = false.
Proof. by destruct m. Qed.
Lemma bind_Ret {E A B} (m : Exec E A) (k : A -> Exec E B) (b : B) :
  exec_bind m k = Ret b -> exists a, m = Ret a /\ k a = Ret b.
Proof. destruct m; cbn; [eauto|done..]. Qed.

(** ** Arms of a [match] *)

Lemma first_arm_Some {A} (arms : list (bool * A)) (a : A) :
  first_arm arms = Some a -> (true, a) ∈ arms.
Proof.
  induction arms as [|[[] a'] arms IH]; simpl; intros; simplify_eq; [left|right; auto].
Qed.

Lemma first_arm_Forall {A} (P : A -> Prop) (arms : list (bool * A)) :
  Forall (fun arm : bool * A => arm.1 = true -> P arm.2) arms ->
  forall a, first_arm arms = Some a -> P a.
Proof.
  intros HF a Ha%first_arm_Some. rewrite Forall_forall in HF. by apply (HF _ Ha).
Qed.

Lemma first_arm_first_true {A} (arms : list (bool * A)) :
  first_arm arms = first_true (fst <$> arms) ≫= fun i => snd <$> arms !! i.
Proof.
  induction arms as [|[[] a] arms IH]; simpl; [done|done|].
  rewrite IH. by destruct (first_true _).
Qed.

Lemma first_true_lookup (gs : list bool) (i : nat) : first_true gs = Some i -> gs !! i = Some true.
Proof.
  revert i. induction gs as [|[] gs IH]; intros i; simpl; [done|by intros [= <-]|].
  destruct (first_true gs); simpl; intros; simplify_eq. by apply IH.
Qed.

Lemma first_arm_app {A} (l1 l2 : list (bool * A)) :
  first_arm (l1 ++ l2) = match first_arm l1 with Some a => Some a | None => first_arm l2 end.
Proof. induction l1 as [|[[] a] l1 IH]; simpl; auto. Qed.

(** ** Slices *)

Lemma u64_add_small {E} (a b : Z) : a + b < 2 ^ 64 -> u64_add (E := E) a b = Ret (a + b).
Proof. intros. unfold u64_add, u64_max. by rewrite (proj2 (Z.leb_le _ _)) by lia. Qed.

Lemma u64_saturating_add_small (a b : Z) : a + b < 2 ^ 64 -> u64_saturating_add a b = a + b.
Proof. unfold u64_saturating_add, u64_max. lia. Qed.

Lemma zlen_app {A} (l k : list A) : zlen (l ++ k) = zlen l + zlen k.
Proof. unfold zlen. rewrite length_app. lia. Qed.
Lemma zlen_fmap {A B} (f : A -> B) (l : list A) : zlen (f <$> l) = zlen l.
Proof. unfold zlen. by rewrite length_fmap. Qed.
Lemma zlen_replicate {A} (n : Z) (x : A) : 0 <= n -> zlen (replicate (Z.to_nat n) x) = n.
Proof. unfold zlen. rewrite length_replicate. lia. Qed.
Lemma zlen_nonneg {A} (l : list A) : 0 <= zlen l.
Proof. unfold zlen. lia. Qed.
Lemma to_nat_zlen {A} (l : list A) : Z.to_nat (zlen l) = length l.
Proof. unfold zlen. lia. Qed.
Lemma zlen_drop {A B} (l : list A) (k : list B) : zlen k <= zlen l -> zlen (drop (length k) l) = zlen l - zlen k.
Proof. unfold zlen. rewrite length_drop. lia. Qed.
Lemma zlen_cons {A} (a : A) (l : list A) : zlen (a :: l) = 1 + zlen l.
Proof. unfold zlen. cbn [length]. lia. Qed.
Lemma zlen_insert {A} (i : nat) (a : A) (l : list A) : zlen (<[i := a]> l) = zlen l.
Proof. unfold zlen. by rewrite length_insert. Qed.
Lemma zlen_if {A} (b : bool) (l k : list A) : zlen (if b then l else k) = if b then zlen l else zlen k.
Proof. by destruct b. Qed.

Lemma set_index_Ret {E A} (l : list A) (i : Z) (a : A) :
  0 <= i < zlen l -> @set_index E A l i a = Ret (<[Z.to_nat i := a]> l).
Proof.
  intros Hi. unfold set_index, index_slice, zlen in *.
  destruct (lookup_lt_is_Some_2 l (Z.to_nat i)) as [x ->]; [lia|]. by destruct (Z.ltb_spec i 0); [lia|].
Qed.

Lemma index_slice_lookup {E A} (l : list A) (i : Z) (a : A) :
  0 <= i -> l !! Z.to_nat i = Some a -> @index_slice E A l i = Ret a.
Proof. unfold index_slice. intros Hi ->. by destruct (Z.ltb_spec i 0); [lia|]. Qed.

Lemma index_slice_Ret {E A} (l : list A) (i : Z) :
  0 <= i < zlen l -> exists a, l !! Z.to_nat i = Some a /\ @index_slice E A l i = Ret a.
Proof.
  unfold zlen, index_slice. intros Hi.
  destruct (lookup_lt_is_Some_2 l (Z.to_nat i)) as [a Ha]; [lia|].
  exists a. split; [done|]. rewrite Ha. by destruct (Z.ltb_spec i 0); [lia|].
Qed.

Lemma index_slice_inv {E A} (l : list A) (i : Z) (a : A) :
  @index_slice E A l i = Ret a -> 0 <= i < zlen l /\ l !! Z.to_nat i = Some a.
Proof.
  unfold zlen, index_slice. destruct (Z.ltb_spec i 0); [done|].
  destruct (l !! Z.to_nat i) eqn:Hl; simpl; intros; simplify_eq.
  split; [|done]. apply lookup_lt_Some in Hl. lia.
Qed.

Lemma slice_from_Ret {E A} (l : list A) (i : Z) :
  0 <= i <= zlen l -> @slice_from E A l i = Ret (drop (Z.to_nat i) l).
Proof.
  unfold zlen, slice_from. intros.
  destruct (Z.leb_spec 0 i); [|lia]. by destruct (Z.leb_spec i (Z.of_nat (length l))); [|lia].
Qed.

#[export] Hint Resolve uwrap_range swrap_range lor_range lxor_range land_range
  wrapping_shr_range le_bytes_ok swap_bytes_range : machine.
