(* ===== verification/Text.v ===== *)
(** Text as the Rust code has it: a [String] is the list of its characters (Unicode scalar
    values); its bytes are its UTF-8 encoding.  Formatting of integers ([{}], [{:#x}]),
    parsing of integers ([str::parse], [from_str_radix]) and the character classes of
    the standard library that the assembler uses. *)
From Stdlib Require Import String Ascii.
From S2P Require Import Prelude.
Open Scope list_scope.

(** * Literals *)

Definition char_code (a : ascii) : Z := Z.of_N (N_of_ascii a).

(** A string literal; its characters are ASCII, so it is also its bytes. *)
Definition str (s : string) : list Z := char_code <$> list_ascii_of_string s.

Definition starts_with (s prefix : list Z) : bool := bool_decide (take (length prefix) s = prefix).

(** * UTF-8 *)

(** The bytes of a character. *)
Definition utf8_char (c : Z) : list Z :=
  if c <? 0x80 then [c]
  else if c <? 0x800 then [Z.lor 0xC0 (Z.shiftr c 6); Z.lor 0x80 (Z.land c 0x3F)]
  else if c <? 0x10000 then
    [Z.lor 0xE0 (Z.shiftr c 12); Z.lor 0x80 (Z.land (Z.shiftr c 6) 0x3F); Z.lor 0x80 (Z.land c 0x3F)]
  else
    [Z.lor 0xF0 (Z.shiftr c 18); Z.lor 0x80 (Z.land (Z.shiftr c 12) 0x3F);
     Z.lor 0x80 (Z.land (Z.shiftr c 6) 0x3F); Z.lor 0x80 (Z.land c 0x3F)].

(** [str::as_bytes] *)
Definition as_bytes (s : list Z) : list Z := s ≫= utf8_char.

Definition in_range (lo hi b : Z) : bool := (lo <=? b) && (b <=? hi).
Definition continuation (b : Z) : bool := in_range 0x80 0xBF b.

(** The continuation bytes that may follow a leading byte: the range of the first, and how
    many more there are. *)
Definition utf8_tail (lead : Z) : option (Z * Z * nat) :=
  if in_range 0xC2 0xDF lead then Some (0x80, 0xBF, O)
  else if lead =? 0xE0 then Some (0xA0, 0xBF, 1%nat)
  else if in_range 0xE1 0xEC lead then Some (0x80, 0xBF, 1%nat)
  else if lead =? 0xED then Some (0x80, 0x9F, 1%nat)
  else if in_range 0xEE 0xEF lead then Some (0x80, 0xBF, 1%nat)
  else if lead =? 0xF0 then Some (0x90, 0xBF, 2%nat)
  else if in_range 0xF1 0xF3 lead then Some (0x80, 0xBF, 2%nat)
  else if lead =? 0xF4 then Some (0x80, 0x8F, 2%nat)
  else None.

(** [n] more continuation bytes: the character they complete or its failure, and how many
    bytes were read. *)
Fixpoint utf8_more (n : nat) (acc : Z) (bs : list Z) : option Z * nat :=
  match n, bs with
  | O, _ => (Some acc, O)
  | S n, b :: bs =>
      if continuation b then prod_map id S (utf8_more n (Z.lor (Z.shiftl acc 6) (Z.land b 0x3F)) bs)
      else (None, O)
  | S _, [] => (None, O)
  end.

(** The character at the front, [None] for an ill-formed sequence, and the length of what
    was read: an ill-formed sequence ends before the first byte that cannot continue it. *)
Definition utf8_decode (b : Z) (bs : list Z) : option Z * nat :=
  if b <? 0x80 then (Some b, O)
  else
    match utf8_tail b with
    | None => (None, O)
    | Some (lo, hi, more) =>
        match bs with
        | b1 :: bs =>
            if in_range lo hi b1 then
              let lead := Z.land b (match more with O => 0x1F | 1%nat => 0x0F | _ => 0x07 end) in
              prod_map id S (utf8_more more (Z.lor (Z.shiftl lead 6) (Z.land b1 0x3F)) bs)
            else (None, O)
        | [] => (None, O)
        end
    end.

Definition REPLACEMENT_CHARACTER : Z := 0xFFFD.

(** [String::from_utf8_lossy]: [skip] bytes belong to a character already read. *)
Fixpoint utf8_lossy (skip : nat) (bs : list Z) : list Z :=
  match bs with
  | [] => []
  | b :: bs =>
      match skip with
      | S skip => utf8_lossy skip bs
      | O =>
          let (c, n) := utf8_decode b bs in
          default REPLACEMENT_CHARACTER c :: utf8_lossy n bs
      end
  end.
Definition from_utf8_lossy (bs : list Z) : list Z := utf8_lossy O bs.

(** * Formatting of integers *)

(** The digit [d] below 16, in lower case. *)
Definition digit_char (d : Z) : Z := if d <? 10 then 0x30 + d else 0x57 + d.

(** The digits of a number that is not negative, in front of [acc]. *)
Fixpoint radix_digits (radix : Z) (fuel : nat) (n : Z) (acc : list Z) : list Z :=
  match fuel with
  | O => acc
  | S fuel =>
      let acc := digit_char (n mod radix) :: acc in
      if n <? radix then acc else radix_digits radix fuel (n / radix) acc
  end.

(** [{}] of an unsigned integer: a [u64] has at most 20 digits. *)
Definition decimal (n : Z) : list Z := radix_digits 10 20 n [].
(** [{}] of a signed integer. *)
Definition decimal_signed (n : Z) : list Z :=
  if n <? 0 then 0x2d :: decimal (- n) else decimal n.
(** [{:#x}]: of the two's complement for a signed integer of [w] bits. *)
Definition hex_alternate (w n : Z) : list Z := str "0x" ++ radix_digits 16 16 (uwrap w n) [].

(** * Character classes *)

(** [char::is_digit(10)] and [char::is_digit(16)] *)
Definition is_digit (c : Z) : bool := in_range 0x30 0x39 c.
Definition is_hex_digit (c : Z) : bool :=
  is_digit c || in_range 0x61 0x66 c || in_range 0x41 0x46 c.

(** [char::is_whitespace]: the characters with the property [White_Space]. *)
Definition is_whitespace (c : Z) : bool :=
  in_range 0x09 0x0D c || (c =? 0x20) || (c =? 0x85) || (c =? 0xA0) || (c =? 0x1680)
  || in_range 0x2000 0x200A c || (c =? 0x2028) || (c =? 0x2029) || (c =? 0x202F)
  || (c =? 0x205F) || (c =? 0x3000).

Definition is_ascii_alphanumeric (c : Z) : bool :=
  is_digit c || in_range 0x61 0x7A c || in_range 0x41 0x5A c.

(** * Parsing of integers *)

(** [char::to_digit] *)
Definition to_digit (radix c : Z) : option Z :=
  let d := if is_digit c then c - 0x30
           else if in_range 0x61 0x7A c then c - 0x57
           else if in_range 0x41 0x5A c then c - 0x37 else radix in
  if d <? radix then Some d else None.

(** The digits accumulate with overflow checks: [sign] is 1 or -1. *)
Fixpoint accumulate (radix sign lo hi acc : Z) (s : list Z) : option Z :=
  match s with
  | [] => Some acc
  | c :: s =>
      match to_digit radix c with
      | None => None
      | Some d =>
          let acc := acc * radix in
          if (lo <=? acc) && (acc <=? hi) then
            let acc := acc + sign * d in
            if (lo <=? acc) && (acc <=? hi) then accumulate radix sign lo hi acc s else None
          else None
      end
  end.

(** [from_str_radix] of an integer type with the range [lo..=hi]. *)
Definition from_str_radix (lo hi : Z) (s : list Z) (radix : Z) : option Z :=
  match s with
  | [] => None
  | [c] =>
      if (c =? 0x2b) || (c =? 0x2d) then None else accumulate radix 1 lo hi 0 s
  | c :: rest =>
      if c =? 0x2b then accumulate radix 1 lo hi 0 rest
      else if (c =? 0x2d) && (lo <? 0) then accumulate radix (-1) lo hi 0 rest
      else accumulate radix 1 lo hi 0 s
  end.
Definition u64_from_str_radix : list Z -> Z -> option Z := from_str_radix 0 u64_max.
(** [str::parse::<i64>] *)
Definition i64_parse (s : list Z) : option Z := from_str_radix i64_min i64_max s 10.

(** * Lemmas *)

Definition is_ascii (c : Z) : Prop := 0 <= c < 0x80.

Lemma as_bytes_ascii (s : list Z) : Forall is_ascii s -> as_bytes s = s.
Proof.
  induction 1 as [|c s Hc Hs IH]; [done|]. unfold as_bytes in *. cbn [mbind list_bind].
  rewrite IH. unfold utf8_char. unfold is_ascii in Hc. by destruct (Z.ltb_spec c 0x80); [|lia].
Qed.

Lemma from_utf8_lossy_ascii (s : list Z) : Forall is_ascii s -> from_utf8_lossy s = s.
Proof.
  unfold from_utf8_lossy. induction 1 as [|c s Hc Hs IH]; [done|]. cbn.
  unfold utf8_decode. unfold is_ascii in Hc.
  destruct (Z.ltb_spec c 0x80); [|lia]. cbn. by rewrite IH.
Qed.

Lemma to_digit_char (radix d : Z) :
  0 <= d < radix -> radix <= 16 -> to_digit radix (digit_char d) = Some d.
Proof.
  intros Hd Hr. unfold to_digit, digit_char, is_digit, in_range.
  destruct (Z.ltb_spec d 10).
  - rewrite (proj2 (Z.leb_le 0x30 (0x30 + d))), (proj2 (Z.leb_le (0x30 + d) 0x39)) by lia.
    cbn [andb]. replace (0x30 + d - 0x30) with d by lia. by destruct (Z.ltb_spec d radix); [|lia].
  - rewrite (proj2 (Z.leb_gt (0x57 + d) 0x39)), andb_false_r by lia.
    rewrite (proj2 (Z.leb_le 0x61 (0x57 + d))), (proj2 (Z.leb_le (0x57 + d) 0x7A)) by lia.
    cbn [andb]. replace (0x57 + d - 0x57) with d by lia. by destruct (Z.ltb_spec d radix); [|lia].
Qed.

Lemma digit_char_hex (d : Z) : 0 <= d < 16 -> is_hex_digit (digit_char d) = true.
Proof.
  intros. unfold is_hex_digit, is_digit, in_range, digit_char.
  destruct (Z.ltb_spec d 10); repeat match goal with |- context [?a <=? ?b] => destruct (Z.leb_spec a b) end;
    (done || lia).
Qed.

Lemma digit_char_digit (d : Z) : 0 <= d < 10 -> is_digit (digit_char d) = true.
Proof.
  intros. unfold is_digit, in_range, digit_char. destruct (Z.ltb_spec d 10); [|lia].
  rewrite !(proj2 (Z.leb_le _ _)) by lia. done.
Qed.

(** Digits of the class [P]. *)
Lemma radix_digits_Forall (P : Z -> Prop) (radix : Z) (fuel : nat) (n : Z) (acc : list Z) :
  0 < radix -> (forall d, 0 <= d < radix -> P (digit_char d)) -> 0 <= n -> Forall P acc ->
  Forall P (radix_digits radix fuel n acc).
Proof.
  intros Hr HP. revert n acc. induction fuel as [|fuel IH]; intros n acc Hn Hacc; [done|]. cbn.
  assert (Forall P (digit_char (n mod radix) :: acc)).
  { constructor; [|done]. apply HP. by apply Z.mod_pos_bound. }
  destruct (n <? radix); [done|]. apply IH; [by apply Z.div_pos|done].
Qed.

Lemma radix_digits_nonempty (radix : Z) (fuel : nat) (n : Z) (acc : list Z) :
  fuel <> O -> radix_digits radix fuel n acc <> [].
Proof.
  intros Hf. destruct fuel as [|fuel]; [done|]. cbn. clear Hf.
  set (acc' := _ :: acc). destruct (n <? radix); [done|].
  assert (Hne : acc' <> []) by done. revert Hne. generalize acc'. generalize (n / radix).
  induction fuel as [|fuel IH]; intros m l Hl; [done|]. cbn. destruct (m <? radix); [done|]. by apply IH.
Qed.

Lemma accumulate_app (radix lo hi a : Z) (s t : list Z) :
  accumulate radix 1 lo hi a (s ++ t) =
  accumulate radix 1 lo hi a s ≫= fun b => accumulate radix 1 lo hi b t.
Proof.
  revert a. induction s as [|c s IH]; intros a; [done|]. cbn.
  destruct (to_digit radix c) as [d|]; [|done].
  destruct (_ && _); [|done]. destruct (_ && _); [|done]. apply IH.
Qed.

(** Enough fuel: the digits of [n] read back as [n]. *)
Lemma accumulate_radix_digits (radix lo hi : Z) (fuel : nat) (n : Z) (acc : list Z) :
  1 < radix <= 16 -> lo <= 0 -> 0 <= n <= hi -> n < radix ^ Z.of_nat fuel ->
  accumulate radix 1 lo hi 0 (radix_digits radix fuel n acc) = accumulate radix 1 lo hi n acc.
Proof.
  intros Hr Hlo. revert n acc. induction fuel as [|fuel IH]; intros n acc Hn Hf.
  { cbn in *. by assert (n = 0) as -> by lia. }
  cbn [radix_digits]. pose proof (Z.mod_pos_bound n radix ltac:(lia)).
  pose proof (Z.div_mod n radix ltac:(lia)).
  assert (Hstep : accumulate radix 1 lo hi (n / radix) (digit_char (n mod radix) :: acc)
                  = accumulate radix 1 lo hi n acc).
  { cbn [accumulate]. rewrite to_digit_char by lia.
    assert (0 <= n / radix) by (apply Z.div_pos; lia).
    rewrite !(proj2 (Z.leb_le _ _)) by nia. cbn [andb]. f_equal. lia. }
  destruct (Z.ltb_spec n radix).
  - rewrite <-Hstep. by rewrite (Z.div_small n) by lia.
  - rewrite IH; [done|..].
    + split; [apply Z.div_pos; lia|]. apply Z.le_trans with n; [|lia]. apply Z.div_le_upper_bound; nia.
    + apply Z.div_lt_upper_bound; [lia|]. rewrite <-Z.pow_succ_r by lia. by rewrite <-Nat2Z.inj_succ.
Qed.

Lemma from_str_radix_unsigned (lo hi : Z) (s : list Z) (radix : Z) :
  s <> [] -> Forall (fun c => is_hex_digit c = true) s ->
  from_str_radix lo hi s radix = accumulate radix 1 lo hi 0 s.
Proof.
  intros Hne Hs. destruct s as [|c s]; [done|]. apply Forall_cons in Hs as [Hc _].
  assert (c <> 0x2b /\ c <> 0x2d) as [H1 H2] by (split; intros ->; discriminate Hc).
  unfold from_str_radix. rewrite (proj2 (Z.eqb_neq c 0x2b)), (proj2 (Z.eqb_neq c 0x2d)) by done.
  by destruct s.
Qed.

Lemma is_digit_hex (c : Z) : is_digit c = true -> is_hex_digit c = true.
Proof. unfold is_hex_digit. by intros ->. Qed.

Lemma decimal_digits (n : Z) : 0 <= n -> Forall (fun c => is_digit c = true) (decimal n).
Proof. intros. apply radix_digits_Forall; [lia|apply digit_char_digit|done|done]. Qed.

Lemma decimal_nonempty (n : Z) : decimal n <> [].
Proof. by apply radix_digits_nonempty. Qed.

(** [str::parse] reads back what [{}] prints. *)
Lemma i64_parse_decimal (n : Z) : 0 <= n <= i64_max -> i64_parse (decimal n) = Some n.
Proof.
  intros. unfold i64_parse. rewrite from_str_radix_unsigned.
  - unfold decimal. by rewrite accumulate_radix_digits by (unfold i64_min, i64_max in *; lia).
  - apply decimal_nonempty.
  - eapply Forall_impl; [by apply decimal_digits; lia|apply is_digit_hex].
Qed.

(** [from_str_radix] reads back what [{:x}] prints. *)
Lemma u64_from_str_radix_hex (n : Z) :
  in_u 64 n -> u64_from_str_radix (radix_digits 16 16 n []) 16 = Some n.
Proof.
  intros [Hn0 Hn]. unfold u64_from_str_radix. rewrite from_str_radix_unsigned.
  - by rewrite accumulate_radix_digits by (unfold u64_max; lia).
  - by apply radix_digits_nonempty.
  - apply radix_digits_Forall; [lia|apply digit_char_hex|done|done].
Qed.
