(* ===== verification/Error.v ===== *)
(** Error and result types ([src/error.rs], and the error enums of
    [src/verifier.rs], [src/elf.rs] and [src/memory_region.rs]). *)
From Stdlib Require Import String.
From S2P Require Import Prelude.
Open Scope rust_scope.

(* src/memory_region.rs:165-172, AccessType *)
Inductive AccessType := Load | Store.

(* src/verifier.rs:22-82, VerifierError *)
Inductive VerifierError :=
  | ProgramLengthNotMultiple
  | ProgramTooLarge (insns : Z)
  | NoProgram
  | DivisionByZero (pc : Z)
  | UnsupportedLEBEArgument (pc : Z)
  | LDDWCannotBeLast
  | IncompleteLDDW (pc : Z)
  | InfiniteLoop (pc : Z)
  | JumpOutOfCode (dst_pc pc : Z)
  | JumpToMiddleOfLDDW (dst_pc pc : Z)
  | InvalidSourceRegister (pc : Z)
  | CannotWriteR10 (pc : Z)
  | InvalidDestinationRegister (pc : Z)
  | UnknownOpCode (opc pc : Z)
  | ShiftWithOverflow (shift_by bits pc : Z)
  | InvalidRegister (pc : Z)
  | InvalidFunction (pc : Z)
  | InvalidSyscall (code : Z)
  | UnalignedImmediate (pc : Z).

(* src/elf.rs:38-110, ElfError *)
Inductive ElfError :=
  | FailedToParse (msg : string)
  | EntrypointOutOfBounds
  | InvalidEntrypoint
  | FailedToGetSection (name : string)
  | UnresolvedSymbol (name : string) (pc offset : Z)
  | SectionNotFound (name : string)
  | RelativeJumpOutOfBounds (pc : Z)
  | SymbolHashCollision (hash : Z)
  | WrongEndianess
  | WrongAbi
  | WrongMachine
  | WrongClass
  | NotOneTextSection
  | WritableSectionNotSupported (name : string)
  | AddressOutsideLoadableSection (addr : Z)
  | InvalidVirtualAddress (addr : Z)
  | UnknownRelocation (ty : Z)
  | FailedToReadRelocationInfo
  | WrongType
  | UnknownSymbol (index : Z)
  | ValueOutOfBounds
  | UnsupportedSBPFVersion
  | InvalidProgramHeader.

(** The boxed error object of [SyscallError] is represented by its message. *)
(* src/error.rs:14-75, EbpfError *)
Inductive EbpfError :=
  | ElfError_ (e : ElfError)
  | FunctionAlreadyRegistered (key : Z)
  | CallDepthExceeded
  | ExitRootCallFrame
  | DivideByZero
  | DivideOverflow
  | ExecutionOverrun
  | CallOutsideTextSegment
  | ExceededMaxInstructions
  | JitNotCompiled
  | InvalidMemoryRegion (index : Z)
  | AccessViolation (access_type : AccessType) (vm_addr len : Z) (region_name : string)
  | StackAccessViolation (access_type : AccessType) (vm_addr len stack_frame : Z)
  | InvalidInstruction
  | UnsupportedInstruction
  | ExhaustedTextSegment (pc : Z)
  | LibcInvocationFailed (function : string) (args : list string) (code : Z)
  | VerifierError_ (e : VerifierError)
  | SyscallError (msg : string).

#[export] Instance AccessType_eq_dec : EqDecision AccessType.
Proof. solve_decision. Defined.
#[export] Instance VerifierError_eq_dec : EqDecision VerifierError.
Proof. solve_decision. Defined.
#[export] Instance ElfError_eq_dec : EqDecision ElfError.
Proof. solve_decision. Defined.
#[export] Instance EbpfError_eq_dec : EqDecision EbpfError.
Proof. solve_decision. Defined.

(** [std::result::Result] as a value. *)
Inductive Result (T E : Type) :=
  | Ok (value : T)
  | Error (error : E).
Arguments Ok {T E} value.
Arguments Error {T E} error.

(* src/error.rs:77-85, StableResult *)
Inductive StableResult (T E : Type) :=
  | SOk (value : T)
  | SErr (error : E).
Arguments SOk {T E} value.
Arguments SErr {T E} error.

(* src/error.rs:167-168, ProgramResult *)
Abbreviation ProgramResult := (StableResult Z EbpfError).

Section StableResult.
Context {T E : Type}.
Implicit Types r : StableResult T E.

(* src/error.rs:88-94, StableResult::is_ok *)
Definition stable_is_ok r : bool := match r with SOk _ => true | SErr _ => false end.

(* src/error.rs:96-102, StableResult::is_err *)
Definition stable_is_err r : bool := match r with SOk _ => false | SErr _ => true end.

(* src/error.rs:104-110, StableResult::unwrap *)
Definition stable_unwrap {X} r : Exec X T :=
  match r with SOk value => Ret value | SErr _ => Panic UnwrapNone end.

(* src/error.rs:112-118, StableResult::unwrap_err *)
Definition stable_unwrap_err {X} r : Exec X E :=
  match r with SOk _ => Panic UnwrapNone | SErr error => Ret error end.

(* src/error.rs:120-126, StableResult::map *)
Definition stable_map {U} (op : T -> U) r : StableResult U E :=
  match r with SOk value => SOk (op value) | SErr error => SErr error end.

(* src/error.rs:128-134, StableResult::map_err *)
Definition stable_map_err {F} (op : E -> F) r : StableResult T F :=
  match r with SOk value => SOk value | SErr error => SErr (op error) end.

(** The tag word of [#[repr(C, u64)]]: the index of the variant. *)
(* src/error.rs:144-146, StableResult::discriminant *)
Definition discriminant r : Z := match r with SOk _ => 0 | SErr _ => 1 end.

(* src/error.rs:149-156, From<StableResult> for Result *)
Definition result_of_stable r : Result T E :=
  match r with SOk value => Ok value | SErr value => Error value end.

(* src/error.rs:158-165, From<Result> for StableResult *)
Definition stable_of_result (r : Result T E) : StableResult T E :=
  match r with Ok value => SOk value | Error value => SErr value end.
End StableResult.
