(* ===== verification/Ebpf.v ===== *)
(** The SBPF instruction set: constants, opcodes, the instruction record and
    its 8-byte encoding ([src/ebpf.rs]). *)
From S2P Require Import Prelude.
Open Scope rust_scope.

(** * Constants *)

(* src/ebpf.rs:25-26, PROG_MAX_INSNS *)
Definition PROG_MAX_INSNS : Z := 65536.
(* src/ebpf.rs:27-28, INSN_SIZE *)
Definition INSN_SIZE : Z := 8.
(* src/ebpf.rs:29-30, FRAME_PTR_REG *)
Definition FRAME_PTR_REG : Z := 10.
(* src/ebpf.rs:31-32, FIRST_SCRATCH_REG *)
Definition FIRST_SCRATCH_REG : Z := 6.
(* src/ebpf.rs:33-34, SCRATCH_REGS *)
Definition SCRATCH_REGS : Z := 4.
(* src/ebpf.rs:35-36, HOST_ALIGN *)
Definition HOST_ALIGN : Z := 16.
(* src/ebpf.rs:37-38, VIRTUAL_ADDRESS_BITS *)
Definition VIRTUAL_ADDRESS_BITS : Z := 32.
(* src/ebpf.rs:40-41, MM_REGION_SIZE *)
Definition MM_REGION_SIZE : Z := Z.shiftl 1 VIRTUAL_ADDRESS_BITS.
(* src/ebpf.rs:42-43, MM_RODATA_START *)
Definition MM_RODATA_START : Z := 0.
(* src/ebpf.rs:44-45, MM_BYTECODE_START *)
Definition MM_BYTECODE_START : Z := MM_REGION_SIZE.
(* src/ebpf.rs:46-47, MM_STACK_START *)
Definition MM_STACK_START : Z := MM_REGION_SIZE * 2.
(* src/ebpf.rs:48-49, MM_HEAP_START *)
Definition MM_HEAP_START : Z := MM_REGION_SIZE * 3.
(* src/ebpf.rs:50-51, MM_INPUT_START *)
Definition MM_INPUT_START : Z := MM_REGION_SIZE * 4.
(* src/ebpf.rs:57-58, BPF_LD *)
Definition BPF_LD : Z := 0x00.
(* src/ebpf.rs:59-60, BPF_LDX *)
Definition BPF_LDX : Z := 0x01.
(* src/ebpf.rs:61-62, BPF_ST *)
Definition BPF_ST : Z := 0x02.
(* src/ebpf.rs:63-64, BPF_STX *)
Definition BPF_STX : Z := 0x03.
(* src/ebpf.rs:65-66, BPF_ALU32_LOAD *)
Definition BPF_ALU32_LOAD : Z := 0x04.
(* src/ebpf.rs:67-68, BPF_JMP64 *)
Definition BPF_JMP64 : Z := 0x05.
(* src/ebpf.rs:69-70, BPF_JMP32 *)
Definition BPF_JMP32 : Z := 0x06.
(* src/ebpf.rs:71-72, BPF_PQR *)
Definition BPF_PQR : Z := 0x06.
(* src/ebpf.rs:73-74, BPF_ALU64_STORE *)
Definition BPF_ALU64_STORE : Z := 0x07.
(* src/ebpf.rs:84-85, BPF_W *)
Definition BPF_W : Z := 0x00.
(* src/ebpf.rs:86-87, BPF_H *)
Definition BPF_H : Z := 0x08.
(* src/ebpf.rs:88-89, BPF_B *)
Definition BPF_B : Z := 0x10.
(* src/ebpf.rs:90-91, BPF_DW *)
Definition BPF_DW : Z := 0x18.
(* src/ebpf.rs:92-93, BPF_1B *)
Definition BPF_1B : Z := 0x20.
(* src/ebpf.rs:94-95, BPF_2B *)
Definition BPF_2B : Z := 0x30.
(* src/ebpf.rs:96-97, BPF_4B *)
Definition BPF_4B : Z := 0x80.
(* src/ebpf.rs:98-99, BPF_8B *)
Definition BPF_8B : Z := 0x90.
(* src/ebpf.rs:102-103, BPF_IMM *)
Definition BPF_IMM : Z := 0x00.
(* src/ebpf.rs:104-105, BPF_ABS *)
Definition BPF_ABS : Z := 0x20.
(* src/ebpf.rs:106-107, BPF_IND *)
Definition BPF_IND : Z := 0x40.
(* src/ebpf.rs:108-109, BPF_MEM *)
Definition BPF_MEM : Z := 0x60.
(* src/ebpf.rs:122-123, BPF_K *)
Definition BPF_K : Z := 0x00.
(* src/ebpf.rs:124-125, BPF_X *)
Definition BPF_X : Z := 0x08.
(* src/ebpf.rs:128-129, BPF_ADD *)
Definition BPF_ADD : Z := 0x00.
(* src/ebpf.rs:130-131, BPF_SUB *)
Definition BPF_SUB : Z := 0x10.
(* src/ebpf.rs:132-133, BPF_MUL *)
Definition BPF_MUL : Z := 0x20.
(* src/ebpf.rs:134-135, BPF_DIV *)
Definition BPF_DIV : Z := 0x30.
(* src/ebpf.rs:136-137, BPF_OR *)
Definition BPF_OR : Z := 0x40.
(* src/ebpf.rs:138-139, BPF_AND *)
Definition BPF_AND : Z := 0x50.
(* src/ebpf.rs:140-141, BPF_LSH *)
Definition BPF_LSH : Z := 0x60.
(* src/ebpf.rs:142-143, BPF_RSH *)
Definition BPF_RSH : Z := 0x70.
(* src/ebpf.rs:144-145, BPF_NEG *)
Definition BPF_NEG : Z := 0x80.
(* src/ebpf.rs:146-147, BPF_MOD *)
Definition BPF_MOD : Z := 0x90.
(* src/ebpf.rs:148-149, BPF_XOR *)
Definition BPF_XOR : Z := 0xa0.
(* src/ebpf.rs:150-151, BPF_MOV *)
Definition BPF_MOV : Z := 0xb0.
(* src/ebpf.rs:152-153, BPF_ARSH *)
Definition BPF_ARSH : Z := 0xc0.
(* src/ebpf.rs:154-155, BPF_END *)
Definition BPF_END : Z := 0xd0.
(* src/ebpf.rs:156-157, BPF_HOR *)
Definition BPF_HOR : Z := 0xf0.
(* src/ebpf.rs:163-164, BPF_UHMUL *)
Definition BPF_UHMUL : Z := 0x20.
(* src/ebpf.rs:165-166, BPF_UDIV *)
Definition BPF_UDIV : Z := 0x40.
(* src/ebpf.rs:167-168, BPF_UREM *)
Definition BPF_UREM : Z := 0x60.
(* src/ebpf.rs:169-170, BPF_LMUL *)
Definition BPF_LMUL : Z := 0x80.
(* src/ebpf.rs:171-172, BPF_SHMUL *)
Definition BPF_SHMUL : Z := 0xa0.
(* src/ebpf.rs:173-174, BPF_SDIV *)
Definition BPF_SDIV : Z := 0xc0.
(* src/ebpf.rs:175-176, BPF_SREM *)
Definition BPF_SREM : Z := 0xe0.
(* src/ebpf.rs:179-180, BPF_JA *)
Definition BPF_JA : Z := 0x00.
(* src/ebpf.rs:181-182, BPF_JEQ *)
Definition BPF_JEQ : Z := 0x10.
(* src/ebpf.rs:183-184, BPF_JGT *)
Definition BPF_JGT : Z := 0x20.
(* src/ebpf.rs:185-186, BPF_JGE *)
Definition BPF_JGE : Z := 0x30.
(* src/ebpf.rs:187-188, BPF_JSET *)
Definition BPF_JSET : Z := 0x40.
(* src/ebpf.rs:189-190, BPF_JNE *)
Definition BPF_JNE : Z := 0x50.
(* src/ebpf.rs:191-192, BPF_JSGT *)
Definition BPF_JSGT : Z := 0x60.
(* src/ebpf.rs:193-194, BPF_JSGE *)
Definition BPF_JSGE : Z := 0x70.
(* src/ebpf.rs:195-196, BPF_CALL *)
Definition BPF_CALL : Z := 0x80.
(* src/ebpf.rs:197-198, BPF_EXIT *)
Definition BPF_EXIT : Z := 0x90.
(* src/ebpf.rs:199-200, BPF_JLT *)
Definition BPF_JLT : Z := 0xa0.
(* src/ebpf.rs:201-202, BPF_JLE *)
Definition BPF_JLE : Z := 0xb0.
(* src/ebpf.rs:203-204, BPF_JSLT *)
Definition BPF_JSLT : Z := 0xc0.
(* src/ebpf.rs:205-206, BPF_JSLE *)
Definition BPF_JSLE : Z := 0xd0.
(* src/ebpf.rs:212-213, LD_DW_IMM *)
Definition LD_DW_IMM : Z := Z.lor (Z.lor BPF_LD BPF_IMM) BPF_DW.
(* src/ebpf.rs:214-215, LD_B_REG *)
Definition LD_B_REG : Z := Z.lor (Z.lor BPF_LDX BPF_MEM) BPF_B.
(* src/ebpf.rs:216-217, LD_H_REG *)
Definition LD_H_REG : Z := Z.lor (Z.lor BPF_LDX BPF_MEM) BPF_H.
(* src/ebpf.rs:218-219, LD_W_REG *)
Definition LD_W_REG : Z := Z.lor (Z.lor BPF_LDX BPF_MEM) BPF_W.
(* src/ebpf.rs:220-221, LD_DW_REG *)
Definition LD_DW_REG : Z := Z.lor (Z.lor BPF_LDX BPF_MEM) BPF_DW.
(* src/ebpf.rs:222-223, ST_B_IMM *)
Definition ST_B_IMM : Z := Z.lor (Z.lor BPF_ST BPF_MEM) BPF_B.
(* src/ebpf.rs:224-225, ST_H_IMM *)
Definition ST_H_IMM : Z := Z.lor (Z.lor BPF_ST BPF_MEM) BPF_H.
(* src/ebpf.rs:226-227, ST_W_IMM *)
Definition ST_W_IMM : Z := Z.lor (Z.lor BPF_ST BPF_MEM) BPF_W.
(* src/ebpf.rs:228-229, ST_DW_IMM *)
Definition ST_DW_IMM : Z := Z.lor (Z.lor BPF_ST BPF_MEM) BPF_DW.
(* src/ebpf.rs:230-231, ST_B_REG *)
Definition ST_B_REG : Z := Z.lor (Z.lor BPF_STX BPF_MEM) BPF_B.
(* src/ebpf.rs:232-233, ST_H_REG *)
Definition ST_H_REG : Z := Z.lor (Z.lor BPF_STX BPF_MEM) BPF_H.
(* src/ebpf.rs:234-235, ST_W_REG *)
Definition ST_W_REG : Z := Z.lor (Z.lor BPF_STX BPF_MEM) BPF_W.
(* src/ebpf.rs:236-237, ST_DW_REG *)
Definition ST_DW_REG : Z := Z.lor (Z.lor BPF_STX BPF_MEM) BPF_DW.
(* src/ebpf.rs:239-240, LD_1B_REG *)
Definition LD_1B_REG : Z := Z.lor (Z.lor BPF_ALU32_LOAD BPF_X) BPF_1B.
(* src/ebpf.rs:241-242, LD_2B_REG *)
Definition LD_2B_REG : Z := Z.lor (Z.lor BPF_ALU32_LOAD BPF_X) BPF_2B.
(* src/ebpf.rs:243-244, LD_4B_REG *)
Definition LD_4B_REG : Z := Z.lor (Z.lor BPF_ALU32_LOAD BPF_X) BPF_4B.
(* src/ebpf.rs:245-246, LD_8B_REG *)
Definition LD_8B_REG : Z := Z.lor (Z.lor BPF_ALU32_LOAD BPF_X) BPF_8B.
(* src/ebpf.rs:247-248, ST_1B_IMM *)
Definition ST_1B_IMM : Z := Z.lor (Z.lor BPF_ALU64_STORE BPF_K) BPF_1B.
(* src/ebpf.rs:249-250, ST_2B_IMM *)
Definition ST_2B_IMM : Z := Z.lor (Z.lor BPF_ALU64_STORE BPF_K) BPF_2B.
(* src/ebpf.rs:251-252, ST_4B_IMM *)
Definition ST_4B_IMM : Z := Z.lor (Z.lor BPF_ALU64_STORE BPF_K) BPF_4B.
(* src/ebpf.rs:253-254, ST_8B_IMM *)
Definition ST_8B_IMM : Z := Z.lor (Z.lor BPF_ALU64_STORE BPF_K) BPF_8B.
(* src/ebpf.rs:255-256, ST_1B_REG *)
Definition ST_1B_REG : Z := Z.lor (Z.lor BPF_ALU64_STORE BPF_X) BPF_1B.
(* src/ebpf.rs:257-258, ST_2B_REG *)
Definition ST_2B_REG : Z := Z.lor (Z.lor BPF_ALU64_STORE BPF_X) BPF_2B.
(* src/ebpf.rs:259-260, ST_4B_REG *)
Definition ST_4B_REG : Z := Z.lor (Z.lor BPF_ALU64_STORE BPF_X) BPF_4B.
(* src/ebpf.rs:261-262, ST_8B_REG *)
Definition ST_8B_REG : Z := Z.lor (Z.lor BPF_ALU64_STORE BPF_X) BPF_8B.
(* src/ebpf.rs:264-265, ADD32_IMM *)
Definition ADD32_IMM : Z := Z.lor (Z.lor BPF_ALU32_LOAD BPF_K) BPF_ADD.
(* src/ebpf.rs:266-267, ADD32_REG *)
Definition ADD32_REG : Z := Z.lor (Z.lor BPF_ALU32_LOAD BPF_X) BPF_ADD.
(* src/ebpf.rs:268-269, SUB32_IMM *)
Definition SUB32_IMM : Z := Z.lor (Z.lor BPF_ALU32_LOAD BPF_K) BPF_SUB.
(* src/ebpf.rs:270-271, SUB32_REG *)
Definition SUB32_REG : Z := Z.lor (Z.lor BPF_ALU32_LOAD BPF_X) BPF_SUB.
(* src/ebpf.rs:272-273, MUL32_IMM *)
Definition MUL32_IMM : Z := Z.lor (Z.lor BPF_ALU32_LOAD BPF_K) BPF_MUL.
(* src/ebpf.rs:274-275, MUL32_REG *)
Definition MUL32_REG : Z := Z.lor (Z.lor BPF_ALU32_LOAD BPF_X) BPF_MUL.
(* src/ebpf.rs:276-277, DIV32_IMM *)
Definition DIV32_IMM : Z := Z.lor (Z.lor BPF_ALU32_LOAD BPF_K) BPF_DIV.
(* src/ebpf.rs:278-279, DIV32_REG *)
Definition DIV32_REG : Z := Z.lor (Z.lor BPF_ALU32_LOAD BPF_X) BPF_DIV.
(* src/ebpf.rs:280-281, OR32_IMM *)
Definition OR32_IMM : Z := Z.lor (Z.lor BPF_ALU32_LOAD BPF_K) BPF_OR.
(* src/ebpf.rs:282-283, OR32_REG *)
Definition OR32_REG : Z := Z.lor (Z.lor BPF_ALU32_LOAD BPF_X) BPF_OR.
(* src/ebpf.rs:284-285, AND32_IMM *)
Definition AND32_IMM : Z := Z.lor (Z.lor BPF_ALU32_LOAD BPF_K) BPF_AND.
(* src/ebpf.rs:286-287, AND32_REG *)
Definition AND32_REG : Z := Z.lor (Z.lor BPF_ALU32_LOAD BPF_X) BPF_AND.
(* src/ebpf.rs:288-289, LSH32_IMM *)
Definition LSH32_IMM : Z := Z.lor (Z.lor BPF_ALU32_LOAD BPF_K) BPF_LSH.
(* src/ebpf.rs:290-291, LSH32_REG *)
Definition LSH32_REG : Z := Z.lor (Z.lor BPF_ALU32_LOAD BPF_X) BPF_LSH.
(* src/ebpf.rs:292-293, RSH32_IMM *)
Definition RSH32_IMM : Z := Z.lor (Z.lor BPF_ALU32_LOAD BPF_K) BPF_RSH.
(* src/ebpf.rs:294-295, RSH32_REG *)
Definition RSH32_REG : Z := Z.lor (Z.lor BPF_ALU32_LOAD BPF_X) BPF_RSH.
(* src/ebpf.rs:296-297, NEG32 *)
Definition NEG32 : Z := Z.lor BPF_ALU32_LOAD BPF_NEG.
(* src/ebpf.rs:298-299, MOD32_IMM *)
Definition MOD32_IMM : Z := Z.lor (Z.lor BPF_ALU32_LOAD BPF_K) BPF_MOD.
(* src/ebpf.rs:300-301, MOD32_REG *)
Definition MOD32_REG : Z := Z.lor (Z.lor BPF_ALU32_LOAD BPF_X) BPF_MOD.
(* src/ebpf.rs:302-303, XOR32_IMM *)
Definition XOR32_IMM : Z := Z.lor (Z.lor BPF_ALU32_LOAD BPF_K) BPF_XOR.
(* src/ebpf.rs:304-305, XOR32_REG *)
Definition XOR32_REG : Z := Z.lor (Z.lor BPF_ALU32_LOAD BPF_X) BPF_XOR.
(* src/ebpf.rs:306-307, MOV32_IMM *)
Definition MOV32_IMM : Z := Z.lor (Z.lor BPF_ALU32_LOAD BPF_K) BPF_MOV.
(* src/ebpf.rs:308-309, MOV32_REG *)
Definition MOV32_REG : Z := Z.lor (Z.lor BPF_ALU32_LOAD BPF_X) BPF_MOV.
(* src/ebpf.rs:310-311, ARSH32_IMM *)
Definition ARSH32_IMM : Z := Z.lor (Z.lor BPF_ALU32_LOAD BPF_K) BPF_ARSH.
(* src/ebpf.rs:312-313, ARSH32_REG *)
Definition ARSH32_REG : Z := Z.lor (Z.lor BPF_ALU32_LOAD BPF_X) BPF_ARSH.
(* src/ebpf.rs:315-316, LMUL32_IMM *)
Definition LMUL32_IMM : Z := Z.lor (Z.lor BPF_PQR BPF_K) BPF_LMUL.
(* src/ebpf.rs:317-318, LMUL32_REG *)
Definition LMUL32_REG : Z := Z.lor (Z.lor BPF_PQR BPF_X) BPF_LMUL.
(* src/ebpf.rs:323-324, UDIV32_IMM *)
Definition UDIV32_IMM : Z := Z.lor (Z.lor BPF_PQR BPF_K) BPF_UDIV.
(* src/ebpf.rs:325-326, UDIV32_REG *)
Definition UDIV32_REG : Z := Z.lor (Z.lor BPF_PQR BPF_X) BPF_UDIV.
(* src/ebpf.rs:327-328, UREM32_IMM *)
Definition UREM32_IMM : Z := Z.lor (Z.lor BPF_PQR BPF_K) BPF_UREM.
(* src/ebpf.rs:329-330, UREM32_REG *)
Definition UREM32_REG : Z := Z.lor (Z.lor BPF_PQR BPF_X) BPF_UREM.
(* src/ebpf.rs:335-336, SDIV32_IMM *)
Definition SDIV32_IMM : Z := Z.lor (Z.lor BPF_PQR BPF_K) BPF_SDIV.
(* src/ebpf.rs:337-338, SDIV32_REG *)
Definition SDIV32_REG : Z := Z.lor (Z.lor BPF_PQR BPF_X) BPF_SDIV.
(* src/ebpf.rs:339-340, SREM32_IMM *)
Definition SREM32_IMM : Z := Z.lor (Z.lor BPF_PQR BPF_K) BPF_SREM.
(* src/ebpf.rs:341-342, SREM32_REG *)
Definition SREM32_REG : Z := Z.lor (Z.lor BPF_PQR BPF_X) BPF_SREM.
(* src/ebpf.rs:344-345, LE *)
Definition LE : Z := Z.lor (Z.lor BPF_ALU32_LOAD BPF_K) BPF_END.
(* src/ebpf.rs:346-347, BE *)
Definition BE : Z := Z.lor (Z.lor BPF_ALU32_LOAD BPF_X) BPF_END.
(* src/ebpf.rs:349-350, ADD64_IMM *)
Definition ADD64_IMM : Z := Z.lor (Z.lor BPF_ALU64_STORE BPF_K) BPF_ADD.
(* src/ebpf.rs:351-352, ADD64_REG *)
Definition ADD64_REG : Z := Z.lor (Z.lor BPF_ALU64_STORE BPF_X) BPF_ADD.
(* src/ebpf.rs:353-354, SUB64_IMM *)
Definition SUB64_IMM : Z := Z.lor (Z.lor BPF_ALU64_STORE BPF_K) BPF_SUB.
(* src/ebpf.rs:355-356, SUB64_REG *)
Definition SUB64_REG : Z := Z.lor (Z.lor BPF_ALU64_STORE BPF_X) BPF_SUB.
(* src/ebpf.rs:357-358, MUL64_IMM *)
Definition MUL64_IMM : Z := Z.lor (Z.lor BPF_ALU64_STORE BPF_K) BPF_MUL.
(* src/ebpf.rs:359-360, MUL64_REG *)
Definition MUL64_REG : Z := Z.lor (Z.lor BPF_ALU64_STORE BPF_X) BPF_MUL.
(* src/ebpf.rs:361-362, DIV64_IMM *)
Definition DIV64_IMM : Z := Z.lor (Z.lor BPF_ALU64_STORE BPF_K) BPF_DIV.
(* src/ebpf.rs:363-364, DIV64_REG *)
Definition DIV64_REG : Z := Z.lor (Z.lor BPF_ALU64_STORE BPF_X) BPF_DIV.
(* src/ebpf.rs:365-366, OR64_IMM *)
Definition OR64_IMM : Z := Z.lor (Z.lor BPF_ALU64_STORE BPF_K) BPF_OR.
(* src/ebpf.rs:367-368, OR64_REG *)
Definition OR64_REG : Z := Z.lor (Z.lor BPF_ALU64_STORE BPF_X) BPF_OR.
(* src/ebpf.rs:369-370, AND64_IMM *)
Definition AND64_IMM : Z := Z.lor (Z.lor BPF_ALU64_STORE BPF_K) BPF_AND.
(* src/ebpf.rs:371-372, AND64_REG *)
Definition AND64_REG : Z := Z.lor (Z.lor BPF_ALU64_STORE BPF_X) BPF_AND.
(* src/ebpf.rs:373-374, LSH64_IMM *)
Definition LSH64_IMM : Z := Z.lor (Z.lor BPF_ALU64_STORE BPF_K) BPF_LSH.
(* src/ebpf.rs:375-376, LSH64_REG *)
Definition LSH64_REG : Z := Z.lor (Z.lor BPF_ALU64_STORE BPF_X) BPF_LSH.
(* src/ebpf.rs:377-378, RSH64_IMM *)
Definition RSH64_IMM : Z := Z.lor (Z.lor BPF_ALU64_STORE BPF_K) BPF_RSH.
(* src/ebpf.rs:379-380, RSH64_REG *)
Definition RSH64_REG : Z := Z.lor (Z.lor BPF_ALU64_STORE BPF_X) BPF_RSH.
(* src/ebpf.rs:381-382, NEG64 *)
Definition NEG64 : Z := Z.lor BPF_ALU64_STORE BPF_NEG.
(* src/ebpf.rs:383-384, MOD64_IMM *)
Definition MOD64_IMM : Z := Z.lor (Z.lor BPF_ALU64_STORE BPF_K) BPF_MOD.
(* src/ebpf.rs:385-386, MOD64_REG *)
Definition MOD64_REG : Z := Z.lor (Z.lor BPF_ALU64_STORE BPF_X) BPF_MOD.
(* src/ebpf.rs:387-388, XOR64_IMM *)
Definition XOR64_IMM : Z := Z.lor (Z.lor BPF_ALU64_STORE BPF_K) BPF_XOR.
(* src/ebpf.rs:389-390, XOR64_REG *)
Definition XOR64_REG : Z := Z.lor (Z.lor BPF_ALU64_STORE BPF_X) BPF_XOR.
(* src/ebpf.rs:391-392, MOV64_IMM *)
Definition MOV64_IMM : Z := Z.lor (Z.lor BPF_ALU64_STORE BPF_K) BPF_MOV.
(* src/ebpf.rs:393-394, MOV64_REG *)
Definition MOV64_REG : Z := Z.lor (Z.lor BPF_ALU64_STORE BPF_X) BPF_MOV.
(* src/ebpf.rs:395-396, ARSH64_IMM *)
Definition ARSH64_IMM : Z := Z.lor (Z.lor BPF_ALU64_STORE BPF_K) BPF_ARSH.
(* src/ebpf.rs:397-398, ARSH64_REG *)
Definition ARSH64_REG : Z := Z.lor (Z.lor BPF_ALU64_STORE BPF_X) BPF_ARSH.
(* src/ebpf.rs:399-400, HOR64_IMM *)
Definition HOR64_IMM : Z := Z.lor (Z.lor BPF_ALU64_STORE BPF_K) BPF_HOR.
(* src/ebpf.rs:402-403, LMUL64_IMM *)
Definition LMUL64_IMM : Z := Z.lor (Z.lor (Z.lor BPF_PQR BPF_B) BPF_K) BPF_LMUL.
(* src/ebpf.rs:404-405, LMUL64_REG *)
Definition LMUL64_REG : Z := Z.lor (Z.lor (Z.lor BPF_PQR BPF_B) BPF_X) BPF_LMUL.
(* src/ebpf.rs:406-407, UHMUL64_IMM *)
Definition UHMUL64_IMM : Z := Z.lor (Z.lor (Z.lor BPF_PQR BPF_B) BPF_K) BPF_UHMUL.
(* src/ebpf.rs:408-409, UHMUL64_REG *)
Definition UHMUL64_REG : Z := Z.lor (Z.lor (Z.lor BPF_PQR BPF_B) BPF_X) BPF_UHMUL.
(* src/ebpf.rs:410-411, UDIV64_IMM *)
Definition UDIV64_IMM : Z := Z.lor (Z.lor (Z.lor BPF_PQR BPF_B) BPF_K) BPF_UDIV.
(* src/ebpf.rs:412-413, UDIV64_REG *)
Definition UDIV64_REG : Z := Z.lor (Z.lor (Z.lor BPF_PQR BPF_B) BPF_X) BPF_UDIV.
(* src/ebpf.rs:414-415, UREM64_IMM *)
Definition UREM64_IMM : Z := Z.lor (Z.lor (Z.lor BPF_PQR BPF_B) BPF_K) BPF_UREM.
(* src/ebpf.rs:416-417, UREM64_REG *)
Definition UREM64_REG : Z := Z.lor (Z.lor (Z.lor BPF_PQR BPF_B) BPF_X) BPF_UREM.
(* src/ebpf.rs:418-419, SHMUL64_IMM *)
Definition SHMUL64_IMM : Z := Z.lor (Z.lor (Z.lor BPF_PQR BPF_B) BPF_K) BPF_SHMUL.
(* src/ebpf.rs:420-421, SHMUL64_REG *)
Definition SHMUL64_REG : Z := Z.lor (Z.lor (Z.lor BPF_PQR BPF_B) BPF_X) BPF_SHMUL.
(* src/ebpf.rs:422-423, SDIV64_IMM *)
Definition SDIV64_IMM : Z := Z.lor (Z.lor (Z.lor BPF_PQR BPF_B) BPF_K) BPF_SDIV.
(* src/ebpf.rs:424-425, SDIV64_REG *)
Definition SDIV64_REG : Z := Z.lor (Z.lor (Z.lor BPF_PQR BPF_B) BPF_X) BPF_SDIV.
(* src/ebpf.rs:426-427, SREM64_IMM *)
Definition SREM64_IMM : Z := Z.lor (Z.lor (Z.lor BPF_PQR BPF_B) BPF_K) BPF_SREM.
(* src/ebpf.rs:428-429, SREM64_REG *)
Definition SREM64_REG : Z := Z.lor (Z.lor (Z.lor BPF_PQR BPF_B) BPF_X) BPF_SREM.
(* src/ebpf.rs:431-432, JEQ32_IMM *)
Definition JEQ32_IMM : Z := Z.lor (Z.lor BPF_JMP32 BPF_K) BPF_JEQ.
(* src/ebpf.rs:433-434, JEQ32_REG *)
Definition JEQ32_REG : Z := Z.lor (Z.lor BPF_JMP32 BPF_X) BPF_JEQ.
(* src/ebpf.rs:435-436, JGT32_IMM *)
Definition JGT32_IMM : Z := Z.lor (Z.lor BPF_JMP32 BPF_K) BPF_JGT.
(* src/ebpf.rs:437-438, JGT32_REG *)
Definition JGT32_REG : Z := Z.lor (Z.lor BPF_JMP32 BPF_X) BPF_JGT.
(* src/ebpf.rs:439-440, JGE32_IMM *)
Definition JGE32_IMM : Z := Z.lor (Z.lor BPF_JMP32 BPF_K) BPF_JGE.
(* src/ebpf.rs:441-442, JGE32_REG *)
Definition JGE32_REG : Z := Z.lor (Z.lor BPF_JMP32 BPF_X) BPF_JGE.
(* src/ebpf.rs:443-444, JLT32_IMM *)
Definition JLT32_IMM : Z := Z.lor (Z.lor BPF_JMP32 BPF_K) BPF_JLT.
(* src/ebpf.rs:445-446, JLT32_REG *)
Definition JLT32_REG : Z := Z.lor (Z.lor BPF_JMP32 BPF_X) BPF_JLT.
(* src/ebpf.rs:447-448, JLE32_IMM *)
Definition JLE32_IMM : Z := Z.lor (Z.lor BPF_JMP32 BPF_K) BPF_JLE.
(* src/ebpf.rs:449-450, JLE32_REG *)
Definition JLE32_REG : Z := Z.lor (Z.lor BPF_JMP32 BPF_X) BPF_JLE.
(* src/ebpf.rs:451-452, JSET32_IMM *)
Definition JSET32_IMM : Z := Z.lor (Z.lor BPF_JMP32 BPF_K) BPF_JSET.
(* src/ebpf.rs:453-454, JSET32_REG *)
Definition JSET32_REG : Z := Z.lor (Z.lor BPF_JMP32 BPF_X) BPF_JSET.
(* src/ebpf.rs:455-456, JNE32_IMM *)
Definition JNE32_IMM : Z := Z.lor (Z.lor BPF_JMP32 BPF_K) BPF_JNE.
(* src/ebpf.rs:457-458, JNE32_REG *)
Definition JNE32_REG : Z := Z.lor (Z.lor BPF_JMP32 BPF_X) BPF_JNE.
(* src/ebpf.rs:459-460, JSGT32_IMM *)
Definition JSGT32_IMM : Z := Z.lor (Z.lor BPF_JMP32 BPF_K) BPF_JSGT.
(* src/ebpf.rs:461-462, JSGT32_REG *)
Definition JSGT32_REG : Z := Z.lor (Z.lor BPF_JMP32 BPF_X) BPF_JSGT.
(* src/ebpf.rs:463-464, JSGE32_IMM *)
Definition JSGE32_IMM : Z := Z.lor (Z.lor BPF_JMP32 BPF_K) BPF_JSGE.
(* src/ebpf.rs:465-466, JSGE32_REG *)
Definition JSGE32_REG : Z := Z.lor (Z.lor BPF_JMP32 BPF_X) BPF_JSGE.
(* src/ebpf.rs:467-468, JSLT32_IMM *)
Definition JSLT32_IMM : Z := Z.lor (Z.lor BPF_JMP32 BPF_K) BPF_JSLT.
(* src/ebpf.rs:469-470, JSLT32_REG *)
Definition JSLT32_REG : Z := Z.lor (Z.lor BPF_JMP32 BPF_X) BPF_JSLT.
(* src/ebpf.rs:471-472, JSLE32_IMM *)
Definition JSLE32_IMM : Z := Z.lor (Z.lor BPF_JMP32 BPF_K) BPF_JSLE.
(* src/ebpf.rs:473-474, JSLE32_REG *)
Definition JSLE32_REG : Z := Z.lor (Z.lor BPF_JMP32 BPF_X) BPF_JSLE.
(* src/ebpf.rs:476-477, JA *)
Definition JA : Z := Z.lor BPF_JMP64 BPF_JA.
(* src/ebpf.rs:478-479, JEQ64_IMM *)
Definition JEQ64_IMM : Z := Z.lor (Z.lor BPF_JMP64 BPF_K) BPF_JEQ.
(* src/ebpf.rs:480-481, JEQ64_REG *)
Definition JEQ64_REG : Z := Z.lor (Z.lor BPF_JMP64 BPF_X) BPF_JEQ.
(* src/ebpf.rs:482-483, JGT64_IMM *)
Definition JGT64_IMM : Z := Z.lor (Z.lor BPF_JMP64 BPF_K) BPF_JGT.
(* src/ebpf.rs:484-485, JGT64_REG *)
Definition JGT64_REG : Z := Z.lor (Z.lor BPF_JMP64 BPF_X) BPF_JGT.
(* src/ebpf.rs:486-487, JGE64_IMM *)
Definition JGE64_IMM : Z := Z.lor (Z.lor BPF_JMP64 BPF_K) BPF_JGE.
(* src/ebpf.rs:488-489, JGE64_REG *)
Definition JGE64_REG : Z := Z.lor (Z.lor BPF_JMP64 BPF_X) BPF_JGE.
(* src/ebpf.rs:490-491, JLT64_IMM *)
Definition JLT64_IMM : Z := Z.lor (Z.lor BPF_JMP64 BPF_K) BPF_JLT.
(* src/ebpf.rs:492-493, JLT64_REG *)
Definition JLT64_REG : Z := Z.lor (Z.lor BPF_JMP64 BPF_X) BPF_JLT.
(* src/ebpf.rs:494-495, JLE64_IMM *)
Definition JLE64_IMM : Z := Z.lor (Z.lor BPF_JMP64 BPF_K) BPF_JLE.
(* src/ebpf.rs:496-497, JLE64_REG *)
Definition JLE64_REG : Z := Z.lor (Z.lor BPF_JMP64 BPF_X) BPF_JLE.
(* src/ebpf.rs:498-499, JSET64_IMM *)
Definition JSET64_IMM : Z := Z.lor (Z.lor BPF_JMP64 BPF_K) BPF_JSET.
(* src/ebpf.rs:500-501, JSET64_REG *)
Definition JSET64_REG : Z := Z.lor (Z.lor BPF_JMP64 BPF_X) BPF_JSET.
(* src/ebpf.rs:502-503, JNE64_IMM *)
Definition JNE64_IMM : Z := Z.lor (Z.lor BPF_JMP64 BPF_K) BPF_JNE.
(* src/ebpf.rs:504-505, JNE64_REG *)
Definition JNE64_REG : Z := Z.lor (Z.lor BPF_JMP64 BPF_X) BPF_JNE.
(* src/ebpf.rs:506-507, JSGT64_IMM *)
Definition JSGT64_IMM : Z := Z.lor (Z.lor BPF_JMP64 BPF_K) BPF_JSGT.
(* src/ebpf.rs:508-509, JSGT64_REG *)
Definition JSGT64_REG : Z := Z.lor (Z.lor BPF_JMP64 BPF_X) BPF_JSGT.
(* src/ebpf.rs:510-511, JSGE64_IMM *)
Definition JSGE64_IMM : Z := Z.lor (Z.lor BPF_JMP64 BPF_K) BPF_JSGE.
(* src/ebpf.rs:512-513, JSGE64_REG *)
Definition JSGE64_REG : Z := Z.lor (Z.lor BPF_JMP64 BPF_X) BPF_JSGE.
(* src/ebpf.rs:514-515, JSLT64_IMM *)
Definition JSLT64_IMM : Z := Z.lor (Z.lor BPF_JMP64 BPF_K) BPF_JSLT.
(* src/ebpf.rs:516-517, JSLT64_REG *)
Definition JSLT64_REG : Z := Z.lor (Z.lor BPF_JMP64 BPF_X) BPF_JSLT.
(* src/ebpf.rs:518-519, JSLE64_IMM *)
Definition JSLE64_IMM : Z := Z.lor (Z.lor BPF_JMP64 BPF_K) BPF_JSLE.
(* src/ebpf.rs:520-521, JSLE64_REG *)
Definition JSLE64_REG : Z := Z.lor (Z.lor BPF_JMP64 BPF_X) BPF_JSLE.
(* src/ebpf.rs:522-523, CALL_IMM *)
Definition CALL_IMM : Z := Z.lor BPF_JMP64 BPF_CALL.
(* src/ebpf.rs:524-525, CALL_REG *)
Definition CALL_REG : Z := Z.lor (Z.lor BPF_JMP64 BPF_X) BPF_CALL.
(* src/ebpf.rs:526-527, EXIT *)
Definition EXIT : Z := Z.lor BPF_JMP64 BPF_EXIT.
(* src/ebpf.rs:530-531, BPF_CLS_MASK *)
Definition BPF_CLS_MASK : Z := 0x07.
(* src/ebpf.rs:532-533, BPF_ALU_OP_MASK *)
Definition BPF_ALU_OP_MASK : Z := 0xf0.

(** * External code *)

(** The [byteorder] crate: [LittleEndian::read_*] read from the front of a
    slice and panic on a short one.  [None] is the panic. *)
Class LittleEndian := {
  read_u32 : list Z -> option Z;
  read_i16 : list Z -> option Z;
  read_i32 : list Z -> option Z;
  read_u32_spec (buf : list Z) :
    read_u32 buf = if decide (4 <= length buf)%nat then Some (le_value (take 4 buf)) else None;
  read_i16_spec (buf : list Z) :
    read_i16 buf =
      if decide (2 <= length buf)%nat then Some (swrap 16 (le_value (take 2 buf))) else None;
  read_i32_spec (buf : list Z) :
    read_i32 buf =
      if decide (4 <= length buf)%nat then Some (swrap 32 (le_value (take 4 buf))) else None;
}.

(** The [hash32] crate: [Murmur3Hasher] over the bytes written to it. *)
Class Murmur3 := {
  murmur3_finish32 : list Z -> Z;
  murmur3_range (bs : list Z) : in_u 32 (murmur3_finish32 bs);
}.

(** * Instructions *)

(* src/ebpf.rs:535-554, Insn *)
Record Insn := mkInsn {
  ptr : Z;
  opc : Z;
  dst : Z;
  src : Z;
  off : Z;
  imm : Z;
}.

#[export] Instance Insn_eq_dec : EqDecision Insn.
Proof. solve_decision. Defined.

(** [Insn::default()] *)
(* src/ebpf.rs:540-554, Default for Insn *)
Definition default_insn : Insn := mkInsn 0 0 0 0 0 0.

(* src/ebpf.rs:587-598, Insn::to_array *)
Definition to_array (self : Insn) : list Z :=
  [ self.(opc);
    Z.lor (u_wrapping_shl 8 self.(src) 4) self.(dst);
    as_u8 (Z.land self.(off) 0xff);
    as_u8 (wrapping_shr 16 self.(off) 8);
    as_u8 (Z.land self.(imm) 0xff);
    as_u8 (wrapping_shr 64 (Z.land self.(imm) 0xff00) 8);
    as_u8 (wrapping_shr 32 (Z.land (as_u32 self.(imm)) 0xff0000) 16);
    as_u8 (wrapping_shr 32 (Z.land (as_u32 self.(imm)) 0xff000000) 24) ].

(* src/ebpf.rs:620-622, Insn::to_vec *)
Definition to_vec (self : Insn) : list Z := to_array self.

(* src/ebpf.rs:625-628, is_pc_in_program *)
Definition is_pc_in_program (prog : list Z) (pc : Z) : bool :=
  u64_saturating_mul (u64_saturating_add pc 1) INSN_SIZE <=? zlen prog.

Section Decode.
Context `{Bo : LittleEndian}.
Context {E : Type}.

(* src/ebpf.rs:673-684, get_insn_unchecked *)
Definition get_insn_unchecked (prog : list Z) (pc : Z) : Exec E Insn :=
  let! base := u64_mul INSN_SIZE pc in
  let! base1 := u64_add base 1 in
  let! base2 := u64_add base 2 in
  let! base4 := u64_add base 4 in
  let! opc := index_slice prog base in
  let! regs := index_slice prog base1 in
  let! off_slice := slice_from prog base2 in
  let! off := expect IndexOutOfBounds (read_i16 off_slice) in
  let! imm_slice := slice_from prog base4 in
  let! imm := expect IndexOutOfBounds (read_i32 imm_slice) in
  Ret {| ptr := pc; opc := opc; dst := Z.land regs 0x0f;
         src := Z.shiftr (Z.land regs 0xf0) 4; off := off; imm := imm |}.

(* src/ebpf.rs:661-672, get_insn *)
Definition get_insn (prog : list Z) (pc : Z) : Exec E Insn :=
  if is_pc_in_program prog pc then get_insn_unchecked prog pc else Panic DebugAssertFailed.

(* src/ebpf.rs:686-690, augment_lddw_unchecked *)
Definition augment_lddw_unchecked (prog : list Z) (insn : Insn) : Exec E Insn :=
  let! next := u64_add insn.(ptr) 1 in
  let! base := u64_mul next INSN_SIZE in
  let! base4 := u64_add base 4 in
  let! imm_slice := slice_from prog base4 in
  let! more_significant_half := expect IndexOutOfBounds (read_i32 imm_slice) in
  let imm := as_i64 (Z.lor (Z.land (as_u64 insn.(imm)) 0xffffffff)
                           (as_u64 (Z.shiftl (as_u64 more_significant_half) 32))) in
  Ret {| ptr := insn.(ptr); opc := insn.(opc); dst := insn.(dst); src := insn.(src);
         off := insn.(off); imm := imm |}.
End Decode.

(* src/ebpf.rs:692-701, hash_symbol_name *)
Definition hash_symbol_name `{Murmur3} (name : list Z) : Z := murmur3_finish32 name.

(** The byteorder operations computed from the byte list. *)
Program Definition le_reference : LittleEndian := {|
  read_u32 buf := if decide (4 <= length buf)%nat then Some (le_value (take 4 buf)) else None;
  read_i16 buf :=
    if decide (2 <= length buf)%nat then Some (swrap 16 (le_value (take 2 buf))) else None;
  read_i32 buf :=
    if decide (4 <= length buf)%nat then Some (swrap 32 (le_value (take 4 buf))) else None;
|}.
Solve Obligations with done.

(** Field ranges of an instruction as the encoding has them. *)
Definition insn_wf (i : Insn) : Prop :=
  in_u 8 i.(opc) /\ in_u 4 i.(dst) /\ in_u 4 i.(src) /\ in_s 16 i.(off) /\ in_s 32 i.(imm).

(** The instruction in eight bytes. *)
Definition decode_bytes (pc : Z) (bs : list Z) : Insn :=
  let regs := default 0 (bs !! 1%nat) in
  {| ptr := pc; opc := default 0 (bs !! 0%nat);
     dst := Z.land regs 0x0f; src := Z.shiftr (Z.land regs 0xf0) 4;
     off := swrap 16 (le_value (take 2 (drop 2 bs)));
     imm := swrap 32 (le_value (take 4 (drop 4 bs))) |}.

(** The eight bytes of the instruction at [pc]. *)
Definition insn_bytes (prog : list Z) (pc : Z) : list Z :=
  take 8 (drop (Z.to_nat (INSN_SIZE * pc)) prog).

(** * Lemmas *)

(** Rust slices have at most [isize::MAX] bytes. *)
Definition slice_len_ok {A} (l : list A) : Prop := zlen l <= i64_max.

Lemma is_pc_in_program_iff (prog : list Z) (pc : Z) :
  0 <= pc -> slice_len_ok prog ->
  is_pc_in_program prog pc = true <-> INSN_SIZE * (pc + 1) <= zlen prog.
Proof.
  unfold is_pc_in_program, slice_len_ok, u64_saturating_mul, u64_saturating_add,
    u64_max, i64_max, INSN_SIZE.
  intros. rewrite Z.leb_le. lia.
Qed.

Lemma length_insn_bytes (prog : list Z) (pc : Z) :
  0 <= pc -> INSN_SIZE * (pc + 1) <= zlen prog -> length (insn_bytes prog pc) = 8%nat.
Proof.
  unfold insn_bytes, INSN_SIZE, zlen. intros. rewrite length_take, length_drop. lia.
Qed.

Lemma list_8 {A} (l : list A) : (8 <= length l)%nat ->
  exists b0 b1 b2 b3 b4 b5 b6 b7 rest, l = b0 :: b1 :: b2 :: b3 :: b4 :: b5 :: b6 :: b7 :: rest.
Proof.
  intros. do 8 (destruct l as [|? l]; [simpl in *; lia|]). repeat eexists.
Qed.
Lemma get_insn_unchecked_eq `{Bo : LittleEndian} {E} (prog : list Z) (pc : Z) :
  0 <= pc -> INSN_SIZE * (pc + 1) <= zlen prog -> slice_len_ok prog ->
  @get_insn_unchecked Bo E prog pc = Ret (decode_bytes pc (insn_bytes prog pc)).
Proof.
  intros H0 Hlen Hok. unfold insn_bytes, slice_len_ok, i64_max, INSN_SIZE, zlen in *.
  set (n := Z.to_nat (8 * pc)) in *.
  destruct (list_8 (drop n prog)) as (b0&b1&b2&b3&b4&b5&b6&b7&rest&Hd).
  { rewrite length_drop. lia. }
  assert (Hi : forall k : nat, drop (n + k) prog = drop k (drop n prog)) by (intros; by rewrite drop_drop).
  assert (Hl : forall k : nat, prog !! (n + k)%nat = drop n prog !! k) by (intros; by rewrite lookup_drop).
  rewrite Hd in *.
  unfold get_insn_unchecked, u64_mul, u64_add, u64_max, INSN_SIZE, exec_bind.
  rewrite !(proj2 (Z.leb_le _ _)) by lia.
  unfold index_slice. rewrite !(proj2 (Z.ltb_ge _ _)) by lia.
  rewrite !slice_from_Ret by (unfold zlen; lia).
  replace (Z.to_nat (8 * pc)) with (n + 0)%nat by lia.
  replace (Z.to_nat (8 * pc + 1)) with (n + 1)%nat by lia.
  replace (Z.to_nat (8 * pc + 2)) with (n + 2)%nat by lia.
  replace (Z.to_nat (8 * pc + 4)) with (n + 4)%nat by lia.
  rewrite !Hl, !Hi, read_i16_spec, read_i32_spec.
  rewrite !decide_True by (simpl; lia). done.
Qed.
Lemma decode_bytes_wf pc bs : bytes_ok bs -> length bs = 8%nat -> insn_wf (decode_bytes pc bs).
Proof.
  intros Hb Hl. destruct (list_8 bs) as (b0&b1&b2&b3&b4&b5&b6&b7&rest&->); [lia|].
  rewrite !Forall_cons in Hb. destruct Hb as (?&?&_).
  unfold decode_bytes, insn_wf. cbn [opc dst src off imm]. simpl lookup. simpl default.
  split_and!; [done| | |by apply swrap_range|by apply swrap_range].
  - rewrite Z.land_comm. apply land_range; [done|]. by split.
  - replace (in_u 4 _) with (in_u 4 (Z.shiftr (Z.land b1 0xf0) 4)) by done.
    split; [apply Z.shiftr_nonneg, Z.land_nonneg; unfold is_byte, in_u in *; lia|].
    rewrite Z.shiftr_div_pow2 by lia. apply Z.div_lt_upper_bound; [done|].
    assert (in_u 8 (Z.land b1 0xf0)) as [? ?] by (apply land_range; done). done.
Qed.

Lemma get_insn_eq `{Bo : LittleEndian} {E} (prog : list Z) (pc : Z) :
  0 <= pc -> INSN_SIZE * (pc + 1) <= zlen prog -> slice_len_ok prog ->
  @get_insn Bo E prog pc = Ret (decode_bytes pc (insn_bytes prog pc)).
Proof.
  intros H0 H1 H2. unfold get_insn. rewrite (proj2 (is_pc_in_program_iff prog pc H0 H2)) by done.
  by apply get_insn_unchecked_eq.
Qed.

Lemma insn_bytes_ok (prog : list Z) (pc : Z) : bytes_ok prog -> bytes_ok (insn_bytes prog pc).
Proof. intros. by apply Forall_take, Forall_drop. Qed.

Lemma as_u8_land_255 (z : Z) : as_u8 (Z.land z 0xff) = as_u8 z.
Proof.
  change 0xff with (Z.ones 8). rewrite Z.land_ones by done.
  unfold as_u8, uwrap. by rewrite Z.mod_mod.
Qed.

Lemma as_u8_field (z k : Z) :
  0 <= k -> as_u8 (Z.shiftr (Z.land z (Z.shiftl 0xff k)) k) = as_u8 (Z.shiftr z k).
Proof.
  intros. rewrite Z.shiftr_land, Z.shiftr_shiftl_l, Z.sub_diag, Z.shiftl_0_r by lia.
  apply as_u8_land_255.
Qed.

Lemma as_u8_shiftr_wrap (w z k : Z) :
  0 <= k -> k + 8 <= w -> as_u8 (Z.shiftr (uwrap w z) k) = as_u8 (Z.shiftr z k).
Proof.
  intros. unfold as_u8, uwrap. apply Z.bits_inj'. intros i Hi.
  destruct (Z_lt_ge_dec i 8).
  - rewrite !Z.mod_pow2_bits_low, !Z.shiftr_spec, Z.mod_pow2_bits_low by lia. done.
  - rewrite !Z.mod_pow2_bits_high by lia. done.
Qed.

Lemma to_array_bytes (i : Insn) :
  to_array i = i.(opc) :: Z.lor (u_wrapping_shl 8 i.(src) 4) i.(dst)
                 :: le_bytes 2 i.(off) ++ le_bytes 4 i.(imm).
Proof.
  unfold to_array. cbn [le_bytes app]. rewrite !as_u8_land_255.
  rewrite !Z.shiftr_shiftr by lia. simpl Z.add.
  unfold wrapping_shr. change (8 mod 16) with 8. change (8 mod 64) with 8.
  change (16 mod 32) with 16. change (24 mod 32) with 24.
  change 0xff00 with (Z.shiftl 0xff 8). change 0xff0000 with (Z.shiftl 0xff 16).
  change 0xff000000 with (Z.shiftl 0xff 24).
  rewrite !as_u8_field by lia. unfold as_u32. by rewrite !as_u8_shiftr_wrap by lia.
Qed.

Lemma register_nibbles (s d : Z) :
  in_u 4 s -> in_u 4 d ->
  Z.land (Z.lor (u_wrapping_shl 8 s 4) d) 0x0f = d /\
  Z.shiftr (Z.land (Z.lor (u_wrapping_shl 8 s 4) d) 0xf0) 4 = s.
Proof.
  intros Hs Hd.
  assert (Hall : Forall (fun s => Forall (fun d =>
    Z.land (Z.lor (u_wrapping_shl 8 s 4) d) 0x0f = d /\
    Z.shiftr (Z.land (Z.lor (u_wrapping_shl 8 s 4) d) 0xf0) 4 = s) (seqZ 0 16)) (seqZ 0 16)).
  { apply (bool_decide_unpack _). vm_compute. done. }
  unfold in_u in *. rewrite Forall_forall in Hall. specialize (Hall s). rewrite Forall_forall in Hall.
  apply Hall; apply elem_of_seqZ; lia.
Qed.

Lemma decode_to_array (i : Insn) : insn_wf i -> decode_bytes i.(ptr) (to_array i) = i.
Proof.
  destruct i as [p o d s f m]. unfold insn_wf. simpl. intros (Ho & Hd & Hs & Hf & Hm).
  rewrite to_array_bytes. unfold decode_bytes. simpl lookup. simpl default. simpl drop. simpl take. cbn [ptr opc src dst off imm].
  destruct (register_nibbles s d Hs Hd) as [-> ->].
  assert (forall a, [as_u8 a; as_u8 (Z.shiftr a 8)] = le_bytes 2 a) as -> by done.
  rewrite le_value_le_bytes, (swrap_uwrap 16), swrap_small by (done || lia).
  assert (forall a, [as_u8 a; as_u8 (Z.shiftr a 8); as_u8 (Z.shiftr (Z.shiftr a 8) 8);
    as_u8 (Z.shiftr (Z.shiftr (Z.shiftr a 8) 8) 8)] = le_bytes 4 a) as -> by done.
  by rewrite le_value_le_bytes, (swrap_uwrap 32), swrap_small by (done || lia).
Qed.

Lemma decode_bytes_ptr (p q : Z) (bs : list Z) :
  decode_bytes p bs =
    let j := decode_bytes q bs in mkInsn p j.(opc) j.(dst) j.(src) j.(off) j.(imm).
Proof. done. Qed.

Lemma byte_nibbles (b : Z) :
  is_byte b -> Z.lor (u_wrapping_shl 8 (Z.shiftr (Z.land b 0xf0) 4) 4) (Z.land b 0x0f) = b.
Proof.
  intros Hb.
  assert (Hall : Forall (fun b =>
    Z.lor (u_wrapping_shl 8 (Z.shiftr (Z.land b 0xf0) 4) 4) (Z.land b 0x0f) = b) (seqZ 0 256)).
  { apply (bool_decide_unpack _). vm_compute. done. }
  rewrite Forall_forall in Hall. apply Hall, elem_of_seqZ. unfold is_byte, in_u in Hb. lia.
Qed.

Lemma le_bytes_swrap (n : nat) (bs : list Z) :
  (0 < n)%nat -> bytes_ok bs -> length bs = n ->
  le_bytes n (swrap (8 * Z.of_nat n) (le_value bs)) = bs.
Proof.
  intros Hn Hb Hl. rewrite <-(le_bytes_le_value bs) at 2 by done. rewrite Hl.
  rewrite <-(le_bytes_le_value (le_bytes n (swrap _ _))) by apply le_bytes_ok.
  rewrite length_le_bytes, le_value_le_bytes, uwrap_swrap by lia.
  rewrite <-le_value_le_bytes. f_equal. by rewrite <-Hl, le_bytes_le_value.
Qed.

Lemma to_array_decode (pc : Z) (bs : list Z) :
  bytes_ok bs -> length bs = 8%nat -> to_array (decode_bytes pc bs) = bs.
Proof.
  intros Hb Hl. rewrite to_array_bytes.
  destruct (list_8 bs) as (b0&b1&b2&b3&b4&b5&b6&b7&rest&->); [lia|].
  destruct rest; [|simpl in Hl; lia]. clear Hl.
  rewrite !Forall_cons in Hb. destruct_and!.
  unfold decode_bytes. cbn [opc src dst off imm]. simpl lookup. simpl default.
  rewrite byte_nibbles by done. do 2 f_equal. simpl drop. simpl take.
  pose proof (le_bytes_swrap 2 [b2; b3]) as Hoff. pose proof (le_bytes_swrap 4 [b4; b5; b6; b7]) as Himm.
  change (8 * Z.of_nat 2) with 16 in Hoff. change (8 * Z.of_nat 4) with 32 in Himm.
  rewrite Hoff, Himm by (lia || done || by rewrite !Forall_cons; auto 10). done.
Qed.

(** The immediate of a 64-bit load: the low half from the instruction, the high
    half from the slot behind it. *)
Lemma augment_lddw_eq `{Bo : LittleEndian} {E} (prog : list Z) (insn : Insn) :
  0 <= insn.(ptr) -> INSN_SIZE * (insn.(ptr) + 2) <= zlen prog -> slice_len_ok prog ->
  @augment_lddw_unchecked Bo E prog insn
    = Ret (mkInsn insn.(ptr) insn.(opc) insn.(dst) insn.(src) insn.(off)
        (as_i64 (as_u32 insn.(imm)
          + as_u32 (decode_bytes (insn.(ptr) + 1) (insn_bytes prog (insn.(ptr) + 1))).(imm) * 2 ^ 32))).
Proof.
  intros H0 Hlen Hok. unfold slice_len_ok, i64_max, INSN_SIZE in *.
  unfold augment_lddw_unchecked, u64_mul, u64_add, u64_max, INSN_SIZE, exec_bind.
  rewrite !(proj2 (Z.leb_le _ _)) by lia.
  rewrite slice_from_Ret by lia. rewrite read_i32_spec.
  rewrite decide_True by (rewrite length_drop; unfold zlen in *; lia). cbn [expect].
  unfold decode_bytes, insn_bytes. cbn [imm].
  replace (Z.to_nat ((insn.(ptr) + 1) * 8 + 4)) with (Z.to_nat (INSN_SIZE * (insn.(ptr) + 1)) + 4)%nat
    by (unfold INSN_SIZE; lia).
  rewrite skipn_firstn_comm, drop_drop, firstn_firstn. change (4 `min` (8 - 4))%nat with 4%nat.
  set (hi := swrap 32 _). do 3 f_equal.
  replace (Z.land (as_u64 insn.(imm)) 0xffffffff) with (as_u32 insn.(imm)).
  - assert (Hs : as_u64 (Z.shiftl (as_u64 hi) 32) = Z.shiftl (as_u32 hi) 32).
    { unfold as_u64, as_u32, uwrap. rewrite !Z.shiftl_mul_pow2 by lia.
      change (2 ^ 64) with (2 ^ 32 * 2 ^ 32). rewrite Z.mul_mod_distr_r by lia. f_equal.
      exact (uwrap_uwrap 32 64 hi ltac:(lia)). }
    rewrite Hs. apply lor_shiftl_add; [lia|by apply uwrap_range].
  - change 0xffffffff with (Z.ones 32). rewrite Z.land_ones by lia.
    symmetry. apply (uwrap_uwrap 32 64). lia.
Qed.

(** Decoding the slot behind [pre], when it holds an encoded instruction. *)
Lemma get_insn_encoded `{Bo : LittleEndian} {E} (pre post : list Z) (pc : Z) (i : Insn) :
  insn_wf i -> 0 <= pc -> zlen pre = INSN_SIZE * pc ->
  slice_len_ok (pre ++ to_array i ++ post) ->
  @get_insn Bo E (pre ++ to_array i ++ post) pc =
    Ret (mkInsn pc i.(opc) i.(dst) i.(src) i.(off) i.(imm)).
Proof.
  intros Hi Hpc Hpre Hok. rewrite get_insn_eq; [|done| |done].
  - unfold insn_bytes. rewrite <-Hpre. unfold zlen. rewrite Nat2Z.id, drop_app_length.
    rewrite (take_app_length' _ _ 8) by done. f_equal.
    by rewrite (decode_bytes_ptr pc i.(ptr)), decode_to_array.
  - unfold zlen in *. rewrite !length_app. change (length (to_array i)) with 8%nat.
    unfold INSN_SIZE in *. lia.
Qed.

(** * Properties *)

(** Encoding then decoding an instruction.  For every instruction whose fields
    are in the ranges of the encoding, and at every index of every program that
    carries the eight bytes [to_array] produces there, [get_insn] returns that
    instruction with [ptr] set to the index. *)
Theorem get_insn_to_array `{Bo : LittleEndian} {E} (pre post : list Z) (pc : Z) (i : Insn) :
  insn_wf i -> 0 <= pc -> zlen pre = INSN_SIZE * pc ->
  slice_len_ok (pre ++ to_array i ++ post) ->
  @get_insn Bo E (pre ++ to_array i ++ post) pc =
    Ret {| ptr := pc; opc := i.(opc); dst := i.(dst); src := i.(src);
           off := i.(off); imm := i.(imm) |}.
Proof. apply get_insn_encoded. Qed.

Lemma get_insn_to_array_witness :
  @get_insn le_reference unit ([] ++ to_array (mkInsn 0 0xb7 2 1 0x3456 0x789abcde) ++ []) 0
    = Ret (mkInsn 0 0xb7 2 1 0x3456 0x789abcde) /\
  to_array (mkInsn 0 0xb7 2 1 0x3456 0x789abcde)
    = [0xb7; 0x12; 0x56; 0x34; 0xde; 0xbc; 0x9a; 0x78].
Proof.
  split; [|vm_compute; reflexivity].
  apply (get_insn_to_array (Bo := le_reference) [] [] 0 (mkInsn 0 0xb7 2 1 0x3456 0x789abcde)).
  - repeat split; vm_compute; congruence.
  - lia.
  - reflexivity.
  - vm_compute; congruence.
Defined.

(** Decoding then encoding an instruction.  The bytes of every complete
    instruction slot of a program are what [to_array] gives for the instruction
    [get_insn] reads there, so decoding loses nothing. *)
Theorem to_array_get_insn `{Bo : LittleEndian} {E} (prog : list Z) (pc : Z) :
  bytes_ok prog -> slice_len_ok prog -> 0 <= pc -> INSN_SIZE * (pc + 1) <= zlen prog ->
  exists i, @get_insn Bo E prog pc = Ret i /\ insn_wf i /\ i.(ptr) = pc /\
    to_array i = take 8 (drop (Z.to_nat (INSN_SIZE * pc)) prog).
Proof.
  intros Hb Hok Hpc Hlen. eexists. split; [by apply get_insn_eq|].
  pose proof (length_insn_bytes prog pc Hpc Hlen). pose proof (insn_bytes_ok prog pc Hb).
  split_and!; [by apply decode_bytes_wf|done|]. by rewrite to_array_decode.
Qed.

Lemma to_array_get_insn_witness :
  exists i, @get_insn le_reference unit [0x95; 0; 0; 0; 0; 0; 0; 0] 0 = Ret i /\ insn_wf i /\
    i.(ptr) = 0 /\ to_array i = [0x95; 0; 0; 0; 0; 0; 0; 0].
Proof.
  apply (to_array_get_insn (Bo := le_reference) [0x95; 0; 0; 0; 0; 0; 0; 0] 0).
  - apply (bool_decide_unpack _); vm_compute; reflexivity.
  - vm_compute; congruence.
  - lia.
  - vm_compute; congruence.
Defined.
