(* ===== verification/Program.v ===== *)
(** SBPF versions, function registries, the loader's built-in program
    ([src/program.rs]) and the VM configuration ([src/vm.rs], [Config]). *)
From stdpp Require Import sorting.
From S2P Require Import Prelude Error Ebpf.
Open Scope rust_scope.

(** * Versions *)

(* src/program.rs:11-26, SBPFVersion *)
Inductive SBPFVersion := V0 | V1 | V2 | V3 | V4 | Reserved.

#[export] Instance SBPFVersion_eq_dec : EqDecision SBPFVersion.
Proof. solve_decision. Defined.

(** The derived [PartialOrd] compares the positions of the variants. *)
(* src/program.rs:12-26, PartialOrd for SBPFVersion *)
Definition version_index (v : SBPFVersion) : Z :=
  match v with V0 => 0 | V1 => 1 | V2 => 2 | V3 => 3 | V4 => 4 | Reserved => 5 end.
Definition version_eqb (v w : SBPFVersion) : bool := version_index v =? version_index w.
Definition version_leb (v w : SBPFVersion) : bool := version_index v <=? version_index w.

(* src/program.rs:29-34, manual_stack_frame_bump *)
Definition manual_stack_frame_bump (self : SBPFVersion) : bool :=
  version_eqb self V1 || version_eqb self V2.
(* src/program.rs:35-38, stack_frame_gaps *)
Definition stack_frame_gaps (self : SBPFVersion) : bool := version_eqb self V0.
(* src/program.rs:40-43, enable_pqr *)
Definition enable_pqr (self : SBPFVersion) : bool := version_eqb self V2.
(* src/program.rs:44-47, explicit_sign_extension_of_results *)
Definition explicit_sign_extension_of_results (self : SBPFVersion) : bool := version_eqb self V2.
(* src/program.rs:48-51, swap_sub_reg_imm_operands *)
Definition swap_sub_reg_imm_operands (self : SBPFVersion) : bool := version_eqb self V2.
(* src/program.rs:52-55, disable_neg *)
Definition disable_neg (self : SBPFVersion) : bool := version_eqb self V2.
(* src/program.rs:57-60, callx_uses_src_reg *)
Definition callx_uses_src_reg (self : SBPFVersion) : bool := version_eqb self V2.
(* src/program.rs:61-64, disable_lddw *)
Definition disable_lddw (self : SBPFVersion) : bool := version_eqb self V2.
(* src/program.rs:65-68, disable_le *)
Definition disable_le (self : SBPFVersion) : bool := version_eqb self V2.
(* src/program.rs:69-72, move_memory_instruction_classes *)
Definition move_memory_instruction_classes (self : SBPFVersion) : bool := version_eqb self V2.
(* src/program.rs:74-77, static_syscalls *)
Definition static_syscalls (self : SBPFVersion) : bool := version_leb V3 self.
(* src/program.rs:78-81, enable_stricter_elf_headers *)
Definition enable_stricter_elf_headers (self : SBPFVersion) : bool := version_leb V3 self.
(* src/program.rs:82-85, enable_lower_rodata_vaddr *)
Definition enable_lower_rodata_vaddr (self : SBPFVersion) : bool := version_leb V3 self.
(* src/program.rs:86-89, enable_jmp32 *)
Definition enable_jmp32 (self : SBPFVersion) : bool := version_leb V3 self.
(* src/program.rs:90-93, callx_uses_dst_reg *)
Definition callx_uses_dst_reg (self : SBPFVersion) : bool := version_leb V3 self.

(* src/program.rs:95-103, calculate_call_imm_target_pc *)
Definition calculate_call_imm_target_pc (self : SBPFVersion) (pc imm : Z) : Z :=
  if static_syscalls self
  then as_u32 (i64_saturating_add (i64_saturating_add (as_i64 pc) imm) 1)
  else as_u32 imm.

(** * Configuration *)

(* src/vm.rs:55-90, Config *)
Record Config := {
  max_call_depth : Z;
  stack_frame_size : Z;
  enable_address_translation : bool;
  enable_stack_frame_gaps : bool;
  instruction_meter_checkpoint_distance : Z;
  enable_instruction_meter : bool;
  enable_register_tracing : bool;
  enable_symbol_and_section_labels : bool;
  reject_broken_elfs : bool;
  noop_instruction_rate : Z;
  sanitize_user_provided_values : bool;
  optimize_rodata : bool;
  allow_memory_region_zero : bool;
  aligned_memory_mapping : bool;
  enabled_sbpf_versions : SBPFVersion * SBPFVersion;
}.

(* src/vm.rs:92-97, Config::stack_size *)
Definition stack_size {E} (self : Config) : Exec E Z :=
  u64_mul self.(stack_frame_size) self.(max_call_depth).

(* src/vm.rs:99-121, Default for Config *)
Definition default_config : Config := {|
  max_call_depth := 64;
  stack_frame_size := 4096;
  enable_address_translation := true;
  enable_stack_frame_gaps := true;
  instruction_meter_checkpoint_distance := 10000;
  enable_instruction_meter := true;
  enable_register_tracing := false;
  enable_symbol_and_section_labels := false;
  reject_broken_elfs := false;
  noop_instruction_rate := 256;
  sanitize_user_provided_values := true;
  optimize_rodata := true;
  allow_memory_region_zero := true;
  aligned_memory_mapping := false;
  enabled_sbpf_versions := (V0, V4);
|}.

(** * Function registries *)

(* src/program.rs:106-110, FunctionRegistry *)
Abbreviation FunctionRegistry T := (gmap Z (list Z * T)).

(** A function pointer of a built-in is its address: pointers are compared by
    address, and what the function does is a parameter of the VM. *)
(* src/program.rs:227-228, BuiltinFunction *)
Abbreviation BuiltinFunction := Z (only parsing).

(* src/program.rs:230-237, BuiltinProgram *)
Record BuiltinProgram := {
  config : option Config;
  sparse_registry : FunctionRegistry BuiltinFunction;
}.

Section Registry.
Context {T : Type}.
Implicit Types map : FunctionRegistry T.

(* src/program.rs:112-118, Default for FunctionRegistry *)
Definition default_registry : FunctionRegistry T := ∅.

(** Iteration of the B-tree: ascending keys. *)
Definition btree_le (e1 e2 : Z * (list Z * T)) : Prop := e1.1 <= e2.1.
#[export] Instance btree_le_dec e1 e2 : Decision (btree_le e1 e2).
Proof. unfold btree_le. apply _. Defined.
Definition btree_entries map : list (Z * (list Z * T)) := merge_sort btree_le (map_to_list map).

(* src/program.rs:121-139, FunctionRegistry::register_function *)
Definition register_function `{EqDecision T} map (key : Z) (name : list Z) (value : T)
    : Exec ElfError (FunctionRegistry T) :=
  match map !! key with
  | None => Ret (<[key := (name, value)]> map)
  | Some entry =>
      if bool_decide (entry.2 = value) then Ret map else Err (SymbolHashCollision key)
  end.

(* src/program.rs:179-182, FunctionRegistry::unregister_function *)
Definition unregister_function map (key : Z) : FunctionRegistry T := delete key map.

(* src/program.rs:184-187, FunctionRegistry::keys *)
Definition keys map : list Z := fst <$> btree_entries map.

(* src/program.rs:189-194, FunctionRegistry::iter *)
Definition iter map : list (Z * (list Z * T)) := btree_entries map.

(* src/program.rs:196-202, FunctionRegistry::lookup_by_key *)
Definition lookup_by_key map (key : Z) : option (list Z * T) := map !! key.

(* src/program.rs:204-210, FunctionRegistry::lookup_by_name *)
Definition lookup_by_name map (name : list Z) : option (list Z * T) :=
  (fun e => e.2) <$> list_find (fun v => v.1 = name) (snd <$> btree_entries map).
End Registry.

(** [b"entrypoint"] *)
Definition entrypoint_name : list Z := [101; 110; 116; 114; 121; 112; 111; 105; 110; 116].

(* src/program.rs:246-252, BuiltinProgram::new_loader *)
Definition new_loader (config : Config) : BuiltinProgram :=
  {| config := Some config; sparse_registry := default_registry |}.
(* src/program.rs:254-260, BuiltinProgram::new_builtin *)
Definition new_builtin : BuiltinProgram :=
  {| config := None; sparse_registry := default_registry |}.
(* src/program.rs:262-268, BuiltinProgram::new_mock *)
Definition new_mock : BuiltinProgram :=
  {| config := Some default_config; sparse_registry := default_registry |}.

(* src/program.rs:270-273, BuiltinProgram::get_config *)
Definition get_config {E} (self : BuiltinProgram) : Exec E Config :=
  expect UnwrapNone self.(config).
(* src/program.rs:275-278, BuiltinProgram::get_function_registry *)
Definition get_function_registry (self : BuiltinProgram) : FunctionRegistry BuiltinFunction :=
  self.(sparse_registry).

Section Hashed.
Context `{Hash : Murmur3}.

(* src/program.rs:141-177, FunctionRegistry::register_function_hashed_legacy *)
Definition register_function_hashed_legacy (self : FunctionRegistry Z) (loader : BuiltinProgram)
    (hash_name : bool) (name : list Z) (value : Z) : Exec ElfError (FunctionRegistry Z * Z) :=
  let! config := get_config loader in
  let! key :=
    if hash_name then
      let hash :=
        if bool_decide (name = entrypoint_name) then hash_symbol_name entrypoint_name
        else hash_symbol_name (le_bytes 8 value) in
      match lookup_by_key (get_function_registry loader) hash with
      | Some _ => Err (SymbolHashCollision hash)
      | None => Ret hash
      end
    else Ret (as_u32 value) in
  let! self := register_function self key
    (if config.(enable_symbol_and_section_labels) || bool_decide (name = entrypoint_name)
     then name else []) value in
  Ret (self, key).

(* src/program.rs:291-301, BuiltinProgram::register_function *)
Definition builtin_register_function (self : BuiltinProgram) (name : list Z)
    (value : BuiltinFunction) : Exec ElfError BuiltinProgram :=
  let key := hash_symbol_name name in
  let! registry := register_function self.(sparse_registry) key name value in
  Ret {| config := self.(config); sparse_registry := registry |}.
End Hashed.

(** No key names both a function of the program and a syscall of the loader. *)
Definition registries_disjoint (functions : FunctionRegistry Z) (loader : BuiltinProgram) : Prop :=
  forall key, is_Some (lookup_by_key functions key) ->
    lookup_by_key (get_function_registry loader) key = None.

(** A hash for examples: the byte sum. *)
Program Definition sum_hash : Murmur3 := {|
  murmur3_finish32 bs := as_u32 (foldr Z.add 0 bs);
|}.
Next Obligation. intros. by apply uwrap_range. Qed.

(** * Lemmas *)

Section RegistryLemmas.
Context {T : Type}.
Implicit Types map : FunctionRegistry T.

Lemma btree_entries_elem map (k : Z) (e : list Z * T) :
  (k, e) ∈ btree_entries map <-> map !! k = Some e.
Proof. unfold btree_entries. by rewrite merge_sort_Permutation, elem_of_map_to_list. Qed.

Lemma btree_entries_sorted map (i j : nat) (ki kj : Z) (ei ej : list Z * T) :
  (i < j)%nat -> btree_entries map !! i = Some (ki, ei) ->
  btree_entries map !! j = Some (kj, ej) -> ki < kj.
Proof.
  intros Hij Hi Hj.
  assert (Hle : ki <= kj).
  { assert (HS : StronglySorted btree_le (btree_entries map)).
    { apply StronglySorted_merge_sort; [intros ???; unfold btree_le; lia|].
      intros ??; unfold btree_le; lia. }
    revert i j Hij Hi Hj. induction HS as [|e es HS IH HF]; intros i j Hij Hi Hj; [done|].
    destruct j as [|j]; [lia|]. destruct i as [|i]; simpl in *; [|eapply (IH i j); eauto; lia].
    simplify_eq. rewrite Forall_forall in HF. apply (HF (kj, ej)), list_elem_of_lookup. eauto. }
  assert (Hne : ki <> kj); [|lia]. intros ->.
  assert (HND : NoDup (fst <$> btree_entries map)).
  { unfold btree_entries. rewrite merge_sort_Permutation. apply NoDup_fst_map_to_list. }
  assert (i = j); [|lia]. eapply (NoDup_lookup _ i j kj HND); rewrite list_lookup_fmap.
  - by rewrite Hi.
  - by rewrite Hj.
Qed.
End RegistryLemmas.

(** * Properties *)

(** Registering a function.  A free key gets the given name and value; a key
    already bound to the same value keeps its entry; a key bound to another
    value is refused with [SymbolHashCollision].  No other entry changes, no
    entry is overwritten, and the call never panics. *)
Theorem register_function_spec {T} `{EqDecision T} (map : FunctionRegistry T) (key : Z)
    (name : list Z) (value : T) :
  match register_function map key name value with
  | Ret map' =>
      (exists n, lookup_by_key map' key = Some (n, value) /\
        (lookup_by_key map key = None -> n = name)) /\
      (forall k entry, lookup_by_key map k = Some entry -> lookup_by_key map' k = Some entry) /\
      (forall k, k <> key -> lookup_by_key map' k = lookup_by_key map k)
  | Err e => e = SymbolHashCollision key /\
      exists n v, lookup_by_key map key = Some (n, v) /\ v <> value
  | Panic _ => False
  end.
Proof.
  unfold register_function, lookup_by_key. destruct (map !! key) as [[n v]|] eqn:Hk.
  - case_bool_decide; simpl in *; subst; naive_solver.
  - split_and!; [by eexists; rewrite lookup_insert_eq| |by intros; rewrite lookup_insert_ne].
    intros k e He. destruct (decide (key = k)) as [->|]; [congruence|].
    by rewrite lookup_insert_ne.
Qed.

(** Looking a function up by name returns the entry of the smallest key that
    carries the name (the iteration order of the B-tree), and nothing exactly
    when no entry carries it. *)
Theorem lookup_by_name_spec {T} (map : FunctionRegistry T) (name : list Z) :
  match lookup_by_name map name with
  | Some (n, v) => n = name /\ exists k, lookup_by_key map k = Some (name, v) /\
      forall k' v', lookup_by_key map k' = Some (name, v') -> k <= k'
  | None => forall k v, lookup_by_key map k <> Some (name, v)
  end.
Proof.
  unfold lookup_by_name, lookup_by_key.
  destruct (list_find _ _) as [[i [n v]]|] eqn:Hf; simpl.
  - apply list_find_Some in Hf as (Hi & Hn & Hmin). simpl in Hn. subst n. split; [done|].
    rewrite list_lookup_fmap_Some in Hi. destruct Hi as ([k e] & He & Hi). simpl in He. subst e.
    exists k. split; [apply btree_entries_elem, list_elem_of_lookup; eauto|].
    intros k' v' Hk'%btree_entries_elem. apply list_elem_of_lookup in Hk' as [j Hj].
    destruct (Nat.lt_trichotomy i j) as [Hlt|[->|Hlt]]; [|by simplify_eq|].
    + pose proof (btree_entries_sorted _ _ _ _ _ _ _ Hlt Hi Hj). lia.
    + exfalso. eapply (Hmin j (name, v')); [|done|done]. by rewrite list_lookup_fmap, Hj.
  - intros k v Hk%btree_entries_elem. apply list_find_None in Hf.
    rewrite Forall_forall in Hf. apply (Hf (name, v)); [|done].
    apply list_elem_of_fmap. by exists (k, (name, v)).
Qed.

(** Hashed registration keeps functions and syscalls apart.  When names are
    hashed (before SBPFv3), a successful registration gives a key that no syscall
    of the loader uses, and disjointness of the two registries is preserved. *)
Theorem register_function_hashed_disjoint `{Hash : Murmur3} (self self' : FunctionRegistry Z)
    (loader : BuiltinProgram) (name : list Z) (value key : Z) :
  registries_disjoint self loader ->
  register_function_hashed_legacy self loader true name value = Ret (self', key) ->
  registries_disjoint self' loader /\
  lookup_by_key (get_function_registry loader) key = None /\
  (exists n, lookup_by_key self' key = Some (n, value)).
Proof.
  intros Hdis. unfold register_function_hashed_legacy.
  destruct (get_config loader) as [cfg| |]; [simpl|done|done].
  set (hash := if bool_decide _ then _ else _).
  destruct (lookup_by_key _ hash) eqn:Hfree; simpl; [done|].
  unfold register_function. destruct (self !! hash) as [[n v]|] eqn:Hk.
  - case_bool_decide; simpl; intros; simplify_eq. split_and!; [done|done|]. by exists n.
  - simpl. intros [= <- <-]. split_and!; [|done|by eexists; apply lookup_insert_eq].
    intros k. unfold lookup_by_key. destruct (decide (k = hash)) as [->|Hne]; [done|].
    rewrite lookup_insert_ne by done. apply Hdis.
Qed.

Lemma register_function_hashed_disjoint_witness :
  exists self' key,
    register_function_hashed_legacy (Hash := sum_hash) ∅ new_mock true entrypoint_name 7
      = Ret (self', key) /\
    registries_disjoint self' new_mock.
Proof.
  eexists _, _. split; [vm_compute; reflexivity|].
  apply (register_function_hashed_disjoint (Hash := sum_hash) ∅ _ new_mock entrypoint_name 7
    (@hash_symbol_name sum_hash entrypoint_name)).
  - intros k [e He]. vm_compute in He. congruence.
  - vm_compute. reflexivity.
Defined.
