(* ===== verification/Verifier.v ===== *)
(** The static verifier ([src/verifier.rs]): what it checks of every instruction,
    that it never panics, and what an accepted program satisfies. *)
From S2P Require Import Prelude Error Ebpf Program.
Open Scope rust_scope.

(** * Checks *)

Section Checks.
Context `{Bo : LittleEndian}.

(* src/verifier.rs:103-111, check_prog_len *)
Definition check_prog_len (prog : list Z) : Exec VerifierError unit :=
  if negb (zlen prog mod INSN_SIZE =? 0) then Err ProgramLengthNotMultiple
  else if zlen prog =? 0 then Err NoProgram
  else Ret tt.

(* src/verifier.rs:113-118, check_imm_nonzero *)
Definition check_imm_nonzero (insn : Insn) (insn_ptr : Z) : Exec VerifierError unit :=
  if insn.(imm) =? 0 then Err (DivisionByZero insn_ptr) else Ret tt.

(* src/verifier.rs:120-125, check_imm_endian *)
Definition check_imm_endian (insn : Insn) (insn_ptr : Z) : Exec VerifierError unit :=
  if opc_in insn.(imm) [16; 32; 64] then Ret tt else Err (UnsupportedLEBEArgument insn_ptr).

(* src/verifier.rs:127-137, check_imm_aligned *)
Definition check_imm_aligned (insn : Insn) (insn_ptr alignment : Z) : Exec VerifierError unit :=
  if Z.land insn.(imm) (alignment - 1) =? 0 then Ret tt else Err (UnalignedImmediate insn_ptr).

(* src/verifier.rs:139-149, check_load_dw *)
Definition check_load_dw (prog : list Z) (insn_ptr : Z) : Exec VerifierError unit :=
  let! next := u64_add insn_ptr 1 in
  let! next_offset := u64_mul next INSN_SIZE in
  if zlen prog <=? next_offset then Err LDDWCannotBeLast
  else
    let! next_insn := get_insn prog next in
    if negb (next_insn.(opc) =? 0) then Err (IncompleteLDDW insn_ptr) else Ret tt.

(** [n] is the end of [program_range], which starts at 0. *)
(* src/verifier.rs:151-173, check_jmp_offset *)
Definition check_jmp_offset (prog : list Z) (insn_ptr n : Z) : Exec VerifierError unit :=
  let! insn := get_insn prog insn_ptr in
  let! next := i64_add (as_i64 insn_ptr) 1 in
  let! dst_insn_ptr := i64_add next insn.(off) in
  if (dst_insn_ptr <? 0) || negb (as_u64 dst_insn_ptr <? n)
  then Err (JumpOutOfCode (as_u64 dst_insn_ptr) insn_ptr)
  else
    let! dst_insn := get_insn prog (as_u64 dst_insn_ptr) in
    if dst_insn.(opc) =? 0 then Err (JumpToMiddleOfLDDW (as_u64 dst_insn_ptr) insn_ptr)
    else Ret tt.

(* src/verifier.rs:175-193, check_registers *)
Definition check_registers (insn : Insn) (store : bool) (insn_ptr : Z) (v : SBPFVersion)
    : Exec VerifierError unit :=
  if 10 <? insn.(src) then Err (InvalidSourceRegister insn_ptr)
  else if (0 <=? insn.(dst)) && (insn.(dst) <=? 9) || (insn.(dst) =? 10) && store then Ret tt
  else if (insn.(dst) =? 10) && negb store
       && (manual_stack_frame_bump v && (insn.(opc) =? ADD64_IMM)) then Ret tt
  else if (insn.(dst) =? 10) && negb store then Err (CannotWriteR10 insn_ptr)
  else Err (InvalidDestinationRegister insn_ptr).

(* src/verifier.rs:195-204, check_imm_shift *)
Definition check_imm_shift (insn : Insn) (insn_ptr imm_bits : Z) : Exec VerifierError unit :=
  let shift_by := as_u64 insn.(imm) in
  if (insn.(imm) <? 0) || (imm_bits <=? shift_by)
  then Err (ShiftWithOverflow shift_by imm_bits insn_ptr)
  else Ret tt.

(* src/verifier.rs:206-223, check_callx_register *)
Definition check_callx_register (insn : Insn) (insn_ptr : Z) (v : SBPFVersion)
    : Exec VerifierError unit :=
  let reg := if callx_uses_src_reg v then insn.(src)
             else if callx_uses_dst_reg v then insn.(dst)
             else insn.(imm) in
  if negb ((0 <=? reg) && (reg <? 10)) then Err (InvalidRegister insn_ptr) else Ret tt.

(** * The arms of the verifier's [match]

    An arm returns the new [insn_ptr] and the [store] flag. *)

Section Arms.
Variable prog : list Z.
Variable v : SBPFVersion.
Variable n : Z.
Variable insn_ptr : Z.
Variable insn : Insn.

Let o : Z := insn.(opc).
Let plain : Exec VerifierError (Z * bool) := Ret (insn_ptr, false).
Let stored : Exec VerifierError (Z * bool) := Ret (insn_ptr, true).
Let checked (c : Exec VerifierError unit) : Exec VerifierError (Z * bool) := c ;; plain.

(* src/verifier.rs:241-244, RequisiteVerifier::verify *)
Definition verify_ld : list (bool * (unit -> Exec VerifierError (Z * bool))) :=
  [ (o =? LD_DW_IMM) && negb (disable_lddw v) ==>>
      check_load_dw prog insn_ptr ;;
      let! next := u64_add insn_ptr 1 in
      Ret (next, false) ].

(* src/verifier.rs:246-250, RequisiteVerifier::verify *)
Definition verify_ldx : list (bool * (unit -> Exec VerifierError (Z * bool))) :=
  [ (o =? LD_B_REG) && negb (move_memory_instruction_classes v) ==>> plain;
    (o =? LD_H_REG) && negb (move_memory_instruction_classes v) ==>> plain;
    (o =? LD_W_REG) && negb (move_memory_instruction_classes v) ==>> plain;
    (o =? LD_DW_REG) && negb (move_memory_instruction_classes v) ==>> plain ].

(* src/verifier.rs:252-256, RequisiteVerifier::verify *)
Definition verify_st : list (bool * (unit -> Exec VerifierError (Z * bool))) :=
  [ (o =? ST_B_IMM) && negb (move_memory_instruction_classes v) ==>> stored;
    (o =? ST_H_IMM) && negb (move_memory_instruction_classes v) ==>> stored;
    (o =? ST_W_IMM) && negb (move_memory_instruction_classes v) ==>> stored;
    (o =? ST_DW_IMM) && negb (move_memory_instruction_classes v) ==>> stored ].

(* src/verifier.rs:258-262, RequisiteVerifier::verify *)
Definition verify_stx : list (bool * (unit -> Exec VerifierError (Z * bool))) :=
  [ (o =? ST_B_REG) && negb (move_memory_instruction_classes v) ==>> stored;
    (o =? ST_H_REG) && negb (move_memory_instruction_classes v) ==>> stored;
    (o =? ST_W_REG) && negb (move_memory_instruction_classes v) ==>> stored;
    (o =? ST_DW_REG) && negb (move_memory_instruction_classes v) ==>> stored ].

(* src/verifier.rs:264-295, RequisiteVerifier::verify *)
Definition verify_alu32 : list (bool * (unit -> Exec VerifierError (Z * bool))) :=
  [ (o =? ADD32_IMM) ==>> plain;
    (o =? ADD32_REG) ==>> plain;
    (o =? SUB32_IMM) ==>> plain;
    (o =? SUB32_REG) ==>> plain;
    (o =? MUL32_IMM) && negb (enable_pqr v) ==>> plain;
    (o =? MUL32_REG) && negb (enable_pqr v) ==>> plain;
    (o =? LD_1B_REG) && move_memory_instruction_classes v ==>> plain;
    (o =? DIV32_IMM) && negb (enable_pqr v) ==>> checked (check_imm_nonzero insn insn_ptr);
    (o =? DIV32_REG) && negb (enable_pqr v) ==>> plain;
    (o =? LD_2B_REG) && move_memory_instruction_classes v ==>> plain;
    (o =? OR32_IMM) ==>> plain;
    (o =? OR32_REG) ==>> plain;
    (o =? AND32_IMM) ==>> plain;
    (o =? AND32_REG) ==>> plain;
    (o =? LSH32_IMM) ==>> checked (check_imm_shift insn insn_ptr 32);
    (o =? LSH32_REG) ==>> plain;
    (o =? RSH32_IMM) ==>> checked (check_imm_shift insn insn_ptr 32);
    (o =? RSH32_REG) ==>> plain;
    (o =? NEG32) && negb (disable_neg v) ==>> plain;
    (o =? LD_4B_REG) && move_memory_instruction_classes v ==>> plain;
    (o =? MOD32_IMM) && negb (enable_pqr v) ==>> checked (check_imm_nonzero insn insn_ptr);
    (o =? MOD32_REG) && negb (enable_pqr v) ==>> plain;
    (o =? LD_8B_REG) && move_memory_instruction_classes v ==>> plain;
    (o =? XOR32_IMM) ==>> plain;
    (o =? XOR32_REG) ==>> plain;
    (o =? MOV32_IMM) ==>> plain;
    (o =? MOV32_REG) ==>> plain;
    (o =? ARSH32_IMM) ==>> checked (check_imm_shift insn insn_ptr 32);
    (o =? ARSH32_REG) ==>> plain;
    (o =? LE) && negb (disable_le v) ==>> checked (check_imm_endian insn insn_ptr);
    (o =? BE) ==>> checked (check_imm_endian insn insn_ptr) ].

(* src/verifier.rs:297-334, RequisiteVerifier::verify *)
Definition verify_alu64 : list (bool * (unit -> Exec VerifierError (Z * bool))) :=
  [ (o =? ADD64_IMM) && (insn.(dst) =? as_u8 FRAME_PTR_REG) && manual_stack_frame_bump v
      ==>> checked (check_imm_aligned insn insn_ptr 64);
    (o =? ADD64_IMM) ==>> plain;
    (o =? ADD64_REG) ==>> plain;
    (o =? SUB64_IMM) ==>> plain;
    (o =? SUB64_REG) ==>> plain;
    (o =? MUL64_IMM) && negb (enable_pqr v) ==>> plain;
    (o =? ST_1B_IMM) && move_memory_instruction_classes v ==>> stored;
    (o =? MUL64_REG) && negb (enable_pqr v) ==>> plain;
    (o =? ST_1B_REG) && move_memory_instruction_classes v ==>> stored;
    (o =? DIV64_IMM) && negb (enable_pqr v) ==>> checked (check_imm_nonzero insn insn_ptr);
    (o =? ST_2B_IMM) && move_memory_instruction_classes v ==>> stored;
    (o =? DIV64_REG) && negb (enable_pqr v) ==>> plain;
    (o =? ST_2B_REG) && move_memory_instruction_classes v ==>> stored;
    (o =? OR64_IMM) ==>> plain;
    (o =? OR64_REG) ==>> plain;
    (o =? AND64_IMM) ==>> plain;
    (o =? AND64_REG) ==>> plain;
    (o =? LSH64_IMM) ==>> checked (check_imm_shift insn insn_ptr 64);
    (o =? LSH64_REG) ==>> plain;
    (o =? RSH64_IMM) ==>> checked (check_imm_shift insn insn_ptr 64);
    (o =? RSH64_REG) ==>> plain;
    (o =? ST_4B_IMM) && move_memory_instruction_classes v ==>> stored;
    (o =? NEG64) && negb (disable_neg v) ==>> plain;
    (o =? ST_4B_REG) && move_memory_instruction_classes v ==>> stored;
    (o =? MOD64_IMM) && negb (enable_pqr v) ==>> checked (check_imm_nonzero insn insn_ptr);
    (o =? ST_8B_IMM) && move_memory_instruction_classes v ==>> stored;
    (o =? MOD64_REG) && negb (enable_pqr v) ==>> plain;
    (o =? ST_8B_REG) && move_memory_instruction_classes v ==>> stored;
    (o =? XOR64_IMM) ==>> plain;
    (o =? XOR64_REG) ==>> plain;
    (o =? MOV64_IMM) ==>> plain;
    (o =? MOV64_REG) ==>> plain;
    (o =? ARSH64_IMM) ==>> checked (check_imm_shift insn insn_ptr 64);
    (o =? ARSH64_REG) ==>> plain;
    (o =? HOR64_IMM) && disable_lddw v ==>> plain ].

(* src/verifier.rs:336-360, RequisiteVerifier::verify *)
Definition verify_pqr : list (bool * (unit -> Exec VerifierError (Z * bool))) :=
  [ (o =? LMUL32_IMM) && enable_pqr v ==>> plain;
    (o =? LMUL32_REG) && enable_pqr v ==>> plain;
    (o =? LMUL64_IMM) && enable_pqr v ==>> plain;
    (o =? LMUL64_REG) && enable_pqr v ==>> plain;
    (o =? UHMUL64_IMM) && enable_pqr v ==>> plain;
    (o =? UHMUL64_REG) && enable_pqr v ==>> plain;
    (o =? SHMUL64_IMM) && enable_pqr v ==>> plain;
    (o =? SHMUL64_REG) && enable_pqr v ==>> plain;
    (o =? UDIV32_IMM) && enable_pqr v ==>> checked (check_imm_nonzero insn insn_ptr);
    (o =? UDIV32_REG) && enable_pqr v ==>> plain;
    (o =? UDIV64_IMM) && enable_pqr v ==>> checked (check_imm_nonzero insn insn_ptr);
    (o =? UDIV64_REG) && enable_pqr v ==>> plain;
    (o =? UREM32_IMM) && enable_pqr v ==>> checked (check_imm_nonzero insn insn_ptr);
    (o =? UREM32_REG) && enable_pqr v ==>> plain;
    (o =? UREM64_IMM) && enable_pqr v ==>> checked (check_imm_nonzero insn insn_ptr);
    (o =? UREM64_REG) && enable_pqr v ==>> plain;
    (o =? SDIV32_IMM) && enable_pqr v ==>> checked (check_imm_nonzero insn insn_ptr);
    (o =? SDIV32_REG) && enable_pqr v ==>> plain;
    (o =? SDIV64_IMM) && enable_pqr v ==>> checked (check_imm_nonzero insn insn_ptr);
    (o =? SDIV64_REG) && enable_pqr v ==>> plain;
    (o =? SREM32_IMM) && enable_pqr v ==>> checked (check_imm_nonzero insn insn_ptr);
    (o =? SREM32_REG) && enable_pqr v ==>> plain;
    (o =? SREM64_IMM) && enable_pqr v ==>> checked (check_imm_nonzero insn insn_ptr);
    (o =? SREM64_REG) && enable_pqr v ==>> plain ].

(* src/verifier.rs:362-384, RequisiteVerifier::verify *)
Definition verify_jmp32 : list (bool * (unit -> Exec VerifierError (Z * bool))) :=
  [ opc_in o
       [JEQ32_IMM; JEQ32_REG; JGT32_IMM; JGT32_REG; JGE32_IMM; JGE32_REG; JLT32_IMM;
        JLT32_REG; JLE32_IMM; JLE32_REG; JSET32_IMM; JSET32_REG; JNE32_IMM; JNE32_REG;
        JSGT32_IMM; JSGT32_REG; JSGE32_IMM; JSGE32_REG; JSLT32_IMM; JSLT32_REG; JSLE32_IMM;
        JSLE32_REG] && enable_jmp32 v
      ==>> checked (check_jmp_offset prog insn_ptr n) ].

(* src/verifier.rs:386-412, RequisiteVerifier::verify *)
Definition verify_jmp64 : list (bool * (unit -> Exec VerifierError (Z * bool))) :=
  [ opc_in o
       [JA; JEQ64_IMM; JEQ64_REG; JGT64_IMM; JGT64_REG; JGE64_IMM; JGE64_REG; JLT64_IMM;
        JLT64_REG; JLE64_IMM; JLE64_REG; JSET64_IMM; JSET64_REG; JNE64_IMM; JNE64_REG;
        JSGT64_IMM; JSGT64_REG; JSGE64_IMM; JSGE64_REG; JSLT64_IMM; JSLT64_REG; JSLE64_IMM;
        JSLE64_REG]
      ==>> checked (check_jmp_offset prog insn_ptr n);
    (o =? CALL_IMM) ==>> plain;
    (o =? CALL_REG) ==>> checked (check_callx_register insn insn_ptr v);
    (o =? EXIT) ==>> plain ].


Definition verify_arms : list (bool * (unit -> Exec VerifierError (Z * bool))) :=
  verify_ld ++ verify_ldx ++ verify_st ++ verify_stx ++ verify_alu32 ++ verify_alu64 ++
  verify_pqr ++ verify_jmp32 ++ verify_jmp64.

(* src/verifier.rs:240-417, RequisiteVerifier::verify *)
Definition verify_insn : Exec VerifierError (Z * bool) :=
  match first_arm verify_arms with
  | Some arm => arm tt
  | None => Err (UnknownOpCode o insn_ptr)
  end.
End Arms.

(** The [while] loop; it returns the final [insn_ptr]. *)
(* src/verifier.rs:235-422, RequisiteVerifier::verify *)
Fixpoint verify_loop (fuel : nat) (prog : list Z) (v : SBPFVersion) (n insn_ptr : Z)
    : Exec VerifierError Z :=
  match fuel with
  | O => Panic OutOfFuel
  | S fuel =>
      let! next := u64_add insn_ptr 1 in
      let! end_offset := u64_mul next INSN_SIZE in
      if end_offset <=? zlen prog then
        let! insn := get_insn prog insn_ptr in
        let! (insn_ptr, store) := verify_insn prog v n insn_ptr insn in
        check_registers insn store insn_ptr v ;;
        let! insn_ptr := u64_add insn_ptr 1 in
        verify_loop fuel prog v n insn_ptr
      else Ret insn_ptr
  end.

(** The configuration and the registries are not looked at.  The loop runs at
    most once per instruction slot, so [length prog] is fuel enough. *)
(* src/verifier.rs:225-431, RequisiteVerifier::verify *)
Definition verify (prog : list Z) (v : SBPFVersion) : Exec VerifierError unit :=
  check_prog_len prog ;;
  let n := zlen prog / INSN_SIZE in
  let! insn_ptr := verify_loop (length prog) prog v n 0 in
  if negb (insn_ptr =? n) then Err (JumpOutOfCode insn_ptr insn_ptr) else Ret tt.
End Checks.

Example verify_exit : verify (Bo := le_reference) [0x95; 0; 0; 0; 0; 0; 0; 0] V0 = Ret tt.
Proof. vm_compute. reflexivity. Qed.
Example verify_jump_out :
  verify (Bo := le_reference) [0x05; 0; 5; 0; 0; 0; 0; 0] V3 = Err (JumpOutOfCode 6 0).
Proof. vm_compute. reflexivity. Qed.

(** * Specification *)

(** What an instruction of a version is checked for. *)
Inductive InsnClass :=
  | ClassPlain
  | ClassStore
  | ClassLddw
  | ClassNonzeroImm
  | ClassEndian
  | ClassShift (bits : Z)
  | ClassStackBump
  | ClassJump
  | ClassCallx.

Definition class_table (v : SBPFVersion) (writes_fp : bool) : list (bool * list Z * InsnClass) :=
  let m := move_memory_instruction_classes v in
  let q := enable_pqr v in
  [ (negb (disable_lddw v), [LD_DW_IMM], ClassLddw);
    (negb m, [LD_B_REG; LD_H_REG; LD_W_REG; LD_DW_REG], ClassPlain);
    (m, [LD_1B_REG; LD_2B_REG; LD_4B_REG; LD_8B_REG], ClassPlain);
    (negb m, [ST_B_IMM; ST_H_IMM; ST_W_IMM; ST_DW_IMM; ST_B_REG; ST_H_REG; ST_W_REG; ST_DW_REG],
      ClassStore);
    (m, [ST_1B_IMM; ST_2B_IMM; ST_4B_IMM; ST_8B_IMM; ST_1B_REG; ST_2B_REG; ST_4B_REG; ST_8B_REG],
      ClassStore);
    (true, [ADD32_IMM; ADD32_REG; SUB32_IMM; SUB32_REG; OR32_IMM; OR32_REG; AND32_IMM; AND32_REG;
      LSH32_REG; RSH32_REG; XOR32_IMM; XOR32_REG; MOV32_IMM; MOV32_REG; ARSH32_REG], ClassPlain);
    (true, [ADD64_REG; SUB64_IMM; SUB64_REG; OR64_IMM; OR64_REG; AND64_IMM; AND64_REG;
      LSH64_REG; RSH64_REG; XOR64_IMM; XOR64_REG; MOV64_IMM; MOV64_REG; ARSH64_REG], ClassPlain);
    (writes_fp && manual_stack_frame_bump v, [ADD64_IMM], ClassStackBump);
    (true, [ADD64_IMM], ClassPlain);
    (negb q, [MUL32_IMM; MUL32_REG; MUL64_IMM; MUL64_REG; DIV32_REG; DIV64_REG; MOD32_REG;
      MOD64_REG], ClassPlain);
    (negb q, [DIV32_IMM; DIV64_IMM; MOD32_IMM; MOD64_IMM], ClassNonzeroImm);
    (true, [LSH32_IMM; RSH32_IMM; ARSH32_IMM], ClassShift 32);
    (true, [LSH64_IMM; RSH64_IMM; ARSH64_IMM], ClassShift 64);
    (negb (disable_neg v), [NEG32; NEG64], ClassPlain);
    (negb (disable_le v), [LE], ClassEndian);
    (true, [BE], ClassEndian);
    (disable_lddw v, [HOR64_IMM], ClassPlain);
    (q, [LMUL32_IMM; LMUL32_REG; LMUL64_IMM; LMUL64_REG; UHMUL64_IMM; UHMUL64_REG; SHMUL64_IMM;
      SHMUL64_REG; UDIV32_REG; UDIV64_REG; UREM32_REG; UREM64_REG; SDIV32_REG; SDIV64_REG;
      SREM32_REG; SREM64_REG], ClassPlain);
    (q, [UDIV32_IMM; UDIV64_IMM; UREM32_IMM; UREM64_IMM; SDIV32_IMM; SDIV64_IMM; SREM32_IMM;
      SREM64_IMM], ClassNonzeroImm);
    (enable_jmp32 v, [JEQ32_IMM; JEQ32_REG; JGT32_IMM; JGT32_REG; JGE32_IMM; JGE32_REG; JLT32_IMM;
      JLT32_REG; JLE32_IMM; JLE32_REG; JSET32_IMM; JSET32_REG; JNE32_IMM; JNE32_REG; JSGT32_IMM;
      JSGT32_REG; JSGE32_IMM; JSGE32_REG; JSLT32_IMM; JSLT32_REG; JSLE32_IMM; JSLE32_REG],
      ClassJump);
    (true, [JA; JEQ64_IMM; JEQ64_REG; JGT64_IMM; JGT64_REG; JGE64_IMM; JGE64_REG; JLT64_IMM;
      JLT64_REG; JLE64_IMM; JLE64_REG; JSET64_IMM; JSET64_REG; JNE64_IMM; JNE64_REG; JSGT64_IMM;
      JSGT64_REG; JSGE64_IMM; JSGE64_REG; JSLT64_IMM; JSLT64_REG; JSLE64_IMM; JSLE64_REG],
      ClassJump);
    (true, [CALL_IMM; EXIT], ClassPlain);
    (true, [CALL_REG], ClassCallx) ].

Definition opcode_class (v : SBPFVersion) (writes_fp : bool) (o : Z) : option InsnClass :=
  first_arm ((fun row => (row.1.1 && opc_in o row.1.2, row.2)) <$> class_table v writes_fp).
Definition insn_class (v : SBPFVersion) (insn : Insn) : option InsnClass :=
  opcode_class v (insn.(dst) =? 10) insn.(opc).

(** The register [callx] jumps through. *)
Definition callx_operand (v : SBPFVersion) (insn : Insn) : Z :=
  if callx_uses_src_reg v then insn.(src)
  else if callx_uses_dst_reg v then insn.(dst) else insn.(imm).

(** The instruction in a slot. *)
Definition insn_at (prog : list Z) (pc : Z) : Insn := decode_bytes pc (insn_bytes prog pc).

(** The number of slots. *)
Definition num_insns (prog : list Z) : Z := zlen prog / INSN_SIZE.

(** What the verifier guarantees of an instruction of a class at [pc]. *)
Definition class_ok (prog : list Z) (v : SBPFVersion) (pc : Z) (c : InsnClass) : Prop :=
  let insn := insn_at prog pc in
  match c with
  | ClassPlain | ClassStore => True
  | ClassLddw => pc + 1 < num_insns prog /\ (insn_at prog (pc + 1)).(opc) = 0
  | ClassNonzeroImm => insn.(imm) <> 0
  | ClassEndian => insn.(imm) = 16 \/ insn.(imm) = 32 \/ insn.(imm) = 64
  | ClassShift bits => 0 <= insn.(imm) < bits
  | ClassStackBump => insn.(imm) mod 64 = 0
  | ClassJump =>
      let target := pc + 1 + insn.(off) in
      0 <= target < num_insns prog /\ (insn_at prog target).(opc) <> 0
  | ClassCallx => 0 <= callx_operand v insn < 10
  end.

(** Registers: a source of r0 to r10; a destination of r0 to r9, or r10 for a
    store and for the stack pointer adjustment of SBPFv1 and v2. *)
Definition registers_ok (c : InsnClass) (insn : Insn) : Prop :=
  insn.(src) <= 10 /\
  (insn.(dst) <= 9 \/
   insn.(dst) = 10 /\ (c = ClassStore \/ c = ClassStackBump)).

(** An instruction that starts at [pc] is accepted. *)
Definition insn_ok (prog : list Z) (v : SBPFVersion) (pc : Z) : Prop :=
  exists c, insn_class v (insn_at prog pc) = Some c /\
    class_ok prog v pc c /\ registers_ok c (insn_at prog pc).

(** From [pc], instructions follow one another up to the end of the program; a
    64-bit immediate load takes two slots. *)
Inductive well_formed_from (prog : list Z) (v : SBPFVersion) : Z -> Prop :=
  | wf_end : well_formed_from prog v (num_insns prog)
  | wf_lddw pc :
      0 <= pc < num_insns prog -> insn_ok prog v pc -> (insn_at prog pc).(opc) = LD_DW_IMM ->
      well_formed_from prog v (pc + 2) -> well_formed_from prog v pc
  | wf_insn pc :
      0 <= pc < num_insns prog -> insn_ok prog v pc -> (insn_at prog pc).(opc) <> LD_DW_IMM ->
      well_formed_from prog v (pc + 1) -> well_formed_from prog v pc.

Definition well_formed_program (prog : list Z) (v : SBPFVersion) : Prop :=
  zlen prog mod INSN_SIZE = 0 /\ prog <> [] /\ well_formed_from prog v 0.

(** * Lemmas *)

(** The arms, by class. *)
Definition class_action `{Bo : LittleEndian} (prog : list Z) (v : SBPFVersion) (n insn_ptr : Z)
    (insn : Insn) (c : InsnClass) : Exec VerifierError (Z * bool) :=
  let plain := Ret (insn_ptr, false) in
  match c with
  | ClassPlain => plain
  | ClassStore => Ret (insn_ptr, true)
  | ClassLddw =>
      check_load_dw prog insn_ptr ;; let! next := u64_add insn_ptr 1 in Ret (next, false)
  | ClassNonzeroImm => check_imm_nonzero insn insn_ptr ;; plain
  | ClassEndian => check_imm_endian insn insn_ptr ;; plain
  | ClassShift bits => check_imm_shift insn insn_ptr bits ;; plain
  | ClassStackBump => check_imm_aligned insn insn_ptr 64 ;; plain
  | ClassJump => check_jmp_offset prog insn_ptr n ;; plain
  | ClassCallx => check_callx_register insn insn_ptr v ;; plain
  end.

(** The classes of the arms, in their order. *)
Definition arm_classes : list InsnClass :=
  [ClassLddw] ++ replicate 4 ClassPlain ++ replicate 8 ClassStore ++ replicate 7 ClassPlain ++
  [ClassNonzeroImm] ++ replicate 6 ClassPlain ++ [ClassShift 32] ++ [ClassPlain] ++
  [ClassShift 32] ++ replicate 3 ClassPlain ++ [ClassNonzeroImm] ++ replicate 6 ClassPlain ++
  [ClassShift 32] ++ [ClassPlain] ++ replicate 2 ClassEndian ++ [ClassStackBump] ++
  replicate 5 ClassPlain ++ [ClassStore] ++ [ClassPlain] ++ [ClassStore] ++ [ClassNonzeroImm]
  ++ [ClassStore] ++ [ClassPlain] ++ [ClassStore] ++ replicate 4 ClassPlain ++ [ClassShift 64]
  ++ [ClassPlain] ++ [ClassShift 64] ++ [ClassPlain] ++ [ClassStore] ++ [ClassPlain] ++
  [ClassStore] ++ [ClassNonzeroImm] ++ [ClassStore] ++ [ClassPlain] ++ [ClassStore] ++
  replicate 4 ClassPlain ++ [ClassShift 64] ++ replicate 10 ClassPlain ++ [ClassNonzeroImm] ++
  [ClassPlain] ++ [ClassNonzeroImm] ++ [ClassPlain] ++ [ClassNonzeroImm] ++ [ClassPlain] ++
  [ClassNonzeroImm] ++ [ClassPlain] ++ [ClassNonzeroImm] ++ [ClassPlain] ++ [ClassNonzeroImm]
  ++ [ClassPlain] ++ [ClassNonzeroImm] ++ [ClassPlain] ++ [ClassNonzeroImm] ++ [ClassPlain] ++
  replicate 2 ClassJump ++ [ClassPlain] ++ [ClassCallx] ++ [ClassPlain].

Definition arm_guards `{Bo : LittleEndian} (v : SBPFVersion) (o : Z) (writes_fp : bool) : list bool :=
  fst <$> verify_arms [] v 0 0 (mkInsn 0 o (if writes_fp then 10 else 0) 0 0 0).

#[export] Instance InsnClass_eq_dec : EqDecision InsnClass.
Proof. solve_decision. Defined.

Lemma arm_guards_eq `{Bo : LittleEndian} (prog : list Z) (v : SBPFVersion) (n pc : Z) (insn : Insn) :
  fst <$> verify_arms prog v n pc insn = arm_guards v insn.(opc) (insn.(dst) =? 10).
Proof.
  unfold arm_guards, verify_arms, verify_alu64.
  change (as_u8 FRAME_PTR_REG) with 10. cbn [dst]. by destruct (insn.(dst) =? 10).
Qed.

Lemma arm_guards_class `{Bo : LittleEndian} (v : SBPFVersion) (o : Z) (b : bool) :
  in_u 8 o -> (first_true (arm_guards v o b) ≫= fun i => arm_classes !! i) = opcode_class v b o.
Proof.
  intros Ho. assert (Hin : o ∈ seqZ 0 256) by (apply elem_of_seqZ; unfold in_u in Ho; lia).
  clear Ho. revert o Hin. apply Forall_forall.
  destruct v, b; apply (bool_decide_unpack _); vm_compute; exact I.
Qed.

Lemma arm_actions `{Bo : LittleEndian} (prog : list Z) (v : SBPFVersion) (n pc : Z) (insn : Insn) :
  Forall2 (fun arm c => arm.2 tt = class_action prog v n pc insn c)
    (verify_arms prog v n pc insn) arm_classes.
Proof.
  unfold verify_arms, class_action.
  repeat first [apply Forall2_nil_2 | apply Forall2_cons_2; [reflexivity|]].
Qed.

Lemma verify_insn_class `{Bo : LittleEndian} (prog : list Z) (v : SBPFVersion) (n pc : Z)
    (insn : Insn) :
  in_u 8 insn.(opc) ->
  verify_insn prog v n pc insn =
    match insn_class v insn with
    | Some c => class_action prog v n pc insn c
    | None => Err (UnknownOpCode insn.(opc) pc)
    end.
Proof.
  intros Ho. unfold verify_insn, insn_class. rewrite first_arm_first_true, arm_guards_eq.
  rewrite <-(arm_guards_class v insn.(opc) (insn.(dst) =? 10) Ho).
  destruct (first_true _) as [i|] eqn:Hi; cbn [mbind option_bind]; [|done].
  apply first_true_lookup in Hi. rewrite <-(arm_guards_eq prog v n pc), list_lookup_fmap in Hi.
  destruct (verify_arms _ _ _ _ _ !! i) as [[g a]|] eqn:Ha; [|done].
  destruct (Forall2_lookup_l _ _ _ _ _ (arm_actions prog v n pc insn) Ha) as (c & Hci & Hact).
  rewrite Hci. exact Hact.
Qed.

(** Facts of the class table. *)
Lemma opcode_class_all (P : SBPFVersion -> bool -> Z -> option InsnClass -> bool) :
  forallb (fun v => forallb (fun b => forallb (fun o => P v b o (opcode_class v b o)) (seqZ 0 256))
    [true; false]) [V0; V1; V2; V3; V4; Reserved] = true ->
  forall v b o, in_u 8 o -> P v b o (opcode_class v b o) = true.
Proof.
  intros Hall v b o Ho. rewrite forallb_forall in Hall. specialize (Hall v).
  rewrite forallb_forall in Hall. specialize (Hall ltac:(destruct v; simpl; tauto) b).
  rewrite forallb_forall in Hall. apply Hall; [destruct b; simpl; tauto|].
  apply list_elem_of_In, elem_of_seqZ. unfold in_u in Ho. lia.
Qed.

Lemma opcode_class_lddw (v : SBPFVersion) (b : bool) (o : Z) (c : InsnClass) :
  in_u 8 o -> opcode_class v b o = Some c -> (o = LD_DW_IMM <-> c = ClassLddw).
Proof.
  intros Ho Hc.
  unshelve epose proof (opcode_class_all (fun v b o oc =>
    match oc with Some c => bool_decide (o = LD_DW_IMM <-> c = ClassLddw) | None => true end)
    _ v b o Ho) as H; [vm_compute; reflexivity|].
  cbn beta in H. rewrite Hc in H. by apply bool_decide_eq_true in H.
Qed.

Lemma opcode_class_bump (v : SBPFVersion) (b : bool) (o : Z) (c : InsnClass) :
  in_u 8 o -> opcode_class v b o = Some c ->
  (c = ClassStackBump <-> o = ADD64_IMM /\ b = true /\ manual_stack_frame_bump v = true).
Proof.
  intros Ho Hc.
  unshelve epose proof (opcode_class_all (fun v b o oc =>
    match oc with
    | Some c => bool_decide (c = ClassStackBump <->
        o = ADD64_IMM /\ b = true /\ manual_stack_frame_bump v = true)
    | None => true end) _ v b o Ho) as H; [vm_compute; reflexivity|].
  cbn beta in H. rewrite Hc in H. by apply bool_decide_eq_true in H.
Qed.

(** ** The checks *)

Section CheckLemmas.
Context `{Bo : LittleEndian}.
Variable prog : list Z.
Variable v : SBPFVersion.
Hypothesis Hbytes : bytes_ok prog.
Hypothesis Hlen : slice_len_ok prog.
Hypothesis Hmul : zlen prog mod INSN_SIZE = 0.

Lemma num_insns_len : zlen prog = INSN_SIZE * num_insns prog.
Proof. unfold num_insns. apply Z.div_exact; [unfold INSN_SIZE; lia|done]. Qed.

Lemma num_insns_bound : 0 <= num_insns prog < 2 ^ 60.
Proof.
  pose proof num_insns_len as H. unfold slice_len_ok, i64_max, zlen, INSN_SIZE in *.
  split; [|lia]. unfold num_insns. apply Z.div_pos; unfold zlen, INSN_SIZE; lia.
Qed.

Lemma get_insn_at {E} (pc : Z) :
  0 <= pc < num_insns prog -> @get_insn Bo E prog pc = Ret (insn_at prog pc).
Proof.
  intros Hpc. apply get_insn_eq; [lia| |done]. rewrite num_insns_len. unfold INSN_SIZE. lia.
Qed.

Lemma insn_at_wf (pc : Z) : 0 <= pc < num_insns prog -> insn_wf (insn_at prog pc).
Proof.
  intros Hpc. apply decode_bytes_wf; [by apply insn_bytes_ok|].
  apply length_insn_bytes; [lia|]. rewrite num_insns_len. unfold INSN_SIZE. lia.
Qed.

Lemma insn_at_opc (pc : Z) : 0 <= pc < num_insns prog -> in_u 8 (insn_at prog pc).(opc).
Proof. intros Hpc. apply insn_at_wf, Hpc. Qed.

(** A check decides its property and never panics. *)
Definition decides {E A} (m : Exec E A) (P : Prop) : Prop :=
  match m with Ret _ => P | Err _ => ~ P | Panic _ => False end.

Lemma check_load_dw_decides (pc : Z) :
  0 <= pc < num_insns prog -> decides (check_load_dw prog pc) (class_ok prog v pc ClassLddw).
Proof.
  intros Hpc. pose proof num_insns_bound. pose proof num_insns_len.
  unfold check_load_dw, u64_add, u64_mul, u64_max, INSN_SIZE in *.
  rewrite !(proj2 (Z.leb_le _ _)) by lia. cbn [exec_bind].
  rewrite !(proj2 (Z.leb_le _ _)) by lia. cbn [exec_bind].
  destruct (Z.leb_spec (zlen prog) ((pc + 1) * 8)); cbn [decides class_ok]; [lia|].
  rewrite get_insn_at by lia. cbn [exec_bind].
  destruct (Z.eqb_spec (insn_at prog (pc + 1)).(opc) 0); cbn; [split; [lia|done]|]. by intros [_ ?].
Qed.

Lemma check_jmp_offset_decides (pc : Z) :
  0 <= pc < num_insns prog ->
  decides (check_jmp_offset prog pc (num_insns prog)) (class_ok prog v pc ClassJump).
Proof.
  intros Hpc. pose proof num_insns_bound. pose proof (insn_at_wf pc Hpc) as (_&_&_&Hoff&_).
  unfold check_jmp_offset. rewrite get_insn_at by done. cbn [exec_bind].
  unfold in_s in Hoff. unfold as_i64. rewrite swrap_small by (unfold in_s; lia).
  unfold i64_add, i64_min, i64_max.
  rewrite !(proj2 (Z.leb_le _ _)) by lia. cbn [exec_bind andb].
  rewrite !(proj2 (Z.leb_le _ _)) by lia. cbn [exec_bind andb].
  set (t := pc + 1 + (insn_at prog pc).(off)).
  unfold class_ok. fold t.
  destruct (Z.ltb_spec t 0); cbn [orb decides]; [lia|].
  unfold as_u64. rewrite uwrap_small by (unfold in_u; lia).
  destruct (Z.ltb_spec t (num_insns prog)); cbn [negb decides]; [|lia].
  rewrite get_insn_at by lia. cbn [exec_bind].
  destruct (Z.eqb_spec (insn_at prog t).(opc) 0); cbn [decides]; [by intros [_ ?]|by split; [lia|]].
Qed.

Lemma class_action_spec (pc : Z) (c : InsnClass) :
  0 <= pc < num_insns prog ->
  match class_action prog v (num_insns prog) pc (insn_at prog pc) c with
  | Ret (p, store) => class_ok prog v pc c /\ store = bool_decide (c = ClassStore) /\
      p = (if bool_decide (c = ClassLddw) then pc + 1 else pc)
  | Err _ => ~ class_ok prog v pc c
  | Panic _ => False
  end.
Proof.
  intros Hpc. pose proof num_insns_bound.
  pose proof (insn_at_wf pc Hpc) as (_&_&_&_&Himm). unfold in_s in Himm.
  destruct c; cbn [class_action class_ok]; try done.
  - pose proof (check_load_dw_decides pc Hpc) as Hd. destruct (check_load_dw prog pc); [|done|done].
    cbn [exec_bind]. unfold u64_add, u64_max.
    rewrite (proj2 (Z.leb_le _ _)) by lia. done.
  - unfold check_imm_nonzero. destruct (Z.eqb_spec (insn_at prog pc).(imm) 0); cbn; [tauto|done].
  - unfold check_imm_endian, opc_in. cbn [existsb].
    destruct (Z.eqb_spec (insn_at prog pc).(imm) 16), (Z.eqb_spec (insn_at prog pc).(imm) 32),
      (Z.eqb_spec (insn_at prog pc).(imm) 64); cbn; intuition.
  - unfold check_imm_shift. set (m := (insn_at prog pc).(imm)) in *. clearbody m.
    destruct (Z.ltb_spec m 0); cbn; [lia|].
    unfold as_u64. rewrite uwrap_small by (unfold in_u; lia).
    destruct (Z.leb_spec bits m); cbn; [lia|done].
  - unfold check_imm_aligned. change (64 - 1) with (Z.ones 6). rewrite Z.land_ones by done.
    destruct (Z.eqb_spec ((insn_at prog pc).(imm) mod 2 ^ 6) 0); cbn; done.
  - pose proof (check_jmp_offset_decides pc Hpc) as Hd.
    by destruct (check_jmp_offset prog pc _); cbn.
  - unfold check_callx_register. fold (callx_operand v (insn_at prog pc)).
    set (r := callx_operand v (insn_at prog pc)). clearbody r.
    destruct (Z.leb_spec 0 r); cbn; [|lia]. destruct (Z.ltb_spec r 10); cbn; [done|lia].
Qed.

Lemma check_registers_decides (pc p : Z) (c : InsnClass) :
  0 <= pc < num_insns prog -> insn_class v (insn_at prog pc) = Some c ->
  decides (check_registers (insn_at prog pc) (bool_decide (c = ClassStore)) p v)
    (registers_ok c (insn_at prog pc)).
Proof.
  intros Hpc Hc. pose proof (insn_at_wf pc Hpc) as (Ho&Hd&Hs&_&_).
  pose proof (opcode_class_bump _ _ _ _ Ho Hc) as Hb. unfold in_u in Hd, Hs.
  unfold check_registers, registers_ok. destruct (insn_at prog pc) as [pp o d s f m]. cbn [opc dst src] in *.
  destruct (Z.ltb_spec 10 s); [cbn; lia|].
  destruct (Z.leb_spec 0 d); [|lia]. destruct (Z.leb_spec d 9); [cbn; lia|].
  destruct (Z.eqb_spec d 10) as [H10|]; cbn; [|lia].
  case_bool_decide; [cbn; auto|].
  destruct (manual_stack_frame_bump v), (Z.eqb_spec o ADD64_IMM); cbn; intuition (congruence || lia).
Qed.

(** ** The loop *)

Lemma well_formed_from_inv (pc : Z) :
  pc < num_insns prog -> well_formed_from prog v pc ->
  insn_ok prog v pc /\
  well_formed_from prog v (if (insn_at prog pc).(opc) =? LD_DW_IMM then pc + 2 else pc + 1).
Proof.
  intros Hlt Hwf. destruct Hwf as [|? ? ? Ho|? ? ? Ho]; [lia| |].
  - by rewrite (proj2 (Z.eqb_eq _ _) Ho).
  - by rewrite (proj2 (Z.eqb_neq _ _) Ho).
Qed.

Lemma verify_loop_spec (fuel : nat) (pc : Z) :
  0 <= pc <= num_insns prog -> (Z.to_nat (num_insns prog - pc) < fuel)%nat ->
  match verify_loop fuel prog v (num_insns prog) pc with
  | Ret p => p = num_insns prog /\ well_formed_from prog v pc
  | Err _ => ~ well_formed_from prog v pc
  | Panic _ => False
  end.
Proof.
  revert pc. induction fuel as [|fuel IH]; intros pc Hpc Hfuel; [lia|].
  pose proof num_insns_bound. pose proof num_insns_len as Hl. cbn [verify_loop].
  unfold u64_add, u64_mul, u64_max, INSN_SIZE in *.
  rewrite !(proj2 (Z.leb_le _ _)) by lia. cbn [exec_bind].
  rewrite !(proj2 (Z.leb_le _ _)) by lia. cbn [exec_bind].
  destruct (Z.leb_spec ((pc + 1) * 8) (zlen prog)); [|].
  2: { assert (pc = num_insns prog) as -> by lia. split; [done|constructor]. }
  assert (Hin : 0 <= pc < num_insns prog) by lia.
  rewrite get_insn_at by done. cbn [exec_bind].
  rewrite verify_insn_class by by apply insn_at_opc.
  destruct (insn_class v (insn_at prog pc)) as [c|] eqn:Hc.
  2: { intros [(c & ? & _) _]%well_formed_from_inv; [congruence|lia]. }
  pose proof (class_action_spec pc c Hin) as Ha.
  destruct (class_action prog v (num_insns prog) pc (insn_at prog pc) c) as [[p store]| |];
    cbn [exec_bind]; [|intros [(c' & ? & ? & _) _]%well_formed_from_inv; [congruence|lia]|done].
  destruct Ha as (Hok & -> & Hp).
  pose proof (check_registers_decides pc p c Hin Hc) as Hr.
  destruct (check_registers _ _ p v); cbn [exec_bind];
    [|intros [(c' & ? & _ & ?) _]%well_formed_from_inv; [congruence|lia]|done].
  assert (Hio : insn_ok prog v pc) by by exists c.
  pose proof (opcode_class_lddw _ _ _ _ (insn_at_opc pc Hin) Hc) as Hlddw.
  case_bool_decide as Hl'.
  - subst c p. destruct Hok as [Hlt _]. rewrite (proj2 (Z.leb_le _ _)) by lia. cbn [exec_bind].
    specialize (IH (pc + 1 + 1) ltac:(lia) ltac:(lia)). replace (pc + 1 + 1) with (pc + 2) in * by lia.
    destruct (verify_loop fuel prog v (num_insns prog) (pc + 2)) as [p| |]; [|intros [_ Hwf]%well_formed_from_inv; [|lia]|done].
    + destruct IH. split; [done|]. apply wf_lddw; try done. by apply Hlddw.
    + by rewrite (proj2 (Z.eqb_eq _ _) (proj2 Hlddw eq_refl)) in Hwf.
  - subst p. rewrite (proj2 (Z.leb_le _ _)) by lia. cbn [exec_bind].
    specialize (IH (pc + 1) ltac:(lia) ltac:(lia)).
    assert (Hno : (insn_at prog pc).(opc) <> LD_DW_IMM) by by rewrite Hlddw.
    destruct (verify_loop fuel prog v (num_insns prog) (pc + 1)) as [p| |]; [|intros [_ Hwf]%well_formed_from_inv; [|lia]|done].
    + destruct IH. split; [done|]. by apply wf_insn.
    + by rewrite (proj2 (Z.eqb_neq _ _) Hno) in Hwf.
Qed.
End CheckLemmas.

Lemma verify_decides `{Bo : LittleEndian} (prog : list Z) (v : SBPFVersion) :
  bytes_ok prog -> slice_len_ok prog -> decides (verify prog v) (well_formed_program prog v).
Proof.
  intros Hb Hl. unfold verify, check_prog_len, well_formed_program, decides.
  destruct (Z.eqb_spec (zlen prog mod INSN_SIZE) 0) as [Hm|]; cbn [negb exec_bind]; [|tauto].
  destruct (Z.eqb_spec (zlen prog) 0) as [H0|H0]; cbn [exec_bind].
  { intros (_ & Hne & _). apply Hne, length_zero_iff_nil. unfold zlen in H0. lia. }
  fold (num_insns prog). pose proof (num_insns_len prog Hm) as Hn.
  pose proof (num_insns_bound prog Hl Hm). unfold INSN_SIZE in Hn.
  pose proof (verify_loop_spec prog v Hb Hl Hm (length prog) 0 ltac:(lia)
    ltac:(unfold zlen in *; lia)) as Hloop.
  destruct (verify_loop _ _ _ _ _) as [p| |]; cbn [exec_bind]; [|tauto|done].
  destruct Hloop as [-> Hwf]. rewrite Z.eqb_refl. cbn. split_and!; [done| |done].
  intros ->. done.
Qed.

(** Every slot of a well-formed program holds an accepted instruction or the
    second half of a 64-bit immediate load. *)
Lemma well_formed_slots (prog : list Z) (v : SBPFVersion) (start pc : Z) :
  well_formed_from prog v start -> (forall q, 0 <= q < num_insns prog -> in_u 8 (insn_at prog q).(opc)) ->
  start <= pc < num_insns prog ->
  insn_ok prog v pc \/ (insn_at prog pc).(opc) = 0.
Proof.
  intros Hwf Hopc. induction Hwf as [|q Hq Hok Ho Hwf IH|q Hq Hok Ho Hwf IH]; intros Hpc; [lia| |].
  - destruct (decide (pc = q)) as [->|]; [by left|].
    destruct (decide (pc = q + 1)) as [->|]; [|apply IH; lia]. right.
    destruct Hok as (c & Hc & Hcok & _).
    rewrite (proj1 (opcode_class_lddw _ _ _ _ (Hopc q Hq) Hc) Ho) in Hcok. apply Hcok.
  - destruct (decide (pc = q)) as [->|]; [by left|]. apply IH. lia.
Qed.

(** * Properties *)

(** C3: The verifier accepts exactly the well-formed programs.  For every byte
    string and every version, [verify] returns [Ok] if and only if the program is
    a non-empty whole number of slots in which, from slot 0 to the end, every
    instruction is known to the version, passes the check of its class (no
    division by a zero immediate, shifts below the width, 16/32/64 for byte
    swaps, jump targets inside the program and not the second half of a 64-bit
    load, a 64-bit load not last and followed by a zero opcode, a valid [callx]
    register, a 64-byte aligned stack adjustment), and names valid registers. *)
Theorem verify_accepts_iff `{Bo : LittleEndian} (prog : list Z) (v : SBPFVersion) :
  bytes_ok prog -> slice_len_ok prog ->
  verify prog v = Ret tt <-> well_formed_program prog v.
Proof.
  intros Hb Hl. pose proof (verify_decides prog v Hb Hl) as Hd. unfold decides in Hd.
  destruct (verify prog v) as [[]| |]; split; try done.
Qed.

Lemma verify_accepts_iff_witness :
  well_formed_program [0xb7; 0; 0; 0; 1; 0; 0; 0; 0x95; 0; 0; 0; 0; 0; 0; 0] V0 /\
  ~ well_formed_program [0x37; 0; 0; 0; 0; 0; 0; 0; 0x95; 0; 0; 0; 0; 0; 0; 0] V0.
Proof.
  split.
  - apply (verify_accepts_iff (Bo := le_reference)); [| |vm_compute; reflexivity].
    + apply (bool_decide_unpack _); vm_compute; reflexivity.
    + vm_compute; congruence.
  - intros Hwf. apply (verify_accepts_iff (Bo := le_reference)) in Hwf.
    + vm_compute in Hwf. congruence.
    + apply (bool_decide_unpack _); vm_compute; reflexivity.
    + vm_compute; congruence.
Defined.

(** C19: The verifier is total: on every byte string, accepted or not, it stops
    with [Ok] or an error; it never indexes out of bounds, never overflows, never
    fails an assertion, and its loop ends within the model's bound. *)
Theorem verify_never_panics `{Bo : LittleEndian} (prog : list Z) (v : SBPFVersion) :
  bytes_ok prog -> slice_len_ok prog -> is_panic (verify prog v) = false.
Proof.
  intros Hb Hl. pose proof (verify_decides prog v Hb Hl) as Hd. unfold decides in Hd.
  by destruct (verify prog v).
Qed.

Lemma verify_never_panics_witness :
  is_panic (verify (Bo := le_reference) [0x18; 0; 0; 0; 0; 0; 0; 0; 1; 2; 3; 4; 5; 6; 7; 255] V0)
    = false.
Proof.
  apply (verify_never_panics (Bo := le_reference)).
  - apply (bool_decide_unpack _); vm_compute; reflexivity.
  - vm_compute; congruence.
Defined.
