(* ===== verification/MemoryRegion.v ===== *)
(** Memory regions and their address translation ([src/memory_region.rs],
    [MemoryRegion]), and the host memory behind them. *)
From S2P Require Import Prelude Error Ebpf Program.
Open Scope rust_scope.

(** * Host memory

    The bytes a raw pointer may access, by address.  An access outside of the
    domain is undefined behaviour. *)

Abbreviation HostMem := (gmap Z Z).

Definition host_addrs (addr : Z) (n : nat) : list Z := seqZ addr (Z.of_nat n).

(** [ptr::read_unaligned] of an [n]-byte integer. *)
Definition host_read (hm : HostMem) (addr : Z) (n : nat) : option Z :=
  le_value <$> mapM (fun a => hm !! a) (host_addrs addr n).

(** [ptr::write_unaligned]. *)
Fixpoint host_write_bytes (hm : HostMem) (addr : Z) (bs : list Z) : option HostMem :=
  match bs with
  | [] => Some hm
  | b :: bs =>
      match hm !! addr with
      | None => None
      | Some _ => host_write_bytes (<[addr := b]> hm) (addr + 1) bs
      end
  end.
Definition host_write (hm : HostMem) (addr : Z) (n : nat) (value : Z) : option HostMem :=
  host_write_bytes hm addr (le_bytes n value).

(** * Regions *)

(* src/memory_region.rs:42-58, MemoryRegion *)
Record MemoryRegion := mkRegion {
  host_addr : Z;
  vm_addr : Z;
  len : Z;
  vm_gap_shift : Z;
  writable : bool;
  access_violation_handler_payload : option Z;
}.

#[export] Instance MemoryRegion_eq_dec : EqDecision MemoryRegion.
Proof. solve_decision. Defined.

Definition leading_zeros (z : Z) : Z := if z =? 0 then 64 else 63 - Z.log2 z.
Definition u8_saturating_sub (a b : Z) : Z := Z.max (a - b) 0.
Definition u64_checked_shl (a s : Z) : option Z :=
  if s <? 64 then Some (as_u64 (Z.shiftl a s)) else None.
Definition u64_checked_shr (a s : Z) : option Z :=
  if s <? 64 then Some (Z.shiftr a s) else None.

(** A slice is its pointer and its length. *)
(* src/memory_region.rs:61-77, MemoryRegion::new *)
Definition region_new {E} (slice_ptr slice_len vm_addr vm_gap_size : Z) (writable : bool)
    : Exec E MemoryRegion :=
  let shift := u8_saturating_sub (Z.min (8 * 8) 255) 1 in
  let! shift :=
    if 0 <? vm_gap_size then
      let shift := u8_saturating_sub shift (as_u8 (leading_zeros vm_gap_size)) in
      if bool_decide (Some vm_gap_size = u64_checked_shl 1 shift) then Ret shift
      else Panic DebugAssertFailed
    else Ret shift in
  Ret {| host_addr := slice_ptr; vm_addr := vm_addr; len := slice_len; vm_gap_shift := shift;
         writable := writable; access_violation_handler_payload := None |}.

(* src/memory_region.rs:84-87, MemoryRegion::new_readonly *)
Definition new_readonly {E} (slice_ptr slice_len vm_addr : Z) : Exec E MemoryRegion :=
  region_new slice_ptr slice_len vm_addr 0 false.

(* src/memory_region.rs:89-92, MemoryRegion::new_writable *)
Definition new_writable {E} (slice_ptr slice_len vm_addr : Z) : Exec E MemoryRegion :=
  region_new slice_ptr slice_len vm_addr 0 true.

(* src/memory_region.rs:94-97, MemoryRegion::new_writable_gapped *)
Definition new_writable_gapped {E} (slice_ptr slice_len vm_addr vm_gap_size : Z)
    : Exec E MemoryRegion :=
  region_new slice_ptr slice_len vm_addr vm_gap_size true.

(** A half-open range is its start and end. *)
(* src/memory_region.rs:99-106, MemoryRegion::vm_addr_range *)
Definition vm_addr_range (self : MemoryRegion) : Z * Z :=
  if self.(vm_gap_shift) =? 63
  then (self.(vm_addr), u64_saturating_add self.(vm_addr) self.(len))
  else (self.(vm_addr), u64_saturating_add self.(vm_addr) (u64_saturating_mul self.(len) 2)).

(* src/memory_region.rs:108-136, MemoryRegion::vm_to_host *)
Definition vm_to_host (self : MemoryRegion) (access_type : AccessType) (addr size : Z)
    : option Z :=
  if bool_decide (access_type = Store) && negb self.(writable) then None
  else if addr <? self.(vm_addr) then None
  else
    let begin_offset := u64_saturating_sub addr self.(vm_addr) in
    let is_in_gap :=
      Z.land (default 0 (u64_checked_shr begin_offset self.(vm_gap_shift))) 1 =? 1 in
    let gap_mask :=
      as_u64 (default 0 (if self.(vm_gap_shift) <? 64
                         then Some (as_i64 (Z.shiftl (-1) self.(vm_gap_shift))) else None)) in
    let gapped_offset :=
      Z.lor (default 0 (u64_checked_shr (Z.land begin_offset gap_mask) 1))
            (Z.land begin_offset (Z.lxor gap_mask u64_max)) in
    match u64_checked_add gapped_offset size with
    | Some end_offset =>
        if (end_offset <=? self.(len)) && negb is_in_gap
        then Some (u64_saturating_add self.(host_addr) gapped_offset) else None
    | None => None
    end.

(* src/memory_region.rs:154-163, Ord for MemoryRegion *)
Definition region_leb (r1 r2 : MemoryRegion) : bool := r1.(vm_addr) <=? r2.(vm_addr).

(** * Specification *)

(** The fields are of their types and the shift is below the width, as every
    constructor sets it. *)
Definition region_wf (r : MemoryRegion) : Prop :=
  in_u 64 r.(host_addr) /\ in_u 64 r.(vm_addr) /\ in_u 64 r.(len) /\ 0 <= r.(vm_gap_shift) <= 63.

(** The position of an offset in a region with gaps: the frame, and the
    position in the frame and the gap behind it. *)
Definition frame_of (r : MemoryRegion) (offset : Z) : Z := offset / 2 ^ (r.(vm_gap_shift) + 1).
Definition frame_pos (r : MemoryRegion) (offset : Z) : Z := offset mod 2 ^ (r.(vm_gap_shift) + 1).
Definition in_gap (r : MemoryRegion) (offset : Z) : Prop := 2 ^ r.(vm_gap_shift) <= frame_pos r offset.
(** The offset with the gaps taken out. *)
Definition dense_offset (r : MemoryRegion) (offset : Z) : Z :=
  frame_of r offset * 2 ^ r.(vm_gap_shift) + frame_pos r offset.

(** * Lemmas *)

Lemma land_high_mask (s z : Z) :
  0 <= s <= 63 -> in_u 64 z ->
  Z.land z (as_u64 (as_i64 (Z.shiftl (-1) s))) = (z / 2 ^ s) * 2 ^ s.
Proof.
  intros Hs Hz. unfold as_u64, as_i64. rewrite uwrap_swrap by done.
  rewrite <-Z.shiftl_mul_pow2, <-Z.shiftr_div_pow2 by lia.
  apply Z.bits_inj'. intros i Hi. rewrite Z.land_spec. unfold uwrap.
  destruct (Z_lt_ge_dec i 64).
  - rewrite Z.mod_pow2_bits_low, !Z.shiftl_spec by lia.
    destruct (Z_lt_ge_dec i s).
    + rewrite !(Z.testbit_neg_r _ (i - s)) by lia. by rewrite andb_false_r.
    + rewrite Z.bits_m1, Z.shiftr_spec, andb_true_r by lia. f_equal. lia.
  - rewrite Z.mod_pow2_bits_high, andb_false_r by lia. symmetry.
    rewrite Z.shiftl_spec, Z.shiftr_spec by lia.
    apply (proj1 (in_u_testbit 64 z ltac:(lia) (proj1 Hz)) Hz). lia.
Qed.

Lemma land_low_mask (s z : Z) :
  0 <= s <= 63 -> in_u 64 z ->
  Z.land z (Z.lxor (as_u64 (as_i64 (Z.shiftl (-1) s))) u64_max) = z mod 2 ^ s.
Proof.
  intros Hs Hz. unfold as_u64, as_i64. rewrite uwrap_swrap by done.
  apply Z.bits_inj'. intros i Hi. rewrite Z.land_spec, Z.lxor_spec. unfold uwrap.
  change u64_max with (Z.ones 64).
  destruct (Z_lt_ge_dec i 64).
  - rewrite Z.mod_pow2_bits_low, Z.shiftl_spec, Z.ones_spec_low by lia.
    destruct (Z_lt_ge_dec i s).
    + rewrite (Z.testbit_neg_r _ (i - s)), Z.mod_pow2_bits_low by lia. apply andb_true_r.
    + rewrite Z.bits_m1, Z.mod_pow2_bits_high by lia. apply andb_false_r.
  - rewrite Z.mod_pow2_bits_high, Z.ones_spec_high, andb_false_r by lia. symmetry.
    destruct (Z_lt_ge_dec i s); [lia|]. apply Z.mod_pow2_bits_high. lia.
Qed.

Lemma shiftr_bit (s z : Z) :
  0 <= s -> 0 <= z ->
  (Z.land (Z.shiftr z s) 1 =? 1) = (2 ^ s <=? z mod 2 ^ (s + 1)).
Proof.
  intros Hs Hz. rewrite Z.shiftr_div_pow2 by done.
  change 1 with (Z.ones 1) at 1. rewrite Z.land_ones, Z.pow_1_r by done.
  rewrite Z.pow_add_r, Z.pow_1_r by lia. pose proof (pow2_pos s Hs).
  rewrite Z.rem_mul_r by lia.
  pose proof (Z.mod_pos_bound z (2 ^ s) ltac:(lia)).
  pose proof (Z.mod_pos_bound (z / 2 ^ s) 2 ltac:(lia)).
  destruct (Z.eqb_spec ((z / 2 ^ s) mod 2) 1), (Z.leb_spec (2 ^ s) (z mod 2 ^ s + 2 ^ s * ((z / 2 ^ s) mod 2)));
    nia || done.
Qed.

Lemma dense_offset_bits (r : MemoryRegion) (z : Z) :
  0 <= r.(vm_gap_shift) <= 63 -> in_u 64 z -> ~ in_gap r z ->
  Z.lor (Z.shiftr (z / 2 ^ r.(vm_gap_shift) * 2 ^ r.(vm_gap_shift)) 1) (z mod 2 ^ r.(vm_gap_shift))
    = dense_offset r z.
Proof.
  unfold in_gap, dense_offset, frame_of, frame_pos. set (s := vm_gap_shift r). intros Hs Hz Hgap.
  pose proof (pow2_pos s ltac:(lia)). rewrite Z.pow_add_r, Z.pow_1_r in * by lia.
  rewrite Z.rem_mul_r in * by lia. rewrite <-Z.div_div by lia.
  pose proof (Z.mod_pos_bound z (2 ^ s) ltac:(lia)).
  pose proof (Z.mod_pos_bound (z / 2 ^ s) 2 ltac:(lia)).
  assert (Heven : (z / 2 ^ s) mod 2 = 0) by nia. rewrite Heven.
  pose proof (Z.div_mod (z / 2 ^ s) 2 ltac:(lia)) as Hq. rewrite Heven in Hq.
  rewrite Z.lor_comm.
  replace (Z.shiftr (z / 2 ^ s * 2 ^ s) 1) with (Z.shiftl (z / 2 ^ s / 2) s).
  - rewrite lor_shiftl_add by (done || lia). lia.
  - rewrite Z.shiftl_mul_pow2, Z.shiftr_div_pow2, Z.pow_1_r by lia.
    replace (z / 2 ^ s * 2 ^ s) with ((z / 2 ^ s / 2 * 2 ^ s) * 2) by nia.
    by rewrite Z.div_mul.
Qed.

Lemma vm_to_host_Some (r : MemoryRegion) (ty : AccessType) (addr size h : Z) :
  region_wf r -> in_u 64 addr -> 0 <= size ->
  vm_to_host r ty addr size = Some h <->
    (ty = Store -> r.(writable) = true) /\ r.(vm_addr) <= addr /\
    ~ in_gap r (addr - r.(vm_addr)) /\ dense_offset r (addr - r.(vm_addr)) + size <= r.(len) /\
    h = u64_saturating_add r.(host_addr) (dense_offset r (addr - r.(vm_addr))).
Proof.
  intros (Hh & Hv & Hl & Hs) Ha Hsize. unfold vm_to_host.
  destruct (bool_decide (ty = Store) && negb r.(writable)) eqn:Hw.
  { apply andb_prop in Hw as [->%bool_decide_eq_true Hw%negb_true_iff].
    split; [done|]. intros [Hc _]. by rewrite Hc in Hw. }
  assert (Hw' : ty = Store -> r.(writable) = true).
  { intros ->. rewrite bool_decide_eq_true_2 in Hw by done. by destruct (writable r). }
  destruct (Z.ltb_spec addr r.(vm_addr)); [split; [done|lia]|].
  unfold in_u in Hv, Ha.
  assert (Ho : u64_saturating_sub addr r.(vm_addr) = addr - r.(vm_addr)) by (unfold u64_saturating_sub; lia).
  rewrite Ho. set (off := addr - r.(vm_addr)).
  assert (Hoff : in_u 64 off) by (unfold in_u, off; lia).
  unfold u64_checked_shr. rewrite !(proj2 (Z.ltb_lt _ _)) by lia. simpl default.
  rewrite shiftr_bit by (unfold in_u in Hoff; lia).
  rewrite land_high_mask, land_low_mask by (done || lia).
  fold (frame_pos r off).
  destruct (Z.leb_spec (2 ^ r.(vm_gap_shift)) (frame_pos r off)) as [Hgap|Hgap].
  { cbn [negb]. split; [|intros (_&_&Hn&_); done].
    destruct (u64_checked_add _ _); [|done]. by rewrite andb_false_r. }
  assert (Hng : ~ in_gap r off) by (unfold in_gap; lia).
  rewrite dense_offset_bits by done. unfold u64_checked_add, in_u in *.
  destruct (Z.leb_spec (dense_offset r off + size) u64_max); [|unfold u64_max in *; split; [done|lia]].
  destruct (Z.leb_spec (dense_offset r off + size) r.(len)); simpl; [|split; [done|lia]].
  split; [intros [= <-]; done|intros (_&_&_&_&->); done].
Qed.

Lemma dense_offset_nonneg (r : MemoryRegion) (off : Z) :
  0 <= r.(vm_gap_shift) -> 0 <= off -> 0 <= dense_offset r off.
Proof.
  intros Hs Ho. unfold dense_offset, frame_of, frame_pos.
  pose proof (pow2_pos r.(vm_gap_shift) ltac:(lia)). pose proof (pow2_pos (r.(vm_gap_shift) + 1) ltac:(lia)).
  pose proof (Z.div_pos off (2 ^ (r.(vm_gap_shift) + 1))). 
  pose proof (Z.mod_pos_bound off (2 ^ (r.(vm_gap_shift) + 1))). nia.
Qed.

(** Taking the gaps out keeps the order of addresses outside of gaps. *)
Lemma dense_offset_mono (r : MemoryRegion) (o1 o2 : Z) :
  0 <= r.(vm_gap_shift) -> ~ in_gap r o1 -> o1 < o2 -> dense_offset r o1 < dense_offset r o2.
Proof.
  unfold in_gap, dense_offset, frame_of, frame_pos. set (s := r.(vm_gap_shift)). intros Hs Hg Hlt.
  pose proof (pow2_pos s ltac:(lia)) as Hp. rewrite Z.pow_add_r, Z.pow_1_r in * by lia.
  set (p := 2 ^ s) in *.
  pose proof (Z.div_mod o1 (p * 2) ltac:(lia)). pose proof (Z.div_mod o2 (p * 2) ltac:(lia)).
  pose proof (Z.mod_pos_bound o1 (p * 2) ltac:(lia)). pose proof (Z.mod_pos_bound o2 (p * 2) ltac:(lia)).
  pose proof (Z.div_le_mono o1 o2 (p * 2) ltac:(lia) ltac:(lia)) as Hq.
  set (q1 := o1 / (p * 2)) in *. set (q2 := o2 / (p * 2)) in *.
  set (m1 := o1 mod (p * 2)) in *. set (m2 := o2 mod (p * 2)) in *. clearbody q1 q2 m1 m2 p.
  destruct (decide (q1 = q2)) as [->|]; [lia|]. nia.
Qed.

(** ** Host memory *)

Definition host_mapped (hm : HostMem) (addr : Z) (n : Z) : Prop :=
  forall a, addr <= a < addr + n -> is_Some (hm !! a).
Definition host_ok (hm : HostMem) : Prop := map_Forall (fun _ b => is_byte b) hm.

Lemma host_write_bytes_spec (hm : HostMem) (addr : Z) (bs : list Z) :
  host_mapped hm addr (zlen bs) ->
  exists hm', host_write_bytes hm addr bs = Some hm' /\
    forall a, hm' !! a = if decide (addr <= a < addr + zlen bs)
                         then bs !! Z.to_nat (a - addr) else hm !! a.
Proof.
  unfold host_mapped, zlen. revert hm addr.
  induction bs as [|b bs IH]; intros hm addr Hm; cbn [host_write_bytes length] in *.
  - exists hm. split; [done|]. intros a. rewrite decide_False by lia. done.
  - destruct (Hm addr) as [b0 Hb0]; [lia|]. rewrite Hb0.
    destruct (IH (<[addr := b]> hm) (addr + 1)) as (hm' & Hw & Hl).
    { intros a Ha. rewrite lookup_insert_ne by lia. apply Hm. lia. }
    exists hm'. split; [done|]. intros a. rewrite Hl.
    destruct (decide (a = addr)) as [->|].
    + rewrite decide_False, decide_True, lookup_insert_eq by lia. by rewrite Z.sub_diag.
    + rewrite lookup_insert_ne by done.
      destruct (decide (addr + 1 <= a < addr + 1 + Z.of_nat (length bs))).
      * rewrite decide_True by lia. replace (Z.to_nat (a - addr)) with (S (Z.to_nat (a - (addr + 1)))) by lia. done.
      * by rewrite decide_False by lia.
Qed.

Lemma host_write_spec (hm : HostMem) (addr : Z) (n : nat) (value : Z) :
  host_mapped hm addr (Z.of_nat n) ->
  exists hm', host_write hm addr n value = Some hm' /\
    forall a, hm' !! a = if decide (addr <= a < addr + Z.of_nat n)
                         then le_bytes n value !! Z.to_nat (a - addr) else hm !! a.
Proof.
  intros Hm. destruct (host_write_bytes_spec hm addr (le_bytes n value)) as (hm' & Hw & Hl).
  - unfold zlen. by rewrite length_le_bytes.
  - unfold zlen in Hl. rewrite length_le_bytes in Hl. eauto.
Qed.

Lemma host_read_spec (hm : HostMem) (addr : Z) (n : nat) (bs : list Z) :
  length bs = n -> (forall i : nat, (i < n)%nat -> hm !! (addr + Z.of_nat i) = bs !! i) ->
  host_read hm addr n = Some (le_value bs).
Proof.
  intros Hl Hb. unfold host_read.
  assert (mapM (fun a => hm !! a) (host_addrs addr n) = Some bs) as ->; [|done].
  apply mapM_Some. apply Forall2_same_length_lookup_2; unfold host_addrs.
  - rewrite length_seqZ. lia.
  - intros i a b Ha%lookup_seqZ Hbi. destruct Ha as [-> Hi]. rewrite Hb by lia. done.
Qed.

Lemma host_read_mapped (hm : HostMem) (addr : Z) (n : nat) :
  host_ok hm -> host_mapped hm addr (Z.of_nat n) ->
  exists z, host_read hm addr n = Some z /\ in_u (8 * Z.of_nat n) z.
Proof.
  intros Hok Hm.
  set (bs := (fun i : nat => default 0 (hm !! (addr + Z.of_nat i))) <$> seq 0 n).
  assert (Hlen : length bs = n) by (unfold bs; by rewrite length_fmap, length_seq).
  exists (le_value bs). split.
  - apply host_read_spec; [done|]. intros i Hi. unfold bs.
    rewrite list_lookup_fmap, lookup_seq_lt by done. simpl.
    destruct (Hm (addr + Z.of_nat i)) as [b ->]; [lia|]. done.
  - rewrite <-Hlen at 1. apply le_value_range. apply Forall_fmap, Forall_forall. intros i Hi.
    simpl. apply elem_of_seq in Hi. destruct (Hm (addr + Z.of_nat i)) as [b Hb]; [lia|].
    rewrite Hb. by apply (Hok _ _ Hb).
Qed.

Lemma host_write_ok (hm hm' : HostMem) (addr : Z) (n : nat) (value : Z) :
  host_ok hm -> host_mapped hm addr (Z.of_nat n) -> host_write hm addr n value = Some hm' ->
  host_ok hm' /\ dom hm' = dom hm.
Proof.
  intros Hok Hm Hw. destruct (host_write_spec hm addr n value Hm) as (hm'' & Hw' & Hl).
  rewrite Hw in Hw'. injection Hw' as <-. split.
  - intros a b. rewrite Hl. destruct (decide _); [|apply Hok].
    intros Hb. pose proof (le_bytes_ok n value) as HF. rewrite Forall_lookup in HF. eauto.
  - apply set_eq. intros a. rewrite !elem_of_dom, Hl. destruct (decide _) as [Ha|]; [|done].
    split; intros _; [by apply Hm|]. apply lookup_lt_is_Some. rewrite length_le_bytes. lia.
Qed.

Lemma host_read_write (hm hm' : HostMem) (addr : Z) (n : nat) (value : Z) :
  host_mapped hm addr (Z.of_nat n) -> host_write hm addr n value = Some hm' ->
  host_read hm' addr n = Some (uwrap (8 * Z.of_nat n) value).
Proof.
  intros Hm Hw. destruct (host_write_spec hm addr n value Hm) as (hm'' & Hw' & Hl).
  rewrite Hw in Hw'. injection Hw' as <-. rewrite <-le_value_le_bytes.
  apply host_read_spec; [apply length_le_bytes|]. intros i Hi.
  rewrite Hl, decide_True by lia. f_equal. lia.
Qed.

(** * Properties *)

(** C6: Address translation, exactly.  For a region whose host range does not wrap
    around, [vm_to_host] succeeds if and only if a store targets a writable
    region, the address is not below the region, the first byte of the access is
    not in a gap (its later bytes are not tested and may be in one), and the
    access, counted without gaps from that byte on, ends inside the region.  The
    host address is then the region's plus the offset without gaps, so the
    accessed host bytes lie inside the region's host range. *)
Theorem vm_to_host_spec (r : MemoryRegion) (ty : AccessType) (addr size h : Z) :
  region_wf r -> r.(host_addr) + r.(len) < 2 ^ 64 -> in_u 64 addr -> 0 <= size ->
  (vm_to_host r ty addr size = Some h <->
    (ty = Store -> r.(writable) = true) /\ r.(vm_addr) <= addr /\
    ~ in_gap r (addr - r.(vm_addr)) /\
    dense_offset r (addr - r.(vm_addr)) + size <= r.(len) /\
    h = r.(host_addr) + dense_offset r (addr - r.(vm_addr))) /\
  (vm_to_host r ty addr size = Some h ->
    r.(host_addr) <= h /\ h + size <= r.(host_addr) + r.(len)).
Proof.
  intros Hwf Hhost Ha Hs. rewrite vm_to_host_Some by done.
  assert (Hn : r.(vm_addr) <= addr -> 0 <= dense_offset r (addr - r.(vm_addr))).
  { intros. apply dense_offset_nonneg; [apply Hwf|lia]. }
  destruct Hwf as ([Hh _] & _). unfold u64_saturating_add, u64_max.
  split; [split; intros (Hw & Hge & Hg & Hle & ->); split_and!; try done; lia|].
  intros (_ & Hge & _ & Hle & ->). specialize (Hn Hge). lia.
Qed.

Lemma vm_to_host_spec_witness :
  vm_to_host (mkRegion 0x1000 0x200000000 8192 12 true None) Store 0x200002008 8 = Some 0x2008 /\
  0x1000 <= 0x2008 /\ 0x2008 + 8 <= 0x1000 + 8192.
Proof.
  assert (Hv : vm_to_host (mkRegion 0x1000 0x200000000 8192 12 true None) Store 0x200002008 8
    = Some 0x2008) by (vm_compute; reflexivity).
  split; [exact Hv|].
  apply (vm_to_host_spec (mkRegion 0x1000 0x200000000 8192 12 true None) Store 0x200002008 8 0x2008).
  - repeat split; vm_compute; congruence.
  - vm_compute; congruence.
  - split; vm_compute; congruence.
  - lia.
  - exact Hv.
Defined.

(** Translation is injective: two accesses to one region that translate to the
    same host address start at the same virtual address, whatever their sizes
    and types.  Gaps never fold two frames onto one. *)
Theorem vm_to_host_injective (r : MemoryRegion) (ty1 ty2 : AccessType)
    (addr1 addr2 size1 size2 h : Z) :
  region_wf r -> r.(host_addr) + r.(len) < 2 ^ 64 ->
  in_u 64 addr1 -> in_u 64 addr2 -> 0 <= size1 -> 0 <= size2 ->
  vm_to_host r ty1 addr1 size1 = Some h -> vm_to_host r ty2 addr2 size2 = Some h ->
  addr1 = addr2.
Proof.
  intros Hwf Hhost Ha1 Ha2 Hs1 Hs2.
  rewrite (vm_to_host_Some r ty1), (vm_to_host_Some r ty2) by done.
  assert (Hn : forall a, r.(vm_addr) <= a -> 0 <= dense_offset r (a - r.(vm_addr))).
  { intros. apply dense_offset_nonneg; [apply Hwf|lia]. }
  destruct Hwf as ([Hh _] & _ & _ & Hs & _). unfold u64_saturating_add, u64_max.
  intros (_ & Hg1 & Hn1 & Hl1 & ->) (_ & Hg2 & Hn2 & Hl2 & Heq).
  pose proof (Hn _ Hg1). pose proof (Hn _ Hg2).
  destruct (Z.lt_trichotomy addr1 addr2) as [Hlt|[->|Hlt]]; [|done|].
  - pose proof (dense_offset_mono r (addr1 - r.(vm_addr)) (addr2 - r.(vm_addr)) Hs Hn1). lia.
  - pose proof (dense_offset_mono r (addr2 - r.(vm_addr)) (addr1 - r.(vm_addr)) Hs Hn2). lia.
Qed.

Lemma vm_to_host_injective_witness : 0x200002000 = 0x200002000.
Proof.
  apply (vm_to_host_injective (mkRegion 0x1000 0x200000000 8192 12 true None) Load Store
    0x200002000 0x200002000 1 8 0x2000); try (vm_compute; reflexivity); try lia.
  - repeat split; vm_compute; congruence.
  - split; vm_compute; congruence.
  - split; vm_compute; congruence.
Defined.


