(* ===== verification/MemoryMapping.v ===== *)
(** Memory mappings ([src/memory_region.rs]): the aligned mapping that indexes
    regions by the upper half of an address, the unaligned mapping that searches
    an Eytzinger tree behind a small cache, and loads and stores through either. *)
From Stdlib Require Import String.
From S2P Require Import Prelude Error Ebpf Program MemoryRegion.
Open Scope rust_scope.
Open Scope list_scope.

(** * Data *)

(** The handler is supplied by the embedder.  It may rewrite the region and the
    host memory (it may grow a buffer). *)
(* src/memory_region.rs:29-30, AccessViolationHandler *)
Definition AccessViolationHandler : Type :=
  HostMem -> MemoryRegion -> Z -> AccessType -> Z -> Z -> MemoryRegion * HostMem.

(* src/memory_region.rs:31-40, default_access_violation_handler *)
Definition default_access_violation_handler : AccessViolationHandler :=
  fun hm region _ _ _ _ => (region, hm).

(* src/memory_region.rs:174-186, CommonMemoryMapping *)
Record CommonMemoryMapping := {
  regions : list MemoryRegion;
  access_violation_handler : AccessViolationHandler;
  mm_allow_memory_region_zero : bool;
  mm_max_call_depth : Z;
  mm_stack_frame_size : Z;
  mm_sbpf_version : SBPFVersion;
}.

(* src/memory_region.rs:637-647, MappingCache *)
Record MappingCache := mkCache {
  entries : list (Z * Z * Z);
  head : Z;
}.

(* src/memory_region.rs:226-236, UnalignedMemoryMapping *)
Record UnalignedMemoryMapping := {
  u_common : CommonMemoryMapping;
  region_addresses : list Z;
  region_index_lookup : list Z;
  cache : MappingCache;
}.

(* src/memory_region.rs:346-351, AlignedMemoryMapping *)
Record AlignedMemoryMapping := { a_common : CommonMemoryMapping }.

(* src/memory_region.rs:451-461, MemoryMapping *)
Inductive MemoryMapping :=
  | Identity
  | Aligned (m : AlignedMemoryMapping)
  | Unaligned (m : UnalignedMemoryMapping).

Definition set_regions (c : CommonMemoryMapping) (rs : list MemoryRegion) : CommonMemoryMapping :=
  {| regions := rs; access_violation_handler := c.(access_violation_handler);
     mm_allow_memory_region_zero := c.(mm_allow_memory_region_zero);
     mm_max_call_depth := c.(mm_max_call_depth);
     mm_stack_frame_size := c.(mm_stack_frame_size); mm_sbpf_version := c.(mm_sbpf_version) |}.
Definition set_cache (m : UnalignedMemoryMapping) (c : MappingCache) : UnalignedMemoryMapping :=
  {| u_common := m.(u_common); region_addresses := m.(region_addresses);
     region_index_lookup := m.(region_index_lookup); cache := c |}.

(** [slice::sort] is a stable sort. *)
Fixpoint insert_region (r : MemoryRegion) (rs : list MemoryRegion) : list MemoryRegion :=
  match rs with
  | [] => [r]
  | r' :: rs' => if region_leb r r' then r :: rs else r' :: insert_region r rs'
  end.
Fixpoint sort_regions (rs : list MemoryRegion) : list MemoryRegion :=
  match rs with
  | [] => []
  | r :: rs => insert_region r (sort_regions rs)
  end.

(** * The cache *)

Definition CACHE_SIZE : nat := 4.
Definition empty_entries : list (Z * Z * Z) := replicate CACHE_SIZE (0, 0, 0).

(* src/memory_region.rs:652-657, MappingCache::new *)
Definition cache_new : MappingCache := mkCache empty_entries 0.

Definition range_contains (range : Z * Z) (a : Z) : bool := (range.1 <=? a) && (a <? range.2).

(** The loop over [i in 0..SIZE]; the unchecked index is a fault out of bounds. *)
(* src/memory_region.rs:659-673, MappingCache::find *)
Definition cache_find {X} (self : MappingCache) (addr : Z) : Exec X (option Z) :=
  let fix scan (idxs : list Z) : Exec X (option Z) :=
    match idxs with
    | [] => Ret None
    | i :: idxs =>
        let index := Z.rem (self.(head) + i) (Z.of_nat CACHE_SIZE) in
        let! (vm_range, region_index) := index_slice self.(entries) index in
        if range_contains vm_range addr then Ret (Some region_index) else scan idxs
    end in
  scan (seqZ 0 (Z.of_nat CACHE_SIZE)).

(* src/memory_region.rs:675-682, MappingCache::insert *)
Definition cache_insert (self : MappingCache) (vm_range : Z * Z) (region_index : Z)
    : MappingCache :=
  let head := (self.(head) - 1) mod Z.of_nat CACHE_SIZE in
  mkCache (<[Z.to_nat head := (vm_range, region_index)]> self.(entries)) head.

(* src/memory_region.rs:684-688, MappingCache::flush *)
Definition cache_flush (self : MappingCache) : MappingCache := mkCache empty_entries 0.

(** * Errors *)

Section Violation.
Context {X : Type}.

Definition i64_checked_div (a b : Z) : option Z :=
  if (b =? 0) || (a =? i64_min) && (b =? -1) then None else Some (Z.quot a b).

(** [!] on [u64]. *)
Definition u64_not (a : Z) : Z := Z.lxor a u64_max.

(* src/memory_region.rs:189-223, CommonMemoryMapping::generate_access_violation *)
Definition generate_access_violation (self : CommonMemoryMapping) (access_type : AccessType)
    (addr size : Z) : ProgramResult :=
  let stack_frame :=
    default 0 (i64_checked_div (i64_saturating_sub (as_i64 addr) (as_i64 MM_STACK_START))
                               self.(mm_stack_frame_size)) in
  if negb (manual_stack_frame_bump self.(mm_sbpf_version))
     && ((-1 <=? stack_frame) && (stack_frame <? i64_saturating_add self.(mm_max_call_depth) 1))
  then SErr (StackAccessViolation access_type addr size stack_frame)
  else
    let base := Z.land addr (u64_not (u64_saturating_sub MM_BYTECODE_START 1)) in
    let region_name :=
      if base =? MM_BYTECODE_START then "program"%string
      else if base =? MM_STACK_START then "stack"%string
      else if base =? MM_HEAP_START then "heap"%string
      else if base =? MM_INPUT_START then "input"%string
      else "unknown"%string in
    SErr (AccessViolation access_type addr size region_name).

(** * The unaligned mapping *)

(** Arrays updated by the construction: [region_addresses], [region_index_lookup]. *)
(* src/memory_region.rs:248-260, UnalignedMemoryMapping::construct_eytzinger_order *)
Fixpoint construct_eytzinger_order (fuel : nat) (regions : list MemoryRegion)
    (arrays : list Z * list Z) (in_index out_index : Z) : Exec X (Z * (list Z * list Z)) :=
  match fuel with
  | O => Panic OutOfFuel
  | S fuel =>
      if zlen regions <=? out_index then Ret (in_index, arrays)
      else
        let left := u64_saturating_add (u64_saturating_mul out_index 2) 1 in
        let! (in_index, (addresses, lookup)) :=
          construct_eytzinger_order fuel regions arrays in_index left in
        let! region := index_slice regions in_index in
        let! _ := index_slice addresses out_index in
        let addresses := <[Z.to_nat out_index := region.(vm_addr)]> addresses in
        let! _ := index_slice lookup out_index in
        let lookup := <[Z.to_nat out_index := in_index]> lookup in
        let right := u64_saturating_add (u64_saturating_mul out_index 2) 2 in
        construct_eytzinger_order fuel regions (addresses, lookup)
          (u64_saturating_add in_index 1) right
  end.

(** The loop that rejects overlapping neighbours, from [index]. *)
Fixpoint check_overlap (index : Z) (rs : list MemoryRegion) : Exec EbpfError unit :=
  match rs with
  | first :: (second :: _) as rest =>
      if second.(vm_addr) <? (vm_addr_range first).2 then Err (InvalidMemoryRegion index)
      else check_overlap (index + 1) rest
  | _ => Ret tt
  end.

(** The search loop: each turn goes down one level of the tree. *)
Fixpoint eytzinger_descend (fuel : nat) (addresses : list Z) (addr index : Z) : Exec X Z :=
  match fuel with
  | O => Panic OutOfFuel
  | S fuel =>
      if index <=? zlen addresses then
        let! a := index_slice addresses (index - 1) in
        eytzinger_descend fuel addresses addr
          (Z.shiftl index 1 + (if a <=? addr then 1 else 0))
      else Ret index
  end.

Fixpoint pos_trailing_zeros (p : positive) : Z :=
  match p with
  | xO p => 1 + pos_trailing_zeros p
  | _ => 0
  end.
Definition trailing_zeros (z : Z) : Z :=
  match z with Zpos p => pos_trailing_zeros p | _ => 64 end.
End Violation.

(* src/memory_region.rs:262-297, UnalignedMemoryMapping::new_with_access_violation_handler *)
Definition unaligned_new (rs : list MemoryRegion) (config : Config) (v : SBPFVersion)
    (handler : AccessViolationHandler) : Exec EbpfError UnalignedMemoryMapping :=
  if negb (version_leb v V3) then Panic DebugAssertFailed
  else
    let rs := sort_regions rs in
    check_overlap 1 rs ;;
    let zeros := replicate (length rs) 0 in
    let! (_, (addresses, lookup)) :=
      construct_eytzinger_order (S (length rs)) rs (zeros, zeros) 0 0 in
    Ret {| u_common := {| regions := rs; access_violation_handler := handler;
             mm_allow_memory_region_zero := config.(allow_memory_region_zero);
             mm_max_call_depth := as_i64 config.(max_call_depth);
             mm_stack_frame_size := as_i64 config.(stack_frame_size); mm_sbpf_version := v |};
           region_addresses := addresses; region_index_lookup := lookup; cache := cache_new |}.

(** The cache is updated behind the shared reference. *)
(* src/memory_region.rs:299-335, UnalignedMemoryMapping::find_region *)
Definition unaligned_find_region {X} (self : UnalignedMemoryMapping) (addr : Z)
    : Exec X (option (Z * MemoryRegion) * UnalignedMemoryMapping) :=
  let! cached := cache_find self.(cache) addr in
  match cached with
  | Some index =>
      let! region := index_slice self.(u_common).(regions) index in
      Ret (Some (index, region), self)
  | None =>
      let! index := eytzinger_descend (S (length self.(region_addresses)))
                      self.(region_addresses) addr 1 in
      let index := Z.shiftr index (trailing_zeros index + 1) in
      if index =? 0 then Ret (None, self)
      else
        let! index := index_slice self.(region_index_lookup) (index - 1) in
        let! region := index_slice self.(u_common).(regions) index in
        Ret (Some (index, region),
             set_cache self (cache_insert self.(cache) (vm_addr_range region) index))
  end.

(* src/memory_region.rs:337-343, UnalignedMemoryMapping::replace_region *)
Definition unaligned_replace_region {X} (self : UnalignedMemoryMapping) (index : Z)
    (region : MemoryRegion) : Exec X UnalignedMemoryMapping :=
  let! _ := index_slice self.(u_common).(regions) index in
  let common := set_regions self.(u_common)
                  (<[Z.to_nat index := region]> self.(u_common).(regions)) in
  Ret {| u_common := common; region_addresses := self.(region_addresses);
         region_index_lookup := self.(region_index_lookup);
         cache := cache_flush self.(cache) |}.

(** * The aligned mapping *)

Definition region_index (r : MemoryRegion) : Z :=
  default 0 (u64_checked_shr r.(vm_addr) VIRTUAL_ADDRESS_BITS).

(** The [while] loop that fills holes with empty regions: [done] are the regions
    before [expected_region_index], [rest] those from it on. *)
(* src/memory_region.rs:371-391, AlignedMemoryMapping::new_with_access_violation_handler *)
Fixpoint fill_regions (fuel : nat) (empty_ptr : Z) (expected : Z) (done rest : list MemoryRegion)
    : Exec EbpfError (list MemoryRegion) :=
  match fuel with
  | O => Panic OutOfFuel
  | S fuel =>
      match rest with
      | [] => Ret done
      | r :: rest' =>
          let actual := region_index r in
          if expected <? actual then
            let! hole := new_readonly empty_ptr 0 (u64_saturating_mul expected MM_REGION_SIZE) in
            fill_regions fuel empty_ptr (u64_saturating_add expected 1) (done ++ [hole]) rest
          else if actual <? expected then Err (InvalidMemoryRegion actual)
          else fill_regions fuel empty_ptr (u64_saturating_add expected 1) (done ++ [r]) rest'
      end
  end.

(** The [for] loop without region zero. *)
Fixpoint check_region_indices (index : Z) (rs : list MemoryRegion) : Exec EbpfError unit :=
  match rs with
  | [] => Ret tt
  | r :: rs =>
      if negb (region_index r =? index) then Err (InvalidMemoryRegion index)
      else check_region_indices (index + 1) rs
  end.

(** Fuel for [fill_regions]: one turn per region and per hole. *)
Definition fill_fuel (rs : list MemoryRegion) : nat :=
  S (length rs + Z.to_nat (foldr Z.max 0 (region_index <$> rs)) + 1).

(** [empty_ptr] is the address of the empty slice [&[]]. *)
(* src/memory_region.rs:362-416, AlignedMemoryMapping::new_with_access_violation_handler *)
Definition aligned_new (empty_ptr : Z) (rs : list MemoryRegion) (config : Config)
    (v : SBPFVersion) (handler : AccessViolationHandler) : Exec EbpfError AlignedMemoryMapping :=
  let! rs :=
    if config.(allow_memory_region_zero) then
      let rs := sort_regions rs in
      fill_regions (fill_fuel rs) empty_ptr 0 [] rs
    else
      let! zero := new_readonly empty_ptr 0 0 in
      let rs := sort_regions (zero :: rs) in
      check_region_indices 0 rs ;; Ret rs in
  Ret {| a_common := {| regions := rs; access_violation_handler := handler;
           mm_allow_memory_region_zero := config.(allow_memory_region_zero);
           mm_max_call_depth := as_i64 config.(max_call_depth);
           mm_stack_frame_size := as_i64 config.(stack_frame_size); mm_sbpf_version := v |} |}.

(* src/memory_region.rs:418-429, AlignedMemoryMapping::find_region *)
Definition aligned_find_region (self : AlignedMemoryMapping) (addr : Z)
    : option (Z * MemoryRegion) :=
  let index := wrapping_shr 64 addr VIRTUAL_ADDRESS_BITS in
  if (index <? zlen self.(a_common).(regions))
     && ((0 <? index) || self.(a_common).(mm_allow_memory_region_zero))
  then (fun region => (index, region)) <$> self.(a_common).(regions) !! Z.to_nat index
  else None.

(* src/memory_region.rs:431-448, AlignedMemoryMapping::replace_region *)
Definition aligned_replace_region (self : AlignedMemoryMapping) (index : Z)
    (region : MemoryRegion) : Exec EbpfError AlignedMemoryMapping :=
  let begin_index := region_index region in
  let end_index :=
    default 0 (u64_checked_shr
      (u64_saturating_add region.(vm_addr) (u64_saturating_sub region.(len) 1))
      VIRTUAL_ADDRESS_BITS) in
  if negb (begin_index =? index) || negb (end_index =? index)
  then Err (InvalidMemoryRegion index)
  else
    let! _ := index_slice self.(a_common).(regions) index in
    Ret {| a_common := set_regions self.(a_common)
             (<[Z.to_nat index := region]> self.(a_common).(regions)) |}.

(** * Either mapping *)

(* src/memory_region.rs:464-466, MemoryMapping::new_identity *)
Definition new_identity : MemoryMapping := Identity.

(* src/memory_region.rs:468-495, MemoryMapping::new_with_access_violation_handler *)
Definition mapping_new_with_handler (empty_ptr : Z) (rs : list MemoryRegion) (config : Config)
    (v : SBPFVersion) (handler : AccessViolationHandler) : Exec EbpfError MemoryMapping :=
  if version_leb V4 v || config.(aligned_memory_mapping)
  then let! m := aligned_new empty_ptr rs config v handler in Ret (Aligned m)
  else let! m := unaligned_new rs config v handler in Ret (Unaligned m).

(* src/memory_region.rs:497-511, MemoryMapping::new *)
Definition mapping_new (empty_ptr : Z) (rs : list MemoryRegion) (config : Config)
    (v : SBPFVersion) : Exec EbpfError MemoryMapping :=
  mapping_new_with_handler empty_ptr rs config v default_access_violation_handler.

(* src/memory_region.rs:596-604, MemoryMapping::find_region *)
Definition find_region {X} (self : MemoryMapping) (addr : Z)
    : Exec X (option (Z * MemoryRegion) * MemoryMapping) :=
  match self with
  | Identity => Ret (None, self)
  | Aligned m => Ret (aligned_find_region m addr, self)
  | Unaligned m => let! (r, m) := unaligned_find_region m addr in Ret (r, Unaligned m)
  end.

(* src/memory_region.rs:606-614, MemoryMapping::get_regions *)
Definition get_regions (self : MemoryMapping) : list MemoryRegion :=
  match self with
  | Identity => []
  | Aligned m => m.(a_common).(regions)
  | Unaligned m => m.(u_common).(regions)
  end.

(* src/memory_region.rs:616-634, MemoryMapping::replace_region *)
Definition replace_region (self : MemoryMapping) (index : Z) (region : MemoryRegion)
    : Exec EbpfError MemoryMapping :=
  let rs := get_regions self in
  let next_region_start :=
    match rs !! Z.to_nat (u64_saturating_add index 1) with
    | Some next_region => next_region.(vm_addr)
    | None => u64_max
    end in
  if zlen rs <=? index then Err (InvalidMemoryRegion index)
  else
    let! old := index_slice rs index in
    if negb (old.(vm_addr) =? region.(vm_addr)) || (next_region_start <? (vm_addr_range region).2)
    then Err (InvalidMemoryRegion index)
    else
      match self with
      | Identity => Err (InvalidMemoryRegion index)
      | Aligned m => let! m := aligned_replace_region m index region in Ret (Aligned m)
      | Unaligned m => let! m := unaligned_replace_region m index region in Ret (Unaligned m)
      end.

Definition common_of (self : MemoryMapping) : option CommonMemoryMapping :=
  match self with
  | Identity => None
  | Aligned m => Some m.(a_common)
  | Unaligned m => Some m.(u_common)
  end.

(* src/memory_region.rs:513-526, MemoryMapping::map *)
Definition mapping_map {X} (self : MemoryMapping) (access_type : AccessType) (addr size : Z)
    : Exec X (ProgramResult * MemoryMapping) :=
  let! (found, self) := find_region self addr in
  let host := match found with
              | Some (_, region) => vm_to_host region access_type addr size
              | None => None
              end in
  match host with
  | Some host_addr => Ret (SOk host_addr, self)
  | None =>
      match common_of self with
      | None => Ret (SOk addr, self)
      | Some common => Ret (generate_access_violation common access_type addr size, self)
      end
  end.

(* src/memory_region.rs:528-568, MemoryMapping::map_with_access_violation_handler *)
Definition map_with_access_violation_handler {X} (hm : HostMem) (self : MemoryMapping)
    (access_type : AccessType) (addr size : Z)
    : Exec X (ProgramResult * MemoryMapping * HostMem) :=
  match common_of self with
  | None => Ret (SOk addr, self, hm)
  | Some common =>
      let! (found, self) := find_region self addr in
      match found with
      | Some (index, region) =>
          match vm_to_host region access_type addr size with
          | Some host_addr => Ret (SOk host_addr, self, hm)
          | None =>
              let next_start :=
                match get_regions self !! Z.to_nat (u64_saturating_add index 1) with
                | Some next_region => next_region.(vm_addr)
                | None => u64_max
                end in
              let max_len := u64_saturating_sub next_start region.(vm_addr) in
              let (region, hm) :=
                common.(access_violation_handler) hm region max_len access_type addr size in
              match vm_to_host region access_type addr size with
              | Some host_addr =>
                  match replace_region self index region with
                  | Ret self => Ret (SOk host_addr, self, hm)
                  | Err err => Ret (SErr err, self, hm)
                  | Panic f => Panic f
                  end
              | None => Ret (generate_access_violation common access_type addr size, self, hm)
              end
          end
      | None => Ret (generate_access_violation common access_type addr size, self, hm)
      end
  end.

(** [T] is an unsigned integer of [n] bytes. *)
(* src/memory_region.rs:570-580, MemoryMapping::load *)
Definition load {X} (n : nat) (hm : HostMem) (self : MemoryMapping) (addr : Z)
    : Exec X (ProgramResult * MemoryMapping * HostMem) :=
  let! (result, self, hm) :=
    map_with_access_violation_handler hm self Load addr (Z.of_nat n) in
  match result with
  | SOk host_addr =>
      let! value := expect InvalidHostAccess (host_read hm host_addr n) in
      Ret (SOk value, self, hm)
  | err => Ret (err, self, hm)
  end.

(* src/memory_region.rs:582-594, MemoryMapping::store *)
Definition store {X} (n : nat) (hm : HostMem) (self : MemoryMapping) (value addr : Z)
    : Exec X (ProgramResult * MemoryMapping * HostMem) :=
  let! (result, self, hm) :=
    map_with_access_violation_handler hm self Store addr (Z.of_nat n) in
  match result with
  | SOk host_addr =>
      let! hm := expect InvalidHostAccess (host_write hm host_addr n value) in
      Ret (SOk host_addr, self, hm)
  | err => Ret (err, self, hm)
  end.
