(* ===== verification/MappingSearch.v ===== *)
(** The region search of the unaligned mapping: the Eytzinger arrays built by
    [construct_eytzinger_order], the descent of [find_region] and its cache find
    the same region as a linear search of the sorted regions. *)
From Stdlib Require Import Zwf.
From stdpp Require Import sorting.
From S2P Require Import Prelude Error Ebpf Program MemoryRegion MemoryMapping.
Open Scope rust_scope.

(** * Reference search *)

(** The last position whose element satisfies [P]. *)
Fixpoint last_such {A} (P : A -> bool) (l : list A) : option nat :=
  match l with
  | [] => None
  | a :: l =>
      match last_such P l with
      | Some i => Some (S i)
      | None => if P a then Some O else None
      end
  end.

(** The last region that starts at or below the address. *)
Definition region_below (rs : list MemoryRegion) (addr : Z) : option (Z * MemoryRegion) :=
  i ← last_such (fun r => r.(vm_addr) <=? addr) rs;
  r ← rs !! i;
  Some (Z.of_nat i, r).

(** No region reaches over the start of a later one. *)
Definition regions_disjoint (rs : list MemoryRegion) : Prop :=
  forall (i j : nat) r1 r2, (i < j)%nat -> rs !! i = Some r1 -> rs !! j = Some r2 ->
    (vm_addr_range r1).2 <= r2.(vm_addr).

(** * The tree *)

(** The nodes below node [k] of a tree with nodes [1..n], in order: node [k] has
    children [2 * k] and [2 * k + 1]. *)
Fixpoint inorder (fuel : nat) (n k : Z) : list Z :=
  match fuel with
  | O => []
  | S fuel => if n <? k then [] else inorder fuel n (2 * k) ++ k :: inorder fuel n (2 * k + 1)
  end.

(** The arrays hold, at the node that comes [i]-th in order, the address and the
    index of region [i]. *)
Definition eytzinger (rs : list MemoryRegion) (addresses lookup : list Z) : Prop :=
  length addresses = length rs /\ length lookup = length rs /\
  let L := inorder (S (length rs)) (zlen rs) 1 in
  length L = length rs /\
  forall (i : nat) k r, L !! i = Some k -> rs !! i = Some r ->
    1 <= k <= zlen rs /\
    addresses !! Z.to_nat (k - 1) = Some r.(vm_addr) /\ lookup !! Z.to_nat (k - 1) = Some (Z.of_nat i).

(** Every entry of the cache is empty or holds the range of the region it names. *)
Definition cache_ok (rs : list MemoryRegion) (c : MappingCache) : Prop :=
  0 <= c.(head) < Z.of_nat CACHE_SIZE /\ length c.(entries) = CACHE_SIZE /\
  Forall (fun '(range, i) => range = (0, 0) \/
    0 <= i /\ exists r, rs !! Z.to_nat i = Some r /\ range = vm_addr_range r) c.(entries).

(** The size is below the one an allocation can have. *)
Record unaligned_inv (m : UnalignedMemoryMapping) : Prop := {
  ui_small : zlen m.(u_common).(regions) < 2 ^ 62;
  ui_wf : Forall region_wf m.(u_common).(regions);
  ui_disjoint : regions_disjoint m.(u_common).(regions);
  ui_tree : eytzinger m.(u_common).(regions) m.(region_addresses) m.(region_index_lookup);
  ui_cache : cache_ok m.(u_common).(regions) m.(cache);
}.

(** * Lemmas *)

Section LastSuch.
Context {A : Type} (P : A -> bool).

Lemma last_such_app (l1 l2 : list A) :
  last_such P (l1 ++ l2) =
    match last_such P l2 with
    | Some i => Some (length l1 + i)%nat
    | None => last_such P l1
    end.
Proof.
  induction l1 as [|a l1 IH]; simpl; [by destruct (last_such P l2)|].
  rewrite IH. by destruct (last_such P l2).
Qed.

Lemma last_such_None (l : list A) : last_such P l = None <-> Forall (fun a => P a = false) l.
Proof.
  induction l as [|a l IH]; simpl; [done|]. rewrite Forall_cons, <-IH. clear IH.
  destruct (last_such P l), (P a); split; intros; destruct_and?; done.
Qed.

Lemma last_such_Some (l : list A) (i : nat) :
  last_such P l = Some i <->
    (exists a, l !! i = Some a /\ P a = true) /\
    forall j a, (i < j)%nat -> l !! j = Some a -> P a = false.
Proof.
  revert i. induction l as [|a l IH]; intros i; simpl.
  { split; [done|]. intros [(a & Ha & _) _]. done. }
  destruct (last_such P l) as [k|] eqn:Hl.
  - split.
    + intros [= <-]. destruct (proj1 (IH k) eq_refl) as [Ha Hj]. split; [done|].
      intros [|j] b Hjk Hb; [lia|]. apply (Hj j); [lia|done].
    + intros [Ha Hj]. destruct (proj1 (IH k) eq_refl) as [(b & Hb & Pb) Hk].
      destruct i as [|i].
      { rewrite (Hj (S k) b) in Pb; [done|lia|done]. }
      f_equal. destruct (Nat.lt_trichotomy k i) as [?|[->|?]]; [|done|].
      * destruct Ha as (b' & Hb' & Pb'). rewrite (Hk i b') in Pb'; done.
      * rewrite (Hj (S k) b) in Pb; [done|lia|done].
  - apply last_such_None in Hl. destruct (P a) eqn:Pa; split.
    + intros [= <-]. split; [by exists a|]. intros [|j] b Hj Hb; [lia|].
      by apply (Forall_lookup_1 _ _ _ _ Hl Hb).
    + intros [(b & Hb & Pb) _]. destruct i as [|i]; [done|].
      by rewrite (Forall_lookup_1 _ _ _ _ Hl Hb) in Pb.
    + done.
    + intros [(b & Hb & Pb) _]. destruct i as [|i]; [simpl in Hb; congruence|].
      by rewrite (Forall_lookup_1 _ _ _ _ Hl Hb) in Pb.
Qed.
End LastSuch.

Lemma last_such_fmap {A B} (f : A -> B) (P : B -> bool) (l : list A) :
  last_such P (f <$> l) = last_such (fun a => P (f a)) l.
Proof. induction l as [|a l IH]; csimpl; [done|]. by rewrite IH. Qed.

(** ** Nodes in order *)

Lemma inorder_bounds (fuel : nat) (n k j : Z) :
  j ∈ inorder fuel n k -> 1 <= k -> 1 <= j <= n /\ exists d, 0 <= d /\ k * 2 ^ d <= j < (k + 1) * 2 ^ d.
Proof.
  revert k. induction fuel as [|fuel IH]; intros k; simpl; [by rewrite elem_of_nil|].
  destruct (Z.ltb_spec n k); [by rewrite elem_of_nil|].
  rewrite elem_of_app, elem_of_cons. intros [Hj|[->|Hj]] Hk.
  - destruct (IH _ Hj) as (? & d & Hd & ?); [lia|]. split; [done|].
    exists (d + 1). rewrite Z.pow_add_r, Z.pow_1_r by lia. pose proof (pow2_pos d Hd). lia.
  - split; [lia|]. exists 0. simpl. lia.
  - destruct (IH _ Hj) as (? & d & Hd & ?); [lia|]. split; [done|].
    exists (d + 1). rewrite Z.pow_add_r, Z.pow_1_r by lia. pose proof (pow2_pos d Hd). lia.
Qed.

(** The depth below a node is determined by the logarithm. *)
Lemma subtree_log2 (k d j : Z) :
  1 <= k -> 0 <= d -> k * 2 ^ d <= j < (k + 1) * 2 ^ d -> Z.log2 j = Z.log2 k + d.
Proof.
  intros Hk Hd Hj. pose proof (pow2_pos d Hd).
  pose proof (Z.log2_spec k ltac:(lia)) as [Hlo Hhi].
  pose proof (Z.log2_nonneg k). apply Z.log2_unique; [lia|].
  rewrite <-Z.add_succ_l, !Z.pow_add_r by lia.
  pose proof (Z.mul_le_mono_nonneg_r (2 ^ Z.log2 k) k (2 ^ d)).
  pose proof (Z.mul_le_mono_nonneg_r (k + 1) (2 ^ Z.succ (Z.log2 k)) (2 ^ d)). lia.
Qed.

Lemma inorder_disjoint (f1 f2 : nat) (n k j : Z) :
  1 <= k -> j ∈ inorder f1 n (2 * k) -> j ∈ inorder f2 n (2 * k + 1) -> False.
Proof.
  intros Hk [_ (d & Hd & Hj1)]%inorder_bounds [_ (e & He & Hj2)]%inorder_bounds; [|lia..].
  pose proof (subtree_log2 (2 * k) d j ltac:(lia) Hd Hj1) as Hl1.
  pose proof (subtree_log2 (2 * k + 1) e j ltac:(lia) He Hj2) as Hl2.
  rewrite Z.log2_double in Hl1 by lia. rewrite Z.log2_succ_double in Hl2 by lia.
  assert (d = e) as -> by lia. nia.
Qed.

Lemma inorder_above (fuel : nat) (n k j : Z) : 1 <= k -> j ∈ inorder fuel n k -> k <= j.
Proof.
  intros Hk [_ (d & Hd & Hj)]%inorder_bounds; [|done]. pose proof (pow2_pos d Hd). nia.
Qed.

Lemma inorder_NoDup (fuel : nat) (n k : Z) : 1 <= k -> NoDup (inorder fuel n k).
Proof.
  revert k. induction fuel as [|fuel IH]; intros k Hk; simpl; [constructor|].
  destruct (n <? k); [constructor|]. apply NoDup_app. split; [apply IH; lia|]. split.
  - intros j Hj. rewrite elem_of_cons. intros [->|Hj'].
    + apply inorder_above in Hj; lia.
    + by apply (inorder_disjoint fuel fuel n k j).
  - constructor; [|apply IH; lia]. intros Hj%inorder_above; lia.
Qed.

(** More fuel changes nothing once it covers the depth. *)
Lemma inorder_fuel (f1 f2 : nat) (n k : Z) :
  1 <= k -> n + 1 - k < Z.of_nat f1 -> (f1 <= f2)%nat -> inorder f2 n k = inorder f1 n k.
Proof.
  revert f2 k. induction f1 as [|f1 IH]; intros [|f2] k Hk Hf Hle; simpl; try done || lia.
  - destruct (Z.ltb_spec n k); [done|lia].
  - destruct (Z.ltb_spec n k); [done|]. rewrite !(IH f2) by lia. done.
Qed.

Lemma inorder_children (fuel : nat) (n k j : Z) :
  1 <= k -> n + 1 - k < Z.of_nat fuel -> j ∈ inorder fuel n k ->
  forall b, (b = 0 \/ b = 1) -> 2 * j + b <= n -> 2 * j + b ∈ inorder fuel n k.
Proof.
  revert k. induction fuel as [|fuel IH]; intros k Hk Hf Hj b Hb Hn; simpl in *.
  { by apply elem_of_nil in Hj. }
  destruct (Z.ltb_spec n k); [by apply elem_of_nil in Hj|].
  rewrite elem_of_app, elem_of_cons in *. destruct Hj as [Hj|[->|Hj]].
  - left. apply IH; (done || lia).
  - destruct fuel as [|fuel]; [lia|]. simpl.
    destruct Hb as [-> | ->]; rewrite ?Z.add_0_r in *.
    + left. rewrite (proj2 (Z.ltb_ge n (2 * k))) by lia.
      rewrite elem_of_app, elem_of_cons. auto.
    + right. right. rewrite (proj2 (Z.ltb_ge n (2 * k + 1))) by lia.
      rewrite elem_of_app, elem_of_cons. auto.
  - right. right. apply IH; (done || lia).
Qed.

(** The tree holds every node once. *)
Lemma inorder_all (n j : Z) : 1 <= j <= n -> j ∈ inorder (S (Z.to_nat n)) n 1.
Proof.
  induction j as [j IH] using (well_founded_induction (Zwf.Zwf_well_founded 0)). intros Hn.
  destruct (decide (j = 1)) as [->|].
  - simpl. rewrite (proj2 (Z.ltb_ge n 1)) by lia. rewrite elem_of_app, elem_of_cons. auto.
  - pose proof (Z.div_mod j 2 ltac:(lia)). pose proof (Z.mod_pos_bound j 2 ltac:(lia)).
    rewrite (Z.div_mod j 2) by lia. apply inorder_children; [lia|lia| |lia|lia].
    apply IH; unfold Zwf.Zwf; lia.
Qed.

Lemma length_inorder (n : Z) : 0 <= n -> Z.of_nat (length (inorder (S (Z.to_nat n)) n 1)) = n.
Proof.
  intros Hn. set (L := inorder _ _ _).
  assert (HP : L ≡ₚ seqZ 1 n).
  { apply NoDup_Permutation; [by apply inorder_NoDup|apply NoDup_seqZ|].
    intros j. rewrite elem_of_seqZ. split; [|intros; apply inorder_all; lia].
    intros [? _]%inorder_bounds; lia. }
  rewrite HP, length_seqZ. lia.
Qed.

(** ** Construction *)

(** What the construction below node [k], started at region [i], does to the arrays. *)
Definition filled (rs : list MemoryRegion) (L : list Z) (i : nat) (a a' : list Z * list Z) : Prop :=
  length a'.1 = length a.1 /\ length a'.2 = length a.2 /\
  (forall (j : nat) k r, L !! j = Some k -> rs !! (i + j)%nat = Some r ->
     a'.1 !! Z.to_nat (k - 1) = Some r.(vm_addr) /\
     a'.2 !! Z.to_nat (k - 1) = Some (Z.of_nat (i + j))) /\
  (forall k, 1 <= k -> k ∉ L ->
     a'.1 !! Z.to_nat (k - 1) = a.1 !! Z.to_nat (k - 1) /\
     a'.2 !! Z.to_nat (k - 1) = a.2 !! Z.to_nat (k - 1)).

Lemma filled_nil rs i a : filled rs [] i a a.
Proof. split_and!; try done. Qed.

Lemma filled_app rs L1 L2 (i : nat) a1 a2 a3 :
  Forall (Z.le 1) L1 -> (forall k, k ∈ L1 -> k ∉ L2) ->
  filled rs L1 i a1 a2 -> filled rs L2 (i + length L1) a2 a3 -> filled rs (L1 ++ L2) i a1 a3.
Proof.
  intros Hpos Hdis (Ha & Hb & Hin1 & Hout1) (Hc & Hd & Hin2 & Hout2).
  split_and!; [congruence|congruence| |].
  - intros j k r Hj Hr. apply lookup_app_Some in Hj as [Hj|[Hle Hj]].
    + destruct (Hin1 j k r Hj Hr) as [<- <-]. apply Hout2.
      * by apply (Forall_lookup_1 _ _ _ _ Hpos Hj).
      * apply Hdis. by apply list_elem_of_lookup_2 in Hj.
    + destruct (Hin2 (j - length L1)%nat k r Hj) as [-> ->].
      * rewrite <-Hr. f_equal. lia.
      * split; [done|]. do 2 f_equal. lia.
  - intros k Hk Hn. rewrite elem_of_app in Hn.
    destruct (Hout1 k Hk) as [<- <-]; [by auto|]. apply Hout2; auto.
Qed.

Lemma filled_write rs (i : nat) (k : Z) r (a1 a2 : list Z) :
  1 <= k <= zlen a1 -> k <= zlen a2 -> rs !! i = Some r ->
  filled rs [k] i (a1, a2) (<[Z.to_nat (k - 1) := r.(vm_addr)]> a1,
                            <[Z.to_nat (k - 1) := Z.of_nat i]> a2).
Proof.
  unfold zlen. intros Hk Hk2 Hr. split_and!; simpl; [by rewrite length_insert..| |].
  - intros [|j] k' r' Hj Hr'; [|done]. injection Hj as <-.
    rewrite Nat.add_0_r in *. simplify_eq. rewrite !list_lookup_insert_eq by lia. done.
  - intros k' Hk' Hn. rewrite list_elem_of_singleton in Hn.
    rewrite !list_lookup_insert_ne by lia. done.
Qed.

Lemma construct_eytzinger_order_spec {X} (rs : list MemoryRegion) (fuel : nat) (k : Z) (i : nat)
    (a : list Z * list Z) :
  let L := inorder fuel (zlen rs) k in
  zlen rs < 2 ^ 62 -> 1 <= k -> (0 < fuel)%nat -> zlen rs + 1 - k < Z.of_nat fuel ->
  (i + length L <= length rs)%nat -> length a.1 = length rs -> length a.2 = length rs ->
  exists a', construct_eytzinger_order (X := X) fuel rs a (Z.of_nat i) (k - 1)
      = Ret (Z.of_nat (i + length L), a') /\ filled rs L i a a'.
Proof.
  intros L Hn. pose proof Hn as Hn'. unfold zlen in Hn'. revert k i a L.
  induction fuel as [|fuel IH]; intros k i a L Hk Hf0 Hf Hi Ha1 Ha2; cbn [construct_eytzinger_order].
  { lia. }
  unfold L in *. clear L. cbn [inorder] in *.
  destruct (Z.leb_spec (zlen rs) (k - 1)); destruct (Z.ltb_spec (zlen rs) k); try lia.
  { exists a. rewrite Nat.add_0_r. split; [done|apply filled_nil]. }
  set (L1 := inorder fuel (zlen rs) (2 * k)) in *. set (L2 := inorder fuel (zlen rs) (2 * k + 1)) in *.
  rewrite length_app in *. cbn [length] in *.
  unfold u64_saturating_add, u64_saturating_mul, u64_max.
  replace (Z.min _ (2 ^ 64 - 1)) with (2 * k - 1) by lia.
  destruct (IH (2 * k) i a) as ([a1 a2] & -> & HF1); try (fold L1; lia).
  fold L1 in HF1 |- *. cbn [exec_bind].
  destruct (lookup_lt_is_Some_2 rs (i + length L1)) as [r Hr]; [lia|].
  pose proof HF1 as (Hl1 & Hl2 & _). cbn [fst snd] in *.
  destruct (@index_slice_Ret X _ a1 (k - 1)) as (v1 & _ & E1); [unfold zlen in *; lia|].
  destruct (@index_slice_Ret X _ a2 (k - 1)) as (v2 & _ & E2); [unfold zlen in *; lia|].
  rewrite (index_slice_lookup rs _ r), E1, E2 by (rewrite ?Nat2Z.id; done || lia). cbn [exec_bind].
  replace (Z.min (Z.min ((k - 1) * 2) (2 ^ 64 - 1) + 2) (2 ^ 64 - 1)) with (2 * k + 1 - 1) by lia.
  replace (Z.min (Z.of_nat (i + length L1) + 1) (2 ^ 64 - 1)) with (Z.of_nat (i + length L1 + 1))
    by lia.
  set (a'' := (<[Z.to_nat (k - 1):=_]> a1, _)).
  assert (HFk : filled rs [k] (i + length L1) (a1, a2) a'')
    by (apply filled_write; unfold zlen in *; done || lia).
  pose proof HFk as (Hl1' & Hl2' & _). cbn [fst snd] in *.
  destruct (IH (2 * k + 1) (i + length L1 + 1)%nat a'') as (a' & -> & HF2);
    try (fold L2; simpl in *; lia).
  fold L2 in HF2 |- *. exists a'. split; [do 2 f_equal; lia|].
  pose proof (inorder_NoDup (S fuel) (zlen rs) k Hk) as HND. cbn [inorder] in HND.
  rewrite (proj2 (Z.ltb_ge (zlen rs) k)) in HND by lia. fold L1 L2 in HND.
  apply NoDup_app in HND as (_ & HD & HND). apply NoDup_cons in HND as [HkL HND].
  apply filled_app with (a1, a2); [|done|done|].
  { apply Forall_forall. intros j [? _]%inorder_bounds; lia. }
  apply (filled_app rs [k] L2) with a''; [by repeat constructor| |done|done].
  intros j ->%list_elem_of_singleton. done.
Qed.

Lemma construct_eytzinger {X} (rs : list MemoryRegion) :
  zlen rs < 2 ^ 62 ->
  exists addresses lookup,
    construct_eytzinger_order (X := X) (S (length rs)) rs
      (replicate (length rs) 0, replicate (length rs) 0) 0 0
      = Ret (zlen rs, (addresses, lookup)) /\ eytzinger rs addresses lookup.
Proof.
  intros Hn. pose proof (length_inorder (zlen rs) ltac:(unfold zlen; lia)) as HL.
  replace (Z.to_nat (zlen rs)) with (length rs) in HL by (unfold zlen; lia).
  destruct (construct_eytzinger_order_spec (X := X) rs (S (length rs)) 1 0
    (replicate (length rs) 0, replicate (length rs) 0)) as ([a1 a2] & Hc & Hl1 & Hl2 & Hin & _);
    cbn [fst snd] in *; rewrite ?length_replicate in *; try (done || unfold zlen in *; lia).
  exists a1, a2. split; [rewrite <-HL; exact Hc|].
  split; [done|]. split; [done|]. cbv zeta. split; [unfold zlen in *; lia|].
  intros i k r Hk Hr. split; [|by apply (Hin i)].
  apply list_elem_of_lookup_2, inorder_bounds in Hk; [apply Hk|done].
Qed.

(** ** Search *)

(** The last element that satisfies [P]. *)
Definition last_elem {A} (P : A -> bool) (l : list A) : option A := i ← last_such P l; l !! i.

Lemma last_elem_app {A} (P : A -> bool) (l1 l2 : list A) :
  last_elem P (l1 ++ l2) = match last_elem P l2 with Some a => Some a | None => last_elem P l1 end.
Proof.
  unfold last_elem. rewrite last_such_app. destruct (last_such P l2) as [i|] eqn:H2; simpl.
  - apply last_such_Some in H2 as [(a & Ha & _) _]. rewrite lookup_app_r by lia.
    replace (length l1 + i - length l1)%nat with i by lia. by rewrite Ha.
  - destruct (last_such P l1) as [i|] eqn:H1; [|done]. simpl.
    apply last_such_Some in H1 as [(a & Ha & _) _]. by rewrite (lookup_app_l_Some _ _ _ _ Ha), Ha.
Qed.

(** The node whose right child was entered last. *)
Definition last_right (index : Z) : Z := Z.shiftr index (trailing_zeros index + 1).

Lemma pos_trailing_zeros_nonneg (p : positive) : 0 <= pos_trailing_zeros p.
Proof. induction p; simpl; lia. Qed.

Lemma last_right_double (k : Z) : 1 <= k -> last_right (2 * k) = last_right k.
Proof.
  intros Hk. destruct k as [|p|p]; [lia| |lia]. unfold last_right.
  pose proof (pos_trailing_zeros_nonneg p).
  change (2 * Z.pos p) with (Z.pos p~0). cbn [trailing_zeros pos_trailing_zeros].
  rewrite <-Z.add_assoc, <-Z.shiftr_shiftr by lia. done.
Qed.

Lemma last_right_succ_double (k : Z) : 1 <= k -> last_right (2 * k + 1) = k.
Proof.
  intros Hk. destruct k as [|p|p]; [lia| |lia]. unfold last_right.
  change (2 * Z.pos p + 1) with (Z.pos p~1). cbn [trailing_zeros pos_trailing_zeros].
  change (0 + 1) with 1.
  rewrite Z.shiftr_div_pow2, Z.pow_1_r by lia. change (Z.pos p~1) with (2 * Z.pos p + 1).
  symmetry. apply Z.div_unique_pos with 1; lia.
Qed.

Section Descend.
Context {X : Type} (addresses : list Z) (addr : Z).
Let n := zlen addresses.
Let below (k : Z) : bool := default 0 (addresses !! Z.to_nat (k - 1)) <=? addr.
Let address (k : Z) : Z := default 0 (addresses !! Z.to_nat (k - 1)).

(** The descent ends at the last node in order whose address is at or below [addr];
    where there is none, it never turned right below [k]. *)
Lemma eytzinger_descend_spec (fuel : nat) (k : Z) :
  let L := inorder fuel n k in
  1 <= k -> (0 < fuel)%nat -> n + 1 - k < Z.of_nat fuel ->
  StronglySorted (fun k1 k2 => address k1 <= address k2) L ->
  exists index, eytzinger_descend (X := X) fuel addresses addr k = Ret index /\
    last_right index = default (last_right k) (last_elem below L).
Proof.
  revert k. induction fuel as [|fuel IH]; intros k L Hk Hf0 Hf Hsorted; [lia|].
  unfold L in *. clear L. cbn [eytzinger_descend inorder] in *. fold n.
  destruct (Z.leb_spec k n), (Z.ltb_spec n k); try lia; [|by exists k].
  destruct (@index_slice_Ret X _ addresses (k - 1)) as (a & Ha & ->); [fold n; lia|].
  cbn [exec_bind].
  set (L1 := inorder fuel n (2 * k)) in *. set (L2 := inorder fuel n (2 * k + 1)) in *.
  rewrite Z.shiftl_mul_pow2, Z.pow_1_r, (Z.mul_comm k) by lia.
  change (k :: L2) with ([k] ++ L2) in *. rewrite !last_elem_app.
  assert (Hb : last_elem below [k] = if a <=? addr then Some k else None).
  { unfold last_elem, below. simpl. rewrite Ha. simpl. by destruct (a <=? addr). }
  rewrite Hb. apply StronglySorted_app in Hsorted as (_ & HS1 & HS2).
  apply StronglySorted_inv in HS2 as [HS2 HF].
  destruct (Z.leb_spec a addr) as [Hle|Hgt].
  - destruct (IH (2 * k + 1)) as (index & -> & Hr); [lia|lia|lia|done|].
    exists index. split; [done|]. rewrite Hr, last_right_succ_double by done. fold L2.
    by destruct (last_elem below L2).
  - rewrite Z.add_0_r. destruct (IH (2 * k)) as (index & -> & Hr); [lia|lia|lia|done|].
    exists index. split; [done|]. rewrite Hr, last_right_double by done. fold L1.
    unfold last_elem at 2. rewrite (proj2 (last_such_None below L2)); [done|].
    apply (Forall_impl _ _ _ HF). intros k' Hk'. unfold below, address in *.
    rewrite Ha in Hk'. simpl in Hk'. apply Z.leb_gt. lia.
Qed.
End Descend.

(** ** The arrays answer the reference search *)

Lemma vm_addr_range_le (r : MemoryRegion) : region_wf r -> r.(vm_addr) <= (vm_addr_range r).2.
Proof.
  intros (_ & Hv & Hl & _). unfold vm_addr_range, u64_saturating_add, u64_saturating_mul, in_u, u64_max in *.
  destruct (_ =? 63); simpl; lia.
Qed.

Lemma regions_sorted (rs : list MemoryRegion) :
  Forall region_wf rs -> regions_disjoint rs -> StronglySorted Z.le (vm_addr <$> rs).
Proof.
  intros Hwf Hd. induction rs as [|r rs IH]; csimpl; [constructor|].
  apply Forall_cons in Hwf as [Hr Hwf]. constructor.
  - apply IH; [done|]. intros i j r1 r2 Hij H1 H2. by apply (Hd (S i) (S j) r1 r2); [lia|..].
  - apply Forall_fmap, Forall_lookup. intros j r2 H2. simpl.
    transitivity (vm_addr_range r).2; [by apply vm_addr_range_le|].
    by apply (Hd O (S j) r r2); [lia|..].
Qed.

Lemma eytzinger_addresses (rs : list MemoryRegion) (addresses lookup : list Z) :
  eytzinger rs addresses lookup ->
  (fun k => default 0 (addresses !! Z.to_nat (k - 1))) <$> inorder (S (length rs)) (zlen rs) 1
    = vm_addr <$> rs.
Proof.
  intros (_ & _ & HL & Hin). apply list_eq_same_length with (length rs);
    [by rewrite length_fmap|by rewrite length_fmap|].
  intros i x y Hi Hx Hy. apply list_lookup_fmap_Some in Hx as (k & -> & Hk), Hy as (r & -> & Hr).
  destruct (Hin i k r Hk Hr) as (_ & -> & _). done.
Qed.

Lemma StronglySorted_fmap_inv {A B} (f : A -> B) (R : relation B) (l : list A) :
  StronglySorted R (f <$> l) -> StronglySorted (fun a b => R (f a) (f b)) l.
Proof.
  induction l as [|a l IH]; csimpl; [constructor|]. intros [Hs HF]%StronglySorted_inv.
  constructor; [auto|]. exact (proj1 (Forall_fmap _ _ _) HF).
Qed.

Lemma eytzinger_search {X} (rs : list MemoryRegion) (addresses lookup : list Z) (addr : Z) :
  Forall region_wf rs -> regions_disjoint rs -> eytzinger rs addresses lookup ->
  exists index, eytzinger_descend (X := X) (S (length addresses)) addresses addr 1 = Ret index /\
    match last_such (fun r => r.(vm_addr) <=? addr) rs with
    | None => last_right index = 0
    | Some i => 1 <= last_right index /\
                index_slice (E := X) lookup (last_right index - 1) = Ret (Z.of_nat i)
    end.
Proof.
  intros Hwf Hd He. pose proof (eytzinger_addresses _ _ _ He) as HA.
  destruct He as (Hla & _ & HL & Hin). rewrite Hla.
  replace (zlen rs) with (zlen addresses) in * by (unfold zlen; congruence).
  set (L := inorder _ _ _) in *. set (below := fun k => default 0 (addresses !! Z.to_nat (k - 1)) <=? addr).
  assert (Hlast : last_such (fun r => r.(vm_addr) <=? addr) rs = last_such below L).
  { rewrite <-(last_such_fmap vm_addr (fun a => a <=? addr)), <-HA.
    apply (last_such_fmap _ (fun a => a <=? addr)). }
  destruct (eytzinger_descend_spec (X := X) addresses addr (S (length rs)) 1) as (index & Hi & Hr);
    [lia|lia|unfold zlen; lia| |].
  { apply (StronglySorted_fmap_inv _ Z.le). fold L. rewrite HA. by apply regions_sorted. }
  exists index. split; [done|]. fold L in Hr. fold below in Hr. rewrite Hlast, Hr. unfold last_elem.
  destruct (last_such below L) as [i|] eqn:Hl; [|done].
  apply last_such_Some in Hl as [(k & Hk & _) _]. simpl. rewrite Hk. simpl.
  destruct (lookup_lt_is_Some_2 rs i) as [r Hri]; [apply lookup_lt_Some in Hk; lia|].
  destruct (Hin i k r Hk Hri) as (? & _ & Hl). split; [lia|].
  apply index_slice_lookup; [lia|done].
Qed.

(** ** The cache *)

Lemma cache_find_spec {X} (rs : list MemoryRegion) (c : MappingCache) (addr : Z) :
  cache_ok rs c ->
  exists o, cache_find (X := X) c addr = Ret o /\
    match o with
    | None => True
    | Some i => 0 <= i /\ exists r, rs !! Z.to_nat i = Some r /\
                  (vm_addr_range r).1 <= addr < (vm_addr_range r).2
    end.
Proof.
  intros (Hh & Hlen & HF). unfold cache_find.
  assert (Hs : Forall (Z.le 0) (seqZ 0 (Z.of_nat CACHE_SIZE)))
    by (apply Forall_forall; intros i ?%elem_of_seqZ; lia).
  induction Hs as [|i idxs Hi Hs IH]; [by exists None|].
  pose proof (Z.rem_bound_pos (head c + i) (Z.of_nat CACHE_SIZE) ltac:(lia) ltac:(done)).
  destruct (@index_slice_Ret X _ (entries c) (Z.rem (head c + i) (Z.of_nat CACHE_SIZE)))
    as ([range k] & Hk & ->); [unfold zlen; rewrite Hlen; done|].
  cbn [exec_bind]. destruct (range_contains range addr) eqn:Hc; [|done].
  exists (Some k). split; [done|]. unfold range_contains in Hc.
  apply andb_prop in Hc as [H1%Z.leb_le H2%Z.ltb_lt].
  apply (Forall_lookup_1 _ _ _ _ HF) in Hk as [-> |(? & r & Hr & ->)]; [simpl in *; lia|].
  split; [done|]. by exists r.
Qed.

Lemma cache_insert_ok (rs : list MemoryRegion) (c : MappingCache) (i : Z) (r : MemoryRegion) :
  cache_ok rs c -> 0 <= i -> rs !! Z.to_nat i = Some r ->
  cache_ok rs (cache_insert c (vm_addr_range r) i).
Proof.
  intros (Hh & Hlen & HF) Hi Hr. unfold cache_insert. split_and!; cbn [head entries].
  - apply Z.mod_pos_bound. done.
  - apply Z.mod_pos_bound. done.
  - by rewrite length_insert.
  - apply Forall_insert; [done|]. right. eauto.
Qed.

Lemma empty_cache_ok (rs : list MemoryRegion) : cache_ok rs (mkCache empty_entries 0).
Proof. split_and!; [done..|]. apply Forall_replicate. by left. Qed.

(** ** Operations keep the invariant *)

Lemma region_below_hit (rs : list MemoryRegion) (i : Z) (r : MemoryRegion) (addr : Z) :
  regions_disjoint rs -> 0 <= i -> rs !! Z.to_nat i = Some r ->
  (vm_addr_range r).1 <= addr < (vm_addr_range r).2 -> region_below rs addr = Some (i, r).
Proof.
  intros Hd Hi Hr Haddr. unfold region_below.
  assert (last_such (fun r => r.(vm_addr) <=? addr) rs = Some (Z.to_nat i)) as ->.
  - apply last_such_Some. split.
    + exists r. split; [done|]. apply Z.leb_le. unfold vm_addr_range in Haddr.
      destruct (_ =? 63); simpl in Haddr; lia.
    + intros j r2 Hj Hr2. apply Z.leb_gt. pose proof (Hd _ _ _ _ Hj Hr Hr2). lia.
  - cbn. rewrite Hr. cbn. by rewrite Z2Nat.id.
Qed.

Lemma unaligned_find_region_spec {X} (m : UnalignedMemoryMapping) (addr : Z) :
  unaligned_inv m ->
  exists c, unaligned_find_region (X := X) m addr
      = Ret (region_below m.(u_common).(regions) addr, set_cache m c) /\
    cache_ok m.(u_common).(regions) c.
Proof.
  intros [_ Hwf Hd Ht Hc]. unfold unaligned_find_region.
  destruct (cache_find_spec (X := X) _ _ addr Hc) as (o & -> & Ho). cbn [exec_bind].
  destruct o as [i|].
  - destruct Ho as (Hi & r & Hr & Haddr). rewrite (index_slice_lookup _ _ r) by done.
    cbn [exec_bind]. exists (cache m). split; [|done].
    rewrite (region_below_hit _ i r) by done. by destruct m.
  - destruct (eytzinger_search (X := X) _ _ _ addr Hwf Hd Ht) as (index & -> & Hs). cbn [exec_bind].
    fold (last_right index). unfold region_below.
    destruct (last_such _ _) as [i|] eqn:Hl.
    + destruct Hs as [Hge Hs]. rewrite (proj2 (Z.eqb_neq _ _)), Hs by lia. cbn [exec_bind].
      apply last_such_Some in Hl as [(r & Hr & _) _].
      rewrite (index_slice_lookup _ _ r) by (rewrite ?Nat2Z.id; done || lia).
      eexists. split; [cbn; rewrite Hr; done|].
      apply cache_insert_ok; [done|lia|by rewrite Nat2Z.id].
    + rewrite Hs. exists (cache m). split; [|done]. by destruct m.
Qed.

Lemma set_cache_inv (m : UnalignedMemoryMapping) (c : MappingCache) :
  unaligned_inv m -> cache_ok m.(u_common).(regions) c -> unaligned_inv (set_cache m c).
Proof. by intros [Hn Hwf Hd Ht _] Hc. Qed.

(** What [replace_region] accepts. *)
Lemma replace_region_Ret (self self' : MemoryMapping) (index : Z) (r : MemoryRegion) :
  0 <= index -> zlen (get_regions self) < 2 ^ 62 -> replace_region self index r = Ret self' ->
  exists old, get_regions self !! Z.to_nat index = Some old /\ r.(vm_addr) = old.(vm_addr) /\
    (forall next, get_regions self !! S (Z.to_nat index) = Some next ->
       (vm_addr_range r).2 <= next.(vm_addr)) /\
    get_regions self' = <[Z.to_nat index := r]> (get_regions self).
Proof.
  unfold replace_region, zlen. intros Hi Hn.
  destruct (Z.leb_spec (Z.of_nat (length (get_regions self))) index); [done|].
  replace (Z.to_nat (u64_saturating_add index 1)) with (S (Z.to_nat index))
    by (unfold u64_saturating_add, u64_max; lia).
  destruct (@index_slice_Ret EbpfError _ (get_regions self) index) as (old & Hold & ->);
    [unfold zlen; lia|]. cbn [exec_bind].
  destruct (Z.eqb_spec old.(vm_addr) r.(vm_addr)) as [Hv|]; [|done]. cbn [negb orb].
  destruct (Z.ltb_spec (match get_regions self !! S (Z.to_nat index) with
    Some next_region => vm_addr next_region | None => u64_max end) (vm_addr_range r).2); [done|].
  intros Hs. exists old. split_and!; try done.
  { intros next Hnx. by rewrite Hnx in *. }
  destruct self as [|m|m]; [done| |]; cbn [get_regions] in *.
  - unfold aligned_replace_region in Hs. destruct (_ || _); [done|].
    rewrite (index_slice_lookup _ _ old) in Hs by done. by simplify_eq/=.
  - unfold unaligned_replace_region in Hs.
    rewrite (index_slice_lookup _ _ old) in Hs by done. by simplify_eq/=.
Qed.

Lemma regions_disjoint_replace (rs : list MemoryRegion) (i : nat) (r old : MemoryRegion) :
  Forall region_wf rs -> regions_disjoint rs -> rs !! i = Some old -> r.(vm_addr) = old.(vm_addr) ->
  (forall next, rs !! S i = Some next -> (vm_addr_range r).2 <= next.(vm_addr)) ->
  regions_disjoint (<[i := r]> rs).
Proof.
  intros Hwf Hd Hold Hv Hnext j k r1 r2 Hjk H1 H2.
  destruct (decide (j = i)) as [->|Hj].
  - rewrite list_lookup_insert_eq in H1 by eauto using lookup_lt_Some. injection H1 as <-.
    rewrite list_lookup_insert_ne in H2 by lia.
    destruct (lookup_lt_is_Some_2 rs (S i)) as [next Hn]; [apply lookup_lt_Some in H2; lia|].
    specialize (Hnext _ Hn). destruct (decide (k = S i)) as [->|]; [by simplify_eq|].
    pose proof (Hd (S i) k next r2 ltac:(lia) Hn H2).
    pose proof (vm_addr_range_le next (Forall_lookup_1 _ _ _ _ Hwf Hn)). lia.
  - rewrite list_lookup_insert_ne in H1 by done.
    destruct (decide (k = i)) as [->|Hk].
    + rewrite list_lookup_insert_eq in H2 by eauto using lookup_lt_Some. injection H2 as <-.
      rewrite Hv. by apply (Hd j i r1 old).
    + rewrite list_lookup_insert_ne in H2 by done. by apply (Hd j k).
Qed.

Lemma eytzinger_replace (rs : list MemoryRegion) (addresses lookup : list Z) (i : nat)
    (r old : MemoryRegion) :
  rs !! i = Some old -> r.(vm_addr) = old.(vm_addr) ->
  eytzinger rs addresses lookup -> eytzinger (<[i := r]> rs) addresses lookup.
Proof.
  intros Hold Hv (H1 & H2 & HL & Hin). unfold eytzinger, zlen. rewrite !length_insert.
  split; [done|]. split; [done|]. split; [done|]. intros j k r' Hk Hr'.
  destruct (decide (j = i)) as [->|].
  - rewrite list_lookup_insert_eq in Hr' by eauto using lookup_lt_Some. injection Hr' as <-.
    rewrite Hv. by apply Hin.
  - rewrite list_lookup_insert_ne in Hr' by done. by apply Hin.
Qed.

Lemma replace_region_inv (m m' : UnalignedMemoryMapping) (index : Z) (r : MemoryRegion) :
  unaligned_inv m -> region_wf r -> 0 <= index ->
  replace_region (Unaligned m) index r = Ret (Unaligned m') -> unaligned_inv m'.
Proof.
  intros [Hn Hwf Hd Ht Hc] Hr Hi Hrep.
  destruct (replace_region_Ret (Unaligned m) _ _ _ Hi Hn Hrep) as (old & Hold & Hv & Hnext & Hrs).
  cbn [get_regions] in *.
  assert (Hm' : region_addresses m' = region_addresses m /\
    region_index_lookup m' = region_index_lookup m /\ cache m' = mkCache empty_entries 0).
  { unfold replace_region in Hrep. cbn [get_regions] in Hrep. destruct (_ <=? _); [done|].
    rewrite (index_slice_lookup _ _ old) in Hrep by done. cbn [exec_bind] in Hrep.
    destruct (_ || _); [done|]. unfold unaligned_replace_region in Hrep.
    rewrite (index_slice_lookup _ _ old) in Hrep by done. by simplify_eq/=. }
  destruct Hm' as (Ha & Hl & Hce). split; rewrite ?Hrs, ?Ha, ?Hl, ?Hce.
  - unfold zlen. by rewrite length_insert.
  - by apply Forall_insert.
  - by apply regions_disjoint_replace with old.
  - by apply eytzinger_replace with old.
  - apply empty_cache_ok.
Qed.

(** ** Construction of the mapping *)

Lemma insert_region_Permutation (r : MemoryRegion) (rs : list MemoryRegion) :
  insert_region r rs ≡ₚ r :: rs.
Proof.
  induction rs as [|r' rs IH]; simpl; [done|]. destruct (region_leb r r'); [done|].
  rewrite IH. constructor.
Qed.

Lemma sort_regions_Permutation (rs : list MemoryRegion) : sort_regions rs ≡ₚ rs.
Proof. induction rs as [|r rs IH]; simpl; [done|]. by rewrite insert_region_Permutation, IH. Qed.

Definition sorted_regions (rs : list MemoryRegion) : Prop :=
  StronglySorted (fun r1 r2 => r1.(vm_addr) <= r2.(vm_addr)) rs.

Lemma insert_region_sorted (r : MemoryRegion) (rs : list MemoryRegion) :
  sorted_regions rs -> sorted_regions (insert_region r rs).
Proof.
  unfold sorted_regions. induction 1 as [|r' rs Hs IH HF]; simpl; [by repeat constructor|].
  unfold region_leb. destruct (Z.leb_spec r.(vm_addr) r'.(vm_addr)).
  - constructor; [by constructor|]. constructor; [done|].
    apply (Forall_impl _ _ _ HF). lia.
  - constructor; [done|]. rewrite insert_region_Permutation. constructor; [lia|done].
Qed.

Lemma sort_regions_sorted (rs : list MemoryRegion) : sorted_regions (sort_regions rs).
Proof. induction rs; simpl; [constructor|]. by apply insert_region_sorted. Qed.

Lemma check_overlap_Ret (rs : list MemoryRegion) (index : Z) :
  Forall region_wf rs ->
  check_overlap index rs = Ret tt /\ regions_disjoint rs \/
  (exists i, check_overlap index rs = Err (InvalidMemoryRegion i)) /\ ~ regions_disjoint rs.
Proof.
  revert index. induction rs as [|r1 rs IH]; intros index Hwf; simpl.
  { left. split; [done|]. intros i j ? ? ? Hi. done. }
  destruct rs as [|r2 rs].
  { left. split; [done|]. intros [|i] [|j] ? ? ? Hi Hj; done || lia. }
  apply Forall_cons in Hwf as [Hr1 Hwf].
  destruct (Z.ltb_spec r2.(vm_addr) (vm_addr_range r1).2) as [Hlt|Hge].
  { right. split; [by eexists|]. intros Hd.
    assert ((vm_addr_range r1).2 <= r2.(vm_addr)) by (apply (Hd O 1%nat); done || lia). lia. }
  destruct (IH (index + 1) Hwf) as [[Hc Hd]|[Hc Hd]]; [left|right]; (split; [done|]).
  - intros [|i] [|j] s1 s2 Hij H1 H2; try lia.
    + injection H1 as <-. destruct j as [|j]; [by simplify_eq/=|].
      pose proof (Hd O (S j) r2 s2 ltac:(lia) eq_refl H2).
      pose proof (vm_addr_range_le r2 (Forall_inv Hwf)). lia.
    + by apply (Hd i j); [lia|..].
  - intros Hd'. apply Hd. intros i j s1 s2 Hij H1 H2. by apply (Hd' (S i) (S j)); [lia|..].
Qed.

Lemma unaligned_new_cases (rs : list MemoryRegion) (config : Config) (v : SBPFVersion)
    (handler : AccessViolationHandler) :
  Forall region_wf rs -> zlen rs < 2 ^ 62 -> version_leb v V3 = true ->
  (exists m, unaligned_new rs config v handler = Ret m /\
     m.(u_common).(regions) = sort_regions rs /\ unaligned_inv m) /\
     regions_disjoint (sort_regions rs) \/
  (exists i, unaligned_new rs config v handler = Err (InvalidMemoryRegion i)) /\
     ~ regions_disjoint (sort_regions rs).
Proof.
  intros Hwf Hn Hv. unfold unaligned_new. rewrite Hv. cbn [negb].
  assert (Hwf' : Forall region_wf (sort_regions rs)) by by rewrite sort_regions_Permutation.
  assert (Hn' : zlen (sort_regions rs) < 2 ^ 62)
    by (unfold zlen in *; by rewrite sort_regions_Permutation).
  destruct (check_overlap_Ret (sort_regions rs) 1 Hwf') as [[-> Hd]|[[i ->] Hd]];
    cbn [exec_bind]; [left|right; by eauto].
  split; [|done].
  destruct (construct_eytzinger (X := EbpfError) _ Hn') as (addresses & lookup & -> & He).
  cbn [exec_bind]. eexists. split; [done|]. split; [done|].
  split; cbn; try done. apply empty_cache_ok.
Qed.

(** The life of an unaligned mapping: created, searched, and changed by
    [replace_region]. *)
Inductive unaligned_reachable : UnalignedMemoryMapping -> Prop :=
  | reach_new rs config v handler m :
      Forall region_wf rs -> zlen rs < 2 ^ 62 ->
      unaligned_new rs config v handler = Ret m -> unaligned_reachable m
  | reach_find m addr found m' :
      unaligned_reachable m -> unaligned_find_region (X := EbpfError) m addr = Ret (found, m') ->
      unaligned_reachable m'
  | reach_replace m index r m' :
      unaligned_reachable m -> region_wf r -> 0 <= index ->
      replace_region (Unaligned m) index r = Ret (Unaligned m') -> unaligned_reachable m'.

Lemma unaligned_reachable_inv (m : UnalignedMemoryMapping) :
  unaligned_reachable m -> unaligned_inv m.
Proof.
  induction 1 as [rs config v handler m Hwf Hn Hm|m addr found m' _ IH Hf|m index r m' _ IH Hr Hi Hrep].
  - destruct (version_leb v V3) eqn:Hv; [|unfold unaligned_new in Hm; by rewrite Hv in Hm].
    destruct (unaligned_new_cases rs config v handler Hwf Hn Hv)
      as [[(m0 & Hm0 & _ & Hinv) _]|[[i Hm0] _]]; [|congruence].
    rewrite Hm in Hm0. by injection Hm0 as <-.
  - destruct (unaligned_find_region_spec (X := EbpfError) m addr IH) as (c & Hs & Hc).
    rewrite Hf in Hs. injection Hs as _ ->. by apply set_cache_inv.
  - by apply (replace_region_inv m m' index r).
Qed.

(** * Properties *)

(** C5: The search of the unaligned mapping is correct in every state the mapping can
    reach.  After any sequence of searches and region replacements, the cache, the
    Eytzinger arrays and the index table together return exactly the last region
    that starts at or below the address (the region a linear scan of the sorted
    regions finds), without an out-of-bounds access, and the search changes
    nothing but the cache. *)
Theorem unaligned_find_region_correct (m : UnalignedMemoryMapping) (addr : Z) :
  unaligned_reachable m ->
  exists c, unaligned_find_region (X := EbpfError) m addr
    = Ret (region_below m.(u_common).(regions) addr, set_cache m c).
Proof.
  intros Hm%unaligned_reachable_inv.
  destruct (unaligned_find_region_spec (X := EbpfError) m addr Hm) as (c & Hc & _). eauto.
Qed.

Definition region_at (vm len : Z) : MemoryRegion := mkRegion (vm + 0x1000) vm len 63 true None.

Lemma unaligned_find_region_correct_witness :
  exists m c, regions (u_common m) = (fun a => region_at a 10) <$> [10; 20; 30; 40; 50] /\
    unaligned_find_region (X := EbpfError) m 37 = Ret (Some (2, region_at 30 10), set_cache m c).
Proof.
  destruct (unaligned_new ((fun a => region_at a 10) <$> [30; 10; 50; 20; 40]) default_config V3
    default_access_violation_handler) as [m|e|f] eqn:Hm; [|vm_compute in Hm; congruence..].
  assert (Hr : regions (u_common m) = (fun a => region_at a 10) <$> [10; 20; 30; 40; 50]).
  { vm_compute in Hm. injection Hm as <-. vm_compute. reflexivity. }
  destruct (unaligned_find_region_correct m 37) as [c Hc].
  - eapply reach_new; [| |exact Hm].
    + repeat constructor; vm_compute; congruence.
    + vm_compute. reflexivity.
  - exists m, c. split; [exact Hr|]. rewrite Hc, Hr. vm_compute. reflexivity.
Defined.

(** The unaligned constructor accepts a set of regions exactly when, sorted by
    address, none reaches into the next; it then keeps all of them, sorted, and the
    Eytzinger arrays it builds are those of the in-order tree.  Otherwise it returns
    [InvalidMemoryRegion].  It never faults and its recursion ends. *)
Theorem unaligned_new_spec (rs : list MemoryRegion) (config : Config) (v : SBPFVersion)
    (handler : AccessViolationHandler) :
  Forall region_wf rs -> zlen rs < 2 ^ 62 -> version_leb v V3 = true ->
  sort_regions rs ≡ₚ rs /\ sorted_regions (sort_regions rs) /\
  ((exists m, unaligned_new rs config v handler = Ret m /\
     m.(u_common).(regions) = sort_regions rs /\
     eytzinger (sort_regions rs) m.(region_addresses) m.(region_index_lookup)) <->
   regions_disjoint (sort_regions rs)) /\
  ((exists i, unaligned_new rs config v handler = Err (InvalidMemoryRegion i)) <->
   ~ regions_disjoint (sort_regions rs)).
Proof.
  intros Hwf Hn Hv. split; [apply sort_regions_Permutation|]. split; [apply sort_regions_sorted|].
  destruct (unaligned_new_cases rs config v handler Hwf Hn Hv)
    as [[(m & Hm & Hr & Hinv) Hd]|[[i Hm] Hd]]; rewrite Hm.
  - split; (split; [|]); try done; [|by intros [i ?]].
    intros _. exists m. rewrite <-Hr. split_and!; try done. apply Hinv.
  - split; (split; [|]); try done; [by intros (m & ? & _)|by eauto].
Qed.

Lemma unaligned_new_spec_witness :
  (exists i, unaligned_new [region_at 20 10; region_at 15 6] default_config V3
    default_access_violation_handler = Err (InvalidMemoryRegion i)) /\
  ~ regions_disjoint [region_at 15 6; region_at 20 10].
Proof.
  assert (Hn : ~ regions_disjoint [region_at 15 6; region_at 20 10]).
  { intros Hd. specialize (Hd O 1%nat _ _ ltac:(lia) eq_refl eq_refl). vm_compute in Hd. congruence. }
  split; [|exact Hn].
  apply (unaligned_new_spec [region_at 20 10; region_at 15 6] default_config V3
    default_access_violation_handler).
  - repeat constructor; vm_compute; congruence.
  - vm_compute. reflexivity.
  - reflexivity.
  - exact Hn.
Defined.
