(* ===== verification/MappingAccess.v ===== *)
(** Accesses through a memory mapping: the aligned mapping's invariant, what a
    search returns for either mapping, and the safety and effect of loads and
    stores. *)
From stdpp Require Import sorting.
From S2P Require Import Prelude Error Ebpf Program MemoryRegion MemoryMapping MappingSearch.
Open Scope rust_scope.

(** * Invariants *)

(** Region [i] starts in the [i]-th block of 4 GiB. *)
Definition aligned_regions (rs : list MemoryRegion) : Prop :=
  forall (i : nat) r, rs !! i = Some r -> region_wf r /\ region_index r = Z.of_nat i.

Definition mapping_inv (self : MemoryMapping) : Prop :=
  match self with
  | Identity => True
  | Aligned m => zlen m.(a_common).(regions) < 2 ^ 62 /\ aligned_regions m.(a_common).(regions)
  | Unaligned m => unaligned_inv m
  end.

(** The region responsible for an address. *)
Definition found_region (self : MemoryMapping) (addr : Z) : option (Z * MemoryRegion) :=
  match self with
  | Identity => None
  | Aligned m => aligned_find_region m addr
  | Unaligned m => region_below m.(u_common).(regions) addr
  end.

(** Equality up to the cache. *)
Definition mapping_equiv (self self' : MemoryMapping) : Prop :=
  match self, self' with
  | Identity, Identity => True
  | Aligned m, Aligned m' => m = m'
  | Unaligned m, Unaligned m' => exists c, m' = set_cache m c
  | _, _ => False
  end.

#[export] Instance mapping_equiv_equivalence : Equivalence mapping_equiv.
Proof.
  split.
  - intros [|m|m]; simpl; [done..|]. exists (cache m). by destruct m.
  - intros [|m|m] [|m'|m']; simpl; try done. intros [c ->]. exists (cache m). by destruct m.
  - intros [|m|m] [|m'|m'] [|m''|m'']; simpl; try (done || congruence).
    intros [c ->] [c' ->]. by exists c'.
Qed.

#[export] Instance get_regions_proper : Proper (mapping_equiv ==> eq) get_regions.
Proof. intros [|m|m] [|m'|m']; simpl; try done; [by intros ->|by intros [c ->]]. Qed.
#[export] Instance common_of_proper : Proper (mapping_equiv ==> eq) common_of.
Proof. intros [|m|m] [|m'|m']; simpl; try done; [by intros ->|by intros [c ->]]. Qed.
#[export] Instance found_region_proper : Proper (mapping_equiv ==> eq ==> eq) found_region.
Proof.
  intros [|m|m] [|m'|m'] H a ? <-; simpl in *; try done; [by rewrite H|by destruct H as [c ->]].
Qed.

(** The host bytes of a region exist. *)
Definition region_backed (hm : HostMem) (r : MemoryRegion) : Prop :=
  r.(host_addr) + r.(len) < 2 ^ 64 /\ host_mapped hm r.(host_addr) r.(len).

(** What an access violation handler has to respect: it may replace a region and
    add host memory, but only with regions that are backed, and without taking
    host memory away. *)
Class HandlerOk (h : AccessViolationHandler) : Prop := handler_ok hm r max_len ty addr size r' hm' :
  host_ok hm -> region_wf r -> region_backed hm r -> h hm r max_len ty addr size = (r', hm') ->
  host_ok hm' /\ region_wf r' /\ region_backed hm' r' /\ dom hm ⊆ dom hm'.

#[export] Instance default_handler_ok : HandlerOk default_access_violation_handler.
Proof. intros hm r max_len ty addr size r' hm' Hh Hr Hb [= <- <-]. done. Qed.

Record mem_inv (hm : HostMem) (self : MemoryMapping) : Prop := {
  mi_host : host_ok hm;
  mi_mapping : mapping_inv self;
  mi_wf : Forall region_wf (get_regions self);
  mi_backed : Forall (region_backed hm) (get_regions self);
  mi_common : exists common, common_of self = Some common /\ HandlerOk common.(access_violation_handler);
}.

(** * Search *)

Lemma find_region_spec {X} (self : MemoryMapping) (addr : Z) :
  mapping_inv self ->
  exists self', find_region (X := X) self addr = Ret (found_region self addr, self') /\
    mapping_equiv self self' /\ mapping_inv self'.
Proof.
  destruct self as [|m|m]; simpl; intros Hinv; [by eexists..|].
  destruct (unaligned_find_region_spec (X := X) m addr Hinv) as (c & -> & Hc). cbn [exec_bind].
  exists (Unaligned (set_cache m c)). split_and!; [done|by exists c|by apply set_cache_inv].
Qed.

Lemma found_region_lookup (self : MemoryMapping) (addr i : Z) (r : MemoryRegion) :
  in_u 64 addr -> found_region self addr = Some (i, r) ->
  0 <= i /\ get_regions self !! Z.to_nat i = Some r.
Proof.
  intros [Ha _]. destruct self as [|m|m]; simpl; [done| |].
  - unfold aligned_find_region. destruct (_ && _) eqn:Hb; [|done].
    intros (r' & Hr & Heq)%fmap_Some. injection Heq as -> ->. split; [|done].
    unfold wrapping_shr. by apply Z.shiftr_nonneg.
  - unfold region_below. intros (j & Hj & (r' & Hr & [= <- <-])%bind_Some)%bind_Some.
    split; [lia|]. by rewrite Nat2Z.id.
Qed.

(** Replacing a region in place keeps what every search finds, up to that region. *)
Lemma last_such_proper {A} (P Q : A -> bool) (l l' : list A) :
  Forall2 (fun a b => P a = Q b) l l' -> last_such P l = last_such Q l'.
Proof. induction 1 as [|a b l l' Hab _ IH]; simpl; [done|]. by rewrite IH, Hab. Qed.

Lemma found_region_replace (self self' : MemoryMapping) (addr i : Z) (r old : MemoryRegion) :
  in_u 64 addr -> zlen (get_regions self) < 2 ^ 62 -> found_region self addr = Some (i, old) ->
  replace_region self i r = Ret self' -> found_region self' addr = Some (i, r).
Proof.
  intros Ha Hn Hf Hrep. destruct (found_region_lookup _ _ _ _ Ha Hf) as [Hi Hold].
  destruct (replace_region_Ret _ _ _ _ Hi Hn Hrep) as (old' & Hold' & Hv & _ & Hrs).
  assert (old' = old) as -> by congruence.
  assert (Hr : get_regions self' !! Z.to_nat i = Some r)
    by (rewrite Hrs; apply list_lookup_insert_eq; eauto using lookup_lt_Some).
  assert (Hlen : length (get_regions self') = length (get_regions self))
    by by rewrite Hrs, length_insert.
  unfold replace_region in Hrep. destruct (_ <=? i); [done|].
  rewrite (index_slice_lookup _ _ old) in Hrep by done. cbn [exec_bind] in Hrep.
  destruct (_ || _); [done|]. destruct self as [|m|m]; [done| |].
  - unfold aligned_replace_region in Hrep. destruct (_ || _); [done|].
    cbn [get_regions] in Hold. rewrite (index_slice_lookup _ _ old) in Hrep by done.
    cbn [exec_bind] in Hrep. injection Hrep as <-.
    cbn [found_region get_regions] in *. unfold aligned_find_region in *.
    cbn [a_common regions set_regions mm_allow_memory_region_zero] in *.
    replace (zlen (<[_ := _]> _)) with (zlen (regions (a_common m))) by (unfold zlen; congruence).
    destruct (_ && _); [|done]. apply fmap_Some in Hf as (r' & Hr' & Heq).
    injection Heq as -> _. by rewrite Hr.
  - unfold unaligned_replace_region in Hrep. cbn [get_regions] in Hold.
    rewrite (index_slice_lookup _ _ old) in Hrep by done. cbn [exec_bind] in Hrep.
    injection Hrep as <-. cbn [found_region get_regions] in *. unfold region_below in *.
    cbn [u_common regions set_regions] in *.
    rewrite (last_such_proper _ (fun r => r.(vm_addr) <=? addr) _ (regions (u_common m))).
    + destruct (last_such _ _) as [j|]; [|done]. cbn in Hf |- *.
      destruct (regions (u_common m) !! j); [|done]. cbn in Hf. injection Hf as <- _.
      rewrite Nat2Z.id in *. by rewrite Hr.
    + apply Forall2_same_length_lookup_2; [done|]. intros j a b Hj Hb.
      destruct (decide (j = Z.to_nat i)) as [->|]; [simplify_eq; by rewrite Hv|].
      rewrite list_lookup_insert_ne in Hj by done. by simplify_eq.
Qed.

Lemma mapping_small (self : MemoryMapping) : mapping_inv self -> zlen (get_regions self) < 2 ^ 62.
Proof. destruct self as [|m|m]; simpl; [done|by intros []|by intros []]. Qed.

Lemma replace_region_mapping_inv (self self' : MemoryMapping) (i : Z) (r : MemoryRegion) :
  mapping_inv self -> region_wf r -> 0 <= i -> replace_region self i r = Ret self' ->
  mapping_inv self' /\ exists c c', common_of self = Some c /\ common_of self' = Some c' /\
    c'.(access_violation_handler) = c.(access_violation_handler).
Proof.
  intros Hinv Hr Hi Hrep. pose proof (mapping_small self Hinv) as Hn.
  destruct (replace_region_Ret _ _ _ _ Hi Hn Hrep) as (old & Hold & _ & _ & Hrs).
  pose proof Hrep as Hrep'. unfold replace_region in Hrep'. destruct (_ <=? i); [done|].
  rewrite (index_slice_lookup _ _ old) in Hrep' by done. cbn [exec_bind] in Hrep'.
  destruct (_ || _); [done|]. destruct self as [|m|m]; [done| |]; cbn [get_regions] in *.
  - unfold aligned_replace_region in Hrep'.
    destruct (negb (region_index r =? i) || _) eqn:Hb; [done|].
    apply orb_false_iff in Hb as [Hb%negb_false_iff%Z.eqb_eq _].
    rewrite (index_slice_lookup _ _ old) in Hrep' by done. cbn [exec_bind] in Hrep'.
    injection Hrep' as <-. split; [|by eauto].
    destruct Hinv as [_ Hal]. split; cbn [a_common regions set_regions].
    { unfold zlen in *. by rewrite length_insert. }
    intros j r' Hj. destruct (decide (j = Z.to_nat i)) as [->|].
    + rewrite list_lookup_insert_eq in Hj by eauto using lookup_lt_Some. injection Hj as <-.
      split; [done|lia].
    + rewrite list_lookup_insert_ne in Hj by done. by apply Hal.
  - pose proof Hrep' as Hrep''. unfold unaligned_replace_region in Hrep'.
    rewrite (index_slice_lookup _ _ old) in Hrep' by done. cbn [exec_bind] in Hrep'.
    injection Hrep' as <-. split; [|by eauto].
    by apply (replace_region_inv m _ i r).
Qed.

Lemma replace_region_cases (self : MemoryMapping) (i : Z) (r : MemoryRegion) :
  0 <= i -> zlen (get_regions self) < 2 ^ 62 ->
  (exists self', replace_region self i r = Ret self') \/ (exists e, replace_region self i r = Err e).
Proof.
  intros Hi Hn. unfold replace_region. destruct (Z.leb_spec (zlen (get_regions self)) i); [by eauto|].
  destruct (@index_slice_Ret EbpfError _ (get_regions self) i) as (old & Hold & ->); [lia|].
  cbn [exec_bind]. destruct (_ || _); [by eauto|]. destruct self as [|m|m]; [by eauto|..];
    cbn [get_regions] in *; unfold aligned_replace_region, unaligned_replace_region.
  - destruct (_ || _); [by eauto|]. rewrite (index_slice_lookup _ _ old) by done. left. by eexists.
  - rewrite (index_slice_lookup _ _ old) by done. left. by eexists.
Qed.

(** * Accesses *)

Lemma host_mapped_subset (hm hm' : HostMem) (addr n : Z) :
  dom hm ⊆ dom hm' -> host_mapped hm addr n -> host_mapped hm' addr n.
Proof. intros Hd Hm a Ha. apply elem_of_dom, Hd, elem_of_dom, Hm, Ha. Qed.

Lemma region_backed_subset (hm hm' : HostMem) (rs : list MemoryRegion) :
  dom hm ⊆ dom hm' -> Forall (region_backed hm) rs -> Forall (region_backed hm') rs.
Proof.
  intros Hd HF. apply (Forall_impl _ _ _ HF). intros r [H1 H2].
  split; [done|by apply (host_mapped_subset hm)].
Qed.

Lemma mem_inv_equiv (hm : HostMem) (self self' : MemoryMapping) :
  mem_inv hm self -> mapping_equiv self self' -> mapping_inv self' -> mem_inv hm self'.
Proof.
  intros [H1 H2 H3 H4 H5] He H2'. split; [done|done|by rewrite <-He..|].
  by rewrite <-(common_of_proper _ _ He).
Qed.

Lemma mem_inv_host (hm hm' : HostMem) (self : MemoryMapping) :
  mem_inv hm self -> host_ok hm' -> dom hm ⊆ dom hm' -> mem_inv hm' self.
Proof. intros [H1 H2 H3 H4 H5] H1' Hd. split; try done. by apply (region_backed_subset hm). Qed.

(** A translated access lies in the host bytes of one region. *)
Definition translated (self : MemoryMapping) (ty : AccessType) (addr size h : Z) : Prop :=
  exists i r, found_region self addr = Some (i, r) /\ vm_to_host r ty addr size = Some h.

Lemma translated_dec (self : MemoryMapping) (ty : AccessType) (addr size : Z) :
  (exists h, translated self ty addr size h) \/ ~ (exists h, translated self ty addr size h).
Proof.
  destruct (found_region self addr) as [[i r]|] eqn:Hf.
  - destruct (vm_to_host r ty addr size) as [h|] eqn:Hv;
      [left; by exists h, i, r|right; intros (h & j & r' & Hj & Hv'); congruence].
  - right. intros (h & j & r' & Hj & Hv'). congruence.
Qed.

Lemma generate_access_violation_err c ty addr size :
  exists e, generate_access_violation c ty addr size = SErr e.
Proof. unfold generate_access_violation. destruct (_ && _); by eexists. Qed.

Lemma map_spec {X} (hm : HostMem) (self : MemoryMapping) (ty : AccessType) (addr size : Z) :
  mem_inv hm self -> in_u 64 addr ->
  exists res self' hm',
    map_with_access_violation_handler (X := X) hm self ty addr size = Ret (res, self', hm') /\
    mem_inv hm' self' /\ dom hm ⊆ dom hm' /\
    ((exists h, translated self ty addr size h) -> mapping_equiv self self' /\ hm' = hm) /\
    match res with
    | SOk h => translated self' ty addr size h
    | SErr _ => ~ exists h, translated self ty addr size h
    end.
Proof.
  intros Hinv Ha. pose proof Hinv as [Hh Hm Hwf Hb (common & Hc & Hok)].
  unfold map_with_access_violation_handler. rewrite Hc.
  destruct (find_region_spec (X := X) self addr Hm) as (self1 & -> & He & Hm1). cbn [exec_bind].
  assert (Hinv1 : mem_inv hm self1) by by apply (mem_inv_equiv hm self).
  destruct (generate_access_violation_err common ty addr size) as [err Herr].
  destruct (found_region self addr) as [[i r]|] eqn:Hf.
  2: { rewrite Herr. exists (SErr err), self1, hm. split_and!; try done.
       intros (h & j & r & Hj & _). congruence. }
  destruct (found_region_lookup _ _ _ _ Ha Hf) as [Hi Hr].
  destruct (vm_to_host r ty addr size) as [h|] eqn:Hv.
  { exists (SOk h), self1, hm. split_and!; try done. exists i, r. by rewrite <-He. }
  assert (Hno : ~ exists h, translated self ty addr size h).
  { intros (h & j & r' & Hj & Hv'). congruence. }
  pose proof (Forall_lookup_1 _ _ _ _ Hwf Hr) as Hrwf.
  pose proof (Forall_lookup_1 _ _ _ _ Hb Hr) as Hrb.
  destruct (access_violation_handler common hm r _ ty addr size) as [r' hm'] eqn:Hhandler.
  destruct (Hok _ _ _ _ _ _ _ _ Hh Hrwf Hrb Hhandler) as (Hh' & Hr'wf & Hr'b & Hdom).
  assert (Hinv2 : mem_inv hm' self1) by by apply (mem_inv_host hm).
  destruct (vm_to_host r' ty addr size) as [h|] eqn:Hv'.
  2: { rewrite Herr. exists (SErr err), self1, hm'. by split_and!. }
  assert (Hf1 : found_region self1 addr = Some (i, r)) by by rewrite <-He.
  assert (Hr1 : get_regions self1 !! Z.to_nat i = Some r) by by rewrite <-He.
  pose proof (mapping_small _ Hm1) as Hn1.
  destruct (replace_region_cases self1 i r' Hi Hn1) as [(self2 & Hrep)|(e & Hrep)]; rewrite Hrep.
  - exists (SOk h), self2, hm'.
    destruct (replace_region_mapping_inv self1 self2 i r' Hm1 Hr'wf Hi Hrep)
      as (Hm2 & c & c' & Hc1 & Hc2 & Hch).
    destruct (replace_region_Ret _ _ _ _ Hi Hn1 Hrep) as (old & _ & _ & _ & Hrs).
    split_and!; try done.
    + destruct Hinv2 as [_ _ Hwf2 Hb2 _]. split; [done|done|..].
      * rewrite Hrs. by apply Forall_insert.
      * rewrite Hrs. by apply Forall_insert.
      * exists c'. split; [done|]. rewrite Hch. rewrite <-(common_of_proper _ _ He) in Hc1.
        assert (c = common) as -> by congruence. done.
    + exists i, r'. split; [|done]. by apply (found_region_replace self1 self2 addr i r' r).
  - exists (SErr e), self1, hm'. by split_and!.
Qed.

(** A translated access is inside the host memory. *)
Lemma translated_mapped (hm : HostMem) (self : MemoryMapping) (ty : AccessType) (addr size h : Z) :
  mem_inv hm self -> in_u 64 addr -> 0 <= size -> translated self ty addr size h ->
  in_u 64 h /\ host_mapped hm h size /\
  exists r, r ∈ get_regions self /\ (ty = Store -> r.(writable) = true) /\
    r.(host_addr) <= h /\ h + size <= r.(host_addr) + r.(len).
Proof.
  intros [_ _ Hwf Hb _] Ha Hs (i & r & Hf & Hv).
  destruct (found_region_lookup _ _ _ _ Ha Hf) as [_ Hr].
  pose proof (Forall_lookup_1 _ _ _ _ Hwf Hr) as Hrwf.
  destruct (Forall_lookup_1 _ _ _ _ Hb Hr) as [Hlim Hmap].
  apply vm_to_host_Some in Hv as (Hw & Hge & Hg & Hle & ->); [|done..].
  pose proof (dense_offset_nonneg r (addr - r.(vm_addr)) ltac:(apply Hrwf) ltac:(lia)).
  destruct Hrwf as ([Hh _] & _). unfold u64_saturating_add, u64_max.
  rewrite Z.min_l by lia. split; [unfold in_u; lia|]. split.
  - intros a Ha'. apply Hmap. lia.
  - exists r. split; [by eapply list_elem_of_lookup_2|]. split; [done|lia].
Qed.

Lemma load_spec {X} (n : nat) (hm : HostMem) (self : MemoryMapping) (addr : Z) :
  mem_inv hm self -> in_u 64 addr ->
  exists res self' hm', load (X := X) n hm self addr = Ret (res, self', hm') /\
    mem_inv hm' self' /\ dom hm ⊆ dom hm' /\
    ((exists h, translated self Load addr (Z.of_nat n) h) -> mapping_equiv self self' /\ hm' = hm) /\
    match res with
    | SOk v => in_u (8 * Z.of_nat n) v /\
        exists h, translated self' Load addr (Z.of_nat n) h /\ host_read hm' h n = Some v
    | SErr _ => ~ exists h, translated self Load addr (Z.of_nat n) h
    end.
Proof.
  intros Hinv Ha. unfold load.
  destruct (map_spec (X := X) hm self Load addr (Z.of_nat n) Hinv Ha)
    as (res & self' & hm' & -> & Hinv' & Hdom & Heq & Hres). cbn [exec_bind].
  destruct res as [h|e]; [|by exists (SErr e), self', hm'].
  destruct (translated_mapped hm' self' Load addr (Z.of_nat n) h Hinv' Ha ltac:(lia) Hres)
    as (_ & Hmap & _).
  destruct (host_read_mapped hm' h n (mi_host _ _ Hinv') Hmap) as (v & Hv & Hvr).
  rewrite Hv. cbn [expect exec_bind]. exists (SOk v), self', hm'. split_and!; eauto; apply Heq; done.
Qed.

Lemma store_spec {X} (n : nat) (hm : HostMem) (self : MemoryMapping) (value addr : Z) :
  mem_inv hm self -> in_u 64 addr ->
  exists res self' hm', store (X := X) n hm self value addr = Ret (res, self', hm') /\
    mem_inv hm' self' /\ dom hm ⊆ dom hm' /\
    match res with
    | SOk h => in_u 64 h /\ translated self' Store addr (Z.of_nat n) h /\
        exists hm0, host_mapped hm0 h (Z.of_nat n) /\ host_write hm0 h n value = Some hm' /\
          ((exists h, translated self Store addr (Z.of_nat n) h) -> mapping_equiv self self' /\ hm0 = hm)
    | SErr _ => ~ exists h, translated self Store addr (Z.of_nat n) h
    end.
Proof.
  intros Hinv Ha. unfold store.
  destruct (map_spec (X := X) hm self Store addr (Z.of_nat n) Hinv Ha)
    as (res & self' & hm0 & -> & Hinv' & Hdom & Heq & Hres). cbn [exec_bind].
  destruct res as [h|e]; [|by exists (SErr e), self', hm0].
  destruct (translated_mapped hm0 self' Store addr (Z.of_nat n) h Hinv' Ha ltac:(lia) Hres)
    as (Hh & Hmap & _).
  destruct (host_write_spec hm0 h n value Hmap) as (hm' & Hw & _). rewrite Hw.
  destruct (host_write_ok hm0 hm' h n value (mi_host _ _ Hinv') Hmap Hw) as [Hok Hd].
  cbn [expect exec_bind]. exists (SOk h), self', hm'. split_and!; [done| |by rewrite Hd| |done|].
  - apply (mem_inv_host hm0); [done|done|by rewrite Hd].
  - done.
  - exists hm0. split_and!; [done..|]. apply Heq.
Qed.

(** With the default handler an access that no region translates is a violation
    and changes nothing but the cache. *)
Lemma map_default_spec {X} (hm : HostMem) (self : MemoryMapping) (common : CommonMemoryMapping)
    (ty : AccessType) (addr size : Z) :
  mem_inv hm self -> in_u 64 addr -> common_of self = Some common ->
  common.(access_violation_handler) = default_access_violation_handler ->
  ~ (exists h, translated self ty addr size h) ->
  exists self', mapping_equiv self self' /\
    map_with_access_violation_handler (X := X) hm self ty addr size
    = Ret (generate_access_violation common ty addr size, self', hm).
Proof.
  intros [_ Hm _ _ _] Ha Hc Hd Hno. unfold map_with_access_violation_handler. rewrite Hc.
  destruct (find_region_spec (X := X) self addr Hm) as (self1 & -> & He & Hm1). cbn [exec_bind].
  exists self1. split; [done|].
  destruct (found_region self addr) as [[i r]|] eqn:Hf; [|done].
  destruct (vm_to_host r ty addr size) as [h|] eqn:Hv; [destruct Hno; by exists h, i, r|].
  rewrite Hd. unfold default_access_violation_handler. by rewrite Hv.
Qed.

(** ** The aligned constructor *)

Lemma region_index_eq (r : MemoryRegion) : region_index r = r.(vm_addr) / 2 ^ 32.
Proof. unfold region_index, u64_checked_shr. simpl. by rewrite Z.shiftr_div_pow2. Qed.

Lemma region_index_range (r : MemoryRegion) : region_wf r -> 0 <= region_index r < 2 ^ 32.
Proof.
  intros (_ & [H0 H1] & _). rewrite region_index_eq. split; [apply Z.div_pos; lia|].
  apply Z.div_lt_upper_bound; lia.
Qed.

Lemma sorted_regions_index (rs : list MemoryRegion) :
  sorted_regions rs -> StronglySorted (fun r1 r2 => region_index r1 <= region_index r2) rs.
Proof.
  unfold sorted_regions. induction 1 as [|r rs Hs IH HF]; constructor; [done|].
  apply (Forall_impl _ _ _ HF). intros r' Hr'. rewrite !region_index_eq.
  apply Z.div_le_mono; lia.
Qed.

Definition hole (empty_ptr i : Z) : MemoryRegion :=
  mkRegion empty_ptr (i * 2 ^ 32) 0 63 false None.

Lemma aligned_regions_snoc (rs : list MemoryRegion) (r : MemoryRegion) :
  aligned_regions rs -> region_wf r -> region_index r = zlen rs -> aligned_regions (rs ++ [r]).
Proof.
  intros Hal Hr Hi i r' Hl. apply lookup_app_Some in Hl as [Hl|[Hle Hl]]; [by apply Hal|].
  apply list_lookup_singleton_Some in Hl as [Hz <-]. split; [done|]. unfold zlen in Hi. lia.
Qed.

Lemma hole_wf (empty_ptr i : Z) : in_u 64 empty_ptr -> 0 <= i < 2 ^ 32 ->
  region_wf (hole empty_ptr i) /\ region_index (hole empty_ptr i) = i.
Proof.
  intros Hp Hi. rewrite region_index_eq. unfold region_wf, in_u in *. simpl.
  split; [lia|]. by apply Z.div_mul.
Qed.

Lemma new_hole {E} (empty_ptr i : Z) : 0 <= i < 2 ^ 32 ->
  new_readonly (E := E) empty_ptr 0 (u64_saturating_mul i MM_REGION_SIZE) = Ret (hole empty_ptr i).
Proof.
  intros Hi. unfold new_readonly, region_new, hole. simpl.
  unfold u64_saturating_mul, u64_max. change MM_REGION_SIZE with (2 ^ 32).
  by rewrite Z.min_l by lia.
Qed.

Lemma StronglySorted_lt_cons (a b : Z) (l : list Z) :
  StronglySorted Z.lt (b :: l) -> a < b -> StronglySorted Z.lt (a :: b :: l).
Proof.
  intros HS Hab. constructor; [done|]. apply StronglySorted_inv in HS as [_ HF].
  constructor; [done|]. apply (Forall_impl _ _ _ HF). lia.
Qed.

Section Fill.
Context (empty_ptr : Z) (Hptr : in_u 64 empty_ptr).

(** What filling the holes behind [done] gives. *)
Definition filled_regions (old rs : list MemoryRegion) : Prop :=
  aligned_regions rs /\ (forall r, r ∈ old -> r ∈ rs) /\
  (forall r, r ∈ rs -> r ∈ old \/ r.(len) = 0 /\ r.(writable) = false).

Lemma fill_regions_spec (fuel : nat) (M : Z) (done rest : list MemoryRegion) :
  let expected := zlen done in
  M < 2 ^ 32 -> zlen rest + Z.max 0 (M - expected) < Z.of_nat fuel ->
  Forall (fun r => region_index r <= M) rest ->
  aligned_regions done -> Forall region_wf rest ->
  StronglySorted (fun r1 r2 => region_index r1 <= region_index r2) rest ->
  (exists rs, fill_regions fuel empty_ptr expected done rest = Ret rs /\
     filled_regions (done ++ rest) rs) /\
     StronglySorted Z.lt (expected - 1 :: (region_index <$> rest)) \/
  (exists i, fill_regions fuel empty_ptr expected done rest = Err (InvalidMemoryRegion i)) /\
     ~ StronglySorted Z.lt (expected - 1 :: (region_index <$> rest)).
Proof.
  revert done rest. induction fuel as [|fuel IH]; intros done rest expected HM Hf HMs Hal Hwf Hs.
  { unfold zlen in Hf. lia. }
  cbn [fill_regions]. destruct rest as [|r rest].
  { left. split; [|by repeat constructor]. exists done. split; [done|]. rewrite app_nil_r.
    by split_and!; auto. }
  apply Forall_cons in HMs as [HMr HMs], Hwf as [Hr Hwf].
  apply StronglySorted_inv in Hs as [Hs HF].
  pose proof (region_index_range r Hr) as Hi.
  assert (Hz : forall r', zlen (done ++ [r']) = expected + 1)
    by (intros; unfold expected, zlen; rewrite length_app; simpl; lia).
  assert (He : 0 <= expected) by (unfold expected, zlen; lia).
  assert (Hc : zlen (r :: rest) = zlen rest + 1) by (unfold zlen; simpl; lia).
  rewrite fmap_cons. rewrite Hc in Hf.
  destruct (Z.ltb_spec expected (region_index r)) as [Hlt|Hge].
  - rewrite new_hole by lia. cbn [exec_bind]. rewrite u64_saturating_add_small by lia.
    destruct (hole_wf empty_ptr expected Hptr ltac:(lia)) as [Hhw Hhi].
    specialize (IH (done ++ [hole empty_ptr expected]) (r :: rest)). cbv zeta in IH.
    rewrite Hz, <-app_assoc in IH.
    destruct IH as [[(rs & Hrs & Hin & Hfrom & Hto) HS]|[Herr HS]]; try done.
    + rewrite Hc. lia.
    + by constructor.
    + by apply aligned_regions_snoc.
    + by constructor.
    + by constructor.
    + left. split.
      * exists rs. split; [done|]. split; [done|]. split.
        -- intros r' Hr'. apply Hfrom.
           rewrite elem_of_app in Hr' |- *. rewrite elem_of_app. tauto.
        -- intros r' Hr'. destruct (Hto r' Hr') as [Hd|?]; [|by right].
           rewrite !elem_of_app, list_elem_of_singleton in Hd. rewrite elem_of_app.
           destruct Hd as [?|[->|?]]; auto.
      * apply StronglySorted_inv in HS as [HS _]. apply StronglySorted_lt_cons; [done|lia].
    + right. split; [done|]. intros [HS' _]%StronglySorted_inv. apply HS.
      rewrite fmap_cons. apply StronglySorted_lt_cons; [done|lia].
  - destruct (Z.ltb_spec (region_index r) expected) as [Hlt|Hge'].
    + right. split; [by eauto|]. intros [_ HF']%StronglySorted_inv.
      apply Forall_inv in HF'. lia.
    + assert (region_index r = expected) as Hri by lia.
      rewrite u64_saturating_add_small by lia.
      specialize (IH (done ++ [r]) rest). cbv zeta in IH. rewrite Hz, <-app_assoc in IH.
      replace (expected + 1 - 1) with expected in IH by lia. rewrite Hri.
      destruct IH as [[(rs & Hrs & Hin) HS]|[Herr HS]]; try done; [lia|by apply aligned_regions_snoc|..].
      * left. split; [by exists rs|]. apply StronglySorted_lt_cons; [done|lia].
      * right. split; [done|]. by intros [HS' _]%StronglySorted_inv.
Qed.

Lemma strict_NoDup (l : list Z) : StronglySorted Z.le l -> StronglySorted Z.lt l <-> NoDup l.
Proof.
  induction 1 as [|a l Hs IH HF]; [split; constructor|]. split.
  - intros [HS HF']%StronglySorted_inv. constructor; [|by apply IH].
    intros Hin. rewrite Forall_forall in HF'. specialize (HF' a Hin). lia.
  - intros [Hn HN]%NoDup_cons. constructor; [by apply IH|].
    rewrite Forall_forall in HF |- *. intros b Hb. specialize (HF b Hb).
    assert (a <> b) by congruence. lia.
Qed.

Lemma region_index_max (rs : list MemoryRegion) :
  Forall region_wf rs ->
  0 <= foldr Z.max 0 (region_index <$> rs) < 2 ^ 32 /\
  Forall (fun r => region_index r <= foldr Z.max 0 (region_index <$> rs)) rs.
Proof.
  induction 1 as [|r rs Hr _ [IH1 IH2]]; csimpl; [split; [lia|constructor]|].
  pose proof (region_index_range r Hr). split; [lia|]. constructor; [lia|].
  apply (Forall_impl _ _ _ IH2). lia.
Qed.

Lemma fill_sorted (rs : list MemoryRegion) :
  Forall region_wf rs ->
  let rs' := sort_regions rs in
  (exists l, fill_regions (fill_fuel rs') empty_ptr 0 [] rs' = Ret l /\ filled_regions rs l) /\
     NoDup (region_index <$> rs) \/
  (exists i, fill_regions (fill_fuel rs') empty_ptr 0 [] rs' = Err (InvalidMemoryRegion i)) /\
     ~ NoDup (region_index <$> rs).
Proof.
  intros Hwf rs'. pose proof (sort_regions_Permutation rs) as HP. fold rs' in HP.
  assert (Hwf' : Forall region_wf rs') by by rewrite HP.
  destruct (region_index_max rs' Hwf') as [HM HMs].
  pose proof (sorted_regions_index rs' (sort_regions_sorted rs)) as Hs.
  assert (HN : NoDup (region_index <$> rs) <-> StronglySorted Z.lt (-1 :: (region_index <$> rs'))).
  { rewrite <-HP, <-strict_NoDup.
    - split; [|by intros []%StronglySorted_inv]. intros HS. constructor; [done|].
      apply Forall_fmap. apply (Forall_impl _ _ _ Hwf'). intros r Hr%region_index_range. simpl. lia.
    - clear -Hs. induction Hs as [|r l HS IH HF]; csimpl; constructor; [done|].
      by apply Forall_fmap. }
  rewrite HN.
  destruct (fill_regions_spec (fill_fuel rs') (foldr Z.max 0 (region_index <$> rs')) [] rs')
    as [[(l & Hl & Ha & H1 & H2) HS]|[He HS]]; try done; [lia|unfold fill_fuel, zlen; cbn [length]; lia|..].
  - left. split; [|done]. exists l. split; [exact Hl|]. split; [exact Ha|].
    rewrite app_nil_l in *. split; [intros r Hr; apply H1; by rewrite HP|].
    intros r Hr. destruct (H2 r Hr) as [Hin|?]; [left; by rewrite <-HP|by right].
  - right. done.
Qed.
End Fill.

Lemma aligned_find_region_aligned (m : AlignedMemoryMapping) (r : MemoryRegion) (addr : Z) :
  aligned_regions m.(a_common).(regions) -> m.(a_common).(mm_allow_memory_region_zero) = true ->
  r ∈ m.(a_common).(regions) -> in_u 64 addr -> addr / 2 ^ 32 = region_index r ->
  aligned_find_region m addr = Some (region_index r, r).
Proof.
  intros Hal Hz Hr [Ha _] Hi. apply list_elem_of_lookup in Hr as [i Hr].
  destruct (Hal i r Hr) as [Hwf Hri]. unfold aligned_find_region, wrapping_shr.
  change (VIRTUAL_ADDRESS_BITS mod 64) with 32. rewrite Z.shiftr_div_pow2, Hi, Hz, orb_true_r by lia.
  apply lookup_lt_Some in Hr as Hlt. unfold zlen.
  rewrite Hri, (proj2 (Z.ltb_lt _ _)), Nat2Z.id, Hr by lia. reflexivity.
Qed.

(** * Properties *)

(** The aligned constructor (with region zero allowed) accepts a set of regions
    exactly when no two of them start in the same 4 GiB block.  The mapping then
    holds all of them, region [i] starting in block [i], every other block filled
    with an empty read-only region, and a search by the upper half of an address
    finds the region that starts in its block.  Otherwise it returns
    [InvalidMemoryRegion].  The filling loop ends and never faults. *)
Theorem aligned_new_spec (empty_ptr : Z) (rs : list MemoryRegion) (config : Config)
    (v : SBPFVersion) (handler : AccessViolationHandler) :
  in_u 64 empty_ptr -> Forall region_wf rs -> config.(allow_memory_region_zero) = true ->
  (NoDup (region_index <$> rs) ->
     exists m, aligned_new empty_ptr rs config v handler = Ret m /\
       filled_regions rs m.(a_common).(regions) /\
       forall r addr, r ∈ rs -> in_u 64 addr -> addr / 2 ^ 32 = region_index r ->
         aligned_find_region m addr = Some (region_index r, r)) /\
  (~ NoDup (region_index <$> rs) ->
     exists i, aligned_new empty_ptr rs config v handler = Err (InvalidMemoryRegion i)).
Proof.
  intros Hp Hwf Hz. unfold aligned_new. rewrite Hz. cbv zeta.
  destruct (fill_sorted empty_ptr Hp rs Hwf) as [[(l & Hl & Hf) HN]|[[i Hi] HN]]; cbv zeta in *.
  - rewrite Hl. cbn [exec_bind]. split; [|done]. intros _. eexists. split; [done|].
    split; [done|]. intros r addr Hr Ha Hidx.
    apply aligned_find_region_aligned; [apply Hf|done| |done|done]. by apply Hf.
  - rewrite Hi. cbn [exec_bind]. split; [done|by eauto].
Qed.

Lemma aligned_new_spec_witness :
  exists m, aligned_new 0x77 [mkRegion 0x9000 0x300000010 16 63 true None;
      mkRegion 0x8000 0x100000000 64 63 false None] default_config V4
      default_access_violation_handler = Ret m /\
    aligned_find_region m 0x300000018 = Some (3, mkRegion 0x9000 0x300000010 16 63 true None).
Proof.
  destruct (aligned_new_spec 0x77 [mkRegion 0x9000 0x300000010 16 63 true None;
      mkRegion 0x8000 0x100000000 64 63 false None] default_config V4
      default_access_violation_handler) as [H _].
  - split; vm_compute; congruence.
  - repeat constructor; vm_compute; congruence.
  - reflexivity.
  - destruct H as (m & Hm & _ & Hf).
    + apply (bool_decide_unpack _). vm_compute. exact I.
    + exists m. split; [exact Hm|].
      apply (Hf (mkRegion 0x9000 0x300000010 16 63 true None)).
      * left.
      * split; vm_compute; congruence.
      * vm_compute. reflexivity.
Defined.

(** C16: A load that follows a store of the same width to the same address returns the
    stored value, cut to the width, whatever mapping is used, whatever state its
    cache is in, and even when the store went through an access violation handler
    that moved or grew the region; the load changes no memory. *)
Theorem store_load_roundtrip (n : nat) (hm hm' : HostMem) (self self' : MemoryMapping)
    (value addr h : Z) :
  mem_inv hm self -> in_u 64 addr ->
  store (X := EbpfError) n hm self value addr = Ret (SOk h, self', hm') ->
  exists self'', load (X := EbpfError) n hm' self' addr
    = Ret (SOk (uwrap (8 * Z.of_nat n) value), self'', hm').
Proof.
  intros Hinv Ha Hst.
  destruct (store_spec (X := EbpfError) n hm self value addr Hinv Ha)
    as (res & s1 & m1 & Hst' & Hinv' & _ & Hres).
  rewrite Hst in Hst'. injection Hst' as <- <- <-.
  destruct Hres as (Hh & (i & r & Hf & Hv) & hm0 & Hmap & Hw & _).
  destruct (load_spec (X := EbpfError) n hm' self' addr Hinv' Ha)
    as (res & s2 & m2 & Hl & _ & _ & Heq & Hres).
  assert (Ht : translated self' Load addr (Z.of_nat n) h).
  { exists i, r. split; [done|]. destruct (found_region_lookup _ _ _ _ Ha Hf) as [_ Hr].
    pose proof (Forall_lookup_1 _ _ _ _ (mi_wf _ _ Hinv') Hr) as Hrwf.
    apply vm_to_host_Some in Hv; [|done|done|lia]. apply vm_to_host_Some; [done|done|lia|].
    destruct Hv as (_ & ? & ? & ? & ?). by split_and!. }
  destruct (Heq (ex_intro _ h Ht)) as [He ->].
  destruct res as [v|e]; [|by destruct Hres; exists h].
  destruct Hres as (_ & h' & (i' & r' & Hf' & Hv') & Hread).
  rewrite <-He, Hf in Hf'. injection Hf' as <- <-.
  destruct Ht as (i' & r' & Hf' & Hv''). rewrite Hf in Hf'. injection Hf' as <- <-.
  assert (h' = h) as -> by congruence.
  rewrite (host_read_write hm0 hm' h n value Hmap Hw) in Hread. injection Hread as <-. eauto.
Qed.

Definition zero_memory (addr : Z) (n : nat) : HostMem :=
  list_to_map ((fun a => (a, 0)) <$> seqZ addr (Z.of_nat n)).

Definition example_mapping : MemoryMapping :=
  Aligned {| a_common := {| regions := [mkRegion 0x77 0 0 63 false None;
               mkRegion 0x1000 0x100000000 16 63 true None];
             access_violation_handler := default_access_violation_handler;
             mm_allow_memory_region_zero := true; mm_max_call_depth := 64;
             mm_stack_frame_size := 4096; mm_sbpf_version := V4 |} |}.

Lemma zero_memory_mapped (addr n : Z) (k : nat) :
  n <= Z.of_nat k -> host_mapped (zero_memory addr k) addr n.
Proof.
  intros Hn a Ha. exists 0. unfold zero_memory. apply elem_of_list_to_map_1.
  - rewrite <-list_fmap_compose. simpl. rewrite (list_fmap_id (seqZ _ _)). apply NoDup_seqZ.
  - apply list_elem_of_fmap. exists a. split; [done|]. apply elem_of_seqZ. lia.
Qed.

Lemma example_mem_inv : mem_inv (zero_memory 0x1000 16) example_mapping.
Proof.
  assert (Hwf : Forall region_wf (get_regions example_mapping))
    by (repeat constructor; vm_compute; congruence).
  split; [|split|done| |].
  - intros a b Hb. apply elem_of_list_to_map_2, list_elem_of_fmap in Hb as (? & [= -> ->] & _).
    split; vm_compute; congruence.
  - done.
  - intros i r Hr. split; [by apply (Forall_lookup_1 _ _ _ _ Hwf Hr)|].
    destruct i as [|[|i]]; [injection Hr as <-; reflexivity..|done].
  - repeat constructor; try (vm_compute; reflexivity).
    + intros a Ha. simpl in Ha. lia.
    + apply zero_memory_mapped. done.
  - eexists. split; [done|]. apply default_handler_ok.
Qed.

Lemma store_load_roundtrip_witness : exists self' self'' hm',
  store (X := EbpfError) 4 (zero_memory 0x1000 16) example_mapping 0x1122334455 0x100000008
    = Ret (SOk 0x1008, self', hm') /\
  load (X := EbpfError) 4 hm' self' 0x100000008 = Ret (SOk 0x22334455, self'', hm').
Proof.
  destruct (store (X := EbpfError) 4 (zero_memory 0x1000 16) example_mapping 0x1122334455 0x100000008)
    as [[[res self'] hm']|e|f] eqn:Hst; [|exfalso; vm_compute in Hst; congruence..].
  assert (res = SOk 0x1008) as -> by (vm_compute in Hst; congruence).
  destruct (store_load_roundtrip 4 (zero_memory 0x1000 16) hm' example_mapping self'
    0x1122334455 0x100000008 0x1008) as [self'' H].
  - exact example_mem_inv.
  - split; vm_compute; congruence.
  - exact Hst.
  - exists self', self'', hm'. split; [reflexivity|exact H].
Defined.

(** The region of an address: of an aligned mapping the one with the number of the address's
    block of 4 GiB, of an unaligned one the last that starts at or below the address. *)
Definition responsible (self : MemoryMapping) (addr : Z) (r : MemoryRegion) : Prop :=
  match self with
  | Identity => False
  | Aligned m => m.(a_common).(regions) !! Z.to_nat (addr / 2 ^ 32) = Some r /\
      (0 < addr / 2 ^ 32 \/ m.(a_common).(mm_allow_memory_region_zero) = true)
  | Unaligned m => exists i, m.(u_common).(regions) !! i = Some r /\ r.(vm_addr) <= addr /\
      forall j r', (i < j)%nat -> m.(u_common).(regions) !! j = Some r' -> addr < r'.(vm_addr)
  end.

(** The region of an address lets an access through, to host address [h]: the region's plus the
    offset of the address, counted without gaps. *)
Definition grants (self : MemoryMapping) (ty : AccessType) (addr size : Z) (r : MemoryRegion) (h : Z) : Prop :=
  responsible self addr r /\ (ty = Store -> r.(writable) = true) /\ r.(vm_addr) <= addr /\
  ~ in_gap r (addr - r.(vm_addr)) /\ dense_offset r (addr - r.(vm_addr)) + size <= r.(len) /\
  h = r.(host_addr) + dense_offset r (addr - r.(vm_addr)).

Lemma found_responsible (self : MemoryMapping) (addr : Z) (r : MemoryRegion) : in_u 64 addr ->
  (exists i, found_region self addr = Some (i, r)) <-> responsible self addr r.
Proof.
  intros Ha. destruct self as [|m|m]; cbn [found_region responsible].
  - split; [by intros []|done].
  - unfold aligned_find_region. change (wrapping_shr 64 addr VIRTUAL_ADDRESS_BITS) with (Z.shiftr addr 32). rewrite Z.shiftr_div_pow2 by done.
    pose proof (Z.div_pos addr (2 ^ 32) ltac:(apply Ha) ltac:(done)). split.
    + intros [i Hi]. destruct (_ && _) eqn:Hb; [|done]. apply fmap_Some in Hi as (r' & Hr & [= -> <-]).
      split; [done|]. destruct (mm_allow_memory_region_zero _); [by right|left; lia].
    + intros [Hr Hz]. exists (addr / 2 ^ 32). rewrite Hr. apply lookup_lt_Some in Hr. unfold zlen.
      rewrite (proj2 (Z.ltb_lt _ _)) by lia. destruct Hz as [Hz | ->]; [by rewrite (proj2 (Z.ltb_lt _ _) Hz)|by rewrite orb_true_r].
  - unfold region_below. split.
    + intros (i & (j & (Hj & Hlast)%last_such_Some & (r' & Hr & [= <- <-])%bind_Some)%bind_Some).
      destruct Hj as (r2 & Hr2 & Hle%Z.leb_le). simplify_eq. exists j. split_and!; [done..|].
      intros k r3 Hk Hr3. specialize (Hlast k r3 Hk Hr3). lia.
    + intros (i & Hr & Hle & Hlast). exists (Z.of_nat i). rewrite (proj2 (last_such_Some _ _ i)); [cbn; by rewrite Hr|].
      split; [exists r; split; [done|lia]|]. intros k r3 Hk Hr3. specialize (Hlast k r3 Hk Hr3). lia.
Qed.

Lemma translated_grants (hm : HostMem) (self : MemoryMapping) (ty : AccessType) (addr size h : Z) :
  mem_inv hm self -> in_u 64 addr -> 0 <= size -> translated self ty addr size h <-> exists r, grants self ty addr size r h.
Proof.
  intros [_ _ Hwf Hb _] Ha Hs.
  assert (Hr : forall i r, found_region self addr = Some (i, r) -> r.(vm_addr) <= addr -> dense_offset r (addr - r.(vm_addr)) + size <= r.(len) ->
    region_wf r /\ u64_saturating_add r.(host_addr) (dense_offset r (addr - r.(vm_addr))) = r.(host_addr) + dense_offset r (addr - r.(vm_addr))).
  { intros i r Hf Hge Hle. destruct (found_region_lookup _ _ _ _ Ha Hf) as [_ Hl]. pose proof (Forall_lookup_1 _ _ _ _ Hwf Hl) as Hrwf.
    destruct (Forall_lookup_1 _ _ _ _ Hb Hl) as [Hlim _]. split; [done|]. unfold u64_saturating_add, u64_max. lia. }
  split.
  - intros (i & r & Hf & Hv). exists r. assert (Hw : region_wf r) by (destruct (found_region_lookup _ _ _ _ Ha Hf) as [_ Hl]; by apply (Forall_lookup_1 _ _ _ _ Hwf Hl)).
    apply vm_to_host_Some in Hv as (Hst & Hge & Hg & Hle & ->); [|done..]. split; [apply found_responsible; eauto|]. destruct (Hr i r Hf Hge Hle) as [_ ->]. done.
  - intros (r & [i Hf]%found_responsible & Hst & Hge & Hg & Hle & ->); [|done]. exists i, r. split; [done|].
    destruct (Hr i r Hf Hge Hle) as [Hw <-]. by apply vm_to_host_Some.
Qed.

(** C15: Memory protection.  With the default access violation handler, a store through a mapping
    (not the identity) of backed regions always returns.  If the region of the address is writable,
    starts at or below the address, the first byte is not in a gap of it, and the access, counted
    without gaps, ends inside the region, then the host bytes from the region's host address plus
    the offset of the address without gaps change to the bytes of the value, and no other.
    Otherwise the result is the access violation error and no memory changes.  Either way the
    mapping is kept but for its cache. *)
Theorem store_protection (n : nat) (hm : HostMem) (self : MemoryMapping)
    (common : CommonMemoryMapping) (value addr : Z) :
  mem_inv hm self -> in_u 64 addr -> common_of self = Some common ->
  common.(access_violation_handler) = default_access_violation_handler ->
  (exists h r self' hm', grants self Store addr (Z.of_nat n) r h /\
     r.(host_addr) <= h /\ h + Z.of_nat n <= r.(host_addr) + r.(len) /\
     store (X := EbpfError) n hm self value addr = Ret (SOk h, self', hm') /\ mapping_equiv self self' /\
     forall a, hm' !! a = if decide (h <= a < h + Z.of_nat n)
                          then le_bytes n value !! Z.to_nat (a - h) else hm !! a) \/
  (~ (exists r h, grants self Store addr (Z.of_nat n) r h) /\
   exists self', store (X := EbpfError) n hm self value addr
     = Ret (generate_access_violation common Store addr (Z.of_nat n), self', hm) /\ mapping_equiv self self').
Proof.
  intros Hinv Ha Hc Hd.
  destruct (store_spec (X := EbpfError) n hm self value addr Hinv Ha)
    as (res & self' & hm' & Hst & Hinv' & _ & Hres).
  destruct (translated_dec self Store addr (Z.of_nat n)) as [Hyes|Hno].
  - left. destruct res as [h|e]; [|done].
    destruct Hres as (_ & Ht & hm0 & Hmap & Hw & Heq). destruct (Heq Hyes) as [He ->].
    assert (Ht0 : translated self Store addr (Z.of_nat n) h) by (destruct Ht as (i & r & Hf & Hv); exists i, r; by rewrite He).
    apply (translated_grants hm) in Ht0 as [r Hr]; [|done..|lia].
    destruct (host_write_spec hm h n value Hmap) as (hm2 & Hw2 & Hl).
    rewrite Hw in Hw2. injection Hw2 as <-.
    exists h, r, self', hm'. destruct Hr as (Hresp & Hwr & Hge & Hg & Hle & ->).
    assert (0 <= dense_offset r (addr - r.(vm_addr))).
    { apply found_responsible in Hresp as [i [_ Hlk]%found_region_lookup]; [|done..].
      pose proof (Forall_lookup_1 _ _ _ _ (mi_wf _ _ Hinv) Hlk) as Hrwf. apply dense_offset_nonneg; [apply Hrwf|lia]. }
    split; [by split_and!|]. split_and!; [lia..|done|done|done].
  - right. split; [intros (r & h & Hg); apply Hno; exists h; apply (translated_grants hm); [done..|lia|by exists r]|].
    destruct (map_default_spec (X := EbpfError) hm self common Store addr (Z.of_nat n) Hinv Ha Hc Hd Hno)
      as (self1 & He & Hmap).
    exists self1. split; [|done]. unfold store. rewrite Hmap. cbn [exec_bind].
    by destruct (generate_access_violation_err common Store addr (Z.of_nat n)) as [e ->].
Qed.

Lemma store_protection_witness :
  exists common self', common_of example_mapping = Some common /\
  store (X := EbpfError) 8 (zero_memory 0x1000 16) example_mapping 7 0x10000000c
    = Ret (generate_access_violation common Store 0x10000000c 8, self', zero_memory 0x1000 16).
Proof.
  destruct (common_of example_mapping) as [common|] eqn:Hc; [|discriminate Hc].
  destruct (store_protection 8 (zero_memory 0x1000 16) example_mapping common 7 0x10000000c)
    as [(h & r & s & m & _ & _ & _ & Hst & _)|[_ (self' & Hst & _)]].
  - exact example_mem_inv.
  - split; vm_compute; congruence.
  - exact Hc.
  - injection Hc as <-. reflexivity.
  - exfalso. vm_compute in Hst. congruence.
  - exists common, self'. split; [reflexivity|exact Hst].
Defined.
