(* ===== verification/AlignedMemory.v ===== *)
(** Aligned memory (src/aligned_memory.rs): a byte buffer that starts at an aligned
    address inside of a [Vec], grows by appending up to a maximum length and never
    reallocates.  The [Vec] is modelled with its address and the cells of its whole
    capacity, so that uninitialised bytes and reallocations are visible. *)
From Stdlib Require Import String.
From S2P Require Import Prelude.
Open Scope rust_scope.
Open Scope list_scope.

(** * The allocator behind [Vec] *)

(** Where the allocator places a new buffer, which capacity it grants, and the same
    for a buffer that has to grow. *)
Class Allocator := {
  vec_cap : Z -> Z;
  vec_addr : Z -> Z;
  grown_cap : Z -> Z -> Z;
  grown_addr : Z -> Z -> Z -> Z;
  vec_cap_law n : 0 <= n <= i64_max -> n <= vec_cap n <= i64_max;
  grown_cap_law c n : 0 <= n <= i64_max -> n <= grown_cap c n <= i64_max
}.

(** * [Vec<u8>] *)

(** One cell per byte of the capacity, [None] when it was never written. *)
Record VecU8 := mkVec { vec_ptr : Z; vec_buf : list (option Z); vec_len : Z }.

Definition capacity (v : VecU8) : Z := zlen v.(vec_buf).

Section Vec.
Context `{Al : Allocator} {E : Type}.

Definition vec_with_capacity (n : Z) : Exec E VecU8 :=
  if i64_max <? n then Panic CapacityOverflow
  else Ret (mkVec (vec_addr n) (replicate (Z.to_nat (vec_cap n)) None) 0).

(** [vec![0; n]] *)
Definition vec_zeroed (n : Z) : Exec E VecU8 :=
  if i64_max <? n then Panic CapacityOverflow
  else Ret (mkVec (vec_addr n)
              (replicate (Z.to_nat n) (Some 0) ++ replicate (Z.to_nat (vec_cap n - n)) None) n).

(** Growing copies the initialised bytes to a new place. *)
Definition vec_reserve (v : VecU8) (additional : Z) : Exec E VecU8 :=
  let required := v.(vec_len) + additional in
  if required <=? capacity v then Ret v
  else if i64_max <? required then Panic CapacityOverflow
  else
    let cap := grown_cap (capacity v) required in
    Ret (mkVec (grown_addr v.(vec_ptr) (capacity v) cap)
           (take (Z.to_nat v.(vec_len)) v.(vec_buf)
              ++ replicate (Z.to_nat (cap - v.(vec_len))) None)
           v.(vec_len)).

Definition write_cells (buf : list (option Z)) (pos : Z) (bs : list Z) : list (option Z) :=
  take (Z.to_nat pos) buf ++ (Some <$> bs) ++ drop (Z.to_nat pos + length bs) buf.

Definition vec_extend_from_slice (v : VecU8) (bs : list Z) : Exec E VecU8 :=
  let! v := vec_reserve v (zlen bs) in
  Ret (mkVec v.(vec_ptr) (write_cells v.(vec_buf) v.(vec_len) bs) (v.(vec_len) + zlen bs)).

Definition vec_truncate (v : VecU8) (n : Z) : VecU8 :=
  if v.(vec_len) <? n then v else mkVec v.(vec_ptr) v.(vec_buf) n.

Definition vec_resize (v : VecU8) (n value : Z) : Exec E VecU8 :=
  if v.(vec_len) <? n
  then vec_extend_from_slice v (replicate (Z.to_nat (n - v.(vec_len))) value)
  else Ret (vec_truncate v n).

(** [set_len] requires the new length to be within the capacity. *)
Definition vec_set_len (v : VecU8) (n : Z) : Exec E VecU8 :=
  if capacity v <? n then Panic InvalidHostAccess
  else Ret (mkVec v.(vec_ptr) v.(vec_buf) n).

(** [&mem[start..end]]: the bytes, all of them initialised. *)
Definition vec_slice (v : VecU8) (start end_ : Z) : Exec E (list Z) :=
  if (end_ <? start) || (v.(vec_len) <? end_) then Panic IndexOutOfBounds
  else expect UninitializedRead
         (mapM id (take (Z.to_nat (end_ - start)) (drop (Z.to_nat start) v.(vec_buf)))).

(** [ptr.align_offset(align)] for bytes. *)
Definition is_power_of_two (a : Z) : bool := (0 <? a) && (Z.land a (a - 1) =? 0).
Definition ptr_align_offset (ptr align : Z) : Exec E Z :=
  if is_power_of_two align then Ret ((- ptr) mod align) else Panic AlignNotPowerOfTwo.
End Vec.

(** * [AlignedMemory] *)

(* src/aligned_memory.rs:18-25, AlignedMemory *)
Record AlignedMemory := mkAligned {
  max_len : Z;
  align_offset : Z;
  mem : VecU8;
  zero_up_to_max_len : bool
}.

(** [std::io::Error] with the kind [InvalidInput] and the source's message. *)
Variant IoError := InvalidInput (message : String.string).

Section Operations.
Context `{Al : Allocator} (ALIGN : Z).

(* src/aligned_memory.rs:28-33, AlignedMemory::get_mem *)
Definition get_mem {E} (max_len : Z) : Exec E (VecU8 * Z) :=
  let! mem := vec_with_capacity (u64_saturating_add max_len ALIGN) in
  let! align_offset := ptr_align_offset mem.(vec_ptr) ALIGN in
  let! mem := vec_resize mem align_offset 0 in
  Ret (mem, align_offset).

(* src/aligned_memory.rs:34-42, AlignedMemory::get_mem_zeroed *)
Definition get_mem_zeroed {E} (max_len : Z) : Exec E (VecU8 * Z) :=
  let! mem := vec_zeroed max_len in
  let! align_offset := ptr_align_offset mem.(vec_ptr) ALIGN in
  let! mem := vec_resize mem (u64_saturating_add max_len align_offset) 0 in
  Ret (mem, align_offset).

(* src/aligned_memory.rs:43-54, AlignedMemory::from_slice *)
Definition from_slice {E} (data : list Z) : Exec E AlignedMemory :=
  let max_len := zlen data in
  let! (mem, align_offset) := get_mem max_len in
  let! mem := vec_extend_from_slice mem data in
  Ret (mkAligned max_len align_offset mem false).

(* src/aligned_memory.rs:55-64, AlignedMemory::with_capacity *)
Definition with_capacity {E} (max_len : Z) : Exec E AlignedMemory :=
  let! (mem, align_offset) := get_mem max_len in
  Ret (mkAligned max_len align_offset mem false).

(* src/aligned_memory.rs:65-75, AlignedMemory::with_capacity_zeroed *)
Definition with_capacity_zeroed {E} (max_len : Z) : Exec E AlignedMemory :=
  let! (mem, align_offset) := get_mem_zeroed max_len in
  let mem := vec_truncate mem align_offset in
  Ret (mkAligned max_len align_offset mem true).

(* src/aligned_memory.rs:76-85, AlignedMemory::zero_filled *)
Definition zero_filled {E} (max_len : Z) : Exec E AlignedMemory :=
  let! (mem, align_offset) := get_mem_zeroed max_len in
  Ret (mkAligned max_len align_offset mem true).

(** [size_of::<AlignedMemory>()]: a [Vec] of three words, two words and a flag. *)
Definition size_of_aligned_memory : Z := 48.

(* src/aligned_memory.rs:86-89, AlignedMemory::mem_size *)
Definition mem_size (self : AlignedMemory) : Z :=
  u64_saturating_add (capacity self.(mem)) size_of_aligned_memory.

(* src/aligned_memory.rs:90-93, AlignedMemory::len *)
Definition am_len (self : AlignedMemory) : Z :=
  u64_saturating_sub self.(mem).(vec_len) self.(align_offset).

(* src/aligned_memory.rs:94-97, AlignedMemory::is_empty *)
Definition is_empty (self : AlignedMemory) : bool :=
  self.(mem).(vec_len) =? self.(align_offset).

(* src/aligned_memory.rs:98-101, AlignedMemory::write_index *)
Definition write_index (self : AlignedMemory) : Z := self.(mem).(vec_len).

(* src/aligned_memory.rs:102-107, AlignedMemory::as_slice *)
Definition as_slice {E} (self : AlignedMemory) : Exec E (list Z) :=
  let start := self.(align_offset) in
  let end_ := self.(mem).(vec_len) in
  vec_slice self.(mem) start end_.

Definition set_mem (self : AlignedMemory) (mem : VecU8) : AlignedMemory :=
  mkAligned self.(max_len) self.(align_offset) mem self.(zero_up_to_max_len).

(** Assigning [bytes] through the slice: [copy_from_slice] needs equal lengths. *)
(* src/aligned_memory.rs:108-113, AlignedMemory::as_slice_mut *)
Definition as_slice_mut_copy {E} (self : AlignedMemory) (bytes : list Z) : Exec E AlignedMemory :=
  let start := self.(align_offset) in
  let end_ := self.(mem).(vec_len) in
  let! old := vec_slice self.(mem) start end_ in
  if zlen old =? zlen bytes
  then Ret (set_mem self (mkVec self.(mem).(vec_ptr) (write_cells self.(mem).(vec_buf) start bytes) end_))
  else Panic IndexOutOfBounds.

(* src/aligned_memory.rs:114-137, AlignedMemory::fill_write *)
Definition fill_write (self : AlignedMemory) (num value : Z) : Exec IoError AlignedMemory :=
  let! new_len :=
    match u64_checked_add self.(mem).(vec_len) num,
          u64_checked_add self.(align_offset) self.(max_len) with
    | Some new_len, Some allocation_end =>
        if new_len <=? allocation_end then Ret new_len
        else Err (InvalidInput "aligned memory fill_write failed"%string)
    | _, _ => Err (InvalidInput "aligned memory fill_write failed"%string)
    end in
  let! mem := if self.(zero_up_to_max_len) && (value =? 0)
              then vec_set_len self.(mem) new_len
              else vec_resize self.(mem) new_len value in
  Ret (set_mem self mem).

(** A scalar of type [T] is its size and its value in host (little-endian) order. *)
(* src/aligned_memory.rs:139-153, AlignedMemory::write_unchecked *)
Definition write_unchecked {E} (self : AlignedMemory) (size : nat) (value : Z) : Exec E AlignedMemory :=
  let pos := self.(mem).(vec_len) in
  let new_len := u64_saturating_add pos (Z.of_nat size) in
  if u64_saturating_add self.(align_offset) self.(max_len) <? new_len then Panic DebugAssertFailed
  else
    let! mem := vec_set_len self.(mem) new_len in
    Ret (set_mem self (mkVec mem.(vec_ptr)
           (write_cells mem.(vec_buf) pos (le_bytes size value)) mem.(vec_len))).

(* src/aligned_memory.rs:155-168, AlignedMemory::write_all_unchecked *)
Definition write_all_unchecked {E} (self : AlignedMemory) (value : list Z) : Exec E AlignedMemory :=
  let pos := self.(mem).(vec_len) in
  let new_len := u64_saturating_add pos (zlen value) in
  if u64_saturating_add self.(align_offset) self.(max_len) <? new_len then Panic DebugAssertFailed
  else
    let! mem := vec_set_len self.(mem) new_len in
    Ret (set_mem self (mkVec mem.(vec_ptr)
           (write_cells mem.(vec_buf) pos value) mem.(vec_len))).

(* src/aligned_memory.rs:174-178, AlignedMemory::clone *)
Definition clone {E} (self : AlignedMemory) : Exec E AlignedMemory :=
  let! data := as_slice self in from_slice data.

(* src/aligned_memory.rs:181-196, AlignedMemory::write *)
Definition write (self : AlignedMemory) (buf : list Z) : Exec IoError (AlignedMemory * Z) :=
  match u64_checked_add self.(mem).(vec_len) (zlen buf),
        u64_checked_add self.(align_offset) self.(max_len) with
  | Some new_len, Some allocation_end =>
      if new_len <=? allocation_end then
        let! mem := vec_extend_from_slice self.(mem) buf in
        Ret (set_mem self mem, zlen buf)
      else Err (InvalidInput "aligned memory write failed"%string)
  | _, _ => Err (InvalidInput "aligned memory write failed"%string)
  end.

(* src/aligned_memory.rs:197-199, AlignedMemory::flush *)
Definition flush (self : AlignedMemory) : Exec IoError unit := Ret tt.

(* src/aligned_memory.rs:202-206, AlignedMemory::from *)
Definition from {E} (bytes : list Z) : Exec E AlignedMemory := from_slice bytes.
End Operations.

(* src/aligned_memory.rs:208-213, is_memory_aligned *)
Definition is_memory_aligned (ptr align : Z) : bool :=
  default false ((fun remainder => remainder =? 0) <$> (if align =? 0 then None else Some (ptr mod align))).

(** * The buffer as an append-only log of bounded length *)

(** The operations a client performs on a buffer. *)
Inductive AmOp :=
  | OpFillWrite (num value : Z)
  | OpWrite (buf : list Z)
  | OpWriteUnchecked (size : nat) (value : Z)
  | OpWriteAllUnchecked (value : list Z)
  | OpCopyFromSlice (bytes : list Z).

Definition am_apply `{Al : Allocator} (self : AlignedMemory) (op : AmOp) : Exec IoError AlignedMemory :=
  match op with
  | OpFillWrite num value => fill_write self num value
  | OpWrite buf => let! (self, _) := write self buf in Ret self
  | OpWriteUnchecked size value => write_unchecked self size value
  | OpWriteAllUnchecked value => write_all_unchecked self value
  | OpCopyFromSlice bytes => as_slice_mut_copy self bytes
  end.

(** The specification: the bytes written so far, and a bound on their number. *)
Definition log_append (max : Z) (data bytes : list Z) (full : Exec IoError (list Z)) :
    Exec IoError (list Z) :=
  if zlen data + zlen bytes <=? max then Ret (data ++ bytes) else full.

Definition log_apply (max : Z) (data : list Z) (op : AmOp) : Exec IoError (list Z) :=
  match op with
  | OpFillWrite num value =>
      if zlen data + num <=? max then Ret (data ++ replicate (Z.to_nat num) value)
      else Err (InvalidInput "aligned memory fill_write failed"%string)
  | OpWrite buf => log_append max data buf (Err (InvalidInput "aligned memory write failed"%string))
  | OpWriteUnchecked size value => log_append max data (le_bytes size value) (Panic DebugAssertFailed)
  | OpWriteAllUnchecked value => log_append max data value (Panic DebugAssertFailed)
  | OpCopyFromSlice bytes =>
      if zlen data =? zlen bytes then Ret bytes else Panic IndexOutOfBounds
  end.

(** A client goes on after an error, and stops at a fault. *)
Fixpoint run_ops {S} (apply : S -> AmOp -> Exec IoError S) (s : S) (ops : list AmOp) :
    Exec IoError (S * list (option IoError)) :=
  match ops with
  | [] => Ret (s, [])
  | op :: ops =>
      match apply s op with
      | Ret s => let! (s, errs) := run_ops apply s ops in Ret (s, None :: errs)
      | Err e => let! (s, errs) := run_ops apply s ops in Ret (s, Some e :: errs)
      | Panic f => Panic f
      end
  end.

Definition op_ok (op : AmOp) : Prop :=
  match op with OpFillWrite num _ => 0 <= num | _ => True end.

(** Representation: bytes in front of the aligned address, the data, and the rest of
    the capacity, which is zero up to [max_len] when the buffer promises it. *)
Record am_rep (self : AlignedMemory) (base : Z) (data : list Z) : Prop := mkRep {
  rep_buf : exists pre spare,
    self.(mem).(vec_buf) = pre ++ (Some <$> data) ++ spare /\ zlen pre = self.(align_offset) /\
    self.(max_len) <= zlen data + zlen spare /\
    (self.(zero_up_to_max_len) = true ->
     Forall (eq (Some 0)) (take (Z.to_nat (self.(max_len) - zlen data)) spare));
  rep_len : self.(mem).(vec_len) = self.(align_offset) + zlen data;
  rep_max : zlen data <= self.(max_len);
  rep_cap : capacity self.(mem) <= i64_max;
  rep_ptr : self.(mem).(vec_ptr) = base
}.

(** Two outcomes agree, on values up to [R]. *)
Definition exec_rel {E A B} (R : A -> B -> Prop) (x : Exec E A) (y : Exec E B) : Prop :=
  match x, y with
  | Ret a, Ret b => R a b
  | Err e, Err e' => e = e'
  | Panic f, Panic f' => f = f'
  | _, _ => False
  end.

(** ** Lemmas on [Vec] *)

Ltac zlen_simpl := rewrite ?zlen_app, ?zlen_fmap, ?zlen_app.

Lemma write_cells_app (a s : list (option Z)) (pos : Z) (bs : list Z) :
  zlen a = pos -> write_cells (a ++ s) pos bs = a ++ (Some <$> bs) ++ drop (length bs) s.
Proof.
  intros <-. unfold write_cells. rewrite to_nat_zlen, take_app_length, drop_app_add. done.
Qed.

Section VecLemmas.
Context `{Al : Allocator} {E : Type}.

Lemma vec_extend_spec (v : VecU8) (a s : list (option Z)) (bs : list Z) :
  v.(vec_buf) = a ++ s -> zlen a = v.(vec_len) -> capacity v <= i64_max ->
  v.(vec_len) + zlen bs <= i64_max ->
  exists v' s', vec_extend_from_slice (E := E) v bs = Ret v' /\
    v'.(vec_buf) = a ++ (Some <$> bs) ++ s' /\ v'.(vec_len) = v.(vec_len) + zlen bs /\
    capacity v' <= i64_max /\
    (v.(vec_len) + zlen bs <= capacity v ->
     v'.(vec_ptr) = v.(vec_ptr) /\ s' = drop (length bs) s).
Proof.
  intros Hb Ha Hc Hr. unfold vec_extend_from_slice, vec_reserve.
  pose proof (zlen_nonneg a). pose proof (zlen_nonneg bs). pose proof (zlen_nonneg s).
  destruct (Z.leb_spec (v.(vec_len) + zlen bs) (capacity v)) as [Hfit|Hgrow]; cbn [exec_bind].
  - eexists _, (drop (length bs) s). split; [done|]. unfold capacity in *. cbn.
    rewrite Hb in *. rewrite (write_cells_app a s) by done. revert Hc Hfit. zlen_simpl. intros.
    split_and!; try done. rewrite zlen_drop; lia.
  - destruct (Z.ltb_spec i64_max (v.(vec_len) + zlen bs)); [lia|]. cbn [exec_bind].
    pose proof (grown_cap_law (capacity v) (v.(vec_len) + zlen bs) ltac:(lia)).
    set (cap := grown_cap _ _) in *. clearbody cap. eexists _, _. split; [done|]. unfold capacity. cbn.
    rewrite Hb, <-Ha, to_nat_zlen, take_app_length, (write_cells_app a) by done.
    split_and!; [done|done| |unfold capacity in *; rewrite <-Hb; intros; lia]. zlen_simpl.
    unfold zlen in *. rewrite length_drop, length_replicate. lia.
Qed.

Lemma vec_resize_spec (v : VecU8) (a s : list (option Z)) (n value : Z) :
  v.(vec_buf) = a ++ s -> zlen a = v.(vec_len) -> capacity v <= i64_max ->
  v.(vec_len) <= n <= i64_max ->
  exists v' s', vec_resize (E := E) v n value = Ret v' /\
    v'.(vec_buf) = a ++ (Some <$> replicate (Z.to_nat (n - v.(vec_len))) value) ++ s' /\
    v'.(vec_len) = n /\ capacity v' <= i64_max /\
    (n <= capacity v -> v'.(vec_ptr) = v.(vec_ptr) /\ s' = drop (Z.to_nat (n - v.(vec_len))) s).
Proof.
  intros Hb Ha Hc Hn. unfold vec_resize. destruct (Z.ltb_spec v.(vec_len) n).
  - set (k := n - v.(vec_len)). pose proof (zlen_replicate k value ltac:(lia)) as Hk.
    destruct (vec_extend_spec v a s (replicate (Z.to_nat k) value))
      as (v' & s' & -> & Hb' & Hl' & Hc' & Hp); [done..|lia|].
    exists v', s'. split_and!; [done..|lia|done|]. intros. rewrite length_replicate in Hp.
    apply Hp. lia.
  - assert (n = v.(vec_len)) as -> by lia. rewrite Z.sub_diag.
    exists v, s. unfold vec_truncate. rewrite Z.ltb_irrefl. by destruct v.
Qed.

Lemma ptr_align_offset_spec (ptr align : Z) :
  is_power_of_two align = true ->
  ptr_align_offset (E := E) ptr align = Ret ((- ptr) mod align) /\
  0 <= (- ptr) mod align < align /\ (ptr + (- ptr) mod align) mod align = 0.
Proof.
  intros Hp. unfold ptr_align_offset. rewrite Hp. split; [done|].
  apply andb_true_iff in Hp as [Hp _]. apply Z.ltb_lt in Hp.
  split; [by apply Z.mod_pos_bound|]. rewrite Zplus_mod_idemp_r, Z.add_opp_diag_r. by apply Z.mod_0_l; lia.
Qed.
End VecLemmas.

(** ** Operations on a represented buffer *)

(** Appending inside of the bound: the data grows, the address stays. *)
Lemma rep_append (self : AlignedMemory) (base : Z) (data bs : list Z) :
  am_rep self base data -> zlen data + zlen bs <= self.(max_len) ->
  am_rep (set_mem self (mkVec self.(mem).(vec_ptr)
            (write_cells self.(mem).(vec_buf) self.(mem).(vec_len) bs)
            (self.(mem).(vec_len) + zlen bs))) base (data ++ bs).
Proof.
  intros [(pre & spare & Hb & Hp & Hs & Hz) Hl Hm Hc <-] Hfit.
  unfold capacity in Hc. rewrite Hb, app_assoc in *. rewrite (write_cells_app (pre ++ (Some <$> data)))
    by (zlen_simpl; lia).
  pose proof (zlen_nonneg bs). revert Hc. zlen_simpl. intros Hc. split; cbn.
  - exists pre, (drop (length bs) spare). split_and!.
    + by rewrite fmap_app, <-!app_assoc.
    + done.
    + zlen_simpl. rewrite zlen_drop; lia.
    + intros Hzero. rewrite take_drop_commute. apply Forall_drop. zlen_simpl.
      replace (length bs + _)%nat with (Z.to_nat (self.(max_len) - zlen data)); [auto|].
      unfold zlen in *. lia.
  - zlen_simpl. lia.
  - zlen_simpl. lia.
  - unfold capacity. cbn. zlen_simpl. rewrite zlen_drop; lia.
  - done.
Qed.

(** On memory that is zero up to [max_len], moving the length writes zeros. *)
Lemma rep_zeros (self : AlignedMemory) (base : Z) (data : list Z) (n : Z) :
  am_rep self base data -> self.(zero_up_to_max_len) = true -> 0 <= n ->
  zlen data + n <= self.(max_len) ->
  write_cells self.(mem).(vec_buf) self.(mem).(vec_len) (replicate (Z.to_nat n) 0)
    = self.(mem).(vec_buf).
Proof.
  intros [(pre & spare & Hb & Hp & Hs & Hz) Hl Hm Hc _] Hzero Hn Hfit. specialize (Hz Hzero).
  rewrite Hb, app_assoc. rewrite (write_cells_app (pre ++ (Some <$> data))) by (zlen_simpl; lia).
  f_equal. rewrite length_replicate, fmap_replicate.
  rewrite <-(take_drop (Z.to_nat n) spare) at 2. f_equal.
  apply replicate_as_Forall_2; [rewrite length_take; unfold zlen in *; lia|].
  replace (Z.to_nat n) with (Z.to_nat n `min` Z.to_nat (self.(max_len) - zlen data))%nat
    by (unfold zlen in *; lia).
  rewrite <-take_take. by apply Forall_take.
Qed.

Lemma rep_as_slice {E} (self : AlignedMemory) (base : Z) (data : list Z) :
  am_rep self base data -> as_slice (E := E) self = Ret data.
Proof.
  intros [(pre & spare & Hb & Hp & _ & _) Hl _ _ _]. pose proof (zlen_nonneg data).
  unfold as_slice, vec_slice. rewrite Hl. destruct (Z.ltb_spec (self.(align_offset) + zlen data) self.(align_offset)); [lia|].
  rewrite Z.ltb_irrefl. cbn [orb].
  replace (self.(align_offset) + zlen data - self.(align_offset)) with (zlen data) by lia.
  rewrite Hb, <-Hp, !to_nat_zlen, drop_app_length, take_app_length' by by rewrite length_fmap.
  by rewrite (mapM_fmap_Some id Some data).
Qed.

(** Copying as many bytes into the slice replaces the data. *)
Lemma rep_copy {E} (self : AlignedMemory) (base : Z) (data bytes : list Z) :
  am_rep self base data -> zlen data = zlen bytes ->
  exists self', as_slice_mut_copy (E := E) self bytes = Ret self' /\ am_rep self' base bytes /\
    self'.(align_offset) = self.(align_offset) /\ self'.(max_len) = self.(max_len).
Proof.
  intros Hrep Heq. pose proof (rep_as_slice (E := E) _ _ _ Hrep) as Hs.
  unfold as_slice_mut_copy. unfold as_slice in Hs. rewrite Hs. cbn [exec_bind].
  rewrite (proj2 (Z.eqb_eq _ _) Heq). eexists. split; [done|]. split; [|done].
  destruct Hrep as [(pre & spare & Hb & Hp & Hsp & Hz) Hl Hmx Hc Hptr]. unfold capacity in Hc. rewrite Hb in *.
  rewrite (write_cells_app pre) by done.
  rewrite drop_app_length' by (rewrite length_fmap; unfold zlen in Heq; lia).
  revert Hc. zlen_simpl. intros Hc. split; cbn.
  - exists pre, spare. rewrite <-Heq. done.
  - lia.
  - lia.
  - unfold capacity. cbn. zlen_simpl. lia.
  - done.
Qed.

(** What the capacity checks of the operations compute. *)
Lemma rep_no_wrap (self : AlignedMemory) (base : Z) (data : list Z) :
  am_rep self base data ->
  u64_checked_add self.(align_offset) self.(max_len) = Some (self.(align_offset) + self.(max_len)) /\
  u64_saturating_add self.(align_offset) self.(max_len) = self.(align_offset) + self.(max_len) /\
  self.(align_offset) + self.(max_len) <= capacity self.(mem) /\ 0 <= self.(align_offset).
Proof.
  intros [(pre & spare & Hb & Hp & Hs & _) Hl Hm Hc _].
  pose proof (zlen_nonneg pre). unfold capacity in *. rewrite Hb in *. revert Hc. zlen_simpl. intros Hc.
  unfold u64_checked_add, u64_saturating_add, u64_max, i64_max in *.
  rewrite (proj2 (Z.leb_le _ _)) by lia. split_and!; [done|lia|lia|lia].
Qed.

Lemma checked_len (len n end_ : Z) (A : Type) (x : Z -> A) (y : A) :
  end_ <= i64_max ->
  (match u64_checked_add len n with
  | Some new_len => (if new_len <=? end_ then x new_len else y)
  | None => y
  end) = (if len + n <=? end_ then x (len + n) else y).
Proof.
  intros. unfold u64_checked_add, u64_max, i64_max in *.
  destruct (Z.leb_spec (len + n) (2 ^ 64 - 1)); [done|].
  by destruct (Z.leb_spec (len + n) end_); [lia|].
Qed.

Lemma write_cells_nil (buf : list (option Z)) (pos : Z) : write_cells buf pos [] = buf.
Proof. unfold write_cells. cbn. rewrite Nat.add_0_r. apply take_drop. Qed.

(** The buffer after [bs] was appended in place. *)
Definition appended (self : AlignedMemory) (bs : list Z) : AlignedMemory :=
  set_mem self (mkVec self.(mem).(vec_ptr)
    (write_cells self.(mem).(vec_buf) self.(mem).(vec_len) bs) (self.(mem).(vec_len) + zlen bs)).

Section RepOperations.
Context `{Al : Allocator} (self : AlignedMemory) (base : Z) (data : list Z).
Context (Hrep : am_rep self base data).

Lemma rep_fits (n : Z) :
  (self.(mem).(vec_len) + n <=? self.(align_offset) + self.(max_len)) = (zlen data + n <=? self.(max_len)).
Proof.
  rewrite (rep_len _ _ _ Hrep). destruct (Z.leb_spec (zlen data + n) self.(max_len));
    [apply Z.leb_le|apply Z.leb_gt]; lia.
Qed.

Lemma rep_extend {E} (bs : list Z) :
  zlen data + zlen bs <= self.(max_len) ->
  vec_extend_from_slice (E := E) self.(mem) bs = Ret (appended self bs).(mem).
Proof.
  intros Hfit. destruct (rep_no_wrap _ _ _ Hrep) as (_ & _ & Hcap & _).
  unfold vec_extend_from_slice, vec_reserve.
  rewrite (proj2 (Z.leb_le (_ + zlen bs) _)); [done|]. rewrite (rep_len _ _ _ Hrep). lia.
Qed.

Lemma rep_resize {E} (n value : Z) :
  0 <= n -> zlen data + n <= self.(max_len) ->
  vec_resize (E := E) self.(mem) (self.(mem).(vec_len) + n) value
    = Ret (appended self (replicate (Z.to_nat n) value)).(mem).
Proof.
  intros Hn Hfit. unfold vec_resize. destruct (Z.ltb_spec self.(mem).(vec_len) (self.(mem).(vec_len) + n)).
  - replace (self.(mem).(vec_len) + n - self.(mem).(vec_len)) with n by lia.
    apply rep_extend. by rewrite zlen_replicate.
  - assert (n = 0) as -> by lia. unfold vec_truncate, appended. cbn.
    rewrite write_cells_nil, !Z.add_0_r, Z.ltb_irrefl. by destruct (mem self).
Qed.

(** The unchecked writes set the length and copy the bytes. *)
Lemma rep_unchecked {E} (bs : list Z) :
  (if u64_saturating_add self.(align_offset) self.(max_len)
        <? u64_saturating_add self.(mem).(vec_len) (zlen bs) then Panic DebugAssertFailed
   else let! m := vec_set_len self.(mem) (u64_saturating_add self.(mem).(vec_len) (zlen bs)) in
        Ret (set_mem self (mkVec m.(vec_ptr)
               (write_cells m.(vec_buf) self.(mem).(vec_len) bs) m.(vec_len))))
  = if zlen data + zlen bs <=? self.(max_len) then Ret (E := E) (appended self bs)
    else Panic DebugAssertFailed.
Proof.
  destruct (rep_no_wrap _ _ _ Hrep) as (_ & -> & Hcap & _).
  pose proof (rep_cap _ _ _ Hrep). rewrite Z.ltb_antisym. unfold u64_saturating_add, u64_max, i64_max in *.
  destruct (Z.leb_spec (zlen data + zlen bs) self.(max_len)) as [Hf|Hf].
  - pose proof (rep_fits (zlen bs)) as Hfit. rewrite (proj2 (Z.leb_le _ _) Hf) in Hfit. apply Z.leb_le in Hfit.
    rewrite Z.min_l by lia. rewrite (proj2 (Z.leb_le _ _) Hfit). cbn [negb].
    unfold vec_set_len. by destruct (Z.ltb_spec (capacity self.(mem)) (self.(mem).(vec_len) + zlen bs)); [lia|].
  - pose proof (rep_fits (zlen bs)) as Hfit. rewrite (proj2 (Z.leb_gt _ _) Hf) in Hfit. apply Z.leb_gt in Hfit.
    by rewrite (proj2 (Z.leb_gt _ _)) by lia.
Qed.
End RepOperations.

(** A buffer and the log it stands for, with the aligned address and bound fixed. *)
Definition am_sim (base off max : Z) (self : AlignedMemory) (data : list Z) : Prop :=
  am_rep self base data /\ self.(align_offset) = off /\ self.(max_len) = max.

Lemma am_sim_appended (base off max : Z) (self : AlignedMemory) (data bs : list Z) :
  am_sim base off max self data -> zlen data + zlen bs <= max ->
  am_sim base off max (appended self bs) (data ++ bs).
Proof. intros (Hrep & Ho & <-) Hfit. split_and!; [by apply rep_append|done|done]. Qed.

Section Simulation.
Context `{Al : Allocator}.

Lemma sim_fill_write (base off max : Z) (self : AlignedMemory) (data : list Z) (num value : Z) :
  am_sim base off max self data -> 0 <= num ->
  exec_rel (am_sim base off max) (fill_write self num value) (log_apply max data (OpFillWrite num value)).
Proof.
  intros Hsim Hn. pose proof Hsim as (Hrep & Ho & Hm). unfold fill_write, log_apply.
  destruct (rep_no_wrap _ _ _ Hrep) as (-> & _ & Hcap & _). pose proof (rep_cap _ _ _ Hrep).
  cbv beta iota. rewrite (checked_len _ _ _ _ Ret) by lia. rewrite (rep_fits _ _ _ Hrep), Hm.
  destruct (Z.leb_spec (zlen data + num) max); [|done]. cbn [exec_bind].
  pose proof (zlen_replicate num value Hn) as Hlen.
  assert (Hs : am_sim base off max (appended self (replicate (Z.to_nat num) value))
                 (data ++ replicate (Z.to_nat num) value)).
  { apply am_sim_appended; [done|]. lia. }
  destruct (zero_up_to_max_len self && (value =? 0)) eqn:Hz.
  - apply andb_true_iff in Hz as [Hz Hv]. apply Z.eqb_eq in Hv as ->.
    unfold appended in Hs. rewrite (rep_zeros _ _ _ _ Hrep) in Hs by (done || lia).
    unfold vec_set_len. rewrite Hlen in Hs.
    destruct (Z.ltb_spec (capacity self.(mem)) (self.(mem).(vec_len) + num)) as [Hbad|]; [|done].
    rewrite (rep_len _ _ _ Hrep) in Hbad. lia.
  - by rewrite (rep_resize _ _ _ Hrep) by (done || lia).
Qed.

Lemma sim_write (base off max : Z) (self : AlignedMemory) (data buf : list Z) :
  am_sim base off max self data ->
  exec_rel (am_sim base off max) (am_apply self (OpWrite buf)) (log_apply max data (OpWrite buf)).
Proof.
  intros Hsim. pose proof Hsim as (Hrep & Ho & Hm). cbn [am_apply log_apply].
  unfold write, log_append.
  destruct (rep_no_wrap _ _ _ Hrep) as (-> & _ & Hcap & _). pose proof (rep_cap _ _ _ Hrep).
  cbv beta iota. rewrite (checked_len _ _ _ _ (fun _ => _)) by lia. rewrite (rep_fits _ _ _ Hrep), Hm.
  destruct (Z.leb_spec (zlen data + zlen buf) max); [|done].
  rewrite (rep_extend _ _ _ Hrep) by lia. cbn [exec_bind]. by apply am_sim_appended.
Qed.

Lemma sim_unchecked (base off max : Z) (self : AlignedMemory) (data bs : list Z) :
  am_sim base off max self data ->
  exec_rel (am_sim base off max)
    (if zlen data + zlen bs <=? self.(max_len) then Ret (appended self bs) else Panic DebugAssertFailed)
    (log_append max data bs (Panic DebugAssertFailed)).
Proof.
  intros Hsim. pose proof Hsim as (_ & _ & ->). unfold log_append.
  destruct (Z.leb_spec (zlen data + zlen bs) max); [|done]. by apply am_sim_appended.
Qed.

Lemma sim_copy (base off max : Z) (self : AlignedMemory) (data bytes : list Z) :
  am_sim base off max self data ->
  exec_rel (am_sim base off max) (as_slice_mut_copy self bytes) (log_apply max data (OpCopyFromSlice bytes)).
Proof.
  intros (Hrep & Ho & Hm). unfold log_apply. destruct (Z.eqb_spec (zlen data) (zlen bytes)) as [Heq|Hne].
  - destruct (rep_copy (E := IoError) _ _ _ _ Hrep Heq) as (self' & -> & Hrep' & Ho' & Hm').
    split_and!; [done|congruence..].
  - unfold as_slice_mut_copy. pose proof (rep_as_slice (E := IoError) _ _ _ Hrep) as Hs.
    unfold as_slice in Hs. rewrite Hs. cbn [exec_bind]. by rewrite (proj2 (Z.eqb_neq _ _) Hne).
Qed.

(** Every operation refines the one on the log. *)
Lemma sim_apply (base off max : Z) (self : AlignedMemory) (data : list Z) (op : AmOp) :
  am_sim base off max self data -> op_ok op ->
  exec_rel (am_sim base off max) (am_apply self op) (log_apply max data op).
Proof.
  intros Hsim Hop. destruct op as [num value|buf|size value|value|bytes].
  - by apply sim_fill_write.
  - by apply sim_write.
  - cbn [am_apply log_apply]. unfold write_unchecked.
    assert (Z.of_nat size = zlen (le_bytes size value)) as ->
      by (unfold zlen; by rewrite length_le_bytes).
    rewrite (rep_unchecked _ _ _ (proj1 Hsim)). by apply sim_unchecked.
  - cbn [am_apply log_apply]. unfold write_all_unchecked.
    rewrite (rep_unchecked _ _ _ (proj1 Hsim)). by apply sim_unchecked.
  - by apply sim_copy.
Qed.

Lemma sim_run (base off max : Z) (ops : list AmOp) :
  Forall op_ok ops -> forall self data, am_sim base off max self data ->
  exec_rel (fun x y => am_sim base off max x.1 y.1 /\ x.2 = y.2)
    (run_ops am_apply self ops) (run_ops (log_apply max) data ops).
Proof.
  induction 1 as [|op ops Hop Hops IH]; intros self data Hsim; [done|]. cbn [run_ops].
  pose proof (sim_apply _ _ _ _ _ op Hsim Hop) as Hstep.
  destruct (am_apply self op) as [self'|e|f], (log_apply max data op) as [data'|e'|f']; try done;
    cbn in Hstep; subst.
  - specialize (IH _ _ Hstep).
    destruct (run_ops am_apply self' ops) as [[]| |], (run_ops _ data' ops) as [[]| |]; cbn in *; try done.
    by destruct IH as [? ->].
  - specialize (IH _ _ Hsim).
    destruct (run_ops am_apply self ops) as [[]| |], (run_ops _ data ops) as [[]| |]; cbn in *; try done.
    by destruct IH as [? ->].
Qed.
End Simulation.

(** ** Constructors *)

Inductive AmNew :=
  | FromSlice (data : list Z)
  | WithCapacity (max_len : Z)
  | WithCapacityZeroed (max_len : Z)
  | ZeroFilled (max_len : Z).

Definition am_create `{Al : Allocator} {E} (ALIGN : Z) (c : AmNew) : Exec E AlignedMemory :=
  match c with
  | FromSlice data => from_slice ALIGN data
  | WithCapacity max_len => with_capacity ALIGN max_len
  | WithCapacityZeroed max_len => with_capacity_zeroed ALIGN max_len
  | ZeroFilled max_len => zero_filled ALIGN max_len
  end.

Definition log_max (c : AmNew) : Z :=
  match c with
  | FromSlice data => zlen data
  | WithCapacity max_len | WithCapacityZeroed max_len | ZeroFilled max_len => max_len
  end.

Definition log_create (c : AmNew) : list Z :=
  match c with
  | FromSlice data => data
  | WithCapacity _ | WithCapacityZeroed _ => []
  | ZeroFilled max_len => replicate (Z.to_nat max_len) 0
  end.

(** The address of the first byte of the data. *)
Definition data_ptr (self : AlignedMemory) : Z := self.(mem).(vec_ptr) + self.(align_offset).

Section Constructors.
Context `{Al : Allocator} {E : Type} (ALIGN : Z).
Context (Halign : is_power_of_two ALIGN = true).

Lemma get_mem_spec (max : Z) :
  0 <= max -> max + ALIGN <= i64_max ->
  exists v off, get_mem (E := E) ALIGN max = Ret (v, off) /\
    am_rep (mkAligned max off v false) v.(vec_ptr) [] /\ (v.(vec_ptr) + off) mod ALIGN = 0.
Proof.
  intros Hmax Hcap. unfold get_mem.
  assert (Hpos : 0 < ALIGN) by (apply andb_true_iff in Halign as [H _]; by apply Z.ltb_lt).
  rewrite u64_saturating_add_small by (unfold i64_max in *; lia).
  unfold vec_with_capacity. destruct (Z.ltb_spec i64_max (max + ALIGN)); [lia|]. cbn [exec_bind vec_ptr].
  destruct (ptr_align_offset_spec (E := E) (vec_addr (max + ALIGN)) ALIGN Halign) as (-> & Hoff & Hmod).
  set (off := _ mod ALIGN) in *. cbn [exec_bind].
  pose proof (vec_cap_law (max + ALIGN) ltac:(lia)) as Hvc.
  set (v0 := mkVec _ _ _).
  destruct (vec_resize_spec (E := E) v0 [] v0.(vec_buf) off 0) as (v & s & -> & Hb & Hl & Hc & Hkeep).
  - done.
  - done.
  - unfold capacity, v0. cbn. rewrite zlen_replicate; lia.
  - cbn. lia.
  - unfold capacity, v0 in Hkeep. cbn in Hkeep. rewrite zlen_replicate in Hkeep by lia.
    destruct Hkeep as [Hptr Hspare]; [lia|]. cbn [exec_bind]. exists v, off.
    rewrite Hptr. split_and!; [done| |done]. cbn in Hb. rewrite Z.sub_0_r in *.
    split; cbn; change (zlen (A := Z) []) with 0; [|lia|lia|done|done]. exists (Some <$> replicate (Z.to_nat off) 0), s.
    split_and!; [done| | |done].
    + rewrite zlen_fmap, zlen_replicate; lia.
    + rewrite Hspare. unfold zlen. rewrite length_drop, length_replicate. cbn. lia.
Qed.

Lemma get_mem_zeroed_spec (max : Z) :
  0 <= max -> max + ALIGN <= i64_max ->
  exists v off, get_mem_zeroed (E := E) ALIGN max = Ret (v, off) /\
    am_rep (mkAligned max off v true) v.(vec_ptr) (replicate (Z.to_nat max) 0) /\
    am_rep (mkAligned max off (vec_truncate v off) true) v.(vec_ptr) [].
Proof.
  intros Hmax Hcap. unfold get_mem_zeroed, vec_zeroed.
  destruct (Z.ltb_spec i64_max max); [|cbn [exec_bind vec_ptr]].
  { apply andb_true_iff in Halign as [Hp _]. apply Z.ltb_lt in Hp. lia. }
  destruct (ptr_align_offset_spec (E := E) (vec_addr max) ALIGN Halign) as (-> & Hoff & _).
  set (off := _ mod ALIGN) in *. cbn [exec_bind].
  rewrite u64_saturating_add_small by (unfold i64_max in *; lia).
  pose proof (vec_cap_law max ltac:(lia)) as Hvc.
  set (zs := replicate (Z.to_nat max) (Some 0)). set (ns := replicate (Z.to_nat (vec_cap max - max)) None).
  assert (Hzs : zlen zs = max) by by apply zlen_replicate.
  destruct (vec_resize_spec (E := E) (mkVec (vec_addr max) (zs ++ ns) max) zs ns (max + off) 0)
    as (v & s & -> & Hb & Hl & Hc & _).
  - done.
  - done.
  - unfold capacity. cbn. zlen_simpl. unfold ns. rewrite zlen_replicate; lia.
  - cbn. lia.
  - cbn in Hb. replace (max + off - max) with off in Hb by lia. cbn [exec_bind]. exists v, off.
    assert (Hbuf : v.(vec_buf) = replicate (Z.to_nat off) (Some 0) ++ replicate (Z.to_nat max) (Some 0) ++ s).
    { rewrite Hb, fmap_replicate. unfold zs. rewrite !app_assoc, <-!replicate_add. do 2 f_equal. lia. }
    assert (Hlen : zlen (replicate (Z.to_nat max) 0) = max) by by apply zlen_replicate.
    assert (Hpre : zlen (replicate (Z.to_nat off) (Some 0)) = off) by (apply zlen_replicate; lia).
    pose proof (zlen_nonneg s).
    split_and!; [done| |]; split; cbn; rewrite ?Hlen; try (done || lia).
    + exists (replicate (Z.to_nat off) (Some 0)), s. rewrite Z.sub_diag, fmap_replicate.
      split_and!; [done..|lia|constructor].
    + exists (replicate (Z.to_nat off) (Some 0)), (replicate (Z.to_nat max) (Some 0) ++ s).
      assert (Hz : zlen (replicate (Z.to_nat max) (Some 0) ++ s) = max + zlen s)
        by (rewrite zlen_app, zlen_replicate; lia).
      change (zlen (A := Z) []) with 0. rewrite Z.sub_0_r, Hz.
      split_and!; [unfold vec_truncate; by destruct (_ <? _)|done|lia|]. intros _.
      rewrite take_app_length' by by rewrite length_replicate. by apply Forall_replicate.
    + change (zlen (A := Z) []) with 0. unfold vec_truncate.
      destruct (Z.ltb_spec v.(vec_len) off); cbn; lia.
    + unfold vec_truncate. by destruct (_ <? _).
    + unfold vec_truncate. by destruct (_ <? _).
Qed.
End Constructors.

(** Every constructor stands for the log it announces. *)
Lemma create_sim `{Al : Allocator} {E} (ALIGN : Z) (c : AmNew) :
  is_power_of_two ALIGN = true -> 0 <= log_max c -> log_max c + ALIGN <= i64_max ->
  exists self, am_create (E := E) ALIGN c = Ret self /\
    am_sim self.(mem).(vec_ptr) self.(align_offset) (log_max c) self (log_create c) /\
    (match c with FromSlice _ | WithCapacity _ => data_ptr self mod ALIGN = 0 | _ => True end).
Proof.
  intros Ha H0 Hc. unfold data_ptr. destruct c as [data|max|max|max]; cbn in *.
  - unfold from_slice. destruct (get_mem_spec (E := E) ALIGN Ha _ H0 Hc) as (v & off & -> & Hrep & Hmod).
    cbn [exec_bind].
    rewrite (rep_extend (mkAligned (zlen data) off v false) _ _ Hrep data) by done. cbn [exec_bind].
    eexists. split; [done|]. split; [|done].
    apply (am_sim_appended v.(vec_ptr) off (zlen data) (mkAligned (zlen data) off v false) []); done.
  - unfold with_capacity. destruct (get_mem_spec (E := E) ALIGN Ha _ H0 Hc) as (v & off & -> & Hrep & Hmod).
    eexists. split; [done|]. done.
  - unfold with_capacity_zeroed.
    destruct (get_mem_zeroed_spec (E := E) ALIGN Ha _ H0 Hc) as (v & off & -> & _ & Hrep).
    eexists. split; [done|]. split; [|done]. split_and!; [|done|done].
    by rewrite (rep_ptr _ _ _ Hrep).
  - unfold zero_filled.
    destruct (get_mem_zeroed_spec (E := E) ALIGN Ha _ H0 Hc) as (v & off & -> & Hrep & _).
    eexists. split; [done|]. done.
Qed.

(** What clients of [from_slice] and [clone] rely on: an aligned copy of the data. *)
Lemma from_slice_spec `{Al : Allocator} {E} (ALIGN : Z) (data : list Z) :
  is_power_of_two ALIGN = true -> zlen data + ALIGN <= i64_max ->
  exists self, from_slice (E := E) ALIGN data = Ret self /\ am_rep self self.(mem).(vec_ptr) data /\
    data_ptr self mod ALIGN = 0.
Proof.
  intros Ha Hc. destruct (create_sim (E := E) ALIGN (FromSlice data) Ha (zlen_nonneg data) Hc)
    as (self & Hs & (Hrep & _) & Hal). eauto.
Qed.

(** * Properties *)

(** C23: An [AlignedMemory] is an append-only log of bounded length, whichever
    constructor made it and whichever operations follow.  When the requested length
    leaves room for the alignment the constructor returns a buffer, and every
    sequence of [fill_write], [write], [write_unchecked], [write_all_unchecked] and
    copies through [as_slice_mut] then has the outcome of the same sequence on a
    plain list with a bound: the same errors in the same places, a failed debug
    assertion where an unchecked write exceeds the bound, and otherwise the list as
    the contents [as_slice] returns.  No uninitialised byte is ever part of the
    slice, although [fill_write] only moves the length when zeros are written to a
    zeroed buffer, and no operation moves the data in memory. *)
Theorem aligned_memory_refines_log `{Al : Allocator} {E} (ALIGN : Z) (c : AmNew) (ops : list AmOp) :
  is_power_of_two ALIGN = true -> 0 <= log_max c -> log_max c + ALIGN <= i64_max ->
  Forall op_ok ops ->
  exists self0, am_create (E := E) ALIGN c = Ret self0 /\
    exec_rel (fun x y =>
        as_slice (E := E) x.1 = Ret y.1 /\ am_len x.1 = zlen y.1 /\
        is_empty x.1 = bool_decide (y.1 = []) /\
        data_ptr x.1 = data_ptr self0 /\ x.2 = y.2)
      (run_ops am_apply self0 ops) (run_ops (log_apply (log_max c)) (log_create c) ops).
Proof.
  intros Ha H0 Hc Hops. destruct (create_sim (E := E) ALIGN c Ha H0 Hc) as (self0 & -> & Hsim & _).
  exists self0. split; [done|]. pose proof (sim_run _ _ _ _ Hops _ _ Hsim) as Hrun.
  destruct (run_ops am_apply self0 ops) as [[self errs]|e|f], (run_ops _ _ ops) as [[data errs']|e'|f']; try done.
  destruct Hrun as [(Hrep & Hoff & Hmax) Herr]. cbn [fst snd] in *.
  destruct (rep_no_wrap _ _ _ Hrep) as (_ & _ & _ & Hpos). pose proof (rep_len _ _ _ Hrep) as Hl.
  cbn [fst snd exec_rel]. unfold am_len, is_empty, u64_saturating_sub, data_ptr.
  rewrite (rep_ptr _ _ _ Hrep), Hl. split_and!; [by eapply rep_as_slice| | |by rewrite Hoff|done].
  - unfold zlen. lia.
  - destruct data as [|b data]; [apply Z.eqb_eq; unfold zlen; cbn; lia|].
    apply Z.eqb_neq. unfold zlen. cbn. lia.
Qed.

(** A plain allocator: exact capacities, every buffer at the address of its kind. *)
#[local] Instance bump_allocator : Allocator := {
  vec_cap n := n;
  vec_addr n := 4097 + n;
  grown_cap c n := n;
  grown_addr p c n := 8192 + n;
  vec_cap_law n H := conj (Z.le_refl n) (proj2 H);
  grown_cap_law c n H := conj (Z.le_refl n) (proj2 H)
}.

Lemma aligned_memory_refines_log_witness :
  exists self0, am_create (E := unit) 8 (WithCapacityZeroed 10) = Ret self0 /\
    exec_rel (fun x y =>
        as_slice (E := unit) x.1 = Ret y.1 /\ am_len x.1 = zlen y.1 /\
        is_empty x.1 = bool_decide (y.1 = []) /\ data_ptr x.1 = data_ptr self0 /\ x.2 = y.2)
      (run_ops am_apply self0 [OpFillWrite 5 0; OpFillWrite 2 1; OpWrite [2; 2; 2]; OpFillWrite 1 3])
      (Ret ([0; 0; 0; 0; 0; 1; 1; 2; 2; 2],
        [None; None; None; Some (InvalidInput "aligned memory fill_write failed"%string)])).
Proof.
  apply (aligned_memory_refines_log (E := unit) 8 (WithCapacityZeroed 10)
    [OpFillWrite 5 0; OpFillWrite 2 1; OpWrite [2; 2; 2]; OpFillWrite 1 3]).
  - reflexivity.
  - vm_compute; congruence.
  - vm_compute; congruence.
  - repeat constructor; vm_compute; congruence.
Defined.

(** The data of a buffer from [from_slice], [with_capacity], [from] or [clone]
    starts at a multiple of [ALIGN], and stays there under every sequence of
    operations. *)
Theorem aligned_memory_aligned `{Al : Allocator} {E} (ALIGN : Z) (c : AmNew) (ops : list AmOp) :
  is_power_of_two ALIGN = true -> 0 <= log_max c -> log_max c + ALIGN <= i64_max ->
  (match c with FromSlice _ | WithCapacity _ => true | _ => false end) = true ->
  Forall op_ok ops ->
  exists self0, am_create (E := E) ALIGN c = Ret self0 /\
    is_memory_aligned (data_ptr self0) ALIGN = true /\
    forall self errs, run_ops am_apply self0 ops = Ret (self, errs) ->
      is_memory_aligned (data_ptr self) ALIGN = true /\
      exists copy, clone (E := E) ALIGN self = Ret copy /\
        as_slice (E := E) copy = as_slice self /\ is_memory_aligned (data_ptr copy) ALIGN = true.
Proof.
  intros Ha H0 Hc Hk Hops.
  assert (Hpos : 0 < ALIGN) by (pose proof Ha as Hp; apply andb_true_iff in Hp as [Hp _]; by apply Z.ltb_lt).
  assert (Hyes : forall p, p mod ALIGN = 0 -> is_memory_aligned p ALIGN = true).
  { intros p Hp. unfold is_memory_aligned. destruct (Z.eqb_spec ALIGN 0); [lia|]. cbn. by apply Z.eqb_eq. }
  destruct (create_sim (E := E) ALIGN c Ha H0 Hc) as (self0 & -> & Hsim & Hal).
  assert (Hal0 : data_ptr self0 mod ALIGN = 0) by by destruct c.
  exists self0. split_and!; [done|by apply Hyes|]. intros self errs Hrun.
  pose proof (sim_run _ _ _ _ Hops _ _ Hsim) as Hsr. rewrite Hrun in Hsr.
  destruct (run_ops (log_apply _) _ ops) as [[data errs']|e'|f']; try done.
  destruct Hsr as [(Hrep & Hoff & Hmax) _]. cbn [fst] in *.
  assert (Hdata : data_ptr self = data_ptr self0) by (unfold data_ptr; by rewrite (rep_ptr _ _ _ Hrep), Hoff).
  split; [rewrite Hdata; by apply Hyes|]. unfold clone.
  rewrite (rep_as_slice _ _ _ Hrep). cbn [exec_bind].
  pose proof (rep_max _ _ _ Hrep). pose proof (zlen_nonneg data).
  destruct (create_sim (E := E) ALIGN (FromSlice data) Ha) as (copy & Hcopy & Hcs & Hca); cbn; [lia..|].
  exists copy. split; [done|]. split; [|by apply Hyes]. exact (rep_as_slice _ _ _ (proj1 Hcs)).
Qed.

Lemma aligned_memory_aligned_witness :
  exists self0, am_create (E := unit) 16 (FromSlice [1; 2; 3]) = Ret self0 /\
    is_memory_aligned (data_ptr self0) 16 = true /\
    forall self errs, run_ops am_apply self0 [OpCopyFromSlice [4; 5; 6]] = Ret (self, errs) ->
      is_memory_aligned (data_ptr self) 16 = true /\
      exists copy, clone (E := unit) 16 self = Ret copy /\
        as_slice (E := unit) copy = as_slice self /\ is_memory_aligned (data_ptr copy) 16 = true.
Proof.
  apply (aligned_memory_aligned (E := unit) 16 (FromSlice [1; 2; 3]) [OpCopyFromSlice [4; 5; 6]]).
  - reflexivity.
  - vm_compute; congruence.
  - vm_compute; congruence.
  - reflexivity.
  - repeat constructor.
Defined.

(** [zero_filled] and [with_capacity_zeroed] do not align their data in general:
    the offset is computed for the address of the first allocation, and the [resize]
    that makes room for it may move the buffer.  There is an allocator that grants
    what [Vec] asks for and returns a buffer whose data starts at an address that is
    not a multiple of [ALIGN], for both constructors. *)
Theorem zeroed_memory_misaligned :
  exists (Al : Allocator) (filled empty : AlignedMemory),
    @zero_filled Al 16 unit 8 = Ret filled /\ is_memory_aligned (data_ptr filled) 16 = false /\
    @with_capacity_zeroed Al 16 unit 8 = Ret empty /\ is_memory_aligned (data_ptr empty) 16 = false.
Proof. exists bump_allocator. eexists _, _. vm_compute. done. Qed.
