(* ===== verification/ElfParser.v ===== *)
(** The ELF parser (src/elf_parser): tables of headers, symbols, relocations and
    dynamic entries read from the bytes of a file without copying, strings, and the
    checks of the layout of a file.  A reference into the file that the source creates
    by casting a pointer is a raw read here, which faults when it leaves the file. *)
From Stdlib Require Import Sorted.
From S2P Require Import Prelude.
Open Scope rust_scope.

(** * Constants *)

(* src/elf_parser/consts.rs:5-5, ELFMAG *)
Definition ELFMAG : list Z := [0x7F; 0x45; 0x4C; 0x46].
(* src/elf_parser/consts.rs:9-9, ELFCLASS64 *)
Definition ELFCLASS64 : Z := 2.
(* src/elf_parser/consts.rs:12-12, ELFDATA2LSB *)
Definition ELFDATA2LSB : Z := 1.
(* src/elf_parser/consts.rs:16-16, ELFOSABI_NONE *)
Definition ELFOSABI_NONE : Z := 0.
(* src/elf_parser/consts.rs:18-18, EM_BPF *)
Definition EM_BPF : Z := 247.
(* src/elf_parser/consts.rs:19-19, EM_SBPF *)
Definition EM_SBPF : Z := 263.
(* src/elf_parser/consts.rs:24-24, ET_DYN *)
Definition ET_DYN : Z := 3.
(* src/elf_parser/consts.rs:28-28, EV_CURRENT *)
Definition EV_CURRENT : Z := 1.
(* src/elf_parser/consts.rs:31-31, PT_LOAD *)
Definition PT_LOAD : Z := 1.
(* src/elf_parser/consts.rs:32-32, PT_DYNAMIC *)
Definition PT_DYNAMIC : Z := 2.
(* src/elf_parser/consts.rs:41-41, PF_X *)
Definition PF_X : Z := 0x1.
(* src/elf_parser/consts.rs:43-43, PF_R *)
Definition PF_R : Z := 0x4.
(* src/elf_parser/consts.rs:45-45, SHT_NULL *)
Definition SHT_NULL : Z := 0.
(* src/elf_parser/consts.rs:47-47, SHT_SYMTAB *)
Definition SHT_SYMTAB : Z := 2.
(* src/elf_parser/consts.rs:48-48, SHT_STRTAB *)
Definition SHT_STRTAB : Z := 3.
(* src/elf_parser/consts.rs:51-51, SHT_DYNAMIC *)
Definition SHT_DYNAMIC : Z := 6.
(* src/elf_parser/consts.rs:53-53, SHT_NOBITS *)
Definition SHT_NOBITS : Z := 8.
(* src/elf_parser/consts.rs:56-56, SHT_DYNSYM *)
Definition SHT_DYNSYM : Z := 11.
(* src/elf_parser/consts.rs:63-63, SHF_WRITE *)
Definition SHF_WRITE : Z := 0x1.
(* src/elf_parser/consts.rs:64-64, SHF_ALLOC *)
Definition SHF_ALLOC : Z := 0x2.
(* src/elf_parser/consts.rs:74-74, SHN_UNDEF *)
Definition SHN_UNDEF : Z := 0.
(* src/elf_parser/consts.rs:76-76, DT_NULL *)
Definition DT_NULL : Z := 0.
(* src/elf_parser/consts.rs:82-82, DT_SYMTAB *)
Definition DT_SYMTAB : Z := 6.
(* src/elf_parser/consts.rs:93-93, DT_REL *)
Definition DT_REL : Z := 17.
(* src/elf_parser/consts.rs:94-94, DT_RELSZ *)
Definition DT_RELSZ : Z := 18.
(* src/elf_parser/consts.rs:95-95, DT_RELENT *)
Definition DT_RELENT : Z := 19.
(* src/elf_parser/consts.rs:111-111, DT_NUM *)
Definition DT_NUM : Z := 35.
(* src/elf_parser/consts.rs:115-115, STT_FUNC *)
Definition STT_FUNC : Z := 2.
(* src/elf_parser/consts.rs:127-127, R_X86_64_NONE *)
Definition R_X86_64_NONE : Z := 0.
(* src/elf_parser/consts.rs:128-128, R_X86_64_64 *)
Definition R_X86_64_64 : Z := 1.
(* src/elf_parser/consts.rs:135-135, R_X86_64_RELATIVE *)
Definition R_X86_64_RELATIVE : Z := 8.
(* src/elf_parser/consts.rs:137-137, R_X86_64_32 *)
Definition R_X86_64_32 : Z := 10.

(* src/elf_parser/mod.rs:11-12, SECTION_NAME_LENGTH_MAXIMUM *)
Definition SECTION_NAME_LENGTH_MAXIMUM : Z := 16.
(* src/elf_parser/mod.rs:13-13, SYMBOL_NAME_LENGTH_MAXIMUM *)
Definition SYMBOL_NAME_LENGTH_MAXIMUM : Z := 64.

(** [StringTooLong] carries the bytes of the name; the source converts them to text. *)
(* src/elf_parser/mod.rs:15-63, ElfParserError *)
Inductive ElfParserError :=
  | InvalidFileHeader
  | InvalidProgramHeader
  | InvalidSectionHeader
  | InvalidString
  | StringTooLong (name : list Z) (maximum : Z)
  | OutOfBounds
  | InvalidSize
  | Overlap
  | SectionNotInOrder
  | NoSectionNameStringTable
  | InvalidDynamicSectionTable
  | InvalidRelocationTable
  | InvalidAlignment
  | NoStringTable
  | NoDynamicStringTable.

(** Overflow in [err_checked_*] becomes [OutOfBounds] by [From<ArithmeticOverflow>]. *)
(* src/elf_parser/mod.rs:671-675, From<ArithmeticOverflow> for ElfParserError *)
Definition elf_error_of_overflow {A} (o : option A) : Exec ElfParserError A :=
  match o with Some a => Ret a | None => Err OutOfBounds end.
(* src/lib.rs:63-65, err_checked_add *)
Definition err_checked_add (a b : Z) : Exec ElfParserError Z := elf_error_of_overflow
    (u64_checked_add a b).
(* src/lib.rs:67-69, err_checked_sub *)
Definition err_checked_sub (a b : Z) : Exec ElfParserError Z :=
  elf_error_of_overflow (if b <=? a then Some (a - b) else None).
(* src/lib.rs:71-73, err_checked_mul *)
Definition err_checked_mul (a b : Z) : Exec ElfParserError Z :=
  elf_error_of_overflow (if a * b <=? u64_max then Some (a * b) else None).

(** [ok_or] *)
Definition ok_or {E A} (o : option A) (e : E) : Exec E A :=
  match o with Some a => Ret a | None => Err e end.

(** * Structures read from a file *)

(** The little-endian field of [n] bytes at [off]. *)
Definition field (bs : list Z) (off n : nat) : Z := le_value (take n (drop off bs)).

(* src/elf_parser/types.rs:10-20, ElfIdent *)
Record ElfIdent := mkElfIdent { ei_mag : list Z; ei_class : Z; ei_data : Z; ei_version : Z; ei_osabi
    : Z; ei_abiversion : Z; ei_pad : list Z }.
Definition ElfIdent_of_bytes (bs : list Z) : ElfIdent :=
  mkElfIdent (take 4 (drop 0 bs)) (field bs 4 1) (field bs 5 1) (field bs 6 1) (field bs 7 1) (field
    bs 8 1) (take 7 (drop 9 bs)).

(* src/elf_parser/types.rs:22-39, Elf64Ehdr *)
Record Elf64Ehdr := mkElf64Ehdr { e_ident : ElfIdent; e_type : Z; e_machine : Z; e_version : Z;
    e_entry : Z; e_phoff : Z; e_shoff : Z; e_flags : Z; e_ehsize : Z; e_phentsize : Z; e_phnum : Z;
    e_shentsize : Z; e_shnum : Z; e_shstrndx : Z }.
Definition Elf64Ehdr_of_bytes (bs : list Z) : Elf64Ehdr :=
  mkElf64Ehdr (ElfIdent_of_bytes bs) (field bs 16 2) (field bs 18 2) (field bs 20 4) (field bs 24 8)
    (field bs 32 8) (field bs 40 8) (field bs 48 4) (field bs 52 2) (field bs 54 2) (field bs 56 2)
    (field bs 58 2) (field bs 60 2) (field bs 62 2).

(* src/elf_parser/types.rs:41-52, Elf64Phdr *)
Record Elf64Phdr := mkElf64Phdr { p_type : Z; p_flags : Z; p_offset : Z; p_vaddr : Z; p_paddr : Z;
    p_filesz : Z; p_memsz : Z; p_align : Z }.
Definition Elf64Phdr_of_bytes (bs : list Z) : Elf64Phdr :=
  mkElf64Phdr (field bs 0 4) (field bs 4 4) (field bs 8 8) (field bs 16 8) (field bs 24 8) (field bs
    32 8) (field bs 40 8) (field bs 48 8).

(* src/elf_parser/types.rs:54-67, Elf64Shdr *)
Record Elf64Shdr := mkElf64Shdr { sh_name : Z; sh_type : Z; sh_flags : Z; sh_addr : Z; sh_offset :
    Z; sh_size : Z; sh_link : Z; sh_info : Z; sh_addralign : Z; sh_entsize : Z }.
Definition Elf64Shdr_of_bytes (bs : list Z) : Elf64Shdr :=
  mkElf64Shdr (field bs 0 4) (field bs 4 4) (field bs 8 8) (field bs 16 8) (field bs 24 8) (field bs
    32 8) (field bs 40 4) (field bs 44 4) (field bs 48 8) (field bs 56 8).

(* src/elf_parser/types.rs:69-78, Elf64Sym *)
Record Elf64Sym := mkElf64Sym { st_name : Z; st_info : Z; st_other : Z; st_shndx : Z; st_value : Z;
    st_size : Z }.
Definition Elf64Sym_of_bytes (bs : list Z) : Elf64Sym :=
  mkElf64Sym (field bs 0 4) (field bs 4 1) (field bs 5 1) (field bs 6 2) (field bs 8 8) (field bs 16 8).

(* src/elf_parser/types.rs:80-85, Elf64Dyn *)
Record Elf64Dyn := mkElf64Dyn { d_tag : Z; d_val : Z }.
Definition Elf64Dyn_of_bytes (bs : list Z) : Elf64Dyn :=
  mkElf64Dyn (field bs 0 8) (field bs 8 8).

(* src/elf_parser/types.rs:87-92, Elf64Rel *)
Record Elf64Rel := mkElf64Rel { r_offset : Z; r_info : Z }.
Definition Elf64Rel_of_bytes (bs : list Z) : Elf64Rel :=
  mkElf64Rel (field bs 0 8) (field bs 8 8).

(** A [repr(C)] structure: its size, its alignment, and its value in memory. *)
Class ElfPod (T : Type) := { size_of : Z; align_of : Z; of_bytes : list Z -> T; size_of_pos : 0 <
    size_of }.
Arguments size_of T {_}.
Arguments align_of T {_}.

#[export] Instance Elf64Ehdr_pod : ElfPod Elf64Ehdr :=
  {| size_of := 64; align_of := 8; of_bytes := Elf64Ehdr_of_bytes; size_of_pos := eq_refl |}.
#[export] Instance Elf64Phdr_pod : ElfPod Elf64Phdr :=
  {| size_of := 56; align_of := 8; of_bytes := Elf64Phdr_of_bytes; size_of_pos := eq_refl |}.
#[export] Instance Elf64Shdr_pod : ElfPod Elf64Shdr :=
  {| size_of := 64; align_of := 8; of_bytes := Elf64Shdr_of_bytes; size_of_pos := eq_refl |}.
#[export] Instance Elf64Sym_pod : ElfPod Elf64Sym :=
  {| size_of := 24; align_of := 8; of_bytes := Elf64Sym_of_bytes; size_of_pos := eq_refl |}.
#[export] Instance Elf64Dyn_pod : ElfPod Elf64Dyn :=
  {| size_of := 16; align_of := 8; of_bytes := Elf64Dyn_of_bytes; size_of_pos := eq_refl |}.
#[export] Instance Elf64Rel_pod : ElfPod Elf64Rel :=
  {| size_of := 16; align_of := 8; of_bytes := Elf64Rel_of_bytes; size_of_pos := eq_refl |}.

(** * Ranges and references into the file *)

(** [std::ops::Range<usize>] *)
Record Range := mkRange { r_start : Z; r_end : Z }.
Definition range_len (r : Range) : Z := Z.max 0 (r.(r_end) - r.(r_start)).
Definition range_contains (r : Range) (x : Z) : bool := (r.(r_start) <=? x) && (x <? r.(r_end)).
Definition empty_range : Range := mkRange 0 0.
(** [bytes.get(range)] *)
Definition get_range {A} (bs : list A) (r : Range) : option (list A) :=
  if (r.(r_start) <=? r.(r_end)) && (r.(r_end) <=? zlen bs)
  then Some (take (Z.to_nat (r.(r_end) - r.(r_start))) (drop (Z.to_nat r.(r_start)) bs)) else None.

(** [Option::filter] *)
Definition filter_option {A} (p : A -> bool) (o : option A) : option A :=
  match o with Some a => if p a then Some a else None | None => None end.

(** The structures at [off], read through a pointer into the file. *)
Definition pod_at {T} `{ElfPod T} (bs : list Z) (off : Z) : T :=
  of_bytes (take (Z.to_nat (size_of T)) (drop (Z.to_nat off) bs)).
Definition raw_slice {E} (T : Type) `{ElfPod T} (bs : list Z) (off count : Z) : Exec E (list T) :=
  if (0 <=? off) && (off + count * size_of T <=? zlen bs)
  then Ret ((fun i => pod_at bs (off + Z.of_nat i * size_of T)) <$> seq 0 (Z.to_nat count))
  else Panic InvalidHostAccess.
Definition raw_read {E} (T : Type) `{ElfPod T} (bs : list Z) (off : Z) : Exec E T :=
  if (0 <=? off) && (off + size_of T <=? zlen bs) then Ret (pod_at bs off) else Panic InvalidHostAccess.

(* src/elf_parser/mod.rs:66-72, Elf64Phdr::file_range *)
Definition phdr_file_range (self : Elf64Phdr) : option Range :=
  if self.(p_type) =? PT_LOAD
  then Some (mkRange self.(p_offset) (u64_saturating_add self.(p_offset) self.(p_filesz))) else None.
(* src/elf_parser/mod.rs:74-78, Elf64Phdr::vm_range *)
Definition phdr_vm_range (self : Elf64Phdr) : Range :=
  mkRange self.(p_vaddr) (u64_saturating_add self.(p_vaddr) self.(p_memsz)).

(* src/elf_parser/mod.rs:82-85, Elf64Shdr::is_writable *)
Definition is_writable (self : Elf64Shdr) : bool :=
  Z.land self.(sh_flags) (Z.lor SHF_ALLOC SHF_WRITE) =? Z.lor SHF_ALLOC SHF_WRITE.
(* src/elf_parser/mod.rs:87-93, Elf64Shdr::file_range *)
Definition shdr_file_range (self : Elf64Shdr) : option Range :=
  if negb (self.(sh_type) =? SHT_NOBITS)
  then Some (mkRange self.(sh_offset) (u64_saturating_add self.(sh_offset) self.(sh_size))) else None.
(* src/elf_parser/mod.rs:95-98, Elf64Shdr::vm_range *)
Definition shdr_vm_range (self : Elf64Shdr) : Range :=
  mkRange self.(sh_addr) (u64_saturating_add self.(sh_addr) self.(sh_size)).
(* src/elf_parser/mod.rs:102-105, Elf64Sym::is_function *)
Definition is_function (self : Elf64Sym) : bool := Z.land self.(st_info) 0xF =? STT_FUNC.
(* src/elf_parser/mod.rs:109-112, Elf64Rel::r_type *)
Definition r_type (self : Elf64Rel) : Z := as_u32 (Z.land self.(r_info) 0xFFFFFFFF).
(* src/elf_parser/mod.rs:114-117, Elf64Rel::r_sym *)
Definition r_sym (self : Elf64Rel) : Z := as_u32 (Z.shiftr self.(r_info) 32).

(* src/elf_parser/mod.rs:120-129, check_that_there_is_no_overlap *)
Definition check_that_there_is_no_overlap (range_a range_b : Range) : Exec ElfParserError unit :=
  if (range_a.(r_end) <=? range_b.(r_start)) || (range_b.(r_end) <=? range_a.(r_start))
  then Ret tt else Err Overlap.

(* src/elf_parser/mod.rs:131-144, Elf64 *)
Record Elf64 := mkElf64 {
  elf_bytes : list Z;
  file_header : Elf64Ehdr;
  program_header_table : list Elf64Phdr;
  section_header_table : list Elf64Shdr;
  section_names_section_header : option Elf64Shdr;
  symbol_section_header : option Elf64Shdr;
  symbol_names_section_header : option Elf64Shdr;
  dynamic_table : list Z;
  dynamic_relocations_table : option (list Elf64Rel);
  dynamic_symbol_table : option (list Elf64Sym);
  dynamic_symbol_names_section_header : option Elf64Shdr
}.

Section Parser.
(** The address of the file's first byte, on which alignment depends. *)
Context (addr : Z).

(* src/elf_parser/mod.rs:578-611, Elf64::slice_from_bytes *)
Definition slice_from_bytes (T : Type) `{ElfPod T} (bytes : list Z) (range : Range) :
    Exec ElfParserError (list T) :=
  if negb (range_len range mod size_of T =? 0) then Err InvalidSize
  else
    let! _ := ok_or (get_range bytes range) OutOfBounds in
    let ptr := addr + range.(r_start) in
    if negb (ptr mod align_of T =? 0) then Err InvalidAlignment
    else raw_slice T bytes range.(r_start) (range_len range / size_of T).

(* src/elf_parser/mod.rs:550-562, Elf64::slice_from_program_header *)
Definition slice_from_program_header (T : Type) `{ElfPod T} (bytes : list Z) (h : Elf64Phdr) :
    Exec ElfParserError (list T) :=
  let! end_ := err_checked_add h.(p_offset) h.(p_filesz) in
  slice_from_bytes T bytes (mkRange h.(p_offset) end_).

(* src/elf_parser/mod.rs:564-576, Elf64::slice_from_section_header *)
Definition slice_from_section_header (T : Type) `{ElfPod T} (bytes : list Z) (h : Elf64Shdr) :
    Exec ElfParserError (list T) :=
  let! end_ := err_checked_add h.(sh_offset) h.(sh_size) in
  slice_from_bytes T bytes (mkRange h.(sh_offset) end_).

(* src/elf_parser/mod.rs:271-289, Elf64::parse_file_header *)
Definition parse_file_header (bytes : list Z) : Exec ElfParserError (Range * Elf64Ehdr) :=
  let file_header_range := mkRange 0 (size_of Elf64Ehdr) in
  let! _ := ok_or (get_range bytes file_header_range) OutOfBounds in
  if negb (addr mod align_of Elf64Ehdr =? 0) then Err InvalidAlignment
  else
    let! file_header := raw_read Elf64Ehdr bytes 0 in
    Ret (file_header_range, file_header).

(* src/elf_parser/mod.rs:291-305, Elf64::parse_program_header_table *)
Definition parse_program_header_table (bytes : list Z) (file_header_range : Range)
    (file_header : Elf64Ehdr) : Exec ElfParserError (Range * list Elf64Phdr) :=
  let! size := err_checked_mul (size_of Elf64Phdr) file_header.(e_phnum) in
  let! end_ := err_checked_add size file_header.(e_phoff) in
  let program_header_table_range := mkRange file_header.(e_phoff) end_ in
  let! _ := check_that_there_is_no_overlap file_header_range program_header_table_range in
  let! table := slice_from_bytes Elf64Phdr bytes program_header_table_range in
  Ret (program_header_table_range, table).

(* src/elf_parser/mod.rs:307-323, Elf64::parse_section_header_table *)
Definition parse_section_header_table (bytes : list Z) (file_header_range : Range)
    (file_header : Elf64Ehdr) (program_header_table_range : Range) :
    Exec ElfParserError (Range * list Elf64Shdr) :=
  let! size := err_checked_mul (size_of Elf64Shdr) file_header.(e_shnum) in
  let! end_ := err_checked_add size file_header.(e_shoff) in
  let section_header_table_range := mkRange file_header.(e_shoff) end_ in
  let! _ := check_that_there_is_no_overlap file_header_range section_header_table_range in
  let! _ := check_that_there_is_no_overlap program_header_table_range section_header_table_range in
  let! table := slice_from_bytes Elf64Shdr bytes section_header_table_range in
  Ret (section_header_table_range, table).

(** The position of the first zero byte. *)
Definition nul_position (bs : list Z) : option nat := fst <$> list_find (fun b => b = 0) bs.

(* src/elf_parser/mod.rs:467-496, Elf64::get_string_in_section *)
Definition get_string_in_section (bytes : list Z) (section_header : Elf64Shdr)
    (offset_in_section maximum_length : Z) : Exec ElfParserError (list Z) :=
  if negb (section_header.(sh_type) =? SHT_STRTAB) then Err InvalidSectionHeader
  else
    let! offset_in_file := err_checked_add section_header.(sh_offset) offset_in_section in
    let! section_end := err_checked_add section_header.(sh_offset) section_header.(sh_size) in
    let! limit := err_checked_add offset_in_file maximum_length in
    let string_range := mkRange offset_in_file (Z.min section_end limit) in
    let! unterminated_string_bytes := ok_or (get_range bytes string_range) OutOfBounds in
    ok_or
      (string_length ← nul_position unterminated_string_bytes;
       get_range unterminated_string_bytes (mkRange 0 (Z.of_nat string_length)))
      (StringTooLong unterminated_string_bytes maximum_length).

(** The names the parser looks for. *)
Definition name_symtab : list Z := [0x2e; 0x73; 0x79; 0x6d; 0x74; 0x61; 0x62].
Definition name_strtab : list Z := [0x2e; 0x73; 0x74; 0x72; 0x74; 0x61; 0x62].
Definition name_dynstr : list Z := [0x2e; 0x64; 0x79; 0x6e; 0x73; 0x74; 0x72].

(** One arm of the macro [section_header_by_name]: a second section of the name is
    an error. *)
Definition set_once (old : option Elf64Shdr) (h : Elf64Shdr) : Exec ElfParserError (option Elf64Shdr) :=
  match old with Some _ => Err InvalidSectionHeader | None => Ret (Some h) end.

(** [self] with the sections found by name. *)
Definition with_named (self : Elf64) (symtab strtab dynstr : option Elf64Shdr) : Elf64 :=
  mkElf64 self.(elf_bytes) self.(file_header) self.(program_header_table) self.(section_header_table)
    self.(section_names_section_header) symtab strtab self.(dynamic_table)
    self.(dynamic_relocations_table) self.(dynamic_symbol_table) dynstr.

(* src/elf_parser/mod.rs:343-356, Elf64::parse_sections *)
Fixpoint parse_sections_loop (names : Elf64Shdr) (table : list Elf64Shdr) (self : Elf64) :
    Exec ElfParserError Elf64 :=
  match table with
  | [] => Ret self
  | h :: table =>
      let! name := get_string_in_section self.(elf_bytes) names h.(sh_name) SECTION_NAME_LENGTH_MAXIMUM in
      let symtab := self.(symbol_section_header) in
      let strtab := self.(symbol_names_section_header) in
      let dynstr := self.(dynamic_symbol_names_section_header) in
      let! self :=
        if bool_decide (name = name_symtab) then
          let! x := set_once symtab h in Ret (with_named self x strtab dynstr)
        else if bool_decide (name = name_strtab) then
          let! x := set_once strtab h in Ret (with_named self symtab x dynstr)
        else if bool_decide (name = name_dynstr) then
          let! x := set_once dynstr h in Ret (with_named self symtab strtab x)
        else Ret self in
      parse_sections_loop names table self
  end.

(* src/elf_parser/mod.rs:325-359, Elf64::parse_sections *)
Definition parse_sections (self : Elf64) : Exec ElfParserError Elf64 :=
  let! names := ok_or self.(section_names_section_header) NoSectionNameStringTable in
  parse_sections_loop names self.(section_header_table) self.

(* src/elf_parser/mod.rs:538-548, Elf64::get_symbol_table_of_section *)
Definition get_symbol_table_of_section (self : Elf64) (h : Elf64Shdr) : Exec ElfParserError (list Elf64Sym) :=
  if negb (h.(sh_type) =? SHT_SYMTAB) && negb (h.(sh_type) =? SHT_DYNSYM) then Err InvalidSectionHeader
  else slice_from_section_header Elf64Sym self.(elf_bytes) h.

(* src/elf_parser/mod.rs:613-627, Elf64::program_header_for_vaddr *)
Fixpoint program_header_for_vaddr (table : list Elf64Phdr) (vaddr : Z) :
    Exec ElfParserError (option Elf64Phdr) :=
  match table with
  | [] => Ret None
  | h :: table =>
      let! end_ := err_checked_add h.(p_vaddr) h.(p_memsz) in
      if range_contains (mkRange h.(p_vaddr) end_) vaddr then Ret (Some h)
      else program_header_for_vaddr table vaddr
  end.

(* src/elf_parser/mod.rs:415-449, Elf64::parse_dynamic_relocations *)
Definition parse_dynamic_relocations (self : Elf64) : Exec ElfParserError (option (list Elf64Rel)) :=
  let! vaddr := index_slice self.(dynamic_table) DT_REL in
  if vaddr =? 0 then Ret None
  else
    let! entry_size := index_slice self.(dynamic_table) DT_RELENT in
    if negb (entry_size =? size_of Elf64Rel) then Err InvalidDynamicSectionTable
    else
      let! size := index_slice self.(dynamic_table) DT_RELSZ in
      if size =? 0 then Err InvalidDynamicSectionTable
      else
        let! program_header := program_header_for_vaddr self.(program_header_table) vaddr in
        let! offset :=
          match program_header with
          | Some h =>
              let! d := err_checked_sub vaddr h.(p_vaddr) in err_checked_add d h.(p_offset)
          | None =>
              let! h := ok_or (snd <$> list_find (fun h => h.(sh_addr) = vaddr) self.(section_header_table))
                          InvalidDynamicSectionTable in
              Ret h.(sh_offset)
          end in
        let! end_ := err_checked_add offset size in
        exec_map_err (fun _ => InvalidDynamicSectionTable)
          (let! table := slice_from_bytes Elf64Rel self.(elf_bytes) (mkRange offset end_) in Ret (Some table)).

(* src/elf_parser/mod.rs:451-465, Elf64::parse_dynamic_symbol_table *)
Definition parse_dynamic_symbol_table (self : Elf64) : Exec ElfParserError (option (list Elf64Sym)) :=
  let! vaddr := index_slice self.(dynamic_table) DT_SYMTAB in
  if vaddr =? 0 then Ret None
  else
    let! h := ok_or (snd <$> list_find (fun h => h.(sh_addr) = vaddr) self.(section_header_table))
                InvalidDynamicSectionTable in
    let! table := get_symbol_table_of_section self h in
    Ret (Some table).

(** The expansion of the dynamic entries, which stops at [DT_NULL]. *)
(* src/elf_parser/mod.rs:396-407, Elf64::parse_dynamic *)
Fixpoint expand_dynamic (entries : list Elf64Dyn) (table : list Z) : Exec ElfParserError (list Z) :=
  match entries with
  | [] => Ret table
  | d :: entries =>
      if d.(d_tag) =? DT_NULL then Ret table
      else if DT_NUM <=? d.(d_tag) then expand_dynamic entries table
      else
        let! _ := index_slice table d.(d_tag) in
        expand_dynamic entries (<[Z.to_nat d.(d_tag) := d.(d_val)]> table)
  end.

Definition with_dynamic (self : Elf64) (table : list Z) (relocations : option (list Elf64Rel))
    (symbols : option (list Elf64Sym)) : Elf64 :=
  mkElf64 self.(elf_bytes) self.(file_header) self.(program_header_table) self.(section_header_table)
    self.(section_names_section_header) self.(symbol_section_header) self.(symbol_names_section_header)
    table relocations symbols self.(dynamic_symbol_names_section_header).

(** [Result::ok] *)
Definition exec_ok {E F A} (m : Exec E A) : Exec F (option A) :=
  match m with Ret a => Ret (Some a) | Err _ => Ret None | Panic f => Panic f end.

(* src/elf_parser/mod.rs:361-413, Elf64::parse_dynamic *)
Definition parse_dynamic (self : Elf64) : Exec ElfParserError Elf64 :=
  let! from_program_header :=
    match snd <$> list_find (fun h => h.(p_type) = PT_DYNAMIC) self.(program_header_table) with
    | Some h => exec_ok (slice_from_program_header Elf64Dyn self.(elf_bytes) h)
    | None => Ret None
    end in
  let! table :=
    match from_program_header with
    | Some t => Ret (Some t)
    | None =>
        match snd <$> list_find (fun h => h.(sh_type) = SHT_DYNAMIC) self.(section_header_table) with
        | Some h =>
            let! t := exec_map_err (fun _ => InvalidDynamicSectionTable)
                        (slice_from_section_header Elf64Dyn self.(elf_bytes) h) in
            Ret (Some t)
        | None => Ret None
        end
    end in
  match table with
  | None => Ret self
  | Some entries =>
      let! dynamic_table := expand_dynamic entries self.(dynamic_table) in
      let self := with_dynamic self dynamic_table self.(dynamic_relocations_table) self.(dynamic_symbol_table) in
      let! relocations := parse_dynamic_relocations self in
      let self := with_dynamic self dynamic_table relocations self.(dynamic_symbol_table) in
      let! symbols := parse_dynamic_symbol_table self in
      Ret (with_dynamic self dynamic_table relocations symbols)
  end.

(** Loadable segments ascend in virtual address and lie inside of the file. *)
(* src/elf_parser/mod.rs:179-196, Elf64::parse *)
Fixpoint check_segments (bytes : list Z) (vaddr : Z) (table : list Elf64Phdr) : Exec ElfParserError unit :=
  match table with
  | [] => Ret tt
  | h :: table =>
      if negb (h.(p_type) =? PT_LOAD) then check_segments bytes vaddr table
      else if h.(p_vaddr) <? vaddr then Err InvalidProgramHeader
      else
        let! end_ := err_checked_add h.(p_offset) h.(p_filesz) in
        if zlen bytes <? end_ then Err OutOfBounds
        else check_segments bytes h.(p_vaddr) table
  end.

(** Sections with contents ascend in the file and overlap no header. *)
(* src/elf_parser/mod.rs:198-216, Elf64::parse *)
Fixpoint check_sections (bytes : list Z) (headers : Range * Range * Range) (offset : Z)
    (table : list Elf64Shdr) : Exec ElfParserError unit :=
  let '(file_header_range, program_header_table_range, section_header_table_range) := headers in
  match table with
  | [] => Ret tt
  | h :: table =>
      if h.(sh_type) =? SHT_NOBITS then check_sections bytes headers offset table
      else
        let! end_ := err_checked_add h.(sh_offset) h.(sh_size) in
        let section_range := mkRange h.(sh_offset) end_ in
        let! _ := check_that_there_is_no_overlap section_range file_header_range in
        let! _ := check_that_there_is_no_overlap section_range program_header_table_range in
        let! _ := check_that_there_is_no_overlap section_range section_header_table_range in
        if section_range.(r_start) <? offset then Err SectionNotInOrder
        else
          let offset := section_range.(r_end) in
          if zlen bytes <? offset then Err OutOfBounds
          else check_sections bytes headers offset table
  end.

(* src/elf_parser/mod.rs:147-244, Elf64::parse *)
Definition parse (bytes : list Z) : Exec ElfParserError Elf64 :=
  let! (file_header_range, file_header) := parse_file_header bytes in
  if negb (bool_decide (file_header.(e_ident).(ei_mag) = ELFMAG))
     || negb (file_header.(e_ident).(ei_class) =? ELFCLASS64)
     || negb (file_header.(e_ident).(ei_data) =? ELFDATA2LSB)
     || negb (file_header.(e_ident).(ei_version) =? as_u8 EV_CURRENT)
     || negb (file_header.(e_version) =? EV_CURRENT)
     || negb (file_header.(e_ehsize) =? as_u16 (size_of Elf64Ehdr))
     || negb (file_header.(e_phentsize) =? as_u16 (size_of Elf64Phdr))
     || negb (file_header.(e_shentsize) =? as_u16 (size_of Elf64Shdr))
     || (file_header.(e_shnum) <=? file_header.(e_shstrndx))
  then Err InvalidFileHeader
  else
    let! (program_header_table_range, program_header_table) :=
      parse_program_header_table bytes file_header_range file_header in
    let! (section_header_table_range, section_header_table) :=
      parse_section_header_table bytes file_header_range file_header program_header_table_range in
    let! _ := ok_or (filter_option (fun h => h.(sh_type) =? SHT_NULL) (head section_header_table))
                InvalidSectionHeader in
    let! _ := check_segments bytes 0 program_header_table in
    let! _ := check_sections bytes
                (file_header_range, program_header_table_range, section_header_table_range)
                0 section_header_table in
    let! section_names_section_header :=
      if negb (file_header.(e_shstrndx) =? SHN_UNDEF) then
        let! h := ok_or (section_header_table !! Z.to_nat file_header.(e_shstrndx)) OutOfBounds in
        Ret (Some h)
      else Ret None in
    let parser :=
      mkElf64 bytes file_header program_header_table section_header_table
        section_names_section_header None None (replicate (Z.to_nat DT_NUM) 0) None None None in
    let! parser := parse_sections parser in
    parse_dynamic parser.

(* src/elf_parser/mod.rs:498-507, Elf64::section_name *)
Definition section_name (self : Elf64) (sh_name : Z) : Exec ElfParserError (list Z) :=
  let! h := ok_or self.(section_names_section_header) NoSectionNameStringTable in
  get_string_in_section self.(elf_bytes) h sh_name SECTION_NAME_LENGTH_MAXIMUM.

(* src/elf_parser/mod.rs:509-518, Elf64::symbol_name *)
Definition symbol_name (self : Elf64) (st_name : Z) : Exec ElfParserError (list Z) :=
  let! h := ok_or self.(symbol_names_section_header) NoStringTable in
  get_string_in_section self.(elf_bytes) h st_name SYMBOL_NAME_LENGTH_MAXIMUM.

(* src/elf_parser/mod.rs:520-525, Elf64::symbol_table *)
Definition symbol_table (self : Elf64) : Exec ElfParserError (option (list Elf64Sym)) :=
  match self.(symbol_section_header) with
  | Some h => let! t := get_symbol_table_of_section self h in Ret (Some t)
  | None => Ret None
  end.

(* src/elf_parser/mod.rs:527-536, Elf64::dynamic_symbol_name *)
Definition dynamic_symbol_name (self : Elf64) (st_name : Z) : Exec ElfParserError (list Z) :=
  let! h := ok_or self.(dynamic_symbol_names_section_header) NoDynamicStringTable in
  get_string_in_section self.(elf_bytes) h st_name SYMBOL_NAME_LENGTH_MAXIMUM.
End Parser.

(** * What a parsed file looks like *)

Definition ranges_disjoint (a b : Range) : Prop := a.(r_end) <= b.(r_start) \/ b.(r_end) <= a.(r_start).

(** The table of [n] structures at [off]. *)
Definition table_at (T : Type) `{ElfPod T} (bs : list Z) (off n : Z) (table : list T) : Prop :=
  0 <= off /\ 0 <= n /\ off + n * size_of T <= zlen bs /\
  table = (fun i => pod_at bs (off + Z.of_nat i * size_of T)) <$> seq 0 (Z.to_nat n).

Definition has_contents (h : Elf64Shdr) : Prop := h.(sh_type) <> SHT_NOBITS.
#[export] Instance has_contents_dec h : Decision (has_contents h).
Proof. unfold has_contents. apply _. Defined.
Definition section_range (h : Elf64Shdr) : Range := mkRange h.(sh_offset) (h.(sh_offset) + h.(sh_size)).

Definition phdr_table_range (fh : Elf64Ehdr) : Range :=
  mkRange fh.(e_phoff) (fh.(e_phoff) + fh.(e_phnum) * size_of Elf64Phdr).
Definition shdr_table_range (fh : Elf64Ehdr) : Range :=
  mkRange fh.(e_shoff) (fh.(e_shoff) + fh.(e_shnum) * size_of Elf64Shdr).
Definition file_header_range : Range := mkRange 0 (size_of Elf64Ehdr).

(** The contents of a section lie inside of the file and outside of the headers. *)
Definition section_placed (bs : list Z) (fh : Elf64Ehdr) (h : Elf64Shdr) : Prop :=
  0 <= h.(sh_offset) /\ h.(sh_offset) + h.(sh_size) <= zlen bs /\
  ranges_disjoint (section_range h) file_header_range /\
  ranges_disjoint (section_range h) (phdr_table_range fh) /\
  ranges_disjoint (section_range h) (shdr_table_range fh).

Record elf_layout (bs : list Z) (elf : Elf64) : Prop := mkLayout {
  ly_bytes : elf.(elf_bytes) = bs;
  ly_header : elf.(file_header) = pod_at bs 0 /\ size_of Elf64Ehdr <= zlen bs;
  ly_segments : table_at Elf64Phdr bs elf.(file_header).(e_phoff) elf.(file_header).(e_phnum)
                  elf.(program_header_table);
  ly_sections : table_at Elf64Shdr bs elf.(file_header).(e_shoff) elf.(file_header).(e_shnum)
                  elf.(section_header_table);
  ly_headers : ranges_disjoint file_header_range (phdr_table_range elf.(file_header)) /\
    ranges_disjoint file_header_range (shdr_table_range elf.(file_header)) /\
    ranges_disjoint (phdr_table_range elf.(file_header)) (shdr_table_range elf.(file_header));
  ly_loads : Forall (fun h => h.(p_type) = PT_LOAD -> h.(p_offset) + h.(p_filesz) <= zlen bs)
               elf.(program_header_table) /\
    StronglySorted Z.le (p_vaddr <$> filter (fun h => h.(p_type) = PT_LOAD) elf.(program_header_table));
  ly_placed : Forall (section_placed bs elf.(file_header))
                (filter has_contents elf.(section_header_table));
  ly_ordered : StronglySorted (fun a b => a.(sh_offset) + a.(sh_size) <= b.(sh_offset))
                 (filter has_contents elf.(section_header_table));
  ly_names : exists names, elf.(section_names_section_header) = Some names /\
    names ∈ elf.(section_header_table);
  ly_named : forall h, elf.(symbol_section_header) = Some h \/ elf.(symbol_names_section_header) = Some h \/
    elf.(dynamic_symbol_names_section_header) = Some h -> h ∈ elf.(section_header_table);
  ly_dynamic : length elf.(dynamic_table) = Z.to_nat DT_NUM;
  ly_relocations : forall t, elf.(dynamic_relocations_table) = Some t ->
    exists off n, table_at Elf64Rel bs off n t /\ 0 < n;
  ly_symbols : forall t, elf.(dynamic_symbol_table) = Some t -> exists off n, table_at Elf64Sym bs off n t
}.

(** * Proofs *)


Lemma safe_ok_or {E A} (Q : A -> Prop) (o : option A) (e : E) :
  (forall a, o = Some a -> Q a) -> safe (ok_or o e) Q.
Proof. destruct o; cbn; auto. Qed.
Lemma safe_exec_ok {E F A} (Q : A -> Prop) (m : Exec E A) :
  safe m Q -> safe (exec_ok (F := F) m) (fun o => forall a, o = Some a -> Q a).
Proof. destruct m; cbn; [|done..]. intros ? ? [= <-]. done. Qed.
Lemma safe_index_slice {E A} (Q : A -> Prop) (l : list A) (i : Z) :
  0 <= i < zlen l -> (forall a, l !! Z.to_nat i = Some a -> Q a) -> safe (index_slice (E := E) l i) Q.
Proof. intros Hi HQ. destruct (index_slice_Ret (E := E) l i Hi) as (a & Ha & ->). cbn. auto. Qed.

Lemma safe_checked_add (a b : Z) : safe (err_checked_add a b) (fun s => s = a + b).
Proof. unfold err_checked_add, u64_checked_add. by destruct (_ <=? _). Qed.
Lemma safe_checked_mul (a b : Z) : safe (err_checked_mul a b) (fun s => s = a * b).
Proof. unfold err_checked_mul. by destruct (_ <=? _). Qed.
Lemma safe_checked_sub (a b : Z) : safe (err_checked_sub a b) (fun s => s = a - b /\ b <= a).
Proof. unfold err_checked_sub. destruct (Z.leb_spec b a); cbn; auto. Qed.
Lemma safe_no_overlap (a b : Range) : safe (check_that_there_is_no_overlap a b) (fun _ => ranges_disjoint a b).
Proof.
  unfold check_that_there_is_no_overlap. destruct (_ || _) eqn:H; [|done].
  cbn. apply orb_true_iff in H as [H%Z.leb_le|H%Z.leb_le]; [by left|by right].
Qed.


Lemma field_nonneg (bs : list Z) (off n : nat) : bytes_ok bs -> 0 <= field bs off n.
Proof. intros. apply (le_value_range (take n (drop off bs))). by apply Forall_take, Forall_drop. Qed.

(** The fields of structures read from bytes are not negative. *)
Lemma pod_at_bytes (bs : list Z) (n : nat) (off : Z) : bytes_ok bs -> bytes_ok (take n (drop (Z.to_nat off) bs)).
Proof. intros. by apply Forall_take, Forall_drop. Qed.
Lemma ehdr_nonneg (bs : list Z) (off : Z) :
  bytes_ok bs -> let h : Elf64Ehdr := pod_at bs off in
  0 <= h.(e_phoff) /\ 0 <= h.(e_phnum) /\ 0 <= h.(e_shoff) /\ 0 <= h.(e_shnum).
Proof. intros. cbn. split_and!; apply field_nonneg, pod_at_bytes; done. Qed.
Lemma phdr_nonneg (bs : list Z) (off : Z) :
  bytes_ok bs -> let h : Elf64Phdr := pod_at bs off in 0 <= h.(p_offset) /\ 0 <= h.(p_filesz) /\ 0 <= h.(p_vaddr).
Proof. intros. cbn. split_and!; apply field_nonneg, pod_at_bytes; done. Qed.
Lemma shdr_nonneg (bs : list Z) (off : Z) :
  bytes_ok bs -> let h : Elf64Shdr := pod_at bs off in 0 <= h.(sh_offset) /\ 0 <= h.(sh_size).
Proof. intros. cbn. split_and!; apply field_nonneg, pod_at_bytes; done. Qed.
Lemma dyn_nonneg (bs : list Z) (off : Z) : bytes_ok bs -> 0 <= (pod_at bs off : Elf64Dyn).(d_tag) /\ 0 <= (pod_at bs off : Elf64Dyn).(d_val).
Proof. intros. cbn. split; apply field_nonneg, pod_at_bytes; done. Qed.

Lemma get_range_Some {A} (bs : list A) (r : Range) (s : list A) :
  get_range bs r = Some s -> r.(r_start) <= r.(r_end) <= zlen bs.
Proof.
  unfold get_range. destruct (_ && _) eqn:H; [|done]. intros _.
  apply andb_true_iff in H as [H1%Z.leb_le H2%Z.leb_le]. done.
Qed.

(** A slice of structures is the table at its offset. *)
Lemma slice_from_bytes_spec (addr : Z) (T : Type) `{ElfPod T} (bs : list Z) (r : Range) :
  0 <= r.(r_start) ->
  safe (slice_from_bytes addr T bs r) (fun t =>
    r.(r_start) <= r.(r_end) <= zlen bs /\
    exists n, table_at T bs r.(r_start) n t /\ n * size_of T = r.(r_end) - r.(r_start)).
Proof.
  intros H0. unfold slice_from_bytes. pose proof (size_of_pos (T := T)) as Hpos.
  destruct (Z.eqb_spec (range_len r mod size_of T) 0) as [Hmod|]; [|done]. cbn [negb].
  eapply (safe_bind (fun _ => r.(r_start) <= r.(r_end) <= zlen bs));
    [apply safe_ok_or; intros s; apply get_range_Some|]. intros _ Hr.
  destruct (_ =? 0); [|done]. cbn [negb]. unfold raw_slice.
  assert (Hlen : range_len r = r.(r_end) - r.(r_start)) by (unfold range_len; lia).
  assert (Hn : range_len r / size_of T * size_of T = r.(r_end) - r.(r_start)).
  { pose proof (Z.div_mod (range_len r) (size_of T)). lia. }
  rewrite (proj2 (Z.leb_le _ _)), (proj2 (Z.leb_le _ _)) by lia. cbn. split; [done|].
  exists (range_len r / size_of T). split; [|done].
  unfold table_at. rewrite Hn. split_and!; [done| |lia|done]. apply Z.div_pos; lia.
Qed.

Lemma table_at_elem (T : Type) `{ElfPod T} (bs : list Z) (off n : Z) (table : list T) (x : T) :
  table_at T bs off n table -> x ∈ table -> exists o, x = pod_at bs o.
Proof. intros (_ & _ & _ & ->) (i & -> & _)%list_elem_of_fmap. eauto. Qed.

Lemma list_find_elem {A} (P : A -> Prop) `{forall x, Decision (P x)} (l : list A) (x : A) :
  snd <$> list_find P l = Some x -> x ∈ l.
Proof.
  intros ([i y] & Hf & ->)%fmap_Some. apply list_find_Some in Hf as (Hi & _).
  by eapply list_elem_of_lookup_2.
Qed.

Lemma check_segments_spec (bs : list Z) (table : list Elf64Phdr) (vaddr : Z) :
  safe (check_segments bs vaddr table) (fun _ =>
    Forall (fun h => h.(p_type) = PT_LOAD -> h.(p_offset) + h.(p_filesz) <= zlen bs) table /\
    StronglySorted Z.le (vaddr :: (p_vaddr <$> filter (fun h => h.(p_type) = PT_LOAD) table))).
Proof.
  revert vaddr. induction table as [|h table IH]; intros vaddr; cbn [check_segments].
  - split; [done|]. repeat constructor.
  - destruct (Z.eqb_spec h.(p_type) PT_LOAD) as [Hl|Hl]; cbn [negb].
    + destruct (Z.ltb_spec h.(p_vaddr) vaddr); [done|].
      eapply safe_bind; [apply safe_checked_add|]. intros ? ->.
      destruct (Z.ltb_spec (zlen bs) (h.(p_offset) + h.(p_filesz))); [done|].
      eapply safe_mono; [apply IH|]. intros _ [HF HS]. rewrite filter_cons_True by done. cbn.
      split; [by constructor|]. constructor; [done|]. apply StronglySorted_inv in HS as [_ HS].
      constructor; [lia|]. eapply Forall_impl; [exact HS|]. cbn. lia.
    + rewrite filter_cons_False by done. eapply safe_mono; [apply IH|]. intros _ [HF HS].
      split; [by constructor|done].
Qed.

Lemma check_sections_spec (bs : list Z) (fr pr sr : Range) (table : list Elf64Shdr) (off : Z) :
  Forall (fun h => 0 <= h.(sh_size)) table ->
  safe (check_sections bs (fr, pr, sr) off table) (fun _ =>
    Forall (fun h => off <= h.(sh_offset) /\ h.(sh_offset) + h.(sh_size) <= zlen bs /\
      ranges_disjoint (section_range h) fr /\ ranges_disjoint (section_range h) pr /\
      ranges_disjoint (section_range h) sr) (filter has_contents table) /\
    StronglySorted (fun a b => a.(sh_offset) + a.(sh_size) <= b.(sh_offset)) (filter has_contents table)).
Proof.
  intros Hpos. revert off. induction Hpos as [|h table Hh Hpos IH]; intros off; cbn [check_sections].
  { split; [done|constructor]. }
  destruct (Z.eqb_spec h.(sh_type) SHT_NOBITS) as [Hn|Hn].
  { rewrite filter_cons_False by (unfold has_contents; tauto). apply IH. }
  eapply safe_bind; [apply safe_checked_add|]. intros ? ->. cbn [r_start r_end].
  eapply safe_bind; [apply safe_no_overlap|]. intros [] H1.
  eapply safe_bind; [apply safe_no_overlap|]. intros [] H2.
  eapply safe_bind; [apply safe_no_overlap|]. intros [] H3.
  destruct (Z.ltb_spec h.(sh_offset) off); [done|].
  destruct (Z.ltb_spec (zlen bs) (h.(sh_offset) + h.(sh_size))); [done|].
  rewrite filter_cons_True by done. eapply safe_mono; [apply IH|]. intros _ [HF HS].
  split; constructor; try done.
  - eapply Forall_impl; [exact HF|]. cbn. intros x (? & ? & ? & ? & ?). split_and!; (done || lia).
  - eapply Forall_impl; [exact HF|]. cbn. tauto.
Qed.

(** A string lookup does not fault; a string it returns has no zero byte, and the
    file holds it in the section, followed by a zero byte, within the limit. *)
Definition string_at (bs : list Z) (h : Elf64Shdr) (off maximum : Z) (s : list Z) : Prop :=
  h.(sh_type) = SHT_STRTAB /\ Forall (fun b => b <> 0) s /\ zlen s < maximum /\
  h.(sh_offset) + off + zlen s < h.(sh_offset) + h.(sh_size) /\
  exists rest, drop (Z.to_nat (h.(sh_offset) + off)) bs = s ++ 0 :: rest.

Lemma nul_position_Some (bs : list Z) (n : nat) :
  nul_position bs = Some n ->
  Forall (fun b => b <> 0) (take n bs) /\ exists rest, bs = take n bs ++ 0 :: rest.
Proof.
  intros ([i b] & Hf & ->)%fmap_Some. cbn.
  apply list_find_Some in Hf as (Hi & -> & Hmin). split.
  - apply Forall_lookup. intros j x Hj. rewrite lookup_take_Some in Hj. destruct Hj as [Hj Hlt].
    by eapply Hmin.
  - exists (drop (S i) bs). by rewrite (take_drop_middle bs i 0 Hi).
Qed.

Lemma get_string_in_section_spec (bs : list Z) (h : Elf64Shdr) (off maximum : Z) :
  0 <= h.(sh_offset) -> 0 <= off ->
  safe (get_string_in_section bs h off maximum) (string_at bs h off maximum).
Proof.
  intros Ho Hoff. unfold get_string_in_section.
  destruct (Z.eqb_spec h.(sh_type) SHT_STRTAB) as [Ht|]; [|done]. cbn [negb].
  eapply safe_bind; [apply safe_checked_add|]. intros ? ->.
  eapply safe_bind; [apply safe_checked_add|]. intros ? ->.
  eapply safe_bind; [apply safe_checked_add|]. intros ? ->.
  set (r := mkRange _ _).
  eapply safe_bind; [apply safe_ok_or; intros s Hs; exact Hs|]. cbn beta. intros s Hs.
  pose proof (get_range_Some _ _ _ Hs) as Hr. unfold get_range in Hs.
  destruct (_ && _) in Hs; [|done]. injection Hs as Hs. cbn [r r_start r_end] in *.
  apply safe_ok_or. intros a (n & Hn & Ha)%bind_Some.
  destruct (nul_position_Some _ _ Hn) as [HF [rest Hrest]].
  pose proof (get_range_Some _ _ _ Ha) as Hr2. cbn [r_start r_end] in Hr2.
  unfold get_range in Ha. destruct (_ && _) in Ha; [|done]. injection Ha as Ha. cbn [r_start r_end] in Ha.
  replace (Z.to_nat (Z.of_nat n - 0)) with n in Ha by lia. change (drop (Z.to_nat 0) s) with s in Ha.
  subst a. assert (Hl : (length (take n s) < length s)%nat).
  { rewrite Hrest at 2. rewrite length_app. cbn. lia. }
  assert (Hls : (length s <= Z.to_nat (Z.min (h.(sh_offset) + h.(sh_size)) (h.(sh_offset) + off + maximum)
                 - (h.(sh_offset) + off)))%nat) by (rewrite <-Hs, length_take; lia).
  unfold string_at, zlen in *. split_and!; [done|done|lia|lia|].
  set (k := Z.to_nat (_ - _)) in Hs. exists (rest ++ drop k (drop (Z.to_nat (h.(sh_offset) + off)) bs)).
  rewrite <-(take_drop k (drop (Z.to_nat (h.(sh_offset) + off)) bs)) at 1.
  rewrite Hs. rewrite Hrest at 1. by rewrite <-app_assoc.
Qed.

Lemma err_checked_add_Ret (a b : Z) : a + b <= u64_max -> err_checked_add a b = Ret (a + b).
Proof. intros. unfold err_checked_add, u64_checked_add. by rewrite (proj2 (Z.leb_le _ _)). Qed.

(** Conversely, a string that is there is found. *)
Lemma get_string_in_section_found (bs : list Z) (h : Elf64Shdr) (off maximum : Z) (s : list Z) :
  0 <= h.(sh_offset) -> 0 <= off -> 0 <= maximum -> h.(sh_offset) + h.(sh_size) <= zlen bs ->
  zlen bs + maximum <= u64_max -> string_at bs h off maximum s ->
  get_string_in_section bs h off maximum = Ret s.
Proof.
  intros Ho Hoff Hmax Hend Hlen (Ht & HF & Hs & Hin & rest & Hdrop). pose proof (Zle_0_nat (length s)).
  unfold get_string_in_section. rewrite Ht. cbn [Z.eqb SHT_STRTAB Pos.eqb negb]. unfold zlen in *.
  do 3 (rewrite err_checked_add_Ret by lia; cbn [exec_bind]).
  set (r := mkRange _ _). set (k := Z.to_nat (r.(r_end) - r.(r_start))).
  assert (Hk : (length s < k)%nat) by (unfold k, r; cbn; lia).
  assert (Hg : get_range bs r = Some (take k (drop (Z.to_nat (h.(sh_offset) + off)) bs))).
  { unfold get_range, zlen. rewrite (proj2 (Z.leb_le _ _)), (proj2 (Z.leb_le _ _)) by (unfold r; cbn; lia). done. }
  rewrite Hg, Hdrop. cbn [ok_or exec_bind].
  rewrite take_app_ge by lia. replace (k - length s)%nat with (S (k - length s - 1)) by lia. cbn [take].
  set (t := take _ rest). replace (nul_position (s ++ 0 :: t)) with (Some (length s)).
  - cbn [mbind option_bind]. unfold get_range. cbn [r_start r_end].
    rewrite (proj2 (Z.leb_le _ _)), (proj2 (Z.leb_le _ _)) by (unfold zlen; rewrite ?length_app; cbn; lia).
    cbn [andb ok_or]. f_equal. rewrite Z.sub_0_r, Nat2Z.id. change (Z.to_nat 0) with 0%nat.
    rewrite drop_0. apply take_app_length.
  - symmetry. unfold nul_position. apply fmap_Some. exists (length s, 0). split; [|done].
    apply list_find_Some. split_and!; [by rewrite list_lookup_middle|done|].
    intros j y Hj Hlt. rewrite lookup_app_l in Hj by done. rewrite Forall_lookup in HF. by eapply HF.
Qed.

(** The sections found by name are sections of the table. *)
Definition named_in (table : list Elf64Shdr) (self : Elf64) : Prop :=
  forall h, self.(symbol_section_header) = Some h \/ self.(symbol_names_section_header) = Some h \/
    self.(dynamic_symbol_names_section_header) = Some h -> h ∈ table.

Lemma safe_set_once (old : option Elf64Shdr) (h : Elf64Shdr) : safe (set_once old h) (fun x => x = Some h).
Proof. by destruct old. Qed.

Lemma parse_sections_loop_spec (names : Elf64Shdr) (all table : list Elf64Shdr) (self : Elf64) :
  0 <= names.(sh_offset) -> Forall (fun h => 0 <= h.(sh_name) /\ h ∈ all) table -> named_in all self ->
  safe (parse_sections_loop names table self) (fun self' =>
    (exists a b c, self' = with_named self a b c) /\ named_in all self').
Proof.
  intros Hn Hpos. revert self.
  induction Hpos as [|h table [Hh Hall] Hpos IH]; intros self Hself; cbn [parse_sections_loop].
  { split; [|done]. exists self.(symbol_section_header), self.(symbol_names_section_header),
      self.(dynamic_symbol_names_section_header). by destruct self. }
  eapply safe_bind; [by apply get_string_in_section_spec|]. intros name _.
  eapply (safe_bind (fun self' => (exists a b c, self' = with_named self a b c) /\ named_in all self')).
  - repeat case_bool_decide;
      [eapply safe_bind; [apply safe_set_once|]; intros x ->; cbn; split; [by eauto|];
       intros y Hy; cbn in Hy;
       destruct Hy as [Hy|[Hy|Hy]]; first [by injection Hy as <- | apply Hself; auto]..|].
    split; [|done]. exists self.(symbol_section_header), self.(symbol_names_section_header),
      self.(dynamic_symbol_names_section_header). by destruct self.
  - intros ? [(a & b & c & ->) Hin]. eapply safe_mono; [by apply IH|]. intros ? [(a' & b' & c' & ->) Hin'].
    split; [|done]. by exists a', b', c'.
Qed.

Lemma expand_dynamic_spec (entries : list Elf64Dyn) (table : list Z) :
  Forall (fun d => 0 <= d.(d_tag)) entries -> length table = Z.to_nat DT_NUM ->
  safe (expand_dynamic entries table) (fun t => length t = Z.to_nat DT_NUM).
Proof.
  intros Hpos. revert table. induction Hpos as [|d entries Hd Hpos IH]; intros table Hl; cbn [expand_dynamic]; [done|].
  destruct (_ =? _); [done|]. destruct (Z.leb_spec DT_NUM d.(d_tag)); [by apply IH|].
  eapply safe_bind; [apply (safe_index_slice (fun _ => True)); [|done]|].
  - unfold zlen. rewrite Hl. lia.
  - intros _ _. apply IH. by rewrite length_insert.
Qed.

Lemma program_header_for_vaddr_spec (table : list Elf64Phdr) (vaddr : Z) :
  safe (program_header_for_vaddr table vaddr) (fun o => forall h, o = Some h -> h ∈ table).
Proof.
  induction table as [|h table IH]; cbn [program_header_for_vaddr]; [done|].
  eapply safe_bind; [apply safe_checked_add|]. intros ? _. destruct (range_contains _ _).
  - intros ? [= <-]. by left.
  - eapply safe_mono; [exact IH|]. intros o Ho x Hx. right. by apply Ho.
Qed.

Section ParseSpec.
Context (addr : Z) (bs : list Z) (Hbs : bytes_ok bs).

Lemma slice_of_section (T : Type) `{ElfPod T} (h : Elf64Shdr) :
  0 <= h.(sh_offset) ->
  safe (slice_from_section_header addr T bs h) (fun t => exists off n, table_at T bs off n t).
Proof.
  intros. unfold slice_from_section_header. eapply safe_bind; [apply safe_checked_add|]. intros ? ->.
  eapply safe_mono; [by apply slice_from_bytes_spec|]. intros t (_ & n & Ht & _). eauto.
Qed.

Lemma slice_of_segment (T : Type) `{ElfPod T} (h : Elf64Phdr) :
  0 <= h.(p_offset) ->
  safe (slice_from_program_header addr T bs h) (fun t => exists off n, table_at T bs off n t).
Proof.
  intros. unfold slice_from_program_header. eapply safe_bind; [apply safe_checked_add|]. intros ? ->.
  eapply safe_mono; [by apply slice_from_bytes_spec|]. intros t (_ & n & Ht & _). eauto.
Qed.

(** The part of the structure the dynamic tables do not touch. *)
Definition tables_ok (self : Elf64) : Prop :=
  self.(elf_bytes) = bs /\
  (forall h, h ∈ self.(section_header_table) -> 0 <= h.(sh_offset)) /\
  (forall h, h ∈ self.(program_header_table) -> 0 <= h.(p_offset)) /\
  length self.(dynamic_table) = Z.to_nat DT_NUM.

Lemma dynamic_index (self : Elf64) (i : Z) (Q : Z -> Prop) :
  tables_ok self -> 0 <= i < DT_NUM -> (forall x, Q x) ->
  safe (E := ElfParserError) (index_slice self.(dynamic_table) i) Q.
Proof. intros (_ & _ & _ & Hl) Hi HQ. apply safe_index_slice; [|auto]. unfold zlen. rewrite Hl. lia. Qed.

Lemma parse_dynamic_relocations_spec (self : Elf64) :
  tables_ok self ->
  safe (parse_dynamic_relocations addr self) (fun o =>
    forall t, o = Some t -> exists off n, table_at Elf64Rel bs off n t /\ 0 < n).
Proof.
  intros Hok. pose proof Hok as (Hb & Hsec & Hseg & _). unfold parse_dynamic_relocations.
  eapply safe_bind; [apply (dynamic_index _ _ (fun _ => True)); done|]. intros vaddr _.
  destruct (vaddr =? 0); [done|].
  eapply safe_bind; [apply (dynamic_index _ _ (fun _ => True)); done|]. intros entry _.
  destruct (negb _); [done|].
  eapply safe_bind; [apply (dynamic_index _ _ (fun _ => True)); done|]. intros size _.
  destruct (Z.eqb_spec size 0) as [|Hsize]; [done|].
  eapply safe_bind; [apply program_header_for_vaddr_spec|]. intros ph Hph.
  eapply (safe_bind (fun off => 0 <= off)).
  { destruct ph as [h|].
    - eapply safe_bind; [apply safe_checked_sub|]. intros ? [-> Hle].
      eapply safe_mono; [apply safe_checked_add|]. intros ? ->. specialize (Hseg h (Hph _ eq_refl)). lia.
    - eapply safe_bind; [apply safe_ok_or; intros h Hh; exact (list_find_elem _ _ _ Hh)|].
      intros h Hh. by apply Hsec. }
  intros off Hoff. eapply safe_bind; [apply safe_checked_add|]. intros ? ->. apply safe_map_err.
  rewrite Hb. eapply safe_bind; [by apply slice_from_bytes_spec|].
  intros t ([Hle _] & n & Ht & Hn). intros ? [= <-]. exists off, n. split; [done|].
  cbn [r_start r_end] in *. change (size_of Elf64Rel) with 16 in Hn. lia.
Qed.

Lemma parse_dynamic_symbol_table_spec (self : Elf64) :
  tables_ok self ->
  safe (parse_dynamic_symbol_table addr self) (fun o =>
    forall t, o = Some t -> exists off n, table_at Elf64Sym bs off n t).
Proof.
  intros Hok. pose proof Hok as (Hb & Hsec & Hseg & _). unfold parse_dynamic_symbol_table.
  eapply safe_bind; [apply (dynamic_index _ _ (fun _ => True)); done|]. intros vaddr _.
  destruct (vaddr =? 0); [done|].
  eapply safe_bind; [apply safe_ok_or; intros h Hh; exact (list_find_elem _ _ _ Hh)|]. intros h Hh.
  unfold get_symbol_table_of_section. rewrite Hb. destruct (_ && _); [done|].
  eapply safe_bind; [apply slice_of_section; by apply Hsec|]. intros t Ht ? [= <-]. done.
Qed.

Lemma parse_dynamic_spec (self : Elf64) :
  tables_ok self -> self.(dynamic_relocations_table) = None -> self.(dynamic_symbol_table) = None ->
  safe (parse_dynamic addr self) (fun self' => exists table rels syms,
    self' = with_dynamic self table rels syms /\ length table = Z.to_nat DT_NUM /\
    (forall t, rels = Some t -> exists off n, table_at Elf64Rel bs off n t /\ 0 < n) /\
    (forall t, syms = Some t -> exists off n, table_at Elf64Sym bs off n t)).
Proof.
  intros Hok Hr Hs. pose proof Hok as (Hb & Hsec & Hseg & Hl). unfold parse_dynamic.
  set (P := fun o : option (list Elf64Dyn) => forall t, o = Some t -> exists off n, table_at Elf64Dyn bs off n t).
  eapply (safe_bind P).
  { destruct (snd <$> list_find _ self.(program_header_table)) as [h|] eqn:Hh; [|done].
    apply safe_exec_ok. rewrite Hb. by apply slice_of_segment, Hseg, (list_find_elem _ _ _ Hh). }
  intros o Ho. eapply (safe_bind P).
  { destruct o as [t|]; [done|].
    destruct (snd <$> list_find _ self.(section_header_table)) as [h|] eqn:Hh; [|done].
    eapply safe_bind; [apply safe_map_err; rewrite Hb; by apply slice_of_section, Hsec, (list_find_elem _ _ _ Hh)|].
    intros t Ht ? [= <-]. done. }
  intros [entries|] He.
  - destruct (He _ eq_refl) as (off & n & Ht). eapply safe_bind; [apply expand_dynamic_spec; [|done]|].
    { apply Forall_forall. intros d Hd. destruct (table_at_elem _ _ _ _ _ _ Ht Hd) as [o' ->]. by apply dyn_nonneg. }
    intros table Htl. eapply safe_bind; [apply parse_dynamic_relocations_spec; done|]. intros rels Hrels.
    eapply safe_bind; [apply parse_dynamic_symbol_table_spec; done|]. intros syms Hsyms.
    exists table, rels, syms. done.
  - exists self.(dynamic_table), None, None. split_and!; [|done..].
    destruct self. cbn in *. by subst.
Qed.
End ParseSpec.

(** The headers of a file: ranges and tables. *)
Lemma parse_program_header_table_spec (addr : Z) (bs : list Z) (fr : Range) (fh : Elf64Ehdr) :
  0 <= fh.(e_phoff) -> 0 <= fh.(e_phnum) ->
  safe (parse_program_header_table addr bs fr fh) (fun x =>
    x.1 = phdr_table_range fh /\ ranges_disjoint fr (phdr_table_range fh) /\
    table_at Elf64Phdr bs fh.(e_phoff) fh.(e_phnum) x.2).
Proof.
  intros Ho Hn. unfold parse_program_header_table.
  eapply safe_bind; [apply safe_checked_mul|]. intros ? ->.
  eapply safe_bind; [apply safe_checked_add|]. intros ? ->.
  replace (size_of Elf64Phdr * fh.(e_phnum) + fh.(e_phoff)) with (fh.(e_phoff) + fh.(e_phnum) * size_of Elf64Phdr) by lia.
  eapply safe_bind; [apply safe_no_overlap|]. intros [] Hd.
  eapply safe_bind; [by apply slice_from_bytes_spec|]. intros t (_ & n & Ht & Hlen). cbn in Hlen.
  assert (n = fh.(e_phnum)) as -> by lia. done.
Qed.

Lemma parse_section_header_table_spec (addr : Z) (bs : list Z) (fr pr : Range) (fh : Elf64Ehdr) :
  0 <= fh.(e_shoff) -> 0 <= fh.(e_shnum) ->
  safe (parse_section_header_table addr bs fr fh pr) (fun x =>
    x.1 = shdr_table_range fh /\ ranges_disjoint fr (shdr_table_range fh) /\
    ranges_disjoint pr (shdr_table_range fh) /\
    table_at Elf64Shdr bs fh.(e_shoff) fh.(e_shnum) x.2).
Proof.
  intros Ho Hn. unfold parse_section_header_table.
  eapply safe_bind; [apply safe_checked_mul|]. intros ? ->.
  eapply safe_bind; [apply safe_checked_add|]. intros ? ->.
  replace (size_of Elf64Shdr * fh.(e_shnum) + fh.(e_shoff)) with (fh.(e_shoff) + fh.(e_shnum) * size_of Elf64Shdr) by lia.
  eapply safe_bind; [apply safe_no_overlap|]. intros [] Hd.
  eapply safe_bind; [apply safe_no_overlap|]. intros [] Hd2.
  eapply safe_bind; [by apply slice_from_bytes_spec|]. intros t (_ & n & Ht & Hlen). cbn in Hlen.
  assert (n = fh.(e_shnum)) as -> by lia. done.
Qed.

Lemma parse_file_header_spec (addr : Z) (bs : list Z) :
  safe (parse_file_header addr bs) (fun x =>
    x.1 = file_header_range /\ x.2 = pod_at bs 0 /\ size_of Elf64Ehdr <= zlen bs).
Proof.
  unfold parse_file_header.
  eapply (safe_bind (fun _ => size_of Elf64Ehdr <= zlen bs)).
  { apply safe_ok_or. intros s Hs. by apply get_range_Some in Hs as [_ Hs]. }
  intros s Hs. destruct (negb _); [done|]. unfold raw_read.
  rewrite (proj2 (Z.leb_le (0 + _) _)) by lia. done.
Qed.

(** Parsing any bytes at any address: no fault, and a consistent structure. *)
Lemma parse_spec (addr : Z) (bs : list Z) : bytes_ok bs -> safe (parse addr bs) (elf_layout bs).
Proof.
  intros Hbs. unfold parse. eapply safe_bind; [apply parse_file_header_spec|].
  intros [fr fh] (Hfr & Hfh & Hlen). cbn [fst snd] in Hfr, Hfh. subst fr fh. set (fh := pod_at bs 0).
  destruct (ehdr_nonneg bs 0 Hbs) as (Hph & Hpn & Hsh & Hsn). fold fh in Hph, Hpn, Hsh, Hsn.
  destruct (_ || _); [done|].
  eapply safe_bind; [by apply parse_program_header_table_spec|]. intros [pr pht] (Hpr & Hd1 & Hpht).
  cbn [fst snd] in Hpr, Hpht. subst pr.
  eapply safe_bind; [by apply parse_section_header_table_spec|]. intros [sr sht] (Hsr & Hd2 & Hd3 & Hsht).
  cbn [fst snd] in Hsr, Hsht. subst sr.
  assert (Hsec : forall h, h ∈ sht -> 0 <= h.(sh_offset) /\ 0 <= h.(sh_size) /\ 0 <= h.(sh_name)).
  { intros h Hh. destruct (table_at_elem _ _ _ _ _ _ Hsht Hh) as [o ->].
    destruct (shdr_nonneg bs o Hbs). split_and!; [done..|]. by apply field_nonneg, pod_at_bytes. }
  assert (Hseg : forall h, h ∈ pht -> 0 <= h.(p_offset)).
  { intros h Hh. destruct (table_at_elem _ _ _ _ _ _ Hpht Hh) as [o ->]. by apply phdr_nonneg. }
  eapply safe_bind; [apply (safe_ok_or (fun _ => True)); done|]. intros _ _.
  eapply safe_bind; [apply check_segments_spec|]. intros [] [Hload Hasc].
  eapply safe_bind; [apply check_sections_spec; apply Forall_forall; intros h Hh; by apply Hsec|].
  intros [] [Hplaced Hord].
  eapply (safe_bind (fun o => forall h, o = Some h -> h ∈ sht)).
  { destruct (negb _); [|done]. eapply safe_bind; [apply safe_ok_or; intros h Hh; exact Hh|].
    cbn beta. intros h Hh ? [= <-]. by eapply list_elem_of_lookup_2. }
  intros names Hnames. set (parser := mkElf64 _ _ _ _ _ _ _ _ _ _ _).
  eapply (safe_bind (fun p =>
    ((exists a b c, p = with_named parser a b c) /\ named_in sht p) /\ exists h, names = Some h)).
  { unfold parse_sections. cbn [parser section_names_section_header section_header_table].
    destruct names as [h|]; [|done]. cbn [ok_or exec_bind].
    eapply safe_mono; [apply (parse_sections_loop_spec h sht)|by eauto].
    - by apply Hsec, Hnames.
    - apply Forall_forall. intros x Hx. split; [by apply Hsec|done].
    - intros x Hx. cbn in Hx. by destruct Hx as [?|[?|?]]. }
  intros p [[(a & b & c & ->) Hnamed] [h ->]].
  eapply safe_mono; [apply (parse_dynamic_spec addr bs Hbs)|]; [|done|done|].
  - split_and!; [done|intros x Hx; by apply Hsec|done|done].
  - intros elf (table & rels & syms & -> & Htl & Hrels & Hsyms). apply StronglySorted_inv in Hasc as [Hasc _].
    split; cbn; try done.
    exists h. split; [done|]. by apply Hnames.
Qed.

(** Lookups in a consistent structure. *)
Lemma layout_section_nonneg (bs : list Z) (elf : Elf64) (h : Elf64Shdr) :
  bytes_ok bs -> elf_layout bs elf -> h ∈ elf.(section_header_table) -> 0 <= h.(sh_offset).
Proof.
  intros Hb Hl Hh. destruct (table_at_elem _ _ _ _ _ _ (ly_sections _ _ Hl) Hh) as [o ->].
  by apply shdr_nonneg.
Qed.

(** A small file: a file header, two section headers and a table of section names. *)
Definition example_elf : list Z :=
  [0x7F; 0x45; 0x4C; 0x46; 2; 1; 1; 0; 0; 0; 0; 0; 0; 0; 0; 0]
  ++ le_bytes 2 ET_DYN ++ le_bytes 2 EM_BPF ++ le_bytes 4 1 ++ le_bytes 8 0 ++ le_bytes 8 64 ++ le_bytes 8 64
  ++ le_bytes 4 0 ++ le_bytes 2 64 ++ le_bytes 2 56 ++ le_bytes 2 0 ++ le_bytes 2 64 ++ le_bytes 2 2 ++ le_bytes 2 1
  ++ replicate 64 0
  ++ le_bytes 4 1 ++ le_bytes 4 SHT_STRTAB ++ le_bytes 8 0 ++ le_bytes 8 0 ++ le_bytes 8 192 ++ le_bytes 8 11
  ++ le_bytes 4 0 ++ le_bytes 4 0 ++ le_bytes 8 1 ++ le_bytes 8 0
  ++ [0; 0x2e; 0x73; 0x68; 0x73; 0x74; 0x72; 0x74; 0x61; 0x62; 0].

Definition example_parsed : Elf64 := Eval vm_compute in
  match parse 4096 example_elf with
  | Ret elf => elf
  | _ => mkElf64 [] (Elf64Ehdr_of_bytes []) [] [] None None None [] None None None
  end.

(** * Properties *)

(** The ELF parser never faults.  On every byte string at every address, each
    reference it creates by casting a pointer stays inside of the file, no index is
    out of bounds, and parsing ends with a structure or an error; so do the lookups
    of section, symbol and dynamic symbol names and of the symbol table. *)
Theorem elf_parse_safe (addr : Z) (bytes : list Z) :
  bytes_ok bytes ->
  is_panic (parse addr bytes) = false /\
  forall elf name, parse addr bytes = Ret elf -> 0 <= name ->
    is_panic (section_name elf name) = false /\ is_panic (symbol_name elf name) = false /\
    is_panic (dynamic_symbol_name elf name) = false /\ is_panic (symbol_table addr elf) = false.
Proof.
  intros Hb. pose proof (parse_spec addr bytes Hb) as Hp. split; [by eapply safe_no_panic|].
  intros elf name Hparse Hname. rewrite Hparse in Hp. cbn in Hp.
  pose proof (fun h => layout_section_nonneg _ _ h Hb Hp) as Hoff.
  pose proof (ly_named _ _ Hp) as Hnamed. destruct (ly_names _ _ Hp) as (h & Hh & Hin).
  unfold section_name, symbol_name, dynamic_symbol_name, symbol_table. rewrite Hh. cbn [ok_or exec_bind].
  split_and!.
  - eapply safe_no_panic, get_string_in_section_spec; [by apply Hoff|done].
  - destruct elf.(symbol_names_section_header) as [x|] eqn:Hx; [|done].
    eapply safe_no_panic, get_string_in_section_spec; [apply Hoff, Hnamed; auto|done].
  - destruct elf.(dynamic_symbol_names_section_header) as [x|] eqn:Hx; [|done].
    eapply safe_no_panic, get_string_in_section_spec; [apply Hoff, Hnamed; auto|done].
  - destruct elf.(symbol_section_header) as [x|] eqn:Hx; [|done].
    eapply (safe_no_panic _ (fun _ => True)), safe_bind; [|intros t _; exact I].
    unfold get_symbol_table_of_section. destruct (_ && _); [done|]. rewrite (ly_bytes _ _ Hp).
    apply slice_of_section, Hoff, Hnamed. auto.
Qed.

Lemma elf_parse_safe_witness :
  is_panic (parse 4096 example_elf) = false /\
  forall elf name, parse 4096 example_elf = Ret elf -> 0 <= name ->
    is_panic (section_name elf name) = false /\ is_panic (symbol_name elf name) = false /\
    is_panic (dynamic_symbol_name elf name) = false /\ is_panic (symbol_table 4096 elf) = false.
Proof.
  apply (elf_parse_safe 4096 example_elf). apply (bool_decide_unpack _). vm_compute. reflexivity.
Defined.

(** C20: The layout of a parsed file.  When parsing succeeds, the file header is the
    structure at offset 0, the program and section header tables are the structures at
    the offsets and in the numbers the file header announces, and the three do not
    overlap.  Loadable segments lie inside of the file and ascend in virtual address.
    The contents of sections lie inside of the file, come in the order of the table
    without overlapping each other, and overlap none of the headers.  The section
    names, symbol and string tables are sections of the file, and the relocation and
    dynamic symbol tables are tables of structures inside of it. *)
Theorem elf_parse_layout (addr : Z) (bytes : list Z) (elf : Elf64) :
  bytes_ok bytes -> parse addr bytes = Ret elf -> elf_layout bytes elf.
Proof. intros Hb Hp. pose proof (parse_spec addr bytes Hb) as Hs. by rewrite Hp in Hs. Qed.

Lemma elf_parse_layout_witness : elf_layout example_elf example_parsed.
Proof.
  apply (elf_parse_layout 4096 example_elf example_parsed).
  - apply (bool_decide_unpack _). vm_compute. reflexivity.
  - vm_compute. reflexivity.
Defined.

(** Names.  In a parsed file of at most [isize::MAX] bytes, looking a section name
    up returns a string exactly when the section of names holds it at that offset:
    bytes that are not zero, fewer than the maximum, followed by a zero byte before the
    end of the section.  Every other offset gives an error. *)
Theorem section_name_spec (addr : Z) (bytes : list Z) (elf : Elf64) (name : Z) :
  bytes_ok bytes -> zlen bytes <= i64_max -> parse addr bytes = Ret elf -> 0 <= name ->
  exists names, names ∈ elf.(section_header_table) /\
    (forall s, section_name elf name = Ret s <-> string_at bytes names name SECTION_NAME_LENGTH_MAXIMUM s) /\
    is_panic (section_name elf name) = false.
Proof.
  intros Hb Hlen Hp Hname. pose proof (parse_spec addr bytes Hb) as Hl. rewrite Hp in Hl. cbn in Hl.
  destruct (ly_names _ _ Hl) as (names & Hn & Hin). exists names. split; [done|].
  pose proof (layout_section_nonneg _ _ names Hb Hl Hin) as Hoff.
  unfold section_name. rewrite Hn, (ly_bytes _ _ Hl). cbn [ok_or exec_bind].
  pose proof (get_string_in_section_spec bytes names name SECTION_NAME_LENGTH_MAXIMUM Hoff Hname) as Hsafe.
  split; [|by eapply safe_no_panic]. intros s. split.
  - intros Hs. by rewrite Hs in Hsafe.
  - intros Hs. pose proof (ly_placed _ _ Hl) as Hpl. rewrite Forall_forall in Hpl.
    destruct (Hpl names) as (_ & Hend & _).
    { apply list_elem_of_filter. split; [|done]. unfold has_contents. by rewrite (proj1 Hs). }
    apply get_string_in_section_found; try done. unfold i64_max, u64_max, SECTION_NAME_LENGTH_MAXIMUM in *. lia.
Qed.

Lemma section_name_spec_witness :
  exists names, names ∈ example_parsed.(section_header_table) /\
    (forall s, section_name example_parsed 1 = Ret s <->
      string_at example_elf names 1 SECTION_NAME_LENGTH_MAXIMUM s) /\
    is_panic (section_name example_parsed 1) = false.
Proof.
  apply (section_name_spec 4096 example_elf example_parsed 1).
  - apply (bool_decide_unpack _). vm_compute. reflexivity.
  - vm_compute. congruence.
  - vm_compute. reflexivity.
  - lia.
Defined.
