(* ===== verification/InsnBuilder.v ===== *)
(** The instruction builder (src/insn_builder.rs): a fluent interface that appends
    encoded instructions to a byte buffer.  The trait [Instruction] is a type class;
    a builder value carries the code it borrows, and [push] returns it extended. *)
From S2P Require Import Prelude Ebpf.
Open Scope rust_scope.

(** * The code under construction *)

(* src/insn_builder.rs:103-107, BpfCode *)
Record BpfCode := mkCode { instructions : list Z }.

(* src/insn_builder.rs:110-115, BpfCode::new *)
Definition new_code : BpfCode := mkCode [].

(* src/insn_builder.rs:285-293, BpfCode::into_bytes *)
Definition code_into_bytes (self : BpfCode) : list Z := self.(instructions).

(** * The trait *)

(** What a kind of instruction provides: its opcode byte, and read and write access to
    the [Insn] it holds. *)
(* src/insn_builder.rs:12-70, Instruction *)
Class Instruction (T : Type) := {
  opt_code_byte : T -> Z;
  insn_of : T -> Insn;
  with_insn : T -> Insn -> T;
  insn_of_with_insn i n : insn_of (with_insn i n) = n;
  opt_code_with_insn i n : opt_code_byte (with_insn i n) = opt_code_byte i
}.

Section Trait.
Context {T : Type} `{Instruction T}.

(* src/insn_builder.rs:17-20, Instruction::get_dst *)
Definition get_dst (self : T) : Z := (insn_of self).(dst).
(* src/insn_builder.rs:22-25, Instruction::get_src *)
Definition get_src (self : T) : Z := (insn_of self).(src).
(* src/insn_builder.rs:27-30, Instruction::get_off *)
Definition get_off (self : T) : Z := (insn_of self).(off).
(* src/insn_builder.rs:32-35, Instruction::get_imm *)
Definition get_imm (self : T) : Z := (insn_of self).(imm).
(* src/insn_builder.rs:37-42, Instruction::set_dst *)
Definition set_dst (self : T) (v : Z) : T :=
  let i := insn_of self in with_insn self (mkInsn i.(ptr) i.(opc) v i.(src) i.(off) i.(imm)).
(* src/insn_builder.rs:44-49, Instruction::set_src *)
Definition set_src (self : T) (v : Z) : T :=
  let i := insn_of self in with_insn self (mkInsn i.(ptr) i.(opc) i.(dst) v i.(off) i.(imm)).
(* src/insn_builder.rs:51-56, Instruction::set_off *)
Definition set_off (self : T) (v : Z) : T :=
  let i := insn_of self in with_insn self (mkInsn i.(ptr) i.(opc) i.(dst) i.(src) v i.(imm)).
(* src/insn_builder.rs:58-63, Instruction::set_imm *)
Definition set_imm (self : T) (v : Z) : T :=
  let i := insn_of self in with_insn self (mkInsn i.(ptr) i.(opc) i.(dst) i.(src) i.(off) v).

(* src/insn_builder.rs:82-101, Instruction::into_bytes *)
Definition into_bytes (self : T) : list Z :=
  [ opt_code_byte self;
    Z.lor (as_u8 (Z.shiftl (get_src self) 4)) (get_dst self);
    as_u8 (get_off self);
    as_u8 (Z.shiftr (get_off self) 8);
    as_u8 (get_imm self);
    as_u8 (Z.shiftr (get_imm self) 8);
    as_u8 (Z.shiftr (get_imm self) 16);
    as_u8 (Z.shiftr (get_imm self) 24) ].
End Trait.

(** * Parts of an opcode *)

(* src/insn_builder.rs:330-341, Source *)
Inductive Source := SourceImm | SourceReg.
(* src/insn_builder.rs:330-341, Source as u8 *)
Definition source_u8 (x : Source) : Z :=
  match x with
  | SourceImm => BPF_IMM
  | SourceReg => BPF_X
  end.

(* src/insn_builder.rs:343-358, OpBits *)
Inductive OpBits := OpAdd | OpSub | OpMul | OpDiv | OpBitOr | OpBitAnd | OpLShift | OpRShift | OpNegate | OpMod | OpBitXor | OpMov | OpSignRShift.
(* src/insn_builder.rs:343-358, OpBits as u8 *)
Definition op_bits_u8 (x : OpBits) : Z :=
  match x with
  | OpAdd => BPF_ADD
  | OpSub => BPF_SUB
  | OpMul => BPF_MUL
  | OpDiv => BPF_DIV
  | OpBitOr => BPF_OR
  | OpBitAnd => BPF_AND
  | OpLShift => BPF_LSH
  | OpRShift => BPF_RSH
  | OpNegate => BPF_NEG
  | OpMod => BPF_MOD
  | OpBitXor => BPF_XOR
  | OpMov => BPF_MOV
  | OpSignRShift => BPF_ARSH
  end.

(* src/insn_builder.rs:360-371, Arch *)
Inductive Arch := X64 | X32.
(* src/insn_builder.rs:360-371, Arch as u8 *)
Definition arch_u8 (x : Arch) : Z :=
  match x with
  | X64 => BPF_ALU64_STORE
  | X32 => BPF_ALU32_LOAD
  end.

(* src/insn_builder.rs:403-414, Endian *)
Inductive Endian := Little | Big.
(* src/insn_builder.rs:403-414, Endian as u8 *)
Definition endian_u8 (x : Endian) : Z :=
  match x with
  | Little => LE
  | Big => BE
  end.

(* src/insn_builder.rs:482-497, MemSize *)
Inductive MemSize := Byte | HalfWord | Word | DoubleWord.
(* src/insn_builder.rs:482-497, MemSize as u8 *)
Definition mem_size_u8 (x : MemSize) : Z :=
  match x with
  | Byte => BPF_B
  | HalfWord => BPF_H
  | Word => BPF_W
  | DoubleWord => BPF_DW
  end.

(* src/insn_builder.rs:499-505, Addressing *)
Inductive Addressing := AddrImm | AddrAbs | AddrInd | AddrMem.
(* src/insn_builder.rs:499-505, Addressing as u8 *)
Definition addressing_u8 (x : Addressing) : Z :=
  match x with
  | AddrImm => BPF_IMM
  | AddrAbs => BPF_ABS
  | AddrInd => BPF_IND
  | AddrMem => BPF_MEM
  end.

(* src/insn_builder.rs:540-571, Cond *)
Inductive Cond := CondAbs | CondEquals | CondGreater | CondGreaterEquals | CondLower | CondLowerEquals | CondBitAnd | CondNotEquals | CondGreaterSigned | CondGreaterEqualsSigned | CondLowerSigned | CondLowerEqualsSigned.
(* src/insn_builder.rs:540-571, Cond as u8 *)
Definition cond_u8 (x : Cond) : Z :=
  match x with
  | CondAbs => BPF_JA
  | CondEquals => BPF_JEQ
  | CondGreater => BPF_JGT
  | CondGreaterEquals => BPF_JGE
  | CondLower => BPF_JLT
  | CondLowerEquals => BPF_JLE
  | CondBitAnd => BPF_JSET
  | CondNotEquals => BPF_JNE
  | CondGreaterSigned => BPF_JSGT
  | CondGreaterEqualsSigned => BPF_JSGE
  | CondLowerSigned => BPF_JSLT
  | CondLowerEqualsSigned => BPF_JSLE
  end.

(** * Kinds of instructions *)

(* src/insn_builder.rs:295-302, Move *)
Record Move := mkMove { mv_code : BpfCode; mv_src_bit : Source; mv_op_bits : OpBits; mv_arch_bits : Arch; mv_insn : Insn }.
(* src/insn_builder.rs:313-328, Instruction for Move *)
#[export] Instance Move_Instruction : Instruction Move := {
  opt_code_byte x := Z.lor (Z.lor (op_bits_u8 x.(mv_op_bits)) (source_u8 x.(mv_src_bit))) (arch_u8 x.(mv_arch_bits));
  insn_of x := x.(mv_insn);
  with_insn x n := mkMove x.(mv_code) x.(mv_src_bit) x.(mv_op_bits) x.(mv_arch_bits) n;
  insn_of_with_insn x n := eq_refl;
  opt_code_with_insn x n := eq_refl
}.
(* src/insn_builder.rs:304-311, Move::push *)
Definition Move_push (self : Move) : BpfCode :=
  let asm := into_bytes self in mkCode (instructions self.(mv_code) ++ asm).

(* src/insn_builder.rs:373-378, SwapBytes *)
Record SwapBytes := mkSwapBytes { sb_code : BpfCode; sb_endian : Endian; sb_insn : Insn }.
(* src/insn_builder.rs:389-401, Instruction for SwapBytes *)
#[export] Instance SwapBytes_Instruction : Instruction SwapBytes := {
  opt_code_byte x := endian_u8 x.(sb_endian);
  insn_of x := x.(sb_insn);
  with_insn x n := mkSwapBytes x.(sb_code) x.(sb_endian) n;
  insn_of_with_insn x n := eq_refl;
  opt_code_with_insn x n := eq_refl
}.
(* src/insn_builder.rs:380-387, SwapBytes::push *)
Definition SwapBytes_push (self : SwapBytes) : BpfCode :=
  let asm := into_bytes self in mkCode (instructions self.(sb_code) ++ asm).

(* src/insn_builder.rs:416-423, Load *)
Record Load := mkLoad { ld_code : BpfCode; ld_addressing : Addressing; ld_mem_size : MemSize; ld_source : Z; ld_insn : Insn }.
(* src/insn_builder.rs:434-448, Instruction for Load *)
#[export] Instance Load_Instruction : Instruction Load := {
  opt_code_byte x := Z.lor (Z.lor (addressing_u8 x.(ld_addressing)) (mem_size_u8 x.(ld_mem_size))) x.(ld_source);
  insn_of x := x.(ld_insn);
  with_insn x n := mkLoad x.(ld_code) x.(ld_addressing) x.(ld_mem_size) x.(ld_source) n;
  insn_of_with_insn x n := eq_refl;
  opt_code_with_insn x n := eq_refl
}.
(* src/insn_builder.rs:425-432, Load::push *)
Definition Load_push (self : Load) : BpfCode :=
  let asm := into_bytes self in mkCode (instructions self.(ld_code) ++ asm).

(* src/insn_builder.rs:450-456, Store *)
Record Store := mkStore { st_code : BpfCode; st_mem_size : MemSize; st_source : Z; st_insn : Insn }.
(* src/insn_builder.rs:467-480, Instruction for Store *)
#[export] Instance Store_Instruction : Instruction Store := {
  opt_code_byte x := Z.lor (Z.lor (Z.lor BPF_MEM BPF_ST) (mem_size_u8 x.(st_mem_size))) x.(st_source);
  insn_of x := x.(st_insn);
  with_insn x n := mkStore x.(st_code) x.(st_mem_size) x.(st_source) n;
  insn_of_with_insn x n := eq_refl;
  opt_code_with_insn x n := eq_refl
}.
(* src/insn_builder.rs:458-465, Store::push *)
Definition Store_push (self : Store) : BpfCode :=
  let asm := into_bytes self in mkCode (instructions self.(st_code) ++ asm).

(* src/insn_builder.rs:507-513, Jump *)
Record Jump := mkJump { jp_code : BpfCode; jp_cond : Cond; jp_src_bit : Source; jp_insn : Insn }.
(* src/insn_builder.rs:524-538, Instruction for Jump *)
#[export] Instance Jump_Instruction : Instruction Jump := {
  opt_code_byte x := Z.lor (Z.lor (cond_u8 x.(jp_cond)) (source_u8 x.(jp_src_bit))) BPF_JMP64;
  insn_of x := x.(jp_insn);
  with_insn x n := mkJump x.(jp_code) x.(jp_cond) x.(jp_src_bit) n;
  insn_of_with_insn x n := eq_refl;
  opt_code_with_insn x n := eq_refl
}.
(* src/insn_builder.rs:515-522, Jump::push *)
Definition Jump_push (self : Jump) : BpfCode :=
  let asm := into_bytes self in mkCode (instructions self.(jp_code) ++ asm).

(* src/insn_builder.rs:573-577, FunctionCall *)
Record FunctionCall := mkFunctionCall { fc_code : BpfCode; fc_insn : Insn }.
(* src/insn_builder.rs:588-600, Instruction for FunctionCall *)
#[export] Instance FunctionCall_Instruction : Instruction FunctionCall := {
  opt_code_byte x := Z.lor BPF_CALL BPF_JMP64;
  insn_of x := x.(fc_insn);
  with_insn x n := mkFunctionCall x.(fc_code) n;
  insn_of_with_insn x n := eq_refl;
  opt_code_with_insn x n := eq_refl
}.
(* src/insn_builder.rs:579-586, FunctionCall::push *)
Definition FunctionCall_push (self : FunctionCall) : BpfCode :=
  let asm := into_bytes self in mkCode (instructions self.(fc_code) ++ asm).

(* src/insn_builder.rs:602-606, Exit *)
Record Exit := mkExit { ex_code : BpfCode; ex_insn : Insn }.
(* src/insn_builder.rs:617-629, Instruction for Exit *)
#[export] Instance Exit_Instruction : Instruction Exit := {
  opt_code_byte x := Z.lor BPF_EXIT BPF_JMP64;
  insn_of x := x.(ex_insn);
  with_insn x n := mkExit x.(ex_code) n;
  insn_of_with_insn x n := eq_refl;
  opt_code_with_insn x n := eq_refl
}.
(* src/insn_builder.rs:608-615, Exit::push *)
Definition Exit_push (self : Exit) : BpfCode :=
  let asm := into_bytes self in mkCode (instructions self.(ex_code) ++ asm).

(** * Methods of [BpfCode] *)

(* src/insn_builder.rs:182-191, BpfCode::mov_internal *)
Definition mov_internal (self : BpfCode) (source : Source) (arch_bits : Arch) (op_bits : OpBits) : Move :=
  mkMove self source op_bits arch_bits default_insn.

(* src/insn_builder.rs:117-120, BpfCode::add *)
Definition add (self : BpfCode) (source : Source) (arch : Arch) : Move :=
  mov_internal self source arch OpAdd.
(* src/insn_builder.rs:122-125, BpfCode::sub *)
Definition sub (self : BpfCode) (source : Source) (arch : Arch) : Move :=
  mov_internal self source arch OpSub.
(* src/insn_builder.rs:127-130, BpfCode::mul *)
Definition mul (self : BpfCode) (source : Source) (arch : Arch) : Move :=
  mov_internal self source arch OpMul.
(* src/insn_builder.rs:132-135, BpfCode::div *)
Definition div (self : BpfCode) (source : Source) (arch : Arch) : Move :=
  mov_internal self source arch OpDiv.
(* src/insn_builder.rs:137-140, BpfCode::bit_or *)
Definition bit_or (self : BpfCode) (source : Source) (arch : Arch) : Move :=
  mov_internal self source arch OpBitOr.
(* src/insn_builder.rs:142-145, BpfCode::bit_and *)
Definition bit_and (self : BpfCode) (source : Source) (arch : Arch) : Move :=
  mov_internal self source arch OpBitAnd.
(* src/insn_builder.rs:147-150, BpfCode::left_shift *)
Definition left_shift (self : BpfCode) (source : Source) (arch : Arch) : Move :=
  mov_internal self source arch OpLShift.
(* src/insn_builder.rs:152-155, BpfCode::right_shift *)
Definition right_shift (self : BpfCode) (source : Source) (arch : Arch) : Move :=
  mov_internal self source arch OpRShift.
(* src/insn_builder.rs:157-160, BpfCode::negate *)
Definition negate (self : BpfCode) (arch : Arch) : Move := mov_internal self SourceImm arch OpNegate.
(* src/insn_builder.rs:162-165, BpfCode::modulo *)
Definition modulo (self : BpfCode) (source : Source) (arch : Arch) : Move :=
  mov_internal self source arch OpMod.
(* src/insn_builder.rs:167-170, BpfCode::bit_xor *)
Definition bit_xor (self : BpfCode) (source : Source) (arch : Arch) : Move :=
  mov_internal self source arch OpBitXor.
(* src/insn_builder.rs:172-175, BpfCode::mov *)
Definition mov (self : BpfCode) (source : Source) (arch : Arch) : Move :=
  mov_internal self source arch OpMov.
(* src/insn_builder.rs:177-180, BpfCode::signed_right_shift *)
Definition signed_right_shift (self : BpfCode) (source : Source) (arch : Arch) : Move :=
  mov_internal self source arch OpSignRShift.

(* src/insn_builder.rs:193-200, BpfCode::swap_bytes *)
Definition swap_bytes_insn (self : BpfCode) (endian : Endian) : SwapBytes :=
  mkSwapBytes self endian default_insn.

(* src/insn_builder.rs:222-231, BpfCode::load_internal *)
Definition load_internal (self : BpfCode) (mem_size : MemSize) (addressing : Addressing) (source : Z) : Load :=
  mkLoad self addressing mem_size source default_insn.
(* src/insn_builder.rs:202-205, BpfCode::load *)
Definition load (self : BpfCode) (mem_size : MemSize) : Load := load_internal self mem_size AddrImm BPF_LD.
(* src/insn_builder.rs:207-210, BpfCode::load_abs *)
Definition load_abs (self : BpfCode) (mem_size : MemSize) : Load := load_internal self mem_size AddrAbs BPF_LD.
(* src/insn_builder.rs:212-215, BpfCode::load_ind *)
Definition load_ind (self : BpfCode) (mem_size : MemSize) : Load := load_internal self mem_size AddrInd BPF_LD.
(* src/insn_builder.rs:217-220, BpfCode::load_x *)
Definition load_x (self : BpfCode) (mem_size : MemSize) : Load := load_internal self mem_size AddrMem BPF_LDX.

(* src/insn_builder.rs:243-251, BpfCode::store_internal *)
Definition store_internal (self : BpfCode) (mem_size : MemSize) (source : Z) : Store :=
  mkStore self mem_size source default_insn.
(* src/insn_builder.rs:233-236, BpfCode::store *)
Definition store (self : BpfCode) (mem_size : MemSize) : Store := store_internal self mem_size BPF_IMM.
(* src/insn_builder.rs:238-241, BpfCode::store_x *)
Definition store_x (self : BpfCode) (mem_size : MemSize) : Store :=
  store_internal self mem_size (Z.lor BPF_MEM BPF_STX).

(* src/insn_builder.rs:258-266, BpfCode::jump_conditional *)
Definition jump_conditional (self : BpfCode) (cond : Cond) (src_bit : Source) : Jump :=
  mkJump self cond src_bit default_insn.
(* src/insn_builder.rs:253-256, BpfCode::jump_unconditional *)
Definition jump_unconditional (self : BpfCode) : Jump := jump_conditional self CondAbs SourceImm.

(* src/insn_builder.rs:268-274, BpfCode::call *)
Definition call (self : BpfCode) : FunctionCall := mkFunctionCall self default_insn.
(* src/insn_builder.rs:276-282, BpfCode::exit *)
Definition exit (self : BpfCode) : Exit := mkExit self default_insn.

(** * Programs built with the methods *)

(** One chain of calls: a method of [BpfCode] that starts an instruction, the four
    setters, and [push]. *)
Inductive Method :=
  | MAdd (source : Source) (arch : Arch)
  | MSub (source : Source) (arch : Arch)
  | MMul (source : Source) (arch : Arch)
  | MDiv (source : Source) (arch : Arch)
  | MBitOr (source : Source) (arch : Arch)
  | MBitAnd (source : Source) (arch : Arch)
  | MLeftShift (source : Source) (arch : Arch)
  | MRightShift (source : Source) (arch : Arch)
  | MModulo (source : Source) (arch : Arch)
  | MBitXor (source : Source) (arch : Arch)
  | MMov (source : Source) (arch : Arch)
  | MSignedRightShift (source : Source) (arch : Arch)
  | MNegate (arch : Arch)
  | MSwapBytes (endian : Endian)
  | MLoad (size : MemSize) | MLoadAbs (size : MemSize) | MLoadInd (size : MemSize)
  | MLoadX (size : MemSize)
  | MStore (size : MemSize) | MStoreX (size : MemSize)
  | MJumpUnconditional
  | MJumpConditional (cond : Cond) (source : Source)
  | MCall
  | MExit.

Record Chain := mkChain { ch_method : Method; ch_dst : Z; ch_src : Z; ch_off : Z; ch_imm : Z }.

Definition set_fields `{Instruction T} (self : T) (c : Chain) : T :=
  set_imm (set_off (set_src (set_dst self c.(ch_dst)) c.(ch_src)) c.(ch_off)) c.(ch_imm).

Definition run_chain (code : BpfCode) (c : Chain) : BpfCode :=
  match c.(ch_method) with
  | MAdd source arch => Move_push (set_fields (add code source arch) c)
  | MSub source arch => Move_push (set_fields (sub code source arch) c)
  | MMul source arch => Move_push (set_fields (mul code source arch) c)
  | MDiv source arch => Move_push (set_fields (div code source arch) c)
  | MBitOr source arch => Move_push (set_fields (bit_or code source arch) c)
  | MBitAnd source arch => Move_push (set_fields (bit_and code source arch) c)
  | MLeftShift source arch => Move_push (set_fields (left_shift code source arch) c)
  | MRightShift source arch => Move_push (set_fields (right_shift code source arch) c)
  | MModulo source arch => Move_push (set_fields (modulo code source arch) c)
  | MBitXor source arch => Move_push (set_fields (bit_xor code source arch) c)
  | MMov source arch => Move_push (set_fields (mov code source arch) c)
  | MSignedRightShift source arch => Move_push (set_fields (signed_right_shift code source arch) c)
  | MNegate arch => Move_push (set_fields (negate code arch) c)
  | MSwapBytes endian => SwapBytes_push (set_fields (swap_bytes_insn code endian) c)
  | MLoad size => Load_push (set_fields (load code size) c)
  | MLoadAbs size => Load_push (set_fields (load_abs code size) c)
  | MLoadInd size => Load_push (set_fields (load_ind code size) c)
  | MLoadX size => Load_push (set_fields (load_x code size) c)
  | MStore size => Store_push (set_fields (store code size) c)
  | MStoreX size => Store_push (set_fields (store_x code size) c)
  | MJumpUnconditional => Jump_push (set_fields (jump_unconditional code) c)
  | MJumpConditional cond source => Jump_push (set_fields (jump_conditional code cond source) c)
  | MCall => FunctionCall_push (set_fields (call code) c)
  | MExit => Exit_push (set_fields (exit code) c)
  end.

Definition build (cs : list Chain) : BpfCode := foldl run_chain new_code cs.

(** The named opcode of the instruction set each method stands for.  The absolute
    and indirect loads, narrow immediate loads and a register-sourced unconditional
    jump have no name. *)
Definition pick4 (source : Source) (arch : Arch) (imm32 reg32 imm64 reg64 : Z) : option Z :=
  Some match arch, source with
       | X32, SourceImm => imm32
       | X32, SourceReg => reg32
       | X64, SourceImm => imm64
       | X64, SourceReg => reg64
       end.
Definition pick_size (size : MemSize) (b h w dw : Z) : option Z :=
  Some match size with Byte => b | HalfWord => h | Word => w | DoubleWord => dw end.
Definition pick_source (source : Source) (imm reg : Z) : option Z :=
  Some match source with SourceImm => imm | SourceReg => reg end.

Definition named_opcode (m : Method) : option Z :=
  match m with
  | MAdd s a => pick4 s a ADD32_IMM ADD32_REG ADD64_IMM ADD64_REG
  | MSub s a => pick4 s a SUB32_IMM SUB32_REG SUB64_IMM SUB64_REG
  | MMul s a => pick4 s a MUL32_IMM MUL32_REG MUL64_IMM MUL64_REG
  | MDiv s a => pick4 s a DIV32_IMM DIV32_REG DIV64_IMM DIV64_REG
  | MBitOr s a => pick4 s a OR32_IMM OR32_REG OR64_IMM OR64_REG
  | MBitAnd s a => pick4 s a AND32_IMM AND32_REG AND64_IMM AND64_REG
  | MLeftShift s a => pick4 s a LSH32_IMM LSH32_REG LSH64_IMM LSH64_REG
  | MRightShift s a => pick4 s a RSH32_IMM RSH32_REG RSH64_IMM RSH64_REG
  | MModulo s a => pick4 s a MOD32_IMM MOD32_REG MOD64_IMM MOD64_REG
  | MBitXor s a => pick4 s a XOR32_IMM XOR32_REG XOR64_IMM XOR64_REG
  | MMov s a => pick4 s a MOV32_IMM MOV32_REG MOV64_IMM MOV64_REG
  | MSignedRightShift s a => pick4 s a ARSH32_IMM ARSH32_REG ARSH64_IMM ARSH64_REG
  | MNegate X32 => Some NEG32
  | MNegate X64 => Some NEG64
  | MSwapBytes Little => Some LE
  | MSwapBytes Big => Some BE
  | MLoad DoubleWord => Some LD_DW_IMM
  | MLoad _ | MLoadAbs _ | MLoadInd _ => None
  | MLoadX size => pick_size size LD_B_REG LD_H_REG LD_W_REG LD_DW_REG
  | MStore size => pick_size size ST_B_IMM ST_H_IMM ST_W_IMM ST_DW_IMM
  | MStoreX size => pick_size size ST_B_REG ST_H_REG ST_W_REG ST_DW_REG
  | MJumpUnconditional | MJumpConditional CondAbs SourceImm => Some JA
  | MJumpConditional CondAbs SourceReg => None
  | MJumpConditional CondEquals s => pick_source s JEQ64_IMM JEQ64_REG
  | MJumpConditional CondGreater s => pick_source s JGT64_IMM JGT64_REG
  | MJumpConditional CondGreaterEquals s => pick_source s JGE64_IMM JGE64_REG
  | MJumpConditional CondLower s => pick_source s JLT64_IMM JLT64_REG
  | MJumpConditional CondLowerEquals s => pick_source s JLE64_IMM JLE64_REG
  | MJumpConditional CondBitAnd s => pick_source s JSET64_IMM JSET64_REG
  | MJumpConditional CondNotEquals s => pick_source s JNE64_IMM JNE64_REG
  | MJumpConditional CondGreaterSigned s => pick_source s JSGT64_IMM JSGT64_REG
  | MJumpConditional CondGreaterEqualsSigned s => pick_source s JSGE64_IMM JSGE64_REG
  | MJumpConditional CondLowerSigned s => pick_source s JSLT64_IMM JSLT64_REG
  | MJumpConditional CondLowerEqualsSigned s => pick_source s JSLE64_IMM JSLE64_REG
  | MCall => Some CALL_IMM
  | MExit => Some EXIT
  end.

(** The fields fit their places in the encoding. *)
Definition chain_ok (c : Chain) : Prop :=
  in_u 4 c.(ch_dst) /\ in_u 4 c.(ch_src) /\ in_s 16 c.(ch_off) /\ in_s 32 c.(ch_imm).

(** ** Lemmas *)

(** The builder's encoding is the one of [Insn::to_array]. *)
Lemma into_bytes_to_array `{Instruction T} (self : T) (p : Z) :
  into_bytes self =
    to_array (mkInsn p (opt_code_byte self) (get_dst self) (get_src self) (get_off self) (get_imm self)).
Proof.
  rewrite to_array_bytes. cbn [opc src dst off imm le_bytes app]. unfold into_bytes, u_wrapping_shl.
  rewrite !Z.shiftr_shiftr by lia. done.
Qed.

Lemma set_fields_bytes `{Instruction T} (self : T) (c : Chain) (p : Z) :
  into_bytes (set_fields self c) =
    to_array (mkInsn p (opt_code_byte self) c.(ch_dst) c.(ch_src) c.(ch_off) c.(ch_imm)).
Proof.
  rewrite (into_bytes_to_array _ p). unfold get_dst, get_src, get_off, get_imm, set_fields, set_imm, set_off, set_src, set_dst.
  by rewrite !insn_of_with_insn, !opt_code_with_insn.
Qed.

(** A chain appends eight bytes, those of the named opcode where there is one. *)
Lemma run_chain_bytes (code : BpfCode) (c : Chain) :
  exists op, in_u 8 op /\ (forall name, named_opcode c.(ch_method) = Some name -> op = name) /\
    instructions (run_chain code c) =
      instructions code ++ to_array (mkInsn 0 op c.(ch_dst) c.(ch_src) c.(ch_off) c.(ch_imm)).
Proof.
  unfold run_chain. destruct c.(ch_method) as
    [s a|s a|s a|s a|s a|s a|s a|s a|s a|s a|s a|s a|a|e|z|z|z|z|z|z| |cd s| |]; eexists;
    (split; [|split; [|cbn [instructions Move_push SwapBytes_push Load_push Store_push Jump_push
      FunctionCall_push Exit_push]; rewrite (set_fields_bytes _ _ 0); reflexivity]]);
    repeat match goal with
    | x : Source |- _ => destruct x | x : Arch |- _ => destruct x | x : Endian |- _ => destruct x
    | x : MemSize |- _ => destruct x | x : Cond |- _ => destruct x end;
    first [vm_compute; done | intros ? Hn; vm_compute in Hn; vm_compute; congruence].
Qed.

Lemma run_chains_prefix (cs : list Chain) (code : BpfCode) :
  exists post, instructions (foldl run_chain code cs) = instructions code ++ post /\
    length post = (8 * length cs)%nat.
Proof.
  revert code. induction cs as [|c cs IH]; intros code; cbn [foldl].
  - exists []. by rewrite app_nil_r.
  - destruct (IH (run_chain code c)) as (post & -> & Hlen).
    destruct (run_chain_bytes code c) as (op & _ & _ & ->).
    eexists. split; [by rewrite <-app_assoc|]. rewrite length_app, Hlen. cbn. lia.
Qed.

(** The bytes of one chain inside of the program. *)
Lemma build_split (cs : list Chain) (k : nat) (c : Chain) (opcode : Z) :
  cs !! k = Some c -> named_opcode c.(ch_method) = Some opcode ->
  exists pre post,
    code_into_bytes (build cs) =
      pre ++ to_array (mkInsn 0 opcode c.(ch_dst) c.(ch_src) c.(ch_off) c.(ch_imm)) ++ post /\
    length pre = (8 * k)%nat /\ in_u 8 opcode.
Proof.
  intros Hk Hop. unfold build, code_into_bytes. rewrite <-(take_drop_middle cs k c Hk), foldl_app.
  cbn [foldl]. destruct (run_chains_prefix (take k cs) new_code) as (pre & Hpre & Hlen).
  set (code := foldl run_chain new_code (take k cs)) in *.
  destruct (run_chain_bytes code c) as (op & Hrange & Hname & Hc).
  destruct (run_chains_prefix (drop (S k) cs) (run_chain code c)) as (post & -> & _).
  rewrite (Hname _ Hop) in *. rewrite Hc, Hpre. cbn [instructions new_code app].
  exists pre, post. rewrite <-app_assoc. split_and!; [done| |done].
  apply lookup_lt_Some in Hk. rewrite Hlen, length_take. lia.
Qed.

(** The opcode that a chain writes. *)
Definition chain_opcode (m : Method) : Z := default 0 (instructions (run_chain new_code (mkChain m 0 0 0 0)) !! 0%nat).

Lemma run_chain_opcode (code : BpfCode) (c : Chain) : instructions (run_chain code c) =
  instructions code ++ to_array (mkInsn 0 (chain_opcode c.(ch_method)) c.(ch_dst) c.(ch_src) c.(ch_off) c.(ch_imm)).
Proof.
  unfold run_chain, chain_opcode. destruct c.(ch_method); cbn [instructions Move_push SwapBytes_push Load_push Store_push Jump_push
    FunctionCall_push Exit_push]; rewrite (set_fields_bytes _ _ 0); reflexivity.
Qed.

Lemma chain_opcode_range (m : Method) : in_u 8 (chain_opcode m).
Proof.
  destruct m as [[] []|[] []|[] []|[] []|[] []|[] []|[] []|[] []|[] []|[] []|[] []|[] []|[]|[]|[]|[]|[]|[]|[]|[]| |[] []| |]; vm_compute; intuition congruence.
Qed.

Definition chain_insn (k : Z) (c : Chain) : Insn := mkInsn k (chain_opcode c.(ch_method)) c.(ch_dst) c.(ch_src) c.(ch_off) c.(ch_imm).

Lemma build_bytes (cs : list Chain) (code : BpfCode) : instructions (foldl run_chain code cs) = instructions code ++ mjoin ((fun c => to_array (chain_insn 0 c)) <$> cs).
Proof.
  revert code. induction cs as [|c cs IH]; intros code; [by rewrite app_nil_r|]. cbn [foldl]. rewrite IH, run_chain_opcode. by rewrite <-app_assoc.
Qed.

Lemma zlen_build (cs : list Chain) : zlen (code_into_bytes (build cs)) = INSN_SIZE * zlen cs.
Proof.
  unfold code_into_bytes, build. rewrite build_bytes. cbn [instructions new_code app]. induction cs as [|c cs IH]; [done|].
  rewrite fmap_cons. change (mjoin (?a :: ?m)) with (a ++ mjoin m). rewrite zlen_app, zlen_cons, IH. change (zlen (to_array _)) with 8. unfold INSN_SIZE. lia.
Qed.

Lemma to_array_ok (i : Insn) : in_u 8 i.(opc) -> in_u 8 i.(dst) -> bytes_ok (to_array i).
Proof.
  intros Ho Hd. rewrite to_array_bytes. apply Forall_cons. split; [done|]. apply Forall_cons. split.
  - apply lor_range; [done| |done]. by apply uwrap_range.
  - apply Forall_app. split; apply le_bytes_ok.
Qed.

(** What is built from byte-sized registers is bytes. *)
Lemma build_bytes_ok (cs : list Chain) : Forall (fun c => in_u 8 c.(ch_dst)) cs -> bytes_ok (code_into_bytes (build cs)).
Proof.
  intros Hcs. unfold code_into_bytes, build. rewrite build_bytes. apply Forall_app. split; [constructor|]. apply Forall_join, Forall_fmap.
  apply (Forall_impl _ _ _ Hcs). intros c Hc. apply to_array_ok; [apply chain_opcode_range|done].
Qed.

(** * Properties *)

(** C24: A program built with the methods of [BpfCode] decodes to the instructions
    that were asked for.  For every sequence of chains whose fields fit the encoding,
    the bytes are eight per chain, and [get_insn] at the index of a chain returns the
    opcode the instruction set gives to the method called (for each ALU operation in
    both widths and with both sources, byte swap, load, store, jump, call and exit),
    with the destination, source, offset and immediate that were set. *)
Theorem builder_decodes `{Bo : LittleEndian} {E} (cs : list Chain) (k : nat) (c : Chain) (opcode : Z) :
  Forall chain_ok cs -> slice_len_ok (code_into_bytes (build cs)) ->
  cs !! k = Some c -> named_opcode c.(ch_method) = Some opcode ->
  zlen (code_into_bytes (build cs)) = INSN_SIZE * zlen cs /\
  @get_insn Bo E (code_into_bytes (build cs)) (Z.of_nat k) =
    Ret {| ptr := Z.of_nat k; opc := opcode; dst := c.(ch_dst); src := c.(ch_src);
           off := c.(ch_off); imm := c.(ch_imm) |}.
Proof.
  intros Hok Hlen Hk Hop. split.
  - unfold build, code_into_bytes. destruct (run_chains_prefix cs new_code) as (post & -> & Hp).
    cbn [instructions new_code app]. unfold zlen, INSN_SIZE. lia.
  - destruct (build_split cs k c opcode Hk Hop) as (pre & post & Heq & Hpre & Hrange).
    rewrite Heq in *. apply (get_insn_encoded pre post (Z.of_nat k) (mkInsn 0 opcode _ _ _ _)).
    + rewrite Forall_lookup in Hok. destruct (Hok _ _ Hk) as (? & ? & ? & ?).
      unfold insn_wf. cbn. done.
    + lia.
    + unfold zlen, INSN_SIZE. lia.
    + done.
Qed.

Lemma builder_decodes_witness :
  zlen (code_into_bytes (build [mkChain (MMov SourceImm X64) 1 0 0 (-3);
                                mkChain (MStoreX HalfWord) 10 1 (-8) 0; mkChain MExit 0 0 0 0]))
    = INSN_SIZE * 3 /\
  @get_insn le_reference unit
    (code_into_bytes (build [mkChain (MMov SourceImm X64) 1 0 0 (-3);
                             mkChain (MStoreX HalfWord) 10 1 (-8) 0; mkChain MExit 0 0 0 0])) 1
    = Ret (mkInsn 1 ST_H_REG 10 1 (-8) 0).
Proof.
  apply (builder_decodes (Bo := le_reference) (E := unit)
    [mkChain (MMov SourceImm X64) 1 0 0 (-3); mkChain (MStoreX HalfWord) 10 1 (-8) 0; mkChain MExit 0 0 0 0]
    1 (mkChain (MStoreX HalfWord) 10 1 (-8) 0) ST_H_REG).
  - repeat constructor; vm_compute; congruence.
  - vm_compute; congruence.
  - reflexivity.
  - reflexivity.
Defined.
