(* ===== verification/Executable.v ===== *)
(** Executables ([src/elf.rs], [Executable]): their fields, accessors, creation
    from raw text bytes and verification. *)
From S2P Require Import Prelude Error Ebpf Program Verifier MemoryRegion.
Open Scope rust_scope.

(** * Data *)

(* src/elf.rs:216-230, Section *)
Inductive ElfSection :=
  | Owned (offset : Z) (data : list Z)
  | Borrowed (offset : Z) (byte_range : Z * Z).

(* src/elf.rs:232-254, Executable *)
Record Executable := {
  elf_bytes : list Z;
  sbpf_version : SBPFVersion;
  ro_section : ElfSection;
  text_section_vaddr : Z;
  text_section_range : Z * Z;
  entry_pc : Z;
  function_registry : FunctionRegistry Z;
  loader : BuiltinProgram;
}.

(** [&slice[start..end]] *)
Definition slice_range {E A} (l : list A) (range : Z * Z) : Exec E (list A) :=
  if (0 <=? range.1) && (range.1 <=? range.2) && (range.2 <=? zlen l)
  then Ret (take (Z.to_nat (range.2 - range.1)) (drop (Z.to_nat range.1) l))
  else Panic IndexOutOfBounds.

(** * Accessors *)

(* src/elf.rs:257-260, Executable::get_config *)
Definition executable_config {E} (self : Executable) : Exec E Config := get_config self.(loader).

(* src/elf.rs:267-273, Executable::get_text_bytes *)
Definition get_text_bytes {E} (self : Executable) : Exec E (Z * list Z) :=
  let! bytes := slice_range self.(elf_bytes) self.(text_section_range) in
  Ret (self.(text_section_vaddr), bytes).

(* src/elf.rs:275-283, Executable::get_ro_section *)
Definition get_ro_section {E} (self : Executable) : Exec E (list Z) :=
  match self.(ro_section) with
  | Owned _ data => Ret data
  | Borrowed _ byte_range => slice_range self.(elf_bytes) byte_range
  end.

(** The pointers of the file's buffer and of an owned section's buffer are the
    host's to choose. *)
(* src/elf.rs:1190-1200, get_ro_region *)
Definition get_ro_region {E} (elf_ptr owned_ptr : Z) (section : ElfSection) (elf : list Z)
    : Exec E MemoryRegion :=
  let! (offset, ptr, ro_data) :=
    match section with
    | Owned offset data => Ret (offset, owned_ptr, data)
    | Borrowed offset byte_range =>
        let! data := slice_range elf byte_range in
        Ret (offset, elf_ptr + byte_range.1, data)
    end in
  new_readonly ptr (zlen ro_data) offset.

(* src/elf.rs:290-293, Executable::get_entrypoint_instruction_offset *)
Definition get_entrypoint_instruction_offset (self : Executable) : Z := self.(entry_pc).

(* src/elf.rs:312-322, Executable::verify *)
Definition executable_verify `{Bo : LittleEndian} (self : Executable) : Exec EbpfError unit :=
  let! (_, text) := get_text_bytes self in
  let! _ := executable_config self in
  exec_map_err VerifierError_ (verify text self.(sbpf_version)).

(** * Creation *)

Section Create.
Context `{Hash : Murmur3}.

(* src/elf.rs:337-375, Executable::new_from_text_bytes *)
Definition new_from_text_bytes (text_bytes : list Z) (loader : BuiltinProgram)
    (version : SBPFVersion) (functions : FunctionRegistry Z) : Exec ElfError Executable :=
  let! (entry_pc, functions) :=
    match lookup_by_name functions entrypoint_name with
    | Some (_, pc) => Ret (pc, functions)
    | None =>
        let! (functions, _) :=
          register_function_hashed_legacy functions loader (negb (static_syscalls version))
            entrypoint_name 0 in
        Ret (0, functions)
    end in
  Ret {| elf_bytes := text_bytes;
         sbpf_version := version;
         ro_section := Borrowed (if enable_lower_rodata_vaddr version then MM_RODATA_START
                                 else MM_BYTECODE_START) (0, zlen text_bytes);
         text_section_vaddr := MM_BYTECODE_START;
         text_section_range := (0, zlen text_bytes);
         entry_pc := entry_pc;
         function_registry := functions;
         loader := loader |}.

(* src/vm.rs:130-139, Executable::from_text_bytes *)
Definition from_text_bytes (text_bytes : list Z) (loader : BuiltinProgram)
    (version : SBPFVersion) (functions : FunctionRegistry Z) : Exec EbpfError Executable :=
  exec_map_err ElfError_ (new_from_text_bytes text_bytes loader version functions).
End Create.

(** * Lemmas *)

Lemma slice_range_all {E A} (l : list A) : slice_range (E := E) l (0, zlen l) = Ret l.
Proof.
  unfold slice_range, zlen. cbn [fst snd]. rewrite !(proj2 (Z.leb_le _ _)) by lia. cbn [andb].
  rewrite drop_0, Z.sub_0_r, Nat2Z.id. by rewrite firstn_all.
Qed.
