(* ===== verification/AsmParser.v ===== *)
(** The parser of assembly source (src/asm_parser.rs): its grammar over the parser
    combinators of the [combine] crate, which are an interface here, and the parser's
    behaviour on well-formed source. *)
From Stdlib Require Import String.
From S2P Require Import Prelude Text.
Open Scope rust_scope.
Open Scope list_scope.

(** * Data *)

(* src/asm_parser.rs:23-34, Operand *)
Inductive Operand :=
  | Register (n : Z)
  | Integer (n : Z)
  | Memory (n off : Z)
  | Label (name : list Z).

(* src/asm_parser.rs:36-52, Statement *)
Inductive Statement :=
  | SLabel (name : list Z)
  | SDirective (name : list Z) (operands : list Operand)
  | SInstruction (name : list Z) (operands : list Operand).

#[export] Instance Operand_eq_dec : EqDecision Operand.
Proof. solve_decision. Defined.
#[export] Instance Statement_eq_dec : EqDecision Statement.
Proof. solve_decision. Defined.

(** * The combine crate *)

(** The errors of [combine::easy]. *)
Inductive Info :=
  | Info_Token (x : Z)
  | Info_Range (x : list Z)
  | Info_Owned (x : list Z)
  | Info_Borrowed (x : list Z).
Inductive ParserError {Other : Type} :=
  | Unexpected (x : Info)
  | Expected (x : Info)
  | Message (x : Info)
  | OtherError (x : Other).
Arguments ParserError : clear implicits.
Record SourcePosition := { line : Z; column : Z }.
Record Errors (Other : Type) := { position : SourcePosition; errors : list (ParserError Other) }.
Arguments position {Other} _.
Arguments errors {Other} _.

(** What a parser does on an input: a value and the rest of the input, or an error; and
    whether it consumed input, on which the choice between parsers depends.  A closure
    applied to a value may stop with a fault. *)
Inductive Reply (A : Type) :=
  | Parsed (consumed : bool) (a : A) (rest : list Z)
  | Failed (consumed : bool)
  | Stopped (f : Fault).
Arguments Parsed {A} consumed a rest.
Arguments Failed {A} consumed.
Arguments Stopped {A} f.

(** A second parser after the first one has consumed input, or not. *)
Definition after {A} (consumed : bool) (r : Reply A) : Reply A :=
  match r with
  | Parsed c a rest => Parsed (consumed || c) a rest
  | Failed c => Failed (consumed || c)
  | Stopped f => Stopped f
  end.

Definition reply_bind {A B} (r : Reply A) (k : A -> list Z -> Reply B) : Reply B :=
  match r with
  | Parsed c a rest => after c (k a rest)
  | Failed c => Failed c
  | Stopped f => Stopped f
  end.

(** One character of the class [p]. *)
Definition one_token (p : Z -> bool) (s : list Z) : Reply Z :=
  match s with
  | c :: rest => if p c then Parsed true c rest else Failed false
  | [] => Failed false
  end.

(** The characters of [lit], one after the other: the first one that differs fails. *)
Fixpoint tokens (lit s : list Z) : Reply unit :=
  match lit with
  | [] => Parsed false tt s
  | c :: lit => reply_bind (one_token (Z.eqb c) s) (fun _ => tokens lit)
  end.

(** The alphanumeric characters beyond ASCII are a table of the standard library; white
    space is not alphanumeric. *)
Class UnicodeTables := {
  unicode_alphanumeric : Z -> bool;
  unicode_space c : is_whitespace c = true -> unicode_alphanumeric c = false;
}.
(** The table restricted to ASCII. *)
Definition ascii_tables : UnicodeTables :=
  {| unicode_alphanumeric _ := false; unicode_space _ _ := eq_refl |}.
(** [char::is_alphanumeric] *)
Definition is_alphanumeric `{Uni : UnicodeTables} (c : Z) : bool :=
  if c <? 0x80 then is_ascii_alphanumeric c else unicode_alphanumeric c.

(** The combinators the grammar uses, each with what its documentation says of it: [run]
    is the behaviour of a parser on an input.  [many] on a parser that succeeds without
    consuming input does not return, which its law leaves out. *)
Class Combine `{Uni : UnicodeTables} := {
  Parser : Type -> Type;
  run : forall {A}, Parser A -> list Z -> Reply A;
  char : Z -> Parser Z;
  one_of : list Z -> Parser Z;
  digit : Parser Z;
  hex_digit : Parser Z;
  alpha_num : Parser Z;
  spaces : Parser unit;
  string : list Z -> Parser unit;
  eof : Parser unit;
  attempt : forall {A}, Parser A -> Parser A;
  or : forall {A}, Parser A -> Parser A -> Parser A;
  seq : forall {A B}, Parser A -> Parser B -> Parser (A * B);
  with_ : forall {A B}, Parser A -> Parser B -> Parser B;
  skip : forall {A B}, Parser A -> Parser B -> Parser A;
  map : forall {A B}, (A -> Exec Empty_set B) -> Parser A -> Parser B;
  optional : forall {A}, Parser A -> Parser (option A);
  many : forall {A}, Parser A -> Parser (list A);
  many1 : forall {A}, Parser A -> Parser (list A);
  skip_many : forall {A}, Parser A -> Parser unit;
  sep_by : forall {A B}, Parser A -> Parser B -> Parser (list A);
  between : forall {A B C}, Parser A -> Parser B -> Parser C -> Parser C;
  OtherErr : Type;
  parse_errors : forall {A}, Parser A -> list Z -> Errors OtherErr;

  run_char c s : run (char c) s = one_token (Z.eqb c) s;
  run_one_of cs s : run (one_of cs) s = one_token (fun c => existsb (Z.eqb c) cs) s;
  run_digit s : run digit s = one_token is_digit s;
  run_hex_digit s : run hex_digit s = one_token is_hex_digit s;
  run_alpha_num s : run alpha_num s = one_token is_alphanumeric s;
  run_spaces s :
    run spaces s =
      match s with
      | c :: rest => if is_whitespace c then after true (run spaces rest) else Parsed false tt s
      | [] => Parsed false tt s
      end;
  run_string lit s : run (string lit) s = tokens lit s;
  run_eof s : run eof s = match s with [] => Parsed false tt s | _ => Failed false end;
  run_attempt {A} (p : Parser A) s :
    run (attempt p) s = match run p s with Failed _ => Failed false | r => r end;
  run_or {A} (p q : Parser A) s :
    run (or p q) s = match run p s with Failed false => run q s | r => r end;
  run_seq {A B} (p : Parser A) (q : Parser B) s :
    run (seq p q) s =
      reply_bind (run p s) (fun a rest => reply_bind (run q rest) (fun b rest => Parsed false (a, b) rest));
  run_with {A B} (p : Parser A) (q : Parser B) s :
    run (with_ p q) s = reply_bind (run p s) (fun _ rest => run q rest);
  run_skip {A B} (p : Parser A) (q : Parser B) s :
    run (skip p q) s =
      reply_bind (run p s) (fun a rest => reply_bind (run q rest) (fun _ rest => Parsed false a rest));
  run_map {A B} (f : A -> Exec Empty_set B) (p : Parser A) s :
    run (map f p) s =
      reply_bind (run p s) (fun a rest =>
        match f a with
        | Ret b => Parsed false b rest
        | Panic x => Stopped x
        | Err e => match e with end
        end);
  run_optional {A} (p : Parser A) s :
    run (optional p) s =
      match run p s with
      | Failed false => Parsed false None s
      | r => reply_bind r (fun a rest => Parsed false (Some a) rest)
      end;
  run_many {A} (p : Parser A) s :
    (forall s' a rest, run p s' <> Parsed false a rest) ->
    run (many p) s =
      match run p s with
      | Failed false => Parsed false [] s
      | r => reply_bind r (fun a rest =>
               reply_bind (run (many p) rest) (fun l rest => Parsed false (a :: l) rest))
      end;
  run_many1 {A} (p : Parser A) s :
    run (many1 p) s =
      reply_bind (run p s) (fun a rest =>
        reply_bind (run (many p) rest) (fun l rest => Parsed false (a :: l) rest));
  run_skip_many {A} (p : Parser A) s :
    run (skip_many p) s = reply_bind (run (many p) s) (fun _ rest => Parsed false tt rest);
  run_sep_by {A B} (p : Parser A) (sep : Parser B) s :
    run (sep_by p sep) s =
      match run p s with
      | Failed false => Parsed false [] s
      | r => reply_bind r (fun a rest =>
               reply_bind (run (many (with_ sep p)) rest) (fun l rest => Parsed false (a :: l) rest))
      end;
  run_between {A B C} (op : Parser A) (cl : Parser B) (p : Parser C) s :
    run (between op cl p) s =
      reply_bind (run op s) (fun _ rest => reply_bind (run p rest) (fun a rest =>
        reply_bind (run cl rest) (fun _ rest => Parsed false a rest)));
}.

(** The formatting [{:?}] of characters, strings and foreign errors. *)
Class DebugText (Other : Type) := {
  debug_char : Z -> list Z;
  debug_str : list Z -> list Z;
  debug_other : Other -> list Z;
}.

(** * The grammar *)

Section Grammar.
Context `{Cmb : Combine}.

(** [.map] with a closure that does not fault. *)
Definition map_ok {A B} (f : A -> B) (p : Parser A) : Parser B := map (fun a => Ret (f a)) p.

(* src/asm_parser.rs:54-58, ident *)
Definition ident : Parser (list Z) := many1 (or alpha_num (char 0x5f)).

(* src/asm_parser.rs:60-64, mnemonic *)
Definition mnemonic : Parser (list Z) := many1 alpha_num.

(** A run of blanks. *)
Definition blanks : Parser unit := skip_many (char 0x20).

(* src/asm_parser.rs:66-79, integer *)
Definition integer : Parser Z :=
  let sign := map_ok (fun x : option Z => match x with Some 0x2d => -1 | _ => 1 end)
    (optional (skip (one_of (str "-+")) blanks)) in
  let hex := map_ok (fun x => as_i64 (default 0 (u64_from_str_radix x 16)))
    (with_ (string (str "0x")) (many1 hex_digit)) in
  let dec := map_ok (fun x => default 0 (i64_parse x)) (many1 digit) in
  map (fun '(s, x) => i64_mul s x) (seq sign (or (attempt hex) dec)).

(* src/asm_parser.rs:81-87, register *)
Definition register : Parser Z :=
  map_ok (fun x => default 0 (i64_parse x)) (with_ (char 0x72) (many1 digit)).

(* src/asm_parser.rs:89-105, operand *)
Definition operand : Parser Operand :=
  let register_operand := map_ok Register register in
  let immediate := map_ok Integer integer in
  let memory := map_ok (fun t : Z * option Z => Memory t.1 (default 0 t.2))
    (between (char 0x5b) (char 0x5d) (seq (skip register blanks) (optional integer))) in
  let label := map_ok Label ident in
  or (or (or register_operand immediate) memory) label.

(* src/asm_parser.rs:107-112, label *)
Definition label : Parser Statement :=
  map_ok (fun t : list Z * Z => SLabel t.1) (seq ident (char 0x3a)).

(* src/asm_parser.rs:114-120, directive *)
Definition directive : Parser Statement :=
  let operands := sep_by operand (skip (char 0x2c) blanks) in
  map_ok (fun t : list Z * list Operand => SDirective t.1 t.2)
    (seq (skip (with_ (char 0x2e) (many1 alpha_num)) blanks) operands).

(* src/asm_parser.rs:122-128, instruction *)
Definition instruction : Parser Statement :=
  let operands := sep_by operand (skip (char 0x2c) blanks) in
  map_ok (fun t : list Z * list Operand => SInstruction t.1 t.2)
    (seq (skip mnemonic blanks) operands).

(** One statement and the white space after it. *)
(* src/asm_parser.rs:167-170, parse *)
Definition statement : Parser Statement :=
  skip (or (or (attempt label) directive) instruction) spaces.

(* src/asm_parser.rs:165-171, parse *)
Definition source : Parser (list Statement) := skip (with_ spaces (many statement)) eof.

Context `{Dbg : !DebugText OtherErr}.

(* src/asm_parser.rs:130-137, format_info *)
Definition format_info (info : Info) : list Z :=
  match info with
  | Info_Token x => debug_char x
  | Info_Range x => debug_str x
  | Info_Owned x => x
  | Info_Borrowed x => x
  end.

(* src/asm_parser.rs:139-146, format_error *)
Definition format_error (error : ParserError OtherErr) : list Z :=
  match error with
  | Unexpected x => str "unexpected " ++ format_info x
  | Expected x => str "expected " ++ format_info x
  | Message x => format_info x
  | OtherError x => debug_other x
  end.

(** [Vec<String>::join] *)
Fixpoint join (sep : list Z) (l : list (list Z)) : list Z :=
  match l with
  | [] => []
  | [x] => x
  | x :: l => x ++ sep ++ join sep l
  end.

(* src/asm_parser.rs:148-160, format_parse_error *)
Definition format_parse_error (parse_error : Errors OtherErr) : list Z :=
  str "Parse error at line " ++ decimal_signed parse_error.(position).(line)
  ++ str " column " ++ decimal_signed parse_error.(position).(column) ++ str ": "
  ++ join (str ", ") (format_error <$> parse_error.(errors)).

(* src/asm_parser.rs:162-178, parse *)
Definition parse (input : list Z) : Exec (list Z) (list Statement) :=
  match run source input with
  | Parsed _ insts _ => Ret insts
  | Failed _ => Err (format_parse_error (parse_errors source input))
  | Stopped f => Panic f
  end.
End Grammar.

(** * The combinators as functions

    Functions on the input that return a shorter rest exactly when they consume. *)

Definition consumes {A} (f : list Z -> Reply A) : Prop :=
  forall s c a rest, f s = Parsed c a rest -> if c then (length rest < length s)%nat else rest = s.

Record ref_parser (A : Type) := RP { rp : list Z -> Reply A; rp_consumes : consumes rp }.
Arguments RP {A} rp rp_consumes.
Arguments rp {A} _ _.
Arguments rp_consumes {A} _.

Lemma consumes_one_token (p : Z -> bool) : consumes (one_token p).
Proof. intros [|c s] b a rest; cbn; [done|]. destruct (p c); intros; simplify_eq. cbn. lia. Qed.

Lemma consumes_ret {A} (a : A) : consumes (fun s => Parsed false a s).
Proof. intros s c b rest. intros. by simplify_eq. Qed.

Lemma consumes_bind {A B} (f : list Z -> Reply A) (k : A -> list Z -> Reply B) :
  consumes f -> (forall a, consumes (k a)) -> consumes (fun s => reply_bind (f s) k).
Proof.
  intros Hf Hk s c b rest'. destruct (f s) as [c1 a rest| |] eqn:E1; cbn; [|done..].
  apply Hf in E1. destruct (k a rest) as [c2 b' rest2| |] eqn:E2; cbn; [|done..].
  apply Hk in E2. intros [= <- <- <-]. destruct c1, c2; cbn in *; subst; (done || lia).
Qed.

Lemma consumes_or {A} (f g : list Z -> Reply A) :
  consumes f -> consumes g ->
  consumes (fun s => match f s with Failed false => g s | r => r end).
Proof.
  intros Hf Hg s c a rest. destruct (f s) as [| [] |] eqn:E; [|done| |done]; intros H.
  - rewrite H in E. by apply Hf in E.
  - by apply Hg in H.
Qed.

Lemma consumes_attempt {A} (f : list Z -> Reply A) :
  consumes f -> consumes (fun s => match f s with Failed _ => Failed false | r => r end).
Proof.
  intros Hf s c a rest. destruct (f s) as [| |] eqn:E; [|done..]. intros H. rewrite H in E. by apply Hf in E.
Qed.

Lemma consumes_tokens (lit : list Z) : consumes (tokens lit).
Proof.
  induction lit as [|c lit IH]; cbn; [apply consumes_ret|].
  apply consumes_bind; [apply consumes_one_token|done].
Qed.

Lemma consumes_stop {A B} (m : Exec Empty_set B) (_ : A) :
  consumes (fun s => match m with Ret b => Parsed false b s | Panic x => Stopped x | Err e => match e with end end).
Proof. intros s c b rest. destruct m as [|[]|]; intros; by simplify_eq. Qed.

(** [spaces] on the whole input. *)
Fixpoint ref_spaces (s : list Z) : Reply unit :=
  match s with
  | c :: rest => if is_whitespace c then after true (ref_spaces rest) else Parsed false tt s
  | [] => Parsed false tt s
  end.

Lemma consumes_spaces : consumes ref_spaces.
Proof.
  intros s. induction s as [|x s IH]; cbn; intros c a rest; [intros; by simplify_eq|].
  destruct (is_whitespace x); [|intros; by simplify_eq].
  destruct (ref_spaces s) as [c' [] rest'| |] eqn:E; cbn; [|done..].
  intros [= <- <- <-]. specialize (IH _ _ _ eq_refl). destruct c'; [lia|]. subst. lia.
Qed.

Definition ref_eof (s : list Z) : Reply unit := match s with [] => Parsed false tt s | _ => Failed false end.
Lemma consumes_eof : consumes ref_eof.
Proof. intros [|x s] c a rest; cbn; intros; by simplify_eq. Qed.

(** [many] with a bound on its rounds; each consumes a character. *)
Fixpoint ref_many {A} (f : list Z -> Reply A) (fuel : nat) (s : list Z) : Reply (list A) :=
  match fuel with
  | O => Failed false
  | S fuel =>
      match f s with
      | Failed false => Parsed false [] s
      | r => reply_bind r (fun a rest =>
               reply_bind (ref_many f fuel rest) (fun l rest => Parsed false (a :: l) rest))
      end
  end.

Lemma consumes_many_fuel {A} (f : list Z -> Reply A) (fuel : nat) :
  consumes f -> consumes (ref_many f fuel).
Proof.
  intros Hf. induction fuel as [|fuel IH]; [done|]. intros s c l rest. cbn.
  destruct (f s) as [c1 a rest1|[]|] eqn:E; [|done| |done]; [|intros; by simplify_eq].
  intros H. refine (consumes_bind f (fun a rest => reply_bind (ref_many f fuel rest)
      (fun l rest => Parsed false (a :: l) rest)) Hf _ s c l rest _).
  - intros a'. apply consumes_bind; [done|]. intros l'. apply consumes_ret.
  - by rewrite E.
Qed.

Lemma consumes_many {A} (f : list Z -> Reply A) :
  consumes f -> consumes (fun s => ref_many f (S (length s)) s).
Proof. intros Hf s. apply (consumes_many_fuel f (S (length s)) Hf s). Qed.

Lemma ref_many_enough {A} (f : list Z -> Reply A) (fuel1 fuel2 : nat) (s : list Z) :
  consumes f -> (forall s' a rest, f s' <> Parsed false a rest) ->
  (length s < fuel1)%nat -> (length s < fuel2)%nat -> ref_many f fuel1 s = ref_many f fuel2 s.
Proof.
  intros Hf Hne. revert fuel2 s. induction fuel1 as [|n1 IH]; intros [|n2] s H1 H2; [lia..|]. cbn.
  destruct (f s) as [[] a rest|[]|] eqn:E; try done; [|by destruct (Hne s a rest)].
  apply Hf in E. cbn. by rewrite (IH n2 rest) by lia.
Qed.

Definition ref_optional {A} (f : list Z -> Reply A) (s : list Z) : Reply (option A) :=
  match f s with
  | Failed false => Parsed false None s
  | r => reply_bind r (fun a rest => Parsed false (Some a) rest)
  end.
Lemma consumes_optional {A} (f : list Z -> Reply A) : consumes f -> consumes (ref_optional f).
Proof.
  intros Hf s c a rest. unfold ref_optional.
  destruct (f s) as [c1 a' rest'|[]|] eqn:E; [|done| |done]; cbn; [|intros; by simplify_eq].
  rewrite orb_false_r. intros [= <- <- <-]. by apply Hf in E.
Qed.

Definition ref_sep_by {A} (f : list Z -> Reply A) (g : list Z -> Reply (list A)) (s : list Z) :
    Reply (list A) :=
  match f s with
  | Failed false => Parsed false [] s
  | r => reply_bind r (fun a rest => reply_bind (g rest) (fun l rest => Parsed false (a :: l) rest))
  end.
Lemma consumes_sep_by {A} (f : list Z -> Reply A) (g : list Z -> Reply (list A)) :
  consumes f -> consumes g -> consumes (ref_sep_by f g).
Proof.
  intros Hf Hg. assert (Hb : consumes (fun s => reply_bind (f s) (fun a rest =>
    reply_bind (g rest) (fun l rest => Parsed false (a :: l) rest)))).
  { apply consumes_bind; [done|]. intros a. apply consumes_bind; [done|]. intros l. apply consumes_ret. }
  intros s c l rest. unfold ref_sep_by.
  destruct (f s) as [c1 a' rest'|[]|] eqn:E; [|done| |done]; [|intros; by simplify_eq].
  intros H. apply (Hb s c l rest). by rewrite E.
Qed.


(** The combinators of [combine] built from these functions: the interface's laws hold. *)
Section Reference.
Context `{Uni : UnicodeTables}.

Definition ref_map_then {A B} (f : A -> Exec Empty_set B) (a : A) (s : list Z) : Reply B :=
  match f a with Ret b => Parsed false b s | Panic x => Stopped x | Err e => match e with end end.

Lemma consumes_map_then {A B} (f : A -> Exec Empty_set B) (a : A) : consumes (ref_map_then f a).
Proof. apply (consumes_stop (f a) a). Qed.

Definition ref_many_p {A} (p : ref_parser A) : ref_parser (list A) :=
  RP (fun s => ref_many (rp p) (S (length s)) s) (consumes_many (rp p) (rp_consumes p)).
Definition ref_bind_p {A B} (p : ref_parser A) (k : A -> ref_parser B) : ref_parser B :=
  RP (fun s => reply_bind (rp p s) (fun a => rp (k a)))
    (consumes_bind (rp p) (fun a => rp (k a)) (rp_consumes p) (fun a => rp_consumes (k a))).
Definition ref_ret_p {A} (a : A) : ref_parser A := RP (fun s => Parsed false a s) (consumes_ret a).

Program Definition combine_reference : Combine := {|
  Parser := ref_parser;
  run A p := rp p;
  char c := RP _ (consumes_one_token (Z.eqb c));
  one_of cs := RP _ (consumes_one_token (fun c => existsb (Z.eqb c) cs));
  digit := RP _ (consumes_one_token is_digit);
  hex_digit := RP _ (consumes_one_token is_hex_digit);
  alpha_num := RP _ (consumes_one_token is_alphanumeric);
  spaces := RP _ consumes_spaces;
  string lit := RP _ (consumes_tokens lit);
  eof := RP _ consumes_eof;
  attempt A p := RP _ (consumes_attempt (rp p) (rp_consumes p));
  or A p q := RP _ (consumes_or (rp p) (rp q) (rp_consumes p) (rp_consumes q));
  seq A B p q := ref_bind_p p (fun a => ref_bind_p q (fun b => ref_ret_p (a, b)));
  with_ A B p q := ref_bind_p p (fun _ => q);
  skip A B p q := ref_bind_p p (fun a => ref_bind_p q (fun _ => ref_ret_p a));
  map A B f p := ref_bind_p p (fun a => RP _ (consumes_map_then f a));
  optional A p := RP _ (consumes_optional (rp p) (rp_consumes p));
  many A p := ref_many_p p;
  many1 A p := ref_bind_p p (fun a => ref_bind_p (ref_many_p p) (fun l => ref_ret_p (a :: l)));
  skip_many A p := ref_bind_p (ref_many_p p) (fun _ => ref_ret_p tt);
  sep_by A B p sep := RP _ (consumes_sep_by (rp p) _ (rp_consumes p)
    (rp_consumes (ref_many_p (ref_bind_p sep (fun _ => p)))));
  between A B C op cl p :=
    ref_bind_p op (fun _ => ref_bind_p p (fun a => ref_bind_p cl (fun _ => ref_ret_p a)));
  OtherErr := Empty_set;
  parse_errors A p s := {| position := {| line := 1; column := 1 |}; errors := [] |};
|}.
Solve Obligations with (intros; first [done | by destruct s | idtac]).
Next Obligation.
  intros A p s Hne. cbn -[ref_many]. cbn [ref_many].
  destruct (rp p s) as [c a rest|[]|] eqn:E; try done.
  destruct c; [|by destruct (Hne s a rest)]. cbn -[ref_many].
  by rewrite (ref_many_enough (rp p) (length s) (S (length rest)) rest (rp_consumes p) Hne)
    by (apply (rp_consumes p) in E; lia).
Qed.
End Reference.
