(* ===== verification/AsmSource.v ===== *)
(** What the assembly parser accepts: texts of operands, statements and sources, and that
    parsing such a text gives the statements it was written from. *)
From Stdlib Require Import String.
From S2P Require Import Prelude Text AsmParser.
Open Scope rust_scope.
Open Scope list_scope.

(** * What the parser accepts *)

Create HintDb progress.

Section Accepts.
Context `{Cmb : Combine}.

(** The characters of identifiers. *)
Definition is_ident_char (c : Z) : bool := is_alphanumeric c || (c =? 0x5f).

(** The rest of the input does not go on with a character of the class. *)
Definition stops (cls : Z -> bool) (rest : list Z) : Prop :=
  match rest with [] => True | c :: _ => cls c = false end.

Lemma stops_weaken (p q : Z -> bool) (rest : list Z) :
  (forall c, q c = true -> p c = true) -> stops p rest -> stops q rest.
Proof.
  intros H. destruct rest as [|c rest]; [done|]. cbn. intros Hp.
  destruct (q c) eqn:Hq; [|done]. apply H in Hq. congruence.
Qed.

(** A parser of one character of a class. *)
Definition class_parser (p : Parser Z) (cls : Z -> bool) : Prop := forall s, run p s = one_token cls s.

Lemma class_ident : class_parser (or alpha_num (char 0x5f)) is_ident_char.
Proof.
  intros [|c s]; rewrite run_or, run_alpha_num; cbn; [by rewrite run_char|].
  unfold is_ident_char. rewrite (Z.eqb_sym c).
  destruct (is_alphanumeric c); [done|]. by rewrite run_char.
Qed.

(** A parser that consumes input whenever it succeeds. *)
Definition progress {A} (p : Parser A) : Prop := forall s a rest, run p s <> Parsed false a rest.

Lemma progress_class (p : Parser Z) (cls : Z -> bool) : class_parser p cls -> progress p.
Proof. intros H [|c s] a rest; rewrite H; cbn; [done|]. by destruct (cls c). Qed.

Lemma progress_bind {A B} (r : Reply A) (k : A -> list Z -> Reply B) (b : B) (rest : list Z) :
  (forall a s, r <> Parsed false a s) -> reply_bind r k <> Parsed false b rest.
Proof.
  intros Hr. destruct r as [[] a r'| |]; cbn; [|by destruct (Hr a r')|done..]. by destruct (k a r').
Qed.

Lemma progress_char (c : Z) : progress (char c).
Proof. apply (progress_class _ (Z.eqb c)). intros s. apply run_char. Qed.
Lemma progress_many1 {A} (p : Parser A) : progress p -> progress (many1 p).
Proof. intros Hp s a rest. rewrite run_many1. apply progress_bind, Hp. Qed.
Lemma progress_seq {A B} (p : Parser A) (q : Parser B) : progress p -> progress (seq p q).
Proof. intros Hp s a rest. rewrite run_seq. apply progress_bind, Hp. Qed.
Lemma progress_skip {A B} (p : Parser A) (q : Parser B) : progress p -> progress (skip p q).
Proof. intros Hp s a rest. rewrite run_skip. apply progress_bind, Hp. Qed.
Lemma progress_with {A B} (p : Parser A) (q : Parser B) : progress p -> progress (with_ p q).
Proof. intros Hp s a rest. rewrite run_with. apply progress_bind, Hp. Qed.
Lemma progress_map {A B} (f : A -> Exec Empty_set B) (p : Parser A) : progress p -> progress (map f p).
Proof. intros Hp s a rest. rewrite run_map. apply progress_bind, Hp. Qed.
Lemma progress_attempt {A} (p : Parser A) : progress p -> progress (attempt p).
Proof. intros Hp s a rest. rewrite run_attempt. specialize (Hp s a rest). by destruct (run p s). Qed.
Lemma progress_or {A} (p q : Parser A) : progress p -> progress q -> progress (or p q).
Proof.
  intros Hp Hq s a rest. rewrite run_or. specialize (Hp s a rest). specialize (Hq s a rest).
  by destruct (run p s) as [| [] |].
Qed.
Lemma progress_alpha_num : progress alpha_num.
Proof. apply (progress_class _ is_alphanumeric). intros s. apply run_alpha_num. Qed.
#[local] Hint Resolve progress_char progress_many1 progress_seq progress_skip progress_with
  progress_map progress_attempt progress_or progress_alpha_num : progress.

Lemma run_many_class (p : Parser Z) (cls : Z -> bool) (w rest : list Z) :
  class_parser p cls -> Forall (fun c => cls c = true) w -> stops cls rest ->
  run (many p) (w ++ rest) = Parsed (match w with [] => false | _ => true end) w rest.
Proof.
  intros Hp Hw Hr. induction Hw as [|c w Hc Hw IH]; cbn [app];
    rewrite run_many by (by apply (progress_class p cls)); rewrite Hp.
  - destruct rest as [|c rest]; cbn in *; [done|]. by rewrite Hr.
  - cbn [one_token]. rewrite Hc. cbn. rewrite IH. by destruct w.
Qed.

Lemma run_many1_class (p : Parser Z) (cls : Z -> bool) (w rest : list Z) :
  class_parser p cls -> w <> [] -> Forall (fun c => cls c = true) w -> stops cls rest ->
  run (many1 p) (w ++ rest) = Parsed true w rest.
Proof.
  intros Hp Hne Hw Hr. destruct w as [|c w]; [done|]. apply Forall_cons in Hw as [Hc Hw].
  rewrite run_many1, Hp. cbn [app one_token]. rewrite Hc. cbn.
  by rewrite (run_many_class p cls w rest Hp Hw Hr).
Qed.

Lemma run_many1_fails (p : Parser Z) (cls : Z -> bool) (s : list Z) :
  class_parser p cls -> stops cls s -> run (many1 p) s = Failed false.
Proof. intros Hp Hs. rewrite run_many1, Hp. destruct s as [|c s]; [done|]. cbn in *. by rewrite Hs. Qed.

Lemma run_blanks (n : nat) (rest : list Z) :
  stops (Z.eqb 0x20) rest ->
  run blanks (replicate n 0x20 ++ rest) = Parsed (match n with O => false | _ => true end) tt rest.
Proof.
  intros Hr. unfold blanks. rewrite run_skip_many.
  rewrite (run_many_class (char 0x20) (Z.eqb 0x20)); [|intros s; apply run_char| |done].
  - by destruct n.
  - apply Forall_replicate. done.
Qed.

Lemma run_no_blanks (rest : list Z) :
  stops (Z.eqb 0x20) rest -> run blanks rest = Parsed false tt rest.
Proof. apply (run_blanks 0). Qed.

(** ** Numbers *)

Lemma digit_ident (c : Z) : is_hex_digit c = true -> is_ident_char c = true.
Proof.
  intros Hc. unfold is_ident_char, is_alphanumeric.
  assert (Ha : is_ascii_alphanumeric c = true /\ (c <? 0x80) = true).
  { unfold is_ascii_alphanumeric, is_hex_digit, is_digit, in_range in *.
    repeat match goal with |- context [?a <=? ?b] => destruct (Z.leb_spec a b) end;
    repeat match goal with H : context [?a <=? ?b] |- _ => destruct (Z.leb_spec a b) end;
    cbn in *; (done || (split; [done|lia]) || lia). }
  destruct Ha as [-> ->]. done.
Qed.

Definition hex_number : Parser Z :=
  map_ok (fun x => as_i64 (default 0 (u64_from_str_radix x 16))) (with_ (string (str "0x")) (many1 hex_digit)).
Definition dec_number : Parser Z := map_ok (fun x => default 0 (i64_parse x)) (many1 digit).
Definition magnitude : Parser Z := or (attempt hex_number) dec_number.

Lemma stops_digit (rest : list Z) : stops is_ident_char rest -> stops is_digit rest.
Proof. apply stops_weaken. intros c Hc. by apply digit_ident, is_digit_hex. Qed.

(** A run of digits. *)
Definition numeral (cls : Z -> bool) (ds : list Z) : Prop := ds <> [] /\ Forall (fun c => cls c = true) ds.

Lemma run_hex_number_fails (ds rest : list Z) :
  numeral is_digit ds -> stops is_ident_char rest -> run (attempt hex_number) (ds ++ rest) = Failed false.
Proof.
  intros [Hne Hd] Hr. rewrite run_attempt. unfold hex_number, map_ok. rewrite run_map, run_with, run_string.
  destruct ds as [|c ds]; [done|]. apply Forall_cons in Hd as [_ Hd].
  change (str "0x") with [0x30; 0x78]. cbn [app tokens one_token].
  destruct (0x30 =? c); [|done]. cbn [reply_bind].
  assert (Hs : stops (Z.eqb 0x78) (ds ++ rest)).
  { destruct Hd as [|d ds Hd Hds]; cbn [app stops].
    - revert Hr. apply stops_weaken. intros x Hx. by apply Z.eqb_eq in Hx as <-.
    - apply Z.eqb_neq. intros <-. discriminate Hd. }
  destruct (ds ++ rest) as [|x l]; [done|]. cbn [one_token stops] in *. by rewrite Hs.
Qed.

Lemma run_magnitude_decimal (ds rest : list Z) :
  numeral is_digit ds -> stops is_ident_char rest ->
  run magnitude (ds ++ rest) = Parsed true (default 0 (i64_parse ds)) rest.
Proof.
  intros Hd Hr. unfold magnitude. rewrite run_or, run_hex_number_fails by done.
  unfold dec_number, map_ok. rewrite run_map.
  by rewrite (run_many1_class digit is_digit); [|intros s; apply run_digit|apply Hd..|apply stops_digit].
Qed.

Lemma run_magnitude_hex (ds rest : list Z) :
  numeral is_hex_digit ds -> stops is_ident_char rest ->
  run magnitude ((str "0x" ++ ds) ++ rest) = Parsed true (as_i64 (default 0 (u64_from_str_radix ds 16))) rest.
Proof.
  intros Hd Hr. unfold magnitude, hex_number, map_ok.
  rewrite run_or, run_attempt, run_map, run_with, run_string.
  change (tokens (str "0x") _) with (Parsed true tt (ds ++ rest)). cbn [reply_bind].
  rewrite (run_many1_class hex_digit is_hex_digit); [done|intros s; apply run_hex_digit|apply Hd..|].
  revert Hr. apply stops_weaken, digit_ident.
Qed.

(** ** The value of a numeral *)

(** The number that digits write in a radix. *)
Definition digits_value (radix : Z) (ds : list Z) : Z :=
  foldl (fun a c => a * radix + default 0 (to_digit radix c)) 0 ds.

Lemma accumulate_value (radix lo hi a v : Z) (ds : list Z) :
  accumulate radix 1 lo hi a ds = Some v ->
  v = foldl (fun a c => a * radix + default 0 (to_digit radix c)) a ds.
Proof.
  revert a. induction ds as [|c ds IH]; intros a; cbn [accumulate foldl]; [congruence|].
  destruct (to_digit radix c) as [d|]; [|done].
  destruct (_ && _); [|done]. destruct (_ && _); [|done]. rewrite Z.mul_1_l. apply IH.
Qed.

(** A digit of the radix. *)
Definition radix_digit (radix c : Z) : Prop := exists d, to_digit radix c = Some d /\ 0 <= d.

Lemma decimal_radix_digit (c : Z) : is_digit c = true -> radix_digit 10 c.
Proof.
  intros Hc. unfold radix_digit, to_digit. rewrite Hc. unfold is_digit, in_range in Hc.
  apply andb_true_iff in Hc as [H1%Z.leb_le H2%Z.leb_le].
  exists (c - 0x30). split; [by rewrite (proj2 (Z.ltb_lt _ _)) by lia|lia].
Qed.

Lemma hex_radix_digit (c : Z) : is_hex_digit c = true -> radix_digit 16 c.
Proof.
  intros Hc. unfold radix_digit, to_digit. unfold is_hex_digit, is_digit, in_range in *.
  repeat match goal with |- context [?a <=? ?b] => destruct (Z.leb_spec a b) end;
  repeat match goal with H : context [?a <=? ?b] |- _ => destruct (Z.leb_spec a b) end;
  cbn [andb orb] in *; try done; try lia;
  (eexists; split; [by rewrite (proj2 (Z.ltb_lt _ _)) by lia|lia]).
Qed.

Lemma foldl_value_ge (radix a : Z) (ds : list Z) :
  1 < radix -> 0 <= a -> Forall (radix_digit radix) ds ->
  a <= foldl (fun a c => a * radix + default 0 (to_digit radix c)) a ds.
Proof.
  intros Hr Ha Hd. revert a Ha. induction Hd as [|c ds (d & Hc & Hd0) _ IH]; intros a Ha; cbn [foldl]; [lia|].
  rewrite Hc. cbn [default from_option id]. transitivity (a * radix + d); [nia|]. apply IH. nia.
Qed.

Lemma accumulate_fits (radix lo hi a : Z) (ds : list Z) :
  1 < radix -> lo <= 0 <= a -> Forall (radix_digit radix) ds ->
  foldl (fun a c => a * radix + default 0 (to_digit radix c)) a ds <= hi ->
  accumulate radix 1 lo hi a ds
  = Some (foldl (fun a c => a * radix + default 0 (to_digit radix c)) a ds).
Proof.
  intros Hr Ha Hd. revert a Ha. induction Hd as [|c ds (d & Hc & Hd0) Hds IH]; intros a Ha Hv; [done|].
  cbn [foldl accumulate] in *. rewrite Hc in *. cbn [default from_option id] in *.
  pose proof (foldl_value_ge radix (a * radix + d) ds Hr ltac:(nia) Hds).
  rewrite !(proj2 (Z.leb_le _ _)) by nia. cbn [andb]. rewrite Z.mul_1_l. apply IH; [nia|done].
Qed.

Lemma i64_parse_value (ds : list Z) :
  numeral is_digit ds -> digits_value 10 ds <= i64_max -> i64_parse ds = Some (digits_value 10 ds).
Proof.
  intros [Hne Hd] Hv. unfold i64_parse.
  rewrite from_str_radix_unsigned by (done || (eapply Forall_impl; [done|apply is_digit_hex])).
  apply accumulate_fits; [lia|unfold i64_min; lia|by eapply Forall_impl, decimal_radix_digit|done].
Qed.

Lemma u64_from_str_radix_value (ds : list Z) :
  numeral is_hex_digit ds -> digits_value 16 ds <= u64_max -> u64_from_str_radix ds 16 = Some (digits_value 16 ds).
Proof.
  intros [Hne Hd] Hv. unfold u64_from_str_radix. rewrite from_str_radix_unsigned by done.
  apply accumulate_fits; [lia|lia|by eapply Forall_impl, hex_radix_digit|done].
Qed.

Lemma decimal_value (n : Z) : 0 <= n <= i64_max -> digits_value 10 (decimal n) = n.
Proof.
  intros Hn. pose proof (i64_parse_decimal n Hn) as Hp. unfold i64_parse in Hp.
  rewrite from_str_radix_unsigned in Hp.
  - symmetry. by eapply accumulate_value.
  - apply decimal_nonempty.
  - eapply Forall_impl; [by apply decimal_digits; lia|apply is_digit_hex].
Qed.

Lemma decimal_numeral (n : Z) : 0 <= n -> numeral is_digit (decimal n).
Proof. intros. split; [apply decimal_nonempty|by apply decimal_digits]. Qed.

Lemma hex_numeral (n : Z) : in_u 64 n -> numeral is_hex_digit (radix_digits 16 16 n []).
Proof.
  intros [Hn _]. split; [by apply radix_digits_nonempty|].
  apply radix_digits_Forall; [lia|apply digit_char_hex|done|done].
Qed.

Lemma hex_value (n : Z) : in_u 64 n -> digits_value 16 (radix_digits 16 16 n []) = n.
Proof.
  intros Hn. pose proof (u64_from_str_radix_hex n Hn) as Hp. unfold u64_from_str_radix in Hp.
  rewrite from_str_radix_unsigned in Hp by apply (hex_numeral n Hn). symmetry. by eapply accumulate_value.
Qed.

(** A magnitude starts with a digit. *)
Definition starts_number (m : list Z) : Prop := exists c m', m = c :: m' /\ is_digit c = true.

Lemma numeral_starts (ds : list Z) : numeral is_digit ds -> starts_number ds.
Proof. intros [Hne Hd]. destruct Hd as [|c ds Hc Hds]; [done|]. by exists c, ds. Qed.
Lemma hex_starts (ds : list Z) : starts_number (str "0x" ++ ds).
Proof. by eexists 0x30, _. Qed.

Lemma is_digit_not (c d : Z) : is_digit c = true -> is_digit d = false -> (c =? d) = false.
Proof. intros Hc Hd. apply Z.eqb_neq. intros ->. congruence. Qed.

Lemma run_integer_plain (m rest : list Z) (v : Z) :
  starts_number m -> run magnitude (m ++ rest) = Parsed true v rest -> in_s 64 v ->
  run integer (m ++ rest) = Parsed true v rest.
Proof.
  intros (c & m' & -> & Hc) Hm Hv. unfold integer. fold hex_number dec_number magnitude.
  rewrite run_map, run_seq. unfold map_ok. rewrite run_map, run_optional, run_skip, run_one_of.
  change (str "-+") with [0x2d; 0x2b]. cbn [app one_token existsb].
  rewrite (is_digit_not c 0x2d), (is_digit_not c 0x2b) by done. cbn [orb reply_bind after].
  cbn [app] in Hm. rewrite Hm. cbn [reply_bind after orb].
  unfold i64_mul. rewrite Z.mul_1_l. unfold in_s, i64_min, i64_max in *.
  by rewrite !(proj2 (Z.leb_le _ _)) by lia.
Qed.

Lemma run_integer_sign (sign : Z) (b : nat) (m rest : list Z) (v : Z) :
  sign = 0x2d \/ sign = 0x2b ->
  starts_number m -> run magnitude (m ++ rest) = Parsed true v rest ->
  in_s 64 v -> in_s 64 (if sign =? 0x2d then - v else v) ->
  run integer (sign :: replicate b 0x20 ++ m ++ rest) = Parsed true (if sign =? 0x2d then - v else v) rest.
Proof.
  intros Hs (c & m' & -> & Hc) Hm Hv Hv'. unfold integer. fold hex_number dec_number magnitude.
  rewrite run_map, run_seq. unfold map_ok. rewrite run_map, run_optional, run_skip, run_one_of.
  assert (Hn : existsb (Z.eqb sign) (str "-+") = true) by (destruct Hs as [-> | ->]; done).
  cbn [one_token]. rewrite Hn. cbn [reply_bind].
  rewrite run_blanks by (cbn [app stops]; rewrite Z.eqb_sym; by apply is_digit_not).
  cbn [reply_bind after]. rewrite Hm. cbn [reply_bind after].
  unfold i64_mul, i64_min, i64_max, in_s in *.
  destruct Hs as [-> | ->]; cbn [Z.eqb Pos.eqb] in *; rewrite !(proj2 (Z.leb_le _ _)) by lia;
    cbn; do 2 f_equal; lia.
Qed.

(** ** Operands *)

(** A number without a sign: decimal digits, or hexadecimal ones of either case after [0x];
    leading zeros are allowed.  A hexadecimal number is 64 bits wide and read as signed. *)
Inductive magnitude_text : Z -> list Z -> Prop :=
  | text_decimal ds : numeral is_digit ds -> digits_value 10 ds <= i64_max ->
      magnitude_text (digits_value 10 ds) ds
  | text_hex ds : numeral is_hex_digit ds -> digits_value 16 ds <= u64_max ->
      magnitude_text (as_i64 (digits_value 16 ds)) (str "0x" ++ ds).

(** A sign, blanks and a number. *)
Inductive signed_text : Z -> list Z -> Prop :=
  | text_minus v b m : magnitude_text v m -> v <> i64_min -> signed_text (- v) (0x2d :: replicate b 0x20 ++ m)
  | text_plus v b m : magnitude_text v m -> signed_text v (0x2b :: replicate b 0x20 ++ m).

(** An identifier that can be an operand: a name that starts with [r] is taken for a register
    and one that starts with a digit for a number. *)
Definition identifier (l : list Z) : Prop :=
  match l with
  | [] => False
  | c :: _ => c <> 0x72 /\ is_digit c = false /\ Forall (fun c => is_ident_char c = true) l
  end.

(** A register. *)
Inductive register_text : Z -> list Z -> Prop :=
  | text_r ds : numeral is_digit ds -> digits_value 10 ds <= i64_max ->
      register_text (digits_value 10 ds) (0x72 :: ds).

(** What follows the register of a memory reference: nothing, a signed offset, or an offset
    without a sign, which a blank sets apart from the register. *)
Inductive offset_text : Z -> list Z -> Prop :=
  | text_no_offset b : offset_text 0 (replicate b 0x20)
  | text_signed_offset b v t : signed_text v t -> offset_text v (replicate b 0x20 ++ t)
  | text_unsigned_offset b v t : magnitude_text v t -> offset_text v (replicate (S b) 0x20 ++ t).

Inductive operand_text : Operand -> list Z -> Prop :=
  | text_register n t : register_text n t -> operand_text (Register n) t
  | text_unsigned v t : magnitude_text v t -> operand_text (Integer v) t
  | text_signed v t : signed_text v t -> operand_text (Integer v) t
  | text_memory n t v o : register_text n t -> offset_text v o ->
      operand_text (Memory n v) (0x5b :: t ++ o ++ [0x5d])
  | text_label l : identifier l -> operand_text (Label l) l.

(** The texts that numbers are printed as. *)
Lemma decimal_text (n : Z) : 0 <= n <= i64_max -> magnitude_text n (decimal n).
Proof.
  intros Hn. pose proof (text_decimal (decimal n)) as Ht. rewrite decimal_value in Ht by done.
  apply Ht; [apply decimal_numeral; lia|lia].
Qed.
Lemma hex_alternate_text (n : Z) : in_u 64 n -> magnitude_text (as_i64 n) (hex_alternate 64 n).
Proof.
  intros Hn. pose proof (text_hex (radix_digits 16 16 n [])) as Ht. rewrite hex_value in Ht by done.
  unfold hex_alternate. rewrite uwrap_small by done.
  apply Ht; [by apply hex_numeral|]. unfold in_u, u64_max in *. lia.
Qed.
Lemma register_decimal (n : Z) : 0 <= n <= i64_max -> register_text n (0x72 :: decimal n).
Proof.
  intros Hn. pose proof (text_r (decimal n)) as Ht. rewrite decimal_value in Ht by done.
  apply Ht; [apply decimal_numeral; lia|lia].
Qed.

Lemma digits_value_nonneg (ds : list Z) : numeral is_digit ds -> 0 <= digits_value 10 ds.
Proof. intros [_ Hd]. apply foldl_value_ge; [lia..|]. by eapply Forall_impl, decimal_radix_digit. Qed.

Lemma run_magnitude_text (v : Z) (m rest : list Z) :
  magnitude_text v m -> stops is_ident_char rest ->
  starts_number m /\ in_s 64 v /\ run magnitude (m ++ rest) = Parsed true v rest.
Proof.
  intros [ds Hd Hn|ds Hd Hn] Hr.
  - pose proof (digits_value_nonneg ds Hd).
    split_and!; [by apply numeral_starts|unfold in_s, i64_max in *; lia|].
    by rewrite run_magnitude_decimal, i64_parse_value.
  - split_and!; [apply hex_starts|by apply swrap_range|].
    by rewrite run_magnitude_hex, u64_from_str_radix_value.
Qed.

Lemma run_signed_text (v : Z) (t rest : list Z) :
  signed_text v t -> stops is_ident_char rest -> run integer (t ++ rest) = Parsed true v rest.
Proof.
  intros Ht Hr. destruct Ht as [v b m Hm Hv|v b m Hm];
    destruct (run_magnitude_text v m rest Hm Hr) as (Hs & Hb & Hrun); cbn [app]; rewrite <-app_assoc;
    (rewrite (run_integer_sign _ b m rest v); [done|auto|done|done|done|]);
    [unfold in_s, i64_min in *; cbn; lia|done].
Qed.

Lemma signed_text_head (v : Z) (t : list Z) :
  signed_text v t -> exists c t', t = c :: t' /\ (c = 0x2d \/ c = 0x2b).
Proof. intros [???|???]; eauto. Qed.

(** Neither a sign nor a digit: not an integer. *)
Lemma run_integer_fails (s : list Z) :
  stops (fun c => (c =? 0x2d) || (c =? 0x2b) || is_digit c) s -> run integer s = Failed false.
Proof.
  intros Hs. unfold integer. fold hex_number dec_number magnitude.
  rewrite run_map, run_seq. unfold map_ok. rewrite run_map, run_optional, run_skip, run_one_of.
  assert (Hm : run magnitude s = Failed false).
  { unfold magnitude, hex_number, dec_number, map_ok.
    rewrite run_or, run_attempt, run_map, run_with, run_string, run_map.
    rewrite (run_many1_fails digit is_digit);
      [|intros x; apply run_digit|revert Hs; apply stops_weaken; intros c ->; apply orb_true_r].
    change (str "0x") with [0x30; 0x78]. destruct s as [|c s]; [done|]. cbn [tokens one_token].
    destruct (Z.eqb_spec 0x30 c) as [<-|]; [discriminate Hs|done]. }
  destruct s as [|c s]; cbn [one_token reply_bind after]; [by rewrite Hm|].
  change (str "-+") with [0x2d; 0x2b]. cbn [existsb stops] in *.
  destruct (c =? 0x2d), (c =? 0x2b); try discriminate Hs. cbn [orb reply_bind after]. by rewrite Hm.
Qed.

Lemma run_register_fails (s : list Z) : stops (Z.eqb 0x72) s -> run register s = Failed false.
Proof.
  intros Hs. unfold register, map_ok. rewrite run_map, run_with, run_char.
  destruct s as [|c s]; [done|]. cbn [one_token stops] in *. by rewrite Hs.
Qed.

Lemma run_register (n : Z) (t rest : list Z) :
  register_text n t -> stops is_digit rest -> run register (t ++ rest) = Parsed true n rest.
Proof.
  intros [ds Hd Hn] Hr. unfold register, map_ok. cbn [app]. rewrite run_map, run_with, run_char.
  cbn [one_token Z.eqb]. rewrite Pos.eqb_refl. cbn [reply_bind].
  rewrite (run_many1_class digit is_digit); [|intros s; apply run_digit|apply Hd..|done].
  cbn [reply_bind after]. by rewrite i64_parse_value.
Qed.

(** Blanks and the optional offset, up to the closing bracket. *)
Lemma run_offset (v : Z) (o rest : list Z) :
  offset_text v o ->
  stops is_digit (o ++ 0x5d :: rest) /\
  exists c s, run blanks (o ++ 0x5d :: rest) = Parsed c tt s /\
  exists c' x, run (optional integer) s = Parsed c' x (0x5d :: rest) /\ default 0 x = v.
Proof.
  intros [b|b v' t Ht|b v' t Ht].
  - split; [by destruct b|]. eexists _, _. split; [by apply (run_blanks b)|].
    rewrite run_optional, run_integer_fails by done. eauto.
  - destruct (signed_text_head v' t Ht) as (c & t' & Et & Hc). split.
    { rewrite Et. destruct b; [|done]. cbn. by destruct Hc as [-> | ->]. }
    rewrite <-app_assoc. eexists _, _. split.
    { apply run_blanks. rewrite Et. cbn. by destruct Hc as [-> | ->]. }
    rewrite run_optional, (run_signed_text v' t) by done. cbn. eauto.
  - destruct (run_magnitude_text v' t (0x5d :: rest) Ht) as (Hs & Hb & Hrun); [done|]. split; [done|].
    rewrite <-app_assoc. eexists _, _. split.
    { apply (run_blanks (S b)). destruct Hs as (c & t' & -> & Hc).
      cbn [app stops]. rewrite Z.eqb_sym. by apply is_digit_not. }
    rewrite run_optional, (run_integer_plain t (0x5d :: rest) v') by done. cbn. eauto.
Qed.

(** The memory operand with its brackets. *)
Lemma run_memory (n v : Z) (t o rest : list Z) :
  register_text n t -> offset_text v o ->
  exists x, default 0 x = v /\
  run (between (char 0x5b) (char 0x5d) (seq (skip register blanks) (optional integer)))
    (0x5b :: (t ++ o ++ [0x5d]) ++ rest) = Parsed true (n, x) rest.
Proof.
  intros Ht Ho. destruct (run_offset v o rest Ho) as (Hd & c & s & Hb & c' & x & Hi & Hx).
  exists x. split; [done|]. rewrite run_between, run_char. cbn [one_token Z.eqb]. rewrite Pos.eqb_refl.
  cbn [reply_bind]. rewrite run_seq, run_skip, <-!app_assoc. cbn [app].
  rewrite (run_register n t) by done. cbn [reply_bind]. rewrite Hb. cbn [reply_bind after]. rewrite Hi.
  cbn [reply_bind after]. rewrite run_char. cbn [one_token Z.eqb]. by rewrite Pos.eqb_refl.
Qed.

Lemma run_operand_text (o : Operand) (t rest : list Z) :
  operand_text o t -> stops is_ident_char rest -> run operand (t ++ rest) = Parsed true o rest.
Proof.
  intros Ht Hr. unfold operand, map_ok. rewrite !run_or, !run_map. destruct Ht as [n t Ht|v t Ht|v t Ht|n t v o Ht Ho|l Hl].
  - by rewrite (run_register n t) by (done || by apply stops_digit).
  - destruct (run_magnitude_text v t rest Ht Hr) as (Hs & Hb & Hrun).
    rewrite (run_integer_plain t rest v) by done. destruct Hs as (c & t' & -> & Hc).
    cbn [app]. rewrite run_register_fails; [done|]. apply Z.eqb_neq. intros <-. discriminate Hc.
  - rewrite (run_signed_text v t) by done. by destruct Ht; cbn [app]; rewrite run_register_fails.
  - cbn [app]. rewrite run_register_fails, run_integer_fails by done. cbn [reply_bind].
    destruct (run_memory n v t o rest Ht Ho) as (x & <- & ->). done.
  - destruct l as [|c l]; [done|]. destruct Hl as (Hc & Hd & Hi).
    pose proof (Forall_inv Hi) as Hci. cbn [app].
    rewrite run_register_fails by (apply Z.eqb_neq; congruence).
    rewrite run_integer_fails by (cbn [stops]; rewrite Hd, !(proj2 (Z.eqb_neq c _));
      [done|intros ->; discriminate Hci..]). cbn [reply_bind].
    rewrite run_between, run_char. cbn [one_token].
    rewrite (proj2 (Z.eqb_neq 0x5b c)) by (intros <-; discriminate Hci). cbn [reply_bind].
    change (c :: l ++ rest) with ((c :: l) ++ rest). unfold ident.
    by rewrite (run_many1_class _ is_ident_char _ _ class_ident).
Qed.

(** ** Statements *)

Lemma ident_not_space (c : Z) : is_ident_char c = true -> is_whitespace c = false.
Proof.
  intros Hc. destruct (is_whitespace c) eqn:Hw; [|done]. pose proof (unicode_space c Hw) as Hu.
  unfold is_ident_char, is_alphanumeric in Hc. rewrite Hu in Hc. exfalso. revert Hw Hc.
  unfold is_whitespace, is_ascii_alphanumeric, is_digit, in_range.
  destruct (Z.ltb_spec c 0x80), (Z.eqb_spec c 0x5f);
  repeat match goal with |- context [?a <=? ?b] => destruct (Z.leb_spec a b); try lia end;
  repeat match goal with |- context [?a =? ?b] => destruct (Z.eqb_spec a b); try lia end; done.
Qed.

(** The input ends, or goes on with white space. *)
Definition space_end (rest : list Z) : Prop :=
  match rest with [] => True | c :: _ => is_whitespace c = true end.
(** The input ends, or goes on with white space other than a blank: the end of a line. *)
Definition line_end (rest : list Z) : Prop :=
  match rest with [] => True | c :: _ => is_whitespace c = true /\ c <> 0x20 end.

Lemma line_space_end (rest : list Z) : line_end rest -> space_end rest.
Proof. destruct rest; [done|]. by intros [? _]. Qed.

Lemma space_end_stops (cls : Z -> bool) (rest : list Z) :
  (forall c, cls c = true -> is_whitespace c = false) -> space_end rest -> stops cls rest.
Proof.
  intros Hc. destruct rest as [|c rest]; [done|]. cbn. intros Hs.
  destruct (cls c) eqn:E; [|done]. apply Hc in E. congruence.
Qed.

(** A character that is not white space. *)
Lemma eqb_not_space (x c : Z) : is_whitespace x = false -> (x =? c) = true -> is_whitespace c = false.
Proof. by intros ? <-%Z.eqb_eq. Qed.

Definition operand_sep : Parser Z := skip (char 0x2c) blanks.

(** The first character of an operand. *)
Lemma operand_text_head (o : Operand) (t : list Z) :
  operand_text o t -> exists c t', t = c :: t' /\ c <> 0x20.
Proof.
  assert (Hnum : forall m, starts_number m -> exists c t', m = c :: t' /\ c <> 0x20).
  { intros m (c & t' & -> & Hc). exists c, t'. split; [done|]. intros ->. discriminate Hc. }
  intros [n t1 Ht|v t1 Ht|v t1 Ht|n t1 v off Ht Ho|l Hl].
  - destruct Ht as [ds _ _]. by exists 0x72, ds.
  - apply Hnum. destruct Ht; [by apply numeral_starts|apply hex_starts].
  - destruct (signed_text_head v t1 Ht) as (c & t' & -> & Hc). exists c, t'. split; [done|]. lia.
  - by eexists 0x5b, _.
  - destruct l as [|c l]; [done|]. exists c, l. split; [done|]. destruct Hl as (_ & _ & Hi).
    intros ->. discriminate (Forall_inv Hi).
Qed.

Lemma operand_text_no_blank (o : Operand) (t rest : list Z) :
  operand_text o t -> stops (Z.eqb 0x20) (t ++ rest).
Proof.
  intros Ht. destruct (operand_text_head o t Ht) as (c & t' & -> & Hc). cbn [app stops].
  apply Z.eqb_neq. congruence.
Qed.

Lemma run_operand_sep (b : nat) (s : list Z) :
  stops (Z.eqb 0x20) s -> run operand_sep (0x2c :: replicate b 0x20 ++ s) = Parsed true 0x2c s.
Proof.
  intros Hs. unfold operand_sep. rewrite run_skip, run_char.
  cbn [one_token Z.eqb]. rewrite Pos.eqb_refl. cbn [reply_bind]. by rewrite run_blanks.
Qed.

Lemma run_operand_sep_end (rest : list Z) :
  space_end rest -> run (with_ operand_sep operand) rest = Failed false.
Proof.
  intros Hr. rewrite run_with. unfold operand_sep. rewrite run_skip, run_char.
  assert (Hs : stops (Z.eqb 0x2c) rest) by (apply space_end_stops; [by intros c; apply eqb_not_space|done]).
  destruct rest as [|c rest]; [done|]. cbn [one_token stops] in *. by rewrite Hs.
Qed.

Lemma operand_round_progress : progress (with_ operand_sep operand).
Proof. unfold operand_sep. auto with progress. Qed.

(** Operands joined by commas, each with any number of blanks after it. *)
Inductive operands_text : list Operand -> list Z -> Prop :=
  | text_operand o t : operand_text o t -> operands_text [o] t
  | text_operands o t b ops ts : operand_text o t -> operands_text ops ts ->
      operands_text (o :: ops) (t ++ 0x2c :: replicate b 0x20 ++ ts).

Lemma operands_text_no_blank (ops : list Operand) (t rest : list Z) :
  operands_text ops t -> stops (Z.eqb 0x20) (t ++ rest).
Proof.
  intros [o t' Ht|o t' b ops' ts Ht _]; [by eapply operand_text_no_blank|].
  rewrite <-app_assoc. by eapply operand_text_no_blank.
Qed.

(** An operand and then the rest of the list. *)
Lemma run_operands_from (ops : list Operand) (t rest : list Z) :
  operands_text ops t -> space_end rest ->
  exists o ops' s c, ops = o :: ops' /\ run operand (t ++ rest) = Parsed true o s /\
    run (many (with_ operand_sep operand)) s = Parsed c ops' rest.
Proof.
  intros Ht Hr.
  assert (Hid : stops is_ident_char rest) by (apply space_end_stops; [apply ident_not_space|done]).
  induction Ht as [o t Ho|o t b ops ts Ho Hts IH].
  - eexists o, [], rest, _. split_and!; [done|by apply run_operand_text|].
    rewrite run_many by apply operand_round_progress. by rewrite run_operand_sep_end.
  - destruct IH as (o' & ops' & s & c & -> & Hrun & Hmany).
    eexists o, (o' :: ops'), _, _. split_and!; [done| |].
    + rewrite <-app_assoc. by apply run_operand_text.
    + rewrite run_many by apply operand_round_progress. cbn [app]. rewrite run_with, <-app_assoc.
      rewrite run_operand_sep by (by eapply operands_text_no_blank).
      cbn [reply_bind]. rewrite Hrun. cbn [reply_bind after]. by rewrite Hmany.
Qed.

(** Nothing at the end of a line is an operand. *)
Lemma run_operand_end (rest : list Z) : line_end rest -> run operand rest = Failed false.
Proof.
  intros Hr%line_space_end. unfold operand, map_ok. rewrite !run_or, !run_map.
  rewrite run_register_fails by (apply space_end_stops; [by intros c; apply eqb_not_space|done]).
  rewrite run_integer_fails.
  - cbn [reply_bind]. rewrite run_between, run_char. unfold ident.
    rewrite (run_many1_fails _ is_ident_char _ class_ident)
      by (apply space_end_stops; [apply ident_not_space|done]).
    destruct rest as [|c rest]; [done|]. cbn [one_token].
    destruct (Z.eqb_spec 0x5b c) as [<-|]; [discriminate Hr|done].
  - apply space_end_stops; [|done]. intros c Hc. rewrite !orb_true_iff, !Z.eqb_eq in Hc.
    destruct Hc as [[-> | ->]|Hc]; [done..|]. by apply ident_not_space, digit_ident, is_digit_hex.
Qed.

Lemma alphanumeric_ident (c : Z) : is_alphanumeric c = true -> is_ident_char c = true.
Proof. unfold is_ident_char. by intros ->. Qed.

(** A word of letters and digits. *)
Definition word (w : list Z) : Prop := w <> [] /\ Forall (fun c => is_alphanumeric c = true) w.

(** The operands of a statement, after at least one blank. *)
Inductive arguments_text : list Operand -> list Z -> Prop :=
  | text_no_arguments : arguments_text [] []
  | text_arguments b ops t : operands_text ops t -> arguments_text ops (replicate (S b) 0x20 ++ t).

Inductive statement_text : Statement -> list Z -> Prop :=
  | text_slabel l : l <> [] -> Forall (fun c => is_ident_char c = true) l ->
      statement_text (SLabel l) (l ++ [0x3a])
  | text_directive name ops t : word name -> arguments_text ops t ->
      statement_text (SDirective name ops) (0x2e :: name ++ t)
  | text_instruction name ops t : word name -> arguments_text ops t ->
      statement_text (SInstruction name ops) (name ++ t).

Lemma run_ident (l rest : list Z) :
  l <> [] -> Forall (fun c => is_ident_char c = true) l -> stops is_ident_char rest ->
  run ident (l ++ rest) = Parsed true l rest.
Proof. apply (run_many1_class _ is_ident_char _ _ class_ident). Qed.

Lemma run_mnemonic (w rest : list Z) :
  word w -> stops is_alphanumeric rest -> run mnemonic (w ++ rest) = Parsed true w rest.
Proof. intros [? ?] ?. by apply (run_many1_class _ is_alphanumeric _ _ run_alpha_num). Qed.

Definition blank_text (ws : list Z) : Prop := Forall (fun c => is_whitespace c = true) ws.

(** White space that ends a statement with these operands: after operands any, without
    operands some other than blanks, since after blanks an operand is expected. *)
Definition ends_operands (ops : list Operand) (ws : list Z) : Prop :=
  match ops with [] => Exists (fun c => c <> 0x20) ws | _ => ws <> [] end.
Definition separates (st : Statement) (ws : list Z) : Prop :=
  match st with SLabel _ => True | SDirective _ ops | SInstruction _ ops => ends_operands ops ws end.

Lemma blank_space_end (ws rest : list Z) :
  blank_text ws -> (rest = [] \/ ws <> []) -> space_end (ws ++ rest).
Proof.
  intros Hw Hor. destruct Hw as [|c ws Hc Hw]; [|done]. by destruct Hor as [-> | ?].
Qed.

(** The blanks at the start of white space. *)
Lemma split_blanks (ws : list Z) :
  blank_text ws -> exists b ws', ws = replicate b 0x20 ++ ws' /\ blank_text ws' /\ line_end ws' /\
    (Exists (fun c => c <> 0x20) ws -> ws' <> []).
Proof.
  intros Hw. induction Hw as [|c ws Hc Hw (b & ws' & -> & Hb & Hl & He)].
  - exists 0%nat, []. split_and!; [done|constructor|done|]. by intros ?%Exists_nil.
  - destruct (decide (c = 0x20)) as [->|Hne].
    + exists (S b), ws'. split_and!; [done..|]. intros [?|?]%Exists_cons; [done|auto].
    + exists 0%nat, (c :: replicate b 0x20 ++ ws'). split_and!; [done|by constructor|done|done].
Qed.

(** Blanks, then operands: what is left is white space. *)
Lemma run_arguments (ops : list Operand) (t ws rest : list Z) :
  arguments_text ops t -> blank_text ws -> (rest = [] \/ ends_operands ops ws) ->
  space_end (t ++ ws ++ rest) /\
  exists c1 c2 s ws', blank_text ws' /\ run blanks (t ++ ws ++ rest) = Parsed c1 tt s /\
    run (sep_by operand operand_sep) s = Parsed c2 ops (ws' ++ rest).
Proof.
  intros Ht Hw Hor. destruct Ht as [|b ops t Ht].
  - destruct (split_blanks ws Hw) as (b & ws' & Ews & Hw' & Hl & He). split.
    { cbn [app]. apply blank_space_end; [done|]. destruct Hor as [|Hx]; [by left|right]. by destruct Hx. }
    assert (Hl' : line_end (ws' ++ rest)).
    { destruct ws' as [|c ws']; [|done]. destruct Hor as [-> |Hx]; [done|]. by apply He in Hx. }
    eexists _, _, _, ws'. split_and!; [done|cbn [app]; rewrite Ews, <-app_assoc; apply run_blanks|].
    + destruct (ws' ++ rest) as [|c l]; [done|]. apply Z.eqb_neq. destruct Hl'. congruence.
    + by rewrite run_sep_by, run_operand_end.
  - split; [done|]. assert (Hs : space_end (ws ++ rest)).
    { apply blank_space_end; [done|]. destruct Hor as [|Hx]; [by left|right]. by destruct Ht. }
    destruct (run_operands_from ops t (ws ++ rest) Ht Hs) as (o & ops' & s & c & -> & Ho & Hm).
    eexists _, _, _, ws. split_and!; [done| |].
    + rewrite <-app_assoc. apply (run_blanks (S b)). by eapply operands_text_no_blank.
    + rewrite run_sep_by, Ho. cbn [reply_bind]. by rewrite Hm.
Qed.

Lemma run_instruction (name : list Z) (ops : list Operand) (t ws rest : list Z) :
  word name -> arguments_text ops t -> blank_text ws -> (rest = [] \/ ends_operands ops ws) ->
  exists ws', blank_text ws' /\
    run instruction (name ++ t ++ ws ++ rest) = Parsed true (SInstruction name ops) (ws' ++ rest).
Proof.
  intros Hn Ht Hw Hor.
  destruct (run_arguments ops t ws rest Ht Hw Hor) as (Hs & c1 & c2 & s & ws' & Hw' & Hb & Ho).
  exists ws'. split; [done|].
  unfold instruction, map_ok. fold operand_sep. rewrite run_map, run_seq, run_skip.
  rewrite run_mnemonic by (done || (apply space_end_stops; [intros c ?; by apply ident_not_space, alphanumeric_ident|done])).
  cbn [reply_bind]. rewrite Hb. cbn [reply_bind after]. rewrite orb_false_r. by rewrite Ho.
Qed.

Lemma run_directive (name : list Z) (ops : list Operand) (t ws rest : list Z) :
  word name -> arguments_text ops t -> blank_text ws -> (rest = [] \/ ends_operands ops ws) ->
  exists ws', blank_text ws' /\
    run directive (0x2e :: name ++ t ++ ws ++ rest) = Parsed true (SDirective name ops) (ws' ++ rest).
Proof.
  intros Hn Ht Hw Hor.
  destruct (run_arguments ops t ws rest Ht Hw Hor) as (Hs & c1 & c2 & s & ws' & Hw' & Hb & Ho).
  exists ws'. split; [done|].
  unfold directive, map_ok. fold operand_sep mnemonic. rewrite run_map, run_seq, run_skip, run_with, run_char.
  cbn [one_token Z.eqb]. rewrite Pos.eqb_refl. cbn [reply_bind].
  rewrite run_mnemonic by (done || (apply space_end_stops; [intros c ?; by apply ident_not_space, alphanumeric_ident|done])).
  cbn [reply_bind after]. rewrite Hb. cbn [reply_bind after]. rewrite orb_false_r. by rewrite Ho.
Qed.

(** A word that does not end in a colon is not a label. *)
Lemma run_label_fails (w rest : list Z) :
  word w -> stops is_ident_char rest -> stops (Z.eqb 0x3a) rest ->
  run (attempt label) (w ++ rest) = Failed false.
Proof.
  intros [Hne Hw] Hr Hc. unfold label, map_ok. rewrite run_attempt, run_map, run_seq.
  rewrite run_ident; [|done|eapply Forall_impl; [done|apply alphanumeric_ident]|done].
  cbn [reply_bind]. rewrite run_char. destruct rest as [|c rest]; [done|].
  cbn [one_token stops] in *. by rewrite Hc.
Qed.

Lemma run_label_dot (s : list Z) : run (attempt label) (0x2e :: s) = Failed false.
Proof.
  unfold label, map_ok. rewrite run_attempt, run_map, run_seq. unfold ident.
  by rewrite (run_many1_fails _ is_ident_char _ class_ident).
Qed.

Lemma run_directive_fails (s : list Z) : stops (Z.eqb 0x2e) s -> run directive s = Failed false.
Proof.
  intros Hs. unfold directive, map_ok. rewrite run_map, run_seq, run_skip, run_with, run_char.
  destruct s as [|c s]; [done|]. cbn [one_token stops] in *. by rewrite Hs.
Qed.

Lemma run_statement_text (st : Statement) (t ws rest : list Z) :
  statement_text st t -> blank_text ws -> (rest = [] \/ separates st ws) ->
  exists ws', blank_text ws' /\
    run (or (or (attempt label) directive) instruction) (t ++ ws ++ rest) = Parsed true st (ws' ++ rest).
Proof.
  intros Ht Hw Hor. rewrite !run_or. destruct Ht as [l Hne Hl|name ops t Hn Ht|name ops t Hn Ht].
  - exists ws. split; [done|]. rewrite <-app_assoc, run_attempt. unfold label, map_ok.
    rewrite run_map, run_seq, run_ident by done.
    cbn [reply_bind app]. rewrite run_char. cbn [one_token Z.eqb]. by rewrite Pos.eqb_refl.
  - destruct (run_directive name ops t ws rest Hn Ht Hw Hor) as (ws' & Hw' & Hrun).
    exists ws'. split; [done|]. cbn [app]. rewrite run_label_dot, <-app_assoc. by rewrite Hrun.
  - destruct (run_instruction name ops t ws rest Hn Ht Hw Hor) as (ws' & Hw' & Hrun).
    destruct (run_arguments ops t ws rest Ht Hw Hor) as (Hs & _).
    exists ws'. split; [done|]. rewrite <-app_assoc, run_label_fails; [|done|..].
    + rewrite run_directive_fails; [by rewrite Hrun|].
      destruct name as [|c name]; [by destruct Hn|]. cbn [app stops]. apply Z.eqb_neq. intros <-.
      destruct Hn as [_ Hn]. discriminate (Forall_inv Hn).
    + apply space_end_stops; [apply ident_not_space|done].
    + apply space_end_stops; [by intros c; apply eqb_not_space|done].
Qed.

(** ** Source text *)

(** Statements, each with the white space after it.  A label ends with its colon; another
    statement that is not the last one is set apart from the next. *)
Inductive source_text : list Statement -> list Z -> Prop :=
  | text_end : source_text [] []
  | text_next st t ws sts ts : statement_text st t -> blank_text ws -> (sts = [] \/ separates st ws) ->
      source_text sts ts -> source_text (st :: sts) (t ++ ws ++ ts).

(** A new line sets statements apart. *)
Lemma text_line (st : Statement) (t ws : list Z) (sts : list Statement) (ts : list Z) :
  statement_text st t -> blank_text ws -> source_text sts ts ->
  source_text (st :: sts) (t ++ (0x0a :: ws) ++ ts).
Proof.
  intros Ht Hw Hs. apply text_next; [done|by constructor| |done]. right.
  destruct st as [|name ops|name ops]; [done|..]; destruct ops; (done || by left).
Qed.
Lemma text_last (st : Statement) (t : list Z) : statement_text st t -> source_text [st] t.
Proof.
  intros Ht. rewrite <-(app_nil_r t). apply (text_next st t []); [done|constructor|by left|constructor].
Qed.

Lemma run_spaces_text (ws rest : list Z) :
  blank_text ws -> stops is_whitespace rest ->
  run spaces (ws ++ rest) = Parsed (match ws with [] => false | _ => true end) tt rest.
Proof.
  intros Hw Hr. induction Hw as [|c ws Hc Hw IH]; cbn [app]; rewrite run_spaces.
  - destruct rest as [|c rest]; [done|]. cbn in Hr. by rewrite Hr.
  - by rewrite Hc, IH.
Qed.

Lemma statement_text_head (st : Statement) (t : list Z) :
  statement_text st t -> exists c t', t = c :: t' /\ is_whitespace c = false.
Proof.
  intros [l Hne Hl|name ops t' Hn Ht|name ops t' [Hne Hn] Ht].
  - destruct l as [|c l]; [done|]. eexists _, _. split; [done|]. apply ident_not_space, (Forall_inv Hl).
  - by eexists _, _.
  - destruct name as [|c name]; [done|]. eexists _, _. split; [done|].
    apply ident_not_space, alphanumeric_ident, (Forall_inv Hn).
Qed.

Lemma source_text_head (sts : list Statement) (t : list Z) :
  source_text sts t -> stops is_whitespace t.
Proof.
  intros [|st t' ws sts' ts Ht Hw _ Hs]; [done|].
  by destruct (statement_text_head st t' Ht) as (c & t'' & -> & Hc).
Qed.

Lemma statement_progress : progress statement.
Proof. unfold statement, label, directive, instruction, map_ok, ident, mnemonic. auto 10 with progress. Qed.

Lemma run_statement (st : Statement) (t ws rest : list Z) :
  statement_text st t -> blank_text ws -> (rest = [] \/ separates st ws) ->
  stops is_whitespace rest -> run statement (t ++ ws ++ rest) = Parsed true st rest.
Proof.
  intros Ht Hw Hor Hr. destruct (run_statement_text st t ws rest Ht Hw Hor) as (ws' & Hw' & Hrun).
  unfold statement. rewrite run_skip, Hrun. cbn [reply_bind]. by rewrite run_spaces_text.
Qed.

Lemma run_statement_end : run statement [] = Failed false.
Proof.
  unfold statement. rewrite run_skip, !run_or, run_attempt.
  unfold label, map_ok, ident. rewrite run_map, run_seq, (run_many1_fails _ is_ident_char _ class_ident) by done.
  cbn [reply_bind]. rewrite run_directive_fails by done. unfold instruction, mnemonic, map_ok.
  by rewrite run_map, run_seq, run_skip, (run_many1_fails _ is_alphanumeric _ run_alpha_num).
Qed.

Lemma run_statements_end : run (many statement) [] = Parsed false [] [].
Proof. rewrite run_many by apply statement_progress. by rewrite run_statement_end. Qed.

Lemma run_statements (sts : list Statement) (t : list Z) :
  source_text sts t ->
  run (many statement) t = Parsed (match sts with [] => false | _ => true end) sts [].
Proof.
  intros Ht. induction Ht as [|st t ws sts ts Hst Hw Hor Hts IH]; [apply run_statements_end|].
  rewrite run_many by apply statement_progress. rewrite (run_statement st t ws ts); [|done|done| |].
  - cbn [reply_bind]. rewrite IH. by destruct sts.
  - destruct Hor as [-> |]; [left; by inversion Hts|by right].
  - by eapply source_text_head.
Qed.

Lemma run_source (sts : list Statement) (ws t : list Z) :
  blank_text ws -> source_text sts t -> exists c, run source (ws ++ t) = Parsed c sts [].
Proof.
  intros Hw Ht. unfold source. rewrite run_skip, run_with, run_spaces_text by (done || by eapply source_text_head).
  cbn [reply_bind]. rewrite (run_statements sts t Ht). cbn [reply_bind after]. rewrite run_eof. eauto.
Qed.

(** ** Limits of the grammar *)

(** A name that starts with [r] is read as a register: a label of that name cannot be an
    operand. *)
Lemma operand_r_name_fails (l : list Z) :
  stops is_digit l -> run operand (0x72 :: l) = Failed true.
Proof.
  intros Hl. unfold operand, map_ok. rewrite !run_or, !run_map. unfold register, map_ok.
  rewrite run_map, run_with, run_char. cbn [one_token Z.eqb]. rewrite Pos.eqb_refl. cbn [reply_bind].
  by rewrite (run_many1_fails digit is_digit); [|intros s; apply run_digit|].
Qed.

(** A decimal number beyond [i64::MAX] is read as 0. *)
Lemma integer_decimal_overflow :
  run integer (str "9223372036854775808") = Parsed true 0 [].
Proof.
  change (str "9223372036854775808") with (decimal (2 ^ 63) ++ []).
  apply run_integer_plain; [by apply numeral_starts, decimal_numeral| |unfold in_s; lia].
  rewrite run_magnitude_decimal; [vm_compute; reflexivity|by apply decimal_numeral|done].
Qed.

(** The negation of [i64::MIN], which a hexadecimal number can be, overflows. *)
Lemma integer_min_overflows :
  run integer (str "-0x8000000000000000") = Stopped ArithmeticOverflow.
Proof.
  change (str "-0x8000000000000000") with (0x2d :: (str "0x" ++ str "8000000000000000") ++ []).
  unfold integer. fold hex_number dec_number magnitude.
  rewrite run_map, run_seq. unfold map_ok. rewrite run_map, run_optional, run_skip, run_one_of.
  cbn [one_token]. change (existsb (Z.eqb 0x2d) (str "-+")) with true. cbn [reply_bind].
  rewrite run_no_blanks by done. cbn [reply_bind after].
  rewrite run_magnitude_hex; [vm_compute; reflexivity|split; [done|by repeat constructor]|done].
Qed.

(** C25: the parser accepts the sources of the following grammar, and parses each to exactly
    the statements it is written from.  A source is white space and statements, each followed
    by white space: any after a label, which its colon ends; some after operands; some other
    than blanks, such as a new line, after a statement without operands; none is needed at the
    end.  A statement is a label (letters, digits and underscores), or the name of an
    instruction or of a directive with its operands after one or more blanks, joined by commas
    with any number of blanks after each.  An operand is a register [rN]; a number, decimal
    or hexadecimal after [0x] in either case, with leading zeros, that fits 63 or 64 bits, and
    with a sign and blanks or without; a register in brackets, with
    blanks and a number as its offset or without; or an identifier that starts neither with a digit nor with [r],
    which the parser takes for a number or a register ([operand_r_name_fails]).  The negated
    number is not [i64::MIN], whose negation overflows ([integer_min_overflows]). *)
Theorem parse_source_text `{Dbg : !DebugText OtherErr} (sts : list Statement) (ws t : list Z) :
  blank_text ws -> source_text sts t -> parse (ws ++ t) = Ret sts.
Proof. intros Hw Ht. unfold parse. by destruct (run_source sts ws t Hw Ht) as [c ->]. Qed.
End Accepts.

(** Debug formatting for examples: nothing. *)
Definition no_debug : DebugText Empty_set :=
  {| debug_char _ := []; debug_str _ := []; debug_other _ := [] |}.

Definition example_statements : list Statement :=
  [ SLabel (str "restart");
    SInstruction (str "ldxdw") [Register 3; Memory 10 (-16)];
    SInstruction (str "ldxb") [Register 4; Memory 1 0];
    SInstruction (str "jne") [Register 3; Integer 0xAB; Label (str "_out")];
    SInstruction (str "exit") [] ].

Lemma parse_source_text_witness :
  parse (Cmb := combine_reference (Uni := ascii_tables)) (Dbg := no_debug)
    (str "  restart: ldxdw r3,[r10  - 0x10]
      ldxb   r04,  [r1]
      jne r3, 0x00aB, _out exit  ") = Ret example_statements.
Proof.
  pose (U := ascii_tables). pose (K := combine_reference (Uni := U)).
  assert (Hr3 : register_text 3 (str "r3")) by (by apply (text_r (str "3")); [split; [|repeat constructor]|]).
  apply (parse_source_text (Cmb := K) (Dbg := no_debug) example_statements (str "  ")).
  - by repeat constructor.
  - apply (text_next _ (str "restart:") (str " ")); [|by repeat constructor|by right|].
    { apply (text_slabel (str "restart")); [done|by repeat constructor]. }
    apply (text_line _ (str "ldxdw r3,[r10  - 0x10]") (str "      ")); [|by repeat constructor|].
    { apply (text_instruction (str "ldxdw") _ (str " r3,[r10  - 0x10]")); [by repeat constructor|].
      apply (text_arguments 0), (text_operands _ (str "r3") 0); [by apply text_register|].
      apply text_operand, (text_memory 10 (str "r10") (-16) (str "  - 0x10")).
      { by apply (text_r (str "10")); [split; [|repeat constructor]|]. }
      apply (text_signed_offset 2 (-16) (str "- 0x10")), (text_minus 16 1 (str "0x10")); [|done].
      by apply (text_hex (str "10")); [split; [|repeat constructor]|]. }
    apply (text_line _ (str "ldxb   r04,  [r1]") (str "      ")); [|by repeat constructor|].
    { apply (text_instruction (str "ldxb") _ (str "   r04,  [r1]")); [by repeat constructor|].
      apply (text_arguments 2), (text_operands _ (str "r04") 2).
      { by apply text_register, (text_r (str "04")); [split; [|repeat constructor]|]. }
      apply text_operand, (text_memory 1 (str "r1") 0 []); [|by apply (text_no_offset 0)].
      by apply (text_r (str "1")); [split; [|repeat constructor]|]. }
    apply (text_next _ (str "jne r3, 0x00aB, _out") (str " ")); [|by repeat constructor|by right|].
    { apply (text_instruction (str "jne") _ (str " r3, 0x00aB, _out")); [by repeat constructor|].
      apply (text_arguments 0), (text_operands _ (str "r3") 1); [by apply text_register|].
      apply (text_operands _ (str "0x00aB") 1).
      { by apply text_unsigned, (text_hex (str "00aB")); [split; [|repeat constructor]|]. }
      apply text_operand, text_label. split_and!; [done|done|by repeat constructor]. }
    apply (text_next _ (str "exit") (str "  ") [] []); [|by repeat constructor|by left|constructor].
    apply (text_instruction (str "exit") [] []); [by repeat constructor|constructor].
Defined.
