(* ===== verification/Assembler.v ===== *)
(** The assembler (src/assembler.rs): the table of mnemonics, the two passes over the parsed
    statements (labels, then instructions) and the executable it builds. *)
From Stdlib Require Import String.
From S2P Require Import Prelude Text Error Ebpf Program Verifier MemoryRegion Executable AsmParser.
Open Scope rust_scope.
Open Scope list_scope.

(** * Data *)

(* src/assembler.rs:33-48, InstructionType *)
Inductive InstructionType :=
  | AluBinary
  | AluUnary
  | LoadDwImm
  | LoadReg
  | StoreImm
  | StoreReg
  | JumpUnconditional
  | JumpConditional
  | Syscall
  | CallImm
  | CallReg
  | Endian (size : Z)
  | NoOperand.

#[export] Instance InstructionType_eq_dec : EqDecision InstructionType.
Proof. solve_decision. Defined.

(** The messages of the assembler: one constructor per format string, with its arguments. *)
Inductive AssembleError :=
  | ParseFailed (message : list Z)
  | InvalidDestination (dst : Z)
  | InvalidSource (src : Z)
  | InvalidOffset (off : Z)
  | InvalidImmediate (imm : Z)
  | LabelNotFound (label : list Z)
  | LabelHashCollision (name : list Z)
  | InvalidDirective (name : list Z)
  | UnexpectedOperands (operands : list Operand)
  | InvalidInstruction (name : list Z)
  | ExecutableConstructor (err : EbpfError).

(** * Mnemonics *)

Abbreviation Entry := (list Z * (InstructionType * Z))%type.
Definition entry (name : list Z) (inst_type : InstructionType) (opc : Z) : Entry :=
  (name, (inst_type, opc)).

(* src/assembler.rs:53-67, make_instruction_map *)
Definition alu_binary_ops : list (list Z * Z) :=
  [ (str "add", BPF_ADD); (str "sub", BPF_SUB); (str "mul", BPF_MUL); (str "div", BPF_DIV);
    (str "or", BPF_OR); (str "and", BPF_AND); (str "lsh", BPF_LSH); (str "rsh", BPF_RSH);
    (str "mod", BPF_MOD); (str "xor", BPF_XOR); (str "mov", BPF_MOV); (str "arsh", BPF_ARSH);
    (str "hor", BPF_HOR) ].

(* src/assembler.rs:69-88, make_instruction_map *)
Definition mem_classes : list (list Z * InstructionType * Z * Z) :=
  [ (str "ldx", LoadReg, Z.lor BPF_MEM BPF_LDX, Z.lor BPF_ALU32_LOAD BPF_X);
    (str "st", StoreImm, Z.lor BPF_MEM BPF_ST, Z.lor BPF_ALU64_STORE BPF_K);
    (str "stx", StoreReg, Z.lor BPF_MEM BPF_STX, Z.lor BPF_ALU64_STORE BPF_X) ].

(* src/assembler.rs:89-94, make_instruction_map *)
Definition mem_sizes : list (list Z * Z * Z) :=
  [ (str "b", BPF_B, BPF_1B); (str "h", BPF_H, BPF_2B); (str "w", BPF_W, BPF_4B);
    (str "dw", BPF_DW, BPF_8B) ].

(* src/assembler.rs:96-108, make_instruction_map *)
Definition jump_conditions : list (list Z * Z) :=
  [ (str "jeq", BPF_JEQ); (str "jgt", BPF_JGT); (str "jge", BPF_JGE); (str "jlt", BPF_JLT);
    (str "jle", BPF_JLE); (str "jset", BPF_JSET); (str "jne", BPF_JNE); (str "jsgt", BPF_JSGT);
    (str "jsge", BPF_JSGE); (str "jslt", BPF_JSLT); (str "jsle", BPF_JSLE) ].

(* src/assembler.rs:115-126, make_instruction_map *)
Definition misc_entries : list Entry :=
  [ entry (str "lddw") LoadDwImm LD_DW_IMM;
    entry (str "ja") JumpUnconditional JA;
    entry (str "syscall") Syscall CALL_IMM;
    entry (str "call") CallImm CALL_IMM;
    entry (str "callx") CallReg CALL_REG;
    entry (str "exit") NoOperand EXIT;
    entry (str "neg") AluUnary NEG64;
    entry (str "neg32") AluUnary NEG32;
    entry (str "neg64") AluUnary NEG64 ].

(* src/assembler.rs:128-133, make_instruction_map *)
Definition alu_entries : list Entry :=
  alu_binary_ops ≫= fun '(name, opc) =>
    [ entry name AluBinary (Z.lor BPF_ALU64_STORE opc);
      entry (name ++ str "32") AluBinary (Z.lor BPF_ALU32_LOAD opc);
      entry (name ++ str "64") AluBinary (Z.lor BPF_ALU64_STORE opc) ].

(* src/assembler.rs:135-210, make_instruction_map *)
Definition pqr_entries : list Entry :=
  [ entry (str "lmul") AluBinary (Z.lor (Z.lor BPF_PQR BPF_B) BPF_LMUL);
    entry (str "lmul64") AluBinary (Z.lor (Z.lor BPF_PQR BPF_B) BPF_LMUL);
    entry (str "lmul32") AluBinary (Z.lor BPF_PQR BPF_LMUL);
    entry (str "uhmul") AluBinary (Z.lor (Z.lor BPF_PQR BPF_B) BPF_UHMUL);
    entry (str "uhmul64") AluBinary (Z.lor (Z.lor BPF_PQR BPF_B) BPF_UHMUL);
    entry (str "shmul") AluBinary (Z.lor (Z.lor BPF_PQR BPF_B) BPF_SHMUL);
    entry (str "shmul64") AluBinary (Z.lor (Z.lor BPF_PQR BPF_B) BPF_SHMUL);
    entry (str "udiv") AluBinary (Z.lor (Z.lor BPF_PQR BPF_B) BPF_UDIV);
    entry (str "udiv64") AluBinary (Z.lor (Z.lor BPF_PQR BPF_B) BPF_UDIV);
    entry (str "udiv32") AluBinary (Z.lor BPF_PQR BPF_UDIV);
    entry (str "urem") AluBinary (Z.lor (Z.lor BPF_PQR BPF_B) BPF_UREM);
    entry (str "urem64") AluBinary (Z.lor (Z.lor BPF_PQR BPF_B) BPF_UREM);
    entry (str "urem32") AluBinary (Z.lor BPF_PQR BPF_UREM);
    entry (str "sdiv") AluBinary (Z.lor (Z.lor BPF_PQR BPF_B) BPF_SDIV);
    entry (str "sdiv64") AluBinary (Z.lor (Z.lor BPF_PQR BPF_B) BPF_SDIV);
    entry (str "sdiv32") AluBinary (Z.lor BPF_PQR BPF_SDIV);
    entry (str "srem") AluBinary (Z.lor (Z.lor BPF_PQR BPF_B) BPF_SREM);
    entry (str "srem64") AluBinary (Z.lor (Z.lor BPF_PQR BPF_B) BPF_SREM);
    entry (str "srem32") AluBinary (Z.lor BPF_PQR BPF_SREM) ].

(* src/assembler.rs:212-225, make_instruction_map *)
Definition memory_entries (sbpf_version : SBPFVersion) : list Entry :=
  if move_memory_instruction_classes sbpf_version then
    mem_classes ≫= fun '(prefix, class, _, opcode) =>
      (fun '(suffix, _, size) => entry (prefix ++ suffix) class (Z.lor opcode size)) <$> mem_sizes
  else
    mem_classes ≫= fun '(prefix, class, opcode, _) =>
      (fun '(suffix, size, _) => entry (prefix ++ suffix) class (Z.lor opcode size)) <$> mem_sizes.

(* src/assembler.rs:227-240, make_instruction_map *)
Definition jump_entries : list Entry :=
  jump_conditions ≫= fun '(name, condition) =>
    [ entry name JumpConditional (Z.lor BPF_JMP64 condition);
      entry (name ++ str "32") JumpConditional (Z.lor BPF_JMP32 condition);
      entry (name ++ str "64") JumpConditional (Z.lor BPF_JMP64 condition) ].

(* src/assembler.rs:242-246, make_instruction_map *)
Definition endian_entries : list Entry :=
  [16; 32; 64] ≫= fun size =>
    [ entry (str "be" ++ decimal_signed size) (Endian size) BE;
      entry (str "le" ++ decimal_signed size) (Endian size) LE ].

(* src/assembler.rs:50-250, make_instruction_map *)
Definition make_instruction_map (sbpf_version : SBPFVersion) : gmap (list Z) (InstructionType * Z) :=
  foldl (fun result (e : Entry) => <[e.1 := e.2]> result) ∅
    (misc_entries ++ alu_entries ++ pqr_entries ++ memory_entries sbpf_version
     ++ jump_entries ++ endian_entries).

(** * Instructions *)

(* src/assembler.rs:252-273, insn *)
Definition insn (opc dst src off imm : Z) : Exec AssembleError Insn :=
  if negb ((0 <=? dst) && (dst <? 16)) then Err (InvalidDestination dst)
  else if negb ((0 <=? src) && (src <? 16)) then Err (InvalidSource src)
  else if (off <? - 2 ^ 15) || (off >? 2 ^ 15 - 1) then Err (InvalidOffset off)
  else if (imm <? i32_min) || (imm >? i32_max) then Err (InvalidImmediate imm)
  else Ret {| ptr := 0; opc := opc; dst := as_u8 dst; src := as_u8 src; off := as_i16 off; imm := imm |}.

Abbreviation Labels := (gmap (list Z) Z).

(* src/assembler.rs:275-284, resolve_label *)
Definition resolve_label (insn_ptr : Z) (labels : Labels) (label : list Z) : Exec AssembleError Z :=
  match labels !! label with
  | Some target_pc =>
      let! diff := i64_sub (as_i64 target_pc) (as_i64 insn_ptr) in i64_sub diff 1
  | None => Err (LabelNotFound label)
  end.

Section Assemble.
Context `{Hash : Murmur3}.

Definition b2z (b : bool) : Z := if b then 1 else 0.

(** The instruction of one statement, and the functions it registers. *)
(* src/assembler.rs:389-488, assemble *)
Definition encode (sbpf_version : SBPFVersion) (labels : Labels) (insn_ptr : Z)
    (function_registry : FunctionRegistry Z) (name : list Z) (inst_type : InstructionType) (opc : Z)
    (operands : list Operand) : Exec AssembleError (Insn * FunctionRegistry Z) :=
  let with_registry (m : Exec AssembleError Insn) := let! i := m in Ret (i, function_registry) in
  match inst_type, operands with
  | AluBinary, [Register dst; Register src] => with_registry (insn (Z.lor opc BPF_X) dst src 0 0)
  | AluBinary, [Register dst; Integer imm] =>
      if (dst =? 10) && (opc =? ADD64_IMM) then
        if manual_stack_frame_bump sbpf_version
        then with_registry (insn (Z.lor opc BPF_K) 10 0 0 imm)
        else with_registry (insn OR64_IMM 0 0 0 0)
      else with_registry (insn (Z.lor opc BPF_K) dst 0 0 imm)
  | AluUnary, [Register dst] => with_registry (insn opc dst 0 0 0)
  | LoadReg, [Register dst; Memory src off] => with_registry (insn opc dst src off 0)
  | StoreReg, [Memory dst off; Register src] => with_registry (insn opc dst src off 0)
  | StoreImm, [Memory dst off; Integer imm] => with_registry (insn opc dst 0 off imm)
  | NoOperand, [] => with_registry (insn opc 0 0 0 0)
  | JumpUnconditional, [Integer off] => with_registry (insn opc 0 0 off 0)
  | JumpConditional, [Register dst; Register src; Integer off] =>
      with_registry (insn (Z.lor opc BPF_X) dst src off 0)
  | JumpConditional, [Register dst; Integer imm; Integer off] =>
      with_registry (insn (Z.lor opc BPF_K) dst 0 off imm)
  | JumpUnconditional, [Label label] =>
      with_registry (let! off := resolve_label insn_ptr labels label in insn opc 0 0 off 0)
  | CallImm, [Integer imm] =>
      let! sum := i64_add imm (as_i64 insn_ptr) in
      let! target_pc := i64_add sum 1 in
      let label := str "function_" ++ decimal (as_u64 target_pc) in
      let! function_registry :=
        exec_map_err (fun _ => LabelHashCollision name)
          (register_function function_registry (as_u32 target_pc) (as_bytes label) (as_u64 target_pc)) in
      let instr_imm := if static_syscalls sbpf_version then imm else target_pc in
      let! i := insn opc 0 (b2z (static_syscalls sbpf_version)) 0 instr_imm in
      Ret (i, function_registry)
  | CallImm, [Label label] =>
      with_registry
        (let! target_pc :=
           match labels !! label with
           | Some pc => Ret (as_i64 pc)
           | None => Err (LabelNotFound label)
           end in
         let! target_pc :=
           if static_syscalls sbpf_version
           then let! diff := i64_sub target_pc (as_i64 insn_ptr) in i64_sub diff 1
           else Ret target_pc in
         insn opc 0 (b2z (static_syscalls sbpf_version)) 0 target_pc)
  | Syscall, [Label label] =>
      with_registry (insn opc 0 0 0 (as_i32 (hash_symbol_name (as_bytes label))))
  | Syscall, [Integer imm] => with_registry (insn opc 0 0 0 imm)
  | CallReg, [Register dst] =>
      with_registry
        (if callx_uses_src_reg sbpf_version then insn opc 0 dst 0 0
         else if callx_uses_dst_reg sbpf_version then insn opc dst 0 0 0
         else insn opc 0 0 0 dst)
  | JumpConditional, [Register dst; Register src; Label label] =>
      with_registry
        (let! off := resolve_label insn_ptr labels label in insn (Z.lor opc BPF_X) dst src off 0)
  | JumpConditional, [Register dst; Integer imm; Label label] =>
      with_registry
        (let! off := resolve_label insn_ptr labels label in insn (Z.lor opc BPF_K) dst 0 off imm)
  | Endian size, [Register dst] => with_registry (insn opc dst 0 0 size)
  | LoadDwImm, [Register dst; Integer imm] =>
      with_registry (insn opc dst 0 0 (Z.shiftr (as_i64 (Z.shiftl imm 32)) 32))
  | _, _ => Err (UnexpectedOperands operands)
  end.

(** * The two passes *)

(** The first pass: the next slot, the functions and the labels seen so far. *)
Record FirstPass := mkFirstPass {
  fp_insn_ptr : Z;
  fp_functions : FunctionRegistry Z;
  fp_labels : Labels;
}.

(* src/assembler.rs:335-359, assemble *)
Definition first_pass_step (st : FirstPass) (statement : Statement) : Exec AssembleError FirstPass :=
  let insn_ptr := st.(fp_insn_ptr) in
  match statement with
  | SLabel name =>
      let! function_registry :=
        if starts_with name (str "function_") || bool_decide (name = str "entrypoint") then
          exec_map_err (fun _ => LabelHashCollision name)
            (register_function st.(fp_functions) (as_u32 insn_ptr) (as_bytes name) insn_ptr)
        else Ret st.(fp_functions) in
      Ret (mkFirstPass insn_ptr function_registry (<[name := insn_ptr]> st.(fp_labels)))
  | SDirective name operands =>
      match operands with
      | [Integer repeat; Integer _] =>
          if bool_decide (name = str "fill") then
            let! insn_ptr := u64_add insn_ptr (as_u64 repeat) in
            Ret (mkFirstPass insn_ptr st.(fp_functions) st.(fp_labels))
          else Ret st
      | _ => Ret st
      end
  | SInstruction name _ =>
      let! insn_ptr := u64_add insn_ptr (if bool_decide (name = str "lddw") then 2 else 1) in
      Ret (mkFirstPass insn_ptr st.(fp_functions) st.(fp_labels))
  end.

(** A loop over the statements. *)
Fixpoint each {A S} (step : S -> A -> Exec AssembleError S) (s : S) (l : list A) : Exec AssembleError S :=
  match l with
  | [] => Ret s
  | a :: l => let! s := step s a in each step s l
  end.

(* src/assembler.rs:331-359, assemble *)
Definition first_pass (statements : list Statement) : Exec AssembleError FirstPass :=
  each first_pass_step (mkFirstPass 0 default_registry {[ str "entrypoint" := 0 ]}) statements.

(** The second pass: the next slot, the functions and the instructions emitted. *)
Record SecondPass := mkSecondPass {
  sp_insn_ptr : Z;
  sp_functions : FunctionRegistry Z;
  sp_instructions : list Insn;
}.

Definition push (st : SecondPass) (i : Insn) : Exec AssembleError SecondPass :=
  let! insn_ptr := u64_add st.(sp_insn_ptr) 1 in
  Ret (mkSecondPass insn_ptr st.(sp_functions) (st.(sp_instructions) ++ [i])).

(** The instruction a [.fill] repeats. *)
(* src/assembler.rs:371-378, assemble *)
Definition fill_insn (insn_ptr value : Z) : Insn :=
  {| ptr := insn_ptr;
     opc := as_u8 value;
     dst := Z.land (as_u8 (Z.shiftr value 8)) 0xF;
     src := Z.land (as_u8 (Z.shiftr value 12)) 0xF;
     off := as_i16 (as_u16 (Z.shiftr value 16));
     imm := as_u32 (Z.shiftr value 32) |}.

(* src/assembler.rs:370-381, assemble *)
Fixpoint fill (value : Z) (repeat : nat) (st : SecondPass) : Exec AssembleError SecondPass :=
  match repeat with
  | O => Ret st
  | S repeat => let! st := push st (fill_insn st.(sp_insn_ptr) value) in fill value repeat st
  end.

(** [insn.ptr = insn_ptr] *)
Definition set_ptr (i : Insn) (insn_ptr : Z) : Insn :=
  {| ptr := insn_ptr; opc := i.(opc); dst := i.(dst); src := i.(src); off := i.(off); imm := i.(imm) |}.

(* src/assembler.rs:363-506, assemble *)
Definition second_pass_step (sbpf_version : SBPFVersion) (instruction_map : gmap (list Z) (InstructionType * Z))
    (labels : Labels) (st : SecondPass) (statement : Statement) : Exec AssembleError SecondPass :=
  match statement with
  | SLabel _ => Ret st
  | SDirective name operands =>
      match operands with
      | [Integer repeat; Integer value] =>
          if bool_decide (name = str "fill") then fill value (Z.to_nat repeat) st
          else Err (InvalidDirective name)
      | _ => Err (InvalidDirective name)
      end
  | SInstruction name operands =>
      match instruction_map !! name with
      | None => Err (InvalidInstruction name)
      | Some (inst_type, opc) =>
          let! (insn, function_registry) :=
            encode sbpf_version labels st.(sp_insn_ptr) st.(sp_functions) name inst_type opc operands in
          let! st := push (mkSecondPass st.(sp_insn_ptr) function_registry st.(sp_instructions))
                       (set_ptr insn st.(sp_insn_ptr)) in
          match inst_type with
          | LoadDwImm =>
              let! operand := expect IndexOutOfBounds (operands !! 1%nat) in
              match operand with
              | Integer imm => push st (set_ptr (mkInsn 0 0 0 0 0 (Z.shiftr imm 32)) st.(sp_insn_ptr))
              | _ => Ret st
              end
          | _ => Ret st
          end
      end
  end.

(* src/assembler.rs:360-507, assemble *)
Definition second_pass (sbpf_version : SBPFVersion) (labels : Labels)
    (function_registry : FunctionRegistry Z) (statements : list Statement) : Exec AssembleError SecondPass :=
  each (second_pass_step sbpf_version (make_instruction_map sbpf_version) labels)
    (mkSecondPass 0 function_registry []) statements.

(** The passes over parsed statements, and the executable. *)
(* src/assembler.rs:330-514, assemble *)
Definition assemble_statements (sbpf_version : SBPFVersion) (loader : BuiltinProgram)
    (statements : list Statement) : Exec AssembleError Executable :=
  let! first := first_pass statements in
  let! second := second_pass sbpf_version first.(fp_labels) first.(fp_functions) statements in
  let program := second.(sp_instructions) ≫= to_vec in
  exec_map_err ExecutableConstructor
    (from_text_bytes program loader sbpf_version second.(sp_functions)).

(* src/assembler.rs:323-514, assemble *)
Definition assemble `{Cmb : Combine} `{Dbg : !DebugText OtherErr} (src : list Z) (loader : BuiltinProgram) :
    Exec AssembleError Executable :=
  let! config := get_config loader in
  let sbpf_version := config.(enabled_sbpf_versions).2 in
  let! statements := exec_map_err ParseFailed (parse src) in
  assemble_statements sbpf_version loader statements.
End Assemble.
