(* ===== verification/AssemblerPasses.v ===== *)
(** The two passes of the assembler agree: a label of the first pass is the slot at which
    the second pass emits what follows it; the emitted instructions are well-formed and are
    what the decoder reads; and the passes do not panic on programs of bounded size. *)
From Stdlib Require Import String.
From S2P Require Import Prelude Text Error Ebpf Program Verifier MemoryRegion Executable.
From S2P Require Import AsmParser Assembler.
Open Scope rust_scope.
Open Scope list_scope.

(** * The table of mnemonics *)

(** Only [lddw] takes two slots. *)
Lemma map_lddw (v : SBPFVersion) (name : list Z) (ty : InstructionType) (o : Z) :
  make_instruction_map v !! name = Some (ty, o) -> (ty = LoadDwImm <-> name = str "lddw").
Proof.
  intros Hl. assert (Hall : map_Forall (fun name (e : InstructionType * Z) => e.1 = LoadDwImm <-> name = str "lddw")
    (make_instruction_map v)).
  { apply (bool_decide_unpack _). destruct v; vm_compute; exact I. }
  apply (Hall name (ty, o) Hl).
Qed.

(** The opcodes of the table are bytes, also with the source bit set. *)
Lemma map_opcode (v : SBPFVersion) (name : list Z) (ty : InstructionType) (o : Z) :
  make_instruction_map v !! name = Some (ty, o) ->
  in_u 8 o /\ in_u 8 (Z.lor o BPF_X) /\ in_u 8 (Z.lor o BPF_K).
Proof.
  intros Hl. assert (Hall : map_Forall (fun _ (e : InstructionType * Z) =>
    in_u 8 e.2 /\ in_u 8 (Z.lor e.2 BPF_X) /\ in_u 8 (Z.lor e.2 BPF_K)) (make_instruction_map v)).
  { apply (bool_decide_unpack _). destruct v; vm_compute; exact I. }
  apply (Hall name (ty, o) Hl).
Qed.

(** * Instructions *)

Lemma insn_spec (o d s f m : Z) (i : Insn) :
  insn o d s f m = Ret i ->
  i = mkInsn 0 o d s f m /\ in_u 4 d /\ in_u 4 s /\ in_s 16 f /\ in_s 32 m.
Proof.
  unfold insn, i32_min, i32_max.
  destruct (Z.leb_spec 0 d), (Z.ltb_spec d 16), (Z.leb_spec 0 s), (Z.ltb_spec s 16); cbn [andb negb]; try done.
  rewrite !Z.gtb_ltb.
  destruct (Z.ltb_spec f (- 2 ^ 15)), (Z.ltb_spec (2 ^ 15 - 1) f); cbn [orb]; try done.
  destruct (Z.ltb_spec m (- 2 ^ 31)), (Z.ltb_spec (2 ^ 31 - 1) m); cbn [orb]; try done.
  intros [= <-]. unfold as_u8, as_i16, in_u, in_s.
  rewrite !uwrap_small, swrap_small by (unfold in_u, in_s; lia). split_and!; (done || lia).
Qed.

Lemma insn_no_panic (o d s f m : Z) : is_panic (insn o d s f m) = false.
Proof. unfold insn. repeat (destruct (_ || _) || destruct (negb _)); done. Qed.

(** The fields of an emitted instruction; [.fill] writes its immediate unsigned. *)
Definition emitted_ok (i : Insn) : Prop :=
  in_u 8 i.(opc) /\ in_u 4 i.(dst) /\ in_u 4 i.(src) /\ in_s 16 i.(off) /\ (in_s 32 i.(imm) \/ in_u 32 i.(imm)).

Lemma insn_emitted (o d s f m p : Z) (i : Insn) :
  in_u 8 o -> insn o d s f m = Ret i -> emitted_ok (set_ptr i p).
Proof. intros Ho (-> & ? & ? & ? & ?)%insn_spec. unfold emitted_ok. cbn. split_and!; auto. Qed.

Section Passes.
Context `{Hash : Murmur3}.

Lemma opcode_or64 : in_u 8 OR64_IMM.
Proof. by vm_compute. Qed.

Lemma encode_emitted (v : SBPFVersion) (labels : Labels) (p : Z) (fs fs' : FunctionRegistry Z) (name : list Z)
    (ty : InstructionType) (o : Z) (ops : list Operand) (i : Insn) (q : Z) :
  in_u 8 o /\ in_u 8 (Z.lor o BPF_X) /\ in_u 8 (Z.lor o BPF_K) ->
  encode v labels p fs name ty o ops = Ret (i, fs') ->
  emitted_ok (set_ptr i q) /\
  (ty = LoadDwImm -> exists d m, ops = [Register d; Integer m]).
Proof.
  intros (Ho & Hx & Hk) He. pose proof opcode_or64 as Hor.
  assert (Hi : exists o' d s f m, in_u 8 o' /\ insn o' d s f m = Ret i) ; [|
    destruct Hi as (o' & d & s & f & m & Ho' & Hi); split; [by apply (insn_emitted o' d s f m)|]].
  - unfold encode in He.
    repeat match goal with
    | H : Ret _ = Ret _ |- _ => injection H as H; subst
    | H : exec_bind _ _ = Ret _ |- _ => apply bind_Ret in H as (? & ? & ?)
    | H : Err _ = Ret _ |- _ => discriminate H
    | H : Panic _ = Ret _ |- _ => discriminate H
    | H : insn ?o' ?d ?s ?f ?m = Ret ?i |- exists o' d s f m, _ /\ insn _ _ _ _ _ = Ret ?i =>
        by exists o', d, s, f, m
    | H : match ?x with _ => _ end = Ret _ |- _ => destruct x eqn:?
    | H : (if ?x then _ else _) = Ret _ |- _ => destruct x eqn:?
    end.
  - intros ->. unfold encode in He. destruct ops as [|[] [|[] [|]]]; try discriminate He; eauto.
Qed.

(** * Sizes *)

(** The slots a statement takes. *)
Definition statement_size (st : Statement) : Z :=
  match st with
  | SLabel _ => 0
  | SDirective name ops =>
      match ops with
      | [Integer repeat; Integer _] => if bool_decide (name = str "fill") then Z.max 0 repeat else 0
      | _ => 0
      end
  | SInstruction name _ => if bool_decide (name = str "lddw") then 2 else 1
  end.

(** No [.fill] repeats a negative number of times: the first pass adds the number as a
    [usize], the second pass repeats nothing. *)
Definition fill_ok (st : Statement) : Prop :=
  match st with
  | SDirective _ [Integer repeat; Integer _] => 0 <= repeat <= i64_max
  | _ => True
  end.

(** The fields of operands are [i64]. *)
Definition operand_i64 (o : Operand) : Prop :=
  match o with
  | Register n => in_s 64 n
  | Integer n => in_s 64 n
  | Memory n off => in_s 64 n /\ in_s 64 off
  | Label _ => True
  end.
Definition statement_i64 (st : Statement) : Prop :=
  match st with
  | SLabel _ => True
  | SDirective _ ops => Forall operand_i64 ops
  | SInstruction _ ops => Forall operand_i64 ops
  end.

(** Slot [k] holds the instruction with pointer [k]. *)
Record emitted (st : SecondPass) : Prop := {
  em_ptr : st.(sp_insn_ptr) = zlen st.(sp_instructions);
  em_ok : forall k i, st.(sp_instructions) !! k = Some i -> i.(ptr) = Z.of_nat k /\ emitted_ok i;
}.

(** The state after a step: the instructions before it, and [n] more. *)
Definition extends (st st' : SecondPass) (n : Z) : Prop :=
  emitted st' /\ exists new, st'.(sp_instructions) = st.(sp_instructions) ++ new /\ zlen new = n.

Lemma push_spec (st st' : SecondPass) (i : Insn) :
  emitted st -> push st i = Ret st' -> i.(ptr) = st.(sp_insn_ptr) -> emitted_ok i -> extends st st' 1.
Proof.
  intros [Hp Ho] (p & Hadd & [= <-])%bind_Ret Hi Hok.
  assert (p = sp_insn_ptr st + 1) as -> by (unfold u64_add in Hadd; by destruct (_ <=? _); simplify_eq).
  split; [|by exists [i]]. split; cbn [sp_insn_ptr sp_instructions].
  - unfold zlen in *. rewrite length_app. cbn. lia.
  - intros k j Hk. apply lookup_app_Some in Hk as [Hk|[Hge Hk]]; [by apply Ho|].
    apply list_lookup_singleton_Some in Hk as [Hk <-]. split; [|done]. unfold zlen in *. lia.
Qed.

Lemma pass_extends_trans (st1 st2 st3 : SecondPass) (n m : Z) :
  extends st1 st2 n -> extends st2 st3 m -> extends st1 st3 (n + m).
Proof.
  intros [_ (new1 & H1 & <-)] [He (new2 & H2 & <-)]. split; [done|].
  exists (new1 ++ new2). rewrite H2, H1, app_assoc. split; [done|]. unfold zlen. rewrite length_app. lia.
Qed.

Lemma pass_extends_refl (st : SecondPass) : emitted st -> extends st st 0.
Proof. intros He. split; [done|]. exists []. by rewrite app_nil_r. Qed.

Lemma fill_spec (value : Z) (n : nat) (st st' : SecondPass) :
  emitted st -> fill value n st = Ret st' -> extends st st' (Z.of_nat n).
Proof.
  revert st. induction n as [|n IH]; intros st He; cbn [fill].
  { intros [= ->]. by apply pass_extends_refl. }
  intros (st1 & Hpush & Hrest)%bind_Ret.
  assert (H1 : extends st st1 1).
  { eapply push_spec; [done..|]. unfold emitted_ok, fill_insn. cbn.
    split_and!; [by apply uwrap_range|..|by right; apply uwrap_range]; [..|by apply swrap_range];
      (change 0xF with (Z.ones 4); rewrite Z.land_ones by lia; by apply Z.mod_pos_bound). }
  replace (Z.of_nat (S n)) with (1 + Z.of_nat n) by lia.
  eapply pass_extends_trans; [done|]. apply IH; [apply H1|done].
Qed.

Lemma second_step_spec (v : SBPFVersion) (labels : Labels) (st st' : SecondPass) (s : Statement) :
  emitted st -> statement_i64 s ->
  second_pass_step v (make_instruction_map v) labels st s = Ret st' ->
  extends st st' (statement_size s).
Proof.
  intros He Hs. destruct s as [name|name ops|name ops]; cbn [second_pass_step statement_size].
  - intros [= ->]. by apply pass_extends_refl.
  - destruct ops as [|[] [|[] [|]]]; try done. case_bool_decide; [|done].
    intros Hf. apply fill_spec in Hf; [|done]. by replace (Z.max 0 n) with (Z.of_nat (Z.to_nat n)) by lia.
  - destruct (make_instruction_map v !! name) as [[ty o]|] eqn:Hm; [|done].
    intros ([i fs] & Henc & (st1 & Hp1 & H2)%bind_Ret)%bind_Ret.
    destruct (encode_emitted v labels _ _ fs name ty o ops i (sp_insn_ptr st) (map_opcode v name ty o Hm) Henc)
      as [Hi Hl].
    assert (H1 : extends st st1 1).
    { destruct He as [Hp Ho]. apply (push_spec _ _ _) in Hp1; [|by split|done|done].
      destruct Hp1 as [? (new & Hnew & ?)]. split; [done|]. by exists new. }
    pose proof (map_lddw v name ty o Hm) as Hty. destruct H1 as [He1 Hnew1].
    destruct ty; try (rewrite bool_decide_eq_false_2 by (intros Hn%Hty; done); simplify_eq; by split).
    rewrite bool_decide_eq_true_2 by by apply Hty. destruct (Hl eq_refl) as (d & m & ->).
    cbn in H2. replace 2 with (1 + 1) by lia. apply (pass_extends_trans st st1); [by split|].
    eapply push_spec; [done|done|done|]. unfold emitted_ok. cbn.
    split_and!; try done. left. cbn in Hs. apply Forall_cons in Hs as [_ [Hs _]%Forall_cons]. cbn in Hs.
    unfold in_s in *. rewrite Z.shiftr_div_pow2 by lia. split.
    + apply Z.div_le_lower_bound; lia.
    + apply Z.div_lt_upper_bound; lia.
Qed.

Lemma second_pass_spec (v : SBPFVersion) (labels : Labels) (sts : list Statement) (st st' : SecondPass) :
  emitted st -> Forall statement_i64 sts ->
  each (second_pass_step v (make_instruction_map v) labels) st sts = Ret st' ->
  extends st st' (foldr Z.add 0 (statement_size <$> sts)).
Proof.
  intros He Hs. revert st He. induction Hs as [|s sts Hs _ IH]; intros st He; cbn [each].
  { intros [= ->]. by apply pass_extends_refl. }
  intros (st1 & H1 & H2)%bind_Ret. apply second_step_spec in H1; [|done..].
  cbn. eapply pass_extends_trans; [done|]. apply IH; [apply H1|done].
Qed.

(** * The first pass *)

Lemma first_step_spec (f f' : FirstPass) (s : Statement) :
  fill_ok s -> first_pass_step f s = Ret f' ->
  f'.(fp_insn_ptr) = f.(fp_insn_ptr) + statement_size s /\
  f'.(fp_labels) = match s with SLabel name => <[name := f.(fp_insn_ptr)]> f.(fp_labels) | _ => f.(fp_labels) end.
Proof.
  assert (Hadd : forall a b c, @u64_add AssembleError a b = Ret c -> c = a + b)
    by (intros a b c; unfold u64_add; destruct (_ <=? _); intros; by simplify_eq).
  intros Hf. destruct s as [name|name ops|name ops]; cbn [first_pass_step statement_size].
  - intros (fs & _ & [= <-])%bind_Ret. cbn. split; [lia|done].
  - cbn [fill_ok] in Hf. destruct ops as [|[] [|[] [|]]]; try (intros [= ->]; split; [lia|done]).
    case_bool_decide; [|intros [= ->]; split; [lia|done]].
    intros (p & Hp%Hadd & [= <-])%bind_Ret. cbn. split; [|done]. rewrite Hp. unfold as_u64.
    rewrite uwrap_small by (unfold in_u, i64_max in *; lia). lia.
  - intros (p & Hp%Hadd & [= <-])%bind_Ret. cbn. by rewrite Hp.
Qed.

Lemma first_pass_ptr (sts : list Statement) (f f' : FirstPass) :
  Forall fill_ok sts -> each first_pass_step f sts = Ret f' ->
  f'.(fp_insn_ptr) = f.(fp_insn_ptr) + foldr Z.add 0 (statement_size <$> sts).
Proof.
  intros Hs. revert f. induction Hs as [|s sts Hs _ IH]; intros f; cbn [each].
  { intros [= ->]. cbn. lia. }
  intros (f1 & H1 & H2)%bind_Ret. apply IH in H2. apply first_step_spec in H1 as [H1 _]; [|done].
  cbn. rewrite H2, H1. lia.
Qed.

Lemma first_pass_keeps_label (sts : list Statement) (f f' : FirstPass) (name : list Z) :
  Forall fill_ok sts -> SLabel name ∉ sts -> each first_pass_step f sts = Ret f' ->
  f'.(fp_labels) !! name = f.(fp_labels) !! name.
Proof.
  intros Hs. revert f. induction Hs as [|s sts Hs _ IH]; intros f Hn; cbn [each].
  { by intros [= ->]. }
  apply not_elem_of_cons in Hn as [Hn1 Hn2].
  intros (f1 & H1 & H2)%bind_Ret. rewrite (IH f1) by done. apply first_step_spec in H1 as [_ ->]; [|done].
  destruct s as [l| |]; [|done..]. rewrite lookup_insert_ne; [done|]. by intros ->.
Qed.

Lemma each_app {A S} (step : S -> A -> Exec AssembleError S) (s : S) (l1 l2 : list A) :
  each step s (l1 ++ l2) = (let! s := each step s l1 in each step s l2).
Proof.
  revert s. induction l1 as [|a l1 IH]; intros s; [done|]. cbn. destruct (step s a); cbn; [apply IH|done..].
Qed.

Lemma emitted_start (fs : FunctionRegistry Z) : emitted (mkSecondPass 0 fs []).
Proof. by split. Qed.

(** C13: the two passes agree on labels: whenever assembling succeeds, the position the first
    pass gives to a label (the last one of its name) is the number of instruction slots the
    second pass has emitted when it reaches that label, so a jump or call to the label goes
    to the instruction that follows it in the source. *)
Theorem label_is_slot (v : SBPFVersion) (pre post : list Statement) (name : list Z) (first : FirstPass)
    (second : SecondPass) :
  Forall statement_i64 (pre ++ SLabel name :: post) -> Forall fill_ok (pre ++ SLabel name :: post) ->
  SLabel name ∉ post ->
  first_pass (pre ++ SLabel name :: post) = Ret first ->
  second_pass v first.(fp_labels) first.(fp_functions) (pre ++ SLabel name :: post) = Ret second ->
  exists before,
    second_pass v first.(fp_labels) first.(fp_functions) pre = Ret before /\
    first.(fp_labels) !! name = Some (zlen before.(sp_instructions)) /\
    before.(sp_instructions) `prefix_of` second.(sp_instructions).
Proof.
  intros Hi Hf Hn Hfirst Hsecond. unfold first_pass, second_pass in *. rewrite each_app in Hfirst. rewrite each_app in Hsecond.
  apply Forall_app in Hi as [Hi1 Hi2], Hf as [Hf1 [_ Hf2]%Forall_cons].
  apply bind_Ret in Hfirst as (f1 & Hf1' & (f2 & Hl & Hf3)%bind_Ret).
  apply bind_Ret in Hsecond as (s1 & Hs1 & Hs2). exists s1. split; [done|].
  apply (second_pass_spec v _ _ _ _ (emitted_start _) Hi1) in Hs1 as [He1 (new1 & Hnew1 & Hz)].
  apply (second_pass_spec v _ _ _ _ He1 Hi2) in Hs2 as [_ (new2 & Hnew2 & _)]. split.
  - rewrite (first_pass_keeps_label post f2 first name Hf2 Hn Hf3).
    apply first_step_spec in Hl as [_ ->]; [|done]. rewrite lookup_insert_eq.
    rewrite (first_pass_ptr pre _ f1 Hf1 Hf1'). cbn in Hnew1 |- *. by rewrite Hnew1, Hz.
  - exists new2. done.
Qed.

(** * The text *)

Definition decoded (i : Insn) : Insn :=
  mkInsn i.(ptr) i.(opc) i.(dst) i.(src) i.(off) (swrap 32 i.(imm)).

Lemma decoded_wf (i : Insn) : emitted_ok i -> insn_wf (decoded i).
Proof. intros (? & ? & ? & ? & _). unfold insn_wf. cbn. split_and!; (done || by apply swrap_range). Qed.

Lemma le_bytes_mod (n : nat) (a b : Z) :
  uwrap (8 * Z.of_nat n) a = uwrap (8 * Z.of_nat n) b -> le_bytes n a = le_bytes n b.
Proof.
  intros Hab. rewrite <-!le_value_le_bytes in Hab.
  rewrite <-(le_bytes_le_value (le_bytes n a)), <-(le_bytes_le_value (le_bytes n b)) by apply le_bytes_ok.
  by rewrite !length_le_bytes, Hab.
Qed.

Lemma to_vec_decoded (i : Insn) : to_vec i = to_array (decoded i).
Proof.
  unfold to_vec. rewrite !to_array_bytes. cbn [decoded opc dst src off imm]. do 3 f_equal.
  apply le_bytes_mod. symmetry. by apply uwrap_swrap.
Qed.

Lemma zlen_text (l : list Insn) : zlen (l ≫= to_vec) = INSN_SIZE * zlen l.
Proof.
  unfold zlen, INSN_SIZE. induction l as [|i l IH]; [done|].
  rewrite bind_cons, length_app. change (length (to_vec i)) with 8%nat. cbn [length]. lia.
Qed.

Lemma from_text_bytes_text (text : list Z) (loader : BuiltinProgram) (v : SBPFVersion)
    (fs : FunctionRegistry Z) (e : Executable) :
  from_text_bytes text loader v fs = Ret e -> forall E, get_text_bytes (E := E) e = Ret (MM_BYTECODE_START, text).
Proof.
  unfold from_text_bytes. destruct (new_from_text_bytes text loader v fs) as [e'| |] eqn:Hn; [|done..].
  intros [= ->] E. unfold new_from_text_bytes in Hn. apply bind_Ret in Hn as ([pc fs'] & _ & [= <-]).
  unfold get_text_bytes. cbn. by rewrite slice_range_all.
Qed.

(** C14: what the assembler emits is what the rest of the system decodes: for every program
    it accepts, the text of the executable has eight bytes per emitted instruction, slot [k]
    holds the instruction whose pointer is [k], every field is in the range of its encoding,
    and decoding slot [k] gives that instruction back (the immediate, which a [.fill] may
    have written unsigned, as a signed number). *)
Theorem assembled_text_decodes `{Bo : LittleEndian} {E} (v : SBPFVersion) (loader : BuiltinProgram)
    (sts : list Statement) (e : Executable) :
  Forall statement_i64 sts -> assemble_statements v loader sts = Ret e ->
  exists first second text,
    first_pass sts = Ret first /\ second_pass v first.(fp_labels) first.(fp_functions) sts = Ret second /\
    get_text_bytes (E := E) e = Ret (MM_BYTECODE_START, text) /\
    zlen text = INSN_SIZE * zlen second.(sp_instructions) /\
    forall k i, second.(sp_instructions) !! k = Some i -> slice_len_ok text ->
      i.(ptr) = Z.of_nat k /\ insn_wf (decoded i) /\
      get_insn (E := E) text (Z.of_nat k) = Ret (decoded i).
Proof.
  intros Hi Ha. unfold assemble_statements in Ha.
  apply bind_Ret in Ha as (first & Hfirst & (second & Hsecond & Ha)%bind_Ret).
  destruct (from_text_bytes _ _ _ _) as [e'| |] eqn:Hft; [|done..]. injection Ha as ->.
  exists first, second, (second.(sp_instructions) ≫= to_vec).
  pose proof (second_pass_spec v _ sts _ second (emitted_start _) Hi Hsecond) as [[_ Hok] _].
  split_and!; [done|done|by apply (from_text_bytes_text _ _ _ _ _ Hft)|apply zlen_text|].
  intros k i Hk Hlen. destruct (Hok k i Hk) as [Hptr Hem]. split_and!; [done|by apply decoded_wf|].
  pose proof (take_drop_middle _ _ _ Hk) as Hmid. rewrite <-Hmid in Hlen |- *.
  rewrite bind_app, bind_cons, to_vec_decoded in Hlen |- *.
  rewrite get_insn_encoded; [by rewrite <-Hptr|by apply decoded_wf|lia| |done].
  rewrite zlen_text. unfold zlen. rewrite length_take. apply lookup_lt_Some in Hk. f_equal. lia.
Qed.

(** * No panics *)

(** The integers of a call are not at the ends of [i64]. *)
Definition operand_small (o : Operand) : Prop :=
  match o with Integer n => - 2 ^ 62 <= n <= 2 ^ 62 | _ => True end.
Definition statement_small (st : Statement) : Prop :=
  match st with SInstruction _ ops => Forall operand_small ops | _ => True end.

Definition labels_small (labels : Labels) : Prop := forall l p, labels !! l = Some p -> 0 <= p <= 2 ^ 61.

Lemma safe_i64_sub {E} (a b : Z) : in_s 64 (a - b) -> safe (i64_sub (E := E) a b) (fun c => c = a - b).
Proof.
  unfold i64_sub, in_s, i64_min, i64_max. intros. by rewrite !(proj2 (Z.leb_le _ _)) by lia.
Qed.
Lemma safe_i64_add {E} (a b : Z) : in_s 64 (a + b) -> safe (i64_add (E := E) a b) (fun c => c = a + b).
Proof.
  unfold i64_add, in_s, i64_min, i64_max. intros. by rewrite !(proj2 (Z.leb_le _ _)) by lia.
Qed.
Lemma safe_u64_add {E} (a b : Z) : a + b <= u64_max -> safe (u64_add (E := E) a b) (fun c => c = a + b).
Proof. unfold u64_add. intros. by rewrite (proj2 (Z.leb_le _ _)) by lia. Qed.
Lemma safe_insn (o d s f m : Z) : safe (insn o d s f m) (fun _ => True).
Proof. pose proof (insn_no_panic o d s f m). by destruct (insn o d s f m). Qed.
Lemma safe_register (fs : FunctionRegistry Z) (key : Z) (name : list Z) (pc : Z) :
  safe (register_function fs key name pc) (fun _ => True).
Proof. unfold register_function. destruct (fs !! key); [|done]. by case_bool_decide. Qed.

Lemma safe_resolve (p : Z) (labels : Labels) (l : list Z) :
  0 <= p <= 2 ^ 61 -> labels_small labels -> safe (resolve_label p labels l) (fun _ => True).
Proof.
  intros Hp Hl. unfold resolve_label. destruct (labels !! l) as [t|] eqn:Ht; [|done]. apply Hl in Ht.
  unfold as_i64. rewrite !swrap_small by (unfold in_s; lia).
  eapply safe_bind; [apply safe_i64_sub; unfold in_s; lia|]. intros a ->.
  eapply safe_mono; [apply safe_i64_sub; unfold in_s; lia|done].
Qed.

Lemma safe_then {E A B} (m : Exec E A) (k : A -> Exec E B) :
  safe m (fun _ => True) -> (forall a, safe (k a) (fun _ => True)) -> safe (exec_bind m k) (fun _ => True).
Proof. intros Hm Hk. eapply safe_bind; [done|]. intros a _. apply Hk. Qed.

Lemma encode_safe (v : SBPFVersion) (labels : Labels) (p : Z) (fs : FunctionRegistry Z) (name : list Z)
    (ty : InstructionType) (o : Z) (ops : list Operand) :
  0 <= p <= 2 ^ 61 -> labels_small labels -> Forall operand_small ops ->
  safe (encode v labels p fs name ty o ops) (fun _ => True).
Proof.
  intros Hp Hl Ho. unfold encode.
  assert (Hw : forall m : Exec AssembleError Insn, safe m (fun _ => True) ->
    safe (let! i := m in Ret (i, fs)) (fun _ => True)) by (intros m Hm; by apply safe_then).
  destruct ty, ops as [|[] [|[] [|[] [|]]]]; try done;
    repeat match goal with |- safe (if ?b then _ else _) _ => destruct b end;
    try (apply Hw; repeat match goal with |- safe (if ?b then _ else _) _ => destruct b end; apply safe_insn);
    try (apply Hw, safe_then; [by apply safe_resolve|intros; apply safe_insn]).
  - apply Forall_cons in Ho as [Ho _]. cbn in Ho. unfold as_i64. rewrite swrap_small by (unfold in_s; lia).
    eapply safe_bind; [apply safe_i64_add; unfold in_s; lia|]. intros a ->.
    eapply safe_bind; [apply safe_i64_add; unfold in_s; lia|]. intros b ->.
    apply safe_then; [apply safe_map_err, safe_register|]. intros fs'. apply safe_then; [apply safe_insn|done].
  - apply Hw. destruct (labels !! name0) as [t|] eqn:Ht; [|done]. apply Hl in Ht. cbn [exec_bind].
    apply safe_then; [|intros; apply safe_insn]. destruct (static_syscalls v); [|done].
    unfold as_i64. rewrite !swrap_small by (unfold in_s; lia).
    eapply safe_bind; [apply safe_i64_sub; unfold in_s; lia|]. intros a ->.
    eapply safe_mono; [apply safe_i64_sub; unfold in_s; lia|done].
Qed.

Lemma push_safe (st : SecondPass) (i : Insn) :
  st.(sp_insn_ptr) < 2 ^ 62 -> safe (push st i) (fun st' => st'.(sp_insn_ptr) = st.(sp_insn_ptr) + 1).
Proof.
  intros Hp. unfold push. eapply safe_bind; [apply safe_u64_add; unfold u64_max; lia|]. by intros a ->.
Qed.

Lemma fill_safe (value : Z) (n : nat) (st : SecondPass) :
  st.(sp_insn_ptr) + Z.of_nat n <= 2 ^ 62 ->
  safe (fill value n st) (fun st' => st'.(sp_insn_ptr) = st.(sp_insn_ptr) + Z.of_nat n).
Proof.
  revert st. induction n as [|n IH]; intros st Hp; cbn [fill]; [cbn; lia|].
  eapply safe_bind; [apply push_safe; lia|]. intros st1 Hst1.
  cbv beta in Hst1. eapply safe_mono; [apply IH; lia|]. intros st2 Hst2. cbv beta in Hst2. lia.
Qed.

Lemma second_step_safe (v : SBPFVersion) (labels : Labels) (st : SecondPass) (s : Statement) :
  0 <= st.(sp_insn_ptr) -> st.(sp_insn_ptr) + statement_size s <= 2 ^ 61 -> labels_small labels ->
  statement_small s ->
  safe (second_pass_step v (make_instruction_map v) labels st s)
    (fun st' => st'.(sp_insn_ptr) = st.(sp_insn_ptr) + statement_size s).
Proof.
  intros H0 Hp Hl Hs. destruct s as [name|name ops|name ops]; cbn [second_pass_step statement_size] in *.
  - cbn. lia.
  - destruct ops as [|[] [|[] [|]]]; try done. case_bool_decide; [|done].
    eapply safe_mono; [apply fill_safe; lia|]. intros st' Hst'. cbv beta in Hst'. lia.
  - destruct (make_instruction_map v !! name) as [[ty o]|] eqn:Hm; [|done].
    pose proof (map_lddw v name ty o Hm) as Hty.
    eapply safe_bind.
    { instantiate (1 := fun r => ty = LoadDwImm -> exists d m, ops = [Register d; Integer m]).
      pose proof (encode_safe v labels st.(sp_insn_ptr) st.(sp_functions) name ty o ops) as He.
      destruct (encode v labels st.(sp_insn_ptr) st.(sp_functions) name ty o ops) as [[i fs]| |] eqn:Henc;
        cbn in He |- *; [|done|apply He; [|done..]; case_bool_decide; lia].
      by apply (encode_emitted v labels _ _ fs name ty o ops i 0 (map_opcode v name ty o Hm)) in Henc as [_ Hops]. }
    intros [i fs] Hops. eapply safe_bind; [apply push_safe; cbn; case_bool_decide; lia|].
    intros st1 Hst1. cbn in Hst1.
    destruct ty; try (rewrite bool_decide_eq_false_2 by (intros Hn%Hty; done); done).
    rewrite bool_decide_eq_true_2 in Hp |- * by by apply Hty. destruct (Hops eq_refl) as (d & m & ->). cbn.
    eapply safe_mono; [apply push_safe; lia|]. intros st2 Hst2. cbv beta in Hst2. lia.
Qed.

Lemma statement_size_nonneg (s : Statement) : 0 <= statement_size s.
Proof.
  destruct s as [name|name ops|name ops]; cbn; [lia| |case_bool_decide; lia].
  destruct ops as [|[] [|[] [|]]]; try lia. case_bool_decide; lia.
Qed.

Definition total_size (sts : list Statement) : Z := foldr Z.add 0 (statement_size <$> sts).

Lemma total_size_nonneg (sts : list Statement) : 0 <= total_size sts.
Proof.
  unfold total_size. induction sts as [|s sts IH]; cbn; [lia|]. pose proof (statement_size_nonneg s). lia.
Qed.

Lemma second_pass_safe (v : SBPFVersion) (labels : Labels) (sts : list Statement) (st : SecondPass) :
  0 <= st.(sp_insn_ptr) -> st.(sp_insn_ptr) + total_size sts <= 2 ^ 61 -> labels_small labels ->
  Forall statement_small sts ->
  safe (each (second_pass_step v (make_instruction_map v) labels) st sts) (fun _ => True).
Proof.
  intros H0 Hp Hl Hs. revert st H0 Hp. induction Hs as [|s sts Hs _ IH]; intros st H0 Hp; [done|].
  cbn [each]. unfold total_size in Hp. cbn in Hp. fold (total_size sts) in Hp.
  pose proof (statement_size_nonneg s). pose proof (total_size_nonneg sts).
  eapply safe_bind; [apply second_step_safe; done || lia|]. intros st1 Hst1. cbv beta in Hst1. apply IH; lia.
Qed.

Lemma first_pass_safe (sts : list Statement) (f : FirstPass) :
  0 <= f.(fp_insn_ptr) -> f.(fp_insn_ptr) + total_size sts <= 2 ^ 61 -> labels_small f.(fp_labels) ->
  Forall fill_ok sts -> safe (each first_pass_step f sts) (fun f' => labels_small f'.(fp_labels)).
Proof.
  intros H0 Hp Hl Hs. revert f H0 Hp Hl. induction Hs as [|s sts Hs _ IH]; intros f H0 Hp Hl; [done|].
  cbn [each]. unfold total_size in Hp. cbn in Hp. fold (total_size sts) in Hp.
  pose proof (statement_size_nonneg s). pose proof (total_size_nonneg sts).
  assert (Hstep : safe (first_pass_step f s) (fun f' => first_pass_step f s = Ret f')).
  { destruct s as [name|name ops|name ops]; cbn [first_pass_step statement_size fill_ok] in *.
    - destruct (_ || _); [|done]. pose proof (safe_register f.(fp_functions) (as_u32 f.(fp_insn_ptr))
        (as_bytes name) f.(fp_insn_ptr)). by destruct (register_function _ _ _ _).
    - destruct ops as [|[] [|[] [|]]]; try done. case_bool_decide; [|done]. unfold as_u64.
      rewrite uwrap_small by (unfold in_u, i64_max in *; lia).
      unfold u64_add, u64_max. by rewrite (proj2 (Z.leb_le _ _)) by lia.
    - unfold u64_add, u64_max. by rewrite (proj2 (Z.leb_le _ _)) by lia. }
  eapply safe_bind; [done|]. intros f1 Hf1. apply first_step_spec in Hf1 as [Hp1 Hl1]; [|done].
  apply IH; [lia..|]. rewrite Hl1. destruct s as [name| |]; [|done..].
  intros l p Hlp. apply lookup_insert_Some in Hlp as [[_ <-]|[_ Hlp]]; [lia|by apply (Hl l)].
Qed.

(** the assembler does not panic: on statements that take at most 2^61 slots, whose
    [.fill] counts are not negative and whose integer operands are not at the ends of
    [i64], both passes and the construction of the executable return a value or an error. *)
Theorem assemble_no_panic (v : SBPFVersion) (loader : BuiltinProgram) (config : Config) (sts : list Statement) :
  Program.config loader = Some config -> Forall fill_ok sts -> Forall statement_small sts ->
  total_size sts <= 2 ^ 61 -> is_panic (assemble_statements v loader sts) = false.
Proof.
  intros Hc Hf Hs Ht. apply (safe_no_panic _ (fun _ => True)). unfold assemble_statements.
  eapply safe_bind; [apply first_pass_safe; cbn; [done|done| |done]|].
  { intros l p Hlp. apply lookup_singleton_Some in Hlp as [_ <-]. lia. }
  intros first Hl. apply safe_then; [by apply second_pass_safe|]. intros second.
  apply safe_map_err. unfold from_text_bytes. apply safe_map_err. unfold new_from_text_bytes.
  apply safe_then; [|by intros [? ?]].
  destruct (lookup_by_name _ _) as [[? ?]|]; [done|]. apply safe_then; [|by intros [? ?]].
  unfold register_function_hashed_legacy, get_config. rewrite Hc. cbn [expect exec_bind].
  apply safe_then; [destruct (negb _); [|done]; by destruct (lookup_by_key _ _)|].
  intros key. apply safe_then; [apply safe_register|done].
Qed.
End Passes.

(** * Examples *)

Definition example_pre : list Statement :=
  [ SInstruction (str "lddw") [Register 1; Integer 0x100000005];
    SDirective (str "fill") [Integer 2; Integer 0x95] ].
Definition example_post : list Statement :=
  [ SInstruction (str "ja") [Label (str "lbl")]; SInstruction (str "exit") [] ].

Definition example_first : FirstPass :=
  match first_pass (example_pre ++ SLabel (str "lbl") :: example_post) with
  | Ret first => first
  | _ => mkFirstPass 0 ∅ ∅
  end.
Definition example_second (sts : list Statement) : SecondPass :=
  match second_pass (Hash := sum_hash) V4 example_first.(fp_labels) example_first.(fp_functions) sts with
  | Ret second => second
  | _ => mkSecondPass 0 ∅ []
  end.

Lemma label_is_slot_witness : exists before,
  second_pass (Hash := sum_hash) V4 example_first.(fp_labels) example_first.(fp_functions) example_pre
    = Ret before /\
  example_first.(fp_labels) !! str "lbl" = Some (zlen before.(sp_instructions)) /\
  before.(sp_instructions)
    `prefix_of` (example_second (example_pre ++ SLabel (str "lbl") :: example_post)).(sp_instructions) /\
  zlen (example_second example_pre).(sp_instructions) = 4.
Proof.
  destruct (label_is_slot (Hash := sum_hash) V4 example_pre example_post (str "lbl") example_first
    (example_second (example_pre ++ SLabel (str "lbl") :: example_post))) as (before & Hb & Hl & Hp).
  - by repeat constructor.
  - by repeat constructor.
  - apply (bool_decide_unpack _). vm_compute. done.
  - vm_compute. reflexivity.
  - vm_compute. reflexivity.
  - exists before. split_and!; [exact Hb|exact Hl|exact Hp|vm_compute; reflexivity].
Defined.

Definition example_executable : option Executable :=
  match assemble_statements (Hash := sum_hash) V4 new_mock example_pre with Ret e => Some e | _ => None end.

Lemma assembled_text_decodes_witness : exists e first second text,
  example_executable = Some e /\
  first_pass example_pre = Ret first /\
  second_pass (Hash := sum_hash) V4 first.(fp_labels) first.(fp_functions) example_pre = Ret second /\
  get_text_bytes (E := unit) e = Ret (MM_BYTECODE_START, text) /\
  zlen text = INSN_SIZE * zlen (sp_instructions second) /\
  forall k i, second.(sp_instructions) !! k = Some i -> slice_len_ok text ->
    i.(ptr) = Z.of_nat k /\ insn_wf (decoded i) /\
    get_insn (Bo := le_reference) (E := unit) text (Z.of_nat k) = Ret (decoded i).
Proof.
  unfold example_executable.
  destruct (assemble_statements (Hash := sum_hash) V4 new_mock example_pre) as [e|?|?] eqn:He;
    [|exfalso; vm_compute in He; congruence..].
  destruct (assembled_text_decodes (Hash := sum_hash) (Bo := le_reference) (E := unit) V4 new_mock example_pre e)
    as (first & second & text & Hf & Hs & Ht & Hz & Hk); [by repeat constructor|exact He|].
  exists e, first, second, text. split_and!; [reflexivity|exact Hf|exact Hs|exact Ht|exact Hz|exact Hk].
Defined.

Lemma assemble_no_panic_witness :
  is_panic (assemble_statements (Hash := sum_hash) V4 new_mock (example_pre ++ example_post)) = false /\
  assemble_statements (Hash := sum_hash) V4 new_mock (example_pre ++ example_post)
  = Err (LabelNotFound (str "lbl")).
Proof.
  split; [|vm_compute; reflexivity].
  apply (assemble_no_panic (Hash := sum_hash) V4 new_mock default_config (example_pre ++ example_post)).
  - done.
  - by repeat constructor.
  - by repeat constructor.
  - vm_compute. congruence.
Defined.

(** ** Limits *)

(** A call to an integer at the end of [i64] panics. *)
Lemma call_integer_panics :
  assemble_statements (Hash := sum_hash) V4 new_mock [SInstruction (str "call") [Integer i64_max]]
  = Panic ArithmeticOverflow.
Proof. vm_compute. reflexivity. Qed.

(** A negative [.fill] after an instruction panics in the first pass. *)
Lemma fill_negative_panics :
  assemble_statements (Hash := sum_hash) V4 new_mock
    [SInstruction (str "exit") []; SDirective (str "fill") [Integer (-1); Integer 0]]
  = Panic ArithmeticOverflow.
Proof. vm_compute. reflexivity. Qed.
