(* ===== verification/Cfg.v ===== *)
(** The data of the static analysis (src/static_analysis.rs): nodes of the control-flow
    graph, and nodes and edges of the data-flow graph. *)
From stdpp Require Import sorting.
From S2P Require Import Prelude Text.

(* src/static_analysis.rs:20-27, TopologicalIndex *)
Record TopologicalIndex := mkTopo { scc_id : Z; discovery : Z }.

(* src/static_analysis.rs:29-36, Default for TopologicalIndex *)
Definition default_topo : TopologicalIndex := mkTopo u64_max u64_max.

#[export] Instance TopologicalIndex_eq_dec : EqDecision TopologicalIndex.
Proof. solve_decision. Defined.

(* src/static_analysis.rs:38-42, Ord for TopologicalIndex *)
Definition topo_cmp (self other : TopologicalIndex) : comparison :=
  match self.(scc_id) ?= other.(scc_id) with
  | Eq => self.(discovery) ?= other.(discovery)
  | c => c
  end.

(** Ranges of [usize]. *)
Record InsnRange := mkInsnRange { ir_start : Z; ir_end : Z }.

(* src/static_analysis.rs:50-67, CfgNode *)
Record CfgNode := mkCfgNode {
  cn_label : list Z;
  cn_sources : list Z;
  cn_destinations : list Z;
  cn_instructions : InsnRange;
  cn_topo_index : TopologicalIndex;
  cn_dominator_parent : Z;
  cn_dominated_children : list Z;
}.

(* src/static_analysis.rs:113-125, Default for CfgNode *)
Definition default_cfg_node : CfgNode := {|
  cn_label := [];
  cn_sources := [];
  cn_destinations := [];
  cn_instructions := mkInsnRange 0 0;
  cn_topo_index := default_topo;
  cn_dominator_parent := u64_max;
  cn_dominated_children := [];
|}.

(** A [BTreeMap<usize, CfgNode>]. *)
Abbreviation CfgNodes := (gmap Z CfgNode).

(** * Data flow *)

(* src/static_analysis.rs:69-76, DfgNode *)
Inductive DfgNode :=
  | InstructionNode (pc : Z)
  | PhiNode (basic_block : Z).

(* src/static_analysis.rs:78-85, DataResource *)
Inductive DataResource :=
  | RegisterResource (reg : Z)
  | MemoryResource.

(* src/static_analysis.rs:87-98, DfgEdgeKind *)
Inductive DfgEdgeKind := Filled | Empty.

(* src/static_analysis.rs:100-111, DfgEdge *)
Record DfgEdge := mkDfgEdge {
  de_source : DfgNode;
  de_destination : DfgNode;
  de_kind : DfgEdgeKind;
  de_resource : DataResource;
}.

#[export] Instance DfgNode_eq_dec : EqDecision DfgNode.
Proof. solve_decision. Defined.
#[export] Instance DfgNode_countable : Countable DfgNode.
Proof.
  apply (inj_countable' (fun n => match n with InstructionNode pc => inl pc | PhiNode b => inr b end)
    (fun n => match n with inl pc => InstructionNode pc | inr b => PhiNode b end)). by intros [].
Defined.
#[export] Instance DataResource_eq_dec : EqDecision DataResource.
Proof. solve_decision. Defined.
#[export] Instance DataResource_countable : Countable DataResource.
Proof.
  apply (inj_countable' (fun r => match r with RegisterResource r => Some r | MemoryResource => None end)
    (fun r => match r with Some r => RegisterResource r | None => MemoryResource end)). by intros [].
Defined.
#[export] Instance DfgEdgeKind_eq_dec : EqDecision DfgEdgeKind.
Proof. solve_decision. Defined.
#[export] Instance DfgEdgeKind_countable : Countable DfgEdgeKind.
Proof.
  apply (inj_countable' (fun k => match k with Filled => true | Empty => false end)
    (fun b => if b : bool then Filled else Empty)). by intros [].
Defined.
#[export] Instance DfgEdge_eq_dec : EqDecision DfgEdge.
Proof. solve_decision. Defined.
#[export] Instance DfgEdge_countable : Countable DfgEdge.
Proof.
  apply (inj_countable' (fun e => (e.(de_source), e.(de_destination), e.(de_kind), e.(de_resource)))
    (fun '(s, d, k, r) => mkDfgEdge s d k r)). by intros [].
Defined.

(** * Maps with sorted iteration *)

Section Entries.
Context {A : Type}.
Implicit Types m : gmap Z A.

Definition key_le (e1 e2 : Z * A) : Prop := e1.1 <= e2.1.
#[export] Instance key_le_dec e1 e2 : Decision (key_le e1 e2).
Proof. unfold key_le. apply _. Defined.

(** The entries of a [BTreeMap], by ascending keys. *)
Definition entries m : list (Z * A) := merge_sort key_le (map_to_list m).
Definition sorted_keys m : list Z := fst <$> entries m.

Lemma entries_elem m (k : Z) (a : A) : (k, a) ∈ entries m <-> m !! k = Some a.
Proof. unfold entries. by rewrite merge_sort_Permutation, elem_of_map_to_list. Qed.

Lemma sorted_keys_elem m (k : Z) : k ∈ sorted_keys m <-> is_Some (m !! k).
Proof.
  unfold sorted_keys. rewrite list_elem_of_fmap. split.
  - intros ([k' a] & -> & H%entries_elem). by exists a.
  - intros [a H%entries_elem]. by exists (k, a).
Qed.

Lemma sorted_keys_NoDup m : NoDup (sorted_keys m).
Proof. unfold sorted_keys, entries. rewrite merge_sort_Permutation. apply NoDup_fst_map_to_list. Qed.

Lemma sorted_keys_sorted m : StronglySorted Z.lt (sorted_keys m).
Proof.
  assert (HS : StronglySorted Z.le (sorted_keys m)).
  { unfold sorted_keys. assert (HS : StronglySorted key_le (entries m)).
    { apply StronglySorted_merge_sort; intros ?; unfold key_le; intros; lia. }
    induction HS as [|e l HS IH HF]; cbn; constructor; [done|]. apply Forall_fmap. by eapply Forall_impl. }
  pose proof (sorted_keys_NoDup m) as HN. revert HN. induction HS as [|k l HS IH HF]; intros HN; constructor.
  - apply IH. by apply NoDup_cons in HN as [_ ?].
  - apply NoDup_cons in HN as [Hk _]. rewrite Forall_forall in HF |- *. intros x Hx. specialize (HF x Hx).
    assert (k <> x) by (by intros ->). lia.
Qed.

(** Two ascending lists with the same elements are equal. *)
Lemma sorted_unique (l k : list Z) :
  StronglySorted Z.lt l -> StronglySorted Z.lt k -> (forall x, x ∈ l <-> x ∈ k) -> l = k.
Proof.
  intros Hl. revert k. induction Hl as [|x l Hl IH Hx]; intros k Hk He.
  - destruct k as [|y k]; [done|]. exfalso. apply (not_elem_of_nil y), He. by left.
  - destruct Hk as [|y k Hk Hy].
    { exfalso. apply (not_elem_of_nil x), He. by left. }
    rewrite Forall_forall in Hx, Hy.
    assert (x = y) as ->.
    { assert (Hxy : x ∈ y :: k) by (apply He; by left). assert (Hyx : y ∈ x :: l) by (apply He; by left).
      apply elem_of_cons in Hxy as [?|Hxy]; [done|]. apply elem_of_cons in Hyx as [?|Hyx]; [done|].
      specialize (Hx _ Hyx). specialize (Hy _ Hxy). lia. }
    f_equal. apply IH; [done|]. intros z. specialize (He z). rewrite !elem_of_cons in He. split; intros Hz.
    + specialize (Hx _ Hz). destruct He as [He _]. destruct He as [->|?]; [by right|lia|done].
    + specialize (Hy _ Hz). destruct He as [_ He]. destruct He as [->|?]; [by right|lia|done].
Qed.
End Entries.
