(* ===== verification/Disassembler.v ===== *)
(** The disassembler (src/disassembler.rs): the text of one instruction. *)
From Stdlib Require Import String.
From S2P Require Import Prelude Text Error Ebpf Program Cfg.
Open Scope rust_scope.
Open Scope list_scope.

(** The label of the node at a program counter. *)
(* src/disassembler.rs:19-24, resolve_label *)
Definition resolve_node_label (cfg_nodes : CfgNodes) (pc : Z) : list Z :=
  match cfg_nodes !! pc with Some cfg_node => cfg_node.(cn_label) | None => str "[invalid]" end.

(* src/disassembler.rs:26-29, alu_imm_str *)
Definition alu_imm_str (name : list Z) (insn : Insn) : list Z :=
  name ++ str " r" ++ decimal insn.(dst) ++ str ", " ++ decimal_signed insn.(imm).

(* src/disassembler.rs:31-34, alu_reg_str *)
Definition alu_reg_str (name : list Z) (insn : Insn) : list Z :=
  name ++ str " r" ++ decimal insn.(dst) ++ str ", r" ++ decimal insn.(src).

(** The warning for another size goes to the standard output only. *)
(* src/disassembler.rs:36-43, byteswap_str *)
Definition byteswap_str (name : list Z) (insn : Insn) : list Z :=
  name ++ decimal_signed insn.(imm) ++ str " r" ++ decimal insn.(dst).

(* src/disassembler.rs:45-52, signed_off_str *)
Definition signed_off_str (value : Z) : list Z :=
  if value <? 0 then str "-" ++ hex_alternate 64 (- value) else str "+" ++ hex_alternate 16 value.

(* src/disassembler.rs:54-63, ld_st_imm_str *)
Definition ld_st_imm_str (name : list Z) (insn : Insn) : list Z :=
  name ++ str " [r" ++ decimal insn.(dst) ++ signed_off_str insn.(off) ++ str "], "
  ++ decimal_signed insn.(imm).

(* src/disassembler.rs:65-74, ld_reg_str *)
Definition ld_reg_str (name : list Z) (insn : Insn) : list Z :=
  name ++ str " r" ++ decimal insn.(dst) ++ str ", [r" ++ decimal insn.(src)
  ++ signed_off_str insn.(off) ++ str "]".

(* src/disassembler.rs:76-85, st_reg_str *)
Definition st_reg_str (name : list Z) (insn : Insn) : list Z :=
  name ++ str " [r" ++ decimal insn.(dst) ++ signed_off_str insn.(off) ++ str "], r"
  ++ decimal insn.(src).

(** The program counter a jump goes to. *)
(* src/disassembler.rs:89-89, jmp_imm_str *)
Definition jump_target {E} (insn : Insn) : Exec E Z :=
  let! sum := i64_add (as_i64 insn.(ptr)) insn.(off) in
  let! target := i64_add sum 1 in
  Ret (as_u64 target).

(* src/disassembler.rs:87-97, jmp_imm_str *)
Definition jmp_imm_str {E} (name : list Z) (insn : Insn) (cfg_nodes : CfgNodes) : Exec E (list Z) :=
  let! target_pc := jump_target insn in
  Ret (name ++ str " r" ++ decimal insn.(dst) ++ str ", " ++ decimal_signed insn.(imm) ++ str ", "
       ++ resolve_node_label cfg_nodes target_pc).

(* src/disassembler.rs:99-109, jmp_reg_str *)
Definition jmp_reg_str {E} (name : list Z) (insn : Insn) (cfg_nodes : CfgNodes) : Exec E (list Z) :=
  let! target_pc := jump_target insn in
  Ret (name ++ str " r" ++ decimal insn.(dst) ++ str ", r" ++ decimal insn.(src) ++ str ", "
       ++ resolve_node_label cfg_nodes target_pc).

(* src/disassembler.rs:265-269, disassemble_instruction *)
Definition disassemble_ja {E} (insn : Insn) (cfg_nodes : CfgNodes) : Exec E (list Z) :=
  let! target_pc := jump_target insn in
  Ret (str "ja" ++ str " " ++ resolve_node_label cfg_nodes target_pc).

(* src/disassembler.rs:292-301, disassemble_instruction *)
Definition disassemble_call {E} (insn : Insn) (pc : Z) (function_registry : FunctionRegistry Z)
    (loader : BuiltinProgram) (sbpf_version : SBPFVersion) : Exec E (list Z) :=
  let key := calculate_call_imm_target_pc sbpf_version pc insn.(imm) in
  let function_name := (fun f => from_utf8_lossy f.1) <$> lookup_by_key function_registry key in
  let '(name, function_name) :=
    if ((if function_name is None then true else false) && negb (static_syscalls sbpf_version))
       || (insn.(src) =? 0)
    then (str "syscall",
          (fun f => from_utf8_lossy f.1)
            <$> lookup_by_key (get_function_registry loader) (as_u32 insn.(imm)))
    else (str "call", function_name) in
  Ret (name ++ str " " ++ default (decimal_signed insn.(imm)) function_name).

(* src/disassembler.rs:302-302, disassemble_instruction *)
Definition disassemble_callx {E} (insn : Insn) (sbpf_version : SBPFVersion) : Exec E (list Z) :=
  Ret (str "callx" ++ str " r"
       ++ decimal (if callx_uses_src_reg sbpf_version then insn.(src)
                   else if callx_uses_dst_reg sbpf_version then insn.(dst)
                   else as_u8 insn.(imm))).

Section Disassemble.
Context {E : Type}.
Context (insn : Insn) (pc : Z) (cfg_nodes : CfgNodes) (function_registry : FunctionRegistry Z)
  (loader : BuiltinProgram) (sbpf_version : SBPFVersion).

Abbreviation Arm := (bool * (unit -> Exec E (list Z)))%type.

(* src/disassembler.rs:124-125, disassemble_instruction *)
Definition ld_arms : list Arm :=
  [ insn.(opc) =? LD_DW_IMM ==>> Ret (str "lddw" ++ str " r" ++ decimal insn.(dst) ++ str ", " ++ hex_alternate 64 insn.(imm)) ].

(* src/disassembler.rs:127-131, disassemble_instruction *)
Definition ldx_arms : list Arm :=
  [ (insn.(opc) =? LD_B_REG) && negb (move_memory_instruction_classes sbpf_version) ==>> Ret (ld_reg_str (str "ldxb") insn);
    (insn.(opc) =? LD_H_REG) && negb (move_memory_instruction_classes sbpf_version) ==>> Ret (ld_reg_str (str "ldxh") insn);
    (insn.(opc) =? LD_W_REG) && negb (move_memory_instruction_classes sbpf_version) ==>> Ret (ld_reg_str (str "ldxw") insn);
    (insn.(opc) =? LD_DW_REG) && negb (move_memory_instruction_classes sbpf_version) ==>> Ret (ld_reg_str (str "ldxdw") insn) ].

(* src/disassembler.rs:133-137, disassemble_instruction *)
Definition st_arms : list Arm :=
  [ (insn.(opc) =? ST_B_IMM) && negb (move_memory_instruction_classes sbpf_version) ==>> Ret (ld_st_imm_str (str "stb") insn);
    (insn.(opc) =? ST_H_IMM) && negb (move_memory_instruction_classes sbpf_version) ==>> Ret (ld_st_imm_str (str "sth") insn);
    (insn.(opc) =? ST_W_IMM) && negb (move_memory_instruction_classes sbpf_version) ==>> Ret (ld_st_imm_str (str "stw") insn);
    (insn.(opc) =? ST_DW_IMM) && negb (move_memory_instruction_classes sbpf_version) ==>> Ret (ld_st_imm_str (str "stdw") insn) ].

(* src/disassembler.rs:139-143, disassemble_instruction *)
Definition stx_arms : list Arm :=
  [ (insn.(opc) =? ST_B_REG) && negb (move_memory_instruction_classes sbpf_version) ==>> Ret (st_reg_str (str "stxb") insn);
    (insn.(opc) =? ST_H_REG) && negb (move_memory_instruction_classes sbpf_version) ==>> Ret (st_reg_str (str "stxh") insn);
    (insn.(opc) =? ST_W_REG) && negb (move_memory_instruction_classes sbpf_version) ==>> Ret (st_reg_str (str "stxw") insn);
    (insn.(opc) =? ST_DW_REG) && negb (move_memory_instruction_classes sbpf_version) ==>> Ret (st_reg_str (str "stxdw") insn) ].

(* src/disassembler.rs:145-176, disassemble_instruction *)
Definition alu32_load_arms : list Arm :=
  [ insn.(opc) =? ADD32_IMM ==>> Ret (alu_imm_str (str "add32") insn);
    insn.(opc) =? ADD32_REG ==>> Ret (alu_reg_str (str "add32") insn);
    insn.(opc) =? SUB32_IMM ==>> Ret (alu_imm_str (str "sub32") insn);
    insn.(opc) =? SUB32_REG ==>> Ret (alu_reg_str (str "sub32") insn);
    (insn.(opc) =? MUL32_IMM) && negb (enable_pqr sbpf_version) ==>> Ret (alu_imm_str (str "mul32") insn);
    (insn.(opc) =? MUL32_REG) && negb (enable_pqr sbpf_version) ==>> Ret (alu_reg_str (str "mul32") insn);
    (insn.(opc) =? LD_1B_REG) && move_memory_instruction_classes sbpf_version ==>> Ret (ld_reg_str (str "ldxb") insn);
    (insn.(opc) =? DIV32_IMM) && negb (enable_pqr sbpf_version) ==>> Ret (alu_imm_str (str "div32") insn);
    (insn.(opc) =? DIV32_REG) && negb (enable_pqr sbpf_version) ==>> Ret (alu_reg_str (str "div32") insn);
    (insn.(opc) =? LD_2B_REG) && move_memory_instruction_classes sbpf_version ==>> Ret (ld_reg_str (str "ldxh") insn);
    insn.(opc) =? OR32_IMM ==>> Ret (alu_imm_str (str "or32") insn);
    insn.(opc) =? OR32_REG ==>> Ret (alu_reg_str (str "or32") insn);
    insn.(opc) =? AND32_IMM ==>> Ret (alu_imm_str (str "and32") insn);
    insn.(opc) =? AND32_REG ==>> Ret (alu_reg_str (str "and32") insn);
    insn.(opc) =? LSH32_IMM ==>> Ret (alu_imm_str (str "lsh32") insn);
    insn.(opc) =? LSH32_REG ==>> Ret (alu_reg_str (str "lsh32") insn);
    insn.(opc) =? RSH32_IMM ==>> Ret (alu_imm_str (str "rsh32") insn);
    insn.(opc) =? RSH32_REG ==>> Ret (alu_reg_str (str "rsh32") insn);
    (insn.(opc) =? NEG32) && negb (disable_neg sbpf_version) ==>> Ret (str "neg32" ++ str " r" ++ decimal insn.(dst));
    (insn.(opc) =? LD_4B_REG) && move_memory_instruction_classes sbpf_version ==>> Ret (ld_reg_str (str "ldxw") insn);
    (insn.(opc) =? MOD32_IMM) && negb (enable_pqr sbpf_version) ==>> Ret (alu_imm_str (str "mod32") insn);
    (insn.(opc) =? MOD32_REG) && negb (enable_pqr sbpf_version) ==>> Ret (alu_reg_str (str "mod32") insn);
    (insn.(opc) =? LD_8B_REG) && move_memory_instruction_classes sbpf_version ==>> Ret (ld_reg_str (str "ldxdw") insn);
    insn.(opc) =? XOR32_IMM ==>> Ret (alu_imm_str (str "xor32") insn);
    insn.(opc) =? XOR32_REG ==>> Ret (alu_reg_str (str "xor32") insn);
    insn.(opc) =? MOV32_IMM ==>> Ret (alu_imm_str (str "mov32") insn);
    insn.(opc) =? MOV32_REG ==>> Ret (alu_reg_str (str "mov32") insn);
    insn.(opc) =? ARSH32_IMM ==>> Ret (alu_imm_str (str "arsh32") insn);
    insn.(opc) =? ARSH32_REG ==>> Ret (alu_reg_str (str "arsh32") insn);
    insn.(opc) =? LE ==>> Ret (byteswap_str (str "le") insn);
    insn.(opc) =? BE ==>> Ret (byteswap_str (str "be") insn) ].

(* src/disassembler.rs:178-212, disassemble_instruction *)
Definition alu64_store_arms : list Arm :=
  [ insn.(opc) =? ADD64_IMM ==>> Ret (alu_imm_str (str "add64") insn);
    insn.(opc) =? ADD64_REG ==>> Ret (alu_reg_str (str "add64") insn);
    insn.(opc) =? SUB64_IMM ==>> Ret (alu_imm_str (str "sub64") insn);
    insn.(opc) =? SUB64_REG ==>> Ret (alu_reg_str (str "sub64") insn);
    (insn.(opc) =? MUL64_IMM) && negb (enable_pqr sbpf_version) ==>> Ret (alu_imm_str (str "mul64") insn);
    (insn.(opc) =? ST_1B_IMM) && move_memory_instruction_classes sbpf_version ==>> Ret (ld_st_imm_str (str "stb") insn);
    (insn.(opc) =? MUL64_REG) && negb (enable_pqr sbpf_version) ==>> Ret (alu_reg_str (str "mul64") insn);
    (insn.(opc) =? ST_1B_REG) && move_memory_instruction_classes sbpf_version ==>> Ret (st_reg_str (str "stxb") insn);
    (insn.(opc) =? DIV64_IMM) && negb (enable_pqr sbpf_version) ==>> Ret (alu_imm_str (str "div64") insn);
    (insn.(opc) =? ST_2B_IMM) && move_memory_instruction_classes sbpf_version ==>> Ret (ld_st_imm_str (str "sth") insn);
    (insn.(opc) =? DIV64_REG) && negb (enable_pqr sbpf_version) ==>> Ret (alu_reg_str (str "div64") insn);
    (insn.(opc) =? ST_2B_REG) && move_memory_instruction_classes sbpf_version ==>> Ret (st_reg_str (str "stxh") insn);
    insn.(opc) =? OR64_IMM ==>> Ret (alu_imm_str (str "or64") insn);
    insn.(opc) =? OR64_REG ==>> Ret (alu_reg_str (str "or64") insn);
    insn.(opc) =? AND64_IMM ==>> Ret (alu_imm_str (str "and64") insn);
    insn.(opc) =? AND64_REG ==>> Ret (alu_reg_str (str "and64") insn);
    insn.(opc) =? LSH64_IMM ==>> Ret (alu_imm_str (str "lsh64") insn);
    insn.(opc) =? LSH64_REG ==>> Ret (alu_reg_str (str "lsh64") insn);
    insn.(opc) =? RSH64_IMM ==>> Ret (alu_imm_str (str "rsh64") insn);
    insn.(opc) =? RSH64_REG ==>> Ret (alu_reg_str (str "rsh64") insn);
    (insn.(opc) =? ST_4B_IMM) && move_memory_instruction_classes sbpf_version ==>> Ret (ld_st_imm_str (str "stw") insn);
    (insn.(opc) =? NEG64) && negb (disable_neg sbpf_version) ==>> Ret (str "neg64" ++ str " r" ++ decimal insn.(dst));
    (insn.(opc) =? ST_4B_REG) && move_memory_instruction_classes sbpf_version ==>> Ret (st_reg_str (str "stxw") insn);
    (insn.(opc) =? MOD64_IMM) && negb (enable_pqr sbpf_version) ==>> Ret (alu_imm_str (str "mod64") insn);
    (insn.(opc) =? ST_8B_IMM) && move_memory_instruction_classes sbpf_version ==>> Ret (ld_st_imm_str (str "stdw") insn);
    (insn.(opc) =? MOD64_REG) && negb (enable_pqr sbpf_version) ==>> Ret (alu_reg_str (str "mod64") insn);
    (insn.(opc) =? ST_8B_REG) && move_memory_instruction_classes sbpf_version ==>> Ret (st_reg_str (str "stxdw") insn);
    insn.(opc) =? XOR64_IMM ==>> Ret (alu_imm_str (str "xor64") insn);
    insn.(opc) =? XOR64_REG ==>> Ret (alu_reg_str (str "xor64") insn);
    insn.(opc) =? MOV64_IMM ==>> Ret (alu_imm_str (str "mov64") insn);
    insn.(opc) =? MOV64_REG ==>> Ret (alu_reg_str (str "mov64") insn);
    insn.(opc) =? ARSH64_IMM ==>> Ret (alu_imm_str (str "arsh64") insn);
    insn.(opc) =? ARSH64_REG ==>> Ret (alu_reg_str (str "arsh64") insn);
    insn.(opc) =? HOR64_IMM ==>> Ret (alu_imm_str (str "hor64") insn) ].

(* src/disassembler.rs:214-238, disassemble_instruction *)
Definition pqr_arms : list Arm :=
  [ (insn.(opc) =? LMUL32_IMM) && enable_pqr sbpf_version ==>> Ret (alu_imm_str (str "lmul32") insn);
    (insn.(opc) =? LMUL32_REG) && enable_pqr sbpf_version ==>> Ret (alu_reg_str (str "lmul32") insn);
    (insn.(opc) =? LMUL64_IMM) && enable_pqr sbpf_version ==>> Ret (alu_imm_str (str "lmul64") insn);
    (insn.(opc) =? LMUL64_REG) && enable_pqr sbpf_version ==>> Ret (alu_reg_str (str "lmul64") insn);
    (insn.(opc) =? UHMUL64_IMM) && enable_pqr sbpf_version ==>> Ret (alu_imm_str (str "uhmul64") insn);
    (insn.(opc) =? UHMUL64_REG) && enable_pqr sbpf_version ==>> Ret (alu_reg_str (str "uhmul64") insn);
    (insn.(opc) =? SHMUL64_IMM) && enable_pqr sbpf_version ==>> Ret (alu_imm_str (str "shmul64") insn);
    (insn.(opc) =? SHMUL64_REG) && enable_pqr sbpf_version ==>> Ret (alu_reg_str (str "shmul64") insn);
    (insn.(opc) =? UDIV32_IMM) && enable_pqr sbpf_version ==>> Ret (alu_imm_str (str "udiv32") insn);
    (insn.(opc) =? UDIV32_REG) && enable_pqr sbpf_version ==>> Ret (alu_reg_str (str "udiv32") insn);
    (insn.(opc) =? UDIV64_IMM) && enable_pqr sbpf_version ==>> Ret (alu_imm_str (str "udiv64") insn);
    (insn.(opc) =? UDIV64_REG) && enable_pqr sbpf_version ==>> Ret (alu_reg_str (str "udiv64") insn);
    (insn.(opc) =? UREM32_IMM) && enable_pqr sbpf_version ==>> Ret (alu_imm_str (str "urem32") insn);
    (insn.(opc) =? UREM32_REG) && enable_pqr sbpf_version ==>> Ret (alu_reg_str (str "urem32") insn);
    (insn.(opc) =? UREM64_IMM) && enable_pqr sbpf_version ==>> Ret (alu_imm_str (str "urem64") insn);
    (insn.(opc) =? UREM64_REG) && enable_pqr sbpf_version ==>> Ret (alu_reg_str (str "urem64") insn);
    (insn.(opc) =? SDIV32_IMM) && enable_pqr sbpf_version ==>> Ret (alu_imm_str (str "sdiv32") insn);
    (insn.(opc) =? SDIV32_REG) && enable_pqr sbpf_version ==>> Ret (alu_reg_str (str "sdiv32") insn);
    (insn.(opc) =? SDIV64_IMM) && enable_pqr sbpf_version ==>> Ret (alu_imm_str (str "sdiv64") insn);
    (insn.(opc) =? SDIV64_REG) && enable_pqr sbpf_version ==>> Ret (alu_reg_str (str "sdiv64") insn);
    (insn.(opc) =? SREM32_IMM) && enable_pqr sbpf_version ==>> Ret (alu_imm_str (str "srem32") insn);
    (insn.(opc) =? SREM32_REG) && enable_pqr sbpf_version ==>> Ret (alu_reg_str (str "srem32") insn);
    (insn.(opc) =? SREM64_IMM) && enable_pqr sbpf_version ==>> Ret (alu_imm_str (str "srem64") insn);
    (insn.(opc) =? SREM64_REG) && enable_pqr sbpf_version ==>> Ret (alu_reg_str (str "srem64") insn) ].

(* src/disassembler.rs:240-262, disassemble_instruction *)
Definition jmp32_arms : list Arm :=
  [ (insn.(opc) =? JEQ32_IMM) && enable_jmp32 sbpf_version ==>> jmp_imm_str (str "jeq32") insn cfg_nodes;
    (insn.(opc) =? JEQ32_REG) && enable_jmp32 sbpf_version ==>> jmp_reg_str (str "jeq32") insn cfg_nodes;
    (insn.(opc) =? JGT32_IMM) && enable_jmp32 sbpf_version ==>> jmp_imm_str (str "jgt32") insn cfg_nodes;
    (insn.(opc) =? JGT32_REG) && enable_jmp32 sbpf_version ==>> jmp_reg_str (str "jgt32") insn cfg_nodes;
    (insn.(opc) =? JGE32_IMM) && enable_jmp32 sbpf_version ==>> jmp_imm_str (str "jge32") insn cfg_nodes;
    (insn.(opc) =? JGE32_REG) && enable_jmp32 sbpf_version ==>> jmp_reg_str (str "jge32") insn cfg_nodes;
    (insn.(opc) =? JLT32_IMM) && enable_jmp32 sbpf_version ==>> jmp_imm_str (str "jlt32") insn cfg_nodes;
    (insn.(opc) =? JLT32_REG) && enable_jmp32 sbpf_version ==>> jmp_reg_str (str "jlt32") insn cfg_nodes;
    (insn.(opc) =? JLE32_IMM) && enable_jmp32 sbpf_version ==>> jmp_imm_str (str "jle32") insn cfg_nodes;
    (insn.(opc) =? JLE32_REG) && enable_jmp32 sbpf_version ==>> jmp_reg_str (str "jle32") insn cfg_nodes;
    (insn.(opc) =? JSET32_IMM) && enable_jmp32 sbpf_version ==>> jmp_imm_str (str "jset32") insn cfg_nodes;
    (insn.(opc) =? JSET32_REG) && enable_jmp32 sbpf_version ==>> jmp_reg_str (str "jset32") insn cfg_nodes;
    (insn.(opc) =? JNE32_IMM) && enable_jmp32 sbpf_version ==>> jmp_imm_str (str "jne32") insn cfg_nodes;
    (insn.(opc) =? JNE32_REG) && enable_jmp32 sbpf_version ==>> jmp_reg_str (str "jne32") insn cfg_nodes;
    (insn.(opc) =? JSGT32_IMM) && enable_jmp32 sbpf_version ==>> jmp_imm_str (str "jsgt32") insn cfg_nodes;
    (insn.(opc) =? JSGT32_REG) && enable_jmp32 sbpf_version ==>> jmp_reg_str (str "jsgt32") insn cfg_nodes;
    (insn.(opc) =? JSGE32_IMM) && enable_jmp32 sbpf_version ==>> jmp_imm_str (str "jsge32") insn cfg_nodes;
    (insn.(opc) =? JSGE32_REG) && enable_jmp32 sbpf_version ==>> jmp_reg_str (str "jsge32") insn cfg_nodes;
    (insn.(opc) =? JSLT32_IMM) && enable_jmp32 sbpf_version ==>> jmp_imm_str (str "jslt32") insn cfg_nodes;
    (insn.(opc) =? JSLT32_REG) && enable_jmp32 sbpf_version ==>> jmp_reg_str (str "jslt32") insn cfg_nodes;
    (insn.(opc) =? JSLE32_IMM) && enable_jmp32 sbpf_version ==>> jmp_imm_str (str "jsle32") insn cfg_nodes;
    (insn.(opc) =? JSLE32_REG) && enable_jmp32 sbpf_version ==>> jmp_reg_str (str "jsle32") insn cfg_nodes ].

(* src/disassembler.rs:264-303, disassemble_instruction *)
Definition jmp64_arms : list Arm :=
  [ insn.(opc) =? JA ==>> disassemble_ja insn cfg_nodes;
    insn.(opc) =? JEQ64_IMM ==>> jmp_imm_str (str "jeq") insn cfg_nodes;
    insn.(opc) =? JEQ64_REG ==>> jmp_reg_str (str "jeq") insn cfg_nodes;
    insn.(opc) =? JGT64_IMM ==>> jmp_imm_str (str "jgt") insn cfg_nodes;
    insn.(opc) =? JGT64_REG ==>> jmp_reg_str (str "jgt") insn cfg_nodes;
    insn.(opc) =? JGE64_IMM ==>> jmp_imm_str (str "jge") insn cfg_nodes;
    insn.(opc) =? JGE64_REG ==>> jmp_reg_str (str "jge") insn cfg_nodes;
    insn.(opc) =? JLT64_IMM ==>> jmp_imm_str (str "jlt") insn cfg_nodes;
    insn.(opc) =? JLT64_REG ==>> jmp_reg_str (str "jlt") insn cfg_nodes;
    insn.(opc) =? JLE64_IMM ==>> jmp_imm_str (str "jle") insn cfg_nodes;
    insn.(opc) =? JLE64_REG ==>> jmp_reg_str (str "jle") insn cfg_nodes;
    insn.(opc) =? JSET64_IMM ==>> jmp_imm_str (str "jset") insn cfg_nodes;
    insn.(opc) =? JSET64_REG ==>> jmp_reg_str (str "jset") insn cfg_nodes;
    insn.(opc) =? JNE64_IMM ==>> jmp_imm_str (str "jne") insn cfg_nodes;
    insn.(opc) =? JNE64_REG ==>> jmp_reg_str (str "jne") insn cfg_nodes;
    insn.(opc) =? JSGT64_IMM ==>> jmp_imm_str (str "jsgt") insn cfg_nodes;
    insn.(opc) =? JSGT64_REG ==>> jmp_reg_str (str "jsgt") insn cfg_nodes;
    insn.(opc) =? JSGE64_IMM ==>> jmp_imm_str (str "jsge") insn cfg_nodes;
    insn.(opc) =? JSGE64_REG ==>> jmp_reg_str (str "jsge") insn cfg_nodes;
    insn.(opc) =? JSLT64_IMM ==>> jmp_imm_str (str "jslt") insn cfg_nodes;
    insn.(opc) =? JSLT64_REG ==>> jmp_reg_str (str "jslt") insn cfg_nodes;
    insn.(opc) =? JSLE64_IMM ==>> jmp_imm_str (str "jsle") insn cfg_nodes;
    insn.(opc) =? JSLE64_REG ==>> jmp_reg_str (str "jsle") insn cfg_nodes;
    insn.(opc) =? CALL_IMM ==>> disassemble_call insn pc function_registry loader sbpf_version;
    insn.(opc) =? CALL_REG ==>> disassemble_callx insn sbpf_version;
    insn.(opc) =? EXIT ==>> Ret (str "exit") ].

(* src/disassembler.rs:111-308, disassemble_instruction *)
Definition disassemble_instruction : Exec E (list Z) :=
  match first_arm (ld_arms ++ ldx_arms ++ st_arms ++ stx_arms ++ alu32_load_arms ++ alu64_store_arms
                   ++ pqr_arms ++ jmp32_arms ++ jmp64_arms) with
  | Some arm => arm tt
  | None => Ret (str "unknown" ++ str " opcode=" ++ hex_alternate 8 insn.(opc))
  end.
End Disassemble.
