(* ===== verification/AsmRoundTrip.v ===== *)
(** Disassembling and assembling: the text of a canonical instruction parses, and the
    assembler turns it back into the instruction; a whole listing assembles to the bytes
    of its program. *)
From Stdlib Require Import String.
From S2P Require Import Prelude Text Error Ebpf Program Verifier MemoryRegion Executable.
From S2P Require Import AsmParser AsmSource Assembler AssemblerPasses Cfg Disassembler.
Open Scope rust_scope.
Open Scope list_scope.

(** * The instructions the disassembler knows

    Each arm of the disassembler as a row: opcode, guard, mnemonic and the format of the
    operands. *)

Inductive Format :=
  | FLddw | FAluImm | FAluReg | FUnary | FByteswap | FLdStImm | FLdReg | FStReg
  | FJa | FJmpImm | FJmpReg | FCall | FCallx | FExit.

#[export] Instance Format_eq_dec : EqDecision Format.
Proof. solve_decision. Defined.

Record Row := mkRow { row_opc : Z; row_guard : bool; row_name : list Z; row_format : Format }.

Definition rows (v : SBPFVersion) : list Row :=
  [ mkRow LD_DW_IMM true (str "lddw") FLddw;
    mkRow LD_B_REG (negb (move_memory_instruction_classes v)) (str "ldxb") FLdReg;
    mkRow LD_H_REG (negb (move_memory_instruction_classes v)) (str "ldxh") FLdReg;
    mkRow LD_W_REG (negb (move_memory_instruction_classes v)) (str "ldxw") FLdReg;
    mkRow LD_DW_REG (negb (move_memory_instruction_classes v)) (str "ldxdw") FLdReg;
    mkRow ST_B_IMM (negb (move_memory_instruction_classes v)) (str "stb") FLdStImm;
    mkRow ST_H_IMM (negb (move_memory_instruction_classes v)) (str "sth") FLdStImm;
    mkRow ST_W_IMM (negb (move_memory_instruction_classes v)) (str "stw") FLdStImm;
    mkRow ST_DW_IMM (negb (move_memory_instruction_classes v)) (str "stdw") FLdStImm;
    mkRow ST_B_REG (negb (move_memory_instruction_classes v)) (str "stxb") FStReg;
    mkRow ST_H_REG (negb (move_memory_instruction_classes v)) (str "stxh") FStReg;
    mkRow ST_W_REG (negb (move_memory_instruction_classes v)) (str "stxw") FStReg;
    mkRow ST_DW_REG (negb (move_memory_instruction_classes v)) (str "stxdw") FStReg;
    mkRow ADD32_IMM true (str "add32") FAluImm;
    mkRow ADD32_REG true (str "add32") FAluReg;
    mkRow SUB32_IMM true (str "sub32") FAluImm;
    mkRow SUB32_REG true (str "sub32") FAluReg;
    mkRow MUL32_IMM (negb (enable_pqr v)) (str "mul32") FAluImm;
    mkRow MUL32_REG (negb (enable_pqr v)) (str "mul32") FAluReg;
    mkRow LD_1B_REG (move_memory_instruction_classes v) (str "ldxb") FLdReg;
    mkRow DIV32_IMM (negb (enable_pqr v)) (str "div32") FAluImm;
    mkRow DIV32_REG (negb (enable_pqr v)) (str "div32") FAluReg;
    mkRow LD_2B_REG (move_memory_instruction_classes v) (str "ldxh") FLdReg;
    mkRow OR32_IMM true (str "or32") FAluImm;
    mkRow OR32_REG true (str "or32") FAluReg;
    mkRow AND32_IMM true (str "and32") FAluImm;
    mkRow AND32_REG true (str "and32") FAluReg;
    mkRow LSH32_IMM true (str "lsh32") FAluImm;
    mkRow LSH32_REG true (str "lsh32") FAluReg;
    mkRow RSH32_IMM true (str "rsh32") FAluImm;
    mkRow RSH32_REG true (str "rsh32") FAluReg;
    mkRow NEG32 (negb (disable_neg v)) (str "neg32") FUnary;
    mkRow LD_4B_REG (move_memory_instruction_classes v) (str "ldxw") FLdReg;
    mkRow MOD32_IMM (negb (enable_pqr v)) (str "mod32") FAluImm;
    mkRow MOD32_REG (negb (enable_pqr v)) (str "mod32") FAluReg;
    mkRow LD_8B_REG (move_memory_instruction_classes v) (str "ldxdw") FLdReg;
    mkRow XOR32_IMM true (str "xor32") FAluImm;
    mkRow XOR32_REG true (str "xor32") FAluReg;
    mkRow MOV32_IMM true (str "mov32") FAluImm;
    mkRow MOV32_REG true (str "mov32") FAluReg;
    mkRow ARSH32_IMM true (str "arsh32") FAluImm;
    mkRow ARSH32_REG true (str "arsh32") FAluReg;
    mkRow LE true (str "le") FByteswap;
    mkRow BE true (str "be") FByteswap;
    mkRow ADD64_IMM true (str "add64") FAluImm;
    mkRow ADD64_REG true (str "add64") FAluReg;
    mkRow SUB64_IMM true (str "sub64") FAluImm;
    mkRow SUB64_REG true (str "sub64") FAluReg;
    mkRow MUL64_IMM (negb (enable_pqr v)) (str "mul64") FAluImm;
    mkRow ST_1B_IMM (move_memory_instruction_classes v) (str "stb") FLdStImm;
    mkRow MUL64_REG (negb (enable_pqr v)) (str "mul64") FAluReg;
    mkRow ST_1B_REG (move_memory_instruction_classes v) (str "stxb") FStReg;
    mkRow DIV64_IMM (negb (enable_pqr v)) (str "div64") FAluImm;
    mkRow ST_2B_IMM (move_memory_instruction_classes v) (str "sth") FLdStImm;
    mkRow DIV64_REG (negb (enable_pqr v)) (str "div64") FAluReg;
    mkRow ST_2B_REG (move_memory_instruction_classes v) (str "stxh") FStReg;
    mkRow OR64_IMM true (str "or64") FAluImm;
    mkRow OR64_REG true (str "or64") FAluReg;
    mkRow AND64_IMM true (str "and64") FAluImm;
    mkRow AND64_REG true (str "and64") FAluReg;
    mkRow LSH64_IMM true (str "lsh64") FAluImm;
    mkRow LSH64_REG true (str "lsh64") FAluReg;
    mkRow RSH64_IMM true (str "rsh64") FAluImm;
    mkRow RSH64_REG true (str "rsh64") FAluReg;
    mkRow ST_4B_IMM (move_memory_instruction_classes v) (str "stw") FLdStImm;
    mkRow NEG64 (negb (disable_neg v)) (str "neg64") FUnary;
    mkRow ST_4B_REG (move_memory_instruction_classes v) (str "stxw") FStReg;
    mkRow MOD64_IMM (negb (enable_pqr v)) (str "mod64") FAluImm;
    mkRow ST_8B_IMM (move_memory_instruction_classes v) (str "stdw") FLdStImm;
    mkRow MOD64_REG (negb (enable_pqr v)) (str "mod64") FAluReg;
    mkRow ST_8B_REG (move_memory_instruction_classes v) (str "stxdw") FStReg;
    mkRow XOR64_IMM true (str "xor64") FAluImm;
    mkRow XOR64_REG true (str "xor64") FAluReg;
    mkRow MOV64_IMM true (str "mov64") FAluImm;
    mkRow MOV64_REG true (str "mov64") FAluReg;
    mkRow ARSH64_IMM true (str "arsh64") FAluImm;
    mkRow ARSH64_REG true (str "arsh64") FAluReg;
    mkRow HOR64_IMM true (str "hor64") FAluImm;
    mkRow LMUL32_IMM (enable_pqr v) (str "lmul32") FAluImm;
    mkRow LMUL32_REG (enable_pqr v) (str "lmul32") FAluReg;
    mkRow LMUL64_IMM (enable_pqr v) (str "lmul64") FAluImm;
    mkRow LMUL64_REG (enable_pqr v) (str "lmul64") FAluReg;
    mkRow UHMUL64_IMM (enable_pqr v) (str "uhmul64") FAluImm;
    mkRow UHMUL64_REG (enable_pqr v) (str "uhmul64") FAluReg;
    mkRow SHMUL64_IMM (enable_pqr v) (str "shmul64") FAluImm;
    mkRow SHMUL64_REG (enable_pqr v) (str "shmul64") FAluReg;
    mkRow UDIV32_IMM (enable_pqr v) (str "udiv32") FAluImm;
    mkRow UDIV32_REG (enable_pqr v) (str "udiv32") FAluReg;
    mkRow UDIV64_IMM (enable_pqr v) (str "udiv64") FAluImm;
    mkRow UDIV64_REG (enable_pqr v) (str "udiv64") FAluReg;
    mkRow UREM32_IMM (enable_pqr v) (str "urem32") FAluImm;
    mkRow UREM32_REG (enable_pqr v) (str "urem32") FAluReg;
    mkRow UREM64_IMM (enable_pqr v) (str "urem64") FAluImm;
    mkRow UREM64_REG (enable_pqr v) (str "urem64") FAluReg;
    mkRow SDIV32_IMM (enable_pqr v) (str "sdiv32") FAluImm;
    mkRow SDIV32_REG (enable_pqr v) (str "sdiv32") FAluReg;
    mkRow SDIV64_IMM (enable_pqr v) (str "sdiv64") FAluImm;
    mkRow SDIV64_REG (enable_pqr v) (str "sdiv64") FAluReg;
    mkRow SREM32_IMM (enable_pqr v) (str "srem32") FAluImm;
    mkRow SREM32_REG (enable_pqr v) (str "srem32") FAluReg;
    mkRow SREM64_IMM (enable_pqr v) (str "srem64") FAluImm;
    mkRow SREM64_REG (enable_pqr v) (str "srem64") FAluReg;
    mkRow JEQ32_IMM (enable_jmp32 v) (str "jeq32") FJmpImm;
    mkRow JEQ32_REG (enable_jmp32 v) (str "jeq32") FJmpReg;
    mkRow JGT32_IMM (enable_jmp32 v) (str "jgt32") FJmpImm;
    mkRow JGT32_REG (enable_jmp32 v) (str "jgt32") FJmpReg;
    mkRow JGE32_IMM (enable_jmp32 v) (str "jge32") FJmpImm;
    mkRow JGE32_REG (enable_jmp32 v) (str "jge32") FJmpReg;
    mkRow JLT32_IMM (enable_jmp32 v) (str "jlt32") FJmpImm;
    mkRow JLT32_REG (enable_jmp32 v) (str "jlt32") FJmpReg;
    mkRow JLE32_IMM (enable_jmp32 v) (str "jle32") FJmpImm;
    mkRow JLE32_REG (enable_jmp32 v) (str "jle32") FJmpReg;
    mkRow JSET32_IMM (enable_jmp32 v) (str "jset32") FJmpImm;
    mkRow JSET32_REG (enable_jmp32 v) (str "jset32") FJmpReg;
    mkRow JNE32_IMM (enable_jmp32 v) (str "jne32") FJmpImm;
    mkRow JNE32_REG (enable_jmp32 v) (str "jne32") FJmpReg;
    mkRow JSGT32_IMM (enable_jmp32 v) (str "jsgt32") FJmpImm;
    mkRow JSGT32_REG (enable_jmp32 v) (str "jsgt32") FJmpReg;
    mkRow JSGE32_IMM (enable_jmp32 v) (str "jsge32") FJmpImm;
    mkRow JSGE32_REG (enable_jmp32 v) (str "jsge32") FJmpReg;
    mkRow JSLT32_IMM (enable_jmp32 v) (str "jslt32") FJmpImm;
    mkRow JSLT32_REG (enable_jmp32 v) (str "jslt32") FJmpReg;
    mkRow JSLE32_IMM (enable_jmp32 v) (str "jsle32") FJmpImm;
    mkRow JSLE32_REG (enable_jmp32 v) (str "jsle32") FJmpReg;
    mkRow JA true (str "ja") FJa;
    mkRow JEQ64_IMM true (str "jeq") FJmpImm;
    mkRow JEQ64_REG true (str "jeq") FJmpReg;
    mkRow JGT64_IMM true (str "jgt") FJmpImm;
    mkRow JGT64_REG true (str "jgt") FJmpReg;
    mkRow JGE64_IMM true (str "jge") FJmpImm;
    mkRow JGE64_REG true (str "jge") FJmpReg;
    mkRow JLT64_IMM true (str "jlt") FJmpImm;
    mkRow JLT64_REG true (str "jlt") FJmpReg;
    mkRow JLE64_IMM true (str "jle") FJmpImm;
    mkRow JLE64_REG true (str "jle") FJmpReg;
    mkRow JSET64_IMM true (str "jset") FJmpImm;
    mkRow JSET64_REG true (str "jset") FJmpReg;
    mkRow JNE64_IMM true (str "jne") FJmpImm;
    mkRow JNE64_REG true (str "jne") FJmpReg;
    mkRow JSGT64_IMM true (str "jsgt") FJmpImm;
    mkRow JSGT64_REG true (str "jsgt") FJmpReg;
    mkRow JSGE64_IMM true (str "jsge") FJmpImm;
    mkRow JSGE64_REG true (str "jsge") FJmpReg;
    mkRow JSLT64_IMM true (str "jslt") FJmpImm;
    mkRow JSLT64_REG true (str "jslt") FJmpReg;
    mkRow JSLE64_IMM true (str "jsle") FJmpImm;
    mkRow JSLE64_REG true (str "jsle") FJmpReg;
    mkRow CALL_IMM true (str "call") FCall;
    mkRow CALL_REG true (str "callx") FCallx;
    mkRow EXIT true (str "exit") FExit ].

Section Formats.
Context {E : Type}.
Context (i : Insn) (pc : Z) (cfg_nodes : CfgNodes) (functions : FunctionRegistry Z)
  (loader : BuiltinProgram) (v : SBPFVersion).

Definition format_text (name : list Z) (f : Format) : Exec E (list Z) :=
  match f with
  | FLddw => Ret (name ++ str " r" ++ decimal i.(dst) ++ str ", " ++ hex_alternate 64 i.(imm))
  | FAluImm => Ret (alu_imm_str name i)
  | FAluReg => Ret (alu_reg_str name i)
  | FUnary => Ret (name ++ str " r" ++ decimal i.(dst))
  | FByteswap => Ret (byteswap_str name i)
  | FLdStImm => Ret (ld_st_imm_str name i)
  | FLdReg => Ret (ld_reg_str name i)
  | FStReg => Ret (st_reg_str name i)
  | FJa => disassemble_ja i cfg_nodes
  | FJmpImm => jmp_imm_str name i cfg_nodes
  | FJmpReg => jmp_reg_str name i cfg_nodes
  | FCall => disassemble_call i pc functions loader v
  | FCallx => disassemble_callx i v
  | FExit => Ret name
  end.

Definition row_arm (r : Row) : bool * (unit -> Exec E (list Z)) :=
  ((i.(opc) =? r.(row_opc)) && r.(row_guard), fun _ => format_text r.(row_name) r.(row_format)).

Definition row_of (o : Z) : option Row :=
  first_arm ((fun r => ((o =? r.(row_opc)) && r.(row_guard), r)) <$> rows v).

Lemma disassemble_rows :
  disassemble_instruction i pc cfg_nodes functions loader v =
  match row_of i.(opc) with
  | Some r => format_text r.(row_name) r.(row_format)
  | None => Ret (str "unknown" ++ str " opcode=" ++ hex_alternate 8 i.(opc))
  end.
Proof.
  transitivity (match first_arm (row_arm <$> rows v) with
    | Some arm => arm tt
    | None => Ret (str "unknown" ++ str " opcode=" ++ hex_alternate 8 i.(opc))
    end).
  - unfold disassemble_instruction. f_equal.
    (* the arms without a guard have the guard [true] *)
    unfold row_arm, rows. cbn [fmap list_fmap row_opc row_guard row_name row_format format_text].
    rewrite !andb_true_r. reflexivity.
  - unfold row_of. clear. induction (rows v) as [|r rs IH]; [done|]. cbn.
    destruct ((opc i =? row_opc r) && row_guard r); [done|]. apply IH.
Qed.
End Formats.

(** * The mnemonics agree *)

(** The assembler's table has the mnemonic of a row with the row's opcode. *)
Definition row_check (v : SBPFVersion) (r : Row) : bool :=
  let m := make_instruction_map v in
  let has (name : list Z) (ty : InstructionType) (o : Z) := bool_decide (m !! name = Some (ty, o)) in
  let with_bit (ty : InstructionType) (bit : Z) :=
    match m !! r.(row_name) with
    | Some (ty', o) => bool_decide (ty' = ty) && (Z.lor o bit =? r.(row_opc))
    | None => false
    end in
  negb r.(row_guard) ||
  forallb is_ascii_alphanumeric r.(row_name) && negb (bool_decide (r.(row_name) = [])) &&
  Bool.eqb (bool_decide (r.(row_format) = FLddw)) (r.(row_opc) =? LD_DW_IMM) &&
  match r.(row_format) with
  | FLddw => has r.(row_name) LoadDwImm r.(row_opc)
  | FAluImm => has r.(row_name) AluBinary r.(row_opc)
  | FAluReg => with_bit AluBinary BPF_X
  | FUnary => has r.(row_name) AluUnary r.(row_opc)
  | FByteswap =>
      forallb (fun size => has (r.(row_name) ++ decimal_signed size) (Endian size) r.(row_opc)) [16; 32; 64]
  | FLdStImm => has r.(row_name) StoreImm r.(row_opc)
  | FLdReg => has r.(row_name) LoadReg r.(row_opc)
  | FStReg => has r.(row_name) StoreReg r.(row_opc)
  | FJa => has r.(row_name) JumpUnconditional r.(row_opc) && bool_decide (r.(row_name) = str "ja")
  | FJmpImm => has r.(row_name) JumpConditional r.(row_opc)
  | FJmpReg => with_bit JumpConditional BPF_X
  | FCall => (r.(row_opc) =? CALL_IMM) && has (str "call") CallImm CALL_IMM && has (str "syscall") Syscall CALL_IMM
  | FCallx => has r.(row_name) CallReg r.(row_opc) && bool_decide (r.(row_name) = str "callx")
  | FExit => has r.(row_name) NoOperand r.(row_opc)
  end.

Lemma rows_check (v : SBPFVersion) : forallb (row_check v) (rows v) = true.
Proof. destruct v; vm_compute; reflexivity. Qed.

Lemma row_of_spec (v : SBPFVersion) (o : Z) (r : Row) :
  row_of v o = Some r -> r.(row_opc) = o /\ r.(row_guard) = true /\ row_check v r = true.
Proof.
  intros Hr. assert (Hf : forallb (row_check v) (rows v) = true) by apply rows_check.
  unfold row_of in Hr. apply first_arm_Some in Hr. apply list_elem_of_fmap in Hr as (r' & Heq & Hin).
  injection Heq as Hg ->. symmetry in Hg. apply andb_true_iff in Hg as [Ho Hg]. apply Z.eqb_eq in Ho.
  split_and!; [done|done|]. rewrite forallb_forall in Hf. apply Hf. by apply list_elem_of_In.
Qed.

(** * Canonical instructions *)

(** An instruction of a listing with the labels in front of it. *)
Abbreviation Item := (list (list Z) * Insn)%type.

Section RoundTrip.
Context `{Cmb : Combine} `{Hash : Murmur3}.
Context (v : SBPFVersion) (cfg_nodes : CfgNodes) (functions : FunctionRegistry Z)
  (loader : BuiltinProgram) (labels : Labels).

Definition jump_pc (i : Insn) : Z := i.(ptr) + i.(off) + 1.

(** The target of a jump has a label that can be written and that the assembler resolves to
    it. *)
Definition jump_ok (i : Insn) : Prop :=
  0 <= jump_pc i /\
  exists node, cfg_nodes !! jump_pc i = Some node /\ identifier node.(cn_label) /\
    labels !! node.(cn_label) = Some (jump_pc i).

(** The name of a syscall can be written, and hashes to the key of the syscall. *)
Definition syscall_ok (i : Insn) : Prop :=
  forall name f, lookup_by_key (get_function_registry loader) (as_u32 i.(imm)) = Some (name, f) ->
    Forall is_ascii name /\ identifier name /\ hash_symbol_name name = as_u32 i.(imm).

(** The name of a called function can be written, and its label is the function; a call of
    a nameless function registers it. *)
Definition call_ok (i : Insn) : Prop :=
  match lookup_by_key functions (calculate_call_imm_target_pc v i.(ptr) i.(imm)) with
  | Some (name, _) =>
      Forall is_ascii name /\ identifier name /\ labels !! name = Some (i.(ptr) + i.(imm) + 1)
  | None => True
  end /\
  0 <= i.(ptr) + i.(imm) + 1 < 2 ^ 32.

(** The fields an instruction of a format does not use are zero, as the assembler sets them;
    an addition to r10 is assembled to a no-op in the versions without dynamic frames. *)
Definition canonical (f : Format) (i : Insn) : Prop :=
  match f with
  | FLddw => i.(src) = 0 /\ i.(off) = 0
  | FAluImm => i.(src) = 0 /\ i.(off) = 0 /\
      ~ (i.(opc) = ADD64_IMM /\ i.(dst) = 10 /\ manual_stack_frame_bump v = false)
  | FAluReg => i.(off) = 0 /\ i.(imm) = 0
  | FUnary => i.(src) = 0 /\ i.(off) = 0 /\ i.(imm) = 0
  | FByteswap => i.(src) = 0 /\ i.(off) = 0 /\ (i.(imm) = 16 \/ i.(imm) = 32 \/ i.(imm) = 64)
  | FLdStImm => i.(src) = 0
  | FLdReg => i.(imm) = 0
  | FStReg => i.(imm) = 0
  | FJa => i.(dst) = 0 /\ i.(src) = 0 /\ i.(imm) = 0 /\ jump_ok i
  | FJmpImm => i.(src) = 0 /\ jump_ok i
  | FJmpReg => i.(imm) = 0 /\ jump_ok i
  | FCall => i.(dst) = 0 /\ i.(off) = 0 /\
      (i.(src) = 0 /\ syscall_ok i \/ static_syscalls v = true /\ i.(src) = 1 /\ call_ok i)
  | FCallx => i.(off) = 0 /\
      if callx_uses_src_reg v then i.(dst) = 0 /\ i.(imm) = 0
      else if callx_uses_dst_reg v then i.(src) = 0 /\ i.(imm) = 0
      else i.(dst) = 0 /\ i.(src) = 0 /\ 0 <= i.(imm) < 256
  | FExit => i.(dst) = 0 /\ i.(src) = 0 /\ i.(off) = 0 /\ i.(imm) = 0
  end.

(** The fields fit their types; the immediate of [lddw] is that of both slots. *)
Definition fields_ok (i : Insn) : Prop :=
  0 <= i.(ptr) < 2 ^ 32 /\ 0 <= i.(dst) < 16 /\ 0 <= i.(src) < 16 /\ in_s 16 i.(off) /\
  if i.(opc) =? LD_DW_IMM then in_s 64 i.(imm) /\ i.(imm) <> i64_min else in_s 32 i.(imm).

Definition canonical_insn (i : Insn) : Prop :=
  fields_ok i /\ exists r, row_of v i.(opc) = Some r /\ canonical r.(row_format) i.

(** The statement an instruction is written as. *)
Definition call_statement (i : Insn) : list Z * list Operand :=
  let named (o : option (list Z * Z)) :=
    match o with Some (name, _) => Label name | None => Integer i.(imm) end in
  if i.(src) =? 0
  then (str "syscall", [named (lookup_by_key (get_function_registry loader) (as_u32 i.(imm)))])
  else (str "call", [named (lookup_by_key functions (calculate_call_imm_target_pc v i.(ptr) i.(imm)))]).

Definition statement_of (name : list Z) (f : Format) (i : Insn) : list Z * list Operand :=
  let target := Label (resolve_node_label cfg_nodes (jump_pc i)) in
  match f with
  | FLddw => (name, [Register i.(dst); Integer i.(imm)])
  | FAluImm => (name, [Register i.(dst); Integer i.(imm)])
  | FAluReg => (name, [Register i.(dst); Register i.(src)])
  | FUnary => (name, [Register i.(dst)])
  | FByteswap => (name ++ decimal_signed i.(imm), [Register i.(dst)])
  | FLdStImm => (name, [Memory i.(dst) i.(off); Integer i.(imm)])
  | FLdReg => (name, [Register i.(dst); Memory i.(src) i.(off)])
  | FStReg => (name, [Memory i.(dst) i.(off); Register i.(src)])
  | FJa => (name, [target])
  | FJmpImm => (name, [Register i.(dst); Integer i.(imm); target])
  | FJmpReg => (name, [Register i.(dst); Register i.(src); target])
  | FCall => call_statement i
  | FCallx =>
      (name, [Register (if callx_uses_src_reg v then i.(src)
                        else if callx_uses_dst_reg v then i.(dst) else i.(imm))])
  | FExit => (name, [])
  end.

(** ** The text parses to the statement *)

Lemma ascii_word (w : list Z) : forallb is_ascii_alphanumeric w = true -> w <> [] -> word w.
Proof.
  intros Hw Hne. split; [done|]. apply Forall_forall. intros c Hc%list_elem_of_In.
  rewrite forallb_forall in Hw. apply Hw in Hc. unfold is_alphanumeric. rewrite Hc.
  destruct (Z.ltb_spec c 0x80); [done|]. exfalso. revert Hc.
  unfold is_ascii_alphanumeric, is_digit, in_range.
  by rewrite !(proj2 (Z.leb_gt c _)), !andb_false_r by lia.
Qed.

Lemma printed_register (n : Z) : 0 <= n < 2 ^ 32 -> operand_text (Register n) (str "r" ++ decimal n).
Proof. intros. apply text_register, (register_decimal n). unfold i64_max. lia. Qed.

Lemma integer_text (n : Z) : in_s 32 n -> operand_text (Integer n) (decimal_signed n).
Proof.
  unfold in_s. intros Hn. unfold decimal_signed. destruct (Z.ltb_spec n 0).
  - apply text_signed. replace n with (- - n) at 1 by lia.
    apply (text_minus (- n) 0 (decimal (- n))); [apply decimal_text; unfold i64_max|unfold i64_min]; lia.
  - apply text_unsigned, decimal_text. unfold i64_max. lia.
Qed.

Lemma printed_offset (n : Z) : in_s 16 n -> signed_text n (signed_off_str n).
Proof.
  unfold in_s. intros Hn. unfold signed_off_str.
  assert (Hx : forall m, 0 <= m < 2 ^ 63 -> magnitude_text m (hex_alternate 64 m)).
  { intros m Hm. pose proof (hex_alternate_text m) as Ht. unfold as_i64 in Ht.
    rewrite swrap_small in Ht by (unfold in_s; lia). apply Ht. unfold in_u. lia. }
  destruct (Z.ltb_spec n 0).
  - replace n with (- - n) at 1 by lia. apply (text_minus (- n) 0); [apply Hx|unfold i64_min]; lia.
  - replace (hex_alternate 16 n) with (hex_alternate 64 n)
      by (unfold hex_alternate; rewrite !uwrap_small by (unfold in_u; lia); done).
    apply (text_plus n 0), Hx. lia.
Qed.

Lemma memory_text (n off : Z) :
  0 <= n < 2 ^ 32 -> in_s 16 off ->
  operand_text (Memory n off) (str "[r" ++ decimal n ++ signed_off_str off ++ str "]").
Proof. intros. apply (text_memory n (0x72 :: decimal n) off); [apply register_decimal; unfold i64_max; lia|by apply (text_signed_offset 0), printed_offset]. Qed.

Lemma hex_text (n : Z) : in_s 64 n -> operand_text (Integer n) (hex_alternate 64 n).
Proof.
  intros Hn. apply text_unsigned. pose proof (hex_alternate_text (uwrap 64 n)) as Ht.
  unfold as_i64 in Ht. rewrite swrap_uwrap, swrap_small in Ht by (done || lia).
  replace (hex_alternate 64 n) with (hex_alternate 64 (uwrap 64 n)).
  - apply Ht. by apply uwrap_range.
  - unfold hex_alternate. by rewrite uwrap_uwrap by lia.
Qed.

Lemma printed_target_ok {E} (i : Insn) :
  fields_ok i -> 0 <= jump_pc i -> jump_target (E := E) i = Ret (jump_pc i).
Proof.
  intros (Hp & _ & _ & Ho & _) Ht. unfold jump_target, jump_pc, i64_add, as_i64, as_u64, in_s, i64_min, i64_max in *.
  rewrite swrap_small by (unfold in_s; lia).
  rewrite !(proj2 (Z.leb_le _ _)) by lia. cbn [andb exec_bind].
  rewrite !(proj2 (Z.leb_le _ _)) by lia. cbn [andb exec_bind]. by rewrite uwrap_small by (unfold in_u; lia).
Qed.

(** Operands joined by commas and blanks, after a blank. *)
Definition joined_operands (ts : list (list Z)) : list Z :=
  match ts with [] => [] | t :: ts => t ++ (ts ≫= fun t => str ", " ++ t) end.
Definition joined_arguments (ts : list (list Z)) : list Z :=
  match ts with [] => [] | _ => 0x20 :: joined_operands ts end.

Lemma joined_operands_text (o : Operand) (t : list Z) (ops : list Operand) (ts : list (list Z)) :
  operand_text o t -> Forall2 operand_text ops ts -> operands_text (o :: ops) (joined_operands (t :: ts)).
Proof.
  intros Ho Hts. revert o t Ho. induction Hts as [|o' t' ops ts Ho' _ IH]; intros o t Ho; cbn [joined_operands].
  - rewrite app_nil_r. by apply text_operand.
  - rewrite bind_cons. by apply (text_operands o t 1), IH.
Qed.
Lemma joined_arguments_text (ops : list Operand) (ts : list (list Z)) :
  Forall2 operand_text ops ts -> arguments_text ops (joined_arguments ts).
Proof. intros [|o t ops' ts' Ho Hts]; [constructor|]. by apply (text_arguments 0), joined_operands_text. Qed.

(** A statement is written as a text. *)
Definition written (st : list Z * list Operand) (text : list Z) : Prop :=
  exists ts, word st.1 /\ Forall2 operand_text st.2 ts /\ text = st.1 ++ joined_arguments ts.

Lemma written_text (name : list Z) (ops : list Operand) (text : list Z) :
  written (name, ops) text -> statement_text (SInstruction name ops) text.
Proof. intros (ts & Hw & Ht & ->). by apply text_instruction, joined_arguments_text. Qed.

Lemma jump_ok_label (i : Insn) :
  jump_ok i -> operand_text (Label (resolve_node_label cfg_nodes (jump_pc i)))
                 (resolve_node_label cfg_nodes (jump_pc i)).
Proof. intros (_ & node & Hn & Hi & _). unfold resolve_node_label. rewrite Hn. by constructor. Qed.

(** Lookup of a name that can be written. *)
Lemma named_text (o : option (list Z * Z)) (n : Z) :
  in_s 32 n ->
  (forall name f, o = Some (name, f) -> Forall is_ascii name /\ identifier name) ->
  operand_text (match o with Some (name, _) => Label name | None => Integer n end)
    (default (decimal_signed n) ((fun f : list Z * Z => from_utf8_lossy f.1) <$> o)).
Proof.
  intros Hn Ho. destruct o as [[name f]|]; cbn; [|by apply integer_text].
  destruct (Ho name f eq_refl) as [Ha Hi]. rewrite from_utf8_lossy_ascii by done. by constructor.
Qed.

Lemma call_written {E} (i : Insn) :
  in_s 32 i.(imm) ->
  (i.(src) = 0 /\ syscall_ok i \/ static_syscalls v = true /\ i.(src) = 1 /\ call_ok i) ->
  exists text, disassemble_call (E := E) i i.(ptr) functions loader v = Ret text /\
    written (call_statement i) text.
Proof.
  intros Hi Hc. unfold disassemble_call, call_statement.
  destruct Hc as [(-> & Hs)|(Hst & -> & Hf)].
  - rewrite orb_true_r. cbn [Z.eqb]. eexists. split; [reflexivity|].
    eexists [_]. cbn [fst snd]. split_and!; [by apply ascii_word|constructor; [|constructor]|].
    + apply named_text; [done|]. intros name f Hl. apply Hs in Hl as (? & ? & _). done.
    + cbn [joined_arguments joined_operands]. by rewrite app_nil_r.
  - rewrite Hst, andb_false_r. cbn [Z.eqb orb]. eexists. split; [reflexivity|].
    eexists [_]. cbn [fst snd]. split_and!; [by apply ascii_word|constructor; [|constructor]|].
    + apply named_text; [done|]. intros name f Hl. unfold call_ok in Hf. rewrite Hl in Hf. tauto.
    + cbn [joined_arguments joined_operands]. by rewrite app_nil_r.
Qed.

Lemma size_word (name : list Z) (n : Z) :
  forallb is_ascii_alphanumeric name = true -> n = 16 \/ n = 32 \/ n = 64 -> word (name ++ decimal_signed n).
Proof.
  intros Hn Hs. apply ascii_word; [|by destruct name; destruct Hs as [->|[->| ->]]].
  rewrite forallb_app, Hn. by destruct Hs as [->|[->| ->]].
Qed.

#[local] Opaque decimal decimal_signed hex_alternate signed_off_str.

Ltac show_written ts :=
  eexists; split; [reflexivity|]; exists ts; cbn [fst snd]; split_and!;
  [ done
  | repeat match goal with |- Forall2 _ _ _ => constructor end;
    auto using printed_register, integer_text, memory_text, hex_text, jump_ok_label
  | cbn; rewrite ?app_nil_r, <-?app_assoc; reflexivity ].

(** What the check of a row gives. *)
Lemma row_of_name (o : Z) (r : Row) :
  row_of v o = Some r ->
  forallb is_ascii_alphanumeric r.(row_name) = true /\ word r.(row_name) /\ (r.(row_format) = FLddw <-> o = LD_DW_IMM).
Proof.
  intros (<- & Hg & Hck)%row_of_spec. unfold row_check in Hck. rewrite Hg in Hck. cbn [negb orb] in Hck.
  apply andb_true_iff in Hck as [[[Hn Hne]%andb_true_iff Hl]%andb_true_iff _].
  apply negb_true_iff, bool_decide_eq_false in Hne.
  split_and!; [done|by apply ascii_word|]. apply Bool.eqb_prop in Hl.
  rewrite <-(bool_decide_eq_true (r.(row_format) = FLddw)), Hl. apply Z.eqb_eq.
Qed.

Lemma fields_imm (i : Insn) (r : Row) :
  fields_ok i -> row_of v i.(opc) = Some r ->
  match r.(row_format) with FLddw => in_s 64 i.(imm) | _ => in_s 32 i.(imm) end.
Proof.
  intros (_ & _ & _ & _ & Hi) (_ & _ & Hl)%row_of_name.
  destruct (row_format r), (Z.eqb_spec (opc i) LD_DW_IMM); intuition congruence.
Qed.

Lemma row_check_of (i : Insn) (r : Row) : row_of v i.(opc) = Some r -> row_check v r = true.
Proof. by intros (_ & _ & Hck)%row_of_spec. Qed.

Lemma format_written {E} (i : Insn) (r : Row) :
  fields_ok i -> row_of v i.(opc) = Some r -> canonical r.(row_format) i ->
  exists text,
    format_text (E := E) i i.(ptr) cfg_nodes functions loader v r.(row_name) r.(row_format) = Ret text /\
    written (statement_of r.(row_name) r.(row_format) i) text.
Proof.
  intros Hf Hr Hc. pose proof (row_of_name _ _ Hr) as (Hn & Hw & _). pose proof (fields_imm i r Hf Hr) as Hi.
  pose proof (row_check_of i r Hr) as Hck. apply row_of_spec in Hr as (_ & Hg & _).
  unfold row_check in Hck. rewrite Hg in Hck. cbn [negb orb] in Hck. apply andb_true_iff in Hck as [_ Hck].
  pose proof Hf as (Hp & Hd & Hs & Hoff & _).
  assert (Hd32 : 0 <= i.(dst) < 2 ^ 32) by lia. assert (Hs32 : 0 <= i.(src) < 2 ^ 32) by lia.
  destruct (row_format r); cbn [canonical statement_of format_text] in *.
  - show_written [str "r" ++ decimal i.(dst); hex_alternate 64 i.(imm)].
  - show_written [str "r" ++ decimal i.(dst); decimal_signed i.(imm)].
  - show_written [str "r" ++ decimal i.(dst); str "r" ++ decimal i.(src)].
  - show_written [str "r" ++ decimal i.(dst)].
  - destruct Hc as (_ & _ & Hsz). eexists; split; [reflexivity|]. exists [str "r" ++ decimal i.(dst)].
    cbn [fst snd]; split_and!; [by apply size_word|constructor; [by apply printed_register|done]|].
    unfold byteswap_str. cbn. by rewrite app_nil_r, <-app_assoc.
  - show_written [str "[r" ++ decimal i.(dst) ++ signed_off_str i.(off) ++ str "]"; decimal_signed i.(imm)].
  - show_written [str "r" ++ decimal i.(dst); str "[r" ++ decimal i.(src) ++ signed_off_str i.(off) ++ str "]"].
  - show_written [str "[r" ++ decimal i.(dst) ++ signed_off_str i.(off) ++ str "]"; str "r" ++ decimal i.(src)].
  - destruct Hc as (_ & _ & _ & Hj). unfold disassemble_ja.
    rewrite printed_target_ok by (done || apply Hj). cbn [exec_bind].
    apply andb_true_iff in Hck as [_ Hnm%bool_decide_eq_true]. rewrite Hnm in *.
    show_written [resolve_node_label cfg_nodes (jump_pc i)].
  - destruct Hc as (_ & Hj). unfold jmp_imm_str. rewrite printed_target_ok by (done || apply Hj). cbn [exec_bind].
    show_written [str "r" ++ decimal i.(dst); decimal_signed i.(imm); resolve_node_label cfg_nodes (jump_pc i)].
  - destruct Hc as (_ & Hj). unfold jmp_reg_str. rewrite printed_target_ok by (done || apply Hj). cbn [exec_bind].
    show_written [str "r" ++ decimal i.(dst); str "r" ++ decimal i.(src); resolve_node_label cfg_nodes (jump_pc i)].
  - destruct Hc as (_ & _ & Hc). by apply call_written.
  - unfold disassemble_callx. apply andb_true_iff in Hck as [_ Hnm%bool_decide_eq_true]. rewrite Hnm in *.
    eexists. split; [reflexivity|]. eexists [_]. cbn [fst snd]. split_and!; [done| |cbn; by rewrite app_nil_r].
    destruct Hc as [_ Hc]. constructor; [|constructor]. 
    destruct (callx_uses_src_reg v); [by apply printed_register|].
    destruct (callx_uses_dst_reg v); [by apply printed_register|]. unfold as_u8.
    rewrite uwrap_small by (unfold in_u; lia). apply printed_register. lia.
  - show_written (@nil (list Z)).
Qed.

(** ** The assembler gives the instruction back *)

Lemma insn_ok (o d s f m : Z) :
  0 <= d < 16 -> 0 <= s < 16 -> in_s 16 f -> in_s 32 m -> insn o d s f m = Ret (mkInsn 0 o d s f m).
Proof.
  intros Hd Hs Hf Hm. unfold insn, in_s, i32_min, i32_max in *.
  rewrite (proj2 (Z.leb_le 0 d)), (proj2 (Z.ltb_lt d 16)), (proj2 (Z.leb_le 0 s)), (proj2 (Z.ltb_lt s 16)),
    (proj2 (Z.ltb_ge f (- 2 ^ 15))), (proj2 (Z.ltb_ge m (- 2 ^ 31))), !Z.gtb_ltb,
    (proj2 (Z.ltb_ge (2 ^ 15 - 1) f)), (proj2 (Z.ltb_ge (2 ^ 31 - 1) m)) by lia.
  cbn [andb negb orb]. unfold as_u8, as_i16.
  by rewrite !uwrap_small, swrap_small by (unfold in_u, in_s; lia).
Qed.

Lemma lddw_low (m : Z) : Z.shiftr (as_i64 (Z.shiftl m 32)) 32 = swrap 32 m.
Proof.
  unfold as_i64, swrap. rewrite Z.shiftl_mul_pow2, Z.shiftr_div_pow2 by lia.
  replace (2 ^ 64) with (2 ^ 32 * 2 ^ 32) by reflexivity.
  rewrite Z.mul_mod_distr_r by lia.
  change (2 ^ (64 - 1)) with (2 ^ (32 - 1) * 2 ^ 32).
  destruct (Z.ltb_spec (m mod 2 ^ 32 * 2 ^ 32) (2 ^ (32 - 1) * 2 ^ 32)), (Z.ltb_spec (m mod 2 ^ 32) (2 ^ (32 - 1)));
    try nia; [by rewrite Z.div_mul by lia|].
  rewrite <-Z.mul_sub_distr_r. by rewrite Z.div_mul by lia.
Qed.

(** The immediate of an instruction's first slot. *)
Definition slot_imm (i : Insn) : Z := if i.(opc) =? LD_DW_IMM then swrap 32 i.(imm) else i.(imm).

(** The slots of an instruction. *)
Definition slots (i : Insn) : list Insn :=
  mkInsn i.(ptr) i.(opc) i.(dst) i.(src) i.(off) (slot_imm i) ::
  if i.(opc) =? LD_DW_IMM then [mkInsn (i.(ptr) + 1) 0 0 0 0 (Z.shiftr i.(imm) 32)] else [].

(** Every function of the registry has its program counter as its key. *)
Definition keys_ok (fs : FunctionRegistry Z) : Prop :=
  forall key name pc, fs !! key = Some (name, pc) -> key = pc.

Lemma register_pc (fs : FunctionRegistry Z) (name : list Z) (pc : Z) :
  keys_ok fs -> exists fs', register_function fs pc name pc = Ret fs' /\ keys_ok fs'.
Proof.
  intros Hk. unfold register_function. destruct (fs !! pc) as [[n pc']|] eqn:Hl.
  - apply Hk in Hl as Heq. cbn [snd]. rewrite bool_decide_eq_true_2 by done. eauto.
  - eexists. split; [done|]. intros key n pc' Hl'. destruct (decide (key = pc)) as [->|].
    + rewrite lookup_insert_eq in Hl'. by simplify_eq.
    + rewrite lookup_insert_ne in Hl' by done. by apply Hk in Hl'.
Qed.

Lemma i64_small {E} (w z : Z) :
  in_s 64 z -> (if (i64_min <=? z) && (z <=? i64_max) then Ret z else @Panic E Z ArithmeticOverflow) = Ret z.
Proof.
  unfold in_s, i64_min, i64_max. intros. by rewrite !(proj2 (Z.leb_le _ _)) by lia.
Qed.

Lemma resolve_small (p t : Z) (l : list Z) :
  0 <= p < 2 ^ 32 -> 0 <= t < 2 ^ 62 -> labels !! l = Some t -> resolve_label p labels l = Ret (t - p - 1).
Proof.
  intros Hp Ht Hl. unfold resolve_label, i64_sub, as_i64. rewrite Hl, !swrap_small by (unfold in_s; lia).
  rewrite i64_small by (done || unfold in_s; lia). cbn [exec_bind].
  by rewrite i64_small by (done || unfold in_s; lia).
Qed.

Lemma resolve_jump (i : Insn) :
  fields_ok i -> jump_ok i ->
  resolve_label i.(ptr) labels (resolve_node_label cfg_nodes (jump_pc i)) = Ret i.(off).
Proof.
  intros (Hp & _ & _ & Ho & _) (Hj & node & Hn & _ & Hl). unfold resolve_node_label. rewrite Hn.
  unfold in_s in Ho. rewrite (resolve_small _ (jump_pc i)) by (unfold jump_pc in *; done || lia).
  f_equal. unfold jump_pc. lia.
Qed.

Definition encoded (i : Insn) (fs : FunctionRegistry Z) (st : list Z * list Operand) : Prop :=
  exists ty o fs', make_instruction_map v !! st.1 = Some (ty, o) /\
    (ty = LoadDwImm <-> i.(opc) = LD_DW_IMM) /\ keys_ok fs' /\
    encode v labels i.(ptr) fs st.1 ty o st.2
    = Ret (mkInsn 0 i.(opc) i.(dst) i.(src) i.(off) (slot_imm i), fs').

Lemma encoded_same (i : Insn) (fs : FunctionRegistry Z) (st : list Z * list Operand)
    (ty : InstructionType) (o : Z) :
  keys_ok fs -> make_instruction_map v !! st.1 = Some (ty, o) ->
  (ty = LoadDwImm <-> i.(opc) = LD_DW_IMM) ->
  encode v labels i.(ptr) fs st.1 ty o st.2
  = (let! x := Ret (mkInsn 0 i.(opc) i.(dst) i.(src) i.(off) (slot_imm i)) in Ret (x, fs)) ->
  encoded i fs st.
Proof. intros Hk Hm Ht He. by exists ty, o, fs. Qed.

Lemma call_encoded (i : Insn) (fs : FunctionRegistry Z) :
  keys_ok fs -> fields_ok i -> i.(opc) = CALL_IMM -> in_s 32 i.(imm) -> i.(dst) = 0 -> i.(off) = 0 ->
  make_instruction_map v !! str "call" = Some (CallImm, CALL_IMM) ->
  make_instruction_map v !! str "syscall" = Some (Syscall, CALL_IMM) ->
  (i.(src) = 0 /\ syscall_ok i \/ static_syscalls v = true /\ i.(src) = 1 /\ call_ok i) ->
  encoded i fs (call_statement i).
Proof.
  intros Hk (Hp & _ & _ & _ & _) Ho Hi Hd Hoff Hm1 Hm2 Hc. pose proof Hi as Hi'. unfold in_s in Hi'.
  assert (Hsi : slot_imm i = i.(imm)) by (unfold slot_imm; by rewrite Ho).
  unfold call_statement. destruct Hc as [(Hs & Hsys)|(Hst & Hs & Hf & Ht)]; rewrite Hs; cbn [Z.eqb].
  - apply (encoded_same i fs _ Syscall CALL_IMM); [done|done|by rewrite Ho|]. cbn [fst snd encode].
    rewrite Hsi, Ho, Hd, Hs, Hoff. f_equal.
    destruct (lookup_by_key _ _) as [[name f]|] eqn:Hl; [|by rewrite insn_ok].
    destruct (Hsys name f Hl) as (Ha & _ & Hh). rewrite as_bytes_ascii, Hh by done.
    unfold as_i32, as_u32. rewrite swrap_uwrap, swrap_small by (done || lia). by rewrite insn_ok.
  - destruct (lookup_by_key functions _) as [[name f]|] eqn:Hl.
    + apply (encoded_same i fs _ CallImm CALL_IMM); [done|done|by rewrite Ho|]. cbn [fst snd encode].
      destruct Hf as (_ & _ & Hlab). rewrite Hlab, Hst, Hsi, Ho, Hd, Hs, Hoff. cbn [exec_bind]. f_equal.
      unfold i64_sub, as_i64. rewrite !swrap_small by (unfold in_s; lia).
      rewrite i64_small by (done || unfold in_s; lia). cbn [exec_bind].
      rewrite i64_small by (done || unfold in_s; lia). cbn [exec_bind b2z].
      replace (ptr i + imm i + 1 - ptr i - 1) with (imm i) by lia. by rewrite insn_ok.
    + set (target := imm i + ptr i + 1).
      destruct (register_pc fs (as_bytes (str "function_" ++ decimal target)) target Hk) as (fs' & Hreg & Hk').
      exists CallImm, CALL_IMM, fs'. split_and!; [done|by rewrite Ho|done|]. cbn [fst snd encode].
      unfold i64_add, as_i64, as_u32, as_u64. rewrite swrap_small by (unfold in_s; lia).
      rewrite i64_small by (done || unfold in_s; lia). cbn [exec_bind].
      rewrite i64_small by (done || unfold in_s; lia). cbn [exec_bind]. fold target.
      rewrite !uwrap_small by (unfold in_u; lia). rewrite Hreg, Hst. cbn [exec_map_err exec_bind b2z].
      rewrite Hsi, Ho, Hd, Hs, Hoff. by rewrite insn_ok.
Qed.

(** The assembler's entry for a row whose register form sets [BPF_X]. *)
Lemma with_bit_entry (m : gmap (list Z) (InstructionType * Z)) (name : list Z) (ty : InstructionType) (bit opc : Z) :
  match m !! name with
  | Some (ty', o) => bool_decide (ty' = ty) && (Z.lor o bit =? opc)
  | None => false
  end = true -> exists o, m !! name = Some (ty, o) /\ Z.lor o bit = opc.
Proof.
  destruct (m !! name) as [[ty' o]|]; [|done].
  intros [->%bool_decide_eq_true Ho%Z.eqb_eq]%andb_true_iff. eauto.
Qed.

Lemma lor_K (o : Z) : Z.lor o BPF_K = o.
Proof. apply Z.lor_0_r. Qed.

Ltac by_entry ty o :=
  apply (encoded_same _ _ _ ty o); [done|done|intuition congruence|cbn [fst snd encode]; f_equal].

Lemma format_encoded (i : Insn) (r : Row) (fs : FunctionRegistry Z) :
  keys_ok fs -> fields_ok i -> row_of v i.(opc) = Some r -> canonical r.(row_format) i ->
  encoded i fs (statement_of r.(row_name) r.(row_format) i).
Proof.
  intros Hk Hf Hr Hc. pose proof (row_of_name _ _ Hr) as (_ & _ & Hl). pose proof (fields_imm i r Hf Hr) as Hi.
  pose proof (row_check_of i r Hr) as Hck. apply row_of_spec in Hr as (Ho & Hg & _).
  unfold row_check in Hck. rewrite Hg in Hck. cbn [negb orb] in Hck. apply andb_true_iff in Hck as [_ Hck].
  pose proof Hf as (Hp & Hd & Hs & Hoff & _). rewrite Ho in Hck.
  assert (Hsi : slot_imm i = match r.(row_format) with FLddw => swrap 32 i.(imm) | _ => i.(imm) end).
  { unfold slot_imm. destruct (row_format r), (Z.eqb_spec (opc i) LD_DW_IMM); intuition congruence. }
  destruct (row_format r); cbn [canonical statement_of] in *; rewrite ?Hsi.
  - apply bool_decide_eq_true in Hck. destruct Hc as [Hs0 Ho0]. by_entry LoadDwImm (opc i).
    rewrite lddw_low, Hsi, Hs0, Ho0. apply insn_ok; [done|lia|done|by apply swrap_range].
  - apply bool_decide_eq_true in Hck. destruct Hc as (Hs0 & Ho0 & Hno).
    apply (encoded_same _ _ _ AluBinary (opc i)); [done|done|intuition congruence|]. cbn [fst snd encode].
    rewrite lor_K, Hsi, Hs0, Ho0.
    destruct (Z.eqb_spec (dst i) 10) as [Hd10|], (Z.eqb_spec (opc i) ADD64_IMM) as [Hadd|]; cbn [andb];
      try (by rewrite insn_ok by (done || lia)).
    destruct (manual_stack_frame_bump v); [|by destruct Hno]. rewrite <-Hd10. by rewrite insn_ok by (done || lia).
  - apply with_bit_entry in Hck as (o & Hm & Ho'). destruct Hc as (Ho0 & Hi0). by_entry AluBinary o.
    rewrite Ho', Hsi, Ho0, Hi0. by apply insn_ok.
  - apply bool_decide_eq_true in Hck. destruct Hc as (Hs0 & Ho0 & Hi0). by_entry AluUnary (opc i).
    rewrite Hsi, Ho0, Hi0, Hs0. apply insn_ok; (done || lia).
  - destruct Hc as (Hs0 & Ho0 & Hsz).
    assert (Hm : make_instruction_map v !! (row_name r ++ decimal_signed (imm i)) = Some (Endian (imm i), opc i)).
    { rewrite forallb_forall in Hck. apply (bool_decide_eq_true _), Hck. cbn. intuition. }
    by_entry (Endian (imm i)) (opc i). rewrite Hsi, Ho0, Hs0. apply insn_ok; (done || lia).
  - apply bool_decide_eq_true in Hck. by_entry StoreImm (opc i). rewrite Hsi, Hc. apply insn_ok; (done || lia).
  - apply bool_decide_eq_true in Hck. by_entry LoadReg (opc i). rewrite Hsi, Hc. by apply insn_ok.
  - apply bool_decide_eq_true in Hck. by_entry StoreReg (opc i). rewrite Hsi, Hc. by apply insn_ok.
  - apply andb_true_iff in Hck as [Hck%bool_decide_eq_true _]. destruct Hc as (Hd0 & Hs0 & Hi0 & Hj).
    by_entry JumpUnconditional (opc i). rewrite resolve_jump by done. cbn [exec_bind].
    rewrite Hsi, Hd0, Hs0, Hi0. apply insn_ok; (done || lia).
  - apply bool_decide_eq_true in Hck. destruct Hc as (Hs0 & Hj). by_entry JumpConditional (opc i).
    rewrite resolve_jump, lor_K by done. cbn [exec_bind]. rewrite Hsi, Hs0. apply insn_ok; (done || lia).
  - apply with_bit_entry in Hck as (o & Hm & Ho'). destruct Hc as (Hi0 & Hj). by_entry JumpConditional o.
    rewrite resolve_jump, Ho' by done. cbn [exec_bind]. rewrite Hsi, Hi0. by apply insn_ok.
  - apply andb_true_iff in Hck as [[Hop%Z.eqb_eq H1%bool_decide_eq_true]%andb_true_iff H2%bool_decide_eq_true].
    destruct Hc as (Hd0 & Ho0 & Hc). by apply call_encoded.
  - apply andb_true_iff in Hck as [Hck%bool_decide_eq_true _]. destruct Hc as (Ho0 & Hc).
    by_entry CallReg (opc i). rewrite Hsi, Ho0.
    destruct (callx_uses_src_reg v); [destruct Hc as [-> ->]; by apply insn_ok|].
    destruct (callx_uses_dst_reg v); [destruct Hc as [-> ->]; by apply insn_ok|].
    destruct Hc as (-> & -> & Hi'). by apply insn_ok.
  - apply bool_decide_eq_true in Hck. destruct Hc as (Hd0 & Hs0 & Ho0 & Hi0). by_entry NoOperand (opc i).
    rewrite Hsi, Hd0, Hs0, Ho0, Hi0. by apply insn_ok.
Qed.

(** * Listings

    A listing has, for every instruction, the labels in front of it and its text, one per
    line and with any white space between the lines. *)

Definition slot_count (i : Insn) : Z := if i.(opc) =? LD_DW_IMM then 2 else 1.

Lemma zlen_slots (i : Insn) : zlen (slots i) = slot_count i.
Proof. unfold slots, slot_count. by destruct (i.(opc) =? LD_DW_IMM). Qed.

(** The instructions are in consecutive slots. *)
Fixpoint consecutive (p : Z) (items : list Item) : Prop :=
  match items with
  | [] => True
  | (_, i) :: items => i.(ptr) = p /\ consecutive (p + slot_count i) items
  end.

(** The position every label has in the listing: the last one of a name counts, and
    [entrypoint] is the start when no label has this name. *)
Definition listing_labels (items : list Item) : Labels :=
  foldl (fun ls (item : Item) => foldl (fun ls l => <[l := item.2.(ptr)]> ls) ls item.1)
    {[ str "entrypoint" := 0 ]} items.

(** Statements on lines of their own. *)
Inductive lines_text : list Statement -> list Z -> Prop :=
  | lines_end : lines_text [] []
  | lines_cons ws st t sts ts : blank_text ws -> statement_text st t -> lines_text sts ts ->
      lines_text (st :: sts) (ws ++ t ++ [0x0a] ++ ts).

Lemma lines_text_source (sts : list Statement) (t : list Z) :
  lines_text sts t -> exists ws t', t = ws ++ t' /\ blank_text ws /\ source_text sts t'.
Proof.
  induction 1 as [|ws st t sts ts Hw Hst _ (ws' & t' & -> & Hw' & Hs)].
  - exists [], []. split_and!; [done|constructor|constructor].
  - exists ws. eexists. split_and!; [done|done|]. by apply (text_line st t ws' sts t').
Qed.

Lemma lines_text_app (sts1 sts2 : list Statement) (t1 t2 : list Z) :
  lines_text sts1 t1 -> lines_text sts2 t2 -> lines_text (sts1 ++ sts2) (t1 ++ t2).
Proof.
  induction 1 as [|ws st t sts ts Hw Hst _ IH]; intros H2; [done|].
  cbn [app]. rewrite <-!app_assoc. constructor; auto.
Qed.

(** The text of a listing. *)
Inductive listing : list Item -> list Z -> Prop :=
  | listing_end : listing [] []
  | listing_item ls i items label_text ws text rest :
      lines_text (SLabel <$> ls) label_text -> blank_text ws ->
      disassemble_instruction (E := Empty_set) i i.(ptr) cfg_nodes functions loader v = Ret text ->
      listing items rest ->
      listing ((ls, i) :: items) (label_text ++ ws ++ text ++ [0x0a] ++ rest).

Definition program_bytes (items : list Item) : list Z := (items ≫= fun item => slots item.2) ≫= to_vec.

(** The statements of a listing. *)
Inductive listed : list Item -> list Statement -> Prop :=
  | listed_end : listed [] []
  | listed_item ls i items name ops sts :
      (name = str "lddw" <-> i.(opc) = LD_DW_IMM) ->
      (forall fs out, keys_ok fs -> exists fs', keys_ok fs' /\
         second_pass_step v (make_instruction_map v) labels (mkSecondPass i.(ptr) fs out) (SInstruction name ops)
         = Ret (mkSecondPass (i.(ptr) + slot_count i) fs' (out ++ slots i))) ->
      listed items sts ->
      listed ((ls, i) :: items) ((SLabel <$> ls) ++ SInstruction name ops :: sts).

Lemma encoded_step (i : Insn) (r : Row) (name : list Z) (ops : list Operand) (fs : FunctionRegistry Z)
    (out : list Insn) :
  fields_ok i -> row_of v i.(opc) = Some r -> statement_of r.(row_name) r.(row_format) i = (name, ops) ->
  encoded i fs (name, ops) ->
  (name = str "lddw" <-> i.(opc) = LD_DW_IMM) /\
  exists fs', keys_ok fs' /\
    second_pass_step v (make_instruction_map v) labels (mkSecondPass i.(ptr) fs out) (SInstruction name ops)
    = Ret (mkSecondPass (i.(ptr) + slot_count i) fs' (out ++ slots i)).
Proof.
  intros Hf Hr Hst (ty & o & fs' & Hm & Hty & Hk' & He). cbn [fst snd] in *.
  split; [by rewrite <-(map_lddw v name ty o Hm)|]. exists fs'. split; [done|].
  cbn [second_pass_step]. rewrite Hm. cbn [sp_insn_ptr sp_functions sp_instructions]. rewrite He.
  cbn [exec_bind]. unfold push. cbn [sp_insn_ptr sp_functions sp_instructions].
  destruct Hf as (Hp & _). unfold u64_add, u64_max. rewrite (proj2 (Z.leb_le _ _)) by lia. cbn [exec_bind].
  unfold slots, slot_count. destruct (Z.eqb_spec (opc i) LD_DW_IMM) as [Hd|Hd].
  - rewrite (proj2 Hty Hd). apply row_of_name in Hr as (_ & _ & Hl). rewrite (proj2 Hl Hd) in Hst.
    injection Hst as <- <-. cbn. rewrite (proj2 (Z.leb_le _ _)) by lia. cbn. unfold set_ptr. cbn.
    rewrite <-app_assoc, <-Z.add_assoc. done.
  - destruct ty; (done || tauto).
Qed.

Lemma listing_statements (items : list Item) (text : list Z) :
  listing items text ->
  Forall (fun item : Item => canonical_insn item.2) items ->
  exists sts, listed items sts /\ lines_text sts text.
Proof.
  induction 1 as [|ls i items lt ws text rest Hls Hw Ht _ IH]; intros Hok.
  { exists []. split; constructor. }
  apply Forall_cons in Hok as [(Hf & r & Hr & Hc) Hok]. cbn [snd] in *.
  destruct (IH Hok) as (sts & Hsts & Hlines).
  rewrite disassemble_rows, Hr in Ht.
  destruct (format_written (E := Empty_set) i r Hf Hr Hc) as (text' & Htext & Hwr).
  rewrite Htext in Ht. injection Ht as ->.
  destruct (statement_of (row_name r) (row_format r) i) as [name ops] eqn:Hst.
  exists ((SLabel <$> ls) ++ SInstruction name ops :: sts). split.
  - assert (Hstep := fun fs out Hk => encoded_step i r name ops fs out Hf Hr Hst
      (eq_rect _ (encoded i fs) (format_encoded i r fs Hk Hf Hr Hc) _ Hst)).
    constructor; [|intros fs out Hk; by apply Hstep|done].
    destruct (Hstep ∅ [] ltac:(intros ? ? ? ?; simplify_map_eq)) as [Hl _]. done.
  - apply lines_text_app; [done|]. constructor; [done|by apply written_text|done].
Qed.

Lemma first_pass_labels (ls : list (list Z)) (p : Z) (fs : FunctionRegistry Z) (lb : Labels) :
  0 <= p < 2 ^ 32 -> keys_ok fs ->
  exists fs', keys_ok fs' /\
    each first_pass_step (mkFirstPass p fs lb) (SLabel <$> ls)
    = Ret (mkFirstPass p fs' (foldl (fun lb l => <[l := p]> lb) lb ls)).
Proof.
  intros Hp. revert fs lb. induction ls as [|l ls IH]; intros fs lb Hk; [by exists fs|].
  cbn [fmap list_fmap each first_pass_step fp_insn_ptr fp_functions fp_labels foldl].
  destruct (_ || _); cbn [exec_bind]; [|by apply IH].
  unfold as_u32. rewrite uwrap_small by (unfold in_u; lia).
  destruct (register_pc fs (as_bytes l) p Hk) as (fs1 & -> & Hk1). cbn [exec_map_err exec_bind]. by apply IH.
Qed.

Lemma first_pass_items (items : list Item) (sts : list Statement) (p : Z) (fs : FunctionRegistry Z) (lb : Labels) :
  listed items sts -> Forall (fun item : Item => fields_ok item.2) items -> consecutive p items -> keys_ok fs ->
  exists p' fs', keys_ok fs' /\
    each first_pass_step (mkFirstPass p fs lb) sts
    = Ret (mkFirstPass p' fs'
        (foldl (fun lb (item : Item) => foldl (fun lb l => <[l := item.2.(ptr)]> lb) lb item.1) lb items)).
Proof.
  intros Hl. revert p fs lb. induction Hl as [|ls i items name ops sts Hn _ _ IH]; intros p fs lb Hf Hc Hk.
  { by exists p, fs. }
  apply Forall_cons in Hf as [(Hp & _) Hf]. destruct Hc as [Hptr Hc]. cbn [snd] in Hp.
  rewrite each_app. destruct (first_pass_labels ls p fs lb) as (fs1 & Hk1 & ->); [lia|done|].
  cbn [exec_bind each first_pass_step fp_insn_ptr fp_functions fp_labels foldl fst snd].
  replace (if bool_decide (name = str "lddw") then 2 else 1) with (slot_count i).
  - assert (1 <= slot_count i <= 2) by (unfold slot_count; destruct (_ =? _); lia).
    unfold u64_add, u64_max. rewrite (proj2 (Z.leb_le _ _)) by lia. cbn [exec_bind]. rewrite Hptr. by apply IH.
  - unfold slot_count. destruct (Z.eqb_spec (opc i) LD_DW_IMM) as [Ho|Ho].
    + by rewrite bool_decide_eq_true_2 by by apply Hn.
    + rewrite bool_decide_eq_false_2; [done|]. by intros Heq%Hn.
Qed.

Lemma second_pass_labels (ls : list (list Z)) (st : SecondPass) :
  each (second_pass_step v (make_instruction_map v) labels) st (SLabel <$> ls) = Ret st.
Proof. induction ls as [|l ls IH]; [done|apply IH]. Qed.

Lemma second_pass_items (items : list Item) (sts : list Statement) (p : Z) (fs : FunctionRegistry Z) (out : list Insn) :
  listed items sts -> consecutive p items -> keys_ok fs ->
  exists p' fs', keys_ok fs' /\
    each (second_pass_step v (make_instruction_map v) labels) (mkSecondPass p fs out) sts
    = Ret (mkSecondPass p' fs' (out ++ (items ≫= fun item => slots item.2))).
Proof.
  intros Hl. revert p fs out. induction Hl as [|ls i items name ops sts _ Hstep _ IH]; intros p fs out Hc Hk.
  { exists p, fs. split; [done|]. by rewrite app_nil_r. }
  destruct Hc as [Hptr Hc]. rewrite each_app, second_pass_labels. cbn [exec_bind each].
  destruct (Hstep fs out Hk) as (fs1 & Hk1 & Heq). rewrite Hptr in Heq. rewrite Heq. cbn [exec_bind].
  destruct (IH _ fs1 (out ++ slots i) Hc Hk1) as (p' & fs' & Hk' & ->). exists p', fs'. split; [done|].
  by rewrite bind_cons, <-app_assoc.
Qed.

(** Assembling a listing. *)
Lemma assemble_listed (items : list Item) (sts : list Statement) :
  labels = listing_labels items -> listed items sts ->
  Forall (fun item : Item => fields_ok item.2) items -> consecutive 0 items ->
  exists fs, keys_ok fs /\
    assemble_statements v loader sts
    = exec_map_err ExecutableConstructor (from_text_bytes (program_bytes items) loader v fs).
Proof.
  intros Hlab Hl Hf Hc. unfold assemble_statements, first_pass.
  destruct (first_pass_items items sts 0 default_registry {[ str "entrypoint" := 0 ]} Hl Hf Hc)
    as (p1 & fs1 & Hk1 & ->); [intros ? ? ? ?; simplify_map_eq|]. cbn [exec_bind fp_labels fp_functions].
  unfold second_pass. fold (listing_labels items). rewrite <-Hlab.
  destruct (second_pass_items items sts 0 fs1 [] Hl Hc Hk1) as (p2 & fs2 & Hk2 & ->).
  cbn [exec_bind sp_instructions sp_functions app]. by exists fs2.
Qed.
End RoundTrip.

(** C12: assembling a disassembly gives the program back: for a listing of canonical
    instructions in consecutive slots (each line the disassembler's text of an instruction,
    with labels in front of some; every jump and call names a label of the listing that
    stands at its target), [assemble] parses the text, resolves the labels and hands exactly
    the bytes of the listed instructions to the executable's constructor. *)
Theorem listing_assembles `{Cmb : Combine} `{Dbg : !DebugText OtherErr} `{Hash : Murmur3}
    (loader : BuiltinProgram) (config : Config) (v : SBPFVersion) (cfg_nodes : CfgNodes)
    (functions : FunctionRegistry Z) (items : list Item) (text : list Z) :
  Program.config loader = Some config -> config.(enabled_sbpf_versions).2 = v ->
  listing v cfg_nodes functions loader items text ->
  Forall (fun item : Item =>
    canonical_insn v cfg_nodes functions loader (listing_labels items) item.2) items ->
  consecutive 0 items ->
  exists fs, keys_ok fs /\
    assemble text loader
    = exec_map_err ExecutableConstructor (from_text_bytes (program_bytes items) loader v fs).
Proof.
  intros Hcfg Hv Hl Hok Hc.
  destruct (listing_statements v cfg_nodes functions loader (listing_labels items) items text Hl Hok)
    as (sts & Hsts & Hlines).
  destruct (lines_text_source sts text Hlines) as (ws & t & -> & Hw & Hs).
  unfold assemble, get_config, parse. rewrite Hcfg. cbn [expect exec_bind]. rewrite Hv.
  destruct (run_source sts ws t Hw Hs) as [c ->]. cbn [exec_map_err exec_bind].
  apply (assemble_listed v loader (listing_labels items) items sts); [done|done| |done].
  eapply Forall_impl; [exact Hok|]. by intros item [Hf _].
Qed.

(** A loop that counts r1 down from a constant of two slots. *)
Definition example_items : list Item :=
  [ ([str "entrypoint"], mkInsn 0 LD_DW_IMM 1 0 0 0x100000005);
    ([str "lbb_2"], mkInsn 2 ADD64_IMM 1 0 0 (-1));
    ([], mkInsn 3 JNE64_IMM 1 0 (-2) 0);
    ([], mkInsn 4 EXIT 0 0 0 0) ].

Definition example_nodes : CfgNodes :=
  {[ 0 := mkCfgNode (str "entrypoint") [] [] (mkInsnRange 0 1) default_topo 0 [];
     2 := mkCfgNode (str "lbb_2") [] [] (mkInsnRange 1 3) default_topo 0 [] ]}.

Definition example_listing : list Z := str "entrypoint:
    lddw r1, 0x100000005
lbb_2:
    add64 r1, -1
    jne r1, 0, lbb_2
    exit
".

Lemma listing_assembles_witness : exists fs, keys_ok fs /\
  assemble (Cmb := combine_reference (Uni := ascii_tables)) (Dbg := no_debug) (Hash := sum_hash)
    example_listing new_mock
  = exec_map_err ExecutableConstructor
      (from_text_bytes (Hash := sum_hash) (program_bytes example_items) new_mock V4 fs).
Proof.
  pose (U := ascii_tables). pose (K := combine_reference (Uni := U)).
  assert (Hlab : forall l, l = str "entrypoint" \/ l = str "lbb_2" -> lines_text [SLabel l] (l ++ [0x3a; 0x0a])).
  { intros l Hl. pose proof (lines_cons [] (SLabel l) (l ++ [0x3a]) [] []) as Hc.
    rewrite app_nil_r, <-app_assoc in Hc. apply Hc; [constructor| |constructor].
    destruct Hl as [-> | ->]; constructor; (done || by repeat constructor). }
  assert (Hws : blank_text (str "    ")) by (by repeat constructor).
  apply (listing_assembles (Cmb := K) (Dbg := no_debug) (Hash := sum_hash) new_mock default_config V4
    example_nodes ∅ example_items example_listing).
  - done.
  - done.
  - apply (listing_item V4 example_nodes ∅ new_mock [str "entrypoint"] _ _ (str "entrypoint:
") (str "    ") (str "lddw r1, 0x100000005")); [by apply (Hlab (str "entrypoint")); left|done|by vm_compute|].
    apply (listing_item V4 example_nodes ∅ new_mock [str "lbb_2"] _ _ (str "lbb_2:
") (str "    ") (str "add64 r1, -1")); [by apply (Hlab (str "lbb_2")); right|done|by vm_compute|].
    apply (listing_item V4 example_nodes ∅ new_mock [] _ _ [] (str "    ") (str "jne r1, 0, lbb_2"));
      [constructor|done|by vm_compute|].
    apply (listing_item V4 example_nodes ∅ new_mock [] _ _ [] (str "    ") (str "exit"));
      [constructor|done|by vm_compute|constructor].
  - assert (Hlbl : listing_labels example_items !! str "lbb_2" = Some 2) by by vm_compute.
    constructor; [|constructor; [|constructor; [|constructor; [|constructor]]]]; cbn [snd].
    + split; [by vm_compute|]. eexists. split; [by vm_compute|]. done.
    + split; [by vm_compute|]. eexists. split; [by vm_compute|]. split_and!; [done|done|]. by intros (_ & ? & _).
    + split; [by vm_compute|]. eexists. split; [by vm_compute|]. split; [done|]. split; [done|].
      eexists. split; [by vm_compute|]. split; [|done]. split_and!; [done|done|by repeat constructor].
    + split; [by vm_compute|]. eexists. split; [by vm_compute|]. done.
  - done.
Defined.
