(* ===== verification/Pages.v ===== *)
(** Pages of memory (src/memory_management.rs): rounding to whole pages, and the calls that
    allocate, free and protect them. *)
From Stdlib Require Import String.
From S2P Require Import Prelude Error.
Open Scope rust_scope.

(** The operating system on Linux: the size of a page, the calls with their effect on its
    state, [errno], and the debug text of an argument.  The size of a page is a power of two,
    and a successful [mmap] returns pages that end below the upper half of the address
    space. *)
Class PageHost := {
  Os : Type;
  sysconf_page_size : Z;
  mmap : Os -> Z -> Z -> Z -> Z -> Z -> Z -> Z * Os;
  munmap : Os -> Z -> Z -> Z * Os;
  mprotect : Os -> Z -> Z -> Z -> Z * Os;
  errno : Os -> Z;
  debug_arg : Z -> string;
  page_size_spec : exists k, 0 <= k <= 30 /\ sysconf_page_size = 2 ^ k;
  mmap_spec os addr len prot flags fd offset :
    (mmap os addr len prot flags fd offset).1 <> 2 ^ 64 - 1 ->
    0 < (mmap os addr len prot flags fd offset).1 /\
    (mmap os addr len prot flags fd offset).1 + len <= 2 ^ 63;
}.

Definition PROT_READ : Z := 1.
Definition PROT_WRITE : Z := 2.
Definition PROT_EXEC : Z := 4.
Definition MAP_PRIVATE : Z := 0x02.
Definition MAP_ANONYMOUS : Z := 0x20.
Definition MAP_FAILED : Z := 2 ^ 64 - 1.

Section Pages.
Context `{Host : PageHost}.

(* src/memory_management.rs:74-85, get_system_page_size *)
Definition get_system_page_size : Z := sysconf_page_size.

(* src/memory_management.rs:87-94, round_to_page_size *)
Definition round_to_page_size {E} (value page_size : Z) : Exec E Z :=
  let up := u64_saturating_sub (u64_saturating_add value page_size) 1 in
  if page_size =? 0 then Panic UnwrapNone
  else Ret (u64_saturating_mul (up / page_size) page_size).

(** A call is tried again until it succeeds, [retries] times at most.  [attempt] takes what
    the call updates; [failure] is the error of the last attempt. *)
(* src/memory_management.rs:28-54, libc_error_guard *)
Fixpoint libc_error_guard {A} (retries : nat) (attempt : A -> Os -> bool * (A * Os))
    (failure : A -> Os -> EbpfError) (a : A) (os : Os) : Exec EbpfError (A * Os) :=
  match retries with
  | O => Ret (a, os)
  | S retries =>
      let '(succeeded, (a, os)) := attempt a os in
      if succeeded then Ret (a, os)
      else match retries with
           | O => Err (failure a os)
           | _ => libc_error_guard retries attempt failure a os
           end
  end.

Definition RETRY_COUNT : nat := 3.

(* src/memory_management.rs:96-117, allocate_pages *)
Definition allocate_pages (size_in_bytes : Z) (os : Os) : Exec EbpfError (Z * Os) :=
  let prot := Z.lor PROT_READ PROT_WRITE in
  let flags := Z.lor MAP_ANONYMOUS MAP_PRIVATE in
  libc_error_guard RETRY_COUNT
    (fun raw os =>
       let '(raw, os) := mmap os raw size_in_bytes prot flags (-1) 0 in
       (negb (raw =? MAP_FAILED), (raw, os)))
    (fun raw os =>
       LibcInvocationFailed "mmap" (debug_arg <$> [raw; size_in_bytes; prot; flags; -1; 0]) (errno os))
    0 os.

(* src/memory_management.rs:119-130, free_pages *)
Definition free_pages (raw size_in_bytes : Z) (os : Os) : Exec EbpfError (unit * Os) :=
  libc_error_guard RETRY_COUNT
    (fun _ os => let '(code, os) := munmap os raw size_in_bytes in (code =? 0, (tt, os)))
    (fun _ os => LibcInvocationFailed "munmap" (debug_arg <$> [raw; size_in_bytes]) (errno os))
    tt os.

(* src/memory_management.rs:132-167, protect_pages *)
Definition protect_pages (raw size_in_bytes : Z) (executable_flag : bool) (os : Os) :
    Exec EbpfError (unit * Os) :=
  let prot := if executable_flag then Z.lor PROT_EXEC PROT_READ else PROT_READ in
  libc_error_guard RETRY_COUNT
    (fun _ os => let '(code, os) := mprotect os raw size_in_bytes prot in (code =? 0, (tt, os)))
    (fun _ os => LibcInvocationFailed "mprotect" (debug_arg <$> [raw; size_in_bytes; prot]) (errno os))
    tt os.

(** * Lemmas *)

(** Rounding gives the least number of whole pages that holds the value. *)
Lemma round_to_page_size_spec {E} (value page_size : Z) :
  0 <= value <= 2 ^ 62 -> 0 < page_size <= 2 ^ 30 ->
  exists n, round_to_page_size (E := E) value page_size = Ret (n * page_size) /\
    value <= n * page_size < value + page_size.
Proof.
  intros Hv Hp. unfold round_to_page_size, u64_saturating_sub, u64_saturating_add, u64_saturating_mul, u64_max.
  rewrite (proj2 (Z.eqb_neq _ _)) by lia. exists ((value + page_size - 1) / page_size).
  rewrite (Z.min_l (value + page_size)), (Z.max_l (value + page_size - 1)) by lia.
  pose proof (Z.div_mod (value + page_size - 1) page_size ltac:(lia)) as Hd.
  pose proof (Z.mod_pos_bound (value + page_size - 1) page_size ltac:(lia)).
  rewrite (Z.mul_comm page_size) in Hd. rewrite Z.min_l by lia. split; [done|lia].
Qed.

Definition libc_failed (e : EbpfError) : Prop :=
  match e with LibcInvocationFailed _ _ _ => True | _ => False end.

(** A guarded call returns what a successful attempt made, or the error. *)
Lemma libc_error_guard_spec {A} (retries : nat) attempt failure (P : A -> Prop) (a : A) (os : Os) :
  retries <> O -> (forall a os, libc_failed (failure a os)) ->
  (forall a os, (attempt a os).1 = true -> P (attempt a os).2.1) ->
  match libc_error_guard retries attempt failure a os with
  | Ret (a, _) => P a
  | Err e => libc_failed e
  | Panic _ => False
  end.
Proof.
  intros Hr Hf Ha. revert a os. induction retries as [|n IH]; intros a os; [done|]. cbn.
  pose proof (Ha a os) as HP. destruct (attempt a os) as [[] [a' os']]; [by apply HP|].
  destruct n; [apply Hf|]. by apply IH.
Qed.

Lemma allocate_pages_spec (size_in_bytes : Z) (os : Os) :
  match allocate_pages size_in_bytes os with
  | Ret (raw, _) => 0 < raw /\ raw + size_in_bytes <= 2 ^ 63
  | Err e => libc_failed e
  | Panic _ => False
  end.
Proof.
  apply libc_error_guard_spec; [done|done|]. intros raw os'.
  pose proof (mmap_spec os' raw size_in_bytes (Z.lor PROT_READ PROT_WRITE)
    (Z.lor MAP_ANONYMOUS MAP_PRIVATE) (-1) 0) as Hm.
  destruct (mmap _ _ _ _ _ _ _) as [r os1]. cbn in *. intros Hn%negb_true_iff%Z.eqb_neq. by apply Hm.
Qed.

Lemma free_pages_spec (raw size_in_bytes : Z) (os : Os) :
  match free_pages raw size_in_bytes os with Ret _ => True | Err e => libc_failed e | Panic _ => False end.
Proof.
  pose proof (libc_error_guard_spec RETRY_COUNT
    (fun _ os => let '(code, os) := munmap os raw size_in_bytes in (code =? 0, (tt, os)))
    (fun _ os => LibcInvocationFailed "munmap" (debug_arg <$> [raw; size_in_bytes]) (errno os))
    (fun _ => True) tt os) as Hg. unfold free_pages.
  destruct (libc_error_guard _ _ _ _ _) as [[]| |]; [done|by apply Hg..].
Qed.

Lemma protect_pages_spec (raw size_in_bytes : Z) (flag : bool) (os : Os) :
  match protect_pages raw size_in_bytes flag os with Ret _ => True | Err e => libc_failed e | Panic _ => False end.
Proof.
  unfold protect_pages. cbv zeta. set (prot := if flag then _ else _).
  pose proof (libc_error_guard_spec RETRY_COUNT
    (fun _ os => let '(code, os) := mprotect os raw size_in_bytes prot in (code =? 0, (tt, os)))
    (fun _ os => LibcInvocationFailed "mprotect" (debug_arg <$> [raw; size_in_bytes; prot]) (errno os))
    (fun _ => True) tt os) as Hg.
  destruct (libc_error_guard _ _ _ _ _) as [[]| |]; [done|by apply Hg..].
Qed.
End Pages.

(** An operating system that always grants pages of 4 KiB at one address. *)
Definition generous_host : PageHost.
Proof.
  refine {| Os := unit; sysconf_page_size := 4096;
            mmap os _ len _ _ _ _ := (if len <=? 2 ^ 62 then 2 ^ 40 else 2 ^ 64 - 1, os);
            munmap os _ _ := (0, os); mprotect os _ _ _ := (0, os); errno _ := 0;
            debug_arg _ := EmptyString |}.
  - by exists 12.
  - intros os addr len prot flags fd offset. cbn. destruct (Z.leb_spec len (2 ^ 62)); lia.
Defined.
