(* ===== verification/X86.v ===== *)
(** The x86 instruction emitter (src/x86.rs): registers, instruction descriptions with
    their constructors, and the bytes [X86Instruction::emit] writes. *)
From S2P Require Import Prelude Error Ebpf.
Open Scope rust_scope.
Open Scope list_scope.

(** * Data *)

(* src/jit.rs:258-271, OperandSize *)
Inductive OperandSize := S0 | S8 | S16 | S32 | S64.

#[export] Instance OperandSize_eq_dec : EqDecision OperandSize.
Proof. solve_decision. Defined.

(* src/x86.rs:16-45, X86Register *)
Inductive X86Register :=
  | RAX | RCX | RDX | RBX | RSP | RBP | RSI | RDI
  | R8 | R9 | R10 | R11 | R12 | R13 | R14 | R15
  | MM0 | MM1 | MM2 | MM3 | MM4 | MM5 | MM6 | MM7.

#[export] Instance X86Register_eq_dec : EqDecision X86Register.
Proof. solve_decision. Defined.

(** [register as u8] *)
(* src/x86.rs:19-44, X86Register *)
Definition reg_code (r : X86Register) : Z :=
  match r with
  | RAX => 0 | RCX => 1 | RDX => 2 | RBX => 3 | RSP => 4 | RBP => 5 | RSI => 6 | RDI => 7
  | R8 => 8 | R9 => 9 | R10 => 10 | R11 => 11 | R12 => 12 | R13 => 13 | R14 => 14 | R15 => 15
  | MM0 => 16 | MM1 => 17 | MM2 => 18 | MM3 => 19 | MM4 => 20 | MM5 => 21 | MM6 => 22 | MM7 => 23
  end.

(* src/x86.rs:49-49, ARGUMENT_REGISTERS *)
Definition ARGUMENT_REGISTERS : list X86Register := [RDI; RSI; RDX; RCX; R8; R9].
(* src/x86.rs:50-50, CALLER_SAVED_REGISTERS *)
Definition CALLER_SAVED_REGISTERS : list X86Register := [RAX; RCX; RDX; RSI; RDI; R8; R9; R10; R11].
(* src/x86.rs:51-51, CALLEE_SAVED_REGISTERS *)
Definition CALLEE_SAVED_REGISTERS : list X86Register := [RBP; RBX; R12; R13; R14; R15].

(* src/x86.rs:53-58, X86Rex *)
Record X86Rex := mkRex { rex_w : bool; rex_r : bool; rex_x : bool; rex_b : bool }.
(* src/x86.rs:60-64, X86ModRm *)
Record X86ModRm := mkModRm { mr_mode : Z; mr_r : Z; mr_m : Z }.
(* src/x86.rs:66-70, X86Sib *)
Record X86Sib := mkSib { sib_scale : Z; sib_index : Z; sib_base : Z }.

(* src/x86.rs:72-78, X86IndirectAccess *)
Inductive X86IndirectAccess :=
  | Offset (offset : Z)
  | OffsetIndexShift (offset : Z) (index : X86Register) (shift : Z).

(* src/x86.rs:80-89, FenceType *)
Inductive FenceType := Fence_Load | Fence_All | Fence_Store.
(* src/x86.rs:82-89, FenceType *)
Definition fence_code (f : FenceType) : Z :=
  match f with Fence_Load => 5 | Fence_All => 6 | Fence_Store => 7 end.

(* src/x86.rs:91-102, X86Instruction *)
Record X86Instruction := mkX86 {
  x_size : OperandSize;
  x_escape : Z;
  x_opcode : Z;
  x_modrm : bool;
  x_indirect : option X86IndirectAccess;
  x_first : Z;
  x_second : Z;
  x_imm_size : OperandSize;
  x_imm : Z;
}.

(* src/x86.rs:105-115, X86Instruction::DEFAULT *)
Definition default_x86 : X86Instruction := {|
  x_size := S0;
  x_escape := 0;
  x_opcode := 0;
  x_modrm := true;
  x_indirect := None;
  x_first := 0;
  x_second := 0;
  x_imm_size := S0;
  x_imm := 0;
|}.

(** * Encoding *)

(** The bytes of [emit_variable_length]. *)
(* src/jit.rs:919-927, JitCompiler::emit_variable_length *)
Definition variable_length (size : OperandSize) (data : Z) : list Z :=
  match size with
  | S0 => []
  | S8 => le_bytes 1 data
  | S16 => le_bytes 2 data
  | S32 => le_bytes 4 data
  | S64 => le_bytes 8 data
  end.

Definition fits_i8 (d : Z) : bool := (-128 <=? d) && (d <=? 127).
Definition bit3 (code : Z) : bool := negb (Z.land code 0x8 =? 0).
Definition bit_of (b : bool) : Z := if b then 1 else 0.

(** The addressing of the memory operand: mode, [m], index extension, SIB byte and
    displacement. *)
(* src/x86.rs:138-172, X86Instruction::emit *)
Definition addressing {E} (self : X86Instruction) :
    Exec E (Z * Z * bool * X86Sib * OperandSize * Z) :=
  let m := Z.land self.(x_second) 0x7 in
  if self.(x_modrm) then
    match self.(x_indirect) with
    | Some (Offset offset) =>
        if m =? 4 then Panic DebugAssertFailed
        else if fits_i8 offset || ((offset =? 0) && (m =? 5))
        then Ret (1, m, false, mkSib 0 0 0, S8, offset)
        else Ret (2, m, false, mkSib 0 0 0, S32, offset)
    | Some (OffsetIndexShift offset index shift) =>
        let sib := mkSib (Z.land shift 0x3) (Z.land (reg_code index) 0x7) m in
        if fits_i8 offset then Ret (1, 4, bit3 (reg_code index), sib, S8, offset)
        else Ret (2, 4, bit3 (reg_code index), sib, S32, offset)
    | None => Ret (3, m, false, mkSib 0 0 0, S0, 0)
    end
  else Ret (0, m, false, mkSib 0 0 0, S0, 0).

(** The bytes [emit] writes, in order. *)
(* src/x86.rs:117-197, X86Instruction::emit *)
Definition x86_bytes {E} (self : X86Instruction) : Exec E (list Z) :=
  if bool_decide (self.(x_size) = S0) then Panic DebugAssertFailed
  else
    let! (mode, m, x, sib, displacement_size, displacement) := addressing self in
    let rex := mkRex (bool_decide (self.(x_size) = S64)) (bit3 self.(x_first)) x (bit3 self.(x_second)) in
    let modrm := mkModRm mode (Z.land self.(x_first) 0x7) m in
    let rex := Z.lor (Z.lor (Z.lor (Z.shiftl (bit_of rex.(rex_w)) 3) (Z.shiftl (bit_of rex.(rex_r)) 2))
                            (Z.shiftl (bit_of rex.(rex_x)) 1)) (bit_of rex.(rex_b)) in
    let sib := Z.lor (Z.lor (Z.shiftl sib.(sib_scale) 6) (Z.shiftl sib.(sib_index) 3)) sib.(sib_base) in
    Ret ((if bool_decide (self.(x_size) = S16) then [0x66] else [])
         ++ (if rex =? 0 then [] else [Z.lor 0x40 rex])
         ++ (if self.(x_escape) =? 1 then [0x0f]
             else if self.(x_escape) =? 2 then le_bytes 2 0x0f38
             else if self.(x_escape) =? 3 then le_bytes 2 0x0f3a else [])
         ++ [self.(x_opcode)]
         ++ (if self.(x_modrm) then
               [Z.lor (Z.lor (Z.shiftl modrm.(mr_mode) 6) (Z.shiftl modrm.(mr_r) 3)) modrm.(mr_m)]
               ++ (if sib =? 0 then [] else [sib])
               ++ variable_length displacement_size displacement
             else [])
         ++ variable_length self.(x_imm_size) self.(x_imm)).

(** * Constructors *)

Section Constructors.
Context {E : Type}.
Implicit Types (size : OperandSize) (source destination : X86Register) (indirect : option X86IndirectAccess).

(* src/x86.rs:7-14, exclude_operand_sizes *)
Definition exclude_operand_sizes size (to_exclude : list OperandSize) (self : X86Instruction) :
    Exec E X86Instruction :=
  if existsb (fun s => bool_decide (s = size)) to_exclude then Panic DebugAssertFailed else Ret self.

(* src/x86.rs:199-218, X86Instruction::alu_escaped *)
Definition alu_escaped size (escape opcode : Z) source destination indirect : Exec E X86Instruction :=
  exclude_operand_sizes size [S0; S8; S16]
    (mkX86 size escape opcode true indirect (reg_code source) (reg_code destination) S0 0).

(* src/x86.rs:220-247, X86Instruction::alu_immediate_escaped *)
Definition alu_immediate_escaped size (escape opcode opcode_extension : Z) destination (immediate : Z) indirect :
    Exec E X86Instruction :=
  exclude_operand_sizes size [S0; S8; S16]
    (mkX86 size escape opcode true indirect opcode_extension (reg_code destination)
       (if opcode =? 0xc1 then S8
        else if opcode =? 0x81 then S32
        else if (opcode =? 0xf7) && (opcode_extension =? 0) then S32 else S0)
       immediate).

(* src/x86.rs:249-258, X86Instruction::alu *)
Definition alu size (opcode : Z) source destination indirect : Exec E X86Instruction :=
  alu_escaped size 0 opcode source destination indirect.

(* src/x86.rs:260-278, X86Instruction::alu_immediate *)
Definition alu_immediate size (opcode opcode_extension : Z) destination (immediate : Z) indirect :
    Exec E X86Instruction :=
  alu_immediate_escaped size 0 opcode opcode_extension destination immediate indirect.

(* src/x86.rs:280-290, X86Instruction::mov *)
Definition mov size source destination : Exec E X86Instruction :=
  exclude_operand_sizes size [S0; S8; S16]
    (mkX86 size 0 0x89 true None (reg_code source) (reg_code destination) S0 0).

(* src/x86.rs:292-306, X86Instruction::mov_with_sign_extension *)
Definition mov_with_sign_extension size source destination : Exec E X86Instruction :=
  exclude_operand_sizes size [S0; S8; S16]
    (mkX86 size 0 0x63 true None (reg_code destination) (reg_code source) S0 0).

(* src/x86.rs:308-335, X86Instruction::mov_mmx *)
Definition mov_mmx size source destination : Exec E X86Instruction :=
  exclude_operand_sizes size [S0; S8; S16; S32]
    (if negb (Z.land (reg_code destination) 16 =? 0)
     then mkX86 size 1 (if negb (Z.land (reg_code source) 16 =? 0) then 0x6F else 0x6E) true None
            (Z.land (reg_code destination) 0xF) (Z.land (reg_code source) 0xF) S0 0
     else mkX86 size 1 0x7E true None
            (Z.land (reg_code source) 0xF) (Z.land (reg_code destination) 0xF) S0 0).

(* src/x86.rs:337-353, X86Instruction::cmov *)
Definition cmov size (condition : Z) source destination : Exec E X86Instruction :=
  exclude_operand_sizes size [S0; S8; S16]
    (mkX86 size 1 condition true None (reg_code destination) (reg_code source) S0 0).

(* src/x86.rs:355-374, X86Instruction::xchg *)
Definition xchg size source destination indirect : Exec E X86Instruction :=
  exclude_operand_sizes size [S0; S8; S16; S32]
    (mkX86 size 0 0x87 true indirect (reg_code source) (reg_code destination) S0 0).

(* src/x86.rs:376-398, X86Instruction::bswap *)
Definition bswap size destination : Exec E X86Instruction :=
  exclude_operand_sizes size [S0; S8]
    match size with
    | S16 => mkX86 size 0 0xc1 true None 0 (reg_code destination) S8 8
    | _ => mkX86 size 1 (Z.lor 0xc8 (Z.land (reg_code destination) 0x7)) false None 0 (reg_code destination) S0 0
    end.

(* src/x86.rs:400-420, X86Instruction::test *)
Definition test size source destination indirect : Exec E X86Instruction :=
  exclude_operand_sizes size [S0]
    (mkX86 size 0 (match size with S8 => 0x84 | _ => 0x85 end) true indirect
       (reg_code source) (reg_code destination) S0 0).

(* src/x86.rs:422-448, X86Instruction::test_immediate *)
Definition test_immediate size destination (immediate : Z) indirect : Exec E X86Instruction :=
  exclude_operand_sizes size [S0]
    (mkX86 size 0 (match size with S8 => 0xf6 | _ => 0xf7 end) true indirect
       0 (reg_code destination) (match size with S64 => S32 | _ => size end) immediate).

(* src/x86.rs:450-470, X86Instruction::cmp *)
Definition cmp size source destination indirect : Exec E X86Instruction :=
  exclude_operand_sizes size [S0]
    (mkX86 size 0 (match size with S8 => 0x38 | _ => 0x39 end) true indirect
       (reg_code source) (reg_code destination) S0 0).

(* src/x86.rs:472-498, X86Instruction::cmp_immediate *)
Definition cmp_immediate size destination (immediate : Z) indirect : Exec E X86Instruction :=
  exclude_operand_sizes size [S0]
    (mkX86 size 0 (match size with S8 => 0x80 | _ => 0x81 end) true indirect
       7 (reg_code destination) (match size with S64 => S32 | _ => size end) immediate).

(* src/x86.rs:500-519, X86Instruction::lea *)
Definition lea size source destination indirect : Exec E X86Instruction :=
  exclude_operand_sizes size [S0; S8; S16; S32]
    (mkX86 size 0 0x8d true indirect (reg_code destination) (reg_code source) S0 0).

(* src/x86.rs:521-530, X86Instruction::sign_extend_rax_rdx *)
Definition sign_extend_rax_rdx size : Exec E X86Instruction :=
  exclude_operand_sizes size [S0; S8; S16] (mkX86 size 0 0x99 false None 0 0 S0 0).

(* src/x86.rs:532-560, X86Instruction::load *)
Definition load size source destination (indirect : X86IndirectAccess) : Exec E X86Instruction :=
  exclude_operand_sizes size [S0]
    (mkX86 (match size with S64 => S64 | _ => S32 end)
       (match size with S8 | S16 => 1 | _ => 0 end)
       (match size with S8 => 0xb6 | S16 => 0xb7 | _ => 0x8b end)
       true (Some indirect) (reg_code destination) (reg_code source) S0 0).

(* src/x86.rs:562-581, X86Instruction::store *)
Definition store size source destination (indirect : X86IndirectAccess) : Exec E X86Instruction :=
  exclude_operand_sizes size [S0]
    (mkX86 size 0 (match size with S8 => 0x88 | _ => 0x89 end) true (Some indirect)
       (reg_code source) (reg_code destination) S0 0).

(* src/x86.rs:583-612, X86Instruction::load_immediate *)
Definition load_immediate destination (immediate : Z) : Exec E X86Instruction :=
  let full size :=
    mkX86 size 0 (Z.lor 0xb8 (Z.land (reg_code destination) 0x7)) false None 0 (reg_code destination)
      size immediate in
  if immediate >=? 0 then
    if immediate <=? 2 ^ 32 - 1 then Ret (full S32) else Ret (full S64)
  else if immediate >=? i32_min then
    Ret (mkX86 S64 0 0xc7 true None 0 (reg_code destination) S32 immediate)
  else Ret (full S64).

(* src/x86.rs:614-638, X86Instruction::store_immediate *)
Definition store_immediate size destination (indirect : X86IndirectAccess) (immediate : Z) :
    Exec E X86Instruction :=
  exclude_operand_sizes size [S0]
    (mkX86 size 0 (match size with S8 => 0xc6 | _ => 0xc7 end) true (Some indirect) 0 (reg_code destination)
       (match size with S64 => S32 | _ => size end) immediate).

(* src/x86.rs:640-658, X86Instruction::push_immediate *)
Definition push_immediate size (immediate : Z) : Exec E X86Instruction :=
  exclude_operand_sizes size [S0; S16]
    (mkX86 size 0 (match size with S8 => 0x6A | _ => 0x68 end) false None 0 0
       (match size with S64 => S32 | _ => size end) immediate).

(* src/x86.rs:660-681, X86Instruction::push *)
Definition push source indirect : Exec E X86Instruction :=
  match indirect with
  | None =>
      Ret (mkX86 S32 0 (Z.lor 0x50 (Z.land (reg_code source) 0x7)) false None 0 (reg_code source) S0 0)
  | Some _ => Ret (mkX86 S64 0 0xFF true indirect 6 (reg_code source) S0 0)
  end.

(* src/x86.rs:683-692, X86Instruction::pop *)
Definition pop destination : Exec E X86Instruction :=
  Ret (mkX86 S32 0 (Z.lor 0x58 (Z.land (reg_code destination) 0x7)) false None 0 (reg_code destination) S0 0).

(* src/x86.rs:694-705, X86Instruction::conditional_jump_immediate *)
Definition conditional_jump_immediate (opcode relative_destination : Z) : Exec E X86Instruction :=
  Ret (mkX86 S32 1 opcode false None 0 0 S32 relative_destination).

(* src/x86.rs:707-717, X86Instruction::jump_immediate *)
Definition jump_immediate (relative_destination : Z) : Exec E X86Instruction :=
  Ret (mkX86 S32 0 0xe9 false None 0 0 S32 relative_destination).

(* src/x86.rs:719-730, X86Instruction::jump_reg *)
Definition jump_reg destination indirect : Exec E X86Instruction :=
  Ret (mkX86 S64 0 0xff true indirect 4 (reg_code destination) S0 0).

(* src/x86.rs:732-742, X86Instruction::call_immediate *)
Definition call_immediate (relative_destination : Z) : Exec E X86Instruction :=
  Ret (mkX86 S32 0 0xe8 false None 0 0 S32 relative_destination).

(* src/x86.rs:744-754, X86Instruction::call_reg *)
Definition call_reg destination indirect : Exec E X86Instruction :=
  Ret (mkX86 S64 0 0xff true indirect 2 (reg_code destination) S0 0).

(* src/x86.rs:756-764, X86Instruction::return_near *)
Definition return_near : Exec E X86Instruction := Ret (mkX86 S32 0 0xc3 false None 0 0 S0 0).

(* src/x86.rs:766-775, X86Instruction::noop *)
Definition noop : Exec E X86Instruction := Ret (mkX86 S32 0 0x90 false None 0 0 S0 0).

(* src/x86.rs:777-797, X86Instruction::interrupt *)
Definition interrupt (immediate : Z) : Exec E X86Instruction :=
  if immediate =? 3 then Ret (mkX86 S32 0 0xcc false None 0 0 S0 0)
  else Ret (mkX86 S32 0 0xcd false None 0 0 S8 immediate).

(* src/x86.rs:799-808, X86Instruction::cycle_count *)
Definition cycle_count : Exec E X86Instruction := Ret (mkX86 S32 1 0x31 false None 0 0 S0 0).

(* src/x86.rs:810-820, X86Instruction::fence *)
Definition fence (fence_type : FenceType) : Exec E X86Instruction :=
  Ret (mkX86 S32 1 0xae true None (fence_code fence_type) 0 S0 0).
End Constructors.
