(* ===== verification/X86Decode.v ===== *)
(** A decoder of x86 machine code, written from the encoding of the architecture: legacy prefix,
    REX prefix, opcode, ModRM and SIB bytes, displacement and immediate.  It covers the forms that
    the emitter of src/x86.rs can write, and reads what the constructors build back. *)
From S2P Require Import Prelude Error Ebpf X86.
Open Scope rust_scope.
Open Scope list_scope.

(** * Forms of instructions *)

(** The immediate of an opcode: none, a byte, 16 or 32 bits by operand size, a full word, or one that the
    extension of opcodes f6 and f7 decides. *)
Inductive ImmKind := NoImm | ImmByte | ImmWord | ImmFull | ImmTest.

Record Form := mkForm {
  fm_modrm : bool;     (** a ModRM byte follows *)
  fm_byte : bool;      (** operands of one byte *)
  fm_reg : bool;       (** the low three bits of the opcode are a register *)
  fm_imm : ImmKind;
  fm_first8 : bool;    (** the first operand is a byte register *)
  fm_second8 : bool;   (** the second operand is a byte, in a register or in memory *)
}.

(** Opcodes with a ModRM byte, of one byte and behind the escape 0f. *)
Definition modrm_opcodes : list (list Z * Form) :=
  [ ([0x01; 0x09; 0x21; 0x29; 0x2b; 0x31; 0x39; 0x63; 0x85; 0x87; 0x89; 0x8b; 0x8d; 0xd3; 0xff], mkForm true false false NoImm false false);
    ([0x38; 0x84; 0x88], mkForm true true false NoImm true true);
    ([0x81; 0xc7], mkForm true false false ImmWord false false);
    ([0xc1], mkForm true false false ImmByte false false);
    ([0x80; 0xc6], mkForm true true false ImmByte false true);
    ([0xf7], mkForm true false false ImmTest false false);
    ([0xf6], mkForm true true false ImmTest false true) ].
Definition plain_opcodes : list (list Z * Form) :=
  [ (seqZ 0x50 16, mkForm false false true NoImm false false);
    ([0x90; 0x99; 0xc3; 0xcc], mkForm false false false NoImm false false);
    (seqZ 0xb8 8, mkForm false false true ImmFull false false);
    ([0x68; 0xe8; 0xe9], mkForm false false false ImmWord false false);
    ([0x6a], mkForm false true false ImmByte false false);
    ([0xcd], mkForm false false false ImmByte false false) ].
Definition escaped_opcodes : list (list Z * Form) :=
  [ (seqZ 0x40 16 ++ [0x6e; 0x6f; 0x7e; 0xae; 0xaf; 0xb7], mkForm true false false NoImm false false);
    ([0xb6], mkForm true false false NoImm false true);
    ([0x31], mkForm false false false NoImm false false);
    (seqZ 0x80 16, mkForm false false false ImmWord false false);
    (seqZ 0xc8 8, mkForm false false true NoImm false false) ].

Fixpoint find_form (o : Z) (table : list (list Z * Form)) : option Form :=
  match table with
  | [] => None
  | (opcodes, f) :: table => if opc_in o opcodes then Some f else find_form o table
  end.
Definition opcode_form (escape o : Z) : option Form :=
  if escape =? 0 then find_form o (modrm_opcodes ++ plain_opcodes)
  else if escape =? 1 then find_form o escaped_opcodes
  else None.

Definition word_size (size : OperandSize) : OperandSize := match size with S16 => S16 | _ => S32 end.
Definition imm_size_of (f : Form) (size : OperandSize) (first : Z) : OperandSize :=
  match f.(fm_imm) with
  | NoImm => S0
  | ImmByte => S8
  | ImmWord => word_size size
  | ImmFull => size
  | ImmTest => if Z.land first 7 =? 0 then (if f.(fm_byte) then S8 else word_size size) else S0
  end.

(** * Decoding *)

Definition reg_of (code : Z) : X86Register :=
  default RAX ([RAX; RCX; RDX; RBX; RSP; RBP; RSI; RDI; R8; R9; R10; R11; R12; R13; R14; R15] !! Z.to_nat code).

(** The prefixes: whether 66 is there, whether REX is, and its bits. *)
Definition decode_operand_size (bs : list Z) : bool * list Z :=
  match bs with b :: rest => if b =? 0x66 then (true, rest) else (false, bs) | [] => (false, []) end.
Definition decode_rex (bs : list Z) : bool * Z * list Z :=
  match bs with b :: rest => if Z.shiftr b 4 =? 4 then (true, Z.land b 0xf, rest) else (false, 0, bs) | [] => (false, 0, []) end.
Definition decode_opcode (bs : list Z) : option (Z * Z * list Z) :=
  match bs with
  | b :: rest => if b =? 0x0f then match rest with o :: rest => Some (1, o, rest) | [] => None end else Some (0, b, rest)
  | [] => None
  end.

Definition rex_bit (rex i n : Z) : Z := Z.lor (Z.shiftl (bit_of (Z.testbit rex i)) 3) n.

(** Without REX, the codes 4 to 7 of byte registers are AH, CH, DH and BH, which the emitter has no
    name for. *)
Definition high_code (code : Z) : bool := (4 <=? code) && (code <? 8).
Definition no_memory {A} (indirect : option A) : bool := match indirect with None => true | Some _ => false end.
Definition high_bytes (f : Form) (first second : Z) (in_register : bool) : bool :=
  (f.(fm_first8) && high_code first) || (f.(fm_second8) && in_register && high_code second).

(** Registers and the memory operand, its displacement still to come.  Index 4 of a SIB byte, where
    REX does not extend it, says that there is no index, whatever the scale; the emitter writes this
    operand as [OffsetIndexShift _ RSP 0]. *)
Definition decode_modrm (rex : Z) (bs : list Z) : option (Z * Z * option (Z -> X86IndirectAccess) * OperandSize * list Z) :=
  match bs with
  | [] => None
  | b :: rest =>
      let mode := Z.shiftr b 6 in
      let first := rex_bit rex 2 (Z.land (Z.shiftr b 3) 7) in
      let m := Z.land b 7 in
      if mode =? 3 then Some (first, rex_bit rex 0 m, None, S0, rest)
      else
        let size := if mode =? 1 then S8 else S32 in
        if mode =? 0 then None
        else if m =? 4 then
          match rest with
          | [] => None
          | sib :: rest =>
              let index := rex_bit rex 1 (Z.land (Z.shiftr sib 3) 7) in
              let scale := if index =? 4 then 0 else Z.shiftr sib 6 in
              Some (first, rex_bit rex 0 (Z.land sib 7), Some (fun offset => OffsetIndexShift offset (reg_of index) scale), size, rest)
          end
        else Some (first, rex_bit rex 0 m, Some Offset, size, rest)
  end.

Definition field_bytes (size : OperandSize) : nat := match size with S0 => 0 | S8 => 1 | S16 => 2 | S32 => 4 | S64 => 8 end.
Definition signed_field (size : OperandSize) (z : Z) : Z := match size with S0 => 0 | _ => swrap (8 * Z.of_nat (field_bytes size)) z end.

(** A signed little-endian field. *)
Definition decode_field (size : OperandSize) (bs : list Z) : option (Z * list Z) :=
  let n := field_bytes size in
  if (length bs <? n)%nat then None else Some (signed_field size (le_value (take n bs)), drop n bs).

(** One instruction and the bytes behind it. *)
Definition decode_x86 (bs : list Z) : option (X86Instruction * list Z) :=
  let (p66, bs) := decode_operand_size bs in
  let '(has_rex, rex, bs) := decode_rex bs in
  '(escape, opcode, bs) ← decode_opcode bs;
  f ← opcode_form escape opcode;
  let size := if f.(fm_byte) then S8 else if Z.testbit rex 3 then S64 else if p66 : bool then S16 else S32 in
  '(first, second, indirect, displacement_size, bs) ←
    (if f.(fm_modrm) then decode_modrm rex bs
     else if f.(fm_reg) then Some (0, rex_bit rex 0 (Z.land opcode 7), None, S0, bs)
     else if Z.testbit rex 0 then None
     else Some (0, 0, None, S0, bs));
  if negb has_rex && high_bytes f first second (no_memory indirect) then None
  else
  '(displacement, bs) ← decode_field displacement_size bs;
  let imm_size := imm_size_of f size first in
  '(immediate, bs) ← decode_field imm_size bs;
  Some (mkX86 size escape opcode f.(fm_modrm) ((fun access => access displacement) <$> indirect) first second imm_size immediate, bs).

(** * What can be read back *)

Definition indirect_ok (second : Z) (indirect : option X86IndirectAccess) : Prop :=
  match indirect with
  | None => True
  | Some (Offset offset) => Z.land second 7 <> 4 /\ in_s 32 offset
  | Some (OffsetIndexShift offset index shift) =>
      in_s 32 offset /\ 0 <= shift < 4 /\ reg_code index < 16 /\ (index = RSP -> shift = 0) /\
      (shift <> 0 \/ Z.land (reg_code index) 7 <> 0 \/ Z.land second 7 <> 0)
  end.

Definition index_bit (indirect : option X86IndirectAccess) : bool :=
  match indirect with Some (OffsetIndexShift _ index _) => bit3 (reg_code index) | _ => false end.
Definition needs_rex (size : OperandSize) (first second : Z) (indirect : option X86IndirectAccess) : bool :=
  bool_decide (size = S64) || bit3 first || bit3 second || index_bit indirect.

(** The fields of an instruction fit its form. *)
Definition x86_wf (i : X86Instruction) : Prop :=
  exists f, opcode_form i.(x_escape) i.(x_opcode) = Some f /\ i.(x_modrm) = f.(fm_modrm) /\ i.(x_size) <> S0 /\
    (i.(x_size) = S8 <-> f.(fm_byte) = true) /\ 0 <= i.(x_first) < 16 /\ 0 <= i.(x_second) < 16 /\
    i.(x_imm_size) = imm_size_of f i.(x_size) i.(x_first) /\ indirect_ok i.(x_second) i.(x_indirect) /\
    (high_bytes f i.(x_first) i.(x_second) (no_memory i.(x_indirect)) = true -> needs_rex i.(x_size) i.(x_first) i.(x_second) i.(x_indirect) = true) /\
    (f.(fm_modrm) = false -> i.(x_indirect) = None /\ i.(x_first) = 0 /\
      if f.(fm_reg) then Z.land i.(x_second) 7 = Z.land i.(x_opcode) 7 else i.(x_second) = 0).

(** The immediate cut to its size. *)
Definition canonical_x86 (i : X86Instruction) : X86Instruction :=
  mkX86 i.(x_size) i.(x_escape) i.(x_opcode) i.(x_modrm) i.(x_indirect) i.(x_first) i.(x_second) i.(x_imm_size)
    (signed_field i.(x_imm_size) i.(x_imm)).

(** * Lemmas *)

Lemma finite_Z (P : Z -> bool) (n : Z) : forallb P (seqZ 0 n) = true -> forall z, 0 <= z < n -> P z = true.
Proof. intros Hall z Hz. rewrite forallb_forall in Hall. apply Hall, list_elem_of_In, elem_of_seqZ. lia. Qed.

(** ** Bytes and their fields *)

Definition three_fields (hi mid lo : Z) : Z := Z.lor (Z.lor (Z.shiftl hi 6) (Z.shiftl mid 3)) lo.

Lemma three_fields_spec (hi mid lo : Z) : 0 <= hi < 4 -> 0 <= mid < 8 -> 0 <= lo < 8 ->
  let b := three_fields hi mid lo in Z.shiftr b 6 = hi /\ Z.land (Z.shiftr b 3) 7 = mid /\ Z.land b 7 = lo.
Proof.
  intros Hh Hm Hl. cbv zeta.
  pose proof (finite_Z (fun hi => forallb (fun mid => forallb (fun lo => let b := three_fields hi mid lo in
    (Z.shiftr b 6 =? hi) && (Z.land (Z.shiftr b 3) 7 =? mid) && (Z.land b 7 =? lo)) (seqZ 0 8)) (seqZ 0 8)) 4 ltac:(vm_compute; reflexivity) hi Hh) as H.
  pose proof (finite_Z _ 8 H mid Hm) as H'. pose proof (finite_Z _ 8 H' lo Hl) as H''. cbv beta zeta in H''. rewrite !andb_true_iff, !Z.eqb_eq in H''. tauto.
Qed.

Lemma three_fields_zero (hi mid lo : Z) : 0 <= hi -> 0 <= mid -> 0 <= lo -> three_fields hi mid lo = 0 -> hi = 0 /\ mid = 0 /\ lo = 0.
Proof.
  intros Hh Hm Hl H. unfold three_fields in H. apply Z.lor_eq_0_iff in H as [[H1 H2]%Z.lor_eq_0_iff H3].
  split; [|split; [|done]]; [apply (Z.shiftl_eq_0_iff hi 6) in H1|apply (Z.shiftl_eq_0_iff mid 3) in H2]; lia.
Qed.

Definition rex_nibble (w r x b : bool) : Z :=
  Z.lor (Z.lor (Z.lor (Z.shiftl (bit_of w) 3) (Z.shiftl (bit_of r) 2)) (Z.shiftl (bit_of x) 1)) (bit_of b).

Lemma rex_nibble_spec (w r x b : bool) : let n := rex_nibble w r x b in
  Z.testbit n 3 = w /\ Z.testbit n 2 = r /\ Z.testbit n 1 = x /\ Z.testbit n 0 = b.
Proof. by destruct w, r, x, b. Qed.

Lemma rex_bit_join (rex i n : Z) : 0 <= n < 16 -> Z.testbit rex i = bit3 n -> rex_bit rex i (Z.land n 7) = n.
Proof.
  intros Hn Hb. unfold rex_bit. rewrite Hb.
  pose proof (finite_Z (fun n => Z.lor (Z.shiftl (bit_of (bit3 n)) 3) (Z.land n 7) =? n) 16 ltac:(vm_compute; reflexivity) n Hn) as H.
  by apply Z.eqb_eq in H.
Qed.

Lemma land_7_range (n : Z) : 0 <= Z.land n 7 < 8.
Proof. change 7 with (Z.ones 3). rewrite Z.land_ones by done. apply Z.mod_pos_bound. done. Qed.

Lemma reg_of_code (r : X86Register) : reg_code r < 16 -> reg_of (reg_code r) = r.
Proof. by destruct r. Qed.
Lemma reg_code_four (r : X86Register) : reg_code r = 4 -> r = RSP.
Proof. by destruct r. Qed.
Lemma reg_code_nonneg (r : X86Register) : 0 <= reg_code r.
Proof. by destruct r. Qed.

(** ** The parts *)

Lemma decode_operand_size_spec (p : bool) (b : Z) (bs : list Z) : b <> 0x66 ->
  decode_operand_size ((if p then [0x66] else []) ++ b :: bs) = (p, b :: bs).
Proof. intros Hb. destruct p; cbn; [done|]. by rewrite (proj2 (Z.eqb_neq b 0x66)). Qed.

Lemma decode_rex_spec (w r x b : bool) (o : Z) (bs : list Z) : Z.shiftr o 4 <> 4 -> let n := rex_nibble w r x b in
  decode_rex ((if n =? 0 then [] else [Z.lor 0x40 n]) ++ o :: bs) = (negb (n =? 0), n, o :: bs).
Proof.
  intros Ho. cbv zeta. destruct w, r, x, b; try reflexivity.
  change (rex_nibble _ _ _ _) with 0. cbn [Z.eqb app decode_rex]. by rewrite (proj2 (Z.eqb_neq _ _) Ho).
Qed.

(** The opcodes with a form. *)
Lemma find_form_in (o : Z) (table : list (list Z * Form)) (f : Form) : find_form o table = Some f -> exists l, (l, f) ∈ table /\ o ∈ l.
Proof.
  induction table as [|[l g] table IH]; cbn [find_form]; [done|]. destruct (opc_in o l) eqn:Ho.
  - intros [= <-]. exists l. split; [by left|]. unfold opc_in in Ho. apply existsb_exists in Ho as (x & Hx & ->%Z.eqb_eq). by apply list_elem_of_In.
  - intros (l' & Hl & Hin)%IH. exists l'. split; [by right|done].
Qed.

Lemma opcode_form_spec (escape o : Z) (f : Form) : opcode_form escape o = Some f ->
  (escape = 0 /\ o <> 0x66 /\ o <> 0x0f /\ Z.shiftr o 4 <> 4 \/ escape = 1) /\ in_u 8 o /\ (f.(fm_modrm) = true -> f.(fm_reg) = false).
Proof.
  unfold opcode_form. destruct (Z.eqb_spec escape 0) as [->|_]; [|destruct (Z.eqb_spec escape 1) as [->|_]; [|done]];
    intros (l & Hl & Ho)%find_form_in.
  - assert (Hall : Forall (fun '(l, f) => Forall (fun o => o <> 0x66 /\ o <> 0x0f /\ Z.shiftr o 4 <> 4 /\ (0 <= o /\ o < 2 ^ 8)) l /\
      (f.(fm_modrm) = true -> f.(fm_reg) = false)) (modrm_opcodes ++ plain_opcodes)) by (apply (bool_decide_unpack _); vm_compute; reflexivity).
    rewrite Forall_forall in Hall. destruct (Hall _ Hl) as [Hfs Hm]. rewrite Forall_forall in Hfs. destruct (Hfs _ Ho) as (? & ? & ? & ?).
    split; [by left|]. by split.
  - assert (Hall : Forall (fun '(l, f) => Forall (fun o => 0 <= o /\ o < 2 ^ 8) l /\
      (f.(fm_modrm) = true -> f.(fm_reg) = false)) escaped_opcodes) by (apply (bool_decide_unpack _); vm_compute; reflexivity).
    rewrite Forall_forall in Hall. destruct (Hall _ Hl) as [Hfs Hm]. rewrite Forall_forall in Hfs. specialize (Hfs _ Ho).
    split; [by right|]. by split.
Qed.

Lemma variable_length_bytes (size : OperandSize) (z : Z) : variable_length size z = le_bytes (field_bytes size) z.
Proof. by destruct size. Qed.

Lemma decode_field_spec (size : OperandSize) (z : Z) (bs : list Z) :
  decode_field size (variable_length size z ++ bs) = Some (signed_field size z, bs).
Proof.
  rewrite variable_length_bytes. unfold decode_field. rewrite (proj2 (Nat.ltb_ge _ _)) by (rewrite length_app, length_le_bytes; lia).
  rewrite take_app_length', drop_app_length' by (by rewrite length_le_bytes). rewrite le_value_le_bytes. do 2 f_equal.
  unfold signed_field. destruct size; [done| | | |]; by rewrite swrap_uwrap.
Qed.

(** The ModRM byte, the SIB byte and the size of the displacement that follow the opcode. *)
Definition modrm_bytes (i : X86Instruction) (mode m : Z) (sib : X86Sib) : list Z :=
  three_fields mode (Z.land i.(x_first) 7) m ::
  (let s := three_fields sib.(sib_scale) sib.(sib_index) sib.(sib_base) in if s =? 0 then [] else [s]).

Lemma decode_modrm_spec {E} (i : X86Instruction) (rex mode m : Z) (x : bool) (sib : X86Sib) (dsize : OperandSize) (d : Z) (bs : list Z) :
  i.(x_modrm) = true -> addressing (E := E) i = Ret (mode, m, x, sib, dsize, d) -> indirect_ok i.(x_second) i.(x_indirect) ->
  0 <= i.(x_first) < 16 -> 0 <= i.(x_second) < 16 ->
  Z.testbit rex 2 = bit3 i.(x_first) -> Z.testbit rex 1 = x -> Z.testbit rex 0 = bit3 i.(x_second) ->
  exists access, decode_modrm rex (modrm_bytes i mode m sib ++ bs) = Some (i.(x_first), i.(x_second), access, dsize, bs) /\
    ((fun a => a (signed_field dsize d)) <$> access) = i.(x_indirect).
Proof.
  intros Hm Ha Hi Hf Hs H2 H1 H0. unfold addressing in Ha. rewrite Hm in Ha. pose proof (land_7_range i.(x_first)). pose proof (land_7_range i.(x_second)).
  unfold modrm_bytes. destruct i.(x_indirect) as [[offset|offset index shift]|]; cbn [indirect_ok] in Hi.
  - destruct Hi as [Hne Ho]. rewrite (proj2 (Z.eqb_neq _ 4) Hne) in Ha.
    assert (Hd : exists mo, (mo = 1 \/ mo = 2) /\ Ret (E := E) (mode, m, x, sib, dsize, d) = Ret (mo, Z.land i.(x_second) 7, false, mkSib 0 0 0, if mo =? 1 then S8 else S32, offset) /\
      signed_field (if mo =? 1 then S8 else S32) offset = offset).
    { destruct (fits_i8 offset || ((offset =? 0) && (Z.land i.(x_second) 7 =? 5))) eqn:Hfit; [exists 1|exists 2]; (split; [auto|]); (split; [by rewrite <-Ha|]).
      - apply (swrap_small 8); [done|]. unfold fits_i8 in Hfit. unfold in_s. lia.
      - by apply (swrap_small 32). }
    destruct Hd as (mo & Hmo & [= -> -> -> -> -> ->] & Hd). cbn [sib_scale sib_index sib_base]. change (three_fields 0 0 0) with 0. cbn [Z.eqb app].
    destruct (three_fields_spec mo (Z.land i.(x_first) 7) (Z.land i.(x_second) 7)) as (E1 & E2 & E3); [lia|lia|lia|].
    unfold decode_modrm. rewrite E1, E2, E3, !rex_bit_join by done. rewrite (proj2 (Z.eqb_neq mo 3)), (proj2 (Z.eqb_neq mo 0)), (proj2 (Z.eqb_neq _ 4) Hne) by lia.
    eexists. split; [done|]. cbn. by rewrite Hd.
  - destruct Hi as (Ho & Hsh & Hidx & Hrsp & Hnz). pose proof (land_7_range (reg_code index)). pose proof (reg_code_nonneg index).
    assert (Hl3 : Z.land shift 0x3 = shift) by (change 3 with (Z.ones 2); rewrite Z.land_ones by done; by apply Z.mod_small).
    assert (Hd : exists mo, (mo = 1 \/ mo = 2) /\ Ret (E := E) (mode, m, x, sib, dsize, d) =
      Ret (mo, 4, bit3 (reg_code index), mkSib shift (Z.land (reg_code index) 7) (Z.land i.(x_second) 7), if mo =? 1 then S8 else S32, offset) /\
      signed_field (if mo =? 1 then S8 else S32) offset = offset).
    { rewrite Hl3 in Ha. destruct (fits_i8 offset) eqn:Hfit; [exists 1|exists 2]; (split; [auto|]); (split; [by rewrite <-Ha|]).
      - apply (swrap_small 8); [done|]. unfold fits_i8 in Hfit. unfold in_s. lia.
      - by apply (swrap_small 32). }
    destruct Hd as (mo & Hmo & [= -> -> -> -> -> ->] & Hd). cbn [sib_scale sib_index sib_base].
    set (s := three_fields shift _ _). destruct (three_fields_spec shift (Z.land (reg_code index) 7) (Z.land i.(x_second) 7)) as (S1 & S2 & S3); [lia..|]. fold s in S1, S2, S3.
    destruct (Z.eqb_spec s 0) as [Hz|_]; [apply three_fields_zero in Hz; lia|]. cbn [app].
    destruct (three_fields_spec mo (Z.land i.(x_first) 7) 4) as (E1 & E2 & E3); [lia|lia|lia|].
    unfold decode_modrm. rewrite E1, E2, E3, S1, S2, S3, !rex_bit_join by done. rewrite (proj2 (Z.eqb_neq mo 3)), (proj2 (Z.eqb_neq mo 0)) by lia.
    change (4 =? 4) with true. cbv iota. destruct (Z.eqb_spec (reg_code index) 4) as [->%reg_code_four|_].
    + rewrite Hrsp by done. eexists. split; [done|]. cbn. by rewrite Hd.
    + eexists. split; [done|]. cbn. by rewrite Hd, reg_of_code.
  - injection Ha as <- <- <- <- <- <-. cbn [sib_scale sib_index sib_base]. change (three_fields 0 0 0) with 0. cbn [Z.eqb app].
    destruct (three_fields_spec 3 (Z.land i.(x_first) 7) (Z.land i.(x_second) 7)) as (E1 & E2 & E3); [lia..|].
    unfold decode_modrm. rewrite E1, E2, E3, !rex_bit_join by done. by eexists.
Qed.

(** ** Instructions *)

Lemma x86_bytes_parts {E} (i : X86Instruction) (mode m : Z) (x : bool) (sib : X86Sib) (dsize : OperandSize) (d : Z) :
  i.(x_size) <> S0 -> (i.(x_escape) = 0 \/ i.(x_escape) = 1) -> addressing (E := E) i = Ret (mode, m, x, sib, dsize, d) ->
  x86_bytes (E := E) i = Ret ((if bool_decide (i.(x_size) = S16) then [0x66] else []) ++
    (let n := rex_nibble (bool_decide (i.(x_size) = S64)) (bit3 i.(x_first)) x (bit3 i.(x_second)) in if n =? 0 then [] else [Z.lor 0x40 n]) ++
    (if i.(x_escape) =? 1 then [0x0f] else []) ++ i.(x_opcode) ::
    (if i.(x_modrm) then modrm_bytes i mode m sib ++ variable_length dsize d else []) ++ variable_length i.(x_imm_size) i.(x_imm)).
Proof.
  intros Hs He Ha. unfold x86_bytes. rewrite bool_decide_false by done. rewrite Ha. cbn [exec_bind]. do 2 f_equal.
  cbn [rex_w rex_r rex_x rex_b mr_mode mr_r mr_m]. unfold rex_nibble. f_equal. destruct He as [-> | ->]; cbn [Z.eqb app Pos.eqb]; do 2 f_equal;
    unfold modrm_bytes; destruct i.(x_modrm); try done; cbn [app]; by rewrite <-app_assoc.
Qed.

Lemma addressing_ok {E} (i : X86Instruction) : indirect_ok i.(x_second) i.(x_indirect) ->
  exists mode m x sib dsize d, addressing (E := E) i = Ret (mode, m, x, sib, dsize, d) /\ (i.(x_modrm) = false -> x = false).
Proof.
  intros Hi. unfold addressing. destruct i.(x_modrm); [|by eexists _, _, _, _, _, _].
  destruct i.(x_indirect) as [[offset|offset index shift]|]; cbn [indirect_ok] in Hi.
  - rewrite (proj2 (Z.eqb_neq _ 4) (proj1 Hi)). destruct (fits_i8 offset || _); by eexists _, _, _, _, _, _.
  - destruct (fits_i8 offset); by eexists _, _, _, _, _, _.
  - by eexists _, _, _, _, _, _.
Qed.

Lemma addressing_index {E} (i : X86Instruction) (mode m : Z) (x : bool) (sib : X86Sib) (dsize : OperandSize) (d : Z) :
  addressing (E := E) i = Ret (mode, m, x, sib, dsize, d) -> x = i.(x_modrm) && index_bit i.(x_indirect).
Proof.
  unfold addressing. destruct i.(x_modrm); [|by intros [=]]. destruct i.(x_indirect) as [[offset|offset index shift]|]; cbn [index_bit].
  - destruct (_ =? 4); [done|]. by destruct (_ || _); intros [=].
  - by destruct (fits_i8 offset); intros [=].
  - by intros [=].
Qed.

Lemma rex_nibble_zero (w r x b : bool) : (rex_nibble w r x b =? 0) = negb (w || r || b || x).
Proof. by destruct w, r, x, b. Qed.

Lemma rex_or_low (no_rex high : bool) : (high = true -> negb no_rex = true) -> negb (negb no_rex) && high = false.
Proof. destruct no_rex, high; intuition done. Qed.

Lemma decode_x86_bytes {E} (i : X86Instruction) (rest : list Z) : x86_wf i ->
  exists bs, x86_bytes (E := E) i = Ret bs /\ decode_x86 (bs ++ rest) = Some (canonical_x86 i, rest).
Proof.
  intros (f & Hf & Hm & Hs & Hb & H1 & H2 & Hi & Hind & Hhigh & Hplain). destruct (addressing_ok (E := E) i Hind) as (mode & m & x & sib & dsize & d & Ha & Hx).
  destruct (opcode_form_spec _ _ _ Hf) as (He & Ho & Hreg). assert (He' : i.(x_escape) = 0 \/ i.(x_escape) = 1) by intuition.
  eexists. split; [by apply x86_bytes_parts|]. set (w := bool_decide (i.(x_size) = S64)). cbv zeta.
  destruct (rex_nibble_spec w (bit3 i.(x_first)) x (bit3 i.(x_second))) as (N3 & N2 & N1 & N0). cbv zeta in *.
  set (n := rex_nibble w _ _ _) in *.
  set (tail := (if i.(x_modrm) then modrm_bytes i mode m sib ++ variable_length dsize d else []) ++ variable_length i.(x_imm_size) i.(x_imm) ++ rest).
  assert (Htail : exists b t, (if i.(x_escape) =? 1 then [0x0f] else []) ++ (i.(x_opcode) :: tail) = b :: t /\ b <> 0x66 /\ Z.shiftr b 4 <> 4 /\
    decode_opcode (b :: t) = Some (i.(x_escape), i.(x_opcode), tail)).
  { destruct He as [(-> & Hn1 & Hn2 & Hn3)| ->]; cbn [Z.eqb app Pos.eqb]; eexists _, _; (split; [done|]); [|done].
    split; [done|]. split; [done|]. cbn. by rewrite (proj2 (Z.eqb_neq _ _) Hn2). }
  destruct Htail as (b & t & Hbt & Hb66 & Hb4 & Hop).
  rewrite <-!app_assoc. change ((?o :: ?l) ++ rest) with (o :: l ++ rest). rewrite <-!app_assoc. fold tail. rewrite Hbt.
  assert (Hrex : exists b' t', (if n =? 0 then [] else [Z.lor 64 n]) ++ b :: t = b' :: t' /\ b' <> 0x66).
  { destruct (n =? 0); cbn [app]; eexists _, _; (split; [done|]); [done|]. unfold n. by destruct w, (bit3 _), x, (bit3 _). }
  destruct Hrex as (b' & t' & Hbt' & Hb'). unfold decode_x86. rewrite Hbt', decode_operand_size_spec, <-Hbt' by done.
  pose proof (decode_rex_spec w (bit3 i.(x_first)) x (bit3 i.(x_second)) b t Hb4) as Hdr. cbv zeta in Hdr. fold n in Hdr. rewrite Hdr, Hop.
  assert (Hrex' : negb (negb (n =? 0)) && high_bytes f i.(x_first) i.(x_second) (no_memory i.(x_indirect)) = false).
  { apply rex_or_low. intros H%Hhigh. unfold n. rewrite rex_nibble_zero, (addressing_index i _ _ _ _ _ _ Ha), <-H. unfold needs_rex. fold w.
    destruct i.(x_modrm) eqn:Hmm; [cbn [andb]; apply negb_involutive|]. destruct (Hplain (eq_sym Hm)) as [Hn _]. rewrite Hn. apply negb_involutive. }
  cbn [mbind option_bind]. rewrite Hf. cbn [mbind option_bind]. rewrite N3.
  replace (if fm_byte f then S8 else if w then S64 else if bool_decide (x_size i = S16) then S16 else S32) with i.(x_size)
    by (unfold w; destruct i.(x_size), f.(fm_byte); try reflexivity; exfalso; intuition congruence).
  rewrite <-Hm in *. unfold tail. destruct i.(x_modrm) eqn:Hmm.
  - destruct (decode_modrm_spec i n mode m x sib dsize d (variable_length dsize d ++ variable_length i.(x_imm_size) i.(x_imm) ++ rest) Hmm Ha Hind H1 H2 N2 N1 N0)
      as (access & Hd & Hacc). rewrite <-!app_assoc, Hd. cbn [mbind option_bind].
    replace (no_memory access) with (no_memory i.(x_indirect)) by (rewrite <-Hacc; by destruct access). rewrite Hrex'. rewrite decode_field_spec. cbn [mbind option_bind].
    rewrite <-Hi, decode_field_spec. cbn [mbind option_bind]. rewrite Hacc. unfold canonical_x86. by rewrite Hmm.
  - destruct (Hplain eq_refl) as (Hn & Hf0 & Hr). unfold addressing in Ha. rewrite Hmm in Ha. injection Ha as <- <- <- <- <- <-.
    cbn [app]. assert (Hreg' : (if fm_reg f then Some (0, rex_bit n 0 (Z.land i.(x_opcode) 7), None (A := Z -> X86IndirectAccess), S0, variable_length i.(x_imm_size) i.(x_imm) ++ rest)
      else if Z.testbit n 0 then None else Some (0, 0, None, S0, variable_length i.(x_imm_size) i.(x_imm) ++ rest)) =
      Some (i.(x_first), i.(x_second), None, S0, variable_length i.(x_imm_size) i.(x_imm) ++ rest)).
    { rewrite N0. destruct f.(fm_reg); [by rewrite <-Hr, rex_bit_join, Hf0|]. by rewrite Hr, Hf0. }
    rewrite Hreg'. cbn [mbind option_bind]. rewrite Hn in Hrex'. cbn [no_memory] in *. rewrite Hrex'.
    change (decode_field S0 ?l) with (Some (0, l)). cbn [mbind option_bind]. rewrite <-Hi, decode_field_spec. cbn [mbind option_bind].
    unfold canonical_x86. by rewrite Hmm, Hn.
Qed.

(** ** Constructors *)

Definition general (r : X86Register) : Prop := reg_code r < 16.

(** Byte registers that have a name: not those with the codes 4 to 7, unless REX is there for another
    operand. *)
Definition byte_operands (size : OperandSize) (first8 : bool) (first second : Z) (indirect : option X86IndirectAccess) : Prop :=
  size = S8 -> (first8 && high_code first) || (no_memory indirect && high_code second) = true -> needs_rex S8 first second indirect = true.

(** The calls of constructors: general registers, memory operands that have an encoding, and the
    opcodes that the compiler passes. *)
Inductive built {E} : Exec E X86Instruction -> Prop :=
  | built_alu size opcode s d indirect : opcode ∈ [0x01; 0x09; 0x21; 0x29; 0x2b; 0x31; 0x63] ->
      general s -> general d -> indirect_ok (reg_code d) indirect -> built (alu size opcode s d indirect)
  | built_imul size s d indirect : general s -> general d -> indirect_ok (reg_code d) indirect -> built (alu_escaped size 1 0xaf s d indirect)
  | built_alu_immediate size opcode ext d immediate indirect : opcode ∈ [0x81; 0xc1; 0xd3; 0xf7] ->
      0 <= ext < 8 -> general d -> indirect_ok (reg_code d) indirect -> built (alu_immediate size opcode ext d immediate indirect)
  | built_mov size s d : general s -> general d -> built (mov size s d)
  | built_mov_with_sign_extension size s d : general s -> general d -> built (mov_with_sign_extension size s d)
  | built_mov_mmx size s d : built (mov_mmx size s d)
  | built_cmov size condition s d : 0x40 <= condition < 0x50 -> general s -> general d -> built (cmov size condition s d)
  | built_xchg size s d indirect : general s -> general d -> indirect_ok (reg_code d) indirect -> built (xchg size s d indirect)
  | built_bswap size d : general d -> built (bswap size d)
  | built_test size s d indirect : general s -> general d -> byte_operands size true (reg_code s) (reg_code d) indirect -> indirect_ok (reg_code d) indirect -> built (test size s d indirect)
  | built_test_immediate size d immediate indirect : general d -> byte_operands size false 0 (reg_code d) indirect -> indirect_ok (reg_code d) indirect -> built (test_immediate size d immediate indirect)
  | built_cmp size s d indirect : general s -> general d -> byte_operands size true (reg_code s) (reg_code d) indirect -> indirect_ok (reg_code d) indirect -> built (cmp size s d indirect)
  | built_cmp_immediate size d immediate indirect : general d -> byte_operands size false 7 (reg_code d) indirect -> indirect_ok (reg_code d) indirect -> built (cmp_immediate size d immediate indirect)
  | built_lea size s d indirect : general s -> general d -> indirect_ok (reg_code s) indirect -> built (lea size s d indirect)
  | built_sign_extend_rax_rdx size : built (sign_extend_rax_rdx size)
  | built_load size s d indirect : general s -> general d -> indirect_ok (reg_code s) (Some indirect) -> built (load size s d indirect)
  | built_store size s d indirect : general s -> general d -> byte_operands size true (reg_code s) (reg_code d) (Some indirect) -> indirect_ok (reg_code d) (Some indirect) -> built (store size s d indirect)
  | built_load_immediate d immediate : general d -> built (load_immediate d immediate)
  | built_store_immediate size d indirect immediate : general d -> indirect_ok (reg_code d) (Some indirect) -> built (store_immediate size d indirect immediate)
  | built_push_immediate size immediate : built (push_immediate size immediate)
  | built_push s indirect : general s -> indirect_ok (reg_code s) indirect -> built (push s indirect)
  | built_pop d : general d -> built (pop d)
  | built_conditional_jump opcode z : 0x80 <= opcode < 0x90 -> built (conditional_jump_immediate opcode z)
  | built_jump z : built (jump_immediate z)
  | built_jump_reg d indirect : general d -> indirect_ok (reg_code d) indirect -> built (jump_reg d indirect)
  | built_call z : built (call_immediate z)
  | built_call_reg d indirect : general d -> indirect_ok (reg_code d) indirect -> built (call_reg d indirect)
  | built_return : built return_near
  | built_noop : built noop
  | built_interrupt immediate : built (interrupt immediate)
  | built_cycle_count : built cycle_count
  | built_fence fence_type : built (fence fence_type).

(** An instruction with a ModRM byte. *)
Lemma x86_wf_modrm (i : X86Instruction) (f : Form) : opcode_form i.(x_escape) i.(x_opcode) = Some f -> f.(fm_modrm) = true ->
  i.(x_modrm) = true -> i.(x_size) <> S0 -> (i.(x_size) = S8 <-> f.(fm_byte) = true) -> 0 <= i.(x_first) < 16 -> 0 <= i.(x_second) < 16 ->
  i.(x_imm_size) = imm_size_of f i.(x_size) i.(x_first) -> indirect_ok i.(x_second) i.(x_indirect) ->
  (high_bytes f i.(x_first) i.(x_second) (no_memory i.(x_indirect)) = true -> needs_rex i.(x_size) i.(x_first) i.(x_second) i.(x_indirect) = true) -> x86_wf i.
Proof. intros Hf Hm Hi. intros. exists f. rewrite Hm, Hi. intuition done. Qed.

Lemma general_range (r : X86Register) : general r -> 0 <= reg_code r < 16.
Proof. pose proof (reg_code_nonneg r). unfold general. lia. Qed.

#[export] Instance Form_eq_dec : EqDecision Form.
Proof. assert (EqDecision ImmKind) by solve_decision. solve_decision. Defined.

Lemma finite_form (escape lo n : Z) (f : Form) : forallb (fun k => bool_decide (opcode_form escape (lo + k) = Some f)) (seqZ 0 n) = true ->
  forall o, lo <= o < lo + n -> opcode_form escape o = Some f.
Proof.
  intros Hall o Ho. pose proof (finite_Z _ n Hall (o - lo) ltac:(lia)) as H. cbv beta in H. replace (lo + (o - lo)) with o in H by lia.
  by apply bool_decide_eq_true in H.
Qed.

Lemma land_15_range (n : Z) : 0 <= Z.land n 15 < 16.
Proof. change 15 with (Z.ones 4). rewrite Z.land_ones by done. apply Z.mod_pos_bound. done. Qed.

(** Side conditions of [x86_wf_modrm]. *)
Ltac byte_side := match goal with
  | H : byte_operands _ _ _ _ _ |- _ => exact (H eq_refl)
  | |- _ => cbn; discriminate
  end.
Ltac modrm_side := cbn [x_escape x_opcode x_modrm x_size x_first x_second x_imm_size x_indirect fm_modrm fm_byte];
  first [reflexivity | assumption | exact I | discriminate | by apply general_range | by apply land_15_range | lia | by split | byte_side | idtac].
Ltac modrm_ok := (eapply x86_wf_modrm; [cbn [x_escape x_opcode]; vm_compute; reflexivity|modrm_side..]).

(** Side conditions of an instruction without operands, or with one in its opcode. *)
Ltac plain_ok := (eexists; cbn; split; [reflexivity|]; cbn; intuition (discriminate || lia || done)).

Lemma x86_built_ok {E} (e : Exec E X86Instruction) (i : X86Instruction) : built e -> e = Ret i -> x86_wf i.
Proof.
  intros Hb. destruct Hb as [size opcode s d ind Ho Hs Hd Hi|size s d ind Hs Hd Hi|size opcode ext d imm ind Ho Hx Hd Hi|size s d Hs Hd|size s d Hs Hd|size s d
    |size cond s d Hc Hs Hd|size s d ind Hs Hd Hi|size d Hd|size s d ind Hs Hd Hy Hi|size d imm ind Hd Hy Hi|size s d ind Hs Hd Hy Hi|size d imm ind Hd Hy Hi|size s d ind Hs Hd Hi
    |size|size s d ind Hs Hd Hi|size s d ind Hs Hd Hy Hi|d imm Hd|size d ind imm Hd Hi|size imm|s ind Hs Hi|d Hd|opcode z Ho|z|d ind Hd Hi|z|d ind Hd Hi| | |imm| |ft].
  all: unfold alu, alu_escaped, alu_immediate, alu_immediate_escaped, mov, mov_with_sign_extension, mov_mmx, cmov, xchg, bswap, test, test_immediate, cmp, cmp_immediate, lea,
    sign_extend_rax_rdx, load, store, load_immediate, store_immediate, push_immediate, push, pop, conditional_jump_immediate, jump_immediate, jump_reg, call_immediate, call_reg,
    return_near, noop, interrupt, cycle_count, fence, exclude_operand_sizes.
  - destruct size; try done; intros [= <-]; repeat (apply elem_of_cons in Ho as [-> | Ho]; [modrm_ok|]); by apply not_elem_of_nil in Ho.
  - destruct size; try done; intros [= <-]; modrm_ok.
  - assert (Hext : ext = 0 \/ ext = 1 \/ ext = 2 \/ ext = 3 \/ ext = 4 \/ ext = 5 \/ ext = 6 \/ ext = 7) by lia. clear Hx.
    destruct size; try done; intros [= <-]; repeat (apply elem_of_cons in Ho as [-> | Ho]; [destruct_or! Hext; subst ext; modrm_ok|]); by apply not_elem_of_nil in Ho.
  - destruct size; try done; intros [= <-]; modrm_ok.
  - destruct size; try done; intros [= <-]; modrm_ok.
  - destruct size; try done. cbn [existsb]. destruct (negb (Z.land (reg_code d) 16 =? 0)), (negb (Z.land (reg_code s) 16 =? 0)); intros [= <-]; modrm_ok.
  - pose proof (finite_form 1 0x40 16 (mkForm true false false NoImm false false) ltac:(vm_compute; reflexivity) cond ltac:(lia)) as Hf.
    destruct size; try done; intros [= <-]; (eapply x86_wf_modrm; [exact Hf|modrm_side..]).
  - destruct size; try done; intros [= <-]; modrm_ok.
  - destruct size; try done; intros [= <-]; [modrm_ok|destruct d; try done; plain_ok..].
  - destruct size; try done; intros [= <-]; modrm_ok.
  - destruct size; try done; intros [= <-]; modrm_ok.
  - destruct size; try done; intros [= <-]; modrm_ok.
  - destruct size; try done; intros [= <-]; modrm_ok.
  - destruct size; try done; intros [= <-]; modrm_ok.
  - destruct size; try done; intros [= <-]; plain_ok.
  - destruct size; try done; intros [= <-]; modrm_ok.
  - destruct size; try done; intros [= <-]; modrm_ok.
  - destruct (imm >=? 0), (imm <=? 2 ^ 32 - 1), (imm >=? i32_min); intros [= <-]; first [modrm_ok|destruct d; try done; plain_ok].
  - destruct size; try done; intros [= <-]; modrm_ok.
  - destruct size; try done; intros [= <-]; plain_ok.
  - destruct ind; intros [= <-]; [modrm_ok|destruct s; try done; plain_ok].
  - intros [= <-]. destruct d; try done; plain_ok.
  - intros [= <-]. pose proof (finite_form 1 0x80 16 (mkForm false false false ImmWord false false) ltac:(vm_compute; reflexivity) opcode ltac:(lia)) as Hf.
    eexists. split; [exact Hf|]. cbn. intuition (discriminate || lia || done).
  - intros [= <-]. plain_ok.
  - intros [= <-]. modrm_ok.
  - intros [= <-]. plain_ok.
  - intros [= <-]. modrm_ok.
  - intros [= <-]. plain_ok.
  - intros [= <-]. plain_ok.
  - destruct (imm =? 3); intros [= <-]; plain_ok.
  - intros [= <-]. plain_ok.
  - intros [= <-]. destruct ft; modrm_ok.
Qed.

(** Where the SIB byte is zero it is left out, and what follows is taken for it. *)
Example sib_left_out : exists bs, x86_bytes (E := EbpfError) (mkX86 S64 0 0x8b true (Some (OffsetIndexShift 16 RAX 0)) 2 0 S0 0) = Ret bs /\
  decode_x86 (bs ++ [0x90]) = Some (mkX86 S64 0 0x8b true (Some (OffsetIndexShift (-112) RDX 0)) 2 0 S0 0, []).
Proof. eexists. split; vm_compute; reflexivity. Qed.
