(* ===== verification/X86Assembly.v ===== *)
(** The x86 instructions that src/x86.rs emits, as assembly: the instruction that decoded bytes are
    by the opcode tables of the architecture, and the instruction that the name and arguments of
    each constructor stand for. *)
From S2P Require Import Prelude Error Ebpf X86 X86Decode.
Open Scope rust_scope.
Open Scope list_scope.

(** * Assembly *)

(** A register, or memory at [base + index * 2 ^ shift + offset]. *)
Inductive place := InReg (code : Z) | InMemory (base : Z) (index : option (Z * Z)) (offset : Z).

Inductive binary := Add | Or | Adc | Sbb | And | Sub | Xor | Cmp | Test.
Inductive shift := Rol | Ror | Rcl | Rcr | Shl | Shr | Sar.
Inductive unary := Not | Neg | Mul | Imul | Div | Idiv.

(** Operands in the order of the architecture: the destination first. *)
Inductive XAsm :=
  | XBinary (op : binary) (size : OperandSize) (d : place) (s : Z)
  | XBinaryFrom (op : binary) (size : OperandSize) (d : Z) (s : place)
  | XBinaryImm (op : binary) (size : OperandSize) (d : place) (imm : Z)
  | XShiftImm (op : shift) (size : OperandSize) (d : place) (count : Z)
  | XShiftCl (op : shift) (size : OperandSize) (d : place)
  | XUnary (op : unary) (size : OperandSize) (d : place)
  | XMultiply (size : OperandSize) (d : Z) (s : place)
  | XMove (size : OperandSize) (d : place) (s : Z)
  | XLoad (size : OperandSize) (d : Z) (s : place)
  | XZeroExtend (from : OperandSize) (d : Z) (s : place)
  | XSignExtend32 (size : OperandSize) (d : Z) (s : place)
  | XConstant (d value : Z)                (** the whole register *)
  | XMoveImm (size : OperandSize) (d : place) (imm : Z)
  | XToMmx (d : Z) (s : place)
  | XFromMmx (d : place) (s : Z)
  | XMmx (d s : Z)
  | XMoveIf (condition : Z) (size : OperandSize) (d : Z) (s : place)
  | XExchange (size : OperandSize) (d : place) (s : Z)
  | XSwapBytes (size : OperandSize) (d : Z)
  | XAddress (size : OperandSize) (d : Z) (s : place)
  | XSignExtendRax (size : OperandSize)
  | XPush (s : place)
  | XPushImm (imm : Z)
  | XPop (d : Z)
  | XJumpIf (condition offset : Z)
  | XJump (offset : Z)
  | XJumpTo (target : place)
  | XCall (offset : Z)
  | XCallTo (target : place)
  | XReturn
  | XNoop
  | XInterrupt (n : Z)
  | XTimestamp
  | XFence (kind : FenceType).

(** ** Opcodes *)

(** Index 4 says that there is no index. *)
Definition place_of (second : Z) (indirect : option X86IndirectAccess) : place :=
  match indirect with
  | None => InReg second
  | Some (Offset offset) => InMemory second None offset
  | Some (OffsetIndexShift offset index shift) =>
      InMemory second (if reg_code index =? 4 then None else Some (reg_code index, shift)) offset
  end.

Definition size_width (size : OperandSize) : Z := 8 * Z.of_nat (field_bytes size).

Definition binary_opcode (o : Z) : option binary :=
  if o =? 0x01 then Some Add else if o =? 0x09 then Some Or else if o =? 0x21 then Some And
  else if o =? 0x29 then Some Sub else if o =? 0x31 then Some Xor
  else if (o =? 0x38) || (o =? 0x39) then Some Cmp else if (o =? 0x84) || (o =? 0x85) then Some Test
  else None.
(** The extensions of opcodes 80 and 81, of c1 and d3, and of f6 and f7. *)
Definition binary_ext (ext : Z) : option binary := [Add; Or; Adc; Sbb; And; Sub; Xor; Cmp] !! Z.to_nat ext.
Definition shift_ext (ext : Z) : option shift := [Rol; Ror; Rcl; Rcr; Shl; Shr; Shl; Sar] !! Z.to_nat ext.
Definition unary_ext (ext : Z) : option unary :=
  if ext =? 2 then Some Not else if ext =? 3 then Some Neg else if ext =? 4 then Some Mul else if ext =? 5 then Some Imul
  else if ext =? 6 then Some Div else if ext =? 7 then Some Idiv else None.

Definition asm_constant (size : OperandSize) (d : place) (imm : Z) : XAsm :=
  match d, size with
  | InReg r, (S32 | S64) => XConstant r (uwrap (size_width size) imm)
  | _, _ => XMoveImm size d imm
  end.

Definition asm_plain (i : X86Instruction) : option XAsm :=
  let o := i.(x_opcode) in
  let size := i.(x_size) in
  let first := i.(x_first) in
  let second := place_of i.(x_second) i.(x_indirect) in
  let imm := i.(x_imm) in
  match binary_opcode o with
  | Some op => Some (XBinary op size second first)
  | None =>
      if o =? 0x2b then Some (XBinaryFrom Sub size first second)
      else if o =? 0x63 then Some (XSignExtend32 size first second)
      else if (o =? 0x80) || (o =? 0x81) then (fun op => XBinaryImm op size second imm) <$> binary_ext first
      else if o =? 0x87 then Some (XExchange size second first)
      else if (o =? 0x88) || (o =? 0x89) then Some (XMove size second first)
      else if o =? 0x8b then Some (XLoad size first second)
      else if o =? 0x8d then match second with InMemory _ _ _ => Some (XAddress size first second) | InReg _ => None end
      else if o =? 0xc1 then (fun op => XShiftImm op size second (uwrap 8 imm)) <$> shift_ext first
      else if o =? 0xd3 then (fun op => XShiftCl op size second) <$> shift_ext first
      else if (o =? 0xc6) || (o =? 0xc7) then if first =? 0 then Some (asm_constant size second imm) else None
      else if (o =? 0xf6) || (o =? 0xf7) then
        if first =? 0 then Some (XBinaryImm Test size second imm) else (fun op => XUnary op size second) <$> unary_ext first
      else if o =? 0xff then
        if first =? 2 then Some (XCallTo second) else if first =? 4 then Some (XJumpTo second)
        else if first =? 6 then Some (XPush second) else None
      else if Z.shiftr o 3 =? 0xa then Some (XPush second)
      else if Z.shiftr o 3 =? 0xb then Some (XPop i.(x_second))
      else if Z.shiftr o 3 =? 0x17 then Some (asm_constant size second imm)
      else if o =? 0x90 then Some XNoop
      else if o =? 0x99 then Some (XSignExtendRax size)
      else if o =? 0xc3 then Some XReturn
      else if o =? 0xcc then Some (XInterrupt 3)
      else if o =? 0xcd then Some (XInterrupt (uwrap 8 imm))
      else if (o =? 0x68) || (o =? 0x6a) then Some (XPushImm imm)
      else if o =? 0xe8 then Some (XCall imm)
      else if o =? 0xe9 then Some (XJump imm)
      else None
  end.

Definition asm_escaped (i : X86Instruction) : option XAsm :=
  let o := i.(x_opcode) in
  let first := i.(x_first) in
  let second := place_of i.(x_second) i.(x_indirect) in
  if Z.shiftr o 4 =? 4 then Some (XMoveIf (Z.land o 15) i.(x_size) first second)
  else if Z.shiftr o 4 =? 8 then Some (XJumpIf (Z.land o 15) i.(x_imm))
  else if o =? 0xaf then Some (XMultiply i.(x_size) first second)
  else if o =? 0xb6 then Some (XZeroExtend S8 first second)
  else if o =? 0xb7 then Some (XZeroExtend S16 first second)
  else if o =? 0x6e then Some (XToMmx first second)
  else if o =? 0x7e then Some (XFromMmx second first)
  else if o =? 0x6f then match second with InReg s => Some (XMmx first s) | InMemory _ _ _ => None end
  else if Z.shiftr o 3 =? 0x19 then Some (XSwapBytes i.(x_size) i.(x_second))
  else if o =? 0x31 then Some XTimestamp
  else if (o =? 0xae) && no_memory i.(x_indirect) then
    if first =? 5 then Some (XFence Fence_Load) else if first =? 6 then Some (XFence Fence_All)
    else if first =? 7 then Some (XFence Fence_Store) else None
  else None.

Definition asm_of (i : X86Instruction) : option XAsm :=
  if i.(x_escape) =? 0 then asm_plain i else if i.(x_escape) =? 1 then asm_escaped i else None.

(** The assembly instruction that bytes begin with, and the bytes behind it. *)
Definition disassemble (bs : list Z) : option (XAsm * list Z) :=
  '(i, rest) ← decode_x86 bs; a ← asm_of i; Some (a, rest).

(** * What the constructors stand for *)

Definition mmx (r : X86Register) : bool := 16 <=? reg_code r.
(** The immediate that is left of an argument: of the operand's size, and at most 32 bits. *)
Definition cut (size : OperandSize) (imm : Z) : Z :=
  match size with S8 => swrap 8 imm | S16 => swrap 16 imm | _ => swrap 32 imm end.

Inductive names {E} : Exec E X86Instruction -> XAsm -> Prop :=
  | names_alu size o op s d ind : binary_opcode o = Some op ->
      names (alu size o s d ind) (XBinary op size (place_of (reg_code d) ind) (reg_code s))
  | names_sub_from size s d ind : names (alu size 0x2b s d ind) (XBinaryFrom Sub size (reg_code s) (place_of (reg_code d) ind))
  | names_sign_extend size s d ind : names (alu size 0x63 s d ind) (XSignExtend32 size (reg_code s) (place_of (reg_code d) ind))
  | names_imul size s d ind : names (alu_escaped size 1 0xaf s d ind) (XMultiply size (reg_code s) (place_of (reg_code d) ind))
  | names_alu_immediate size ext op d imm ind : binary_ext ext = Some op ->
      names (alu_immediate size 0x81 ext d imm ind) (XBinaryImm op size (place_of (reg_code d) ind) (swrap 32 imm))
  | names_shift size ext op d imm ind : shift_ext ext = Some op ->
      names (alu_immediate size 0xc1 ext d imm ind) (XShiftImm op size (place_of (reg_code d) ind) (uwrap 8 imm))
  | names_shift_cl size ext op d ind : shift_ext ext = Some op ->
      names (alu_immediate size 0xd3 ext d 0 ind) (XShiftCl op size (place_of (reg_code d) ind))
  | names_unary size ext op d ind : unary_ext ext = Some op ->
      names (alu_immediate size 0xf7 ext d 0 ind) (XUnary op size (place_of (reg_code d) ind))
  | names_mov size s d : names (mov size s d) (XMove size (InReg (reg_code d)) (reg_code s))
  | names_mov_with_sign_extension size s d : names (mov_with_sign_extension size s d) (XSignExtend32 size (reg_code d) (InReg (reg_code s)))
  | names_mmx size s d : mmx s = true -> mmx d = true -> names (mov_mmx size s d) (XMmx (reg_code d - 16) (reg_code s - 16))
  | names_to_mmx size s d : mmx s = false -> mmx d = true -> names (mov_mmx size s d) (XToMmx (reg_code d - 16) (InReg (reg_code s)))
  | names_from_mmx size s d : mmx s = true -> mmx d = false -> names (mov_mmx size s d) (XFromMmx (InReg (reg_code d)) (reg_code s - 16))
  | names_cmov size cc s d : 0 <= cc < 16 -> names (cmov size (0x40 + cc) s d) (XMoveIf cc size (reg_code d) (InReg (reg_code s)))
  | names_xchg size s d ind : names (xchg size s d ind) (XExchange size (place_of (reg_code d) ind) (reg_code s))
  | names_bswap size d : size ≠ S16 -> names (bswap size d) (XSwapBytes size (reg_code d))
  | names_bswap_16 d : names (bswap S16 d) (XShiftImm Rol S16 (InReg (reg_code d)) 8)
  | names_test size s d ind : names (test size s d ind) (XBinary Test size (place_of (reg_code d) ind) (reg_code s))
  | names_test_immediate size d imm ind : names (test_immediate size d imm ind) (XBinaryImm Test size (place_of (reg_code d) ind) (cut size imm))
  | names_cmp size s d ind : names (cmp size s d ind) (XBinary Cmp size (place_of (reg_code d) ind) (reg_code s))
  | names_cmp_immediate size d imm ind : names (cmp_immediate size d imm ind) (XBinaryImm Cmp size (place_of (reg_code d) ind) (cut size imm))
  | names_lea size s d ind : names (lea size s d (Some ind)) (XAddress size (reg_code d) (place_of (reg_code s) (Some ind)))
  | names_sign_extend_rax_rdx size : names (sign_extend_rax_rdx size) (XSignExtendRax size)
  | names_load size s d ind : size = S32 \/ size = S64 -> names (load size s d ind) (XLoad size (reg_code d) (place_of (reg_code s) (Some ind)))
  | names_load_narrow size s d ind : size = S8 \/ size = S16 -> names (load size s d ind) (XZeroExtend size (reg_code d) (place_of (reg_code s) (Some ind)))
  | names_store size s d ind : names (store size s d ind) (XMove size (place_of (reg_code d) (Some ind)) (reg_code s))
  | names_load_immediate d imm : in_s 64 imm -> names (load_immediate d imm) (XConstant (reg_code d) (uwrap 64 imm))
  | names_store_immediate size d ind imm : names (store_immediate size d ind imm) (XMoveImm size (place_of (reg_code d) (Some ind)) (cut size imm))
  | names_push_immediate size imm : names (push_immediate size imm) (XPushImm (cut size imm))
  | names_push s ind : names (push s ind) (XPush (place_of (reg_code s) ind))
  | names_pop d : names (pop d) (XPop (reg_code d))
  | names_conditional_jump cc z : 0 <= cc < 16 -> names (conditional_jump_immediate (0x80 + cc) z) (XJumpIf cc (swrap 32 z))
  | names_jump z : names (jump_immediate z) (XJump (swrap 32 z))
  | names_jump_reg d ind : names (jump_reg d ind) (XJumpTo (place_of (reg_code d) ind))
  | names_call z : names (call_immediate z) (XCall (swrap 32 z))
  | names_call_reg d ind : names (call_reg d ind) (XCallTo (place_of (reg_code d) ind))
  | names_return : names return_near XReturn
  | names_noop : names noop XNoop
  | names_interrupt n : in_u 8 n -> names (interrupt n) (XInterrupt n)
  | names_cycle_count : names cycle_count XTimestamp
  | names_fence kind : names (fence kind) (XFence kind).

(** * Lemmas *)

Lemma mmx_codes (r : X86Register) : Z.land (reg_code r) 16 = (if mmx r then 16 else 0) /\ Z.land (reg_code r) 15 = (if mmx r then reg_code r - 16 else reg_code r).
Proof. by destruct r. Qed.

Lemma condition_digit (cc : Z) : 0 <= cc < 16 ->
  Z.shiftr (0x40 + cc) 4 = 4 /\ Z.shiftr (0x80 + cc) 4 = 8 /\ Z.land (0x40 + cc) 15 = cc /\ Z.land (0x80 + cc) 15 = cc.
Proof.
  intros Hcc. pose proof (finite_Z (fun cc => (Z.shiftr (0x40 + cc) 4 =? 4) && (Z.shiftr (0x80 + cc) 4 =? 8) && (Z.land (0x40 + cc) 15 =? cc) && (Z.land (0x80 + cc) 15 =? cc))
    16 ltac:(vm_compute; reflexivity) cc Hcc) as H. cbv beta in H. lia.
Qed.

Lemma byte_count (z : Z) : uwrap 8 (swrap 8 z) = uwrap 8 z.
Proof. by apply uwrap_swrap. Qed.

Lemma full_constant (size : OperandSize) (d : X86Register) (imm : Z) : size = S32 \/ size = S64 ->
  asm_of (canonical_x86 (mkX86 size 0 (Z.lor 0xb8 (Z.land (reg_code d) 7)) false None 0 (reg_code d) size imm)) =
  Some (XConstant (reg_code d) (uwrap (size_width size) imm)).
Proof.
  intros Hs. rewrite <-(uwrap_swrap (size_width size) imm) by (by destruct Hs as [-> | ->]).
  by destruct Hs as [-> | ->], d.
Qed.

Lemma constant_named {E} (d : X86Register) (imm : Z) (i : X86Instruction) : in_s 64 imm ->
  load_immediate (E := E) d imm = Ret i -> asm_of (canonical_x86 i) = Some (XConstant (reg_code d) (uwrap 64 imm)).
Proof.
  intros Hi. unfold in_s in Hi. unfold load_immediate. destruct (Z.geb_spec imm 0); [destruct (Z.leb_spec imm (2 ^ 32 - 1))|destruct (Z.geb_spec imm i32_min)];
    intros [= <-].
  - rewrite full_constant by auto. change (size_width S32) with 32. rewrite !uwrap_small; [done|unfold in_u; lia..].
  - rewrite full_constant by auto. done.
  - cbn. change (swrap _ imm) with (swrap 32 imm). rewrite (swrap_small 32); [done..|]. unfold in_s, i32_min in *. lia.
  - rewrite full_constant by auto. done.
Qed.

Lemma names_ok {E} (e : Exec E X86Instruction) (i : X86Instruction) (a : XAsm) : names e a -> e = Ret i -> asm_of (canonical_x86 i) = Some a.
Proof.
  destruct 1 as [size o op s d ind Ho|size s d ind|size s d ind|size s d ind|size ext op d imm ind Ho|size ext op d imm ind Ho|size ext op d ind Ho|size ext op d ind Ho
    |size s d|size s d|size s d Hs Hd|size s d Hs Hd|size s d Hs Hd|size cc s d Hc|size s d ind|size d H16|d|size s d ind|size d imm ind|size s d ind|size d imm ind
    |size s d ind|size|size s d ind Hs|size s d ind Hs|size s d ind|d imm Hi|size d ind imm|size imm|s ind|d|cc z Hc|z|d ind|z|d ind| | |n Hu| |kind].
  all: unfold alu, alu_escaped, alu_immediate, alu_immediate_escaped, mov, mov_with_sign_extension, mov_mmx, cmov, xchg, bswap, test, test_immediate, cmp, cmp_immediate, lea,
    sign_extend_rax_rdx, load, store, store_immediate, push_immediate, push, pop, conditional_jump_immediate, jump_immediate, jump_reg, call_immediate, call_reg,
    return_near, noop, interrupt, cycle_count, fence, exclude_operand_sizes.
  all: try by (destruct size; try done; intros [= <-]).
  all: try by intros [= <-].
  - destruct size; try done; intros [= <-]; unfold asm_of, asm_plain; cbn -[place_of binary_opcode]; by rewrite Ho.
  - destruct size; try done; intros [= <-]; unfold asm_of, asm_plain; cbn -[place_of binary_ext]; by rewrite Ho.
  - destruct size; try done; intros [= <-]; unfold asm_of, asm_plain; cbn -[place_of shift_ext uwrap swrap]; rewrite Ho; cbn -[uwrap swrap]; by rewrite byte_count.
  - destruct size; try done; intros [= <-]; unfold asm_of, asm_plain; cbn -[place_of shift_ext]; by rewrite Ho.
  - assert (Hz : (ext =? 0) = false) by (destruct (Z.eqb_spec ext 0) as [->|]; done).
    destruct size; try done; intros [= <-]; unfold asm_of, asm_plain; cbn -[place_of unary_ext]; rewrite Hz; by rewrite Ho.
  - destruct size; try done; intros [= <-]; destruct s, d; done.
  - destruct size; try done; intros [= <-]; destruct s, d; done.
  - destruct size; try done; intros [= <-]; destruct s, d; done.
  - destruct (condition_digit cc Hc) as (H1 & _ & H2 & _). destruct size; try done; intros [= <-]; unfold asm_of, asm_escaped; cbn -[Z.add Z.shiftr Z.land]; by rewrite H1, H2.
  - destruct size; try done; intros [= <-]; by destruct d.
  - destruct size; try done; intros [= <-]; by destruct ind.
  - destruct size; try done; intros [= <-]; by destruct Hs.
  - destruct size; try done; intros [= <-]; by destruct Hs.
  - by apply constant_named.
  - destruct size; try done; intros [= <-]; by destruct ind.
  - destruct ind; intros [= <-]; [done|by destruct s].
  - intros [= <-]. by destruct d.
  - destruct (condition_digit cc Hc) as (_ & H1 & _ & H2). intros [= <-]. unfold asm_of, asm_escaped. cbn -[Z.add Z.shiftr Z.land swrap]. by rewrite H1, H2.
  - destruct (Z.eqb_spec n 3) as [->|]; intros [= <-]; [done|]. unfold asm_of, asm_plain. cbn -[uwrap swrap]. rewrite byte_count. by rewrite (uwrap_small 8 n).
  - intros [= <-]. by destruct kind.
Qed.

(** * Properties *)

(** C36: Machine code reads back.  Every call of a constructor of the x86 emitter, with general
    registers (or MMX registers where the constructor moves those), an opcode or opcode extension
    that the compiler passes, a memory operand that has an encoding, byte operands that have a name
    (the codes 4 to 7 need REX), and any immediate, where the constructor's assertions hold, builds
    an instruction that is emitted as bytes which, whatever follows them, disassemble to the
    instruction that the constructor's name and arguments stand for, and nothing more.  A memory
    operand has an encoding when its offset is of 32 bits and it is a base other than RSP and R12
    with an offset; or a base, an offset and an index that is not RSP, shifted by at most 3, unless
    the shift is 0, the index is RAX or R8 and the base is RAX or R8; or a base and an offset with
    the index RSP and no shift, which is how the compiler writes its stack operands, and which is
    that base and offset without an index. *)
Theorem x86_encoding {E} (e : Exec E X86Instruction) (i : X86Instruction) (a : XAsm) (rest : list Z) : built e -> names e a -> e = Ret i ->
  exists bs, x86_bytes (E := E) i = Ret bs /\ disassemble (bs ++ rest) = Some (a, rest).
Proof.
  intros Hb Hn He. destruct (decode_x86_bytes (E := E) i rest (x86_built_ok e i Hb He)) as (bs & Hbs & Hd). exists bs. split; [done|].
  unfold disassemble. rewrite Hd. cbn [mbind option_bind]. by rewrite (names_ok e i a Hn He).
Qed.

(** [sub r12, [rsp - 8]], an operand of the stack as in the call by register. *)
Lemma x86_encoding_witness : disassemble [0x4c; 0x2b; 0x64; 0x24; 0xf8; 0x90] = Some (XBinaryFrom Sub S64 12 (InMemory 4 None (-8)), [0x90]).
Proof.
  destruct (x86_encoding (E := EbpfError) (alu S64 0x2b R12 RSP (Some (OffsetIndexShift (-8) RSP 0)))
    (mkX86 S64 0 0x2b true (Some (OffsetIndexShift (-8) RSP 0)) 12 4 S0 0) (XBinaryFrom Sub S64 12 (InMemory 4 None (-8))) [0x90]) as (bs & Hbs & Hd).
  - apply built_alu; [apply (bool_decide_unpack _); reflexivity|by vm_compute|by vm_compute|]. cbn. unfold in_s. split_and!; (lia || done || (right; left; done)).
  - apply (names_sub_from S64 R12 RSP (Some (OffsetIndexShift (-8) RSP 0))).
  - reflexivity.
  - vm_compute in Hbs. injection Hbs as <-. exact Hd.
Defined.

(** The exchange that stores without address translation are compiled to takes RSP for its first
    operand and RAX for the base of the second, [xchg [rax - 96], rsp]. *)
Example untranslated_store_exchange : exists i bs, xchg (E := EbpfError) S64 RSP RAX (Some (OffsetIndexShift (-96) RSP 0)) = Ret i /\
  x86_bytes (E := EbpfError) i = Ret bs /\ disassemble bs = Some (XExchange S64 (InMemory 0 None (-96)) 4, []).
Proof. eexists _, _. split; [reflexivity|]. split; vm_compute; reflexivity. Qed.
