(* ===== verification/X86Semantics.v ===== *)
(** What x86 instructions do: general registers, memory and the flags of comparisons.  The subset is
    that of the code for guest arithmetic and for guest comparisons; code is run from its bytes, decoded
    one instruction after the other. *)
From S2P Require Import Prelude Error Ebpf X86 X86Decode.
Open Scope rust_scope.
Open Scope list_scope.

(** * Machines *)

(** Carry, zero, sign and overflow. *)
Record Flags := mkFlags { fl_cf : bool; fl_zf : bool; fl_sf : bool; fl_of : bool }.

(** Registers by their code, memory by byte; the flags are only known behind a comparison. *)
Record Machine := mkMachine { gpr : Z -> Z; memory : Z -> Z; flags : option Flags }.

Definition upd (f : Z -> Z) (k v : Z) : Z -> Z := fun x => if x =? k then v else f x.
Definition size_bits (size : OperandSize) : Z := 8 * Z.of_nat (field_bytes size).

Definition read_reg (m : Machine) (size : OperandSize) (code : Z) : Z := uwrap (size_bits size) (m.(gpr) code).

(** A result of 32 bits clears the upper half of the register; one of 16 bits keeps the rest. *)
Definition written (size : OperandSize) (old v : Z) : Z :=
  match size with
  | S16 => Z.lor (Z.ldiff old (2 ^ 16 - 1)) (uwrap 16 v)
  | _ => uwrap (size_bits size) v
  end.
Definition write_reg (m : Machine) (size : OperandSize) (code v : Z) : Machine :=
  mkMachine (upd m.(gpr) code (written size (m.(gpr) code) v)) m.(memory) None.

(** Eight bytes of memory. *)
Definition read_word (mem : Z -> Z) (a : Z) : Z := le_value ((fun k => mem (as_u64 (a + k))) <$> seqZ 0 8).
Definition write_word (mem : Z -> Z) (a v : Z) : Z -> Z := fun x =>
  let k := as_u64 (x - a) in if k <? 8 then default 0 (le_bytes 8 v !! Z.to_nat k) else mem x.

(** * Operations *)

Definition binary_op (opcode : Z) : option (Z -> Z -> Z) :=
  if opcode =? 0x01 then Some Z.add else if opcode =? 0x09 then Some Z.lor else if opcode =? 0x21 then Some Z.land
  else if opcode =? 0x29 then Some Z.sub else if opcode =? 0x31 then Some Z.lxor else None.

(** The operation that the extension of opcode 81 selects. *)
Definition extended_op (ext : Z) : option (Z -> Z -> Z) :=
  if ext =? 0 then Some Z.add else if ext =? 1 then Some Z.lor else if ext =? 4 then Some Z.land
  else if ext =? 5 then Some Z.sub else if ext =? 6 then Some Z.lxor else None.

(** Shifts and rotations, by the extension of opcodes c1 and d3; the count is taken modulo 64 or 32. *)
Definition shift_count (size : OperandSize) (count : Z) : Z := count mod (match size with S64 => 64 | _ => 32 end).
Definition shift_op (size : OperandSize) (ext v count : Z) : option Z :=
  let w := size_bits size in
  let c := shift_count size count in
  if ext =? 0 then Some (Z.lor (Z.shiftl v (c mod w)) (Z.shiftr v (w - c mod w)))
  else if ext =? 1 then Some (Z.lor (Z.shiftr v (c mod w)) (Z.shiftl v (w - c mod w)))
  else if ext =? 4 then Some (Z.shiftl v c)
  else if ext =? 5 then Some (Z.shiftr v c)
  else if ext =? 7 then Some (Z.shiftr (swrap w v) c)
  else None.

Definition sign_bit (size : OperandSize) (v : Z) : bool := Z.testbit v (size_bits size - 1).
Definition compare (size : OperandSize) (a b : Z) : Flags :=
  let w := size_bits size in
  let a := uwrap w a in
  let b := uwrap w b in
  mkFlags (a <? b) (a =? b) (sign_bit size (uwrap w (a - b)))
    (negb (swrap w a - swrap w b =? swrap w (a - b))).
Definition bit_test (size : OperandSize) (a b : Z) : Flags :=
  let r := uwrap (size_bits size) (Z.land a b) in mkFlags false (r =? 0) (sign_bit size r) false.
Definition with_flags (m : Machine) (f : Flags) : Machine := mkMachine m.(gpr) m.(memory) (Some f).

(** The condition of a jump, by the low digit of its opcode. *)
Definition condition (code : Z) (f : Flags) : option bool :=
  let b :=
    match Z.shiftr code 1 with
    | 1 => Some f.(fl_cf)
    | 2 => Some f.(fl_zf)
    | 3 => Some (f.(fl_cf) || f.(fl_zf))
    | 6 => Some (xorb f.(fl_sf) f.(fl_of))
    | 7 => Some (f.(fl_zf) || xorb f.(fl_sf) f.(fl_of))
    | _ => None
    end in
  xorb (Z.odd code) <$> b.

(** * Steps *)

Definition RSP_code : Z := reg_code RSP.

Definition step_plain (i : X86Instruction) (m : Machine) : option Machine :=
  let o := i.(x_opcode) in
  let size := i.(x_size) in
  let first := read_reg m size i.(x_first) in
  let second := read_reg m size i.(x_second) in
  match binary_op o with
  | Some f => Some (write_reg m size i.(x_second) (f second first))
  | None =>
      if o =? 0x39 then Some (with_flags m (compare size second first))
      else if o =? 0x63 then Some (write_reg m size i.(x_first) (swrap 32 (m.(gpr) i.(x_second))))
      else if o =? 0x81 then
        if i.(x_first) =? 7 then Some (with_flags m (compare size second i.(x_imm)))
        else (fun f => write_reg m size i.(x_second) (f second i.(x_imm))) <$> extended_op i.(x_first)
      else if o =? 0x85 then Some (with_flags m (bit_test size second first))
      else if o =? 0x87 then
        let a := m.(gpr) i.(x_first) in
        let b := m.(gpr) i.(x_second) in
        if bool_decide (size = S64) then Some (write_reg (write_reg m S64 i.(x_first) b) S64 i.(x_second) a) else None
      else if o =? 0x89 then Some (write_reg m size i.(x_second) first)
      else if o =? 0x90 then Some m
      else if o =? 0xc1 then write_reg m size i.(x_second) <$> shift_op size i.(x_first) second i.(x_imm)
      else if o =? 0xd3 then write_reg m size i.(x_second) <$> shift_op size i.(x_first) second (read_reg m S8 (reg_code RCX))
      else if o =? 0xc7 then Some (write_reg m size i.(x_second) i.(x_imm))
      else if o =? 0xf7 then
        if i.(x_first) =? 0 then Some (with_flags m (bit_test size second i.(x_imm)))
        else if i.(x_first) =? 3 then Some (write_reg m size i.(x_second) (- second))
        else None
      else if Z.shiftr o 3 =? 0x17 then Some (write_reg m size i.(x_second) i.(x_imm))
      else if Z.shiftr o 3 =? 0xa then
        let sp := as_u64 (m.(gpr) RSP_code - 8) in
        Some (mkMachine (upd m.(gpr) RSP_code sp) (write_word m.(memory) sp (m.(gpr) i.(x_second))) m.(flags))
      else if Z.shiftr o 3 =? 0xb then
        let sp := m.(gpr) RSP_code in
        Some (mkMachine (upd (upd m.(gpr) RSP_code (as_u64 (sp + 8))) i.(x_second) (read_word m.(memory) sp)) m.(memory) m.(flags))
      else None
  end.

Definition step_escaped (i : X86Instruction) (m : Machine) : option Machine :=
  let o := i.(x_opcode) in
  let size := i.(x_size) in
  if o =? 0xaf then Some (write_reg m size i.(x_first) (read_reg m size i.(x_first) * read_reg m size i.(x_second)))
  else if Z.shiftr o 3 =? 0x19 then
    match size with
    | S32 => Some (write_reg m S32 i.(x_second) (swap_bytes 4 (read_reg m S32 i.(x_second))))
    | S64 => Some (write_reg m S64 i.(x_second) (swap_bytes 8 (read_reg m S64 i.(x_second))))
    | _ => None
    end
  else None.

Definition step_x86 (i : X86Instruction) (m : Machine) : option Machine :=
  match i.(x_indirect), i.(x_size) with
  | Some _, _ | _, S0 | _, S8 => None
  | None, _ => if i.(x_escape) =? 0 then step_plain i m else if i.(x_escape) =? 1 then step_escaped i m else None
  end.

(** Running code from its first to its last byte. *)
Fixpoint run_x86 (fuel : nat) (bs : list Z) (m : Machine) : option Machine :=
  match fuel with
  | O => None
  | S fuel =>
      match bs with
      | [] => Some m
      | _ => '(i, rest) ← decode_x86 bs; m ← step_x86 i m; run_x86 fuel rest m
      end
  end.

(** Code, with instructions that do nothing between its instructions. *)
Inductive interleaved : list X86Instruction -> list Z -> Prop :=
  | interleaved_nil : interleaved [] []
  | interleaved_cons i l b noop rest : x86_bytes (E := EbpfError) i = Ret b -> noop = [] \/ noop = [0x90] ->
      interleaved l rest -> interleaved (i :: l) (b ++ noop ++ rest).

Fixpoint steps (l : list X86Instruction) (m : Machine) : option Machine :=
  match l with
  | [] => Some m
  | i :: l => m ← step_x86 (canonical_x86 i) m; steps l m
  end.

(** * Lemmas *)

Lemma interleaved_app l1 l2 bs1 bs2 : interleaved l1 bs1 -> interleaved l2 bs2 -> interleaved (l1 ++ l2) (bs1 ++ bs2).
Proof. induction 1 as [|i l b noop rest Hb Hn _ IH]; intros H2; [done|]. cbn. rewrite <-!app_assoc. apply interleaved_cons; auto. Qed.

Lemma steps_app l1 l2 m : steps (l1 ++ l2) m = (m1 ← steps l1 m; steps l2 m1).
Proof.
  revert m. induction l1 as [|i l1 IH]; intros m; [done|]. cbn [app steps]. destruct (step_x86 (canonical_x86 i) m); cbn [mbind option_bind]; [apply IH|done].
Qed.

Lemma run_x86_cons fuel bs i rest m m1 : decode_x86 bs = Some (i, rest) -> step_x86 i m = Some m1 ->
  run_x86 (S fuel) bs m = run_x86 fuel rest m1.
Proof. intros Hd Hs. destruct bs as [|b bs]; [done|]. cbn [run_x86]. rewrite Hd. cbn [mbind option_bind]. by rewrite Hs. Qed.

(** Code runs as its instructions do. *)
Lemma interleaved_runs l bs m m' : interleaved l bs -> Forall x86_wf l -> steps l m = Some m' -> exists fuel, run_x86 fuel bs m = Some m'.
Proof.
  intros Hi. revert m. induction Hi as [|i l b noop rest Hb Hn _ IH]; intros m Hwf Hs.
  - injection Hs as <-. by exists 1%nat.
  - apply Forall_cons in Hwf as [Hi Hwf]. cbn [steps] in Hs. destruct (step_x86 (canonical_x86 i) m) as [m1|] eqn:Hm; cbn [mbind option_bind] in Hs; [|done].
    destruct (IH m1 Hwf Hs) as [fuel Hf]. destruct (decode_x86_bytes (E := EbpfError) i (noop ++ rest) Hi) as (b' & Hb' & Hd). rewrite Hb in Hb'. injection Hb' as <-.
    destruct Hn as [-> | ->].
    + exists (S fuel). by rewrite (run_x86_cons _ _ _ _ _ _ Hd Hm).
    + exists (S (S fuel)). rewrite (run_x86_cons _ _ _ _ _ _ Hd Hm). by rewrite (run_x86_cons _ _ (mkX86 S32 0 0x90 false None 0 0 S0 0) rest _ m1).
Qed.

(** ** Registers *)

Lemma upd_eq f k v : upd f k v k = v.
Proof. unfold upd. by rewrite Z.eqb_refl. Qed.
Lemma upd_ne f k v x : x <> k -> upd f k v x = f x.
Proof. intros H. unfold upd. by rewrite (proj2 (Z.eqb_neq _ _) H). Qed.

Lemma reg_code_inj (r s : X86Register) : reg_code r = reg_code s -> r = s.
Proof. destruct r, s; done. Qed.

(** ** Words in memory *)

Lemma write_read_word mem a v : in_u 64 a -> in_u 64 v -> read_word (write_word mem a v) a = v.
Proof.
  intros Ha Hv. unfold read_word, write_word.
  assert (Hk : forall k, 0 <= k < 8 -> as_u64 (as_u64 (a + k) - a) = k).
  { intros k Hk. unfold as_u64, uwrap in *. rewrite Zminus_mod_idemp_l. replace (a + k - a) with k by lia. apply Z.mod_small. lia. }
  change (seqZ 0 8) with [0; 1; 2; 3; 4; 5; 6; 7]. cbn [fmap list_fmap]. rewrite !Hk by lia. cbn [Z.ltb Z.compare Pos.compare Pos.compare_cont Z.to_nat].
  replace [_; _; _; _; _; _; _; _] with (le_bytes 8 v) by reflexivity. rewrite le_value_le_bytes. by apply uwrap_small.
Qed.

Lemma write_word_other mem a v x : 0 <= x < 2 ^ 64 -> 0 <= a -> a + 8 <= 2 ^ 64 -> ~ (a <= x < a + 8) -> write_word mem a v x = mem x.
Proof.
  intros Hx Ha Hb Hn. unfold write_word, as_u64, uwrap. destruct (Z_lt_ge_dec x a).
  - rewrite <-(Z.mod_unique_pos (x - a) (2 ^ 64) (-1) (x - a + 2 ^ 64)) by lia. by rewrite (proj2 (Z.ltb_ge _ _)) by lia.
  - rewrite Z.mod_small by lia. by rewrite (proj2 (Z.ltb_ge _ _)) by lia.
Qed.
