(* ===== verification/Jit.v ===== *)
(** The JIT compiler (src/jit.rs): the state of a compilation and the functions that emit
    machine code, up to the code of the subroutines. *)
From S2P Require Import Prelude Error Ebpf Program Executable X86.
Open Scope list_scope.

(** * Constants *)

(* src/jit.rs:44-45, MAX_EMPTY_PROGRAM_MACHINE_CODE_LENGTH *)
Definition MAX_EMPTY_PROGRAM_MACHINE_CODE_LENGTH : Z := 4096.
(* src/jit.rs:46-47, MAX_MACHINE_CODE_LENGTH_PER_INSTRUCTION *)
Definition MAX_MACHINE_CODE_LENGTH_PER_INSTRUCTION : Z := 110.
(* src/jit.rs:48-49, MACHINE_CODE_PER_INSTRUCTION_METER_CHECKPOINT *)
Definition MACHINE_CODE_PER_INSTRUCTION_METER_CHECKPOINT : Z := 24.
(* src/jit.rs:50-51, MAX_START_PADDING_LENGTH *)
Definition MAX_START_PADDING_LENGTH : Z := 256.

(* src/jit.rs:219-219, ANCHOR_TRACE *)
Definition ANCHOR_TRACE : Z := 0.
(* src/jit.rs:220-220, ANCHOR_THROW_EXCEEDED_MAX_INSTRUCTIONS *)
Definition ANCHOR_THROW_EXCEEDED_MAX_INSTRUCTIONS : Z := 1.
(* src/jit.rs:221-221, ANCHOR_EPILOGUE *)
Definition ANCHOR_EPILOGUE : Z := 2.
(* src/jit.rs:222-222, ANCHOR_THROW_EXCEPTION_UNCHECKED *)
Definition ANCHOR_THROW_EXCEPTION_UNCHECKED : Z := 3.
(* src/jit.rs:223-223, ANCHOR_EXIT *)
Definition ANCHOR_EXIT : Z := 4.
(* src/jit.rs:224-224, ANCHOR_THROW_EXCEPTION *)
Definition ANCHOR_THROW_EXCEPTION : Z := 5.
(* src/jit.rs:225-225, ANCHOR_CALL_DEPTH_EXCEEDED *)
Definition ANCHOR_CALL_DEPTH_EXCEEDED : Z := 6.
(* src/jit.rs:226-226, ANCHOR_CALL_REG_OUTSIDE_TEXT_SEGMENT *)
Definition ANCHOR_CALL_REG_OUTSIDE_TEXT_SEGMENT : Z := 7.
(* src/jit.rs:227-227, ANCHOR_DIV_BY_ZERO *)
Definition ANCHOR_DIV_BY_ZERO : Z := 8.
(* src/jit.rs:228-228, ANCHOR_DIV_OVERFLOW *)
Definition ANCHOR_DIV_OVERFLOW : Z := 9.
(* src/jit.rs:229-229, ANCHOR_CALL_REG_UNSUPPORTED_INSTRUCTION *)
Definition ANCHOR_CALL_REG_UNSUPPORTED_INSTRUCTION : Z := 10.
(* src/jit.rs:230-230, ANCHOR_CALL_UNSUPPORTED_INSTRUCTION *)
Definition ANCHOR_CALL_UNSUPPORTED_INSTRUCTION : Z := 11.
(* src/jit.rs:231-231, ANCHOR_EXTERNAL_FUNCTION_CALL *)
Definition ANCHOR_EXTERNAL_FUNCTION_CALL : Z := 12.
(* src/jit.rs:232-232, ANCHOR_INTERNAL_FUNCTION_CALL_PROLOGUE *)
Definition ANCHOR_INTERNAL_FUNCTION_CALL_PROLOGUE : Z := 13.
(* src/jit.rs:233-233, ANCHOR_INTERNAL_FUNCTION_CALL_REG *)
Definition ANCHOR_INTERNAL_FUNCTION_CALL_REG : Z := 14.
(* src/jit.rs:234-234, ANCHOR_TRANSLATE_MEMORY_ADDRESS *)
Definition ANCHOR_TRANSLATE_MEMORY_ADDRESS : Z := 21.
(* src/jit.rs:235-235, ANCHOR_COUNT *)
Definition ANCHOR_COUNT : Z := 34.

(* src/jit.rs:237-249, REGISTER_MAP *)
Definition REGISTER_MAP : list X86Register :=
  [RAX; RSI; RDX; RCX; R8; R9; RBX; R12; R13; R14; R15].
(* src/jit.rs:251-252, REGISTER_PTR_TO_VM *)
Definition REGISTER_PTR_TO_VM : X86Register := RDI.
(* src/jit.rs:253-254, REGISTER_INSTRUCTION_METER *)
Definition REGISTER_INSTRUCTION_METER : X86Register := R10.
(* src/jit.rs:255-256, REGISTER_SCRATCH *)
Definition REGISTER_SCRATCH : X86Register := R11.

(** [REGISTER_MAP[0]] and [REGISTER_MAP[FRAME_PTR_REG]] *)
Definition REG_R0 : X86Register := RAX.
Definition REG_FP : X86Register := R15.
(** [REGISTER_MAP.iter().skip(FIRST_SCRATCH_REG).take(SCRATCH_REGS)] *)
Definition SCRATCH_REGISTERS : list X86Register := [RBX; R12; R13; R14].

(** * Data *)

(* src/jit.rs:273-279, Value *)
Inductive Value :=
  | VRegister (reg : X86Register)
  | VRegisterIndirect (reg : X86Register) (offset : Z) (user_provided : bool)
  | VRegisterPlusConstant32 (reg : X86Register) (offset : Z) (user_provided : bool)
  | VRegisterPlusConstant64 (reg : X86Register) (offset : Z) (user_provided : bool)
  | VConstant64 (value : Z) (user_provided : bool).

(* src/jit.rs:281-284, Argument *)
Record Argument := mkArg { arg_index : Z; arg_value : Value }.

(** A location is an offset in the text section. *)
(* src/jit.rs:286-290, Jump *)
Record Jump := mkJump { jump_location : Z; jump_target_pc : Z }.

(* src/vm.rs:195-220, RuntimeEnvironmentSlot *)
Inductive RuntimeEnvironmentSlot :=
  | HostStackPointer | CallDepth | ContextObjectPointer | PreviousInstructionMeter | DueInsnCount
  | StopwatchNumerator | StopwatchDenominator | Registers | ProgramResult | SlotMemoryMapping
  | RegisterTrace.

(** The [rand] crate: random numbers, each in its range. *)
Class Rand := {
  Rng : Type;
  gen_i64 : Rng -> Z * Rng;
  gen_range : Rng -> Z -> Z * Rng;
  sample_inclusive : Rng -> Z -> Z * Rng;
  gen_i64_spec rng : in_s 64 (gen_i64 rng).1;
  gen_range_spec rng n : 0 < n -> 0 <= (gen_range rng n).1 < n;
  sample_inclusive_spec rng n : 0 <= n -> 0 <= (sample_inclusive rng n).1 <= n;
}.

(** The host: how [EbpfVm] is laid out, where the functions are that compiled code calls,
    and the random number behind the key of the environment pointer. *)
Class JitHost := {
  slot_offset : RuntimeEnvironmentSlot -> Z;
  trace_function : Z;
  stopwatch_function : Z;
  load_function : Z -> Z;
  store_function : Z -> Z;
  environment_random : Z;
  slot_offset_spec s : 0 <= slot_offset s < 2 ^ 16;
  environment_random_spec : in_s 32 environment_random;
}.

(** The kind of an error is its discriminant: the position of the variant. *)
(* src/error.rs:14-75, EbpfError *)
Definition err_kind (err : EbpfError) : Z :=
  match err with
  | ElfError_ _ => 0 | FunctionAlreadyRegistered _ => 1 | CallDepthExceeded => 2
  | ExitRootCallFrame => 3 | DivideByZero => 4 | DivideOverflow => 5 | ExecutionOverrun => 6
  | CallOutsideTextSegment => 7 | ExceededMaxInstructions => 8 | JitNotCompiled => 9
  | InvalidMemoryRegion _ => 10 | AccessViolation _ _ _ _ => 11 | StackAccessViolation _ _ _ _ => 12
  | InvalidInstruction => 13 | UnsupportedInstruction => 14 | ExhaustedTextSegment _ => 15
  | LibcInvocationFailed _ _ _ => 16 | VerifierError_ _ => 17 | SyscallError _ => 18
  end.
(* src/error.rs:143-146, StableResult::discriminant *)
Definition discriminant {T E} (r : StableResult T E) : Z := match r with SOk _ => 0 | SErr _ => 1 end.

(** The text section is memory of [jit_text_len] bytes at [jit_text_ptr], of which
    [jit_code] is written; the offset in the text section is the length of [jit_code]. *)
(* src/jit.rs:341-359, JitCompiler *)
Record JitCompiler `{Rnd : Rand} := mkJit {
  jit_page_size : Z;
  jit_pc_ptr : Z;
  jit_text_ptr : Z;
  jit_text_len : Z;
  jit_code : list Z;
  jit_pc_section : list Z;
  text_section_jumps : list Jump;
  anchors : list (option Z);
  jit_pc : Z;
  last_instruction_meter_validation_pc : Z;
  next_noop_insertion : Z;
  noop_range : Z;
  runtime_environment_key : Z;
  immediate_value_key : Z;
  diversification_rng : Rng;
  stopwatch_is_active : bool;
}.

(** * The monad of emitters *)

Declare Scope jit_scope.
Delimit Scope jit_scope with jit.

Definition Jit `{Rnd : Rand} (A : Type) : Type := JitCompiler -> Exec EbpfError (A * JitCompiler).

Section Monad.
Context `{Rnd : Rand}.

Definition j_ret {A} (a : A) : Jit A := fun self => Ret (a, self).
Definition j_bind {A B} (m : Jit A) (k : A -> Jit B) : Jit B := fun self =>
  exec_bind (m self) (fun r => k r.1 r.2).
Definition j_lift {A} (m : Exec EbpfError A) : Jit A := fun self => exec_bind m (fun a => Ret (a, self)).
Definition get : Jit JitCompiler := fun self => Ret (self, self).
Definition gets {A} (f : JitCompiler -> A) : Jit A := fun self => Ret (f self, self).
Definition modify (f : JitCompiler -> JitCompiler) : Jit unit := fun self => Ret (tt, f self).
Definition j_panic {A} (f : Fault) : Jit A := fun _ => Panic f.
Definition j_throw {A} (e : EbpfError) : Jit A := fun _ => Err e.
Definition debug_assert (b : bool) : Jit unit := if b then j_ret tt else j_panic DebugAssertFailed.
Definition j_if (b : bool) (m : Jit unit) : Jit unit := if b then m else j_ret tt.
Fixpoint for_each {A} (l : list A) (f : A -> Jit unit) : Jit unit :=
  match l with
  | [] => j_ret tt
  | a :: l => j_bind (f a) (fun _ => for_each l f)
  end.
End Monad.

Notation "'let*' x := m 'in' k" := (j_bind m (fun x => k))
  (at level 10, x pattern, m at level 100, k at level 200) : jit_scope.
Notation "m ;* k" := (j_bind m (fun _ => k))
  (at level 100, k at level 200, right associativity) : jit_scope.
Open Scope jit_scope.

Section Emit.
Context `{Rnd : Rand}.

(** ** Field updates *)

Definition set_code (code : list Z) (self : JitCompiler) : JitCompiler :=
  mkJit _ self.(jit_page_size) self.(jit_pc_ptr) self.(jit_text_ptr) self.(jit_text_len) code
    self.(jit_pc_section) self.(text_section_jumps) self.(anchors) self.(jit_pc)
    self.(last_instruction_meter_validation_pc) self.(next_noop_insertion) self.(noop_range)
    self.(runtime_environment_key) self.(immediate_value_key) self.(diversification_rng)
    self.(stopwatch_is_active).
Definition set_pc_section (l : list Z) (self : JitCompiler) : JitCompiler :=
  mkJit _ self.(jit_page_size) self.(jit_pc_ptr) self.(jit_text_ptr) self.(jit_text_len)
    self.(jit_code) l self.(text_section_jumps) self.(anchors) self.(jit_pc)
    self.(last_instruction_meter_validation_pc) self.(next_noop_insertion) self.(noop_range)
    self.(runtime_environment_key) self.(immediate_value_key) self.(diversification_rng)
    self.(stopwatch_is_active).
Definition set_jumps (l : list Jump) (self : JitCompiler) : JitCompiler :=
  mkJit _ self.(jit_page_size) self.(jit_pc_ptr) self.(jit_text_ptr) self.(jit_text_len)
    self.(jit_code) self.(jit_pc_section) l self.(anchors) self.(jit_pc)
    self.(last_instruction_meter_validation_pc) self.(next_noop_insertion) self.(noop_range)
    self.(runtime_environment_key) self.(immediate_value_key) self.(diversification_rng)
    self.(stopwatch_is_active).
Definition set_anchors (l : list (option Z)) (self : JitCompiler) : JitCompiler :=
  mkJit _ self.(jit_page_size) self.(jit_pc_ptr) self.(jit_text_ptr) self.(jit_text_len)
    self.(jit_code) self.(jit_pc_section) self.(text_section_jumps) l self.(jit_pc)
    self.(last_instruction_meter_validation_pc) self.(next_noop_insertion) self.(noop_range)
    self.(runtime_environment_key) self.(immediate_value_key) self.(diversification_rng)
    self.(stopwatch_is_active).
Definition set_pc (pc : Z) (self : JitCompiler) : JitCompiler :=
  mkJit _ self.(jit_page_size) self.(jit_pc_ptr) self.(jit_text_ptr) self.(jit_text_len)
    self.(jit_code) self.(jit_pc_section) self.(text_section_jumps) self.(anchors) pc
    self.(last_instruction_meter_validation_pc) self.(next_noop_insertion) self.(noop_range)
    self.(runtime_environment_key) self.(immediate_value_key) self.(diversification_rng)
    self.(stopwatch_is_active).
Definition set_validation_pc (pc : Z) (self : JitCompiler) : JitCompiler :=
  mkJit _ self.(jit_page_size) self.(jit_pc_ptr) self.(jit_text_ptr) self.(jit_text_len)
    self.(jit_code) self.(jit_pc_section) self.(text_section_jumps) self.(anchors) self.(jit_pc)
    pc self.(next_noop_insertion) self.(noop_range) self.(runtime_environment_key)
    self.(immediate_value_key) self.(diversification_rng) self.(stopwatch_is_active).
Definition set_noop (n : Z) (rng : Rng) (self : JitCompiler) : JitCompiler :=
  mkJit _ self.(jit_page_size) self.(jit_pc_ptr) self.(jit_text_ptr) self.(jit_text_len)
    self.(jit_code) self.(jit_pc_section) self.(text_section_jumps) self.(anchors) self.(jit_pc)
    self.(last_instruction_meter_validation_pc) n self.(noop_range) self.(runtime_environment_key)
    self.(immediate_value_key) rng self.(stopwatch_is_active).
Definition set_stopwatch (b : bool) (self : JitCompiler) : JitCompiler :=
  mkJit _ self.(jit_page_size) self.(jit_pc_ptr) self.(jit_text_ptr) self.(jit_text_len)
    self.(jit_code) self.(jit_pc_section) self.(text_section_jumps) self.(anchors) self.(jit_pc)
    self.(last_instruction_meter_validation_pc) self.(next_noop_insertion) self.(noop_range)
    self.(runtime_environment_key) self.(immediate_value_key) self.(diversification_rng) b.

Definition offset_in_text_section (self : JitCompiler) : Z := zlen self.(jit_code).
Definition get_pc : Jit Z := gets jit_pc.

(** ** Bytes and instructions *)

(** A raw write behind the code: outside of the section's memory it is a fault. *)
(* src/jit.rs:910-917, JitCompiler::emit *)
Definition emit (data : list Z) : Jit unit := fun self =>
  if offset_in_text_section self + zlen data <=? self.(jit_text_len)
  then Ret (tt, set_code (self.(jit_code) ++ data) self)
  else Panic InvalidHostAccess.

(* src/jit.rs:929-940, JitCompiler::emit_ins *)
Definition emit_ins (instruction : Exec EbpfError X86Instruction) : Jit unit :=
  let* i := j_lift instruction in
  let* bytes := j_lift (x86_bytes i) in
  emit bytes ;*
  let* self := get in
  if self.(next_noop_insertion) =? 0 then
    let (n, rng) := sample_inclusive self.(diversification_rng) self.(noop_range) in
    modify (set_noop n rng) ;*
    emit [0x90]
  else modify (set_noop (self.(next_noop_insertion) - 1) self.(diversification_rng)).

Context (config : Config) (v : SBPFVersion).

(* src/jit.rs:887-904, JitCompiler::should_sanitize_constant *)
Definition should_sanitize_constant (value : Z) : bool :=
  if negb config.(sanitize_user_provided_values) then false
  else
    let v := as_u64 value in
    if existsb (Z.eqb v)
         [0xFFFF; 0xFFFFFF; 0xFFFFFFFF; 0xFFFFFFFFFF; 0xFFFFFFFFFFFF; 0xFFFFFFFFFFFFFF; 0xFFFFFFFFFFFFFFFF]
    then false
    else if v <=? 0xFF then false
    else if u64_max - v <=? 0xFF then false
    else true.

(** Plain [i32] arithmetic. *)
Definition i32_checked {E} (z : Z) : Exec E Z :=
  if (i32_min <=? z) && (z <=? i32_max) then Ret z else Panic ArithmeticOverflow.

Context `{Host : JitHost}.

(* src/jit.rs:906-908, JitCompiler::slot_in_vm *)
Definition slot_in_vm (slot : RuntimeEnvironmentSlot) : Jit Z :=
  let* key := gets runtime_environment_key in
  let* scaled := j_lift (i32_checked (8 * key)) in
  j_lift (i32_checked (slot_offset slot - scaled)).

(** [X86IndirectAccess::Offset(self.slot_in_vm(slot))] *)
Definition slot_access (slot : RuntimeEnvironmentSlot) : Jit X86IndirectAccess :=
  let* offset := slot_in_vm slot in j_ret (Offset offset).

(** ** Anchors and jumps *)

(* src/jit.rs:1678-1680, JitCompiler::set_anchor *)
Definition set_anchor (anchor : Z) : Jit unit :=
  let* self := get in
  if (0 <=? anchor) && (anchor <? zlen self.(anchors))
  then modify (set_anchors (<[Z.to_nat anchor := Some (offset_in_text_section self)]> self.(anchors)))
  else j_panic IndexOutOfBounds.

(* src/jit.rs:1682-1689, JitCompiler::relative_to_anchor *)
Definition relative_to_anchor (anchor instruction_length : Z) : Jit Z :=
  let* self := get in
  let instruction_end := offset_in_text_section self + instruction_length in
  let* destination := j_lift (index_slice self.(anchors) anchor) in
  match destination with
  | None => j_panic DebugAssertFailed
  | Some destination => j_ret (as_i32 (destination - instruction_end))
  end.

(** [&self.result.text_section[i]] *)
Definition text_index {E} (self : JitCompiler) (i : Z) : Exec E unit :=
  if (0 <=? i) && (i <? self.(jit_text_len)) then Ret tt else Panic IndexOutOfBounds.

(* src/jit.rs:1691-1703, JitCompiler::relative_to_target_pc *)
Definition relative_to_target_pc (target_pc instruction_length : Z) : Jit Z :=
  let* self := get in
  let instruction_end := offset_in_text_section self + instruction_length in
  let* entry := j_lift (index_slice self.(jit_pc_section) target_pc) in
  if negb (entry =? 0) then
    let destination := Z.land entry i32_max in
    j_lift (text_index self destination) ;*
    j_ret (as_i32 (destination - instruction_end))
  else
    modify (set_jumps (self.(text_section_jumps) ++ [mkJump (instruction_end - 4) target_pc])) ;*
    j_ret 0.

(** [emit_ins(jump(self.relative_to_anchor(anchor, length)))] *)
Definition emit_to_anchor (jump : Z -> Exec EbpfError X86Instruction) (anchor length : Z) : Jit unit :=
  let* offset := relative_to_anchor anchor length in emit_ins (jump offset).

(** ** Immediate values *)

(** [i64::rotate_right(32)] *)
Definition rotate_right_32 (z : Z) : Z :=
  as_i64 (Z.lor (as_u64 (Z.shiftl (as_u64 z) 32)) (Z.shiftr (as_u64 z) 32)).

(* src/jit.rs:942-962, JitCompiler::emit_sanitized_load_immediate *)
Definition emit_sanitized_load_immediate (destination : X86Register) (value : Z) : Jit unit :=
  let* key := gets immediate_value_key in
  let lower_key := as_i32 key in
  if (i32_min <=? value) && (value <=? i32_max) then
    emit_ins (load_immediate destination (as_i64 (value - lower_key))) ;*
    emit_ins (alu_immediate S64 0x81 0 destination lower_key None)
  else if Z.land (as_u64 value) (2 ^ 32 - 1) =? 0 then
    emit_ins (load_immediate destination (as_i64 (rotate_right_32 value - lower_key))) ;*
    emit_ins (alu_immediate S64 0x81 0 destination lower_key None) ;*
    emit_ins (alu_immediate S64 0xc1 4 destination 32 None)
  else if negb (bool_decide (destination = REGISTER_SCRATCH)) then
    emit_ins (load_immediate destination (as_i64 (value - key))) ;*
    emit_ins (load_immediate REGISTER_SCRATCH key) ;*
    emit_ins (alu S64 0x01 REGISTER_SCRATCH destination None)
  else
    let upper_key := as_i32 (Z.shiftr key 32) in
    emit_ins (load_immediate destination
                (as_i64 (rotate_right_32 (as_i64 (value - lower_key)) - upper_key))) ;*
    emit_ins (alu_immediate S64 0x81 0 destination upper_key None) ;*
    emit_ins (alu_immediate S64 0xc1 1 destination 32 None) ;*
    emit_ins (alu_immediate S64 0x81 0 destination lower_key None).

(** A load of a user-provided constant, sanitized where it should be. *)
Definition emit_load_constant (destination : X86Register) (value : Z) : Jit unit :=
  if should_sanitize_constant value then emit_sanitized_load_immediate destination value
  else emit_ins (load_immediate destination value).

(* src/jit.rs:964-974, JitCompiler::emit_sanitized_alu *)
Definition emit_sanitized_alu (size : OperandSize) (opcode opcode_extension : Z)
    (destination : X86Register) (immediate : Z) : Jit unit :=
  if should_sanitize_constant immediate then
    emit_sanitized_load_immediate REGISTER_SCRATCH immediate ;*
    emit_ins (alu size opcode REGISTER_SCRATCH destination None)
  else if (i32_min <=? immediate) && (immediate <=? i32_max) then
    emit_ins (alu_immediate size 0x81 opcode_extension destination immediate None)
  else
    emit_ins (load_immediate REGISTER_SCRATCH immediate) ;*
    emit_ins (alu size opcode REGISTER_SCRATCH destination None).

(* src/jit.rs:976-994, JitCompiler::emit_stopwatch *)
Definition emit_stopwatch (begin : bool) : Jit unit :=
  modify (set_stopwatch true) ;*
  emit_ins (push RDX None) ;*
  emit_ins (push RAX None) ;*
  emit_ins (fence Fence_Load) ;*
  emit_ins cycle_count ;*
  emit_ins (fence Fence_Load) ;*
  emit_ins (alu_immediate S64 0xc1 4 RDX 32 None) ;*
  emit_ins (alu S64 0x09 RDX RAX None) ;*
  (if begin then
     let* numerator := slot_access StopwatchNumerator in
     emit_ins (alu S64 0x29 RAX REGISTER_PTR_TO_VM (Some numerator))
   else
     let* numerator := slot_access StopwatchNumerator in
     emit_ins (alu S64 0x01 RAX REGISTER_PTR_TO_VM (Some numerator)) ;*
     let* denominator := slot_access StopwatchDenominator in
     emit_ins (alu_immediate S64 0x81 0 REGISTER_PTR_TO_VM 1 (Some denominator))) ;*
  emit_ins (pop RAX) ;*
  emit_ins (pop RDX).

(** ** The instruction meter *)

(* src/jit.rs:996-1008, JitCompiler::emit_validate_instruction_count *)
Definition emit_validate_instruction_count (pc : option Z) : Jit unit :=
  if negb config.(enable_instruction_meter) then j_ret tt
  else
    match pc with
    | Some pc =>
        modify (set_validation_pc pc) ;*
        emit_sanitized_load_immediate REGISTER_SCRATCH (as_i64 pc)
    | None => j_ret tt
    end ;*
    emit_ins (cmp S64 REGISTER_SCRATCH REGISTER_INSTRUCTION_METER None) ;*
    emit_to_anchor (conditional_jump_immediate 0x86) ANCHOR_THROW_EXCEEDED_MAX_INSTRUCTIONS 6.

(* src/jit.rs:1010-1023, JitCompiler::emit_profile_instruction_count *)
Definition emit_profile_instruction_count (target_pc : option Z) : Jit unit :=
  if negb config.(enable_instruction_meter) then j_ret tt
  else
    let* pc := get_pc in
    match target_pc with
    | Some target_pc =>
        let* difference := j_lift (i64_sub (as_i64 target_pc) (as_i64 pc)) in
        let* difference := j_lift (i64_sub difference 1) in
        emit_sanitized_alu S64 0x01 0 REGISTER_INSTRUCTION_METER difference
    | None =>
        emit_ins (alu S64 0x01 REGISTER_SCRATCH REGISTER_INSTRUCTION_METER None) ;*
        let* next := j_lift (i64_add (as_i64 pc) 1) in
        emit_sanitized_alu S64 0x81 5 REGISTER_INSTRUCTION_METER next
    end.

(* src/jit.rs:1025-1029, JitCompiler::emit_undo_profile_instruction_count *)
Definition emit_undo_profile_instruction_count (target_pc : Z) : Jit unit :=
  if config.(enable_instruction_meter) then
    let* pc := get_pc in
    let* next := j_lift (i64_add (as_i64 pc) 1) in
    let* difference := j_lift (i64_sub next (as_i64 target_pc)) in
    emit_sanitized_alu S64 0x01 0 REGISTER_INSTRUCTION_METER difference
  else j_ret tt.

(* src/jit.rs:1031-1034, JitCompiler::emit_validate_and_profile_instruction_count *)
Definition emit_validate_and_profile_instruction_count (target_pc : option Z) : Jit unit :=
  let* pc := get_pc in
  emit_validate_instruction_count (Some pc) ;*
  emit_profile_instruction_count target_pc.

(** ** Calls *)

(** An argument goes to its register, or to the stack when there are no registers left. *)
(* src/jit.rs:1057-1109, JitCompiler::emit_rust_call *)
Definition pass_argument (argument : Argument) : Jit unit :=
  let is_stack_argument := zlen ARGUMENT_REGISTERS <=? argument.(arg_index) in
  let* dst := if is_stack_argument then j_ret RSP
              else j_lift (index_slice ARGUMENT_REGISTERS argument.(arg_index)) in
  match argument.(arg_value) with
  | VRegister reg =>
      if is_stack_argument then emit_ins (push reg None)
      else if negb (bool_decide (reg = dst)) then emit_ins (mov S64 reg dst)
      else j_ret tt
  | VRegisterIndirect reg offset user_provided =>
      debug_assert (negb user_provided) ;*
      if is_stack_argument then
        debug_assert (negb (bool_decide (reg = RSP))) ;*
        emit_ins (push reg (Some (Offset offset)))
      else if bool_decide (reg = RSP) then emit_ins (load S64 RSP dst (OffsetIndexShift offset RSP 0))
      else emit_ins (load S64 reg dst (Offset offset))
  | VRegisterPlusConstant32 reg offset user_provided =>
      debug_assert (negb user_provided) ;*
      if is_stack_argument then
        emit_ins (push reg None) ;*
        emit_ins (alu_immediate S64 0x81 0 RSP offset (Some (OffsetIndexShift 0 RSP 0)))
      else if bool_decide (reg = RSP) then
        emit_ins (lea S64 RSP dst (Some (OffsetIndexShift offset RSP 0)))
      else emit_ins (lea S64 reg dst (Some (Offset offset)))
  | VRegisterPlusConstant64 reg offset user_provided =>
      debug_assert (negb user_provided) ;*
      if is_stack_argument then
        emit_ins (push reg None) ;*
        emit_ins (alu_immediate S64 0x81 0 RSP offset (Some (OffsetIndexShift 0 RSP 0)))
      else
        emit_ins (load_immediate dst offset) ;*
        emit_ins (alu S64 0x01 reg dst None)
  | VConstant64 value user_provided =>
      debug_assert (negb user_provided && negb is_stack_argument) ;*
      emit_ins (load_immediate dst value)
  end.

(** [iter().position(|x| *x == reg)] followed by [remove] *)
Fixpoint remove_first (reg : X86Register) (l : list X86Register) : list X86Register :=
  match l with
  | [] => []
  | r :: l => if bool_decide (r = reg) then l else r :: remove_first reg l
  end.

(* src/jit.rs:1036-1138, JitCompiler::emit_rust_call *)
Definition emit_rust_call (target : Value) (arguments : list Argument)
    (result_reg : option X86Register) : Jit unit :=
  let saved_registers :=
    match result_reg with
    | Some reg => remove_first reg CALLER_SAVED_REGISTERS
    | None => CALLER_SAVED_REGISTERS
    end in
  for_each saved_registers (fun reg => emit_ins (push reg None)) ;*
  let stack_arguments := u64_saturating_sub (zlen arguments) (zlen ARGUMENT_REGISTERS) in
  let odd := negb (stack_arguments mod 2 =? 0) in
  j_if odd (emit_ins (alu_immediate S64 0x81 5 RSP 8 None)) ;*
  for_each arguments pass_argument ;*
  match target with
  | VRegister reg => emit_ins (call_reg reg None)
  | VConstant64 value user_provided =>
      debug_assert (negb user_provided) ;*
      emit_ins (load_immediate RAX value) ;*
      emit_ins (call_reg RAX None)
  | _ => j_panic DebugAssertFailed
  end ;*
  match result_reg with
  | Some reg => emit_ins (mov S64 RAX reg)
  | None => j_ret tt
  end ;*
  emit_ins (alu_immediate S64 0x81 0 RSP
              ((if odd then stack_arguments + 1 else stack_arguments) * 8) None) ;*
  for_each (reverse saved_registers) (fun reg => emit_ins (pop reg)).

(* src/jit.rs:1140-1179, JitCompiler::emit_internal_call *)
Definition emit_internal_call (dst : Value) : Jit unit :=
  let* pc := get_pc in
  emit_ins (load_immediate REGISTER_SCRATCH (as_i64 pc)) ;*
  modify (set_validation_pc pc) ;*
  emit_to_anchor call_immediate ANCHOR_INTERNAL_FUNCTION_CALL_PROLOGUE 5 ;*
  match dst with
  | VRegister reg =>
      emit_ins (store S64 REGISTER_SCRATCH RSP (OffsetIndexShift (-24) RSP 0)) ;*
      emit_ins (mov S64 reg REGISTER_SCRATCH) ;*
      emit_to_anchor call_immediate ANCHOR_INTERNAL_FUNCTION_CALL_REG 5
  | VConstant64 target_pc user_provided =>
      debug_assert user_provided ;*
      emit_profile_instruction_count (Some (as_u64 target_pc)) ;*
      (if user_provided && should_sanitize_constant target_pc
       then emit_sanitized_load_immediate REGISTER_SCRATCH target_pc
       else emit_ins (load_immediate REGISTER_SCRATCH target_pc)) ;*
      let* jump_offset := relative_to_target_pc (as_u64 target_pc) 5 in
      emit_ins (call_immediate jump_offset)
  | _ => j_panic DebugAssertFailed
  end ;*
  emit_undo_profile_instruction_count 0 ;*
  emit_ins (pop REG_FP) ;*
  for_each (reverse SCRATCH_REGISTERS) (fun reg => emit_ins (pop reg)).

(** ** Memory *)

(** [u64::trailing_zeros] of a positive number *)
Fixpoint positive_trailing_zeros (p : positive) : Z :=
  match p with xO p => 1 + positive_trailing_zeros p | _ => 0 end.
Definition trailing_zeros (n : Z) : Z :=
  match n with Zpos p => positive_trailing_zeros p | _ => 64 end.

Definition stack_slot_of_value_to_store : X86IndirectAccess := OffsetIndexShift (-96) RSP 0.

(** The direct access of [emit_address_translation] without address translation. *)
(* src/jit.rs:1226-1244, JitCompiler::emit_address_translation *)
Definition emit_direct_access (dst : option X86Register) (len : Z) : Jit unit :=
  let* size := if len =? 1 then j_ret S8 else if len =? 2 then j_ret S16
               else if len =? 4 then j_ret S32 else if len =? 8 then j_ret S64
               else j_panic DebugAssertFailed in
  match dst with
  | Some dst => emit_ins (load size REGISTER_SCRATCH dst (Offset 0))
  | None =>
      emit_ins (xchg S64 RSP REG_R0 (Some stack_slot_of_value_to_store)) ;*
      emit_ins (store size REG_R0 REGISTER_SCRATCH (Offset 0)) ;*
      emit_ins (xchg S64 RSP REG_R0 (Some stack_slot_of_value_to_store))
  end.

(* src/jit.rs:1181-1245, JitCompiler::emit_address_translation *)
Definition emit_address_translation (dst : option X86Register) (vm_addr : Value) (len : Z)
    (value : option Value) : Jit unit :=
  debug_assert (negb (Bool.eqb (bool_decide (is_Some dst)) (bool_decide (is_Some value)))) ;*
  match value with
  | Some (VRegister reg) => emit_ins (store S64 reg RSP stack_slot_of_value_to_store)
  | Some (VConstant64 constant user_provided) =>
      debug_assert user_provided ;*
      let* key := gets immediate_value_key in
      let lower_key := as_i32 key in
      emit_ins (load_immediate REGISTER_SCRATCH (as_i64 (constant - lower_key))) ;*
      emit_ins (store S64 REGISTER_SCRATCH RSP stack_slot_of_value_to_store)
  | _ => j_ret tt
  end ;*
  match vm_addr with
  | VRegisterPlusConstant64 reg constant user_provided =>
      (if user_provided && should_sanitize_constant constant
       then emit_sanitized_load_immediate REGISTER_SCRATCH constant
       else emit_ins (load_immediate REGISTER_SCRATCH constant)) ;*
      emit_ins (alu S64 0x01 reg REGISTER_SCRATCH None)
  | _ => j_panic DebugAssertFailed
  end ;*
  if config.(enable_address_translation) then
    let anchor_base := match value with
                       | Some (VRegister _) => 4
                       | Some (VConstant64 _ _) => 8
                       | _ => 0
                       end in
    let* pc := get_pc in
    emit_ins (push_immediate S64 (as_i32 pc)) ;*
    emit_to_anchor call_immediate (ANCHOR_TRANSLATE_MEMORY_ADDRESS + anchor_base + trailing_zeros len) 5 ;*
    match dst with
    | Some dst => emit_ins (mov S64 REGISTER_SCRATCH dst)
    | None => j_ret tt
    end
  else emit_direct_access dst len.

(** ** Branches *)

(** The end of a conditional branch. *)
(* src/jit.rs:1254-1256, JitCompiler::emit_conditional_branch_reg *)
Definition emit_branch (op target_pc : Z) : Jit unit :=
  let* jump_offset := relative_to_target_pc target_pc 6 in
  emit_ins (conditional_jump_immediate op jump_offset) ;*
  emit_undo_profile_instruction_count target_pc.

(* src/jit.rs:1247-1257, JitCompiler::emit_conditional_branch_reg *)
Definition emit_conditional_branch_reg (size : OperandSize) (op : Z) (bitwise : bool)
    (first_operand second_operand : X86Register) (target_pc : Z) : Jit unit :=
  emit_validate_and_profile_instruction_count (Some target_pc) ;*
  (if bitwise then emit_ins (test size first_operand second_operand None)
   else emit_ins (cmp size first_operand second_operand None)) ;*
  emit_branch op target_pc.

(* src/jit.rs:1259-1276, JitCompiler::emit_conditional_branch_imm *)
Definition emit_conditional_branch_imm (size : OperandSize) (op : Z) (bitwise : bool)
    (immediate : Z) (second_operand : X86Register) (target_pc : Z) : Jit unit :=
  emit_validate_and_profile_instruction_count (Some target_pc) ;*
  (if should_sanitize_constant immediate then
     emit_sanitized_load_immediate REGISTER_SCRATCH immediate ;*
     (if bitwise then emit_ins (test size REGISTER_SCRATCH second_operand None)
      else emit_ins (cmp size REGISTER_SCRATCH second_operand None))
   else if bitwise then emit_ins (test_immediate size second_operand immediate None)
   else emit_ins (cmp_immediate size second_operand immediate None)) ;*
  emit_branch op target_pc.

(** ** Arithmetic *)

(* src/jit.rs:1278-1300, JitCompiler::emit_shift *)
Definition emit_shift (size : OperandSize) (opcode_extension : Z) (source destination : X86Register)
    (immediate : option Z) : Jit unit :=
  match immediate with
  | Some immediate => emit_ins (alu_immediate size 0xc1 opcode_extension destination immediate None)
  | None =>
      j_if (bool_decide (size = S32)) (emit_ins (mov S32 destination destination)) ;*
      if bool_decide (source = RCX) then
        emit_ins (alu_immediate size 0xd3 opcode_extension destination 0 None)
      else if bool_decide (destination = RCX) then
        emit_ins (push source None) ;*
        emit_ins (xchg S64 source RCX None) ;*
        emit_ins (alu_immediate size 0xd3 opcode_extension source 0 None) ;*
        emit_ins (mov S64 source RCX) ;*
        emit_ins (pop source)
      else
        emit_ins (push RCX None) ;*
        emit_ins (mov S64 source RCX) ;*
        emit_ins (alu_immediate size 0xd3 opcode_extension destination 0 None) ;*
        emit_ins (pop RCX)
  end.

(** The checks in front of a division. *)
(* src/jit.rs:1319-1350, JitCompiler::emit_product_quotient_remainder *)
Definition emit_division_checks (size : OperandSize) (signed : bool) (src dst : X86Register)
    (imm : option Z) : Jit unit :=
  let* pc := get_pc in
  j_if (bool_decide (imm = None))
    (emit_ins (load_immediate REGISTER_SCRATCH (as_i64 pc)) ;*
     emit_ins (test size src src None) ;*
     emit_to_anchor (conditional_jump_immediate 0x84) ANCHOR_DIV_BY_ZERO 6) ;*
  j_if (signed && (default (-1) imm =? -1))
    (emit_ins (load_immediate REGISTER_SCRATCH (if bool_decide (size = S64) then i64_min else i32_min)) ;*
     emit_ins (cmp size dst REGISTER_SCRATCH None) ;*
     j_if (bool_decide (imm = None))
       (emit_ins (load_immediate REGISTER_SCRATCH 0) ;*
        emit_ins (cmov size 0x45 src REGISTER_SCRATCH) ;*
        emit_ins (cmp_immediate size src (-1) None) ;*
        emit_ins (cmov size 0x45 src REGISTER_SCRATCH) ;*
        emit_ins (test size REGISTER_SCRATCH REGISTER_SCRATCH None)) ;*
     emit_ins (load_immediate REGISTER_SCRATCH (as_i64 pc)) ;*
     emit_to_anchor (conditional_jump_immediate 0x84) ANCHOR_DIV_OVERFLOW 6).

(* src/jit.rs:1302-1393, JitCompiler::emit_product_quotient_remainder *)
Definition emit_product_quotient_remainder (size : OperandSize) (alt_dst division signed : bool)
    (src dst : X86Register) (imm : option Z) : Jit unit :=
  j_if division (emit_division_checks size signed src dst imm) ;*
  match imm with
  | Some imm => emit_load_constant REGISTER_SCRATCH imm
  | None => emit_ins (mov S64 src REGISTER_SCRATCH)
  end ;*
  j_if (negb (bool_decide (dst = RAX)))
    (emit_ins (push RAX None) ;* emit_ins (mov S64 dst RAX)) ;*
  j_if (negb (bool_decide (dst = RDX))) (emit_ins (push RDX None)) ;*
  j_if division
    (if signed then emit_ins (sign_extend_rax_rdx size) else emit_ins (alu size 0x31 RDX RDX None)) ;*
  emit_ins (alu_immediate size 0xf7 (Z.lor (Z.lor 0x4 (Z.shiftl (Z.b2z division) 1)) (Z.b2z signed))
              REGISTER_SCRATCH 0 None) ;*
  j_if (negb (bool_decide (dst = RDX)))
    (j_if alt_dst (emit_ins (mov S64 RDX dst)) ;* emit_ins (pop RDX)) ;*
  j_if (negb (bool_decide (dst = RAX)))
    (j_if (negb alt_dst) (emit_ins (mov S64 RAX dst)) ;* emit_ins (pop RAX)) ;*
  j_if (bool_decide (size = S32) && (signed && negb (explicit_sign_extension_of_results v)))
    (emit_ins (alu S64 0x63 dst dst None)).

(** ** Results *)

(* src/jit.rs:1395-1401, JitCompiler::emit_set_exception_kind *)
Definition emit_set_exception_kind (err : EbpfError) : Jit unit :=
  let* result := slot_access ProgramResult in
  emit_ins (lea S64 REGISTER_PTR_TO_VM REG_R0 (Some result)) ;*
  emit_ins (store_immediate S64 REG_R0 (Offset 0) (discriminant (SErr (T := Z) err))) ;*
  emit_ins (store_immediate S64 REG_R0 (Offset 8) (err_kind err)).

(* src/jit.rs:1403-1408, JitCompiler::emit_result_is_err *)
Definition emit_result_is_err (destination : X86Register) : Jit unit :=
  let* result := slot_access ProgramResult in
  emit_ins (lea S64 REGISTER_PTR_TO_VM destination (Some result)) ;*
  emit_ins (cmp_immediate S64 destination (discriminant (SOk (E := EbpfError) 0)) (Some (Offset 0))).
End Emit.
