(* ===== verification/JitSubroutines.v ===== *)
(** The subroutines in front of compiled programs (src/jit.rs,
    [JitCompiler::emit_subroutines]), one definition per part of the function. *)
From S2P Require Import Prelude Error Ebpf Program Executable X86 Jit.
Open Scope list_scope.
Open Scope jit_scope.

Section Subroutines.
Context `{Rnd : Rand} `{Host : JitHost}.
Context (config : Config) (v : SBPFVersion) (program_vm_addr : Z).

(** The word at an offset from the stack pointer. *)
Definition at_stack (offset : Z) : X86IndirectAccess := OffsetIndexShift offset RSP 0.

(** A slot of the machine, plus an offset. *)
Definition slot_plus (slot : RuntimeEnvironmentSlot) (offset : Z) : Jit X86IndirectAccess :=
  let* base := slot_in_vm slot in
  let* sum := j_lift (i32_checked (base + offset)) in
  j_ret (Offset sum).

(* src/jit.rs:1411-1431, JitCompiler::emit_subroutines *)
Definition emit_trace_routine : Jit unit :=
  j_if config.(enable_register_tracing)
    (set_anchor ANCHOR_TRACE ;*
     emit_ins (push REGISTER_SCRATCH None) ;*
     for_each (reverse REGISTER_MAP) (fun reg => emit_ins (push reg None)) ;*
     emit_ins (mov S64 RSP REG_R0) ;*
     emit_ins (alu_immediate S64 0x81 0 RSP (- 8 * 3) None) ;*
     let* trace := slot_in_vm RegisterTrace in
     emit_rust_call (VConstant64 (as_i64 trace_function) false)
       [ mkArg 1 (VRegister REG_R0);
         mkArg 0 (VRegisterPlusConstant32 REGISTER_PTR_TO_VM trace false) ] None ;*
     emit_ins (alu_immediate S64 0x81 0 RSP (8 * 3) None) ;*
     emit_ins (pop REG_R0) ;*
     emit_ins (alu_immediate S64 0x81 0 RSP (8 * (zlen REGISTER_MAP - 1)) None) ;*
     emit_ins (pop REGISTER_SCRATCH) ;*
     emit_ins return_near).

(* src/jit.rs:1433-1455, JitCompiler::emit_subroutines *)
Definition emit_epilogue : Jit unit :=
  set_anchor ANCHOR_EPILOGUE ;*
  j_if config.(enable_instruction_meter)
    (emit_ins (alu_immediate S64 0x81 5 REGISTER_INSTRUCTION_METER 1 None) ;*
     emit_ins (alu S64 0x29 REGISTER_SCRATCH REGISTER_INSTRUCTION_METER None) ;*
     let* previous := slot_access PreviousInstructionMeter in
     emit_ins (alu S64 0x2B REGISTER_INSTRUCTION_METER REGISTER_PTR_TO_VM (Some previous)) ;*
     emit_ins (alu_immediate S64 0xf7 3 REGISTER_INSTRUCTION_METER 0 None) ;*
     let* due := slot_access DueInsnCount in
     emit_ins (store S64 REGISTER_INSTRUCTION_METER REGISTER_PTR_TO_VM due)) ;*
  let* active := gets stopwatch_is_active in
  j_if active
    (let* denominator := slot_in_vm StopwatchDenominator in
     let* numerator := slot_in_vm StopwatchNumerator in
     emit_rust_call (VConstant64 (as_i64 stopwatch_function) false)
       [ mkArg 1 (VRegisterIndirect REGISTER_PTR_TO_VM denominator false);
         mkArg 0 (VRegisterIndirect REGISTER_PTR_TO_VM numerator false) ] None) ;*
  let* host_stack := slot_access HostStackPointer in
  emit_ins (load S64 REGISTER_PTR_TO_VM RSP host_stack) ;*
  emit_ins return_near.

(* src/jit.rs:1457-1482, JitCompiler::emit_subroutines *)
Definition emit_exit_routines : Jit unit :=
  set_anchor ANCHOR_THROW_EXCEEDED_MAX_INSTRUCTIONS ;*
  emit_set_exception_kind ExceededMaxInstructions ;*
  emit_ins (mov S64 REGISTER_INSTRUCTION_METER REGISTER_SCRATCH) ;*
  set_anchor ANCHOR_THROW_EXCEPTION_UNCHECKED ;*
  let* registers_11 := slot_plus Registers (11 * 8) in
  emit_ins (store S64 REGISTER_SCRATCH REGISTER_PTR_TO_VM registers_11) ;*
  emit_to_anchor jump_immediate ANCHOR_EPILOGUE 5 ;*
  set_anchor ANCHOR_EXIT ;*
  j_if config.(enable_instruction_meter)
    (emit_ins (alu_immediate S64 0x81 0 REGISTER_INSTRUCTION_METER 1 None)) ;*
  let* result := slot_access ProgramResult in
  emit_ins (lea S64 REGISTER_PTR_TO_VM REGISTER_SCRATCH (Some result)) ;*
  emit_ins (store S64 REG_R0 REGISTER_SCRATCH (Offset 8)) ;*
  emit_ins (alu S64 0x31 REGISTER_SCRATCH REGISTER_SCRATCH None) ;*
  emit_to_anchor jump_immediate ANCHOR_EPILOGUE 5 ;*
  set_anchor ANCHOR_THROW_EXCEPTION ;*
  emit_validate_instruction_count config None ;*
  emit_to_anchor jump_immediate ANCHOR_THROW_EXCEPTION_UNCHECKED 5.

(* src/jit.rs:1484-1517, JitCompiler::emit_subroutines *)
Definition emit_error_handlers : Jit unit :=
  set_anchor ANCHOR_CALL_DEPTH_EXCEEDED ;*
  emit_set_exception_kind CallDepthExceeded ;*
  emit_to_anchor jump_immediate ANCHOR_THROW_EXCEPTION 5 ;*
  set_anchor ANCHOR_CALL_REG_OUTSIDE_TEXT_SEGMENT ;*
  emit_set_exception_kind CallOutsideTextSegment ;*
  emit_ins (load S64 RSP REGISTER_SCRATCH (at_stack (-8))) ;*
  emit_to_anchor jump_immediate ANCHOR_THROW_EXCEPTION 5 ;*
  set_anchor ANCHOR_DIV_BY_ZERO ;*
  emit_set_exception_kind DivideByZero ;*
  emit_to_anchor jump_immediate ANCHOR_THROW_EXCEPTION 5 ;*
  set_anchor ANCHOR_DIV_OVERFLOW ;*
  emit_set_exception_kind DivideOverflow ;*
  emit_to_anchor jump_immediate ANCHOR_THROW_EXCEPTION 5 ;*
  set_anchor ANCHOR_CALL_REG_UNSUPPORTED_INSTRUCTION ;*
  emit_ins (load S64 RSP REGISTER_SCRATCH (at_stack (-8))) ;*
  emit_ins (pop REG_R0) ;*
  set_anchor ANCHOR_CALL_UNSUPPORTED_INSTRUCTION ;*
  j_if config.(enable_register_tracing) (emit_to_anchor call_immediate ANCHOR_TRACE 5) ;*
  emit_set_exception_kind UnsupportedInstruction ;*
  emit_to_anchor jump_immediate ANCHOR_THROW_EXCEPTION 5.

(* src/jit.rs:1519-1544, JitCompiler::emit_subroutines *)
Definition emit_external_call_routine : Jit unit :=
  set_anchor ANCHOR_EXTERNAL_FUNCTION_CALL ;*
  emit_ins (push_immediate S64 (-1)) ;*
  j_if config.(enable_instruction_meter)
    (let* due := slot_access DueInsnCount in
     emit_ins (store S64 REGISTER_INSTRUCTION_METER REGISTER_PTR_TO_VM due)) ;*
  emit_rust_call (VRegister REGISTER_SCRATCH)
    [ mkArg 5 (VRegister R9); mkArg 4 (VRegister R8); mkArg 3 (VRegister RCX);
      mkArg 2 (VRegister RDX); mkArg 1 (VRegister RSI); mkArg 0 (VRegister REGISTER_PTR_TO_VM) ] None ;*
  j_if config.(enable_instruction_meter)
    (let* previous := slot_access PreviousInstructionMeter in
     emit_ins (load S64 REGISTER_PTR_TO_VM REGISTER_INSTRUCTION_METER previous)) ;*
  emit_result_is_err REGISTER_SCRATCH ;*
  emit_ins (pop REGISTER_SCRATCH) ;*
  emit_to_anchor (conditional_jump_immediate 0x85) ANCHOR_EPILOGUE 6 ;*
  let* result := slot_access ProgramResult in
  emit_ins (lea S64 REGISTER_PTR_TO_VM REGISTER_SCRATCH (Some result)) ;*
  emit_ins (load S64 REGISTER_SCRATCH REG_R0 (Offset 8)) ;*
  emit_ins return_near.

(* src/jit.rs:1546-1576, JitCompiler::emit_subroutines *)
Definition emit_call_prologue_routine : Jit unit :=
  set_anchor ANCHOR_INTERNAL_FUNCTION_CALL_PROLOGUE ;*
  emit_validate_instruction_count config None ;*
  emit_ins (alu_immediate S64 0x81 5 RSP (8 * (SCRATCH_REGS + 1)) None) ;*
  emit_ins (store S64 REGISTER_SCRATCH RSP (at_stack 0)) ;*
  emit_ins (load S64 RSP REGISTER_SCRATCH (at_stack (8 * (SCRATCH_REGS + 1)))) ;*
  for_each (imap (fun i reg => (Z.of_nat i, reg)) SCRATCH_REGISTERS)
    (fun '(i, reg) => emit_ins (store S64 reg RSP (at_stack (8 * (SCRATCH_REGS - i + 1))))) ;*
  emit_ins (store S64 REG_FP RSP (at_stack 8)) ;*
  emit_ins (xchg S64 REGISTER_SCRATCH RSP (Some (at_stack 0))) ;*
  let* call_depth_access := slot_access CallDepth in
  emit_ins (alu_immediate S64 0x81 0 REGISTER_PTR_TO_VM 1 (Some call_depth_access)) ;*
  emit_ins (cmp_immediate S32 REGISTER_PTR_TO_VM (as_i64 config.(max_call_depth)) (Some call_depth_access)) ;*
  emit_to_anchor (conditional_jump_immediate 0x83) ANCHOR_CALL_DEPTH_EXCEEDED 6 ;*
  j_if (negb (manual_stack_frame_bump v))
    (let num_frames := if stack_frame_gaps v && config.(enable_stack_frame_gaps) then 2 else 1 in
     let* stack_frame_size := j_lift (i64_mul (as_i64 config.(stack_frame_size)) num_frames) in
     emit_ins (alu_immediate S64 0x81 0 REG_FP stack_frame_size None)) ;*
  emit_ins return_near.

(* src/jit.rs:1578-1616, JitCompiler::emit_subroutines *)
Definition emit_call_reg_routine : Jit unit :=
  set_anchor ANCHOR_INTERNAL_FUNCTION_CALL_REG ;*
  emit_ins (push REG_R0 None) ;*
  emit_ins (load_immediate REG_R0 (as_i64 program_vm_addr)) ;*
  emit_ins (alu S64 0x29 REG_R0 REGISTER_SCRATCH None) ;*
  emit_ins (alu_immediate S64 0x81 4 REGISTER_SCRATCH (Z.lnot (INSN_SIZE - 1)) None) ;*
  let* self := get in
  let* program_size := j_lift (u64_mul (zlen self.(jit_pc_section)) INSN_SIZE) in
  emit_ins (cmp_immediate S64 REGISTER_SCRATCH (as_i64 program_size) None) ;*
  emit_to_anchor (conditional_jump_immediate 0x83) ANCHOR_CALL_REG_OUTSIDE_TEXT_SEGMENT 6 ;*
  let shift_amount := trailing_zeros INSN_SIZE in
  debug_assert (INSN_SIZE =? Z.shiftl 1 shift_amount) ;*
  emit_ins (alu_immediate S64 0xc1 5 REGISTER_SCRATCH shift_amount None) ;*
  emit_ins (load_immediate REG_R0 (as_i64 self.(jit_pc_ptr))) ;*
  emit_ins (load S32 REG_R0 REG_R0 (OffsetIndexShift 0 REGISTER_SCRATCH 2)) ;*
  emit_ins (test_immediate S32 REG_R0 (Z.shiftl 1 31) None) ;*
  emit_to_anchor (conditional_jump_immediate 0x85) ANCHOR_CALL_REG_UNSUPPORTED_INSTRUCTION 6 ;*
  emit_ins (alu_immediate S32 0x81 4 REG_R0 i32_max None) ;*
  emit_ins (alu S64 0x2b REGISTER_INSTRUCTION_METER RSP (Some (at_stack (-8)))) ;*
  emit_ins (alu_immediate S64 0x81 5 REGISTER_INSTRUCTION_METER 1 None) ;*
  emit_ins (alu S64 0x01 REGISTER_SCRATCH REGISTER_INSTRUCTION_METER None) ;*
  emit_ins (mov_mmx S64 REGISTER_SCRATCH MM0) ;*
  emit_ins (load_immediate REGISTER_SCRATCH (as_i64 self.(jit_text_ptr))) ;*
  emit_ins (alu S64 0x01 REGISTER_SCRATCH REG_R0 None) ;*
  emit_ins (mov_mmx S64 MM0 REGISTER_SCRATCH) ;*
  emit_ins (xchg S64 REG_R0 RSP (Some (at_stack 0))) ;*
  emit_ins return_near.

(** [MemoryMapping::load::<T> as i64] and [MemoryMapping::store::<T> as i64] *)
Definition access_function (function : Z -> Z) (len : Z) : Jit Z :=
  if existsb (Z.eqb len) [1; 2; 4; 8] then j_ret (as_i64 (function len)) else j_panic DebugAssertFailed.

(* src/jit.rs:1624-1674, JitCompiler::emit_subroutines *)
Definition emit_translation_routine (anchor_base len : Z) : Jit unit :=
  let* key := gets immediate_value_key in
  let lower_key := as_i32 key in
  let target_offset := anchor_base + trailing_zeros len in
  set_anchor (ANCHOR_TRANSLATE_MEMORY_ADDRESS + target_offset) ;*
  let* mapping := slot_in_vm SlotMemoryMapping in
  let* result := slot_in_vm ProgramResult in
  let last_arguments :=
    [ mkArg 1 (VRegisterPlusConstant32 REGISTER_PTR_TO_VM mapping false);
      mkArg 0 (VRegisterPlusConstant32 REGISTER_PTR_TO_VM result false) ] in
  (if anchor_base =? 0 then
     let* load := access_function load_function len in
     emit_rust_call (VConstant64 load false)
       ([ mkArg 2 (VRegister REGISTER_SCRATCH); mkArg 3 (VConstant64 0 false) ] ++ last_arguments) None
   else
     j_if (anchor_base =? 8)
       (emit_ins (alu_immediate S64 0x81 0 RSP lower_key (Some (at_stack (-80))))) ;*
     let* store := access_function store_function len in
     emit_rust_call (VConstant64 store false)
       ([ mkArg 3 (VRegister REGISTER_SCRATCH); mkArg 2 (VRegisterIndirect RSP (-8) false);
          mkArg 4 (VConstant64 0 false) ] ++ last_arguments) None) ;*
  emit_result_is_err REGISTER_SCRATCH ;*
  emit_ins (pop REGISTER_SCRATCH) ;*
  emit_ins (xchg S64 REGISTER_SCRATCH RSP (Some (at_stack 0))) ;*
  emit_to_anchor (conditional_jump_immediate 0x85) ANCHOR_THROW_EXCEPTION 6 ;*
  j_if (anchor_base =? 0)
    (let* value := slot_plus ProgramResult 8 in
     emit_ins (load S64 REGISTER_PTR_TO_VM REGISTER_SCRATCH value)) ;*
  emit_ins return_near.

(* src/jit.rs:1618-1675, JitCompiler::emit_subroutines *)
Definition emit_translation_routines : Jit unit :=
  for_each [ (0, 1); (0, 2); (0, 4); (0, 8);
             (4, 1); (4, 2); (4, 4); (4, 8);
             (8, 1); (8, 2); (8, 4); (8, 8) ]
    (fun '(anchor_base, len) => emit_translation_routine anchor_base len).

(* src/jit.rs:1410-1676, JitCompiler::emit_subroutines *)
Definition emit_subroutines : Jit unit :=
  emit_trace_routine ;*
  emit_epilogue ;*
  emit_exit_routines ;*
  emit_error_handlers ;*
  emit_external_call_routine ;*
  emit_call_prologue_routine ;*
  emit_call_reg_routine ;*
  emit_translation_routines.
End Subroutines.
