(* ===== verification/JitCompile.v ===== *)
(** Compilation (src/jit.rs): [JitProgram], [JitCompiler::new] and [JitCompiler::compile] with
    the arms of its match grouped by class, in source order. *)
From S2P Require Import Prelude Error Ebpf Program Executable Pages X86 Jit JitSubroutines.
Open Scope rust_scope.
Open Scope list_scope.
Open Scope jit_scope.

(** * The compiled program *)

(** The sections are memory of whole pages: first the table of offsets, at [jp_pc_ptr],
    then the machine code, at [jp_text_ptr]. *)
(* src/jit.rs:53-61, JitProgram *)
Record JitProgram := mkJitProgram {
  jp_page_size : Z;
  jp_pc_ptr : Z;
  jp_text_ptr : Z;
  jp_pc_section : list Z;
  jp_text_section : list Z;
}.

Section Program.
Context `{Pgs : PageHost}.

(** Fresh pages are zero: [pc] entries, and [over_allocated_code_size] bytes of code. *)
(* src/jit.rs:64-79, JitProgram::new *)
Definition jit_program_new (pc code_size : Z) (os : Os) :
    Exec EbpfError (Z * Z * Z * list Z * Z * Os) :=
  let page_size := get_system_page_size in
  let! pc_size := u64_mul pc 4 in
  let! pc_loc_table_size := round_to_page_size pc_size page_size in
  let! over_allocated_code_size := round_to_page_size code_size page_size in
  let! total := u64_add pc_loc_table_size over_allocated_code_size in
  let! (raw, os) := allocate_pages total os in
  Ret (page_size, raw, raw + pc_loc_table_size, replicate (Z.to_nat pc) 0, over_allocated_code_size, os).

(** The bytes behind the code are filled up to whole pages with traps, the pages behind
    are freed, and both sections are protected. *)
(* src/jit.rs:81-113, JitProgram::seal *)
Definition jit_program_seal (page_size pc_ptr text_ptr text_len : Z) (pc_section code : list Z) (os : Os) :
    Exec EbpfError (JitProgram * Os) :=
  let text_section_usage := zlen code in
  if page_size =? 0 then Ret (mkJitProgram page_size pc_ptr text_ptr pc_section code, os)
  else
    let! pc_loc_table_size := round_to_page_size (4 * zlen pc_section) page_size in
    let! over_allocated_code_size := round_to_page_size text_len page_size in
    let! code_size := round_to_page_size text_section_usage page_size in
    let! traps := u64_sub code_size text_section_usage in
    if text_len <? text_section_usage + traps then Panic InvalidHostAccess
    else
      let! (_, os) :=
        if code_size <? over_allocated_code_size
        then free_pages (pc_ptr + pc_loc_table_size + code_size) (over_allocated_code_size - code_size) os
        else Ret (tt, os) in
      let! (_, os) := protect_pages pc_ptr pc_loc_table_size false os in
      let! (_, os) := protect_pages (pc_ptr + pc_loc_table_size) code_size true os in
      Ret (mkJitProgram page_size pc_ptr (pc_ptr + pc_loc_table_size) pc_section code, os).

(* src/jit.rs:175-178, JitProgram::machine_code_length *)
Definition machine_code_length (self : JitProgram) : Z := zlen self.(jp_text_section).

(* src/jit.rs:180-186, JitProgram::mem_size *)
Definition jit_mem_size {E} (self : JitProgram) : Exec E Z :=
  let! pc_loc_table_size := round_to_page_size (4 * zlen self.(jp_pc_section)) self.(jp_page_size) in
  let! code_size := round_to_page_size (zlen self.(jp_text_section)) self.(jp_page_size) in
  u64_add pc_loc_table_size code_size.

(* src/jit.rs:189-203, Drop for JitProgram *)
Definition jit_program_drop (self : JitProgram) (os : Os) : Exec EbpfError Os :=
  let! pc_loc_table_size := round_to_page_size (4 * zlen self.(jp_pc_section)) self.(jp_page_size) in
  let! code_size := round_to_page_size (zlen self.(jp_text_section)) self.(jp_page_size) in
  let! size := u64_add pc_loc_table_size code_size in
  if 0 <? size then
    match free_pages self.(jp_pc_ptr) size os with
    | Ret (_, os) => Ret os
    | Err _ => Ret os
    | Panic f => Panic f
    end
  else Ret os.
End Program.

(** * Instructions *)

Section Instructions.
Context `{Bo : LittleEndian} `{Rnd : Rand} `{Host : JitHost}.
Context (config : Config) (executable : Executable) (program : list Z).
Let v : SBPFVersion := executable.(sbpf_version).

Section Arms.
Context (insn : Insn) (dst src : X86Register) (target_pc : Z).
Let o : Z := insn.(opc).

(* src/jit.rs:464-466, JitCompiler::compile *)
Definition load_op (len : Z) : Jit unit :=
  emit_address_translation config (Some dst) (VRegisterPlusConstant64 src insn.(off) true) len None.
Definition store_imm_op (len : Z) : Jit unit :=
  emit_address_translation config None (VRegisterPlusConstant64 dst insn.(off) true) len
    (Some (VConstant64 insn.(imm) true)).
Definition store_reg_op (len : Z) : Jit unit :=
  emit_address_translation config None (VRegisterPlusConstant64 dst insn.(off) true) len
    (Some (VRegister src)).
Definition alu_imm (size : OperandSize) (opcode opcode_extension : Z) : Jit unit :=
  emit_sanitized_alu config size opcode opcode_extension dst insn.(imm).
Definition branch_imm (size : OperandSize) (op : Z) (bitwise : bool) : Jit unit :=
  emit_conditional_branch_imm config size op bitwise insn.(imm) dst target_pc.
Definition branch_reg (size : OperandSize) (op : Z) (bitwise : bool) : Jit unit :=
  emit_conditional_branch_reg config size op bitwise src dst target_pc.

(** The sign extension of a 32-bit result. *)
Definition sign_extend : Jit unit :=
  j_if (negb (explicit_sign_extension_of_results v)) (emit_ins (alu S64 0x63 dst dst None)).

(* src/jit.rs:451-461, JitCompiler::compile *)
Definition compile_lddw : Jit unit :=
  let* pc := get_pc in
  let* target := j_lift (u64_add pc 2) in
  emit_validate_and_profile_instruction_count config (Some target) ;*
  modify (set_pc (pc + 1)) ;*
  let* self := get in
  let* anchor := j_lift (index_slice self.(anchors) ANCHOR_CALL_UNSUPPORTED_INSTRUCTION) in
  let* anchor := j_lift (expect DebugAssertFailed anchor) in
  let* pc_section := j_lift (set_index self.(jit_pc_section) (pc + 1) (as_u32 anchor)) in
  modify (set_pc_section pc_section) ;*
  let* insn := j_lift (augment_lddw_unchecked program insn) in
  emit_load_constant config dst insn.(imm).

(* src/jit.rs:518-530, JitCompiler::compile *)
Definition compile_sub_imm (size : OperandSize) : Jit unit :=
  if swap_sub_reg_imm_operands v then
    emit_ins (alu_immediate size 0xf7 3 dst 0 None) ;*
    j_if (negb (insn.(imm) =? 0)) (emit_sanitized_alu config size 0x01 0 dst insn.(imm))
  else emit_sanitized_alu config size 0x29 5 dst insn.(imm).

(* src/jit.rs:537-547, JitCompiler::compile *)
Definition compile_mul_imm (size : OperandSize) : Jit unit :=
  emit_load_constant config REGISTER_SCRATCH insn.(imm) ;*
  emit_ins (alu_escaped size 1 0xaf dst REGISTER_SCRATCH None).

(** [DIV] and [MOD] before the PQR class. *)
(* src/jit.rs:548-555, JitCompiler::compile *)
Definition compile_div_mod (size : OperandSize) (source : X86Register) (immediate : option Z) : Jit unit :=
  emit_product_quotient_remainder config v size
    (Z.land o BPF_ALU_OP_MASK =? BPF_MOD) (negb (Z.land o BPF_ALU_OP_MASK =? BPF_MUL))
    (Z.land o BPF_ALU_OP_MASK =? BPF_MUL) source dst immediate.

(* src/jit.rs:593-599, JitCompiler::compile *)
Definition compile_mov32_imm : Jit unit :=
  if should_sanitize_constant config insn.(imm)
  then emit_sanitized_load_immediate dst (as_u32 insn.(imm))
  else emit_ins (load_immediate dst (as_u32 insn.(imm))).

(* src/jit.rs:609-622, JitCompiler::compile *)
Definition compile_le : Jit unit :=
  if insn.(imm) =? 16 then emit_ins (alu_immediate S32 0x81 4 dst 0xffff None)
  else if insn.(imm) =? 32 then emit_ins (alu_immediate S32 0x81 4 dst (-1) None)
  else if insn.(imm) =? 64 then j_ret tt
  else j_throw InvalidInstruction.

(* src/jit.rs:623-636, JitCompiler::compile *)
Definition compile_be : Jit unit :=
  if insn.(imm) =? 16 then
    emit_ins (bswap S16 dst) ;*
    emit_ins (alu_immediate S32 0x81 4 dst 0xffff None)
  else if insn.(imm) =? 32 then emit_ins (bswap S32 dst)
  else if insn.(imm) =? 64 then emit_ins (bswap S64 dst)
  else j_throw InvalidInstruction.

(** The fields of an opcode of the PQR class select the operation. *)
(* src/jit.rs:727-756, JitCompiler::compile *)
Definition compile_pqr (source : X86Register) (immediate : option Z) : Jit unit :=
  emit_product_quotient_remainder config v (if Z.testbit o 4 then S64 else S32)
    (Z.testbit o 5) (Z.testbit o 6) (Z.testbit o 7) source dst immediate.

(* src/jit.rs:809-840, JitCompiler::compile *)
Definition compile_call_imm : Jit unit :=
  let* pc := get_pc in
  let* external :=
    if negb (static_syscalls v) || (insn.(Ebpf.src) =? 0) then
      match lookup_by_key (get_function_registry executable.(loader)) (as_u32 insn.(imm)) with
      | Some (_, function) =>
          emit_validate_and_profile_instruction_count config (Some 0) ;*
          emit_ins (load_immediate REGISTER_SCRATCH (as_i64 function)) ;*
          emit_to_anchor call_immediate ANCHOR_EXTERNAL_FUNCTION_CALL 5 ;*
          emit_undo_profile_instruction_count config 0 ;*
          j_ret true
      | None => j_ret false
      end
    else j_ret false in
  let* internal :=
    if static_syscalls v then
      let target_pc := i64_saturating_add (i64_saturating_add (as_i64 pc) insn.(imm)) 1 in
      if is_pc_in_program program (as_u64 target_pc) && (insn.(Ebpf.src) =? 1)
      then emit_internal_call config (VConstant64 target_pc true) ;* j_ret true
      else j_ret false
    else
      match lookup_by_key executable.(function_registry) (as_u32 insn.(imm)) with
      | Some (_, target_pc) => emit_internal_call config (VConstant64 (as_i64 target_pc) true) ;* j_ret true
      | None => j_ret false
      end in
  j_if (negb (external || internal))
    (emit_ins (load_immediate REGISTER_SCRATCH (as_i64 pc)) ;*
     emit_to_anchor jump_immediate ANCHOR_CALL_UNSUPPORTED_INSTRUCTION 5).

(* src/jit.rs:841-850, JitCompiler::compile *)
Definition compile_call_reg : Jit unit :=
  let* target_pc :=
    if callx_uses_src_reg v then j_ret src
    else if callx_uses_dst_reg v then j_ret dst
    else j_lift (index_slice REGISTER_MAP (as_u64 insn.(imm))) in
  emit_internal_call config (VRegister target_pc).

(* src/jit.rs:851-865, JitCompiler::compile *)
Definition compile_exit : Jit unit :=
  emit_validate_and_profile_instruction_count config (Some 0) ;*
  let* call_depth_access := slot_access CallDepth in
  emit_ins (cmp_immediate S32 REGISTER_PTR_TO_VM 0 (Some call_depth_access)) ;*
  emit_to_anchor (conditional_jump_immediate 0x84) ANCHOR_EXIT 6 ;*
  emit_ins (alu_immediate S64 0x81 5 REGISTER_PTR_TO_VM 1 (Some call_depth_access)) ;*
  emit_ins return_near.

(* src/jit.rs:782-786, JitCompiler::compile *)
Definition compile_ja : Jit unit :=
  emit_validate_and_profile_instruction_count config (Some target_pc) ;*
  let* jump_offset := relative_to_target_pc target_pc 5 in
  emit_ins (jump_immediate jump_offset).

(* src/jit.rs:451-461, JitCompiler::compile *)
Definition jit_ld : list (bool * (unit -> Jit unit)) :=
  [ (o =? LD_DW_IMM) && negb (disable_lddw v) ==>> compile_lddw ].

(* src/jit.rs:463-475, JitCompiler::compile *)
Definition jit_ldx : list (bool * (unit -> Jit unit)) :=
  [ (o =? LD_B_REG) && negb (move_memory_instruction_classes v) ==>> load_op 1;
    (o =? LD_H_REG) && negb (move_memory_instruction_classes v) ==>> load_op 2;
    (o =? LD_W_REG) && negb (move_memory_instruction_classes v) ==>> load_op 4;
    (o =? LD_DW_REG) && negb (move_memory_instruction_classes v) ==>> load_op 8 ].

(* src/jit.rs:477-489, JitCompiler::compile *)
Definition jit_st : list (bool * (unit -> Jit unit)) :=
  [ (o =? ST_B_IMM) && negb (move_memory_instruction_classes v) ==>> store_imm_op 1;
    (o =? ST_H_IMM) && negb (move_memory_instruction_classes v) ==>> store_imm_op 2;
    (o =? ST_W_IMM) && negb (move_memory_instruction_classes v) ==>> store_imm_op 4;
    (o =? ST_DW_IMM) && negb (move_memory_instruction_classes v) ==>> store_imm_op 8 ].

(* src/jit.rs:491-503, JitCompiler::compile *)
Definition jit_stx : list (bool * (unit -> Jit unit)) :=
  [ (o =? ST_B_REG) && negb (move_memory_instruction_classes v) ==>> store_reg_op 1;
    (o =? ST_H_REG) && negb (move_memory_instruction_classes v) ==>> store_reg_op 2;
    (o =? ST_W_REG) && negb (move_memory_instruction_classes v) ==>> store_reg_op 4;
    (o =? ST_DW_REG) && negb (move_memory_instruction_classes v) ==>> store_reg_op 8 ].

(* src/jit.rs:505-636, JitCompiler::compile *)
Definition jit_alu32 : list (bool * (unit -> Jit unit)) :=
  [ (o =? ADD32_IMM) ==>> (alu_imm S32 0x01 0 ;* sign_extend);
    (o =? ADD32_REG) ==>> (emit_ins (alu S32 0x01 src dst None) ;* sign_extend);
    (o =? SUB32_IMM) ==>> (compile_sub_imm S32 ;* sign_extend);
    (o =? SUB32_REG) ==>> (emit_ins (alu S32 0x29 src dst None) ;* sign_extend);
    (o =? MUL32_IMM) && negb (enable_pqr v) ==>> (compile_mul_imm S32 ;* sign_extend);
    opc_in o [DIV32_IMM; MOD32_IMM] && negb (enable_pqr v) ==>> compile_div_mod S32 dst (Some insn.(imm));
    (o =? LD_1B_REG) && move_memory_instruction_classes v ==>> load_op 1;
    (o =? MUL32_REG) && negb (enable_pqr v) ==>> (emit_ins (alu_escaped S32 1 0xaf dst src None) ;* sign_extend);
    opc_in o [DIV32_REG; MOD32_REG] && negb (enable_pqr v) ==>> compile_div_mod S32 src None;
    (o =? LD_2B_REG) && move_memory_instruction_classes v ==>> load_op 2;
    (o =? OR32_IMM) ==>> alu_imm S32 0x09 1;
    (o =? OR32_REG) ==>> emit_ins (alu S32 0x09 src dst None);
    (o =? AND32_IMM) ==>> alu_imm S32 0x21 4;
    (o =? AND32_REG) ==>> emit_ins (alu S32 0x21 src dst None);
    (o =? LSH32_IMM) ==>> emit_shift S32 4 REGISTER_SCRATCH dst (Some insn.(imm));
    (o =? LSH32_REG) ==>> emit_shift S32 4 src dst None;
    (o =? RSH32_IMM) ==>> emit_shift S32 5 REGISTER_SCRATCH dst (Some insn.(imm));
    (o =? RSH32_REG) ==>> emit_shift S32 5 src dst None;
    (o =? NEG32) && negb (disable_neg v) ==>> emit_ins (alu_immediate S32 0xf7 3 dst 0 None);
    (o =? LD_4B_REG) && move_memory_instruction_classes v ==>> load_op 4;
    (o =? LD_8B_REG) && move_memory_instruction_classes v ==>> load_op 8;
    (o =? XOR32_IMM) ==>> alu_imm S32 0x31 6;
    (o =? XOR32_REG) ==>> emit_ins (alu S32 0x31 src dst None);
    (o =? MOV32_IMM) ==>> compile_mov32_imm;
    (o =? MOV32_REG) ==>> (if explicit_sign_extension_of_results v then emit_ins (mov_with_sign_extension S64 src dst)
          else emit_ins (mov S32 src dst));
    (o =? ARSH32_IMM) ==>> emit_shift S32 7 REGISTER_SCRATCH dst (Some insn.(imm));
    (o =? ARSH32_REG) ==>> emit_shift S32 7 src dst None;
    (o =? LE) && negb (disable_le v) ==>> compile_le;
    (o =? BE) ==>> compile_be ].

(* src/jit.rs:637-725, JitCompiler::compile *)
Definition jit_alu64 : list (bool * (unit -> Jit unit)) :=
  [ (o =? ADD64_IMM) ==>> alu_imm S64 0x01 0;
    (o =? ADD64_REG) ==>> emit_ins (alu S64 0x01 src dst None);
    (o =? SUB64_IMM) ==>> compile_sub_imm S64;
    (o =? SUB64_REG) ==>> emit_ins (alu S64 0x29 src dst None);
    (o =? MUL64_IMM) && negb (enable_pqr v) ==>> compile_mul_imm S64;
    opc_in o [DIV64_IMM; MOD64_IMM] && negb (enable_pqr v) ==>> compile_div_mod S64 dst (Some insn.(imm));
    (o =? ST_1B_IMM) && move_memory_instruction_classes v ==>> store_imm_op 1;
    (o =? ST_2B_IMM) && move_memory_instruction_classes v ==>> store_imm_op 2;
    (o =? MUL64_REG) && negb (enable_pqr v) ==>> emit_ins (alu_escaped S64 1 0xaf dst src None);
    opc_in o [DIV64_REG; MOD64_REG] && negb (enable_pqr v) ==>> compile_div_mod S64 src None;
    (o =? ST_1B_REG) && move_memory_instruction_classes v ==>> store_reg_op 1;
    (o =? ST_2B_REG) && move_memory_instruction_classes v ==>> store_reg_op 2;
    (o =? OR64_IMM) ==>> alu_imm S64 0x09 1;
    (o =? OR64_REG) ==>> emit_ins (alu S64 0x09 src dst None);
    (o =? AND64_IMM) ==>> alu_imm S64 0x21 4;
    (o =? AND64_REG) ==>> emit_ins (alu S64 0x21 src dst None);
    (o =? LSH64_IMM) ==>> emit_shift S64 4 REGISTER_SCRATCH dst (Some insn.(imm));
    (o =? LSH64_REG) ==>> emit_shift S64 4 src dst None;
    (o =? RSH64_IMM) ==>> emit_shift S64 5 REGISTER_SCRATCH dst (Some insn.(imm));
    (o =? RSH64_REG) ==>> emit_shift S64 5 src dst None;
    (o =? ST_4B_IMM) && move_memory_instruction_classes v ==>> store_imm_op 4;
    (o =? NEG64) && negb (disable_neg v) ==>> emit_ins (alu_immediate S64 0xf7 3 dst 0 None);
    (o =? ST_4B_REG) && move_memory_instruction_classes v ==>> store_reg_op 4;
    (o =? ST_8B_IMM) && move_memory_instruction_classes v ==>> store_imm_op 8;
    (o =? ST_8B_REG) && move_memory_instruction_classes v ==>> store_reg_op 8;
    (o =? XOR64_IMM) ==>> alu_imm S64 0x31 6;
    (o =? XOR64_REG) ==>> emit_ins (alu S64 0x31 src dst None);
    (o =? MOV64_IMM) ==>> emit_load_constant config dst insn.(imm);
    (o =? MOV64_REG) ==>> emit_ins (mov S64 src dst);
    (o =? ARSH64_IMM) ==>> emit_shift S64 7 REGISTER_SCRATCH dst (Some insn.(imm));
    (o =? ARSH64_REG) ==>> emit_shift S64 7 src dst None;
    (o =? HOR64_IMM) && disable_lddw v ==>> emit_sanitized_alu config S64 0x09 1 dst (as_i64 (Z.shiftl (as_u64 insn.(imm)) 32)) ].

(* src/jit.rs:727-756, JitCompiler::compile *)
Definition jit_pqr : list (bool * (unit -> Jit unit)) :=
  [ opc_in o [LMUL32_IMM; LMUL64_IMM; UHMUL64_IMM; SHMUL64_IMM;
              UDIV32_IMM; UDIV64_IMM; UREM32_IMM; UREM64_IMM;
              SDIV32_IMM; SDIV64_IMM; SREM32_IMM; SREM64_IMM] && enable_pqr v ==>>
      compile_pqr dst (Some (if Z.testbit o 7 then insn.(imm) else Z.land insn.(imm) (2 ^ 32 - 1)));
    opc_in o [LMUL32_REG; LMUL64_REG; UHMUL64_REG; SHMUL64_REG;
              UDIV32_REG; UDIV64_REG; UREM32_REG; UREM64_REG;
              SDIV32_REG; SDIV64_REG; SREM32_REG; SREM64_REG] && enable_pqr v ==>>
      compile_pqr src None ].

(* src/jit.rs:757-779, JitCompiler::compile *)
Definition jit_jmp32 : list (bool * (unit -> Jit unit)) :=
  [ (o =? JEQ32_IMM) && enable_jmp32 v ==>> branch_imm S32 0x84 false;
    (o =? JEQ32_REG) && enable_jmp32 v ==>> branch_reg S32 0x84 false;
    (o =? JGT32_IMM) && enable_jmp32 v ==>> branch_imm S32 0x87 false;
    (o =? JGT32_REG) && enable_jmp32 v ==>> branch_reg S32 0x87 false;
    (o =? JGE32_IMM) && enable_jmp32 v ==>> branch_imm S32 0x83 false;
    (o =? JGE32_REG) && enable_jmp32 v ==>> branch_reg S32 0x83 false;
    (o =? JLT32_IMM) && enable_jmp32 v ==>> branch_imm S32 0x82 false;
    (o =? JLT32_REG) && enable_jmp32 v ==>> branch_reg S32 0x82 false;
    (o =? JLE32_IMM) && enable_jmp32 v ==>> branch_imm S32 0x86 false;
    (o =? JLE32_REG) && enable_jmp32 v ==>> branch_reg S32 0x86 false;
    (o =? JSET32_IMM) && enable_jmp32 v ==>> branch_imm S32 0x85 true;
    (o =? JSET32_REG) && enable_jmp32 v ==>> branch_reg S32 0x85 true;
    (o =? JNE32_IMM) && enable_jmp32 v ==>> branch_imm S32 0x85 false;
    (o =? JNE32_REG) && enable_jmp32 v ==>> branch_reg S32 0x85 false;
    (o =? JSGT32_IMM) && enable_jmp32 v ==>> branch_imm S32 0x8f false;
    (o =? JSGT32_REG) && enable_jmp32 v ==>> branch_reg S32 0x8f false;
    (o =? JSGE32_IMM) && enable_jmp32 v ==>> branch_imm S32 0x8d false;
    (o =? JSGE32_REG) && enable_jmp32 v ==>> branch_reg S32 0x8d false;
    (o =? JSLT32_IMM) && enable_jmp32 v ==>> branch_imm S32 0x8c false;
    (o =? JSLT32_REG) && enable_jmp32 v ==>> branch_reg S32 0x8c false;
    (o =? JSLE32_IMM) && enable_jmp32 v ==>> branch_imm S32 0x8e false;
    (o =? JSLE32_REG) && enable_jmp32 v ==>> branch_reg S32 0x8e false ].

(* src/jit.rs:781-808, JitCompiler::compile *)
Definition jit_jmp64 : list (bool * (unit -> Jit unit)) :=
  [ (o =? JA) ==>> compile_ja;
    (o =? JEQ64_IMM) ==>> branch_imm S64 0x84 false;
    (o =? JEQ64_REG) ==>> branch_reg S64 0x84 false;
    (o =? JGT64_IMM) ==>> branch_imm S64 0x87 false;
    (o =? JGT64_REG) ==>> branch_reg S64 0x87 false;
    (o =? JGE64_IMM) ==>> branch_imm S64 0x83 false;
    (o =? JGE64_REG) ==>> branch_reg S64 0x83 false;
    (o =? JLT64_IMM) ==>> branch_imm S64 0x82 false;
    (o =? JLT64_REG) ==>> branch_reg S64 0x82 false;
    (o =? JLE64_IMM) ==>> branch_imm S64 0x86 false;
    (o =? JLE64_REG) ==>> branch_reg S64 0x86 false;
    (o =? JSET64_IMM) ==>> branch_imm S64 0x85 true;
    (o =? JSET64_REG) ==>> branch_reg S64 0x85 true;
    (o =? JNE64_IMM) ==>> branch_imm S64 0x85 false;
    (o =? JNE64_REG) ==>> branch_reg S64 0x85 false;
    (o =? JSGT64_IMM) ==>> branch_imm S64 0x8f false;
    (o =? JSGT64_REG) ==>> branch_reg S64 0x8f false;
    (o =? JSGE64_IMM) ==>> branch_imm S64 0x8d false;
    (o =? JSGE64_REG) ==>> branch_reg S64 0x8d false;
    (o =? JSLT64_IMM) ==>> branch_imm S64 0x8c false;
    (o =? JSLT64_REG) ==>> branch_reg S64 0x8c false;
    (o =? JSLE64_IMM) ==>> branch_imm S64 0x8e false;
    (o =? JSLE64_REG) ==>> branch_reg S64 0x8e false ].

(* src/jit.rs:809-865, JitCompiler::compile *)
Definition jit_calls : list (bool * (unit -> Jit unit)) :=
  [ (o =? CALL_IMM) ==>> compile_call_imm;
    (o =? CALL_REG) ==>> compile_call_reg;
    (o =? EXIT) ==>> compile_exit ].

(* src/jit.rs:450-868, JitCompiler::compile *)
Definition jit_arms : list (bool * (unit -> Jit unit)) :=
  jit_ld ++ jit_ldx ++ jit_st ++ jit_stx ++ jit_alu32 ++ jit_alu64 ++ jit_pqr ++ jit_jmp32 ++ jit_jmp64
  ++ jit_calls.

(* src/jit.rs:450-868, JitCompiler::compile *)
Definition compile_insn : Jit unit :=
  match first_arm jit_arms with
  | Some body => body tt
  | None => j_throw UnsupportedInstruction
  end.
End Arms.

(** * The loop *)

(** There is room for one more instruction in the text section. *)
(* src/jit.rs:429-431, JitCompiler::compile *)
Definition check_room : Jit unit :=
  let* self := get in
  if self.(jit_text_len) <=? offset_in_text_section self + MAX_MACHINE_CODE_LENGTH_PER_INSTRUCTION * 2
  then j_throw (ExhaustedTextSegment self.(jit_pc))
  else j_ret tt.

(** One iteration of the loop. *)
(* src/jit.rs:428-871, JitCompiler::compile *)
Definition compile_step : Jit unit :=
  check_room ;*
  let* self := get in
  let pc := self.(jit_pc) in
  let* insn := j_lift (get_insn_unchecked program pc) in
  let* pc_section := j_lift (set_index self.(jit_pc_section) pc (as_u32 (offset_in_text_section self))) in
  modify (set_pc_section pc_section) ;*
  let* checkpoint := j_lift (u64_add self.(last_instruction_meter_validation_pc)
                                     config.(instruction_meter_checkpoint_distance)) in
  j_if (checkpoint <=? pc) (emit_validate_instruction_count config (Some pc)) ;*
  j_if config.(enable_register_tracing)
    (emit_ins (load_immediate REGISTER_SCRATCH (as_i64 pc)) ;*
     emit_to_anchor call_immediate ANCHOR_TRACE 5 ;*
     emit_ins (load_immediate REGISTER_SCRATCH 0)) ;*
  let* dst := j_lift (index_slice REGISTER_MAP insn.(Ebpf.dst)) in
  let* src := j_lift (index_slice REGISTER_MAP insn.(Ebpf.src)) in
  let* target := j_lift (i64_add (as_i64 pc) insn.(off)) in
  let* target := j_lift (i64_add target 1) in
  compile_insn insn dst src (as_u64 target) ;*
  let* pc := get_pc in
  let* next := j_lift (u64_add pc 1) in
  modify (set_pc next).

(* src/jit.rs:428-871, JitCompiler::compile *)
Fixpoint compile_loop (fuel : nat) : Jit unit :=
  let* pc := get_pc in
  let* base := j_lift (u64_mul pc INSN_SIZE) in
  if base <? zlen program then
    match fuel with
    | O => j_panic OutOfFuel
    | S fuel => compile_step ;* compile_loop fuel
    end
  else j_ret tt.

(** [emit::<u8>(0x90)], as many times as the random number says. *)
(* src/jit.rs:420-423, JitCompiler::compile *)
Fixpoint emit_padding (n : nat) : Jit unit :=
  match n with O => j_ret tt | S n => emit [0x90] ;* emit_padding n end.

(** The bumper in case there was no final exit. *)
(* src/jit.rs:873-880, JitCompiler::compile *)
Definition emit_bumper : Jit unit :=
  check_room ;*
  let* pc := get_pc in
  let* next := j_lift (u64_add pc 1) in
  emit_validate_and_profile_instruction_count config (Some next) ;*
  emit_ins (load_immediate REGISTER_SCRATCH (as_i64 pc)) ;*
  emit_set_exception_kind ExecutionOverrun ;*
  emit_to_anchor jump_immediate ANCHOR_THROW_EXCEPTION 5.

(** A raw write into the code that is already there. *)
(* src/jit.rs:1712-1712, JitCompiler::resolve_jumps *)
Definition patch (code : list Z) (location : Z) (data : list Z) : Exec EbpfError (list Z) :=
  if (0 <=? location) && (location + zlen data <=? zlen code)
  then Ret (take (Z.to_nat location) code ++ data ++ drop (Z.to_nat location + length data) code)
  else Panic InvalidHostAccess.

(* src/jit.rs:1705-1714, JitCompiler::resolve_jumps *)
Definition resolve_jump (jump : Jump) : Jit unit :=
  let* self := get in
  let* entry := j_lift (index_slice self.(jit_pc_section) jump.(jump_target_pc)) in
  let destination := Z.land entry i32_max in
  j_lift (text_index self destination) ;*
  let* offset_value := j_lift (i32_checked (as_i32 (destination - jump.(jump_location)) - 4)) in
  let* code := j_lift (patch self.(jit_code) jump.(jump_location) (le_bytes 4 offset_value)) in
  modify (set_code code).

(* src/jit.rs:1705-1714, JitCompiler::resolve_jumps *)
Definition resolve_jumps : Jit unit :=
  let* self := get in
  for_each self.(text_section_jumps) resolve_jump.

(** Everything [compile] does before sealing the program. *)
(* src/jit.rs:416-885, JitCompiler::compile *)
Definition compile_code (program_vm_addr : Z) : Jit unit :=
  j_if (negb (config.(noop_instruction_rate) =? 0))
    (let* self := get in
     let (n, rng) := gen_range self.(diversification_rng) MAX_START_PADDING_LENGTH in
     modify (set_noop self.(next_noop_insertion) rng) ;*
     emit_padding (Z.to_nat n)) ;*
  emit_subroutines config v program_vm_addr ;*
  compile_loop (length program) ;*
  emit_bumper ;*
  resolve_jumps.
End Instructions.

(** * The compiler *)

Section Compiler.
Context `{Bo : LittleEndian} `{Rnd : Rand} `{Host : JitHost} `{Pgs : PageHost}.

(* src/vm.rs:40-40, PROGRAM_ENVIRONMENT_KEY_SHIFT *)
Definition PROGRAM_ENVIRONMENT_KEY_SHIFT : Z := 4.

(* src/vm.rs:44-53, get_runtime_environment_key *)
Definition get_runtime_environment_key : Z := Z.shiftr environment_random PROGRAM_ENVIRONMENT_KEY_SHIFT.

(** The number of slots, found by stepping over the instructions. *)
(* src/jit.rs:368-380, JitCompiler::new *)
Fixpoint count_slots (fuel : nat) (program : list Z) (pc : Z) : Exec EbpfError Z :=
  let! next := u64_add pc 1 in
  let! next_base := u64_mul next INSN_SIZE in
  if next_base <=? zlen program then
    match fuel with
    | O => Panic OutOfFuel
    | S fuel =>
        let! insn := get_insn_unchecked program pc in
        let! pc := u64_add pc (if insn.(opc) =? LD_DW_IMM then 2 else 1) in
        count_slots fuel program pc
    end
  else Ret pc.

(* src/jit.rs:382-390, JitCompiler::new *)
Definition code_length_estimate (config : Config) (pc : Z) : Exec EbpfError Z :=
  let! code := u64_mul MAX_MACHINE_CODE_LENGTH_PER_INSTRUCTION pc in
  let! estimate := u64_add (MAX_EMPTY_PROGRAM_MACHINE_CODE_LENGTH + MAX_START_PADDING_LENGTH) code in
  let! estimate :=
    if negb (config.(noop_instruction_rate) =? 0)
    then u64_add estimate (estimate / config.(noop_instruction_rate)) else Ret estimate in
  let! estimate :=
    if negb (config.(instruction_meter_checkpoint_distance) =? 0) then
      let! checkpoints := u64_mul (pc / config.(instruction_meter_checkpoint_distance))
                                  MACHINE_CODE_PER_INSTRUCTION_METER_CHECKPOINT in
      u64_add estimate checkpoints
    else Ret estimate in
  if estimate <? i32_max then Ret estimate else Panic DebugAssertFailed.

(** [u32] multiplication *)
Definition u32_mul {E} (a b : Z) : Exec E Z :=
  if a * b <=? 2 ^ 32 - 1 then Ret (a * b) else Panic ArithmeticOverflow.

(** [SmallRng::from_rng(thread_rng())] is the argument [rng], or a failure. *)
(* src/jit.rs:363-414, JitCompiler::new *)
Definition jit_compiler_new (executable : Executable) (rng : option Rng) (os : Os) :
    Exec EbpfError (JitCompiler * Os) :=
  let! config := executable_config executable in
  let! (_, program) := get_text_bytes executable in
  let! pc := if negb (disable_lddw executable.(sbpf_version)) then count_slots (length program) program 0
             else Ret (zlen program / INSN_SIZE) in
  let! estimate := code_length_estimate config pc in
  match rng with
  | None => Err JitNotCompiled
  | Some rng =>
      let (immediate_value_key, rng) := gen_i64 rng in
      let! (page_size, pc_ptr, text_ptr, pc_section, text_len, os) := jit_program_new pc estimate os in
      let! twice := u32_mul config.(noop_instruction_rate) 2 in
      let (next_noop_insertion, rng) :=
        if config.(noop_instruction_rate) =? 0 then (2 ^ 32 - 1, rng) else gen_range rng twice in
      Ret ({| jit_page_size := page_size;
              jit_pc_ptr := pc_ptr;
              jit_text_ptr := text_ptr;
              jit_text_len := text_len;
              jit_code := [];
              jit_pc_section := pc_section;
              text_section_jumps := [];
              anchors := replicate (Z.to_nat ANCHOR_COUNT) None;
              jit_pc := 0;
              last_instruction_meter_validation_pc := 0;
              next_noop_insertion := next_noop_insertion;
              noop_range := twice;
              runtime_environment_key := get_runtime_environment_key;
              immediate_value_key := immediate_value_key;
              diversification_rng := rng;
              stopwatch_is_active := false |}, os)
  end.

(* src/jit.rs:416-885, JitCompiler::compile *)
Definition compile (executable : Executable) (self : JitCompiler) (os : Os) :
    Exec EbpfError (JitProgram * Os) :=
  let! config := executable_config executable in
  let! (program_vm_addr, program) := get_text_bytes executable in
  let! (_, self) := compile_code config executable program program_vm_addr self in
  jit_program_seal self.(jit_page_size) self.(jit_pc_ptr) self.(jit_text_ptr) self.(jit_text_len)
    self.(jit_pc_section) self.(jit_code) os.

(* src/elf.rs:324-330, Executable::jit_compile *)
Definition jit_compile (executable : Executable) (rng : option Rng) (os : Os) :
    Exec EbpfError (JitProgram * Os) :=
  let! (self, os) := jit_compiler_new executable rng os in
  compile executable self os.
End Compiler.
