(* ===== verification/JitAlu.v ===== *)
(** The code that guest arithmetic compiles to does what the interpreter does.  The bytes the JIT compiler
    (src/jit.rs) emits for an instruction of the arithmetic classes, with random no-ops in between and
    constants behind a random key, are run by the semantics of [X86Semantics] on a machine whose registers
    hold those of the guest. *)
From S2P Require Import Prelude Error Ebpf Program Executable X86 X86Decode X86Semantics Jit JitCompile.
Open Scope rust_scope.
Open Scope list_scope.
Open Scope jit_scope.

(** The arithmetic of a version, but division and the wide products. *)
Definition alu_opcode (v : SBPFVersion) (o : Z) : bool :=
  opc_in o [ADD32_IMM; ADD32_REG; SUB32_REG] || (o =? SUB32_IMM)
  || opc_in o [MUL32_IMM; MUL32_REG] && negb (enable_pqr v)
  || opc_in o [OR32_IMM; AND32_IMM; XOR32_IMM] || opc_in o [OR32_REG; AND32_REG; XOR32_REG]
  || opc_in o [LSH32_IMM; LSH32_REG; RSH32_IMM; RSH32_REG; ARSH32_IMM; ARSH32_REG]
  || (o =? NEG32) && negb (disable_neg v) || opc_in o [MOV32_IMM; MOV32_REG]
  || (o =? BE) || (o =? LE) && negb (disable_le v)
  || opc_in o [ADD64_IMM; ADD64_REG; SUB64_REG] || (o =? SUB64_IMM)
  || opc_in o [MUL64_IMM; MUL64_REG] && negb (enable_pqr v)
  || opc_in o [OR64_IMM; AND64_IMM; XOR64_IMM] || opc_in o [OR64_REG; AND64_REG; XOR64_REG]
  || opc_in o [LSH64_IMM; LSH64_REG; RSH64_IMM; RSH64_REG; ARSH64_IMM; ARSH64_REG]
  || (o =? NEG64) && negb (disable_neg v) || opc_in o [MOV64_IMM; MOV64_REG]
  || (o =? HOR64_IMM) && disable_lddw v.

(** * What an emitter writes *)

Section Writes.
Context `{Rnd : Rand}.

(** With [key] for constants, whenever the emitter returns, it has appended the code of [l], and no jump. *)
Definition writes (key : Z) (c : Jit unit) (l : list X86Instruction) : Prop :=
  forall s s', s.(immediate_value_key) = key -> c s = Ret (tt, s') ->
  exists bs, s'.(jit_code) = s.(jit_code) ++ bs /\ interleaved l bs /\ s'.(immediate_value_key) = key /\
    s'.(text_section_jumps) = s.(text_section_jumps).

Lemma writes_ret key : writes key (j_ret tt) [].
Proof. intros s s' Hk [= <-]. exists []. rewrite app_nil_r. split; [done|]. by split; [constructor|]. Qed.

Lemma writes_bind key (c1 c2 : Jit unit) l1 l2 : writes key c1 l1 -> writes key c2 l2 -> writes key (c1 ;* c2) (l1 ++ l2).
Proof.
  intros H1 H2 s s' Hk. unfold j_bind. destruct (c1 s) as [[[] s1]| |] eqn:E1; cbn [exec_bind fst snd]; [|done..]. intros E2.
  destruct (H1 s s1 Hk E1) as (b1 & Hc1 & Hi1 & Hk1 & Hj1). destruct (H2 s1 s' Hk1 E2) as (b2 & Hc2 & Hi2 & Hk2 & Hj2).
  exists (b1 ++ b2). rewrite Hc2, Hc1, <-app_assoc. split; [done|]. split; [by apply interleaved_app|]. split; [done|congruence].
Qed.

Lemma writes_key key (f : Z -> Jit unit) l : writes key (f key) l -> writes key (j_bind (gets immediate_value_key) f) l.
Proof. intros H s s' Hk. unfold j_bind, gets. cbn [exec_bind fst snd]. rewrite Hk. by apply H. Qed.

Lemma writes_ins key (i : X86Instruction) : writes key (emit_ins (Ret i)) [i].
Proof.
  intros s s' Hk. unfold emit_ins, j_bind, j_lift. cbn [exec_bind fst snd].
  destruct (x86_bytes (E := EbpfError) i) as [b| |] eqn:Hb; cbn [exec_bind fst snd]; [|done..].
  unfold emit at 1. destruct (_ <=? _); cbn [exec_bind fst snd get]; [|done]. destruct (_ =? 0).
  - destruct (sample_inclusive _ _) as [n rng]. unfold modify, emit. cbn [exec_bind fst snd]. destruct (_ <=? _); [|done]. intros [= <-].
    exists (b ++ [0x90] ++ []). split; [cbn; by rewrite <-app_assoc|]. split; [|done]. apply interleaved_cons; [done|by right|constructor].
  - unfold modify. intros [= <-]. exists (b ++ [] ++ []). split; [cbn; by rewrite app_nil_r|]. split; [|done]. apply interleaved_cons; [done|by left|constructor].
Qed.
End Writes.

(** * What code computes *)

Record machine_ok (m : Machine) : Prop := {
  mo_range c : in_u 64 (m.(gpr) c);
  mo_stack : 8 <= m.(gpr) RSP_code;
}.

(** A register has the value; only it, the scratch register and a word below the stack have changed. *)
Record effect (m m' : Machine) (d : X86Register) (v : Z) : Prop := {
  ef_value : m'.(gpr) (reg_code d) = v;
  ef_other c : c <> reg_code d -> c <> reg_code REGISTER_SCRATCH -> m'.(gpr) c = m.(gpr) c;
  ef_memory a : 0 <= a < 2 ^ 64 -> ~ (m.(gpr) RSP_code - 8 <= a < m.(gpr) RSP_code) -> m'.(memory) a = m.(memory) a;
}.

(** The registers that compiled code computes in. *)
Definition mapped (d : X86Register) : Prop := general d /\ d <> RSP.

Lemma register_map_ok (i : nat) (r : X86Register) : REGISTER_MAP !! i = Some r -> mapped r /\ r <> REGISTER_SCRATCH.
Proof. intros Hr. do 11 (destruct i as [|i]; [injection Hr as <-; by repeat split|]). done. Qed.

Lemma effect_refl m d : effect m m d (m.(gpr) (reg_code d)).
Proof. by split. Qed.

Section Computes.
Context `{Rnd : Rand}.

Definition computes (key : Z) (c : Jit unit) (d : X86Register) (v : Machine -> Z) : Prop :=
  exists l, writes key c l /\ Forall x86_wf l /\
    forall m, machine_ok m -> exists m', steps l m = Some m' /\ machine_ok m' /\ effect m m' d (v m).

Lemma effect_stack m m' d v : mapped d -> effect m m' d v -> m'.(gpr) RSP_code = m.(gpr) RSP_code.
Proof. intros [_ Hsp] He. apply (ef_other _ _ _ _ He); [|done]. intros H. apply (reg_code_inj RSP d) in H. congruence. Qed.

(** One computation after another: the first one in the same register or in the scratch register. *)
Lemma computes_bind key (c1 c2 : Jit unit) d1 d v1 v2 v : mapped d -> (d1 = d \/ d1 = REGISTER_SCRATCH) ->
  computes key c1 d1 v1 -> computes key c2 d v2 ->
  (forall m m1, machine_ok m -> effect m m1 d1 (v1 m) -> v2 m1 = v m) -> computes key (c1 ;* c2) d v.
Proof.
  intros Hd Hd1 (l1 & Hw1 & Hf1 & H1) (l2 & Hw2 & Hf2 & H2) Hv. exists (l1 ++ l2). split; [by apply writes_bind|]. split; [by apply Forall_app|].
  intros m Hm. destruct (H1 m Hm) as (m1 & Hs1 & Hm1 & He1). destruct (H2 m1 Hm1) as (m2 & Hs2 & Hm2 & He2).
  exists m2. rewrite steps_app, Hs1. cbn [mbind option_bind]. split; [done|]. split; [done|]. rewrite <-(Hv m m1 Hm He1).
  assert (Hmd1 : mapped d1) by (destruct Hd1 as [-> | ->]; [done|by split]).
  pose proof (effect_stack _ _ _ _ Hmd1 He1) as Hsp. destruct He1 as [_ Ho1 Hmem1], He2 as [Hv2 Ho2 Hmem2]. split; [done| |].
  - intros c Hc Hc2. rewrite Ho2, Ho1; try done. by destruct Hd1 as [-> | ->].
  - intros a Ha Hn. rewrite Hmem2, Hmem1; try done. by rewrite Hsp.
Qed.

(** One instruction that writes a register. *)
Lemma computes_ins key (e : Exec EbpfError X86Instruction) (i : X86Instruction) d v : mapped d -> built e -> e = Ret i ->
  (forall m, machine_ok m -> exists w f, step_x86 (canonical_x86 i) m = Some (mkMachine (upd m.(gpr) (reg_code d) w) m.(memory) f) /\ w = v m /\ in_u 64 w) ->
  computes key (emit_ins e) d v.
Proof.
  intros [Hg Hsp] Hb He Hstep. exists [i]. rewrite He. split; [apply writes_ins|]. split; [constructor; [by apply (x86_built_ok e)|done]|].
  intros m Hm. destruct (Hstep m Hm) as (w & f & Hs & Hw & Hr). eexists. cbn [steps]. rewrite Hs. cbn [mbind option_bind]. split; [done|].
  destruct Hm as [Hr0 Hs0]. split; split; cbn.
  - intros c. unfold upd. by destruct (c =? reg_code d).
  - rewrite upd_ne; [done|]. intros H. apply (reg_code_inj RSP d) in H. congruence.
  - by rewrite upd_eq.
  - intros c Hc _. by rewrite upd_ne.
  - done.
Qed.

Lemma computes_value key c d v v' : computes key c d v -> (forall m, machine_ok m -> v m = v' m) -> computes key c d v'.
Proof.
  intros (l & Hw & Hf & H) Hv. exists l. split; [done|]. split; [done|]. intros m Hm. destruct (H m Hm) as (m' & Hs & Hm' & He).
  exists m'. rewrite <-Hv by done. done.
Qed.

Lemma computes_nothing key d : computes key (j_ret tt) d (fun m => m.(gpr) (reg_code d)).
Proof. exists []. split; [apply writes_ret|]. split; [done|]. intros m Hm. exists m. split; [done|]. split; [done|apply effect_refl]. Qed.
End Computes.

(** * Single instructions *)

Definition word (size : OperandSize) : Prop := size = S32 \/ size = S64.

Lemma word_range size v : word size -> in_u 64 (uwrap (size_bits size) v).
Proof.
  intros [-> | ->]; [|by apply uwrap_range]. pose proof (uwrap_range 32 v ltac:(done)) as [H0 H1]. change (size_bits S32) with 32. unfold in_u. lia.
Qed.

Section Instructions.
Context `{Rnd : Rand} (key : Z).
Implicit Types (s d : X86Register) (size : OperandSize).

Lemma computes_alu size opcode f s d : word size -> opcode ∈ [0x01; 0x09; 0x21; 0x29; 0x31] -> binary_op opcode = Some f -> mapped s -> mapped d ->
  computes key (emit_ins (alu size opcode s d None)) d
    (fun m => uwrap (size_bits size) (f (read_reg m size (reg_code d)) (read_reg m size (reg_code s)))).
Proof.
  intros Hw Ho Hf Hs Hd. assert (Hb : built (E := EbpfError) (alu size opcode s d None)) by (apply built_alu; [revert Ho; rewrite !elem_of_cons; tauto|apply Hs|apply Hd|done]).
  apply (computes_ins key _ (mkX86 size 0 opcode true None (reg_code s) (reg_code d) S0 0) d); [done|done|by destruct Hw as [-> | ->]|].
  intros m Hm. eexists _, None. split; [|split; [reflexivity|by apply word_range]].
  unfold step_x86, step_plain. cbn [canonical_x86 x_indirect x_size x_escape x_opcode x_first x_second Z.eqb]. rewrite Hf. by destruct Hw as [-> | ->].
Qed.

Lemma computes_alu_immediate size ext f d imm : word size -> 0 <= ext < 8 -> ext <> 7 -> extended_op ext = Some f -> mapped d ->
  computes key (emit_ins (alu_immediate size 0x81 ext d imm None)) d
    (fun m => uwrap (size_bits size) (f (read_reg m size (reg_code d)) (swrap 32 imm))).
Proof.
  intros Hw Hx H7 Hf Hd. assert (Hb : built (E := EbpfError) (alu_immediate size 0x81 ext d imm None)) by (apply built_alu_immediate; [apply (bool_decide_unpack _); reflexivity|done|apply Hd|done]).
  apply (computes_ins key _ (mkX86 size 0 0x81 true None ext (reg_code d) S32 imm) d); [done|done|by destruct Hw as [-> | ->]|].
  intros m Hm. eexists _, None. split; [|split; [reflexivity|by apply word_range]].
  unfold step_x86, step_plain. cbn [canonical_x86 x_indirect x_size x_escape x_opcode x_first x_second x_imm x_imm_size signed_field].
  change (binary_op 0x81) with (@None (Z -> Z -> Z)). cbn [Z.eqb Pos.eqb]. rewrite (proj2 (Z.eqb_neq ext 7) H7), Hf. cbn [fmap option_fmap option_map].
  by destruct Hw as [-> | ->].
Qed.

Lemma computes_shift_immediate size ext d imm : word size -> (ext = 1 \/ ext = 4 \/ ext = 5 \/ ext = 7) -> mapped d ->
  computes key (emit_ins (alu_immediate size 0xc1 ext d imm None)) d
    (fun m => uwrap (size_bits size) (default 0 (shift_op size ext (read_reg m size (reg_code d)) (swrap 8 imm)))).
Proof.
  intros Hw Hx Hd. assert (Hb : built (E := EbpfError) (alu_immediate size 0xc1 ext d imm None)) by (apply built_alu_immediate; [apply (bool_decide_unpack _); reflexivity|lia|apply Hd|done]).
  apply (computes_ins key _ (mkX86 size 0 0xc1 true None ext (reg_code d) S8 imm) d); [done|done|by destruct Hw as [-> | ->]|].
  intros m Hm. eexists _, None. split; [|split; [reflexivity|by apply word_range]].
  destruct Hw as [-> | ->], Hx as [-> |[-> |[-> | ->]]]; reflexivity.
Qed.

Lemma computes_neg size d : word size -> mapped d ->
  computes key (emit_ins (alu_immediate size 0xf7 3 d 0 None)) d (fun m => uwrap (size_bits size) (- read_reg m size (reg_code d))).
Proof.
  intros Hw Hd. assert (Hb : built (E := EbpfError) (alu_immediate size 0xf7 3 d 0 None)) by (apply built_alu_immediate; [apply (bool_decide_unpack _); reflexivity|lia|apply Hd|done]).
  apply (computes_ins key _ (mkX86 size 0 0xf7 true None 3 (reg_code d) S0 0) d); [done|done|by destruct Hw as [-> | ->]|].
  intros m Hm. eexists _, None. split; [|split; [reflexivity|by apply word_range]]. by destruct Hw as [-> | ->].
Qed.

Lemma computes_mov size s d : word size -> mapped s -> mapped d ->
  computes key (emit_ins (mov size s d)) d (fun m => uwrap (size_bits size) (m.(gpr) (reg_code s))).
Proof.
  intros Hw Hs Hd. assert (Hb : built (E := EbpfError) (mov size s d)) by (apply built_mov; [apply Hs|apply Hd]).
  apply (computes_ins key _ (mkX86 size 0 0x89 true None (reg_code s) (reg_code d) S0 0) d); [done|done|by destruct Hw as [-> | ->]|].
  intros m Hm. destruct Hw as [-> | ->]; (eexists _, None; split; [reflexivity|split; [|by (apply (word_range S32); left) || (apply (word_range S64); by right)]]);
    unfold read_reg; cbn [canonical_x86 x_size x_first x_second written]; unfold uwrap; by rewrite Zmod_mod.
Qed.

Lemma computes_sign_extend s d : mapped s -> mapped d ->
  computes key (emit_ins (alu S64 0x63 d s None)) d (fun m => as_u64 (swrap 32 (m.(gpr) (reg_code s)))).
Proof.
  intros Hs Hd. assert (Hb : built (E := EbpfError) (alu S64 0x63 d s None)) by (apply built_alu; [apply (bool_decide_unpack _); reflexivity|apply Hd|apply Hs|done]).
  apply (computes_ins key _ (mkX86 S64 0 0x63 true None (reg_code d) (reg_code s) S0 0) d); [done|done|reflexivity|].
  intros m Hm. eexists _, None. split; [reflexivity|]. split; [reflexivity|]. by apply uwrap_range.
Qed.

Lemma computes_imul size s d : word size -> mapped s -> mapped d ->
  computes key (emit_ins (alu_escaped size 1 0xaf d s None)) d
    (fun m => uwrap (size_bits size) (read_reg m size (reg_code d) * read_reg m size (reg_code s))).
Proof.
  intros Hw Hs Hd. assert (Hb : built (E := EbpfError) (alu_escaped size 1 0xaf d s None)) by (apply built_imul; [apply Hd|apply Hs|done]).
  apply (computes_ins key _ (mkX86 size 1 0xaf true None (reg_code d) (reg_code s) S0 0) d); [done|done|by destruct Hw as [-> | ->]|].
  intros m Hm. eexists _, None. split; [|split; [reflexivity|by apply word_range]]. by destruct Hw as [-> | ->].
Qed.

Lemma computes_load_immediate d imm : mapped d -> in_s 64 imm -> computes key (emit_ins (load_immediate d imm)) d (fun _ => as_u64 imm).
Proof.
  intros Hd Hi. assert (Hb : built (E := EbpfError) (load_immediate d imm)) by (apply built_load_immediate; apply Hd).
  assert (Hl : exists i, load_immediate (E := EbpfError) d imm = Ret i) by (unfold load_immediate; repeat case_match; by eexists).
  destruct Hl as [i Hl]. apply (computes_ins key _ i d); [done|done|done|]. intros m Hm.
  enough (Hs : exists w, step_x86 (canonical_x86 i) m = Some (mkMachine (upd m.(gpr) (reg_code d) w) m.(memory) None) /\ w = as_u64 imm)
    by (destruct Hs as (w & Hs & ->); eexists _, None; split; [exact Hs|]; split; [done|]; by apply uwrap_range).
  unfold load_immediate in Hl. destruct (Z.geb_spec imm 0) as [H0|H0]; [destruct (Z.leb_spec imm (2 ^ 32 - 1))|destruct (Z.geb_spec imm i32_min)]; injection Hl as <-.
  - exists (uwrap 32 (swrap 32 imm)). split; [destruct d; try reflexivity; by destruct Hd|]. rewrite uwrap_swrap by done.
    unfold as_u64. by rewrite !uwrap_small by (unfold in_u; lia).
  - exists (uwrap 64 (swrap 64 imm)). split; [destruct d; try reflexivity; by destruct Hd|]. by rewrite uwrap_swrap.
  - exists (uwrap 64 (swrap 32 imm)). split; [reflexivity|]. rewrite (swrap_small 32) by (done || unfold in_s, i32_min in *; lia). done.
  - exists (uwrap 64 (swrap 64 imm)). split; [destruct d; try reflexivity; by destruct Hd|]. by rewrite uwrap_swrap.
Qed.

Lemma computes_bswap size d : word size -> mapped d -> computes key (emit_ins (bswap size d)) d
    (fun m => uwrap (size_bits size) (swap_bytes (field_bytes size) (read_reg m size (reg_code d)))).
Proof.
  intros Hw Hd. assert (Hb : built (E := EbpfError) (bswap size d)) by (apply built_bswap, Hd).
  apply (computes_ins key _ (mkX86 size 1 (Z.lor 0xc8 (Z.land (reg_code d) 0x7)) false None 0 (reg_code d) S0 0) d); [done|done|by destruct Hw as [-> | ->]|].
  intros m Hm. eexists _, None. split; [|split; [reflexivity|by apply word_range]].
  destruct Hw as [-> | ->], d; try reflexivity; by destruct Hd.
Qed.
End Instructions.

(** * Constants *)

Definition halves (u : Z) : Z := u / 2 ^ 32 + (u mod 2 ^ 32) * 2 ^ 32.

Lemma halves_involutive u : in_u 64 u -> in_u 64 (halves u) /\ halves (halves u) = u.
Proof.
  intros [H0 H1]. unfold halves. pose proof (Z.mod_pos_bound u (2 ^ 32) ltac:(done)) as Hm. pose proof (Z.div_mod u (2 ^ 32) ltac:(done)) as Hd.
  assert (Hq : 0 <= u / 2 ^ 32 < 2 ^ 32) by (split; [apply Z.div_pos; lia|apply Z.div_lt_upper_bound; lia]).
  split; [unfold in_u; lia|]. rewrite Z.div_add, Z.mod_add by done. rewrite (Z.div_small (u / 2 ^ 32)), (Z.mod_small (u / 2 ^ 32)) by done. lia.
Qed.

Lemma rotate_halves u : in_u 64 u -> uwrap 64 (Z.lor (Z.shiftr u 32) (Z.shiftl u 32)) = halves u.
Proof.
  intros Hu. destruct (halves_involutive u Hu) as [Hh _]. destruct Hu as [H0 H1].
  assert (Hq : in_u 32 (Z.shiftr u 32)) by (rewrite Z.shiftr_div_pow2 by done; split; [apply Z.div_pos; lia|apply Z.div_lt_upper_bound; lia]).
  rewrite lor_shiftl_add by done. rewrite Z.shiftr_div_pow2 by done. unfold uwrap. rewrite (Z.div_mod u (2 ^ 32)) at 2 by done.
  replace (u / 2 ^ 32 + (2 ^ 32 * (u / 2 ^ 32) + u mod 2 ^ 32) * 2 ^ 32) with (halves u + u / 2 ^ 32 * 2 ^ 64) by (unfold halves; lia).
  rewrite Z.mod_add by done. by apply Z.mod_small.
Qed.

Lemma rotate_right_32_halves z : as_u64 (rotate_right_32 z) = halves (as_u64 z).
Proof.
  unfold rotate_right_32, as_i64, as_u64. rewrite uwrap_swrap by done. pose proof (uwrap_range 64 z ltac:(done)) as Hu. set (u := uwrap 64 z) in *.
  rewrite <-(rotate_halves u Hu), Z.lor_comm. apply Z.bits_inj'. intros i Hi. unfold uwrap. destruct (Z_lt_ge_dec i 64).
  - rewrite !Z.mod_pow2_bits_low, !Z.lor_spec, Z.mod_pow2_bits_low by lia. done.
  - by rewrite !Z.mod_pow2_bits_high by lia.
Qed.

Lemma add_back a b : uwrap 64 (uwrap 64 (as_u64 (as_i64 (a - b))) + b) = as_u64 a.
Proof. unfold as_u64, as_i64. rewrite uwrap_swrap by done. unfold uwrap. rewrite Zmod_mod, Zplus_mod_idemp_l. f_equal. lia. Qed.

Lemma as_i32_range z : in_s 32 (as_i32 z).
Proof. by apply swrap_range. Qed.
Lemma as_i64_range z : in_s 64 (as_i64 z).
Proof. by apply swrap_range. Qed.
#[local] Hint Resolve as_i32_range as_i64_range : core.

Section Constants.
Context `{Rnd : Rand} (config : Config) (key : Z) (Hkey : in_s 64 key).
Implicit Types d : X86Register.

Lemma mapped_scratch : mapped REGISTER_SCRATCH.
Proof. by split. Qed.

(** Adding a constant of 32 bits to what was loaded. *)
Lemma computes_add_key (c : Jit unit) d v k : mapped d -> in_s 32 k -> computes key c d (fun _ => as_u64 (as_i64 (v - k))) ->
  computes key (c ;* emit_ins (alu_immediate S64 0x81 0 d k None)) d (fun _ => as_u64 v).
Proof.
  intros Hd Hk Hc. eapply (computes_bind key _ _ d d); [done|by left|exact Hc|by apply (computes_alu_immediate key S64 0 Z.add d k); [right| | | |]|].
  intros m m1 Hm He. cbn beta. unfold read_reg. change (size_bits S64) with 64. rewrite (ef_value _ _ _ _ He), (swrap_small 32 k) by done. apply add_back.
Qed.

Lemma computes_assoc (c1 c2 c3 : Jit unit) d v : computes key ((c1 ;* c2) ;* c3) d v -> computes key (c1 ;* c2 ;* c3) d v.
Proof.
  intros (l & Hw & H). exists l. split; [|done]. intros s s' Hk Hr. apply (Hw s s' Hk). unfold j_bind in *. by destruct (c1 s).
Qed.

(** Rotating by half of a register, and shifting to its upper half. *)
Lemma computes_half ext (c : Jit unit) d (v u : Z) : mapped d -> (ext = 1 /\ v = as_u64 (rotate_right_32 u) \/ ext = 4 /\ v = halves (as_u64 u) /\ as_u64 u mod 2 ^ 32 = 0) ->
  computes key c d (fun _ => v) -> computes key (c ;* emit_ins (alu_immediate S64 0xc1 ext d 32 None)) d (fun _ => as_u64 u).
Proof.
  intros Hd Hx Hc. eapply (computes_bind key _ _ d d); [done|by left|exact Hc|apply (computes_shift_immediate key S64 ext d 32); [by right|lia|done]|].
  intros m m1 Hm He. cbn beta. unfold read_reg. rewrite (ef_value _ _ _ _ He). change (size_bits S64) with 64. change (swrap 8 32) with 32.
  pose proof (uwrap_range 64 u ltac:(done)) as Hu. destruct (halves_involutive _ Hu) as [Hh Hhh].
  destruct Hx as [[-> ->]|(-> & -> & H0)]; unfold shift_op; cbn [Z.eqb Pos.eqb default from_option id]; change (shift_count S64 32) with 32; change (size_bits S64) with 64.
  - rewrite rotate_right_32_halves. change (32 mod 64) with 32. change (64 - 32) with 32. rewrite (uwrap_small 64 (halves _)) by done. by rewrite rotate_halves.
  - change (uwrap 64 u) with (as_u64 u) in *. rewrite (uwrap_small 64 (halves _)) by done. unfold halves. rewrite H0, Z.mul_0_l, Z.add_0_r, Z.shiftl_mul_pow2 by done.
    pose proof (proj2 (Z.div_exact (as_u64 u) (2 ^ 32) ltac:(done)) H0) as Hex. rewrite Z.mul_comm, <-Hex. by apply uwrap_small.
Qed.

(** A sanitized constant is the constant. *)
Lemma computes_sanitized_load d v : mapped d -> in_s 64 v -> computes key (emit_sanitized_load_immediate d v) d (fun _ => as_u64 v).
Proof.
  intros Hd Hv. unfold emit_sanitized_load_immediate.
  enough (H : forall c : Z -> Jit unit, computes key (c key) d (fun _ => as_u64 v) -> computes key (j_bind (gets immediate_value_key) c) d (fun _ => as_u64 v)).
  { apply H. clear H. destruct (_ && _); [|destruct (Z.eqb_spec (Z.land (as_u64 v) (2 ^ 32 - 1)) 0) as [H0|_]; [|destruct (negb _) eqn:Hs]].
    - apply computes_add_key; [done|done|]. by apply computes_load_immediate.
    - apply computes_assoc, (computes_half 4 _ d (as_u64 (rotate_right_32 v))); [done| |].
      + right. rewrite rotate_right_32_halves. split_and!; [done..|]. change (2 ^ 32 - 1) with (Z.ones 32) in H0. by rewrite Z.land_ones in H0.
      + apply computes_add_key; [done|done|]. by apply computes_load_immediate.
    - apply negb_true_iff, bool_decide_eq_false in Hs.
      apply (computes_bind key _ _ d d (fun _ => as_u64 (as_i64 (v - key))) (fun m => uwrap 64 (uwrap 64 (m.(gpr) (reg_code d)) + as_u64 key)));
        [done|by left|by apply computes_load_immediate| |].
      + eapply (computes_bind key _ _ REGISTER_SCRATCH d); [done|by right|by apply computes_load_immediate, Hkey; apply mapped_scratch
          |apply (computes_alu key S64 0x01 Z.add REGISTER_SCRATCH d); [by right|apply (bool_decide_unpack _); reflexivity|done|apply mapped_scratch|done]|].
        intros m m1 Hm He. unfold read_reg. rewrite (ef_value _ _ _ _ He), (ef_other _ _ _ _ He) by (by intros H%reg_code_inj).
        change (size_bits S64) with 64. unfold as_u64. by rewrite (uwrap_uwrap 64 64 key).
      + intros m m1 Hm He. cbn beta. rewrite (ef_value _ _ _ _ He). unfold as_u64 at 2, uwrap at 1 3. rewrite Zplus_mod_idemp_r. apply add_back.
    - apply negb_false_iff, bool_decide_eq_true in Hs. subst d. set (upper := as_i32 _). set (lower := as_i32 key).
      apply computes_assoc, computes_assoc, computes_add_key; [done|by apply as_i32_range|].
      apply (computes_half 1 _ REGISTER_SCRATCH (as_u64 (rotate_right_32 (as_i64 (v - lower))))); [done| |].
      + left. done.
      + apply computes_add_key; [done|apply as_i32_range|]. by apply computes_load_immediate. }
  intros c (l & Hw & H). exists l. split; [by apply writes_key|done].
Qed.

Lemma computes_load_constant d v : mapped d -> in_s 64 v -> computes key (emit_load_constant config d v) d (fun _ => as_u64 v).
Proof. intros Hd Hv. unfold emit_load_constant. destruct (should_sanitize_constant config v); [by apply computes_sanitized_load|by apply computes_load_immediate]. Qed.

(** An operation with a constant, sanitized or not. *)
Lemma computes_sanitized_alu size opcode ext f d v : word size -> opcode ∈ [0x01; 0x09; 0x21; 0x29; 0x31] ->
  binary_op opcode = Some f -> extended_op ext = Some f -> 0 <= ext < 8 -> ext <> 7 -> mapped d -> d <> REGISTER_SCRATCH -> in_s 64 v ->
  (forall a b c, uwrap 64 b = uwrap 64 c -> uwrap (size_bits size) (f a (uwrap (size_bits size) b)) = uwrap (size_bits size) (f a c)) ->
  computes key (emit_sanitized_alu config size opcode ext d v) d (fun m => uwrap (size_bits size) (f (read_reg m size (reg_code d)) v)).
Proof.
  intros Hw Ho Hf Hx H0 H7 Hd Hs Hv Hcong. unfold emit_sanitized_alu.
  assert (Hload : forall c : Jit unit, computes key c REGISTER_SCRATCH (fun _ => as_u64 v) ->
    computes key (c ;* emit_ins (alu size opcode REGISTER_SCRATCH d None)) d (fun m => uwrap (size_bits size) (f (read_reg m size (reg_code d)) v))).
  { intros c Hc. eapply (computes_bind key _ _ REGISTER_SCRATCH d); [done|by right|exact Hc|by apply (computes_alu key size opcode f REGISTER_SCRATCH d)|].
    intros m m1 Hm He. cbn beta. unfold read_reg. rewrite (ef_value _ _ _ _ He), (ef_other _ _ _ _ He) by (by intros H%reg_code_inj).
    apply Hcong. unfold as_u64. by rewrite uwrap_uwrap. }
  destruct (should_sanitize_constant config v); [|destruct ((i32_min <=? v) && (v <=? i32_max)) eqn:Hr].
  - apply Hload. by apply computes_sanitized_load.
  - eapply computes_value; [by apply (computes_alu_immediate key size ext f d v)|]. intros m Hm. cbn beta. rewrite (swrap_small 32) by (done || (unfold in_s, i32_min, i32_max in *; lia)). done.
  - apply Hload. by apply computes_load_immediate.
Qed.
End Constants.

(** * Shifts *)

Section Shifts.
Context `{Rnd : Rand} (key : Z).
Implicit Types (s d r : X86Register) (size : OperandSize).

Definition shift_ext (ext : Z) : Prop := ext = 4 \/ ext = 5 \/ ext = 7.

(** The result of a shift of [v] by a register. *)
Definition shifted size (ext v count : Z) : Z := uwrap (size_bits size) (default 0 (shift_op size ext v (uwrap 8 count))).

(** The instructions of the code around a shift. *)
Definition push_ins r : X86Instruction := mkX86 S32 0 (Z.lor 0x50 (Z.land (reg_code r) 0x7)) false None 0 (reg_code r) S0 0.
Definition pop_ins r : X86Instruction := mkX86 S32 0 (Z.lor 0x58 (Z.land (reg_code r) 0x7)) false None 0 (reg_code r) S0 0.
Definition mov_ins s d : X86Instruction := mkX86 S64 0 0x89 true None (reg_code s) (reg_code d) S0 0.
Definition xchg_ins s d : X86Instruction := mkX86 S64 0 0x87 true None (reg_code s) (reg_code d) S0 0.
Definition shift_ins size (ext : Z) d : X86Instruction := mkX86 size 0 0xd3 true None ext (reg_code d) S0 0.

Lemma shift_ins_eq {E} size ext d : word size -> alu_immediate (E := E) size 0xd3 ext d 0 None = Ret (shift_ins size ext d).
Proof. by intros [-> | ->]. Qed.

Lemma shift_code_wf s d r size ext : word size -> shift_ext ext -> general s -> general d -> general r ->
  x86_wf (push_ins r) /\ x86_wf (pop_ins r) /\ x86_wf (mov_ins s d) /\ x86_wf (xchg_ins s d) /\ x86_wf (shift_ins size ext d).
Proof.
  intros Hw Hx Hs Hd Hr. split_and!.
  - apply (x86_built_ok (E := EbpfError) (push r None)); [by apply built_push|done].
  - apply (x86_built_ok (E := EbpfError) (pop r)); [by apply built_pop|done].
  - apply (x86_built_ok (E := EbpfError) (X86.mov S64 s d)); [by apply built_mov|done].
  - apply (x86_built_ok (E := EbpfError) (xchg S64 s d None)); [by apply built_xchg|done].
  - apply (x86_built_ok (E := EbpfError) (alu_immediate size 0xd3 ext d 0 None)); [|by apply shift_ins_eq].
    apply built_alu_immediate; [apply (bool_decide_unpack _); reflexivity|unfold shift_ext in Hx; lia|done|done].
Qed.

Lemma step_shift size ext d m : word size -> shift_ext ext -> step_x86 (canonical_x86 (shift_ins size ext d)) m
  = Some (mkMachine (upd m.(gpr) (reg_code d) (shifted size ext (read_reg m size (reg_code d)) (m.(gpr) (reg_code RCX)))) m.(memory) None).
Proof. intros [-> | ->] [-> |[-> | ->]]; reflexivity. Qed.

Lemma step_push r m : general r -> step_x86 (canonical_x86 (push_ins r)) m
  = Some (mkMachine (upd m.(gpr) RSP_code (as_u64 (m.(gpr) RSP_code - 8))) (write_word m.(memory) (as_u64 (m.(gpr) RSP_code - 8)) (m.(gpr) (reg_code r))) m.(flags)).
Proof. destruct r; try reflexivity; done. Qed.

Lemma step_pop r m : general r -> step_x86 (canonical_x86 (pop_ins r)) m
  = Some (mkMachine (upd (upd m.(gpr) RSP_code (as_u64 (m.(gpr) RSP_code + 8))) (reg_code r) (read_word m.(memory) (m.(gpr) RSP_code))) m.(memory) m.(flags)).
Proof. destruct r; try reflexivity; done. Qed.

Lemma step_mov s d m : in_u 64 (m.(gpr) (reg_code s)) -> step_x86 (canonical_x86 (mov_ins s d)) m
  = Some (mkMachine (upd m.(gpr) (reg_code d) (m.(gpr) (reg_code s))) m.(memory) None).
Proof.
  intros Hs. change (step_x86 _ _) with (Some (mkMachine (upd m.(gpr) (reg_code d) (uwrap 64 (uwrap 64 (m.(gpr) (reg_code s))))) m.(memory) None)).
  by rewrite !(uwrap_small 64 (m.(gpr) (reg_code s))).
Qed.

Lemma step_xchg s d m : in_u 64 (m.(gpr) (reg_code s)) -> in_u 64 (m.(gpr) (reg_code d)) -> step_x86 (canonical_x86 (xchg_ins s d)) m
  = Some (mkMachine (upd (upd m.(gpr) (reg_code s) (m.(gpr) (reg_code d))) (reg_code d) (m.(gpr) (reg_code s))) m.(memory) None).
Proof.
  intros Hs Hd. change (step_x86 _ _) with
    (Some (mkMachine (upd (upd m.(gpr) (reg_code s) (uwrap 64 (m.(gpr) (reg_code d)))) (reg_code d) (uwrap 64 (m.(gpr) (reg_code s)))) m.(memory) None)).
  by rewrite !uwrap_small.
Qed.

Lemma computes_shift_cl size ext d : word size -> shift_ext ext -> mapped d ->
  computes key (emit_ins (alu_immediate size 0xd3 ext d 0 None)) d
    (fun m => shifted size ext (read_reg m size (reg_code d)) (m.(gpr) (reg_code RCX))).
Proof.
  intros Hw Hx Hd. assert (Hb : built (E := EbpfError) (alu_immediate size 0xd3 ext d 0 None))
    by (apply built_alu_immediate; [apply (bool_decide_unpack _); reflexivity|unfold shift_ext in Hx; lia|apply Hd|done]).
  apply (computes_ins key _ (shift_ins size ext d) d); [done|done|by apply shift_ins_eq|].
  intros m Hm. eexists _, None. split; [by apply step_shift|]. split; [done|by apply word_range].
Qed.

Lemma code_ne (a b : X86Register) : a <> b -> reg_code a <> reg_code b.
Proof. by intros H ?%reg_code_inj. Qed.

(** Code between a push and a pop of [r]: when all it changes is [d], it computes what it computes without. *)
Lemma computes_saved r d l (c : Jit unit) (v : Machine -> Z) : mapped r -> mapped d -> r <> d ->
  writes key c l -> Forall x86_wf l ->
  (forall m, (forall c, in_u 64 (m.(gpr) c)) -> exists w f, steps l m = Some (mkMachine w m.(memory) f) /\ in_u 64 (v m) /\ w (reg_code d) = v m /\
     forall c, c <> reg_code d -> c <> reg_code r -> w c = m.(gpr) c) ->
  (forall m mem sp f, v (mkMachine (upd m.(gpr) RSP_code sp) mem f) = v m) ->
  computes key (emit_ins (push r None) ;* c ;* emit_ins (pop r)) d v.
Proof.
  intros [Hr Hrs] [Hd Hds] Hrd Hw Hf Hc Hv. exists ([push_ins r] ++ l ++ [pop_ins r]).
  split; [apply (writes_bind key (emit_ins (push r None)));[apply (writes_ins key (push_ins r))|apply writes_bind; [done|apply (writes_ins key (pop_ins r))]]|].
  destruct (shift_code_wf r r r S64 4) as (W1 & W2 & _); [by right|by left|done..|].
  split; [apply Forall_app; split; [by constructor|apply Forall_app; split; [done|by constructor]]|].
  intros m [Hrg Hsp]. set (sp := m.(gpr) RSP_code) in *. destruct (Hrg RSP_code) as [_ Hsp64]. fold sp in Hsp64.
  assert (Hsp8 : as_u64 (sp - 8) = sp - 8) by (apply uwrap_small; unfold in_u; lia).
  rewrite !steps_app. cbn [steps]. rewrite step_push by done. cbn [mbind option_bind]. fold sp. rewrite Hsp8, steps_app.
  set (m1 := mkMachine _ _ _). destruct (Hc m1) as (w & f & -> & Hin & Hwd & Hwo).
  { intros a. cbn [m1 gpr]. unfold upd. destruct (a =? RSP_code); [unfold in_u; lia|apply Hrg]. }
  assert (Hw_sp : w RSP_code = sp - 8) by (rewrite Hwo by (apply (code_ne RSP); congruence); cbn [m1 gpr]; apply upd_eq).
  cbn [mbind option_bind steps]. rewrite step_pop by done. cbn [mbind option_bind gpr memory]. rewrite Hw_sp. cbn [m1 memory].
  rewrite write_read_word by (apply Hrg || (unfold in_u; lia)). replace (sp - 8 + 8) with sp by lia.
  assert (Hsp0 : as_u64 sp = sp) by (apply uwrap_small; apply Hrg). rewrite Hsp0.
  assert (Hv1 : v m1 = v m) by apply Hv. rewrite Hv1 in Hin, Hwd.
  assert (Hg : forall a, a <> reg_code d -> upd (upd w RSP_code sp) (reg_code r) (m.(gpr) (reg_code r)) a = m.(gpr) a).
  { intros a Ha. unfold upd. destruct (Z.eqb_spec a (reg_code r)) as [->|Har]; [done|]. destruct (Z.eqb_spec a RSP_code) as [->|Has]; [done|].
    rewrite Hwo by done. cbn [m1 gpr]. by apply upd_ne. }
  assert (Hgd : upd (upd w RSP_code sp) (reg_code r) (m.(gpr) (reg_code r)) (reg_code d) = v m).
  { rewrite !upd_ne; [done| |]; by apply code_ne. }
  eexists. split; [reflexivity|]. split; split; cbn [gpr memory].
  - intros a. destruct (decide (a = reg_code d)) as [->|Ha]; [by rewrite Hgd|]. by rewrite Hg.
  - rewrite Hg; [done|]. apply (code_ne RSP d). congruence.
  - exact Hgd.
  - intros a Ha _. by apply Hg.
  - intros a Ha Hn. apply write_word_other; [done|lia|lia|]. replace (sp - 8 + 8) with sp by lia. exact Hn.
Qed.

Lemma computes_ext (c c' : Jit unit) d v : (forall st, c st = c' st) -> computes key c d v -> computes key c' d v.
Proof. intros Hc (l & Hw & H). exists l. split; [|done]. intros st st' Hk Hr. apply (Hw st st' Hk). by rewrite Hc. Qed.

Lemma emit_assoc (a b c : Jit unit) st : ((a ;* b) ;* c) st = (a ;* b ;* c) st.
Proof. unfold j_bind. by destruct (a st). Qed.

(** A shift of RCX by another register. *)
Lemma computes_shift_of_rcx size ext s : word size -> shift_ext ext -> mapped s -> s <> RCX ->
  computes key (emit_ins (push s None) ;* emit_ins (xchg S64 s RCX None) ;* emit_ins (alu_immediate size 0xd3 ext s 0 None) ;* emit_ins (X86.mov S64 s RCX) ;* emit_ins (pop s))
    RCX (fun m => shifted size ext (read_reg m size (reg_code RCX)) (m.(gpr) (reg_code s))).
Proof.
  intros Hw Hx Hs Hsr.
  apply (computes_ext (emit_ins (push s None) ;* (emit_ins (xchg S64 s RCX None) ;* emit_ins (alu_immediate size 0xd3 ext s 0 None) ;* emit_ins (X86.mov S64 s RCX)) ;* emit_ins (pop s))).
  { intros st. unfold j_bind at 1 5. destruct (emit_ins (push s None) st) as [[[] s1]| |]; cbn [exec_bind fst snd]; [|done..]. rewrite emit_assoc. unfold j_bind at 1 4.
    destruct (emit_ins (xchg S64 s RCX None) s1) as [[[] s2]| |]; cbn [exec_bind fst snd]; [|done..]. apply emit_assoc. }
  destruct (shift_code_wf s RCX s size ext) as (_ & _ & W3 & W4 & _); [done|done|apply Hs|done|apply Hs|].
  destruct (shift_code_wf s s s size ext) as (_ & _ & _ & _ & W5); [done|done|apply Hs..|].
  pose proof (code_ne s RCX Hsr) as Hne. assert (Hss : reg_code s <> RSP_code) by (apply (code_ne s RSP), Hs).
  apply (computes_saved s RCX ([xchg_ins s RCX] ++ [shift_ins size ext s] ++ [mov_ins s RCX])); [done|done|done| | | |].
  - rewrite shift_ins_eq by done. apply writes_bind; [apply (writes_ins key (xchg_ins s RCX))|]. apply writes_bind; [apply writes_ins|apply (writes_ins key (mov_ins s RCX))].
  - by repeat constructor.
  - intros m Hm. cbn [app steps]. rewrite step_xchg by apply Hm. cbn [mbind option_bind]. rewrite step_shift by done. cbn [mbind option_bind gpr memory].
    unfold read_reg. cbn [gpr]. rewrite (upd_ne _ _ _ (reg_code s) Hne), !upd_eq. set (x := shifted _ _ _ _).
    assert (Hx64 : in_u 64 x) by (by apply word_range).
    rewrite step_mov by (cbn [gpr]; by rewrite upd_eq). cbn [mbind option_bind gpr memory]. eexists _, None. split; [reflexivity|]. cbn [gpr].
    rewrite !upd_eq. split; [done|]. split; [done|]. intros a Ha1 Ha2. by rewrite !upd_ne.
  - intros m mem sp f. unfold read_reg. cbn [gpr]. by rewrite !upd_ne.
Qed.

(** A shift of another register by one that is not RCX. *)
Lemma computes_shift_by_other size ext s d : word size -> shift_ext ext -> mapped s -> mapped d -> s <> RCX -> d <> RCX ->
  computes key (emit_ins (push RCX None) ;* emit_ins (X86.mov S64 s RCX) ;* emit_ins (alu_immediate size 0xd3 ext d 0 None) ;* emit_ins (pop RCX))
    d (fun m => shifted size ext (read_reg m size (reg_code d)) (m.(gpr) (reg_code s))).
Proof.
  intros Hw Hx Hs Hd Hsr Hdr.
  apply (computes_ext (emit_ins (push RCX None) ;* (emit_ins (X86.mov S64 s RCX) ;* emit_ins (alu_immediate size 0xd3 ext d 0 None)) ;* emit_ins (pop RCX))).
  { intros st. unfold j_bind at 1 4. destruct (emit_ins (push RCX None) st) as [[[] s1]| |]; cbn [exec_bind fst snd]; [|done..]. apply emit_assoc. }
  destruct (shift_code_wf s RCX s size ext) as (_ & _ & W3 & _ & _); [done|done|apply Hs|done|apply Hs|].
  destruct (shift_code_wf s d s size ext) as (_ & _ & _ & _ & W5); [done|done|apply Hs|apply Hd|apply Hs|].
  pose proof (code_ne d RCX Hdr) as Hne. assert (Hss : reg_code s <> RSP_code) by (apply (code_ne s RSP), Hs). assert (Hds : reg_code d <> RSP_code) by (apply (code_ne d RSP), Hd).
  apply (computes_saved RCX d ([mov_ins s RCX] ++ [shift_ins size ext d])); [done|done|done| | | |].
  - rewrite shift_ins_eq by done. apply writes_bind; [apply (writes_ins key (mov_ins s RCX))|apply writes_ins].
  - by repeat constructor.
  - intros m Hm. cbn [app steps]. rewrite step_mov by apply Hm. cbn [mbind option_bind]. rewrite step_shift by done. cbn [mbind option_bind gpr memory].
    unfold read_reg. cbn [gpr]. rewrite (upd_ne _ _ _ (reg_code d) Hne), !upd_eq. eexists _, None. split; [reflexivity|]. rewrite upd_eq.
    split; [by apply word_range|]. split; [done|]. intros a Ha1 Ha2. by rewrite !upd_ne.
  - intros m mem sp f. unfold read_reg. cbn [gpr]. by rewrite !upd_ne.
Qed.

(** The code of a shift by a register. *)
Lemma computes_shift_register size ext s d : word size -> shift_ext ext -> mapped s -> mapped d -> s <> REGISTER_SCRATCH ->
  computes key (emit_shift size ext s d None) d (fun m => shifted size ext (read_reg m size (reg_code d)) (m.(gpr) (reg_code s))).
Proof.
  intros Hw Hx Hs Hd Hsc. unfold emit_shift.
  set (c := if bool_decide (s = RCX) then _ else _).
  assert (Hc : computes key c d (fun m => shifted size ext (read_reg m size (reg_code d)) (m.(gpr) (reg_code s)))).
  { unfold c. destruct (bool_decide_reflect (s = RCX)) as [->|Hsr]; [by apply computes_shift_cl|].
    destruct (bool_decide_reflect (d = RCX)) as [->|Hdr]; [by apply computes_shift_of_rcx|by apply computes_shift_by_other]. }
  destruct Hw as [-> | ->]; cbn [j_if].
  - rewrite bool_decide_true by done. cbn [j_if]. eapply (computes_bind key _ _ d d); [done|by left|apply (computes_mov key S32 d d); [by left|done|done]|exact Hc|].
    intros m m1 Hm He. cbn beta. unfold read_reg. rewrite (ef_value _ _ _ _ He). change (size_bits S32) with 32. rewrite (uwrap_uwrap 32 32) by done.
    unfold shifted. destruct (decide (s = d)) as [->|Hsd].
    + by rewrite (ef_value _ _ _ _ He), (uwrap_uwrap 8 32).
    + by rewrite (ef_other _ _ _ _ He) by (by apply code_ne).
  - rewrite bool_decide_false by done. by apply (computes_ext c).
Qed.
End Shifts.

(** * Instructions of the guest *)

(** Operations that wrap: the low bits of the result depend on those of the operands only. *)
Definition modular (f : Z -> Z -> Z) : Prop := forall w a a' b b', 0 <= w ->
  uwrap w a = uwrap w a' -> uwrap w b = uwrap w b' -> uwrap w (f a b) = uwrap w (f a' b').

Lemma modular_bits (f : Z -> Z -> Z) (g : bool -> bool -> bool) :
  (forall a b i, Z.testbit (f a b) i = g (Z.testbit a i) (Z.testbit b i)) -> modular f.
Proof.
  intros Hf w a a' b b' Hw Ha Hb. apply Z.bits_inj'. intros i Hi. unfold uwrap in *. destruct (Z_lt_ge_dec i w).
  - rewrite !Z.mod_pow2_bits_low, !Hf by done. apply (f_equal (fun z => Z.testbit z i)) in Ha, Hb. rewrite !Z.mod_pow2_bits_low in Ha, Hb by done. congruence.
  - by rewrite !Z.mod_pow2_bits_high by lia.
Qed.

Lemma modular_add : modular Z.add.
Proof. intros w a a' b b' Hw Ha Hb. unfold uwrap in *. by rewrite Zplus_mod, Ha, Hb, <-Zplus_mod. Qed.
Lemma modular_sub : modular Z.sub.
Proof. intros w a a' b b' Hw Ha Hb. unfold uwrap in *. by rewrite Zminus_mod, Ha, Hb, <-Zminus_mod. Qed.
Lemma modular_mul : modular Z.mul.
Proof. intros w a a' b b' Hw Ha Hb. unfold uwrap in *. by rewrite Zmult_mod, Ha, Hb, <-Zmult_mod. Qed.
Lemma modular_opp w a a' : 0 <= w -> uwrap w a = uwrap w a' -> uwrap w (- a) = uwrap w (- a').
Proof. intros. rewrite <-(Z.sub_0_l a), <-(Z.sub_0_l a'). by apply modular_sub. Qed.
Lemma modular_lor : modular Z.lor.
Proof. apply (modular_bits _ orb), Z.lor_spec. Qed.
Lemma modular_land : modular Z.land.
Proof. apply (modular_bits _ andb), Z.land_spec. Qed.
Lemma modular_lxor : modular Z.lxor.
Proof. apply (modular_bits _ xorb), Z.lxor_spec. Qed.

Lemma word_bits size : word size -> 0 < size_bits size <= 64.
Proof. by intros [-> | ->]. Qed.

(** The operations that have both an opcode and an extension of opcode 81. *)
Inductive alu_code : Z -> Z -> (Z -> Z -> Z) -> Prop :=
  | alu_add : alu_code 0x01 0 Z.add
  | alu_or : alu_code 0x09 1 Z.lor
  | alu_and : alu_code 0x21 4 Z.land
  | alu_sub : alu_code 0x29 5 Z.sub
  | alu_xor : alu_code 0x31 6 Z.lxor.

Lemma alu_code_modular opcode ext f : alu_code opcode ext f -> modular f.
Proof. intros []; [apply modular_add|apply modular_lor|apply modular_land|apply modular_sub|apply modular_lxor]. Qed.

Lemma alu_code_ok opcode ext f : alu_code opcode ext f ->
  opcode ∈ [0x01; 0x09; 0x21; 0x29; 0x31] /\ binary_op opcode = Some f /\ extended_op ext = Some f /\ 0 <= ext < 8 /\ ext <> 7.
Proof. intros []; (split; [apply (bool_decide_unpack _); reflexivity|]); (split; [done|]); (split; [done|]); lia. Qed.

Section Guest.
Context `{Bo : LittleEndian} `{Rnd : Rand} (config : Config) (executable : Executable) (key : Z) (Hkey : in_s 64 key).
Let v : SBPFVersion := executable.(sbpf_version).
Context (insn : Insn) (Himm : in_s 32 insn.(imm)) (d s : X86Register).
Context (Hd : mapped d) (Hds : d <> REGISTER_SCRATCH) (Hs : mapped s) (Hss : s <> REGISTER_SCRATCH).
Implicit Types (m : Machine) (size : OperandSize).

Lemma imm_range : in_s 64 insn.(imm).
Proof. unfold in_s in *. lia. Qed.

Lemma computes_alu_constant size opcode ext f z : word size -> alu_code opcode ext f -> in_s 64 z ->
  computes key (emit_sanitized_alu config size opcode ext d z) d (fun m => uwrap (size_bits size) (f (m.(gpr) (reg_code d)) z)).
Proof.
  intros Hw Hc Hz. pose proof (alu_code_modular _ _ _ Hc) as Hf. destruct (alu_code_ok _ _ _ Hc) as (H1 & H2 & H3 & H4 & H5). pose proof (word_bits size Hw) as Hb.
  eapply computes_value; [eapply (computes_sanitized_alu config key Hkey size opcode ext f d z); try done|].
  - intros a b c Hbc. apply Hf; [lia|done|]. rewrite uwrap_uwrap by lia. rewrite <-(uwrap_uwrap _ 64 b), Hbc, uwrap_uwrap by lia. done.
  - intros m Hm. cbn beta. unfold read_reg. apply Hf; [lia| |done]. apply uwrap_uwrap. lia.
Qed.

Lemma computes_alu_register size opcode ext f : word size -> alu_code opcode ext f ->
  computes key (emit_ins (alu size opcode s d None)) d (fun m => uwrap (size_bits size) (f (m.(gpr) (reg_code d)) (m.(gpr) (reg_code s)))).
Proof.
  intros Hw Hc. pose proof (alu_code_modular _ _ _ Hc) as Hf. destruct (alu_code_ok _ _ _ Hc) as (H1 & H2 & H3 & H4 & H5). pose proof (word_bits size Hw) as Hb.
  eapply computes_value; [by eapply (computes_alu key size opcode f s d)|]. intros m Hm. cbn beta. unfold read_reg. apply Hf; [lia|apply uwrap_uwrap; lia..].
Qed.

Lemma computes_multiply size : word size ->
  computes key (emit_ins (alu_escaped size 1 0xaf d s None)) d (fun m => uwrap (size_bits size) (m.(gpr) (reg_code d) * m.(gpr) (reg_code s))).
Proof.
  intros Hw. pose proof (word_bits size Hw) as Hb. eapply computes_value; [by apply (computes_imul key size s d)|].
  intros m Hm. cbn beta. unfold read_reg. apply modular_mul; [lia|apply uwrap_uwrap; lia..].
Qed.

Lemma computes_negate size : word size ->
  computes key (emit_ins (alu_immediate size 0xf7 3 d 0 None)) d (fun m => uwrap (size_bits size) (- m.(gpr) (reg_code d))).
Proof.
  intros Hw. pose proof (word_bits size Hw) as Hb. eapply computes_value; [by apply (computes_neg key size d)|].
  intros m Hm. cbn beta. unfold read_reg. apply modular_opp; [lia|apply uwrap_uwrap; lia].
Qed.

(** Subtraction of a constant, or from it. *)
Lemma computes_sub_imm size : word size -> computes key (compile_sub_imm config executable insn d size) d
  (fun m => uwrap (size_bits size) (if swap_sub_reg_imm_operands v then insn.(imm) - m.(gpr) (reg_code d) else m.(gpr) (reg_code d) - insn.(imm))).
Proof.
  intros Hw. pose proof (word_bits size Hw) as Hb. pose proof imm_range as Hi. unfold compile_sub_imm. fold v. destruct (swap_sub_reg_imm_operands v).
  - destruct (Z.eqb_spec insn.(imm) 0) as [H0|_]; cbn [negb j_if];
      (eapply (computes_bind key _ _ d d); [done|by left|by apply computes_negate|first [apply computes_nothing|by apply (computes_alu_constant size 0x01 0 Z.add); [|constructor|]]|]);
      intros m m1 Hm He; cbn beta; rewrite (ef_value _ _ _ _ He).
    + f_equal. lia.
    + replace (insn.(imm) - m.(gpr) (reg_code d)) with (- m.(gpr) (reg_code d) + insn.(imm)) by lia. apply modular_add; [lia|apply uwrap_uwrap; lia|done].
  - by apply (computes_alu_constant size 0x29 5 Z.sub); [|constructor|].
Qed.

Lemma computes_mul_imm size : word size -> computes key (compile_mul_imm config insn d size) d
  (fun m => uwrap (size_bits size) (m.(gpr) (reg_code d) * insn.(imm))).
Proof.
  intros Hw. pose proof (word_bits size Hw) as Hb. unfold compile_mul_imm.
  eapply (computes_bind key _ _ REGISTER_SCRATCH d); [done|by right|by apply (computes_load_constant config key Hkey), imm_range; apply mapped_scratch|by apply (computes_imul key size)|].
  intros m m1 Hm He. cbn beta. unfold read_reg. rewrite (ef_value _ _ _ _ He), (ef_other _ _ _ _ He) by (by apply code_ne).
  apply modular_mul; [lia|apply uwrap_uwrap; lia|]. unfold as_u64. rewrite !uwrap_uwrap by lia. done.
Qed.

Lemma computes_mov32_imm : computes key (compile_mov32_imm config insn d) d (fun _ => as_u32 insn.(imm)).
Proof.
  assert (Hu : in_u 32 (as_u32 insn.(imm))) by (by apply uwrap_range). assert (Hz : in_s 64 (as_u32 insn.(imm))) by (unfold in_s, in_u in *; lia).
  eapply (computes_value key _ d (fun _ => as_u64 (as_u32 insn.(imm)))).
  - unfold compile_mov32_imm. destruct (should_sanitize_constant _ _); [by apply computes_sanitized_load|by apply computes_load_immediate].
  - intros m Hm. apply uwrap_small. unfold in_u in *. lia.
Qed.

(** A result of 32 bits is extended with its sign, or with zeros. *)
Definition extended (z : Z) : Z := if explicit_sign_extension_of_results v then as_u32 z else as_u64 (as_i32 z).

Lemma computes_extended (c : Jit unit) f : computes key c d (fun m => uwrap 32 (f m)) ->
  computes key (c ;* sign_extend executable d) d (fun m => extended (f m)).
Proof.
  intros Hc. unfold sign_extend, extended. fold v.
  destruct (explicit_sign_extension_of_results v); cbn [negb j_if]; (eapply (computes_bind key _ _ d d); [done|by left|exact Hc|first [apply computes_nothing|by apply computes_sign_extend]|]);
    intros m m1 Hm He; cbn beta; rewrite (ef_value _ _ _ _ He); [done|].
  by rewrite swrap_uwrap.
Qed.

Lemma computes_mov32_reg : computes key (if explicit_sign_extension_of_results v then emit_ins (mov_with_sign_extension S64 s d) else emit_ins (X86.mov S32 s d)) d
  (fun m => if explicit_sign_extension_of_results v then as_u64 (as_i32 (m.(gpr) (reg_code s))) else as_u32 (m.(gpr) (reg_code s))).
Proof.
  destruct (explicit_sign_extension_of_results v).
  - assert (Hb : built (E := EbpfError) (mov_with_sign_extension S64 s d)) by (apply built_mov_with_sign_extension; [apply Hs|apply Hd]).
    apply (computes_ins key _ (mkX86 S64 0 0x63 true None (reg_code d) (reg_code s) S0 0) d); [done|done|reflexivity|].
    intros m Hm. eexists _, None. split; [reflexivity|]. split; [reflexivity|]. by apply uwrap_range.
  - by apply (computes_mov key S32 s d); [left| |].
Qed.

(** ** Byte orders *)

Lemma computes_mask16 : computes key (emit_ins (alu_immediate S32 0x81 4 d 0xffff None)) d (fun m => as_u16 (m.(gpr) (reg_code d))).
Proof.
  eapply computes_value; [by apply (computes_alu_immediate key S32 4 Z.land d 0xffff); [left| | | |]|].
  intros m Hm. cbn beta. unfold read_reg. change (size_bits S32) with 32. change (swrap 32 0xffff) with (Z.ones 16). rewrite Z.land_ones by done.
  change (uwrap 32 (uwrap 16 (uwrap 32 (m.(gpr) (reg_code d)))) = uwrap 16 (m.(gpr) (reg_code d))). rewrite (uwrap_uwrap 16 32) by done. apply uwrap_small.
  pose proof (uwrap_range 16 (m.(gpr) (reg_code d)) ltac:(done)). unfold in_u in *. lia.
Qed.

Definition le_result (width z : Z) : Z := if width =? 16 then as_u16 z else if width =? 32 then as_u32 z else z.
Definition be_result (width z : Z) : Z :=
  if width =? 16 then swap_bytes 2 (as_u16 z) else if width =? 32 then swap_bytes 4 (as_u32 z) else swap_bytes 8 z.
Context (Hwidth : insn.(imm) = 16 \/ insn.(imm) = 32 \/ insn.(imm) = 64).

Lemma computes_le : computes key (compile_le insn d) d (fun m => le_result insn.(imm) (m.(gpr) (reg_code d))).
Proof.
  unfold compile_le, le_result. destruct Hwidth as [-> |[-> | ->]]; cbn [Z.eqb Pos.eqb].
  - apply computes_mask16.
  - eapply computes_value; [by apply (computes_alu_immediate key S32 4 Z.land d (-1)); [left| | | |]|].
    intros m Hm. cbn beta. change (swrap 32 (-1)) with (-1). rewrite Z.land_m1_r. apply uwrap_uwrap. done.
  - apply computes_nothing.
Qed.

(** Swapping the bytes of the lower 16 bits is a rotation. *)
Lemma rotate_swap (z : Z) : in_u 16 z -> uwrap 16 (Z.lor (Z.shiftl z 8) (Z.shiftr z 8)) = swap_bytes 2 z.
Proof.
  intros Hz. apply Z.bits_inj'. intros i Hi. change (swap_bytes 2 z) with (Z.lor (as_u8 (Z.shiftr z 8)) (Z.shiftl (Z.lor (as_u8 z) (Z.shiftl 0 8)) 8)).
  rewrite Z.shiftl_0_l, Z.lor_0_r. unfold as_u8, uwrap. rewrite Z.lor_spec, Z.shiftl_spec by done. destruct (Z_lt_ge_dec i 8).
  - rewrite !Z.mod_pow2_bits_low, Z.lor_spec, Z.shiftl_spec by lia. rewrite (Z.testbit_neg_r z (i - 8)) by lia. by rewrite orb_false_r.
  - rewrite (Z.mod_pow2_bits_high _ 8 i) by lia. destruct (Z_lt_ge_dec i 16).
    + rewrite !Z.mod_pow2_bits_low, Z.lor_spec, Z.shiftl_spec, Z.shiftr_spec by lia. rewrite <-(uwrap_small 16 z) at 2 by done. unfold uwrap.
      rewrite (Z.mod_pow2_bits_high _ 16) by lia. apply orb_false_r.
    + by rewrite !Z.mod_pow2_bits_high by lia.
Qed.

Lemma written_low (old z : Z) : 0 <= old -> as_u16 (written S16 old z) = as_u16 z.
Proof.
  intros Ho. cbn [written]. unfold as_u16, uwrap. apply Z.bits_inj'. intros i Hi. change (2 ^ 16 - 1) with (Z.ones 16). destruct (Z_lt_ge_dec i 16).
  - rewrite !Z.mod_pow2_bits_low, Z.lor_spec, Z.ldiff_spec, Z.mod_pow2_bits_low, Z.ones_spec_low by lia. by rewrite andb_false_r.
  - by rewrite !Z.mod_pow2_bits_high by lia.
Qed.

Lemma computes_swap16 : computes key (emit_ins (bswap S16 d)) d
  (fun m => written S16 (m.(gpr) (reg_code d)) (swap_bytes 2 (as_u16 (m.(gpr) (reg_code d))))).
Proof.
  assert (Hb : built (E := EbpfError) (bswap S16 d)) by (apply built_bswap, Hd).
  apply (computes_ins key _ (mkX86 S16 0 0xc1 true None 0 (reg_code d) S8 8) d); [done|done|reflexivity|].
  intros m [Hm _]. eexists _, None. split; [reflexivity|]. cbn [canonical_x86 x_second x_first x_size written].
  change (read_reg m S16 (reg_code d)) with (as_u16 (m.(gpr) (reg_code d))). assert (Hz : in_u 16 (as_u16 (m.(gpr) (reg_code d)))) by (by apply uwrap_range).
  split.
  - f_equal. rewrite (uwrap_small 16 (swap_bytes 2 _)) by apply (swap_bytes_range 2). by apply rotate_swap.
  - apply lor_range; [done| |apply (in_u_weaken 16); [lia|by apply uwrap_range]].
    rewrite Z.ldiff_land. by apply land_range.
Qed.

Lemma computes_be : computes key (compile_be insn d) d (fun m => be_result insn.(imm) (m.(gpr) (reg_code d))).
Proof.
  unfold compile_be, be_result. destruct Hwidth as [-> |[-> | ->]]; cbn [Z.eqb Pos.eqb].
  - eapply (computes_bind key _ _ d d); [done|by left|apply computes_swap16|apply computes_mask16|].
    intros m m1 [Hm _] He. cbn beta. rewrite (ef_value _ _ _ _ He), written_low by apply Hm. apply uwrap_small, (swap_bytes_range 2).
  - eapply computes_value; [by apply (computes_bswap key S32 d); [left|]|]. intros m Hm. apply uwrap_small, (swap_bytes_range 4).
  - eapply computes_value; [by apply (computes_bswap key S64 d); [right|]|]. intros m [Hm _]. cbn beta. unfold read_reg. change (size_bits S64) with 64.
    rewrite (uwrap_small 64 (m.(gpr) _)) by apply Hm. apply uwrap_small, (swap_bytes_range 8).
Qed.
End Guest.

(** ** Shifts *)

(** A shift as the guest has it. *)
Definition guest_shift (size : OperandSize) (ext z count : Z) : Z :=
  let w := size_bits size in
  if ext =? 4 then u_wrapping_shl w (uwrap w z) count
  else if ext =? 5 then wrapping_shr w (uwrap w z) count
  else uwrap w (wrapping_shr w (swrap w z) count).

Lemma shift_op_guest size ext z c : word size -> shift_ext ext ->
  uwrap (size_bits size) (default 0 (shift_op size ext (uwrap (size_bits size) z) c)) = guest_shift size ext z c.
Proof.
  intros Hw Hx. unfold shift_op, guest_shift, u_wrapping_shl, wrapping_shr. pose proof (word_bits size Hw) as Hb.
  assert (Hc : shift_count size c = c mod size_bits size) by (by destruct Hw as [-> | ->]). rewrite Hc.
  assert (Hm : 0 <= c mod size_bits size) by (apply Z.mod_pos_bound; lia).
  destruct Hx as [-> |[-> | ->]]; cbn [Z.eqb Pos.eqb default from_option id]; [done| |].
  - apply uwrap_small, shiftr_range; [done|]. apply uwrap_range. lia.
  - by rewrite swrap_uwrap by lia.
Qed.

Lemma guest_shift_count size ext z c c' : word size -> c mod size_bits size = c' mod size_bits size -> guest_shift size ext z c = guest_shift size ext z c'.
Proof. intros Hw Hc. unfold guest_shift, u_wrapping_shl, wrapping_shr. by rewrite Hc. Qed.

Lemma byte_mod size c c' : word size -> uwrap 8 c = uwrap 8 c' -> c mod size_bits size = c' mod size_bits size.
Proof.
  intros Hw Hc. assert (Hd : exists k, 2 ^ 8 = k * size_bits size /\ 0 < size_bits size) by (destruct Hw as [-> | ->]; [exists 8|exists 4]; done).
  destruct Hd as (k & Hk & H0). unfold uwrap in Hc. rewrite <-(Z.mod_mod_divide c (2 ^ 8)), Hc by (by exists k). apply Z.mod_mod_divide. by exists k.
Qed.

Section GuestShifts.
Context `{Rnd : Rand} (key : Z) (d s : X86Register).
Context (Hd : mapped d) (Hs : mapped s) (Hss : s <> REGISTER_SCRATCH).

Lemma computes_guest_shift_imm size ext z : word size -> shift_ext ext -> in_s 32 z ->
  computes key (emit_shift size ext REGISTER_SCRATCH d (Some z)) d (fun m => guest_shift size ext (m.(gpr) (reg_code d)) (as_u32 z)).
Proof.
  intros Hw Hx Hz. eapply computes_value; [apply (computes_shift_immediate key size ext d z); [done|unfold shift_ext in Hx; lia|done]|].
  intros m Hm. cbn beta. unfold read_reg. rewrite shift_op_guest by done. apply guest_shift_count, byte_mod; [done..|].
  rewrite uwrap_swrap by done. unfold as_u32. by rewrite uwrap_uwrap.
Qed.

Lemma computes_guest_shift_reg size ext : word size -> shift_ext ext ->
  computes key (emit_shift size ext s d None) d (fun m => guest_shift size ext (m.(gpr) (reg_code d)) (as_u32 (m.(gpr) (reg_code s)))).
Proof.
  intros Hw Hx. eapply computes_value; [by apply (computes_shift_register key size ext s d)|].
  intros m Hm. cbn beta. unfold shifted, read_reg. rewrite shift_op_guest by done. apply guest_shift_count, byte_mod; [done..|].
  unfold as_u32. by rewrite !uwrap_uwrap.
Qed.
End GuestShifts.
