(* ===== verification/JitCompare.v ===== *)
(** The code of guest comparisons: what the comparison in front of a conditional branch of the JIT
    compiler (src/jit.rs) leaves in the flags, and when the branch behind it is taken. *)
From S2P Require Import Prelude Error Ebpf Program Executable X86 X86Decode X86Semantics Jit JitCompile JitAlu.
Open Scope rust_scope.
Open Scope list_scope.
Open Scope jit_scope.

(** * Conditions *)

(** The opcodes of conditional jumps that the compiler uses, and when they are meant to jump. *)
Definition branch_ops : list Z := [0x82; 0x83; 0x84; 0x85; 0x86; 0x87; 0x8c; 0x8d; 0x8e; 0x8f].
Definition branch_taken (size : OperandSize) (op : Z) (bitwise : bool) (x y : Z) : bool :=
  let w := size_bits size in
  if bitwise then negb (Z.land (uwrap w x) (uwrap w y) =? 0)
  else if op =? 0x82 then uwrap w x <? uwrap w y
  else if op =? 0x83 then uwrap w y <=? uwrap w x
  else if op =? 0x84 then uwrap w x =? uwrap w y
  else if op =? 0x85 then negb (uwrap w x =? uwrap w y)
  else if op =? 0x86 then uwrap w x <=? uwrap w y
  else if op =? 0x87 then uwrap w y <? uwrap w x
  else if op =? 0x8c then swrap w x <? swrap w y
  else if op =? 0x8d then swrap w y <=? swrap w x
  else if op =? 0x8e then swrap w x <=? swrap w y
  else swrap w y <? swrap w x.

(** Sign and overflow differ exactly if the difference is negative. *)
Lemma signed_less w a b : 0 < w -> in_s w a -> in_s w b ->
  xorb (swrap w (a - b) <? 0) (negb (a - b =? swrap w (a - b))) = (a <? b).
Proof.
  intros Hw Ha Hb. unfold in_s in *. pose proof (swrap_range w (a - b) Hw) as Hr. pose proof (swrap_mod w (a - b) Hw) as Hm. unfold in_s in Hr.
  assert (H2 : 2 ^ w = 2 * 2 ^ (w - 1)) by (rewrite <-Z.pow_succ_r by lia; f_equal; lia).
  assert (Hk : exists k, a - b = swrap w (a - b) + k * 2 ^ w).
  { exists ((a - b) / 2 ^ w - swrap w (a - b) / 2 ^ w). pose proof (Z.div_mod (a - b) (2 ^ w)). pose proof (Z.div_mod (swrap w (a - b)) (2 ^ w)). nia. }
  destruct Hk as [k Hk]. set (r := swrap w (a - b)) in *. assert (k = 0 \/ k = 1 \/ k = -1) by nia.
  destruct (Z.ltb_spec r 0), (Z.eqb_spec (a - b) r), (Z.ltb_spec a b); cbn; nia || done.
Qed.

Lemma sign_bit_negative size z : word size -> sign_bit size (uwrap (size_bits size) z) = (swrap (size_bits size) z <? 0).
Proof.
  intros Hw. pose proof (word_bits size Hw) as Hb. set (w := size_bits size) in *. unfold sign_bit. fold w.
  unfold uwrap, swrap. cbv zeta. pose proof (Z.mod_pos_bound z (2 ^ w) ltac:(lia)) as Hm. set (m := z mod 2 ^ w) in *.
  assert (H2 : 2 ^ w = 2 * 2 ^ (w - 1)) by (rewrite <-Z.pow_succ_r by lia; f_equal; lia).
  rewrite Z.testbit_odd, Z.shiftr_div_pow2 by lia. destruct (Z.ltb_spec m (2 ^ (w - 1))) as [Hl|Hl].
  - rewrite Z.div_small by lia. symmetry. apply Z.ltb_ge. lia.
  - rewrite <-(Z.div_unique_pos m (2 ^ (w - 1)) 1 (m - 2 ^ (w - 1))) by lia. symmetry. apply Z.ltb_lt. lia.
Qed.

Lemma signed_flags size x y : word size ->
  xorb (fl_sf (compare size x y)) (fl_of (compare size x y)) = (swrap (size_bits size) x <? swrap (size_bits size) y).
Proof.
  intros Hw. pose proof (word_bits size Hw) as Hb. unfold compare. cbv zeta. cbn [fl_sf fl_of]. set (w := size_bits size) in *.
  rewrite sign_bit_negative by done. fold w. rewrite !swrap_uwrap by lia.
  assert (Hd : swrap w (uwrap w x - uwrap w y) = swrap w (swrap w x - swrap w y)).
  { rewrite <-(swrap_uwrap w (uwrap w x - _)), <-(swrap_uwrap w (swrap w x - _)) by lia. f_equal. apply modular_sub; [lia| |].
    - rewrite uwrap_uwrap, uwrap_swrap by lia. done.
    - rewrite uwrap_uwrap, uwrap_swrap by lia. done. }
  rewrite Hd. apply signed_less; [lia|apply swrap_range; lia..].
Qed.

Lemma word_eq size x y : word size -> (uwrap (size_bits size) x =? uwrap (size_bits size) y) = (swrap (size_bits size) x =? swrap (size_bits size) y).
Proof.
  intros Hw. pose proof (word_bits size Hw) as Hb. apply eq_true_iff_eq. rewrite !Z.eqb_eq. split; intros H.
  - by rewrite <-(swrap_uwrap _ x), H, swrap_uwrap by lia.
  - by rewrite <-(uwrap_swrap _ x), H, uwrap_swrap by lia.
Qed.

(** A comparison and the condition of a jump behind it. *)
Lemma compare_condition size op x y : word size -> op ∈ branch_ops ->
  condition (op - 0x80) (compare size x y) = Some (branch_taken size op false x y).
Proof.
  intros Hw Ho. pose proof (signed_flags size x y Hw) as Hs. pose proof (word_eq size x y Hw) as He.
  assert (Hc : fl_cf (compare size x y) = (uwrap (size_bits size) x <? uwrap (size_bits size) y)) by done.
  assert (Hz : fl_zf (compare size x y) = (uwrap (size_bits size) x =? uwrap (size_bits size) y)) by done.
  set (f := compare size x y) in *. clearbody f. unfold branch_ops in Ho. rewrite !elem_of_cons, elem_of_nil in Ho.
  repeat destruct Ho as [-> |Ho]; [..|done]; unfold condition, branch_taken; cbn [Z.sub Z.add Z.opp Z.pos_sub Pos.sub Z.shiftr Z.shiftl Z.odd Pos.div2 Z.div2 Pos.iter fmap option_fmap option_map Z.eqb Pos.eqb];
    rewrite ?Hs, ?Hc, ?Hz, ?He; f_equal; repeat match goal with |- context [?a <? ?b] => destruct (Z.ltb_spec a b) | |- context [?a =? ?b] => destruct (Z.eqb_spec a b) | |- context [?a <=? ?b] => destruct (Z.leb_spec a b) end; cbn; try lia; done.
Qed.

Lemma test_condition size x y : word size ->
  condition 5 (bit_test size (uwrap (size_bits size) x) (uwrap (size_bits size) y)) = Some (branch_taken size 0x85 true x y).
Proof.
  intros Hw. pose proof (word_bits size Hw) as Hb. unfold condition, branch_taken, bit_test. cbv zeta. cbn [fl_zf Z.shiftr Z.shiftl Z.odd Z.div2 Pos.iter Pos.div2 fmap option_fmap option_map].
  rewrite (uwrap_small (size_bits size) (Z.land _ _)); [done|]. apply land_range; [lia|]. apply uwrap_range. lia.
Qed.

(** * Code *)

Section Comparisons.
Context `{Rnd : Rand} (config : Config) (key : Z) (Hkey : in_s 64 key).
Implicit Types (d s : X86Register) (size : OperandSize).

(** Code that sets the flags for a condition, and changes the scratch register only. *)
Definition compares (c : Jit unit) (op : Z) (taken : Machine -> bool) : Prop :=
  exists l, writes key c l /\ Forall x86_wf l /\
    forall m, machine_ok m -> exists m' z f, steps l m = Some m' /\ machine_ok m' /\ effect m m' REGISTER_SCRATCH z /\
      m'.(flags) = Some f /\ condition (op - 0x80) f = Some (taken m).

Lemma compares_ins (e : Exec EbpfError X86Instruction) (i : X86Instruction) op taken : built e -> e = Ret i ->
  (forall m, machine_ok m -> exists f, step_x86 (canonical_x86 i) m = Some (with_flags m f) /\ condition (op - 0x80) f = Some (taken m)) ->
  compares (emit_ins e) op taken.
Proof.
  intros Hb He Hstep. exists [i]. rewrite He. split; [apply writes_ins|]. split; [constructor; [by apply (x86_built_ok e)|done]|].
  intros m Hm. destruct (Hstep m Hm) as (f & Hs & Hc). exists (with_flags m f), (m.(gpr) (reg_code REGISTER_SCRATCH)), f. cbn [steps]. rewrite Hs.
  split; [done|]. destruct Hm as [H1 H2]. split; [by split|]. split; [by split|]. by split.
Qed.

Definition compare_ins (bitwise : bool) size s d : Exec EbpfError X86Instruction := if bitwise then test size s d None else cmp size s d None.
Definition compare_immediate_ins (bitwise : bool) size d (imm : Z) : Exec EbpfError X86Instruction :=
  if bitwise then test_immediate size d imm None else cmp_immediate size d imm None.

Lemma word_bytes size first8 first second indirect : word size -> byte_operands size first8 first second indirect.
Proof. by intros [-> | ->]. Qed.

Definition branch_op_ok (op : Z) (bitwise : bool) : Prop := if bitwise then op = 0x85 else op ∈ branch_ops.

Lemma compares_register size op bitwise s d : word size -> branch_op_ok op bitwise -> mapped s -> mapped d ->
  compares (emit_ins (compare_ins bitwise size s d)) op (fun m => branch_taken size op bitwise (m.(gpr) (reg_code d)) (m.(gpr) (reg_code s))).
Proof.
  intros Hw Ho [Hs _] [Hd _]. destruct bitwise; cbn [compare_ins branch_op_ok] in *.
  - subst op. apply (compares_ins _ (mkX86 size 0 0x85 true None (reg_code s) (reg_code d) S0 0)); [apply built_test; first [done | by apply word_bytes]|by destruct Hw as [-> | ->]|].
    intros m Hm. eexists. split; [by destruct Hw as [-> | ->]|]. by apply test_condition.
  - apply (compares_ins _ (mkX86 size 0 0x39 true None (reg_code s) (reg_code d) S0 0)); [apply built_cmp; first [done | by apply word_bytes]|by destruct Hw as [-> | ->]|].
    intros m Hm. eexists. split; [by destruct Hw as [-> | ->]|]. rewrite compare_condition by done. f_equal.
    pose proof (word_bits size Hw). unfold branch_taken, read_reg. cbv zeta. rewrite !(uwrap_uwrap (size_bits size) (size_bits size)), !(swrap_uwrap (size_bits size)) by lia. done.
Qed.

Lemma compares_constant size op bitwise d z : word size -> branch_op_ok op bitwise -> mapped d -> in_s 32 z ->
  compares (emit_ins (compare_immediate_ins bitwise size d z)) op (fun m => branch_taken size op bitwise (m.(gpr) (reg_code d)) z).
Proof.
  intros Hw Ho [Hd _] Hz. pose proof (word_bits size Hw) as Hb. destruct bitwise; cbn [compare_immediate_ins branch_op_ok] in *.
  - subst op. apply (compares_ins _ (mkX86 size 0 0xf7 true None 0 (reg_code d) S32 z)); [apply built_test_immediate; first [done | by apply word_bytes]|by destruct Hw as [-> | ->]|].
    intros m Hm. exists (bit_test size (read_reg m size (reg_code d)) (swrap 32 z)). split; [by destruct Hw as [-> | ->]|].
    rewrite (swrap_small 32) by done. rewrite <-(test_condition size (m.(gpr) (reg_code d)) z Hw). f_equal. unfold bit_test. cbv zeta.
    assert (Hl : uwrap (size_bits size) (Z.land (read_reg m size (reg_code d)) z) = uwrap (size_bits size) (Z.land (uwrap (size_bits size) (m.(gpr) (reg_code d))) (uwrap (size_bits size) z)))
      by (apply modular_land; [lia|done|symmetry; apply uwrap_uwrap; lia]). by rewrite Hl.
  - apply (compares_ins _ (mkX86 size 0 0x81 true None 7 (reg_code d) S32 z)); [apply built_cmp_immediate; first [done | by apply word_bytes]|by destruct Hw as [-> | ->]|].
    intros m Hm. exists (compare size (read_reg m size (reg_code d)) (swrap 32 z)). split; [by destruct Hw as [-> | ->]|].
    rewrite (swrap_small 32), compare_condition by done. f_equal. unfold branch_taken, read_reg. cbv zeta. rewrite !(uwrap_uwrap (size_bits size) (size_bits size)), !(swrap_uwrap (size_bits size)) by lia. done.
Qed.

(** A comparison with a constant, sanitized or not. *)
Lemma compares_sanitized size op bitwise d z : word size -> branch_op_ok op bitwise -> mapped d -> d <> REGISTER_SCRATCH -> in_s 32 z ->
  compares (if should_sanitize_constant config z then emit_sanitized_load_immediate REGISTER_SCRATCH z ;* emit_ins (compare_ins bitwise size REGISTER_SCRATCH d)
            else emit_ins (compare_immediate_ins bitwise size d z)) op
    (fun m => branch_taken size op bitwise (m.(gpr) (reg_code d)) z).
Proof.
  intros Hw Ho Hd Hds Hz. pose proof (word_bits size Hw) as Hb. destruct (should_sanitize_constant config z); [|by apply compares_constant].
  destruct (computes_sanitized_load key Hkey REGISTER_SCRATCH z mapped_scratch) as (l1 & Hw1 & Hf1 & H1); [unfold in_s in *; lia|].
  destruct (compares_register size op bitwise REGISTER_SCRATCH d Hw Ho mapped_scratch Hd) as (l2 & Hw2 & Hf2 & H2).
  exists (l1 ++ l2). split; [by apply writes_bind|]. split; [by apply Forall_app|].
  intros m Hm. destruct (H1 m Hm) as (m1 & Hs1 & Hm1 & He1). destruct (H2 m1 Hm1) as (m2 & x & f & Hs2 & Hm2 & He2 & Hf & Hc).
  exists m2, x, f. rewrite steps_app, Hs1. cbn [mbind option_bind]. split; [done|]. split; [done|]. split.
  - pose proof (effect_stack _ _ _ _ mapped_scratch He1) as Hsp. destruct He1 as [_ Ho1 Hmem1], He2 as [Hv2 Ho2 Hmem2].
    split; [done|intros c Hc1 Hc2; by rewrite Ho2, Ho1|]. intros a Ha Hn. by rewrite Hmem2, Hmem1 by (done || by rewrite Hsp).
  - split; [done|]. rewrite Hc. f_equal. rewrite (ef_value _ _ _ _ He1), (ef_other _ _ _ _ He1) by (by apply code_ne).
    unfold branch_taken, as_u64. cbv zeta. rewrite uwrap_uwrap by lia.
    assert (swrap (size_bits size) (uwrap 64 z) = swrap (size_bits size) z) as -> by (rewrite <-(swrap_uwrap _ (uwrap 64 z)), uwrap_uwrap, swrap_uwrap by lia; done). done.
Qed.
End Comparisons.

(** * Branches *)

(** When the machine takes a branch: an unconditional one always, a conditional one by its condition. *)
Definition takes (prefix : list Z) (m : Machine) : option bool :=
  match prefix with
  | [_] => Some true
  | [_; op] => f ← m.(flags); condition (op - 0x80) f
  | _ => None
  end.

(** The code in front of a branch, run, decides it. *)
Definition decides (code prefix : list Z) (taken : Machine -> bool) : Prop :=
  forall m, machine_ok m -> exists fuel m' z, run_x86 fuel code m = Some m' /\ machine_ok m' /\
    effect m m' REGISTER_SCRATCH z /\ takes prefix m' = Some (taken m).

Lemma decides_nothing b : decides [] [b] (fun _ => true).
Proof. intros m Hm. exists 1%nat, m, (m.(gpr) (reg_code REGISTER_SCRATCH)). split; [done|]. split; [done|]. split; [apply effect_refl|done]. Qed.

Lemma compares_decides `{Rnd : Rand} key (c : Jit unit) b op taken : compares key c op taken ->
  exists l, writes key c l /\ forall code, interleaved l code -> decides code [b; op] taken.
Proof.
  intros (l & Hw & Hf & H). exists l. split; [done|]. intros code Hi m Hm. destruct (H m Hm) as (m' & z & f & Hs & Hm' & He & Hfl & Hc).
  destruct (interleaved_runs l code m m' Hi Hf Hs) as [fuel Hr]. exists fuel, m', z. split; [done|]. split; [done|]. split; [done|].
  cbn [takes]. rewrite Hfl. exact Hc.
Qed.
