(* ===== verification/ElfLoader.v ===== *)
(** Loading executables from ELF files (src/elf.rs): the strict loader of SBPFv3 and
    later, which maps program headers, and the lenient loader of earlier versions, which
    validates sections, relocates calls and addresses and gathers read-only sections. *)
From Stdlib Require Import String.
From S2P Require Import Prelude Text Error Ebpf Program Verifier MemoryRegion.
From S2P Require Import AlignedMemory.
From S2P Require Import ElfParser.
From S2P Require Import Executable.
Open Scope rust_scope.
Open Scope list_scope.

(** The [byteorder] crate: [LittleEndian::write_*] write to the front of a slice and
    panic on a short one.  [None] is the panic. *)
Class LittleEndianWrite := {
  write_u32 : list Z -> Z -> option (list Z);
  write_u64 : list Z -> Z -> option (list Z);
  write_u32_spec (buf : list Z) (v : Z) :
    write_u32 buf v = if decide (4 <= length buf)%nat then Some (le_bytes 4 v ++ drop 4 buf) else None;
  write_u64_spec (buf : list Z) (v : Z) :
    write_u64 buf v = if decide (8 <= length buf)%nat then Some (le_bytes 8 v ++ drop 8 buf) else None
}.

Definition le_write_reference : LittleEndianWrite := {|
  write_u32 buf v := if decide (4 <= length buf)%nat then Some (le_bytes 4 v ++ drop 4 buf) else None;
  write_u64 buf v := if decide (8 <= length buf)%nat then Some (le_bytes 8 v ++ drop 8 buf) else None;
  write_u32_spec _ _ := eq_refl;
  write_u64_spec _ _ := eq_refl
|}.

(** * Names and constants *)

Definition name_text : list Z := [0x2e; 0x74; 0x65; 0x78; 0x74].
Definition name_rodata : list Z := [0x2e; 0x72; 0x6f; 0x64; 0x61; 0x74; 0x61].
Definition name_data_rel_ro : list Z := [0x2e; 0x64; 0x61; 0x74; 0x61; 0x2e; 0x72; 0x65; 0x6c; 0x2e; 0x72; 0x6f].
Definition name_eh_frame : list Z := [0x2e; 0x65; 0x68; 0x5f; 0x66; 0x72; 0x61; 0x6d; 0x65].
Definition name_bss : list Z := [0x2e; 0x62; 0x73; 0x73].
Definition name_data : list Z := [0x2e; 0x64; 0x61; 0x74; 0x61].
Definition name_data_rel : list Z := [0x2e; 0x64; 0x61; 0x74; 0x61; 0x2e; 0x72; 0x65; 0x6c].
(** "function_" *)
Definition name_function : list Z := [0x66; 0x75; 0x6e; 0x63; 0x74; 0x69; 0x6f; 0x6e; 0x5f].

(* src/elf.rs:163-164, BYTE_OFFSET_IMMEDIATE *)
Definition BYTE_OFFSET_IMMEDIATE : Z := 4.
(* src/elf.rs:165-166, BYTE_LENGTH_IMMEDIATE *)
Definition BYTE_LENGTH_IMMEDIATE : Z := 4.

(* src/elf.rs:168-203, BpfRelocationType *)
Inductive BpfRelocationType := R_Bpf_None | R_Bpf_64_64 | R_Bpf_64_Relative | R_Bpf_64_32.

(* src/elf.rs:204-214, BpfRelocationType::from_x86_relocation_type *)
Definition from_x86_relocation_type (from : Z) : option BpfRelocationType :=
  if from =? R_X86_64_NONE then Some R_Bpf_None
  else if from =? R_X86_64_64 then Some R_Bpf_64_64
  else if from =? R_X86_64_RELATIVE then Some R_Bpf_64_Relative
  else if from =? R_X86_64_32 then Some R_Bpf_64_32
  else None.

(** [Result::unwrap] *)
Definition unwrap {E F A} (m : Exec E A) : Exec F A :=
  match m with Ret a => Ret a | Err _ => Panic UnwrapNone | Panic f => Panic f end.

Definition range_or_default (o : option Range) : Range := default empty_range o.
Definition pair_of_range (r : Range) : Z * Z := (r.(r_start), r.(r_end)).

(** Writing through a mutable sub-slice. *)
Definition splice (bs : list Z) (off : Z) (slice : list Z) : list Z :=
  take (Z.to_nat off) bs ++ slice ++ drop (Z.to_nat off + length slice) bs.

(** * Reading and writing words of the file *)

Section Words.
Context `{Bo : LittleEndian} `{Wr : LittleEndianWrite}.

(** [LittleEndian::read_u32(bytes.get(off..off.saturating_add(4)).ok_or(ValueOutOfBounds)?)] *)
Definition read_u32_at (bs : list Z) (off : Z) : Exec ElfError Z :=
  let! slice := ok_or (get_range bs (mkRange off (u64_saturating_add off BYTE_LENGTH_IMMEDIATE))) ValueOutOfBounds in
  expect IndexOutOfBounds (read_u32 slice).

Definition write_u32_at (bs : list Z) (off value : Z) : Exec ElfError (list Z) :=
  let! slice := ok_or (get_range bs (mkRange off (u64_saturating_add off BYTE_LENGTH_IMMEDIATE))) ValueOutOfBounds in
  let! slice := expect IndexOutOfBounds (write_u32 slice value) in
  Ret (splice bs off slice).

Definition write_u64_at (bs : list Z) (off value : Z) : Exec ElfError (list Z) :=
  let! slice := ok_or (get_range bs (mkRange off (u64_saturating_add off 8))) ValueOutOfBounds in
  let! slice := expect IndexOutOfBounds (write_u64 slice value) in
  Ret (splice bs off slice).
End Words.

(** Texts of errors: [Display] of the parser's errors, and the conversion of bytes
    to text inside of errors. *)
Class ErrorText := { display : ElfParserError -> String.string; text_of : list Z -> String.string }.

Section Loader.
Context `{Al : Allocator} `{Bo : LittleEndian} `{Wr : LittleEndianWrite} `{Hash : Murmur3} `{Txt : ErrorText}.

(* src/elf.rs:112-132, From<ElfParserError> for ElfError *)
Definition elf_error_of_parser (err : ElfParserError) : ElfError :=
  match err with
  | ElfParser.InvalidProgramHeader => Error.InvalidProgramHeader
  | OutOfBounds => ValueOutOfBounds
  | _ => FailedToParse (display err)
  end.

(** The [?] operator on a parser result. *)
Definition parsed {A} (m : Exec ElfParserError A) : Exec ElfError A := exec_map_err elf_error_of_parser m.

(* src/elf.rs:135-139, get_section *)
Fixpoint get_section_in (elf : Elf64) (name : list Z) (table : list Elf64Shdr) : Exec ElfError Elf64Shdr :=
  match table with
  | [] => Err (SectionNotFound (text_of name))
  | h :: table =>
      let! this_name := parsed (section_name elf h.(sh_name)) in
      if bool_decide (this_name = name) then Ret h else get_section_in elf name table
  end.

(* src/elf.rs:134-146, get_section *)
Definition get_section (elf : Elf64) (name : list Z) : Exec ElfError Elf64Shdr :=
  get_section_in elf name elf.(section_header_table).

(** * The strict loader *)

(** The headers a program must start with, and where each begins. *)
(* src/elf.rs:466-486, Executable::load_with_strict_parser *)
Fixpoint check_program_headers (bytes : list Z) (expected_offset : Z) (table : list Elf64Phdr)
    (expected : list (Z * Z)) : Exec ElfParserError unit :=
  match table, expected with
  | h :: table, (flags, vaddr) :: expected =>
      if negb (h.(p_type) =? PT_LOAD)
         || negb (h.(p_flags) =? flags)
         || negb (h.(p_offset) =? expected_offset)
         || (zlen bytes <=? h.(p_offset))
         || negb (h.(p_offset) mod INSN_SIZE =? 0)
         || negb (h.(p_vaddr) =? vaddr)
         || negb (h.(p_paddr) =? vaddr)
         || negb (h.(p_filesz) =? h.(p_memsz))
         || (u64_saturating_sub (zlen bytes) h.(p_offset) <? h.(p_filesz))
         || negb (h.(p_filesz) mod INSN_SIZE =? 0)
         || (MM_REGION_SIZE <=? h.(p_memsz))
      then Err ElfParser.InvalidProgramHeader
      else check_program_headers bytes (u64_saturating_add expected_offset h.(p_filesz)) table expected
  | _, _ => Ret tt
  end.

(* src/elf.rs:450-453, Executable::load_with_strict_parser *)
Definition EXPECTED_PROGRAM_HEADERS : list (Z * Z) := [(PF_R, MM_RODATA_START); (PF_X, MM_BYTECODE_START)].

(** The string and symbol tables by name, the last of each name. *)
(* src/elf.rs:537-553, Executable::load_with_strict_parser *)
Fixpoint find_labels (bytes : list Z) (names : Elf64Shdr) (table : list Elf64Shdr)
    (found : option Elf64Shdr * option Elf64Shdr) : Exec ElfParserError (option Elf64Shdr * option Elf64Shdr) :=
  match table with
  | [] => Ret found
  | h :: table =>
      let! name := unwrap (get_string_in_section bytes names h.(sh_name) 64) in
      let strtab := if bool_decide (name = name_strtab) then Some h else found.1 in
      let symtab := if bool_decide (name = name_symtab) then Some h else found.2 in
      find_labels bytes names table (strtab, symtab)
  end.

(* src/elf.rs:558-577, Executable::load_with_strict_parser *)
Fixpoint register_labels (bytes : list Z) (strtab : Elf64Shdr) (vaddr : Z) (symbols : list Elf64Sym)
    (functions : FunctionRegistry Z) : Exec ElfParserError (FunctionRegistry Z) :=
  match symbols with
  | [] => Ret functions
  | s :: symbols =>
      if Z.land s.(st_info) STT_FUNC =? 0 then register_labels bytes strtab vaddr symbols functions
      else
        let target_pc := u64_saturating_sub s.(st_value) vaddr / INSN_SIZE in
        let! name := unwrap (get_string_in_section bytes strtab s.(st_name) 255) in
        let! functions := unwrap (register_function functions (as_u32 target_pc) name target_pc) in
        register_labels bytes strtab vaddr symbols functions
  end.

(* src/elf.rs:521-577, Executable::load_with_strict_parser *)
Definition strict_labels (addr : Z) (bytes : list Z) (fh : Elf64Ehdr) (fr pr : Range) (vaddr : Z) :
    Exec ElfParserError (FunctionRegistry Z) :=
  let! (_, table) := unwrap (parse_section_header_table addr bytes fr fh pr) in
  let! names :=
    if negb (fh.(e_shstrndx) =? SHN_UNDEF) then
      let! h := ok_or (table !! Z.to_nat fh.(e_shstrndx)) OutOfBounds in Ret (Some h)
    else Ret None in
  let! names := expect UnwrapNone names in
  let! (strtab, symtab) := find_labels bytes names table (None, None) in
  let! strtab := expect UnwrapNone strtab in
  let! symtab := expect UnwrapNone symtab in
  let! symbols := unwrap (slice_from_section_header addr Elf64Sym bytes symtab) in
  register_labels bytes strtab vaddr symbols default_registry.

(** From the headers to the executable. *)
(* src/elf.rs:499-592, Executable::load_with_strict_parser *)
Definition strict_executable (addr : Z) (elf_bytes : list Z) (fh : Elf64Ehdr)
    (file_header_range program_header_table_range ro_section_range : Range) (bytecode_header : Elf64Phdr)
    (loader : BuiltinProgram) : Exec ElfParserError Executable :=
  let ro_section := Borrowed MM_RODATA_START (pair_of_range ro_section_range) in
  let text_section_vaddr := bytecode_header.(p_vaddr) in
  let text_section_range := range_or_default (phdr_file_range bytecode_header) in
  if negb (range_contains (phdr_vm_range bytecode_header)
             (u64_saturating_sub (u64_saturating_add fh.(e_entry) INSN_SIZE) 1))
     || negb (fh.(e_entry) mod INSN_SIZE =? 0)
  then Err InvalidFileHeader
  else
    let entry_pc := u64_saturating_sub fh.(e_entry) bytecode_header.(p_vaddr) / INSN_SIZE in
    let! config := get_config loader in
    let! function_registry :=
      if config.(enable_symbol_and_section_labels)
      then strict_labels addr elf_bytes fh file_header_range program_header_table_range
             bytecode_header.(p_vaddr)
      else Ret default_registry in
    Ret {| Executable.elf_bytes := elf_bytes;
           sbpf_version := Reserved;
           ro_section := ro_section;
           text_section_vaddr := text_section_vaddr;
           text_section_range := pair_of_range text_section_range;
           entry_pc := entry_pc;
           function_registry := function_registry;
           loader := loader |}.

(** From the table of program headers to the executable. *)
(* src/elf.rs:456-592, Executable::load_with_strict_parser *)
Definition strict_segments (addr : Z) (elf_bytes : list Z) (fh : Elf64Ehdr)
    (file_header_range program_header_table_range : Range) (table : list Elf64Phdr)
    (loader : BuiltinProgram) : Exec ElfParserError Executable :=
  let! first := index_slice table 0 in
  let skip_rodata_program_header := negb (first.(p_flags) =? PF_R) in
  if negb skip_rodata_program_header && (fh.(e_phnum) <? 2) then Err InvalidFileHeader
  else
    let! _ := check_program_headers elf_bytes program_header_table_range.(r_end) table
                (if skip_rodata_program_header then drop 1 EXPECTED_PROGRAM_HEADERS
                 else EXPECTED_PROGRAM_HEADERS) in
    let! (ro_section_range, bytecode_header) :=
      if skip_rodata_program_header then
        Ret (mkRange program_header_table_range.(r_end) program_header_table_range.(r_end), first)
      else
        let! second := index_slice table 1 in
        Ret (range_or_default (phdr_file_range first), second) in
    strict_executable addr elf_bytes fh file_header_range program_header_table_range ro_section_range
      bytecode_header loader.

(* src/elf.rs:407-592, Executable::load_with_strict_parser *)
Definition load_with_strict_parser (bytes : list Z) (loader : BuiltinProgram) :
    Exec ElfParserError Executable :=
  let! aligned_memory := from_slice HOST_ALIGN bytes in
  let! elf_bytes := as_slice aligned_memory in
  let addr := data_ptr aligned_memory in
  let! (file_header_range, fh) := parse_file_header addr elf_bytes in
  let program_header_table_range :=
    mkRange (size_of Elf64Ehdr)
      (u64_saturating_add (u64_saturating_mul (size_of Elf64Phdr) fh.(e_phnum)) (size_of Elf64Ehdr)) in
  if negb (bool_decide (fh.(e_ident).(ei_mag) = ELFMAG))
     || negb (fh.(e_ident).(ei_class) =? ELFCLASS64)
     || negb (fh.(e_ident).(ei_data) =? ELFDATA2LSB)
     || negb (fh.(e_ident).(ei_version) =? as_u8 EV_CURRENT)
     || negb (fh.(e_ident).(ei_osabi) =? ELFOSABI_NONE)
     || negb (fh.(e_ident).(ei_abiversion) =? 0)
     || negb (bool_decide (fh.(e_ident).(ei_pad) = replicate 7 0))
     || negb (fh.(e_machine) =? EM_BPF)
     || negb (fh.(e_version) =? EV_CURRENT)
     || negb (fh.(e_phoff) =? size_of Elf64Ehdr)
     || negb (fh.(e_ehsize) =? as_u16 (size_of Elf64Ehdr))
     || negb (fh.(e_phentsize) =? as_u16 (size_of Elf64Phdr))
     || (fh.(e_phnum) =? 0)
     || (zlen elf_bytes <? program_header_table_range.(r_end))
  then Err InvalidFileHeader
  else
    let! table := slice_from_bytes addr Elf64Phdr elf_bytes program_header_table_range in
    strict_segments addr elf_bytes fh file_header_range program_header_table_range table loader.

(** * The lenient loader *)

(* src/elf.rs:733-743, Executable::validate *)
Fixpoint count_text_sections (elf : Elf64) (table : list Elf64Shdr) (count : Z) : Exec ElfError Z :=
  match table with
  | [] => Ret count
  | h :: table =>
      let! name := exec_ok (section_name elf h.(sh_name)) in
      count_text_sections elf table
        (if bool_decide (name = Some name_text) then u64_saturating_add count 1 else count)
  end.

(* src/elf.rs:748-759, Executable::validate *)
Fixpoint check_writable_sections (elf : Elf64) (table : list Elf64Shdr) : Exec ElfError unit :=
  match table with
  | [] => Ret tt
  | h :: table =>
      let! name := exec_ok (section_name elf h.(sh_name)) in
      match name with
      | Some name =>
          if starts_with name name_bss
             || (is_writable h && (starts_with name name_data && negb (starts_with name name_data_rel)))
          then Err (WritableSectionNotSupported (text_of name))
          else check_writable_sections elf table
      | None => check_writable_sections elf table
      end
  end.

(* src/elf.rs:761-770, Executable::validate *)
Fixpoint check_section_bounds (bytes : list Z) (table : list Elf64Shdr) : Exec ElfError unit :=
  match table with
  | [] => Ret tt
  | h :: table =>
      let! end_ := ok_or (u64_checked_add h.(sh_offset) h.(sh_size)) ValueOutOfBounds in
      let! _ := ok_or (get_range bytes (mkRange h.(sh_offset) end_)) ValueOutOfBounds in
      check_section_bounds bytes table
  end.

(* src/elf.rs:714-777, Executable::validate *)
Definition validate (elf : Elf64) (bytes : list Z) : Exec ElfError unit :=
  let header := elf.(file_header) in
  if negb (header.(e_ident).(ei_class) =? ELFCLASS64) then Err WrongClass
  else if negb (header.(e_ident).(ei_data) =? ELFDATA2LSB) then Err WrongEndianess
  else if negb (header.(e_ident).(ei_osabi) =? ELFOSABI_NONE) then Err WrongAbi
  else if negb (header.(e_machine) =? EM_BPF) && negb (header.(e_machine) =? EM_SBPF) then Err WrongMachine
  else if negb (header.(e_type) =? ET_DYN) then Err WrongType
  else
    let! num_text_sections := count_text_sections elf elf.(section_header_table) 0 in
    if negb (1 =? num_text_sections) then Err NotOneTextSection
    else
      let! _ := check_writable_sections elf elf.(section_header_table) in
      let! _ := check_section_bounds bytes elf.(section_header_table) in
      let! text_section := get_section elf name_text in
      if negb (range_contains (shdr_vm_range text_section) header.(e_entry)) then Err EntrypointOutOfBounds
      else Ret tt.

(** What the scan for read-only sections keeps track of. *)
(* src/elf.rs:785-799, Executable::parse_ro_sections *)
Record RoScan := mkRoScan {
  lowest_addr : Z;
  highest_addr : Z;
  ro_fill_length : Z;
  invalid_offsets : bool;
  first_ro_section : Z;
  last_ro_section : Z;
  n_ro_sections : Z;
  ro_slices : list (Z * list Z)
}.

(* src/elf.rs:801-808, Executable::parse_ro_sections *)
Definition is_ro_name (name : option (list Z)) : bool :=
  match name with
  | Some name => bool_decide (name = name_text) || bool_decide (name = name_rodata)
                 || bool_decide (name = name_data_rel_ro) || bool_decide (name = name_eh_frame)
  | None => false
  end.

(* src/elf.rs:799-839, Executable::parse_ro_sections *)
Fixpoint scan_ro_sections (config : Config) (bytes : list Z) (i : Z)
    (sections : list (option (list Z) * Elf64Shdr)) (st : RoScan) : Exec ElfError RoScan :=
  match sections with
  | [] => Ret st
  | (name, h) :: sections =>
      if negb (is_ro_name name) then scan_ro_sections config bytes (i + 1) sections st
      else
        let first := if st.(n_ro_sections) =? 0 then i else st.(first_ro_section) in
        let n := u64_saturating_add st.(n_ro_sections) 1 in
        let section_addr := h.(sh_addr) in
        let invalid := st.(invalid_offsets) || negb (section_addr =? h.(sh_offset)) in
        let vaddr_end := u64_saturating_add section_addr MM_REGION_SIZE in
        if (config.(reject_broken_elfs) && invalid) || (MM_STACK_START <? vaddr_end) then Err ValueOutOfBounds
        else
          let! section_data := ok_or (get_range bytes (range_or_default (shdr_file_range h))) ValueOutOfBounds in
          scan_ro_sections config bytes (i + 1) sections
            (mkRoScan (Z.min st.(lowest_addr) section_addr)
               (Z.max st.(highest_addr) (u64_saturating_add section_addr (zlen section_data)))
               (u64_saturating_add st.(ro_fill_length) (zlen section_data))
               invalid first i n (st.(ro_slices) ++ [(section_addr, section_data)]))
  end.

(** [ro_section[start..start + len].copy_from_slice(slice)] *)
(* src/elf.rs:888-892, Executable::parse_ro_sections *)
Fixpoint copy_ro_slices (slices : list (Z * list Z)) (lowest_addr : Z) (buf : list Z) : Exec ElfError (list Z) :=
  match slices with
  | [] => Ret buf
  | (section_addr, slice) :: slices =>
      let start := u64_saturating_sub section_addr lowest_addr in
      let! _ := slice_range buf (start, u64_saturating_add start (zlen slice)) in
      copy_ro_slices slices lowest_addr (splice buf start slice)
  end.

(* src/elf.rs:779-903, Executable::parse_ro_sections *)
Definition parse_ro_sections (config : Config) (sections : list (option (list Z) * Elf64Shdr))
    (bytes : list Z) : Exec ElfError ElfSection :=
  let! st := scan_ro_sections config bytes 0 sections (mkRoScan u64_max 0 0 false 0 0 0 []) in
  if config.(reject_broken_elfs)
     && (st.(highest_addr) <? u64_saturating_add st.(lowest_addr) st.(ro_fill_length))
  then Err ValueOutOfBounds
  else
    let can_borrow :=
      negb st.(invalid_offsets)
      && (u64_saturating_sub (u64_saturating_add st.(last_ro_section) 1) st.(first_ro_section) =? st.(n_ro_sections)) in
    let offset_of lowest_addr :=
      if MM_REGION_SIZE <=? lowest_addr then lowest_addr else u64_saturating_add lowest_addr MM_REGION_SIZE in
    if config.(optimize_rodata) && can_borrow then
      Ret (Borrowed (offset_of st.(lowest_addr)) (st.(lowest_addr), st.(highest_addr)))
    else
      let highest_addr :=
        if config.(optimize_rodata) then u64_saturating_sub st.(highest_addr) st.(lowest_addr)
        else st.(highest_addr) in
      let lowest_addr := if config.(optimize_rodata) then st.(lowest_addr) else 0 in
      let buf_len := highest_addr in
      if zlen bytes <? buf_len then Err ValueOutOfBounds
      else
        let! ro_section := copy_ro_slices st.(ro_slices) lowest_addr (replicate (Z.to_nat buf_len) 0) in
        Ret (Owned (offset_of lowest_addr) ro_section).

(** ** Relocation *)

(* src/elf.rs:924-950, Executable::relocate *)
Fixpoint relocate_calls (config : Config) (loader : BuiltinProgram) (instruction_count : Z)
    (indices : list Z) (functions : FunctionRegistry Z) (text_bytes : list Z) :
    Exec ElfError (FunctionRegistry Z * list Z) :=
  match indices with
  | [] => Ret (functions, text_bytes)
  | i :: indices =>
      let! insn := get_insn text_bytes i in
      if (insn.(opc) =? CALL_IMM) && negb (insn.(imm) =? -1) then
        let target_pc := i64_saturating_add (i64_saturating_add (as_i64 i) 1) insn.(imm) in
        if (target_pc <? 0) || (as_i64 instruction_count <=? target_pc) then Err (RelativeJumpOutOfBounds i)
        else
          let name := if config.(enable_symbol_and_section_labels)
                      then name_function ++ decimal target_pc else [] in
          let! (functions, key) :=
            register_function_hashed_legacy functions loader true name (as_u64 target_pc) in
          let offset := u64_saturating_add (u64_saturating_mul i INSN_SIZE) 4 in
          let! text_bytes := write_u32_at text_bytes offset key in
          relocate_calls config loader instruction_count indices functions text_bytes
      else relocate_calls config loader instruction_count indices functions text_bytes
  end.

(* src/elf.rs:968-971, Executable::relocate *)
Definition relocation_symbol (elf : Elf64) (relocation : Elf64Rel) : Exec ElfError Elf64Sym :=
  ok_or (table ← elf.(dynamic_symbol_table); table !! Z.to_nat (r_sym relocation))
    (UnknownSymbol (r_sym relocation)).

(* src/elf.rs:957-1006, Executable::relocate *)
Definition relocate_64_64 (elf : Elf64) (relocation : Elf64Rel) (bytes : list Z) : Exec ElfError (list Z) :=
  let imm_offset := u64_saturating_add relocation.(r_offset) BYTE_OFFSET_IMMEDIATE in
  let! refd_addr := read_u32_at bytes imm_offset in
  let! symbol := relocation_symbol elf relocation in
  let addr := u64_saturating_add symbol.(st_value) refd_addr in
  let addr := if addr <? MM_REGION_SIZE then u64_saturating_add MM_REGION_SIZE addr else addr in
  let imm_low_offset := imm_offset in
  let imm_high_offset := u64_saturating_add imm_low_offset INSN_SIZE in
  let! bytes := write_u32_at bytes imm_low_offset (as_u32 (Z.land addr 0xFFFFFFFF)) in
  write_u32_at bytes imm_high_offset (as_u32 (Z.shiftr addr 32)).

(* src/elf.rs:1007-1097, Executable::relocate *)
Definition relocate_64_relative (text_section : Elf64Shdr) (relocation : Elf64Rel) (bytes : list Z) :
    Exec ElfError (list Z) :=
  let r_offset := relocation.(r_offset) in
  let imm_offset := u64_saturating_add r_offset BYTE_OFFSET_IMMEDIATE in
  if range_contains (range_or_default (shdr_file_range text_section)) r_offset then
    let imm_low_offset := imm_offset in
    let imm_high_offset := u64_saturating_add (u64_saturating_add r_offset INSN_SIZE) BYTE_OFFSET_IMMEDIATE in
    let! va_low := read_u32_at bytes imm_low_offset in
    let! va_high := read_u32_at bytes imm_high_offset in
    let refd_addr := Z.lor (as_u64 (Z.shiftl va_high 32)) va_low in
    if refd_addr =? 0 then Err (InvalidVirtualAddress refd_addr)
    else
      let refd_addr := if refd_addr <? MM_REGION_SIZE then u64_saturating_add MM_REGION_SIZE refd_addr
                       else refd_addr in
      let! bytes := write_u32_at bytes imm_low_offset (as_u32 (Z.land refd_addr 0xFFFFFFFF)) in
      write_u32_at bytes imm_high_offset (as_u32 (Z.shiftr refd_addr 32))
  else
    let! refd_addr := read_u32_at bytes imm_offset in
    let refd_addr := u64_saturating_add MM_REGION_SIZE refd_addr in
    write_u64_at bytes r_offset refd_addr.

(** The state of the relocation loop. *)
Record RelocState := mkReloc {
  rl_functions : FunctionRegistry Z;
  rl_bytes : list Z;
  syscall_cache : gmap Z Z
}.

(* src/elf.rs:1098-1147, Executable::relocate *)
Definition relocate_64_32 (config : Config) (loader : BuiltinProgram) (elf : Elf64)
    (text_section : Elf64Shdr) (relocation : Elf64Rel) (st : RelocState) : Exec ElfError RelocState :=
  let r_offset := relocation.(r_offset) in
  let imm_offset := u64_saturating_add r_offset BYTE_OFFSET_IMMEDIATE in
  let! symbol := relocation_symbol elf relocation in
  let! name := exec_map_err (fun _ => UnknownSymbol symbol.(st_name))
                 (dynamic_symbol_name elf symbol.(st_name)) in
  let! (functions, cache, key) :=
    if is_function symbol && negb (symbol.(st_value) =? 0) then
      if negb (range_contains (shdr_vm_range text_section) symbol.(st_value)) then Err ValueOutOfBounds
      else
        let target_pc := u64_saturating_sub symbol.(st_value) text_section.(sh_addr) / INSN_SIZE in
        let! (functions, key) := register_function_hashed_legacy st.(rl_functions) loader true name target_pc in
        Ret (functions, st.(syscall_cache), key)
    else
      let hash := default (hash_symbol_name name) (st.(syscall_cache) !! symbol.(st_name)) in
      let cache := <[symbol.(st_name) := hash]> st.(syscall_cache) in
      match lookup_by_key (get_function_registry loader) hash with
      | None =>
          if config.(reject_broken_elfs)
          then Err (UnresolvedSymbol (text_of name) (r_offset / INSN_SIZE) r_offset)
          else Ret (st.(rl_functions), cache, hash)
      | Some _ => Ret (st.(rl_functions), cache, hash)
      end in
  let! bytes := write_u32_at st.(rl_bytes) imm_offset key in
  Ret (mkReloc functions bytes cache).

(* src/elf.rs:953-1150, Executable::relocate *)
Fixpoint relocate_table (config : Config) (loader : BuiltinProgram) (elf : Elf64) (text_section : Elf64Shdr)
    (table : list Elf64Rel) (st : RelocState) : Exec ElfError RelocState :=
  match table with
  | [] => Ret st
  | relocation :: table =>
      let! st :=
        match from_x86_relocation_type (r_type relocation) with
        | Some R_Bpf_64_64 =>
            let! bytes := relocate_64_64 elf relocation st.(rl_bytes) in
            Ret (mkReloc st.(rl_functions) bytes st.(syscall_cache))
        | Some R_Bpf_64_Relative =>
            let! bytes := relocate_64_relative text_section relocation st.(rl_bytes) in
            Ret (mkReloc st.(rl_functions) bytes st.(syscall_cache))
        | Some R_Bpf_64_32 => relocate_64_32 config loader elf text_section relocation st
        | _ => Err (UnknownRelocation (r_type relocation))
        end in
      relocate_table config loader elf text_section table st
  end.

(* src/elf.rs:1152-1169, Executable::relocate *)
Fixpoint register_symbols (loader : BuiltinProgram) (elf : Elf64) (text_section : Elf64Shdr)
    (symbols : list Elf64Sym) (functions : FunctionRegistry Z) : Exec ElfError (FunctionRegistry Z) :=
  match symbols with
  | [] => Ret functions
  | symbol :: symbols =>
      if negb (Z.land symbol.(st_info) 0xEF =? 0x02)
      then register_symbols loader elf text_section symbols functions
      else if negb (range_contains (shdr_vm_range text_section) symbol.(st_value)) then Err ValueOutOfBounds
      else
        let target_pc := u64_saturating_sub symbol.(st_value) text_section.(sh_addr) / INSN_SIZE in
        let! name := exec_map_err (fun _ => UnknownSymbol symbol.(st_name)) (symbol_name elf symbol.(st_name)) in
        let! (functions, _) := register_function_hashed_legacy functions loader true name target_pc in
        register_symbols loader elf text_section symbols functions
  end.

(** [addr] is the address of the bytes [elf] was parsed from. *)
(* src/elf.rs:905-1172, Executable::relocate *)
Definition relocate (functions : FunctionRegistry Z) (loader : BuiltinProgram) (addr : Z) (elf : Elf64)
    (bytes : list Z) : Exec ElfError (FunctionRegistry Z * list Z) :=
  let! text_section := get_section elf name_text in
  let! config := get_config loader in
  let text_range := range_or_default (shdr_file_range text_section) in
  let! text_bytes := ok_or (get_range bytes text_range) ValueOutOfBounds in
  let instruction_count := zlen text_bytes / INSN_SIZE in
  let! (functions, text_bytes) :=
    relocate_calls config loader instruction_count (seqZ 0 instruction_count) functions text_bytes in
  let bytes := splice bytes text_range.(r_start) text_bytes in
  let! st := relocate_table config loader elf text_section
               (default [] elf.(dynamic_relocations_table)) (mkReloc functions bytes ∅) in
  let! functions :=
    if config.(enable_symbol_and_section_labels) then
      let! symbols := exec_ok (symbol_table addr elf) in
      register_symbols loader elf text_section (default [] (mjoin symbols)) st.(rl_functions)
    else Ret st.(rl_functions) in
  Ret (functions, st.(rl_bytes)).

(** The names of the sections, absent where a lookup fails. *)
(* src/elf.rs:653-655, Executable::load_with_lenient_parser *)
Fixpoint named_sections (elf : Elf64) (table : list Elf64Shdr) :
    Exec ElfError (list (option (list Z) * Elf64Shdr)) :=
  match table with
  | [] => Ret []
  | h :: table =>
      let! name := exec_ok (section_name elf h.(sh_name)) in
      let! rest := named_sections elf table in
      Ret ((name, h) :: rest)
  end.

(** From a parsed file to the executable; [elf_mem] holds the bytes to relocate. *)
(* src/elf.rs:610-684, Executable::load_with_lenient_parser *)
Definition lenient_executable (addr : Z) (elf : Elf64) (elf_mem : AlignedMemory) (loader : BuiltinProgram) :
    Exec ElfError Executable :=
  let! config := get_config loader in
  let header := elf.(file_header) in
  let! elf_bytes := as_slice elf_mem in
  let! _ := validate elf elf_bytes in
  let! text_section := get_section elf name_text in
  let text_section_vaddr := u64_saturating_add text_section.(sh_addr) MM_REGION_SIZE in
  if (config.(reject_broken_elfs) && negb (text_section.(sh_addr) =? text_section.(sh_offset)))
     || (MM_STACK_START <? text_section_vaddr)
  then Err ValueOutOfBounds
  else
    let! (functions, relocated) := relocate default_registry loader addr elf elf_bytes in
    let! elf_mem := as_slice_mut_copy elf_mem relocated in
    let offset := u64_saturating_sub header.(e_entry) text_section.(sh_addr) in
    if negb (offset mod INSN_SIZE =? 0) then Err InvalidEntrypoint
    else
      let entry_pc := offset / INSN_SIZE in
      let functions := unregister_function functions (hash_symbol_name entrypoint_name) in
      let! (functions, _) := register_function_hashed_legacy functions loader true entrypoint_name entry_pc in
      let! sections := named_sections elf elf.(section_header_table) in
      let! elf_bytes := as_slice elf_mem in
      let! ro_section := parse_ro_sections config sections elf_bytes in
      let ro_section_vaddr := match ro_section with Owned offset _ => offset | Borrowed offset _ => offset end in
      let! _ :=
        if config.(optimize_rodata) then
          if negb (Z.shiftr ro_section_vaddr VIRTUAL_ADDRESS_BITS =? 1) then Err ValueOutOfBounds else Ret tt
        else if negb (ro_section_vaddr =? MM_REGION_SIZE) then Panic DebugAssertFailed else Ret tt in
      Ret {| Executable.elf_bytes := elf_bytes;
             sbpf_version := Reserved;
             ro_section := ro_section;
             text_section_vaddr := text_section_vaddr;
             text_section_range := pair_of_range (range_or_default (shdr_file_range text_section));
             entry_pc := entry_pc;
             function_registry := functions;
             loader := loader |}.

(** [bytes_addr] is the address of the input. *)
(* src/elf.rs:594-685, Executable::load_with_lenient_parser *)
Definition load_with_lenient_parser (bytes_addr : Z) (bytes : list Z) (loader : BuiltinProgram) :
    Exec ElfError Executable :=
  let! aligned_memory := from_slice HOST_ALIGN bytes in
  let! (elf_mem, addr, unrelocated_elf_bytes) :=
    if is_memory_aligned bytes_addr HOST_ALIGN then Ret (aligned_memory, bytes_addr, bytes)
    else
      let! copy := clone HOST_ALIGN aligned_memory in
      let! slice := as_slice aligned_memory in
      Ret (copy, data_ptr aligned_memory, slice) in
  let! elf := parsed (parse addr unrelocated_elf_bytes) in
  lenient_executable addr elf elf_mem loader.

(** * The loader *)

(* src/elf.rs:386-393, Executable::load *)
Definition version_of_flags (e_flags : Z) : SBPFVersion :=
  if e_flags =? 0 then V0 else if e_flags =? 1 then V1 else if e_flags =? 2 then V2
  else if e_flags =? 3 then V3 else if e_flags =? 4 then V4 else Reserved.

(* src/elf.rs:377-405, Executable::load *)
Definition load (bytes_addr : Z) (bytes : list Z) (loader : BuiltinProgram) : Exec ElfError Executable :=
  let! slice := parsed (ok_or (get_range bytes (mkRange 48 (u64_saturating_add 48 4))) OutOfBounds) in
  let! e_flags := expect IndexOutOfBounds (read_u32 slice) in
  let! config := get_config loader in
  let version := version_of_flags e_flags in
  if negb (version_leb config.(enabled_sbpf_versions).1 version
           && version_leb version config.(enabled_sbpf_versions).2)
  then Err UnsupportedSBPFVersion
  else
    let! e :=
      if enable_stricter_elf_headers version then parsed (load_with_strict_parser bytes loader)
      else load_with_lenient_parser bytes_addr bytes loader in
    Ret {| Executable.elf_bytes := Executable.elf_bytes e;
           sbpf_version := version;
           ro_section := ro_section e;
           text_section_vaddr := text_section_vaddr e;
           text_section_range := text_section_range e;
           entry_pc := entry_pc e;
           function_registry := function_registry e;
           loader := Executable.loader e |}.
End Loader.
