(* ===== verification/LoaderSafety.v ===== *)
(** Properties of the ELF loader: it never faults, what it loads is well-formed, and
    its relocation of calls preserves their targets. *)
From Stdlib Require Import Sorted.
From S2P Require Import Prelude Error Ebpf Program Verifier MemoryRegion.
From S2P Require Import AlignedMemory.
From S2P Require Import ElfParser.
From S2P Require Import Executable.
From S2P Require Import ElfLoader.
Open Scope rust_scope.
Open Scope list_scope.

(** * What a loaded executable looks like *)

(** A range of bytes of the file. *)
Definition range_in (bs : list Z) (r : Z * Z) : Prop := 0 <= r.1 <= r.2 /\ r.2 <= zlen bs.

Definition ro_in (bs : list Z) (s : ElfSection) : Prop :=
  match s with Owned _ _ => True | Borrowed _ r => range_in bs r end.

(** The text lies inside of the file, and the entry point and the targets of the
    function registry are positions of the text, if there is any text. *)
Record loaded_ok (bytes : list Z) (bp : BuiltinProgram) (e : Executable) : Prop := mkLoaded {
  lo_len : zlen (Executable.elf_bytes e) = zlen bytes;
  lo_bytes : bytes_ok (Executable.elf_bytes e);
  lo_text : range_in (Executable.elf_bytes e) e.(text_section_range);
  lo_entry : 0 <= e.(entry_pc);
  lo_entry_in : e.(text_section_range).1 < e.(text_section_range).2 ->
    e.(entry_pc) * INSN_SIZE < e.(text_section_range).2 - e.(text_section_range).1;
  lo_ro : ro_in (Executable.elf_bytes e) e.(ro_section);
  lo_functions : forall key name pc, lookup_by_key e.(function_registry) key = Some (name, pc) -> 0 <= pc;
  lo_loader : Executable.loader e = bp
}.

(** * Lemmas *)

Lemma u64_range_add (a b : Z) : a + b <= u64_max -> u64_saturating_add a b = a + b.
Proof. unfold u64_saturating_add. lia. Qed.

Lemma field_range (bs : list Z) (off n : nat) : bytes_ok bs -> in_u (8 * Z.of_nat n) (field bs off n).
Proof.
  intros Hb. pose proof (le_value_range (take n (drop off bs)) ltac:(by apply Forall_take, Forall_drop)) as Hr.
  eapply in_u_weaken; [|exact Hr]. unfold zlen. rewrite length_take. lia.
Qed.

(** A header the strict loader accepted: a segment at [off] of the file. *)
Definition segment_ok (bs : list Z) (off vaddr : Z) (h : Elf64Phdr) : Prop :=
  h.(p_type) = PT_LOAD /\ h.(p_offset) = off /\ h.(p_vaddr) = vaddr /\ h.(p_filesz) = h.(p_memsz) /\
  off + h.(p_filesz) <= zlen bs /\ h.(p_filesz) mod INSN_SIZE = 0 /\ h.(p_memsz) < MM_REGION_SIZE.

Lemma check_program_headers_cons (bs : list Z) (off : Z) (h : Elf64Phdr) (table : list Elf64Phdr)
    (flags vaddr : Z) (expected : list (Z * Z)) (Q : unit -> Prop) :
  0 <= off ->
  (segment_ok bs off vaddr h ->
   safe (check_program_headers bs (u64_saturating_add off h.(p_filesz)) table expected) Q) ->
  safe (check_program_headers bs off (h :: table) ((flags, vaddr) :: expected)) Q.
Proof.
  intros H0 HQ. cbn [check_program_headers]. destruct (_ || _) eqn:Hg; [done|].
  repeat (apply orb_false_iff in Hg as [Hg ?]).
  repeat match goal with
  | H : negb _ = false |- _ => apply negb_false_iff in H
  | H : (_ =? _) = true |- _ => apply Z.eqb_eq in H
  | H : (_ <=? _) = false |- _ => apply Z.leb_gt in H
  | H : (_ <? _) = false |- _ => apply Z.ltb_ge in H
  end.
  unfold u64_saturating_sub in *. apply HQ. unfold segment_ok. split_and!; try done; lia.
Qed.

Lemma segment_file_range (bs : list Z) (off vaddr : Z) (h : Elf64Phdr) :
  segment_ok bs off vaddr h -> zlen bs <= u64_max ->
  range_or_default (phdr_file_range h) = mkRange off (off + h.(p_filesz)).
Proof.
  intros (Ht & Ho & _ & _ & Hend & _) Hl. unfold phdr_file_range. rewrite Ht, Ho. cbn.
  by rewrite u64_range_add by lia.
Qed.

(** The entry point the strict loader accepts is an instruction of the segment. *)
Lemma strict_entry (bs : list Z) (off : Z) (h : Elf64Phdr) (entry : Z) :
  segment_ok bs off MM_BYTECODE_START h -> 0 <= h.(p_memsz) -> in_u 64 entry ->
  range_contains (phdr_vm_range h) (u64_saturating_sub (u64_saturating_add entry INSN_SIZE) 1) = true ->
  entry mod INSN_SIZE = 0 ->
  let pc := u64_saturating_sub entry h.(p_vaddr) / INSN_SIZE in
  0 <= pc /\ pc * INSN_SIZE < h.(p_filesz).
Proof.
  intros (_ & _ & Hv & Hsz & _ & _ & Hmem) Hm0 [He0 He1] [Hlo%Z.leb_le Hhi%Z.ltb_lt]%andb_true_iff Hmod.
  cbn in Hlo, Hhi. rewrite Hv in *. rewrite Hsz.
  change MM_BYTECODE_START with (2 ^ 32) in *. change MM_REGION_SIZE with (2 ^ 32) in Hmem.
  unfold u64_saturating_sub, u64_saturating_add, u64_max, INSN_SIZE in *.
  pose proof (Z.div_mod entry 8 ltac:(lia)) as Hd. rewrite Hmod in Hd.
  assert (Hge : 2 ^ 32 <= entry) by lia.
  rewrite Z.max_l by lia. pose proof (Z.mul_div_le (entry - 2 ^ 32) 8 ltac:(lia)).
  split; [apply Z.div_pos; lia|lia].
Qed.

Section Strict.
Context `{Al : Allocator}.

(** What the strict loader promises on top. *)
Definition strict_ok (bytes : list Z) (bp : BuiltinProgram) (e : Executable) : Prop :=
  loaded_ok bytes bp e /\ e.(function_registry) = ∅ /\
  (e.(text_section_range).2 - e.(text_section_range).1) mod INSN_SIZE = 0 /\
  e.(text_section_range).1 < e.(text_section_range).2 /\ e.(text_section_vaddr) = MM_BYTECODE_START.

Lemma strict_executable_spec (bytes : list Z) (bp : BuiltinProgram) (config : Config) (addr : Z)
    (fh : Elf64Ehdr) (fr pr rr : Range) (h : Elf64Phdr) (off : Z) :
  bytes_ok bytes -> zlen bytes <= u64_max -> Program.config bp = Some config ->
  config.(enable_symbol_and_section_labels) = false -> in_u 64 fh.(e_entry) ->
  segment_ok bytes off MM_BYTECODE_START h -> 0 <= off -> 0 <= h.(p_memsz) /\ 0 <= h.(p_filesz) ->
  ro_in bytes (Borrowed MM_RODATA_START (pair_of_range rr)) ->
  safe (strict_executable addr bytes fh fr pr rr h bp) (strict_ok bytes bp).
Proof.
  intros Hb Hlen Hc Hlab Hentry Hseg Hoff [Hm0 Hf0] Hro. unfold strict_executable.
  destruct (_ || _) eqn:Hg2; [done|].
  apply orb_false_iff in Hg2 as [Hcont%negb_false_iff Hmod%negb_false_iff]. apply Z.eqb_eq in Hmod.
  destruct (strict_entry bytes off h fh.(e_entry) Hseg Hm0 Hentry Hcont Hmod) as [Hpc0 Hpc1].
  rewrite (segment_file_range _ _ _ _ Hseg) by done.
  unfold get_config. rewrite Hc. cbn [expect exec_bind]. rewrite Hlab. cbn [exec_bind safe].
  destruct Hseg as (_ & _ & Hv & _ & Hle & Hm8 & _).
  assert (Hlt : 0 < p_filesz h) by (unfold INSN_SIZE in Hpc0, Hpc1; lia).
  split; [split; cbn; try done; try lia|cbn; split_and!; try done; try lia].
  - unfold range_in. cbn. lia.
  - replace (off + p_filesz h - off) with (p_filesz h) by lia. done.
Qed.

Lemma strict_segments_spec (bytes : list Z) (bp : BuiltinProgram) (config : Config) (addr : Z)
    (fh : Elf64Ehdr) (fr pr : Range) (table : list Elf64Phdr) :
  bytes_ok bytes -> zlen bytes <= i64_max -> Program.config bp = Some config ->
  config.(enable_symbol_and_section_labels) = false -> in_u 64 fh.(e_entry) ->
  0 <= pr.(r_end) <= zlen bytes -> fh.(e_phnum) <> 0 -> zlen table = fh.(e_phnum) ->
  (forall h, h ∈ table -> 0 <= h.(p_memsz) /\ 0 <= h.(p_filesz)) ->
  safe (strict_segments addr bytes fh fr pr table bp) (strict_ok bytes bp).
Proof.
  intros Hb Hlen Hc Hlab Hentry [Hpr Hend] Hpn Htl Hmem. unfold strict_segments.
  destruct table as [|first table]; [unfold zlen in Htl; cbn in Htl; lia|].
  rewrite (index_slice_lookup (first :: table) 0 first) by done. cbn [exec_bind].
  unfold u64_max, i64_max in *.
  destruct (Z.eqb_spec first.(p_flags) PF_R) as [Hro|Hro]; cbn [negb andb].
  - destruct (Z.ltb_spec fh.(e_phnum) 2) as [|Hge]; [done|].
    destruct table as [|second table]; [unfold zlen in Htl; cbn in Htl; lia|].
    eapply (safe_bind (fun _ => segment_ok bytes pr.(r_end) MM_RODATA_START first /\
      segment_ok bytes (pr.(r_end) + first.(p_filesz)) MM_BYTECODE_START second)).
    { apply check_program_headers_cons; [lia|]. intros Hs1. pose proof Hs1 as (_ & _ & _ & _ & Hle & _).
      destruct (Hmem first ltac:(left)) as [_ Hf0]. rewrite u64_range_add by (unfold u64_max; lia).
      apply check_program_headers_cons; [lia|]. intros Hs2. by destruct table. }
    intros [] [Hs1 Hs2]. rewrite (index_slice_lookup (first :: second :: table) 1 second) by done.
    cbn [exec_bind]. pose proof Hs1 as (_ & _ & _ & _ & Hle & _).
    destruct (Hmem first ltac:(left)) as [_ Hf0].
    rewrite (segment_file_range _ _ _ _ Hs1) by (unfold u64_max; lia).
    eapply (strict_executable_spec bytes bp config _ _ _ _ _ _ (pr.(r_end) + first.(p_filesz)));
      unfold u64_max; try done; try lia; [apply Hmem; right; left|]. unfold ro_in, range_in, pair_of_range.
    cbn [fst snd r_start r_end]. lia.
  - eapply (safe_bind (fun _ => segment_ok bytes pr.(r_end) MM_BYTECODE_START first)).
    { apply check_program_headers_cons; [lia|]. intros Hs1. by destruct table. }
    intros [] Hs1. cbn [exec_bind]. eapply strict_executable_spec;
      unfold u64_max; try done; try lia; first [apply Hmem; left|unfold ro_in, range_in, pair_of_range; cbn [fst snd r_start r_end]; lia].
Qed.

Lemma strict_spec (bytes : list Z) (bp : BuiltinProgram) (config : Config) :
  bytes_ok bytes -> zlen bytes + HOST_ALIGN <= i64_max -> Program.config bp = Some config ->
  config.(enable_symbol_and_section_labels) = false ->
  safe (load_with_strict_parser bytes bp) (strict_ok bytes bp).
Proof.
  intros Hb Hlen Hc Hlab. unfold load_with_strict_parser.
  destruct (from_slice_spec (E := ElfParserError) HOST_ALIGN bytes eq_refl Hlen) as (m & -> & Hrep & _).
  cbn [exec_bind]. rewrite (rep_as_slice _ _ _ Hrep). cbn [exec_bind].
  eapply safe_bind; [apply parse_file_header_spec|]. intros [fr fh] (_ & Hfh & _). cbn [fst snd] in Hfh.
  assert (Hfhn : in_u 16 fh.(e_phnum) /\ in_u 64 fh.(e_entry)).
  { subst fh. split; apply (field_range _ _ 2) || apply (field_range _ _ 8); by apply pod_at_bytes. }
  clear Hfh. destruct Hfhn as [[Hpn0 Hpn1] Hentry].
  set (pr := mkRange _ _).
  assert (Hpr : pr.(r_end) = 64 + fh.(e_phnum) * 56).
  { unfold pr, u64_saturating_mul, u64_saturating_add, u64_max. cbn. lia. }
  destruct (_ || _) eqn:Hg; [done|].
  apply orb_false_iff in Hg as [Hg Hend%Z.ltb_ge]. apply orb_false_iff in Hg as [_ Hpn%Z.eqb_neq].
  eapply safe_bind; [by apply slice_from_bytes_spec|]. intros table (_ & n & Htab & Hn).
  change (size_of Elf64Phdr) with 56 in Hn. rewrite Hpr in Hn. cbn [r_start pr] in Hn.
  change (size_of Elf64Ehdr) with 64 in Hn. assert (n = fh.(e_phnum)) as -> by lia. clear Hn.
  eapply strict_segments_spec; [done|unfold HOST_ALIGN in *; lia|exact Hc|done|done|lia|done| |].
  - destruct Htab as (_ & _ & _ & ->). unfold zlen. rewrite length_fmap, length_seq. lia.
  - intros h Hh. destruct (table_at_elem _ _ _ _ _ _ Htab Hh) as [o ->].
    split; apply field_nonneg; by apply pod_at_bytes.
Qed.
End Strict.

(** * The lenient loader *)

Definition functions_nonneg (functions : FunctionRegistry Z) : Prop :=
  forall key name pc, lookup_by_key functions key = Some (name, pc) -> 0 <= pc.

Section Lenient.
Context `{Al : Allocator} `{Bo : LittleEndian} `{Wr : LittleEndianWrite} `{Hash : Murmur3} `{Txt : ErrorText}.

(** ** Words of the file *)

Lemma get_range_spec (bs s : list Z) (off n : Z) :
  0 <= off -> 0 < n -> zlen bs < u64_max ->
  get_range bs (mkRange off (u64_saturating_add off n)) = Some s ->
  off + n <= zlen bs /\ zlen s = n /\ s = take (Z.to_nat n) (drop (Z.to_nat off) bs).
Proof.
  intros Hoff Hn Hlen Hs. pose proof (get_range_Some _ _ _ Hs) as Hr. cbn [r_start r_end] in Hr.
  unfold u64_saturating_add in *.
  assert (Hm : off + n <= u64_max) by lia.
  rewrite (Z.min_l _ _ Hm) in *. unfold get_range in Hs.
  destruct (_ && _) in Hs; [|done]. cbn [r_start r_end] in Hs. injection Hs as <-.
  replace (off + n - off) with n by lia. unfold zlen in *. split_and!; [lia| |done].
  rewrite length_take, length_drop. lia.
Qed.

Lemma read_u32_at_spec (bs : list Z) (off : Z) :
  bytes_ok bs -> 0 <= off -> zlen bs < u64_max -> safe (read_u32_at bs off) (in_u 32).
Proof.
  intros Hb Hoff Hlen. unfold read_u32_at. eapply safe_bind; [apply safe_ok_or; intros s Hs; exact Hs|].
  cbn beta. intros s Hs. apply get_range_spec in Hs as (_ & Hl & Hs); [|done..]. unfold zlen, BYTE_LENGTH_IMMEDIATE in Hl.
  rewrite read_u32_spec. rewrite decide_True by lia. cbn [expect safe].
  pose proof (le_value_range (take 4 s) ltac:(rewrite Hs; by apply Forall_take, Forall_take, Forall_drop)) as Hr.
  eapply in_u_weaken; [|exact Hr]. unfold zlen. rewrite length_take. lia.
Qed.

(** The file after [n] bytes at [off] were replaced by [bytes]. *)
Definition written (bs bs' : list Z) : Prop := zlen bs' = zlen bs /\ bytes_ok bs'.

Lemma splice_written (bs slice : list Z) (off : Z) :
  bytes_ok bs -> bytes_ok slice -> 0 <= off -> off + zlen slice <= zlen bs -> written bs (splice bs off slice).
Proof.
  intros Hb Hs Hoff Hle. unfold written, splice, zlen in *. split.
  - rewrite !length_app, length_take, length_drop. lia.
  - apply Forall_app; split; [by apply Forall_take|]. apply Forall_app; split; [done|by apply Forall_drop].
Qed.

Lemma write_u32_at_spec (bs : list Z) (off v : Z) :
  bytes_ok bs -> 0 <= off -> zlen bs < u64_max -> safe (write_u32_at bs off v) (fun bs' =>
    written bs bs' /\ off + 4 <= zlen bs /\ bs' = splice bs off (le_bytes 4 v)).
Proof.
  intros Hb Hoff Hlen. unfold write_u32_at. eapply safe_bind; [apply safe_ok_or; intros s Hs; exact Hs|].
  cbn beta. intros s Hs. apply get_range_spec in Hs as (Hle & Hl & _); [|done..].
  unfold zlen, BYTE_LENGTH_IMMEDIATE in Hl.
  rewrite write_u32_spec. rewrite decide_True by lia. cbn [expect exec_bind safe].
  rewrite (drop_ge s 4) by lia. rewrite app_nil_r. split_and!; [|done|done].
  apply splice_written; [done|apply le_bytes_ok|done|]. unfold zlen. rewrite length_le_bytes. exact Hle.
Qed.

Lemma write_u64_at_spec (bs : list Z) (off v : Z) :
  bytes_ok bs -> 0 <= off -> zlen bs < u64_max -> safe (write_u64_at bs off v) (written bs).
Proof.
  intros Hb Hoff Hlen. unfold write_u64_at. eapply safe_bind; [apply safe_ok_or; intros s Hs; exact Hs|].
  cbn beta. intros s Hs. apply get_range_spec in Hs as (Hle & Hl & _); [|done..].
  unfold zlen, BYTE_LENGTH_IMMEDIATE in Hl.
  rewrite write_u64_spec. rewrite decide_True by lia. cbn [expect exec_bind safe].
  rewrite (drop_ge s 8) by lia. rewrite app_nil_r.
  apply splice_written; [done|apply le_bytes_ok|done|]. unfold zlen. rewrite length_le_bytes. exact Hle.
Qed.

(** ** Names *)

Lemma section_name_safe (bs : list Z) (elf : Elf64) (name : Z) :
  bytes_ok bs -> elf_layout bs elf -> 0 <= name -> safe (section_name elf name) (fun _ => True).
Proof.
  intros Hb Hl Hn. destruct (ly_names _ _ Hl) as (h & Hh & Hin). unfold section_name. rewrite Hh.
  eapply safe_mono; [apply get_string_in_section_spec|done]; [|done]. by eapply layout_section_nonneg.
Qed.

Lemma layout_section (bs : list Z) (elf : Elf64) (h : Elf64Shdr) :
  bytes_ok bs -> elf_layout bs elf -> h ∈ elf.(section_header_table) ->
  in_u 64 h.(sh_offset) /\ in_u 64 h.(sh_size) /\ in_u 64 h.(sh_addr) /\ 0 <= h.(sh_name).
Proof.
  intros Hb Hl Hh. destruct (table_at_elem _ _ _ _ _ _ (ly_sections _ _ Hl) Hh) as [o ->].
  split_and!; try (apply (field_range _ _ 8); by apply pod_at_bytes). apply field_nonneg. by apply pod_at_bytes.
Qed.

Lemma safe_parsed {A} (m : Exec ElfParserError A) (Q : A -> Prop) : safe m Q -> safe (parsed m) Q.
Proof. apply safe_map_err. Qed.

Lemma get_section_spec (bs : list Z) (elf : Elf64) (name : list Z) :
  bytes_ok bs -> elf_layout bs elf ->
  safe (get_section elf name) (fun h => h ∈ elf.(section_header_table) /\ section_name elf h.(sh_name) = Ret name).
Proof.
  intros Hb Hl. unfold get_section.
  assert (Hsub : forall h, h ∈ elf.(section_header_table) -> 0 <= h.(sh_name))
    by (intros h Hh; by eapply layout_section).
  assert (Hall : forall h, h ∈ elf.(section_header_table) -> h ∈ elf.(section_header_table)) by done.
  revert Hall. generalize elf.(section_header_table) at 1 3 as table.
  induction table as [|h table IH]; intros Hall; cbn [get_section_in]; [done|].
  pose proof (section_name_safe bs elf h.(sh_name) Hb Hl (Hsub h (Hall h ltac:(left)))) as Hs.
  destruct (section_name elf h.(sh_name)) as [this| |] eqn:Hn; [|done..]. cbn [parsed exec_map_err exec_bind].
  case_bool_decide as Heq; [subst; cbn; split; [apply Hall; left|done]|].
  apply IH. intros x Hx. apply Hall. by right.
Qed.

(** ** Registries *)

Lemma register_hashed_spec (functions : FunctionRegistry Z) (bp : BuiltinProgram) (config : Config)
    (name : list Z) (value : Z) :
  Program.config bp = Some config -> functions_nonneg functions -> 0 <= value ->
  safe (register_function_hashed_legacy functions bp true name value) (fun x => functions_nonneg x.1).
Proof.
  intros Hc Hf Hv. unfold register_function_hashed_legacy, get_config. rewrite Hc. cbn [expect exec_bind].
  set (hash := if bool_decide _ then _ else _).
  destruct (lookup_by_key _ hash); [done|]. cbn [exec_bind].
  unfold register_function. destruct (functions !! hash) as [[n x]|] eqn:Hk.
  - case_bool_decide; cbn; [done|done].
  - cbn. intros key n pc. unfold lookup_by_key. destruct (decide (hash = key)) as [->|Hne].
    + rewrite lookup_insert_eq. by intros [= <- <-].
    + rewrite lookup_insert_ne by done. apply Hf.
Qed.

(** ** Calls *)

Lemma lookup_splice (bs s : list Z) (off : Z) (k : nat) :
  0 <= off -> off + zlen s <= zlen bs ->
  splice bs off s !! k =
    if decide (Z.to_nat off <= k < Z.to_nat off + length s)%nat then s !! (k - Z.to_nat off)%nat else bs !! k.
Proof.
  intros Hoff Hle. unfold splice, zlen in *.
  assert (Hl : length (take (Z.to_nat off) bs) = Z.to_nat off) by (rewrite length_take; lia).
  destruct (decide _) as [Hin|Hout].
  - rewrite lookup_app_r, Hl by lia. by rewrite lookup_app_l by lia.
  - destruct (decide (k < Z.to_nat off)%nat).
    + rewrite lookup_app_l by lia. by rewrite lookup_take_lt by lia.
    + rewrite lookup_app_r, Hl, lookup_app_r by lia. rewrite lookup_drop. f_equal. lia.
Qed.

(** The immediate field of one slot is replaced, the other slots stay. *)
Lemma insn_bytes_splice (bs : list Z) (i j v : Z) :
  0 <= i -> 0 <= j -> INSN_SIZE * (i + 1) <= zlen bs ->
  insn_bytes (splice bs (i * INSN_SIZE + 4) (le_bytes 4 v)) j =
    if decide (j = i) then take 4 (insn_bytes bs i) ++ le_bytes 4 v else insn_bytes bs j.
Proof.
  intros Hi Hj Hle. unfold INSN_SIZE in *.
  assert (Hsp : forall k, splice bs (i * 8 + 4) (le_bytes 4 v) !! k = if decide (Z.to_nat (i * 8 + 4) <= k < Z.to_nat (i * 8 + 4) + 4)%nat
    then le_bytes 4 v !! (k - Z.to_nat (i * 8 + 4))%nat else bs !! k).
  { intros k. rewrite lookup_splice; [by rewrite length_le_bytes|lia|].
    unfold zlen in *. rewrite length_le_bytes. lia. }
  unfold insn_bytes, INSN_SIZE. destruct (decide (j = i)) as [->|Hne]; apply list_eq; intros k.
  - destruct (decide (k < 8)%nat) as [Hk|Hk].
    + rewrite lookup_take_lt, lookup_drop, Hsp by lia. destruct (decide (k < 4)%nat).
      * rewrite decide_False by lia. rewrite lookup_app_l by (rewrite !length_take, length_drop; unfold zlen in *; lia).
        by rewrite lookup_take_lt, lookup_take_lt, lookup_drop by lia.
      * rewrite decide_True by lia.
        rewrite lookup_app_r; rewrite !length_take, length_drop; [f_equal|]; unfold zlen in *; lia.
    + rewrite (lookup_ge_None_2 (take 8 _)) by (rewrite length_take; lia).
      symmetry. apply lookup_ge_None_2. rewrite length_app, !length_take, length_le_bytes. lia.
  - destruct (decide (k < 8)%nat) as [Hk|Hk].
    + rewrite !lookup_take_lt, !lookup_drop, Hsp by lia. by rewrite decide_False by lia.
    + rewrite !lookup_ge_None_2; [done|rewrite length_take; lia..].
Qed.

(** What relocating the calls of a text section promises for one slot. *)
Definition call_relocated (bp : BuiltinProgram) (text text' : list Z) (functions' : FunctionRegistry Z) (i : Z) : Prop :=
  let insn := decode_bytes i (insn_bytes text i) in
  if (insn.(opc) =? CALL_IMM) && negb (insn.(imm) =? -1)
  then 0 <= i + 1 + insn.(imm) < num_insns text /\
    exists key name, in_u 32 key /\ lookup_by_key functions' key = Some (name, i + 1 + insn.(imm)) /\
      lookup_by_key (get_function_registry bp) key = None /\
      insn_bytes text' i = take 4 (insn_bytes text i) ++ le_bytes 4 key
  else insn_bytes text' i = insn_bytes text i.

Definition extends (functions functions' : FunctionRegistry Z) : Prop :=
  forall key entry, lookup_by_key functions key = Some entry -> lookup_by_key functions' key = Some entry.

Lemma register_hashed_target (functions : FunctionRegistry Z) (bp : BuiltinProgram) (config : Config)
    (name : list Z) (value : Z) :
  Program.config bp = Some config ->
  safe (register_function_hashed_legacy functions bp true name value) (fun x =>
    extends functions x.1 /\ in_u 32 x.2 /\ lookup_by_key (get_function_registry bp) x.2 = None /\
    exists n, lookup_by_key x.1 x.2 = Some (n, value)).
Proof.
  intros Hc. unfold register_function_hashed_legacy, get_config. rewrite Hc. cbn [expect exec_bind].
  set (hash := if bool_decide _ then _ else _).
  assert (Hh : in_u 32 hash) by (unfold hash, hash_symbol_name; case_bool_decide; apply murmur3_range).
  destruct (lookup_by_key _ hash) eqn:Hsys; [done|]. cbn [exec_bind].
  unfold register_function. destruct (functions !! hash) as [[n x]|] eqn:Hk.
  - case_bool_decide; cbn in *; [|done]. subst. split_and!; [by intros ??|done|done|by exists n].
  - cbn. split_and!; [|done|done|eexists; apply lookup_insert_eq]. intros key entry Hl. unfold lookup_by_key in *.
    rewrite lookup_insert_ne; [done|]. congruence.
Qed.

Lemma call_relocated_same (bp : BuiltinProgram) (text text1 text' : list Z) (functions' : FunctionRegistry Z) (i : Z) :
  insn_bytes text1 i = insn_bytes text i -> zlen text1 = zlen text ->
  call_relocated bp text1 text' functions' i -> call_relocated bp text text' functions' i.
Proof. intros Hi Hl. unfold call_relocated, num_insns. by rewrite Hi, Hl. Qed.

Lemma slot_in_text (text : list Z) (i : Z) : 0 <= i < num_insns text -> INSN_SIZE * (i + 1) <= zlen text.
Proof.
  unfold num_insns, INSN_SIZE. intros [_ Hi]. pose proof (Z.mul_div_le (zlen text) 8 ltac:(lia)). lia.
Qed.

(** The target of a call, computed without overflow. *)
Lemma call_target (text : list Z) (i d : Z) :
  slice_len_ok text -> 0 <= i < num_insns text -> in_s 32 d ->
  i64_saturating_add (i64_saturating_add (as_i64 i) 1) d = i + 1 + d /\
  as_i64 (num_insns text) = num_insns text /\
  u64_saturating_add (u64_saturating_mul i INSN_SIZE) 4 = i * INSN_SIZE + 4.
Proof.
  intros Hl Hi Hd. pose proof (slot_in_text text i Hi) as Hs. unfold slice_len_ok, i64_max in Hl.
  assert (Hn : num_insns text <= zlen text / 8) by (unfold num_insns, INSN_SIZE; lia).
  pose proof (Z.mul_div_le (zlen text) 8 ltac:(lia)). unfold in_s in Hd.
  unfold as_i64. rewrite !swrap_small by (lia || (unfold in_s; lia)).
  unfold i64_saturating_add, i64_saturate, i64_min, i64_max, u64_saturating_add, u64_saturating_mul, u64_max, INSN_SIZE in *.
  split_and!; lia.
Qed.

Lemma relocate_calls_spec (config : Config) (bp : BuiltinProgram) (count : Z) (indices : list Z)
    (functions : FunctionRegistry Z) (text : list Z) :
  Program.config bp = Some config -> bytes_ok text -> slice_len_ok text -> num_insns text = count ->
  NoDup indices -> Forall (fun i => 0 <= i < count) indices -> functions_nonneg functions ->
  safe (relocate_calls config bp count indices functions text) (fun x =>
    written text x.2 /\ functions_nonneg x.1 /\ extends functions x.1 /\
    (forall i, i ∈ indices -> call_relocated bp text x.2 x.1 i) /\
    (forall i, 0 <= i < count -> i ∉ indices -> insn_bytes x.2 i = insn_bytes text i)).
Proof.
  intros Hc Hb Hlen Hcount Hnd Hin. revert functions text Hb Hlen Hcount.
  induction Hnd as [|i indices Hni Hnd IH]; intros functions text Hb Hlen Hcount Hf; cbn [relocate_calls].
  { split_and!; try done; [by intros ??|]. intros i Hi. by apply not_elem_of_nil in Hi. }
  apply Forall_cons in Hin as [Hi Hin]. specialize (IH Hin). subst count.
  pose proof (slot_in_text text i Hi) as Hslot.
  rewrite get_insn_eq by (done || lia). cbn [exec_bind]. set (insn := decode_bytes i (insn_bytes text i)).
  assert (Hwf : insn_wf insn).
  { apply decode_bytes_wf; [by apply insn_bytes_ok|]. apply length_insn_bytes; [lia|done]. }
  destruct Hwf as (_ & _ & _ & _ & Himm).
  destruct ((insn.(opc) =? CALL_IMM) && negb (insn.(imm) =? -1)) eqn:Hcall.
  - destruct (call_target text i insn.(imm) Hlen Hi Himm) as (-> & Hcnt & Hoff).
    rewrite Hcnt. destruct ((_ <? 0) || _) eqn:Hrange; [done|].
    apply orb_false_iff in Hrange as [Hr0%Z.ltb_ge Hr1%Z.leb_gt].
    assert (Hu : as_u64 (i + 1 + insn.(imm)) = i + 1 + insn.(imm)).
    { apply uwrap_small. unfold slice_len_ok, i64_max, in_u in *.
      pose proof (Z.mul_div_le (zlen text) 8 ltac:(lia)). unfold num_insns, INSN_SIZE in *. lia. }
    rewrite Hu, Hoff.
    eapply safe_bind; [apply safe_and; [by eapply register_hashed_spec|by eapply register_hashed_target]|].
    intros [f1 key] [Hf1 (Hext & Hku & Hsys & n & Hkey)]. cbn [fst snd] in *.
    eapply safe_bind; [apply write_u32_at_spec; [done|unfold INSN_SIZE; lia|unfold slice_len_ok, i64_max, u64_max in *; lia]|].
    intros text1 ([Hl1 Hb1] & _ & Ht1).
    assert (Hslots : forall j, 0 <= j -> insn_bytes text1 j =
      if decide (j = i) then take 4 (insn_bytes text i) ++ le_bytes 4 key else insn_bytes text j).
    { intros j Hj. rewrite Ht1. apply insn_bytes_splice; [lia|done|done]. }
    eapply safe_mono; [apply IH; [done|unfold slice_len_ok in *; lia|unfold num_insns; by rewrite Hl1|done]|].
    intros [f2 text2] ([Hl2 Hb2] & Hf2 & Hext2 & Hrel & Hrest). cbn [fst snd] in *.
    split_and!; [split; [congruence|done]|done|by intros k e He; apply Hext2, Hext| |].
    + intros j [->|Hj]%elem_of_cons.
      * unfold call_relocated. fold insn. rewrite Hcall. split; [lia|]. exists key, n.
        split_and!; [done|by apply Hext2|done|].
        rewrite Hrest, Hslots by (done || lia). by rewrite decide_True.
      * rewrite Forall_forall in Hin. pose proof (Hin j Hj). eapply call_relocated_same; [|exact Hl1|by apply Hrel].
        rewrite Hslots by lia. rewrite decide_False; [done|]. intros ->. done.
    + intros j Hj [Hne Hnj]%not_elem_of_cons. rewrite Hrest, Hslots by (done || lia). by rewrite decide_False.
  - eapply safe_mono; [by apply IH|]. intros [f2 text2] (Hw & Hf2 & Hext2 & Hrel & Hrest). cbn [fst snd] in *.
    split_and!; try done.
    + intros j [->|Hj]%elem_of_cons; [|by apply Hrel]. unfold call_relocated. fold insn. rewrite Hcall.
      apply Hrest; [lia|done].
    + intros j Hj [Hne Hnj]%not_elem_of_cons. by apply Hrest.
Qed.

End Lenient.

Section LenientLoader.
Context `{Al : Allocator} `{Bo : LittleEndian} `{Wr : LittleEndianWrite} `{Hash : Murmur3} `{Txt : ErrorText}.
Context (file : list Z) (Hfile : bytes_ok file) (Hsize : zlen file + HOST_ALIGN <= i64_max).
Context (elf : Elf64) (Hly : elf_layout file elf).
Context (bp : BuiltinProgram) (config : Config) (Hcfg : Program.config bp = Some config).

(** A file of the same length, which relocation may have changed. *)
Definition same_file (bs : list Z) : Prop := written file bs.

Lemma same_file_bound (bs : list Z) : same_file bs -> zlen bs < u64_max.
Proof. intros [Hl _]. unfold i64_max, u64_max, HOST_ALIGN in *. lia. Qed.

Lemma same_file_trans (bs bs' : list Z) : same_file bs -> written bs bs' -> same_file bs'.
Proof. intros [Hl _] [Hl' Hb]. split; [congruence|done]. Qed.

Lemma relocation_symbol_spec (r : Elf64Rel) :
  safe (relocation_symbol elf r) (fun s => in_u 64 s.(st_value) /\ 0 <= s.(st_name)).
Proof.
  unfold relocation_symbol. apply safe_ok_or. intros s (t & Ht & Hs)%bind_Some.
  destruct (ly_symbols _ _ Hly t Ht) as (off & n & Htab).
  destruct (table_at_elem _ _ _ _ _ s Htab ltac:(by eapply list_elem_of_lookup_2)) as [o ->].
  split; [apply (field_range _ _ 8); by apply pod_at_bytes|]. apply field_nonneg. by apply pod_at_bytes.
Qed.

Lemma read_file (bs : list Z) (off : Z) : same_file bs -> 0 <= off -> safe (read_u32_at bs off) (in_u 32).
Proof. intros Hs Ho. apply read_u32_at_spec; [apply Hs|done|by apply same_file_bound]. Qed.

Lemma write_file (bs : list Z) (off v : Z) : same_file bs -> 0 <= off -> safe (write_u32_at bs off v) same_file.
Proof.
  intros Hs Ho. eapply safe_mono; [apply write_u32_at_spec; [apply Hs|done|by apply same_file_bound]|].
  intros bs' (Hw & _). by eapply same_file_trans.
Qed.

Lemma saturating_nonneg (a b : Z) : 0 <= a -> 0 <= b -> 0 <= u64_saturating_add a b.
Proof. unfold u64_saturating_add, u64_max. lia. Qed.

Lemma relocate_64_64_spec (r : Elf64Rel) (bs : list Z) :
  0 <= r.(r_offset) -> same_file bs -> safe (relocate_64_64 elf r bs) same_file.
Proof.
  intros Hr Hs. unfold relocate_64_64.
  assert (Ho : 0 <= u64_saturating_add r.(r_offset) BYTE_OFFSET_IMMEDIATE) by by apply saturating_nonneg.
  eapply safe_bind; [by apply read_file|]. intros refd _.
  eapply safe_bind; [apply relocation_symbol_spec|]. intros symbol _. cbv zeta.
  eapply safe_bind; [by apply write_file|]. intros bs' Hs'.
  apply write_file; [done|]. by apply saturating_nonneg.
Qed.

Lemma relocate_64_relative_spec (text : Elf64Shdr) (r : Elf64Rel) (bs : list Z) :
  0 <= r.(r_offset) -> same_file bs -> safe (relocate_64_relative text r bs) same_file.
Proof.
  intros Hr Hs. unfold relocate_64_relative. cbv zeta.
  assert (Ho : 0 <= u64_saturating_add r.(r_offset) BYTE_OFFSET_IMMEDIATE) by by apply saturating_nonneg.
  assert (Ho2 : 0 <= u64_saturating_add (u64_saturating_add r.(r_offset) INSN_SIZE) BYTE_OFFSET_IMMEDIATE)
    by (apply saturating_nonneg; [by apply saturating_nonneg|done]).
  destruct (range_contains _ _).
  - eapply safe_bind; [by apply read_file|]. intros lo _.
    eapply safe_bind; [by apply read_file|]. intros hi _.
    destruct (_ =? 0); [done|].
    eapply safe_bind; [by apply write_file|]. intros bs' Hs'. by apply write_file.
  - eapply safe_bind; [by apply read_file|]. intros refd _.
    eapply safe_mono; [apply write_u64_at_spec; [apply Hs|done|by apply same_file_bound]|].
    intros bs' Hw. by eapply same_file_trans.
Qed.

Definition reloc_ok (st : RelocState) : Prop := same_file st.(rl_bytes) /\ functions_nonneg st.(rl_functions).

Lemma dynamic_symbol_name_safe (name : Z) : 0 <= name -> safe (dynamic_symbol_name elf name) (fun _ => True).
Proof.
  intros Hn. unfold dynamic_symbol_name.
  destruct elf.(dynamic_symbol_names_section_header) as [h|] eqn:Hh; [|done]. cbn [ok_or exec_bind].
  eapply safe_mono; [apply get_string_in_section_spec|done]; [|done].
  eapply layout_section_nonneg; [done|done|]. apply (ly_named _ _ Hly). auto.
Qed.

Lemma symbol_name_safe (name : Z) : 0 <= name -> safe (symbol_name elf name) (fun _ => True).
Proof.
  intros Hn. unfold symbol_name.
  destruct elf.(symbol_names_section_header) as [h|] eqn:Hh; [|done]. cbn [ok_or exec_bind].
  eapply safe_mono; [apply get_string_in_section_spec|done]; [|done].
  eapply layout_section_nonneg; [done|done|]. apply (ly_named _ _ Hly). auto.
Qed.

Lemma target_nonneg (a b : Z) : 0 <= u64_saturating_sub a b / INSN_SIZE.
Proof. apply Z.div_pos; unfold u64_saturating_sub, INSN_SIZE; lia. Qed.

Lemma relocate_64_32_spec (text : Elf64Shdr) (r : Elf64Rel) (st : RelocState) :
  0 <= r.(r_offset) -> reloc_ok st -> safe (relocate_64_32 config bp elf text r st) reloc_ok.
Proof.
  intros Hr [Hs Hf]. unfold relocate_64_32.
  assert (Ho : 0 <= u64_saturating_add r.(r_offset) BYTE_OFFSET_IMMEDIATE) by by apply saturating_nonneg.
  eapply safe_bind; [apply relocation_symbol_spec|]. intros symbol [_ Hn].
  eapply safe_bind; [apply safe_map_err, dynamic_symbol_name_safe, Hn|]. intros name _.
  eapply (safe_bind (fun x => functions_nonneg x.1.1)).
  - destruct (_ && _).
    + destruct (negb _); [done|].
      eapply safe_bind; [eapply register_hashed_spec; [exact Hcfg|exact Hf|apply target_nonneg]|].
      intros [f key] Hf'. done.
    + destruct (lookup_by_key _ _); [done|]. by destruct (reject_broken_elfs config).
  - intros [[f c] key] Hf'. eapply safe_bind; [by apply write_file|]. intros bs' Hs'. by split.
Qed.

Lemma relocate_table_spec (text : Elf64Shdr) (table : list Elf64Rel) (st : RelocState) :
  Forall (fun r => 0 <= r.(r_offset)) table -> reloc_ok st ->
  safe (relocate_table config bp elf text table st) reloc_ok.
Proof.
  intros Hpos. revert st. induction Hpos as [|r table Hr Hpos IH]; intros st Hst; cbn [relocate_table]; [done|].
  eapply (safe_bind reloc_ok); [|intros st' Hst'; by apply IH]. destruct Hst as [Hs Hf].
  destruct (from_x86_relocation_type _) as [[]|]; try done.
  - eapply safe_bind; [by apply relocate_64_64_spec|]. intros bs' Hs'. by split.
  - eapply safe_bind; [by apply relocate_64_relative_spec|]. intros bs' Hs'. by split.
  - by apply relocate_64_32_spec.
Qed.

Lemma register_symbols_spec (text : Elf64Shdr) (symbols : list Elf64Sym) (functions : FunctionRegistry Z) :
  Forall (fun s => 0 <= s.(st_name)) symbols -> functions_nonneg functions ->
  safe (register_symbols bp elf text symbols functions) functions_nonneg.
Proof.
  intros Hpos. revert functions.
  induction Hpos as [|s symbols Hs Hpos IH]; intros functions Hf; cbn [register_symbols]; [done|].
  destruct (negb _); [by apply IH|]. destruct (negb _); [done|].
  eapply safe_bind; [by apply safe_map_err, symbol_name_safe|]. intros name _.
  eapply safe_bind; [eapply register_hashed_spec; [exact Hcfg|exact Hf|apply target_nonneg]|].
  intros [f key] Hf'. by apply IH.
Qed.

Lemma symbol_table_safe (addr : Z) :
  safe (symbol_table addr elf) (fun o => forall t, o = Some t -> Forall (fun s => 0 <= s.(st_name)) t).
Proof.
  unfold symbol_table. destruct elf.(symbol_section_header) as [h|] eqn:Hh; [|done].
  unfold get_symbol_table_of_section. destruct (_ && _); [done|]. rewrite (ly_bytes _ _ Hly).
  eapply safe_bind; [apply slice_of_section; eapply layout_section_nonneg; [done|done|];
    apply (ly_named _ _ Hly); auto|].
  intros t (off & n & Htab) ? [= <-]. apply Forall_forall. intros s Hs.
  destruct (table_at_elem _ _ _ _ _ _ Htab Hs) as [o ->]. apply field_nonneg. by apply pod_at_bytes.
Qed.

(** The bytes of a section in the file. *)
Lemma section_slice (bs s : list Z) (h : Elf64Shdr) :
  bytes_ok bs -> h ∈ elf.(section_header_table) ->
  get_range bs (range_or_default (shdr_file_range h)) = Some s ->
  let r := range_or_default (shdr_file_range h) in
  bytes_ok s /\ zlen s = r.(r_end) - r.(r_start) /\ 0 <= r.(r_start) <= r.(r_end) /\ r.(r_end) <= zlen bs.
Proof.
  intros Hb Hin Hs. pose proof (get_range_Some _ _ _ Hs) as [Hr1 Hr2]. cbv zeta.
  set (r := range_or_default _) in *.
  assert (H0 : 0 <= r.(r_start)).
  { unfold r, shdr_file_range. destruct (negb _); [|done]. cbn. by apply (layout_section_nonneg file elf). }
  unfold get_range in Hs. destruct (_ && _); [|done]. injection Hs as <-.
  split_and!; [by apply Forall_take, Forall_drop| |lia..].
  unfold zlen in *. rewrite length_take, length_drop. lia.
Qed.

Lemma relocate_spec (addr : Z) (functions : FunctionRegistry Z) (bs : list Z) :
  same_file bs -> functions_nonneg functions ->
  safe (relocate functions bp addr elf bs) (fun x => functions_nonneg x.1 /\ same_file x.2).
Proof.
  intros Hs Hf. unfold relocate. eapply safe_bind; [by eapply get_section_spec|]. intros text [Hin _].
  unfold get_config. rewrite Hcfg. cbn [expect exec_bind].
  eapply safe_bind; [apply safe_ok_or; intros t Ht; exact Ht|]. cbn beta. intros text_bytes Ht.
  destruct (section_slice _ _ _ (proj2 Hs) Hin Ht) as (Htb & Htl & Hr0 & Hr1).
  pose proof (proj1 Hs) as Hlen.
  eapply safe_bind; [apply relocate_calls_spec; [done|done| |done|apply NoDup_seqZ| |done]|].
  - unfold slice_len_ok, HOST_ALIGN in *. lia.
  - apply Forall_forall. intros i Hi%elem_of_seqZ. lia.
  - intros [f text'] ([Hl Hb] & Hf' & _). cbn [fst snd] in *.
    eapply safe_bind; [apply relocate_table_spec|].
    + destruct elf.(dynamic_relocations_table) as [t|] eqn:Hrel; [|constructor].
      destruct (ly_relocations _ _ Hly t Hrel) as (off & n & Htab & _). apply Forall_forall. intros r Hr.
      destruct (table_at_elem _ _ _ _ _ _ Htab Hr) as [o ->]. apply field_nonneg. by apply pod_at_bytes.
    + split; [|done]. cbn. eapply same_file_trans; [exact Hs|].
      apply splice_written; [apply Hs|done|lia|lia].
    + intros st [Hsb Hsf]. eapply (safe_bind functions_nonneg); [|done].
      destruct (enable_symbol_and_section_labels config); [|done].
      eapply safe_bind; [apply safe_exec_ok; apply (symbol_table_safe addr)|]. intros symbols Hsyms.
      apply register_symbols_spec; [|done]. destruct symbols as [[t|]|]; [|constructor..].
      by apply (Hsyms (Some t)).
Qed.

(** ** Validation *)

Lemma exec_section_name (h : Elf64Shdr) :
  h ∈ elf.(section_header_table) ->
  safe (exec_ok (F := ElfError) (section_name elf h.(sh_name))) (fun o =>
    forall s, section_name elf h.(sh_name) = Ret s -> o = Some s).
Proof.
  intros Hin. destruct (layout_section _ _ _ Hfile Hly Hin) as (_ & _ & _ & Hn).
  pose proof (section_name_safe _ _ _ Hfile Hly Hn) as Hs.
  destruct (section_name elf h.(sh_name)); [|done|done]. cbn. intros s [= <-]. done.
Qed.

Lemma count_text_sections_safe (table : list Elf64Shdr) (n : Z) :
  Forall (fun h => h ∈ elf.(section_header_table)) table ->
  safe (count_text_sections elf table n) (fun _ => True).
Proof.
  intros Hin. revert n. induction Hin as [|h table Hh Hin IH]; intros n; cbn [count_text_sections]; [done|].
  eapply safe_bind; [by apply exec_section_name|]. intros o _. apply IH.
Qed.

Lemma check_writable_sections_safe (table : list Elf64Shdr) :
  Forall (fun h => h ∈ elf.(section_header_table)) table ->
  safe (check_writable_sections elf table) (fun _ => True).
Proof.
  induction 1 as [|h table Hh Hin IH]; cbn [check_writable_sections]; [done|].
  eapply safe_bind; [by apply exec_section_name|]. intros [name|] _; [|done]. by destruct (_ || _).
Qed.

Lemma check_section_bounds_spec (bs : list Z) (table : list Elf64Shdr) :
  safe (check_section_bounds bs table) (fun _ => Forall (fun h => h.(sh_offset) + h.(sh_size) <= zlen bs) table).
Proof.
  induction table as [|h table IH]; cbn [check_section_bounds]; [constructor|].
  unfold u64_checked_add. destruct (_ <=? _); [|done]. cbn [ok_or exec_bind].
  eapply (safe_bind (fun _ => h.(sh_offset) + h.(sh_size) <= zlen bs)).
  - apply safe_ok_or. intros s Hs. by apply get_range_Some in Hs as [_ Hs].
  - intros s Hs. eapply safe_mono; [exact IH|]. intros [] HF. by constructor.
Qed.

Lemma all_sections : Forall (fun h => h ∈ elf.(section_header_table)) elf.(section_header_table).
Proof. by apply Forall_forall. Qed.

Lemma validate_spec (bs : list Z) :
  safe (validate elf bs) (fun _ =>
    Forall (fun h => h.(sh_offset) + h.(sh_size) <= zlen bs) elf.(section_header_table) /\
    forall h, get_section elf name_text = Ret h ->
      range_contains (shdr_vm_range h) elf.(file_header).(e_entry) = true).
Proof.
  unfold validate. do 3 (match goal with |- context [if ?b then _ else _] => destruct b end; [done|]).
  destruct (_ && _); [done|]. destruct (negb (e_type _ =? _)); [done|].
  eapply safe_bind; [apply count_text_sections_safe, all_sections|]. intros n _. destruct (negb _); [done|].
  eapply safe_bind; [apply check_writable_sections_safe, all_sections|]. intros [] _.
  eapply safe_bind; [apply check_section_bounds_spec|]. intros [] HF.
  pose proof (get_section_spec _ _ name_text Hfile Hly) as Hg.
  destruct (get_section elf name_text) as [h| |]; [|done..]. cbn [exec_bind].
  destruct (range_contains _ _) eqn:Hc; [|done]. cbn. split; [done|]. by intros ? [= <-].
Qed.

Lemma named_sections_spec (table : list Elf64Shdr) :
  Forall (fun h => h ∈ elf.(section_header_table)) table ->
  safe (named_sections elf table) (fun l => l.*2 = table /\
    forall h s, h ∈ table -> section_name elf h.(sh_name) = Ret s -> (Some s, h) ∈ l).
Proof.
  induction 1 as [|h table Hh Hin IH]; cbn [named_sections].
  { split; [done|]. intros h s Hh. by apply not_elem_of_nil in Hh. }
  eapply safe_bind; [by apply exec_section_name|]. intros o Ho.
  eapply safe_bind; [exact IH|]. intros l [Hl Hall]. cbn. split; [by rewrite Hl|].
  intros x s [->|Hx]%elem_of_cons Hs; [rewrite (Ho s Hs); by left|right; by apply Hall].
Qed.

(** ** Read-only sections *)

Record ro_ok (bs : list Z) (st : RoScan) : Prop := mkRoOk {
  ro_slices_ok : Forall (fun x => 0 <= x.1 <= MM_REGION_SIZE /\ st.(lowest_addr) <= x.1 /\
    x.1 + zlen x.2 <= st.(highest_addr) /\ bytes_ok x.2) st.(ro_slices);
  ro_lowest : 0 <= st.(lowest_addr);
  ro_highest : 0 <= st.(highest_addr) <= MM_REGION_SIZE + zlen bs;
  ro_borrow : st.(invalid_offsets) = false -> st.(highest_addr) <= zlen bs
}.

(** The scan takes a section with contents [data] in. *)
Lemma ro_ok_step (bs data : list Z) (st : RoScan) (a : Z) (invalid : bool) (first i n fill : Z) :
  ro_ok bs st -> bytes_ok data -> 0 <= a <= MM_REGION_SIZE -> zlen data <= zlen bs -> zlen bs <= i64_max ->
  (invalid = false -> st.(invalid_offsets) = false /\ a + zlen data <= zlen bs) ->
  ro_ok bs (mkRoScan (Z.min st.(lowest_addr) a) (Z.max st.(highest_addr) (u64_saturating_add a (zlen data)))
    fill invalid first i n (st.(ro_slices) ++ [(a, data)])).
Proof.
  intros [Hsl Hlo [Hh0 Hh1] Hb] Hd [Ha0 Ha1] Hle Hbs Hinv. change MM_REGION_SIZE with (2 ^ 32) in *.
  unfold i64_max in Hbs. assert (Hadd : u64_saturating_add a (zlen data) = a + zlen data).
  { apply u64_range_add. unfold u64_max. lia. }
  rewrite Hadd. assert (0 <= zlen data) by (unfold zlen; lia).
  split; cbn [lowest_addr highest_addr invalid_offsets ro_slices]; change MM_REGION_SIZE with (2 ^ 32); [|lia|lia|].
  - apply Forall_app; split; [|constructor; [|done]].
    + eapply Forall_impl; [exact Hsl|]. cbn beta. intros x (? & ? & ? & ?). split_and!; (done || lia).
    + cbn [fst snd]. split_and!; (done || lia).
  - intros Hi. destruct (Hinv Hi) as [Hi' Hend]. specialize (Hb Hi'). lia.
Qed.

Lemma scan_ro_sections_spec (bs : list Z) (sections : list (option (list Z) * Elf64Shdr)) (i : Z) (st : RoScan) :
  same_file bs -> Forall (fun x => x.2 ∈ elf.(section_header_table) /\ x.2.(sh_offset) + x.2.(sh_size) <= zlen bs) sections ->
  ro_ok bs st ->
  safe (scan_ro_sections config bs i sections st) (fun st' => ro_ok bs st' /\
    (st.(ro_slices) <> [] \/ Exists (fun x => is_ro_name x.1 = true) sections -> st'.(ro_slices) <> [])).
Proof.
  intros Hs HF. revert i st.
  induction HF as [|[name h] sections [Hin Hend] HF IH]; intros i st Hst; cbn [scan_ro_sections].
  { split; [done|]. intros [?|He]; [done|]. by apply Exists_nil in He. }
  cbn [snd] in Hin, Hend. destruct (is_ro_name name) eqn:Hro; cbn [negb].
  - set (invalid := _ || _). destruct (_ || _) eqn:Hg; [done|]. apply orb_false_iff in Hg as [_ Hv%Z.ltb_ge].
    eapply safe_bind; [apply safe_ok_or; intros d Hd; exact Hd|]. cbn beta. intros d Hd.
    destruct (section_slice _ _ _ (proj2 Hs) Hin Hd) as (Hdb & Hdl & Hr0 & Hr1).
    destruct (layout_section _ _ _ Hfile Hly Hin) as ([Ho0 _] & [Hsz0 _] & [Ha0 _] & _).
    pose proof (proj1 Hs) as Hlen.
    eapply safe_mono; [apply IH|].
    + apply ro_ok_step; try done.
      * change MM_REGION_SIZE with (2 ^ 32). change MM_STACK_START with (2 ^ 33) in Hv.
        change MM_REGION_SIZE with (2 ^ 32) in Hv. unfold u64_saturating_add, u64_max in Hv. lia.
      * lia.
      * unfold HOST_ALIGN in *. lia.
      * intros [Hi Heq%negb_false_iff]%orb_false_iff. apply Z.eqb_eq in Heq. split; [done|].
        rewrite Heq, Hdl. unfold shdr_file_range. destruct (negb _); cbn; [|lia].
        unfold u64_saturating_add. lia.
    + intros st' [Hok Hne]. split; [done|]. intros _. apply Hne. left. cbn. by destruct st.(ro_slices).
  - eapply safe_mono; [by apply IH|]. intros st' [Hok Hne]. split; [done|]. intros Hor. apply Hne.
    destruct Hor as [|He%Exists_cons]; [by left|]. right. destruct He; [cbn in *; congruence|done].
Qed.

Lemma copy_ro_slices_safe (slices : list (Z * list Z)) (low : Z) (buf : list Z) :
  zlen buf <= u64_max ->
  Forall (fun x => low <= x.1 /\ x.1 - low + zlen x.2 <= zlen buf) slices ->
  safe (copy_ro_slices slices low buf) (fun _ => True).
Proof.
  intros Hb HF. revert buf Hb HF. induction slices as [|[a d] slices IH]; intros buf Hb HF; cbn [copy_ro_slices]; [done|].
  apply Forall_cons in HF as [[Hlow Hend] HF]. cbn [fst snd] in *.
  assert (Hsub : u64_saturating_sub a low = a - low) by (unfold u64_saturating_sub; lia). rewrite Hsub.
  assert (0 <= zlen d) by (unfold zlen; lia).
  rewrite u64_range_add by lia. unfold slice_range. cbn [fst snd].
  rewrite !(proj2 (Z.leb_le _ _)) by lia. cbn [andb exec_bind].
  assert (Hl : zlen (splice buf (a - low) d) = zlen buf).
  { unfold splice, zlen in *. rewrite !length_app, length_take, length_drop. lia. }
  apply IH; by rewrite Hl.
Qed.

(** The offset of the section [parse_ro_sections] returns. *)
Definition section_offset (s : ElfSection) : Z := match s with Owned offset _ => offset | Borrowed offset _ => offset end.

(** The scan found a section, so that its bounds are those of an interval. *)
Lemma ro_ok_bounds (bs : list Z) (st : RoScan) :
  ro_ok bs st -> st.(ro_slices) <> [] -> st.(lowest_addr) <= st.(highest_addr).
Proof.
  intros [Hsl _ _ _] Hne. destruct st.(ro_slices) as [|[a d] l]; [done|].
  apply Forall_cons in Hsl as [(_ & ? & ? & _) _]. cbn [fst snd] in *. unfold zlen in *. lia.
Qed.

Lemma parse_ro_sections_spec (bs : list Z) (sections : list (option (list Z) * Elf64Shdr)) :
  same_file bs -> Forall (fun x => x.2 ∈ elf.(section_header_table) /\ x.2.(sh_offset) + x.2.(sh_size) <= zlen bs) sections ->
  Exists (fun x => is_ro_name x.1 = true) sections ->
  safe (parse_ro_sections config sections bs) (fun s =>
    ro_in bs s /\ (config.(optimize_rodata) = false -> section_offset s = MM_REGION_SIZE)).
Proof.
  intros Hs HF Hex. unfold parse_ro_sections. eapply safe_bind.
  - apply scan_ro_sections_spec; [done|done|]. split; cbn; [constructor|unfold u64_max; lia| |].
    + change MM_REGION_SIZE with (2 ^ 32). unfold zlen. lia.
    + unfold zlen. lia.
  - intros st [Hst Hne]. specialize (Hne (or_intror Hex)). pose proof (ro_ok_bounds _ _ Hst Hne) as Hlohi.
    destruct Hst as [Hsl Hlo [Hh0 Hh1] Hbor]. pose proof (proj1 Hs) as Hlen.
    change MM_REGION_SIZE with (2 ^ 32) in Hh1. unfold i64_max, HOST_ALIGN in *.
    destruct (_ && (_ <? _)); [done|]. destruct config.(optimize_rodata); cbn [andb].
    + destruct (_ && (_ =? _)) eqn:Hb.
      { apply andb_true_iff in Hb as [Hi%negb_true_iff _]. specialize (Hbor Hi). cbn. unfold range_in. cbn.
        split; [lia|done]. }
      destruct (_ <? _); [done|]. unfold u64_saturating_sub at 1. rewrite Z.max_l by lia.
      eapply safe_bind; [apply copy_ro_slices_safe|]; [| |by split].
      * rewrite zlen_replicate by lia. unfold u64_max. lia.
      * rewrite zlen_replicate by lia. eapply Forall_impl; [exact Hsl|]. cbn beta. intros x (? & ? & ? & ?). lia.
    + destruct (_ <? _); [done|].
      eapply safe_bind; [apply copy_ro_slices_safe|]; [| |by split].
      * rewrite zlen_replicate by lia. unfold u64_max. lia.
      * rewrite zlen_replicate by lia. eapply Forall_impl; [exact Hsl|]. cbn beta. intros x (? & ? & ? & ?). lia.
Qed.

(** Everything after parsing: [mem] holds the file. *)
Lemma text_ro_section (bs : list Z) (text : Elf64Shdr) (sections : list (option (list Z) * Elf64Shdr)) :
  text ∈ elf.(section_header_table) -> section_name elf text.(sh_name) = Ret name_text ->
  Forall (fun h => h.(sh_offset) + h.(sh_size) <= zlen bs) elf.(section_header_table) ->
  sections.*2 = elf.(section_header_table) ->
  (forall h s, h ∈ elf.(section_header_table) -> section_name elf h.(sh_name) = Ret s -> (Some s, h) ∈ sections) ->
  Forall (fun x => x.2 ∈ elf.(section_header_table) /\ x.2.(sh_offset) + x.2.(sh_size) <= zlen bs) sections /\
  Exists (fun x => is_ro_name x.1 = true) sections.
Proof.
  intros Hin Hn Hbound Hsec Hall. split.
  - apply Forall_forall. intros x Hx. rewrite Forall_forall in Hbound.
    assert (x.2 ∈ elf.(section_header_table)) by (rewrite <-Hsec; by apply list_elem_of_fmap_2). auto.
  - apply Exists_exists. exists (Some name_text, text). split; [by apply Hall|]. done.
Qed.

(** The entry point and the range of the text section. *)
Lemma lenient_entry (bs : list Z) (text : Elf64Shdr) (entry : Z) :
  in_u 64 text.(sh_offset) /\ in_u 64 text.(sh_size) /\ in_u 64 text.(sh_addr) /\ 0 <= text.(sh_name) ->
  text.(sh_offset) + text.(sh_size) <= zlen bs -> zlen bs <= u64_max ->
  range_contains (shdr_vm_range text) entry = true ->
  let r := pair_of_range (range_or_default (shdr_file_range text)) in
  let pc := u64_saturating_sub entry text.(sh_addr) / INSN_SIZE in
  range_in bs r /\ 0 <= pc /\ (r.1 < r.2 -> pc * INSN_SIZE < r.2 - r.1).
Proof.
  intros ([Ho0 _] & [Hs0 _] & [Ha0 _] & _) Hend Hlen [Hlo%Z.leb_le Hhi%Z.ltb_lt]%andb_true_iff.
  cbn in Hlo, Hhi. unfold shdr_file_range. cbv zeta.
  set (pc := _ / INSN_SIZE).
  assert (Hpc : 0 <= pc /\ pc * INSN_SIZE < text.(sh_size)).
  { unfold pc. split; [apply target_nonneg|]. unfold u64_saturating_sub. rewrite Z.max_l by lia.
    pose proof (Z.mul_div_le (entry - sh_addr text) INSN_SIZE ltac:(done)).
    unfold u64_saturating_add in Hhi. lia. }
  assert (0 <= zlen bs) by (unfold zlen; lia).
  destruct (negb _); cbn; unfold range_in; cbn.
  - rewrite u64_range_add by lia. split_and!; lia.
  - split_and!; lia.
Qed.


Lemma register_entrypoint (functions : FunctionRegistry Z) (key pc : Z) :
  functions_nonneg functions -> 0 <= pc ->
  safe (register_function_hashed_legacy (unregister_function functions key) bp true entrypoint_name pc)
    (fun x => functions_nonneg x.1).
Proof.
  intros Hf Hpc. eapply register_hashed_spec; [exact Hcfg| |done].
  intros k n v. unfold lookup_by_key, unregister_function. rewrite lookup_delete_Some. intros [_ Hk]. by eapply Hf.
Qed.

Lemma lenient_executable_spec (addr base : Z) (mem : AlignedMemory) :
  am_rep mem base file -> safe (lenient_executable addr elf mem bp) (loaded_ok file bp).
Proof.
  intros Hrep. assert (Hself : same_file file) by by split.
  unfold lenient_executable, get_config. rewrite Hcfg. cbn [expect exec_bind].
  rewrite (rep_as_slice _ _ _ Hrep). cbn [exec_bind].
  eapply safe_bind; [apply validate_spec|]. intros [] [Hbound Hentry].
  pose proof (get_section_spec _ _ name_text Hfile Hly) as Hget.
  destruct (get_section elf name_text) as [text| |] eqn:Htext; [|done..]. cbn in Hget. destruct Hget as [Hin Hname].
  specialize (Hentry text eq_refl). cbn [exec_bind]. destruct (_ || _); [done|].
  eapply safe_bind; [by apply relocate_spec|]. intros [functions relocated] [Hfun Hsame]. cbn [fst snd] in *.
  destruct (rep_copy (E := ElfError) _ _ _ relocated Hrep ltac:(symmetry; apply Hsame)) as (mem' & -> & Hrep' & _).
  cbn [exec_bind]. destruct (negb _); [done|].
  rewrite Forall_forall in Hbound.
  destruct (lenient_entry relocated text elf.(file_header).(e_entry)) as (Hrange & Hpc & Hpcin);
    [by eapply layout_section|rewrite (proj1 Hsame); by apply Hbound|apply same_file_bound in Hsame; lia|done|].
  eapply safe_bind; [by apply register_entrypoint|]. intros [functions' key] Hfun'. cbn [fst] in Hfun'.
  eapply safe_bind; [apply named_sections_spec, all_sections|]. intros sections [Hsec Hall].
  rewrite (rep_as_slice _ _ _ Hrep'). cbn [exec_bind].
  destruct (text_ro_section relocated text sections) as [HF HE]; try done.
  { apply Forall_forall. intros h Hh. rewrite (proj1 Hsame). by apply Hbound. }
  eapply safe_bind; [by apply parse_ro_sections_spec|]. intros ro [Hro Hoff]. fold (section_offset ro).
  eapply (safe_bind (fun _ => True)).
  - destruct config.(optimize_rodata); [by destruct (negb _)|]. by rewrite Hoff.
  - intros [] _. destruct Hsame as [Hl2 Hb2]. by split.
Qed.
End LenientLoader.

Section Load.
Context `{Al : Allocator} `{Bo : LittleEndian} `{Wr : LittleEndianWrite} `{Hash : Murmur3} `{Txt : ErrorText}.

Lemma lenient_spec (bytes_addr : Z) (bytes : list Z) (bp : BuiltinProgram) (config : Config) :
  bytes_ok bytes -> zlen bytes + HOST_ALIGN <= i64_max -> Program.config bp = Some config ->
  safe (load_with_lenient_parser bytes_addr bytes bp) (loaded_ok bytes bp).
Proof.
  intros Hb Hlen Hc. unfold load_with_lenient_parser.
  destruct (from_slice_spec (E := ElfError) HOST_ALIGN bytes eq_refl Hlen) as (m & -> & Hrep & _).
  cbn [exec_bind].
  eapply (safe_bind (fun x => (exists base, am_rep x.1.1 base bytes) /\ x.2 = bytes)).
  - destruct (is_memory_aligned _ _); [cbn; by eauto|]. unfold clone. rewrite (rep_as_slice _ _ _ Hrep). cbn [exec_bind].
    destruct (from_slice_spec (E := ElfError) HOST_ALIGN bytes eq_refl Hlen) as (m' & -> & Hrep' & _).
    cbn. by eauto.
  - intros [[mem addr] slice] [[base Hmem] Hsl]. cbn [fst snd] in *. subst slice.
    eapply safe_bind; [by apply safe_parsed, parse_spec|]. intros elf Hly.
    by eapply lenient_executable_spec.
Qed.

(** A version below an enabled lenient one is lenient. *)
Lemma lenient_below (v v' : SBPFVersion) :
  version_leb v v' = true -> enable_stricter_elf_headers v' = false -> enable_stricter_elf_headers v = false.
Proof. by destruct v, v'. Qed.

(** Which configurations the loader is free of faults for. *)
Definition labels_safe (config : Config) : bool :=
  negb config.(enable_symbol_and_section_labels) || negb (enable_stricter_elf_headers config.(enabled_sbpf_versions).2).

Definition version_enabled (config : Config) (v : SBPFVersion) : bool :=
  version_leb config.(enabled_sbpf_versions).1 v && version_leb v config.(enabled_sbpf_versions).2.

Lemma read_flags_safe (bytes : list Z) (Q : Z -> Prop) :
  (forall v, Q v) ->
  safe (let! slice := parsed (ok_or (get_range bytes (mkRange 48 (u64_saturating_add 48 4))) OutOfBounds) in
        expect IndexOutOfBounds (read_u32 slice)) Q.
Proof.
  intros HQ. eapply (safe_bind (fun s => zlen s = 4)).
  - apply safe_parsed, safe_ok_or. intros s Hs. pose proof (get_range_Some _ _ _ Hs) as [_ Hr].
    change (u64_saturating_add 48 4) with 52 in *. cbn [r_start r_end] in *. unfold get_range in Hs.
    destruct (_ && _); [|done]. injection Hs as <-. cbn [r_start r_end] in *.
    unfold zlen in *. rewrite length_take, length_drop. lia.
  - intros s Hs. rewrite read_u32_spec. rewrite decide_True; [cbn; apply HQ|]. unfold zlen in Hs. lia.
Qed.

Lemma elf_load_spec (bytes_addr : Z) (bytes : list Z) (bp : BuiltinProgram) (config : Config) :
  bytes_ok bytes -> zlen bytes + HOST_ALIGN <= i64_max -> Program.config bp = Some config ->
  labels_safe config = true ->
  safe (load bytes_addr bytes bp) (fun e => loaded_ok bytes bp e /\ version_enabled config e.(sbpf_version) = true).
Proof.
  intros Hb Hlen Hc Hlab. unfold load.
  pose proof (read_flags_safe bytes (fun _ => True) ltac:(done)) as Hr.
  destruct (parsed (ok_or (get_range bytes _) OutOfBounds)) as [slice| |]; [|done..]. cbn [exec_bind] in *.
  destruct (expect IndexOutOfBounds (read_u32 slice)) as [flags| |]; [|done..]. cbn [exec_bind].
  unfold get_config. rewrite Hc. cbn [expect exec_bind].
  set (v := version_of_flags flags). fold (version_enabled config v).
  destruct (version_enabled config v) eqn:Hv; cbn [negb]; [|done].
  eapply (safe_bind (loaded_ok bytes bp)).
  - destruct (enable_stricter_elf_headers v) eqn:Hst; [|by eapply lenient_spec].
    apply safe_parsed. eapply safe_mono; [eapply strict_spec; try done|by intros e []].
    apply orb_true_iff in Hlab as [H%negb_true_iff|H%negb_true_iff]; [done|].
    apply andb_true_iff in Hv as [_ Hv]. by rewrite (lenient_below _ _ Hv H) in Hst.
  - intros e [He1 He2 He3 He4 He5 He6 He7 He8]. by split.
Qed.
End Load.

(** A patched call decodes to the same instruction with another immediate. *)
Lemma decode_patched (i : Z) (bs : list Z) (key : Z) :
  length bs = 8%nat -> in_u 32 key ->
  let insn := decode_bytes i bs in
  decode_bytes i (take 4 bs ++ le_bytes 4 key) =
    mkInsn i insn.(opc) insn.(dst) insn.(src) insn.(off) (as_i32 key).
Proof.
  intros Hl Hk. destruct (list_8 bs) as (b0&b1&b2&b3&b4&b5&b6&b7&rest&->); [lia|].
  cbv zeta. unfold decode_bytes. cbn [app take opc dst src off]. simpl lookup. simpl default.
  change (take 4 (drop 4 (b0 :: b1 :: b2 :: b3 :: le_bytes 4 key))) with (le_bytes 4 key).
  rewrite le_value_le_bytes, uwrap_small by done. done.
Qed.

(** * Examples *)

Definition plain_text : ErrorText := {| display _ := String.EmptyString; text_of _ := String.EmptyString |}.

(** A function that calls the one two slots later: [call 1; exit; mov64 r0, 5; exit]. *)
Definition calling_text : list Z :=
  [0x85; 0x10; 0; 0; 1; 0; 0; 0; 0x95; 0; 0; 0; 0; 0; 0; 0;
   0xb7; 0; 0; 0; 5; 0; 0; 0; 0x95; 0; 0; 0; 0; 0; 0; 0].

(** A file of version 0 with this text section and a table of section names. *)
Definition calling_elf : list Z :=
  [0x7F; 0x45; 0x4C; 0x46; 2; 1; 1; 0; 0; 0; 0; 0; 0; 0; 0; 0]
  ++ le_bytes 2 ET_DYN ++ le_bytes 2 EM_BPF ++ le_bytes 4 1 ++ le_bytes 8 256 ++ le_bytes 8 64 ++ le_bytes 8 64
  ++ le_bytes 4 0 ++ le_bytes 2 64 ++ le_bytes 2 56 ++ le_bytes 2 0 ++ le_bytes 2 64 ++ le_bytes 2 3 ++ le_bytes 2 2
  ++ replicate 64 0
  ++ le_bytes 4 11 ++ le_bytes 4 1 ++ le_bytes 8 6 ++ le_bytes 8 256 ++ le_bytes 8 256 ++ le_bytes 8 32
  ++ le_bytes 4 0 ++ le_bytes 4 0 ++ le_bytes 8 8 ++ le_bytes 8 0
  ++ le_bytes 4 1 ++ le_bytes 4 SHT_STRTAB ++ le_bytes 8 0 ++ le_bytes 8 0 ++ le_bytes 8 288 ++ le_bytes 8 17
  ++ le_bytes 4 0 ++ le_bytes 4 0 ++ le_bytes 8 1 ++ le_bytes 8 0
  ++ calling_text
  ++ [0; 0x2e; 0x73; 0x68; 0x73; 0x74; 0x72; 0x74; 0x61; 0x62; 0; 0x2e; 0x74; 0x65; 0x78; 0x74; 0].

(** A file of version 3 with one executable segment and no sections. *)
Definition stripped_elf : list Z :=
  [0x7F; 0x45; 0x4C; 0x46; 2; 1; 1; 0; 0; 0; 0; 0; 0; 0; 0; 0]
  ++ le_bytes 2 ET_DYN ++ le_bytes 2 EM_BPF ++ le_bytes 4 1 ++ le_bytes 8 MM_BYTECODE_START ++ le_bytes 8 64 ++ le_bytes 8 0
  ++ le_bytes 4 3 ++ le_bytes 2 64 ++ le_bytes 2 56 ++ le_bytes 2 1 ++ le_bytes 2 64 ++ le_bytes 2 0 ++ le_bytes 2 0
  ++ le_bytes 4 PT_LOAD ++ le_bytes 4 PF_X ++ le_bytes 8 120 ++ le_bytes 8 MM_BYTECODE_START
  ++ le_bytes 8 MM_BYTECODE_START ++ le_bytes 8 32 ++ le_bytes 8 32 ++ le_bytes 8 0
  ++ calling_text.

#[local] Existing Instances bump_allocator le_reference le_write_reference sum_hash plain_text.

(** The default configuration with symbol and section labels. *)
Definition labels_config : Config := {|
  max_call_depth := 64;
  stack_frame_size := 4096;
  enable_address_translation := true;
  enable_stack_frame_gaps := true;
  instruction_meter_checkpoint_distance := 10000;
  enable_instruction_meter := true;
  enable_register_tracing := false;
  enable_symbol_and_section_labels := true;
  reject_broken_elfs := false;
  noop_instruction_rate := 256;
  sanitize_user_provided_values := true;
  optimize_rodata := true;
  allow_memory_region_zero := true;
  aligned_memory_mapping := false;
  enabled_sbpf_versions := (V0, V4)
|}.
Definition labels_mock : BuiltinProgram := {| config := Some labels_config; sparse_registry := default_registry |}.

(** * Properties *)

(** C10: Loading is safe.  For every byte string a host can hold, at whatever address,
    and every loader with a configuration whose labels are disabled or whose versions
    are all below 3, [load] never panics: no index or slice is out of bounds, no
    pointer cast leaves the file, no [unwrap] fails, no assertion fails and every copy
    into the aligned buffer has its length.  The executable it returns has a version
    the configuration enables, bytes of the length of the file, a text section inside
    of them with the entry point inside of it, a read-only section inside of them,
    and a function registry of targets that are not negative. *)
Theorem elf_load_safe `{Al : Allocator} `{Bo : LittleEndian} `{Wr : LittleEndianWrite} `{Hash : Murmur3}
    `{Txt : ErrorText} (bytes_addr : Z) (bytes : list Z) (bp : BuiltinProgram) (config : Config) :
  bytes_ok bytes -> zlen bytes + HOST_ALIGN <= i64_max -> Program.config bp = Some config ->
  labels_safe config = true ->
  is_panic (load bytes_addr bytes bp) = false /\
  forall e, load bytes_addr bytes bp = Ret e ->
    loaded_ok bytes bp e /\ version_enabled config e.(sbpf_version) = true.
Proof.
  intros Hb Hlen Hc Hlab. pose proof (elf_load_spec bytes_addr bytes bp config Hb Hlen Hc Hlab) as Hs.
  split; [by eapply safe_no_panic|]. intros e He. by rewrite He in Hs.
Qed.

Lemma elf_load_safe_witness :
  exists e, load 4096 calling_elf new_mock = Ret e /\ loaded_ok calling_elf new_mock e.
Proof.
  destruct (elf_load_safe 4096 calling_elf new_mock default_config) as [Hp Hok].
  - apply (bool_decide_unpack _). vm_compute. reflexivity.
  - vm_compute. congruence.
  - reflexivity.
  - reflexivity.
  - destruct (load 4096 calling_elf new_mock) as [e|x|f] eqn:He.
    + exists e. split; [reflexivity|]. apply (Hok e eq_refl).
    + exfalso. vm_compute in He. congruence.
    + exfalso. vm_compute in He. congruence.
Defined.

(** The strict loader of version 3 on.  With labels disabled it never panics, and the
    executables it returns have a text section of whole instructions with at least one,
    inside of the file and mapped at the start of the bytecode region, an entry point
    that is one of these instructions, a read-only section inside of the file, and no
    registered functions. *)
Theorem strict_load_spec `{Al : Allocator} (bytes : list Z) (bp : BuiltinProgram) (config : Config) :
  bytes_ok bytes -> zlen bytes + HOST_ALIGN <= i64_max -> Program.config bp = Some config ->
  config.(enable_symbol_and_section_labels) = false ->
  is_panic (load_with_strict_parser bytes bp) = false /\
  forall e, load_with_strict_parser bytes bp = Ret e -> strict_ok bytes bp e.
Proof.
  intros Hb Hlen Hc Hlab. pose proof (strict_spec bytes bp config Hb Hlen Hc Hlab) as Hs.
  split; [by eapply safe_no_panic|]. intros e He. by rewrite He in Hs.
Qed.

Lemma strict_load_spec_witness :
  exists e, load_with_strict_parser stripped_elf new_mock = Ret e /\ strict_ok stripped_elf new_mock e.
Proof.
  destruct (strict_load_spec stripped_elf new_mock default_config) as [Hp Hok].
  - apply (bool_decide_unpack _). vm_compute. reflexivity.
  - vm_compute. congruence.
  - reflexivity.
  - reflexivity.
  - destruct (load_with_strict_parser stripped_elf new_mock) as [e|x|f] eqn:He.
    + exists e. split; [reflexivity|]. apply (Hok e eq_refl).
    + exfalso. vm_compute in He. congruence.
    + exfalso. vm_compute in He. congruence.
Defined.

(** The instruction a call was relocated to. *)
Definition resolves_to (bp : BuiltinProgram) (functions : FunctionRegistry Z) (insn insn' : Insn) (target : Z) : Prop :=
  insn' = mkInsn insn.(ptr) insn.(opc) insn.(dst) insn.(src) insn.(off) insn'.(imm) /\
  lookup_by_key (get_function_registry bp) (as_u32 insn'.(imm)) = None /\
  exists name, lookup_by_key functions (as_u32 insn'.(imm)) = Some (name, target).

(** C11: Relocating calls keeps their targets.  When the relative calls of a text section
    are relocated, the section keeps its length, every instruction that is not such a
    call stays as it is, and every call at slot [i] with relative target [imm] goes to
    a slot of the section, and becomes the same instruction with an immediate that no
    syscall of the loader has for its key and that the function registry maps to
    [i + 1 + imm]: where the interpreter then jumps to. *)
Theorem relocate_calls_targets `{Bo : LittleEndian} `{Wr : LittleEndianWrite} `{Hash : Murmur3}
    (bp : BuiltinProgram) (config : Config) (text text' : list Z) (functions functions' : FunctionRegistry Z) :
  Program.config bp = Some config -> bytes_ok text -> slice_len_ok text -> functions_nonneg functions ->
  relocate_calls config bp (num_insns text) (seqZ 0 (num_insns text)) functions text = Ret (functions', text') ->
  zlen text' = zlen text /\
  forall i, 0 <= i < num_insns text -> exists insn insn' : Insn,
    get_insn (E := ElfError) text i = Ret insn /\ get_insn (E := ElfError) text' i = Ret insn' /\
    if (insn.(opc) =? CALL_IMM) && negb (insn.(imm) =? -1)
    then 0 <= i + 1 + insn.(imm) < num_insns text /\ resolves_to bp functions' insn insn' (i + 1 + insn.(imm))
    else insn' = insn.
Proof.
  intros Hc Hb Hl Hf Hrel.
  pose proof (relocate_calls_spec config bp (num_insns text) (seqZ 0 (num_insns text)) functions text Hc Hb Hl eq_refl
    (NoDup_seqZ _ _) ltac:(apply Forall_forall; intros i Hi%elem_of_seqZ; lia) Hf) as Hs.
  rewrite Hrel in Hs. destruct Hs as ([Hl' Hb'] & _ & _ & Hcalls & _). cbn [fst snd] in *. split; [done|].
  intros i Hi. pose proof (slot_in_text text i Hi) as Hslot.
  specialize (Hcalls i ltac:(apply elem_of_seqZ; lia)). unfold call_relocated in Hcalls.
  eexists _, _. rewrite !get_insn_eq by (unfold slice_len_ok in *; lia || congruence).
  split; [done|]. split; [done|]. destruct (_ && _); [|by rewrite Hcalls].
  destruct Hcalls as (Hrange & key & name & Hk & Hlook & Hsys & Hbytes). split; [done|].
  rewrite Hbytes, decode_patched by (done || apply length_insn_bytes; lia). unfold resolves_to. cbn [imm ptr opc dst src off].
  unfold as_u32, as_i32. rewrite uwrap_swrap, uwrap_small by done. split_and!; [done|done|by exists name].
Qed.

Lemma relocate_calls_targets_witness :
  exists text' functions', relocate_calls default_config new_mock 4 [0; 1; 2; 3] default_registry calling_text
    = Ret (functions', text') /\ zlen text' = zlen calling_text /\
  forall i, 0 <= i < num_insns calling_text -> exists insn insn' : Insn,
    get_insn (E := ElfError) calling_text i = Ret insn /\ get_insn (E := ElfError) text' i = Ret insn' /\
    if (insn.(opc) =? CALL_IMM) && negb (insn.(imm) =? -1)
    then 0 <= i + 1 + insn.(imm) < num_insns calling_text /\
      resolves_to new_mock functions' insn insn' (i + 1 + insn.(imm))
    else insn' = insn.
Proof.
  eexists _, _. split; [vm_compute; reflexivity|].
  apply (relocate_calls_targets new_mock default_config calling_text _ default_registry).
  - reflexivity.
  - apply (bool_decide_unpack _). vm_compute. reflexivity.
  - vm_compute. congruence.
  - intros k n pc Hk. vm_compute in Hk. congruence.
  - vm_compute. reflexivity.
Defined.

(** Loading with labels panics on files without symbols.  The file, of version 3 and
    without section headers, loads under the default configuration; with symbol and
    section labels enabled the loader unwraps the absent header of section names and
    panics, where its type promises an error. *)
Theorem strict_labels_panic :
  (exists e, load 4096 stripped_elf new_mock = Ret e) /\
  load 4096 stripped_elf labels_mock = Panic UnwrapNone.
Proof. split; [eexists; vm_compute; reflexivity|vm_compute; reflexivity]. Qed.
