(* ===== verification/ReadonlySections.v ===== *)
(** What guests see of the read-only sections of a file ([parse_ro_sections] of
    src/elf.rs): every section at its address, whether the region borrows the file's
    bytes or owns a copy. *)
From S2P Require Import Prelude Error Ebpf Program Verifier MemoryRegion.
From S2P Require Import AlignedMemory.
From S2P Require Import ElfParser.
From S2P Require Import Executable.
From S2P Require Import ElfLoader.
From S2P Require Import LoaderSafety.
Open Scope rust_scope.
Open Scope list_scope.

(** * Specification *)

(** The read-only sections in the order of the table, as addresses and contents. *)
Definition ro_contents (bytes : list Z) (sections : list (option (list Z) * Elf64Shdr)) : list (Z * list Z) :=
  omap (fun x => if is_ro_name x.1
                 then d ← get_range bytes (range_or_default (shdr_file_range x.2)); Some (x.2.(sh_addr), d)
                 else None) sections.

(** A section covers an address. *)
Definition covers (x : Z * list Z) (a : Z) : bool := (x.1 <=? a) && (a <? x.1 + zlen x.2).

(** The byte at an address: that of the last section that covers it. *)
Definition last_covering (slices : list (Z * list Z)) (a : Z) : option Z :=
  foldl (fun acc x => if covers x a then x.2 !! Z.to_nat (a - x.1) else acc) None slices.

(** The bytes of a section of an executable. *)
Definition section_bytes {E} (bytes : list Z) (s : ElfSection) : Exec E (list Z) :=
  match s with Owned _ data => Ret data | Borrowed _ range => slice_range bytes range end.

Definition is_owned (s : ElfSection) : bool := match s with Owned _ _ => true | Borrowed _ _ => false end.

(** The guest address of a byte at [addr] of the file's address space. *)
Definition guest_base (addr : Z) : Z :=
  if MM_REGION_SIZE <=? addr then addr else u64_saturating_add addr MM_REGION_SIZE.

(** * Lemmas *)

Lemma last_covering_snoc (slices : list (Z * list Z)) (x : Z * list Z) (a : Z) :
  last_covering (slices ++ [x]) a = if covers x a then x.2 !! Z.to_nat (a - x.1) else last_covering slices a.
Proof. unfold last_covering. by rewrite foldl_app. Qed.

Lemma last_covering_Some (slices : list (Z * list Z)) (a v : Z) :
  last_covering slices a = Some v -> exists x, x ∈ slices /\ covers x a = true /\ x.2 !! Z.to_nat (a - x.1) = Some v.
Proof.
  induction slices as [|x slices IH] using rev_ind; [done|]. rewrite last_covering_snoc.
  destruct (covers x a) eqn:Hc; intros H.
  - exists x. rewrite elem_of_app, list_elem_of_singleton. auto.
  - destruct (IH H) as (y & Hy & ?). exists y. rewrite elem_of_app. auto.
Qed.

(** The state of the scan after it took [slices] in. *)
Record scanned (bytes : list Z) (slices : list (Z * list Z)) (st : RoScan) : Prop := mkScanned {
  sc_slices : st.(ro_slices) = slices;
  sc_bounds : Forall (fun x => st.(lowest_addr) <= x.1 /\ x.1 + zlen x.2 <= st.(highest_addr)) slices;
  sc_positive : 0 <= st.(lowest_addr) /\ 0 <= st.(highest_addr) <= 2 * MM_REGION_SIZE + zlen bytes;
  sc_borrow : st.(invalid_offsets) = false -> st.(highest_addr) <= zlen bytes /\
    Forall (fun x => forall k v, x.2 !! k = Some v -> bytes !! (Z.to_nat x.1 + k)%nat = Some v) slices;
  sc_empty : slices = [] -> st.(n_ro_sections) = 0 /\ st.(first_ro_section) = 0 /\ st.(last_ro_section) = 0
}.

Definition section_placed (bytes : list Z) (h : Elf64Shdr) : Prop :=
  0 <= h.(sh_addr) /\ 0 <= h.(sh_offset) /\ 0 <= h.(sh_size) /\ h.(sh_offset) + h.(sh_size) <= zlen bytes.

(** The contents of a section are bytes of the file at its offset. *)
Lemma section_contents (bytes d : list Z) (h : Elf64Shdr) :
  section_placed bytes h -> get_range bytes (range_or_default (shdr_file_range h)) = Some d ->
  h.(sh_offset) + zlen d <= zlen bytes /\
  forall k v, d !! k = Some v -> bytes !! (Z.to_nat h.(sh_offset) + k)%nat = Some v.
Proof.
  intros (Ha & Ho & Hs & Hend). unfold shdr_file_range, get_range, u64_saturating_add.
  destruct (negb _); cbn [range_or_default default r_start r_end empty_range].
  - destruct (_ && _); [|done]. intros [= <-]. split.
    + unfold zlen in *. rewrite length_take, length_drop. lia.
    + intros k v Hk. apply lookup_take_Some in Hk as [Hk _]. by rewrite lookup_drop in Hk.
  - destruct (_ && _); [|done]. intros [= <-]. change (Z.to_nat (0 - 0)) with 0%nat. rewrite take_0.
    split; [unfold zlen in *; cbn; lia|]. done.
Qed.

Lemma scan_step (bytes d : list Z) (slices : list (Z * list Z)) (st : RoScan) (h : Elf64Shdr) (fill first i n : Z) :
  scanned bytes slices st -> section_placed bytes h -> zlen bytes <= i64_max -> h.(sh_addr) <= MM_REGION_SIZE ->
  get_range bytes (range_or_default (shdr_file_range h)) = Some d ->
  scanned bytes (slices ++ [(h.(sh_addr), d)])
    (mkRoScan (Z.min st.(lowest_addr) h.(sh_addr))
       (Z.max st.(highest_addr) (u64_saturating_add h.(sh_addr) (zlen d))) fill
       (st.(invalid_offsets) || negb (h.(sh_addr) =? h.(sh_offset))) first i n (st.(ro_slices) ++ [(h.(sh_addr), d)])).
Proof.
  intros [Hsl Hb Hp Hbor He] Hplaced Hlen Haddr Hd. destruct (section_contents bytes d h Hplaced Hd) as [Hfit Hcont].
  destruct Hplaced as (Ha & Ho & Hs & Hend). change MM_REGION_SIZE with (2 ^ 32) in *.
  assert (0 <= zlen d) by (unfold zlen; lia).
  assert (Hadd : u64_saturating_add h.(sh_addr) (zlen d) = h.(sh_addr) + zlen d).
  { apply u64_range_add. unfold u64_max, i64_max in *. lia. }
  rewrite Hadd.
  split; cbn [lowest_addr highest_addr invalid_offsets ro_slices n_ro_sections first_ro_section last_ro_section].
  - by rewrite Hsl.
  - apply Forall_app; split; [|constructor; [cbn [fst snd]; lia|constructor]].
    eapply Forall_impl; [exact Hb|]. cbn beta. intros x [? ?]. lia.
  - change MM_REGION_SIZE with (2 ^ 32). lia.
  - intros [Hi Heq%negb_false_iff]%orb_false_iff. apply Z.eqb_eq in Heq. destruct (Hbor Hi) as [Hh HF].
    split; [lia|]. apply Forall_app; split; [done|]. constructor; [|constructor]. cbn [fst snd]. by rewrite Heq.
  - intros Hnil. by destruct slices.
Qed.

Lemma scan_Ret (config : Config) (bytes : list Z) (sections : list (option (list Z) * Elf64Shdr)) (i : Z)
    (slices : list (Z * list Z)) (st st' : RoScan) :
  zlen bytes <= i64_max -> Forall (fun x => section_placed bytes x.2) sections -> scanned bytes slices st ->
  scan_ro_sections config bytes i sections st = Ret st' -> scanned bytes (slices ++ ro_contents bytes sections) st'.
Proof.
  intros Hlen HF. revert i slices st. induction HF as [|[name h] sections Hh HF IH]; intros i slices st Hst;
    cbn [scan_ro_sections ro_contents omap list_omap]; [intros [= <-]; by rewrite app_nil_r|].
  cbn [fst snd] in *. destruct (is_ro_name name); cbn [negb]; [|apply IH; done].
  destruct (_ || _) eqn:Hg; [done|]. apply orb_false_iff in Hg as [_ Hv%Z.ltb_ge].
  destruct (get_range bytes _) as [d|] eqn:Hd; [|done]. cbn [ok_or exec_bind mbind option_bind].
  intros Hscan. eapply IH in Hscan; [|apply scan_step; try done].
  - rewrite <-app_assoc in Hscan. exact Hscan.
  - change MM_REGION_SIZE with (2 ^ 32) in *. change MM_STACK_START with (2 ^ 33) in Hv.
    unfold u64_saturating_add, u64_max in Hv. destruct Hh. lia.
Qed.

(** Copying sections: each position holds the byte of the last section that covers it. *)
Lemma copy_ro_slices_Ret (low : Z) (slices : list (Z * list Z)) (buf buf' : list Z) :
  0 <= low -> zlen buf < u64_max -> Forall (fun x => low <= x.1) slices ->
  copy_ro_slices slices low buf = Ret buf' ->
  zlen buf' = zlen buf /\
  forall p, 0 <= p -> buf' !! Z.to_nat p = foldl (fun acc x => if covers x (low + p) then x.2 !! Z.to_nat (low + p - x.1) else acc)
    (buf !! Z.to_nat p) slices.
Proof.
  intros H0 Hb HF. revert buf Hb. induction HF as [|[a d] slices Ha HF IH]; intros buf Hb; cbn [copy_ro_slices foldl].
  { by intros [= <-]. }
  cbn [fst] in Ha. assert (Hsub : u64_saturating_sub a low = a - low) by (unfold u64_saturating_sub; lia). rewrite Hsub.
  assert (0 <= zlen d) by (unfold zlen; lia). unfold slice_range. cbn [fst snd].
  destruct (_ && _) eqn:Hg; [|done]. apply andb_true_iff in Hg as [_ Hend%Z.leb_le]. cbn [exec_bind].
  assert (Hfit : a - low + zlen d <= zlen buf) by (unfold u64_saturating_add in Hend; lia).
  intros Hc. assert (Hl : zlen (splice buf (a - low) d) = zlen buf).
  { unfold splice, zlen in *. rewrite !length_app, length_take, length_drop. lia. }
  destruct (IH _ ltac:(by rewrite Hl) Hc) as [Hl' Hlook]. split; [congruence|].
  intros p Hp. rewrite Hlook by done. f_equal. rewrite lookup_splice by lia. unfold covers. cbn [fst snd].
  unfold zlen in *. destruct (decide _) as [Hin|Hout].
  - rewrite (proj2 (andb_true_iff _ _)) by (split; [apply Z.leb_le|apply Z.ltb_lt]; lia). f_equal. lia.
  - destruct (_ && _) eqn:Hcov; [|done]. apply andb_true_iff in Hcov as [Hc1%Z.leb_le Hc2%Z.ltb_lt]. lia.
Qed.

Lemma covers_lookup (x : Z * list Z) (a : Z) : covers x a = true -> is_Some (x.2 !! Z.to_nat (a - x.1)).
Proof. intros [H1%Z.leb_le H2%Z.ltb_lt]%andb_true_iff. apply lookup_lt_is_Some. unfold zlen in H2. lia. Qed.

Lemma foldl_last_covering (slices : list (Z * list Z)) (a : Z) (acc : option Z) :
  foldl (fun acc x => if covers x a then x.2 !! Z.to_nat (a - x.1) else acc) acc slices =
    match last_covering slices a with Some v => Some v | None => acc end.
Proof.
  induction slices as [|x slices IH] using rev_ind; [done|]. rewrite foldl_app, last_covering_snoc. cbn [foldl].
  destruct (covers x a) eqn:Hc; [|exact IH]. by destruct (covers_lookup x a Hc) as [v ->].
Qed.

(** A region that starts at [base] shows the sections. *)
Definition shows (slices : list (Z * list Z)) (base : Z) (region : list Z) : Prop :=
  Forall (fun x => base <= x.1 /\ x.1 + zlen x.2 <= base + zlen region) slices /\
  forall a v, last_covering slices a = Some v -> region !! Z.to_nat (a - base) = Some v.

(** The owned copy. *)
Lemma owned_shows (slices : list (Z * list Z)) (base len : Z) (region : list Z) :
  0 <= base -> 0 <= len < u64_max -> Forall (fun x => base <= x.1 /\ x.1 + zlen x.2 <= base + len) slices ->
  copy_ro_slices slices base (replicate (Z.to_nat len) 0) = Ret region ->
  shows slices base region /\
  forall a, base <= a < base + zlen region -> last_covering slices a = None -> region !! Z.to_nat (a - base) = Some 0.
Proof.
  intros Hb [Hl0 Hl] HF Hc. apply copy_ro_slices_Ret in Hc as [Hlen Hlook]; [|done|by rewrite zlen_replicate|].
  2:{ eapply Forall_impl; [exact HF|]. by intros x [? _]. }
  rewrite zlen_replicate in Hlen by done. split; [split; [by rewrite Hlen|]|].
  - intros a v Hv. destruct (last_covering_Some _ _ _ Hv) as (x & Hx & [Hx1%Z.leb_le _]%andb_true_iff & _).
    rewrite Forall_forall in HF. destruct (HF x Hx). rewrite Hlook by lia.
    rewrite foldl_last_covering. replace (base + (a - base)) with a by lia. by rewrite Hv.
  - intros a Ha Hn. rewrite Hlook by lia. rewrite foldl_last_covering. replace (base + (a - base)) with a by lia.
    rewrite Hn. apply lookup_replicate_2. lia.
Qed.

(** The borrowed range of the file. *)
Lemma borrowed_shows (bytes : list Z) (slices : list (Z * list Z)) (low high : Z) :
  0 <= low <= high -> high <= zlen bytes ->
  Forall (fun x => low <= x.1 /\ x.1 + zlen x.2 <= high) slices ->
  Forall (fun x => forall k v, x.2 !! k = Some v -> bytes !! (Z.to_nat x.1 + k)%nat = Some v) slices ->
  shows slices low (take (Z.to_nat (high - low)) (drop (Z.to_nat low) bytes)).
Proof.
  intros Hlow Hhigh HF Hbytes.
  assert (Hlen : zlen (take (Z.to_nat (high - low)) (drop (Z.to_nat low) bytes)) = high - low).
  { unfold zlen in *. rewrite length_take, length_drop. lia. }
  split; [rewrite Hlen; by replace (low + (high - low)) with high by lia|].
  intros a v Hv. destruct (last_covering_Some _ _ _ Hv) as (x & Hx & Hc & Hxv). rewrite Forall_forall in HF, Hbytes.
  apply andb_true_iff in Hc as [Hc1%Z.leb_le Hc2%Z.ltb_lt]. destruct (HF x Hx).
  rewrite lookup_take_lt, lookup_drop by lia. rewrite <-(Hbytes x Hx _ _ Hxv). f_equal. lia.
Qed.

(** * Properties *)

(** C21: What a guest sees of the read-only sections.  When the sections lie inside of the
    file and [parse_ro_sections] returns a region, it starts at the guest address of
    some base address, which is 0 unless read-only data is optimised, its bytes can be
    taken without a fault, and every section [.text], [.rodata], [.data.rel.ro] and
    [.eh_frame] lies inside of it at its address: the byte at each address is that of
    the last section that covers the address.  This holds for a region that borrows the
    bytes of the file as for one that owns a copy, whose other bytes are zero. *)
Theorem parse_ro_sections_contents (config : Config) (sections : list (option (list Z) * Elf64Shdr))
    (bytes : list Z) (s : ElfSection) :
  zlen bytes <= i64_max -> Forall (fun x => section_placed bytes x.2) sections ->
  parse_ro_sections config sections bytes = Ret s ->
  exists base region, section_bytes (E := EbpfError) bytes s = Ret region /\ section_offset s = guest_base base /\
    (config.(optimize_rodata) = false -> base = 0) /\
    shows (ro_contents bytes sections) base region /\
    (is_owned s = true -> forall a, base <= a < base + zlen region ->
      last_covering (ro_contents bytes sections) a = None -> region !! Z.to_nat (a - base) = Some 0).
Proof.
  intros Hlen HF. unfold parse_ro_sections.
  destruct (scan_ro_sections _ _ _ _ _) as [st| |] eqn:Hscan; [|done..]. cbn [exec_bind].
  apply (scan_Ret _ _ _ _ []) in Hscan; [|done|done|].
  2:{ assert (0 <= zlen bytes) by (unfold zlen; lia). split; try done; cbn [lowest_addr highest_addr].
      change MM_REGION_SIZE with (2 ^ 32). unfold u64_max. lia. }
  cbn [app] in Hscan. set (slices := ro_contents bytes sections) in *.
  destruct Hscan as [Hsl Hb [Hlow [Hhigh Hhigh2]] Hbor Hempty]. rewrite Hsl.
  destruct (_ && (_ <? _)); [done|]. unfold i64_max in Hlen.
  assert (Hne : forall x, x ∈ slices -> lowest_addr st <= highest_addr st).
  { intros x Hx. rewrite Forall_forall in Hb. destruct (Hb x Hx). unfold zlen in *. lia. }
  destruct config.(optimize_rodata) eqn:Hopt; cbn [andb].
  - destruct (_ && (_ =? _)) eqn:Hcan.
    + apply andb_true_iff in Hcan as [Hi%negb_true_iff Hn]. destruct (Hbor Hi) as [Hend Hbytes].
      assert (Hlh : lowest_addr st <= highest_addr st).
      { destruct slices as [|x l] eqn:Hs; [|by apply (Hne x); left].
        destruct (Hempty eq_refl) as (Hn0 & Hf0 & Hl0). by rewrite Hn0, Hf0, Hl0 in Hn. }
      intros [= <-]. eexists (lowest_addr st), _. cbn [section_bytes section_offset is_owned].
      unfold slice_range. cbn [fst snd]. rewrite !(proj2 (Z.leb_le _ _)) by lia. cbn [andb].
      split_and!; [done|done|done|by apply borrowed_shows|done].
    + destruct (Z.ltb_spec (zlen bytes) (u64_saturating_sub (highest_addr st) (lowest_addr st))); [done|].
      destruct (copy_ro_slices _ _ _) as [region| |] eqn:Hc; [|done..]. cbn [exec_bind]. intros [= <-].
      apply owned_shows in Hc as [Hs Hz]; [|done|unfold u64_saturating_sub, u64_max in *; lia|].
      * eexists (lowest_addr st), region. split_and!; try done.
      * apply Forall_forall. intros x Hx. pose proof (Hne x Hx). rewrite Forall_forall in Hb. destruct (Hb x Hx).
        unfold u64_saturating_sub. lia.
  - destruct (Z.ltb_spec (zlen bytes) (highest_addr st)); [done|].
    destruct (copy_ro_slices _ _ _) as [region| |] eqn:Hc; [|done..]. cbn [exec_bind]. intros [= <-].
    apply owned_shows in Hc as [Hs Hz]; [|done|unfold u64_max; lia|].
    + eexists 0, region. split_and!; try done.
    + eapply Forall_impl; [exact Hb|]. cbn beta. intros x [? ?]. lia.
Qed.

(** A text section behind read-only data and a gap: the copy starts at the lower one. *)
Definition ro_example : list (option (list Z) * Elf64Shdr) :=
  [(Some name_text, mkElf64Shdr 0 1 6 5 2 2 0 0 0 0); (None, mkElf64Shdr 0 1 6 2 0 0 0 0 0 0);
   (Some name_rodata, mkElf64Shdr 0 1 2 2 0 2 0 0 0 0)].

Lemma parse_ro_sections_contents_witness :
  exists s base, parse_ro_sections default_config ro_example [10; 11; 12; 13; 14; 15] = Ret s /\
    section_bytes (E := EbpfError) [10; 11; 12; 13; 14; 15] s = Ret [10; 11; 0; 12; 13] /\
    section_offset s = guest_base base /\
    shows (ro_contents [10; 11; 12; 13; 14; 15] ro_example) base [10; 11; 0; 12; 13].
Proof.
  eexists. destruct (parse_ro_sections_contents default_config ro_example [10; 11; 12; 13; 14; 15]
    (Owned 0x100000002 [10; 11; 0; 12; 13])) as (base & region & Hr & Hoff & _ & Hs & _).
  - vm_compute. congruence.
  - unfold ro_example, section_placed. repeat constructor; vm_compute; congruence.
  - vm_compute. reflexivity.
  - injection Hr as Hr. subst region. exists base. split; [vm_compute; reflexivity|].
    split; [reflexivity|]. split; [exact Hoff|exact Hs].
Defined.
