(* ===== verification/Relocation.v ===== *)
(** Relocation of addresses (src/elf.rs, [Executable::relocate]): what a relocated pair
    of instruction slots loads. *)
From S2P Require Import Prelude Error Ebpf Program Verifier MemoryRegion.
From S2P Require Import AlignedMemory.
From S2P Require Import ElfParser.
From S2P Require Import Executable.
From S2P Require Import ElfLoader.
From S2P Require Import LoaderSafety.
Open Scope rust_scope.
Open Scope list_scope.

(** * Specification *)

(** Addresses below the first region are moved into it. *)
Definition rebase (a : Z) : Z := if a <? MM_REGION_SIZE then u64_saturating_add MM_REGION_SIZE a else a.

Section Words.
Context `{Bo : LittleEndian} `{Wr : LittleEndianWrite}.

(** The two immediate fields of the slots at [off] hold the halves of [a]. *)
Definition lddw_holds (bytes : list Z) (off a : Z) : Prop :=
  read_u32_at bytes (off + 4) = Ret (a mod 2 ^ 32) /\ read_u32_at bytes (off + 12) = Ret (a / 2 ^ 32).

(** Nothing but the two immediate fields changed. *)
Definition lddw_only (bytes bytes' : list Z) (off : Z) : Prop :=
  zlen bytes' = zlen bytes /\
  forall k, ~ (off + 4 <= Z.of_nat k < off + 8) -> ~ (off + 12 <= Z.of_nat k < off + 16) -> bytes' !! k = bytes !! k.

(** * Lemmas *)

Lemma read_u32_at_eq (bytes : list Z) (off : Z) :
  0 <= off -> off + 4 <= zlen bytes -> zlen bytes < u64_max ->
  read_u32_at bytes off = Ret (le_value (take 4 (drop (Z.to_nat off) bytes))).
Proof.
  intros H0 Hend Hlen. unfold read_u32_at, BYTE_LENGTH_IMMEDIATE. rewrite u64_range_add by lia.
  unfold get_range. cbn [r_start r_end]. rewrite !(proj2 (Z.leb_le _ _)) by lia. cbn [andb ok_or exec_bind].
  replace (off + 4 - off) with 4 by lia. change (Z.to_nat 4) with 4%nat. rewrite read_u32_spec.
  rewrite decide_True by (rewrite length_take, length_drop; unfold zlen in *; lia).
  cbn [expect]. by rewrite take_take.
Qed.

(** Reading a word after writing one that is the same or apart. *)
Lemma read_written (bytes : list Z) (off off' v : Z) :
  0 <= off -> off + 4 <= zlen bytes -> zlen bytes < u64_max -> 0 <= off' -> off' + 4 <= zlen bytes ->
  read_u32_at (splice bytes off (le_bytes 4 v)) off' =
    if decide (off = off') then Ret (uwrap 32 v)
    else if decide (off + 4 <= off' \/ off' + 4 <= off) then read_u32_at bytes off'
    else read_u32_at (splice bytes off (le_bytes 4 v)) off'.
Proof.
  intros H0 Hend Hlen H0' Hend'.
  assert (Hl : zlen (splice bytes off (le_bytes 4 v)) = zlen bytes).
  { unfold splice, zlen in *. rewrite !length_app, length_take, length_drop, length_le_bytes. lia. }
  assert (Hlook : forall k, splice bytes off (le_bytes 4 v) !! k =
    if decide (Z.to_nat off <= k < Z.to_nat off + 4)%nat then le_bytes 4 v !! (k - Z.to_nat off)%nat else bytes !! k).
  { intros k. rewrite lookup_splice; [by rewrite length_le_bytes|done|unfold zlen in *; by rewrite length_le_bytes]. }
  destruct (decide (off = off')) as [<-|Hne].
  - rewrite read_u32_at_eq by (done || lia). f_equal.
    enough (take 4 (drop (Z.to_nat off) (splice bytes off (le_bytes 4 v))) = le_bytes 4 v) as ->
      by apply le_value_le_bytes.
    apply list_eq. intros k. destruct (decide (k < 4)%nat) as [Hk|Hk].
    + rewrite lookup_take_lt, lookup_drop, Hlook by lia. rewrite decide_True by lia. f_equal. lia.
    + rewrite !lookup_ge_None_2; [done|by rewrite length_le_bytes; lia|rewrite length_take; lia].
  - destruct (decide _) as [Hap|]; [|done]. rewrite !read_u32_at_eq by (done || lia). do 2 f_equal.
    apply list_eq. intros k. destruct (decide (k < 4)%nat) as [Hk|Hk].
    + rewrite !lookup_take_lt, !lookup_drop, Hlook by lia. by rewrite decide_False by lia.
    + rewrite !lookup_ge_None_2; [done|rewrite length_take; lia..].
Qed.

(** The two writes of an address. *)
Lemma write_address (bytes bytes1 bytes' : list Z) (off a : Z) :
  bytes_ok bytes -> zlen bytes < u64_max -> 0 <= off -> in_u 64 a ->
  write_u32_at bytes (off + 4) (as_u32 (Z.land a 0xFFFFFFFF)) = Ret bytes1 ->
  write_u32_at bytes1 (off + 12) (as_u32 (Z.shiftr a 32)) = Ret bytes' ->
  lddw_holds bytes' off a /\ lddw_only bytes bytes' off.
Proof.
  intros Hb Hlen H0 [Ha0 Ha1] Hw1 Hw2.
  pose proof (write_u32_at_spec bytes (off + 4) (as_u32 (Z.land a 0xFFFFFFFF)) Hb ltac:(lia) Hlen) as H1.
  rewrite Hw1 in H1. destruct H1 as ([Hl1 Hb1] & Hend1 & ->). set (bytes1 := splice bytes _ _) in *.
  pose proof (write_u32_at_spec bytes1 (off + 12) (as_u32 (Z.shiftr a 32)) Hb1 ltac:(lia) ltac:(lia)) as H2.
  rewrite Hw2 in H2. destruct H2 as ([Hl2 Hb2] & Hend2 & ->).
  assert (Hlo : as_u32 (Z.land a 0xFFFFFFFF) = a mod 2 ^ 32).
  { change 0xFFFFFFFF with (Z.ones 32). rewrite Z.land_ones by lia. apply uwrap_small.
    unfold in_u. pose proof (Z.mod_pos_bound a (2 ^ 32)). lia. }
  assert (Hhi : as_u32 (Z.shiftr a 32) = a / 2 ^ 32).
  { rewrite Z.shiftr_div_pow2 by lia. apply uwrap_small. split; [apply Z.div_pos; lia|].
    apply Z.div_lt_upper_bound; lia. }
  assert (Hu : forall x, uwrap 32 (as_u32 x) = as_u32 x) by (intros x; apply uwrap_small, uwrap_range; lia).
  split; [split|split].
  - rewrite read_written by lia. rewrite decide_False, decide_True by lia.
    unfold bytes1. rewrite read_written by lia. rewrite decide_True by done. by rewrite Hu, Hlo.
  - rewrite read_written by lia. rewrite decide_True by done. by rewrite Hu, Hhi.
  - congruence.
  - intros k Hk1 Hk2. assert (Hle : forall v, zlen (le_bytes 4 v) = 4) by done.
    rewrite lookup_splice by (rewrite ?Hle; lia). rewrite length_le_bytes, decide_False by lia.
    unfold bytes1. rewrite lookup_splice by (rewrite ?Hle; lia). by rewrite length_le_bytes, decide_False by lia.
Qed.

Lemma write_at_bound (bytes bytes' : list Z) (off v : Z) :
  bytes_ok bytes -> zlen bytes < u64_max -> 0 <= off -> write_u32_at bytes off v = Ret bytes' ->
  off + 4 <= zlen bytes /\ zlen bytes' = zlen bytes /\ bytes_ok bytes'.
Proof.
  intros Hb Hlen H0 Hw. pose proof (write_u32_at_spec bytes off v Hb H0 Hlen) as H. rewrite Hw in H.
  by destruct H as ([? ?] & ? & _).
Qed.

Lemma saturating_small (a b : Z) : u64_saturating_add a b < u64_max -> u64_saturating_add a b = a + b.
Proof. unfold u64_saturating_add. lia. Qed.

(** Both branches end with the two writes, at offsets that cannot have saturated. *)
Lemma write_address_saturating (bytes bytes1 bytes' : list Z) (off hi a : Z) :
  bytes_ok bytes -> zlen bytes < u64_max -> 0 <= off -> in_u 64 a -> (hi < u64_max -> hi = off + 12) ->
  0 <= hi ->
  write_u32_at bytes (u64_saturating_add off 4) (as_u32 (Z.land a 0xFFFFFFFF)) = Ret bytes1 ->
  write_u32_at bytes1 hi (as_u32 (Z.shiftr a 32)) = Ret bytes' ->
  u64_saturating_add off 4 = off + 4 /\ hi = off + 12 /\ lddw_holds bytes' off a /\ lddw_only bytes bytes' off.
Proof.
  intros Hb Hlen H0 Ha Hhi Hhi0 Hw1 Hw2.
  assert (Hlo0 : 0 <= u64_saturating_add off 4) by by apply saturating_nonneg.
  destruct (write_at_bound _ _ _ _ Hb Hlen Hlo0 Hw1) as (He1 & Hl1 & Hb1).
  destruct (write_at_bound _ _ _ _ Hb1 ltac:(lia) Hhi0 Hw2) as (He2 & _).
  assert (Ehi : hi = off + 12) by (apply Hhi; lia).
  assert (Elo : u64_saturating_add off 4 = off + 4) by (apply saturating_small; lia).
  rewrite Ehi in Hw2. rewrite Elo in Hw1. split; [done|]. split; [done|].
  by apply (write_address bytes bytes1 bytes' off a).
Qed.
End Words.

Lemma rebase_range (a : Z) : in_u 64 a -> in_u 64 (rebase a).
Proof.
  unfold in_u, rebase, u64_saturating_add, u64_max. change MM_REGION_SIZE with (2 ^ 32).
  intros []. destruct (Z.ltb_spec a (2 ^ 32)); lia.
Qed.

Lemma saturating_range (a b : Z) : 0 <= a -> 0 <= b -> in_u 64 (u64_saturating_add a b).
Proof. unfold in_u, u64_saturating_add, u64_max. lia. Qed.

(** The address read from the two halves. *)
Lemma halves (hi lo : Z) : in_u 32 hi -> in_u 32 lo ->
  let a := Z.lor (as_u64 (Z.shiftl hi 32)) lo in in_u 64 a /\ a mod 2 ^ 32 = lo /\ a / 2 ^ 32 = hi.
Proof.
  intros [H0 H1] [L0 L1]. cbv zeta. rewrite Z.shiftl_mul_pow2 by lia.
  unfold as_u64. rewrite uwrap_small by (unfold in_u; lia).
  rewrite Z.lor_comm, <-(Z.shiftl_mul_pow2 hi 32) by lia. rewrite lor_shiftl_add by (unfold in_u; lia).
  split; [unfold in_u; lia|].
  split; [rewrite Z.mod_add by lia; apply Z.mod_small; lia|].
  rewrite Z.div_add by lia. rewrite (Z.div_small lo) by lia. lia.
Qed.

(** * Properties *)

(** C22: Relocated address loads.  Take a file that parses and a buffer of its bytes.
    Relocation R_Bpf_64_64 makes the two slots at its offset load the value of its
    symbol plus the addend in the first slot; R_Bpf_64_Relative in the text section makes
    them load the address they loaded before, which is not zero.  In either case an
    address below the first region is moved into it, and no other byte of the buffer
    changes. *)
Theorem relocated_address `{Bo : LittleEndian} `{Wr : LittleEndianWrite} (addr : Z) (file bytes bytes' : list Z)
    (elf : Elf64) (text_section : Elf64Shdr) (r : Elf64Rel) :
  bytes_ok file -> parse addr file = Ret elf -> bytes_ok bytes -> zlen bytes <= i64_max -> 0 <= r.(r_offset) ->
  (relocate_64_64 elf r bytes = Ret bytes' -> exists symbol addend,
    relocation_symbol elf r = Ret symbol /\ read_u32_at bytes (r.(r_offset) + 4) = Ret addend /\
    lddw_holds bytes' r.(r_offset) (rebase (u64_saturating_add symbol.(st_value) addend)) /\
    lddw_only bytes bytes' r.(r_offset)) /\
  (range_contains (range_or_default (shdr_file_range text_section)) r.(r_offset) = true ->
    relocate_64_relative text_section r bytes = Ret bytes' -> exists a,
    lddw_holds bytes r.(r_offset) a /\ a <> 0 /\
    lddw_holds bytes' r.(r_offset) (rebase a) /\ lddw_only bytes bytes' r.(r_offset)).
Proof.
  intros Hf Hp Hb Hlen H0. assert (Hl : zlen bytes < u64_max) by (unfold i64_max, u64_max in *; lia).
  assert (Hly : elf_layout file elf) by (pose proof (parse_spec addr file Hf) as H; by rewrite Hp in H).
  set (off := r.(r_offset)) in *. split.
  - unfold relocate_64_64, BYTE_OFFSET_IMMEDIATE, INSN_SIZE. fold off.
    pose proof (read_u32_at_spec bytes (u64_saturating_add off 4) Hb ltac:(by apply saturating_nonneg) Hl) as Hr.
    destruct (read_u32_at bytes _) as [addend| |] eqn:Hadd; [|done..]. cbn in Hr. cbn [exec_bind].
    pose proof (relocation_symbol_spec file Hf elf Hly r) as Hsym.
    destruct (relocation_symbol elf r) as [symbol| |]; [|done..]. destruct Hsym as [[Hv _] _]. cbn [exec_bind].
    fold (rebase (u64_saturating_add symbol.(st_value) addend)). set (a := rebase _).
    destruct (write_u32_at bytes _ _) as [bytes1| |] eqn:Hw1; [|done..]. cbn [exec_bind]. intros Hw2.
    assert (Ha : in_u 64 a) by (apply rebase_range, saturating_range; [done|apply Hr]).
    destruct (write_address_saturating _ _ _ off (u64_saturating_add (u64_saturating_add off 4) 8) a Hb Hl H0 Ha ltac:(unfold u64_saturating_add; lia)
      ltac:(by apply saturating_nonneg; [apply saturating_nonneg|]) Hw1 Hw2) as (Heq & _ & Hh & Ho).
    rewrite Heq in Hadd. by exists symbol, addend.
  - intros Ht. unfold relocate_64_relative, BYTE_OFFSET_IMMEDIATE, INSN_SIZE. fold off. rewrite Ht.
    pose proof (read_u32_at_spec bytes (u64_saturating_add off 4) Hb ltac:(by apply saturating_nonneg) Hl) as Hr.
    destruct (read_u32_at bytes (u64_saturating_add off 4)) as [lo| |] eqn:Hlo; [|done..]. cbn in Hr. cbn [exec_bind].
    set (hi_off := u64_saturating_add (u64_saturating_add off 8) 4).
    assert (Hhi0 : 0 <= hi_off) by by apply saturating_nonneg; [apply saturating_nonneg|].
    pose proof (read_u32_at_spec bytes hi_off Hb Hhi0 Hl) as Hr2.
    destruct (read_u32_at bytes hi_off) as [hi| |] eqn:Hhi; [|done..]. cbn in Hr2. cbn [exec_bind].
    destruct (halves hi lo Hr2 Hr) as (Hau & Hm & Hd). set (a := Z.lor _ lo) in *.
    destruct (Z.eqb_spec a 0) as [|Hne]; [done|]. fold (rebase a).
    destruct (write_u32_at bytes _ _) as [bytes1| |] eqn:Hw1; [|done..]. cbn [exec_bind]. intros Hw2.
    destruct (write_address_saturating _ _ _ _ hi_off (rebase a) Hb Hl H0 ltac:(by apply rebase_range)
      ltac:(unfold hi_off, u64_saturating_add; lia) Hhi0 Hw1 Hw2) as (Heq & Heq2 & Hh & Ho).
    rewrite Heq in Hlo. rewrite Heq2 in Hhi. exists a. unfold lddw_holds at 1. by rewrite Hm, Hd.
Qed.

(** A text section of one double slot that loads 16. *)
Definition loading_text : list Z := [0x18; 1; 0; 0; 0x10; 0; 0; 0; 0; 0; 0; 0; 0; 0; 0; 0].

Lemma relocated_address_witness :
  exists bytes', relocate_64_relative (Bo := le_reference) (Wr := le_write_reference)
      (mkElf64Shdr 0 1 6 0 0 16 0 0 0 0) (mkElf64Rel 0 R_X86_64_RELATIVE) loading_text = Ret bytes' /\
    lddw_holds (Bo := le_reference) bytes' 0 0x100000010 /\ lddw_only loading_text bytes' 0.
Proof.
  eexists. split; [vm_compute; reflexivity|].
  destruct (relocated_address (Bo := le_reference) (Wr := le_write_reference) 4096 example_elf loading_text
    [0x18; 1; 0; 0; 0x10; 0; 0; 0; 0; 0; 0; 0; 1; 0; 0; 0] example_parsed
    (mkElf64Shdr 0 1 6 0 0 16 0 0 0 0) (mkElf64Rel 0 R_X86_64_RELATIVE)) as [_ Hrel].
  - apply (bool_decide_unpack _). vm_compute. reflexivity.
  - vm_compute. reflexivity.
  - apply (bool_decide_unpack _). vm_compute. reflexivity.
  - vm_compute. congruence.
  - vm_compute. congruence.
  - destruct Hrel as (a & [Hlo Hhi] & _ & Hholds & Honly).
    + vm_compute. reflexivity.
    + vm_compute. reflexivity.
    + split; [|exact Honly]. assert (Ha : a = 16).
      { injection Hlo as Hlo. injection Hhi as Hhi. rewrite (Z.div_mod a (2 ^ 32)) by lia.
        rewrite <-Hlo, <-Hhi. vm_compute. reflexivity. }
      rewrite Ha in Hholds. exact Hholds.
Defined.
