(* ===== verification/Vm.v ===== *)
(** The virtual machine's state ([src/vm.rs], [EbpfVm]), the runtime context, and
    the call of built-in functions ([src/program.rs], [declare_builtin_function]). *)
From Stdlib Require Import String.
From S2P Require Import Prelude Error Ebpf Program MemoryRegion MemoryMapping Executable.
Open Scope rust_scope.
Open Scope list_scope.

(** * The runtime context *)

(* src/vm.rs:142-148, ContextObject *)
Class ContextObject (C : Type) := {
  consume : C -> Z -> C;
  get_remaining : C -> Z;
}.

(** What the VM relies on: the meter is a [u64], and consuming takes away. *)
Class MeterLaws (C : Type) `{ContextObject C} : Prop := {
  remaining_u64 (c : C) : in_u 64 (get_remaining c);
  remaining_consume (c : C) (amount : Z) :
    0 <= amount -> get_remaining (consume c amount) = u64_saturating_sub (get_remaining c) amount;
}.

(** * State *)

(* src/vm.rs:184-193, CallFrame *)
Record CallFrame := mkFrame {
  caller_saved_registers : list Z;
  frame_pointer : Z;
  target_pc : Z;
}.

(* src/vm.rs:185-193, Default for CallFrame *)
Definition default_frame : CallFrame := mkFrame [0; 0; 0; 0] 0 0.

(** The fields that only compiled code uses (the host stack pointer and the stop
    watch) are left out; the memory the mapping points to is part of the state. *)
(* src/vm.rs:275-309, EbpfVm *)
Record EbpfVm {C : Type} := mkVm {
  call_depth : Z;
  context_object : C;
  previous_instruction_meter : Z;
  due_insn_count : Z;
  registers : list Z;
  program_result : ProgramResult;
  memory_mapping : MemoryMapping;
  call_frames : list CallFrame;
  vm_loader : BuiltinProgram;
  register_trace : list (list Z);
  host_memory : HostMem;
}.
Arguments EbpfVm : clear implicits.
Arguments mkVm {C}.

Section Vm.
Context `{Ctx : ContextObject C}.
Implicit Types vm : EbpfVm C.

(** Field updates. *)
Definition with_call_depth vm d := mkVm d vm.(context_object) vm.(previous_instruction_meter)
  vm.(due_insn_count) vm.(registers) vm.(program_result) vm.(memory_mapping) vm.(call_frames)
  vm.(vm_loader) vm.(register_trace) vm.(host_memory).
Definition with_context vm (c : C) := mkVm vm.(call_depth) c vm.(previous_instruction_meter)
  vm.(due_insn_count) vm.(registers) vm.(program_result) vm.(memory_mapping) vm.(call_frames)
  vm.(vm_loader) vm.(register_trace) vm.(host_memory).
Definition with_meter vm m := mkVm vm.(call_depth) vm.(context_object) m
  vm.(due_insn_count) vm.(registers) vm.(program_result) vm.(memory_mapping) vm.(call_frames)
  vm.(vm_loader) vm.(register_trace) vm.(host_memory).
Definition with_due vm d := mkVm vm.(call_depth) vm.(context_object)
  vm.(previous_instruction_meter) d vm.(registers) vm.(program_result) vm.(memory_mapping)
  vm.(call_frames) vm.(vm_loader) vm.(register_trace) vm.(host_memory).
Definition with_registers vm rs := mkVm vm.(call_depth) vm.(context_object)
  vm.(previous_instruction_meter) vm.(due_insn_count) rs vm.(program_result)
  vm.(memory_mapping) vm.(call_frames) vm.(vm_loader) vm.(register_trace) vm.(host_memory).
Definition with_result vm r := mkVm vm.(call_depth) vm.(context_object)
  vm.(previous_instruction_meter) vm.(due_insn_count) vm.(registers) r
  vm.(memory_mapping) vm.(call_frames) vm.(vm_loader) vm.(register_trace) vm.(host_memory).
Definition with_memory vm mm hm := mkVm vm.(call_depth) vm.(context_object)
  vm.(previous_instruction_meter) vm.(due_insn_count) vm.(registers) vm.(program_result)
  mm vm.(call_frames) vm.(vm_loader) vm.(register_trace) hm.
Definition with_frames vm fs := mkVm vm.(call_depth) vm.(context_object)
  vm.(previous_instruction_meter) vm.(due_insn_count) vm.(registers) vm.(program_result)
  vm.(memory_mapping) fs vm.(vm_loader) vm.(register_trace) vm.(host_memory).
Definition with_trace vm t := mkVm vm.(call_depth) vm.(context_object)
  vm.(previous_instruction_meter) vm.(due_insn_count) vm.(registers) vm.(program_result)
  vm.(memory_mapping) vm.(call_frames) vm.(vm_loader) t vm.(host_memory).

(** The host memory behind the mapping belongs to the embedder. *)
(* src/vm.rs:312-350, EbpfVm::new *)
Definition vm_new {E} (loader : BuiltinProgram) (version : SBPFVersion) (context : C)
    (mapping : MemoryMapping) (hm : HostMem) (stack_len : Z) : Exec E (EbpfVm C) :=
  let! config := get_config loader in
  let frame_pointer :=
    u64_saturating_add MM_STACK_START
      (if negb (manual_stack_frame_bump version) then config.(stack_frame_size) else stack_len) in
  let! registers := set_index (replicate 12 0) FRAME_PTR_REG frame_pointer in
  let mapping := if negb config.(enable_address_translation) then new_identity else mapping in
  Ret {| call_depth := 0; context_object := context; previous_instruction_meter := 0;
         due_insn_count := 0; registers := registers; program_result := SOk 0;
         memory_mapping := mapping;
         call_frames := replicate (Z.to_nat config.(max_call_depth)) default_frame;
         vm_loader := loader; register_trace := []; host_memory := hm |}.

(** * Built-in functions *)

(** The Rust interface of a built-in function: it gets the context, five
    arguments and the memory mapping, all of which it may change, and may panic. *)
(* src/program.rs:336-347, rust *)
Definition RustFunction : Type :=
  forall E : Type, C -> Z -> Z -> Z -> Z -> Z -> MemoryMapping -> HostMem ->
  Exec E (Result Z string * C * MemoryMapping * HostMem).

(** Its VM interface, which settles the instruction meter around the call. *)
(* src/program.rs:348-373, vm *)
Definition builtin_vm {E} (rust : RustFunction) vm (a b c d e : Z) : Exec E (EbpfVm C) :=
  let! config := get_config vm.(vm_loader) in
  let! vm :=
    if config.(enable_instruction_meter) then
      let! amount := u64_sub vm.(previous_instruction_meter) vm.(due_insn_count) in
      Ret (with_context vm (consume vm.(context_object) amount))
    else Ret vm in
  let! (result, context, mm, hm) :=
    rust E vm.(context_object) a b c d e vm.(memory_mapping) vm.(host_memory) in
  let converted_result : ProgramResult :=
    stable_of_result (match result with Ok v => Ok v | Error err => Error (SyscallError err) end) in
  let vm := with_result (with_memory (with_context vm context) mm hm) converted_result in
  Ret (if config.(enable_instruction_meter)
       then with_meter vm (get_remaining vm.(context_object)) else vm).

(** What the function at a pointer does is given by the embedder.  The pointer to
    the VM is offset by a key that the callee takes off again. *)
Context (rust_of : BuiltinFunction -> RustFunction).

(* src/vm.rs:415-430, EbpfVm::invoke_function *)
Definition invoke_function {E} vm (function : BuiltinFunction) : Exec E (EbpfVm C) :=
  let! r1 := index_slice vm.(registers) 1 in
  let! r2 := index_slice vm.(registers) 2 in
  let! r3 := index_slice vm.(registers) 3 in
  let! r4 := index_slice vm.(registers) 4 in
  let! r5 := index_slice vm.(registers) 5 in
  builtin_vm (rust_of function) vm r1 r2 r3 r4 r5.
End Vm.
Arguments RustFunction : clear implicits.
