(* ===== verification/Interpreter.v ===== *)
(** The interpreter ([src/interpreter.rs]): one instruction step and the loop of
    [EbpfVm::execute_program]. *)
From S2P Require Import Prelude Error Ebpf Program MemoryRegion MemoryMapping Executable Vm.
Open Scope rust_scope.

(** * State and effects *)

(** The references an interpreter holds to the executable and its text never
    change; they are parameters below. *)
(* src/interpreter.rs:85-99, Interpreter *)
Record Interpreter {C : Type} := mkInterp { vm : EbpfVm C; reg : list Z }.
Arguments Interpreter : clear implicits.
Arguments mkInterp {C}.

Section Interpreter.
Context `{Bo : LittleEndian}.
Context `{Ctx : ContextObject C}.
Context (rust_of : BuiltinFunction -> RustFunction C).
Context (executable : Executable) (program : list Z) (program_vm_addr : Z).
Let v : SBPFVersion := executable.(sbpf_version).

(** Part of a step: [Ret] goes on, [Err] is [return false] with the state at that
    point. *)
Definition M (A : Type) : Type := Interpreter C -> Exec (Interpreter C) (A * Interpreter C).
Definition m_ret {A} (a : A) : M A := fun s => Ret (a, s).
Definition m_bind {A B} (m : M A) (k : A -> M B) : M B :=
  fun s => let! (a, s) := m s in k a s.
Definition lift {A} (m : Exec (Interpreter C) A) : M A := fun s => let! a := m in Ret (a, s).
Definition return_false {A} : M A := fun s => Err s.

Local Notation "'let*' x := m 'in' k" := (m_bind m (fun x => k))
  (at level 10, x pattern, m at level 100, k at level 200).
Local Notation "m ;* k" := (m_bind m (fun _ => k))
  (at level 100, k at level 200, right associativity).

Definition get_vm : M (EbpfVm C) := fun s => Ret (s.(vm), s).
Definition set_vm (vm : EbpfVm C) : M unit := fun s => Ret (tt, mkInterp vm s.(reg)).
Definition get_reg (i : Z) : M Z := fun s => let! x := index_slice s.(reg) i in Ret (x, s).
Definition set_reg (i x : Z) : M unit :=
  fun s => let! reg := set_index s.(reg) i x in Ret (tt, mkInterp s.(vm) reg).

(* src/interpreter.rs:48-53, throw_error *)
Definition throw_error {A} (err : EbpfError) : M A :=
  let* vm := get_vm in
  let* pc := get_reg 11 in
  let* registers := lift (set_index vm.(registers) 11 pc) in
  set_vm (with_result (with_registers vm registers) (SErr err)) ;*
  return_false.

(* src/interpreter.rs:54-58, throw_error *)
Definition throw_divide_by_zero (is_zero : bool) : M unit :=
  if is_zero then throw_error DivideByZero else m_ret tt.

(* src/interpreter.rs:59-63, throw_error *)
Definition throw_divide_overflow (w dst src : Z) : M unit :=
  if (dst =? - 2 ^ (w - 1)) && (src =? -1) then throw_error DivideOverflow else m_ret tt.

(* src/interpreter.rs:66-74, check_pc *)
Definition check_pc (target_pc : Z) : M Z :=
  if is_pc_in_program program target_pc then m_ret target_pc
  else throw_error CallOutsideTextSegment.

(* src/interpreter.rs:24-46, translate_memory_access *)
Definition translate_load (n : nat) (vm_addr : Z) : M Z :=
  let* vm := get_vm in
  let* (result, mm, hm) := lift (load n vm.(host_memory) vm.(memory_mapping) vm_addr) in
  set_vm (with_memory vm mm hm) ;*
  match result with SOk value => m_ret value | SErr err => throw_error err end.

(* src/interpreter.rs:24-46, translate_memory_access *)
Definition translate_store (n : nat) (value vm_addr : Z) : M unit :=
  let* vm := get_vm in
  let* (result, mm, hm) :=
    lift (store n vm.(host_memory) vm.(memory_mapping) (uwrap (8 * Z.of_nat n) value) vm_addr) in
  set_vm (with_memory vm mm hm) ;*
  match result with SOk _ => m_ret tt | SErr err => throw_error err end.

(** [slice[start..start+n].copy_from_slice(from)] on lists of matching lengths. *)
Definition copy_into {A} (l : list A) (start : nat) (from : list A) : list A :=
  take start l ++ from ++ drop (start + length from) l.

(** * Calls *)

(* src/interpreter.rs:128-156, Interpreter::push_frame *)
Definition push_frame (config : Config) : M unit :=
  let* vm := get_vm in
  let* _ := lift (index_slice vm.(call_frames) vm.(call_depth)) in
  let* r6 := get_reg FIRST_SCRATCH_REG in
  let* r7 := get_reg (FIRST_SCRATCH_REG + 1) in
  let* r8 := get_reg (FIRST_SCRATCH_REG + 2) in
  let* r9 := get_reg (FIRST_SCRATCH_REG + 3) in
  let* frame_pointer := get_reg FRAME_PTR_REG in
  let* pc := get_reg 11 in
  let* target_pc := lift (u64_add pc 1) in
  let frame := mkFrame [r6; r7; r8; r9] frame_pointer target_pc in
  let vm := with_frames vm (<[Z.to_nat vm.(call_depth) := frame]> vm.(call_frames)) in
  let* call_depth := lift (u64_add vm.(call_depth) 1) in
  set_vm (with_call_depth vm call_depth) ;*
  if call_depth =? config.(max_call_depth) then throw_error CallDepthExceeded
  else if negb (manual_stack_frame_bump v) then
    let num_frames := if stack_frame_gaps v && config.(enable_stack_frame_gaps) then 2 else 1 in
    let* stack_frame_size := lift (u64_mul config.(stack_frame_size) num_frames) in
    set_reg FRAME_PTR_REG (as_u64 (frame_pointer + stack_frame_size))
  else m_ret tt.

(* src/interpreter.rs:158-168, Interpreter::sign_extension *)
Definition sign_extension (value : Z) : Z :=
  if explicit_sign_extension_of_results v then as_u64 (as_u32 value) else as_u64 value.

(* src/interpreter.rs:602-608, Interpreter::dispatch_syscall *)
Definition dispatch_syscall (function : BuiltinFunction) : M ProgramResult :=
  let* vm := get_vm in
  let* due := lift (u64_sub vm.(previous_instruction_meter) vm.(due_insn_count)) in
  let* r0 := get_reg 0 in
  let* r1 := get_reg 1 in
  let* r2 := get_reg 2 in
  let* r3 := get_reg 3 in
  let* r4 := get_reg 4 in
  let* r5 := get_reg 5 in
  let vm := with_registers (with_due vm due)
              (copy_into vm.(registers) 0 [r0; r1; r2; r3; r4; r5]) in
  let* vm := lift (invoke_function rust_of vm function) in
  set_vm (with_due vm 0) ;*
  m_ret vm.(program_result).

(** * Operands *)

(** [self.reg[dst] = f(self.reg[dst])] and variants. *)
Definition op1m (insn : Insn) (f : Z -> M Z) : M unit :=
  let* d := get_reg insn.(dst) in let* r := f d in set_reg insn.(dst) r.
Definition op1 (insn : Insn) (f : Z -> Z) : M unit := op1m insn (fun d => m_ret (f d)).
Definition op2m (insn : Insn) (f : Z -> Z -> M Z) : M unit :=
  let* d := get_reg insn.(dst) in let* s := get_reg insn.(src) in
  let* r := f d s in set_reg insn.(dst) r.
Definition op2 (insn : Insn) (f : Z -> Z -> Z) : M unit := op2m insn (fun d s => m_ret (f d s)).
Definition mov (insn : Insn) (f : Z -> Z) : M unit :=
  let* s := get_reg insn.(src) in set_reg insn.(dst) (f s).

(** [(self.reg[r] as i64).wrapping_add(insn.off as i64) as u64] *)
Definition address (insn : Insn) (base : Z) : Z := as_u64 (as_i64 (as_i64 base + insn.(off))).
Definition load_op (n : nat) (insn : Insn) : M unit :=
  let* base := get_reg insn.(src) in
  let* value := translate_load n (address insn base) in
  set_reg insn.(dst) value.
Definition store_imm (n : nat) (insn : Insn) : M unit :=
  let* base := get_reg insn.(dst) in
  translate_store n insn.(imm) (address insn base).
Definition store_reg (n : nat) (insn : Insn) : M unit :=
  let* base := get_reg insn.(dst) in
  let* value := get_reg insn.(src) in
  translate_store n value (address insn base).

(** [(next_pc as i64 + insn.off as i64) as u64] *)
Definition jump (next_pc : Z) (insn : Insn) : M Z :=
  let* target := lift (i64_add (as_i64 next_pc) insn.(off)) in m_ret (as_u64 target).
Definition branch1 (next_pc : Z) (insn : Insn) (cond : Z -> bool) : M Z :=
  let* d := get_reg insn.(dst) in if cond d then jump next_pc insn else m_ret next_pc.
Definition branch2 (next_pc : Z) (insn : Insn) (cond : Z -> Z -> bool) : M Z :=
  let* d := get_reg insn.(dst) in let* s := get_reg insn.(src) in
  if cond d s then jump next_pc insn else m_ret next_pc.

Definition i32_wrapping_add (a b : Z) : Z := as_i32 (a + b).
Definition i32_wrapping_sub (a b : Z) : Z := as_i32 (a - b).
Definition i32_wrapping_mul (a b : Z) : Z := as_i32 (a * b).

(** The byte swaps; the host is little-endian. *)
Definition to_le (width : Z) (d : Z) : M Z :=
  if width =? 16 then m_ret (as_u16 d)
  else if width =? 32 then m_ret (as_u32 d)
  else if width =? 64 then m_ret d
  else throw_error InvalidInstruction.
Definition to_be (width : Z) (d : Z) : M Z :=
  if width =? 16 then m_ret (swap_bytes 2 (as_u16 d))
  else if width =? 32 then m_ret (swap_bytes 4 (as_u32 d))
  else if width =? 64 then m_ret (swap_bytes 8 d)
  else throw_error InvalidInstruction.

(** * The arms of the step *)

Abbreviation arm A := (bool * (unit -> M A))%type.

(* src/interpreter.rs:195-200, Interpreter::step *)
Definition step_ld (insn : Insn) (next_pc : Z) : list (arm Z) :=
  let o := insn.(opc) in
  [ (o =? LD_DW_IMM) && negb (disable_lddw v) ==>>
      let* insn := lift (augment_lddw_unchecked program insn) in
      set_reg insn.(dst) (as_u64 insn.(imm)) ;*
      let* pc := get_reg 11 in
      let* pc := lift (u64_add pc 1) in
      set_reg 11 pc ;*
      lift (u64_add next_pc 1) ].

(* src/interpreter.rs:202-218, Interpreter::step *)
Definition step_ldx (insn : Insn) : list (arm unit) :=
  let o := insn.(opc) in
  [ (o =? LD_B_REG) && negb (move_memory_instruction_classes v) ==>> load_op 1 insn;
    (o =? LD_H_REG) && negb (move_memory_instruction_classes v) ==>> load_op 2 insn;
    (o =? LD_W_REG) && negb (move_memory_instruction_classes v) ==>> load_op 4 insn;
    (o =? LD_DW_REG) && negb (move_memory_instruction_classes v) ==>> load_op 8 insn ].

(* src/interpreter.rs:220-236, Interpreter::step *)
Definition step_st (insn : Insn) : list (arm unit) :=
  let o := insn.(opc) in
  [ (o =? ST_B_IMM) && negb (move_memory_instruction_classes v) ==>> store_imm 1 insn;
    (o =? ST_H_IMM) && negb (move_memory_instruction_classes v) ==>> store_imm 2 insn;
    (o =? ST_W_IMM) && negb (move_memory_instruction_classes v) ==>> store_imm 4 insn;
    (o =? ST_DW_IMM) && negb (move_memory_instruction_classes v) ==>> store_imm 8 insn ].

(* src/interpreter.rs:238-254, Interpreter::step *)
Definition step_stx (insn : Insn) : list (arm unit) :=
  let o := insn.(opc) in
  [ (o =? ST_B_REG) && negb (move_memory_instruction_classes v) ==>> store_reg 1 insn;
    (o =? ST_H_REG) && negb (move_memory_instruction_classes v) ==>> store_reg 2 insn;
    (o =? ST_W_REG) && negb (move_memory_instruction_classes v) ==>> store_reg 4 insn;
    (o =? ST_DW_REG) && negb (move_memory_instruction_classes v) ==>> store_reg 8 insn ].

(* src/interpreter.rs:256-331, Interpreter::step *)
Definition step_alu32 (insn : Insn) : list (arm unit) :=
  let o := insn.(opc) in
  let m := insn.(imm) in
  [ (o =? ADD32_IMM) ==>>
        op1 insn (fun d => sign_extension (i32_wrapping_add (as_i32 d) (as_i32 m)));
    (o =? ADD32_REG) ==>>
        op2 insn (fun d s => sign_extension (i32_wrapping_add (as_i32 d) (as_i32 s)));
    (o =? SUB32_IMM) ==>>
        if swap_sub_reg_imm_operands v
        then op1 insn (fun d => sign_extension (i32_wrapping_sub (as_i32 m) (as_i32 d)))
        else op1 insn (fun d => sign_extension (i32_wrapping_sub (as_i32 d) (as_i32 m)));
    (o =? SUB32_REG) ==>>
        op2 insn (fun d s => sign_extension (i32_wrapping_sub (as_i32 d) (as_i32 s)));
    (o =? MUL32_IMM) && negb (enable_pqr v) ==>>
        op1 insn (fun d => sign_extension (i32_wrapping_mul (as_i32 d) (as_i32 m)));
    (o =? MUL32_REG) && negb (enable_pqr v) ==>>
        op2 insn (fun d s => sign_extension (i32_wrapping_mul (as_i32 d) (as_i32 s)));
    (o =? LD_1B_REG) && move_memory_instruction_classes v ==>> load_op 1 insn;
    (o =? DIV32_IMM) && negb (enable_pqr v) ==>>
        op1m insn (fun d =>
          let* q := lift (unsigned_div (as_u32 d) (as_u32 m)) in m_ret (as_u64 q));
    (o =? DIV32_REG) && negb (enable_pqr v) ==>>
        op2m insn (fun d s =>
          throw_divide_by_zero (as_u32 s =? 0) ;*
          let* q := lift (unsigned_div (as_u32 d) (as_u32 s)) in m_ret (as_u64 q));
    (o =? LD_2B_REG) && move_memory_instruction_classes v ==>> load_op 2 insn;
    (o =? OR32_IMM) ==>> op1 insn (fun d => as_u64 (Z.lor (as_u32 d) (as_u32 m)));
    (o =? OR32_REG) ==>> op2 insn (fun d s => as_u64 (Z.lor (as_u32 d) (as_u32 s)));
    (o =? AND32_IMM) ==>> op1 insn (fun d => as_u64 (Z.land (as_u32 d) (as_u32 m)));
    (o =? AND32_REG) ==>> op2 insn (fun d s => as_u64 (Z.land (as_u32 d) (as_u32 s)));
    (o =? LSH32_IMM) ==>> op1 insn (fun d => as_u64 (u_wrapping_shl 32 (as_u32 d) (as_u32 m)));
    (o =? LSH32_REG) ==>> op2 insn (fun d s => as_u64 (u_wrapping_shl 32 (as_u32 d) (as_u32 s)));
    (o =? RSH32_IMM) ==>> op1 insn (fun d => as_u64 (wrapping_shr 32 (as_u32 d) (as_u32 m)));
    (o =? RSH32_REG) ==>> op2 insn (fun d s => as_u64 (wrapping_shr 32 (as_u32 d) (as_u32 s)));
    (o =? NEG32) && negb (disable_neg v) ==>>
        op1 insn (fun d => Z.land (as_u64 (as_i32 (- as_i32 d))) (2 ^ 32 - 1));
    (o =? LD_4B_REG) && move_memory_instruction_classes v ==>> load_op 4 insn;
    (o =? MOD32_IMM) && negb (enable_pqr v) ==>>
        op1m insn (fun d =>
          let* q := lift (unsigned_rem (as_u32 d) (as_u32 m)) in m_ret (as_u64 q));
    (o =? MOD32_REG) && negb (enable_pqr v) ==>>
        op2m insn (fun d s =>
          throw_divide_by_zero (as_u32 s =? 0) ;*
          let* q := lift (unsigned_rem (as_u32 d) (as_u32 s)) in m_ret (as_u64 q));
    (o =? LD_8B_REG) && move_memory_instruction_classes v ==>> load_op 8 insn;
    (o =? XOR32_IMM) ==>> op1 insn (fun d => as_u64 (Z.lxor (as_u32 d) (as_u32 m)));
    (o =? XOR32_REG) ==>> op2 insn (fun d s => as_u64 (Z.lxor (as_u32 d) (as_u32 s)));
    (o =? MOV32_IMM) ==>> set_reg insn.(dst) (as_u64 (as_u32 m));
    (o =? MOV32_REG) ==>>
        mov insn (fun s => if explicit_sign_extension_of_results v then as_u64 (as_i64 (as_i32 s)) else as_u64 (as_u32 s));
    (o =? ARSH32_IMM) ==>>
        op1 insn (fun d => as_u64 (as_u32 (wrapping_shr 32 (as_i32 d) (as_u32 m))));
    (o =? ARSH32_REG) ==>>
        op2 insn (fun d s => as_u64 (as_u32 (wrapping_shr 32 (as_i32 d) (as_u32 s))));
    (o =? LE) && negb (disable_le v) ==>> op1m insn (to_le m);
    (o =? BE) ==>> op1m insn (to_be m) ].

(* src/interpreter.rs:333-403, Interpreter::step *)
Definition step_alu64 (insn : Insn) : list (arm unit) :=
  let o := insn.(opc) in
  let m := insn.(imm) in
  [ (o =? ADD64_IMM) ==>> op1 insn (fun d => as_u64 (d + as_u64 m));
    (o =? ADD64_REG) ==>> op2 insn (fun d s => as_u64 (d + s));
    (o =? SUB64_IMM) ==>>
        if swap_sub_reg_imm_operands v
        then op1 insn (fun d => as_u64 (as_u64 m - d))
        else op1 insn (fun d => as_u64 (d - as_u64 m));
    (o =? SUB64_REG) ==>> op2 insn (fun d s => as_u64 (d - s));
    (o =? MUL64_IMM) && negb (enable_pqr v) ==>> op1 insn (fun d => as_u64 (d * as_u64 m));
    (o =? ST_1B_IMM) && move_memory_instruction_classes v ==>> store_imm 1 insn;
    (o =? MUL64_REG) && negb (enable_pqr v) ==>> op2 insn (fun d s => as_u64 (d * s));
    (o =? ST_1B_REG) && move_memory_instruction_classes v ==>> store_reg 1 insn;
    (o =? DIV64_IMM) && negb (enable_pqr v) ==>>
        op1m insn (fun d => lift (unsigned_div d (as_u64 m)));
    (o =? ST_2B_IMM) && move_memory_instruction_classes v ==>> store_imm 2 insn;
    (o =? DIV64_REG) && negb (enable_pqr v) ==>>
        op2m insn (fun d s =>
          throw_divide_by_zero (s =? 0) ;* lift (unsigned_div d s));
    (o =? ST_2B_REG) && move_memory_instruction_classes v ==>> store_reg 2 insn;
    (o =? OR64_IMM) ==>> op1 insn (fun d => Z.lor d (as_u64 m));
    (o =? OR64_REG) ==>> op2 insn (fun d s => Z.lor d s);
    (o =? AND64_IMM) ==>> op1 insn (fun d => Z.land d (as_u64 m));
    (o =? AND64_REG) ==>> op2 insn (fun d s => Z.land d s);
    (o =? LSH64_IMM) ==>> op1 insn (fun d => u_wrapping_shl 64 d (as_u32 m));
    (o =? LSH64_REG) ==>> op2 insn (fun d s => u_wrapping_shl 64 d (as_u32 s));
    (o =? RSH64_IMM) ==>> op1 insn (fun d => wrapping_shr 64 d (as_u32 m));
    (o =? RSH64_REG) ==>> op2 insn (fun d s => wrapping_shr 64 d (as_u32 s));
    (o =? ST_4B_IMM) && move_memory_instruction_classes v ==>> store_imm 4 insn;
    (o =? NEG64) && negb (disable_neg v) ==>> op1 insn (fun d => as_u64 (as_i64 (- as_i64 d)));
    (o =? ST_4B_REG) && move_memory_instruction_classes v ==>> store_reg 4 insn;
    (o =? MOD64_IMM) && negb (enable_pqr v) ==>>
        op1m insn (fun d => lift (unsigned_rem d (as_u64 m)));
    (o =? ST_8B_IMM) && move_memory_instruction_classes v ==>> store_imm 8 insn;
    (o =? MOD64_REG) && negb (enable_pqr v) ==>>
        op2m insn (fun d s =>
          throw_divide_by_zero (s =? 0) ;* lift (unsigned_rem d s));
    (o =? ST_8B_REG) && move_memory_instruction_classes v ==>> store_reg 8 insn;
    (o =? XOR64_IMM) ==>> op1 insn (fun d => Z.lxor d (as_u64 m));
    (o =? XOR64_REG) ==>> op2 insn (fun d s => Z.lxor d s);
    (o =? MOV64_IMM) ==>> set_reg insn.(dst) (as_u64 m);
    (o =? MOV64_REG) ==>> mov insn (fun s => s);
    (o =? ARSH64_IMM) ==>> op1 insn (fun d => as_u64 (wrapping_shr 64 (as_i64 d) (as_u32 m)));
    (o =? ARSH64_REG) ==>> op2 insn (fun d s => as_u64 (wrapping_shr 64 (as_i64 d) (as_u32 s)));
    (o =? HOR64_IMM) && disable_lddw v ==>>
        op1 insn (fun d => Z.lor d (u_wrapping_shl 64 (as_u64 m) 32)) ].

(* src/interpreter.rs:405-477, Interpreter::step *)
Definition step_pqr (insn : Insn) : list (arm unit) :=
  let o := insn.(opc) in
  let m := insn.(imm) in
  [ (o =? LMUL32_IMM) && enable_pqr v ==>>
        op1 insn (fun d => as_u64 (as_u32 (as_u32 d * as_u32 m)));
    (o =? LMUL32_REG) && enable_pqr v ==>>
        op2 insn (fun d s => as_u64 (as_u32 (as_u32 d * as_u32 s)));
    (o =? LMUL64_IMM) && enable_pqr v ==>> op1 insn (fun d => as_u64 (d * as_u64 m));
    (o =? LMUL64_REG) && enable_pqr v ==>> op2 insn (fun d s => as_u64 (d * s));
    (o =? UHMUL64_IMM) && enable_pqr v ==>>
        op1 insn (fun d => as_u64 (wrapping_shr 128 (as_u128 (as_u128 d * as_u128 (as_u32 m))) 64));
    (o =? UHMUL64_REG) && enable_pqr v ==>>
        op2 insn (fun d s => as_u64 (wrapping_shr 128 (as_u128 (as_u128 d * as_u128 s)) 64));
    (o =? SHMUL64_IMM) && enable_pqr v ==>>
        op1 insn (fun d => as_u64 (wrapping_shr 128 (as_i128 (as_i128 (as_i64 d) * as_i128 m)) 64));
    (o =? SHMUL64_REG) && enable_pqr v ==>>
        op2 insn (fun d s => as_u64 (wrapping_shr 128 (as_i128 (as_i128 (as_i64 d) * as_i128 (as_i64 s))) 64));
    (o =? UDIV32_IMM) && enable_pqr v ==>>
        op1m insn (fun d =>
          let* q := lift (unsigned_div (as_u32 d) (as_u32 m)) in m_ret (as_u64 q));
    (o =? UDIV32_REG) && enable_pqr v ==>>
        op2m insn (fun d s =>
          throw_divide_by_zero (as_u32 s =? 0) ;*
          let* q := lift (unsigned_div (as_u32 d) (as_u32 s)) in m_ret (as_u64 q));
    (o =? UDIV64_IMM) && enable_pqr v ==>>
        op1m insn (fun d => lift (unsigned_div d (as_u64 (as_u32 m))));
    (o =? UDIV64_REG) && enable_pqr v ==>>
        op2m insn (fun d s =>
          throw_divide_by_zero (s =? 0) ;* lift (unsigned_div d s));
    (o =? UREM32_IMM) && enable_pqr v ==>>
        op1m insn (fun d =>
          let* q := lift (unsigned_rem (as_u32 d) (as_u32 m)) in m_ret (as_u64 q));
    (o =? UREM32_REG) && enable_pqr v ==>>
        op2m insn (fun d s =>
          throw_divide_by_zero (as_u32 s =? 0) ;*
          let* q := lift (unsigned_rem (as_u32 d) (as_u32 s)) in m_ret (as_u64 q));
    (o =? UREM64_IMM) && enable_pqr v ==>>
        op1m insn (fun d => lift (unsigned_rem d (as_u64 (as_u32 m))));
    (o =? UREM64_REG) && enable_pqr v ==>>
        op2m insn (fun d s =>
          throw_divide_by_zero (s =? 0) ;* lift (unsigned_rem d s));
    (o =? SDIV32_IMM) && enable_pqr v ==>>
        op1m insn (fun d => throw_divide_overflow 32 (as_i32 d) (as_i32 m) ;*
          let* q := lift (signed_div 32 (as_i32 d) (as_i32 m)) in m_ret (as_u64 (as_u32 q)));
    (o =? SDIV32_REG) && enable_pqr v ==>>
        op2m insn (fun d s =>
          throw_divide_by_zero (as_i32 s =? 0) ;*
          throw_divide_overflow 32 (as_i32 d) (as_i32 s) ;*
          let* q := lift (signed_div 32 (as_i32 d) (as_i32 s)) in m_ret (as_u64 (as_u32 q)));
    (o =? SDIV64_IMM) && enable_pqr v ==>>
        op1m insn (fun d => throw_divide_overflow 64 (as_i64 d) (as_i64 m) ;*
          let* q := lift (signed_div 64 (as_i64 d) m) in m_ret (as_u64 q));
    (o =? SDIV64_REG) && enable_pqr v ==>>
        op2m insn (fun d s =>
          throw_divide_by_zero (as_i64 s =? 0) ;*
          throw_divide_overflow 64 (as_i64 d) (as_i64 s) ;*
          let* q := lift (signed_div 64 (as_i64 d) (as_i64 s)) in m_ret (as_u64 q));
    (o =? SREM32_IMM) && enable_pqr v ==>>
        op1m insn (fun d => throw_divide_overflow 32 (as_i32 d) (as_i32 m) ;*
          let* q := lift (signed_rem 32 (as_i32 d) (as_i32 m)) in m_ret (as_u64 (as_u32 q)));
    (o =? SREM32_REG) && enable_pqr v ==>>
        op2m insn (fun d s =>
          throw_divide_by_zero (as_i32 s =? 0) ;*
          throw_divide_overflow 32 (as_i32 d) (as_i32 s) ;*
          let* q := lift (signed_rem 32 (as_i32 d) (as_i32 s)) in m_ret (as_u64 (as_u32 q)));
    (o =? SREM64_IMM) && enable_pqr v ==>>
        op1m insn (fun d => throw_divide_overflow 64 (as_i64 d) (as_i64 m) ;*
          let* q := lift (signed_rem 64 (as_i64 d) m) in m_ret (as_u64 q));
    (o =? SREM64_REG) && enable_pqr v ==>>
        op2m insn (fun d s =>
          throw_divide_by_zero (as_i64 s =? 0) ;*
          throw_divide_overflow 64 (as_i64 d) (as_i64 s) ;*
          let* q := lift (signed_rem 64 (as_i64 d) (as_i64 s)) in m_ret (as_u64 q)) ].

(* src/interpreter.rs:479-501, Interpreter::step *)
Definition step_jmp32 (insn : Insn) (next_pc : Z) : list (arm Z) :=
  let o := insn.(opc) in
  [ (o =? JEQ32_IMM) && enable_jmp32 v ==>>
        branch1 next_pc insn (fun d => as_u32 d =? as_u32 insn.(imm));
    (o =? JEQ32_REG) && enable_jmp32 v ==>>
        branch2 next_pc insn (fun d s => as_u32 d =? as_u32 s);
    (o =? JGT32_IMM) && enable_jmp32 v ==>>
        branch1 next_pc insn (fun d => as_u32 insn.(imm) <? as_u32 d);
    (o =? JGT32_REG) && enable_jmp32 v ==>>
        branch2 next_pc insn (fun d s => as_u32 s <? as_u32 d);
    (o =? JGE32_IMM) && enable_jmp32 v ==>>
        branch1 next_pc insn (fun d => as_u32 insn.(imm) <=? as_u32 d);
    (o =? JGE32_REG) && enable_jmp32 v ==>>
        branch2 next_pc insn (fun d s => as_u32 s <=? as_u32 d);
    (o =? JLT32_IMM) && enable_jmp32 v ==>>
        branch1 next_pc insn (fun d => as_u32 d <? as_u32 insn.(imm));
    (o =? JLT32_REG) && enable_jmp32 v ==>>
        branch2 next_pc insn (fun d s => as_u32 d <? as_u32 s);
    (o =? JLE32_IMM) && enable_jmp32 v ==>>
        branch1 next_pc insn (fun d => as_u32 d <=? as_u32 insn.(imm));
    (o =? JLE32_REG) && enable_jmp32 v ==>>
        branch2 next_pc insn (fun d s => as_u32 d <=? as_u32 s);
    (o =? JSET32_IMM) && enable_jmp32 v ==>>
        branch1 next_pc insn (fun d => negb (Z.land (as_u32 d) (as_u32 insn.(imm)) =? 0));
    (o =? JSET32_REG) && enable_jmp32 v ==>>
        branch2 next_pc insn (fun d s => negb (Z.land (as_u32 d) (as_u32 s) =? 0));
    (o =? JNE32_IMM) && enable_jmp32 v ==>>
        branch1 next_pc insn (fun d => negb (as_u32 d =? as_u32 insn.(imm)));
    (o =? JNE32_REG) && enable_jmp32 v ==>>
        branch2 next_pc insn (fun d s => negb (as_u32 d =? as_u32 s));
    (o =? JSGT32_IMM) && enable_jmp32 v ==>>
        branch1 next_pc insn (fun d => as_i32 insn.(imm) <? as_i32 d);
    (o =? JSGT32_REG) && enable_jmp32 v ==>>
        branch2 next_pc insn (fun d s => as_i32 s <? as_i32 d);
    (o =? JSGE32_IMM) && enable_jmp32 v ==>>
        branch1 next_pc insn (fun d => as_i32 insn.(imm) <=? as_i32 d);
    (o =? JSGE32_REG) && enable_jmp32 v ==>>
        branch2 next_pc insn (fun d s => as_i32 s <=? as_i32 d);
    (o =? JSLT32_IMM) && enable_jmp32 v ==>>
        branch1 next_pc insn (fun d => as_i32 d <? as_i32 insn.(imm));
    (o =? JSLT32_REG) && enable_jmp32 v ==>>
        branch2 next_pc insn (fun d s => as_i32 d <? as_i32 s);
    (o =? JSLE32_IMM) && enable_jmp32 v ==>>
        branch1 next_pc insn (fun d => as_i32 d <=? as_i32 insn.(imm));
    (o =? JSLE32_REG) && enable_jmp32 v ==>>
        branch2 next_pc insn (fun d s => as_i32 d <=? as_i32 s) ].

(* src/interpreter.rs:503-526, Interpreter::step *)
Definition step_jmp64 (insn : Insn) (next_pc : Z) : list (arm Z) :=
  let o := insn.(opc) in
  [ (o =? JA) ==>> jump next_pc insn;
    (o =? JEQ64_IMM) ==>> branch1 next_pc insn (fun d => d =? as_u64 insn.(imm));
    (o =? JEQ64_REG) ==>> branch2 next_pc insn (fun d s => d =? s);
    (o =? JGT64_IMM) ==>> branch1 next_pc insn (fun d => as_u64 insn.(imm) <? d);
    (o =? JGT64_REG) ==>> branch2 next_pc insn (fun d s => s <? d);
    (o =? JGE64_IMM) ==>> branch1 next_pc insn (fun d => as_u64 insn.(imm) <=? d);
    (o =? JGE64_REG) ==>> branch2 next_pc insn (fun d s => s <=? d);
    (o =? JLT64_IMM) ==>> branch1 next_pc insn (fun d => d <? as_u64 insn.(imm));
    (o =? JLT64_REG) ==>> branch2 next_pc insn (fun d s => d <? s);
    (o =? JLE64_IMM) ==>> branch1 next_pc insn (fun d => d <=? as_u64 insn.(imm));
    (o =? JLE64_REG) ==>> branch2 next_pc insn (fun d s => d <=? s);
    (o =? JSET64_IMM) ==>>
        branch1 next_pc insn (fun d => negb (Z.land (d) (as_u64 insn.(imm)) =? 0));
    (o =? JSET64_REG) ==>> branch2 next_pc insn (fun d s => negb (Z.land (d) (s) =? 0));
    (o =? JNE64_IMM) ==>> branch1 next_pc insn (fun d => negb (d =? as_u64 insn.(imm)));
    (o =? JNE64_REG) ==>> branch2 next_pc insn (fun d s => negb (d =? s));
    (o =? JSGT64_IMM) ==>> branch1 next_pc insn (fun d => insn.(imm) <? as_i64 d);
    (o =? JSGT64_REG) ==>> branch2 next_pc insn (fun d s => as_i64 s <? as_i64 d);
    (o =? JSGE64_IMM) ==>> branch1 next_pc insn (fun d => insn.(imm) <=? as_i64 d);
    (o =? JSGE64_REG) ==>> branch2 next_pc insn (fun d s => as_i64 s <=? as_i64 d);
    (o =? JSLT64_IMM) ==>> branch1 next_pc insn (fun d => as_i64 d <? insn.(imm));
    (o =? JSLT64_REG) ==>> branch2 next_pc insn (fun d s => as_i64 d <? as_i64 s);
    (o =? JSLE64_IMM) ==>> branch1 next_pc insn (fun d => as_i64 d <=? insn.(imm));
    (o =? JSLE64_REG) ==>> branch2 next_pc insn (fun d s => as_i64 d <=? as_i64 s) ].

(* src/interpreter.rs:528-540, Interpreter::step *)
Definition step_call_reg (config : Config) (insn : Insn) : M Z :=
  let* target_pc :=
    if callx_uses_src_reg v then get_reg insn.(src)
    else if callx_uses_dst_reg v then get_reg insn.(dst)
    else get_reg (as_u64 insn.(imm)) in
  push_frame config ;*
  check_pc (as_u64 (target_pc - program_vm_addr) / INSN_SIZE).

(* src/interpreter.rs:542-577, Interpreter::step *)
Definition step_call_imm (config : Config) (insn : Insn) (next_pc : Z) : M Z :=
  let* resolved :=
    if negb (static_syscalls v) || (insn.(src) =? 0) then
      match lookup_by_key (get_function_registry executable.(loader)) (as_u32 insn.(imm)) with
      | Some (_, function) =>
          let* result := dispatch_syscall function in
          match result with
          | SOk value => set_reg 0 value ;* m_ret true
          | SErr _ => return_false
          end
      | None => m_ret false
      end
    else m_ret false in
  let* (next_pc, resolved) :=
    if static_syscalls v then
      let target_pc := i64_saturating_add (as_i64 next_pc) insn.(imm) in
      if is_pc_in_program program (as_u64 target_pc) && (insn.(src) =? 1) then
        push_frame config ;* m_ret (as_u64 target_pc, true)
      else m_ret (next_pc, resolved)
    else
      match lookup_by_key executable.(function_registry) (as_u32 insn.(imm)) with
      | Some (_, target_pc) =>
          push_frame config ;*
          let* next_pc := check_pc target_pc in
          m_ret (next_pc, true)
      | None => m_ret (next_pc, resolved)
      end in
  if negb resolved then throw_error UnsupportedInstruction else m_ret next_pc.

(* src/interpreter.rs:578-594, Interpreter::step *)
Definition step_exit (config : Config) : M Z :=
  let* vm := get_vm in
  if vm.(call_depth) =? 0 then
    if config.(enable_instruction_meter)
       && (vm.(previous_instruction_meter) <? vm.(due_insn_count))
    then throw_error ExceededMaxInstructions
    else
      let* r0 := get_reg 0 in
      set_vm (with_result vm (SOk r0)) ;*
      return_false
  else
    let* call_depth := lift (u64_sub vm.(call_depth) 1) in
    set_vm (with_call_depth vm call_depth) ;*
    let* frame := lift (index_slice vm.(call_frames) call_depth) in
    set_reg FRAME_PTR_REG frame.(frame_pointer) ;*
    (fun s => Ret (tt, mkInterp s.(Interpreter.vm)
       (copy_into s.(reg) (Z.to_nat FIRST_SCRATCH_REG) frame.(caller_saved_registers)))) ;*
    check_pc frame.(target_pc).

(** An arm that leaves the next instruction to be the following one. *)
Definition fall_through (next_pc : Z) (a : arm unit) : arm Z :=
  (a.1, fun u => a.2 u ;* m_ret next_pc).

(* src/interpreter.rs:194-596, Interpreter::step *)
Definition step_arms (config : Config) (insn : Insn) (next_pc : Z) : list (arm Z) :=
  let o := insn.(opc) in
  step_ld insn next_pc ++
  (fall_through next_pc <$>
    step_ldx insn ++ step_st insn ++ step_stx insn ++ step_alu32 insn ++ step_alu64 insn
    ++ step_pqr insn) ++
  step_jmp32 insn next_pc ++ step_jmp64 insn next_pc ++
  [ (o =? CALL_REG) ==>> step_call_reg config insn;
    (o =? CALL_IMM) ==>> step_call_imm config insn next_pc;
    (o =? EXIT) ==>> step_exit config ].

Definition step_insn (config : Config) (insn : Insn) (next_pc : Z) : M Z :=
  match first_arm (step_arms config insn next_pc) with
  | Some body => body tt
  | None => throw_error UnsupportedInstruction
  end.

(* src/interpreter.rs:170-600, Interpreter::step *)
Definition step_body : M unit :=
  let* config := lift (executable_config executable) in
  let* vm := get_vm in
  (if config.(enable_instruction_meter)
      && (vm.(previous_instruction_meter) <=? vm.(due_insn_count))
   then throw_error ExceededMaxInstructions else m_ret tt) ;*
  let* due := lift (u64_add vm.(due_insn_count) 1) in
  set_vm (with_due vm due) ;*
  let* pc := get_reg 11 in
  let* pc_bytes := lift (u64_mul pc INSN_SIZE) in
  (if zlen program <=? pc_bytes then throw_error ExecutionOverrun else m_ret tt) ;*
  let* next_pc := lift (u64_add pc 1) in
  let* insn := lift (get_insn_unchecked program pc) in
  (if config.(enable_register_tracing) then
     (fun s => Ret (tt, mkInterp (with_trace s.(Interpreter.vm)
                (s.(Interpreter.vm).(register_trace) ++ [s.(reg)])) s.(reg)))
   else m_ret tt) ;*
  let* next_pc := step_insn config insn next_pc in
  set_reg 11 next_pc.

(** The result of a step: [true] with the next state, or [false] with the final one. *)
Definition step (s : Interpreter C) : Exec (Interpreter C) (Interpreter C) :=
  let! (_, s) := step_body s in Ret s.

(** [while interpreter.step() {}], for at most [fuel] steps. *)
(* src/vm.rs:382-384, run_interpreter *)
Fixpoint run_interpreter (fuel : nat) (s : Interpreter C) : Exec (Interpreter C) (Interpreter C) :=
  match fuel with
  | O => Panic OutOfFuel
  | S fuel =>
      match step s with
      | Ret s => run_interpreter fuel s
      | Err s => Ret s
      | Panic f => Panic f
      end
  end.
End Interpreter.

(* src/interpreter.rs:102-120, Interpreter::new *)
Definition interpreter_new {C} (vm : EbpfVm C) (registers : list Z) : Interpreter C :=
  mkInterp vm registers.

(** The interpreted half of [execute_program]; the compiled half runs machine
    code.  It returns the instruction count, the result and the machine. *)
(* src/vm.rs:352-413, EbpfVm::execute_program *)
Definition execute_program `{Bo : LittleEndian} `{Ctx : ContextObject C}
    (rust_of : BuiltinFunction -> RustFunction C) (fuel : nat) (executable : Executable)
    (self : EbpfVm C) : Exec (Interpreter C) (Z * ProgramResult * EbpfVm C) :=
  let! registers := set_index self.(registers) 11 (get_entrypoint_instruction_offset executable) in
  let self := with_registers self registers in
  let! config := executable_config executable in
  let initial_insn_count := get_remaining self.(context_object) in
  let self := with_meter self initial_insn_count in
  let self := with_due self 0 in
  let self := with_result self (SOk 0) in
  let! (program_vm_addr, program) := get_text_bytes executable in
  let! interpreter := run_interpreter rust_of executable program program_vm_addr fuel
                        (interpreter_new self self.(Vm.registers)) in
  let self := interpreter.(vm) in
  let (instruction_count, self) :=
    if config.(enable_instruction_meter) then
      let self := with_context self (consume self.(context_object) self.(due_insn_count)) in
      (u64_saturating_sub initial_insn_count (get_remaining self.(context_object)), self)
    else (0, self) in
  Ret (instruction_count, self.(program_result), with_result self (SOk 0)).
