(* ===== verification/InterpreterSafety.v ===== *)
(** Safety of interpreting verified programs: no step faults, every step keeps the
    machine well-typed, and the instruction meter bounds the run. *)
From S2P Require Import Prelude.
From S2P Require Import Error.
From S2P Require Import Ebpf.
From S2P Require Import Program.
From S2P Require Import Verifier.
From S2P Require Import MemoryRegion.
From S2P Require Import MemoryMapping.
From S2P Require Import MappingSearch.
From S2P Require Import MappingAccess.
From S2P Require Import Executable.
From S2P Require Import Vm.
From S2P Require Import Interpreter.
Open Scope rust_scope.

(** * Well-typed machines *)

Definition regs_ok (regs : list Z) : Prop := length regs = 12%nat /\ Forall (in_u 64) regs.

Definition frame_ok (f : CallFrame) : Prop :=
  length f.(caller_saved_registers) = Z.to_nat SCRATCH_REGS /\
  Forall (in_u 64) f.(caller_saved_registers) /\ in_u 64 f.(frame_pointer) /\ in_u 64 f.(target_pc).

(** The configuration makes sense to the interpreter. *)
Record config_ok (config : Config) : Prop := {
  co_depth : 1 <= config.(max_call_depth) < 2 ^ 63;
  co_frame : 0 <= config.(stack_frame_size) < 2 ^ 63;
  co_meter : config.(enable_instruction_meter) = true;
}.

(** What the VM relies on from a built-in function: it leaves the memory mapping
    consistent, returns a [u64], and does not refill the meter. *)
Class RustOk `{ContextObject C} (rust : RustFunction C) : Prop :=
  rust_ok E c a1 a2 a3 a4 a5 mm hm :
    mem_inv hm mm -> Forall (in_u 64) [a1; a2; a3; a4; a5] ->
    exists r c' mm' hm', rust E c a1 a2 a3 a4 a5 mm hm = Ret (r, c', mm', hm') /\
      mem_inv hm' mm' /\ get_remaining c' <= get_remaining c /\
      match r with Ok value => in_u 64 value | Error _ => True end.

(** The machine, with at most [B] instructions left on the meter. *)
Record vm_ok `{ContextObject C} (config : Config) (B : Z) (vm : EbpfVm C) : Prop := {
  vo_registers : regs_ok vm.(registers);
  vo_frames : zlen vm.(call_frames) = config.(max_call_depth);
  vo_frames_ok : Forall frame_ok vm.(call_frames);
  vo_depth : 0 <= vm.(call_depth) <= config.(max_call_depth);
  vo_memory : mem_inv vm.(host_memory) vm.(memory_mapping);
  vo_loader : Program.config vm.(vm_loader) = Some config;
  vo_due : 0 <= vm.(due_insn_count) <= vm.(previous_instruction_meter);
  vo_meter : vm.(previous_instruction_meter) = get_remaining vm.(context_object);
  vo_bound : vm.(previous_instruction_meter) - vm.(due_insn_count) <= B;
}.

Record inv `{ContextObject C} (config : Config) (B : Z) (s : Interpreter C) : Prop := {
  inv_vm : vm_ok config B s.(vm);
  inv_regs : regs_ok s.(reg);
  inv_depth : s.(vm).(call_depth) < config.(max_call_depth);
}.

(** After the last step. *)
Definition final `{ContextObject C} (config : Config) (B : Z) (s : Interpreter C) : Prop :=
  vm_ok config B s.(vm) /\
  match s.(vm).(program_result) with SOk value => in_u 64 value | SErr _ => True end.

Ltac forall_list := repeat (apply Forall_cons_2; [done|]); apply Forall_nil_2.

(** * Reasoning about parts of a step *)

Section Wp.
Context `{Ctx : ContextObject C}.

Definition wp {A} (m : M (C := C) A) (Q : A -> Interpreter C -> Prop) (F : Interpreter C -> Prop)
    (s : Interpreter C) : Prop :=
  match m s with Ret (a, s') => Q a s' | Err s' => F s' | Panic _ => False end.

Lemma wp_bind {A B} (m : M A) (k : A -> M B) Q F s :
  wp m (fun a s' => wp (k a) Q F s') F s -> wp (m_bind m k) Q F s.
Proof. unfold wp, m_bind. destruct (m s) as [[a s']| |]; done. Qed.

Lemma wp_ret {A} (a : A) (Q : A -> Interpreter C -> Prop) F s : Q a s -> wp (m_ret a) Q F s.
Proof. done. Qed.

Lemma wp_mono {A} (m : M A) (Q Q' : A -> Interpreter C -> Prop) F s :
  wp m Q F s -> (forall a s', Q a s' -> Q' a s') -> wp m Q' F s.
Proof. unfold wp. intros Hm HQ. destruct (m s) as [[a s']| |]; auto. Qed.

Lemma wp_mono_final {A} (m : M A) (Q : A -> Interpreter C -> Prop) (F F' : Interpreter C -> Prop) s :
  wp m Q F s -> (forall s', F s' -> F' s') -> wp m Q F' s.
Proof. unfold wp. intros Hm HF. destruct (m s) as [[a s']| |]; auto. Qed.

Lemma wp_lift {A} (m : Exec (Interpreter C) A) (a : A) (Q : A -> Interpreter C -> Prop) F s :
  m = Ret a -> Q a s -> wp (lift m) Q F s.
Proof. intros ->. done. Qed.

Lemma wp_get_vm Q (F : Interpreter C -> Prop) s : Q s.(vm) s -> wp get_vm Q F s.
Proof. done. Qed.

Lemma wp_set_vm vm' Q (F : Interpreter C -> Prop) s :
  Q tt (mkInterp vm' s.(reg)) -> wp (set_vm vm') Q F s.
Proof. done. Qed.

Lemma regs_index {E} (regs : list Z) (i : Z) :
  regs_ok regs -> 0 <= i < 12 -> exists x, index_slice (E := E) regs i = Ret x /\ in_u 64 x.
Proof.
  intros [Hl HF] Hi. destruct (@index_slice_Ret E _ regs i) as (x & Hx & He).
  - unfold zlen. rewrite Hl. lia.
  - exists x. split; [done|]. by apply (Forall_lookup_1 _ _ _ _ HF Hx).
Qed.

Lemma regs_set {E} (regs : list Z) (i x : Z) :
  regs_ok regs -> 0 <= i < 12 -> in_u 64 x ->
  set_index (E := E) regs i x = Ret (<[Z.to_nat i := x]> regs) /\ regs_ok (<[Z.to_nat i := x]> regs).
Proof.
  intros Hr Hi Hx. unfold set_index. destruct (regs_index (E := E) regs i Hr Hi) as (y & -> & _).
  split; [done|]. destruct Hr as [Hl HF]. split; [by rewrite length_insert|by apply Forall_insert].
Qed.

Context (config : Config).

Lemma wp_get_reg B (i : Z) Q (F : Interpreter C -> Prop) s :
  inv config B s -> 0 <= i < 12 -> (forall x, in_u 64 x -> Q x s) -> wp (get_reg i) Q F s.
Proof.
  intros Hi Hr HQ. unfold wp, get_reg.
  destruct (regs_index (E := Interpreter C) s.(reg) i (inv_regs _ _ _ Hi) Hr) as (x & -> & Hx).
  by apply HQ.
Qed.

Lemma wp_set_reg B (i x : Z) Q (F : Interpreter C -> Prop) s :
  inv config B s -> 0 <= i < 12 -> in_u 64 x ->
  (inv config B (mkInterp s.(vm) (<[Z.to_nat i := x]> s.(reg))) ->
   Q tt (mkInterp s.(vm) (<[Z.to_nat i := x]> s.(reg)))) ->
  wp (set_reg i x) Q F s.
Proof.
  intros Hi Hr Hx HQ. unfold wp, set_reg.
  destruct (regs_set (E := Interpreter C) s.(reg) i x (inv_regs _ _ _ Hi) Hr Hx) as [-> Hr'].
  apply HQ. destruct Hi as [Hvm _ Hd]. by split.
Qed.

(** A thrown error ends the run in a well-typed machine. *)
Lemma wp_throw_error {A} B (err : EbpfError) (Q : A -> Interpreter C -> Prop) s :
  vm_ok config B s.(vm) -> regs_ok s.(reg) -> wp (throw_error err) Q (final config B) s.
Proof.
  intros [Hr Hf Hff Hd Hm Hl Hdue Hmeter Hb] Hreg. unfold wp, throw_error, m_bind, get_vm, get_reg, lift.
  cbn [exec_bind].
  destruct (regs_index (E := Interpreter C) s.(reg) 11 Hreg ltac:(lia)) as (x & -> & Hx). cbn [exec_bind].
  destruct (regs_set (E := Interpreter C) (registers (vm s)) 11 x Hr ltac:(lia) Hx) as [-> Hr'].
  cbn. split; [|done]. split; done.
Qed.

Lemma wp_throw {A} B (err : EbpfError) (Q : A -> Interpreter C -> Prop) s :
  inv config B s -> wp (throw_error err) Q (final config B) s.
Proof. intros [Hvm Hr _]. by apply wp_throw_error. Qed.

Lemma wp_check_pc B (program : list Z) (target : Z) Q s :
  inv config B s -> 0 <= target -> slice_len_ok program ->
  (INSN_SIZE * (target + 1) <= zlen program -> Q target s) ->
  wp (check_pc program target) Q (final config B) s.
Proof.
  intros Hi Ht Hl HQ. unfold check_pc. destruct (is_pc_in_program program target) eqn:Hpc.
  - apply wp_ret, HQ. by apply is_pc_in_program_iff.
  - by apply (wp_throw B).
Qed.

Lemma vm_ok_memory B (vm : EbpfVm C) mm hm :
  vm_ok config B vm -> mem_inv hm mm -> vm_ok config B (with_memory vm mm hm).
Proof. by intros [Hr Hf Hff Hd Hm Hl Hdue Hmeter Hb] Hm'. Qed.

(** ** Memory *)

Lemma wp_translate_load B (n : nat) (addr : Z) Q s :
  inv config B s -> in_u 64 addr -> 8 * Z.of_nat n <= 64 ->
  (forall x s', inv config B s' -> s'.(reg) = s.(reg) -> in_u 64 x -> Q x s') ->
  wp (translate_load n addr) Q (final config B) s.
Proof.
  intros Hi Ha Hn HQ. unfold translate_load. apply wp_bind, wp_get_vm, wp_bind.
  destruct Hi as [Hvm Hr Hd].
  destruct (load_spec (X := Interpreter C) n _ _ addr (vo_memory _ _ _ Hvm) Ha)
    as (res & mm & hm & Hl & Hmem & _ & _ & Hres).
  eapply wp_lift; [exact Hl|]. apply wp_bind, wp_set_vm.
  pose proof (vm_ok_memory B _ mm hm Hvm Hmem) as Hvm'.
  destruct res as [x|e]; [|by apply wp_throw_error].
  apply wp_ret, HQ; [by split|done|]. destruct Hres as [Hx _].
  apply (in_u_weaken (8 * Z.of_nat n)); [lia|done].
Qed.

Lemma wp_translate_store B (n : nat) (value addr : Z) Q s :
  inv config B s -> in_u 64 addr ->
  (forall s', inv config B s' -> s'.(reg) = s.(reg) -> Q tt s') ->
  wp (translate_store n value addr) Q (final config B) s.
Proof.
  intros Hi Ha HQ. unfold translate_store. apply wp_bind, wp_get_vm, wp_bind.
  destruct Hi as [Hvm Hr Hd].
  destruct (store_spec (X := Interpreter C) n _ _ (uwrap (8 * Z.of_nat n) value) addr
    (vo_memory _ _ _ Hvm) Ha) as (res & mm & hm & Hl & Hmem & _ & _).
  eapply wp_lift; [exact Hl|]. apply wp_bind, wp_set_vm.
  pose proof (vm_ok_memory B _ mm hm Hvm Hmem) as Hvm'.
  destruct res as [x|e]; [|by apply wp_throw_error].
  apply wp_ret, HQ; [by split|done].
Qed.

(** ** Operands *)

Definition reg_field (i : Z) : Prop := 0 <= i <= 10.
Lemma reg_field_lt (i : Z) : reg_field i -> 0 <= i < 12.
Proof. unfold reg_field. lia. Qed.

Lemma wp_op1m B (insn : Insn) (f : Z -> M Z) Q s :
  inv config B s -> reg_field insn.(dst) ->
  (forall d, in_u 64 d -> wp (f d) (fun r s' => in_u 64 r /\ s' = s) (final config B) s) ->
  (forall s', inv config B s' -> Q tt s') -> wp (op1m insn f) Q (final config B) s.
Proof.
  intros Hi Hd Hf HQ. unfold op1m. apply wp_bind, (wp_get_reg B); [done|by apply reg_field_lt|].
  intros d Hd64. apply wp_bind. eapply wp_mono; [by apply Hf|].
  intros r s' [Hr ->]. apply (wp_set_reg B); auto using reg_field_lt.
Qed.

Lemma wp_op1 B (insn : Insn) (f : Z -> Z) Q s :
  inv config B s -> reg_field insn.(dst) -> (forall d, in_u 64 d -> in_u 64 (f d)) ->
  (forall s', inv config B s' -> Q tt s') -> wp (op1 insn f) Q (final config B) s.
Proof. intros Hi Hd Hf HQ. apply (wp_op1m B); [done|done| |done]. intros d ?. apply wp_ret. auto. Qed.

Lemma wp_op2m B (insn : Insn) (f : Z -> Z -> M Z) Q s :
  inv config B s -> reg_field insn.(dst) -> reg_field insn.(src) ->
  (forall d x, in_u 64 d -> in_u 64 x ->
     wp (f d x) (fun r s' => in_u 64 r /\ s' = s) (final config B) s) ->
  (forall s', inv config B s' -> Q tt s') -> wp (op2m insn f) Q (final config B) s.
Proof.
  intros Hi Hd Hs Hf HQ. unfold op2m. apply wp_bind, (wp_get_reg B); [done|by apply reg_field_lt|].
  intros d Hd64. apply wp_bind, (wp_get_reg B); [done|by apply reg_field_lt|]. intros x Hx.
  apply wp_bind. eapply wp_mono; [by apply Hf|].
  intros r s' [Hr ->]. apply (wp_set_reg B); auto using reg_field_lt.
Qed.

Lemma wp_op2 B (insn : Insn) (f : Z -> Z -> Z) Q s :
  inv config B s -> reg_field insn.(dst) -> reg_field insn.(src) ->
  (forall d x, in_u 64 d -> in_u 64 x -> in_u 64 (f d x)) ->
  (forall s', inv config B s' -> Q tt s') -> wp (op2 insn f) Q (final config B) s.
Proof.
  intros Hi Hd Hs Hf HQ. apply (wp_op2m B); [done|done|done| |done]. intros d x ? ?. apply wp_ret. auto.
Qed.

Lemma wp_mov B (insn : Insn) (f : Z -> Z) Q s :
  inv config B s -> reg_field insn.(dst) -> reg_field insn.(src) ->
  (forall x, in_u 64 x -> in_u 64 (f x)) ->
  (forall s', inv config B s' -> Q tt s') -> wp (mov insn f) Q (final config B) s.
Proof.
  intros Hi Hd Hs Hf HQ. unfold mov. apply wp_bind, (wp_get_reg B); [done|by apply reg_field_lt|].
  intros x Hx. apply (wp_set_reg B); auto using reg_field_lt.
Qed.

Lemma address_range (insn : Insn) (base : Z) : in_u 64 (address insn base).
Proof. by apply uwrap_range. Qed.

Lemma wp_load_op B (n : nat) (insn : Insn) Q s :
  inv config B s -> reg_field insn.(dst) -> reg_field insn.(src) -> 8 * Z.of_nat n <= 64 ->
  (forall s', inv config B s' -> Q tt s') -> wp (load_op n insn) Q (final config B) s.
Proof.
  intros Hi Hd Hs Hn HQ. unfold load_op. apply wp_bind, (wp_get_reg B); [done|by apply reg_field_lt|].
  intros x Hx. apply wp_bind, wp_translate_load; [done|apply address_range|done|].
  intros y s' Hi' _ Hy. apply (wp_set_reg B); auto using reg_field_lt.
Qed.

Lemma wp_store_imm B (n : nat) (insn : Insn) Q s :
  inv config B s -> reg_field insn.(dst) ->
  (forall s', inv config B s' -> Q tt s') -> wp (store_imm n insn) Q (final config B) s.
Proof.
  intros Hi Hd HQ. unfold store_imm. apply wp_bind, (wp_get_reg B); [done|by apply reg_field_lt|].
  intros x Hx. apply wp_translate_store; [done|apply address_range|auto].
Qed.

Lemma wp_store_reg B (n : nat) (insn : Insn) Q s :
  inv config B s -> reg_field insn.(dst) -> reg_field insn.(src) ->
  (forall s', inv config B s' -> Q tt s') -> wp (store_reg n insn) Q (final config B) s.
Proof.
  intros Hi Hd Hs HQ. unfold store_reg. apply wp_bind, (wp_get_reg B); [done|by apply reg_field_lt|].
  intros x Hx. apply wp_bind, (wp_get_reg B); [done|by apply reg_field_lt|]. intros y Hy.
  apply wp_translate_store; [done|apply address_range|auto].
Qed.

(** ** Divisions *)

Lemma wp_throw_divide_by_zero B (b : bool) Q s :
  inv config B s -> (b = false -> Q tt s) -> wp (throw_divide_by_zero b) Q (final config B) s.
Proof.
  intros Hi HQ. destruct b; [by apply (wp_throw B)|]. by apply wp_ret, HQ.
Qed.

Lemma wp_throw_divide_overflow B (w d x : Z) Q s :
  inv config B s -> ((d =? - 2 ^ (w - 1)) && (x =? -1) = false -> Q tt s) ->
  wp (throw_divide_overflow w d x) Q (final config B) s.
Proof.
  intros Hi HQ. unfold throw_divide_overflow. destruct (_ && _); [by apply (wp_throw B)|].
  by apply wp_ret, HQ.
Qed.

Lemma unsigned_div_Ret {E} (w a b : Z) :
  in_u w a -> 0 <= b -> b <> 0 -> exists q, unsigned_div (E := E) a b = Ret q /\ in_u w q.
Proof.
  intros Ha Hb Hz. unfold unsigned_div. rewrite (proj2 (Z.eqb_neq _ _)) by done.
  exists (a / b). split; [done|]. by apply div_range.
Qed.

Lemma unsigned_rem_Ret {E} (w a b : Z) :
  in_u w a -> 0 <= b -> b <> 0 -> exists q, unsigned_rem (E := E) a b = Ret q /\ in_u w q.
Proof.
  intros Ha Hb Hz. unfold unsigned_rem. rewrite (proj2 (Z.eqb_neq _ _)) by done.
  exists (a mod b). split; [done|]. by apply mod_range.
Qed.

Lemma signed_div_Ret {E} (w a b : Z) :
  b <> 0 -> (a =? - 2 ^ (w - 1)) && (b =? -1) = false -> exists q, signed_div (E := E) w a b = Ret q.
Proof. intros Hz Ho. unfold signed_div. rewrite (proj2 (Z.eqb_neq _ _)), Ho by done. eauto. Qed.

Lemma signed_rem_Ret {E} (w a b : Z) :
  b <> 0 -> (a =? - 2 ^ (w - 1)) && (b =? -1) = false -> exists q, signed_rem (E := E) w a b = Ret q.
Proof. intros Hz Ho. unfold signed_rem. rewrite (proj2 (Z.eqb_neq _ _)), Ho by done. eauto. Qed.

(** ** Jumps *)

Lemma wp_jump B (next_pc : Z) (insn : Insn) Q s :
  inv config B s -> in_s 16 insn.(off) -> 0 <= next_pc < 2 ^ 62 -> 0 <= next_pc + insn.(off) ->
  Q (next_pc + insn.(off)) s -> wp (jump next_pc insn) Q (final config B) s.
Proof.
  intros Hi Ho Hn Ht HQ. unfold jump, in_s in *. apply wp_bind.
  eapply (wp_lift _ (next_pc + insn.(off))).
  - unfold as_i64. rewrite swrap_small by (unfold in_s; lia). unfold i64_add, i64_min, i64_max.
    rewrite !(proj2 (Z.leb_le _ _)) by lia. done.
  - apply wp_ret. unfold as_u64. by rewrite uwrap_small by (unfold in_u; lia).
Qed.

Lemma wp_branch1 B (next_pc : Z) (insn : Insn) (cond : Z -> bool) Q s :
  inv config B s -> reg_field insn.(dst) -> in_s 16 insn.(off) -> 0 <= next_pc < 2 ^ 62 ->
  0 <= next_pc + insn.(off) -> Q (next_pc + insn.(off)) s -> Q next_pc s ->
  wp (branch1 next_pc insn cond) Q (final config B) s.
Proof.
  intros Hi Hd Ho Hn Ht HQ HQ'. unfold branch1. apply wp_bind, (wp_get_reg B); [done|by apply reg_field_lt|].
  intros d _. destruct (cond d); [by apply wp_jump|by apply wp_ret].
Qed.

Lemma wp_branch2 B (next_pc : Z) (insn : Insn) (cond : Z -> Z -> bool) Q s :
  inv config B s -> reg_field insn.(dst) -> reg_field insn.(src) -> in_s 16 insn.(off) ->
  0 <= next_pc < 2 ^ 62 -> 0 <= next_pc + insn.(off) -> Q (next_pc + insn.(off)) s -> Q next_pc s ->
  wp (branch2 next_pc insn cond) Q (final config B) s.
Proof.
  intros Hi Hd Hs Ho Hn Ht HQ HQ'. unfold branch2. apply wp_bind, (wp_get_reg B); [done|by apply reg_field_lt|].
  intros d _. apply wp_bind, (wp_get_reg B); [done|by apply reg_field_lt|]. intros x _.
  destruct (cond d x); [by apply wp_jump|by apply wp_ret].
Qed.

(** ** Calls *)

Lemma wp_get_reg_eq (i x : Z) Q (F : Interpreter C -> Prop) s :
  0 <= i -> s.(reg) !! Z.to_nat i = Some x -> Q x s -> wp (get_reg i) Q F s.
Proof. intros Hi Hx HQ. unfold wp, get_reg. by rewrite (index_slice_lookup _ _ x). Qed.

Definition pc_is (s : Interpreter C) (pc : Z) : Prop := s.(reg) !! 11%nat = Some pc.

Hypothesis Hcfg : config_ok config.

Lemma wp_push_frame B (executable : Executable) (pc : Z) Q s :
  inv config B s -> pc_is s pc -> 0 <= pc < 2 ^ 62 ->
  (forall s', inv config B s' -> Q tt s') ->
  wp (push_frame executable config) Q (final config B) s.
Proof.
  intros Hi Hpc Hlt HQ. pose proof Hi as [[Hr Hf Hff Hd Hm Hl Hdue Hmeter Hb] Hreg Hdepth].
  unfold push_frame. apply wp_bind, wp_get_vm, wp_bind.
  destruct (@index_slice_Ret (Interpreter C) _ (call_frames (vm s)) (call_depth (vm s)))
    as (f0 & Hf0 & He); [lia|].
  eapply wp_lift; [exact He|].
  apply wp_bind, (wp_get_reg B); [done|done|]. intros r6 H6.
  apply wp_bind, (wp_get_reg B); [done|done|]. intros r7 H7.
  apply wp_bind, (wp_get_reg B); [done|done|]. intros r8 H8.
  apply wp_bind, (wp_get_reg B); [done|done|]. intros r9 H9.
  apply wp_bind, (wp_get_reg B); [done|done|]. intros fp Hfp.
  apply wp_bind, (wp_get_reg_eq 11 pc); [lia|done|].
  assert (Hu : forall a : Z, 0 <= a < 2 ^ 63 -> u64_add (E := Interpreter C) a 1 = Ret (a + 1))
    by (intros a ?; unfold u64_add, u64_max; by rewrite (proj2 (Z.leb_le _ _)) by lia).
  destruct (co_depth _ Hcfg) as [_ Hmax].
  apply wp_bind. eapply wp_lift; [apply Hu; lia|].
  apply wp_bind. eapply wp_lift; [apply Hu; cbn; lia|]. cbn [call_depth with_frames].
  set (frame := mkFrame [r6; r7; r8; r9] fp (pc + 1)).
  apply wp_bind, wp_set_vm.
  set (vm' := with_call_depth _ _).
  assert (Hvm' : vm_ok config B vm').
  { split; cbn; try done.
    - unfold zlen. by rewrite length_insert.
    - apply Forall_insert; [done|]. split; [done|]. split; [by forall_list|].
      split; [done|]. unfold in_u; cbn; lia.
    - lia. }
  destruct (Z.eqb_spec (call_depth (vm s) + 1) config.(max_call_depth)); [by apply wp_throw_error|].
  assert (Hi' : inv config B (mkInterp vm' s.(reg))) by (split; cbn; [done|done|lia]).
  destruct (negb _); [|by apply wp_ret, HQ].
  apply wp_bind. destruct (co_frame _ Hcfg).
  eapply (wp_lift _ (config.(stack_frame_size) * (if _ && _ then 2 else 1))).
  { unfold u64_mul, u64_max. by rewrite (proj2 (Z.leb_le _ _)) by (destruct (_ && _); lia). }
  apply (wp_set_reg B); [done|done|by apply uwrap_range|apply HQ].
Qed.

Lemma copy_into_spec {A} (l : list A) (start : nat) (from : list A) :
  (start + length from <= length l)%nat -> length (copy_into l start from) = length l.
Proof. intros Hl. unfold copy_into. rewrite !length_app, length_take, length_drop. lia. Qed.

Lemma copy_into_Forall {A} (P : A -> Prop) (l : list A) (start : nat) (from : list A) :
  Forall P l -> Forall P from -> Forall P (copy_into l start from).
Proof. intros Hl Hf. unfold copy_into. rewrite !Forall_app. split_and!; auto using Forall_take, Forall_drop. Qed.

Lemma regs_ok_copy (regs : list Z) (start : nat) (from : list Z) :
  regs_ok regs -> Forall (in_u 64) from -> (start + length from <= 12)%nat ->
  regs_ok (copy_into regs start from).
Proof.
  intros [Hl HF] Hfrom Hle. split; [rewrite copy_into_spec; lia|by apply copy_into_Forall].
Qed.

Context (rust_of : BuiltinFunction -> RustFunction C) `{Hlaws : !MeterLaws C}
  `{Hrust : !forall f, RustOk (rust_of f)}.

Lemma builtin_vm_ok {E} B (f : BuiltinFunction) (vm : EbpfVm C) (a1 a2 a3 a4 a5 : Z) :
  vm_ok config B vm -> Forall (in_u 64) [a1; a2; a3; a4; a5] ->
  exists vm', builtin_vm (E := E) (rust_of f)
      (with_due vm (vm.(previous_instruction_meter) - vm.(due_insn_count))) a1 a2 a3 a4 a5 = Ret vm' /\
    vm_ok config B (with_due vm' 0) /\ vm'.(call_depth) = vm.(call_depth) /\
    match vm'.(program_result) with SOk value => in_u 64 value | SErr _ => True end.
Proof.
  intros [Hr Hf Hff Hd Hm Hl Hdue Hmeter Hb] Hargs. unfold builtin_vm, get_config. cbn [with_due vm_loader].
  rewrite Hl. cbn [expect exec_bind]. rewrite (co_meter _ Hcfg).
  cbn [with_due previous_instruction_meter due_insn_count].
  unfold u64_sub. rewrite (proj2 (Z.leb_le _ _)) by lia. cbn [exec_bind with_context].
  set (amount := _ - (_ - _)). replace amount with (due_insn_count vm) by (unfold amount; lia).
  cbn [with_due with_context context_object memory_mapping host_memory].
  destruct (Hrust f E (consume (context_object vm) (due_insn_count vm)) a1 a2 a3 a4 a5 _ _ Hm Hargs)
    as (r & c' & mm' & hm' & -> & Hm' & Hrem & Hval). cbn [exec_bind].
  rewrite remaining_consume, <-Hmeter in Hrem by lia. unfold u64_saturating_sub in Hrem.
  rewrite Z.max_l in Hrem by lia.
  pose proof (remaining_u64 c') as [Hc0 _].
  eexists. split; [done|]. split; [|split; [done|]].
  - split; cbn; try done; lia.
  - by destruct r; cbn.
Qed.

Lemma wp_dispatch_syscall B (f : BuiltinFunction) Q s :
  inv config B s ->
  (forall r s', inv config B s' -> s'.(reg) = s.(reg) -> s'.(vm).(program_result) = r ->
     match r with SOk value => in_u 64 value | SErr _ => True end -> Q r s') ->
  wp (dispatch_syscall rust_of f) Q (final config B) s.
Proof.
  intros Hi HQ. pose proof Hi as [Hvm Hreg Hdepth]. unfold dispatch_syscall.
  apply wp_bind, wp_get_vm, wp_bind. pose proof (vo_due _ _ _ Hvm).
  eapply wp_lift; [unfold u64_sub; by rewrite (proj2 (Z.leb_le _ _)) by lia|].
  apply wp_bind, (wp_get_reg B); [done|done|]. intros r0 H0.
  apply wp_bind, (wp_get_reg B); [done|done|]. intros r1 H1.
  apply wp_bind, (wp_get_reg B); [done|done|]. intros r2 H2.
  apply wp_bind, (wp_get_reg B); [done|done|]. intros r3 H3.
  apply wp_bind, (wp_get_reg B); [done|done|]. intros r4 H4.
  apply wp_bind, (wp_get_reg B); [done|done|]. intros r5 H5. cbv zeta.
  set (regs := copy_into _ _ _).
  assert (Hregs : regs_ok regs).
  { apply regs_ok_copy; [apply (vo_registers _ _ _ Hvm)|by forall_list|simpl; lia]. }
  set (vm1 := with_registers (vm s) regs).
  assert (Hvm1 : vm_ok config B vm1) by (destruct Hvm; by split).
  set (vm2 := with_registers (with_due _ _) _).
  assert (Hinv : exists vm', invoke_function (E := Interpreter C) rust_of vm2 f = Ret vm' /\
    vm_ok config B (with_due vm' 0) /\ vm'.(call_depth) = s.(vm).(call_depth) /\
    match vm'.(program_result) with SOk value => in_u 64 value | SErr _ => True end).
  { unfold invoke_function. cbn [registers vm2 with_registers with_due].
    destruct (regs_index (E := Interpreter C) regs 1 Hregs ltac:(lia)) as (? & -> & ?).
    destruct (regs_index (E := Interpreter C) regs 2 Hregs ltac:(lia)) as (? & -> & ?).
    destruct (regs_index (E := Interpreter C) regs 3 Hregs ltac:(lia)) as (? & -> & ?).
    destruct (regs_index (E := Interpreter C) regs 4 Hregs ltac:(lia)) as (? & -> & ?).
    destruct (regs_index (E := Interpreter C) regs 5 Hregs ltac:(lia)) as (? & -> & ?).
    cbn [exec_bind]. apply (builtin_vm_ok B f vm1 _ _ _ _ _ Hvm1). by forall_list. }
  destruct Hinv as (vm' & Hrun & Hvm' & Hcd & Hval).
  apply wp_bind. eapply wp_lift; [exact Hrun|]. apply wp_bind, wp_set_vm, wp_ret.
  apply HQ; [|done|done|done]. split; cbn; [done|done|]. by rewrite Hcd.
Qed.
End Wp.

(** * Classes of instructions *)

(** Opcodes that divide by an immediate, and opcodes that jump. *)
Definition div_imm_opcode (v : SBPFVersion) (o : Z) : bool :=
  opc_in o [DIV32_IMM; DIV64_IMM; MOD32_IMM; MOD64_IMM] && negb (enable_pqr v)
  || opc_in o [UDIV32_IMM; UDIV64_IMM; UREM32_IMM; UREM64_IMM; SDIV32_IMM; SDIV64_IMM; SREM32_IMM;
       SREM64_IMM] && enable_pqr v.
Definition jump_opcode (v : SBPFVersion) (o : Z) : bool :=
  opc_in o [JEQ32_IMM; JEQ32_REG; JGT32_IMM; JGT32_REG; JGE32_IMM; JGE32_REG; JLT32_IMM;
      JLT32_REG; JLE32_IMM; JLE32_REG; JSET32_IMM; JSET32_REG; JNE32_IMM; JNE32_REG; JSGT32_IMM;
      JSGT32_REG; JSGE32_IMM; JSGE32_REG; JSLT32_IMM; JSLT32_REG; JSLE32_IMM; JSLE32_REG]
    && enable_jmp32 v
  || opc_in o [JA; JEQ64_IMM; JEQ64_REG; JGT64_IMM; JGT64_REG; JGE64_IMM; JGE64_REG; JLT64_IMM;
      JLT64_REG; JLE64_IMM; JLE64_REG; JSET64_IMM; JSET64_REG; JNE64_IMM; JNE64_REG; JSGT64_IMM;
      JSGT64_REG; JSGE64_IMM; JSGE64_REG; JSLT64_IMM; JSLT64_REG; JSLE64_IMM; JSLE64_REG].

Lemma opcode_class_step (v : SBPFVersion) (b : bool) (o : Z) (c : InsnClass) :
  in_u 8 o -> opcode_class v b o = Some c ->
  (div_imm_opcode v o = true -> c = ClassNonzeroImm) /\
  (jump_opcode v o = true -> c = ClassJump) /\
  (o = LD_DW_IMM -> c = ClassLddw) /\ (o = CALL_REG -> c = ClassCallx).
Proof.
  intros Ho Hc.
  unshelve epose proof (opcode_class_all (fun v b o oc =>
    match oc with
    | Some c => bool_decide ((div_imm_opcode v o = true -> c = ClassNonzeroImm) /\
        (jump_opcode v o = true -> c = ClassJump) /\
        (o = LD_DW_IMM -> c = ClassLddw) /\ (o = CALL_REG -> c = ClassCallx))
    | None => true end) _ v b o Ho) as H; [vm_compute; reflexivity|].
  cbn beta in H. rewrite Hc in H. by apply bool_decide_eq_true in H.
Qed.

(** * One step *)

Section Step.
Context `{Bo : LittleEndian}.
Context `{Ctx : ContextObject C}.
Context (rust_of : BuiltinFunction -> RustFunction C) `{Hlaws : !MeterLaws C}
  `{Hrust : !forall f, RustOk (rust_of f)}.
Context (executable : Executable) (program : list Z) (program_vm_addr : Z) (config : Config).
Let v := executable.(sbpf_version).

(** The program was verified, for the executable's version and configuration. *)
Record verified : Prop := {
  vf_config : Program.config executable.(loader) = Some config;
  vf_config_ok : config_ok config;
  vf_bytes : bytes_ok program;
  vf_len : slice_len_ok program;
  vf_program : well_formed_program program executable.(sbpf_version);
  vf_functions : forall key name pc,
    lookup_by_key executable.(function_registry) key = Some (name, pc) -> 0 <= pc;
}.
Hypothesis Hv : verified.
Let n := num_insns program.

Lemma program_len : zlen program = INSN_SIZE * n.
Proof. apply num_insns_len, Hv. Qed.
Lemma program_bound : 0 <= n < 2 ^ 60.
Proof. apply num_insns_bound; apply Hv. Qed.

(** Where a step may lead. *)
Definition next_ok (B next_pc : Z) (s : Interpreter C) : Prop := inv config B s /\ 0 <= next_pc <= n.

Lemma wp_check_target B (target : Z) s :
  inv config B s -> 0 <= target ->
  wp (check_pc program target) (next_ok B) (final config B) s.
Proof.
  intros Hi Ht. apply wp_check_pc; [done|done|apply Hv|]. intros Hle. split; [done|].
  rewrite program_len in Hle. unfold INSN_SIZE in Hle. lia.
Qed.

Lemma wp_step_exit B s : inv config B s -> wp (step_exit program config) (next_ok B) (final config B) s.
Proof.
  intros Hi. pose proof Hi as [[Hr Hf Hff Hd Hm Hl Hdue Hmeter Hb] Hreg Hdepth].
  unfold step_exit. apply wp_bind, wp_get_vm.
  destruct (Z.eqb_spec (call_depth (vm s)) 0) as [H0|H0].
  - destruct (_ && _); [by apply (wp_throw config B)|].
    apply wp_bind, (wp_get_reg config B); [done|done|]. intros r0 H64.
    apply wp_bind, wp_set_vm. split; [by split|done].
  - apply wp_bind. eapply wp_lift; [unfold u64_sub; by rewrite (proj2 (Z.leb_le _ _)) by lia|].
    apply wp_bind, wp_set_vm, wp_bind.
    destruct (@index_slice_Ret (Interpreter C) _ (call_frames (vm s)) (call_depth (vm s) - 1))
      as (f & Hfl & He); [lia|].
    destruct (Forall_lookup_1 _ _ _ _ Hff Hfl) as (Hl4 & H4 & Hfp & [Ht _]).
    eapply wp_lift; [exact He|].
    set (s1 := mkInterp _ _).
    assert (Hi1 : inv config B s1) by (split; [split; cbn; try done; lia|done|cbn; lia]).
    apply wp_bind, (wp_set_reg config B); [done|done|done|]. intros Hi2.
    set (s2 := mkInterp _ (<[_ := _]> _)) in *. apply wp_bind.
    change (wp (check_pc program (target_pc f)) (next_ok B) (final config B)
      (mkInterp (vm s2) (copy_into (reg s2) (Z.to_nat FIRST_SCRATCH_REG) (caller_saved_registers f)))).
    apply wp_check_target; [|done]. destruct Hi2 as [Hv2 Hr2 Hd2]. split; [done| |done].
    apply regs_ok_copy; [done|done|]. rewrite Hl4. apply (bool_decide_unpack _). vm_compute. exact I.
Qed.

Lemma wp_step_call_reg B (insn : Insn) (pc : Z) s :
  inv config B s -> pc_is s pc -> 0 <= pc < 2 ^ 62 -> 0 <= callx_operand v insn < 10 ->
  wp (step_call_reg executable program program_vm_addr config insn) (next_ok B) (final config B) s.
Proof.
  intros Hi Hpc Hlt Hop. unfold step_call_reg. apply wp_bind.
  assert (Hget : wp (if callx_uses_src_reg v then get_reg insn.(src)
    else if callx_uses_dst_reg v then get_reg insn.(dst) else get_reg (as_u64 insn.(imm)))
    (fun x s' => s' = s) (final config B) s).
  { unfold callx_operand in Hop. destruct (callx_uses_src_reg v), (callx_uses_dst_reg v).
    1-3: apply (wp_get_reg config B); [done|lia|done].
    apply (wp_get_reg config B); [done| |done]. unfold as_u64. rewrite uwrap_small; [lia|].
    unfold in_u. lia. }
  eapply wp_mono; [exact Hget|]. intros x ? ->.
  apply wp_bind, (wp_push_frame config (vf_config_ok Hv) B executable pc); [done|done|done|].
  intros s' Hi'. apply wp_check_target; [done|]. apply Z.div_pos; [|done].
  unfold as_u64. apply uwrap_range. lia.
Qed.

Lemma wp_step_call_imm B (insn : Insn) (pc next_pc : Z) s :
  inv config B s -> pc_is s pc -> 0 <= pc < 2 ^ 62 -> 0 <= next_pc <= n ->
  wp (step_call_imm rust_of executable program config insn next_pc) (next_ok B) (final config B) s.
Proof.
  intros Hi Hpc Hlt Hnext. unfold step_call_imm. apply wp_bind.
  apply (wp_mono _ (fun _ s' => inv config B s' /\ pc_is s' pc)).
  { destruct (_ || _); [|by apply wp_ret]. destruct (lookup_by_key _ _) as [[name f]|]; [|by apply wp_ret].
    apply wp_bind, (wp_dispatch_syscall config (vf_config_ok Hv) rust_of B); [done|].
    intros r s' Hi' Hreg Hres Hval. destruct r as [value|e].
    - apply wp_bind, (wp_set_reg config B); [done|done|done|]. intros Hi2. apply wp_ret.
      split; [done|]. unfold pc_is. cbn [reg]. rewrite list_lookup_insert_ne by done.
      by rewrite Hreg.
    - split; [apply Hi'|by rewrite Hres]. }
  intros resolved s1 [Hi1 Hpc1]. apply wp_bind.
  apply (wp_mono _ (fun r s' => next_ok B r.1 s')).
  { destruct (static_syscalls (sbpf_version executable)).
    - destruct (is_pc_in_program program (as_u64 _) && _) eqn:Hin; [|by apply wp_ret; split].
      apply andb_prop in Hin as [Hin _].
      apply wp_bind, (wp_push_frame config (vf_config_ok Hv) B executable pc); [done|done|done|].
      intros s' Hi'. apply wp_ret. split; [done|].
      assert (H0 : 0 <= as_u64 (i64_saturating_add (as_i64 next_pc) (imm insn)))
        by (apply uwrap_range; lia).
      apply is_pc_in_program_iff in Hin; [|done|apply Hv].
      rewrite program_len in Hin. unfold INSN_SIZE in Hin. cbn [fst]. lia.
    - destruct (lookup_by_key _ _) as [[name t]|] eqn:Hf; [|by apply wp_ret; split].
      apply wp_bind, (wp_push_frame config (vf_config_ok Hv) B executable pc); [done|done|done|].
      intros s' Hi'. apply wp_bind. eapply wp_mono.
      + apply wp_check_target; [done|]. by apply (vf_functions Hv) in Hf.
      + intros t' s'' Ht. by apply wp_ret. }
  intros [next resolved'] s2 Hnext2. destruct (negb _); [|by apply wp_ret].
  apply (wp_throw config B). apply Hnext2.
Qed.

(** ** Instructions *)

(** What the verifier guarantees of the instruction at [pc], as the step needs it. *)
Record insn_facts (pc : Z) (insn : Insn) : Prop := {
  if_dst : reg_field insn.(dst);
  if_src : reg_field insn.(src);
  if_off : in_s 16 insn.(off);
  if_imm : in_s 32 insn.(imm);
  if_div : div_imm_opcode v insn.(opc) = true -> insn.(imm) <> 0;
  if_jump : jump_opcode v insn.(opc) = true -> 0 <= pc + 1 + insn.(off) < n;
  if_lddw : insn.(opc) = LD_DW_IMM -> pc + 1 < n;
  if_callx : insn.(opc) = CALL_REG -> 0 <= callx_operand v insn < 10;
}.
Lemma slot_facts (pc : Z) :
  0 <= pc < n ->
  insn_facts pc (insn_at program pc) \/ (insn_at program pc).(opc) = 0.
Proof.
  intros Hpc. pose proof Hv as [_ _ Hb Hl (Hm & _ & Hwf) _].
  destruct (well_formed_slots program (sbpf_version executable) 0 pc Hwf) as [(c & Hc & Hok & Hs & Hd)|H0];
    [by apply insn_at_opc|done| |by right].
  left. pose proof (insn_at_wf program Hb Hm pc Hpc) as (Ho & [Hd0 _] & [Hs0 _] & Hoff & Himm).
  destruct (opcode_class_step _ _ _ _ Ho Hc) as (Hdiv & Hjump & Hlddw & Hcallx).
  split; try done.
  - unfold reg_field. destruct Hd as [?|[? _]]; lia.
  - intros E. by rewrite (Hdiv E) in Hok.
  - intros E. rewrite (Hjump E) in Hok. apply Hok.
  - intros E. rewrite (Hlddw E) in Hok. apply Hok.
  - intros E. by rewrite (Hcallx E) in Hok.
Qed.

(** ** The arms *)

(** A range of 64 bits, by the shape of the term. *)
Ltac range64 :=
  lazymatch goal with
  | H : in_u 64 ?x |- in_u 64 ?x => exact H
  | |- in_u 64 (if ?b then _ else _) => destruct b; range64
  | |- in_u 64 (sign_extension _ _) => unfold sign_extension; range64
  | |- in_u 64 (Z.lor _ _) => apply lor_range; [lia|range64|range64]
  | |- in_u 64 (Z.lxor _ _) => apply lxor_range; [lia|range64|range64]
  | |- in_u 64 (Z.land _ _) => apply land_range; [lia|range64]
  | |- in_u 64 (wrapping_shr 64 _ _) => apply wrapping_shr_range; [lia|range64]
  | |- in_u 64 (as_u32 _) => apply (in_u_weaken 32); [lia|apply uwrap_range; lia]
  | |- in_u 64 (as_u16 _) => apply (in_u_weaken 16); [lia|apply uwrap_range; lia]
  | |- in_u 64 (swap_bytes 2 _) => apply (in_u_weaken 16); [lia|apply (swap_bytes_range 2)]
  | |- in_u 64 (swap_bytes 4 _) => apply (in_u_weaken 32); [lia|apply (swap_bytes_range 4)]
  | |- in_u 64 (swap_bytes 8 _) => apply (swap_bytes_range 8)
  | |- in_u 64 _ => apply uwrap_range; lia
  end.

Lemma wp_to_le B (width d : Z) s :
  inv config B s -> in_u 64 d ->
  wp (to_le width d) (fun r s' => in_u 64 r /\ s' = s) (final config B) s.
Proof.
  intros Hi Hd. unfold to_le. destruct (width =? 16); [apply wp_ret; split; [range64|done]|].
  destruct (width =? 32); [apply wp_ret; split; [range64|done]|].
  destruct (width =? 64); [apply wp_ret; split; [range64|done]|]. by apply (wp_throw config B).
Qed.

Lemma wp_to_be B (width d : Z) s :
  inv config B s -> in_u 64 d ->
  wp (to_be width d) (fun r s' => in_u 64 r /\ s' = s) (final config B) s.
Proof.
  intros Hi Hd. unfold to_be. destruct (width =? 16); [apply wp_ret; split; [range64|done]|].
  destruct (width =? 32); [apply wp_ret; split; [range64|done]|].
  destruct (width =? 64); [apply wp_ret; split; [range64|done]|]. by apply (wp_throw config B).
Qed.

(** The divisors of the checked divisions. *)
Lemma imm_nonzero (m : Z) : in_s 32 m -> m <> 0 ->
  as_u32 m <> 0 /\ as_u64 m <> 0 /\ as_u64 (as_u32 m) <> 0 /\ as_i32 m <> 0 /\ as_i64 m = m /\ m <> 0.
Proof.
  intros Hm Hz. assert (Hm64 : in_s 64 m) by (unfold in_s in *; lia).
  assert (H32 : as_u32 m <> 0) by (unfold as_u32; by rewrite swrap_zero).
  split; [done|]. split; [unfold as_u64; by rewrite swrap_zero|]. split.
  - unfold as_u64. rewrite uwrap_small; [done|].
    apply (in_u_weaken 32); [lia|by apply uwrap_range].
  - unfold as_i32, as_i64. by rewrite !swrap_small.
Qed.

Lemma as_u_nonneg (w z : Z) : 0 <= w -> 0 <= uwrap w z.
Proof. intros. by apply uwrap_range. Qed.

(** An arm that changes no control flow keeps the invariant. *)
Definition data_arm_ok (B : Z) (s : Interpreter C) (arm : bool * (unit -> M (C := C) unit)) : Prop :=
  arm.1 = true -> forall Q, (forall s', inv config B s' -> Q tt s') ->
  wp (arm.2 tt) Q (final config B) s.

Section DataArms.
Context (B pc : Z) (insn : Insn) (s : Interpreter C).
Context (Hi : inv config B s) (Hf : insn_facts pc insn).

(** The divisor of an immediate division is not zero. *)
Ltac divisor Hg :=
  let Ho := fresh "Ho" in let Hq := fresh "Hq" in
  apply andb_prop in Hg as [Ho%Z.eqb_eq Hq];
  destruct (imm_nonzero _ (if_imm _ _ Hf) (if_div _ _ Hf
    ltac:(unfold div_imm_opcode; rewrite Ho; unfold v; rewrite Hq; reflexivity)))
    as (?H32 & ?H64 & ?H3264 & ?Hi32 & ?Hi64 & ?Hm).

Ltac nonneg := first [apply as_u_nonneg; lia | match goal with H : in_u 64 ?x |- 0 <= ?x => apply H end].

Ltac wp_div :=
  repeat (cbn beta; lazymatch goal with
  | |- wp (m_bind _ _) _ _ _ => apply wp_bind
  | |- wp (throw_divide_by_zero _) _ _ _ =>
      apply (wp_throw_divide_by_zero config B); [exact Hi|intros ?Hz%Z.eqb_neq]
  | |- wp (throw_divide_overflow _ _ _) _ _ _ =>
      apply (wp_throw_divide_overflow config B); [exact Hi|intros ?Hov]
  | |- wp (lift (unsigned_div ?a ?b)) _ _ _ =>
      let Hr := fresh "Hr" in
      destruct (unsigned_div_Ret (E := Interpreter C) 64 a b) as (?q & Hr & ?Hqr);
        [range64|nonneg|assumption|eapply wp_lift; [exact Hr|]]
  | |- wp (lift (unsigned_rem ?a ?b)) _ _ _ =>
      let Hr := fresh "Hr" in
      destruct (unsigned_rem_Ret (E := Interpreter C) 64 a b) as (?q & Hr & ?Hqr);
        [range64|nonneg|assumption|eapply wp_lift; [exact Hr|]]
  | |- wp (lift (signed_div ?w ?a ?b)) _ _ _ =>
      let Hr := fresh "Hr" in
      destruct (signed_div_Ret (E := Interpreter C) w a b) as (?q & Hr);
        [congruence|congruence|eapply wp_lift; [exact Hr|]]
  | |- wp (lift (signed_rem ?w ?a ?b)) _ _ _ =>
      let Hr := fresh "Hr" in
      destruct (signed_rem_Ret (E := Interpreter C) w a b) as (?q & Hr);
        [congruence|congruence|eapply wp_lift; [exact Hr|]]
  | |- wp (m_ret _) _ _ _ => apply wp_ret
  end); cbn beta; (split; [range64|reflexivity]).

Ltac data_arm :=
  let Hg := fresh "Hg" in let Q := fresh "Q" in let HQ := fresh "HQ" in
  intros Hg Q HQ; cbn [fst snd] in Hg |- *;
  pose proof (if_dst _ _ Hf) as Hdst; pose proof (if_src _ _ Hf) as Hsrc;
  lazymatch goal with
  | |- wp (if ?b then _ else _) _ _ _ => destruct b
  | _ => idtac
  end;
  lazymatch goal with
  | |- wp (op1 _ _) _ _ _ => apply (wp_op1 config B); [exact Hi|exact Hdst|intros d Hd; range64|exact HQ]
  | |- wp (op2 _ _) _ _ _ =>
      apply (wp_op2 config B); [exact Hi|exact Hdst|exact Hsrc|intros d x Hd Hx; range64|exact HQ]
  | |- wp (mov _ _) _ _ _ =>
      apply (wp_mov config B); [exact Hi|exact Hdst|exact Hsrc|intros x Hx; range64|exact HQ]
  | |- wp (set_reg _ _) _ _ _ => apply (wp_set_reg config B); [exact Hi|exact (reg_field_lt _ Hdst)|range64|auto]
  | |- wp (load_op _ _) _ _ _ => apply (wp_load_op config B); [exact Hi|exact Hdst|exact Hsrc|lia|exact HQ]
  | |- wp (store_imm _ _) _ _ _ => apply (wp_store_imm config B); [exact Hi|exact Hdst|exact HQ]
  | |- wp (store_reg _ _) _ _ _ => apply (wp_store_reg config B); [exact Hi|exact Hdst|exact Hsrc|exact HQ]
  | |- wp (op1m _ (to_le _)) _ _ _ =>
      apply (wp_op1m config B); [exact Hi|exact Hdst|intros d Hd; by apply wp_to_le|exact HQ]
  | |- wp (op1m _ (to_be _)) _ _ _ =>
      apply (wp_op1m config B); [exact Hi|exact Hdst|intros d Hd; by apply wp_to_be|exact HQ]
  | |- wp (op1m _ _) _ _ _ =>
      divisor Hg; apply (wp_op1m config B); [exact Hi|exact Hdst|intros d Hd; wp_div|exact HQ]
  | |- wp (op2m _ _) _ _ _ =>
      apply (wp_op2m config B); [exact Hi|exact Hdst|exact Hsrc|intros d x Hd Hx; wp_div|exact HQ]
  end.

Ltac data_arms := cbv zeta; repeat first [apply Forall_nil_2 | apply Forall_cons_2; [data_arm|]].

Lemma memory_arms_ok :
  Forall (data_arm_ok B s) (step_ldx executable insn ++ step_st executable insn ++ step_stx executable insn).
Proof. unfold step_ldx, step_st, step_stx. cbn [app]. data_arms. Qed.

Lemma alu32_arms_ok : Forall (data_arm_ok B s) (step_alu32 executable insn).
Proof. unfold step_alu32. data_arms. Qed.

Lemma alu64_arms_ok : Forall (data_arm_ok B s) (step_alu64 executable insn).
Proof. unfold step_alu64. data_arms. Qed.

Lemma pqr_arms_ok : Forall (data_arm_ok B s) (step_pqr executable insn).
Proof. unfold step_pqr. data_arms. Qed.
End DataArms.

Definition arm_ok (B : Z) (s : Interpreter C) (arm : bool * (unit -> M (C := C) Z)) : Prop :=
  arm.1 = true -> wp (arm.2 tt) (next_ok B) (final config B) s.

Lemma fall_through_ok (B next_pc : Z) (s : Interpreter C) arms :
  0 <= next_pc <= n -> Forall (data_arm_ok B s) arms ->
  Forall (arm_ok B s) (fall_through next_pc <$> arms).
Proof.
  intros Hn HF. apply Forall_fmap. apply (Forall_impl _ _ _ HF). intros [g body] Ha Hg.
  apply wp_bind. apply (Ha Hg). intros s' Hi'. by apply wp_ret.
Qed.

Section ControlArms.
Context (B pc : Z) (insn : Insn) (s : Interpreter C).
Context (Hi : inv config B s) (Hf : insn_facts pc insn) (Hpc : pc_is s pc) (Hin : 0 <= pc < n).

Lemma jump_target : jump_opcode v insn.(opc) = true ->
  next_ok B (pc + 1 + insn.(off)) s /\ next_ok B (pc + 1) s /\ 0 <= pc + 1 < 2 ^ 62 /\
  0 <= pc + 1 + insn.(off).
Proof.
  intros Hj%(if_jump _ _ Hf). pose proof program_bound.
  unfold next_ok. split_and!; (done || lia).
Qed.

(** The opcode of the arm is a jump of the version. *)
Ltac jump_arm :=
  let Hg := fresh "Hg" in intros Hg; cbn [fst snd] in Hg |- *;
  destruct jump_target as (Ht & Hnext & Hb & H0);
  [ first [ apply andb_prop in Hg as [Ho%Z.eqb_eq Hq]; unfold jump_opcode; rewrite Ho;
            unfold v; rewrite Hq; reflexivity
          | apply Z.eqb_eq in Hg as Ho; unfold jump_opcode; rewrite Ho; apply orb_true_iff; right;
            reflexivity ]
  | pose proof (if_dst _ _ Hf) as Hdst; pose proof (if_src _ _ Hf) as Hsrc;
    pose proof (if_off _ _ Hf) as Hoff;
    lazymatch goal with
    | |- wp (branch1 _ _ _) _ _ _ =>
        apply (wp_branch1 config B); [exact Hi|exact Hdst|exact Hoff|exact Hb|exact H0|exact Ht|exact Hnext]
    | |- wp (branch2 _ _ _) _ _ _ =>
        apply (wp_branch2 config B);
          [exact Hi|exact Hdst|exact Hsrc|exact Hoff|exact Hb|exact H0|exact Ht|exact Hnext]
    | |- wp (jump _ _) _ _ _ =>
        apply (wp_jump config B); [exact Hi|exact Hoff|exact Hb|exact H0|exact Ht]
    end ].
Ltac jump_arms := cbv zeta; repeat first [apply Forall_nil_2 | apply Forall_cons_2; [jump_arm|]].

Lemma jmp32_arms_ok : Forall (arm_ok B s) (step_jmp32 executable insn (pc + 1)).
Proof. unfold step_jmp32. jump_arms. Qed.

Lemma jmp64_arms_ok : Forall (arm_ok B s) (step_jmp64 insn (pc + 1)).
Proof. unfold step_jmp64. jump_arms. Qed.

Lemma ld_arms_ok : insn.(ptr) = pc -> Forall (arm_ok B s) (step_ld executable program insn (pc + 1)).
Proof.
  intros Hptr. unfold step_ld. cbv zeta. apply Forall_cons_2; [|apply Forall_nil_2].
  intros Hg. cbn [fst snd] in Hg |- *. apply andb_prop in Hg as [Ho%Z.eqb_eq _].
  pose proof (if_lddw _ _ Hf Ho) as Hlt. pose proof program_bound. pose proof program_len as Hlen.
  apply wp_bind. eapply wp_lift.
  { apply augment_lddw_eq; [lia| |apply Hv]. rewrite Hlen, Hptr. unfold INSN_SIZE. lia. }
  pose proof (if_dst _ _ Hf) as Hdst.
  apply wp_bind, (wp_set_reg config B); [exact Hi|by apply reg_field_lt|range64|]. intros Hi1.
  apply wp_bind, (wp_get_reg_eq 11 pc); [lia| |].
  { cbn [reg]. rewrite list_lookup_insert_ne; [exact Hpc|]. cbn [dst]. unfold reg_field in Hdst. lia. }
  apply wp_bind. eapply wp_lift; [apply u64_add_small; lia|].
  apply wp_bind, (wp_set_reg config B); [exact Hi1|lia|unfold in_u; lia|]. intros Hi2.
  eapply wp_lift; [apply u64_add_small; lia|]. split; [done|lia].
Qed.

Lemma step_arms_ok :
  insn.(ptr) = pc ->
  Forall (arm_ok B s) (step_arms rust_of executable program program_vm_addr config insn (pc + 1)).
Proof.
  intros Hptr. pose proof program_bound. unfold step_arms. cbv zeta.
  repeat apply Forall_app_2.
  - by apply ld_arms_ok.
  - apply fall_through_ok; [lia|].
    pose proof (memory_arms_ok B pc insn s Hi Hf) as Hmem. rewrite !Forall_app in Hmem.
    repeat apply Forall_app_2; [apply Hmem..| | |].
    + by apply (alu32_arms_ok B pc).
    + by apply (alu64_arms_ok B pc).
    + by apply (pqr_arms_ok B pc).
  - apply jmp32_arms_ok.
  - apply jmp64_arms_ok.
  - apply Forall_cons_2; [|apply Forall_cons_2; [|apply Forall_cons_2; [|apply Forall_nil_2]]];
      intros Hg; cbn [fst snd] in *; apply Z.eqb_eq in Hg.
    + apply (wp_step_call_reg B insn pc); [done|done|lia|]. by apply (if_callx _ _ Hf).
    + apply (wp_step_call_imm B insn pc); [done|done|lia|lia].
    + by apply wp_step_exit.
Qed.
End ControlArms.
End Step.

(** ** The opcodes the interpreter knows *)

Definition version_executable (version : SBPFVersion) : Executable :=
  {| elf_bytes := []; sbpf_version := version; ro_section := Owned 0 []; text_section_vaddr := 0;
     text_section_range := (0, 0); entry_pc := 0; function_registry := ∅; loader := new_mock |}.

Definition step_guards `{Bo : LittleEndian} `{Ctx : ContextObject C} (rust_of : BuiltinFunction -> RustFunction C)
    (v : SBPFVersion) (o : Z) : list bool :=
  fst <$> step_arms rust_of (version_executable v) [] 0 default_config (mkInsn 0 o 0 0 0 0) 0.

Lemma step_guards_eq `{Bo : LittleEndian} `{Ctx : ContextObject C} (rust_of : BuiltinFunction -> RustFunction C)
    (executable : Executable) (program : list Z) (addr : Z) (config : Config) (insn : Insn) (next_pc : Z) :
  fst <$> step_arms rust_of executable program addr config insn next_pc
    = step_guards rust_of executable.(sbpf_version) insn.(opc).
Proof. reflexivity. Qed.

Lemma step_guards_known `{Bo : LittleEndian} `{Ctx : ContextObject C} (rust_of : BuiltinFunction -> RustFunction C)
    (v : SBPFVersion) (o : Z) (b : bool) :
  in_u 8 o -> (first_true (step_guards rust_of v o) = None <-> opcode_class v b o = None).
Proof.
  intros Ho. assert (Hin : o ∈ seqZ 0 256) by (apply elem_of_seqZ; unfold in_u in Ho; lia).
  clear Ho. revert o Hin. apply Forall_forall.
  destruct v, b; apply (bool_decide_unpack _); vm_compute; exact I.
Qed.

Lemma first_arm_None `{Bo : LittleEndian} `{Ctx : ContextObject C} (rust_of : BuiltinFunction -> RustFunction C)
    (executable : Executable) (program : list Z) (addr : Z) (config : Config) (insn : Insn) (next_pc : Z) :
  first_arm (step_arms rust_of executable program addr config insn next_pc) = None <->
  first_true (step_guards rust_of executable.(sbpf_version) insn.(opc)) = None.
Proof.
  rewrite first_arm_first_true, step_guards_eq.
  destruct (first_true _) as [i|] eqn:Hi; [|done]. split; [|done].
  apply first_true_lookup in Hi. rewrite <-step_guards_eq with (program := program) (addr := addr)
    (config := config) (next_pc := next_pc), list_lookup_fmap in Hi.
  cbn [mbind option_bind]. destruct (step_arms _ _ _ _ _ _ _ !! i); [done|done].
Qed.

(** * The run *)

Section Run.
Context `{Bo : LittleEndian}.
Context `{Ctx : ContextObject C}.
Context (rust_of : BuiltinFunction -> RustFunction C) `{Hlaws : !MeterLaws C}
  `{Hrust : !forall f, RustOk (rust_of f)}.
Context (executable : Executable) (program : list Z) (program_vm_addr : Z) (config : Config).
Hypothesis Hv : verified executable program config.
Let n := num_insns program.

(** The state between steps. *)
Record running (B : Z) (s : Interpreter C) : Prop := {
  run_inv : inv config B s;
  run_pc : exists pc, pc_is s pc /\ 0 <= pc <= n;
}.

Lemma wp_step_insn (B pc : Z) (s : Interpreter C) :
  inv config B s -> pc_is s pc -> 0 <= pc < n ->
  wp (step_insn rust_of executable program program_vm_addr config (insn_at program pc) (pc + 1))
    (next_ok program config B) (final config B) s.
Proof.
  intros Hi Hpc Hlt. unfold step_insn.
  destruct (slot_facts executable program config Hv pc Hlt) as [Hf|H0].
  - destruct (first_arm _) as [body|] eqn:Harm; [|by apply (wp_throw config B)].
    apply (first_arm_Forall (fun body => wp (body tt) (next_ok program config B) (final config B) s)
      (step_arms rust_of executable program program_vm_addr config (insn_at program pc) (pc + 1)));
      [|done].
    by apply (step_arms_ok rust_of executable program program_vm_addr config Hv B pc).
  - rewrite (proj2 (first_arm_None rust_of executable program program_vm_addr config _ _)).
    + by apply (wp_throw config B).
    + rewrite H0. apply (step_guards_known rust_of _ 0 false); [unfold in_u; lia|].
      by destruct (sbpf_version executable).
Qed.

Lemma due_step (B : Z) (s : Interpreter C) :
  inv config B s -> due_insn_count (vm s) < previous_instruction_meter (vm s) ->
  inv config (B - 1) (mkInterp (with_due (vm s) (due_insn_count (vm s) + 1)) (reg s)).
Proof.
  intros [[Hr Hf Hff Hd Hm Hl Hdue Hmeter Hb] Hreg Hdepth] Hlt. split; [split|done|done]; cbn; try done; lia.
Qed.

Lemma trace_step (B : Z) (s : Interpreter C) t :
  inv config B s -> inv config B (mkInterp (with_trace (vm s) t) (reg s)).
Proof. intros [[Hr Hf Hff Hd Hm Hl Hdue Hmeter Hb] Hreg Hdepth]. by split; [split|..]. Qed.

(** One step of a verified program: it ends in a running state with one
    instruction less on the meter, or the run ends. *)
Lemma step_spec (B : Z) (s : Interpreter C) :
  running B s ->
  match step rust_of executable program program_vm_addr s with
  | Ret s' => running (B - 1) s'
  | Err s' => final config B s'
  | Panic _ => False
  end.
Proof.
  intros [Hi (pc & Hpc & Hle)]. unfold step. pose proof (program_bound executable program config Hv).
  pose proof (program_len executable program config Hv) as Hlen. fold n in Hlen.
  enough (Hwp : wp (step_body rust_of executable program program_vm_addr)
    (fun _ s' => running (B - 1) s') (final config B) s).
  { unfold wp in Hwp. by destruct (step_body _ _ _ _ s) as [[? s']| |]. }
  unfold step_body. apply wp_bind. eapply (wp_lift _ config).
  { unfold executable_config, get_config. by rewrite (vf_config _ _ _ Hv). }
  apply wp_bind, wp_get_vm, wp_bind. rewrite (co_meter _ (vf_config_ok _ _ _ Hv)). cbn [andb].
  destruct (Z.leb_spec (previous_instruction_meter (vm s)) (due_insn_count (vm s))) as [Hge|Hlt];
    [by apply (wp_throw config B)|].
  apply wp_ret, wp_bind. pose proof (vo_due _ _ _ (inv_vm _ _ _ Hi)).
  pose proof (remaining_u64 (context_object (vm s))) as [_ Hrem].
  rewrite <-(vo_meter _ _ _ (inv_vm _ _ _ Hi)) in Hrem.
  eapply wp_lift; [apply u64_add_small; lia|]. apply wp_bind, wp_set_vm.
  pose proof (due_step B s Hi Hlt) as Hi1. set (s1 := mkInterp (with_due _ _) _) in *.
  assert (Hfin : forall s', final config (B - 1) s' -> final config B s').
  { intros s' [[? ? ? ? ? ? ? ? ?] ?]. split; [split; try done; lia|done]. }
  eapply wp_mono_final; [|exact Hfin]. clear Hfin.
  apply wp_bind, (wp_get_reg_eq 11 pc); [lia|exact Hpc|]. apply wp_bind.
  eapply (wp_lift _ (pc * INSN_SIZE)).
  { unfold u64_mul, u64_max, INSN_SIZE. rewrite (proj2 (Z.leb_le _ _)) by (unfold n in *; lia). done. }
  apply wp_bind. rewrite Hlen.
  destruct (Z.leb_spec (INSN_SIZE * n) (pc * INSN_SIZE)) as [Hover|Hin]; [by apply (wp_throw config (B - 1))|].
  unfold INSN_SIZE in Hin. assert (Hlt' : 0 <= pc < n) by lia.
  apply wp_ret, wp_bind. eapply wp_lift; [apply u64_add_small; unfold n in *; lia|].
  apply wp_bind. eapply (wp_lift _ (insn_at program pc)).
  { apply get_insn_unchecked_eq; [lia| |apply Hv]. rewrite Hlen. unfold INSN_SIZE. lia. }
  apply wp_bind.
  apply (wp_mono _ (fun _ s' => inv config (B - 1) s' /\ pc_is s' pc)).
  { destruct (enable_register_tracing config); [|by apply wp_ret].
    split; [by apply trace_step|exact Hpc]. }
  intros _ s2 [Hi2 Hpc2]. apply wp_bind.
  eapply wp_mono; [by apply (wp_step_insn (B - 1) pc s2)|].
  intros next s3 [Hi3 Hnext]. apply (wp_set_reg config (B - 1)); [done|lia|unfold in_u, n in *; lia|].
  intros Hi4. split; [done|]. exists next. split; [|done]. unfold pc_is. cbn [reg].
  apply list_lookup_insert_eq. destruct (inv_regs _ _ _ Hi3) as [-> _]. lia.
Qed.

(** The meter bounds the number of steps. *)
Lemma run_spec (fuel : nat) (B : Z) (s : Interpreter C) :
  running B s -> 0 <= B < Z.of_nat fuel ->
  exists s', run_interpreter rust_of executable program program_vm_addr fuel s = Ret s' /\
    final config B s'.
Proof.
  revert B s. induction fuel as [|fuel IH]; intros B s Hs HB; [lia|].
  cbn [run_interpreter]. pose proof (step_spec B s Hs) as Hstep.
  destruct (step rust_of executable program program_vm_addr s) as [s'|s'|f]; [|by eauto|done].
  assert (0 <= B - 1) as HB'.
  { destruct Hstep as [[[] _ _] _]. lia. }
  destruct (IH (B - 1) s' Hstep ltac:(lia)) as (s'' & Hrun & [[] Hres]).
  exists s''. split; [done|]. split; [split; try done; lia|done].
Qed.

(** A machine that can start a program. *)
Record vm_ready (self : EbpfVm C) : Prop := {
  vr_registers : regs_ok self.(registers);
  vr_frames : zlen self.(call_frames) = config.(max_call_depth);
  vr_frames_ok : Forall frame_ok self.(call_frames);
  vr_depth : 0 <= self.(call_depth) < config.(max_call_depth);
  vr_memory : mem_inv self.(host_memory) self.(memory_mapping);
  vr_loader : Program.config self.(vm_loader) = Some config;
}.

(** What a finished execution returns. *)
Definition execution_ok (initial count : Z) (result : ProgramResult) (self : EbpfVm C) : Prop :=
  0 <= count <= initial /\ get_remaining self.(context_object) = initial - count /\
  mem_inv self.(host_memory) self.(memory_mapping) /\ regs_ok self.(registers) /\
  match result with SOk value => in_u 64 value | SErr _ => True end.

Lemma execute_program_spec (fuel : nat) (self : EbpfVm C) :
  get_text_bytes (E := Interpreter C) executable = Ret (program_vm_addr, program) ->
  0 <= executable.(entry_pc) <= n -> vm_ready self ->
  get_remaining self.(context_object) < Z.of_nat fuel ->
  exists count result self',
    execute_program rust_of fuel executable self = Ret (count, result, self') /\
    execution_ok (get_remaining self.(context_object)) count result self'.
Proof.
  intros Htext Hentry [Hregs Hfr Hfok Hdepth Hmem Hload] Hfuel. unfold execute_program.
  pose proof (program_bound executable program config Hv).
  set (initial := get_remaining _) in *.
  pose proof (remaining_u64 (context_object self)) as [Hi0 Hi1]. fold initial in Hi0, Hi1.
  destruct (regs_set (E := Interpreter C) (registers self) 11 (entry_pc executable) Hregs ltac:(lia))
    as [Hset Hregs']; [unfold in_u, n in *; lia|].
  unfold get_entrypoint_instruction_offset. rewrite Hset. cbn [exec_bind].
  unfold executable_config, get_config. rewrite (vf_config _ _ _ Hv). cbn [expect exec_bind].
  rewrite Htext. cbn [exec_bind]. set (vm0 := with_result _ _).
  assert (Hrun : running initial (interpreter_new vm0 (registers vm0))).
  { split; [split; [split|..]|]; cbn; try (done || lia).
    exists (entry_pc executable). split; [|done]. unfold pc_is. cbn.
    apply list_lookup_insert_eq. destruct Hregs as [-> _]. lia. }
  destruct (run_spec fuel initial _ Hrun ltac:(lia)) as (s' & -> & [[] Hres]). cbn [exec_bind].
  rewrite (co_meter _ (vf_config_ok _ _ _ Hv)).
  eexists _, _, _. split; [done|]. unfold execution_ok. cbn.
  rewrite remaining_consume, <-vo_meter0 by lia. unfold u64_saturating_sub.
  split_and!; try done; lia.
Qed.
End Run.
