(* ===== verification/JitSafety.v ===== *)
(** Emission stays inside of the text section: every function of the JIT compiler that
    emits code, with a bound on the number of bytes, the anchors it needs, and the jumps it
    leaves for later. *)
From stdpp Require Import sorting.
From S2P Require Import Prelude Error Ebpf Program Executable Pages X86 Jit JitSubroutines JitCompile.
Open Scope list_scope.
Open Scope jit_scope.

(** * The length of an instruction *)

Definition size_bytes (size : OperandSize) : Z :=
  match size with S0 => 0 | S8 => 1 | S16 => 2 | S32 => 4 | S64 => 8 end.

(** At most this many bytes encode an instruction. *)
Definition x86_max (i : X86Instruction) : Z :=
  (if bool_decide (i.(x_size) = S16) then 1 else 0) + 1
  + (if i.(x_escape) =? 1 then 1 else if i.(x_escape) =? 2 then 2 else if i.(x_escape) =? 3 then 2 else 0) + 1
  + (if i.(x_modrm)
     then match i.(x_indirect) with None => 1 | Some _ => 6 end
     else 0)
  + size_bytes i.(x_imm_size).

(** The operand size is given and an offset is not relative to [RSP] or [R12]. *)
Definition x86_ok (i : X86Instruction) : bool :=
  negb (bool_decide (i.(x_size) = S0)) &&
  match i.(x_indirect) with
  | Some (Offset _) => negb i.(x_modrm) || negb (Z.land i.(x_second) 0x7 =? 4)
  | _ => true
  end.

Definition ins_ok {E} (e : Exec E X86Instruction) : bool :=
  match e with Ret i => x86_ok i | _ => false end.
Definition ins_max {E} (e : Exec E X86Instruction) : Z :=
  match e with Ret i => x86_max i | _ => 0 end.

Lemma zlen_variable_length (size : OperandSize) (data : Z) :
  zlen (variable_length size data) = size_bytes size.
Proof. unfold zlen. destruct size; cbn [variable_length]; rewrite ?length_le_bytes; done. Qed.

(** The addressing of an instruction: at most four bytes of displacement, and a SIB byte
    only with an index. *)
Lemma addressing_bound {E} (i : X86Instruction) :
  x86_ok i = true -> exists mode m x sib dsize d,
    addressing (E := E) i = Ret (mode, m, x, sib, dsize, d) /\
    match i.(x_indirect) with
    | Some _ => size_bytes dsize <= 4
    | None => size_bytes dsize = 0 /\ sib = mkSib 0 0 0
    end.
Proof.
  unfold x86_ok, addressing. intros [_ Hm]%andb_prop.
  destruct (x_modrm i); [|repeat eexists; destruct (x_indirect i); done].
  destruct (x_indirect i) as [[o|o idx sh]|].
  - cbn [negb orb] in Hm. apply negb_true_iff in Hm. rewrite Hm.
    destruct (fits_i8 o || _); repeat eexists; done.
  - destruct (fits_i8 o); repeat eexists; done.
  - repeat eexists; done.
Qed.

Lemma x86_bytes_bound {E} (i : X86Instruction) :
  x86_ok i = true -> exists bs, x86_bytes (E := E) i = Ret bs /\ zlen bs <= x86_max i.
Proof.
  intros Hok. destruct (addressing_bound (E := E) i Hok) as (mode & m & x & sib & dsize & d & Ha & Hd).
  unfold x86_ok in Hok. apply andb_prop in Hok as [Hs _]. apply negb_true_iff in Hs.
  unfold x86_bytes. rewrite Hs, Ha. cbn [exec_bind]. eexists. split; [reflexivity|].
  rewrite !zlen_app, !zlen_if, zlen_variable_length, !zlen_app, !zlen_if, zlen_variable_length.
  unfold x86_max.
  assert (forall b, zlen (le_bytes 2 b) = 2) as Hle by (intros; unfold zlen; by rewrite length_le_bytes).
  rewrite !Hle. change (zlen [?a]) with 1. change (zlen []) with 0.
  destruct (x_indirect i); [|destruct Hd as [-> ->]]; cbn [sib_scale sib_index sib_base];
    change (Z.lor (Z.lor (Z.shiftl 0 6) (Z.shiftl 0 3)) 0 =? 0) with true; cbv iota;
    repeat match goal with |- context [if ?b then _ else _] => destruct b end; lia.
Qed.

(** * What an emitter does *)

(** The fields that emitters of one guest instruction leave alone. *)
Record Frame := mkFrame {
  f_page_size : Z; f_pc_ptr : Z; f_text_ptr : Z; f_text_len : Z; f_pc_section : list Z; f_pc : Z;
  f_noop_range : Z; f_env_key : Z; f_key : Z;
}.

(** Jumps whose displacements lie between two offsets, one behind the other, with targets
    among [slots]. *)
Definition before (j1 j2 : Jump) : Prop := j1.(jump_location) + 4 <= j2.(jump_location).
Record jumps_between (lo hi slots : Z) (l : list Jump) : Prop := {
  jb_range : Forall (fun j => lo <= j.(jump_location) /\ j.(jump_location) + 4 <= hi /\
                              0 <= j.(jump_target_pc) < slots) l;
  jb_sorted : StronglySorted before l;
}.

Lemma jumps_between_nil (lo hi slots : Z) : jumps_between lo hi slots [].
Proof. split; constructor. Qed.

Lemma jumps_between_app (lo mid hi slots : Z) (l1 l2 : list Jump) :
  lo <= mid <= hi -> jumps_between lo mid slots l1 -> jumps_between mid hi slots l2 ->
  jumps_between lo hi slots (l1 ++ l2).
Proof.
  intros Hm [R1 S1] [R2 S2]. split.
  - apply Forall_app. split; (eapply Forall_impl; [eassumption|]); cbn; intros j; lia.
  - apply StronglySorted_app_2; [|done..]. intros j1 j2 H1 H2. unfold before.
    rewrite Forall_forall in R1, R2. specialize (R1 _ H1). specialize (R2 _ H2). cbn in *. lia.
Qed.

Section Emits.
Context `{Rnd : Rand} `{Host : JitHost}.

Definition frame (s : JitCompiler) : Frame :=
  mkFrame s.(jit_page_size) s.(jit_pc_ptr) s.(jit_text_ptr) s.(jit_text_len) s.(jit_pc_section) s.(jit_pc)
    s.(noop_range) s.(runtime_environment_key) s.(immediate_value_key).

(** The keys, the program counter and the section are in range: a counter leaves a table of
    offsets that fits, so that counters and their differences fit [i32]. *)
Record frame_ok (F : Frame) : Prop := {
  fo_env : - 2 ^ 27 <= F.(f_env_key) < 2 ^ 27;
  fo_key : in_s 64 F.(f_key);
  fo_pc : 0 <= F.(f_pc) < 2 ^ 30;
  fo_len : 0 <= F.(f_text_len) <= 2 ^ 31;
  fo_slots : zlen F.(f_pc_section) < 2 ^ 30;
  fo_entries : Forall (fun e => 0 <= e < F.(f_text_len)) F.(f_pc_section);
}.

(** Anchors are offsets in the code; those of [A] are set. *)
Record anchors_ok (A : list Z) (s : JitCompiler) : Prop := {
  ao_count : zlen s.(anchors) = ANCHOR_COUNT;
  ao_set : Forall (fun a => exists d, s.(anchors) !! Z.to_nat a = Some (Some d)) A;
  ao_range : forall i d, s.(anchors) !! i = Some (Some d) -> 0 <= d <= offset_in_text_section s;
}.

(** [s'] is [s] after at most [n] bytes more, with new jumps inside of these bytes. *)
Record extends (n : Z) (s s' : JitCompiler) : Prop := {
  ex_frame : frame s' = frame s;
  ex_code : exists data, s'.(jit_code) = s.(jit_code) ++ data /\ zlen data <= n;
  ex_jumps : exists l, s'.(text_section_jumps) = s.(text_section_jumps) ++ l /\
    jumps_between (offset_in_text_section s) (offset_in_text_section s') (zlen s.(jit_pc_section)) l;
  ex_count : zlen s'.(anchors) = zlen s.(anchors);
  ex_anchors : forall i d, s.(anchors) !! i = Some (Some d) -> exists d', s'.(anchors) !! i = Some (Some d');
  ex_range : (forall i d, s.(anchors) !! i = Some (Some d) -> 0 <= d <= offset_in_text_section s) ->
    forall i d, s'.(anchors) !! i = Some (Some d) -> 0 <= d <= offset_in_text_section s';
  ex_validation : s'.(last_instruction_meter_validation_pc) = s.(last_instruction_meter_validation_pc)
    \/ s'.(last_instruction_meter_validation_pc) = s.(jit_pc);
}.

Lemma extends_offset (n : Z) (s s' : JitCompiler) :
  extends n s s' -> offset_in_text_section s <= offset_in_text_section s' <= offset_in_text_section s + n.
Proof.
  intros [_ (data & Hc & Hd) _ _ _ _ _]. unfold offset_in_text_section. rewrite Hc, zlen_app.
  pose proof (zlen_nonneg data). lia.
Qed.

Lemma extends_refl (s : JitCompiler) : extends 0 s s.
Proof.
  split; [done| | |done| |done|by left].
  - exists []. by rewrite app_nil_r.
  - exists []. rewrite app_nil_r. split; [done|apply jumps_between_nil].
  - intros i d ->. by eexists.
Qed.

Lemma extends_trans (n m : Z) (s1 s2 s3 : JitCompiler) :
  extends n s1 s2 -> extends m s2 s3 -> extends (n + m) s1 s3.
Proof.
  intros H1 H2. pose proof (extends_offset _ _ _ H1) as Ho1. pose proof (extends_offset _ _ _ H2) as Ho2.
  destruct H1 as [F1 (d1 & C1 & N1) (l1 & J1 & L1) A1 S1 R1 V1], H2 as [F2 (d2 & C2 & N2) (l2 & J2 & L2) A2 S2 R2 V2].
  assert (s2.(jit_pc_section) = s1.(jit_pc_section) /\ s2.(jit_pc) = s1.(jit_pc)) as [Hp Hpc] by (by injection F1).
  split.
  - by rewrite F2.
  - exists (d1 ++ d2). rewrite C2, C1, <-app_assoc, zlen_app. split; [done|lia].
  - exists (l1 ++ l2). rewrite J2, J1, <-app_assoc. split; [done|]. rewrite Hp in L2.
    apply (jumps_between_app _ (offset_in_text_section s2)); [lia|done|done].
  - by rewrite A2.
  - intros i d Hi. apply S1 in Hi as [d' Hd']. by apply (S2 i d').
  - intros Hr. by apply R2, R1.
  - rewrite <-Hpc. destruct V2 as [-> | ->]; [rewrite Hpc; exact V1|by right].
Qed.

Lemma extends_anchors_ok (A : list Z) (n : Z) (s s' : JitCompiler) :
  extends n s s' -> anchors_ok A s -> anchors_ok A s'.
Proof.
  intros [_ _ _ Hc Hs Hr _] [Hn HA Hd]. split; [by rewrite Hc| |by apply Hr].
  eapply Forall_impl; [exact HA|]. cbn. intros a [d Hi]. by apply (Hs _ d).
Qed.

Lemma extends_weaken (n m : Z) (s s' : JitCompiler) : extends n s s' -> n <= m -> extends m s s'.
Proof. intros [F (d & C & N) J A S R V] Hm. split; [done| |done..]. exists d. split; [done|lia]. Qed.

Definition has_room (n : Z) (s : JitCompiler) : Prop := offset_in_text_section s + n <= s.(jit_text_len).

(** With the anchors of [A] set and room for [n] bytes, [m] returns, writes no more, and the
    anchors of [A'] are set. *)
Definition sets {T} (A : list Z) (F : Frame) (n : Z) (m : Jit T) (A' : list Z) : Prop :=
  forall s, frame s = F -> anchors_ok A s -> has_room n s ->
  exists t s', m s = Ret (t, s') /\ extends n s s' /\ anchors_ok A' s'.

(** Most code sets no anchors. *)
Abbreviation emits A F n m := (sets A F n m A).

(** ** Rules *)

Section Rules.
Context (A : list Z) (F : Frame).

Lemma emits_intro {T} (n : Z) (m : Jit T) :
  (forall s, frame s = F -> anchors_ok A s -> has_room n s -> exists t s', m s = Ret (t, s') /\ extends n s s') ->
  emits A F n m.
Proof.
  intros Hm s HF HA Hr. destruct (Hm s HF HA Hr) as (t & s' & E & Hx). exists t, s'.
  split_and!; [done|done|]. by apply (extends_anchors_ok A n s s').
Qed.

Lemma emits_weaken {T} (n n' : Z) (m : Jit T) (A' : list Z) : sets A F n m A' -> n <= n' -> sets A F n' m A'.
Proof.
  intros Hm Hn s HF HA Hr. unfold has_room in *.
  destruct (Hm s HF HA ltac:(unfold has_room; lia)) as (t & s' & E & Hx & HA'). exists t, s'.
  split_and!; [done|by apply (extends_weaken n)|done].
Qed.

Lemma emits_ret {T} (t : T) : emits A F 0 (j_ret t).
Proof. apply emits_intro. intros s _ _ _. exists t, s. split; [done|apply extends_refl]. Qed.

Lemma emits_nothing {T} (n : Z) (t : T) : 0 <= n -> emits A F n (j_ret t).
Proof. apply emits_weaken, emits_ret. Qed.

Lemma emits_bind {T U} (A1 A2 : list Z) (n k : Z) (m : Jit T) (f : T -> Jit U) :
  sets A F n m A1 -> (forall t, sets A1 F k (f t) A2) -> 0 <= k -> sets A F (n + k) (j_bind m f) A2.
Proof.
  intros Hm Hf Hk s HF HA Hr. unfold has_room in *.
  destruct (Hm s HF HA ltac:(unfold has_room; lia)) as (t & s1 & E1 & H1 & HA1).
  pose proof (extends_offset _ _ _ H1) as Ho. pose proof (ex_frame _ _ _ H1) as HF1. rewrite HF in HF1.
  assert (Hl : s1.(jit_text_len) = s.(jit_text_len)) by (destruct H1 as [H1 _ _ _ _ _ _]; by injection H1).
  destruct (Hf t s1 HF1 HA1 ltac:(unfold has_room; lia)) as (u & s2 & E2 & H2 & HA2).
  exists u, s2. unfold j_bind. rewrite E1. cbn [exec_bind fst snd].
  split_and!; [done|by apply (extends_trans n k s s1 s2)|done].
Qed.

(** A value taken from the state without changing it. *)
Lemma emits_read {T U} (n : Z) (m : Jit T) (P : T -> Prop) (f : T -> Jit U) (A' : list Z) :
  (forall s, frame s = F -> anchors_ok A s -> exists t, m s = Ret (t, s) /\ P t) ->
  (forall t, P t -> sets A F n (f t) A') -> sets A F n (j_bind m f) A'.
Proof.
  intros Hm Hf s HF HA Hr. destruct (Hm s HF HA) as (t & E & HP).
  destruct (Hf t HP s HF HA Hr) as (u & s' & E' & Hx). exists u, s'. unfold j_bind. by rewrite E.
Qed.

Lemma emits_lift {T U} (n : Z) (m : Exec EbpfError T) (t : T) (f : T -> Jit U) (A' : list Z) :
  m = Ret t -> sets A F n (f t) A' -> sets A F n (j_bind (j_lift m) f) A'.
Proof. intros -> Hf. apply (emits_read n _ (eq t)); [|by intros ? <-]. intros s _ _. by exists t. Qed.

Lemma emits_ret_bind {T U} (n : Z) (t : T) (f : T -> Jit U) (A' : list Z) :
  sets A F n (f t) A' -> sets A F n (j_bind (j_ret t) f) A'.
Proof. intros Hf. apply (emits_read n _ (eq t)); [|by intros ? <-]. intros s _ _. by exists t. Qed.

Lemma emits_pc {U} (n : Z) (f : Z -> Jit U) (A' : list Z) :
  sets A F n (f F.(f_pc)) A' -> sets A F n (j_bind get_pc f) A'.
Proof. intros Hf. apply (emits_read n _ (eq F.(f_pc))); [|by intros ? <-]. intros s <- _. by eexists. Qed.

Lemma emits_key {U} (n : Z) (f : Z -> Jit U) (A' : list Z) :
  sets A F n (f F.(f_key)) A' -> sets A F n (j_bind (gets immediate_value_key) f) A'.
Proof. intros Hf. apply (emits_read n _ (eq F.(f_key))); [|by intros ? <-]. intros s <- _. by eexists. Qed.

Lemma emits_get {U} (n : Z) (f : JitCompiler -> Jit U) (A' : list Z) :
  (forall s, frame s = F -> sets A F n (f s) A') -> sets A F n (j_bind get f) A'.
Proof. intros Hf. apply (emits_read n _ (fun s => frame s = F)); [|done]. intros s <- _. by eexists. Qed.

Lemma emits_gets {T U} (g : JitCompiler -> T) (n : Z) (f : T -> Jit U) (A' : list Z) :
  (forall t, sets A F n (f t) A') -> sets A F n (j_bind (gets g) f) A'.
Proof. intros Hf. apply (emits_read n _ (fun _ => True)); [|by intros]. intros s _ _. by eexists. Qed.

Lemma emits_assert {U} (b : bool) (n : Z) (f : unit -> Jit U) (A' : list Z) :
  b = true -> sets A F n (f tt) A' -> sets A F n (j_bind (debug_assert b) f) A'.
Proof. intros -> Hf. by apply emits_ret_bind. Qed.

Lemma emits_if (b : bool) (n : Z) (m : Jit unit) :
  (b = true -> emits A F n m) -> 0 <= n -> emits A F n (j_if b m).
Proof. intros Hm Hn. destruct b; [by apply Hm|by apply emits_nothing]. Qed.

Lemma emits_cases {T} (b : bool) (n : Z) (m m' : Jit T) (A' : list Z) :
  (b = true -> sets A F n m A') -> (b = false -> sets A F n m' A') -> sets A F n (if b then m else m') A'.
Proof. destruct b; auto. Qed.

Lemma emits_ite {T} (b : bool) (n n' : Z) (m m' : Jit T) (A' : list Z) :
  (b = true -> sets A F n m A') -> (b = false -> sets A F n' m' A') ->
  sets A F (Z.max n n') (if b then m else m') A'.
Proof.
  intros H1 H2. apply emits_cases; intros Hb;
    [eapply emits_weaken; [by apply H1|]|eapply emits_weaken; [by apply H2|]]; lia.
Qed.

Lemma emits_assoc {T U W} (n : Z) (m : Jit T) (f : T -> Jit U) (g : U -> Jit W) (A' : list Z) :
  sets A F n (j_bind (j_bind m f) g) A' -> sets A F n (j_bind m (fun t => j_bind (f t) g)) A'.
Proof.
  intros Hm s HF HA Hr. destruct (Hm s HF HA Hr) as (u & s' & E & Hx). exists u, s'. split; [|done].
  unfold j_bind in *. by destruct (m s).
Qed.

Lemma emits_for_each {T} (k : Z) (l : list T) (f : T -> Jit unit) :
  0 <= k -> Forall (fun t => emits A F k (f t)) l -> emits A F (zlen l * k) (for_each l f).
Proof.
  intros Hk. induction 1 as [|t l Ht Hl IH]; [apply emits_ret|]. cbn [for_each].
  rewrite zlen_cons. replace ((1 + zlen l) * k) with (k + zlen l * k) by lia.
  apply (emits_bind A); [done|done|]. pose proof (zlen_nonneg l). nia.
Qed.

(** ** Instructions *)

Lemma emit_extends (data : list Z) (s : JitCompiler) :
  has_room (zlen data) s -> exists s', emit data s = Ret (tt, s') /\ extends (zlen data) s s' /\
    s' = set_code (s.(jit_code) ++ data) s.
Proof.
  intros Hr. unfold emit. unfold has_room in Hr. rewrite (proj2 (Z.leb_le _ _)) by done.
  eexists. split; [done|]. split; [|done]. split; [done| | |done| | |by left]; cbn.
  - by exists data.
  - exists []. rewrite app_nil_r. split; [done|apply jumps_between_nil].
  - eauto.
  - intros Hd i d Hi. apply Hd in Hi. unfold offset_in_text_section in *. cbn. rewrite zlen_app.
    pose proof (zlen_nonneg data). lia.
Qed.

Lemma set_noop_extends (n : Z) (rng : Rng) (s : JitCompiler) : extends 0 s (set_noop n rng s).
Proof.
  split; [done| | |done| |done|by left]; cbn.
  - exists []. by rewrite app_nil_r.
  - exists []. rewrite app_nil_r. split; [done|apply jumps_between_nil].
  - eauto.
Qed.

(** The code that [emit_ins] appends: the instruction, and a byte of noop at most. *)
Lemma emit_ins_code (i : X86Instruction) (bs : list Z) (s : JitCompiler) :
  x86_bytes (E := EbpfError) i = Ret bs -> has_room (zlen bs + 1) s ->
  exists s' noop, emit_ins (Ret i) s = Ret (tt, s') /\ extends (zlen bs + 1) s s' /\
    s'.(jit_code) = s.(jit_code) ++ bs ++ noop /\ s'.(text_section_jumps) = s.(text_section_jumps).
Proof.
  intros Hb Hr. unfold emit_ins, j_bind, j_lift. cbn [exec_bind fst snd]. rewrite Hb. cbn [exec_bind fst snd].
  unfold has_room in Hr. pose proof (zlen_nonneg bs).
  destruct (emit_extends bs s) as (s1 & -> & H1 & Hs1); [unfold has_room; lia|].
  cbn [exec_bind fst snd get]. destruct (next_noop_insertion s1 =? 0).
  - destruct (sample_inclusive _ _) as [n rng]. cbn [modify exec_bind fst snd].
    destruct (emit_extends [0x90] (set_noop n rng s1)) as (s2 & -> & H2 & Hs2).
    { unfold has_room. rewrite Hs1. cbn. unfold offset_in_text_section in *. cbn. rewrite zlen_app.
      change (zlen [0x90]) with 1. lia. }
    exists s2, [0x90]. split_and!; [done| | |by rewrite Hs2, Hs1].
    + apply (extends_trans (zlen bs) 1 s s1 s2); [done|].
      apply (extends_trans 0 1 s1 (set_noop n rng s1) s2); [apply set_noop_extends|done].
    + rewrite Hs2, Hs1. cbn. by rewrite <-app_assoc.
  - exists (set_noop (next_noop_insertion s1 - 1) (diversification_rng s1) s1), [].
    split_and!; [done| | |by rewrite Hs1].
    + apply (extends_weaken (zlen bs + 0)); [|lia]. by apply (extends_trans _ _ s s1); [|apply set_noop_extends].
    + rewrite Hs1. cbn. by rewrite app_nil_r.
Qed.

Lemma emits_ins (e : Exec EbpfError X86Instruction) :
  ins_ok e = true -> emits A F (ins_max e + 1) (emit_ins e).
Proof.
  destruct e as [i| |]; [|done..]. cbn [ins_ok ins_max]. intros Hok. apply emits_intro. intros s HF HA Hr.
  destruct (x86_bytes_bound (E := EbpfError) i Hok) as (bs & Hb & Hn). unfold has_room in Hr.
  destruct (emit_ins_code i bs s Hb) as (s' & noop & E & Hx & _); [unfold has_room; lia|].
  exists tt, s'. split; [done|]. apply (extends_weaken (zlen bs + 1)); [done|lia].
Qed.

(** ** Slots, anchors and targets *)

Lemma emits_slot {U} (slot : RuntimeEnvironmentSlot) (n : Z) (f : Z -> Jit U) (A' : list Z) :
  frame_ok F -> (forall z, - 2 ^ 31 + 2 ^ 16 <= z < 2 ^ 31 - 2 ^ 16 -> sets A F n (f z) A') ->
  sets A F n (j_bind (slot_in_vm slot) f) A'.
Proof.
  intros HF Hf.
  apply (emits_read n _ (fun z => - 2 ^ 31 + 2 ^ 16 <= z < 2 ^ 31 - 2 ^ 16)); [|done]. intros s Hs _.
  pose proof (fo_env F HF) as He. pose proof (slot_offset_spec slot).
  exists (slot_offset slot - 8 * F.(f_env_key)). split; [|lia]. rewrite <-Hs in *. cbn [frame f_env_key] in *.
  unfold slot_in_vm, j_bind, gets, j_lift, i32_checked, i32_min, i32_max. cbn [exec_bind fst snd].
  rewrite !(proj2 (Z.leb_le _ _)) by lia. cbn [andb exec_bind fst snd]. by rewrite !(proj2 (Z.leb_le _ _)) by lia.
Qed.

Lemma emits_unassoc {T U W} (n : Z) (m : Jit T) (f : T -> Jit U) (g : U -> Jit W) (A' : list Z) :
  sets A F n (j_bind m (fun t => j_bind (f t) g)) A' -> sets A F n (j_bind (j_bind m f) g) A'.
Proof.
  intros Hm s HF HA Hr. destruct (Hm s HF HA Hr) as (u & s' & E & Hx). exists u, s'. split; [|done].
  unfold j_bind in *. by destruct (m s).
Qed.

Lemma emits_slot_access {U} (slot : RuntimeEnvironmentSlot) (n : Z) (f : X86IndirectAccess -> Jit U) (A' : list Z) :
  frame_ok F -> (forall z, sets A F n (f (Offset z)) A') -> sets A F n (j_bind (slot_access slot) f) A'.
Proof.
  intros HF Hf. unfold slot_access. apply emits_unassoc, emits_slot; [done|]. intros z _. by apply emits_ret_bind.
Qed.

Lemma emits_slot_plus {U} (slot : RuntimeEnvironmentSlot) (o n : Z) (f : X86IndirectAccess -> Jit U) (A' : list Z) :
  frame_ok F -> 0 <= o < 2 ^ 16 -> (forall z, sets A F n (f (Offset z)) A') ->
  sets A F n (j_bind (slot_plus slot o) f) A'.
Proof.
  intros HF Ho Hf. unfold slot_plus. apply emits_unassoc, emits_slot; [done|]. intros z Hz. apply emits_unassoc.
  eapply emits_lift; [|by apply emits_ret_bind]. unfold i32_checked, i32_min, i32_max.
  by rewrite !(proj2 (Z.leb_le _ _)) by lia.
Qed.

Lemma emits_relative {U} (a l n : Z) (f : Z -> Jit U) (A' : list Z) :
  a ∈ A -> 0 <= a -> (forall z, sets A F n (f z) A') -> sets A F n (j_bind (relative_to_anchor a l) f) A'.
Proof.
  intros Ha H0 Hf. apply (emits_read n _ (fun _ => True)); [|by intros]. intros s _ [_ HA _].
  rewrite Forall_forall in HA. destruct (HA a Ha) as [d Hd]. eexists. split; [|done].
  unfold relative_to_anchor, j_bind, get, j_lift. cbn [exec_bind fst snd].
  by rewrite (index_slice_lookup _ _ (Some d)).
Qed.

Lemma emits_to_anchor (jump : Z -> Exec EbpfError X86Instruction) (a l n : Z) :
  a ∈ A -> 0 <= a -> (forall z, ins_ok (jump z) = true /\ ins_max (jump z) + 1 <= n) ->
  emits A F n (emit_to_anchor jump a l).
Proof.
  intros Ha H0 Hj. unfold emit_to_anchor. apply emits_relative; [done|done|]. intros z. destruct (Hj z).
  eapply emits_weaken; [by apply emits_ins|done].
Qed.

(** A target whose code is known has a displacement; another is left for later. *)
Lemma relative_to_target_eq (target l : Z) (s : JitCompiler) :
  frame s = F -> frame_ok F -> 0 <= target < zlen F.(f_pc_section) ->
  exists e, F.(f_pc_section) !! Z.to_nat target = Some e /\ 0 <= e < F.(f_text_len) /\
    relative_to_target_pc target l s =
      if e =? 0
      then Ret (0, set_jumps (s.(text_section_jumps) ++ [mkJump (offset_in_text_section s + l - 4) target]) s)
      else Ret (as_i32 (e - (offset_in_text_section s + l)), s).
Proof.
  intros Hs HF Ht. unfold relative_to_target_pc, j_bind, get, j_lift. cbn [exec_bind fst snd].
  assert (Hp : s.(jit_pc_section) = F.(f_pc_section)) by (by rewrite <-Hs).
  assert (Htl : s.(jit_text_len) = F.(f_text_len)) by (by rewrite <-Hs).
  rewrite Hp. destruct (index_slice_Ret (E := EbpfError) F.(f_pc_section) target Ht) as (e & He & ->).
  exists e. pose proof (proj1 (Forall_forall _ _) (fo_entries F HF) e (list_elem_of_lookup_2 _ _ _ He)) as Hr.
  cbn in Hr. pose proof (fo_len F HF). split_and!; [done|lia|lia|]. cbn [exec_bind fst snd].
  destruct (e =? 0); cbn [negb]; [done|].
  assert (Z.land e i32_max = e) as ->.
  { unfold i32_max. change (2 ^ 31 - 1) with (Z.ones 31). rewrite Z.land_ones, Z.mod_small; lia. }
  unfold text_index. rewrite Htl, (proj2 (Z.leb_le _ _)), (proj2 (Z.ltb_lt _ _)) by lia. done.
Qed.

(** A jump of [l] bytes, the last four its displacement, to a target that may be known or
    not. *)
Lemma emits_to_target (jump : Z -> X86Instruction) (target l : Z) :
  0 <= target < zlen F.(f_pc_section) -> frame_ok F -> 4 <= l ->
  (forall z, exists bs, x86_bytes (E := EbpfError) (jump z) = Ret bs /\ zlen bs = l) ->
  emits A F (l + 1)
    (let* jump_offset := relative_to_target_pc target l in emit_ins (Ret (jump jump_offset))).
Proof.
  intros Ht HF Hl Hj. apply emits_intro. intros s Hs HA Hr.
  destruct (relative_to_target_eq target l s Hs HF Ht) as (e & He & _ & Heq).
  assert (Hp : s.(jit_pc_section) = F.(f_pc_section)) by (by rewrite <-Hs).
  unfold j_bind. rewrite Heq. destruct (e =? 0); cbn [exec_bind fst snd].
  - set (s1 := set_jumps _ s). destruct (Hj 0) as (bs & Hb & Hz).
    destruct (emit_ins_code (jump 0) bs s1 Hb) as (s' & noop & E & Hx & Hc & Hju); [by rewrite Hz|].
    exists tt, s'. split; [exact E|]. destruct Hx as [F1 C1 _ A1 S1 R1 V1]. rewrite Hz in C1. split; try done.
    exists [mkJump (offset_in_text_section s + l - 4) target]. split; [done|].
    split; [constructor; [|done]|by repeat constructor]. cbn [jump_location jump_target_pc]. rewrite Hp.
    unfold offset_in_text_section. rewrite Hc. cbn [s1 set_jumps jit_code]. rewrite !zlen_app, Hz.
    pose proof (zlen_nonneg noop). lia.
  - set (z := as_i32 _). destruct (Hj z) as (bs & Hb & Hz).
    destruct (emit_ins_code (jump z) bs s Hb) as (s' & noop & E & Hx & _); [by rewrite Hz|].
    exists tt, s'. by rewrite <-Hz.
Qed.

(** ** Anchors *)

Lemma set_anchor_extends (a : Z) (s : JitCompiler) :
  0 <= a < ANCHOR_COUNT -> anchors_ok A s ->
  exists s', set_anchor a s = Ret (tt, s') /\ extends 0 s s' /\ anchors_ok (a :: A) s' /\ frame s' = frame s.
Proof.
  intros Ha [Hn HA Hd]. unfold set_anchor, j_bind, get. cbn [exec_bind fst snd]. rewrite Hn.
  rewrite (proj2 (Z.leb_le _ _)), (proj2 (Z.ltb_lt _ _)) by lia. cbn [andb]. unfold modify.
  assert (Hlt : (Z.to_nat a < length s.(anchors))%nat) by (unfold zlen, ANCHOR_COUNT in *; lia).
  assert (Hold : forall i d, s.(anchors) !! i = Some (Some d) -> exists d',
    (<[Z.to_nat a := Some (offset_in_text_section s)]> s.(anchors)) !! i = Some (Some d')).
  { intros i d Hi. destruct (decide (i = Z.to_nat a)) as [->|Hne].
    - rewrite list_lookup_insert_eq by done. by eexists.
    - rewrite list_lookup_insert_ne by done. by exists d. }
  assert (Hnew : forall i d, (<[Z.to_nat a := Some (offset_in_text_section s)]> s.(anchors)) !! i = Some (Some d) ->
    0 <= d <= offset_in_text_section s).
  { intros i d Hi. apply list_lookup_insert_Some in Hi as [(_ & [= <-] & _)|[_ Hi]]; [|by apply (Hd i)].
    unfold offset_in_text_section. pose proof (zlen_nonneg s.(jit_code)). lia. }
  eexists. split; [reflexivity|]. split_and!; [|split|done]; cbn.
  - split; cbn; [done| | |by rewrite zlen_insert|done|done|by left].
    + exists []. by rewrite app_nil_r.
    + exists []. rewrite app_nil_r. split; [done|apply jumps_between_nil].
  - by rewrite zlen_insert.
  - constructor; [exists (offset_in_text_section s); by rewrite list_lookup_insert_eq|].
    eapply Forall_impl; [exact HA|]. cbn. intros b [d Hb]. by apply (Hold _ d).
  - exact Hnew.
Qed.

End Rules.

Lemma emits_anchor (A : list Z) (F : Frame) (a : Z) :
  0 <= a < ANCHOR_COUNT -> sets A F 0 (set_anchor a) (a :: A).
Proof.
  intros Ha s HF HA Hr. destruct (set_anchor_extends A a s Ha HA) as (s1 & E1 & H1 & HA1 & _). by exists tt, s1.
Qed.
End Emits.

Abbreviation emits A F n m := (sets A F n m A).

(** Numbers of bytes. *)
Ltac zle := apply Z.leb_le; vm_compute; reflexivity.
(** Anchors that are known to be set. *)
Ltac anchor := first [assumption | apply (bool_decide_unpack _); vm_compute; reflexivity].

Create HintDb emits discriminated.

Lemma emits_load_immediate `{Rnd : Rand} (A : list Z) (F : Frame) (r : X86Register) (z : Z) :
  emits A F 11 (emit_ins (load_immediate r z)).
Proof.
  unfold load_immediate.
  repeat match goal with |- context [if ?b then _ else _] => destruct b end;
    (eapply emits_weaken; [by apply emits_ins|zle]).
Qed.

(** Calls of host functions, see below. *)
Ltac emits_call := fail.

(** Takes an emitter apart; the number of bytes is found on the way. *)
Ltac emits_go :=
  lazymatch goal with
  | |- sets _ _ _ (j_bind get_pc _) _ => apply emits_pc; cbv beta; emits_go
  | |- sets _ _ _ (j_bind (j_lift (Ret _)) _) _ => eapply emits_lift; [reflexivity|emits_go]
  | |- sets _ _ _ (j_bind (j_lift _) _) _ => eapply emits_lift; [solve [eauto with emits]|emits_go]
  | |- sets _ _ _ (j_bind (j_ret _) _) _ => apply emits_ret_bind; cbv beta; emits_go
  | |- sets _ _ _ (j_bind (gets immediate_value_key) _) _ => apply emits_key; cbv beta zeta; emits_go
  | |- sets _ _ _ (j_bind (gets _) _) _ => apply emits_gets; intros ?; emits_go
  | |- sets _ _ _ (j_bind get _) _ => apply emits_get; intros ? ?; emits_go
  | |- sets _ _ _ (j_bind (slot_in_vm _) _) _ => apply emits_slot; [eassumption|intros ? _; emits_go]
  | |- sets _ _ _ (j_bind (slot_access _) _) _ => apply emits_slot_access; [eassumption|intros ?; emits_go]
  | |- sets _ _ _ (j_bind (slot_plus _ _) _) _ => apply emits_slot_plus; [eassumption|done|intros ?; emits_go]
  | |- sets _ _ _ (j_bind (debug_assert _) _) _ => apply emits_assert; [reflexivity|emits_go]
  | |- sets _ _ _ (j_bind _ _) _ => eapply emits_bind; [emits_go|intros ?; emits_go|zle]
  | |- sets _ _ _ (set_anchor _) _ => apply emits_anchor; split; [zle|apply Z.ltb_lt; vm_compute; reflexivity]
  | |- sets _ _ _ (j_if false _) _ => apply emits_ret
  | |- sets _ _ _ (j_if _ _) _ => apply emits_if; [intros ?; emits_go|zle]
  | |- sets _ _ _ (if _ then _ else _) _ => apply emits_ite; intros ?; emits_go
  | |- sets _ _ _ (for_each ?l ?f) _ =>
      let l' := eval vm_compute in l in change (for_each l f) with (for_each l' f); cbn [for_each];
      lazymatch goal with |- sets _ _ _ (for_each _ _) _ => fail | _ => emits_go end
  | |- sets _ _ _ (j_ret _) _ => apply emits_ret
  | |- sets _ _ _ (emit_to_anchor _ _ _) _ =>
      apply (emits_to_anchor _ _ _ _ _ 8); [anchor|zle|intros; split; [reflexivity|zle]]
  | |- sets _ _ _ (emit_ins (load_immediate _ _)) _ => apply emits_load_immediate
  | |- sets ?A ?F _ (emit_ins ?e) _ =>
      let k := eval vm_compute in (ins_max e + 1) in
      refine (emits_weaken A F (ins_max e + 1) k (emit_ins e) A _ _);
      [apply emits_ins; vm_compute; reflexivity|zle]
  | |- sets _ _ _ (emit_rust_call _ _ None) _ => emits_call
  | |- _ => solve [eauto 2 with emits]
  end.
Ltac emits_by := eapply emits_weaken; [emits_go|zle].
