(* ===== verification/JitEmitters.v ===== *)
(** Bounds on the bytes of the emitters of the JIT compiler (src/jit.rs), from immediate values
    to the subroutines. *)
From S2P Require Import Prelude Error Ebpf Program Executable X86 Jit JitSubroutines JitSafety.
Open Scope list_scope.
Open Scope jit_scope.

Definition wide (size : OperandSize) : Prop := size = S32 \/ size = S64.

Section Emitters.
Context `{Rnd : Rand} `{Host : JitHost}.
Context (config : Config) (v : SBPFVersion).
Context (A : list Z) (F : Frame) (HF : frame_ok F).

Lemma i32_range_true (z : Z) : in_s 32 z -> (i32_min <=? z) && (z <=? i32_max) = true.
Proof. unfold in_s, i32_min, i32_max. intros. rewrite !(proj2 (Z.leb_le _ _)) by lia. done. Qed.

(** Constants of 32 bits take two instructions. *)
Lemma emits_sanitized_load_i32 (r : X86Register) (z : Z) :
  in_s 32 z -> emits A F 19 (emit_sanitized_load_immediate r z).
Proof.
  intros Hz. unfold emit_sanitized_load_immediate. apply emits_key. rewrite (i32_range_true z Hz). emits_by.
Qed.

Lemma emits_sanitized_load (r : X86Register) (z : Z) : emits A F 32 (emit_sanitized_load_immediate r z).
Proof. unfold emit_sanitized_load_immediate. emits_by. Qed.

Lemma emits_load_constant_i32 (r : X86Register) (z : Z) :
  in_s 32 z -> emits A F 19 (emit_load_constant config r z).
Proof.
  intros Hz. unfold emit_load_constant.
  eapply emits_weaken; [apply emits_ite; intros _; [by apply emits_sanitized_load_i32|emits_go]|zle].
Qed.

Lemma emits_load_constant (r : X86Register) (z : Z) : emits A F 32 (emit_load_constant config r z).
Proof.
  unfold emit_load_constant.
  eapply emits_weaken; [apply emits_ite; intros _; [apply emits_sanitized_load|emits_go]|zle].
Qed.

#[local] Hint Resolve emits_sanitized_load_i32 emits_sanitized_load emits_load_constant : emits.

Lemma emits_sanitized_alu_i32 (size : OperandSize) (op ext : Z) (r : X86Register) (z : Z) :
  wide size -> in_s 32 z -> emits A F 23 (emit_sanitized_alu config size op ext r z).
Proof.
  intros [-> | ->] Hz; unfold emit_sanitized_alu; rewrite (i32_range_true z Hz);
    (eapply emits_weaken; [apply emits_ite; intros _; [eapply emits_bind;
      [by apply emits_sanitized_load_i32|intros _; emits_go|zle]|emits_go]|zle]).
Qed.

Lemma emits_sanitized_alu (size : OperandSize) (op ext : Z) (r : X86Register) (z : Z) :
  wide size -> emits A F 36 (emit_sanitized_alu config size op ext r z).
Proof. intros [-> | ->]; unfold emit_sanitized_alu; emits_by. Qed.

(** ** The instruction meter *)

Definition meter_anchor : Z := ANCHOR_THROW_EXCEEDED_MAX_INSTRUCTIONS.

Lemma set_validation_extends (s : JitCompiler) : extends 0 s (set_validation_pc s.(jit_pc) s).
Proof.
  split; [done| | |done| |done|by right]; cbn.
  - exists []. by rewrite app_nil_r.
  - exists []. rewrite app_nil_r. split; [done|apply jumps_between_nil].
  - eauto.
Qed.

Lemma emits_validation : emits A F 0 (modify (set_validation_pc F.(f_pc))).
Proof. apply emits_intro. intros s <- _ _. eexists _, _. split; [done|apply set_validation_extends]. Qed.

Lemma as_i64_small (z : Z) : - 2 ^ 63 <= z < 2 ^ 63 -> as_i64 z = z.
Proof. intros. apply swrap_small; [done|]. unfold in_s. lia. Qed.

Lemma pc_i64 : as_i64 F.(f_pc) = F.(f_pc).
Proof. pose proof (fo_pc F HF). apply as_i64_small. lia. Qed.

Lemma emits_validate : meter_anchor ∈ A ->
  emits A F 31 (emit_validate_instruction_count config (Some F.(f_pc))).
Proof.
  intros Ha. unfold emit_validate_instruction_count. rewrite pc_i64. pose proof (fo_pc F HF).
  apply emits_cases; intros _; [by apply emits_nothing|].
  apply (emits_bind A F A A 19 12); [|intros _; emits_by|done].
  apply (emits_bind A F A A 0 19); [apply emits_validation|intros _|done].
  apply emits_sanitized_load_i32. unfold in_s. lia.
Qed.

Lemma emits_validate_none : meter_anchor ∈ A ->
  emits A F 12 (emit_validate_instruction_count config None).
Proof. intros Ha. unfold emit_validate_instruction_count. emits_by. Qed.

Lemma i64_sub_Ret {E} (a b : Z) : in_s 64 (a - b) -> i64_sub (E := E) a b = Ret (a - b).
Proof. unfold i64_sub, in_s, i64_min, i64_max. intros. by rewrite !(proj2 (Z.leb_le _ _)) by lia. Qed.
Lemma i64_add_Ret {E} (a b : Z) : in_s 64 (a + b) -> i64_add (E := E) a b = Ret (a + b).
Proof. unfold i64_add, in_s, i64_min, i64_max. intros. by rewrite !(proj2 (Z.leb_le _ _)) by lia. Qed.

Lemma emits_profile (target : Z) : 0 <= target <= 2 ^ 30 ->
  emits A F 23 (emit_profile_instruction_count config (Some target)).
Proof.
  intros Ht. unfold emit_profile_instruction_count. pose proof (fo_pc F HF).
  apply emits_cases; intros _; [by apply emits_nothing|].
  apply emits_pc. rewrite pc_i64, (as_i64_small target) by lia.
  eapply emits_lift; [apply i64_sub_Ret; unfold in_s; lia|].
  eapply emits_lift; [apply i64_sub_Ret; unfold in_s; lia|].
  apply emits_sanitized_alu_i32; [by right|unfold in_s; lia].
Qed.

Lemma emits_undo (target : Z) : 0 <= target <= 2 ^ 30 ->
  emits A F 23 (emit_undo_profile_instruction_count config target).
Proof.
  intros Ht. unfold emit_undo_profile_instruction_count. pose proof (fo_pc F HF).
  apply emits_cases; intros _; [|by apply emits_nothing].
  apply emits_pc. rewrite pc_i64, (as_i64_small target) by lia.
  eapply emits_lift; [apply i64_add_Ret; unfold in_s; lia|].
  eapply emits_lift; [apply i64_sub_Ret; unfold in_s; lia|].
  apply emits_sanitized_alu_i32; [by right|unfold in_s; lia].
Qed.

Lemma emits_validate_and_profile (target : Z) : meter_anchor ∈ A -> 0 <= target <= 2 ^ 30 ->
  emits A F 54 (emit_validate_and_profile_instruction_count config (Some target)).
Proof.
  intros Ha Ht. unfold emit_validate_and_profile_instruction_count. apply emits_pc.
  apply (emits_bind A F A A 31 23); [by apply emits_validate|intros _; by apply emits_profile|done].
Qed.

(** ** Calls *)

(** An argument that is passed in a register. *)
Definition register_argument (argument : Argument) : Prop :=
  0 <= argument.(arg_index) < 6 /\
  match argument.(arg_value) with
  | VRegister _ => True
  | VRegisterIndirect r _ user | VRegisterPlusConstant32 r _ user =>
      user = false /\ (r = RSP \/ r = REGISTER_PTR_TO_VM)
  | VRegisterPlusConstant64 _ _ user | VConstant64 _ user => user = false
  end.

Lemma emits_argument (argument : Argument) :
  register_argument argument -> emits A F 16 (pass_argument argument).
Proof.
  destruct argument as [i value]. intros [Hi Hv]. unfold pass_argument. cbn [arg_index arg_value] in *.
  change (zlen ARGUMENT_REGISTERS) with 6. rewrite (proj2 (Z.leb_gt _ _)) by lia.
  destruct (index_slice_Ret (E := EbpfError) ARGUMENT_REGISTERS i Hi) as (dst & _ & Hdst).
  eapply emits_lift; [exact Hdst|]. cbn [negb andb].
  destruct value as [r|r o user|r o user|r o user|o user]; cbn in Hv |- *.
  - emits_by.
  - destruct Hv as [-> [-> | ->]]; apply emits_assert; try done;
      (rewrite bool_decide_eq_true_2 by done) || (rewrite bool_decide_eq_false_2 by done); emits_by.
  - destruct Hv as [-> [-> | ->]]; apply emits_assert; try done;
      (rewrite bool_decide_eq_true_2 by done) || (rewrite bool_decide_eq_false_2 by done); emits_by.
  - subst user. emits_by.
  - subst user. emits_by.
Qed.

Definition call_target (target : Value) : Prop :=
  match target with VRegister _ => True | VConstant64 _ user => user = false | _ => False end.

Lemma emits_rust_call (target : Value) (arguments : list Argument) :
  call_target target -> Forall register_argument arguments -> zlen arguments <= 6 ->
  emits A F (77 + zlen arguments * 16) (emit_rust_call target arguments None).
Proof.
  intros Ht Ha Hn. unfold emit_rust_call. pose proof (zlen_nonneg arguments).
  assert (u64_saturating_sub (zlen arguments) (zlen ARGUMENT_REGISTERS) = 0) as ->.
  { unfold u64_saturating_sub. change (zlen ARGUMENT_REGISTERS) with 6. lia. }
  change (negb (0 mod 2 =? 0)) with false. cbn [j_if].
  replace (77 + zlen arguments * 16) with (27 + (0 + (zlen arguments * 16 + 50))) by lia.
  apply (emits_bind A F A); [apply (emits_for_each _ _ 3 CALLER_SAVED_REGISTERS); [done|]|intros _|lia].
  { repeat (constructor; [emits_by|]). constructor. }
  apply (emits_bind A F A); [apply emits_ret|intros _|lia].
  apply (emits_bind A F A); [apply emits_for_each; [done|]|intros _|lia].
  { eapply Forall_impl; [exact Ha|]. apply emits_argument. }
  apply (emits_bind A F A A 15 35); [|intros _|done].
  { destruct target as [r| | | |z user]; [emits_by|done|done|done|]. cbn in Ht. subst user. emits_by. }
  emits_by.
Qed.

(** ** Jumps to targets *)

Definition target_ok (target : Z) : Prop := 0 <= target < zlen F.(f_pc_section).

Lemma target_small (target : Z) : target_ok target -> 0 <= target <= 2 ^ 30.
Proof. intros Ht. pose proof (fo_slots F HF). unfold target_ok in Ht. lia. Qed.

Lemma emits_jump_target (target : Z) : target_ok target ->
  emits A F 6 (let* o := relative_to_target_pc target 5 in emit_ins (jump_immediate o)).
Proof.
  intros Ht. apply (emits_to_target A F (fun z => mkX86 S32 0 0xe9 false None 0 0 S32 z) target 5); try done.
  intros z. by eexists.
Qed.

Lemma emits_call_target (target : Z) : target_ok target ->
  emits A F 6 (let* o := relative_to_target_pc target 5 in emit_ins (call_immediate o)).
Proof.
  intros Ht. apply (emits_to_target A F (fun z => mkX86 S32 0 0xe8 false None 0 0 S32 z) target 5); try done.
  intros z. by eexists.
Qed.

Lemma emits_branch (op target : Z) : target_ok target -> emits A F 30 (emit_branch config op target).
Proof.
  intros Ht. unfold emit_branch. apply emits_assoc.
  apply (emits_bind A F A A 7 23); [|intros _; by apply emits_undo, target_small|done].
  apply (emits_to_target A F (fun z => mkX86 S32 1 op false None 0 0 S32 z) target 6); try done.
  intros z. by eexists.
Qed.

Lemma emits_internal_call_reg (r : X86Register) :
  ANCHOR_INTERNAL_FUNCTION_CALL_PROLOGUE ∈ A -> ANCHOR_INTERNAL_FUNCTION_CALL_REG ∈ A ->
  emits A F 78 (emit_internal_call config (VRegister r)).
Proof.
  intros Hp Hr. unfold emit_internal_call. apply emits_pc.
  apply (emits_bind A F A A 11 67); [emits_by|intros _|done].
  apply (emits_bind A F A A 0 67); [apply emits_validation|intros _|done].
  apply (emits_bind A F A A 8 59); [emits_by|intros _|done].
  apply (emits_bind A F A A 21 38); [emits_by|intros _|done].
  apply (emits_bind A F A A 23 15); [by apply emits_undo|intros _; emits_by|done].
Qed.

Lemma emits_internal_call (target : Z) :
  ANCHOR_INTERNAL_FUNCTION_CALL_PROLOGUE ∈ A -> target_ok target ->
  emits A F 105 (emit_internal_call config (VConstant64 target true)).
Proof.
  intros Hp Ht. pose proof (target_small target Ht) as Hs. unfold emit_internal_call. apply emits_pc.
  assert (as_u64 target = target) as -> by (unfold as_u64; rewrite uwrap_small; unfold in_u; lia).
  apply (emits_bind A F A A 11 94); [emits_by|intros _|done].
  apply (emits_bind A F A A 0 94); [apply emits_validation|intros _|done].
  apply (emits_bind A F A A 8 86); [emits_by|intros _|done].
  apply (emits_bind A F A A 48 38); [|intros _|done].
  - apply emits_assert; [done|]. apply (emits_bind A F A A 23 25); [by apply emits_profile|intros _|done].
    apply (emits_bind A F A A 19 6); [|intros _; by apply emits_call_target|done].
    apply (emits_load_constant_i32 REGISTER_SCRATCH target). unfold in_s. lia.
  - apply (emits_bind A F A A 23 15); [by apply emits_undo|intros _; emits_by|done].
Qed.

(** ** Memory *)

Definition translation_anchor (base len : Z) : Z := ANCHOR_TRANSLATE_MEMORY_ADDRESS + base + trailing_zeros len.
Definition access_len (len : Z) : Prop := len = 1 \/ len = 2 \/ len = 4 \/ len = 8.

Lemma emits_direct_access (dst : option X86Register) (len : Z) :
  access_len len -> emits A F 28 (emit_direct_access dst len).
Proof.
  intros Hl. unfold emit_direct_access.
  destruct Hl as [-> |[-> |[-> | ->]]], dst as [d|]; cbn [Z.eqb Pos.eqb]; emits_by.
Qed.

(** The value to store, and whether there is one. *)
Definition stored_ok (dst : option X86Register) (value : option Value) : Prop :=
  match dst, value with
  | Some _, None => True
  | None, Some (VRegister _) => True
  | None, Some (VConstant64 _ user) => user = true
  | _, _ => False
  end.
Definition anchor_base (value : option Value) : Z :=
  match value with Some (VRegister _) => 4 | Some (VConstant64 _ _) => 8 | _ => 0 end.

Lemma emits_address_translation (dst : option X86Register) (r : X86Register) (off len : Z) (value : option Value) :
  stored_ok dst value -> in_s 32 off -> access_len len ->
  translation_anchor (anchor_base value) len ∈ A ->
  emits A F 80 (emit_address_translation config dst (VRegisterPlusConstant64 r off true) len value).
Proof.
  intros Hv Ho Hl Ha. unfold emit_address_translation. apply emits_assert.
  { destruct dst, value; cbn in Hv |- *; try done; by rewrite ?bool_decide_eq_true_2, ?bool_decide_eq_false_2 by eauto. }
  apply (emits_bind A F A A 20 60); [|intros _|done].
  { destruct dst, value as [[]|]; cbn in Hv; subst; try done; emits_by. }
  apply (emits_bind A F A A 23 37); [|intros _|done].
  { apply (emits_bind A F A A 19 4); [by apply (emits_load_constant_i32 REGISTER_SCRATCH off)|intros _; emits_by|done]. }
  apply emits_cases; intros _; [|by apply (emits_weaken _ _ 28); [apply emits_direct_access|]].
  fold (anchor_base value). apply emits_pc.
  apply (emits_bind A F A A 7 30); [emits_by|intros _|done].
  apply (emits_bind A F A A 8 22); [|intros _; destruct dst; emits_by|done].
  apply emits_to_anchor; [done| |intros z; split; [done|zle]].
  unfold anchor_base, ANCHOR_TRANSLATE_MEMORY_ADDRESS.
  destruct Hl as [-> |[-> |[-> | ->]]], value as [[]|]; cbn; lia.
Qed.

(** ** Branches *)

Lemma emits_conditional_branch_reg (size : OperandSize) (op : Z) (bitwise : bool) (r1 r2 : X86Register) (target : Z) :
  wide size -> meter_anchor ∈ A -> target_ok target ->
  emits A F 88 (emit_conditional_branch_reg config size op bitwise r1 r2 target).
Proof.
  intros Hs Ha Ht. unfold emit_conditional_branch_reg.
  apply (emits_bind A F A A 54 34); [by apply emits_validate_and_profile, target_small|intros _|done].
  apply (emits_bind A F A A 4 30); [destruct Hs as [-> | ->]; emits_by|intros _; by apply emits_branch|done].
Qed.

Lemma emits_conditional_branch_imm (size : OperandSize) (op : Z) (bitwise : bool) (z : Z) (r : X86Register) (target : Z) :
  wide size -> in_s 32 z -> meter_anchor ∈ A -> target_ok target ->
  emits A F 107 (emit_conditional_branch_imm config size op bitwise z r target).
Proof.
  intros Hs Hz Ha Ht. unfold emit_conditional_branch_imm.
  apply (emits_bind A F A A 54 53); [by apply emits_validate_and_profile, target_small|intros _|done].
  apply (emits_bind A F A A 23 30); [|intros _; by apply emits_branch|done].
  destruct Hs as [-> | ->]; (apply emits_cases; intros _; [|emits_by]);
    (apply (emits_bind A F A A 19 4); [by apply emits_sanitized_load_i32|intros _; emits_by|done]).
Qed.

(** ** Arithmetic *)

Lemma emits_shift (size : OperandSize) (ext : Z) (src dst : X86Register) (imm : option Z) :
  wide size -> emits A F 22 (emit_shift size ext src dst imm).
Proof. intros Hs. unfold emit_shift. destruct imm, Hs as [-> | ->]; emits_by. Qed.

Lemma emits_division_checks (size : OperandSize) (signed : bool) (src dst : X86Register) (imm : option Z) :
  wide size -> ANCHOR_DIV_BY_ZERO ∈ A -> ANCHOR_DIV_OVERFLOW ∈ A ->
  emits A F (match imm with None => 90 | Some _ => 34 end) (emit_division_checks size signed src dst imm).
Proof.
  intros Hs H1 H2. unfold emit_division_checks.
  destruct imm; rewrite ?bool_decide_eq_true_2, ?bool_decide_eq_false_2 by done; cbn [j_if];
    destruct Hs as [-> | ->]; emits_by.
Qed.

Lemma emits_pqr (size : OperandSize) (alt division signed : bool) (src dst : X86Register) (imm : option Z) :
  wide size -> ANCHOR_DIV_BY_ZERO ∈ A -> ANCHOR_DIV_OVERFLOW ∈ A ->
  emits A F 130 (emit_product_quotient_remainder config v size alt division signed src dst imm).
Proof.
  intros Hs H1 H2. unfold emit_product_quotient_remainder.
  set (checks := emit_division_checks _ _ _ _ _).
  assert (Hc : emits A F (match imm with None => 90 | Some _ => 34 end) (j_if division checks)).
  { apply emits_if; [intros _; by apply emits_division_checks|by destruct imm]. }
  apply (emits_weaken _ _ (match imm with None => 90 | Some _ => 34 end
    + (match imm with None => 4 | Some _ => 32 end + 36))); [|by destruct imm].
  apply (emits_bind A F A); [exact Hc|intros _|by destruct imm].
  apply (emits_bind A F A); [destruct imm; [apply emits_load_constant|emits_by]|intros _|done].
  destruct Hs as [-> | ->], division, signed; emits_by.
Qed.

(** ** Results *)

Lemma emits_set_exception_kind (err : EbpfError) : emits A F 35 (emit_set_exception_kind err).
Proof. unfold emit_set_exception_kind. emits_by. Qed.

Lemma emits_result_is_err : emits A F 22 (emit_result_is_err REGISTER_SCRATCH).
Proof. unfold emit_result_is_err. emits_by. Qed.
End Emitters.

#[export] Hint Resolve emits_set_exception_kind emits_result_is_err : emits.
#[export] Hint Extern 1 (sets _ _ _ (emit_validate_instruction_count _ None) _) =>
  apply emits_validate_none; anchor : emits.

Ltac emits_call ::=
  lazymatch goal with
  | |- sets ?A ?F _ (emit_rust_call ?target ?arguments None) _ =>
      let k := eval vm_compute in (77 + zlen arguments * 16) in
      refine (emits_weaken A F (77 + zlen arguments * 16) k (emit_rust_call target arguments None) A _ _);
      [apply emits_rust_call; [done|repeat (constructor; [by repeat split; auto|]); constructor|done]|zle]
  end.

Lemma program_size `{Rnd : Rand} (F : Frame) (s : JitCompiler) :
  frame_ok F -> frame s = F ->
  u64_mul (E := EbpfError) (zlen s.(jit_pc_section)) INSN_SIZE = Ret (zlen F.(f_pc_section) * INSN_SIZE).
Proof.
  intros HF <-. pose proof (fo_slots _ HF). cbn [frame f_pc_section] in *. unfold u64_mul, INSN_SIZE, u64_max in *.
  by rewrite (proj2 (Z.leb_le _ _)) by lia.
Qed.
#[export] Hint Resolve program_size : emits.

(** * The subroutines *)

Section Subroutines.
Context `{Rnd : Rand} `{Host : JitHost}.
Context (config : Config) (v : SBPFVersion) (program_vm_addr : Z).
Context (F : Frame) (HF : frame_ok F).

Definition trace_anchors : list Z := if config.(enable_register_tracing) then [ANCHOR_TRACE] else [].

Lemma sets_trace_routine : sets [] F 182 (emit_trace_routine config) trace_anchors.
Proof.
  unfold emit_trace_routine, trace_anchors.
  destruct (enable_register_tracing config); cbn [j_if]; [emits_by|by apply emits_nothing].
Qed.

(** The anchors in the order in which they are set. *)
Definition epilogue_anchors : list Z := ANCHOR_EPILOGUE :: trace_anchors.
Definition exit_anchors : list Z :=
  [ANCHOR_THROW_EXCEPTION; ANCHOR_EXIT; ANCHOR_THROW_EXCEPTION_UNCHECKED;
   ANCHOR_THROW_EXCEEDED_MAX_INSTRUCTIONS] ++ epilogue_anchors.
Definition error_anchors : list Z :=
  [ANCHOR_CALL_UNSUPPORTED_INSTRUCTION; ANCHOR_CALL_REG_UNSUPPORTED_INSTRUCTION; ANCHOR_DIV_OVERFLOW;
   ANCHOR_DIV_BY_ZERO; ANCHOR_CALL_REG_OUTSIDE_TEXT_SEGMENT; ANCHOR_CALL_DEPTH_EXCEEDED] ++ exit_anchors.
Definition call_anchors : list Z :=
  [ANCHOR_INTERNAL_FUNCTION_CALL_REG; ANCHOR_INTERNAL_FUNCTION_CALL_PROLOGUE;
   ANCHOR_EXTERNAL_FUNCTION_CALL] ++ error_anchors.
Definition all_anchors : list Z :=
  [32; 31; 30; 29; 28; 27; 26; 25; 24; 23; 22; 21] ++ call_anchors.

Lemma sets_epilogue : sets trace_anchors F 156 (emit_epilogue config) epilogue_anchors.
Proof. unfold emit_epilogue. emits_by. Qed.

Lemma sets_exit_routines : sets epilogue_anchors F 116 (emit_exit_routines config) exit_anchors.
Proof. unfold emit_exit_routines. emits_by. Qed.

Lemma trace_anchor_set (l : list Z) :
  config.(enable_register_tracing) = true -> ANCHOR_TRACE ∈ l ++ trace_anchors.
Proof. intros Ht. unfold trace_anchors. rewrite Ht. apply elem_of_app. right. by constructor. Qed.

Lemma sets_error_handlers : sets exit_anchors F 246 (emit_error_handlers config) error_anchors.
Proof.
  unfold emit_error_handlers.
  pose proof (trace_anchor_set ([ANCHOR_CALL_UNSUPPORTED_INSTRUCTION; ANCHOR_CALL_REG_UNSUPPORTED_INSTRUCTION;
    ANCHOR_DIV_OVERFLOW; ANCHOR_DIV_BY_ZERO; ANCHOR_CALL_REG_OUTSIDE_TEXT_SEGMENT; ANCHOR_CALL_DEPTH_EXCEEDED;
    ANCHOR_THROW_EXCEPTION; ANCHOR_EXIT; ANCHOR_THROW_EXCEPTION_UNCHECKED;
    ANCHOR_THROW_EXCEEDED_MAX_INSTRUCTIONS; ANCHOR_EPILOGUE])) as Ht.
  destruct (enable_register_tracing config) eqn:Htr.
  - specialize (Ht eq_refl). emits_by.
  - emits_by.
Qed.

Lemma sets_external_call_routine :
  sets error_anchors F 254 (emit_external_call_routine config) (ANCHOR_EXTERNAL_FUNCTION_CALL :: error_anchors).
Proof. unfold emit_external_call_routine. emits_by. Qed.

Hypothesis Hframe : 0 <= config.(stack_frame_size) < 2 ^ 62.

Lemma sets_call_prologue_routine :
  sets (ANCHOR_EXTERNAL_FUNCTION_CALL :: error_anchors) F 138 (emit_call_prologue_routine config v)
    ([ANCHOR_INTERNAL_FUNCTION_CALL_PROLOGUE; ANCHOR_EXTERNAL_FUNCTION_CALL] ++ error_anchors).
Proof.
  unfold emit_call_prologue_routine. set (n := if _ && _ then 2 else 1).
  assert (Hm : i64_mul (E := EbpfError) (as_i64 config.(stack_frame_size)) n = Ret (config.(stack_frame_size) * n)).
  { rewrite as_i64_small by lia. unfold i64_mul, i64_min, i64_max.
    assert (n = 2 \/ n = 1) as [-> | ->] by (unfold n; destruct (_ && _); auto);
      by rewrite !(proj2 (Z.leb_le _ _)) by lia. }
  rewrite Hm. emits_by.
Qed.

Lemma sets_call_reg_routine :
  sets ([ANCHOR_INTERNAL_FUNCTION_CALL_PROLOGUE; ANCHOR_EXTERNAL_FUNCTION_CALL] ++ error_anchors) F 152
    (emit_call_reg_routine program_vm_addr) call_anchors.
Proof.
  unfold emit_call_reg_routine. emits_by.
Qed.

Lemma sets_translation_routine (base len : Z) (A : list Z) :
  base = 0 \/ base = 4 \/ base = 8 -> access_len len -> ANCHOR_THROW_EXCEPTION ∈ A ->
  sets A F 216 (emit_translation_routine base len) (translation_anchor base len :: A).
Proof.
  intros Hb Hl Ha. unfold emit_translation_routine.
  assert (Ha' : ANCHOR_THROW_EXCEPTION ∈ translation_anchor base len :: A) by (by right).
  assert (Hf : forall g, access_function g len = j_ret (as_i64 (g len))) by (by destruct Hl as [-> |[-> |[-> | ->]]]).
  rewrite !Hf. apply emits_key. cbv zeta. rewrite Z.add_assoc. fold (translation_anchor base len).
  apply (emits_bind A F (translation_anchor base len :: A) _ 0 216); [|intros _|done].
  - apply emits_anchor. unfold translation_anchor, ANCHOR_COUNT, ANCHOR_TRANSLATE_MEMORY_ADDRESS.
    assert (0 <= trailing_zeros len <= 3) by (destruct Hl as [-> |[-> |[-> | ->]]]; cbn; lia). lia.
  - clear Hf. destruct Hb as [-> |[-> | ->]]; cbn [Z.eqb Pos.eqb]; emits_by.
Qed.

Lemma sets_translation_routines : sets call_anchors F 2592 emit_translation_routines all_anchors.
Proof.
  unfold emit_translation_routines. cbn [for_each].
  eapply (emits_weaken _ _ (216 + (216 + (216 + (216 + (216 + (216 + (216 + (216 + (216 + (216 + (216 + (216 + 0))))))))))))); [|zle].
  repeat first [apply emits_ret | eapply emits_bind; [apply sets_translation_routine;
    [by auto|unfold access_len; by auto|anchor]|intros _|done]].
Qed.

(** The subroutines fit the length allowed for a program without instructions. *)
Lemma sets_subroutines :
  sets [] F MAX_EMPTY_PROGRAM_MACHINE_CODE_LENGTH (emit_subroutines config v program_vm_addr) all_anchors.
Proof.
  unfold emit_subroutines.
  apply (emits_weaken _ _ (182 + (156 + (116 + (246 + (254 + (138 + (152 + 2592)))))))); [|zle].
  eapply emits_bind; [apply sets_trace_routine|intros _|done].
  eapply emits_bind; [apply sets_epilogue|intros _|done].
  eapply emits_bind; [apply sets_exit_routines|intros _|done].
  eapply emits_bind; [apply sets_error_handlers|intros _|done].
  eapply emits_bind; [apply sets_external_call_routine|intros _|done].
  eapply emits_bind; [apply sets_call_prologue_routine|intros _|done].
  eapply emits_bind; [apply sets_call_reg_routine|intros _; apply sets_translation_routines|done].
Qed.
End Subroutines.
