(* ===== verification/JitArms.v ===== *)
(** Every instruction of a verified program is compiled within its share of the text section:
    the arms of [JitCompiler::compile] (src/jit.rs). *)
From S2P Require Import Prelude Error Ebpf Program Verifier Executable InterpreterSafety.
From S2P Require Import X86 Jit JitSubroutines JitCompile JitSafety JitEmitters.
Open Scope list_scope.
Open Scope jit_scope.

(** * What the verifier guarantees *)

Definition endian_opcode (v : SBPFVersion) (o : Z) : bool := (o =? LE) && negb (disable_le v) || (o =? BE).

Lemma opcode_class_endian (v : SBPFVersion) (b : bool) (o : Z) (c : InsnClass) :
  in_u 8 o -> opcode_class v b o = Some c -> endian_opcode v o = true -> c = ClassEndian.
Proof.
  intros Ho Hc.
  unshelve epose proof (opcode_class_all (fun v b o oc =>
    match oc with
    | Some c => bool_decide (endian_opcode v o = true -> c = ClassEndian)
    | None => true end) _ v b o Ho) as H; [vm_compute; reflexivity|].
  cbn beta in H. rewrite Hc in H. by apply bool_decide_eq_true in H.
Qed.

(** The instruction at [pc], as its compilation needs it. *)
Record compile_facts (program : list Z) (v : SBPFVersion) (pc : Z) (insn : Insn) : Prop := {
  cf_dst : 0 <= insn.(dst) <= 10;
  cf_src : 0 <= insn.(src) <= 10;
  cf_off : in_s 16 insn.(off);
  cf_imm : in_s 32 insn.(imm);
  cf_jump : jump_opcode v insn.(opc) = true -> 0 <= pc + 1 + insn.(off) < num_insns program;
  cf_callx : insn.(opc) = CALL_REG -> 0 <= callx_operand v insn < 10;
  cf_endian : endian_opcode v insn.(opc) = true ->
    insn.(imm) = 16 \/ insn.(imm) = 32 \/ insn.(imm) = 64;
}.

Lemma insn_compile_facts (program : list Z) (v : SBPFVersion) (pc : Z) :
  bytes_ok program -> zlen program mod INSN_SIZE = 0 -> 0 <= pc < num_insns program ->
  insn_ok program v pc -> compile_facts program v pc (insn_at program pc).
Proof.
  intros Hb Hm Hpc (c & Hc & Hok & Hs & Hd).
  pose proof (insn_at_wf program Hb Hm pc Hpc) as (Ho & [Hd0 _] & [Hs0 _] & Hoff & Himm).
  destruct (opcode_class_step _ _ _ _ Ho Hc) as (_ & Hjump & _ & Hcallx).
  split; try done.
  - destruct Hd as [?|[? _]]; lia.
  - intros E. rewrite (Hjump E) in Hok. apply Hok.
  - intros E. by rewrite (Hcallx E) in Hok.
  - intros E. by rewrite (opcode_class_endian _ _ _ _ Ho Hc E) in Hok.
Qed.

(** ** The opcodes the JIT compiler knows *)

Definition no_rand : Rand.
Proof.
  refine {| Rng := unit; gen_i64 r := (0, r); gen_range r n := (0, r); sample_inclusive r n := (0, r) |};
    [done|cbn; lia..].
Defined.
Definition no_host : JitHost.
Proof.
  refine {| slot_offset _ := 0; trace_function := 0; stopwatch_function := 0; load_function _ := 0;
            store_function _ := 0; environment_random := 0 |}; done.
Defined.

Definition jit_guards (v : SBPFVersion) (o : Z) : list bool :=
  fst <$> jit_arms (Bo := le_reference) (Rnd := no_rand) (Host := no_host) default_config
    (version_executable v) [] (mkInsn 0 o 0 0 0 0) RAX RAX 0.

Lemma jit_guards_known (v : SBPFVersion) (o : Z) (b : bool) :
  in_u 8 o -> (first_true (jit_guards v o) = None <-> opcode_class v b o = None).
Proof.
  intros Ho. assert (Hin : o ∈ seqZ 0 256) by (apply elem_of_seqZ; unfold in_u in Ho; lia).
  clear Ho. revert o Hin. apply Forall_forall.
  destruct v, b; apply (bool_decide_unpack _); vm_compute; exact I.
Qed.

Lemma first_jit_arm `{Bo : LittleEndian} `{Rnd : Rand} `{Host : JitHost} (config : Config) (executable : Executable)
    (program : list Z) (insn : Insn) (dst src : X86Register) (target : Z) :
  first_true (jit_guards executable.(sbpf_version) insn.(opc)) = None <->
  first_arm (jit_arms config executable program insn dst src target) = None.
Proof.
  assert (Hg : fst <$> jit_arms config executable program insn dst src target
    = jit_guards executable.(sbpf_version) insn.(opc)) by reflexivity.
  rewrite first_arm_first_true, Hg. destruct (first_true _) as [i|] eqn:Hi; [|done]. split; [done|].
  apply first_true_lookup in Hi. rewrite <-Hg, list_lookup_fmap in Hi.
  cbn [mbind option_bind]. by destruct (jit_arms _ _ _ _ _ _ _ !! i).
Qed.

(** * The arms *)

Section Arms.
Context `{Bo : LittleEndian} `{Rnd : Rand} `{Host : JitHost}.
Context (config : Config) (executable : Executable) (program : list Z).
Let v : SBPFVersion := executable.(sbpf_version).
Let n : Z := num_insns program.

(** Registered functions are in the program, and no key is both a function and a syscall. *)
Record registries_ok : Prop := {
  ro_target : forall key name pc,
    lookup_by_key executable.(function_registry) key = Some (name, pc) -> 0 <= pc < n;
  ro_disjoint : forall key f g,
    lookup_by_key executable.(function_registry) key = Some f ->
    lookup_by_key (get_function_registry executable.(loader)) key = Some g -> False;
}.
Context (Hreg : registries_ok).
Context (Hlen : slice_len_ok program) (Hmul : zlen program mod INSN_SIZE = 0).

Context (F : Frame) (HF : frame_ok F) (Hn : zlen F.(f_pc_section) = n).
Context (insn : Insn) (Hf : compile_facts program v F.(f_pc) insn) (d s : X86Register).
Let A : list Z := all_anchors config.
Let target : Z := as_u64 (F.(f_pc) + insn.(off) + 1).

Lemma meter_set : meter_anchor ∈ A.
Proof. anchor. Qed.

Lemma translation_set (base len : Z) :
  base = 0 \/ base = 4 \/ base = 8 -> access_len len -> translation_anchor base len ∈ A.
Proof. intros [-> |[-> | ->]] [-> |[-> |[-> | ->]]]; anchor. Qed.

Lemma jump_target_ok : jump_opcode v insn.(opc) = true -> target_ok F target.
Proof.
  intros Hj%(cf_jump _ _ _ _ Hf). pose proof (fo_slots F HF). unfold target_ok, target. rewrite Hn in *.
  unfold as_u64. rewrite uwrap_small; unfold in_u; fold n in Hj; lia.
Qed.

Lemma emits_load_op (len : Z) : access_len len -> emits A F 80 (load_op config insn d s len).
Proof.
  intros Hl. apply emits_address_translation; [done| |done|by apply translation_set; auto].
  pose proof (cf_off _ _ _ _ Hf). unfold in_s in *. lia.
Qed.
Lemma emits_store_imm_op (len : Z) : access_len len -> emits A F 80 (store_imm_op config insn d len).
Proof.
  intros Hl. apply emits_address_translation; [done| |done|by apply translation_set; auto].
  pose proof (cf_off _ _ _ _ Hf). unfold in_s in *. lia.
Qed.
Lemma emits_store_reg_op (len : Z) : access_len len -> emits A F 80 (store_reg_op config insn d s len).
Proof.
  intros Hl. apply emits_address_translation; [done| |done|by apply translation_set; auto].
  pose proof (cf_off _ _ _ _ Hf). unfold in_s in *. lia.
Qed.

Lemma emits_alu_imm (size : OperandSize) (op ext : Z) : wide size -> emits A F 23 (alu_imm config insn d size op ext).
Proof. intros Hs. apply emits_sanitized_alu_i32; [done|apply Hf]. Qed.

Lemma emits_sign_extend : emits A F 4 (sign_extend executable d).
Proof. unfold sign_extend. emits_by. Qed.

Lemma emits_sub_imm (size : OperandSize) : wide size -> emits A F 27 (compile_sub_imm config executable insn d size).
Proof.
  intros Hs. pose proof (cf_imm _ _ _ _ Hf). unfold compile_sub_imm. apply emits_cases; intros _.
  - apply (emits_bind A F A A 4 23); [destruct Hs as [-> | ->]; emits_by|intros _|done].
    apply emits_if; [intros _; by apply emits_sanitized_alu_i32|done].
  - by apply (emits_weaken _ _ 23); [apply emits_sanitized_alu_i32|].
Qed.

Lemma emits_mul_imm (size : OperandSize) : wide size -> emits A F 24 (compile_mul_imm config insn d size).
Proof.
  intros Hs. unfold compile_mul_imm.
  apply (emits_bind A F A A 19 5); [apply emits_load_constant_i32, Hf|intros _; destruct Hs as [-> | ->]; emits_by|done].
Qed.

Lemma emits_div_mod (size : OperandSize) (source : X86Register) (imm : option Z) :
  wide size -> emits A F 130 (compile_div_mod config executable insn d size source imm).
Proof. intros Hs. by apply emits_pqr; [|anchor..]. Qed.

Lemma emits_compile_pqr (source : X86Register) (imm : option Z) :
  emits A F 130 (compile_pqr config executable insn d source imm).
Proof. apply emits_pqr; [|anchor..]. destruct (Z.testbit _ 4); [by right|by left]. Qed.

Lemma emits_mov32_imm : emits A F 32 (compile_mov32_imm config insn d).
Proof.
  unfold compile_mov32_imm. apply emits_cases; intros _; [apply emits_sanitized_load|emits_by].
Qed.

Lemma emits_le : endian_opcode v insn.(opc) = true -> emits A F 8 (compile_le insn d).
Proof.
  intros He%(cf_endian _ _ _ _ Hf). unfold compile_le.
  destruct He as [-> |[-> | ->]]; cbn [Z.eqb Pos.eqb]; emits_by.
Qed.
Lemma emits_be : endian_opcode v insn.(opc) = true -> emits A F 14 (compile_be insn d).
Proof.
  intros He%(cf_endian _ _ _ _ Hf). unfold compile_be.
  destruct He as [-> |[-> | ->]]; cbn [Z.eqb Pos.eqb]; emits_by.
Qed.

Lemma emits_ja : jump_opcode v insn.(opc) = true -> emits A F 60 (compile_ja config target).
Proof.
  intros Hj%jump_target_ok. unfold compile_ja.
  apply (emits_bind A F A A 54 6); [|intros _; by apply emits_jump_target|done].
  apply emits_validate_and_profile; [done|apply meter_set|by apply (target_small F)].
Qed.

Lemma emits_branch_imm (size : OperandSize) (op : Z) (bitwise : bool) :
  wide size -> jump_opcode v insn.(opc) = true -> emits A F 107 (branch_imm config insn d target size op bitwise).
Proof.
  intros Hs Hj%jump_target_ok. by apply emits_conditional_branch_imm; [|done|apply Hf|apply meter_set|].
Qed.
Lemma emits_branch_reg (size : OperandSize) (op : Z) (bitwise : bool) :
  wide size -> jump_opcode v insn.(opc) = true -> emits A F 88 (branch_reg config d s target size op bitwise).
Proof.
  intros Hs Hj%jump_target_ok. by apply emits_conditional_branch_reg; [|done|apply meter_set|].
Qed.

Lemma emits_call_reg : insn.(opc) = CALL_REG -> emits A F 78 (compile_call_reg config executable insn d s).
Proof.
  intros Hc. pose proof (cf_callx _ _ _ _ Hf Hc) as Hx. unfold compile_call_reg. fold v.
  assert (exists r, (if callx_uses_src_reg v then j_ret s else if callx_uses_dst_reg v then j_ret d
    else j_lift (index_slice REGISTER_MAP (as_u64 insn.(imm)))) = j_ret r) as [r ->].
  { unfold callx_operand in Hx. destruct (callx_uses_src_reg v); [by eexists|].
    destruct (callx_uses_dst_reg v); [by eexists|].
    destruct (index_slice_Ret (E := EbpfError) REGISTER_MAP (as_u64 insn.(imm))) as (r & _ & ->); [|by exists r].
    unfold as_u64. rewrite uwrap_small; unfold in_u; change (zlen REGISTER_MAP) with 11; lia. }
  apply emits_ret_bind, emits_internal_call_reg; [done|anchor..].
Qed.

Lemma emits_exit : emits A F 91 (compile_exit config).
Proof.
  unfold compile_exit.
  apply (emits_bind A F A A 54 37); [apply emits_validate_and_profile; [done|apply meter_set|done]|intros _; emits_by|done].
Qed.

(** A call goes to a syscall or to a function, never to both. *)
Lemma emits_external_call (f : BuiltinFunction) :
  emits A F 96 (emit_validate_and_profile_instruction_count config (Some 0) ;*
    emit_ins (load_immediate REGISTER_SCRATCH (as_i64 f)) ;*
    emit_to_anchor call_immediate ANCHOR_EXTERNAL_FUNCTION_CALL 5 ;*
    emit_undo_profile_instruction_count config 0 ;* j_ret true).
Proof.
  apply (emits_bind A F A A 54 42); [apply emits_validate_and_profile; [done|apply meter_set|done]|intros _|done].
  apply (emits_bind A F A A 11 31); [emits_by|intros _|done].
  apply (emits_bind A F A A 8 23); [emits_by|intros _|done].
  apply (emits_bind A F A A 23 0); [by apply emits_undo|intros _; apply emits_ret|done].
Qed.

Lemma emits_internal_call_value (t : Z) : target_ok F t ->
  emits A F 105 (emit_internal_call config (VConstant64 t true) ;* j_ret true).
Proof.
  intros Ht. apply (emits_bind A F A A 105 0); [|intros _; apply emits_ret|done].
  apply emits_internal_call; [done|anchor|done].
Qed.

Lemma static_target (t : Z) : is_pc_in_program program (as_u64 t) = true -> in_s 64 t -> target_ok F t.
Proof.
  intros Hin Ht. pose proof (fo_slots F HF). unfold target_ok. rewrite Hn in *.
  pose proof (num_insns_len program Hmul) as Hpl. fold n in Hpl.
  apply is_pc_in_program_iff in Hin; [|apply uwrap_range; lia|done].
  assert (0 <= t) as H0.
  { destruct (Z.le_gt_cases 0 t); [done|]. unfold as_u64, uwrap, in_s, INSN_SIZE in *.
    rewrite <-(Z.mod_add t 1), Z.mod_small in Hin by lia. lia. }
  unfold as_u64 in Hin. rewrite uwrap_small in Hin by (unfold in_u, in_s in *; lia).
  unfold INSN_SIZE in *. lia.
Qed.

(** The internal part of [compile_call_imm]. *)
Definition internal_part : Jit bool :=
  if static_syscalls v then
    let t := i64_saturating_add (i64_saturating_add (as_i64 F.(f_pc)) insn.(imm)) 1 in
    if is_pc_in_program program (as_u64 t) && (insn.(Ebpf.src) =? 1)
    then emit_internal_call config (VConstant64 t true) ;* j_ret true
    else j_ret false
  else
    match lookup_by_key executable.(function_registry) (as_u32 insn.(imm)) with
    | Some (_, t) => emit_internal_call config (VConstant64 (as_i64 t) true) ;* j_ret true
    | None => j_ret false
    end.

Lemma emits_internal_part : emits A F 105 internal_part.
Proof.
  unfold internal_part. destruct (static_syscalls v).
  - cbv zeta. set (t := i64_saturating_add _ 1).
    destruct (is_pc_in_program program (as_u64 t)) eqn:Hin; [|by apply emits_nothing]. cbn [andb].
    apply emits_cases; intros _; [|by apply emits_nothing]. apply emits_internal_call_value, static_target; [done|].
    unfold t, i64_saturating_add, i64_saturate, i64_min, i64_max, in_s. lia.
  - destruct (lookup_by_key _ _) as [[name t]|] eqn:Hl; [|by apply emits_nothing].
    apply (ro_target Hreg) in Hl. pose proof (fo_slots F HF). rewrite as_i64_small by lia.
    apply emits_internal_call_value. unfold target_ok. lia.
Qed.

Lemma no_internal_part (f : list Z * BuiltinFunction) :
  negb (static_syscalls v) || (insn.(Ebpf.src) =? 0) = true ->
  lookup_by_key (get_function_registry executable.(loader)) (as_u32 insn.(imm)) = Some f ->
  internal_part = j_ret false.
Proof.
  intros He Hl. unfold internal_part. destruct (static_syscalls v); cbn [negb orb] in He.
  - apply Z.eqb_eq in He. rewrite He. by rewrite andb_false_r.
  - destruct (lookup_by_key (function_registry executable) _) as [g|] eqn:Hg; [|done].
    by destruct (ro_disjoint Hreg _ _ _ Hg Hl).
Qed.

Lemma emits_call_imm : emits A F 124 (compile_call_imm config executable program insn).
Proof.
  unfold compile_call_imm. apply emits_pc. fold v internal_part.
  assert (Hr : forall b, emits A F 19 (j_if (negb b)
    (emit_ins (load_immediate REGISTER_SCRATCH (as_i64 F.(f_pc))) ;*
     emit_to_anchor jump_immediate ANCHOR_CALL_UNSUPPORTED_INSTRUCTION 5))) by (intros b; emits_by).
  assert (Hi : forall ext, emits A F 124 (let* internal := internal_part in j_if (negb (ext || internal))
    (emit_ins (load_immediate REGISTER_SCRATCH (as_i64 F.(f_pc))) ;*
     emit_to_anchor jump_immediate ANCHOR_CALL_UNSUPPORTED_INSTRUCTION 5))).
  { intros ext. by apply (emits_bind A F A A 105 19); [apply emits_internal_part| |]. }
  destruct (negb (static_syscalls v) || _) eqn:He; [|apply emits_ret_bind, Hi].
  destruct (lookup_by_key (get_function_registry _) _) as [[name f]|] eqn:Hl; [|apply emits_ret_bind, Hi].
  rewrite (no_internal_part _ He Hl). apply (emits_weaken _ _ (96 + 19)); [|done].
  apply (emits_bind A F A); [apply emits_external_call|intros ext; by apply emits_ret_bind|done].
Qed.

(** ** All arms *)

Lemma wide_32 : wide S32.
Proof. by left. Qed.
Lemma wide_64 : wide S64.
Proof. by right. Qed.
#[local] Hint Resolve wide_32 wide_64 emits_alu_imm emits_sub_imm emits_mul_imm emits_sign_extend : emits.

Definition arm_emits (arm : bool * (unit -> Jit unit)) : Prop := arm.1 = true -> emits A F 130 (arm.2 tt).

(** The opcode of the arm is a jump, or a byte swap, of the version. *)
Ltac guard_opcode H :=
  first [ apply andb_prop in H as [Ho%Z.eqb_eq Hq]; unfold jump_opcode, endian_opcode; rewrite Ho;
          unfold v; rewrite ?Hq; reflexivity
        | apply Z.eqb_eq in H as Ho; unfold jump_opcode, endian_opcode; rewrite Ho; apply orb_true_iff; right;
          reflexivity ].

Ltac arm :=
  let Hg := fresh "Hg" in intros Hg; cbn [fst snd] in Hg |- *;
  (eapply emits_weaken;
   [ first
     [ apply emits_load_op; unfold access_len; by auto
     | apply emits_store_imm_op; unfold access_len; by auto
     | apply emits_store_reg_op; unfold access_len; by auto
     | apply emits_alu_imm; unfold wide; by auto
     | apply emits_sub_imm; unfold wide; by auto
     | apply emits_mul_imm; unfold wide; by auto
     | apply emits_div_mod; unfold wide; by auto
     | apply emits_compile_pqr
     | apply emits_mov32_imm
     | apply emits_le; guard_opcode Hg
     | apply emits_be; guard_opcode Hg
     | apply emits_ja; guard_opcode Hg
     | apply emits_branch_imm; [unfold wide; by auto|guard_opcode Hg]
     | apply emits_branch_reg; [unfold wide; by auto|guard_opcode Hg]
     | apply emits_shift; unfold wide; by auto
     | apply emits_load_constant
     | apply emits_sanitized_alu; unfold wide; by auto
     | apply emits_call_imm
     | apply emits_call_reg; by apply Z.eqb_eq
     | apply emits_exit
     | emits_go ]
   | zle ]).
Ltac arms := cbv zeta; repeat first [apply Forall_nil_2 | apply Forall_cons_2; [arm|]].

Lemma memory_arms_emit :
  Forall arm_emits (jit_ldx config executable insn d s ++ jit_st config executable insn d
    ++ jit_stx config executable insn d s).
Proof. unfold jit_ldx, jit_st, jit_stx. cbn [app]. arms. Qed.

Lemma alu32_arms_emit : Forall arm_emits (jit_alu32 config executable insn d s).
Proof. unfold jit_alu32. arms. Qed.

Lemma alu64_arms_emit : Forall arm_emits (jit_alu64 config executable insn d s).
Proof. unfold jit_alu64. arms. Qed.

Lemma pqr_arms_emit : Forall arm_emits (jit_pqr config executable insn d s).
Proof. unfold jit_pqr. arms. Qed.

Lemma jmp32_arms_emit : Forall arm_emits (jit_jmp32 config executable insn d s target).
Proof. unfold jit_jmp32. arms. Qed.

Lemma jmp64_arms_emit : Forall arm_emits (jit_jmp64 config insn d s target).
Proof. unfold jit_jmp64. arms. Qed.

Lemma call_arms_emit : Forall arm_emits (jit_calls config executable program insn d s).
Proof. unfold jit_calls. arms. Qed.

(** Every instruction but a 64-bit load takes at most 130 bytes. *)
Lemma emits_compile_insn :
  is_Some (insn_class v insn) -> insn.(opc) <> LD_DW_IMM -> in_u 8 insn.(opc) ->
  emits A F 130 (compile_insn config executable program insn d s target).
Proof.
  intros [c Hc] Hne Ho. unfold compile_insn.
  destruct (first_arm _) as [body|] eqn:Harm.
  - apply (first_arm_Forall (fun body => emits A F 130 (body tt))
      (jit_arms config executable program insn d s target)); [|done].
    unfold jit_arms, jit_ld. apply Forall_app. split.
    { constructor; [|done]. cbn [fst snd]. rewrite (proj2 (Z.eqb_neq _ _)) by done. done. }
    pose proof memory_arms_emit as Hm. apply Forall_app in Hm as [H1 Hm]. apply Forall_app in Hm as [H2 H3].
    repeat apply Forall_app_2; auto using alu32_arms_emit, alu64_arms_emit, pqr_arms_emit, jmp32_arms_emit,
      jmp64_arms_emit, call_arms_emit.
  - apply first_jit_arm in Harm. apply (jit_guards_known _ _ (insn.(Ebpf.dst) =? 10) Ho) in Harm.
    unfold insn_class in Hc. fold v in Harm. congruence.
Qed.
End Arms.
