(* ===== verification/JitBranches.v ===== *)
(** Guest branches are machine branches: the code of a jump, its condition, and its
    displacement, known at once or left for [resolve_jumps] (src/jit.rs). *)
From S2P Require Import Prelude Error Ebpf Program Verifier Executable InterpreterSafety.
From S2P Require Import X86 X86Semantics Jit JitSubroutines JitCompile JitAlu JitCompare JitSafety JitEmitters JitArms.
Open Scope list_scope.
Open Scope jit_scope.

(** * Bytes in the code *)

(** The bytes [bs] stand at position [p]. *)
Definition contains (code : list Z) (p : Z) (bs : list Z) : Prop :=
  0 <= p /\ take (length bs) (drop (Z.to_nat p) code) = bs.

Lemma contains_bound (code : list Z) (p : Z) (bs : list Z) :
  contains code p bs -> bs <> [] -> p + zlen bs <= zlen code.
Proof.
  intros [Hp Hb] Hne. apply (f_equal length) in Hb. rewrite length_take, length_drop in Hb.
  unfold zlen. destruct bs; [done|]. cbn [length] in *. lia.
Qed.

Lemma contains_app (code more : list Z) (p : Z) (bs : list Z) :
  contains code p bs -> bs <> [] -> contains (code ++ more) p bs.
Proof.
  intros Hc Hne. pose proof (contains_bound _ _ _ Hc Hne) as Hb. destruct Hc as [Hp Hc]. split; [done|].
  unfold zlen in Hb. rewrite drop_app_le by lia. rewrite take_app_le; [done|]. rewrite length_drop. lia.
Qed.

Lemma contains_more (code more : list Z) (p : Z) (bs : list Z) : contains code p bs -> contains (code ++ more) p bs.
Proof. intros Hc. destruct bs; [by destruct Hc|by apply contains_app]. Qed.

Lemma contains_here (code bs more : list Z) : contains (code ++ bs ++ more) (zlen code) bs.
Proof.
  split; [apply zlen_nonneg|]. rewrite to_nat_zlen, drop_app_length. by rewrite take_app_length.
Qed.

Lemma contains_behind (code bs more rest : list Z) :
  contains (code ++ bs ++ more) (zlen (code ++ bs)) rest -> contains (code ++ bs ++ more) (zlen code) (bs ++ rest).
Proof.
  intros [_ Hr]. split; [apply zlen_nonneg|]. rewrite to_nat_zlen in *. rewrite drop_app_length. rewrite app_assoc, drop_app_length in Hr.
  rewrite length_app, take_app_add. by rewrite Hr.
Qed.

(** * Branches *)

(** The machine code in front of the displacement: an unconditional jump, or the condition
    of the guest's comparison on flags set by [cmp] or [test]. *)
Definition branch_prefix (o : Z) : list Z :=
  if o =? JA then [0xe9]
  else
    let condition := Z.land o BPF_ALU_OP_MASK in
    if condition =? BPF_JEQ then [0x0f; 0x84]
    else if condition =? BPF_JGT then [0x0f; 0x87]
    else if condition =? BPF_JGE then [0x0f; 0x83]
    else if condition =? BPF_JLT then [0x0f; 0x82]
    else if condition =? BPF_JLE then [0x0f; 0x86]
    else if condition =? BPF_JSET then [0x0f; 0x85]
    else if condition =? BPF_JNE then [0x0f; 0x85]
    else if condition =? BPF_JSGT then [0x0f; 0x8f]
    else if condition =? BPF_JSGE then [0x0f; 0x8d]
    else if condition =? BPF_JSLT then [0x0f; 0x8c]
    else [0x0f; 0x8e].

Section Branches.
Context `{Rnd : Rand} `{Host : JitHost}.

Definition jumps_inside (s : JitCompiler) : Prop :=
  Forall (fun j => 0 <= j.(jump_location) /\ j.(jump_location) + 4 <= offset_in_text_section s)
    s.(text_section_jumps).

(** At [p] stands a branch to the code of slot [t]: its displacement is right already, or it
    is on the list of jumps to resolve; no other jump of the list touches it. *)
Record branch_done (prefix : list Z) (t p : Z) (s : JitCompiler) : Prop := {
  bd_code : exists z, contains s.(jit_code) p (prefix ++ le_bytes 4 z) /\
    (mkJump (p + zlen prefix) t ∈ s.(text_section_jumps) \/
     exists e, s.(jit_pc_section) !! Z.to_nat t = Some e /\ e <> 0 /\ z = e - (p + zlen prefix + 4));
  bd_alone : Forall (fun j => j.(jump_location) + 4 <= p \/ p + zlen prefix + 4 <= j.(jump_location) \/
                              j = mkJump (p + zlen prefix) t) s.(text_section_jumps);
}.

Lemma branch_bytes_nonempty (prefix : list Z) (z : Z) : prefix ++ le_bytes 4 z <> [].
Proof. destruct prefix; done. Qed.

Lemma branch_done_end (prefix : list Z) (t p : Z) (s : JitCompiler) :
  branch_done prefix t p s -> 0 <= p /\ p + zlen prefix + 4 <= offset_in_text_section s.
Proof.
  intros [(z & Hc & _) _]. pose proof (contains_bound _ _ _ Hc (branch_bytes_nonempty _ _)) as Hb.
  destruct Hc as [Hp _]. rewrite zlen_app in Hb. change (zlen (le_bytes 4 z)) with 4 in Hb.
  unfold offset_in_text_section. lia.
Qed.

Lemma jumps_inside_extends (n : Z) (s s' : JitCompiler) : extends n s s' -> jumps_inside s -> jumps_inside s'.
Proof.
  intros Hx Hj. pose proof (extends_offset _ _ _ Hx) as Ho. destruct Hx as [_ _ (l & J & [R _]) _ _ _ _].
  unfold jumps_inside in *. rewrite J. apply Forall_app. split; (eapply Forall_impl; [eassumption|]); cbn.
  - intros j. lia.
  - intros j. assert (0 <= offset_in_text_section s) by (apply zlen_nonneg). lia.
Qed.

Lemma branch_done_extends (prefix : list Z) (t p n : Z) (s s' : JitCompiler) :
  extends n s s' -> branch_done prefix t p s -> branch_done prefix t p s'.
Proof.
  intros Hx Hd. pose proof (branch_done_end _ _ _ _ Hd) as [_ He].
  destruct Hx as [HF (data & C & _) (l & J & [R _]) _ _ _ _]. destruct Hd as [(z & Hc & Hz) Ha].
  assert (Hp : s'.(jit_pc_section) = s.(jit_pc_section)) by (by injection HF). split.
  - exists z. rewrite C, J, Hp. split; [by apply contains_app, branch_bytes_nonempty|].
    destruct Hz as [Hz|Hz]; [left|by right]. apply elem_of_app. by left.
  - rewrite J. apply Forall_app. split; [done|]. eapply Forall_impl; [exact R|]. cbn. intros j. lia.
Qed.

(** [m] emits code that ends in a branch to [t]; the code up to the displacement satisfies [pre]. *)
Definition branches {T} (A : list Z) (F : Frame) (n : Z) (m : Jit T) (pre : list Z -> Prop) (t : Z) : Prop :=
  forall s, frame s = F -> anchors_ok A s -> has_room n s -> jumps_inside s ->
  exists u s', m s = Ret (u, s') /\ extends n s s' /\
    exists p prefix, offset_in_text_section s <= p /\ pre prefix /\ branch_done prefix t p s'.

(** [m] emits a branch at once. *)
Definition branches_at {T} (A : list Z) (F : Frame) (n : Z) (m : Jit T) (prefix : list Z) (t : Z) : Prop :=
  forall s, frame s = F -> anchors_ok A s -> has_room n s -> jumps_inside s ->
  exists u s', m s = Ret (u, s') /\ extends n s s' /\ branch_done prefix t (offset_in_text_section s) s'.

Section Rules.
Context (A : list Z) (F : Frame) (t : Z).
Implicit Types pre : list Z -> Prop.

Lemma branches_weaken {T} (n n' : Z) (m : Jit T) pre pre' :
  branches A F n m pre t -> n <= n' -> (forall prefix, pre prefix -> pre' prefix) -> branches A F n' m pre' t.
Proof.
  intros Hm Hn Hp s HF HA Hr Hj. unfold has_room in *.
  destruct (Hm s HF HA ltac:(unfold has_room; lia) Hj) as (u & s' & E & Hx & p & prefix & Ho & Hpre & Hd). exists u, s'.
  split_and!; [done|by apply (extends_weaken n)|]. exists p, prefix. split_and!; [done|by apply Hp|done].
Qed.

Lemma branches_after {T U} (n k : Z) (m : Jit T) (f : T -> Jit U) pre :
  emits A F n m -> (forall u, branches A F k (f u) pre t) -> 0 <= k ->
  branches A F (n + k) (j_bind m f) pre t.
Proof.
  intros Hm Hf Hk s HF HA Hr Hj. unfold has_room in *.
  destruct (Hm s HF HA ltac:(unfold has_room; lia)) as (u & s1 & E1 & H1 & HA1).
  pose proof (extends_offset _ _ _ H1) as Ho. pose proof (ex_frame _ _ _ H1) as HF1. rewrite HF in HF1.
  assert (Hl : s1.(jit_text_len) = s.(jit_text_len)) by (destruct H1 as [H1 _ _ _ _ _ _]; by injection H1).
  destruct (Hf u s1 HF1 HA1 ltac:(unfold has_room; lia) (jumps_inside_extends _ _ _ H1 Hj))
    as (w & s2 & E2 & H2 & p & prefix & Hp & Hd).
  exists w, s2. unfold j_bind. rewrite E1. cbn [exec_bind fst snd].
  split_and!; [done|by apply (extends_trans n k s s1 s2)|]. exists p, prefix. split; [lia|done].
Qed.

Lemma branches_at_now {T} (n : Z) (m : Jit T) (prefix : list Z) pre :
  branches_at A F n m prefix t -> pre prefix -> branches A F n m pre t.
Proof.
  intros Hm Hpre s HF HA Hr Hj. destruct (Hm s HF HA Hr Hj) as (u & s' & E & Hx & Hd). exists u, s'. split_and!; [done|done|].
  by exists (offset_in_text_section s), prefix.
Qed.

(** Code without jumps, and a branch behind it. *)
Lemma branch_done_behind (prefix bs : list Z) (s1 s2 s3 : JitCompiler) (k : Z) :
  s2.(jit_code) = s1.(jit_code) ++ bs -> s2.(text_section_jumps) = s1.(text_section_jumps) -> jumps_inside s1 ->
  extends k s2 s3 -> branch_done prefix t (offset_in_text_section s2) s3 -> branch_done (bs ++ prefix) t (offset_in_text_section s1) s3.
Proof.
  intros Hc2 Hj2 Hin Hx [(z & Hct & Hz) Ha]. destruct (ex_code _ _ _ Hx) as (data & Hc3 & _). destruct (ex_jumps _ _ _ Hx) as (l & Hj3 & [Hl _]).
  assert (Ho : offset_in_text_section s2 = offset_in_text_section s1 + zlen bs) by (unfold offset_in_text_section; by rewrite Hc2, zlen_app).
  assert (Hp : offset_in_text_section s1 + zlen (bs ++ prefix) = offset_in_text_section s2 + zlen prefix) by (rewrite zlen_app; lia).
  split; rewrite Hp.
  - exists z. split; [|done]. rewrite <-app_assoc. unfold offset_in_text_section in *. rewrite Hc3, Hc2, <-app_assoc in *. by apply contains_behind.
  - rewrite Hj3 in *. apply Forall_app in Ha as [_ Ha]. apply Forall_app. split.
    + rewrite Hj2. eapply Forall_impl; [exact Hin|]. cbn beta. intros j [_ H]. by left.
    + eapply Forall_impl; [apply (proj2 (Forall_and _ _) (conj Hl Ha))|]. cbn beta. intros j [H1 H2]. right. destruct H2 as [H2|H2]; [lia|exact H2].
Qed.

Lemma branches_compare {T} (n k : Z) (c : Jit unit) (m : Jit T) (prefix : list Z) (l : list X86Instruction) pre :
  emits A F n c -> writes F.(f_key) c l -> branches_at A F k m prefix t -> 0 <= k ->
  (forall bs, interleaved l bs -> pre (bs ++ prefix)) -> branches A F (n + k) (c ;* m) pre t.
Proof.
  intros Hm Hw Hf Hk Hpre s HF HA Hr Hj. unfold has_room in *.
  destruct (Hm s HF HA ltac:(unfold has_room; lia)) as ([] & s1 & E1 & H1 & HA1).
  pose proof (extends_offset _ _ _ H1) as Ho. pose proof (ex_frame _ _ _ H1) as HF1. rewrite HF in HF1.
  assert (Hl : s1.(jit_text_len) = s.(jit_text_len)) by (destruct H1 as [H1 _ _ _ _ _ _]; by injection H1).
  destruct (Hw s s1 ltac:(by rewrite <-HF) E1) as (bs & Hc1 & Hi & _ & Hj1).
  destruct (Hf s1 HF1 HA1 ltac:(unfold has_room; lia) (jumps_inside_extends _ _ _ H1 Hj)) as (w & s2 & E2 & H2 & Hd).
  exists w, s2. unfold j_bind. rewrite E1. cbn [exec_bind fst snd].
  split_and!; [done|by apply (extends_trans n k s s1 s2)|]. exists (offset_in_text_section s), (bs ++ prefix).
  split_and!; [done|by apply Hpre|by apply (branch_done_behind prefix bs s s1 s2 k)].
Qed.

Lemma branches_at_before {T U} (n k : Z) (m : Jit T) (f : T -> Jit U) (prefix : list Z) :
  branches_at A F n m prefix t -> (forall u, emits A F k (f u)) -> 0 <= k ->
  branches_at A F (n + k) (j_bind m f) prefix t.
Proof.
  intros Hm Hf Hk s HF HA Hr Hj. unfold has_room in *.
  destruct (Hm s HF HA ltac:(unfold has_room; lia) Hj) as (u & s1 & E1 & H1 & Hd).
  pose proof (extends_offset _ _ _ H1) as Ho. pose proof (ex_frame _ _ _ H1) as HF1. rewrite HF in HF1.
  assert (Hl : s1.(jit_text_len) = s.(jit_text_len)) by (destruct H1 as [H1 _ _ _ _ _ _]; by injection H1).
  destruct (Hf u s1 HF1 (extends_anchors_ok _ _ _ _ H1 HA) ltac:(unfold has_room; lia)) as (w & s2 & E2 & H2 & _).
  exists w, s2. unfold j_bind. rewrite E1. cbn [exec_bind fst snd].
  split_and!; [done|by apply (extends_trans n k s s1 s2)|by apply (branch_done_extends _ _ _ k s1)].
Qed.

Lemma branches_at_assoc {T U W} (n : Z) (m : Jit T) (f : T -> Jit U) (g : U -> Jit W) (prefix : list Z) :
  branches_at A F n (j_bind (j_bind m f) g) prefix t -> branches_at A F n (j_bind m (fun u => j_bind (f u) g)) prefix t.
Proof.
  intros Hm s HF HA Hr Hj. destruct (Hm s HF HA Hr Hj) as (u & s' & E & Hx). exists u, s'. split; [|done].
  unfold j_bind in *. by destruct (m s).
Qed.

Lemma branches_to_target (jump : Z -> X86Instruction) (l : Z) (prefix : list Z) :
  frame_ok F -> 0 <= t < zlen F.(f_pc_section) -> l = zlen prefix + 4 ->
  (forall z, x86_bytes (E := EbpfError) (jump z) = Ret (prefix ++ le_bytes 4 z)) ->
  branches_at A F (l + 1)
    (let* jump_offset := relative_to_target_pc t l in emit_ins (Ret (jump jump_offset))) prefix t.
Proof.
  intros HF Ht -> Hj s Hs HA Hr Hin.
  destruct (emits_to_target A F jump t (zlen prefix + 4)) with (s := s) as (u & s' & E & Hx & _); try done.
  { pose proof (zlen_nonneg prefix). lia. }
  { intros z. eexists. split; [apply Hj|]. by rewrite zlen_app. }
  exists u, s'. split_and!; [done|done|].
  destruct (relative_to_target_eq F t (zlen prefix + 4) s Hs HF Ht) as (e & He & Her & Heq).
  assert (Hold : forall p, p = offset_in_text_section s -> Forall (fun j => j.(jump_location) + 4 <= p \/
    p + zlen prefix + 4 <= j.(jump_location) \/ j = mkJump (p + zlen prefix) t) s.(text_section_jumps)).
  { intros p ->. eapply Forall_impl; [exact Hin|]. cbn. intros j. lia. }
  unfold j_bind in E. rewrite Heq in E. destruct (Z.eqb_spec e 0) as [He0|Hne]; cbn [exec_bind fst snd] in E.
  - set (s1 := set_jumps _ s) in E.
    destruct (emit_ins_code (jump 0) _ s1 (Hj 0)) as (s2 & noop & E2 & _ & Hc & Hju).
    { unfold has_room in *. rewrite zlen_app. change (zlen (le_bytes 4 0)) with 4. cbn. exact Hr. }
    rewrite E2 in E. injection E as <- <-. cbn [s1 set_jumps jit_code text_section_jumps] in Hc, Hju.
    replace (offset_in_text_section s + (zlen prefix + 4) - 4) with (offset_in_text_section s + zlen prefix) in Hju by lia.
    split.
    + exists 0. rewrite Hc, Hju. split; [apply contains_here|]. left. apply elem_of_app. right. by left.
    + rewrite Hju. apply Forall_app. split; [by apply Hold|]. constructor; [by right; right|done].
  - set (z := as_i32 _) in E. destruct (emit_ins_code (jump z) _ s (Hj z)) as (s2 & noop & E2 & _ & Hc & Hju).
    { unfold has_room in *. rewrite zlen_app. change (zlen (le_bytes 4 z)) with 4. exact Hr. }
    rewrite E2 in E. injection E as <- <-. split; [|rewrite Hju; by apply Hold].
    exists z. rewrite Hc. split; [apply contains_here|]. right. exists e.
    assert (Hp : s2.(jit_pc_section) = F.(f_pc_section)) by (rewrite <-Hs; destruct Hx as [Hf _ _ _ _ _ _]; by injection Hf).
    rewrite Hp. split_and!; [done|done|]. unfold z. unfold has_room in Hr.
    assert (s.(jit_text_len) = F.(f_text_len)) by (by rewrite <-Hs). pose proof (fo_len F HF).
    pose proof (zlen_nonneg prefix). assert (0 <= offset_in_text_section s) by apply zlen_nonneg.
    unfold as_i32. rewrite swrap_small; unfold in_s; lia.
Qed.
End Rules.
End Branches.

(** * When a guest jump is taken *)

(** The condition of a jump on its two registers, by the fields of its opcode: the width, the
    comparison and whether it compares with a register or with the immediate. *)
Definition branch_op (o : Z) : Z := match branch_prefix o with [_; op] => op | _ => 0 end.
Definition guest_taken (insn : Insn) (x y : Z) : bool :=
  let o := insn.(opc) in
  (o =? JA) || branch_taken (if Z.land o 7 =? BPF_JMP32 then S32 else S64) (branch_op o) (Z.land o BPF_ALU_OP_MASK =? BPF_JSET)
                 x (if Z.testbit o 3 then y else insn.(imm)).

(** A comparison and the start of the branch, which is taken by the machine if the guest's is. *)
Definition branch_code (insn : Insn) (d s : X86Register) (prefix : list Z) : Prop :=
  exists compare, prefix = compare ++ branch_prefix insn.(opc) /\
    decides compare (branch_prefix insn.(opc)) (fun m => guest_taken insn (m.(gpr) (reg_code d)) (m.(gpr) (reg_code s))).

(** * The arms of jumps *)

Section Arms.
Context `{Bo : LittleEndian} `{Rnd : Rand} `{Host : JitHost}.
Context (config : Config) (executable : Executable) (program : list Z).
Let v : SBPFVersion := executable.(sbpf_version).
Context (F : Frame) (HF : frame_ok F) (Hn : zlen F.(f_pc_section) = num_insns program).
Context (insn : Insn) (Hf : compile_facts program v F.(f_pc) insn) (d s : X86Register).
Context (Hd : mapped d) (Hds : d <> REGISTER_SCRATCH) (Hs : mapped s).
Let A : list Z := all_anchors config.
Let target : Z := as_u64 (F.(f_pc) + insn.(off) + 1).
Context (Hj : jump_opcode v insn.(opc) = true).

Lemma branch_target_ok : target_ok F target.
Proof. by apply (jump_target_ok executable program F HF Hn insn Hf). Qed.

Lemma validate_and_profile_target :
  emits A F 54 (emit_validate_and_profile_instruction_count config (Some target)).
Proof.
  apply emits_validate_and_profile; [done|apply meter_set|by apply (target_small F HF), branch_target_ok].
Qed.

Lemma branches_ja (pre : list Z -> Prop) : pre [0xe9] -> branches A F 60 (compile_ja config target) pre target.
Proof.
  intros Hpre. unfold compile_ja. apply (branches_after A F _ 54 6); [apply validate_and_profile_target|intros _|done].
  apply (branches_at_now A F _ _ _ [0xe9]); [|done].
  apply (branches_to_target A F target (fun z => mkX86 S32 0 0xe9 false None 0 0 S32 z) 5); try done.
  apply branch_target_ok.
Qed.

Lemma branches_emit_branch (op : Z) : branches_at A F 30 (emit_branch config op target) [0x0f; op] target.
Proof.
  unfold emit_branch. apply branches_at_assoc.
  apply (branches_at_before A F _ 7 23); [|intros _; by apply emits_undo, (target_small F HF), branch_target_ok|done].
  apply (branches_to_target A F target (fun z => mkX86 S32 1 op false None 0 0 S32 z) 6); try done.
  apply branch_target_ok.
Qed.

(** A comparison and the branch behind it. *)
Definition compared (size : OperandSize) (op : Z) (bitwise : bool) (y : Machine -> Z) (prefix : list Z) : Prop :=
  exists compare, prefix = compare ++ [0x0f; op] /\
    decides compare [0x0f; op] (fun m => branch_taken size op bitwise (m.(gpr) (reg_code d)) (y m)).

Lemma branches_reg (size : OperandSize) (op : Z) (bitwise : bool) : wide size -> branch_op_ok op bitwise ->
  branches A F 88 (branch_reg config d s target size op bitwise) (compared size op bitwise (fun m => m.(gpr) (reg_code s))) target.
Proof.
  intros Hw Ho. unfold branch_reg, emit_conditional_branch_reg.
  apply (branches_after A F _ 54 34); [apply validate_and_profile_target|intros _|done].
  destruct (compares_decides F.(f_key) _ 0x0f op _ (compares_register F.(f_key) size op bitwise s d Hw Ho Hs Hd)) as (l & Hl & Hdec).
  apply (branches_compare A F _ 4 30 _ _ [0x0f; op] l); [destruct Hw as [-> | ->]; emits_by|by destruct bitwise|apply branches_emit_branch|done|].
  intros bs Hi. exists bs. split; [done|by apply Hdec].
Qed.

Lemma branches_imm (size : OperandSize) (op : Z) (bitwise : bool) : wide size -> branch_op_ok op bitwise ->
  branches A F 107 (branch_imm config insn d target size op bitwise) (compared size op bitwise (fun _ => insn.(imm))) target.
Proof.
  intros Hw Ho. pose proof (cf_imm _ _ _ _ Hf) as Hz. unfold branch_imm, emit_conditional_branch_imm.
  apply (branches_after A F _ 54 53); [apply validate_and_profile_target|intros _|done].
  destruct (compares_decides F.(f_key) _ 0x0f op _ (compares_sanitized config F.(f_key) (fo_key F HF) size op bitwise d insn.(imm) Hw Ho Hd Hds Hz)) as (l & Hl & Hdec).
  apply (branches_compare A F _ 23 30 _ _ [0x0f; op] l); [|by destruct bitwise|apply branches_emit_branch|done|].
  - destruct Hw as [-> | ->]; (apply emits_cases; intros _; [|emits_by]);
      (apply (emits_bind A F A A 19 4); [by apply emits_sanitized_load_i32|intros _; emits_by|done]).
  - intros bs Hi. exists bs. split; [done|by apply Hdec].
Qed.

Definition arm_branches (arm : bool * (unit -> Jit unit)) : Prop :=
  arm.1 = true -> branches A F 130 (arm.2 tt) (branch_code insn d s) target.

(** The condition of a concrete opcode. *)
Lemma compared_code (size : OperandSize) (op : Z) (bitwise : bool) (y : Machine -> Z) (prefix : list Z) :
  branch_prefix insn.(opc) = [0x0f; op] ->
  (forall m, guest_taken insn (m.(gpr) (reg_code d)) (m.(gpr) (reg_code s)) = branch_taken size op bitwise (m.(gpr) (reg_code d)) (y m)) ->
  compared size op bitwise y prefix -> branch_code insn d s prefix.
Proof.
  intros Hp Ht (compare & -> & Hdec). exists compare. rewrite Hp. split; [done|]. intros m Hm. rewrite Ht. by apply Hdec.
Qed.

Ltac branch_op_check := cbn [branch_op_ok]; first [reflexivity | apply (bool_decide_unpack _); reflexivity].
Ltac branch_arm :=
  let Hg := fresh "Hg" in intros Hg; cbn [fst snd] in Hg |- *;
  let Ho := fresh "Ho" in
  assert (Ho := Hg); try (apply andb_prop in Ho as [Ho _]); apply Z.eqb_eq in Ho;
  eapply branches_weaken;
  [ first [ apply branches_imm; [unfold wide; by auto|branch_op_check]
          | apply branches_reg; [unfold wide; by auto|branch_op_check] ]
  | done
  | intros ?; apply compared_code; [by rewrite Ho|intros m; unfold guest_taken; rewrite Ho; reflexivity] ].
Ltac branch_arms := cbv zeta; repeat first [apply Forall_nil_2 | apply Forall_cons_2; [branch_arm|]].

Lemma ja_arm : insn.(opc) = JA -> branches A F 130 (compile_ja config target) (branch_code insn d s) target.
Proof.
  intros Ho. eapply branches_weaken; [apply (branches_ja (eq [0xe9])); done|done|]. intros prefix <-. exists []. unfold guest_taken. rewrite Ho.
  split; [done|]. apply (decides_nothing 0xe9).
Qed.

Lemma jump_arms_branch :
  Forall arm_branches (jit_jmp32 config executable insn d s target ++ jit_jmp64 config insn d s target).
Proof.
  unfold jit_jmp32, jit_jmp64. apply Forall_app. split; [branch_arms|]. apply Forall_cons_2; [|branch_arms].
  intros Ho%Z.eqb_eq. by apply ja_arm.
Qed.

(** The arms in front of the jumps. *)
Definition data_arms `{Bo' : LittleEndian} `{Rnd' : Rand} `{Host' : JitHost} (config : Config) (executable : Executable)
    (program : list Z) (insn : Insn) (d s : X86Register) : list (bool * (unit -> Jit unit)) :=
  jit_ld config executable program insn d ++ jit_ldx config executable insn d s
  ++ jit_st config executable insn d ++ jit_stx config executable insn d s
  ++ jit_alu32 config executable insn d s ++ jit_alu64 config executable insn d s
  ++ jit_pqr config executable insn d s.
End Arms.

Lemma first_arm_skip {T} (l1 l2 : list (bool * T)) :
  Forall (fun g => g = false) (fst <$> l1) -> first_arm (l1 ++ l2) = first_arm l2.
Proof.
  induction l1 as [|[g a] l1 IH]; [done|]. inversion 1 as [|? ? Hg Hl]. cbn in Hg. subst g. by apply IH.
Qed.

Lemma first_arm_take {T} (l1 l2 : list (bool * T)) :
  existsb id (fst <$> l1) = true -> exists a, first_arm l1 = Some a /\ first_arm (l1 ++ l2) = Some a.
Proof.
  induction l1 as [|[g a] l1 IH]; [done|]. cbn. destruct g; [by exists a|]. exact IH.
Qed.

Definition data_guards (v : SBPFVersion) (o : Z) : list bool :=
  fst <$> data_arms (Bo' := le_reference) (Rnd' := no_rand) (Host' := no_host) default_config
    (version_executable v) [] (mkInsn 0 o 0 0 0 0) RAX RAX.
Definition jump_guards (v : SBPFVersion) (o : Z) : list bool :=
  fst <$> (jit_jmp32 (Rnd := no_rand) default_config (version_executable v) (mkInsn 0 o 0 0 0 0) RAX RAX 0
    ++ jit_jmp64 (Rnd := no_rand) default_config (mkInsn 0 o 0 0 0 0) RAX RAX 0).

(** On an opcode of a jump, the arms in front of the jumps do not match, and a jump does. *)
Lemma jump_guards_first (v : SBPFVersion) (o : Z) :
  in_u 8 o -> jump_opcode v o = true ->
  Forall (fun g => g = false) (data_guards v o) /\ existsb id (jump_guards v o) = true.
Proof.
  assert (Hall : Forall (fun o => jump_opcode v o = true -> Forall (fun g => g = false) (data_guards v o) /\
    existsb id (jump_guards v o) = true) (seqZ 0 256)).
  { destruct v; apply (bool_decide_unpack _); vm_compute; exact I. }
  intros Ho. rewrite Forall_forall in Hall. apply Hall, elem_of_seqZ. unfold in_u in Ho. lia.
Qed.

(** A guest jump is compiled to a machine jump with its condition, to its target. *)
Lemma branches_compile_insn `{Bo : LittleEndian} `{Rnd : Rand} `{Host : JitHost} (config : Config)
    (executable : Executable) (program : list Z) (F : Frame) (insn : Insn) (d s : X86Register) :
  frame_ok F -> zlen F.(f_pc_section) = num_insns program ->
  compile_facts program executable.(sbpf_version) F.(f_pc) insn ->
  mapped d -> d <> REGISTER_SCRATCH -> mapped s ->
  jump_opcode executable.(sbpf_version) insn.(opc) = true -> in_u 8 insn.(opc) ->
  branches (all_anchors config) F 130
    (compile_insn config executable program insn d s (as_u64 (F.(f_pc) + insn.(off) + 1)))
    (branch_code insn d s) (as_u64 (F.(f_pc) + insn.(off) + 1)).
Proof.
  intros HF Hn Hf Hmd Hds Hms Hj Ho. set (t := as_u64 _).
  destruct (jump_guards_first _ _ Ho Hj) as [Hd Hjmp].
  assert (jit_arms config executable program insn d s t = data_arms config executable program insn d s
    ++ (jit_jmp32 config executable insn d s t ++ jit_jmp64 config insn d s t)
    ++ jit_calls config executable program insn d s) as Harms.
  { unfold jit_arms, data_arms. by rewrite <-!app_assoc. }
  destruct (first_arm_take (jit_jmp32 config executable insn d s t ++ jit_jmp64 config insn d s t)
    (jit_calls config executable program insn d s) Hjmp) as (body & H1 & H2).
  assert (Hd' : Forall (fun g => g = false) (fst <$> data_arms config executable program insn d s)) by exact Hd.
  unfold compile_insn. rewrite Harms, (first_arm_skip _ _ Hd'), H2.
  apply (first_arm_Forall (fun body => branches (all_anchors config) F 130 (body tt) (branch_code insn d s) t)
    _ (jump_arms_branch config executable program F HF Hn insn Hf d s Hmd Hds Hms Hj) body H1).
Qed.
