(* ===== verification/JitCode.v ===== *)
(** Compilation of a whole verified program (src/jit.rs): the loop over its instructions, the
    resolution of forward jumps, and the sealed result. *)
From stdpp Require Import sorting.
From S2P Require Import Prelude Error Ebpf Program Verifier Executable InterpreterSafety Pages.
From S2P Require Import X86 X86Semantics Jit JitSubroutines JitCompile JitSafety JitEmitters JitArms JitAlu JitCompare JitBranches.
Open Scope list_scope.
Open Scope jit_scope.

Lemma j_bind_Ret `{Rnd : Rand} {T U} (m : Jit T) (f : T -> Jit U) (s s' : JitCompiler) (t : T) :
  m s = Ret (t, s') -> j_bind m f s = f t s'.
Proof. intros E. unfold j_bind. by rewrite E. Qed.

Lemma j_lift_Ret `{Rnd : Rand} {T} (m : Exec EbpfError T) (s : JitCompiler) (t : T) :
  m = Ret t -> j_lift m s = Ret (t, s).
Proof. by intros ->. Qed.

(** * One instruction *)

Section Insn.
Context `{Bo : LittleEndian} `{Rnd : Rand} `{Host : JitHost}.
Context (config : Config) (executable : Executable) (program : list Z).
Let v : SBPFVersion := executable.(sbpf_version).
Let n : Z := num_insns program.

Record compile_context : Prop := {
  cc_bytes : bytes_ok program;
  cc_len : slice_len_ok program;
  cc_program : well_formed_program program v;
  cc_registries : registries_ok executable program;
  cc_checkpoint : 0 <= config.(instruction_meter_checkpoint_distance) < 2 ^ 63;
  cc_frame_size : 0 <= config.(stack_frame_size) < 2 ^ 62;
  cc_slots : n < 2 ^ 25;
}.
Context (Hc : compile_context).

(** What no step changes. *)
Definition static (s : JitCompiler) : Z * Z * Z * Z * Z * Z * Z :=
  (s.(jit_page_size), s.(jit_pc_ptr), s.(jit_text_ptr), s.(jit_text_len), s.(noop_range),
   s.(runtime_environment_key), s.(immediate_value_key)).

(** [s'] is [s] with at most [k] bytes more and a counter that may have moved on. *)
Record advanced (k : Z) (s s' : JitCompiler) : Prop := {
  ad_static : static s' = static s;
  ad_code : exists data, s'.(jit_code) = s.(jit_code) ++ data /\ zlen data <= k;
  ad_jumps : exists l, s'.(text_section_jumps) = s.(text_section_jumps) ++ l /\
    jumps_between (offset_in_text_section s) (offset_in_text_section s') n l;
  ad_anchors : forall A, anchors_ok A s -> anchors_ok A s';
  ad_validation : 0 <= s.(last_instruction_meter_validation_pc) <= s.(jit_pc) ->
    0 <= s'.(last_instruction_meter_validation_pc) <= s'.(jit_pc);
}.

Lemma advanced_offset (k : Z) (s s' : JitCompiler) :
  advanced k s s' -> offset_in_text_section s <= offset_in_text_section s' <= offset_in_text_section s + k.
Proof.
  intros [_ (data & C & Hd) _ _ _]. unfold offset_in_text_section. rewrite C, zlen_app.
  pose proof (zlen_nonneg data). lia.
Qed.

Lemma advanced_trans (k1 k2 : Z) (s1 s2 s3 : JitCompiler) :
  advanced k1 s1 s2 -> advanced k2 s2 s3 -> advanced (k1 + k2) s1 s3.
Proof.
  intros H1 H2. pose proof (advanced_offset _ _ _ H1). pose proof (advanced_offset _ _ _ H2).
  destruct H1 as [S1 (d1 & C1 & N1) (l1 & J1 & B1) A1 V1], H2 as [S2 (d2 & C2 & N2) (l2 & J2 & B2) A2 V2].
  split; [by rewrite S2| | |by auto|by auto].
  - exists (d1 ++ d2). rewrite C2, C1, <-app_assoc, zlen_app. split; [done|lia].
  - exists (l1 ++ l2). rewrite J2, J1, <-app_assoc. split; [done|].
    apply (jumps_between_app _ (offset_in_text_section s2)); [lia|done|done].
Qed.

Lemma advanced_weaken (k k' : Z) (s s' : JitCompiler) : advanced k s s' -> k <= k' -> advanced k' s s'.
Proof. intros [S (d & C & N) J A V] Hk. split; [done| |done..]. exists d. split; [done|lia]. Qed.

Lemma extends_advanced (k : Z) (s s' : JitCompiler) :
  extends k s s' -> zlen s.(jit_pc_section) = n -> advanced k s s'.
Proof.
  intros Hx Hn. pose proof Hx as [F1 C1 J1 _ _ _ V1]. rewrite Hn in J1.
  split; [|done|done|intros A; by apply (extends_anchors_ok A k)|].
  - unfold static, frame in *. injection F1. by intros -> -> -> _ _ -> -> -> ->.
  - assert (s'.(jit_pc) = s.(jit_pc)) as -> by (by injection F1). destruct V1 as [-> | ->]; lia.
Qed.

(** An update of the table of offsets and of the counter. *)
Lemma section_advanced (l : list Z) (pc : Z) (s : JitCompiler) :
  s.(jit_pc) <= pc -> advanced 0 s (set_pc_section l (set_pc pc s)).
Proof.
  intros Hpc. split; [done| | | |cbn; lia].
  - exists []. by rewrite app_nil_r.
  - exists []. rewrite app_nil_r. split; [done|apply jumps_between_nil].
  - intros A [H1 H2 H3]. by split.
Qed.

Section At.
Context (s : JitCompiler) (pc : Z) (d r : X86Register).
Context (Hpc : s.(jit_pc) = pc) (Hin : 0 <= pc < n) (HF : frame_ok (frame s)) (Hn : zlen s.(jit_pc_section) = n).
Context (HA : anchors_ok (all_anchors config) s) (Hroom : has_room 130 s).
Let insn : Insn := insn_at program pc.
Let target : Z := as_u64 (pc + insn.(off) + 1).
Context (Hok : insn_ok program v pc).

Lemma program_whole : zlen program mod INSN_SIZE = 0.
Proof. apply Hc. Qed.

Lemma insn_facts_at : compile_facts program v pc insn.
Proof. by apply insn_compile_facts; [apply Hc|apply program_whole| |]. Qed.

Lemma insn_opc : in_u 8 insn.(opc).
Proof. by apply insn_at_opc; [apply Hc|apply program_whole|]. Qed.

Lemma compile_other : insn.(opc) <> LD_DW_IMM ->
  exists s', compile_insn config executable program insn d r target s = Ret (tt, s') /\ extends 130 s s'.
Proof.
  intros Hne. destruct Hok as (c & Hcl & _).
  destruct (emits_compile_insn config executable program (cc_registries Hc) (cc_len Hc) program_whole
    (frame s) HF Hn insn ltac:(cbn; rewrite Hpc; apply insn_facts_at) d r ltac:(by exists c) Hne insn_opc s eq_refl HA Hroom)
    as ([] & s' & E & Hx & _).
  exists s'. cbn [frame f_pc] in E. rewrite Hpc in E. done.
Qed.

Lemma compile_jump : mapped d -> d <> REGISTER_SCRATCH -> mapped r -> jump_opcode v insn.(opc) = true -> jumps_inside s ->
  exists s' p prefix, compile_insn config executable program insn d r target s = Ret (tt, s') /\ extends 130 s s' /\
    offset_in_text_section s <= p /\ branch_code insn d r prefix /\ branch_done prefix target p s'.
Proof.
  intros Hmd Hds Hmr Hj Hi.
  destruct (branches_compile_insn config executable program (frame s) insn d r HF Hn
    ltac:(cbn; rewrite Hpc; apply insn_facts_at) Hmd Hds Hmr Hj insn_opc s eq_refl HA Hroom Hi) as ([] & s' & E & Hx & p & prefix & Hp & Hpre & Hd).
  exists s', p, prefix. cbn [frame f_pc] in E, Hd. rewrite Hpc in E, Hd. done.
Qed.

Lemma frame_ok_update (st : JitCompiler) (i a : Z) :
  frame_ok (frame st) -> 0 <= a < st.(jit_text_len) -> forall q, 0 <= q < 2 ^ 30 ->
  frame_ok (frame (set_pc_section (<[Z.to_nat i := a]> st.(jit_pc_section)) (set_pc q st))).
Proof.
  intros [H1 H2 H3 H4 H5 H6] Ha q Hq. split; try done; cbn in *.
  - by rewrite zlen_insert.
  - by apply Forall_insert.
Qed.

Lemma lddw_enabled : insn.(opc) = LD_DW_IMM -> disable_lddw v = false.
Proof.
  intros Ho. destruct Hok as (c & Hcl & _). unfold insn_class in Hcl. fold insn in Hcl. rewrite Ho in Hcl.
  destruct v; try done; destruct (_ =? 10); by vm_compute in Hcl.
Qed.

Lemma compile_lddw_first : insn.(opc) = LD_DW_IMM ->
  compile_insn config executable program insn d r target = compile_lddw config program insn d.
Proof.
  intros Ho. unfold compile_insn, jit_arms, jit_ld. cbn [app first_arm]. rewrite Ho. fold v.
  by rewrite (lddw_enabled Ho).
Qed.

Lemma lddw_second : insn.(opc) = LD_DW_IMM -> pc + 1 < n.
Proof.
  intros Ho. destruct Hok as (c & Hcl & Hcok & _).
  rewrite (proj1 (opcode_class_lddw _ _ _ _ insn_opc Hcl) Ho) in Hcok. apply Hcok.
Qed.

(** A wide load, up to the load of its constant: the second slot traps. *)
Lemma compile_lddw_slots : pc + 1 < n ->
  exists s2 a z, compile_lddw config program insn d s = emit_load_constant config d z s2 /\ advanced 54 s s2 /\
    0 <= a <= offset_in_text_section s2 /\ s2.(jit_pc) = pc + 1 /\
    s2.(jit_pc_section) = <[Z.to_nat (pc + 1) := a]> s.(jit_pc_section).
Proof.
  intros Hlt. pose proof (fo_slots _ HF) as Hs. pose proof (fo_len _ HF) as Hlen. cbn in Hs, Hlen.
  unfold has_room in Hroom. unfold compile_lddw.
  rewrite (j_bind_Ret get_pc _ s s pc) by (unfold get_pc, gets; by rewrite Hpc).
  rewrite (j_bind_Ret _ _ s s (pc + 2)).
  2: { apply j_lift_Ret. unfold u64_add, u64_max. by rewrite (proj2 (Z.leb_le _ _)) by lia. }
  destruct (emits_validate_and_profile config (all_anchors config) (frame s) HF (pc + 2)
    ltac:(anchor) ltac:(lia) s eq_refl HA ltac:(unfold has_room; lia)) as ([] & s1 & E1 & H1 & HA1).
  rewrite (j_bind_Ret _ _ _ _ _ E1). pose proof (ex_frame _ _ _ H1) as HF1.
  assert (s1.(jit_pc_section) = s.(jit_pc_section) /\ s1.(jit_text_len) = s.(jit_text_len)
    /\ s1.(jit_pc) = pc) as (Hp1 & Ht1 & Hpc1) by (rewrite <-Hpc; by injection HF1).
  pose proof (extends_offset _ _ _ H1) as Ho1.
  pose proof (proj1 (Forall_forall _ _) (ao_set _ _ HA1) ANCHOR_CALL_UNSUPPORTED_INSTRUCTION ltac:(anchor)) as [a Ha].
  pose proof (ao_range _ _ HA1 _ _ Ha) as Hra.
  rewrite (j_bind_Ret _ _ s1 (set_pc (pc + 1) s1) tt) by done.
  set (s1' := set_pc (pc + 1) s1).
  rewrite (j_bind_Ret get _ s1' s1' s1' eq_refl).
  rewrite (j_bind_Ret _ _ s1' s1' (Some a)) by (apply j_lift_Ret; by apply index_slice_lookup).
  rewrite (j_bind_Ret _ _ s1' s1' a) by (by apply j_lift_Ret).
  assert (as_u32 a = a) as -> by (apply uwrap_small; unfold in_u; lia).
  set (l := <[Z.to_nat (pc + 1) := a]> s1.(jit_pc_section)).
  rewrite (j_bind_Ret _ _ s1' s1' l) by (apply j_lift_Ret, set_index_Ret; cbn; rewrite Hp1; lia).
  rewrite (j_bind_Ret _ _ s1' (set_pc_section l s1') tt) by done.
  erewrite j_bind_Ret.
  2: { apply j_lift_Ret, augment_lddw_eq; [cbn; lia| |apply Hc]. rewrite (num_insns_len program program_whole).
       cbn [insn_at decode_bytes ptr insn]. unfold INSN_SIZE. fold n. lia. }
  eexists _, a, _. split; [reflexivity|]. split_and!; [|lia|exact (proj2 Hra)|done|by rewrite <-Hp1].
  apply (extends_advanced 54 s s1) in H1; [|done].
  apply (advanced_trans 54 0 s s1); [done|]. apply section_advanced. lia.
Qed.

Lemma compile_load : insn.(opc) = LD_DW_IMM ->
  exists s' a, compile_insn config executable program insn d r target s = Ret (tt, s') /\ advanced 130 s s' /\
    0 <= a <= offset_in_text_section s' /\ s'.(jit_pc) = pc + 1 /\
    s'.(jit_pc_section) = <[Z.to_nat (pc + 1) := a]> s.(jit_pc_section).
Proof.
  intros Ho. pose proof (lddw_second Ho) as Hlt. rewrite (compile_lddw_first Ho).
  destruct (compile_lddw_slots Hlt) as (s2 & a & z & -> & H2 & Ha & Hpc2 & Hp2).
  pose proof (advanced_offset _ _ _ H2) as Ho2. pose proof (ad_static _ _ _ H2) as Hst.
  assert (Ht2 : s2.(jit_text_len) = s.(jit_text_len)) by (by injection Hst). unfold has_room in Hroom.
  destruct (emits_load_constant config (all_anchors config) (frame s2) d z s2 eq_refl) as ([] & s3 & E3 & H3 & _).
  { by apply (ad_anchors _ _ _ H2). }
  { unfold has_room. lia. }
  exists s3, a. split; [exact E3|]. pose proof (extends_offset _ _ _ H3) as Ho3. pose proof (ex_frame _ _ _ H3) as HF3.
  split_and!; [|lia|lia|rewrite <-Hpc2; by injection HF3|rewrite <-Hp2; by injection HF3].
  apply (advanced_weaken (54 + 32)); [|lia]. apply (advanced_trans 54 32 s s2 s3); [done|].
  apply extends_advanced; [by apply (extends_weaken _ _ _ _ H3)|]. by rewrite Hp2, zlen_insert.
Qed.
End At.

(** * The loop *)

(** The code of slot [q], a jump, has the branch to its target: behind its offset, and in
    front of that of the next slot, if that is compiled, below [pc]. *)
Definition branch_compiled (pc q : Z) (s : JitCompiler) : Prop :=
  let insn := insn_at program q in
  jump_opcode v insn.(opc) = true ->
  exists e p d r prefix, s.(jit_pc_section) !! Z.to_nat q = Some e /\ e <= p /\
    REGISTER_MAP !! Z.to_nat insn.(dst) = Some d /\ REGISTER_MAP !! Z.to_nat insn.(src) = Some r /\
    branch_code insn d r prefix /\ branch_done prefix (as_u64 (q + insn.(off) + 1)) p s /\
    (q + 1 < pc -> forall e', s.(jit_pc_section) !! Z.to_nat (q + 1) = Some e' -> p + zlen prefix + 4 <= e').

(** The arithmetic instruction in slot [q] is compiled: its code is behind its offset and, if the next
    slot is compiled, below [pc], right in front of that; no jump is resolved inside of it. *)
Definition arithmetic_compiled (pc q : Z) (s : JitCompiler) : Prop :=
  let insn := insn_at program q in
  alu_opcode v insn.(opc) = true -> forall d r l,
  REGISTER_MAP !! Z.to_nat insn.(dst) = Some d -> REGISTER_MAP !! Z.to_nat insn.(src) = Some r ->
  writes s.(immediate_value_key) (compile_insn config executable program insn d r (as_u64 (q + insn.(off) + 1))) l ->
  exists e p bs, s.(jit_pc_section) !! Z.to_nat q = Some e /\ e <= p /\
    contains s.(jit_code) p bs /\ p + zlen bs <= offset_in_text_section s /\ interleaved l bs /\
    Forall (fun j => j.(jump_location) + 4 <= p \/ p + zlen bs <= j.(jump_location)) s.(text_section_jumps) /\
    (q + 1 < pc -> forall e', s.(jit_pc_section) !! Z.to_nat (q + 1) = Some e' -> e' = p + zlen bs) /\
    (q + 1 = pc -> offset_in_text_section s = p + zlen bs).

Context (base : Z * Z * Z * Z * Z * Z * Z).

(** The state before the instruction at [pc] is compiled. *)
Record compiling (pc : Z) (s : JitCompiler) : Prop := {
  cp_static : static s = base;
  cp_frame : frame_ok (frame s);
  cp_pc : s.(jit_pc) = pc;
  cp_slots : zlen s.(jit_pc_section) = n;
  cp_anchors : anchors_ok (all_anchors config) s;
  cp_jumps : jumps_between 0 (offset_in_text_section s) n s.(text_section_jumps);
  cp_last : 0 <= s.(last_instruction_meter_validation_pc) <= pc;
  cp_zero : forall q, pc <= q < n -> s.(jit_pc_section) !! Z.to_nat q = Some 0;
  cp_inside : Forall (fun e => 0 <= e <= offset_in_text_section s) s.(jit_pc_section);
  cp_room : has_room 0 s;
  cp_branches : forall q, 0 <= q < pc -> branch_compiled pc q s;
  cp_arithmetic : forall q, 0 <= q < pc -> arithmetic_compiled pc q s;
}.

(** Entries that are known stay. *)
Definition keeps_entries (s s' : JitCompiler) : Prop :=
  forall i e, s.(jit_pc_section) !! i = Some e -> e <> 0 -> s'.(jit_pc_section) !! i = Some e.

Lemma branch_done_advanced (prefix : list Z) (t p k : Z) (s s' : JitCompiler) :
  advanced k s s' -> keeps_entries s s' -> branch_done prefix t p s -> branch_done prefix t p s'.
Proof.
  intros [_ (data & C & _) (l & J & [R _]) _ _] Hk Hd. pose proof (branch_done_end _ _ _ _ Hd) as [_ He].
  destruct Hd as [(z & Hct & Hz) Ha]. split.
  - exists z. rewrite C, J. split; [by apply contains_app, branch_bytes_nonempty|].
    destruct Hz as [Hz|(e & He1 & He2 & He3)]; [left; apply elem_of_app; by left|].
    right. exists e. split_and!; [by apply Hk|done|done].
  - rewrite J. apply Forall_app. split; [done|]. eapply Forall_impl; [exact R|]. cbn. intros j. lia.
Qed.

Lemma branch_compiled_advanced (pc pc' q k : Z) (s s' : JitCompiler) :
  advanced k s s' -> keeps_entries s s' -> s'.(jit_pc_section) !! Z.to_nat q = s.(jit_pc_section) !! Z.to_nat q ->
  (q + 1 < pc' -> forall e', s'.(jit_pc_section) !! Z.to_nat (q + 1) = Some e' ->
    q + 1 < pc /\ s.(jit_pc_section) !! Z.to_nat (q + 1) = Some e' \/ offset_in_text_section s <= e') ->
  branch_compiled pc q s -> branch_compiled pc' q s'.
Proof.
  intros Ha Hk Hq Hq' Hb Hj. destruct (Hb Hj) as (e & p & d & r & prefix & He & Hp & Hdm & Hrm & Hpre & Hd & He'). exists e, p, d, r, prefix. rewrite Hq.
  split_and!; [done|done|done|done|done|by apply (branch_done_advanced _ _ _ k s)|].
  intros Hlt e' [[Hpc H]|H]%(Hq' Hlt); [by apply He'|]. pose proof (branch_done_end _ _ _ _ Hd). lia.
Qed.

Lemma arithmetic_compiled_advanced (pc pc' q k : Z) (s s' : JitCompiler) :
  advanced k s s' -> s'.(jit_pc_section) !! Z.to_nat q = s.(jit_pc_section) !! Z.to_nat q ->
  (q + 1 < pc' -> forall e', s'.(jit_pc_section) !! Z.to_nat (q + 1) = Some e' ->
    q + 1 < pc /\ s.(jit_pc_section) !! Z.to_nat (q + 1) = Some e' \/ q + 1 = pc /\ e' = offset_in_text_section s) ->
  (q + 1 = pc' -> q + 1 = pc /\ offset_in_text_section s' = offset_in_text_section s) ->
  arithmetic_compiled pc q s -> arithmetic_compiled pc' q s'.
Proof.
  intros Ha Hq Hnext Hend Hcq Ho d r l Hd Hr Hw. pose proof (advanced_offset _ _ _ Ha) as Hoff.
  destruct Ha as [Hst (data & C & _) (jumps & J & [R _]) _ _].
  assert (Hk : s'.(immediate_value_key) = s.(immediate_value_key)) by (by injection Hst). rewrite Hk in Hw.
  destruct (Hcq Ho d r l Hd Hr Hw) as (e & p & bs & He & Hp & Hct & Hl & Hi & Hj & Hn & Hx). exists e, p, bs.
  rewrite Hq, C, J. split_and!; [done|done|by apply contains_more|lia|done| | |].
  - apply Forall_app. split; [done|]. eapply Forall_impl; [exact R|]. cbn beta. intros j. lia.
  - intros Hlt e' He'. destruct (Hnext Hlt e' He') as [[H1 H2]|[H1 ->]]; [by apply Hn|by apply Hx].
  - intros Heq. destruct (Hend Heq) as [H1 ->]. by apply Hx.
Qed.

Section Step.
Context (s : JitCompiler) (pc : Z) (Hs : compiling pc s) (Hin : 0 <= pc < n) (Hok : insn_ok program v pc).
Context (Hroom : offset_in_text_section s + MAX_MACHINE_CODE_LENGTH_PER_INSTRUCTION * 2 < s.(jit_text_len)).
Let insn : Insn := insn_at program pc.
Let s1 : JitCompiler := set_pc_section (<[Z.to_nat pc := offset_in_text_section s]> s.(jit_pc_section)) s.

Lemma step_frame : frame_ok (frame s1).
Proof.
  pose proof (cp_pc _ _ Hs) as Hp. pose proof (cp_frame _ _ Hs) as [? ? H ? ? ?]. cbn in H.
  assert (s1 = set_pc_section (<[Z.to_nat pc := offset_in_text_section s]> s.(jit_pc_section)) (set_pc s.(jit_pc) s)) as ->
    by (by destruct s).
  apply frame_ok_update; [by apply Hs| |lia].
  split; [apply zlen_nonneg|]. unfold MAX_MACHINE_CODE_LENGTH_PER_INSTRUCTION in Hroom. lia.
Qed.

(** Before the instruction: its offset, the checkpoint and the trace. *)
Definition step_rest (d r : X86Register) : Jit unit :=
  compile_insn config executable program insn d r (as_u64 (pc + insn.(off) + 1)) ;*
  let* pc := get_pc in
  let* next := j_lift (u64_add pc 1) in
  modify (set_pc next).

Lemma step_emits (st : JitCompiler) : frame st = frame s1 -> anchors_ok (all_anchors config) st -> has_room 61 st ->
  exists s2 s3,
   j_if (s.(last_instruction_meter_validation_pc) + config.(instruction_meter_checkpoint_distance) <=? pc)
     (emit_validate_instruction_count config (Some pc)) st = Ret (tt, s2) /\
   j_if config.(enable_register_tracing)
    (emit_ins (load_immediate REGISTER_SCRATCH (as_i64 pc)) ;*
     emit_to_anchor call_immediate ANCHOR_TRACE 5 ;*
     emit_ins (load_immediate REGISTER_SCRATCH 0)) s2 = Ret (tt, s3) /\ extends 61 st s3.
Proof.
  intros HF HA Hr. assert (HFok : frame_ok (frame st)) by (rewrite HF; apply step_frame).
  assert (HFpc : (frame st).(f_pc) = pc) by (rewrite HF; apply (cp_pc _ _ Hs)).
  set (trace := j_if config.(enable_register_tracing) _).
  assert (H1 : emits (all_anchors config) (frame st) 31 (j_if
    (s.(last_instruction_meter_validation_pc) + config.(instruction_meter_checkpoint_distance) <=? pc)
    (emit_validate_instruction_count config (Some pc)))).
  { apply emits_if; [intros _|done]. rewrite <-HFpc. apply emits_validate; [done|anchor]. }
  assert (H2 : emits (all_anchors config) (frame st) 30 trace).
  { apply emits_if; [intros Ht|done].
    apply (emits_bind _ _ (all_anchors config) (all_anchors config) 11 19); [apply emits_load_immediate|intros _|done].
    apply (emits_bind _ _ (all_anchors config) (all_anchors config) 8 11); [|intros _; apply emits_load_immediate|done].
    apply emits_to_anchor; [|done|intros; split; [reflexivity|zle]].
    unfold all_anchors. by apply (trace_anchor_set config
      ([32; 31; 30; 29; 28; 27; 26; 25; 24; 23; 22; 21] ++ take 14 (call_anchors config))). }
  unfold has_room in Hr.
  destruct (H1 st eq_refl HA ltac:(unfold has_room; lia)) as ([] & s2 & E2 & X2 & A2).
  pose proof (extends_offset _ _ _ X2). pose proof (ex_frame _ _ _ X2) as F2.
  assert (s2.(jit_text_len) = st.(jit_text_len)) by (by injection F2).
  destruct (H2 s2 F2 A2 ltac:(unfold has_room; lia)) as ([] & s3 & E3 & X3 & _).
  exists s2, s3. split_and!; [done|done|]. by apply (extends_trans 31 30 st s2).
Qed.

Lemma step_prefix :
  exists s2 d r, compile_step config executable program s = step_rest d r s2 /\ extends 61 s1 s2 /\
    REGISTER_MAP !! Z.to_nat insn.(dst) = Some d /\ REGISTER_MAP !! Z.to_nat insn.(src) = Some r.
Proof.
  pose proof (fo_slots _ (cp_frame _ _ Hs)) as Hsl. cbn in Hsl. rewrite (cp_slots _ _ Hs) in Hsl.
  pose proof (fo_len _ (cp_frame _ _ Hs)) as Hlen. cbn in Hlen. pose proof (cp_pc _ _ Hs) as Hpc.
  pose proof (insn_facts_at pc Hin Hok) as Hf. fold insn in Hf.
  pose proof (cc_checkpoint Hc) as Hck. pose proof (cp_last _ _ Hs) as Hl.
  unfold compile_step. rewrite (j_bind_Ret check_room _ s s tt).
  2: { unfold check_room, j_bind, get. cbn [exec_bind fst snd]. by rewrite (proj2 (Z.leb_gt _ _)) by done. }
  rewrite (j_bind_Ret get _ s s s eq_refl). cbv zeta. rewrite Hpc.
  rewrite (j_bind_Ret _ _ s s insn).
  2: { apply j_lift_Ret, get_insn_unchecked_eq; [lia| |apply Hc]. rewrite (num_insns_len program program_whole).
       unfold INSN_SIZE. fold n. lia. }
  assert (as_u32 (offset_in_text_section s) = offset_in_text_section s) as ->.
  { apply uwrap_small. unfold in_u. unfold MAX_MACHINE_CODE_LENGTH_PER_INSTRUCTION in Hroom.
    assert (0 <= offset_in_text_section s) by apply zlen_nonneg. lia. }
  rewrite (j_bind_Ret _ _ s s (<[Z.to_nat pc := offset_in_text_section s]> s.(jit_pc_section))).
  2: { apply j_lift_Ret, set_index_Ret. by rewrite (cp_slots _ _ Hs). }
  rewrite (j_bind_Ret _ _ s s1 tt) by done.
  erewrite (j_bind_Ret _ _ s1 s1) by (apply j_lift_Ret, u64_add_small; lia).
  destruct (step_emits s1 eq_refl) as (s2 & s3 & E2 & E3 & Hx); [by destruct (cp_anchors _ _ Hs)| |].
  { unfold has_room. change (offset_in_text_section s + 61 <= s.(jit_text_len)).
    unfold MAX_MACHINE_CODE_LENGTH_PER_INSTRUCTION in Hroom. lia. }
  rewrite (j_bind_Ret _ _ _ _ _ E2), (j_bind_Ret _ _ _ _ _ E3).
  pose proof (cf_dst _ _ _ _ Hf) as Hdst. pose proof (cf_src _ _ _ _ Hf) as Hsrc.
  pose proof (cf_off _ _ _ _ Hf) as Hoff. unfold in_s in Hoff.
  destruct (index_slice_Ret (E := EbpfError) REGISTER_MAP insn.(dst)) as (d & Hd0 & Hd);
    [change (zlen REGISTER_MAP) with 11; lia|].
  destruct (index_slice_Ret (E := EbpfError) REGISTER_MAP insn.(src)) as (r & Hr0 & Hr);
    [change (zlen REGISTER_MAP) with 11; lia|].
  rewrite (j_bind_Ret _ _ s3 s3 d), (j_bind_Ret _ _ s3 s3 r) by (by apply j_lift_Ret).
  rewrite (j_bind_Ret _ _ s3 s3 (pc + insn.(off))).
  2: { apply j_lift_Ret. rewrite as_i64_small by lia. apply i64_add_Ret. unfold in_s. lia. }
  rewrite (j_bind_Ret _ _ s3 s3 (pc + insn.(off) + 1)) by (apply j_lift_Ret, i64_add_Ret; unfold in_s; lia).
  by exists s3, d, r.
Qed.

(** After the instruction: the slots it takes, and the table of offsets. *)
Definition section_after (s' : JitCompiler) : Prop :=
  insn.(opc) <> LD_DW_IMM /\ s'.(jit_pc) = pc /\ s'.(jit_pc_section) = s1.(jit_pc_section) \/
  insn.(opc) = LD_DW_IMM /\ s'.(jit_pc) = pc + 1 /\ pc + 1 < n /\ exists a, 0 <= a <= offset_in_text_section s' /\
    s'.(jit_pc_section) = <[Z.to_nat (pc + 1) := a]> s1.(jit_pc_section).

Lemma section_branch (s' : JitCompiler) (p : Z) (d r : X86Register) (prefix : list Z) :
  REGISTER_MAP !! Z.to_nat insn.(dst) = Some d -> REGISTER_MAP !! Z.to_nat insn.(src) = Some r ->
  offset_in_text_section s <= p -> s'.(jit_pc_section) = s1.(jit_pc_section) -> branch_code insn d r prefix ->
  branch_done prefix (as_u64 (pc + insn.(off) + 1)) p s' -> branch_compiled (pc + 1) pc s'.
Proof.
  intros Hdm Hrm Hp Hs' Hpre Hd _. exists (offset_in_text_section s), p, d, r, prefix. pose proof (cp_slots _ _ Hs) as Hl. unfold zlen in Hl.
  split_and!; [|done|done|done|done|done|lia]. rewrite Hs'. apply list_lookup_insert_eq. lia.
Qed.

Lemma section_arithmetic (s2 s' : JitCompiler) (d r : X86Register) :
  REGISTER_MAP !! Z.to_nat insn.(dst) = Some d -> REGISTER_MAP !! Z.to_nat insn.(src) = Some r ->
  compile_insn config executable program insn d r (as_u64 (pc + insn.(off) + 1)) s2 = Ret (tt, s') ->
  offset_in_text_section s <= offset_in_text_section s2 -> s'.(immediate_value_key) = s2.(immediate_value_key) ->
  s'.(jit_pc_section) = s1.(jit_pc_section) -> jumps_inside s2 -> arithmetic_compiled (pc + 1) pc s'.
Proof.
  intros Hd Hr E Ho Hk Hs' Hj _ d' r' l Hd' Hr' Hw. fold insn in Hd', Hr', Hw. rewrite Hd in Hd'. rewrite Hr in Hr'. injection Hd' as <-. injection Hr' as <-.
  destruct (Hw s2 s' (eq_sym Hk) E) as (bs & Hc2 & Hi & _ & Hj2). pose proof (cp_slots _ _ Hs) as Hl. unfold zlen in Hl.
  exists (offset_in_text_section s), (offset_in_text_section s2), bs. unfold offset_in_text_section in *. rewrite Hc2, Hj2, zlen_app.
  split_and!; [rewrite Hs'; apply list_lookup_insert_eq; lia|done| |done|done| |lia|done].
  - rewrite <-(app_nil_r bs) at 1. apply contains_here.
  - eapply Forall_impl; [exact Hj|]. cbn beta. intros j [_ H]. left. exact H.
Qed.

Lemma step_ready (s2 : JitCompiler) : extends 61 s1 s2 ->
  (s2.(jit_pc) = pc /\ s2.(jit_pc_section) = s1.(jit_pc_section) /\ offset_in_text_section s <= offset_in_text_section s2)
  /\ frame_ok (frame s2) /\ zlen s2.(jit_pc_section) = n /\ anchors_ok (all_anchors config) s2 /\ has_room 130 s2
  /\ jumps_inside s2.
Proof.
  intros Hx. pose proof (extends_offset _ _ _ Hx) as Ho. pose proof (ex_frame _ _ _ Hx) as HF2.
  change (offset_in_text_section s1) with (offset_in_text_section s) in Ho.
  assert (Hp2 : s2.(jit_pc_section) = s1.(jit_pc_section)) by (by injection HF2).
  split_and!; [rewrite <-(cp_pc _ _ Hs); by injection HF2|done|lia|rewrite HF2; apply step_frame| | | |].
  - rewrite Hp2. cbn. by rewrite zlen_insert, (cp_slots _ _ Hs).
  - apply (extends_anchors_ok _ _ _ _ Hx). by destruct (cp_anchors _ _ Hs).
  - unfold has_room. assert (s2.(jit_text_len) = s.(jit_text_len)) by (by injection HF2).
    unfold MAX_MACHINE_CODE_LENGTH_PER_INSTRUCTION in Hroom. lia.
  - apply (jumps_inside_extends _ _ _ Hx). eapply Forall_impl; [apply (jb_range _ _ _ _ (cp_jumps _ _ Hs))|].
    intros j (H1 & H2 & _). by split.
Qed.

Lemma insn_step (s2 : JitCompiler) (d r : X86Register) :
  REGISTER_MAP !! Z.to_nat insn.(dst) = Some d -> REGISTER_MAP !! Z.to_nat insn.(src) = Some r ->
  extends 61 s1 s2 -> exists s',
    compile_insn config executable program insn d r (as_u64 (pc + insn.(off) + 1)) s2 = Ret (tt, s') /\
    advanced 130 s2 s' /\ section_after s' /\ branch_compiled (pc + 1) pc s' /\ arithmetic_compiled (pc + 1) pc s'.
Proof.
  intros Hdm Hrm Hx. destruct (step_ready s2 Hx) as ((Hpc & Hp2 & Ho) & HFok & Hn2 & HA & Hr & Hj2).
  destruct (decide (insn.(opc) = LD_DW_IMM)) as [He|Hne].
  - destruct (compile_load s2 pc d r Hpc Hin HFok Hn2 HA Hr Hok He) as (s' & a & E & Ha & Hra & Hpc' & Hp').
    exists s'. split_and!; [done|done| | |].
    + right. split_and!; [done|done|by apply (lddw_second pc Hin Hok)|]. exists a. by rewrite Hp', Hp2.
    + intros Hj. fold insn in Hj. rewrite He in Hj. by destruct v.
    + intros Hj. fold insn in Hj. rewrite He in Hj. by destruct v.
  - destruct (jump_opcode v insn.(opc)) eqn:Hj.
    + destruct (register_map_ok _ _ Hdm) as [Hd1 Hd2]. destruct (register_map_ok _ _ Hrm) as [Hr1 _].
      destruct (compile_jump s2 pc d r Hpc Hin HFok Hn2 HA Hr Hok Hd1 Hd2 Hr1 Hj Hj2) as (s' & p & prefix & E & Hx' & Hp & Hpre & Hd).
      assert (HF' := ex_frame _ _ _ Hx').
      assert (s'.(jit_pc_section) = s1.(jit_pc_section)) as Hp' by (rewrite <-Hp2; by injection HF').
      exists s'. split_and!; [done|by apply extends_advanced| |by apply (section_branch s' p d r prefix); [| |lia| | |]|].
      * left. split_and!; [done|rewrite <-Hpc; by injection HF'|done].
      * apply (section_arithmetic s2 s' d r); try done. by injection HF'.
    + destruct (compile_other s2 pc d r Hpc Hin HFok Hn2 HA Hr Hok Hne) as (s' & E & Hx').
      assert (HF' := ex_frame _ _ _ Hx'). exists s'. split_and!; [done|by apply extends_advanced| | |].
      * left. split_and!; [done|rewrite <-Hpc; by injection HF'|rewrite <-Hp2; by injection HF'].
      * intros Hj'. fold insn in Hj'. congruence.
      * apply (section_arithmetic s2 s' d r); try done; [by injection HF'|rewrite <-Hp2; by injection HF'].
Qed.

Definition next_pc : Z := if insn.(opc) =? LD_DW_IMM then pc + 2 else pc + 1.

(** The table after the step: the entry of [pc], that of a second slot, no other. *)
Record section_step (l : list Z) (hi : Z) : Prop := {
  ss_len : zlen l = n;
  ss_other : forall q, 0 <= q < pc \/ next_pc <= q -> l !! Z.to_nat q = s.(jit_pc_section) !! Z.to_nat q;
  ss_here : l !! Z.to_nat pc = Some (offset_in_text_section s);
  ss_keeps : forall i e, s.(jit_pc_section) !! i = Some e -> e <> 0 -> l !! i = Some e;
  ss_range : Forall (fun e => 0 <= e <= hi) l;
}.

Lemma section_after_step (s' : JitCompiler) :
  section_after s' -> offset_in_text_section s <= offset_in_text_section s' ->
  s'.(jit_pc) + 1 = next_pc /\ next_pc <= n /\ section_step s'.(jit_pc_section) (offset_in_text_section s').
Proof.
  intros Hsec Ho'. pose proof (cp_slots _ _ Hs) as Hl.
  assert (Hr : Forall (fun e => 0 <= e <= offset_in_text_section s') s.(jit_pc_section)).
  { eapply Forall_impl; [apply (cp_inside _ _ Hs)|]. cbn beta. intros e. lia. }
  assert (H0 : forall q, pc <= q < n -> forall e, s.(jit_pc_section) !! Z.to_nat q = Some e -> e = 0).
  { intros q Hq e He. pose proof (cp_zero _ _ Hs q Hq). congruence. }
  assert (Hs1 : 0 <= offset_in_text_section s <= offset_in_text_section s') by (split; [apply zlen_nonneg|lia]).
  assert (Hk : forall q a (l : list Z), 0 <= q -> (forall e, l !! Z.to_nat q = Some e -> e = 0) ->
    forall i e, l !! i = Some e -> e <> 0 -> <[Z.to_nat q := a]> l !! i = Some e).
  { intros q a l Hq Hz i e Hi Hne. rewrite list_lookup_insert_ne; [done|]. intros <-. by apply Hne, Hz. }
  unfold next_pc. destruct Hsec as [(Hne & Hpc & ->)|(He & Hpc & Hlt & a & Ha & ->)].
  - rewrite (proj2 (Z.eqb_neq _ _)) by done. split_and!; [lia|lia|]. cbn. split.
    + by rewrite zlen_insert.
    + unfold next_pc. rewrite (proj2 (Z.eqb_neq _ _)) by done. intros q Hq. apply list_lookup_insert_ne. lia.
    + apply list_lookup_insert_eq. unfold zlen in Hl. lia.
    + apply Hk; [lia|]. apply H0. lia.
    + by apply Forall_insert.
  - rewrite (proj2 (Z.eqb_eq _ _)) by done. split_and!; [lia|lia|]. cbn. split.
    + by rewrite !zlen_insert.
    + unfold next_pc. rewrite (proj2 (Z.eqb_eq _ _)) by done. intros q Hq. rewrite !list_lookup_insert_ne by lia. done.
    + rewrite list_lookup_insert_ne by lia. apply list_lookup_insert_eq. unfold zlen in Hl. lia.
    + intros i e Hi Hne. apply Hk; [lia| |by apply Hk; [lia|apply H0; lia| |]|done].
      intros e'. rewrite list_lookup_insert_ne by lia. apply H0. lia.
    + apply Forall_insert; [by apply Forall_insert|lia].
Qed.

Lemma second_slot_opc (q : Z) : pc < q < next_pc -> (insn_at program q).(opc) = 0.
Proof.
  unfold next_pc. destruct (Z.eqb_spec insn.(opc) LD_DW_IMM) as [Ho|]; [|lia]. intros Hq.
  assert (q = pc + 1) as -> by lia. destruct Hok as (c & Hcl & Hcok & _).
  rewrite (proj1 (opcode_class_lddw _ _ _ _ (insn_opc pc Hin) Hcl) Ho) in Hcok. by destruct Hcok as [_ ->].
Qed.

Lemma step_compiling (s' : JitCompiler) :
  advanced 191 s s' -> s'.(jit_pc) = next_pc -> next_pc <= n ->
  section_step s'.(jit_pc_section) (offset_in_text_section s') ->
  branch_compiled (pc + 1) pc s' -> arithmetic_compiled (pc + 1) pc s' -> compiling next_pc s'.
Proof.
  intros Ha Hpc Hle Hsec Hb Hcode. pose proof (advanced_offset _ _ _ Ha) as Ho. pose proof (ad_static _ _ _ Ha) as Hst.
  assert (Htl : s'.(jit_text_len) = s.(jit_text_len)) by (by injection Hst).
  pose proof (cp_frame _ _ Hs) as [H1 H2 H3 H4 H5 _]. cbn in H1, H2, H3, H4, H5.
  pose proof (ss_len _ _ Hsec) as Hlen. pose proof (cp_pc _ _ Hs) as Hp. pose proof (cp_slots _ _ Hs) as Hn0.
  assert (Hnext : pc < next_pc) by (unfold next_pc; destruct (_ =? _); lia).
  split; [rewrite Hst; apply Hs| |done|done|by apply (ad_anchors _ _ _ Ha), Hs| | | |apply Hsec| | |].
  - split; cbn; rewrite ?Htl, ?Hlen, ?Hpc; try lia.
    + by injection Hst as _ _ _ _ _ -> _.
    + by injection Hst as _ _ _ _ _ _ ->.
    + eapply Forall_impl; [apply Hsec|]. cbn beta. unfold MAX_MACHINE_CODE_LENGTH_PER_INSTRUCTION in Hroom. intros e. lia.
  - destruct (ad_jumps _ _ _ Ha) as (l & -> & Hl).
    apply (jumps_between_app _ (offset_in_text_section s)); [|apply Hs|done].
    split; [apply zlen_nonneg|lia].
  - rewrite <-Hpc. apply (ad_validation _ _ _ Ha). rewrite Hp. apply Hs.
  - intros q Hq. rewrite (ss_other _ _ Hsec) by lia. apply (cp_zero _ _ Hs). lia.
  - unfold has_room. unfold MAX_MACHINE_CODE_LENGTH_PER_INSTRUCTION in Hroom. lia.
  - intros q Hq. destruct (decide (q < pc)) as [Hlt|Hge].
    + apply (branch_compiled_advanced pc next_pc q 191 s); [done|intros i e; apply (ss_keeps _ _ Hsec)| | |apply (cp_branches _ _ Hs); lia].
      * apply (ss_other _ _ Hsec). lia.
      * intros _ e'. destruct (decide (q + 1 = pc)) as [->|Hne]; [|rewrite (ss_other _ _ Hsec) by lia; left; split; [lia|done]].
        rewrite (ss_here _ _ Hsec). intros [= <-]. by right.
    + intros Hj. destruct (decide (q = pc)) as [->|Hne]; [|rewrite second_slot_opc in Hj by lia; by destruct v].
      revert Hj. unfold next_pc. destruct (Z.eqb_spec insn.(opc) LD_DW_IMM) as [Hl|]; [|done].
      fold insn. rewrite Hl. by destruct v.
  - intros q Hq. destruct (decide (q < pc)) as [Hlt|Hge].
    + apply (arithmetic_compiled_advanced pc next_pc q 191 s); [done| | |lia|apply (cp_arithmetic _ _ Hs); lia].
      * apply (ss_other _ _ Hsec). lia.
      * intros _ e'. destruct (decide (q + 1 = pc)) as [Hq1|Hne]; [|rewrite (ss_other _ _ Hsec) by lia; left; split; [lia|done]].
        rewrite Hq1, (ss_here _ _ Hsec). intros [= <-]. by right.
    + intros Hj. destruct (decide (q = pc)) as [->|Hne]; [|rewrite second_slot_opc in Hj by lia; by destruct v].
      revert Hj. unfold next_pc. destruct (Z.eqb_spec insn.(opc) LD_DW_IMM) as [Hl|]; [|exact Hcode].
      fold insn. rewrite Hl. by destruct v.
Qed.

Lemma compile_step_done :
  exists s', compile_step config executable program s = Ret (tt, s') /\ compiling next_pc s'.
Proof.
  destruct step_prefix as (s2 & d & r & -> & H2 & Hd & Hr). destruct (insn_step s2 d r Hd Hr H2) as (s3 & E3 & H3 & Hsec & Hb & Hcode).
  pose proof (step_ready s2 H2) as ((Hpc & Hp2 & _) & _ & Hn2 & _).
  assert (H02 : advanced 61 s s2).
  { apply (advanced_trans 0 61 s s1 s2).
    - apply (section_advanced (<[Z.to_nat pc := offset_in_text_section s]> s.(jit_pc_section)) s.(jit_pc)). lia.
    - apply extends_advanced; [done|]. by rewrite <-Hp2. }
  pose proof (advanced_trans _ _ _ _ _ H02 H3) as H03. pose proof (advanced_offset _ _ _ H03) as Ho.
  destruct (section_after_step s3 Hsec ltac:(lia)) as (Hnext & Hle & Hst).
  pose proof (cc_slots Hc) as Hsl. fold n in Hsl.
  exists (set_pc next_pc s3). unfold step_rest. rewrite (j_bind_Ret _ _ _ _ _ E3).
  rewrite (j_bind_Ret get_pc _ s3 s3 s3.(jit_pc) eq_refl).
  rewrite (j_bind_Ret _ _ s3 s3 next_pc) by (rewrite <-Hnext; apply j_lift_Ret, u64_add_small; lia).
  assert (H4 : advanced 0 s3 (set_pc next_pc s3)) by (apply (section_advanced s3.(jit_pc_section) next_pc s3); lia).
  split; [done|]. apply step_compiling; [by apply (advanced_trans (61 + 130) 0 s s3)|done|done|done| |].
  - apply (branch_compiled_advanced (pc + 1) (pc + 1) pc 0 s3); [done|by intros i e|done|lia|done].
  - apply (arithmetic_compiled_advanced (pc + 1) (pc + 1) pc 0 s3); [done|done|lia|done|done].
Qed.
End Step.

Lemma compile_step_full (s : JitCompiler) :
  s.(jit_text_len) <= offset_in_text_section s + MAX_MACHINE_CODE_LENGTH_PER_INSTRUCTION * 2 ->
  compile_step config executable program s = Err (ExhaustedTextSegment s.(jit_pc)).
Proof.
  intros Hr. unfold compile_step, check_room, j_bind, get. cbn [exec_bind fst snd].
  by rewrite (proj2 (Z.leb_le _ _)) by done.
Qed.

(** How the loop ends. *)
Definition loop_done (r : Exec EbpfError (unit * JitCompiler)) : Prop :=
  (exists s', r = Ret (tt, s') /\ compiling n s') \/ (exists q, 0 <= q < n /\ r = Err (ExhaustedTextSegment q)).

Lemma compile_loop_eq (fuel : nat) (pc : Z) (s : JitCompiler) : s.(jit_pc) = pc -> 0 <= pc <= n ->
  compile_loop config executable program fuel s =
    if pc <? n
    then match fuel with
         | O => Panic OutOfFuel
         | S fuel => (compile_step config executable program ;* compile_loop config executable program fuel) s
         end
    else Ret (tt, s).
Proof.
  intros Hpc H0. pose proof (cc_slots Hc) as Hsl. fold n in Hsl.
  pose proof (num_insns_len program program_whole) as Hlen. unfold INSN_SIZE in Hlen. fold n in Hlen.
  assert (Hb : (8 * pc <? zlen program) = (pc <? n)) by (destruct (Z.ltb_spec pc n); apply Z.ltb_lt || apply Z.ltb_ge; lia).
  assert (Hm : u64_mul (E := EbpfError) pc INSN_SIZE = Ret (8 * pc)).
  { unfold u64_mul, u64_max, INSN_SIZE. rewrite (proj2 (Z.leb_le _ _)) by lia. f_equal. lia. }
  destruct fuel; cbn [compile_loop];
    rewrite (j_bind_Ret get_pc _ s s pc), (j_bind_Ret _ _ s s (8 * pc)), Hb
      by (by apply j_lift_Ret || by rewrite <-Hpc); by destruct (pc <? n).
Qed.

Lemma compile_loop_step (fuel : nat) (pc : Z) (s : JitCompiler) :
  0 <= pc < n -> insn_ok program v pc -> compiling pc s ->
  (forall s', compiling (next_pc pc) s' -> loop_done (compile_loop config executable program fuel s')) ->
  loop_done (compile_loop config executable program (S fuel) s).
Proof.
  intros Hp Hok Hs IH. pose proof (cp_pc _ _ Hs) as Hpc.
  rewrite (compile_loop_eq (S fuel) pc), (proj2 (Z.ltb_lt _ _)) by lia.
  destruct (Z.le_gt_cases s.(jit_text_len) (offset_in_text_section s + MAX_MACHINE_CODE_LENGTH_PER_INSTRUCTION * 2)) as [Hr|Hr].
  - right. exists pc. split; [done|]. unfold j_bind. rewrite compile_step_full by done. by rewrite Hpc.
  - destruct (compile_step_done s pc Hs Hp Hok Hr) as (s' & E & Hs'). rewrite (j_bind_Ret _ _ _ _ _ E). by apply IH.
Qed.

(** Enough fuel: each step takes a slot at least. *)
Lemma compile_loop_done (pc : Z) : well_formed_from program v pc -> forall fuel s,
  n - pc <= Z.of_nat fuel -> compiling pc s -> loop_done (compile_loop config executable program fuel s).
Proof.
  induction 1 as [|pc Hpc Hok Ho Hwf IH|pc Hpc Hok Ho Hwf IH]; intros fuel s Hf Hs.
  - left. exists s. split; [|done]. rewrite (compile_loop_eq fuel n); [by rewrite Z.ltb_irrefl|apply Hs|].
    split; [|done]. by apply (num_insns_bound program); apply Hc.
  - destruct fuel as [|fuel]; [fold n in Hpc; lia|]. apply (compile_loop_step fuel pc); [done|done|done|].
    unfold next_pc. rewrite (proj2 (Z.eqb_eq _ _) Ho). intros s' Hs'. apply IH; [lia|done].
  - destruct fuel as [|fuel]; [fold n in Hpc; lia|]. apply (compile_loop_step fuel pc); [done|done|done|].
    unfold next_pc. rewrite (proj2 (Z.eqb_neq _ _) Ho). intros s' Hs'. apply IH; [lia|done].
Qed.
End Insn.
