(* ===== verification/JitCompilation.v ===== *)
(** The compilation of a whole program (src/jit.rs): the start of the code, the bumper, the
    resolution of forward jumps, and the sealed result. *)
From stdpp Require Import sorting.
From S2P Require Import Prelude Error Ebpf Program Verifier Executable InterpreterSafety Pages.
From S2P Require Import X86 X86Semantics Jit JitSubroutines JitCompile JitSafety JitEmitters JitArms JitAlu JitCompare JitBranches JitCode.
Open Scope list_scope.
Open Scope jit_scope.

#[global] Instance Jump_eq_dec : EqDecision Jump.
Proof. solve_decision. Defined.

(** * Before the loop *)

Lemma emits_padding `{Rnd : Rand} (A : list Z) (F : Frame) (k : nat) : emits A F (Z.of_nat k) (emit_padding k).
Proof.
  induction k as [|k IH]; [apply emits_ret|]. cbn [emit_padding].
  replace (Z.of_nat (S k)) with (1 + Z.of_nat k) by lia. apply (emits_bind A F A A); [|done|lia].
  apply emits_intro. intros s _ _ Hr. destruct (emit_extends [0x90] s Hr) as (s' & E & Hx & _). by exists tt, s'.
Qed.

(** Running an emitter, with room left behind it. *)
Lemma run_emits `{Rnd : Rand} {T} (A : list Z) (k r : Z) (m : Jit T) (s : JitCompiler) :
  emits A (frame s) k m -> anchors_ok A s -> has_room (k + r) s -> 0 <= r ->
  exists t s', m s = Ret (t, s') /\ extends k s s' /\ anchors_ok A s' /\ has_room r s' /\ frame s' = frame s.
Proof.
  intros Hm HA Hr H0. unfold has_room in *.
  destruct (Hm s eq_refl HA ltac:(unfold has_room; lia)) as (t & s' & E & Hx & HA').
  pose proof (extends_offset _ _ _ Hx) as Ho. pose proof (ex_frame _ _ _ Hx) as HF.
  assert (s'.(jit_text_len) = s.(jit_text_len)) by (by injection HF).
  exists t, s'. split_and!; [done..|lia|done].
Qed.

(** * Writing into the code *)

Definition write_at (code : list Z) (location : Z) (data : list Z) : list Z :=
  take (Z.to_nat location) code ++ data ++ drop (Z.to_nat location + length data) code.

Lemma length_write_at (code : list Z) (location : Z) (data : list Z) :
  0 <= location -> location + zlen data <= zlen code -> length (write_at code location data) = length code.
Proof. intros H0 Hl. unfold write_at, zlen in *. rewrite !length_app, length_take, length_drop. lia. Qed.

Lemma lookup_write_at (code : list Z) (location : Z) (data : list Z) (i : nat) :
  0 <= location -> location + zlen data <= zlen code ->
  write_at code location data !! i =
    if decide (Z.to_nat location <= i < Z.to_nat location + length data)%nat
    then data !! (i - Z.to_nat location)%nat else code !! i.
Proof.
  intros H0 Hl. unfold write_at, zlen in *. case_decide as Hi.
  - rewrite lookup_app_r; rewrite length_take_le; [|lia..]. rewrite lookup_app_l; [done|lia].
  - destruct (decide (i < Z.to_nat location)%nat).
    + rewrite lookup_app_l by (rewrite length_take; lia). by apply lookup_take_lt.
    + rewrite lookup_app_r; rewrite length_take_le; [|lia..]. rewrite lookup_app_r by lia.
      rewrite lookup_drop. f_equal. lia.
Qed.

Lemma contains_lookup (code : list Z) (p : Z) (bs : list Z) :
  bs <> [] -> contains code p bs <-> 0 <= p /\ forall i, (i < length bs)%nat -> code !! (Z.to_nat p + i)%nat = bs !! i.
Proof.
  intros Hne. split; intros [Hp Hb]; (split; [done|]).
  - intros i Hi. apply (f_equal (fun l => l !! i)) in Hb. by rewrite lookup_take_lt, lookup_drop in Hb.
  - apply list_eq. intros i. destruct (decide (i < length bs)%nat) as [Hi|Hi].
    + by rewrite lookup_take_lt, lookup_drop, Hb.
    + rewrite lookup_take_ge by lia. by rewrite lookup_ge_None_2 by lia.
Qed.

Lemma contains_write_other (code : list Z) (p location : Z) (bs data : list Z) :
  bs <> [] -> contains code p bs -> 0 <= location -> location + zlen data <= zlen code ->
  location + zlen data <= p \/ p + zlen bs <= location -> contains (write_at code location data) p bs.
Proof.
  intros Hne Hb H0 Hl Hd. apply contains_lookup in Hb as [Hp Hb]; [|done]. apply contains_lookup; [done|].
  split; [done|]. intros i Hi. rewrite lookup_write_at by done. unfold zlen in *.
  rewrite decide_False by lia. by apply Hb.
Qed.

Lemma contains_write_here (code : list Z) (p : Z) (prefix old data : list Z) :
  data <> [] -> length old = length data -> contains code p (prefix ++ old) ->
  contains (write_at code (p + zlen prefix) data) p (prefix ++ data).
Proof.
  intros Hne Hold Hb. assert (prefix ++ old <> []) by (destruct prefix, old, data; done).
  pose proof (contains_bound _ _ _ Hb ltac:(done)) as Hbd. rewrite zlen_app in Hbd.
  apply contains_lookup in Hb as [Hp Hb]; [|done]. apply contains_lookup; [by destruct prefix, data|].
  split; [done|]. pose proof (zlen_nonneg prefix). intros i Hi. rewrite lookup_write_at.
  2, 3: unfold zlen in *; lia. rewrite length_app in Hi. unfold zlen in *. case_decide as Hd.
  - rewrite lookup_app_r by lia. f_equal. lia.
  - rewrite lookup_app_l by lia. rewrite Hb by (rewrite length_app; lia). by rewrite lookup_app_l by lia.
Qed.

Section Code.
Context `{Bo : LittleEndian} `{Rnd : Rand} `{Host : JitHost}.
Context (config : Config) (executable : Executable) (program : list Z).
Let v : SBPFVersion := executable.(sbpf_version).
Let n : Z := num_insns program.
Context (Hc : compile_context config executable program).

Definition start_room : Z := MAX_START_PADDING_LENGTH + MAX_EMPTY_PROGRAM_MACHINE_CODE_LENGTH.

(** The state of a new compiler. *)
Record fresh (s : JitCompiler) : Prop := {
  fr_frame : frame_ok (frame s);
  fr_pc : s.(jit_pc) = 0;
  fr_section : s.(jit_pc_section) = replicate (Z.to_nat n) 0;
  fr_code : s.(jit_code) = [];
  fr_jumps : s.(text_section_jumps) = [];
  fr_anchors : s.(anchors) = replicate (Z.to_nat ANCHOR_COUNT) None;
  fr_last : s.(last_instruction_meter_validation_pc) = 0;
  fr_room : start_room <= s.(jit_text_len);
}.

Definition padding : Jit unit :=
  j_if (negb (config.(noop_instruction_rate) =? 0))
    (let* self := get in
     let (k, rng) := gen_range self.(diversification_rng) MAX_START_PADDING_LENGTH in
     modify (set_noop self.(next_noop_insertion) rng) ;*
     emit_padding (Z.to_nat k)).

Lemma emits_start_padding (A : list Z) (F : Frame) : emits A F MAX_START_PADDING_LENGTH padding.
Proof.
  apply emits_if; [intros _|done]. apply emits_get. intros st _.
  pose proof (gen_range_spec st.(diversification_rng) MAX_START_PADDING_LENGTH ltac:(done)) as Hk.
  destruct (gen_range _ _) as [k rng]. cbn in Hk.
  apply (emits_bind A F A A 0 MAX_START_PADDING_LENGTH); [|intros _|done].
  - apply emits_intro. intros s _ _ _. exists tt, (set_noop st.(next_noop_insertion) rng s).
    split; [done|apply set_noop_extends].
  - eapply emits_weaken; [apply emits_padding|]. lia.
Qed.

Lemma fresh_anchors (s : JitCompiler) : fresh s -> anchors_ok [] s.
Proof.
  intros Hs. split; rewrite (fr_anchors _ Hs); [done|constructor|].
  intros i d Hi. by apply lookup_replicate in Hi as [[=] _].
Qed.

Lemma start_compiling (s : JitCompiler) (program_vm_addr : Z) : fresh s ->
  exists s', (padding ;* emit_subroutines config v program_vm_addr) s = Ret (tt, s') /\
    compiling config executable program (static s) 0 s'.
Proof.
  intros Hs. pose proof (cc_frame_size _ _ _ Hc) as Hfs. pose proof (fr_room _ Hs) as Hr.
  assert (Hn : 0 <= n) by (apply (num_insns_bound program); apply Hc).
  assert (Hsets : sets [] (frame s) start_room (padding ;* emit_subroutines config v program_vm_addr) (all_anchors config)).
  { apply (emits_bind [] (frame s) []); [apply emits_start_padding|intros _|done].
    apply sets_subroutines; [apply Hs|done]. }
  destruct (Hsets s eq_refl (fresh_anchors s Hs)) as ([] & s' & E & Hx & HA).
  { unfold has_room, offset_in_text_section. by rewrite (fr_code _ Hs). }
  exists s'. split; [done|]. pose proof (ex_frame _ _ _ Hx) as HF'. pose proof (extends_offset _ _ _ Hx) as Ho.
  assert (Ho0 : offset_in_text_section s = 0) by (unfold offset_in_text_section; by rewrite (fr_code _ Hs)).
  assert (s'.(jit_pc_section) = replicate (Z.to_nat n) 0 /\ s'.(jit_pc) = 0 /\ s'.(jit_text_len) = s.(jit_text_len))
    as (Hp & Hpc & Htl) by (rewrite <-(fr_section _ Hs), <-(fr_pc _ Hs); by injection HF').
  assert (Hlen : zlen s'.(jit_pc_section) = n) by (rewrite Hp, zlen_replicate; lia).
  split; try done.
  - unfold static. unfold frame in HF'. by injection HF' as -> -> -> -> _ _ -> -> ->.
  - rewrite HF'. apply Hs.
  - destruct (ex_jumps _ _ _ Hx) as (l & -> & Hl). rewrite (fr_jumps _ Hs). cbn [app].
    rewrite (fr_section _ Hs), <-Hp, Hlen, Ho0 in Hl. exact Hl.
  - destruct (ex_validation _ _ _ Hx) as [-> | ->]; [by rewrite (fr_last _ Hs)|by rewrite (fr_pc _ Hs)].
  - intros q Hq. rewrite Hp. apply lookup_replicate. split; [done|]. fold n in Hq. lia.
  - rewrite Hp. apply Forall_replicate. lia.
  - unfold has_room. lia.
  - intros q Hq. lia.
  - intros q Hq. lia.
Qed.

(** * The bumper *)

(** All of the code is there; forward jumps are still to be resolved. *)
Record emitted (base : Z * Z * Z * Z * Z * Z * Z) (s : JitCompiler) : Prop := {
  em_static : static s = base;
  em_slots : zlen s.(jit_pc_section) = n;
  em_len : 0 <= s.(jit_text_len) <= 2 ^ 31;
  em_jumps : jumps_between 0 (offset_in_text_section s) n s.(text_section_jumps);
  em_inside : Forall (fun e => 0 <= e < offset_in_text_section s) s.(jit_pc_section);
  em_room : offset_in_text_section s <= s.(jit_text_len);
  em_branches : forall q, 0 <= q < n -> branch_compiled executable program n q s;
  em_arithmetic : forall q, 0 <= q < n -> arithmetic_compiled config executable program (n + 1) q s;
}.

(** The last instruction: a jump to the routine that throws the exception. *)
Lemma throw_jump (s : JitCompiler) :
  anchors_ok (all_anchors config) s -> has_room 8 s ->
  exists s', emit_to_anchor jump_immediate ANCHOR_THROW_EXCEPTION 5 s = Ret (tt, s') /\ extends 8 s s' /\
    offset_in_text_section s < offset_in_text_section s'.
Proof.
  intros HA Hr.
  pose proof (proj1 (Forall_forall _ _) (ao_set _ _ HA) ANCHOR_THROW_EXCEPTION ltac:(anchor)) as [a Ha].
  unfold emit_to_anchor. set (z := as_i32 (a - (offset_in_text_section s + 5))).
  assert (Hz : relative_to_anchor ANCHOR_THROW_EXCEPTION 5 s = Ret (z, s)).
  { unfold relative_to_anchor, j_bind, get, j_lift. cbn [exec_bind fst snd].
    by rewrite (index_slice_lookup _ _ (Some a)). }
  rewrite (j_bind_Ret _ _ _ _ _ Hz). unfold has_room in Hr.
  destruct (emit_ins_code (mkX86 S32 0 0xe9 false None 0 0 S32 z) (0xe9 :: le_bytes 4 z) s eq_refl)
    as (s' & noop & E & Hx & Hcode & _).
  { unfold has_room. change (zlen _) with 5. lia. }
  exists s'. split_and!; [exact E|apply (extends_weaken _ _ _ _ Hx); change (zlen _) with 5; lia|].
  unfold offset_in_text_section. rewrite Hcode, !zlen_app. change (zlen (_ :: _)) with 5.
  pose proof (zlen_nonneg noop). lia.
Qed.

Lemma extends_emitted base (k : Z) (s s' : JitCompiler) :
  compiling config executable program base n s -> extends k s s' -> has_room 0 s' ->
  offset_in_text_section s < offset_in_text_section s' -> emitted base s'.
Proof.
  intros Hs Hx Hr Ho. pose proof (ex_frame _ _ _ Hx) as HF. pose proof (cp_slots _ _ _ _ _ _ Hs) as Hsl.
  assert (s'.(jit_pc_section) = s.(jit_pc_section) /\ s'.(jit_text_len) = s.(jit_text_len)) as [Hp Htl]
    by (by injection HF).
  pose proof (cp_frame _ _ _ _ _ _ Hs) as [_ _ _ Hlen _ _]. cbn in Hlen.
  split; rewrite ?Hp, ?Htl; [|done|done| | |unfold has_room in Hr; lia| |].
  - rewrite <-(cp_static _ _ _ _ _ _ Hs). unfold static. unfold frame in HF. by injection HF as -> -> -> -> _ _ -> -> ->.
  - destruct (ex_jumps _ _ _ Hx) as (l & -> & Hl). rewrite Hsl in Hl.
    apply (jumps_between_app _ (offset_in_text_section s)); [|apply Hs|done]. split; [apply zlen_nonneg|lia].
  - eapply Forall_impl; [apply (cp_inside _ _ _ _ _ _ Hs)|]. cbn beta. intros e. lia.
  - intros q Hq. apply (branch_compiled_advanced executable program n n q k s); [by apply extends_advanced| | | |].
    + intros i e. by rewrite Hp.
    + by rewrite Hp.
    + rewrite Hp. by left.
    + by apply (cp_branches _ _ _ _ _ _ Hs).
  - intros q Hq. apply (arithmetic_compiled_advanced config executable program n (n + 1) q k s); [by apply extends_advanced|by rewrite Hp| |lia|by apply (cp_arithmetic _ _ _ _ _ _ Hs)].
    rewrite Hp. intros _ e' He'. left. split; [|done]. pose proof (lookup_lt_Some _ _ _ He') as Hl. unfold zlen in Hsl. fold n in Hsl. lia.
Qed.

Lemma bumper_emitted base (s : JitCompiler) : compiling config executable program base n s ->
  (exists s', emit_bumper config s = Ret (tt, s') /\ emitted base s') \/
  emit_bumper config s = Err (ExhaustedTextSegment n).
Proof.
  intros Hs. pose proof (cp_pc _ _ _ _ _ _ Hs) as Hpc. pose proof (cp_slots _ _ _ _ _ _ Hs) as Hsl.
  pose proof (cp_frame _ _ _ _ _ _ Hs) as HF. pose proof (cc_slots _ _ _ Hc) as Hn. fold n in Hn, Hsl.
  assert (Hn0 : 0 <= n) by (apply (num_insns_bound program); apply Hc).
  unfold emit_bumper, check_room.
  destruct (Z.le_gt_cases s.(jit_text_len) (offset_in_text_section s + MAX_MACHINE_CODE_LENGTH_PER_INSTRUCTION * 2)) as [Hr|Hr].
  { right. unfold j_bind, get. cbn [exec_bind fst snd]. rewrite (proj2 (Z.leb_le _ _)) by done. by rewrite Hpc. }
  left. erewrite (j_bind_Ret _ _ s s tt).
  2: { unfold j_bind, get. cbn [exec_bind fst snd]. by rewrite (proj2 (Z.leb_gt _ _)) by done. }
  rewrite (j_bind_Ret get_pc _ s s n) by (unfold get_pc, gets; by rewrite Hpc).
  rewrite (j_bind_Ret _ _ s s (n + 1)) by (apply j_lift_Ret, u64_add_small; lia).
  unfold MAX_MACHINE_CODE_LENGTH_PER_INSTRUCTION in Hr.
  destruct (run_emits (all_anchors config) 54 54 (emit_validate_and_profile_instruction_count config (Some (n + 1))) s)
    as ([] & s1 & E1 & H1 & A1 & R1 & F1); [|apply Hs|unfold has_room; lia|done|].
  { apply emits_validate_and_profile; [done|anchor|lia]. }
  destruct (run_emits (all_anchors config) 11 43 (emit_ins (load_immediate REGISTER_SCRATCH (as_i64 n))) s1)
    as ([] & s2 & E2 & H2 & A2 & R2 & F2); [apply emits_load_immediate|done|done|done|].
  destruct (run_emits (all_anchors config) 35 8 (emit_set_exception_kind ExecutionOverrun) s2)
    as ([] & s3 & E3 & H3 & A3 & R3 & F3); [|done|done|done|].
  { apply emits_set_exception_kind. by rewrite F2, F1. }
  destruct (throw_jump s3 A3 R3) as (s4 & E4 & H4 & Ho4).
  rewrite (j_bind_Ret _ _ _ _ _ E1), (j_bind_Ret _ _ _ _ _ E2), (j_bind_Ret _ _ _ _ _ E3), E4.
  exists s4. split; [done|]. pose proof (extends_trans _ _ _ _ _ H1 (extends_trans _ _ _ _ _ H2 H3)) as H03.
  pose proof (extends_trans _ _ _ _ _ H03 H4) as H04. pose proof (extends_offset _ _ _ H03).
  pose proof (extends_offset _ _ _ H04). pose proof (ex_frame _ _ _ H04) as F4.
  assert (s4.(jit_text_len) = s.(jit_text_len)) by (by injection F4).
  apply (extends_emitted _ _ s s4 Hs H04); [unfold has_room; lia|lia].
Qed.

(** * Forward jumps *)

(** The displacement of a jump: from behind it to the code of its target. *)
Definition displacement (s : JitCompiler) (j : Jump) : Z :=
  default 0 (s.(jit_pc_section) !! Z.to_nat j.(jump_target_pc)) - (j.(jump_location) + 4).
Definition resolved (s : JitCompiler) (l : list Jump) (code : list Z) : list Z :=
  fold_left (fun code j => write_at code j.(jump_location) (le_bytes 4 (displacement s j))) l code.

Lemma resolve_jump_eq base (s : JitCompiler) (code : list Z) (j : Jump) :
  emitted base s -> length code = length s.(jit_code) ->
  0 <= j.(jump_location) -> j.(jump_location) + 4 <= offset_in_text_section s -> 0 <= j.(jump_target_pc) < n ->
  resolve_jump j (set_code code s) = Ret (tt, set_code (write_at code j.(jump_location) (le_bytes 4 (displacement s j))) s).
Proof.
  intros Hs Hlen H0 Hl Ht. set (st := set_code code s). pose proof (em_slots _ _ Hs) as Hsl. pose proof (em_len _ _ Hs). pose proof (em_room _ _ Hs) as Hr.
  destruct (index_slice_Ret (E := EbpfError) s.(jit_pc_section) j.(jump_target_pc)) as (e & He & Hi); [by rewrite Hsl|].
  pose proof (proj1 (Forall_forall _ _) (em_inside _ _ Hs) e (list_elem_of_lookup_2 _ _ _ He)) as Her. cbn beta in Her.
  unfold resolve_jump. rewrite (j_bind_Ret get _ st st st eq_refl).
  rewrite (j_bind_Ret _ _ st st e) by (by apply j_lift_Ret).
  assert (Z.land e i32_max = e) as ->.
  { unfold i32_max. change (2 ^ 31 - 1) with (Z.ones 31). rewrite Z.land_ones, Z.mod_small; lia. }
  rewrite (j_bind_Ret _ _ st st tt).
  2: { apply j_lift_Ret. unfold text_index. cbn [st set_code jit_text_len]. by rewrite (proj2 (Z.leb_le _ _)), (proj2 (Z.ltb_lt _ _)) by lia. }
  assert (Hd : displacement s j = e - j.(jump_location) - 4) by (unfold displacement; rewrite He; cbn; lia).
  rewrite (j_bind_Ret _ _ st st (displacement s j)).
  2: { apply j_lift_Ret. unfold as_i32. rewrite swrap_small by (unfold in_s; lia). rewrite Hd.
       unfold i32_checked, i32_min, i32_max. by rewrite !(proj2 (Z.leb_le _ _)) by lia. }
  erewrite (j_bind_Ret _ _ st st).
  2: { apply j_lift_Ret. unfold patch. change (zlen (le_bytes 4 _)) with 4. cbn [st set_code jit_code]. unfold offset_in_text_section, zlen in *.
       by rewrite Hlen, !(proj2 (Z.leb_le _ _)) by lia. }
  done.
Qed.

Lemma resolve_all base (s : JitCompiler) (l : list Jump) (code : list Z) :
  emitted base s -> length code = length s.(jit_code) ->
  Forall (fun j => 0 <= j.(jump_location) /\ j.(jump_location) + 4 <= offset_in_text_section s /\
                   0 <= j.(jump_target_pc) < n) l ->
  for_each l resolve_jump (set_code code s) = Ret (tt, set_code (resolved s l code) s) /\
  length (resolved s l code) = length s.(jit_code).
Proof.
  intros Hs Hlen Hl. revert code Hlen. induction Hl as [|j l (H0 & H1 & H2) Hl IH]; intros code Hlen; [done|].
  cbn [for_each resolved fold_left]. rewrite (j_bind_Ret _ _ _ _ _ (resolve_jump_eq base s code j Hs Hlen H0 H1 H2)).
  apply IH. rewrite length_write_at; [done|done|]. change (zlen (le_bytes 4 _)) with 4.
  unfold offset_in_text_section, zlen in *. lia.
Qed.

Lemma resolve_jumps_eq base (s : JitCompiler) : emitted base s ->
  resolve_jumps s = Ret (tt, set_code (resolved s s.(text_section_jumps) s.(jit_code)) s) /\
  length (resolved s s.(text_section_jumps) s.(jit_code)) = length s.(jit_code).
Proof.
  intros Hs. destruct (resolve_all base s s.(text_section_jumps) s.(jit_code) Hs eq_refl (jb_range _ _ _ _ (em_jumps _ _ Hs)))
    as [E Hl]. split; [|done]. unfold resolve_jumps. rewrite (j_bind_Ret get _ s s s eq_refl).
  replace (set_code s.(jit_code) s) with s in E by (by destruct s). done.
Qed.

(** A branch holds its displacement in the end. *)
Lemma resolved_branch (s : JitCompiler) (prefix : list Z) (t p e : Z) (l : list Jump) (code : list Z) (z : Z) :
  s.(jit_pc_section) !! Z.to_nat t = Some e -> length code = length s.(jit_code) ->
  Forall (fun j => 0 <= j.(jump_location) /\ j.(jump_location) + 4 <= offset_in_text_section s /\
                   0 <= j.(jump_target_pc) < n) l ->
  Forall (fun j => j.(jump_location) + 4 <= p \/ p + zlen prefix + 4 <= j.(jump_location) \/
                   j = mkJump (p + zlen prefix) t) l ->
  contains code p (prefix ++ le_bytes 4 z) ->
  mkJump (p + zlen prefix) t ∈ l \/ z = e - (p + zlen prefix + 4) ->
  contains (resolved s l code) p (prefix ++ le_bytes 4 (e - (p + zlen prefix + 4))).
Proof.
  intros He Hlen Hr Ha. revert code z Hlen. induction l as [|j l IH]; intros code z Hlen Hct Hz.
  { destruct Hz as [Hz| <-]; [by apply not_elem_of_nil in Hz|done]. }
  apply Forall_cons in Hr as [(H0 & H1 & _) Hr]. apply Forall_cons in Ha as [Hj Ha]. cbn [resolved fold_left].
  assert (Hw : j.(jump_location) + zlen (le_bytes 4 (displacement s j)) <= zlen code).
  { change (zlen (le_bytes 4 _)) with 4. unfold offset_in_text_section, zlen in *. lia. }
  assert (Hlen' : length (write_at code j.(jump_location) (le_bytes 4 (displacement s j))) = length s.(jit_code))
    by (by rewrite length_write_at).
  destruct (decide (j = mkJump (p + zlen prefix) t)) as [->|Hne].
  - eapply (IH Hr Ha _ (e - (p + zlen prefix + 4)) Hlen'); [|by right].
    unfold displacement at 1. cbn [jump_location jump_target_pc]. rewrite He. cbn [default].
    by apply (contains_write_here code p prefix (le_bytes 4 z)).
  - apply (IH Hr Ha _ z Hlen').
    + apply contains_write_other; [apply branch_bytes_nonempty|done|done|done|].
      rewrite zlen_app. change (zlen (le_bytes 4 _)) with 4. destruct Hj as [?|[?|?]]; [left; done|right; lia|done].
    + destruct Hz as [[Hz|Hz]%elem_of_cons|Hz]; [congruence|by left|by right].
Qed.

(** Code without jumps to resolve stays. *)
Lemma resolved_other (s : JitCompiler) (l : list Jump) (code bs : list Z) (p : Z) : length code = length s.(jit_code) ->
  Forall (fun j => 0 <= j.(jump_location) /\ j.(jump_location) + 4 <= offset_in_text_section s /\
                   0 <= j.(jump_target_pc) < n) l ->
  Forall (fun j => j.(jump_location) + 4 <= p \/ p + zlen bs <= j.(jump_location)) l ->
  contains code p bs -> contains (resolved s l code) p bs.
Proof.
  intros Hlen Hr Ha Hct. destruct (decide (bs = [])) as [->|Hne]; [by destruct Hct|]. revert code Hlen Hct.
  induction l as [|j l IH]; intros code Hlen Hct; [done|].
  apply Forall_cons in Hr as [(H0 & H1 & _) Hr]. apply Forall_cons in Ha as [Hj Ha]. cbn [resolved fold_left].
  assert (Hw : j.(jump_location) + zlen (le_bytes 4 (displacement s j)) <= zlen code).
  { change (zlen (le_bytes 4 _)) with 4. unfold offset_in_text_section, zlen in *. lia. }
  apply (IH Hr Ha); [by rewrite length_write_at|]. apply contains_write_other; [done..|]. change (zlen (le_bytes 4 _)) with 4. exact Hj.
Qed.

(** * The whole code *)

(** In the code, every slot has an offset, and a guest jump is, between its offset and that of
    the next slot, a machine branch with its condition to the offset of its target; the code of an
    arithmetic instruction is in front of that of the next slot. *)
Record code_ok (key : Z) (section code : list Z) : Prop := {
  ck_slots : zlen section = n;
  ck_entries : Forall (fun e => 0 <= e < zlen code) section;
  ck_branches : forall q, 0 <= q < n -> let insn := insn_at program q in jump_opcode v insn.(opc) = true ->
    exists e p d r prefix et, section !! Z.to_nat q = Some e /\
      section !! Z.to_nat (q + 1 + insn.(off)) = Some et /\ e <= p /\
      REGISTER_MAP !! Z.to_nat insn.(dst) = Some d /\ REGISTER_MAP !! Z.to_nat insn.(src) = Some r /\
      branch_code insn d r prefix /\ contains code p (prefix ++ le_bytes 4 (et - (p + zlen prefix + 4))) /\
      in_s 32 (et - (p + zlen prefix + 4)) /\
      forall e', section !! Z.to_nat (q + 1) = Some e' -> p + zlen prefix + 4 <= e';
  ck_arithmetic : forall q d r l, 0 <= q < n ->
    let insn := insn_at program q in alu_opcode v insn.(opc) = true ->
    REGISTER_MAP !! Z.to_nat insn.(dst) = Some d -> REGISTER_MAP !! Z.to_nat insn.(src) = Some r ->
    writes key (compile_insn config executable program insn d r (as_u64 (q + insn.(off) + 1))) l ->
    exists e p bs, section !! Z.to_nat q = Some e /\ e <= p /\ contains code p bs /\ interleaved l bs /\
      forall e', section !! Z.to_nat (q + 1) = Some e' -> e' = p + zlen bs;
}.

Lemma branch_target (q : Z) :
  0 <= q < n -> jump_opcode v (insn_at program q).(opc) = true ->
  as_u64 (q + (insn_at program q).(off) + 1) = q + 1 + (insn_at program q).(off) /\
  0 <= q + 1 + (insn_at program q).(off) < n.
Proof.
  intros Hq Hj. pose proof (cc_slots _ _ _ Hc) as Hsl. fold n in Hsl. pose proof (cc_program _ _ _ Hc) as (Hm & _ & Hwf).
  destruct (well_formed_slots program v 0 q Hwf) as [Hok|Ho]; [|done| |by rewrite Ho in Hj; destruct v].
  { intros pc Hpc. by apply insn_at_opc; [apply Hc|done|]. }
  pose proof (cf_jump _ _ _ _ (insn_compile_facts program v q (cc_bytes _ _ _ Hc) Hm Hq Hok) Hj) as Ht. fold n in Ht.
  split; [|done]. unfold as_u64. rewrite uwrap_small; [lia|unfold in_u; lia].
Qed.

Lemma emitted_code_ok base (s : JitCompiler) : emitted base s ->
  code_ok s.(immediate_value_key) s.(jit_pc_section) (resolved s s.(text_section_jumps) s.(jit_code)).
Proof.
  intros Hs. pose proof (em_slots _ _ Hs) as Hsl. destruct (resolve_jumps_eq base s Hs) as [_ Hlen].
  assert (Hz : zlen (resolved s s.(text_section_jumps) s.(jit_code)) = offset_in_text_section s).
  { unfold offset_in_text_section, zlen. by rewrite Hlen. }
  split; [done|rewrite Hz; apply Hs| |]; cycle 1.
  { intros q d r l Hq insn Ho Hd Hr Hw. destruct (em_arithmetic _ _ Hs q Hq Ho d r l Hd Hr Hw) as (e & p & bs & He & Hp & Hct & _ & Hi & Hj & Hnext & _).
    exists e, p, bs. split_and!; [done|done|by apply resolved_other; [|apply Hs| |]|done|]. apply Hnext. lia. }
  intros q Hq insn Hj. destruct (branch_target q Hq Hj) as [Ht Htr].
  destruct (em_branches _ _ Hs q Hq Hj) as (e & p & d & r & prefix & He & Hp & Hdm & Hrm & Hpre & Hd & Hnext). rewrite Ht in Hd.
  destruct (lookup_lt_is_Some_2 s.(jit_pc_section) (Z.to_nat (q + 1 + (insn_at program q).(off)))) as [et Het].
  { unfold zlen in Hsl. lia. }
  pose proof (proj1 (Forall_forall _ _) (em_inside _ _ Hs) et (list_elem_of_lookup_2 _ _ _ Het)) as Her. cbn beta in Her.
  pose proof (branch_done_end _ _ _ _ Hd) as Hend. pose proof (em_len _ _ Hs). pose proof (em_room _ _ Hs).
  pose proof (zlen_nonneg prefix). exists e, p, d, r, prefix, et. split_and!; [done|done|done|done|done|done| | |].
  - destruct Hd as [(z & Hct & Hz') Ha].
    apply (resolved_branch s prefix _ p et _ _ z Het); [done|apply Hs|done|done|].
    destruct Hz' as [Hz'|(e0 & He0 & _ & ->)]; [by left|right]. congruence.
  - unfold in_s. lia.
  - intros e' He'. apply Hnext; [|done]. pose proof (lookup_lt_Some _ _ _ He') as Hl. unfold zlen in Hsl. lia.
Qed.

Lemma j_bind_assoc {T U W} (m : Jit T) (f : T -> Jit U) (g : U -> Jit W) (s : JitCompiler) :
  j_bind m (fun t => j_bind (f t) g) s = j_bind (j_bind m f) g s.
Proof. unfold j_bind. by destruct (m s). Qed.

Lemma compile_code_done (s : JitCompiler) (program_vm_addr : Z) : fresh s ->
  (exists s', compile_code config executable program program_vm_addr s = Ret (tt, s') /\
    static s' = static s /\ code_ok s.(immediate_value_key) s'.(jit_pc_section) s'.(jit_code) /\ zlen s'.(jit_code) <= s.(jit_text_len)) \/
  (exists q, 0 <= q <= n /\ compile_code config executable program program_vm_addr s = Err (ExhaustedTextSegment q)).
Proof.
  intros Hs. destruct (start_compiling s program_vm_addr Hs) as (s1 & E1 & H1).
  pose proof (cc_program _ _ _ Hc) as (Hm & _ & Hwf).
  assert (Hfuel : n - 0 <= Z.of_nat (length program)).
  { pose proof (num_insns_len program Hm) as Hl. unfold INSN_SIZE, zlen in Hl. fold n in Hl. lia. }
  pose proof (compile_loop_done config executable program Hc _ 0 Hwf _ s1 Hfuel H1) as Hloop.
  unfold compile_code. fold padding v. rewrite j_bind_assoc, (j_bind_Ret _ _ _ _ _ E1).
  destruct Hloop as [(s2 & E2 & H2)|(q & Hq & E2)].
  2: { right. exists q. split; [fold n in Hq; lia|]. unfold j_bind. by rewrite E2. }
  rewrite (j_bind_Ret _ _ _ _ _ E2).
  destruct (bumper_emitted (static s) s2 H2) as [(s3 & E3 & H3)|E3].
  2: { right. exists n. split; [|unfold j_bind; by rewrite E3]. split; [|done].
       apply (num_insns_bound program); apply Hc. }
  rewrite (j_bind_Ret _ _ _ _ _ E3). destruct (resolve_jumps_eq _ s3 H3) as [-> Hlen].
  left. eexists. split; [done|]. split_and!.
  - apply (em_static _ _ H3).
  - pose proof (em_static _ _ H3) as Hst. assert (s.(immediate_value_key) = s3.(immediate_value_key)) as -> by (by injection Hst).
    apply (emitted_code_ok (static s) s3 H3).
  - cbn. unfold zlen. rewrite Hlen. pose proof (em_room _ _ H3) as Hr. pose proof (em_static _ _ H3) as Hst.
    assert (s3.(jit_text_len) = s.(jit_text_len)) as <- by (by injection Hst). exact Hr.
Qed.
End Code.

(** * The compiler *)

Section Compiler.
Context `{Bo : LittleEndian}.
Context (config : Config) (executable : Executable) (program : list Z).
Let v : SBPFVersion := executable.(sbpf_version).
Let n : Z := num_insns program.

(** Stepping over the instructions of a verified program counts its slots. *)
Lemma count_slots_eq (pc : Z) : bytes_ok program -> slice_len_ok program -> zlen program mod INSN_SIZE = 0 ->
  well_formed_from program v pc -> forall fuel, n - pc <= Z.of_nat fuel -> count_slots fuel program pc = Ret n.
Proof.
  intros Hb Hl Hm. pose proof (num_insns_len program Hm) as Hlen. pose proof (num_insns_bound program Hl Hm) as Hn.
  unfold INSN_SIZE in Hlen. fold n in Hlen, Hn.
  assert (Hstep : forall fuel pc, 0 <= pc <= n -> count_slots fuel program pc =
    if pc <? n then match fuel with
                    | O => Panic OutOfFuel
                    | S fuel => count_slots fuel program (if (insn_at program pc).(opc) =? LD_DW_IMM then pc + 2 else pc + 1)
                    end
    else Ret pc).
  { intros fuel p Hp.
    assert (Hg : p < n -> get_insn_unchecked (E := EbpfError) program p = Ret (insn_at program p)).
    { intros Hlt. apply get_insn_unchecked_eq; [lia| |done]. unfold INSN_SIZE. lia. }
    destruct fuel; cbn [count_slots]; rewrite u64_add_small by lia; cbn [exec_bind]; unfold u64_mul, u64_max, INSN_SIZE;
      rewrite (proj2 (Z.leb_le _ _)) by lia; cbn [exec_bind];
      destruct (Z.leb_spec ((p + 1) * 8) (zlen program)), (Z.ltb_spec p n); try lia; try done.
    rewrite Hg by done. cbn [exec_bind]. destruct (_ =? LD_DW_IMM); by rewrite u64_add_small by lia. }
  induction 1 as [|pc Hpc Hok Ho Hwf IH|pc Hpc Hok Ho Hwf IH]; intros fuel Hf; fold n in Hpc || fold n.
  - rewrite Hstep by lia. by rewrite Z.ltb_irrefl.
  - rewrite Hstep, (proj2 (Z.ltb_lt _ _)) by lia. destruct fuel; [lia|].
    rewrite (proj2 (Z.eqb_eq _ _) Ho). apply IH. lia.
  - rewrite Hstep, (proj2 (Z.ltb_lt _ _)) by lia. destruct fuel; [lia|].
    rewrite (proj2 (Z.eqb_neq _ _) Ho). apply IH. lia.
Qed.

Lemma estimate_bounds (est : Z) : 0 <= n -> 0 <= config.(noop_instruction_rate) ->
  0 <= config.(instruction_meter_checkpoint_distance) -> code_length_estimate config n = Ret est ->
  start_room + MAX_MACHINE_CODE_LENGTH_PER_INSTRUCTION * n <= est < 2 ^ 31.
Proof.
  intros Hn Hr Hd. unfold code_length_estimate, u64_mul, u64_add, start_room.
  set (base := MAX_EMPTY_PROGRAM_MACHINE_CODE_LENGTH + MAX_START_PADDING_LENGTH + MAX_MACHINE_CODE_LENGTH_PER_INSTRUCTION * n).
  assert (Hb : 0 <= base) by (unfold base, MAX_MACHINE_CODE_LENGTH_PER_INSTRUCTION, MAX_EMPTY_PROGRAM_MACHINE_CODE_LENGTH,
    MAX_START_PADDING_LENGTH; lia).
  destruct (MAX_MACHINE_CODE_LENGTH_PER_INSTRUCTION * n <=? u64_max); [|done]. cbn [exec_bind]. fold base.
  destruct (base <=? u64_max); [|done]. cbn [exec_bind].
  assert (Hnoop : 0 <= base / config.(noop_instruction_rate)) by (destruct (decide (config.(noop_instruction_rate) = 0)) as [->|];
    [by rewrite Z.div_0_r|apply Z.div_pos; lia]).
  assert (Hck : 0 <= n / config.(instruction_meter_checkpoint_distance) * MACHINE_CODE_PER_INSTRUCTION_METER_CHECKPOINT).
  { apply Z.mul_nonneg_nonneg; [|done]. destruct (decide (config.(instruction_meter_checkpoint_distance) = 0)) as [->|];
      [by rewrite Z.div_0_r|apply Z.div_pos; lia]. }
  assert (Hend : forall e, base <= e -> (if e <? i32_max then Ret e else Panic DebugAssertFailed) = Ret (E := EbpfError) est ->
    MAX_START_PADDING_LENGTH + MAX_EMPTY_PROGRAM_MACHINE_CODE_LENGTH + MAX_MACHINE_CODE_LENGTH_PER_INSTRUCTION * n <= est < 2 ^ 31).
  { intros e He. unfold i32_max. destruct (Z.ltb_spec e (2 ^ 31 - 1)) as [Hlt|]; [|done]. intros [= <-]. unfold base in He. lia. }
  repeat match goal with
  | |- exec_bind (if ?b then _ else _) _ = _ -> _ => destruct b; cbn [exec_bind]
  | |- exec_bind (exec_bind (if ?b then _ else _) _) _ = _ -> _ => destruct b; cbn [exec_bind]
  end; try done; apply Hend; lia.
Qed.
End Compiler.

(** * Pages *)

Section Pages.
Context `{Bo : LittleEndian} `{Rnd : Rand} `{Host : JitHost} `{Pgs : PageHost}.

Lemma page_size_bounds : 0 < sysconf_page_size <= 2 ^ 30 /\ exists c, 2 ^ 31 = c * sysconf_page_size.
Proof.
  destruct page_size_spec as (k & Hk & ->). split; [split; [apply Z.pow_pos_nonneg; lia|apply Z.pow_le_mono_r; lia]|].
  exists (2 ^ (31 - k)). rewrite <-Z.pow_add_r by lia. f_equal. lia.
Qed.

(** Rounding stays below a bound of whole pages. *)
Lemma round_below {E} (value bound c : Z) :
  0 <= value <= bound -> bound = c * sysconf_page_size -> bound <= 2 ^ 62 ->
  exists k, round_to_page_size (E := E) value sysconf_page_size = Ret (k * sysconf_page_size) /\
    value <= k * sysconf_page_size <= bound.
Proof.
  intros Hv Hb Hlt. pose proof page_size_bounds as [Hp _].
  destruct (round_to_page_size_spec (E := E) value sysconf_page_size) as (k & E1 & Hk); [lia|done|].
  exists k. split; [done|]. assert (k <= c) by nia. nia.
Qed.

Lemma jit_program_new_spec (pc size : Z) (os : Os) :
  0 <= pc < 2 ^ 25 -> 0 <= size < 2 ^ 31 ->
  match jit_program_new pc size os with
  | Ret (page_size, raw, text, section, len, _) =>
      page_size = sysconf_page_size /\ section = replicate (Z.to_nat pc) 0 /\ size <= len <= 2 ^ 31 /\
      exists c, len = c * sysconf_page_size
  | Err e => libc_failed e
  | Panic _ => False
  end.
Proof.
  intros Hpc Hsz. pose proof page_size_bounds as (Hp & c & Hc). unfold jit_program_new, get_system_page_size.
  unfold u64_mul at 1. rewrite (proj2 (Z.leb_le _ _)) by (unfold u64_max; lia). cbn [exec_bind].
  destruct (round_below (E := EbpfError) (pc * 4) (2 ^ 31) c) as (k1 & -> & H1); [lia|done|done|].
  destruct (round_below (E := EbpfError) size (2 ^ 31) c) as (k2 & -> & H2); [lia|done|done|]. cbn [exec_bind].
  rewrite u64_add_small by lia. cbn [exec_bind].
  pose proof (allocate_pages_spec (k1 * sysconf_page_size + k2 * sysconf_page_size) os) as Ha.
  destruct (allocate_pages _ _) as [[raw os']| |]; cbn [exec_bind]; [|done|done].
  split_and!; [done|done|lia|lia|by exists k2].
Qed.

(** Sealing succeeds unless the operating system refuses, and changes neither section. *)
Lemma seal_spec (pc_ptr text_ptr text_len c : Z) (section code : list Z) (os : Os) :
  text_len = c * sysconf_page_size -> text_len <= 2 ^ 31 -> zlen code <= text_len -> zlen section < 2 ^ 25 ->
  match jit_program_seal sysconf_page_size pc_ptr text_ptr text_len section code os with
  | Ret (jit, _) => jit.(jp_pc_section) = section /\ jit.(jp_text_section) = code /\ jit.(jp_page_size) = sysconf_page_size
  | Err e => libc_failed e
  | Panic _ => False
  end.
Proof.
  intros Htl Hle Hcode Hsec. pose proof page_size_bounds as (Hp & c31 & Hc31). unfold jit_program_seal.
  pose proof (zlen_nonneg code). pose proof (zlen_nonneg section).
  rewrite (proj2 (Z.eqb_neq _ _)) by lia.
  destruct (round_below (E := EbpfError) (4 * zlen section) (2 ^ 31) c31) as (k1 & -> & H1); [lia|done|done|].
  destruct (round_below (E := EbpfError) text_len (2 ^ 31) c31) as (k2 & -> & H2); [lia|done|done|].
  destruct (round_below (E := EbpfError) (zlen code) text_len c) as (k3 & -> & H3); [lia|done|lia|]. cbn [exec_bind].
  unfold u64_sub. rewrite (proj2 (Z.leb_le _ _)) by lia. cbn [exec_bind]. rewrite (proj2 (Z.ltb_ge _ _)) by lia.
  set (free := if _ <? _ then _ else _).
  assert (Hfree : match free with Ret _ => True | Err e => libc_failed e | Panic _ => False end).
  { unfold free. destruct (_ <? _); [apply free_pages_spec|done]. }
  destruct free as [[[] os1]| |]; cbn [exec_bind]; [|done|done].
  pose proof (protect_pages_spec pc_ptr (k1 * sysconf_page_size) false os1) as P1.
  destruct (protect_pages _ _ false _) as [[[] os2]| |]; cbn [exec_bind]; [|done|done].
  pose proof (protect_pages_spec (pc_ptr + k1 * sysconf_page_size) (k3 * sysconf_page_size) true os2) as P2.
  by destruct (protect_pages _ _ true _) as [[[] os3]| |]; cbn [exec_bind].
Qed.
End Pages.

(** * Properties *)

Section Properties.
Context `{Bo : LittleEndian} `{Rnd : Rand} `{Host : JitHost} `{Pgs : PageHost}.
Context (config : Config) (executable : Executable) (program : list Z).
Let n : Z := num_insns program.

(** A verified executable whose code fits, with a configuration in range. *)
Record jit_ready : Prop := {
  jr_config : Program.config executable.(loader) = Some config;
  jr_text : get_text_bytes (E := EbpfError) executable = Ret (executable.(text_section_vaddr), program);
  jr_bytes : bytes_ok program;
  jr_len : slice_len_ok program;
  jr_verified : verify program executable.(sbpf_version) = Ret tt;
  jr_registries : registries_ok executable program;
  jr_estimate : exists estimate, code_length_estimate config n = Ret estimate;
  jr_checkpoint : 0 <= config.(instruction_meter_checkpoint_distance) < 2 ^ 63;
  jr_frame_size : 0 <= config.(stack_frame_size) < 2 ^ 62;
  jr_noop : 0 <= config.(noop_instruction_rate) < 2 ^ 31;
}.
Context (Hr : jit_ready).

Lemma ready_program : well_formed_program program executable.(sbpf_version).
Proof.
  pose proof (verify_decides program executable.(sbpf_version) (jr_bytes Hr) (jr_len Hr)) as Hd.
  unfold decides in Hd. by rewrite (jr_verified Hr) in Hd.
Qed.

Lemma ready_slots : 0 <= n /\ exists estimate, code_length_estimate config n = Ret estimate /\
  start_room <= estimate < 2 ^ 31 /\ n < 2 ^ 25.
Proof.
  pose proof ready_program as (Hm & _ & _).
  assert (Hn : 0 <= n) by (apply (num_insns_bound program); [apply Hr|done]).
  split; [done|]. destruct (jr_estimate Hr) as [est He]. exists est. split; [done|].
  pose proof (jr_noop Hr). pose proof (jr_checkpoint Hr).
  pose proof (estimate_bounds config program est Hn ltac:(lia) ltac:(lia) He) as Hb. fold n in Hb.
  change (MAX_MACHINE_CODE_LENGTH_PER_INSTRUCTION) with 110 in Hb. change start_room with 4352 in *. lia.
Qed.

Lemma ready_context : compile_context config executable program.
Proof.
  pose proof ready_slots as (_ & est & _ & _ & Hn). split; try apply Hr; [apply ready_program|done].
Qed.

Lemma new_spec (rng : option Rng) (os : Os) :
  match jit_compiler_new executable rng os with
  | Ret (s, _) => fresh program s /\ s.(jit_page_size) = sysconf_page_size /\
      exists c, s.(jit_text_len) = c * sysconf_page_size
  | Err e => libc_failed e \/ rng = None /\ e = JitNotCompiled
  | Panic _ => False
  end.
Proof.
  pose proof ready_slots as (Hn0 & est & He & Hest & Hn). pose proof ready_program as (Hm & _ & Hwf).
  unfold jit_compiler_new, executable_config, get_config. rewrite (jr_config Hr). cbn [expect exec_bind].
  rewrite (jr_text Hr). cbn [exec_bind].
  assert ((if negb (disable_lddw executable.(sbpf_version)) then count_slots (length program) program 0
    else Ret (zlen program / INSN_SIZE)) = Ret n) as ->.
  { destruct (negb _); [|done]. apply (count_slots_eq executable program 0); [apply Hr|apply Hr|done|done|].
    pose proof (num_insns_len program Hm) as Hl. unfold INSN_SIZE, zlen in Hl. fold n in Hl. fold n. lia. }
  cbn [exec_bind]. rewrite He. cbn [exec_bind]. destruct rng as [rng|]; [|by right].
  pose proof (gen_i64_spec rng) as Hkey. destruct (gen_i64 rng) as [key rng']. cbn in Hkey.
  pose proof (jit_program_new_spec n est os) as Hnew. change start_room with 4352 in Hest.
  destruct (jit_program_new n est os) as [[[[[[ps raw] text] section] len] os']|e|]; cbn [exec_bind];
    [|left; apply Hnew; lia|apply Hnew; lia].
  destruct Hnew as (-> & -> & Hlen & c & Hc); [lia|lia|]. pose proof (jr_noop Hr) as Hnoop.
  unfold u32_mul. rewrite (proj2 (Z.leb_le _ _)) by lia. cbn [exec_bind].
  destruct (if _ =? 0 then _ else _) as [noop rng'']. split_and!; [|done|by exists c].
  split; try done; cbn.
  - split; cbn; [|done|done|lia| |].
    + unfold get_runtime_environment_key, PROGRAM_ENVIRONMENT_KEY_SHIFT. rewrite Z.shiftr_div_pow2 by done.
      pose proof environment_random_spec as Hk. unfold in_s in Hk. split; [apply Z.div_le_lower_bound|apply Z.div_lt_upper_bound]; lia.
    + rewrite zlen_replicate; lia.
    + apply Forall_replicate. lia.
  - change start_room with 4352. lia.
Qed.

(** What compilation leads to. *)
Lemma jit_compile_spec (rng : option Rng) (os : Os) :
  match jit_compile executable rng os with
  | Ret (jit, _) => exists key, in_s 64 key /\ code_ok config executable program key jit.(jp_pc_section) jit.(jp_text_section) /\
      zlen jit.(jp_text_section) <= 2 ^ 31
  | Err e => libc_failed e \/ (rng = None /\ e = JitNotCompiled) \/
      exists q, 0 <= q <= n /\ e = ExhaustedTextSegment q
  | Panic _ => False
  end.
Proof.
  unfold jit_compile. pose proof (new_spec rng os) as Hnew.
  destruct (jit_compiler_new executable rng os) as [[s os1]|e|]; cbn [exec_bind]; [|tauto|done].
  destruct Hnew as (Hfresh & Hps & c & Hc). unfold compile, executable_config, get_config. rewrite (jr_config Hr).
  cbn [expect exec_bind]. rewrite (jr_text Hr). cbn [exec_bind].
  destruct (compile_code_done config executable program ready_context s executable.(text_section_vaddr) Hfresh)
    as [(s' & -> & Hst & Hcode & Hlen)|(q & Hq & ->)]; cbn [exec_bind]; [|right; right; by exists q].
  pose proof (fo_len _ (fr_frame _ _ Hfresh)) as Htl. cbn in Htl. pose proof ready_slots as (_ & _ & _ & _ & Hn).
  assert (s'.(jit_page_size) = s.(jit_page_size) /\ s'.(jit_text_len) = s.(jit_text_len)) as [-> ->] by (by injection Hst).
  rewrite Hps.
  pose proof (seal_spec s'.(jit_pc_ptr) s'.(jit_text_ptr) s.(jit_text_len) c s'.(jit_pc_section) s'.(jit_code) os1 Hc
    ltac:(lia) Hlen ltac:(rewrite (ck_slots _ _ _ _ _ _ Hcode); exact Hn)) as Hseal.
  destruct (jit_program_seal _ _ _ _ _ _ _) as [[jit os2]|e|]; [|by left|done].
  destruct Hseal as (-> & -> & _). exists s.(immediate_value_key). split_and!; [apply (fo_key _ (fr_frame _ _ Hfresh))|done|lia].
Qed.
End Properties.

(** C7: Compilation of a verified executable cannot go wrong.  For an executable whose text
    section passes the verifier, whose registered functions are slots of the program, and
    whose estimated code length is accepted, [jit_compile] never panics: every write is inside
    of the allocated text section, every anchor that is used is set, every jump to resolve
    lies in the code.  Its errors are that the operating system refuses pages, that there is
    no random seed, or that the text section is exhausted.  When it returns, every slot of the
    program has an offset into the machine code. *)
Theorem jit_compile_safe `{Bo : LittleEndian} `{Rnd : Rand} `{Host : JitHost} `{Pgs : PageHost}
    (config : Config) (executable : Executable) (program : list Z) (rng : option Rng) (os : Os) :
  jit_ready config executable program ->
  match jit_compile executable rng os with
  | Ret (jit, _) =>
      zlen jit.(jp_pc_section) = num_insns program /\
      Forall (fun e => 0 <= e < machine_code_length jit) jit.(jp_pc_section) /\ machine_code_length jit <= 2 ^ 31
  | Err e => libc_failed e \/ (rng = None /\ e = JitNotCompiled) \/
      exists q, 0 <= q <= num_insns program /\ e = ExhaustedTextSegment q
  | Panic _ => False
  end.
Proof.
  intros Hr. pose proof (jit_compile_spec config executable program Hr rng os) as H.
  destruct (jit_compile executable rng os) as [[jit os']|e|]; [|exact H|exact H].
  destruct H as (key & _ & Hc & Hl). split_and!; [apply Hc|apply Hc|exact Hl].
Qed.

(** The JIT compiler and the verifier agree on the instruction set.  For every version, both
    values of the stack adjustment case and all 256 opcodes, [JitCompiler::compile] has an arm
    for an opcode if and only if the verifier knows it, so that a verified program never makes
    the compiler report an unsupported instruction. *)
Theorem jit_verifier_opcodes `{Bo : LittleEndian} `{Rnd : Rand} `{Host : JitHost} (config : Config)
    (executable : Executable) (program : list Z) (insn : Insn) (dst src : X86Register) (target : Z) (bump : bool) :
  in_u 8 insn.(opc) ->
  first_arm (jit_arms config executable program insn dst src target) = None <->
  opcode_class executable.(sbpf_version) bump insn.(opc) = None.
Proof.
  intros Ho. rewrite <-first_jit_arm. by apply jit_guards_known.
Qed.

(** ** A compiled program *)

(** [mov64 r0, 1; jeq r0, 0, +1; ja -2; exit] *)
Definition branching_text : list Z :=
  [0xb7; 0; 0; 0; 1; 0; 0; 0] ++ [0x15; 0; 1; 0; 0; 0; 0; 0] ++ [0x05; 0; 0xfe; 0xff; 0; 0; 0; 0] ++ [0x95; 0; 0; 0; 0; 0; 0; 0].
Definition branching_executable : Executable :=
  {| elf_bytes := branching_text; sbpf_version := V1; ro_section := Owned 0 []; text_section_vaddr := 0x100000000;
     text_section_range := (0, 32); entry_pc := 0; function_registry := ∅; loader := new_mock |}.

Lemma branching_ready : jit_ready (Bo := le_reference) default_config branching_executable branching_text.
Proof.
  split.
  - reflexivity.
  - reflexivity.
  - apply (bool_decide_unpack _). vm_compute. exact I.
  - vm_compute. discriminate.
  - by vm_compute.
  - split; intros key; intros *; vm_compute; done.
  - eexists. by vm_compute.
  - done.
  - done.
  - done.
Qed.

Lemma branching_compiles :
  match jit_compile (Bo := le_reference) (Rnd := no_rand) (Host := no_host) (Pgs := generous_host)
    branching_executable (Some tt) tt with Ret _ => true | _ => false end = true.
Proof. vm_compute. reflexivity. Qed.

Lemma jit_compile_safe_witness : exists jit,
  jit_compile (Bo := le_reference) (Rnd := no_rand) (Host := no_host) (Pgs := generous_host)
    branching_executable (Some tt) tt = Ret (jit, tt) /\
  zlen jit.(jp_pc_section) = 4 /\ Forall (fun e => 0 <= e < machine_code_length jit) jit.(jp_pc_section).
Proof.
  pose proof (jit_compile_safe (Bo := le_reference) (Rnd := no_rand) (Host := no_host) (Pgs := generous_host)
    default_config branching_executable branching_text (Some tt) tt branching_ready) as H.
  pose proof branching_compiles as Hret. destruct (jit_compile _ _ _) as [[jit []]|e|f]; [|done..].
  exists jit. split; [done|]. split; apply H.
Defined.

Lemma jit_verifier_opcodes_witness :
  first_arm (jit_arms (Bo := le_reference) (Rnd := no_rand) (Host := no_host) default_config branching_executable
    branching_text (mkInsn 0 0xff 0 0 0 0) RAX RAX 0) = None.
Proof.
  apply (jit_verifier_opcodes (Bo := le_reference) (Rnd := no_rand) (Host := no_host) default_config branching_executable
    branching_text (mkInsn 0 0xff 0 0 0 0) RAX RAX 0 true); [by split|reflexivity].
Defined.
