(* ===== verification/Aarch64.v ===== *)
(** The AArch64 instruction emitter (src/aarch64.rs): registers, instructions by their encoding
    scheme, the word [ARM64Instruction::emit] writes, and the constructors of instructions. *)
From S2P Require Import Prelude Error Ebpf Program X86 Jit.
Open Scope rust_scope.
Open Scope list_scope.

Module Arm.
(** * Registers *)

(* src/aarch64.rs:18-18, X0 *)
Definition X0 : Z := 0.
(* src/aarch64.rs:19-19, X1 *)
Definition X1 : Z := 1.
(* src/aarch64.rs:20-20, X2 *)
Definition X2 : Z := 2.
(* src/aarch64.rs:21-21, X3 *)
Definition X3 : Z := 3.
(* src/aarch64.rs:22-22, X4 *)
Definition X4 : Z := 4.
(* src/aarch64.rs:23-23, X5 *)
Definition X5 : Z := 5.
(* src/aarch64.rs:24-24, X6 *)
Definition X6 : Z := 6.
(* src/aarch64.rs:25-25, X7 *)
Definition X7 : Z := 7.
(* src/aarch64.rs:26-26, X8 *)
Definition X8 : Z := 8.
(* src/aarch64.rs:27-27, XR *)
Definition XR : Z := X8.
(* src/aarch64.rs:28-28, X9 *)
Definition X9 : Z := 9.
(* src/aarch64.rs:29-29, X10 *)
Definition X10 : Z := 10.
(* src/aarch64.rs:30-30, X11 *)
Definition X11 : Z := 11.
(* src/aarch64.rs:31-31, X12 *)
Definition X12 : Z := 12.
(* src/aarch64.rs:32-32, X13 *)
Definition X13 : Z := 13.
(* src/aarch64.rs:33-33, X14 *)
Definition X14 : Z := 14.
(* src/aarch64.rs:34-34, X15 *)
Definition X15 : Z := 15.
(* src/aarch64.rs:39-39, X19 *)
Definition X19 : Z := 19.
(* src/aarch64.rs:40-40, X20 *)
Definition X20 : Z := 20.
(* src/aarch64.rs:41-41, X21 *)
Definition X21 : Z := 21.
(* src/aarch64.rs:42-42, X22 *)
Definition X22 : Z := 22.
(* src/aarch64.rs:43-43, X23 *)
Definition X23 : Z := 23.
(* src/aarch64.rs:44-44, X24 *)
Definition X24 : Z := 24.
(* src/aarch64.rs:45-45, X25 *)
Definition X25 : Z := 25.
(* src/aarch64.rs:46-46, X26 *)
Definition X26 : Z := 26.
(* src/aarch64.rs:47-47, X27 *)
Definition X27 : Z := 27.
(* src/aarch64.rs:48-48, X28 *)
Definition X28 : Z := 28.
(* src/aarch64.rs:49-49, FP *)
Definition FP : Z := 29.
(* src/aarch64.rs:50-50, LR *)
Definition LR : Z := 30.
(** The stack pointer or the zero register, depending on the instruction. *)
(* src/aarch64.rs:51-51, SP_XZR *)
Definition SP_XZR : Z := 31.

(* src/aarch64.rs:54-54, ARGUMENT_REGISTERS *)
Definition ARGUMENT_REGISTERS : list Z := [X0; X1; X2; X3; X4; X5; X6; X7].
(* src/aarch64.rs:55-55, CALLER_SAVED_REGISTERS *)
Definition CALLER_SAVED_REGISTERS : list Z := [X9; X10; X11; X12; X13; X14; X15].
(* src/aarch64.rs:56-57, CALLEE_SAVED_REGISTERS *)
Definition CALLEE_SAVED_REGISTERS : list Z := [X19; X20; X21; X22; X23; X24; X25; X26; X27; X28; LR; FP].

(** * Instructions *)

(* src/aarch64.rs:61-66, ShiftType *)
Inductive ShiftType := LSL.
(** [shift_type as u32] *)
Definition shift_code (s : ShiftType) : Z := match s with LSL => 0 end.

(* src/aarch64.rs:70-82, Condition *)
Inductive Condition := EQ | NE | CS | CC | HI | LS | GE | LT | GT | LE.
(** [cond as u8] *)
(* src/aarch64.rs:70-82, Condition *)
Definition condition_code (c : Condition) : Z :=
  match c with
  | EQ => 0 | NE => 1 | CS => 2 | CC => 3 | HI => 8 | LS => 9 | GE => 10 | LT => 11 | GT => 12 | LE => 13
  end.
(* src/aarch64.rs:86-86, HS *)
Definition HS : Condition := CS.
(* src/aarch64.rs:87-87, LO *)
Definition LO : Condition := CC.

(* src/aarch64.rs:90-94, ARM64BitwiseImm *)
Record ARM64BitwiseImm := mkBitwise { bi_immr : Z; bi_imms : Z; bi_n : Z }.
(* src/aarch64.rs:97-101, ONE *)
Definition ONE : ARM64BitwiseImm := {| bi_immr := 0; bi_imms := 0; bi_n := 1 |}.

(* src/aarch64.rs:105-112, ARM64MemoryOperand *)
Inductive ARM64MemoryOperand :=
  | OffsetScaled (imm12 : Z)
  | Offset (imm9 : Z)
  | OffsetPreIndex (imm9 : Z)
  | OffsetPostIndex (imm9 : Z)
  | OffsetIndexShift (index : Z) (should_shift : bool).

(* src/aarch64.rs:135-144, ARM64InstructionLogicalShiftedRegister *)
Record ShiftedRegister := mkShifted {
  sr_size : OperandSize;
  sr_opcode : Z;
  sr_n : Z;
  sr_shift_type : ShiftType;
  sr_dest : Z;
  sr_src1 : Z;
  sr_src2 : Z;
  sr_imm6 : Z;
}.
(* src/aarch64.rs:146-159, ARM64InstructionLogicalShiftedRegister::default *)
Definition default_shifted : ShiftedRegister :=
  {| sr_size := S64; sr_opcode := 0; sr_n := 0; sr_shift_type := LSL; sr_dest := 0; sr_src1 := 0; sr_src2 := 0; sr_imm6 := 0 |}.

(* src/aarch64.rs:162-170, ARM64InstructionDataProcessing *)
Record DataProcessing := mkProcessing {
  dp_size : OperandSize;
  dp_opcode : Z;
  dp_dest : Z;
  dp_src1 : Z;
  dp_src2 : Z;
  dp_src3 : Z;
  dp_o0 : Z;
}.
(* src/aarch64.rs:172-184, ARM64InstructionDataProcessing::default *)
Definition default_processing : DataProcessing :=
  {| dp_size := S64; dp_opcode := 0; dp_dest := 0; dp_src1 := 0; dp_src2 := 0; dp_src3 := 0; dp_o0 := 0 |}.

(* src/aarch64.rs:187-195, ARM64InstructionAddSubImm *)
Record AddSubImmediate := mkAddSub {
  as_size : OperandSize;
  as_opcode : Z;
  as_sets_flags : Z;
  as_shift_mode : Z;
  as_dest : Z;
  as_src : Z;
  as_imm12 : Z;
}.
(* src/aarch64.rs:197-209, ARM64InstructionAddSubImm::default *)
Definition default_add_sub : AddSubImmediate :=
  {| as_size := S64; as_opcode := 0; as_sets_flags := 0; as_shift_mode := 0; as_dest := 0; as_src := 0; as_imm12 := 0 |}.

(* src/aarch64.rs:212-220, ARM64InstructionLogicalImm *)
Record LogicalImmediate := mkLogical {
  li_size : OperandSize;
  li_opcode : Z;
  li_n : Z;
  li_dest : Z;
  li_src : Z;
  li_immr : Z;
  li_imms : Z;
}.
(* src/aarch64.rs:222-234, ARM64InstructionLogicalImm::default *)
Definition default_logical : LogicalImmediate :=
  {| li_size := S64; li_opcode := 0; li_n := 0; li_dest := 0; li_src := 0; li_immr := 0; li_imms := 0 |}.

(* src/aarch64.rs:237-243, ARM64InstructionWideImm *)
Record WideImmediate := mkWide {
  wi_size : OperandSize;
  wi_opcode : Z;
  wi_hw : Z;
  wi_dest : Z;
  wi_imm16 : Z;
}.
(* src/aarch64.rs:245-255, ARM64InstructionWideImm::default *)
Definition default_wide : WideImmediate := {| wi_size := S64; wi_opcode := 0; wi_hw := 0; wi_dest := 0; wi_imm16 := 0 |}.

(* src/aarch64.rs:258-261, ARM64InstructionConditionalBranch *)
Record ConditionalBranchInsn := mkCondBranch { cb_cond : Z; cb_imm19 : Z }.
(* src/aarch64.rs:264-267, ARM64InstructionImm26 *)
Record Imm26Insn := mkImm26 { br_opcode : Z; br_imm26 : Z }.
(* src/aarch64.rs:270-272, ARM64InstructionBLR *)
Record BLRInsn := mkBLR { blr_target : Z }.

(* src/aarch64.rs:277-282, ARM64InstructionLoadStore *)
Record LoadStore := mkLoadStore {
  ls_size : OperandSize;
  ls_data : Z;
  ls_base : Z;
  ls_mem : ARM64MemoryOperand;
}.
(* src/aarch64.rs:284-293, ARM64InstructionLoadStore::default *)
Definition default_load_store : LoadStore := {| ls_size := S64; ls_data := 0; ls_base := 0; ls_mem := Offset 0 |}.

(* src/aarch64.rs:116-132, ARM64Instruction *)
Inductive ARM64Instruction :=
  | LogicalRegister (s : ShiftedRegister)
  | AddSubRegister (s : ShiftedRegister)
  | AddSubImm (s : AddSubImmediate)
  | ConditionalBranch (s : ConditionalBranchInsn)
  | LogicalImm (s : LogicalImmediate)
  | BitfieldImm (s : LogicalImmediate)
  | MovWideImm (s : WideImmediate)
  | DataProcessing1Src (s : DataProcessing)
  | DataProcessing2Src (s : DataProcessing)
  | DataProcessing3Src (s : DataProcessing)
  | BranchImm26 (s : Imm26Insn)
  | BLR (s : BLRInsn)
  | Load (s : LoadStore)
  | Store (s : LoadStore)
  | RET.

(** * Encoding *)

(** The binary constants of the source are in hexadecimal here. *)

(** [x << n] of a [u32], and the parts of a word. *)
Definition shl (x n : Z) : Z := as_u32 (Z.shiftl x n).
Definition parts (l : list Z) : Z := foldr Z.lor 0 l.
(** [(x & 1..1) as u32], of [n] bits. *)
Definition low (n x : Z) : Z := Z.land x (Z.ones n).

Definition sf (size : OperandSize) : Z := match size with S64 => 1 | _ => 0 end.

(* src/aarch64.rs:300-321, ARM64Instruction::emit *)
Definition shifted_word (class : Z) (s : ShiftedRegister) : Z :=
  parts [ low 5 s.(sr_dest); shl (low 5 s.(sr_src1)) 5; shl (low 5 s.(sr_src2)) 16; shl (low 6 s.(sr_imm6)) 10;
    shl (low 1 s.(sr_n)) 21; shl (shift_code s.(sr_shift_type)) 22; shl (low 2 s.(sr_opcode)) 29; shl class 24; shl (sf s.(sr_size)) 31 ].

(* src/aarch64.rs:322-337, ARM64Instruction::emit *)
Definition processing_word (one_source : bool) (s : DataProcessing) : Z :=
  parts [ low 5 s.(dp_dest); shl (low 5 s.(dp_src1)) 5; shl (low 5 s.(dp_src2)) 16; shl (low 6 s.(dp_opcode)) 10;
    if one_source then shl 1 30 else 0; shl 0xd6 21; shl (sf s.(dp_size)) 31 ].

(* src/aarch64.rs:338-353, ARM64Instruction::emit *)
Definition processing3_word (s : DataProcessing) : Z :=
  parts [ low 5 s.(dp_dest); shl (low 5 s.(dp_src1)) 5; shl (low 5 s.(dp_src2)) 16; shl (low 5 s.(dp_src3)) 10;
    shl (low 3 s.(dp_opcode)) 21; shl (low 1 s.(dp_o0)) 15; shl 0x1b 24; shl (sf s.(dp_size)) 31 ].

(* src/aarch64.rs:354-373, ARM64Instruction::emit *)
Definition add_sub_word (s : AddSubImmediate) : Z :=
  parts [ low 5 s.(as_dest); shl (low 5 s.(as_src)) 5; shl (low 12 s.(as_imm12)) 10; shl s.(as_shift_mode) 22;
    shl (low 1 s.(as_sets_flags)) 29; shl (low 1 s.(as_opcode)) 30; shl 0x11 24; shl (sf s.(as_size)) 31 ].

(* src/aarch64.rs:374-394, ARM64Instruction::emit *)
Definition logical_word (class : Z) (s : LogicalImmediate) : Z :=
  parts [ low 5 s.(li_dest); shl (low 5 s.(li_src)) 5; shl (low 6 s.(li_imms)) 10; shl (low 6 s.(li_immr)) 16;
    shl (low 1 s.(li_n)) 22; shl (low 2 s.(li_opcode)) 29; shl class 23; shl (sf s.(li_size)) 31 ].

(* src/aarch64.rs:395-412, ARM64Instruction::emit *)
Definition wide_word (s : WideImmediate) : Z :=
  parts [ low 5 s.(wi_dest); shl s.(wi_imm16) 5; shl (low 2 s.(wi_hw)) 21; shl (low 2 s.(wi_opcode)) 29; shl 0x25 23;
    shl (sf s.(wi_size)) 31 ].

(* src/aarch64.rs:413-417, ARM64Instruction::emit *)
Definition cond_branch_word (s : ConditionalBranchInsn) : Z :=
  parts [ low 4 s.(cb_cond); shl (low 19 (as_u32 s.(cb_imm19))) 5; shl 0x54 24 ].
(* src/aarch64.rs:418-421, ARM64Instruction::emit *)
Definition branch_word (s : Imm26Insn) : Z := parts [ low 26 (as_u32 s.(br_imm26)); shl s.(br_opcode) 26 ].
(* src/aarch64.rs:422-425, ARM64Instruction::emit *)
Definition blr_word (s : BLRInsn) : Z := parts [ 0xd63f0000; shl (low 5 s.(blr_target)) 5 ].

(** The memory operand: mode, offset or index, and opcode. *)
(* src/aarch64.rs:432-485, ARM64Instruction::emit *)
Definition operand_word (is_load : bool) (mem : ARM64MemoryOperand) : Z :=
  match mem with
  | OffsetPreIndex imm9 => parts [ shl 3 10; shl (low 9 imm9) 12; shl (if is_load then 0x1c2 else 0x1c0) 21 ]
  | OffsetPostIndex imm9 => parts [ shl 1 10; shl (low 9 imm9) 12; shl (if is_load then 0x1c2 else 0x1c0) 21 ]
  | Offset imm9 => parts [ shl 0 10; shl (low 9 imm9) 12; shl (if is_load then 0x1c2 else 0x1c0) 21 ]
  | OffsetScaled imm12 => parts [ shl 0 10; shl (low 12 imm12) 10; shl (if is_load then 0xe5 else 0xe4) 22 ]
  | OffsetIndexShift idx_reg should_shift =>
      parts [ shl 2 10; if should_shift then shl 1 12 else 0; shl 3 13; shl (low 5 idx_reg) 16;
        shl (if is_load then 0x1c3 else 0x1c1) 21 ]
  end.

(* src/aarch64.rs:429-496, ARM64Instruction::emit *)
Definition load_store_word (is_load : bool) (s : LoadStore) : Exec EbpfError Z :=
  let! size := match s.(ls_size) with S64 => Ret 3 | S32 => Ret 2 | S16 => Ret 1 | S8 => Ret 0 | S0 => Panic DebugAssertFailed end in
  Ret (parts [ low 5 s.(ls_data); shl (low 5 s.(ls_base)) 5; operand_word is_load s.(ls_mem); shl size 30 ]).

(* src/aarch64.rs:296-500, ARM64Instruction::emit *)
Definition arm_word (self : ARM64Instruction) : Exec EbpfError Z :=
  match self with
  | LogicalRegister s => Ret (shifted_word 0xa s)
  | AddSubRegister s => Ret (shifted_word 0xb s)
  | DataProcessing2Src s => Ret (processing_word false s)
  | DataProcessing1Src s => Ret (processing_word true s)
  | DataProcessing3Src s => Ret (processing3_word s)
  | AddSubImm s => Ret (add_sub_word s)
  | LogicalImm s => Ret (logical_word 0x24 s)
  | BitfieldImm s => Ret (logical_word 0x26 s)
  | MovWideImm s => Ret (wide_word s)
  | ConditionalBranch s => Ret (cond_branch_word s)
  | BranchImm26 s => Ret (branch_word s)
  | BLR s => Ret (blr_word s)
  | RET => Ret 0xd65f03c0
  | Load s => load_store_word true s
  | Store s => load_store_word false s
  end.

(** The word goes to the text section of the compiler, little-endian. *)
(* src/aarch64.rs:296-500, ARM64Instruction::emit *)
Definition arm_emit `{Rnd : Rand} (self : ARM64Instruction) : Jit unit :=
  let* ins := j_lift (arm_word self) in
  emit (le_bytes 4 ins).

(** * Constructors *)

Section Constructors.
Context (size : OperandSize).

(* src/aarch64.rs:504-515, ARM64Instruction::mov *)
Definition mov (source destination : Z) : ARM64Instruction :=
  LogicalRegister (mkShifted size 1 0 LSL destination SP_XZR source 0).
(* src/aarch64.rs:518-528, ARM64Instruction::orr *)
Definition orr (source destination : Z) : ARM64Instruction :=
  LogicalRegister (mkShifted size 1 0 LSL destination destination source 0).
(* src/aarch64.rs:531-541, ARM64Instruction::and *)
Definition and (src1 src2 destination : Z) : ARM64Instruction :=
  LogicalRegister (mkShifted size 0 0 LSL destination src1 src2 0).
(* src/aarch64.rs:544-554, ARM64Instruction::eor *)
Definition eor (source destination : Z) : ARM64Instruction :=
  LogicalRegister (mkShifted size 2 0 LSL destination destination source 0).
(* src/aarch64.rs:557-567, ARM64Instruction::tst *)
Definition tst (source destination : Z) : ARM64Instruction :=
  LogicalRegister (mkShifted size 3 0 LSL SP_XZR destination source 0).
(* src/aarch64.rs:570-580, ARM64Instruction::tst_imm *)
Definition tst_imm (source : Z) (imm : ARM64BitwiseImm) : ARM64Instruction :=
  LogicalImm {| li_size := S64; li_opcode := 3; li_n := imm.(bi_n); li_immr := imm.(bi_immr); li_imms := imm.(bi_imms);
    li_dest := SP_XZR; li_src := source |}.
(* src/aarch64.rs:589-599, ARM64Instruction::add *)
Definition add (src1 src2 destination : Z) : ARM64Instruction :=
  AddSubRegister (mkShifted size 0 0 LSL destination src1 src2 0).
(* src/aarch64.rs:602-612, ARM64Instruction::add_imm *)
Definition add_imm (src imm12 destination : Z) : Exec EbpfError ARM64Instruction :=
  if negb (imm12 <? 2 ^ 12) then Panic DebugAssertFailed
  else Ret (AddSubImm (mkAddSub size 0 0 0 destination src imm12)).
(* src/aarch64.rs:616-626, ARM64Instruction::sub *)
Definition sub (src1 src2 destination : Z) : ARM64Instruction :=
  AddSubRegister (mkShifted size 2 0 LSL destination src1 src2 0).
(* src/aarch64.rs:629-639, ARM64Instruction::sub_imm *)
Definition sub_imm (src imm12 destination : Z) : Exec EbpfError ARM64Instruction :=
  if negb (imm12 <? 2 ^ 12) then Panic DebugAssertFailed
  else Ret (AddSubImm (mkAddSub size 1 0 0 destination src imm12)).
(* src/aarch64.rs:643-653, ARM64Instruction::cmp *)
Definition cmp (source destination : Z) : ARM64Instruction :=
  AddSubRegister (mkShifted size 3 0 LSL SP_XZR destination source 0).
(* src/aarch64.rs:656-667, ARM64Instruction::cmp_imm *)
Definition cmp_imm (src imm12 : Z) : Exec EbpfError ARM64Instruction :=
  if negb (imm12 <? 2 ^ 12) then Panic DebugAssertFailed
  else Ret (AddSubImm (mkAddSub size 1 1 0 SP_XZR src imm12)).
(* src/aarch64.rs:753-762, ARM64Instruction::lsl_reg *)
Definition lsl_reg (src shift destination : Z) : ARM64Instruction :=
  DataProcessing2Src (mkProcessing size 8 destination src shift 0 0).
(* src/aarch64.rs:779-788, ARM64Instruction::lsr_reg *)
Definition lsr_reg (src shift destination : Z) : ARM64Instruction :=
  DataProcessing2Src (mkProcessing size 9 destination src shift 0 0).
(* src/aarch64.rs:791-800, ARM64Instruction::asr_reg *)
Definition asr_reg (src shift destination : Z) : ARM64Instruction :=
  DataProcessing2Src (mkProcessing size 0xa destination src shift 0 0).
(* src/aarch64.rs:803-817, ARM64Instruction::rev *)
Definition rev (src destination : Z) : Exec EbpfError ARM64Instruction :=
  let! opcode := match size with S16 => Ret 1 | S32 => Ret 2 | S64 => Ret 3 | _ => Panic DebugAssertFailed end in
  Ret (DataProcessing1Src (mkProcessing size opcode destination src 0 0 0)).
(* src/aarch64.rs:885-895, ARM64Instruction::mvn *)
Definition mvn (source destination : Z) : ARM64Instruction :=
  LogicalRegister (mkShifted size 1 1 LSL destination SP_XZR source 0).

(** Accesses that write the base register back must not use it for the data. *)
(* src/aarch64.rs:899-915, ARM64Instruction::load *)
Definition load (source : Z) (indirect : ARM64MemoryOperand) (data : Z) : Exec EbpfError ARM64Instruction :=
  if bool_decide (size = S0) then Panic DebugAssertFailed
  else
    let! _ := match indirect with
              | OffsetPreIndex _ | OffsetPostIndex _ => if source =? data then Panic DebugAssertFailed else Ret tt
              | _ => Ret tt
              end in
    Ret (Load (mkLoadStore size data source indirect)).
(* src/aarch64.rs:918-934, ARM64Instruction::store *)
Definition store (data source : Z) (indirect : ARM64MemoryOperand) : Exec EbpfError ARM64Instruction :=
  if bool_decide (size = S0) then Panic DebugAssertFailed
  else
    let! _ := match indirect with
              | OffsetPreIndex _ | OffsetPostIndex _ => if source =? data then Panic DebugAssertFailed else Ret tt
              | _ => Ret tt
              end in
    Ret (Store (mkLoadStore size data source indirect)).

(* src/aarch64.rs:966-976, ARM64Instruction::madd *)
Definition madd (src1 src2 src3 destination : Z) : ARM64Instruction :=
  DataProcessing3Src (mkProcessing size 0 destination src1 src2 src3 0).
(* src/aarch64.rs:980-990, ARM64Instruction::msub *)
Definition msub (src1 src2 src3 destination : Z) : ARM64Instruction :=
  DataProcessing3Src (mkProcessing size 0 destination src1 src2 src3 1).
(* src/aarch64.rs:993-1002, ARM64Instruction::udiv *)
Definition udiv (src1 src2 destination : Z) : ARM64Instruction :=
  DataProcessing2Src (mkProcessing size 2 destination src1 src2 0 0).
(* src/aarch64.rs:1005-1014, ARM64Instruction::sdiv *)
Definition sdiv (src1 src2 destination : Z) : ARM64Instruction :=
  DataProcessing2Src (mkProcessing size 3 destination src1 src2 0 0).
End Constructors.

(* src/aarch64.rs:670-697, ARM64Instruction::zero_extend_to_u64 *)
Definition zero_extend_to_u64 (from_size : OperandSize) (source destination : Z) : Exec EbpfError ARM64Instruction :=
  match from_size with
  | S8 => Ret (BitfieldImm (mkLogical S32 2 0 destination source 0 7))
  | S16 => Ret (BitfieldImm (mkLogical S32 2 0 destination source 0 15))
  | S32 => Ret (mov S32 source destination)
  | S0 | S64 => Panic DebugAssertFailed
  end.
(* src/aarch64.rs:700-736, ARM64Instruction::sign_extend_to_i64 *)
Definition sign_extend_to_i64 (from_size : OperandSize) (source destination : Z) : Exec EbpfError ARM64Instruction :=
  match from_size with
  | S8 => Ret (BitfieldImm (mkLogical S64 0 1 destination source 0 7))
  | S16 => Ret (BitfieldImm (mkLogical S64 0 1 destination source 0 15))
  | S32 => Ret (BitfieldImm (mkLogical S64 0 1 destination source 0 31))
  | S0 | S64 => Panic DebugAssertFailed
  end.
(* src/aarch64.rs:739-750, ARM64Instruction::lsl_imm *)
Definition lsl_imm (source shift_imm destination : Z) : Exec EbpfError ARM64Instruction :=
  if negb ((0 <? shift_imm) && (shift_imm <? 64)) then Panic DebugAssertFailed
  else Ret (BitfieldImm (mkLogical S64 2 1 destination source (as_u8 ((- swrap 8 shift_imm) mod 64)) (63 - shift_imm))).
(* src/aarch64.rs:765-776, ARM64Instruction::lsr_imm *)
Definition lsr_imm (source shift_imm destination : Z) : Exec EbpfError ARM64Instruction :=
  if negb ((0 <? shift_imm) && (shift_imm <? 64)) then Panic DebugAssertFailed
  else Ret (BitfieldImm (mkLogical S64 2 1 destination source shift_imm 0x3f)).

(* src/aarch64.rs:821-826, ARM64Instruction::b_cond *)
Definition b_cond (cond : Condition) (imm19 : Z) : ARM64Instruction := ConditionalBranch (mkCondBranch (condition_code cond) imm19).
(* src/aarch64.rs:830-835, ARM64Instruction::bl *)
Definition bl (imm26 : Z) : ARM64Instruction := BranchImm26 (mkImm26 0x25 imm26).
(* src/aarch64.rs:839-841, ARM64Instruction::blr *)
Definition blr (target : Z) : ARM64Instruction := BLR (mkBLR target).
(* src/aarch64.rs:845-850, ARM64Instruction::b *)
Definition b (imm26 : Z) : ARM64Instruction := BranchImm26 (mkImm26 5 imm26).
(* src/aarch64.rs:853-855, ARM64Instruction::ret *)
Definition ret : ARM64Instruction := RET.
(* src/aarch64.rs:859-868, ARM64Instruction::movk *)
Definition movk (destination shift_16 immediate : Z) : Exec EbpfError ARM64Instruction :=
  if negb ((0 <=? shift_16) && (shift_16 <? 4)) then Panic DebugAssertFailed
  else Ret (MovWideImm (mkWide S64 3 shift_16 destination immediate)).
(* src/aarch64.rs:872-881, ARM64Instruction::movn *)
Definition movn (destination shift_16 immediate : Z) : Exec EbpfError ARM64Instruction :=
  if negb ((0 <=? shift_16) && (shift_16 <? 4)) then Panic DebugAssertFailed
  else Ret (MovWideImm (mkWide S64 0 shift_16 destination immediate)).
(* src/aarch64.rs:943-951, ARM64Instruction::push64 *)
Definition push64 (reg : Z) : Exec EbpfError ARM64Instruction :=
  if SP_XZR =? reg then Panic DebugAssertFailed
  else Ret (Store (mkLoadStore S64 reg SP_XZR (OffsetPreIndex (-16)))).
(* src/aarch64.rs:954-962, ARM64Instruction::pop64 *)
Definition pop64 (reg : Z) : Exec EbpfError ARM64Instruction :=
  if SP_XZR =? reg then Panic DebugAssertFailed
  else Ret (Load (mkLoadStore S64 reg SP_XZR (OffsetPostIndex 16))).
End Arm.
