(* ===== verification/ArmEncoding.v ===== *)
(** The AArch64 instructions that src/aarch64.rs emits, against the encoding of the architecture:
    a decoder by classes and fields, a disassembler on top of it, the assembly instruction that
    each constructor's name stands for, and that the emitted word disassembles to it. *)
From S2P Require Import Prelude Error Ebpf Program X86 Jit JitArms Aarch64.
Open Scope rust_scope.
Open Scope list_scope.

(** * Decoding *)

Module ArmDecode.
Import Arm.

(** The [n] bits of a word from bit [lo]. *)
Definition field (lo n w : Z) : Z := Z.land (Z.shiftr w lo) (Z.ones n).
Definition size_of (bit : Z) : OperandSize := if bit =? 1 then S64 else S32.

(** Instruction classes as the architecture assigns them to words. *)
Definition decode_shifted (w : Z) : ShiftedRegister :=
  mkShifted (size_of (field 31 1 w)) (field 29 2 w) (field 21 1 w) LSL (field 0 5 w) (field 5 5 w) (field 16 5 w) (field 10 6 w).
Definition decode_processing (w : Z) : DataProcessing :=
  mkProcessing (size_of (field 31 1 w)) (field 10 6 w) (field 0 5 w) (field 5 5 w) (field 16 5 w) 0 0.
Definition decode_processing3 (w : Z) : DataProcessing :=
  mkProcessing (size_of (field 31 1 w)) (field 21 3 w) (field 0 5 w) (field 5 5 w) (field 16 5 w) (field 10 5 w) (field 15 1 w).
Definition decode_add_sub (w : Z) : AddSubImmediate :=
  mkAddSub (size_of (field 31 1 w)) (field 30 1 w) (field 29 1 w) (field 22 1 w) (field 0 5 w) (field 5 5 w) (field 10 12 w).
Definition decode_logical (w : Z) : LogicalImmediate :=
  mkLogical (size_of (field 31 1 w)) (field 29 2 w) (field 22 1 w) (field 0 5 w) (field 5 5 w) (field 16 6 w) (field 10 6 w).
Definition decode_wide (w : Z) : WideImmediate :=
  mkWide (size_of (field 31 1 w)) (field 29 2 w) (field 21 2 w) (field 0 5 w) (field 5 16 w).

Definition decode_register (w : Z) : option ARM64Instruction :=
  if field 24 5 w =? 0xa then if field 22 2 w =? 0 then Some (LogicalRegister (decode_shifted w)) else None
  else if field 24 5 w =? 0xb then if field 22 2 w =? 0 then Some (AddSubRegister (decode_shifted w)) else None
  else if field 24 5 w =? 0x1b then if field 29 2 w =? 0 then Some (DataProcessing3Src (decode_processing3 w)) else None
  else if field 21 8 w =? 0xd6 then
    if field 29 2 w =? 2 then Some (DataProcessing1Src (decode_processing w))
    else if field 29 2 w =? 0 then Some (DataProcessing2Src (decode_processing w))
    else None
  else None.

Definition decode_immediate (w : Z) : option ARM64Instruction :=
  if field 23 3 w =? 2 then Some (AddSubImm (decode_add_sub w))
  else if field 23 3 w =? 4 then Some (LogicalImm (decode_logical w))
  else if field 23 3 w =? 5 then Some (MovWideImm (decode_wide w))
  else if field 23 3 w =? 6 then Some (BitfieldImm (decode_logical w))
  else None.

Definition decode_branch (w : Z) : option ARM64Instruction :=
  if field 29 2 w =? 0 then Some (BranchImm26 (mkImm26 (field 26 6 w) (swrap 26 (field 0 26 w))))
  else if field 24 8 w =? 0x54 then Some (ConditionalBranch (mkCondBranch (field 0 4 w) (swrap 19 (field 5 19 w))))
  else if field 10 22 w =? 0x358fc0 then Some (BLR (mkBLR (field 5 5 w)))
  else if w =? 0xd65f03c0 then Some RET
  else None.

Definition decode_operand (w : Z) : option ARM64MemoryOperand :=
  if field 24 2 w =? 1 then Some (OffsetScaled (field 10 12 w))
  else if field 21 1 w =? 0 then
    if field 10 2 w =? 3 then Some (OffsetPreIndex (swrap 9 (field 12 9 w)))
    else if field 10 2 w =? 1 then Some (OffsetPostIndex (swrap 9 (field 12 9 w)))
    else if field 10 2 w =? 0 then Some (Offset (swrap 9 (field 12 9 w)))
    else None
  else if (field 10 2 w =? 2) && (field 13 3 w =? 3) then Some (OffsetIndexShift (field 16 5 w) (field 12 1 w =? 1))
  else None.

Definition access_size (bits : Z) : OperandSize :=
  if bits =? 3 then S64 else if bits =? 2 then S32 else if bits =? 1 then S16 else S8.

Definition decode_access (w : Z) : option ARM64Instruction :=
  match decode_operand w with
  | Some mem =>
      let s := mkLoadStore (access_size (field 30 2 w)) (field 0 5 w) (field 5 5 w) mem in
      if field 22 2 w =? 1 then Some (Load s) else if field 22 2 w =? 0 then Some (Store s) else None
  | None => None
  end.

Definition decode (w : Z) : option ARM64Instruction :=
  if field 26 3 w =? 4 then decode_immediate w
  else if field 26 3 w =? 5 then decode_branch w
  else if field 25 1 w =? 1 then decode_register w
  else if field 27 3 w =? 7 then decode_access w
  else None.

(** ** Assembly instructions *)

Inductive width := W32 | W64.
(** Register 31 is the zero register or the stack pointer. *)
Inductive areg := Reg (n : Z) | Zero | StackPointer.
Definition zr (n : Z) : areg := if n =? 31 then Zero else Reg n.
Definition sp (n : Z) : areg := if n =? 31 then StackPointer else Reg n.

Inductive logic_op := And | Orr | Eor | Ands.
Inductive bit_op := ShiftLeft | ShiftRight | ArithmeticRight | ZeroExtend (bits : Z) | SignExtend (bits : Z).
Inductive two_op := UnsignedDivide | SignedDivide | LeftByRegister | RightByRegister | ArithmeticByRegister.
Inductive compare := Equal | NotEqual | UnsignedGE | UnsignedLT | UnsignedGT | UnsignedLE | SignedGE | SignedLT | SignedGT | SignedLE.
(** Addresses with an offset in bytes, also written back to the base before or after the access,
    or an index register shifted left. *)
Inductive address :=
  | AtOffset (base : areg) (offset : Z)
  | PreIndexed (base : areg) (offset : Z)
  | PostIndexed (base : areg) (offset : Z)
  | Indexed (base index : areg) (shift : Z).

(** Operands in the order of the architecture: the destination first. *)
Inductive Asm :=
  | ALogic (op : logic_op) (invert : bool) (w : width) (d n m : areg)
  | ALogicImm (op : logic_op) (w : width) (d n : areg) (mask : Z)
  | AAddSub (subtract flags : bool) (w : width) (d n m : areg)
  | AAddSubImm (subtract flags : bool) (w : width) (d n : areg) (imm : Z)
  | ABits (op : bit_op) (w : width) (d n : areg) (amount : Z)
  | ATwo (op : two_op) (w : width) (d n m : areg)
  | AReverseBytes (w : width) (group : Z) (d n : areg)
  | AMultiply (subtract : bool) (w : width) (d n m a : areg)
  | AMoveKeep (w : width) (d : areg) (imm shift : Z)
  | AMoveNot (w : width) (d : areg) (imm shift : Z)
  | ABranch (link : bool) (offset : Z)
  | ABranchIf (c : compare) (offset : Z)
  | ABranchLinkReg (n : areg)
  | AReturn (n : areg)
  | ALoad (bytes : Z) (d : areg) (a : address)
  | AStore (bytes : Z) (d : areg) (a : address).

(** *** Fields of the instruction classes *)

Definition width_of (size : OperandSize) : width := match size with S64 => W64 | _ => W32 end.
Definition width_bits (w : width) : Z := match w with W64 => 64 | W32 => 32 end.

Definition logic_of (opcode : Z) : logic_op :=
  if opcode =? 0 then And else if opcode =? 1 then Orr else if opcode =? 2 then Eor else Ands.

(** The immediate of a logical instruction: a run of ones in an element of 2 to 64 bits, rotated
    right and repeated ([DecodeBitMasks] of the architecture). *)
Definition rotate_right (esize x r : Z) : Z :=
  Z.lor (Z.shiftr x r) (Z.land (Z.shiftl x (esize - r)) (Z.ones esize)).
Definition repeat_element (esize x : Z) : Z :=
  foldr (fun k acc => Z.lor (Z.shiftl x (Z.of_nat k * esize)) acc) 0 (seq 0 (Z.to_nat (64 / esize))).
Definition bit_mask (n imms immr : Z) : option Z :=
  let len := Z.log2 (Z.lor (Z.shiftl n 6) (Z.lxor imms 63)) in
  let levels := Z.ones len in
  if (len <? 1) || (Z.land imms levels =? levels) then None
  else let esize := 2 ^ len in
    Some (repeat_element esize (rotate_right esize (Z.ones (Z.land imms levels + 1)) (Z.land immr levels))).

(** Bit-field moves by the aliases the architecture gives them: a left shift by [n] moves the low
    bits up, that is rotates right by the width less [n]; a right shift takes the bits from [n]
    up; an extension takes the low bits. *)
Definition bits_of (signed : bool) (w : width) (immr imms : Z) : option (bit_op * Z) :=
  let top := width_bits w - 1 in
  if imms =? top then Some (if signed then ArithmeticRight else ShiftRight, immr)
  else if negb signed && (imms + 1 =? immr) then Some (ShiftLeft, top - imms)
  else if (immr =? 0) && ((imms =? 7) || (imms =? 15) || (signed && (imms =? 31)))
    then Some (if signed then SignExtend (imms + 1) else ZeroExtend (imms + 1), 0)
  else None.

Definition two_of (opcode : Z) : option two_op :=
  if opcode =? 2 then Some UnsignedDivide else if opcode =? 3 then Some SignedDivide
  else if opcode =? 8 then Some LeftByRegister else if opcode =? 9 then Some RightByRegister
  else if opcode =? 10 then Some ArithmeticByRegister else None.

(** The bytes in each group that are reversed: halfwords, words or the doubleword. *)
Definition group_of (w : width) (opcode : Z) : option Z :=
  if opcode =? 1 then Some 2
  else if opcode =? 2 then Some 4
  else if (opcode =? 3) && (width_bits w =? 64) then Some 8
  else None.

Definition compare_of (cond : Z) : option compare :=
  if cond =? 0 then Some Equal else if cond =? 1 then Some NotEqual
  else if cond =? 2 then Some UnsignedGE else if cond =? 3 then Some UnsignedLT
  else if cond =? 8 then Some UnsignedGT else if cond =? 9 then Some UnsignedLE
  else if cond =? 10 then Some SignedGE else if cond =? 11 then Some SignedLT
  else if cond =? 12 then Some SignedGT else if cond =? 13 then Some SignedLE
  else None.

Definition log_bytes (size : OperandSize) : Z := match size with S64 => 3 | S32 => 2 | S16 => 1 | _ => 0 end.
Definition address_of (size : OperandSize) (base : Z) (mem : ARM64MemoryOperand) : address :=
  match mem with
  | OffsetScaled imm12 => AtOffset (sp base) (imm12 * 2 ^ log_bytes size)
  | Offset imm9 => AtOffset (sp base) imm9
  | OffsetPreIndex imm9 => PreIndexed (sp base) imm9
  | OffsetPostIndex imm9 => PostIndexed (sp base) imm9
  | OffsetIndexShift index shifted => Indexed (sp base) (zr index) (if shifted then log_bytes size else 0)
  end.

Definition asm_of (i : ARM64Instruction) : option Asm :=
  match i with
  | LogicalRegister (mkShifted size op n _ d s1 s2 0) => Some (ALogic (logic_of op) (n =? 1) (width_of size) (zr d) (zr s1) (zr s2))
  | AddSubRegister (mkShifted size op 0 _ d s1 s2 0) =>
      Some (AAddSub (Z.testbit op 1) (Z.testbit op 0) (width_of size) (zr d) (zr s1) (zr s2))
  | AddSubImm (mkAddSub size op flags shifted d s imm) =>
      Some (AAddSubImm (op =? 1) (flags =? 1) (width_of size) (if flags =? 1 then zr d else sp d) (sp s) (if shifted =? 1 then imm * 2 ^ 12 else imm))
  | LogicalImm (mkLogical S64 op n d s immr imms) =>
      ALogicImm (logic_of op) W64 (if op =? 3 then zr d else sp d) (zr s) <$> bit_mask n imms immr
  | BitfieldImm (mkLogical size op n d s immr imms) =>
      let w := width_of size in
      if (n =? sf size) && ((op =? 0) || (op =? 2)) then
        '(o, amount) ← bits_of (op =? 0) w immr imms; Some (ABits o w (zr d) (zr s) amount)
      else None
  | MovWideImm (mkWide size op hw d imm) =>
      if op =? 3 then Some (AMoveKeep (width_of size) (zr d) imm (16 * hw))
      else if op =? 0 then Some (AMoveNot (width_of size) (zr d) imm (16 * hw))
      else None
  | DataProcessing1Src (mkProcessing size op d s 0 _ _) =>
      g ← group_of (width_of size) op; Some (AReverseBytes (width_of size) g (zr d) (zr s))
  | DataProcessing2Src (mkProcessing size op d s1 s2 _ _) => o ← two_of op; Some (ATwo o (width_of size) (zr d) (zr s1) (zr s2))
  | DataProcessing3Src (mkProcessing size 0 d s1 s2 s3 o) => Some (AMultiply (o =? 1) (width_of size) (zr d) (zr s1) (zr s2) (zr s3))
  | ConditionalBranch (mkCondBranch c imm) => c ← compare_of c; Some (ABranchIf c (4 * imm))
  | BranchImm26 (mkImm26 op imm) => Some (ABranch (op =? 0x25) (4 * imm))
  | BLR (mkBLR t) => Some (ABranchLinkReg (zr t))
  | Load (mkLoadStore size d base mem) => Some (ALoad (2 ^ log_bytes size) (zr d) (address_of size base mem))
  | Store (mkLoadStore size d base mem) => Some (AStore (2 ^ log_bytes size) (zr d) (address_of size base mem))
  | RET => Some (AReturn (Reg 30))
  | _ => None
  end.

Definition disassemble (w : Z) : option Asm := decode w ≫= asm_of.

(** ** Instructions that have an encoding *)

Definition operand_ok (mem : ARM64MemoryOperand) : Prop :=
  match mem with
  | OffsetScaled imm12 => in_u 12 imm12
  | Offset imm9 | OffsetPreIndex imm9 | OffsetPostIndex imm9 => in_s 9 imm9
  | OffsetIndexShift index _ => in_u 5 index
  end.

Definition arm_ok (i : ARM64Instruction) : Prop :=
  match i with
  | LogicalRegister s | AddSubRegister s =>
      in_u 2 s.(sr_opcode) /\ in_u 1 s.(sr_n) /\ in_u 5 s.(sr_dest) /\ in_u 5 s.(sr_src1) /\ in_u 5 s.(sr_src2) /\ in_u 6 s.(sr_imm6)
  | AddSubImm s =>
      in_u 1 s.(as_opcode) /\ in_u 1 s.(as_sets_flags) /\ in_u 1 s.(as_shift_mode) /\ in_u 5 s.(as_dest) /\ in_u 5 s.(as_src) /\ in_u 12 s.(as_imm12)
  | ConditionalBranch s => in_u 4 s.(cb_cond) /\ in_s 19 s.(cb_imm19)
  | LogicalImm s | BitfieldImm s =>
      in_u 2 s.(li_opcode) /\ in_u 1 s.(li_n) /\ in_u 5 s.(li_dest) /\ in_u 5 s.(li_src) /\ in_u 6 s.(li_immr) /\ in_u 6 s.(li_imms)
  | MovWideImm s => in_u 2 s.(wi_opcode) /\ in_u 2 s.(wi_hw) /\ in_u 5 s.(wi_dest) /\ in_u 16 s.(wi_imm16)
  | DataProcessing1Src s | DataProcessing2Src s =>
      in_u 6 s.(dp_opcode) /\ in_u 5 s.(dp_dest) /\ in_u 5 s.(dp_src1) /\ in_u 5 s.(dp_src2)
  | DataProcessing3Src s =>
      in_u 3 s.(dp_opcode) /\ in_u 5 s.(dp_dest) /\ in_u 5 s.(dp_src1) /\ in_u 5 s.(dp_src2) /\ in_u 5 s.(dp_src3) /\ in_u 1 s.(dp_o0)
  | BranchImm26 s => (s.(br_opcode) = 5 \/ s.(br_opcode) = 0x25) /\ in_s 26 s.(br_imm26)
  | BLR s => in_u 5 s.(blr_target)
  | Load s | Store s => s.(ls_size) <> S0 /\ in_u 5 s.(ls_data) /\ in_u 5 s.(ls_base) /\ operand_ok s.(ls_mem)
  | RET => True
  end.

(** What an encoding does not keep: operands narrower than 32 bits have no encoding of their own
    but in accesses, and instructions with one or two sources have no third one. *)
Definition wide_size (size : OperandSize) : OperandSize := match size with S64 => S64 | _ => S32 end.
Definition canonical_shifted (s : ShiftedRegister) : ShiftedRegister :=
  mkShifted (wide_size s.(sr_size)) s.(sr_opcode) s.(sr_n) s.(sr_shift_type) s.(sr_dest) s.(sr_src1) s.(sr_src2) s.(sr_imm6).
Definition canonical_processing (s : DataProcessing) : DataProcessing :=
  mkProcessing (wide_size s.(dp_size)) s.(dp_opcode) s.(dp_dest) s.(dp_src1) s.(dp_src2) 0 0.
Definition canonical (i : ARM64Instruction) : ARM64Instruction :=
  match i with
  | LogicalRegister s => LogicalRegister (canonical_shifted s)
  | AddSubRegister s => AddSubRegister (canonical_shifted s)
  | DataProcessing1Src s => DataProcessing1Src (canonical_processing s)
  | DataProcessing2Src s => DataProcessing2Src (canonical_processing s)
  | DataProcessing3Src s =>
      DataProcessing3Src (mkProcessing (wide_size s.(dp_size)) s.(dp_opcode) s.(dp_dest) s.(dp_src1) s.(dp_src2) s.(dp_src3) s.(dp_o0))
  | AddSubImm s =>
      AddSubImm (mkAddSub (wide_size s.(as_size)) s.(as_opcode) s.(as_sets_flags) s.(as_shift_mode) s.(as_dest) s.(as_src) s.(as_imm12))
  | LogicalImm s => LogicalImm (mkLogical (wide_size s.(li_size)) s.(li_opcode) s.(li_n) s.(li_dest) s.(li_src) s.(li_immr) s.(li_imms))
  | BitfieldImm s => BitfieldImm (mkLogical (wide_size s.(li_size)) s.(li_opcode) s.(li_n) s.(li_dest) s.(li_src) s.(li_immr) s.(li_imms))
  | MovWideImm s => MovWideImm (mkWide (wide_size s.(wi_size)) s.(wi_opcode) s.(wi_hw) s.(wi_dest) s.(wi_imm16))
  | _ => i
  end.

(** ** Layouts *)

(** A word as variables of [k] bits at bit [p], and constants. *)
Inductive part := Var (p k x : Z) | Const (c : Z).
Definition part_word (q : part) : Z :=
  match q with Var p k x => if p =? 0 then low k x else shl (low k x) p | Const c => c end.
Definition layout_word (l : list part) : Z := parts (part_word <$> l).

Definition apart (lo n : Z) (q : part) : bool :=
  match q with
  | Var p k x => (lo + n <=? p) || (p + k <=? lo)
  | Const c => field lo n c =? 0
  end.
(** The field of a layout, if the layout alone says which part it is. *)
Fixpoint pick (lo n : Z) (l : list part) : option Z :=
  match l with
  | [] => Some 0
  | q :: l =>
      if apart lo n q then pick lo n l
      else if forallb (apart lo n) l then
        match q with
        | Var p k x => if (p =? lo) && (k =? n) && (p + k <=? 32) then Some (low k x) else None
        | Const c => Some (field lo n c)
        end
      else None
  end.
Definition layout_ok (l : list part) : bool :=
  forallb (fun q => match q with Var p k _ => (0 <=? p) && (0 <=? k) && (p + k <=? 32) | Const c => (0 <=? c) && (c <? 2 ^ 32) end) l.

Lemma layout_cons (q : part) (l : list part) : layout_word (q :: l) = Z.lor (part_word q) (layout_word l).
Proof. done. Qed.

Lemma field_lor (lo n a b : Z) : 0 <= n -> field lo n (Z.lor a b) = Z.lor (field lo n a) (field lo n b).
Proof. intros Hn. unfold field. rewrite Z.shiftr_lor, Z.land_lor_distr_l. done. Qed.

Lemma field_bit (lo n w i : Z) : 0 <= lo -> 0 <= n -> 0 <= i -> Z.testbit (field lo n w) i = Z.testbit w (i + lo) && (i <? n).
Proof.
  intros ? ? ?. unfold field. rewrite Z.land_spec, Z.shiftr_spec, Z.testbit_ones_nonneg by lia. done.
Qed.
Lemma low_bit (n x i : Z) : 0 <= n -> 0 <= i -> Z.testbit (low n x) i = Z.testbit x i && (i <? n).
Proof. intros ? ?. unfold low. rewrite Z.land_spec, Z.testbit_ones_nonneg by lia. done. Qed.
Lemma shl_bit (x n i : Z) : 0 <= n -> 0 <= i -> Z.testbit (shl x n) i = Z.testbit x (i - n) && (i <? 32).
Proof.
  intros ? ?. unfold shl, as_u32, uwrap. destruct (Z.ltb_spec i 32).
  - rewrite Z.mod_pow2_bits_low, Z.shiftl_spec, andb_true_r by lia. done.
  - rewrite Z.mod_pow2_bits_high, andb_false_r by lia. done.
Qed.

Lemma part_bit (p k x i : Z) : 0 <= p -> 0 <= k -> p + k <= 32 -> 0 <= i ->
  Z.testbit (part_word (Var p k x)) i = Z.testbit x (i - p) && (0 <=? i - p) && (i - p <? k).
Proof.
  intros ? ? ? ?. cbn. destruct (Z.ltb_spec (i - p) 0); [destruct (Z.eqb_spec p 0); [lia|]|].
  - rewrite shl_bit by lia. rewrite !Z.testbit_neg_r by lia. done.
  - destruct (Z.eqb_spec p 0) as [->|]; [rewrite low_bit, Z.sub_0_r by lia; destruct (Z.leb_spec 0 i); [by rewrite andb_true_r|lia]|].
    rewrite shl_bit, low_bit by lia.
    destruct (Z.leb_spec 0 (i - p)), (Z.ltb_spec (i - p) k), (Z.ltb_spec i 32); try lia; by rewrite ?andb_true_r, ?andb_false_r.
Qed.

Lemma apart_field (lo n : Z) (q : part) : 0 <= lo -> 0 <= n -> layout_ok [q] = true -> apart lo n q = true -> field lo n (part_word q) = 0.
Proof.
  intros ? ? Hok Ha. destruct q as [p k x|c]; cbn [layout_ok forallb apart] in *; [|cbn; lia]. apply Z.bits_inj_0. intros i.
  destruct (Z.ltb_spec i 0); [by rewrite Z.testbit_neg_r|]. rewrite field_bit, part_bit by lia.
  destruct (Z.leb_spec 0 (i + lo - p)), (Z.ltb_spec (i + lo - p) k), (Z.ltb_spec i n); try lia; by rewrite ?andb_false_r.
Qed.

Lemma apart_layout (lo n : Z) (l : list part) : 0 <= lo -> 0 <= n -> layout_ok l = true -> forallb (apart lo n) l = true ->
  field lo n (layout_word l) = 0.
Proof.
  intros ? ?. induction l as [|q l IH]; intros Hok Ha; [unfold field; cbn; rewrite Z.shiftr_0_l; done|].
  rewrite layout_cons. cbn in Hok, Ha. apply andb_prop in Hok as [Hq Hok], Ha as [Hqa Ha].
  rewrite field_lor, (apart_field lo n q) by (cbn; rewrite ?Hq; done). by apply IH.
Qed.

Lemma pick_field (lo n v : Z) (l : list part) : 0 <= lo -> 0 <= n -> layout_ok l = true -> pick lo n l = Some v -> field lo n (layout_word l) = v.
Proof.
  intros Hlo Hn. induction l as [|q l IH]; intros Hok Hp; [injection Hp as <-; unfold field; cbn; rewrite Z.shiftr_0_l; done|].
  rewrite layout_cons, field_lor by done. cbn [pick] in Hp.
  pose proof Hok as Hok'. cbn in Hok. apply andb_prop in Hok as [Hq Hok]. assert (Hq1 : layout_ok [q] = true) by (cbn; by rewrite Hq).
  destruct (apart lo n q) eqn:Ea; [rewrite (apart_field lo n q) by done; apply IH; done|].
  destruct (forallb (apart lo n) l) eqn:El; [|done]. rewrite (apart_layout lo n l Hlo Hn Hok El).
  rewrite Z.lor_0_r. destruct q as [p k x|c]; [|by injection Hp as <-].
  destruct ((p =? lo) && (k =? n) && (p + k <=? 32)) eqn:E; [|done]. injection Hp as <-. assert (p = lo /\ k = n /\ p + k <= 32) as (-> & -> & Hle) by lia.
  apply Z.bits_inj'. intros i Hi. rewrite field_bit, part_bit, low_bit, Z.add_simpl_r by lia.
  destruct (Z.leb_spec 0 i), (Z.ltb_spec i n); try lia; by rewrite ?andb_true_r, ?andb_false_r.
Qed.

Lemma low_small (n x : Z) : 0 <= n -> in_u n x -> low n x = x.
Proof. intros Hn Hx. unfold low. rewrite Z.land_ones by done. by apply Z.mod_small. Qed.
Lemma low_signed (n x : Z) : 0 < n <= 32 -> in_s n x -> swrap n (low n (as_u32 x)) = x.
Proof.
  intros Hn Hx. unfold low, as_u32. rewrite Z.land_ones by lia. change (uwrap 32 x mod 2 ^ n) with (uwrap n (uwrap 32 x)).
  rewrite uwrap_uwrap by lia. rewrite swrap_uwrap by lia. apply swrap_small; [lia|done].
Qed.
Lemma low_signed' (n x : Z) : 0 < n -> in_s n x -> swrap n (low n x) = x.
Proof.
  intros Hn Hx. unfold low. rewrite Z.land_ones by lia. change (x mod 2 ^ n) with (uwrap n x).
  rewrite swrap_uwrap by lia. apply swrap_small; [lia|done].
Qed.

Lemma low_range (n x : Z) : 0 <= n -> in_u n (low n x).
Proof. intros Hn. unfold low. rewrite Z.land_ones by done. apply Z.mod_pos_bound, pow2_pos, Hn. Qed.

Lemma layout_range (l : list part) : layout_ok l = true -> in_u 32 (layout_word l).
Proof.
  induction l as [|q l IH]; [done|]. intros Hok. rewrite layout_cons. cbn [layout_ok forallb] in Hok. apply andb_prop in Hok as [Hq Hl].
  apply lor_range; [done| |by apply IH]. destruct q as [p k x|c]; cbn [part_word]; [|unfold in_u; lia].
  destruct (p =? 0) eqn:Hp; [|apply uwrap_range; lia]. apply (in_u_weaken k); [lia|apply low_range; lia].
Qed.

(** A word of 32 bits that stands for an instruction. *)
Definition encodes (w : Z) (i : ARM64Instruction) : Prop := in_u 32 w /\ decode w = Some i.

(** Reading the fields of a layout. *)
Ltac read_fields :=
  repeat match goal with
  | |- context [field ?lo ?n (layout_word ?l)] =>
      let v := eval cbv -[low] in (pick lo n l) in
      match v with Some ?v => rewrite (pick_field lo n v l) by (first [lia | reflexivity]) end
  end; cbn [Z.eqb Pos.eqb].

Lemma shifted_layout (class : Z) (s : ShiftedRegister) : shifted_word class s = layout_word
  [Var 0 5 s.(sr_dest); Var 5 5 s.(sr_src1); Var 16 5 s.(sr_src2); Var 10 6 s.(sr_imm6); Var 21 1 s.(sr_n); Const 0;
   Var 29 2 s.(sr_opcode); Const (shl class 24); Const (shl (sf s.(sr_size)) 31)].
Proof. by destruct s as [? ? ? [] ? ? ? ?]. Qed.


Ltac decode_fields :=
  unfold decode; read_fields; cbn -[layout_word low swrap];
  unfold decode_register, decode_immediate, decode_branch, decode_access, decode_operand; read_fields; cbn -[layout_word low swrap];
  unfold decode_shifted, decode_processing, decode_processing3, decode_add_sub, decode_logical, decode_wide; read_fields;
  cbn -[layout_word low swrap].

Lemma decode_shifted_word (class : Z) (s : ShiftedRegister) : class = 0xa \/ class = 0xb -> arm_ok (LogicalRegister s) ->
  encodes (shifted_word class s) (if class =? 0xa then LogicalRegister (canonical_shifted s) else AddSubRegister (canonical_shifted s)).
Proof.
  intros Hc (H1 & H2 & H3 & H4 & H5 & H6). rewrite shifted_layout. destruct s as [size op n [] d s1 s2 i6]. cbn -[layout_word shl sf] in *.
  destruct Hc as [-> | ->], size; (split; [by apply layout_range|]); decode_fields; by rewrite !low_small by done.
Qed.

Lemma processing_layout (one : bool) (s : DataProcessing) : processing_word one s = layout_word
  [Var 0 5 s.(dp_dest); Var 5 5 s.(dp_src1); Var 16 5 s.(dp_src2); Var 10 6 s.(dp_opcode);
   Const (if one then shl 1 30 else 0); Const (shl 0xd6 21); Const (shl (sf s.(dp_size)) 31)].
Proof. done. Qed.

Lemma decode_processing_word (one : bool) (s : DataProcessing) : arm_ok (DataProcessing1Src s) ->
  encodes (processing_word one s) (if one then DataProcessing1Src (canonical_processing s) else DataProcessing2Src (canonical_processing s)).
Proof.
  intros (H1 & H2 & H3 & H4). rewrite processing_layout. destruct s as [size op d s1 s2 s3 o]. cbn -[layout_word shl sf] in *.
  destruct one, size; (split; [by apply layout_range|]); decode_fields; by rewrite !low_small by done.
Qed.

Lemma processing3_layout (s : DataProcessing) : processing3_word s = layout_word
  [Var 0 5 s.(dp_dest); Var 5 5 s.(dp_src1); Var 16 5 s.(dp_src2); Var 10 5 s.(dp_src3); Var 21 3 s.(dp_opcode); Var 15 1 s.(dp_o0);
   Const (shl 0x1b 24); Const (shl (sf s.(dp_size)) 31)].
Proof. done. Qed.

Lemma decode_processing3_word (s : DataProcessing) : arm_ok (DataProcessing3Src s) ->
  encodes (processing3_word s) (canonical (DataProcessing3Src s)).
Proof.
  intros (H1 & H2 & H3 & H4 & H5 & H6). rewrite processing3_layout. destruct s as [size op d s1 s2 s3 o]. cbn -[layout_word shl sf] in *.
  destruct size; (split; [by apply layout_range|]); decode_fields; by rewrite !low_small by done.
Qed.

Lemma add_sub_layout (s : AddSubImmediate) : in_u 1 s.(as_shift_mode) -> add_sub_word s = layout_word
  [Var 0 5 s.(as_dest); Var 5 5 s.(as_src); Var 10 12 s.(as_imm12); Var 22 1 s.(as_shift_mode); Var 29 1 s.(as_sets_flags);
   Var 30 1 s.(as_opcode); Const (shl 0x11 24); Const (shl (sf s.(as_size)) 31)].
Proof. intros H. unfold add_sub_word. rewrite <-(low_small 1 s.(as_shift_mode)) at 1 by done. done. Qed.

Lemma decode_add_sub_word (s : AddSubImmediate) : arm_ok (AddSubImm s) -> encodes (add_sub_word s) (canonical (AddSubImm s)).
Proof.
  intros (H1 & H2 & H3 & H4 & H5 & H6). rewrite add_sub_layout by done. destruct s as [size op f m d s1 i]. cbn -[layout_word shl sf] in *.
  destruct size; (split; [by apply layout_range|]); decode_fields; by rewrite !low_small by done.
Qed.

Lemma logical_layout (class : Z) (s : LogicalImmediate) : logical_word class s = layout_word
  [Var 0 5 s.(li_dest); Var 5 5 s.(li_src); Var 10 6 s.(li_imms); Var 16 6 s.(li_immr); Var 22 1 s.(li_n); Var 29 2 s.(li_opcode);
   Const (shl class 23); Const (shl (sf s.(li_size)) 31)].
Proof. done. Qed.

Lemma decode_logical_word (class : Z) (s : LogicalImmediate) : class = 0x24 \/ class = 0x26 -> arm_ok (LogicalImm s) ->
  encodes (logical_word class s) (if class =? 0x24 then canonical (LogicalImm s) else canonical (BitfieldImm s)).
Proof.
  intros Hc (H1 & H2 & H3 & H4 & H5 & H6). rewrite logical_layout. destruct s as [size op n d s1 r i]. cbn -[layout_word shl sf] in *.
  destruct Hc as [-> | ->], size; (split; [by apply layout_range|]); decode_fields; by rewrite !low_small by done.
Qed.

Lemma wide_layout (s : WideImmediate) : in_u 16 s.(wi_imm16) -> wide_word s = layout_word
  [Var 0 5 s.(wi_dest); Var 5 16 s.(wi_imm16); Var 21 2 s.(wi_hw); Var 29 2 s.(wi_opcode); Const (shl 0x25 23); Const (shl (sf s.(wi_size)) 31)].
Proof. intros H. unfold wide_word. rewrite <-(low_small 16 s.(wi_imm16)) at 1 by done. done. Qed.

Lemma decode_wide_word (s : WideImmediate) : arm_ok (MovWideImm s) -> encodes (wide_word s) (canonical (MovWideImm s)).
Proof.
  intros (H1 & H2 & H3 & H4). rewrite wide_layout by done. destruct s as [size op hw d i]. cbn -[layout_word shl sf] in *.
  destruct size; (split; [by apply layout_range|]); decode_fields; by rewrite !low_small by done.
Qed.

Lemma decode_cond_word (s : ConditionalBranchInsn) : arm_ok (ConditionalBranch s) -> encodes (cond_branch_word s) (ConditionalBranch s).
Proof.
  intros [H1 H2]. change (cond_branch_word s) with (layout_word [Var 0 4 s.(cb_cond); Var 5 19 (as_u32 s.(cb_imm19)); Const (shl 0x54 24)]).
  destruct s as [c i]. cbn [cb_cond cb_imm19] in *. remember (as_u32 i) as u eqn:Hu.
  split; [by apply layout_range|]. decode_fields. subst u. by rewrite low_small, low_signed.
Qed.

Lemma decode_branch_word (s : Imm26Insn) : arm_ok (BranchImm26 s) -> encodes (branch_word s) (BranchImm26 s).
Proof.
  intros [H1 H2]. change (branch_word s) with (layout_word [Var 0 26 (as_u32 s.(br_imm26)); Const (shl s.(br_opcode) 26)]).
  destruct s as [o i]. cbn [br_opcode br_imm26] in *. remember (as_u32 i) as u eqn:Hu.
  destruct H1 as [-> | ->]; (split; [by apply layout_range|]); decode_fields; subst u; by rewrite low_signed.
Qed.

Lemma decode_blr_word (s : BLRInsn) : arm_ok (BLR s) -> encodes (blr_word s) (BLR s).
Proof.
  intros H. change (blr_word s) with (layout_word [Const 0xd63f0000; Var 5 5 s.(blr_target)]).
  destruct s as [t]. cbn -[layout_word shl] in *. split; [by apply layout_range|]. decode_fields. by rewrite low_small.
Qed.

Lemma layout_app (l l' : list part) : layout_word (l ++ l') = Z.lor (layout_word l) (layout_word l').
Proof. induction l as [|q l IH]; [done|]. cbn [app]. rewrite !layout_cons, IH. apply Z.lor_assoc. Qed.

Definition operand_layout (is_load : bool) (mem : ARM64MemoryOperand) : list part :=
  match mem with
  | OffsetPreIndex i => [Const (shl 3 10); Var 12 9 i; Const (shl (if is_load then 0x1c2 else 0x1c0) 21)]
  | OffsetPostIndex i => [Const (shl 1 10); Var 12 9 i; Const (shl (if is_load then 0x1c2 else 0x1c0) 21)]
  | Offset i => [Const (shl 0 10); Var 12 9 i; Const (shl (if is_load then 0x1c2 else 0x1c0) 21)]
  | OffsetScaled i => [Const (shl 0 10); Var 10 12 i; Const (shl (if is_load then 0xe5 else 0xe4) 22)]
  | OffsetIndexShift r s =>
      [Const (shl 2 10); Const (if s then shl 1 12 else 0); Const (shl 3 13); Var 16 5 r; Const (shl (if is_load then 0x1c3 else 0x1c1) 21)]
  end.

Lemma access_layout (is_load : bool) (size data base : Z) (mem : ARM64MemoryOperand) :
  parts [low 5 data; shl (low 5 base) 5; operand_word is_load mem; shl size 30] =
  layout_word ([Var 0 5 data; Var 5 5 base] ++ operand_layout is_load mem ++ [Const (shl size 30)]).
Proof.
  rewrite !layout_app. replace (layout_word (operand_layout is_load mem)) with (operand_word is_load mem) by (by destruct mem).
  unfold layout_word, parts. cbn [fmap list_fmap foldr part_word]. rewrite !Z.lor_0_r, !Z.lor_assoc. done.
Qed.

Definition size_bits (size : OperandSize) : Z := match size with S64 => 3 | S32 => 2 | S16 => 1 | _ => 0 end.

Lemma decode_access_word (is_load : bool) (s : LoadStore) : arm_ok (Load s) ->
  exists w, load_store_word is_load s = Ret w /\ encodes w (if is_load then Load s else Store s).
Proof.
  intros (H1 & H2 & H3 & H4). destruct s as [size d base mem]. cbn [ls_size ls_data ls_base ls_mem] in *.
  exists (layout_word ([Var 0 5 d; Var 5 5 base] ++ operand_layout is_load mem ++ [Const (shl (size_bits size) 30)])).
  split; [rewrite <-access_layout; by destruct size|].
  destruct mem as [i|i|i|i|r []], is_load, size; try done; cbn [operand_layout app]; cbn [operand_ok] in H4;
    (split; [by apply layout_range|]); decode_fields; rewrite ?low_signed' by done; by rewrite !low_small by done.
Qed.

Lemma arm_word_decodes (i : ARM64Instruction) : arm_ok i -> exists w, arm_word i = Ret w /\ encodes w (canonical i).
Proof.
  destruct i as [s|s|s|s|s|s|s|s|s|s|s|s|s|s|]; intros H; cbn [arm_word canonical];
    try (eexists; split; [reflexivity|]); try by apply decode_access_word.
  - apply (decode_shifted_word 0xa s); [by left|done].
  - apply (decode_shifted_word 0xb s); [by right|done].
  - by apply decode_add_sub_word.
  - by apply decode_cond_word.
  - apply (decode_logical_word 0x24 s); [by left|done].
  - apply (decode_logical_word 0x26 s); [by right|done].
  - by apply decode_wide_word.
  - by apply (decode_processing_word true).
  - by apply (decode_processing_word false).
  - by apply decode_processing3_word.
  - by apply decode_branch_word.
  - by apply decode_blr_word.
  - split; [done|]. by vm_compute.
Qed.

(** ** Instructions that the constructors stand for *)

Definition compare_named (c : Condition) : compare :=
  match c with
  | EQ => Equal | NE => NotEqual | CS => UnsignedGE | CC => UnsignedLT | HI => UnsignedGT | LS => UnsignedLE
  | GE => SignedGE | LT => SignedLT | GT => SignedGT | LE => SignedLE
  end.
Definition bytes_of (size : OperandSize) : Z := match size with S64 => 8 | S32 => 4 | S16 => 2 | S8 => 1 | S0 => 0 end.
Definition shift_of (size : OperandSize) : Z := match size with S64 => 3 | S32 => 2 | S16 => 1 | _ => 0 end.

(** The address that a memory operand of the emitter describes. *)
Inductive addresses (size : OperandSize) (base : Z) : ARM64MemoryOperand -> address -> Prop :=
  | addresses_scaled k : in_u 12 k -> addresses size base (OffsetScaled k) (AtOffset (sp base) (k * bytes_of size))
  | addresses_offset k : in_s 9 k -> addresses size base (Offset k) (AtOffset (sp base) k)
  | addresses_pre k : in_s 9 k -> addresses size base (OffsetPreIndex k) (PreIndexed (sp base) k)
  | addresses_post k : in_s 9 k -> addresses size base (OffsetPostIndex k) (PostIndexed (sp base) k)
  | addresses_index x : in_u 5 x -> addresses size base (OffsetIndexShift x false) (Indexed (sp base) (zr x) 0)
  | addresses_shifted x : in_u 5 x -> addresses size base (OffsetIndexShift x true) (Indexed (sp base) (zr x) (shift_of size)).

(** A call of a constructor, and the instruction that its name and arguments stand for.  Moves,
    negations, tests and comparisons are the forms of [orr], [orn], [ands] and [subs] that the
    architecture names so.  The calls take registers, immediates of their types, and what the
    assertions of the constructors ask for. *)
Section StandsFor.
Context (size : OperandSize).
Let w := width_of size.

Inductive stands_for : ARM64Instruction -> Asm -> Prop :=
  | for_mov s d : in_u 5 s -> in_u 5 d -> stands_for (mov size s d) (ALogic Orr false w (zr d) Zero (zr s))
  | for_mvn s d : in_u 5 s -> in_u 5 d -> stands_for (mvn size s d) (ALogic Orr true w (zr d) Zero (zr s))
  | for_orr s d : in_u 5 s -> in_u 5 d -> stands_for (orr size s d) (ALogic Orr false w (zr d) (zr d) (zr s))
  | for_eor s d : in_u 5 s -> in_u 5 d -> stands_for (eor size s d) (ALogic Eor false w (zr d) (zr d) (zr s))
  | for_tst s d : in_u 5 s -> in_u 5 d -> stands_for (tst size s d) (ALogic Ands false w Zero (zr d) (zr s))
  | for_and s1 s2 d : in_u 5 s1 -> in_u 5 s2 -> in_u 5 d -> stands_for (Arm.and size s1 s2 d) (ALogic And false w (zr d) (zr s1) (zr s2))
  | for_tst_imm s imm m : in_u 5 s -> in_u 6 imm.(bi_immr) -> in_u 6 imm.(bi_imms) -> in_u 1 imm.(bi_n) ->
      bit_mask imm.(bi_n) imm.(bi_imms) imm.(bi_immr) = Some m -> stands_for (tst_imm s imm) (ALogicImm Ands W64 Zero (zr s) m)
  | for_add s1 s2 d : in_u 5 s1 -> in_u 5 s2 -> in_u 5 d -> stands_for (add size s1 s2 d) (AAddSub false false w (zr d) (zr s1) (zr s2))
  | for_sub s1 s2 d : in_u 5 s1 -> in_u 5 s2 -> in_u 5 d -> stands_for (sub size s1 s2 d) (AAddSub true false w (zr d) (zr s1) (zr s2))
  | for_cmp s d : in_u 5 s -> in_u 5 d -> stands_for (cmp size s d) (AAddSub true true w Zero (zr d) (zr s))
  | for_add_imm s k d i : in_u 5 s -> in_u 16 k -> in_u 5 d -> add_imm size s k d = Ret i -> stands_for i (AAddSubImm false false w (sp d) (sp s) k)
  | for_sub_imm s k d i : in_u 5 s -> in_u 16 k -> in_u 5 d -> sub_imm size s k d = Ret i -> stands_for i (AAddSubImm true false w (sp d) (sp s) k)
  | for_cmp_imm s k i : in_u 5 s -> in_u 16 k -> cmp_imm size s k = Ret i -> stands_for i (AAddSubImm true true w Zero (sp s) k)
  | for_lsl_reg s n d : in_u 5 s -> in_u 5 n -> in_u 5 d -> stands_for (lsl_reg size s n d) (ATwo LeftByRegister w (zr d) (zr s) (zr n))
  | for_lsr_reg s n d : in_u 5 s -> in_u 5 n -> in_u 5 d -> stands_for (lsr_reg size s n d) (ATwo RightByRegister w (zr d) (zr s) (zr n))
  | for_asr_reg s n d : in_u 5 s -> in_u 5 n -> in_u 5 d -> stands_for (asr_reg size s n d) (ATwo ArithmeticByRegister w (zr d) (zr s) (zr n))
  | for_udiv s1 s2 d : in_u 5 s1 -> in_u 5 s2 -> in_u 5 d -> stands_for (udiv size s1 s2 d) (ATwo UnsignedDivide w (zr d) (zr s1) (zr s2))
  | for_sdiv s1 s2 d : in_u 5 s1 -> in_u 5 s2 -> in_u 5 d -> stands_for (sdiv size s1 s2 d) (ATwo SignedDivide w (zr d) (zr s1) (zr s2))
  | for_madd s1 s2 s3 d : in_u 5 s1 -> in_u 5 s2 -> in_u 5 s3 -> in_u 5 d ->
      stands_for (madd size s1 s2 s3 d) (AMultiply false w (zr d) (zr s1) (zr s2) (zr s3))
  | for_msub s1 s2 s3 d : in_u 5 s1 -> in_u 5 s2 -> in_u 5 s3 -> in_u 5 d ->
      stands_for (msub size s1 s2 s3 d) (AMultiply true w (zr d) (zr s1) (zr s2) (zr s3))
  | for_lsl_imm s n d i : in_u 5 s -> in_u 8 n -> in_u 5 d -> lsl_imm s n d = Ret i -> stands_for i (ABits ShiftLeft W64 (zr d) (zr s) n)
  | for_lsr_imm s n d i : in_u 5 s -> in_u 8 n -> in_u 5 d -> lsr_imm s n d = Ret i -> stands_for i (ABits ShiftRight W64 (zr d) (zr s) n)
  | for_zero_extend s d i : in_u 5 s -> in_u 5 d -> size ≠ S32 -> zero_extend_to_u64 size s d = Ret i ->
      stands_for i (ABits (ZeroExtend (8 * bytes_of size)) W32 (zr d) (zr s) 0)
  | for_zero_extend_32 s d i : in_u 5 s -> in_u 5 d -> zero_extend_to_u64 S32 s d = Ret i -> stands_for i (ALogic Orr false W32 (zr d) Zero (zr s))
  | for_sign_extend s d i : in_u 5 s -> in_u 5 d -> sign_extend_to_i64 size s d = Ret i ->
      stands_for i (ABits (SignExtend (8 * bytes_of size)) W64 (zr d) (zr s) 0)
  | for_rev s d i : in_u 5 s -> in_u 5 d -> rev size s d = Ret i -> stands_for i (AReverseBytes w (bytes_of size) (zr d) (zr s))
  | for_movk d hw k i : in_u 5 d -> in_u 8 hw -> in_u 16 k -> movk d hw k = Ret i -> stands_for i (AMoveKeep W64 (zr d) k (16 * hw))
  | for_movn d hw k i : in_u 5 d -> in_u 8 hw -> in_u 16 k -> movn d hw k = Ret i -> stands_for i (AMoveNot W64 (zr d) k (16 * hw))
  | for_b_cond c k : in_s 19 k -> stands_for (b_cond c k) (ABranchIf (compare_named c) (4 * k))
  | for_b k : in_s 26 k -> stands_for (b k) (ABranch false (4 * k))
  | for_bl k : in_s 26 k -> stands_for (bl k) (ABranch true (4 * k))
  | for_blr t : in_u 5 t -> stands_for (blr t) (ABranchLinkReg (zr t))
  | for_ret : stands_for ret (AReturn (Reg LR))
  | for_load base mem d a i : in_u 5 base -> in_u 5 d -> addresses size base mem a -> load size base mem d = Ret i -> stands_for i (ALoad (bytes_of size) (zr d) a)
  | for_store base mem d a i : in_u 5 base -> in_u 5 d -> addresses size base mem a -> store size d base mem = Ret i -> stands_for i (AStore (bytes_of size) (zr d) a)
  | for_push r i : in_u 5 r -> push64 r = Ret i -> stands_for i (AStore 8 (zr r) (PreIndexed StackPointer (-16)))
  | for_pop r i : in_u 5 r -> pop64 r = Ret i -> stands_for i (ALoad 8 (zr r) (PostIndexed StackPointer 16)).
End StandsFor.

Definition named (i : ARM64Instruction) (a : Asm) : Prop := arm_ok i /\ asm_of (canonical i) = Some a.

Lemma shift_left_fields (n : Z) : 0 < n < 64 -> as_u8 (- swrap 8 n mod 64) = 64 - n.
Proof.
  intros Hn. rewrite (swrap_small 8) by (unfold in_s; lia). replace (- n mod 64) with (64 - n) by (apply (Z.mod_unique_pos _ _ (-1)); lia).
  apply uwrap_small. unfold in_u. lia.
Qed.

Lemma shift_named (s n d : Z) (i : ARM64Instruction) : in_u 5 s -> in_u 5 d ->
  (lsl_imm s n d = Ret i -> named i (ABits ShiftLeft W64 (zr d) (zr s) n)) /\
  (lsr_imm s n d = Ret i -> named i (ABits ShiftRight W64 (zr d) (zr s) n)).
Proof.
  intros Hs Hd. unfold lsl_imm, lsr_imm. destruct (Z.ltb_spec 0 n), (Z.ltb_spec n 64); try done. rewrite shift_left_fields by lia.
  split; intros E; injection E as <-; (split; [cbn; unfold in_u in *; split_and!; lia|]); cbn -[Z.sub Z.add].
  - unfold bits_of. cbn -[Z.sub Z.add]. destruct (Z.eqb_spec (63 - n) (64 - 1)); [lia|]. rewrite (proj2 (Z.eqb_eq (63 - n + 1) (64 - n))) by lia.
    cbn -[Z.sub Z.add]. do 2 f_equal. lia.
  - done.
Qed.

Lemma condition_named (c : Condition) : compare_of (condition_code c) = Some (compare_named c).
Proof. by destruct c. Qed.

Lemma address_named (size : OperandSize) (base : Z) (mem : ARM64MemoryOperand) (a : address) : size ≠ S0 ->
  addresses size base mem a -> operand_ok mem /\ address_of size base mem = a.
Proof. intros Hs [k Hk|k Hk|k Hk|k Hk|x Hx|x Hx]; split; try done; cbn; by destruct size. Qed.

Lemma access_named (size : OperandSize) (base d : Z) (mem : ARM64MemoryOperand) (a : address) (i : ARM64Instruction) :
  in_u 5 base -> in_u 5 d -> addresses size base mem a ->
  (load size base mem d = Ret i -> named i (ALoad (bytes_of size) (zr d) a)) /\
  (store size d base mem = Ret i -> named i (AStore (bytes_of size) (zr d) a)).
Proof.
  intros Hb Hd Ha. unfold load, store. destruct (bool_decide_reflect (size = S0)); [done|]. apply address_named in Ha as [Hm <-]; [|done].
  split; intros E; (destruct mem; cbn in E; try (destruct (base =? d); [done|]); cbn in E; injection E as <-;
    (split; [done|by destruct size])).
Qed.

Ltac name_it := split; [cbn; split_and!; first [done | unfold in_u in *; lia]|done].

Lemma stands_named (size : OperandSize) (i : ARM64Instruction) (a : Asm) : stands_for size i a -> named i a.
Proof.
  destruct 1 as [s d|s d|s d|s d|s d|s1 s2 d|s imm m ? ? ? ? E|s1 s2 d|s1 s2 d|s d|s k d i ? ? ? E|s k d i ? ? ? E|s k i ? ? E|s n d|s n d|s n d|s1 s2 d
    |s1 s2 d|s1 s2 s3 d|s1 s2 s3 d|s n d i ? ? ? E|s n d i ? ? ? E|s d i ? ? Hn E|s d i ? ? E|s d i ? ? E|s d i ? ? E|d hw k i ? ? ? E|d hw k i ? ? ? E
    |c k|k|k|t| |base mem d a i ? ? Ha E|base mem d a i ? ? Ha E|r i ? E|r i ? E];
    try (destruct size; name_it); try by (eapply shift_named; eauto).
  - split; [done|]. cbn. by rewrite E.
  - unfold add_imm in E. destruct (Z.ltb_spec k (2 ^ 12)); [|done]. injection E as <-. destruct size; name_it.
  - unfold sub_imm in E. destruct (Z.ltb_spec k (2 ^ 12)); [|done]. injection E as <-. destruct size; name_it.
  - unfold cmp_imm in E. destruct (Z.ltb_spec k (2 ^ 12)); [|done]. injection E as <-. destruct size; name_it.
  - destruct size; try done; injection E as <-; name_it.
  - injection E as <-. name_it.
  - destruct size; try done; injection E as <-; name_it.
  - destruct size; try done; injection E as <-; name_it.
  - unfold movk in E. destruct (Z.leb_spec 0 hw), (Z.ltb_spec hw 4); try done. injection E as <-. name_it.
  - unfold movn in E. destruct (Z.leb_spec 0 hw), (Z.ltb_spec hw 4); try done. injection E as <-. name_it.
  - split; [by destruct c|]. cbn. by rewrite condition_named.
  - by split.
  - by apply (access_named size base d mem).
  - by apply (access_named size base d mem).
  - unfold push64, SP_XZR in E. destruct (Z.eqb_spec 31 r); [done|]. injection E as <-. name_it.
  - unfold pop64, SP_XZR in E. destruct (Z.eqb_spec 31 r); [done|]. injection E as <-. name_it.
Qed.

(** * Properties *)


#[local] Existing Instance no_rand.

Definition empty_jit : JitCompiler := {| jit_page_size := 4096; jit_pc_ptr := 0; jit_text_ptr := 0; jit_text_len := 64; jit_code := [];
  jit_pc_section := []; text_section_jumps := []; anchors := []; jit_pc := 0; last_instruction_meter_validation_pc := 0;
  next_noop_insertion := 0; noop_range := 0; runtime_environment_key := 0; immediate_value_key := 0; diversification_rng := tt;
  stopwatch_is_active := false |}.


(** [tst x0, #1] *)
Example one_mask : bit_mask ONE.(bi_n) ONE.(bi_imms) ONE.(bi_immr) = Some 1.
Proof. vm_compute. reflexivity. Qed.

(** [mov x1, x2; b -1; b.hs 4; str x0, [sp, #-16]!; ldr x0, [sp], #16; blr x9; ret] *)
Example arm_words : arm_word <$> [mov S64 X2 X1; b (-1); b_cond HS 4; Store (mkLoadStore S64 X0 SP_XZR (OffsetPreIndex (-16)));
    Load (mkLoadStore S64 X0 SP_XZR (OffsetPostIndex 16)); blr X9; ret] = Ret <$>
  [0xaa0203e1; 0x17ffffff; 0x54000082; 0xf81f0fe0; 0xf84107e0; 0xd63f0120; 0xd65f03c0].
Proof. vm_compute. reflexivity. Qed.
End ArmDecode.
