(* ===== verification/Execution.v ===== *)
(** Properties of executing programs: verified programs run safely and stop, calls
    and returns keep the caller's registers, wide arithmetic is exact. *)
From S2P Require Import Prelude.
From S2P Require Import Error.
From S2P Require Import Ebpf.
From S2P Require Import Program.
From S2P Require Import Verifier.
From S2P Require Import MemoryRegion.
From S2P Require Import MemoryMapping.
From S2P Require Import MappingSearch.
From S2P Require Import MappingAccess.
From S2P Require Import Executable.
From S2P Require Import Vm.
From S2P Require Import Interpreter.
From S2P Require Import InterpreterSafety.
Open Scope rust_scope.

(** * From text bytes to a run *)

Lemma lookup_by_name_key {T} (map : FunctionRegistry T) (name name' : list Z) (value : T) :
  lookup_by_name map name = Some (name', value) -> exists key n, lookup_by_key map key = Some (n, value).
Proof.
  unfold lookup_by_name. intros ([i [n x]] & Hf & Heq)%fmap_Some. cbn in Heq. injection Heq as -> ->.
  apply list_find_Some in Hf as (Hi & _ & _). apply list_lookup_fmap_Some in Hi as ([k e] & Heq & Hi).
  cbn in Heq. subst e. exists k, n. apply btree_entries_elem, list_elem_of_lookup. eauto.
Qed.

Lemma register_function_lookup {T} `{EqDecision T} (map map' : FunctionRegistry T) (key : Z)
    (name : list Z) (value : T) :
  register_function map key name value = Ret map' ->
  forall k n x, lookup_by_key map' k = Some (n, x) -> x = value \/ exists n', lookup_by_key map k = Some (n', x).
Proof.
  unfold register_function, lookup_by_key. destruct (map !! key) as [[n0 x0]|].
  - case_bool_decide; [|done]. intros [= <-]. eauto.
  - intros [= <-] k n x. destruct (decide (key = k)) as [->|].
    + rewrite lookup_insert_eq. intros [= <- <-]. by left.
    + rewrite lookup_insert_ne by done. eauto.
Qed.

(** The functions of a program start inside of it. *)
Definition functions_ok (functions : FunctionRegistry Z) (text : list Z) : Prop :=
  forall key name pc, lookup_by_key functions key = Some (name, pc) -> 0 <= pc <= num_insns text.

Lemma num_insns_nonneg (text : list Z) : 0 <= num_insns text.
Proof. unfold num_insns, INSN_SIZE, zlen. apply Z.div_pos; lia. Qed.

Lemma new_from_text_bytes_spec `{Hash : Murmur3} (text : list Z) (bp : BuiltinProgram)
    (version : SBPFVersion) (functions : FunctionRegistry Z) (e : Executable) :
  functions_ok functions text -> new_from_text_bytes text bp version functions = Ret e ->
  functions_ok e.(function_registry) text /\ 0 <= e.(entry_pc) <= num_insns text /\
  e.(loader) = bp /\ e.(sbpf_version) = version /\
  forall E, get_text_bytes (E := E) e = Ret (MM_BYTECODE_START, text).
Proof.
  intros Hf. unfold new_from_text_bytes. pose proof (num_insns_nonneg text).
  destruct (lookup_by_name functions entrypoint_name) as [[name pc]|] eqn:Hl; cbn [exec_bind].
  - intros [= <-]. apply lookup_by_name_key in Hl as (k & n & Hk). cbn. split_and!; try done.
    + apply Hf in Hk. lia.
    + apply Hf in Hk. lia.
    + intros E. unfold get_text_bytes. cbn. by rewrite slice_range_all.
  - unfold register_function_hashed_legacy. destruct (get_config bp) as [c| |]; cbn [exec_bind]; [|done..].
    destruct (if negb (static_syscalls version) then _ else _) as [key| |]; cbn [exec_bind]; [|done..].
    destruct (register_function functions key _ 0) as [fs| |] eqn:Hr; cbn [exec_bind]; [|done..].
    intros [= <-]. cbn. split_and!; try (done || lia).
    + intros k n pc Hk. destruct (register_function_lookup _ _ _ _ _ Hr k n pc Hk) as [->|[n' Hk']];
        [lia|by apply Hf in Hk'].
    + intros E. unfold get_text_bytes. cbn. by rewrite slice_range_all.
Qed.

Lemma vm_new_ready {E} `{Ctx : ContextObject C} (bp : BuiltinProgram) (version : SBPFVersion)
    (context : C) (mapping : MemoryMapping) (hm : HostMem) (stack_len : Z) (config : Config) self :
  Program.config bp = Some config -> config_ok config ->
  config.(enable_address_translation) = true -> mem_inv hm mapping -> 0 <= stack_len ->
  vm_new (E := E) bp version context mapping hm stack_len = Ret self ->
  vm_ready config self /\ self.(context_object) = context.
Proof.
  intros Hc Hok Ht Hm Hs. unfold vm_new, get_config. rewrite Hc. cbn [expect exec_bind]. rewrite Ht.
  set (fp := u64_saturating_add _ _).
  assert (Hfp : in_u 64 fp).
  { unfold fp, u64_saturating_add, in_u, u64_max. destruct (co_frame _ Hok).
    change MM_STACK_START with (2 ^ 33). destruct (negb _); lia. }
  destruct (regs_set (E := E) (replicate 12 0) FRAME_PTR_REG fp) as [-> Hregs]; [|done|done|].
  { split; [done|]. by apply Forall_replicate. }
  cbn [exec_bind negb]. intros [= <-]. split; [|done]. destruct (co_depth _ Hok).
  split; cbn; try done.
  - unfold zlen. rewrite length_replicate. lia.
  - apply Forall_replicate. split; [done|]. split; [|done]. by forall_list.
  - lia.
Qed.

(** * Calls *)

Definition frame_registers (regs : list Z) : list (option Z) :=
  (fun i => regs !! i) <$> [6; 7; 8; 9; 10]%nat.

Lemma index_slice_Some {E A} (l : list A) (i : Z) (a : A) :
  index_slice (E := E) l i = Ret a -> 0 <= i /\ l !! Z.to_nat i = Some a.
Proof.
  unfold index_slice. destruct (Z.ltb_spec i 0); [done|]. destruct (l !! _); cbn; [|done].
  intros [= ->]. by split.
Qed.

(** What a call pushes. *)
Lemma push_frame_pushes `{Ctx : ContextObject C} (executable : Executable) (config : Config) (pc : Z)
    (s s1 : Interpreter C) (r6 r7 r8 r9 r10 : Z) :
  frame_registers s.(reg) = Some <$> [r6; r7; r8; r9; r10] -> pc_is s pc ->
  push_frame executable config s = Ret (tt, s1) ->
  s1.(vm).(call_depth) = s.(vm).(call_depth) + 1 /\
  0 <= s.(vm).(call_depth) < zlen s.(vm).(call_frames) /\
  s1.(vm).(call_frames) = <[Z.to_nat s.(vm).(call_depth) := mkFrame [r6; r7; r8; r9] r10 (pc + 1)]>
    s.(vm).(call_frames).
Proof.
  intros [= H6 H7 H8 H9 H10] Hpc. unfold push_frame, m_bind, get_vm, lift, get_reg. cbn [exec_bind].
  destruct (index_slice (call_frames (vm s)) _) as [f| |] eqn:Hf; cbn [exec_bind]; [|done..].
  apply index_slice_Some in Hf as [Hd0 Hf]. apply lookup_lt_Some in Hf.
  rewrite (index_slice_lookup _ FIRST_SCRATCH_REG r6) by done. cbn [exec_bind].
  rewrite (index_slice_lookup _ (FIRST_SCRATCH_REG + 1) r7) by done. cbn [exec_bind].
  rewrite (index_slice_lookup _ (FIRST_SCRATCH_REG + 2) r8) by done. cbn [exec_bind].
  rewrite (index_slice_lookup _ (FIRST_SCRATCH_REG + 3) r9) by done. cbn [exec_bind].
  rewrite (index_slice_lookup _ FRAME_PTR_REG r10) by done. cbn [exec_bind].
  rewrite (index_slice_lookup _ 11 pc) by done.
  cbn [exec_bind]. unfold u64_add at 1. destruct (pc + 1 <=? u64_max); cbn [exec_bind]; [|done].
  unfold u64_add. destruct (_ <=? u64_max); cbn [exec_bind set_vm]; [|done].
  set (s0 := mkInterp _ _).
  assert (Hs0 : s0.(vm).(call_depth) = s.(vm).(call_depth) + 1 /\
    s0.(vm).(call_frames) = <[Z.to_nat s.(vm).(call_depth) := mkFrame [r6; r7; r8; r9] r10 (pc + 1)]>
      s.(vm).(call_frames)) by done.
  clearbody s0. intros Hs1.
  enough (s1.(vm) = s0.(vm)) as -> by (unfold zlen; split_and!; [apply Hs0|done|lia|apply Hs0]).
  revert Hs1. destruct (_ =? _).
  - unfold throw_error, m_bind, get_vm, get_reg, lift. cbn [exec_bind].
    destruct (index_slice _ _); cbn [exec_bind]; [|done..]. by destruct (set_index _ _ _).
  - destruct (negb _); [|by intros [= <-]]. unfold m_bind, lift.
    destruct (u64_mul _ _); cbn [exec_bind]; [|done..]. unfold set_reg.
    destruct (set_index _ _ _); cbn [exec_bind]; [|done..]. by intros [= <-].
Qed.

(** * Examples *)

(** A context that is its own meter. *)
#[export] Instance meter_context : ContextObject Z :=
  {| consume c n := u64_saturating_sub (Z.max 0 (Z.min c u64_max)) n;
     get_remaining c := Z.max 0 (Z.min c u64_max) |}.
#[export] Instance meter_context_laws : MeterLaws Z.
Proof. split; cbn; unfold in_u, u64_saturating_sub, u64_max; lia. Qed.

(** A syscall that returns 0 and touches nothing. *)
Definition nop_syscall : BuiltinFunction -> RustFunction Z :=
  fun _ E c _ _ _ _ _ mm hm => Ret (Ok 0, c, mm, hm).
#[export] Instance nop_syscall_ok (f : BuiltinFunction) : RustOk (nop_syscall f).
Proof. intros E c ? ? ? ? ? mm hm Hm _. exists (Ok 0), c, mm, hm. split_and!; [done|done|lia|done]. Qed.

Lemma default_config_ok : config_ok default_config.
Proof. split; cbn; (done || lia). Qed.

(** [add64 r0, 5; stxdw [r1 + 8], r0; exit] with r1 in the first region. *)
Definition example_text : list Z :=
  [0x18; 1; 0; 0; 0; 0; 0; 0; 0; 0; 0; 0; 1; 0; 0; 0;
   0x07; 0; 0; 0; 5; 0; 0; 0; 0x7b; 0x01; 8; 0; 0; 0; 0; 0; 0x95; 0; 0; 0; 0; 0; 0; 0].

(** * Properties *)

(** C1: Executing verified programs is safe and ends.  Take any text bytes and function
    registry, create an executable, verify it, create a machine over a mapping of
    backed regions, and execute, with metering on and any number of instructions
    on the meter: the interpreter never panics (no index out of bounds, no
    overflow, no division fault, no invalid host access), stops after at most one
    step more than the meter allows, whatever the syscalls do within their
    contract, and returns a [u64] or an error.  The reported instruction count is
    at most the initial meter and is exactly what was taken from the meter, and
    memory and registers are well-formed afterwards. *)
Theorem verified_execution_safe `{Bo : LittleEndian} `{Hash : Murmur3} `{Ctx : ContextObject C}
    `{Hlaws : !MeterLaws C} (rust_of : BuiltinFunction -> RustFunction C)
    (Hrust : forall f, RustOk (rust_of f)) (text : list Z) (bp : BuiltinProgram) (config : Config)
    (version : SBPFVersion) (functions : FunctionRegistry Z) (e : Executable) (context : C)
    (mapping : MemoryMapping) (hm : HostMem) (stack_len : Z) (self : EbpfVm C) (fuel : nat) :
  Program.config bp = Some config -> config_ok config ->
  config.(enable_address_translation) = true ->
  bytes_ok text -> slice_len_ok text -> functions_ok functions text ->
  new_from_text_bytes text bp version functions = Ret e -> executable_verify e = Ret tt ->
  mem_inv hm mapping -> 0 <= stack_len ->
  vm_new (E := EbpfError) bp version context mapping hm stack_len = Ret self ->
  get_remaining context < Z.of_nat fuel ->
  exists count result self',
    execute_program rust_of fuel e self = Ret (count, result, self') /\
    execution_ok (get_remaining context) count result self'.
Proof.
  intros Hc Hok Htr Hb Hl Hf Hnew Hver Hm Hs Hvm Hfuel.
  destruct (new_from_text_bytes_spec text bp version functions e Hf Hnew)
    as (Hfe & Hentry & Hld & Hsv & Htext).
  destruct (vm_new_ready bp version context mapping hm stack_len config self Hc Hok Htr Hm Hs Hvm)
    as [Hready Hctx].
  unfold executable_verify in Hver. rewrite Htext in Hver. cbn [exec_bind] in Hver.
  unfold executable_config, get_config in Hver. rewrite Hld, Hc in Hver. cbn [expect exec_bind] in Hver.
  pose proof (verify_decides text (sbpf_version e) Hb Hl) as Hd.
  destruct (verify text (sbpf_version e)) as [[]| |]; cbn in Hver, Hd; [|done..].
  assert (Hv : verified e text config).
  { split; try done; [by rewrite Hld|]. intros k name pc Hk. by apply Hfe in Hk as [? _]. }
  rewrite <-Hctx in *.
  apply (execute_program_spec rust_of e text MM_BYTECODE_START config Hv fuel self); done.
Qed.

Lemma verified_execution_safe_witness : exists e self count result self',
  new_from_text_bytes (Hash := sum_hash) example_text new_mock V4 ∅ = Ret e /\
  execute_program (Bo := le_reference) nop_syscall 11 e self = Ret (count, result, self') /\
  result = SOk 5 /\ count = 4 /\ execution_ok 10 count result self'.
Proof.
  destruct (new_from_text_bytes (Hash := sum_hash) example_text new_mock V4 ∅) as [e|?|?] eqn:He;
    [|exfalso; vm_compute in He; congruence..].
  destruct (vm_new (E := EbpfError) new_mock V4 10 example_mapping (zero_memory 0x1000 16) 4096)
    as [self|?|?] eqn:Hs; [|exfalso; vm_compute in Hs; congruence..].
  destruct (verified_execution_safe (Bo := le_reference) (Hash := sum_hash) nop_syscall nop_syscall_ok
    example_text new_mock default_config V4 ∅ e 10 example_mapping (zero_memory 0x1000 16) 4096 self 11)
    as (count & result & self' & Hrun & Hok).
  - reflexivity.
  - exact default_config_ok.
  - reflexivity.
  - apply (bool_decide_unpack _); vm_compute; reflexivity.
  - vm_compute; congruence.
  - intros k n pc Hk. vm_compute in Hk. congruence.
  - exact He.
  - assert (Hg : (e0 ← match new_from_text_bytes (Hash := sum_hash) example_text new_mock V4 ∅ with
        Ret e => Some e | _ => None end; Some (executable_verify (Bo := le_reference) e0)) = Some (Ret tt))
      by (vm_compute; reflexivity).
    rewrite He in Hg. cbn in Hg. injection Hg as Hg. exact Hg.
  - exact example_mem_inv.
  - lia.
  - exact Hs.
  - vm_compute. reflexivity.
  - exists e, self, count, result, self'. split; [exact eq_refl|]. split; [exact Hrun|].
    assert (Hg : match new_from_text_bytes (Hash := sum_hash) example_text new_mock V4 ∅,
        vm_new (E := EbpfError) new_mock V4 10 example_mapping (zero_memory 0x1000 16) 4096 with
        | Ret e, Ret self => match execute_program (Bo := le_reference) nop_syscall 11 e self with
            | Ret (count, result, _) => Some (count, result) | _ => None end
        | _, _ => None end = Some (4, SOk 5)) by (vm_compute; reflexivity).
    rewrite He, Hs, Hrun in Hg. injection Hg as -> ->. split; [reflexivity|]. split; [reflexivity|].
    exact Hok.
Defined.

(** C4: The verifier and the interpreter know the same instructions.  For every version
    and every opcode, the verifier's match has an arm exactly when the
    interpreter's match has one, so no accepted instruction is unsupported at run
    time and no executable instruction is rejected as unknown. *)
Theorem interpreter_verifier_opcodes `{Bo : LittleEndian} `{Ctx : ContextObject C}
    (rust_of : BuiltinFunction -> RustFunction C) (executable : Executable) (program : list Z)
    (addr : Z) (config : Config) (insn : Insn) (n pc next_pc : Z) :
  in_u 8 insn.(opc) ->
  first_arm (verify_arms program executable.(sbpf_version) n pc insn) = None <->
  first_arm (step_arms rust_of executable program addr config insn next_pc) = None.
Proof.
  intros Ho. rewrite first_arm_None, (step_guards_known rust_of _ _ (insn.(dst) =? 10) Ho).
  rewrite <-(arm_guards_class _ _ _ Ho), first_arm_first_true, arm_guards_eq.
  destruct (first_true _) as [i|] eqn:Hi; cbn [mbind option_bind]; [|done].
  apply first_true_lookup in Hi.
  rewrite <-(arm_guards_eq program _ n pc), list_lookup_fmap in Hi.
  destruct (verify_arms program _ n pc insn !! i) as [arm|] eqn:Harm; [|done].
  destruct (Forall2_lookup_l _ _ _ _ _ (arm_actions program _ n pc insn) Harm) as (c & -> & _). done.
Qed.

Lemma interpreter_verifier_opcodes_witness :
  first_arm (step_arms (Bo := le_reference) nop_syscall (version_executable V2) [] 0 default_config
    (mkInsn 0 LD_DW_IMM 0 0 0 0) 1) = None.
Proof.
  apply (interpreter_verifier_opcodes (Bo := le_reference) nop_syscall (version_executable V2) [] 0
    default_config (mkInsn 0 LD_DW_IMM 0 0 0 0) 1 0 1).
  - split; vm_compute; congruence.
  - vm_compute. reflexivity.
Defined.

(** C17: Calls and returns.  After a call has pushed a frame, whatever the callee did to
    the registers, the memory and the rest of the machine, an [exit] at the same
    call depth with the frames intact goes to the instruction behind the call,
    gives the caller its r6 to r9 and its frame pointer back, keeps the callee's r0
    to r5 (the result), and leaves the call depth as before the call. *)
Theorem call_return `{Ctx : ContextObject C} (executable : Executable) (program : list Z)
    (config : Config) (pc : Z) (s s1 : Interpreter C) (vm2 : EbpfVm C) (reg2 : list Z) :
  length s.(reg) = 12%nat -> pc_is s pc -> 0 <= s.(vm).(call_depth) ->
  push_frame executable config s = Ret (tt, s1) ->
  vm2.(call_depth) = s1.(vm).(call_depth) -> vm2.(call_frames) = s1.(vm).(call_frames) ->
  length reg2 = 12%nat -> is_pc_in_program program (pc + 1) = true ->
  exists reg3, step_exit program config (mkInterp vm2 reg2)
      = Ret (pc + 1, mkInterp (with_call_depth vm2 s.(vm).(call_depth)) reg3) /\
    frame_registers reg3 = frame_registers s.(reg) /\
    (forall i, (i < 6)%nat -> reg3 !! i = reg2 !! i).
Proof.
  intros Hl Hpc Hd Hpush Hd2 Hf2 Hl2 Hin.
  assert (Hr : exists r6 r7 r8 r9 r10, frame_registers s.(reg) = Some <$> [r6; r7; r8; r9; r10]).
  { unfold frame_registers. destruct (reg s) as [|? regs]; [done|].
    do 11 (destruct regs as [|? regs]; [done|]). by repeat eexists. }
  destruct Hr as (r6 & r7 & r8 & r9 & r10 & Hr). rewrite Hr.
  destruct (push_frame_pushes executable config pc s s1 r6 r7 r8 r9 r10 Hr Hpc Hpush) as (Hcd & Hlt & Hfr).
  rewrite Hcd in Hd2. rewrite Hfr in Hf2. unfold step_exit, m_bind, get_vm, lift, set_vm. cbn [exec_bind vm].
  rewrite Hd2, (proj2 (Z.eqb_neq _ 0)) by lia. unfold u64_sub. rewrite (proj2 (Z.leb_le _ _)) by lia.
  cbn [exec_bind]. rewrite Hf2.
  replace (call_depth (vm s) + 1 - 1) with (call_depth (vm s)) by lia.
  rewrite (index_slice_lookup _ _ (mkFrame [r6; r7; r8; r9] r10 (pc + 1)));
    [|done|apply list_lookup_insert_eq; unfold zlen in Hlt; lia].
  cbn [exec_bind caller_saved_registers frame_pointer target_pc reg].
  destruct (@index_slice_Ret (Interpreter C) _ reg2 FRAME_PTR_REG) as (x & _ & Hx);
    [unfold zlen; by rewrite Hl2|].
  unfold set_reg, set_index. cbn [reg]. rewrite Hx. cbn [exec_bind].
  do 12 (destruct reg2 as [|? reg2]; [done|]). destruct reg2; [|done]. unfold check_pc. rewrite Hin. eexists. split; [done|]. split; [done|].
  intros i Hi. do 6 (destruct i as [|i]; [done|]). lia.
Qed.

Definition example_caller : Interpreter Z :=
  mkInterp (mkVm 0 5 5 1 (replicate 12 0) (SOk 0) Identity (replicate 64 default_frame) new_mock [] ∅)
    [0; 1; 2; 3; 4; 5; 66; 77; 88; 99; 0x200001000; 0].

Lemma call_return_witness :
  exists s1 reg3, push_frame (version_executable V3) default_config example_caller = Ret (tt, s1) /\
    step_exit (replicate 16 0) default_config (mkInterp s1.(vm) [42; 0; 0; 0; 0; 0; 1; 2; 3; 4; 5; 9])
      = Ret (1, mkInterp (with_call_depth s1.(vm) 0) reg3) /\
    frame_registers reg3 = Some <$> [66; 77; 88; 99; 0x200001000].
Proof.
  destruct (push_frame (version_executable V3) default_config example_caller) as [[[] s1]|?|?] eqn:Hp;
    [|exfalso; vm_compute in Hp; congruence..].
  destruct (call_return (version_executable V3) (replicate 16 0) default_config 0 example_caller s1
    s1.(vm) [42; 0; 0; 0; 0; 0; 1; 2; 3; 4; 5; 9]) as (reg3 & He & Hr & _).
  - reflexivity.
  - reflexivity.
  - vm_compute; congruence.
  - exact Hp.
  - reflexivity.
  - reflexivity.
  - reflexivity.
  - vm_compute. reflexivity.
  - exists s1, reg3. split; [reflexivity|]. split; [exact He|]. rewrite Hr. reflexivity.
Defined.

(** ** Arithmetic *)

(** A step whose opcode selects the arm at position [i]. *)
Lemma step_insn_arm `{Bo : LittleEndian} `{Ctx : ContextObject C}
    (rust_of : BuiltinFunction -> RustFunction C) (executable : Executable) (program : list Z)
    (addr : Z) (config : Config) (insn : Insn) (next_pc : Z) (i : nat) arm :
  first_true (step_guards rust_of executable.(sbpf_version) insn.(opc)) = Some i ->
  step_arms rust_of executable program addr config insn next_pc !! i = Some arm ->
  step_insn rust_of executable program addr config insn next_pc = arm.2 tt.
Proof.
  intros Hi Harm. unfold step_insn. rewrite first_arm_first_true, step_guards_eq, Hi.
  cbn [mbind option_bind]. by rewrite Harm.
Qed.

(** Running a register operation. *)
Lemma op2_run `{Ctx : ContextObject C} (insn : Insn) (f : Z -> Z -> Z) (s : Interpreter C) (d x next_pc : Z) :
  0 <= insn.(dst) -> 0 <= insn.(src) ->
  s.(reg) !! Z.to_nat insn.(dst) = Some d -> s.(reg) !! Z.to_nat insn.(src) = Some x ->
  m_bind (op2 insn f) (fun _ => m_ret next_pc) s
    = Ret (next_pc, mkInterp s.(vm) (<[Z.to_nat insn.(dst) := f d x]> s.(reg))).
Proof.
  intros Hd Hs Hrd Hrs. unfold op2, op2m, m_bind, get_reg, set_reg, set_index, m_ret. cbn [exec_bind].
  rewrite (index_slice_lookup _ _ d) by done. cbn [exec_bind].
  rewrite (index_slice_lookup _ _ x) by done. cbn [exec_bind].
  by rewrite (index_slice_lookup _ _ d) by done.
Qed.

Lemma step_op2 `{Bo : LittleEndian} `{Ctx : ContextObject C}
    (rust_of : BuiltinFunction -> RustFunction C) (executable : Executable) (program : list Z)
    (addr : Z) (config : Config) (insn : Insn) (next_pc : Z) (s : Interpreter C) (i : nat)
    (f : Z -> Z -> Z) (d x : Z) :
  first_true (step_guards rust_of executable.(sbpf_version) insn.(opc)) = Some i ->
  snd <$> step_arms rust_of executable program addr config insn next_pc !! i
    = Some (fun _ => m_bind (op2 insn f) (fun _ => m_ret next_pc)) ->
  0 <= insn.(dst) -> 0 <= insn.(src) ->
  s.(reg) !! Z.to_nat insn.(dst) = Some d -> s.(reg) !! Z.to_nat insn.(src) = Some x ->
  step_insn rust_of executable program addr config insn next_pc s
    = Ret (next_pc, mkInterp s.(vm) (<[Z.to_nat insn.(dst) := f d x]> s.(reg))).
Proof.
  intros Hi ([g body] & Harm & Hbody)%fmap_Some. cbn in Hbody. subst body. intros.
  rewrite (step_insn_arm rust_of executable program addr config insn next_pc i _ Hi Harm).
  by apply op2_run.
Qed.

Lemma wide_unsigned (d x : Z) : in_u 64 d -> in_u 64 x ->
  let hi := as_u64 (wrapping_shr 128 (as_u128 (as_u128 d * as_u128 x)) 64) in
  d * x = hi * 2 ^ 64 + as_u64 (d * x).
Proof.
  intros Hd Hx hi. unfold hi, as_u128, wrapping_shr.
  rewrite (uwrap_small 128 d), (uwrap_small 128 x) by (apply (in_u_weaken 64); [lia|done]).
  unfold in_u in *. rewrite (uwrap_small 128) by (unfold in_u; nia).
  change (64 mod 128) with 64. rewrite Z.shiftr_div_pow2 by lia.
  unfold as_u64. rewrite (uwrap_small 64 (d * x / 2 ^ 64)).
  - unfold uwrap. rewrite (Z.mul_comm (d * x / 2 ^ 64)). apply Z.div_mod. lia.
  - split; [apply Z.div_pos; nia|]. apply Z.div_lt_upper_bound; nia.
Qed.

Lemma wide_signed (d x : Z) :
  let shi := as_u64 (wrapping_shr 128 (as_i128 (as_i128 (as_i64 d) * as_i128 (as_i64 x))) 64) in
  as_i64 d * as_i64 x = as_i64 shi * 2 ^ 64 + as_u64 (d * x).
Proof.
  intros shi. unfold shi. pose proof (swrap_range 64 d ltac:(lia)) as Hd.
  pose proof (swrap_range 64 x ltac:(lia)) as Hx. fold (as_i64 d) in Hd. fold (as_i64 x) in Hx.
  assert (Hlo : as_u64 (d * x) = (as_i64 d * as_i64 x) mod 2 ^ 64).
  { unfold as_u64, uwrap, as_i64. rewrite Zmult_mod, (Zmult_mod (swrap 64 d)), !swrap_mod by lia. done. }
  rewrite Hlo. set (a := as_i64 d) in *. set (b := as_i64 x) in *. clearbody a b. clear Hlo shi.
  unfold as_i128. unfold in_s in *.
  rewrite (swrap_small 128 a), (swrap_small 128 b) by (unfold in_s; lia).
  rewrite (swrap_small 128 (a * b)) by (unfold in_s; nia).
  unfold wrapping_shr. change (64 mod 128) with 64. rewrite Z.shiftr_div_pow2 by lia.
  unfold as_i64, as_u64. rewrite swrap_uwrap, swrap_small.
  - rewrite (Z.mul_comm (a * b / 2 ^ 64)). apply Z.div_mod. lia.
  - lia.
  - unfold in_s. split; [apply Z.div_le_lower_bound; nia|apply Z.div_lt_upper_bound; nia].
  - lia.
Qed.

(** Wide multiplication is exact (SBPFv2).  [lmul64] and [uhmul64] give the two
    halves of the unsigned 128-bit product of the operands, and [lmul64] and
    [shmul64] those of the signed product; nothing is lost in the 128-bit
    intermediate, and only the destination register changes. *)
Lemma wide_multiplication `{Bo : LittleEndian} `{Ctx : ContextObject C}
    (rust_of : BuiltinFunction -> RustFunction C) (executable : Executable) (program : list Z)
    (addr : Z) (config : Config) (s : Interpreter C) (p dst src off imm next_pc d x : Z) :
  executable.(sbpf_version) = V2 -> 0 <= dst -> 0 <= src ->
  s.(reg) !! Z.to_nat dst = Some d -> s.(reg) !! Z.to_nat src = Some x -> in_u 64 d -> in_u 64 x ->
  let run o := step_insn rust_of executable program addr config (mkInsn p o dst src off imm) next_pc s in
  let result r := Ret (next_pc, mkInterp s.(vm) (<[Z.to_nat dst := r]> s.(reg))) in
  exists lo hi shi,
    run LMUL64_REG = result lo /\ run UHMUL64_REG = result hi /\ run SHMUL64_REG = result shi /\
    in_u 64 lo /\ in_u 64 hi /\ in_u 64 shi /\
    d * x = hi * 2 ^ 64 + lo /\ as_i64 d * as_i64 x = as_i64 shi * 2 ^ 64 + lo.
Proof.
  intros Hver Hd Hs Hrd Hrs Hd64 Hx64 run result. eexists _, _, _.
  unfold run, result. clear run result.
  split; [refine (step_op2 rust_of executable program addr config (mkInsn p LMUL64_REG dst src off imm)
    next_pc s 81 (fun d s => as_u64 (d * s)) d x _ eq_refl Hd Hs Hrd Hrs);
    rewrite Hver; vm_compute; reflexivity|].
  split; [refine (step_op2 rust_of executable program addr config (mkInsn p UHMUL64_REG dst src off imm)
    next_pc s 83 (fun d s => as_u64 (wrapping_shr 128 (as_u128 (as_u128 d * as_u128 s)) 64)) d x
    _ eq_refl Hd Hs Hrd Hrs); rewrite Hver; vm_compute; reflexivity|].
  split; [refine (step_op2 rust_of executable program addr config (mkInsn p SHMUL64_REG dst src off imm)
    next_pc s 85 (fun d s =>
      as_u64 (wrapping_shr 128 (as_i128 (as_i128 (as_i64 d) * as_i128 (as_i64 s))) 64)) d x
    _ eq_refl Hd Hs Hrd Hrs); rewrite Hver; vm_compute; reflexivity|].
  split_and!; try (by apply uwrap_range); [by apply wide_unsigned|by apply wide_signed].
Qed.

(** A step whose arm is a checked register operation. *)
Lemma step_op2m `{Bo : LittleEndian} `{Ctx : ContextObject C}
    (rust_of : BuiltinFunction -> RustFunction C) (executable : Executable) (program : list Z)
    (addr : Z) (config : Config) (insn : Insn) (next_pc : Z) (s : Interpreter C) (i : nat)
    (f : Z -> Z -> M (C := C) Z) (d x : Z) :
  first_true (step_guards rust_of executable.(sbpf_version) insn.(opc)) = Some i ->
  snd <$> step_arms rust_of executable program addr config insn next_pc !! i
    = Some (fun _ => m_bind (op2m insn f) (fun _ => m_ret next_pc)) ->
  0 <= insn.(dst) -> 0 <= insn.(src) ->
  s.(reg) !! Z.to_nat insn.(dst) = Some d -> s.(reg) !! Z.to_nat insn.(src) = Some x ->
  (forall r s', f d x s = Ret (r, s') -> s' = s) ->
  step_insn rust_of executable program addr config insn next_pc s
    = match f d x s with
      | Ret (r, _) => Ret (next_pc, mkInterp s.(vm) (<[Z.to_nat insn.(dst) := r]> s.(reg)))
      | Err s' => Err s'
      | Panic p => Panic p
      end.
Proof.
  intros Hi ([g body] & Harm & Hbody)%fmap_Some. cbn in Hbody. subst body. intros Hd Hs Hrd Hrs Hf.
  rewrite (step_insn_arm rust_of executable program addr config insn next_pc i _ Hi Harm). cbn [snd].
  unfold op2m, m_bind, get_reg, set_reg, set_index, m_ret. cbn [exec_bind].
  rewrite (index_slice_lookup _ _ d) by done. cbn [exec_bind].
  rewrite (index_slice_lookup _ _ x) by done. cbn [exec_bind].
  destruct (f d x s) as [[r s']| |]; cbn [exec_bind]; [|done..].
  rewrite (Hf r s' eq_refl). by rewrite (index_slice_lookup _ _ d) by done.
Qed.

(** A thrown error with the registers in place. *)
Lemma throw_error_result `{Ctx : ContextObject C} {A} (err : EbpfError) (s : Interpreter C) :
  length s.(reg) = 12%nat -> length s.(vm).(registers) = 12%nat ->
  exists s', throw_error (A := A) err s = Err s' /\ s'.(vm).(program_result) = SErr err /\
    s'.(reg) = s.(reg) /\ s'.(vm).(registers) !! 11%nat = s.(reg) !! 11%nat.
Proof.
  intros Hl Hv. unfold throw_error, m_bind, get_vm, get_reg, lift, set_index. cbn [exec_bind].
  destruct (@index_slice_Ret (Interpreter C) _ (reg s) 11) as (x & Hx & ->); [unfold zlen; lia|].
  cbn [exec_bind].
  destruct (@index_slice_Ret (Interpreter C) _ (registers (vm s)) 11) as (y & _ & ->); [unfold zlen; lia|].
  cbn [exec_bind set_vm return_false]. eexists. split; [done|]. cbn. split_and!; try done.
  change (reg s !! 11%nat) with (reg s !! Z.to_nat 11). rewrite Hx.
  apply (list_lookup_insert_eq _ (Z.to_nat 11)). simpl. lia.
Qed.

Lemma as_i64_zero (x : Z) : in_u 64 x -> as_i64 x = 0 <-> x = 0.
Proof.
  intros Hx. split; [|by intros ->]. intros H0.
  rewrite <-(uwrap_small 64 x Hx), <-(uwrap_swrap 64 x) by lia. fold (as_i64 x). by rewrite H0.
Qed.

(** Truncated division of 64-bit integers fits, but for the one overflow. *)
Lemma quot_rem_range (a b : Z) :
  in_s 64 a -> in_s 64 b -> b <> 0 -> (a =? - 2 ^ (64 - 1)) && (b =? -1) = false ->
  in_s 64 (Z.quot a b) /\ in_s 64 (Z.rem a b) /\ a = Z.quot a b * b + Z.rem a b /\
  Z.abs (Z.rem a b) < Z.abs b /\ 0 <= Z.rem a b * a.
Proof.
  unfold in_s. intros Ha Hb Hz Hov.
  assert (Hno : a = - 2 ^ 63 -> b <> -1).
  { intros -> ->. vm_compute in Hov. congruence. }
  pose proof (Z.quot_rem a b Hz) as Heq. pose proof (Z.rem_bound_abs a b Hz) as Habs.
  pose proof (Z.rem_sign_mul a b Hz) as Hs.
  assert (Hr : Z.abs (Z.rem a b) <= Z.abs a)
    by (rewrite <-Z.rem_abs by done; apply Z.rem_le; lia).
  assert (Hq : Z.abs (Z.quot a b) <= Z.abs a).
  { rewrite <-Z.quot_abs by done. apply Z.quot_le_upper_bound; nia. }
  set (q := Z.quot a b) in *. set (r := Z.rem a b) in *. clearbody q r.
  change (2 ^ (64 - 1)) with (2 ^ 63) in *.
  assert (q <> 2 ^ 63).
  { intros ->. destruct (Z.eq_dec b 1) as [->|]; [lia|]. destruct (Z.eq_dec b (-1)) as [->|]; [lia|].
    assert (2 <= Z.abs b) by lia. nia. }
  assert (r <> 2 ^ 63) by lia.
  split_and!; lia.
Qed.

(** The bodies of the four divisions. *)
Definition udiv64 {C} (d s : Z) : M (C := C) Z :=
  m_bind (throw_divide_by_zero (s =? 0)) (fun _ => lift (unsigned_div d s)).
Definition urem64 {C} (d s : Z) : M (C := C) Z :=
  m_bind (throw_divide_by_zero (s =? 0)) (fun _ => lift (unsigned_rem d s)).
Definition signed64 {C} (op : Z -> Z -> Z -> Exec (Interpreter C) Z) (d s : Z) : M (C := C) Z :=
  m_bind (throw_divide_by_zero (as_i64 s =? 0)) (fun _ =>
  m_bind (throw_divide_overflow 64 (as_i64 d) (as_i64 s)) (fun _ =>
  m_bind (lift (op 64 (as_i64 d) (as_i64 s))) (fun q => m_ret (as_u64 q)))).

Section Division.
Context `{Bo : LittleEndian} `{Ctx : ContextObject C}.
Context (rust_of : BuiltinFunction -> RustFunction C) (executable : Executable) (program : list Z)
  (addr : Z) (config : Config) (s : Interpreter C) (p dst src off imm next_pc d x : Z).
Context (Hver : executable.(sbpf_version) = V2) (Hd : 0 <= dst) (Hs : 0 <= src)
  (Hlen : length s.(reg) = 12%nat) (Hvlen : length s.(vm).(registers) = 12%nat)
  (Hrd : s.(reg) !! Z.to_nat dst = Some d) (Hrs : s.(reg) !! Z.to_nat src = Some x).
Let run o := step_insn rust_of executable program addr config (mkInsn p o dst src off imm) next_pc s.
Let result r : Exec (Interpreter C) (Z * Interpreter C) :=
  Ret (next_pc, mkInterp s.(vm) (<[Z.to_nat dst := r]> s.(reg))).

(** The step behaves as the body [f]. *)
Definition runs_as (o : Z) (f : Z -> Z -> M (C := C) Z) : Prop :=
  (forall r, f d x s = Ret (r, s) -> run o = result r) /\
  (forall s', f d x s = Err s' -> run o = Err s').

Lemma runs_as_arm (o : Z) (i : nat) (f : Z -> Z -> M (C := C) Z) :
  first_true (step_guards rust_of V2 o) = Some i ->
  snd <$> step_arms rust_of executable program addr config (mkInsn p o dst src off imm) next_pc !! i
    = Some (fun _ => m_bind (op2m (mkInsn p o dst src off imm) f) (fun _ => m_ret next_pc)) ->
  runs_as o f.
Proof.
  rewrite <-Hver. intros Hi Harm. split; intros r Hf; unfold run;
    rewrite (step_op2m rust_of executable program addr config (mkInsn p o dst src off imm) next_pc s i f
      d x Hi Harm Hd Hs Hrd Hrs), Hf by (intros ? ? E; rewrite Hf in E; congruence); done.
Qed.

Lemma division_bodies :
  runs_as UDIV64_REG udiv64 /\ runs_as UREM64_REG urem64 /\
  runs_as SDIV64_REG (signed64 signed_div) /\ runs_as SREM64_REG (signed64 signed_rem).
Proof.
  split_and!;
    [apply (runs_as_arm _ 89)|apply (runs_as_arm _ 93)|apply (runs_as_arm _ 97)|apply (runs_as_arm _ 101)];
    first [reflexivity | vm_compute; reflexivity].
Qed.

Definition fails_with (o : Z) (err : EbpfError) : Prop :=
  exists s', run o = Err s' /\ s'.(vm).(program_result) = SErr err /\
    s'.(vm).(registers) !! 11%nat = s.(reg) !! 11%nat.

Lemma runs_as_fails (o : Z) (f : Z -> Z -> M (C := C) Z) (err : EbpfError) :
  runs_as o f -> (forall s', throw_error (A := unit) err s = Err s' -> f d x s = Err s') ->
  fails_with o err.
Proof.
  intros [_ He] Hf. destruct (throw_error_result (A := unit) err s Hlen Hvlen) as (s' & Ht & Hpr & _ & Hpc).
  exists s'. split; [by apply He, Hf|done].
Qed.

Lemma division_zero :
  x = 0 -> Forall (fun o => fails_with o DivideByZero) [UDIV64_REG; UREM64_REG; SDIV64_REG; SREM64_REG].
Proof.
  intros Hx. destruct division_bodies as (Hud & Hur & Hsd & Hsr).
  apply Forall_cons_2; [apply (runs_as_fails _ _ _ Hud)|].
  2: apply Forall_cons_2; [apply (runs_as_fails _ _ _ Hur)|].
  3: apply Forall_cons_2; [apply (runs_as_fails _ _ _ Hsd)|].
  4: apply Forall_cons_2; [apply (runs_as_fails _ _ _ Hsr)|apply Forall_nil_2].
  all: intros s' Ht; unfold udiv64, urem64, signed64, m_bind; rewrite ?Hx;
    change (as_i64 0 =? 0) with true;
    cbn [Z.eqb throw_divide_by_zero]; by rewrite Ht.
Qed.

Lemma division_unsigned :
  in_u 64 d -> in_u 64 x -> x <> 0 ->
  exists q r, run UDIV64_REG = result q /\ run UREM64_REG = result r /\ d = q * x + r /\ 0 <= r < x.
Proof.
  unfold in_u. intros Hd64 Hx64 Hx. destruct division_bodies as ([Hud _] & [Hur _] & _).
  pose proof (Z.mod_pos_bound d x ltac:(lia)).
  exists (d / x), (d mod x). split; [apply Hud|split; [apply Hur|split; [|done]]].
  - unfold udiv64, m_bind, throw_divide_by_zero, unsigned_div. by rewrite !(proj2 (Z.eqb_neq x 0) Hx).
  - unfold urem64, m_bind, throw_divide_by_zero, unsigned_rem. by rewrite !(proj2 (Z.eqb_neq x 0) Hx).
  - rewrite (Z.mul_comm (d / x)). by apply Z.div_mod.
Qed.

Lemma division_overflow :
  as_i64 d = i64_min -> as_i64 x = -1 ->
  fails_with SDIV64_REG DivideOverflow /\ fails_with SREM64_REG DivideOverflow.
Proof.
  intros Hmin Hm1. destruct division_bodies as (_ & _ & Hsd & Hsr).
  split; [apply (runs_as_fails _ _ _ Hsd)|apply (runs_as_fails _ _ _ Hsr)]; intros s' Ht;
    unfold signed64, m_bind, throw_divide_by_zero, throw_divide_overflow; rewrite Hmin, Hm1;
    change (-1 =? 0) with false; change ((i64_min =? - 2 ^ (64 - 1)) && (-1 =? -1)) with true;
    cbn [m_ret exec_bind]; by rewrite Ht.
Qed.

Lemma division_signed :
  as_i64 x <> 0 -> ~ (as_i64 d = i64_min /\ as_i64 x = -1) ->
  exists q r, run SDIV64_REG = result (as_u64 q) /\ run SREM64_REG = result (as_u64 r) /\
    in_s 64 q /\ in_s 64 r /\ as_i64 d = q * as_i64 x + r /\ Z.abs r < Z.abs (as_i64 x) /\
    0 <= r * as_i64 d.
Proof.
  intros Hx Hno. destruct division_bodies as (_ & _ & [Hsd _] & [Hsr _]).
  exists (Z.quot (as_i64 d) (as_i64 x)), (Z.rem (as_i64 d) (as_i64 x)).
  assert (Hov : (as_i64 d =? - 2 ^ (64 - 1)) && (as_i64 x =? -1) = false).
  { destruct (Z.eqb_spec (as_i64 d) (- 2 ^ (64 - 1))), (Z.eqb_spec (as_i64 x) (-1)); try done.
    exfalso. by apply Hno. }
  assert (Hsg : forall op q, op 64 (as_i64 d) (as_i64 x) = Ret q -> signed64 op d x s = Ret (as_u64 q, s)).
  { intros op q Hq. unfold signed64, m_bind, throw_divide_by_zero, throw_divide_overflow, lift.
    rewrite (proj2 (Z.eqb_neq _ 0) Hx), Hov. cbn [m_ret exec_bind]. by rewrite Hq. }
  split; [apply Hsd, Hsg|split; [apply Hsr, Hsg|]].
  - unfold signed_div. by rewrite (proj2 (Z.eqb_neq _ 0) Hx), Hov.
  - unfold signed_rem. by rewrite (proj2 (Z.eqb_neq _ 0) Hx), Hov.
  - apply quot_rem_range; [by apply swrap_range|by apply swrap_range|done|done].
Qed.
End Division.

(** C18: Products, quotients and remainders by a register (SBPFv2).  With a zero divisor all four 64-bit divisions
    end the run with [DivideByZero], recording the program counter.  Otherwise
    [udiv64] and [urem64] give the quotient and remainder of the unsigned operands,
    and [sdiv64] and [srem64] those of the signed operands, rounded towards zero,
    with the remainder smaller than the divisor and of the dividend's sign; the
    one quotient that does not fit, the least integer by -1, ends the run with
    [DivideOverflow].  No case faults.  [lmul64] with [uhmul64], and [lmul64] with
    [shmul64], give the halves of the unsigned and the signed 128-bit product. *)
Theorem product_quotient_remainder `{Bo : LittleEndian} `{Ctx : ContextObject C}
    (rust_of : BuiltinFunction -> RustFunction C) (executable : Executable) (program : list Z)
    (addr : Z) (config : Config) (s : Interpreter C) (p dst src off imm next_pc d x : Z) :
  executable.(sbpf_version) = V2 -> 0 <= dst -> 0 <= src ->
  length s.(reg) = 12%nat -> length s.(vm).(registers) = 12%nat ->
  s.(reg) !! Z.to_nat dst = Some d -> s.(reg) !! Z.to_nat src = Some x -> in_u 64 d -> in_u 64 x ->
  let run o := step_insn rust_of executable program addr config (mkInsn p o dst src off imm) next_pc s in
  let result r := Ret (next_pc, mkInterp s.(vm) (<[Z.to_nat dst := r]> s.(reg))) in
  let fails o err := exists s', run o = Err s' /\ s'.(vm).(program_result) = SErr err /\
    s'.(vm).(registers) !! 11%nat = s.(reg) !! 11%nat in
  (x = 0 -> Forall (fun o => fails o DivideByZero) [UDIV64_REG; UREM64_REG; SDIV64_REG; SREM64_REG]) /\
  (x <> 0 ->
    (exists q r, run UDIV64_REG = result q /\ run UREM64_REG = result r /\ d = q * x + r /\ 0 <= r < x) /\
    (as_i64 d = i64_min /\ as_i64 x = -1 ->
       fails SDIV64_REG DivideOverflow /\ fails SREM64_REG DivideOverflow) /\
    (~ (as_i64 d = i64_min /\ as_i64 x = -1) ->
       exists q r, run SDIV64_REG = result (as_u64 q) /\ run SREM64_REG = result (as_u64 r) /\
         in_s 64 q /\ in_s 64 r /\ as_i64 d = q * as_i64 x + r /\ Z.abs r < Z.abs (as_i64 x) /\
         0 <= r * as_i64 d)) /\
  (exists lo hi shi,
    run LMUL64_REG = result lo /\ run UHMUL64_REG = result hi /\ run SHMUL64_REG = result shi /\
    in_u 64 lo /\ in_u 64 hi /\ in_u 64 shi /\
    d * x = hi * 2 ^ 64 + lo /\ as_i64 d * as_i64 x = as_i64 shi * 2 ^ 64 + lo).
Proof.
  intros Hver Hd Hs Hlen Hvlen Hrd Hrs Hd64 Hx64 run result fails.
  split; [|split; [intros Hx; split; [|split]|by eapply wide_multiplication]].
  - eapply division_zero; eassumption.
  - eapply division_unsigned; eassumption.
  - intros [Hmin Hm1]. eapply division_overflow; eassumption.
  - assert (Hx' : as_i64 x <> 0) by (rewrite as_i64_zero; assumption).
    intros Hno. eapply division_signed; eassumption.
Qed.

Lemma product_quotient_remainder_witness :
  exists q, step_insn (Bo := le_reference) nop_syscall (version_executable V2) [] 0 default_config
      (mkInsn 0 SDIV64_REG 0 1 0 0) 1 (mkInterp (vm example_caller) ([2 ^ 64 - 7; 2] ++ replicate 10 0))
    = Ret (1, mkInterp (vm example_caller) ([as_u64 q; 2] ++ replicate 10 0)) /\ q = -3.
Proof.
  destruct (product_quotient_remainder (Bo := le_reference) nop_syscall (version_executable V2) [] 0
    default_config (mkInterp (vm example_caller) ([2 ^ 64 - 7; 2] ++ replicate 10 0)) 0 0 1 0 0 1
    (2 ^ 64 - 7) 2) as (_ & H & _); try reflexivity; try lia.
  - split; vm_compute; congruence.
  - split; vm_compute; congruence.
  - destruct (H ltac:(lia)) as (_ & _ & Hs).
    destruct Hs as (q & r & Hq & _ & _ & _ & Heq & Habs & Hsg); [intros [Hm _]; vm_compute in Hm; congruence|].
    exists q. split; [exact Hq|].
    change (as_i64 (2 ^ 64 - 7)) with (-7) in *. change (as_i64 2) with 2 in *. lia.
Defined.
