(* ===== verification/ExecutionLimits.v ===== *)
(** Where executions fault: calls beyond the call depth on a machine that is used again
    (src/vm.rs, src/interpreter.rs), and system calls without metering. *)
From S2P Require Import Prelude Error Ebpf Program Verifier MemoryRegion MemoryMapping MappingSearch MappingAccess Executable Vm Interpreter InterpreterSafety Execution.
Open Scope rust_scope.
Open Scope list_scope.

Section Limits.
Context `{Bo : LittleEndian} `{Ctx : ContextObject C}.
Context (rust_of : BuiltinFunction -> RustFunction C).
Context (executable : Executable) (program : list Z) (program_vm_addr : Z) (config : Config).
Let v : SBPFVersion := executable.(sbpf_version).
Let step_from : Interpreter C -> Exec (Interpreter C) (Interpreter C) := step rust_of executable program program_vm_addr.

(** * Reaching an instruction *)

(** The state in which [execute_program] starts. *)
Definition start_of (self : EbpfVm C) : Interpreter C :=
  let registers := <[11%nat := executable.(entry_pc)]> self.(registers) in
  mkInterp (with_result (with_due (with_meter (with_registers self registers) (get_remaining self.(context_object))) 0) (SOk 0)) registers.

(** [k] steps that do not end the program. *)
Fixpoint after_steps (k : nat) (s : Interpreter C) : option (Interpreter C) :=
  match k with
  | O => Some s
  | S k => match step_from s with Ret s => after_steps k s | _ => None end
  end.

(** A state about to execute an instruction: the registers are there, the meter, if it is on, is
    not used up, and the program counter is in the program. *)
Record at_insn (s : Interpreter C) (pc : Z) : Prop := {
  ai_regs : length s.(reg) = 12%nat;
  ai_vm_regs : length s.(vm).(registers) = 12%nat;
  ai_due : 0 <= s.(vm).(due_insn_count) < u64_max;
  ai_meter : config.(enable_instruction_meter) = true -> s.(vm).(due_insn_count) < s.(vm).(previous_instruction_meter);
  ai_pc : pc_is s pc;
  ai_range : 0 <= pc /\ INSN_SIZE * (pc + 1) <= zlen program;
}.

(** The state in which the instruction itself is executed. *)
Definition entered (s : Interpreter C) : Interpreter C :=
  let vm := with_due s.(vm) (s.(vm).(due_insn_count) + 1) in
  mkInterp (if config.(enable_register_tracing) then with_trace vm (vm.(register_trace) ++ [s.(reg)]) else vm) s.(reg).

Hypothesis Hconfig : Program.config executable.(loader) = Some config.
Hypothesis Hlen : slice_len_ok program.

Lemma step_enters (s : Interpreter C) (pc : Z) : at_insn s pc ->
  step_from s = let! (next_pc, s) := step_insn rust_of executable program program_vm_addr config (insn_at program pc) (pc + 1) (entered s) in
                let! (_, s) := set_reg 11 next_pc s in Ret s.
Proof.
  intros [Hr Hvr Hd Hm Hpc [Hpc0 Hpc1]]. unfold slice_len_ok, i64_max, INSN_SIZE, u64_max in *.
  unfold step_from, step, step_body, m_bind, lift, get_vm, executable_config, get_config. rewrite Hconfig. cbn [expect exec_bind].
  assert (Hg : (config.(enable_instruction_meter) && (previous_instruction_meter (vm s) <=? due_insn_count (vm s))) = false).
  { destruct config.(enable_instruction_meter); [|done]. specialize (Hm eq_refl). cbn. lia. }
  rewrite Hg. cbn [m_ret exec_bind]. rewrite (u64_add_small (due_insn_count (vm s))) by lia. cbn [set_vm exec_bind].
  unfold get_reg. cbn [reg]. rewrite (index_slice_lookup _ 11 pc) by done. cbn [exec_bind].
  unfold u64_mul, u64_max, INSN_SIZE. rewrite (proj2 (Z.leb_le _ _)) by lia. cbn [exec_bind].
  rewrite (proj2 (Z.leb_gt _ _)) by lia. cbn [m_ret exec_bind]. rewrite u64_add_small by lia. cbn [exec_bind].
  rewrite get_insn_unchecked_eq by (unfold INSN_SIZE, slice_len_ok, i64_max; lia). cbn [exec_bind].
  unfold entered, insn_at. destruct config.(enable_register_tracing); cbn [m_ret exec_bind vm reg];
    destruct (step_insn _ _ _ _ _ _ _ _) as [[next s']| |]; done.
Qed.

(** A run goes through the states it reaches. *)
Lemma run_after (k fuel : nat) (s s' : Interpreter C) : after_steps k s = Some s' -> (k <= fuel)%nat ->
  run_interpreter rust_of executable program program_vm_addr fuel s = run_interpreter rust_of executable program program_vm_addr (fuel - k) s'.
Proof.
  revert fuel s. induction k as [|k IH]; intros fuel s H Hk; cbn [after_steps] in H; [injection H as <-; by rewrite Nat.sub_0_r|].
  destruct fuel as [|fuel]; [lia|]. unfold step_from in H. cbn [run_interpreter Nat.sub]. destruct (step _ _ _ _ s) as [s1| |]; [|done..].
  apply IH; [done|lia].
Qed.

(** What [execute_program] makes of the end of its run. *)
Lemma execute_reaches (k fuel : nat) (self : EbpfVm C) (s : Interpreter C) :
  get_text_bytes (E := Interpreter C) executable = Ret (program_vm_addr, program) -> length self.(registers) = 12%nat ->
  after_steps k (start_of self) = Some s -> (k < fuel)%nat ->
  (forall f, step_from s = Panic f -> execute_program rust_of fuel executable self = Panic f) /\
  (forall s', step_from s = Err s' -> exists count self',
    execute_program rust_of fuel executable self = Ret (count, s'.(vm).(program_result), self') /\ self'.(call_depth) = s'.(vm).(call_depth)).
Proof.
  intros Ht Hr Hk Hfuel. unfold execute_program, get_entrypoint_instruction_offset, set_index.
  destruct (@index_slice_Ret (Interpreter C) _ self.(registers) 11) as (x & _ & ->); [unfold zlen; lia|]. cbn [exec_bind].
  unfold executable_config, get_config. rewrite Hconfig. cbn [expect exec_bind]. rewrite Ht. cbn [exec_bind].
  match goal with |- context [run_interpreter _ _ _ _ fuel ?s0] => change s0 with (start_of self) end.
  rewrite (run_after k fuel _ s Hk) by lia. destruct (fuel - k)%nat as [|n] eqn:Hn; [lia|]. cbn [run_interpreter]. fold step_from.
  split; intros y ->; [done|]. cbn [exec_bind]. destruct config.(enable_instruction_meter); eexists _, _; done.
Qed.

(** * Calls *)

(** Instructions that call a function of the program: [callx], by a register that the verifier
    accepts, and [call], which before the third version must not name a system call. *)
Definition internal_call (insn : Insn) (pc : Z) : bool :=
  (insn.(opc) =? CALL_REG) && (0 <=? callx_operand v insn) && (callx_operand v insn <? 10) ||
  (insn.(opc) =? CALL_IMM) &&
    if static_syscalls v then (insn.(src) =? 1) && is_pc_in_program program (as_u64 (i64_saturating_add (as_i64 (pc + 1)) insn.(imm)))
    else match lookup_by_key (get_function_registry executable.(loader)) (as_u32 insn.(imm)), lookup_by_key executable.(function_registry) (as_u32 insn.(imm)) with
         | None, Some _ => true
         | _, _ => false
         end.

Lemma call_guards (insn : Insn) :
  (insn.(opc) = CALL_REG -> first_true (step_guards rust_of executable.(sbpf_version) insn.(opc)) = Some 147%nat) /\
  (insn.(opc) = CALL_IMM -> first_true (step_guards rust_of executable.(sbpf_version) insn.(opc)) = Some 148%nat).
Proof. split; intros ->; destruct (sbpf_version executable); vm_compute; reflexivity. Qed.

Lemma step_insn_calls (insn : Insn) (pc : Z) (s : Interpreter C) : length s.(reg) = 12%nat -> internal_call insn pc = true ->
  (forall f, push_frame executable config s = Panic f -> step_insn rust_of executable program program_vm_addr config insn (pc + 1) s = Panic f) /\
  (forall s', push_frame executable config s = Err s' -> step_insn rust_of executable program program_vm_addr config insn (pc + 1) s = Err s').
Proof.
  intros Hr Hc. unfold internal_call in Hc. apply orb_true_iff in Hc as [Hc|Hc].
  - apply andb_prop in Hc as [Hc H10]. apply andb_prop in Hc as [Ho%Z.eqb_eq H0].
    rewrite (step_insn_arm rust_of executable program program_vm_addr config insn (pc + 1) 147
      (insn.(opc) =? CALL_REG, fun _ => step_call_reg executable program program_vm_addr config insn)) by (first [apply call_guards; done | reflexivity]).
    assert (Hg : exists x, (if callx_uses_src_reg v then get_reg insn.(src) else if callx_uses_dst_reg v then get_reg insn.(dst) else get_reg (as_u64 insn.(imm))) s = Ret (x, s)).
    { assert (Hx : exists i, (if callx_uses_src_reg v then get_reg (C := C) insn.(src) else if callx_uses_dst_reg v then get_reg insn.(dst) else get_reg (as_u64 insn.(imm))) = get_reg i /\ 0 <= i < 10).
      { unfold callx_operand in *. destruct (callx_uses_src_reg v), (callx_uses_dst_reg v); eexists; (split; [reflexivity|]); try lia.
        unfold as_u64. rewrite uwrap_small; [lia|unfold in_u; lia]. }
      destruct Hx as (i & -> & Hi). unfold get_reg. destruct (@index_slice_Ret (Interpreter C) _ s.(reg) i) as (x & _ & ->); [unfold zlen; lia|]. by exists x. }
    destruct Hg as [x Hg]. cbn [snd]. unfold step_call_reg, m_bind. fold v. rewrite Hg. cbn [exec_bind]. split; intros ? ->; done.
  - apply andb_prop in Hc as [Ho%Z.eqb_eq Hc].
    rewrite (step_insn_arm rust_of executable program program_vm_addr config insn (pc + 1) 148
      (insn.(opc) =? CALL_IMM, fun _ => step_call_imm rust_of executable program config insn (pc + 1))) by (first [apply call_guards; done | reflexivity]).
    cbn [snd]. unfold step_call_imm, m_bind. fold v. destruct (static_syscalls v) eqn:Hst.
    + apply andb_prop in Hc as [Hs%Z.eqb_eq Hin]. rewrite Hs, Hin. cbn [negb orb Z.eqb Pos.eqb andb m_ret exec_bind]. split; intros ? ->; done.
    + cbn [negb orb]. destruct (lookup_by_key (get_function_registry (loader executable)) _); [done|]. cbn [m_ret exec_bind].
      destruct (lookup_by_key (function_registry executable) _) as [[name target]|]; [|done]. split; intros ? ->; done.
Qed.

(** At the call depth's limit. *)
Lemma push_frame_limit (s : Interpreter C) (pc : Z) : length s.(reg) = 12%nat -> length s.(vm).(registers) = 12%nat ->
  zlen s.(vm).(call_frames) = config.(max_call_depth) -> 0 <= s.(vm).(call_depth) -> config.(max_call_depth) <= u64_max ->
  pc_is s pc -> 0 <= pc < u64_max ->
  (s.(vm).(call_depth) = config.(max_call_depth) -> push_frame executable config s = Panic IndexOutOfBounds) /\
  (s.(vm).(call_depth) + 1 = config.(max_call_depth) -> exists s', push_frame executable config s = Err s' /\
    s'.(vm).(program_result) = SErr CallDepthExceeded /\ s'.(vm).(call_depth) = config.(max_call_depth)).
Proof.
  intros Hr Hvr Hf Hd Hmax Hpc Hp. unfold push_frame, m_bind, get_vm, lift. cbn [exec_bind]. split; intros Hdepth.
  - unfold index_slice. rewrite (proj2 (Z.ltb_ge _ _)), lookup_ge_None_2 by (unfold zlen in *; lia). done.
  - destruct (@index_slice_Ret (Interpreter C) _ s.(vm).(call_frames) s.(vm).(call_depth)) as (f & _ & ->); [lia|]. cbn [exec_bind]. unfold get_reg.
    assert (Hreg : forall i, 0 <= i < 12 -> exists x, index_slice (E := Interpreter C) s.(reg) i = Ret x).
    { intros i Hi. destruct (@index_slice_Ret (Interpreter C) _ s.(reg) i) as (x & _ & E); [unfold zlen; lia|]. by exists x. }
    destruct (Hreg FIRST_SCRATCH_REG ltac:(done)) as [r6 ->]. cbn [exec_bind]. destruct (Hreg (FIRST_SCRATCH_REG + 1) ltac:(done)) as [r7 ->]. cbn [exec_bind].
    destruct (Hreg (FIRST_SCRATCH_REG + 2) ltac:(done)) as [r8 ->]. cbn [exec_bind]. destruct (Hreg (FIRST_SCRATCH_REG + 3) ltac:(done)) as [r9 ->]. cbn [exec_bind].
    destruct (Hreg FRAME_PTR_REG ltac:(done)) as [fp ->]. cbn [exec_bind].
    rewrite (index_slice_lookup _ 11 pc) by done. cbn [exec_bind]. unfold u64_add at 1. rewrite (proj2 (Z.leb_le _ _)) by lia. cbn [exec_bind].
    unfold u64_add. rewrite (proj2 (Z.leb_le _ _)) by (cbn; lia). cbn [exec_bind set_vm call_depth with_frames]. rewrite Hdepth, Z.eqb_refl.
    destruct (throw_error_result (A := unit) CallDepthExceeded (mkInterp (with_call_depth (with_frames s.(vm)
      (<[Z.to_nat s.(vm).(call_depth) := mkFrame [r6; r7; r8; r9] fp (pc + 1)]> s.(vm).(call_frames))) config.(max_call_depth)) s.(reg)) Hr Hvr) as (s' & Ht & Hres & _).
    exists s'. split; [exact Ht|]. split; [done|]. unfold throw_error, m_bind, get_vm, get_reg, lift in Ht. cbn [exec_bind reg vm] in Ht.
    rewrite (index_slice_lookup _ 11 pc) in Ht by done. cbn [exec_bind] in Ht. unfold set_index in Ht.
    destruct (@index_slice_Ret (Interpreter C) _ s.(vm).(registers) 11) as (y & _ & Hy); [unfold zlen; lia|].
    cbn [registers with_call_depth with_frames] in Ht. rewrite Hy in Ht. cbn in Ht. by injection Ht as <-.
Qed.

(** * System calls *)

(** An instruction that calls a system call of the loader. *)
Definition syscall_insn (insn : Insn) : bool :=
  (insn.(opc) =? CALL_IMM) && (negb (static_syscalls v) || (insn.(src) =? 0)) &&
  match lookup_by_key (get_function_registry executable.(loader)) (as_u32 insn.(imm)) with Some _ => true | None => false end.

Lemma step_insn_syscall (insn : Insn) (next_pc : Z) (s : Interpreter C) : syscall_insn insn = true ->
  s.(vm).(previous_instruction_meter) < s.(vm).(due_insn_count) ->
  step_insn rust_of executable program program_vm_addr config insn next_pc s = Panic ArithmeticOverflow.
Proof.
  intros Hc Hlt. unfold syscall_insn in Hc. apply andb_prop in Hc as [Hc Hf]. apply andb_prop in Hc as [Ho%Z.eqb_eq Hs].
  rewrite (step_insn_arm rust_of executable program program_vm_addr config insn next_pc 148
    (insn.(opc) =? CALL_IMM, fun _ => step_call_imm rust_of executable program config insn next_pc)) by (first [apply call_guards; done | reflexivity]).
  cbn [snd]. unfold step_call_imm, m_bind. fold v. rewrite Hs. destruct (lookup_by_key _ _) as [[name f]|]; [|done].
  unfold dispatch_syscall, m_bind, get_vm, lift. cbn [exec_bind]. unfold u64_sub. by rewrite (proj2 (Z.leb_gt _ _)) by lia.
Qed.
End Limits.

(** * Properties *)

(** C39: The call depth at its limit.  Take any execution that reaches an instruction which calls a
    function of the program, on a machine with as many frames as the configuration has call depth,
    whether verified or not, metered or not.  If the depth is one below the maximum, the execution
    ends with [CallDepthExceeded], and leaves the machine with the maximal call depth.  And if the
    depth is the maximum, as when the machine is used again after that error, since
    [execute_program] does not reset it, the execution does not end with an error but panics, with
    an index out of the bounds of the frames. *)
Theorem reuse_after_call_depth_error `{Bo : LittleEndian} `{Ctx : ContextObject C} (rust_of : BuiltinFunction -> RustFunction C)
    (executable : Executable) (program : list Z) (program_vm_addr : Z) (config : Config) (k fuel : nat)
    (self : EbpfVm C) (s : Interpreter C) (pc : Z) :
  Program.config executable.(loader) = Some config -> config.(max_call_depth) <= u64_max -> slice_len_ok program ->
  get_text_bytes (E := Interpreter C) executable = Ret (program_vm_addr, program) -> length self.(registers) = 12%nat ->
  after_steps rust_of executable program program_vm_addr k (start_of executable self) = Some s -> (k < fuel)%nat ->
  at_insn program config s pc -> internal_call executable program (insn_at program pc) pc = true ->
  zlen s.(vm).(call_frames) = config.(max_call_depth) -> 0 <= s.(vm).(call_depth) ->
  (s.(vm).(call_depth) + 1 = config.(max_call_depth) -> exists count self',
    execute_program rust_of fuel executable self = Ret (count, SErr CallDepthExceeded, self') /\ self'.(call_depth) = config.(max_call_depth)) /\
  (s.(vm).(call_depth) = config.(max_call_depth) -> execute_program rust_of fuel executable self = Panic IndexOutOfBounds).
Proof.
  intros Hc Hmax Hl Ht Hr Hk Hfuel Hat Hcall Hf Hd.
  destruct (execute_reaches rust_of executable program program_vm_addr config Hc k fuel self s Ht Hr Hk Hfuel) as [Hpanic Herr].
  pose proof (step_enters rust_of executable program program_vm_addr config Hc Hl s pc Hat) as Hstep. destruct Hat as [Hr1 Hr2 _ _ Hpc [Hp0 Hp1]].
  destruct (step_insn_calls rust_of executable program program_vm_addr config (insn_at program pc) pc (entered config s) Hr1 Hcall) as [Hcp Hce].
  assert (He : length (entered config s).(vm).(registers) = 12%nat /\ zlen (entered config s).(vm).(call_frames) = config.(max_call_depth) /\
    (entered config s).(vm).(call_depth) = s.(vm).(call_depth)) by (unfold entered; by destruct config.(enable_register_tracing)).
  destruct He as (He1 & He2 & He3). unfold slice_len_ok, INSN_SIZE, i64_max in *.
  destruct (push_frame_limit executable config (entered config s) pc Hr1 He1 He2) as [Hover Hlimit]; [lia|done|done|unfold u64_max; lia|].
  rewrite He3 in *. split; intros Hdepth.
  - destruct (Hlimit Hdepth) as (s' & Hpush & Hres & Hd'). rewrite (Hce s' Hpush) in Hstep. destruct (Herr s' Hstep) as (count & self' & E & Hself).
    exists count, self'. rewrite Hres in E. by rewrite Hself.
  - apply Hpanic. rewrite Hstep. by rewrite (Hcp _ (Hover Hdepth)).
Qed.


(** ** Examples *)

#[local] Existing Instances le_reference.

(** [call -1], a function that calls itself, at most twice; and the system call 7. *)
Definition limit_config (max_depth : Z) (metered : bool) : Config :=
  {| max_call_depth := max_depth; stack_frame_size := 4096; enable_address_translation := true;
     enable_stack_frame_gaps := true; instruction_meter_checkpoint_distance := 10000;
     enable_instruction_meter := metered; enable_register_tracing := false;
     enable_symbol_and_section_labels := false; reject_broken_elfs := false;
     noop_instruction_rate := 256; sanitize_user_provided_values := true; optimize_rodata := true;
     allow_memory_region_zero := true; aligned_memory_mapping := false;
     enabled_sbpf_versions := (V0, V4) |}.
Definition limit_executable (text : list Z) (bp : BuiltinProgram) : Executable :=
  {| elf_bytes := text; sbpf_version := V3; ro_section := Owned 0 []; text_section_vaddr := MM_BYTECODE_START;
     text_section_range := (0, zlen text); entry_pc := 0; function_registry := ∅; loader := bp |}.
Definition limit_machine (frames : nat) (budget : Z) : EbpfVm Z :=
  {| call_depth := 0; context_object := budget; previous_instruction_meter := 0; due_insn_count := 0; registers := replicate 12 0;
     program_result := SOk 0; memory_mapping := Identity; call_frames := replicate frames default_frame; vm_loader := new_mock;
     register_trace := []; host_memory := ∅ |}.

Definition recursive_text : list Z := [0x85; 0x10; 0; 0; 255; 255; 255; 255; 0x95; 0; 0; 0; 0; 0; 0; 0].
Definition recursive : Executable := limit_executable recursive_text (new_loader (limit_config 2 true)).
Definition syscall_text : list Z := [0xb7; 0; 0; 0; 0; 0; 0; 0; 0x85; 0; 0; 0; 7; 0; 0; 0; 0x95; 0; 0; 0; 0; 0; 0; 0].
Definition calling : Executable :=
  limit_executable syscall_text {| Program.config := Some (limit_config 64 false); sparse_registry := {[7 := ([], 1)]} |}.

Lemma recursive_text_len : slice_len_ok recursive_text.
Proof. vm_compute. discriminate. Qed.

(** The recursion ends with the error, and running it again on the same machine panics. *)
Lemma reuse_after_call_depth_error_witness : exists count self',
  execute_program nop_syscall 11 recursive (limit_machine 2 10) = Ret (count, SErr CallDepthExceeded, self') /\
  self'.(call_depth) = 2 /\ execute_program nop_syscall 11 recursive self' = Panic IndexOutOfBounds.
Proof.
  destruct (after_steps nop_syscall recursive recursive_text MM_BYTECODE_START 1 (start_of recursive (limit_machine 2 10))) as [s|] eqn:Hs; [|discriminate Hs].
  pose proof Hs as Hs'. vm_compute in Hs'. injection Hs' as <-.
  destruct (reuse_after_call_depth_error nop_syscall recursive recursive_text MM_BYTECODE_START (limit_config 2 true) 1 11 (limit_machine 2 10) _ 0
    eq_refl ltac:(vm_compute; discriminate) recursive_text_len eq_refl eq_refl Hs ltac:(lia)) as [H _];
    [split; first [reflexivity | vm_compute; intuition congruence]|vm_compute; reflexivity|reflexivity|vm_compute; discriminate|].
  destruct (H eq_refl) as (count & self' & E & Hd). exists count, self'. split; [exact E|]. split; [exact Hd|].
  apply (reuse_after_call_depth_error nop_syscall recursive recursive_text MM_BYTECODE_START (limit_config 2 true) 0 11 self' (start_of recursive self') 0);
    [reflexivity|vm_compute; discriminate|exact recursive_text_len|reflexivity| |reflexivity|lia|..]; vm_compute in E; injection E as _ <-;
    first [reflexivity | vm_compute; discriminate | vm_compute; reflexivity | split; first [reflexivity | vm_compute; intuition congruence]].
Defined.

