(* ===== verification/JitSimulation.v ===== *)
(** Guest arithmetic and guest jumps do the same interpreted and compiled: the step of the interpreter
    (src/interpreter.rs) and the machine code of the JIT compiler (src/jit.rs), for every instruction of
    the arithmetic classes but division and the wide products, and for every jump. *)
From S2P Require Import Prelude Error Ebpf Program Executable Verifier Vm Interpreter InterpreterSafety Execution Pages.
From S2P Require Import X86 X86Decode X86Semantics Jit JitCompile JitSafety JitEmitters JitArms JitAlu JitCompare JitBranches JitCode JitCompilation.
Open Scope rust_scope.
Open Scope list_scope.
Open Scope jit_scope.

Lemma opc_in_true (o : Z) (l : list Z) : opc_in o l = true <-> o ∈ l.
Proof.
  unfold opc_in. rewrite existsb_exists. setoid_rewrite Z.eqb_eq. split.
  - intros (x & Hx & ->). by apply list_elem_of_In.
  - intros Ho. exists o. split; [by apply list_elem_of_In|done].
Qed.

Section Simulation.
Context `{Bo : LittleEndian} `{Rnd : Rand} `{Host : JitHost} `{Ctx : ContextObject C}.
Context (rust_of : BuiltinFunction -> RustFunction C) (executable : Executable) (program : list Z) (addr : Z).
Context (config : Config) (key : Z) (Hkey : in_s 64 key).
Let v : SBPFVersion := executable.(sbpf_version).
Context (insn : Insn) (Hdst : 0 <= insn.(dst)) (Hsrc : 0 <= insn.(src)) (Himm : in_s 32 insn.(imm)) (target : Z).
Context (d s : X86Register) (Hd : mapped d) (Hds : d <> REGISTER_SCRATCH) (Hs : mapped s) (Hss : s <> REGISTER_SCRATCH).

(** The interpreter's arm and the compiler's arm put the same function of the two operands in the
    destination; registers of the guest hold 64 bits. *)
Definition same (ci : M (C := C) unit) (cj : Jit unit) : Prop :=
  exists val : Z -> Z -> Z,
    (forall st x y, st.(reg) !! Z.to_nat insn.(dst) = Some x -> st.(reg) !! Z.to_nat insn.(src) = Some y ->
       in_u 64 x -> in_u 64 y -> ci st = Ret (tt, mkInterp st.(vm) (<[Z.to_nat insn.(dst) := val x y]> st.(reg)))) /\
    computes key cj d (fun m => val (m.(gpr) (reg_code d)) (m.(gpr) (reg_code s))).

Definition agrees : Prop :=
  exists ci cj, (forall next_pc, step_insn rust_of executable program addr config insn next_pc = m_bind ci (fun _ => m_ret next_pc)) /\
    compile_insn config executable program insn d s target = cj /\ same ci cj.

Lemma arms_agree (i j : nat) ci cj :
  first_true (step_guards rust_of v insn.(opc)) = Some i -> first_true (jit_guards v insn.(opc)) = Some j ->
  (forall next_pc, (fun arm => arm.2 tt) <$> step_arms rust_of executable program addr config insn next_pc !! i = Some (m_bind ci (fun _ => m_ret next_pc))) ->
  (fun arm => arm.2 tt) <$> jit_arms config executable program insn d s target !! j = Some cj -> same ci cj -> agrees.
Proof.
  intros Hi Hj Hstep ([g' body'] & Harm' & Hbody')%fmap_Some Hsame. cbn in Hbody'.
  exists ci, cj. split_and!; [| |done].
  { intros next_pc. destruct (proj1 (fmap_Some _ _ _) (Hstep next_pc)) as ([g body] & Harm & Hbody). cbn in Hbody.
    by rewrite Hbody, (step_insn_arm rust_of executable program addr config insn next_pc i _ Hi Harm). }
  unfold compile_insn. rewrite first_arm_first_true. change (fst <$> jit_arms config executable program insn d s target) with (jit_guards v insn.(opc)).
  rewrite Hj. cbn [mbind option_bind]. by rewrite Harm', Hbody'.
Qed.

(** ** How the arms of the interpreter run *)

Lemma same_op1m (f : Z -> M (C := C) Z) (g : Z -> Z) cj : (forall st x, f x st = Ret (g x, st)) ->
  computes key cj d (fun m => g (m.(gpr) (reg_code d))) -> same (op1m insn f) cj.
Proof.
  intros Hf Hc. exists (fun x _ => g x). split; [|done]. intros st x y Hx Hy Hx64 Hy64.
  unfold op1m, m_bind, get_reg, set_reg, set_index. cbn [exec_bind]. rewrite (index_slice_lookup _ _ x) by done. cbn [exec_bind].
  rewrite Hf. cbn [exec_bind]. by rewrite (index_slice_lookup _ _ x) by done.
Qed.

Lemma same_op1 (f g : Z -> Z) cj : computes key cj d (fun m => g (m.(gpr) (reg_code d))) -> (forall x, in_u 64 x -> g x = f x) -> same (op1 insn f) cj.
Proof.
  intros Hc Hv. apply (same_op1m _ f); [done|]. eapply computes_value; [exact Hc|]. intros m [Hm _]. apply Hv, Hm.
Qed.

Lemma same_op2 (f g : Z -> Z -> Z) cj : computes key cj d (fun m => g (m.(gpr) (reg_code d)) (m.(gpr) (reg_code s))) ->
  (forall x y, in_u 64 x -> in_u 64 y -> g x y = f x y) -> same (op2 insn f) cj.
Proof.
  intros Hc Hv. exists f. split.
  - intros st x y Hx Hy _ _. unfold op2, op2m, m_bind, get_reg, set_reg, set_index, m_ret. cbn [exec_bind].
    rewrite (index_slice_lookup _ _ x) by done. cbn [exec_bind]. rewrite (index_slice_lookup _ _ y) by done. cbn [exec_bind].
    by rewrite (index_slice_lookup _ _ x) by done.
  - eapply computes_value; [exact Hc|]. intros m [Hm _]. apply Hv; apply Hm.
Qed.

Lemma same_set (z : Z) cj : computes key cj d (fun _ => z) -> same (set_reg insn.(dst) z) cj.
Proof.
  intros Hc. exists (fun _ _ => z). split; [|done]. intros st x y Hx Hy _ _. unfold set_reg, set_index. cbn [exec_bind]. by rewrite (index_slice_lookup _ _ x) by done.
Qed.

Lemma same_mov (f : Z -> Z) (g : Z -> Z) cj : computes key cj d (fun m => g (m.(gpr) (reg_code s))) -> (forall y, in_u 64 y -> g y = f y) ->
  same (Interpreter.mov insn f) cj.
Proof.
  intros Hc Hv. exists (fun _ y => f y). split.
  - intros st x y Hx Hy _ _. unfold Interpreter.mov, m_bind, get_reg, set_reg, set_index. cbn [exec_bind].
    rewrite (index_slice_lookup _ _ y) by done. cbn [exec_bind]. by rewrite (index_slice_lookup _ _ x) by done.
  - eapply computes_value; [exact Hc|]. intros m [Hm _]. apply Hv; apply Hm.
Qed.

(** ** Values *)

Lemma extended_sign z z' : uwrap 32 z = uwrap 32 z' -> extended executable z = sign_extension executable (as_i32 z').
Proof.
  intros Hz. unfold extended, sign_extension, as_i32, as_u32. fold v. rewrite <-(swrap_uwrap 32 z), <-(swrap_uwrap 32 z'), Hz, uwrap_swrap, (uwrap_uwrap 32 32) by done.
  destruct (explicit_sign_extension_of_results v); [|done]. symmetry. apply uwrap_small, (in_u_weaken 32); [lia|]. by apply uwrap_range.
Qed.

Lemma signed_operands (f : Z -> Z -> Z) x y : modular f -> uwrap 32 (f x y) = uwrap 32 (f (as_i32 x) (as_i32 y)).
Proof. intros Hf. apply Hf; [done|symmetry; by apply uwrap_swrap..]. Qed.

Lemma bitwise32 (f : Z -> Z -> Z) x y : modular f -> (forall a b, in_u 32 a -> in_u 32 b -> in_u 32 (f a b)) ->
  uwrap 32 (f x y) = as_u64 (f (as_u32 x) (as_u32 y)).
Proof.
  intros Hf Hr. assert (Hu : in_u 32 (f (as_u32 x) (as_u32 y))) by (by apply Hr; apply uwrap_range).
  unfold as_u64. rewrite (uwrap_small 64) by (apply (in_u_weaken 32); [lia|done]). rewrite <-(uwrap_small 32 (f _ _) Hu).
  apply Hf; [done|symmetry; by apply uwrap_uwrap..].
Qed.

Lemma unsigned64 (f : Z -> Z -> Z) x z : modular f -> uwrap 64 (f x z) = uwrap 64 (f x (as_u64 z)).
Proof. intros Hf. apply Hf; [done|done|]. symmetry. by apply uwrap_uwrap. Qed.

Lemma bitwise64 (f : Z -> Z -> Z) x z : modular f -> (forall a b, in_u 64 a -> in_u 64 b -> in_u 64 (f a b)) -> in_u 64 x ->
  uwrap 64 (f x z) = f x (as_u64 z).
Proof. intros Hf Hr Hx. rewrite (unsigned64 f) by done. apply uwrap_small, Hr; [done|]. by apply uwrap_range. Qed.

Lemma word32 : word S32.
Proof. by left. Qed.
Lemma word64 : word S64.
Proof. by right. Qed.

(** ** Arms by their shape *)

Implicit Types f : Z -> Z -> Z.
#[local] Abbreviation X := (reg_code d).
#[local] Abbreviation Y := (reg_code s).

(** A result of 32 bits that is extended. *)
Lemma same_ext1 f cj : modular f -> computes key cj d (fun m => uwrap 32 (f (m.(gpr) X) insn.(imm))) ->
  same (op1 insn (fun x => sign_extension executable (as_i32 (f (as_i32 x) (as_i32 insn.(imm)))))) (cj ;* sign_extend executable d).
Proof.
  intros Hf Hc. apply (same_op1 _ (fun x => extended executable (f x insn.(imm)))); [by apply computes_extended|].
  intros x Hx. by apply extended_sign, signed_operands.
Qed.
Lemma same_ext2 f cj : modular f -> computes key cj d (fun m => uwrap 32 (f (m.(gpr) X) (m.(gpr) Y))) ->
  same (op2 insn (fun x y => sign_extension executable (as_i32 (f (as_i32 x) (as_i32 y))))) (cj ;* sign_extend executable d).
Proof.
  intros Hf Hc. apply (same_op2 _ (fun x y => extended executable (f x y))); [by apply computes_extended|].
  intros x y Hx Hy. by apply extended_sign, signed_operands.
Qed.

(** A result of 32 bits that is not. *)
Definition bitwise f : Prop := modular f /\ forall w a b, 0 <= w -> in_u w a -> in_u w b -> in_u w (f a b).

Lemma same_bits32 f cj : bitwise f -> computes key cj d (fun m => uwrap 32 (f (m.(gpr) X) insn.(imm))) ->
  same (op1 insn (fun x => as_u64 (f (as_u32 x) (as_u32 insn.(imm))))) cj.
Proof.
  intros [Hf Hr] Hc. apply (same_op1 _ (fun x => uwrap 32 (f x insn.(imm)))); [done|]. intros x Hx. apply bitwise32; [done|]. intros. by apply Hr.
Qed.
Lemma same_bits32_reg f cj : bitwise f -> computes key cj d (fun m => uwrap 32 (f (m.(gpr) X) (m.(gpr) Y))) ->
  same (op2 insn (fun x y => as_u64 (f (as_u32 x) (as_u32 y)))) cj.
Proof.
  intros [Hf Hr] Hc. apply (same_op2 _ (fun x y => uwrap 32 (f x y))); [done|]. intros x y Hx Hy. apply bitwise32; [done|]. intros. by apply Hr.
Qed.

(** Results of 64 bits. *)
Lemma same_wrap64 f cj : modular f -> computes key cj d (fun m => uwrap 64 (f (m.(gpr) X) insn.(imm))) ->
  same (op1 insn (fun x => as_u64 (f x (as_u64 insn.(imm))))) cj.
Proof. intros Hf Hc. apply (same_op1 _ (fun x => uwrap 64 (f x insn.(imm)))); [done|]. intros x Hx. by apply unsigned64. Qed.
Lemma same_wrap64_reg f cj : computes key cj d (fun m => uwrap 64 (f (m.(gpr) X) (m.(gpr) Y))) -> same (op2 insn (fun x y => as_u64 (f x y))) cj.
Proof. intros Hc. by apply (same_op2 _ (fun x y => uwrap 64 (f x y))). Qed.
Lemma same_bits64 f z cj : bitwise f -> computes key cj d (fun m => uwrap 64 (f (m.(gpr) X) z)) -> same (op1 insn (fun x => f x (as_u64 z))) cj.
Proof.
  intros [Hf Hr] Hc. apply (same_op1 _ (fun x => uwrap 64 (f x z))); [done|]. intros x Hx. apply bitwise64; [done| |done]. intros. by apply Hr.
Qed.
Lemma same_bits64_reg f cj : bitwise f -> computes key cj d (fun m => uwrap 64 (f (m.(gpr) X) (m.(gpr) Y))) -> same (op2 insn f) cj.
Proof. intros [_ Hr] Hc. apply (same_op2 _ (fun x y => uwrap 64 (f x y))); [done|]. intros x y Hx Hy. apply uwrap_small. by apply Hr. Qed.

(** Shifts. *)
Lemma guest_shift_range size ext z c : word size -> shift_ext ext -> in_u (size_bits size) (guest_shift size ext z c).
Proof.
  intros Hw Hx. pose proof (word_bits size Hw). unfold guest_shift. destruct Hx as [-> |[-> | ->]]; cbn [Z.eqb Pos.eqb].
  - apply uwrap_range. lia.
  - apply wrapping_shr_range; [lia|]. apply uwrap_range. lia.
  - apply uwrap_range. lia.
Qed.
Lemma same_shift size ext (g : Z -> Z -> Z) : word size -> shift_ext ext -> (forall x c, in_u 64 x -> guest_shift size ext x c = g x c) ->
  same (op1 insn (fun x => g x (as_u32 insn.(imm)))) (emit_shift size ext REGISTER_SCRATCH d (Some insn.(imm))).
Proof. intros Hw Hx Hg. apply (same_op1 _ (fun x => guest_shift size ext x (as_u32 insn.(imm)))); [by apply (computes_guest_shift_imm key d Hd size ext)|]. intros x Hx64. by apply Hg. Qed.
Lemma same_shift_reg size ext (g : Z -> Z -> Z) : word size -> shift_ext ext -> (forall x c, in_u 64 x -> guest_shift size ext x c = g x c) ->
  same (op2 insn (fun x y => g x (as_u32 y))) (emit_shift size ext s d None).
Proof.
  intros Hw Hx Hg. apply (same_op2 _ (fun x y => guest_shift size ext x (as_u32 y))); [by apply (computes_guest_shift_reg key d s)|]. intros x y Hx64 _. by apply Hg.
Qed.
End Simulation.

(** * The instructions *)

(** The arms of an opcode, by their positions. *)
Ltac guards Ho :=
  rewrite Ho; repeat match goal with H : _ = true |- _ => revert H end;
  match goal with |- context [sbpf_version ?e] => generalize (sbpf_version e) end;
  clear; intros []; intros; first [discriminate | vm_compute; reflexivity].
Ltac arms pi pj Ho := eapply arms_agree with (i := pi) (j := pj); [guards Ho|guards Ho|intros; reflexivity|reflexivity|].

Section Opcodes.
Context `{Bo : LittleEndian} `{Rnd : Rand} `{Host : JitHost} `{Ctx : ContextObject C}.
Context (rust_of : BuiltinFunction -> RustFunction C) (executable : Executable) (program : list Z) (addr : Z).
Context (config : Config) (key : Z) (Hkey : in_s 64 key).
Context (insn : Insn) (Hdst : 0 <= insn.(dst)) (Hsrc : 0 <= insn.(src)) (Himm : in_s 32 insn.(imm)) (target : Z).
Context (d s : X86Register) (Hd : mapped d) (Hds : d <> REGISTER_SCRATCH) (Hs : mapped s) (Hss : s <> REGISTER_SCRATCH).
#[local] Abbreviation insn_agrees := (agrees rust_of executable program addr config key insn target d s).


Lemma bitwise_lor : bitwise Z.lor.
Proof. split; [apply modular_lor|apply lor_range]. Qed.
Lemma bitwise_land : bitwise Z.land.
Proof. split; [apply modular_land|intros; by apply land_range]. Qed.
Lemma bitwise_lxor : bitwise Z.lxor.
Proof. split; [apply modular_lxor|apply lxor_range]. Qed.

Lemma constant_computes size opcode ext f : word size -> alu_code opcode ext f ->
  computes key (alu_imm config insn d size opcode ext) d (fun m => uwrap (size_bits size) (f (m.(gpr) (reg_code d)) insn.(imm))).
Proof. intros Hw Hc. apply computes_alu_constant; [done..|]. by apply imm_range. Qed.
Lemma register_computes size opcode ext f : word size -> alu_code opcode ext f ->
  computes key (emit_ins (alu size opcode s d None)) d (fun m => uwrap (size_bits size) (f (m.(gpr) (reg_code d)) (m.(gpr) (reg_code s)))).
Proof. intros Hw Hc. by apply (computes_alu_register key d s Hd Hs size opcode ext f). Qed.

(** ** 32 bits *)

Lemma sum32_agrees : insn.(opc) ∈ [ADD32_IMM; ADD32_REG; SUB32_REG] -> insn_agrees.
Proof.
  rewrite !elem_of_cons, elem_of_nil. intros [Ho|[Ho|[Ho|[]]]].
  - arms 13%nat 13%nat Ho. apply (same_ext1 executable key insn Hdst d s Hd Z.add), (constant_computes S32 0x01 0); [apply modular_add|apply word32|constructor].
  - arms 14%nat 14%nat Ho. apply (same_ext2 executable key insn Hdst Hsrc d s Hd Z.add), (register_computes S32 0x01 0); [apply modular_add|apply word32|constructor].
  - arms 16%nat 16%nat Ho. apply (same_ext2 executable key insn Hdst Hsrc d s Hd Z.sub), (register_computes S32 0x29 5); [apply modular_sub|apply word32|constructor].
Qed.
Lemma difference32_agrees : insn.(opc) = SUB32_IMM -> insn_agrees.
Proof.
  intros Ho. arms 15%nat 15%nat Ho.
  assert (Hc : computes key (compile_sub_imm config executable insn d S32 ;* sign_extend executable d) d (fun m => extended executable
    (if swap_sub_reg_imm_operands executable.(sbpf_version) then insn.(imm) - m.(gpr) (reg_code d) else m.(gpr) (reg_code d) - insn.(imm))))
    by (apply computes_extended, computes_sub_imm; try done; apply word32).
  cbn [snd]. destruct (swap_sub_reg_imm_operands _);
    [apply (same_op1 key insn Hdst d s _ (fun x => extended executable (insn.(imm) - x)))|apply (same_op1 key insn Hdst d s _ (fun x => extended executable (x - insn.(imm))))];
    try exact Hc; intros x Hx; apply extended_sign, (signed_operands Z.sub), modular_sub.
Qed.

Lemma product32_agrees : insn.(opc) ∈ [MUL32_IMM; MUL32_REG] -> negb (enable_pqr executable.(sbpf_version)) = true -> insn_agrees.
Proof.
  rewrite !elem_of_cons, elem_of_nil. intros [Ho|[Ho|[]]] Hv.
  - arms 17%nat 17%nat Ho. apply (same_ext1 executable key insn Hdst d s Hd Z.mul); [apply modular_mul|]. apply (computes_mul_imm config key Hkey insn Himm d Hd Hds S32), word32.
  - arms 18%nat 20%nat Ho. apply (same_ext2 executable key insn Hdst Hsrc d s Hd Z.mul); [apply modular_mul|]. apply (computes_multiply key d s Hd Hs S32), word32.
Qed.

Lemma bits32_agrees : insn.(opc) ∈ [OR32_IMM; AND32_IMM; XOR32_IMM] -> insn_agrees.
Proof.
  rewrite !elem_of_cons, elem_of_nil. intros [Ho|[Ho|[Ho|[]]]].
  - arms 23%nat 23%nat Ho. apply (same_bits32 key insn Hdst d s Z.lor _ bitwise_lor), (constant_computes S32 0x09 1); [apply word32|constructor].
  - arms 25%nat 25%nat Ho. apply (same_bits32 key insn Hdst d s Z.land _ bitwise_land), (constant_computes S32 0x21 4); [apply word32|constructor].
  - arms 36%nat 34%nat Ho. apply (same_bits32 key insn Hdst d s Z.lxor _ bitwise_lxor), (constant_computes S32 0x31 6); [apply word32|constructor].
Qed.

Lemma bits32_reg_agrees : insn.(opc) ∈ [OR32_REG; AND32_REG; XOR32_REG] -> insn_agrees.
Proof.
  rewrite !elem_of_cons, elem_of_nil. intros [Ho|[Ho|[Ho|[]]]].
  - arms 24%nat 24%nat Ho. apply (same_bits32_reg key insn Hdst Hsrc d s Z.lor _ bitwise_lor), (register_computes S32 0x09 1); [apply word32|constructor].
  - arms 26%nat 26%nat Ho. apply (same_bits32_reg key insn Hdst Hsrc d s Z.land _ bitwise_land), (register_computes S32 0x21 4); [apply word32|constructor].
  - arms 37%nat 35%nat Ho. apply (same_bits32_reg key insn Hdst Hsrc d s Z.lxor _ bitwise_lxor), (register_computes S32 0x31 6); [apply word32|constructor].
Qed.

Lemma u64_of_32 z : in_u 32 z -> z = as_u64 z.
Proof. intros Hz. symmetry. apply uwrap_small, (in_u_weaken 32); [lia|done]. Qed.

(** The shifts of the guest, as the interpreter writes them. *)
Lemma shift_left32 x c : guest_shift S32 4 x c = as_u64 (u_wrapping_shl 32 (as_u32 x) c).
Proof. apply u64_of_32, (guest_shift_range S32 4); [apply word32|by left]. Qed.
Lemma shift_right32 x c : guest_shift S32 5 x c = as_u64 (wrapping_shr 32 (as_u32 x) c).
Proof. apply u64_of_32, (guest_shift_range S32 5); [apply word32|by right; left]. Qed.
Lemma shift_arithmetic32 x c : guest_shift S32 7 x c = as_u64 (as_u32 (wrapping_shr 32 (as_i32 x) c)).
Proof. apply u64_of_32, (guest_shift_range S32 7); [apply word32|by right; right]. Qed.
Lemma shift_left64 x c : in_u 64 x -> guest_shift S64 4 x c = u_wrapping_shl 64 x c.
Proof. intros Hx. unfold guest_shift. cbn [Z.eqb Pos.eqb]. change (size_bits S64) with 64. by rewrite (uwrap_small 64 x). Qed.
Lemma shift_right64 x c : in_u 64 x -> guest_shift S64 5 x c = wrapping_shr 64 x c.
Proof. intros Hx. unfold guest_shift. cbn [Z.eqb Pos.eqb]. change (size_bits S64) with 64. by rewrite (uwrap_small 64 x). Qed.

Lemma shifts32_agree : insn.(opc) ∈ [LSH32_IMM; LSH32_REG; RSH32_IMM; RSH32_REG; ARSH32_IMM; ARSH32_REG] -> insn_agrees.
Proof.
  rewrite !elem_of_cons, elem_of_nil. intros [Ho|[Ho|[Ho|[Ho|[Ho|[Ho|[]]]]]]].
  - arms 27%nat 27%nat Ho. apply (same_shift key insn Hdst Himm d s Hd S32 4 (fun x c => as_u64 (u_wrapping_shl 32 (as_u32 x) c))); [apply word32|by left|intros; apply shift_left32].
  - arms 28%nat 28%nat Ho. apply (same_shift_reg key insn Hdst Hsrc d s Hd Hs Hss S32 4 (fun x c => as_u64 (u_wrapping_shl 32 (as_u32 x) c))); [apply word32|by left|intros; apply shift_left32].
  - arms 29%nat 29%nat Ho. apply (same_shift key insn Hdst Himm d s Hd S32 5 (fun x c => as_u64 (wrapping_shr 32 (as_u32 x) c))); [apply word32|by right; left|intros; apply shift_right32].
  - arms 30%nat 30%nat Ho. apply (same_shift_reg key insn Hdst Hsrc d s Hd Hs Hss S32 5 (fun x c => as_u64 (wrapping_shr 32 (as_u32 x) c))); [apply word32|by right; left|intros; apply shift_right32].
  - arms 40%nat 38%nat Ho. apply (same_shift key insn Hdst Himm d s Hd S32 7 (fun x c => as_u64 (as_u32 (wrapping_shr 32 (as_i32 x) c)))); [apply word32|by right; right|intros; apply shift_arithmetic32].
  - arms 41%nat 39%nat Ho. apply (same_shift_reg key insn Hdst Hsrc d s Hd Hs Hss S32 7 (fun x c => as_u64 (as_u32 (wrapping_shr 32 (as_i32 x) c)))); [apply word32|by right; right|intros; apply shift_arithmetic32].
Qed.

Lemma neg32_agrees : insn.(opc) = NEG32 -> negb (disable_neg executable.(sbpf_version)) = true -> insn_agrees.
Proof.
  intros Ho Hv. arms 31%nat 31%nat Ho. apply (same_op1 key insn Hdst d s _ (fun x => uwrap 32 (- x))); [apply (computes_negate key d Hd S32), word32|].
  intros x Hx. unfold as_i32. change (2 ^ 32 - 1) with (Z.ones 32). rewrite Z.land_ones by done. change (uwrap 32 (- x) = uwrap 32 (as_u64 (swrap 32 (- swrap 32 x)))).
  unfold as_u64. rewrite (uwrap_uwrap 32 64), uwrap_swrap by done. apply modular_opp; [done|]. symmetry. by apply uwrap_swrap.
Qed.

Lemma mov32_agrees : insn.(opc) ∈ [MOV32_IMM; MOV32_REG] -> insn_agrees.
Proof.
  rewrite !elem_of_cons, elem_of_nil. intros [Ho|[Ho|[]]].
  - arms 38%nat 36%nat Ho. apply (same_set key insn Hdst d s). rewrite <-(u64_of_32 (as_u32 insn.(imm))) by (by apply uwrap_range). by apply computes_mov32_imm.
  - arms 39%nat 37%nat Ho. eapply (same_mov key insn Hdst Hsrc d s _ (fun y => if explicit_sign_extension_of_results executable.(sbpf_version) then as_u64 (as_i32 y) else as_u32 y));
      [apply (computes_mov32_reg executable key d s Hd Hs)|].
    intros y Hy. cbn beta. destruct (explicit_sign_extension_of_results _); [|by apply u64_of_32, uwrap_range].
    f_equal. symmetry. apply swrap_small; [done|]. pose proof (swrap_range 32 y ltac:(done)). unfold in_s, as_i32 in *. lia.
Qed.

Lemma endian_agrees : insn.(imm) = 16 \/ insn.(imm) = 32 \/ insn.(imm) = 64 ->
  insn.(opc) = BE \/ insn.(opc) = LE /\ negb (disable_le executable.(sbpf_version)) = true -> insn_agrees.
Proof.
  intros Hw [Ho|[Ho Hv]].
  - arms 43%nat 41%nat Ho. apply (same_op1m key insn Hdst d s _ (be_result insn.(imm))); [|by apply computes_be].
    intros st x. unfold to_be, be_result. by destruct Hw as [-> |[-> | ->]].
  - arms 42%nat 40%nat Ho. apply (same_op1m key insn Hdst d s _ (le_result insn.(imm))); [|by apply computes_le].
    intros st x. unfold to_le, le_result. by destruct Hw as [-> |[-> | ->]].
Qed.

(** ** 64 bits *)

Lemma sum64_agrees : insn.(opc) ∈ [ADD64_IMM; ADD64_REG; SUB64_REG] -> insn_agrees.
Proof.
  rewrite !elem_of_cons, elem_of_nil. intros [Ho|[Ho|[Ho|[]]]].
  - arms 44%nat 42%nat Ho. apply (same_wrap64 key insn Hdst d s Z.add), (constant_computes S64 0x01 0); [apply modular_add|apply word64|constructor].
  - arms 45%nat 43%nat Ho. apply (same_wrap64_reg key insn Hdst Hsrc d s Z.add), (register_computes S64 0x01 0); [apply word64|constructor].
  - arms 47%nat 45%nat Ho. apply (same_wrap64_reg key insn Hdst Hsrc d s Z.sub), (register_computes S64 0x29 5); [apply word64|constructor].
Qed.

Lemma difference64_agrees : insn.(opc) = SUB64_IMM -> insn_agrees.
Proof.
  intros Ho. arms 46%nat 44%nat Ho. pose proof (computes_sub_imm config executable key Hkey insn Himm d Hd Hds S64 word64) as Hc. cbv beta in Hc.
  cbn [snd]. destruct (swap_sub_reg_imm_operands _);
    [apply (same_op1 key insn Hdst d s _ (fun x => uwrap 64 (insn.(imm) - x)))|apply (same_op1 key insn Hdst d s _ (fun x => uwrap 64 (x - insn.(imm))))];
    try exact Hc; intros x Hx; apply modular_sub; try done; symmetry; by apply uwrap_uwrap.
Qed.

Lemma product64_agrees : insn.(opc) ∈ [MUL64_IMM; MUL64_REG] -> negb (enable_pqr executable.(sbpf_version)) = true -> insn_agrees.
Proof.
  rewrite !elem_of_cons, elem_of_nil. intros [Ho|[Ho|[]]] Hv.
  - arms 48%nat 46%nat Ho. apply (same_wrap64 key insn Hdst d s Z.mul); [apply modular_mul|]. apply (computes_mul_imm config key Hkey insn Himm d Hd Hds S64), word64.
  - arms 50%nat 50%nat Ho. apply (same_wrap64_reg key insn Hdst Hsrc d s Z.mul). apply (computes_multiply key d s Hd Hs S64), word64.
Qed.

Lemma bits64_agrees : insn.(opc) ∈ [OR64_IMM; AND64_IMM; XOR64_IMM] -> insn_agrees.
Proof.
  rewrite !elem_of_cons, elem_of_nil. intros [Ho|[Ho|[Ho|[]]]].
  - arms 56%nat 54%nat Ho. apply (same_bits64 key insn Hdst d s Z.lor _ _ bitwise_lor), (constant_computes S64 0x09 1); [apply word64|constructor].
  - arms 58%nat 56%nat Ho. apply (same_bits64 key insn Hdst d s Z.land _ _ bitwise_land), (constant_computes S64 0x21 4); [apply word64|constructor].
  - arms 71%nat 67%nat Ho. apply (same_bits64 key insn Hdst d s Z.lxor _ _ bitwise_lxor), (constant_computes S64 0x31 6); [apply word64|constructor].
Qed.

Lemma bits64_reg_agrees : insn.(opc) ∈ [OR64_REG; AND64_REG; XOR64_REG] -> insn_agrees.
Proof.
  rewrite !elem_of_cons, elem_of_nil. intros [Ho|[Ho|[Ho|[]]]].
  - arms 57%nat 55%nat Ho. apply (same_bits64_reg key insn Hdst Hsrc d s Z.lor _ bitwise_lor), (register_computes S64 0x09 1); [apply word64|constructor].
  - arms 59%nat 57%nat Ho. apply (same_bits64_reg key insn Hdst Hsrc d s Z.land _ bitwise_land), (register_computes S64 0x21 4); [apply word64|constructor].
  - arms 72%nat 68%nat Ho. apply (same_bits64_reg key insn Hdst Hsrc d s Z.lxor _ bitwise_lxor), (register_computes S64 0x31 6); [apply word64|constructor].
Qed.

Lemma shifts64_agree : insn.(opc) ∈ [LSH64_IMM; LSH64_REG; RSH64_IMM; RSH64_REG; ARSH64_IMM; ARSH64_REG] -> insn_agrees.
Proof.
  rewrite !elem_of_cons, elem_of_nil. intros [Ho|[Ho|[Ho|[Ho|[Ho|[Ho|[]]]]]]].
  - arms 60%nat 58%nat Ho. apply (same_shift key insn Hdst Himm d s Hd S64 4 (u_wrapping_shl 64)); [apply word64|by left|apply shift_left64].
  - arms 61%nat 59%nat Ho. apply (same_shift_reg key insn Hdst Hsrc d s Hd Hs Hss S64 4 (u_wrapping_shl 64)); [apply word64|by left|apply shift_left64].
  - arms 62%nat 60%nat Ho. apply (same_shift key insn Hdst Himm d s Hd S64 5 (wrapping_shr 64)); [apply word64|by right; left|apply shift_right64].
  - arms 63%nat 61%nat Ho. apply (same_shift_reg key insn Hdst Hsrc d s Hd Hs Hss S64 5 (wrapping_shr 64)); [apply word64|by right; left|apply shift_right64].
  - arms 75%nat 71%nat Ho. apply (same_shift key insn Hdst Himm d s Hd S64 7 (fun x c => as_u64 (wrapping_shr 64 (as_i64 x) c))); [apply word64|by right; right|done].
  - arms 76%nat 72%nat Ho. apply (same_shift_reg key insn Hdst Hsrc d s Hd Hs Hss S64 7 (fun x c => as_u64 (wrapping_shr 64 (as_i64 x) c))); [apply word64|by right; right|done].
Qed.

Lemma neg64_agrees : insn.(opc) = NEG64 -> negb (disable_neg executable.(sbpf_version)) = true -> insn_agrees.
Proof.
  intros Ho Hv. arms 65%nat 63%nat Ho. apply (same_op1 key insn Hdst d s _ (fun x => uwrap 64 (- x))); [apply (computes_negate key d Hd S64), word64|].
  intros x Hx. unfold as_u64, as_i64. rewrite uwrap_swrap by done. apply modular_opp; [done|]. symmetry. by apply uwrap_swrap.
Qed.

Lemma mov64_agrees : insn.(opc) ∈ [MOV64_IMM; MOV64_REG] -> insn_agrees.
Proof.
  rewrite !elem_of_cons, elem_of_nil. intros [Ho|[Ho|[]]].
  - arms 73%nat 69%nat Ho. apply (same_set key insn Hdst d s), (computes_load_constant config key Hkey); [done|]. by apply imm_range.
  - arms 74%nat 70%nat Ho. apply (same_mov key insn Hdst Hsrc d s _ (uwrap 64)); [by apply (computes_mov key S64 s d word64)|]. intros y Hy. by apply uwrap_small.
Qed.

Lemma hor64_agrees : insn.(opc) = HOR64_IMM -> disable_lddw executable.(sbpf_version) = true -> insn_agrees.
Proof.
  intros Ho Hv. arms 77%nat 73%nat Ho. set (z := as_i64 (Z.shiftl (as_u64 insn.(imm)) 32)).
  assert (Hz : u_wrapping_shl 64 (as_u64 insn.(imm)) 32 = as_u64 z) by (unfold z, as_u64 at 2, as_i64; by rewrite uwrap_swrap).
  apply (same_op1 key insn Hdst d s _ (fun x => uwrap 64 (Z.lor x z))).
  - apply (computes_alu_constant config key Hkey d Hd Hds S64 0x09 1); [apply word64|constructor|apply as_i64_range].
  - intros x Hx. rewrite Hz. by apply (bitwise64 Z.lor); [apply modular_lor|intros; by apply lor_range|].
Qed.

(** Every instruction of the arithmetic agrees. *)
Lemma alu_agrees : (endian_opcode executable.(sbpf_version) insn.(opc) = true -> insn.(imm) = 16 \/ insn.(imm) = 32 \/ insn.(imm) = 64) ->
  alu_opcode executable.(sbpf_version) insn.(opc) = true -> insn_agrees.
Proof.
  intros Hw Ho. unfold alu_opcode in Ho. rewrite !orb_true_iff, !andb_true_iff, !opc_in_true, !Z.eqb_eq in Ho. unfold endian_opcode in Hw.
  repeat (destruct Ho as [Ho|Ho]; [|first [by apply shifts32_agree|by apply mov32_agrees|by apply sum64_agrees|by apply difference64_agrees|by apply bits32_agrees
    |by apply bits32_reg_agrees|by apply difference32_agrees|by apply bits64_agrees|by apply bits64_reg_agrees|by apply shifts64_agree|by apply mov64_agrees
    |by apply product32_agrees; apply Ho|by apply product64_agrees; apply Ho|by apply neg32_agrees; apply Ho|by apply neg64_agrees; apply Ho|by apply hor64_agrees; apply Ho
    |apply endian_agrees; [apply Hw|tauto]; rewrite orb_true_iff, andb_true_iff, !Z.eqb_eq; tauto]]).
  by apply sum32_agrees.
Qed.
End Opcodes.

(** * Compiled programs *)

(** The registers of the machine that are mapped hold those of the guest. *)
Definition represents {C} (m : Machine) (st : Interpreter C) : Prop :=
  forall i r, REGISTER_MAP !! i = Some r -> st.(reg) !! i = Some (m.(gpr) (reg_code r)).

(** The other registers are the same, but the scratch register, and so is memory, but for a word below the stack. *)
Record host_kept (m m' : Machine) : Prop := {
  hk_registers c : c ∉ reg_code <$> (REGISTER_SCRATCH :: REGISTER_MAP) -> m'.(gpr) c = m.(gpr) c;
  hk_memory a : 0 <= a < 2 ^ 64 -> ~ (m.(gpr) RSP_code - 8 <= a < m.(gpr) RSP_code) -> m'.(memory) a = m.(memory) a;
}.

Lemma register_map_inj (i j : nat) (r : X86Register) : REGISTER_MAP !! i = Some r -> REGISTER_MAP !! j = Some r -> i = j.
Proof. apply NoDup_lookup, (bool_decide_unpack _). vm_compute. exact I. Qed.

Lemma represents_insert {C} (m m' : Machine) (st : Interpreter C) (i : nat) (d : X86Register) (z : Z) :
  REGISTER_MAP !! i = Some d -> represents m st -> effect m m' d z -> represents m' (mkInterp st.(vm) (<[i := z]> st.(reg))).
Proof.
  intros Hd Hrep He j r Hr. cbn [reg]. destruct (decide (i = j)) as [<-|Hne].
  - rewrite Hd in Hr. injection Hr as <-. rewrite (ef_value _ _ _ _ He). apply list_lookup_insert_eq. apply (lookup_lt_Some _ _ _ (Hrep i d Hd)).
  - rewrite list_lookup_insert_ne by done. rewrite (ef_other _ _ _ _ He); [by apply Hrep| |apply code_ne, (register_map_ok _ _ Hr)].
    apply code_ne. intros ->. by apply Hne, (register_map_inj i j d).
Qed.

Lemma effect_host (m m' : Machine) (i : nat) (d : X86Register) (z : Z) : REGISTER_MAP !! i = Some d -> effect m m' d z -> host_kept m m'.
Proof.
  intros Hd [_ Ho Hm]. split; [|done]. intros c Hc. apply Ho; intros ->; apply Hc, list_elem_of_fmap_2.
  - right. by apply list_elem_of_lookup_2 in Hd.
  - by left.
Qed.

(** The instruction and its machine code, on a machine that represents the state of the interpreter. *)
Definition simulates `{Bo : LittleEndian} `{Ctx : ContextObject C} (rust_of : BuiltinFunction -> RustFunction C) (executable : Executable)
    (program : list Z) (addr : Z) (config : Config) (insn : Insn) (code : list Z) : Prop :=
  forall (m : Machine) (st : Interpreter C) (next_pc : Z), machine_ok m -> represents m st ->
  exists fuel m' st', run_x86 fuel code m = Some m' /\
    step_insn rust_of executable program addr config insn next_pc st = Ret (next_pc, st') /\
    represents m' st' /\ st'.(vm) = st.(vm) /\ machine_ok m' /\ host_kept m m'.

(** What [agrees] says of the code. *)
Lemma agrees_simulates `{Bo : LittleEndian} `{Rnd : Rand} `{Host : JitHost} `{Ctx : ContextObject C} (rust_of : BuiltinFunction -> RustFunction C)
    (executable : Executable) (program : list Z) (addr : Z) (config : Config) (key : Z) (insn : Insn) (target : Z) (d s : X86Register) :
  REGISTER_MAP !! Z.to_nat insn.(dst) = Some d -> REGISTER_MAP !! Z.to_nat insn.(src) = Some s ->
  agrees rust_of executable program addr config key insn target d s ->
  exists l, writes key (compile_insn config executable program insn d s target) l /\
    forall bs, interleaved l bs -> simulates rust_of executable program addr config insn bs.
Proof.
  intros Hd Hs (ci & cj & Hstep & Hcomp & val & Hval & l & Hw & Hwf & Hl). exists l. rewrite Hcomp. split; [done|].
  intros bs Hi m st next_pc Hm Hrep. destruct (Hl m Hm) as (m' & Hs' & Hm' & He). destruct (interleaved_runs l bs m m' Hi Hwf Hs') as [fuel Hrun].
  pose proof Hm as [Hr64 _]. eexists fuel, m', _. split; [done|]. split.
  { rewrite Hstep. unfold m_bind. rewrite (Hval st _ _ (Hrep _ d Hd) (Hrep _ s Hs)) by apply Hr64. reflexivity. }
  split; [by apply (represents_insert m m' st _ d)|]. split; [done|]. split; [done|by apply (effect_host m m' _ d _ Hd He)].
Qed.

(** C9: The JIT compiler preserves guest arithmetic.  In the code of a compiled executable, an
    arithmetic instruction in slot [q] (of 32 or 64 bits, with a register or a constant: sums,
    differences, products, bitwise operations, shifts, negation, moves, byte swaps and [hor64], as far
    as the version has them) is machine code in front of that of the next slot, with random no-ops
    between its instructions and constants behind a random key.  Run by the processor on any machine
    whose mapped registers hold those of the interpreter, that code ends with mapped registers that
    hold those the interpreter has after its step; it changes no other register but the scratch
    register, and no memory but a word below the stack. *)
Theorem jit_compile_arithmetic `{Bo : LittleEndian} `{Rnd : Rand} `{Host : JitHost} `{Pgs : PageHost} `{Ctx : ContextObject C}
    (rust_of : BuiltinFunction -> RustFunction C) (config : Config) (executable : Executable) (program : list Z) (addr : Z)
    (rng : option Rng) (os os' : Os) (jit : JitProgram) (q : Z) :
  jit_ready config executable program ->
  jit_compile executable rng os = Ret (jit, os') ->
  0 <= q < num_insns program ->
  alu_opcode executable.(sbpf_version) (insn_at program q).(opc) = true ->
  exists e p code, jit.(jp_pc_section) !! Z.to_nat q = Some e /\ e <= p /\
    contains jit.(jp_text_section) p code /\
    (forall e', jit.(jp_pc_section) !! Z.to_nat (q + 1) = Some e' -> e' = p + zlen code) /\
    simulates rust_of executable program addr config (insn_at program q) code.
Proof.
  intros Hr E Hq Ho. pose proof (jit_compile_spec config executable program Hr rng os) as H. rewrite E in H. destruct H as (key & Hkey & Hc & _).
  pose proof (ready_program config executable program Hr) as (Hm & _ & Hwf). set (insn := insn_at program q) in *.
  destruct (well_formed_slots program _ 0 q Hwf) as [Hok|H0]; [|done| |fold insn in H0; rewrite H0 in Ho; by destruct (sbpf_version _)].
  { intros pc Hpc. by apply insn_at_opc; [apply Hr|done|]. }
  pose proof (insn_compile_facts program _ q (jr_bytes _ _ _ Hr) Hm Hq Hok) as Hf. fold insn in Hf.
  assert (Hlk : forall i, 0 <= i <= 10 -> exists r, REGISTER_MAP !! Z.to_nat i = Some r) by (intros i Hi; apply lookup_lt_is_Some_2; change (length REGISTER_MAP) with 11%nat; lia).
  destruct (Hlk _ (cf_dst _ _ _ _ Hf)) as [d Hd]. destruct (Hlk _ (cf_src _ _ _ _ Hf)) as [s Hs].
  destruct (register_map_ok _ _ Hd) as [Hd1 Hd2]. destruct (register_map_ok _ _ Hs) as [Hs1 Hs2].
  destruct (agrees_simulates rust_of executable program addr config key insn (as_u64 (q + insn.(off) + 1)) d s Hd Hs) as (l & Hw & Hsim).
  { apply alu_agrees; try done; apply Hf. }
  destruct (ck_arithmetic _ _ _ _ _ _ Hc q d s l Hq Ho Hd Hs Hw) as (e & p & bs & He & Hp & Hct & Hi & Hn).
  exists e, p, bs. split_and!; [done|done|done|done|]. by apply Hsim.
Qed.

(** Slot 0 of the example is [mov64 r0, 1]. *)
Definition zero_machine : Machine := mkMachine (fun c => if c =? RSP_code then 64 else 0) (fun _ => 0) None.
Definition zero_guest : Interpreter Z := mkInterp (vm example_caller) (replicate 12 0).

Lemma zero_ok : machine_ok zero_machine /\ represents zero_machine zero_guest.
Proof.
  split.
  - split; [|done]. intros c. unfold zero_machine, in_u. cbn [gpr]. destruct (c =? RSP_code); lia.
  - intros i r Hi. do 11 (destruct i as [|i]; [injection Hi as <-; reflexivity|]). done.
Qed.

Lemma jit_compile_arithmetic_witness : exists jit p code fuel m',
  jit_compile (Bo := le_reference) (Rnd := no_rand) (Host := no_host) (Pgs := generous_host)
    branching_executable (Some tt) tt = Ret (jit, tt) /\
  contains jit.(jp_text_section) p code /\ run_x86 fuel code zero_machine = Some m' /\ m'.(gpr) (reg_code RAX) = 1.
Proof.
  pose proof branching_compiles as Hret. destruct (jit_compile _ _ _) as [[jit []]|e|f] eqn:E; [clear Hret|done..].
  destruct (jit_compile_arithmetic (Bo := le_reference) (Rnd := no_rand) (Host := no_host) (Pgs := generous_host) nop_syscall
    default_config branching_executable branching_text 0 (Some tt) tt tt jit 0 branching_ready E) as (e & p & code & _ & _ & Hct & _ & Hsim);
    [by split|reflexivity|]. clear E.
  destruct (Hsim zero_machine zero_guest 1 (proj1 zero_ok) (proj2 zero_ok)) as (fuel & m' & st' & Hrun & Hstep & Hrep & _).
  exists jit, p, code, fuel, m'. split; [done|]. split; [done|]. split; [done|].
  assert (Hstep' : step_insn (Bo := le_reference) nop_syscall branching_executable branching_text 0 default_config (insn_at branching_text 0) 1 zero_guest
    = Ret (1, mkInterp (vm example_caller) (<[0%nat := 1]> (replicate 12 0)))) by (vm_compute; reflexivity).
  rewrite Hstep' in Hstep. injection Hstep as <-. specialize (Hrep 0%nat RAX eq_refl). by injection Hrep.
Defined.

(** * Jumps *)

Section Jumps.
Context `{Bo : LittleEndian} `{Ctx : ContextObject C} (rust_of : BuiltinFunction -> RustFunction C).
Context (executable : Executable) (program : list Z) (addr : Z) (config : Config).
Let v : SBPFVersion := executable.(sbpf_version).
Context (insn : Insn) (Hdst : 0 <= insn.(dst)) (Hsrc : 0 <= insn.(src)) (Himm : in_s 32 insn.(imm)).
Context (next_pc : Z) (Hnext : 0 <= next_pc < 2 ^ 62) (Htarget : 0 <= next_pc + insn.(off) < 2 ^ 62).
Context (st : Interpreter C) (x y : Z) (Hx : st.(reg) !! Z.to_nat insn.(dst) = Some x) (Hy : st.(reg) !! Z.to_nat insn.(src) = Some y).
Context (Hx64 : in_u 64 x) (Hy64 : in_u 64 y).

Lemma jump_run : jump next_pc insn st = Ret (next_pc + insn.(off), st).
Proof.
  unfold jump, m_bind, lift, m_ret. rewrite as_i64_small, i64_add_Ret by (unfold in_s; lia). cbn [exec_bind]. unfold as_u64. by rewrite uwrap_small by (unfold in_u; lia).
Qed.

Lemma branch1_run (cond : Z -> bool) : branch1 next_pc insn cond st = Ret (if cond x then next_pc + insn.(off) else next_pc, st).
Proof.
  unfold branch1, m_bind, get_reg. rewrite (index_slice_lookup _ _ x) by done. cbn [exec_bind]. destruct (cond x); [apply jump_run|done].
Qed.

Lemma branch2_run (cond : Z -> Z -> bool) : branch2 next_pc insn cond st = Ret (if cond x y then next_pc + insn.(off) else next_pc, st).
Proof.
  unfold branch2, m_bind, get_reg. rewrite (index_slice_lookup _ _ x) by done. cbn [exec_bind]. rewrite (index_slice_lookup _ _ y) by done. cbn [exec_bind].
  destruct (cond x y); [apply jump_run|done].
Qed.

(** The fields of a conditional jump. *)
Definition jump_fields (o : Z) : OperandSize * Z * bool * bool :=
  (if Z.land o 7 =? BPF_JMP32 then S32 else S64, branch_op o, Z.land o BPF_ALU_OP_MASK =? BPF_JSET, Z.testbit o 3).

Lemma guest_taken_fields size op bitwise register : insn.(opc) <> JA -> jump_fields insn.(opc) = (size, op, bitwise, register) ->
  guest_taken insn x y = branch_taken size op bitwise x (if register then y else insn.(imm)).
Proof. intros Hj [= <- <- <- <-]. unfold guest_taken. by rewrite (proj2 (Z.eqb_neq _ _) Hj). Qed.

Definition arm_jumps (arm : bool * (unit -> M (C := C) Z)) : Prop :=
  arm.1 = true -> arm.2 tt st = Ret (if guest_taken insn x y then next_pc + insn.(off) else next_pc, st).

Ltac jump_arm :=
  let Hg := fresh "Hg" in intros Hg; cbn [fst snd] in Hg |- *;
  let Ho := fresh "Ho" in assert (Ho := Hg); try (apply andb_prop in Ho as [Ho _]); apply Z.eqb_eq in Ho;
  erewrite guest_taken_fields; [|by rewrite Ho|rewrite Ho; lazy; reflexivity];
  first [rewrite branch1_run|rewrite branch2_run];
  unfold branch_taken; cbv zeta; change (size_bits S32) with 32; change (size_bits S64) with 64;
  rewrite ?(uwrap_small 64 x Hx64), ?(uwrap_small 64 y Hy64), ?(swrap_small 64 insn.(imm)) by (done || (unfold in_s in *; lia));
  reflexivity.
Ltac jump_arms := cbv zeta; repeat first [apply Forall_nil_2 | apply Forall_cons_2; [jump_arm|]].

Lemma jump_arms_run : Forall arm_jumps (step_jmp32 executable insn next_pc ++ step_jmp64 insn next_pc).
Proof.
  unfold step_jmp32, step_jmp64. apply Forall_app. split; [jump_arms|]. cbv zeta. apply Forall_cons_2; [|jump_arms].
  intros Ho%Z.eqb_eq. unfold guest_taken. rewrite Ho. apply jump_run.
Qed.
End Jumps.

(** The arms in front of the jumps, and their number. *)
Definition step_data `{Bo : LittleEndian} `{Ctx : ContextObject C} (executable : Executable) (program : list Z) (insn : Insn) (next_pc : Z) :
    list (bool * (unit -> M (C := C) Z)) :=
  step_ld executable program insn next_pc ++
  (fall_through next_pc <$> step_ldx executable insn ++ step_st executable insn ++ step_stx executable insn ++ step_alu32 executable insn
    ++ step_alu64 executable insn ++ step_pqr executable insn).

Lemma jump_position `{Bo : LittleEndian} `{Ctx : ContextObject C} (rust_of : BuiltinFunction -> RustFunction C) (v : SBPFVersion) (o : Z) :
  in_u 8 o -> jump_opcode v o = true ->
  exists i, first_true (step_guards rust_of v o) = Some i /\ (102 <= i < 147)%nat.
Proof.
  intros Ho Hj. assert (Hin : o ∈ seqZ 0 256) by (apply elem_of_seqZ; unfold in_u in Ho; lia).
  assert (Hall : Forall (fun o => jump_opcode v o = true ->
    match first_true (step_guards rust_of v o) with Some i => (102 <=? i)%nat && (i <? 147)%nat | None => false end = true) (seqZ 0 256))
    by (destruct v; apply (bool_decide_unpack _); vm_compute; exact I).
  rewrite Forall_forall in Hall. specialize (Hall o Hin Hj). destruct (first_true _) as [i|]; [|done]. exists i. split; [done|].
  apply andb_prop in Hall as [H1%Nat.leb_le H2%Nat.ltb_lt]. lia.
Qed.

(** The interpreter takes a jump exactly under the condition of its opcode. *)
Lemma step_jump `{Bo : LittleEndian} `{Ctx : ContextObject C} (rust_of : BuiltinFunction -> RustFunction C) (executable : Executable)
    (program : list Z) (addr : Z) (config : Config) (insn : Insn) (next_pc : Z) (st : Interpreter C) (x y : Z) :
  0 <= insn.(dst) -> 0 <= insn.(src) -> in_s 32 insn.(imm) -> 0 <= next_pc < 2 ^ 62 -> 0 <= next_pc + insn.(off) < 2 ^ 62 ->
  st.(reg) !! Z.to_nat insn.(dst) = Some x -> st.(reg) !! Z.to_nat insn.(src) = Some y -> in_u 64 x -> in_u 64 y ->
  in_u 8 insn.(opc) -> jump_opcode executable.(sbpf_version) insn.(opc) = true ->
  step_insn rust_of executable program addr config insn next_pc st = Ret (if guest_taken insn x y then next_pc + insn.(off) else next_pc, st).
Proof.
  intros Hdst Hsrc Himm Hnext Htarget Hx Hy Hx64 Hy64 Ho Hj. destruct (jump_position rust_of _ _ Ho Hj) as (i & Hi & Hr).
  set (jumps := step_jmp32 (C := C) executable insn next_pc ++ step_jmp64 insn next_pc).
  assert (Harms : exists calls, step_arms rust_of executable program addr config insn next_pc = step_data executable program insn next_pc ++ jumps ++ calls).
  { eexists. unfold step_arms, step_data, jumps. by rewrite <-!app_assoc. }
  destruct Harms as [calls Harms]. pose proof (first_true_lookup _ _ Hi) as Hg. rewrite <-(step_guards_eq rust_of executable program addr config insn next_pc) in Hg.
  rewrite list_lookup_fmap in Hg. destruct (step_arms rust_of executable program addr config insn next_pc !! i) as [arm|] eqn:Harm; [|done]. injection Hg as Hg.
  rewrite (step_insn_arm rust_of executable program addr config insn next_pc i arm Hi Harm).
  rewrite Harms, lookup_app_r in Harm by (change (length (step_data (C := C) executable program insn next_pc)) with 102%nat; lia).
  change (length (step_data (C := C) executable program insn next_pc)) with 102%nat in Harm. rewrite lookup_app_l in Harm by (change (length jumps) with 45%nat; lia).
  pose proof (jump_arms_run executable insn Hdst Hsrc Himm next_pc Hnext Htarget st x y Hx Hy Hx64 Hy64) as Hall.
  apply (proj1 (Forall_forall _ _) Hall arm (list_elem_of_lookup_2 _ _ _ Harm) Hg).
Qed.

Lemma jump_facts `{Bo : LittleEndian} `{Rnd : Rand} `{Host : JitHost} `{Pgs : PageHost} (config : Config) (executable : Executable) (program : list Z) :
  jit_ready config executable program -> forall q, 0 <= q < num_insns program ->
  jump_opcode executable.(sbpf_version) (insn_at program q).(opc) = true ->
  compile_facts program executable.(sbpf_version) q (insn_at program q) /\ in_u 8 (insn_at program q).(opc) /\ num_insns program < 2 ^ 25.
Proof.
  intros Hr q Hq Hj. pose proof (ready_program config executable program Hr) as (Hm & _ & Hwf).
  assert (Hopc : forall pc, 0 <= pc < num_insns program -> in_u 8 (insn_at program pc).(opc)) by (intros; by apply insn_at_opc; [apply Hr|done|]).
  destruct (well_formed_slots program _ 0 q Hwf) as [Hok|H0]; [done|done| |rewrite H0 in Hj; by destruct (sbpf_version _)].
  split; [by apply insn_compile_facts; [apply Hr| | |]|]. split; [by apply Hopc|]. by destruct (ready_slots config executable program Hr) as (_ & _ & _ & _ & Hn).
Qed.

(** C8: Control flow of compiled programs.  In the code of a compiled executable, a guest jump in slot
    [q] is, between the offset of [q] and that of the slot behind it, the code of its comparison and a
    machine branch, with a 32-bit displacement that leads exactly to the offset of the jump's target,
    forward and backward ([resolve_jumps] overwrites no other byte of it).  On any machine whose mapped
    registers hold those of the interpreter, the comparison, its constant sanitised or not, keeps these
    registers and leaves flags with which the machine takes the branch exactly if the interpreter jumps
    to the target. *)
Theorem jit_compile_jumps `{Bo : LittleEndian} `{Rnd : Rand} `{Host : JitHost} `{Pgs : PageHost} `{Ctx : ContextObject C}
    (rust_of : BuiltinFunction -> RustFunction C) (config : Config) (executable : Executable) (program : list Z) (addr : Z)
    (rng : option Rng) (os os' : Os) (jit : JitProgram) (q : Z) :
  jit_ready config executable program ->
  jit_compile executable rng os = Ret (jit, os') ->
  0 <= q < num_insns program ->
  let insn := insn_at program q in
  jump_opcode executable.(sbpf_version) insn.(opc) = true ->
  exists e p target compare, let branch := compare ++ branch_prefix insn.(opc) in
    jit.(jp_pc_section) !! Z.to_nat q = Some e /\
    jit.(jp_pc_section) !! Z.to_nat (q + 1 + insn.(off)) = Some target /\
    e <= p /\ contains jit.(jp_text_section) p (branch ++ le_bytes 4 (target - (p + zlen branch + 4))) /\
    in_s 32 (target - (p + zlen branch + 4)) /\
    (forall e', jit.(jp_pc_section) !! Z.to_nat (q + 1) = Some e' -> p + zlen branch + 4 <= e') /\
    forall (m : Machine) (st : Interpreter C), machine_ok m -> represents m st ->
    exists fuel m' taken, run_x86 fuel compare m = Some m' /\ machine_ok m' /\ represents m' st /\ host_kept m m' /\
      takes (branch_prefix insn.(opc)) m' = Some taken /\
      step_insn rust_of executable program addr config insn (q + 1) st = Ret (if taken then q + 1 + insn.(off) else q + 1, st).
Proof.
  intros Hr E Hq insn Hj. pose proof (jit_compile_spec config executable program Hr rng os) as H. rewrite E in H. destruct H as (key & Hkey & Hc & _).
  destruct (ck_branches _ _ _ _ _ _ Hc q Hq Hj) as (e & p & d & s & prefix & et & He & Het & Hp & Hd & Hs & (compare & -> & Hdec) & Hct & Hin & Hn). fold insn in Het, Hd, Hs, Hdec, Hct, Hin, Hn.
  exists e, p, et, compare. split_and!; [done..|]. intros m st Hm Hrep. destruct (Hdec m Hm) as (fuel & m' & z & Hrun & Hm' & Hef & Ht).
  destruct (jump_facts config executable program Hr q Hq Hj) as (Hf & Ho & Hsl). fold insn in Hf, Ho. pose proof Hm as [Hr64 _].
  exists fuel, m', (guest_taken insn (m.(gpr) (reg_code d)) (m.(gpr) (reg_code s))). split_and!; [done|done| | |done|].
  - intros i r Hi. rewrite (ef_other _ _ _ _ Hef) by (apply code_ne, (register_map_ok _ _ Hi)). by apply Hrep.
  - destruct Hef as [_ Hoth Hmem]. split; [|done]. intros c Hc'. apply Hoth; intros ->; apply Hc', list_elem_of_fmap_2; by left.
  - pose proof (cf_jump _ _ _ _ Hf Hj). apply step_jump; try done; try apply Hf; try (by apply Hrep); try apply Hr64; lia.
Qed.

Lemma branching_jumps (q : Z) : q = 1 \/ q = 2 ->
  0 <= q < num_insns branching_text /\ jump_opcode V1 (insn_at branching_text q).(opc) = true.
Proof. by intros [-> | ->]. Qed.

(** Slot 1 of the example is [jeq r0, 0, +1], which jumps over the [ja] of slot 2. *)
Lemma jit_compile_jumps_witness : exists jit,
  jit_compile (Bo := le_reference) (Rnd := no_rand) (Host := no_host) (Pgs := generous_host)
    branching_executable (Some tt) tt = Ret (jit, tt) /\
  (exists p target compare fuel m', jit.(jp_pc_section) !! 3%nat = Some target /\
    contains jit.(jp_text_section) p ((compare ++ [0x0f; 0x84]) ++ le_bytes 4 (target - (p + zlen (compare ++ [0x0f; 0x84]) + 4))) /\
    run_x86 fuel compare zero_machine = Some m' /\ takes [0x0f; 0x84] m' = Some true) /\
  (exists p target compare, jit.(jp_pc_section) !! 1%nat = Some target /\
    contains jit.(jp_text_section) p ((compare ++ [0xe9]) ++ le_bytes 4 (target - (p + zlen (compare ++ [0xe9]) + 4)))).
Proof.
  pose proof branching_compiles as Hret. destruct (jit_compile _ _ _) as [[jit []]|e|f] eqn:E; [clear Hret|done..].
  pose proof (fun q => jit_compile_jumps (Bo := le_reference) (Rnd := no_rand) (Host := no_host) (Pgs := generous_host) nop_syscall
    default_config branching_executable branching_text 0 (Some tt) tt tt jit q branching_ready E) as H. clear E.
  exists jit. split; [done|]. destruct zero_ok as [Hm Hrep]. split.
  - destruct (H 1 (proj1 (branching_jumps 1 ltac:(auto))) (proj2 (branching_jumps 1 ltac:(auto))))
      as (e & p & target & compare & _ & Ht & _ & Hc & _ & _ & Hsim).
    destruct (Hsim zero_machine zero_guest Hm Hrep) as (fuel & m' & taken & Hrun & _ & _ & _ & Htk & Hstep).
    exists p, target, compare, fuel, m'. split; [exact Ht|]. split; [exact Hc|]. split; [done|].
    assert (Hstep' : step_insn (Bo := le_reference) nop_syscall branching_executable branching_text 0 default_config (insn_at branching_text 1) 2 zero_guest
      = Ret (3, zero_guest)) by (vm_compute; reflexivity).
    change (1 + 1) with 2 in Hstep. rewrite Hstep' in Hstep. destruct taken; [exact Htk|discriminate Hstep].
  - destruct (H 2 (proj1 (branching_jumps 2 ltac:(auto))) (proj2 (branching_jumps 2 ltac:(auto))))
      as (e & p & target & compare & _ & Ht & _ & Hc & _). exists p, target, compare. split; [exact Ht|exact Hc].
Defined.
