(* ===== verification/LoadedExecution.v ===== *)
(** From an ELF file to the end of a run: what is loaded and verified executes safely. *)
From S2P Require Import Prelude.
From S2P Require Import Error.
From S2P Require Import Ebpf.
From S2P Require Import Program.
From S2P Require Import Verifier.
From S2P Require Import MemoryRegion.
From S2P Require Import MemoryMapping.
From S2P Require Import MappingSearch.
From S2P Require Import MappingAccess.
From S2P Require Import AlignedMemory.
From S2P Require Import ElfParser.
From S2P Require Import Executable.
From S2P Require Import ElfLoader.
From S2P Require Import LoaderSafety.
From S2P Require Import Vm.
From S2P Require Import Interpreter.
From S2P Require Import InterpreterSafety.
From S2P Require Import Execution.
Open Scope rust_scope.

(** * Lemmas *)

(** The text bytes of a loaded executable. *)
Lemma loaded_text (bytes : list Z) (bp : BuiltinProgram) (e : Executable) :
  loaded_ok bytes bp e -> slice_len_ok bytes ->
  exists text, (forall E, get_text_bytes (E := E) e = Ret (e.(text_section_vaddr), text)) /\
    bytes_ok text /\ slice_len_ok text /\ zlen text = e.(text_section_range).2 - e.(text_section_range).1.
Proof.
  intros [Hlen Hb [Hr0 Hr1] _ _ _ _ _] Hl. unfold get_text_bytes, slice_range.
  rewrite !(proj2 (Z.leb_le _ _)) by lia. cbn [andb exec_bind].
  eexists. split; [done|]. split; [by apply Forall_take, Forall_drop|].
  unfold slice_len_ok, zlen in *. rewrite length_take, length_drop. lia.
Qed.

(** A loaded executable that passes the verifier meets what the interpreter relies on. *)
Lemma loaded_verified `{Bo : LittleEndian} (bytes : list Z) (bp : BuiltinProgram) (config : Config) (e : Executable) :
  Program.config bp = Some config -> config_ok config -> slice_len_ok bytes ->
  loaded_ok bytes bp e -> executable_verify e = Ret tt ->
  exists text, (forall E, get_text_bytes (E := E) e = Ret (e.(text_section_vaddr), text)) /\
    verified e text config /\ 0 <= e.(entry_pc) <= num_insns text.
Proof.
  intros Hc Hok Hl He Hver. destruct (loaded_text bytes bp e He Hl) as (text & Htext & Hb & Htl & Hlen).
  exists text. split; [done|]. destruct He as [_ _ [Hr0 _] Hpc Hin _ Hf Hld].
  unfold executable_verify in Hver. rewrite Htext in Hver. cbn [exec_bind] in Hver.
  unfold executable_config, get_config in Hver. rewrite Hld, Hc in Hver. cbn [expect exec_bind] in Hver.
  pose proof (verify_decides text (sbpf_version e) Hb Htl) as Hd.
  destruct (verify text (sbpf_version e)) as [[]| |] eqn:Hv; cbn in Hver, Hd; [|done..].
  split; [split; try done; by rewrite Hld|]. split; [done|].
  assert (Hne : e.(text_section_range).1 < e.(text_section_range).2).
  { destruct (decide (text = [])) as [->|Hne]; [vm_compute in Hv; done|].
    destruct text; [done|]. unfold zlen in Hlen. cbn in Hlen. lia. }
  specialize (Hin Hne). unfold num_insns. rewrite Hlen.
  apply Z.div_le_lower_bound; unfold INSN_SIZE in *; lia.
Qed.

(** * Properties *)

(** C2: From a file to the end of a run.  Take a configuration with metering and address
    translation on, at least one frame, and either without labels or with lenient versions
    only: with labels, the strict loader panics on some files ([strict_labels_panic]).  Take
    any bytes of at most the length of a buffer, load them as an ELF file, verify the
    executable, create a machine over any mapping of backed regions and execute: neither
    loading nor verifying nor executing panics, the run stops after at most one step more than
    the meter allows, whatever the syscalls do within their contract (memory stays consistent,
    a [u64] is returned, the meter is not refilled), and returns a [u64] or an error, with the
    instruction count at most the initial meter and memory and registers well-formed. *)
Theorem loaded_execution_safe `{Al : Allocator} `{Bo : LittleEndian} `{Wr : LittleEndianWrite} `{Hash : Murmur3}
    `{Txt : ErrorText} `{Ctx : ContextObject C} `{Hlaws : !MeterLaws C} (rust_of : BuiltinFunction -> RustFunction C)
    (Hrust : forall f, RustOk (rust_of f)) (bytes_addr : Z) (bytes : list Z) (bp : BuiltinProgram) (config : Config)
    (version : SBPFVersion) (context : C) (mapping : MemoryMapping) (hm : HostMem) (stack_len : Z)
    (self : EbpfVm C) (fuel : nat) :
  Program.config bp = Some config -> config_ok config -> labels_safe config = true ->
  config.(enable_address_translation) = true ->
  bytes_ok bytes -> zlen bytes + HOST_ALIGN <= i64_max ->
  mem_inv hm mapping -> 0 <= stack_len ->
  vm_new (E := EbpfError) bp version context mapping hm stack_len = Ret self ->
  get_remaining context < Z.of_nat fuel ->
  is_panic (load bytes_addr bytes bp) = false /\
  forall e, load bytes_addr bytes bp = Ret e -> is_panic (executable_verify e) = false /\
    (executable_verify e = Ret tt -> exists count result self',
      execute_program rust_of fuel e self = Ret (count, result, self') /\
      execution_ok (get_remaining context) count result self').
Proof.
  intros Hc Hok Hlab Htr Hb Hlen Hm Hs Hvm Hfuel.
  pose proof (elf_load_spec bytes_addr bytes bp config Hb Hlen Hc Hlab) as Hload.
  split; [by eapply safe_no_panic|]. intros e He. rewrite He in Hload. destruct Hload as [Hld _].
  assert (Hl : slice_len_ok bytes) by (unfold slice_len_ok, HOST_ALIGN in *; lia).
  split.
  - destruct (loaded_text bytes bp e Hld Hl) as (text & Htext & Htb & Htl & _).
    unfold executable_verify. rewrite Htext. cbn [exec_bind].
    unfold executable_config, get_config. rewrite (lo_loader _ _ _ Hld), Hc. cbn [expect exec_bind].
    pose proof (verify_decides text (sbpf_version e) Htb Htl) as Hd. by destruct (verify text _).
  - intros Hver. destruct (loaded_verified bytes bp config e Hc Hok Hl Hld Hver) as (text & Htext & Hv & Hentry).
    destruct (vm_new_ready bp version context mapping hm stack_len config self Hc Hok Htr Hm Hs Hvm) as [Hready Hctx].
    rewrite <-Hctx in *.
    by apply (execute_program_spec rust_of e text e.(text_section_vaddr) config Hv fuel self).
Qed.

#[local] Existing Instances bump_allocator le_reference le_write_reference sum_hash plain_text.

(** The run of the example file. *)
Definition calling_run (self : EbpfVm Z) : option (Z * StableResult Z EbpfError) :=
  match load 4096 calling_elf new_mock with
  | Ret e => match execute_program nop_syscall 11 e self with
             | Ret (count, result, _) => Some (count, result) | _ => None end
  | _ => None
  end.

Lemma loaded_execution_safe_witness : exists e self count result self',
  load 4096 calling_elf new_mock = Ret e /\
  execute_program nop_syscall 11 e self = Ret (count, result, self') /\
  result = SOk 5 /\ count = 4 /\ execution_ok 10 count result self'.
Proof.
  destruct (vm_new (E := EbpfError) new_mock V0 10 example_mapping (zero_memory 0x1000 16) 4096)
    as [self|?|?] eqn:Hs; [|exfalso; vm_compute in Hs; congruence..].
  destruct (load 4096 calling_elf new_mock) as [e|?|?] eqn:He; [|exfalso; vm_compute in He; congruence..].
  destruct (loaded_execution_safe nop_syscall nop_syscall_ok
    4096 calling_elf new_mock default_config V0 10 example_mapping (zero_memory 0x1000 16) 4096 self 11)
    as [_ Hrun].
  - reflexivity.
  - exact default_config_ok.
  - reflexivity.
  - reflexivity.
  - apply (bool_decide_unpack _); vm_compute; reflexivity.
  - vm_compute; congruence.
  - exact example_mem_inv.
  - lia.
  - exact Hs.
  - vm_compute. reflexivity.
  - destruct (Hrun e He) as [_ Hgo].
    assert (Hv : match load 4096 calling_elf new_mock with
      Ret e => Some (executable_verify e) | _ => None end = Some (Ret tt)) by (vm_compute; reflexivity).
    rewrite He in Hv. injection Hv as Hv. destruct (Hgo Hv) as (count & result & self' & Hex & Hok).
    exists e, self, count, result, self'. split; [reflexivity|]. split; [exact Hex|].
    assert (Hg : match vm_new (E := EbpfError) new_mock V0 10 example_mapping (zero_memory 0x1000 16) 4096 with
      Ret self => calling_run self | _ => None end = Some (4, SOk 5)) by (vm_compute; reflexivity).
    rewrite Hs in Hg. unfold calling_run in Hg. rewrite He, Hex in Hg. injection Hg as -> ->.
    split; [reflexivity|]. split; [reflexivity|]. exact Hok.
Defined.
