(* ===== verification/Debugger.v ===== *)
(** The debugger of the interpreter (src/debugger.rs): what it lets a gdb client do to the
    interpreter, the texts and packets that describe the registers, and the loop that runs the
    program for the client. *)
From Stdlib Require Import String.
From S2P Require Import Prelude Text Error Ebpf Program MemoryRegion MemoryMapping Executable Vm Interpreter.
Open Scope rust_scope.
Open Scope list_scope.

(** * Data *)

(* src/interpreter.rs:76-83, DebugState *)
Inductive DebugState := Step | Continue.

(** The interpreter with the fields of a debugging session. *)
(* src/interpreter.rs:85-99, Interpreter *)
Record DebugInterpreter {C : Type} := mkDebug { interpreter : Interpreter C; debug_state : DebugState; breakpoints : list Z }.
Arguments DebugInterpreter : clear implicits.
Arguments mkDebug {C}.

(** [Interpreter::new] *)
(* src/interpreter.rs:102-120, Interpreter::new *)
Definition debug_new {C} (s : Interpreter C) : DebugInterpreter C := mkDebug s Continue [].

(* src/debugger.rs:462-469, BpfRegs *)
Record BpfRegs := mkRegs { regs_r : list Z; regs_sp : Z; regs_pc : Z }.
(* src/debugger.rs:537-546, BpfRegId *)
Inductive BpfRegId := Gpr (i : Z) | Sp | Pc | InstructionCountRemaining.
(* src/debugger.rs:419-422, BpfBreakpointKind *)
Inductive BpfBreakpointKind := BpfBpKindBrkpt.

(** [TargetError], signals, and why the program stopped, of the crate gdbstub. *)
Inductive TargetError := NonFatal | Fatal (message : list Z).
Inductive Signal := SIGINT | SIGSTOP | OtherSignal (number : Z).
Inductive SingleThreadStopReason := DoneStep | Exited (code : Z) | Terminated (signal : Signal) | SwBreak | SignalReason (signal : Signal).

(* src/debugger.rs:425-431, from_usize *)
Definition breakpoint_kind (kind : Z) : option BpfBreakpointKind := if kind =? 0 then Some BpfBpKindBrkpt else None.

(** An identifier comes with its size in bytes. *)
(* src/debugger.rs:549-560, from_raw_id *)
Definition from_raw_id (id : Z) : option (BpfRegId * option Z) :=
  if (0 <=? id) && (id <=? 9) then Some (Gpr (as_u8 id), Some 8)
  else if id =? 10 then Some (Sp, Some 8)
  else if id =? 11 then Some (Pc, Some 8)
  else if id =? 12 then Some (InstructionCountRemaining, Some 8)
  else None.

(** * Register packets *)

(* src/debugger.rs:478-496, gdb_serialize *)
Definition gdb_serialize (self : BpfRegs) : list Z :=
  (self.(regs_r) ≫= le_bytes 8) ++ le_bytes 8 self.(regs_sp) ++ le_bytes 8 self.(regs_pc).

(* src/debugger.rs:504-512, BpfRegs::gdb_deserialize *)
Definition next_reg (bytes : list Z) : option (Z * list Z) :=
  if zlen bytes <? 8 then None else Some (le_value (take 8 bytes), drop 8 bytes).
Fixpoint next_regs (n : nat) (bytes : list Z) : option (list Z * list Z) :=
  match n with
  | O => Some ([], bytes)
  | S n => r ← next_reg bytes; rs ← next_regs n r.2; Some (r.1 :: rs.1, rs.2)
  end.
(* src/debugger.rs:498-526, gdb_deserialize *)
Definition gdb_deserialize (bytes : list Z) : option BpfRegs :=
  if zlen bytes <? 12 * 8 then None
  else
    '(r, bytes) ← next_regs 10 bytes;
    '(sp, bytes) ← next_reg bytes;
    '(pc, bytes) ← next_reg bytes;
    match next_reg bytes with Some _ => None | None => Some (mkRegs r sp pc) end.

(** * Descriptions *)

(* src/debugger.rs:644-654, fmt *)
Definition gdbstub_arch (version : SBPFVersion) : list Z :=
  match version with
  | V0 => str "sbpf"
  | V1 => str "sbpfv1"
  | V2 => str "sbpfv2"
  | V3 => str "sbpfv3"
  | V4 => str "sbpfv4"
  | Reserved => str "sbpfreserved"
  end.

(** The texts have double quotes where single quotes are written here. *)
Definition quoted (s : string) : list Z := (fun c => if c =? 0x27 then 0x22 else c) <$> str s.
Definition line (l : list Z) : list Z := l ++ [0xa].
Definition register_line (i : string) : list Z :=
  line (quoted "    <reg name='r" ++ str i ++ quoted "' bitsize='64' regnum='" ++ str i ++ quoted "' dwarf_regnum='" ++ str i ++
        quoted "' type='uint64' encoding='uint' format='hex'/>").
(* src/debugger.rs:578-613, target_description_xml *)
Definition description_text (version : SBPFVersion) : list Z :=
  let feature_name := str "org.gnu.gdb.sbpf.core" in
  line (quoted "<?xml version='1.0'?>") ++
  line (quoted "<!DOCTYPE target SYSTEM 'gdb-target.dtd'>") ++
  line (quoted "<target version='1.0'>") ++
  line (str "  <architecture>" ++ gdbstub_arch version ++ str "</architecture>") ++
  line [] ++
  line (quoted "  <feature name='" ++ feature_name ++ quoted "'>") ++
  line [] ++
  line (str "    <!-- General Purpose Registers R0" ++ [0x2013] ++ str "R9 -->") ++
  (["0"; "1"; "2"; "3"; "4"; "5"; "6"; "7"; "8"; "9"]%string ≫= register_line) ++
  line [] ++
  line (str "    <!-- Frame Pointer R10 -->") ++
  line (quoted "    <reg name='fp' bitsize='64' regnum='10' dwarf_regnum='10' type='data_ptr' encoding='uint' format='hex' generic='fp'/>") ++
  line [] ++
  line (str "    <!-- Program Counter R11 -->") ++
  line (quoted "    <reg name='pc' bitsize='64' regnum='11' dwarf_regnum='11' type='code_ptr' encoding='uint' format='hex' generic='pc'/>") ++
  line [] ++
  line (str "    <!-- Instruction Counter R12 -->") ++
  line (quoted "    <reg name='icount_remain' bitsize='64' regnum='12' type='uint64' encoding='uint' format='decimal'/>") ++
  line [] ++
  line (str "  </feature>") ++
  str "</target>".

(** [str::trim], of white space in ASCII. *)
Definition is_white (c : Z) : bool := (c =? 0x20) || ((9 <=? c) && (c <=? 13)).
Fixpoint trim_start (s : list Z) : list Z := match s with c :: s' => if is_white c then trim_start s' else s | [] => [] end.
Definition trim (s : list Z) : list Z := reverse (trim_start (reverse (trim_start s))).

(** The part of the description from [offset], of at most [length] bytes and what the buffer
    holds: how many bytes, and the buffer. *)
(* src/debugger.rs:570-632, target_description_xml *)
Definition target_description_xml (version : SBPFVersion) (annex : list Z) (offset length : Z) (buf : list Z) :
    Exec EbpfError ((Z * list Z) + TargetError) :=
  if bool_decide (annex = str "target.xml") then
    let data := as_bytes (trim (description_text version)) in
    if zlen data <? offset then Ret (inl (0, buf))
    else
      let! sum := u64_add offset length in
      let! data := slice_range data (offset, Z.min sum (zlen data)) in
      let len := Z.min (zlen buf) (zlen data) in
      Ret (inl (len, take (Z.to_nat len) data ++ drop (Z.to_nat len) buf))
  else Ret (inr NonFatal).

(** [Register] of gdbstub, without the fields that are [None] for every register. *)
Inductive Generic := GenericSp | GenericPc.
Record Register := mkRegister {
  ri_name : list Z;
  ri_bitsize : Z;
  ri_offset : Z;
  ri_set : list Z;
  ri_dwarf : Z;
  ri_generic : option Generic;
}.
(* src/debugger.rs:359-409, lldb_register_info *)
Definition lldb_register_info (reg_id : Z) : Exec EbpfError (option Register) :=
  match from_raw_id reg_id with
  | Some (_, None) | None => Ret None
  | Some (r, Some size) =>
      let name := match r with
                  | Gpr i => if (0 <=? i) && (i <=? 9) then str "r" ++ decimal i else str "unknown"
                  | Sp => str "sp"
                  | Pc => str "pc"
                  | InstructionCountRemaining => str "remaining"
                  end in
      let generic := match r with Sp => Some GenericSp | Pc => Some GenericPc | _ => None end in
      let! bitsize := u64_mul size 8 in
      let! offset := u64_mul reg_id size in
      Ret (Some (mkRegister name bitsize offset (str "General Purpose Registers") reg_id generic))
  end.

(** * Calls of the stub *)

(** The methods by which the crate gdbstub reaches the interpreter. *)
Inductive TargetOp : Type -> Type :=
  | ReadRegisters : TargetOp BpfRegs
  | WriteRegisters (regs : BpfRegs) : TargetOp unit
  | ReadAddrs (start : Z) (data : list Z) : TargetOp (list Z)
  | WriteAddrs (start : Z) (data : list Z) : TargetOp unit
  | ReadRegister (id : BpfRegId) (buf : list Z) : TargetOp (list Z * Z)
  | WriteRegister (id : BpfRegId) (val : list Z) : TargetOp (unit + TargetError)
  | Resume (signal : option Signal) : TargetOp (unit + list Z)
  | SingleStep (signal : option Signal) : TargetOp (unit + list Z)
  | GetSectionOffsets : TargetOp (Z * Z)
  | AddSwBreakpoint (addr : Z) : TargetOp bool
  | RemoveSwBreakpoint (addr : Z) : TargetOp bool
  | LldbRegisterInfo (id : Z) : TargetOp (option Register)
  | TargetDescriptionXml (annex : list Z) (offset length : Z) (buf : list Z) : TargetOp ((Z * list Z) + TargetError).

(** What the stub does with the interpreter until it returns: calls, each depending on the
    replies, and a new state or an error. *)
Inductive Calls (S : Type) :=
  | Done (s : S)
  | Failed
  | Call {R : Type} (op : TargetOp R) (k : R -> Calls S).
Arguments Done {S} s.
Arguments Failed {S}.
Arguments Call {S R} op k.

(** * What a client can do to the interpreter *)

(* src/elf.rs:295-299, Executable::get_text_section_offset *)
Definition get_text_section_offset (self : Executable) : Z := self.(text_section_range).1.

Section Target.
Context `{Ctx : ContextObject C}.
Context (executable : Executable).
Implicit Types d : DebugInterpreter C.

(* src/interpreter.rs:122-126, Interpreter::get_dbg_pc *)
Definition get_dbg_pc {E} (self : Interpreter C) : Exec E Z :=
  let! pc := index_slice self.(reg) 11 in
  let! bytes := u64_mul pc INSN_SIZE in
  u64_add bytes (get_text_section_offset executable).

Definition with_interpreter d s : DebugInterpreter C := mkDebug s d.(debug_state) d.(breakpoints).
Definition with_state d x : DebugInterpreter C := mkDebug d.(interpreter) x d.(breakpoints).
Definition with_breakpoints d l : DebugInterpreter C := mkDebug d.(interpreter) d.(debug_state) l.
Definition with_reg d (i x : Z) : Exec EbpfError (DebugInterpreter C) :=
  let! reg := set_index d.(interpreter).(reg) i x in
  Ret (with_interpreter d (mkInterp d.(interpreter).(vm) reg)).

(** The host address of a byte; the search changes the cache of the mapping. *)
(* src/debugger.rs:162-182, get_host_ptr *)
Definition get_host_ptr d (vm_addr : Z) : Exec EbpfError (ProgramResult * DebugInterpreter C) :=
  let! vm_addr :=
    if negb (enable_lower_rodata_vaddr executable.(sbpf_version)) && (vm_addr <? MM_BYTECODE_START)
    then u64_add vm_addr MM_BYTECODE_START else Ret vm_addr in
  let m := d.(interpreter).(vm) in
  let! (result, mapping) := mapping_map m.(memory_mapping) Load vm_addr 1 in
  Ret (result, with_interpreter d (mkInterp (with_memory m mapping m.(host_memory)) d.(interpreter).(reg))).

(* src/debugger.rs:185-192, read_registers *)
Definition read_registers d : Exec EbpfError BpfRegs :=
  let! r := slice_range d.(interpreter).(reg) (0, 10) in
  let! sp := index_slice d.(interpreter).(reg) FRAME_PTR_REG in
  let! pc := get_dbg_pc d.(interpreter) in
  Ret (mkRegs r sp pc).

Fixpoint write_each (i : Z) (l : list Z) d : Exec EbpfError (DebugInterpreter C) :=
  match l with
  | [] => Ret d
  | x :: l => let! d := with_reg d i x in write_each (i + 1) l d
  end.
(* src/debugger.rs:194-201, write_registers *)
Definition write_registers (regs : BpfRegs) d : Exec EbpfError (DebugInterpreter C) :=
  let! d := write_each 0 regs.(regs_r) d in
  let! d := with_reg d FRAME_PTR_REG regs.(regs_sp) in
  with_reg d 11 regs.(regs_pc).

(** Bytes that cannot be read keep what the buffer held.  The next address is computed with each
    byte, and once more at the end. *)
(* src/debugger.rs:211-221, read_addrs *)
Fixpoint read_addrs (vm_addr : Z) (data : list Z) d : Exec EbpfError (list Z * DebugInterpreter C) :=
  let! next := u64_add vm_addr 1 in
  match data with
  | [] => Ret ([], d)
  | val :: data =>
      let! (host_ptr, d) := get_host_ptr d vm_addr in
      let! val :=
        match host_ptr with
        | SOk host_ptr => expect InvalidHostAccess (host_read d.(interpreter).(vm).(host_memory) host_ptr 1)
        | SErr _ => Ret val
        end in
      let! (data, d) := read_addrs next data d in
      Ret (val :: data, d)
  end.

(** Writes to memory are not supported: only addresses are computed. *)
(* src/debugger.rs:223-228, write_addrs *)
Fixpoint write_addrs (addr : Z) (data : list Z) : Exec EbpfError unit :=
  let! next := u64_add addr 1 in
  match data with [] => Ret tt | _ :: data => write_addrs next data end.

(** The register into a buffer, which has to have its size. *)
(* src/debugger.rs:241-259, read_register *)
Definition read_register (reg_id : BpfRegId) (buf : list Z) d : Exec EbpfError (list Z * Z) :=
  let! r := match reg_id with
            | Gpr i => index_slice d.(interpreter).(reg) i
            | Sp => index_slice d.(interpreter).(reg) FRAME_PTR_REG
            | Pc => get_dbg_pc d.(interpreter)
            | InstructionCountRemaining => Ret (get_remaining d.(interpreter).(vm).(context_object))
            end in
  if zlen buf =? 8 then Ret (le_bytes 8 r, 8) else Panic IndexOutOfBounds.

(* src/debugger.rs:261-274, write_register *)
Definition write_register (reg_id : BpfRegId) (val : list Z) d :
    Exec EbpfError ((unit + TargetError) * DebugInterpreter C) :=
  if negb (zlen val =? 8) then Ret (inr (Fatal (str "invalid data")), d)
  else
    let r := le_value val in
    let! d := match reg_id with
              | Gpr i => with_reg d i r
              | Sp => with_reg d FRAME_PTR_REG r
              | Pc => with_reg d 11 r
              | InstructionCountRemaining => Ret d
              end in
    Ret (inl tt, d).

(* src/debugger.rs:278-286, resume *)
Definition resume (signal : option Signal) d : (unit + list Z) * DebugInterpreter C :=
  match signal with
  | Some _ => (inr (str "no support for continuing with signal"), d)
  | None => (inl tt, with_state d Continue)
  end.
(* src/debugger.rs:299-307, step *)
Definition single_step (signal : option Signal) d : (unit + list Z) * DebugInterpreter C :=
  match signal with
  | Some _ => (inr (str "no support for stepping with signal"), d)
  | None => (inl tt, with_state d Step)
  end.

(** Offsets of the text and the data; there is none of zeroed data. *)
(* src/debugger.rs:313-319, get_section_offsets *)
Definition get_section_offsets : Z * Z := (0, 0).

(* src/debugger.rs:332-340, add_sw_breakpoint *)
Definition add_sw_breakpoint (addr : Z) d : bool * DebugInterpreter C := (true, with_breakpoints d (d.(breakpoints) ++ [addr])).

Fixpoint position (addr : Z) (l : list Z) : option nat :=
  match l with
  | [] => None
  | x :: l => if x =? addr then Some 0%nat else S <$> position addr l
  end.
(* src/debugger.rs:342-353, remove_sw_breakpoint *)
Definition remove_sw_breakpoint (addr : Z) d : bool * DebugInterpreter C :=
  match position addr d.(breakpoints) with
  | None => (false, d)
  | Some pos => (true, with_breakpoints d (delete pos d.(breakpoints)))
  end.

Definition handle {R} (op : TargetOp R) d : Exec EbpfError (R * DebugInterpreter C) :=
  match op with
  | ReadRegisters => let! regs := read_registers d in Ret (regs, d)
  | WriteRegisters regs => let! d := write_registers regs d in Ret (tt, d)
  | ReadAddrs start data => read_addrs start data d
  | WriteAddrs start data => let! _ := write_addrs start data in Ret (tt, d)
  | ReadRegister id buf => let! r := read_register id buf d in Ret (r, d)
  | WriteRegister id val => write_register id val d
  | Resume signal => Ret (resume signal d)
  | SingleStep signal => Ret (single_step signal d)
  | GetSectionOffsets => Ret (get_section_offsets, d)
  | AddSwBreakpoint addr => Ret (add_sw_breakpoint addr d)
  | RemoveSwBreakpoint addr => Ret (remove_sw_breakpoint addr d)
  | LldbRegisterInfo id => let! r := lldb_register_info id in Ret (r, d)
  | TargetDescriptionXml annex offset length buf =>
      let! r := target_description_xml executable.(sbpf_version) annex offset length buf in Ret (r, d)
  end.

(** The [unwrap] on what the stub returns. *)
Fixpoint run_calls {S} (calls : Calls S) d : Exec EbpfError (S * DebugInterpreter C) :=
  match calls with
  | Done s => Ret (s, d)
  | Failed => Panic UnwrapNone
  | Call op k => let! (r, d) := handle op d in run_calls (k r) d
  end.
End Target.

(** * The session *)

(** [GdbStubStateMachine] *)
Inductive Mode := Idle | Disconnected | CtrlCInterrupt | Running.

(** The state machine of gdbstub with its connection.  Reading a byte waits for one; [peek] says
    whether there is one. *)
Class GdbStub := {
  Stub : Type;
  mode : Stub -> Mode;
  conn_read : Stub -> option (Z * Stub);
  conn_peek : Stub -> option (bool * Stub);
  incoming_data : Stub -> Z -> Calls Stub;
  interrupt_handled : Stub -> option SingleThreadStopReason -> Calls Stub;
  report_stop : Stub -> SingleThreadStopReason -> Calls Stub;
}.

Section Session.
Context `{Gdb : GdbStub} `{Bo : LittleEndian} `{Ctx : ContextObject C}.
Context (rust_of : BuiltinFunction -> RustFunction C).
Context (executable : Executable) (program : list Z) (program_vm_addr : Z).
Implicit Types d : DebugInterpreter C.

Definition step_of : Interpreter C -> Exec (Interpreter C) (Interpreter C) := step rust_of executable program program_vm_addr.
Definition stub_calls (calls : Calls Stub) d : Exec EbpfError (Stub * DebugInterpreter C) := run_calls executable calls d.

(** What is reported of a program that ended. *)
(* src/debugger.rs:78-82, execute *)
Definition end_reason (s : Interpreter C) : SingleThreadStopReason :=
  match s.(vm).(program_result) with
  | SOk result => Exited (as_u8 result)
  | SErr _ => Terminated SIGSTOP
  end.

Definition at_breakpoint d (s : Interpreter C) : Exec EbpfError bool :=
  let! pc := get_dbg_pc executable s in Ret (bool_decide (pc ∈ d.(breakpoints))).

(** One step for the client. *)
(* src/debugger.rs:75-87, execute *)
Definition run_step (st : Stub) d : Exec EbpfError (Stub * DebugInterpreter C) :=
  let! (stop_reason, s) :=
    match step_of d.(interpreter) with
    | Ret s => Ret (DoneStep, s)
    | Err s => Ret (end_reason s, s)
    | Panic f => Panic f
    end in
  let! hit := at_breakpoint d s in
  stub_calls (report_stop st (if hit : bool then SwBreak else stop_reason)) (with_interpreter d s).

(** Steps until a byte arrives, a breakpoint is met or the program ends. *)
(* src/debugger.rs:88-114, execute *)
Fixpoint run_continue (fuel : nat) (st : Stub) d : Exec EbpfError (Stub * DebugInterpreter C) :=
  match fuel with
  | O => Panic OutOfFuel
  | S fuel =>
      let! (pending, st) := expect UnwrapNone (conn_peek st) in
      if pending : bool then
        let! (byte, st) := expect UnwrapNone (conn_read st) in
        stub_calls (incoming_data st byte) d
      else
        match step_of d.(interpreter) with
        | Ret s =>
            let! hit := at_breakpoint d s in
            if hit : bool then stub_calls (report_stop st SwBreak) (with_interpreter d s)
            else run_continue fuel st (with_interpreter d s)
        | Err s => stub_calls (report_stop st (end_reason s)) (with_interpreter d s)
        | Panic f => Panic f
        end
  end.

(** The loop; connecting to the client is outside of the model. *)
(* src/debugger.rs:47-119, execute *)
Fixpoint execute (fuel : nat) (st : Stub) d : Exec EbpfError (DebugInterpreter C) :=
  match fuel with
  | O => Panic OutOfFuel
  | S fuel' =>
      match mode st with
      | Idle =>
          let! (byte, st) := expect UnwrapNone (conn_read st) in
          let! (st, d) := stub_calls (incoming_data st byte) d in
          execute fuel' st d
      | Disconnected => Ret d
      | CtrlCInterrupt =>
          let! (st, d) := stub_calls (interrupt_handled st (Some (SignalReason SIGINT))) d in
          execute fuel' st d
      | Running =>
          let! (st, d) := match d.(debug_state) with
                          | Step => run_step st d
                          | Continue => run_continue fuel st d
                          end in
          execute fuel' st d
      end
  end.
End Session.
