(* ===== verification/DebugSession.v ===== *)
(** Debugging does not change the program: what the debugger of src/debugger.rs runs for its
    client, against the run without a debugger; and the packets and descriptions it sends. *)
From Stdlib Require Import String.
From S2P Require Import Prelude Text Error Ebpf Program Verifier MemoryRegion MemoryMapping Executable MappingSearch MappingAccess Vm Interpreter InterpreterSafety Execution Debugger.
Open Scope rust_scope.
Open Scope list_scope.

(** * Packets *)

(** The registers of a client: ten general purpose registers, of 64 bits. *)
Definition client_regs_ok (regs : BpfRegs) : Prop :=
  length regs.(regs_r) = 10%nat /\ Forall (in_u 64) regs.(regs_r) /\ in_u 64 regs.(regs_sp) /\ in_u 64 regs.(regs_pc).

Lemma next_reg_bytes (r : Z) (bytes : list Z) : in_u 64 r -> next_reg (le_bytes 8 r ++ bytes) = Some (r, bytes).
Proof.
  intros Hr. unfold next_reg. rewrite zlen_app. unfold zlen at 1. rewrite length_le_bytes. pose proof (zlen_nonneg bytes).
  destruct (Z.ltb_spec (Z.of_nat 8 + zlen bytes) 8); [lia|].
  rewrite take_app_length', drop_app_length' by (by rewrite length_le_bytes). rewrite le_value_le_bytes, uwrap_small; done.
Qed.

Lemma next_regs_bytes (rs : list Z) (bytes : list Z) : Forall (in_u 64) rs ->
  next_regs (length rs) ((rs ≫= le_bytes 8) ++ bytes) = Some (rs, bytes).
Proof.
  induction 1 as [|r rs Hr Hrs IH]; [done|]. cbn [length next_regs mbind list_bind]. rewrite <-app_assoc, next_reg_bytes by done.
  cbn [mbind option_bind fst snd]. rewrite IH. done.
Qed.

Lemma packet_length (rs : list Z) : zlen (rs ≫= le_bytes 8) = 8 * Z.of_nat (length rs).
Proof.
  induction rs as [|r rs IH]; [done|]. rewrite bind_cons, zlen_app, IH. unfold zlen. rewrite length_le_bytes. cbn [length]. lia.
Qed.

(** A packet that the debugger sent is read back as the registers. *)
Lemma packet_roundtrip (regs : BpfRegs) : client_regs_ok regs -> gdb_deserialize (gdb_serialize regs) = Some regs.
Proof.
  intros (Hlen & Hr & Hsp & Hpc). unfold gdb_deserialize, gdb_serialize. set (bytes := _ ++ _).
  assert (Hb : zlen bytes = 96).
  { unfold bytes. rewrite !zlen_app, packet_length, Hlen. unfold zlen. by rewrite !length_le_bytes. }
  rewrite Hb. cbn [Z.ltb Z.compare Z.mul Pos.mul Pos.compare Pos.compare_cont]. unfold bytes. rewrite <-Hlen, next_regs_bytes by done.
  cbn [mbind option_bind]. rewrite next_reg_bytes by done. cbn [mbind option_bind].
  rewrite <-(app_nil_r (le_bytes 8 regs.(regs_pc))), next_reg_bytes by done. cbn. by destruct regs.
Qed.

(** * The session *)

Section Session.
Context `{Gdb : GdbStub} `{Bo : LittleEndian} `{Ctx : ContextObject C}.
Context (rust_of : BuiltinFunction -> RustFunction C).
Context (executable : Executable) (program : list Z) (program_vm_addr : Z).
Implicit Types d : DebugInterpreter C.
Let step_from := step_of rust_of executable program program_vm_addr.
Let run := run_interpreter rust_of executable program program_vm_addr.
Let continue := run_continue rust_of executable program program_vm_addr.
Let at_stop : DebugInterpreter C -> Interpreter C -> Exec EbpfError bool := at_breakpoint executable.

(** [n] steps that do not end the program. *)
Fixpoint steps (n : nat) (s : Interpreter C) : option (Interpreter C) :=
  match n with
  | O => Some s
  | S n => match step_from s with Ret s => steps n s | _ => None end
  end.

Lemma run_more (fuel : nat) (s s' : Interpreter C) : run fuel s = Ret s' -> run (S fuel) s = Ret s'.
Proof.
  revert s. induction fuel as [|fuel IH]; intros s; [done|]. unfold run in *. cbn [run_interpreter] in *.
  destruct (step _ _ _ _ s) as [s1|s1|f]; [|done|done]. intros H. by apply IH.
Qed.

(** Continuing stops at the first breakpoint that is met, or at the end. *)
Definition stops_first d (fuel : nat) (st : Stub) (s' : Interpreter C) : Prop :=
  (exists k s, steps (S k) d.(interpreter) = Some s /\ at_stop d s = Ret true /\
    (forall j t, (j < k)%nat -> steps (S j) d.(interpreter) = Some t -> at_stop d t = Ret false) /\
    continue fuel st d = stub_calls executable (report_stop st SwBreak) (with_interpreter d s)) \/
  (forall j t, steps (S j) d.(interpreter) = Some t -> at_stop d t = Ret false) /\
    continue fuel st d = stub_calls executable (report_stop st (end_reason s')) (with_interpreter d s').

Lemma continue_stops (fuel : nat) (st : Stub) (s' : Interpreter C) : conn_peek st = Some (false, st) -> forall d,
  (forall k s, steps (S k) d.(interpreter) = Some s -> exists pc, get_dbg_pc (E := EbpfError) executable s = Ret pc) ->
  run fuel d.(interpreter) = Ret s' -> stops_first d fuel st s'.
Proof.
  intros Hpeek. induction fuel as [|fuel IH]; intros d Hpc Hrun; [done|]. unfold stops_first, continue. cbn [run_continue].
  rewrite Hpeek. cbn [expect exec_bind]. unfold run in Hrun. cbn [run_interpreter] in Hrun. fold run in Hrun.
  change (step rust_of executable program program_vm_addr) with step_from in Hrun.
  change (step_of rust_of executable program program_vm_addr) with step_from.
  destruct (step_from d.(interpreter)) as [s1|s1|f] eqn:E; [| |done].
  2: { injection Hrun as <-. right. split; [|done]. intros j t H. cbn [steps] in H. by rewrite E in H. }
  assert (Hs1 : steps 1 d.(interpreter) = Some s1) by (cbn [steps]; by rewrite E).
  assert (Hshift : forall k, steps (S k) d.(interpreter) = steps k s1) by (intros k; cbn [steps]; by rewrite E).
  destruct (Hpc 0%nat s1 Hs1) as [pc Hpc1]. assert (Hat : at_breakpoint executable d s1 = Ret (bool_decide (pc ∈ d.(breakpoints)))).
  { unfold at_breakpoint. by rewrite Hpc1. }
  rewrite Hat. cbn [exec_bind]. case_bool_decide as Hin.
  - left. exists 0%nat, s1. split_and!; [done|by unfold at_stop; rewrite Hat|intros j t ?; lia|done].
  - destruct (IH (with_interpreter d s1)) as [(k & s & Hk & Hb & Hbefore & Hc)|[Hbefore Hc]].
    + intros k s Hk. apply (Hpc (S k) s). rewrite Hshift. done.
    + exact Hrun.
    + left. exists (S k), s. split_and!; [by rewrite Hshift|exact Hb| |exact Hc].
      intros [|j] t Hj Ht; rewrite Hshift in Ht; [cbn in Ht; injection Ht as <-; unfold at_stop; rewrite Hat; done|].
      apply (Hbefore j t); [lia|done].
    + right. split; [|exact Hc]. intros [|j] t Ht; rewrite Hshift in Ht; [cbn in Ht; injection Ht as <-; unfold at_stop; rewrite Hat; done|].
      by apply (Hbefore j t).
Qed.

(** A session that continues without breakpoints. *)
Lemma session_returns (fuel : nat) (st st' : Stub) d (s' : Interpreter C) :
  conn_peek st = Some (false, st) -> mode st = Running -> d.(debug_state) = Continue -> d.(breakpoints) = [] ->
  (forall k s, steps (S k) d.(interpreter) = Some s -> exists pc, get_dbg_pc (E := EbpfError) executable s = Ret pc) ->
  run fuel d.(interpreter) = Ret s' -> report_stop st (end_reason s') = Done st' -> mode st' = Disconnected ->
  execute rust_of executable program program_vm_addr (S fuel) st d = Ret (with_interpreter d s').
Proof.
  intros Hpeek Hmode Hstate Hnone Hpc Hrun Hreport Hdis. destruct fuel as [|fuel]; [done|].
  apply run_more in Hrun as Hrun'. cbn [execute]. rewrite Hmode, Hstate.
  destruct (continue_stops (S (S fuel)) st s' Hpeek d Hpc Hrun') as [(k & s & _ & Hb & _)|[_ Hc]].
  - unfold at_stop, at_breakpoint in Hb. destruct (get_dbg_pc executable s) as [pc| |]; [|done|done]. cbn [exec_bind] in Hb.
    rewrite Hnone in Hb. by rewrite bool_decide_eq_false_2 in Hb by apply not_elem_of_nil.
  - unfold continue in Hc. rewrite Hc. unfold stub_calls. rewrite Hreport. cbn [run_calls exec_bind]. by rewrite Hdis.
Qed.
End Session.

(** * Verified programs *)

(** The calls of a client that does not write: addresses, identifiers and buffers are those of the
    protocol. *)
Definition inspects {R} (op : TargetOp R) : Prop :=
  match op with
  | WriteRegisters _ | WriteRegister _ _ => False
  | ReadAddrs start data | WriteAddrs start data => 0 <= start /\ start + zlen data < u64_max
  | ReadRegister id buf => zlen buf = 8 /\ match id with Gpr i => 0 <= i <= 9 | _ => True end
  | TargetDescriptionXml _ offset length _ => 0 <= offset /\ 0 <= length /\ offset + length <= u64_max
  | _ => True
  end.

Section Verified.
Context `{Gdb : GdbStub} `{Bo : LittleEndian} `{Ctx : ContextObject C}.
Context (rust_of : BuiltinFunction -> RustFunction C) `{Hlaws : !MeterLaws C} `{Hrust : !forall f, RustOk (rust_of f)}.
Context (executable : Executable) (program : list Z) (program_vm_addr : Z) (config : Config).
Context (Hv : verified executable program config) (Hoffset : 0 <= get_text_section_offset executable < 2 ^ 63).
Implicit Types d : DebugInterpreter C.

Lemma running_pc (B : Z) (s : Interpreter C) : running program config B s -> exists pc, get_dbg_pc (E := EbpfError) executable s = Ret pc.
Proof.
  intros [_ (pc & Hpc & Hle)]. pose proof (program_len executable program config Hv) as Hlen. pose proof (vf_len _ _ _ Hv) as Hl.
  unfold slice_len_ok, i64_max, INSN_SIZE in *. unfold get_dbg_pc. rewrite (index_slice_lookup _ 11 pc) by done. cbn [exec_bind].
  unfold u64_mul, u64_max, INSN_SIZE. rewrite (proj2 (Z.leb_le _ _)) by lia. cbn [exec_bind]. rewrite u64_add_small by lia. by eexists.
Qed.

Lemma running_reg (B i : Z) (s : Interpreter C) : running program config B s -> 0 <= i <= 11 ->
  exists x, index_slice (E := EbpfError) s.(reg) i = Ret x.
Proof.
  intros [[_ [Hlen _] _] _] Hi. destruct (index_slice_Ret (E := EbpfError) s.(reg) i) as (x & _ & E); [unfold zlen; lia|]. by exists x.
Qed.

Lemma steps_running (k : nat) : forall (B : Z) (s s' : Interpreter C), running program config B s ->
  steps rust_of executable program program_vm_addr k s = Some s' -> exists B', running program config B' s'.
Proof.
  induction k as [|k IH]; intros B s s' Hr; cbn [steps]; [intros [= <-]; by exists B|].
  pose proof (step_spec rust_of executable program program_vm_addr config Hv B s Hr) as Hs. unfold step_of.
  destruct (step _ _ _ _ s) as [s1| |]; [|done|done]. by apply (IH (B - 1)).
Qed.

(** ** Inspection *)

(** Only the cache of the memory mapping may change, within the invariant. *)
Definition remapped d d' : Prop := exists mapping, mem_inv d.(interpreter).(vm).(host_memory) mapping /\
  mapping_equiv d.(interpreter).(vm).(memory_mapping) mapping /\ d' = with_interpreter d (mkInterp (with_memory d.(interpreter).(vm) mapping d.(interpreter).(vm).(host_memory)) d.(interpreter).(reg)).

Lemma remapped_running (B : Z) d d' : running program config B d.(interpreter) -> remapped d d' -> running program config B d'.(interpreter).
Proof. intros [[[] ? ?] Hpc] (m & Hm & _ & ->). split; [|done]. split; [split|..]; done. Qed.

Lemma host_ptr_spec (B vm_addr : Z) d : running program config B d.(interpreter) -> 0 <= vm_addr < 2 ^ 64 ->
  exists result d', get_host_ptr executable d vm_addr = Ret (result, d') /\ remapped d d' /\
    match result with SOk h => is_Some (host_read d.(interpreter).(vm).(host_memory) h 1) | SErr _ => True end.
Proof.
  intros [[Hvm _ _] _] Ha. pose proof (vo_memory _ _ _ Hvm) as Hm. unfold get_host_ptr. set (m := d.(interpreter).(vm)) in *.
  assert (Haddr : exists a, 0 <= a < 2 ^ 64 /\ (if negb (enable_lower_rodata_vaddr (sbpf_version executable)) && (vm_addr <? MM_BYTECODE_START)
    then u64_add vm_addr MM_BYTECODE_START else Ret vm_addr) = Ret (E := EbpfError) a).
  { destruct (_ && (vm_addr <? MM_BYTECODE_START)) eqn:E; [|by exists vm_addr]. apply andb_prop in E as [_ E].
    assert (MM_BYTECODE_START = 2 ^ 32) as Hs by done. rewrite Hs in *. rewrite u64_add_small by lia. exists (vm_addr + 2 ^ 32). split; [lia|done]. }
  destruct Haddr as (a & Ha' & ->). cbn [exec_bind]. unfold mapping_map.
  destruct (find_region_spec (X := EbpfError) m.(memory_mapping) a (mi_mapping _ _ Hm)) as (mm & -> & He & Hmm). cbn [exec_bind].
  pose proof (mem_inv_equiv _ _ _ Hm He Hmm) as Hm'. assert (Hre : remapped d (with_interpreter d (mkInterp (with_memory m mm m.(host_memory)) d.(interpreter).(reg)))) by (by exists mm).
  set (host := match found_region _ _ with Some (_, region) => vm_to_host region Load a 1 | None => None end).
  destruct host as [h|] eqn:Eh.
  - eexists _, _. split; [done|]. split; [exact Hre|].
    destruct (translated_mapped m.(host_memory) m.(memory_mapping) Load a 1 h Hm) as (_ & Hmap & _); [done|lia| |].
    { unfold host in Eh. destruct (found_region m.(memory_mapping) a) as [[i r]|] eqn:Ef; [|done]. by exists i, r. }
    destruct (host_read_mapped m.(host_memory) h 1 (mi_host _ _ Hm) Hmap) as (z & -> & _). by exists z.
  - destruct (mi_common _ _ Hm') as (common & -> & _). destruct (generate_access_violation_err common Load a 1) as [e ->].
    eexists _, _. split; [done|]. split; [exact Hre|done].
Qed.

Lemma remapped_refl (B : Z) d : running program config B d.(interpreter) -> remapped d d.
Proof. intros [[Hvm _ _] _]. exists d.(interpreter).(vm).(memory_mapping). split; [apply Hvm|]. split; [done|]. by destruct d as [[[] ?] ? ?]. Qed.
Lemma remapped_trans d d' d'' : remapped d d' -> remapped d' d'' -> remapped d d''.
Proof. intros (m & Hm & He & ->) (m' & Hm' & He' & ->). exists m'. split; [done|]. split; [by etransitivity|done]. Qed.

Lemma read_addrs_spec (B : Z) (data : list Z) : forall vm_addr d, running program config B d.(interpreter) ->
  0 <= vm_addr -> vm_addr + zlen data < u64_max -> exists bytes d', read_addrs executable vm_addr data d = Ret (bytes, d') /\ remapped d d'.
Proof.
  induction data as [|v data IH]; intros addr d Hr H0 Hmax; cbn [read_addrs]; unfold u64_max in *.
  - rewrite u64_add_small by (change (zlen (@nil Z)) with 0 in Hmax; lia). cbn [exec_bind]. eexists _, _. split; [done|]. by apply (remapped_refl B).
  - rewrite zlen_cons in Hmax. pose proof (zlen_nonneg data). rewrite u64_add_small by lia. cbn [exec_bind].
    destruct (host_ptr_spec B addr d Hr ltac:(lia)) as (result & d1 & -> & Hre & Hread). cbn [exec_bind].
    assert (Hval : exists z, match result with SOk h => expect InvalidHostAccess (host_read d1.(interpreter).(vm).(host_memory) h 1) | SErr _ => Ret v end = Ret (E := EbpfError) z).
    { destruct result as [h|e]; [|by exists v]. destruct Hre as (mm & _ & _ & ->). destruct Hread as [z Hz]. exists z. cbn. by rewrite Hz. }
    destruct Hval as (z & ->). cbn [exec_bind].
    destruct (IH (addr + 1) d1 (remapped_running B d d1 Hr Hre) ltac:(lia) ltac:(lia)) as (bytes & d2 & -> & Hre'). cbn [exec_bind].
    eexists _, _. split; [done|]. by eapply remapped_trans.
Qed.

(** The machine but for the cache of its memory mapping. *)
Definition same_machine d d' : Prop := exists mapping, mem_inv d.(interpreter).(vm).(host_memory) mapping /\
  mapping_equiv d.(interpreter).(vm).(memory_mapping) mapping /\
  d'.(interpreter) = mkInterp (with_memory d.(interpreter).(vm) mapping d.(interpreter).(vm).(host_memory)) d.(interpreter).(reg).

(** The fields of the session change only by the calls that are for that: breakpoints are added at
    the end, the first one at an address is removed, and resuming without a signal chooses the
    way to run. *)
Definition session_after {R} (op : TargetOp R) d d' : Prop :=
  match op with
  | AddSwBreakpoint addr => d'.(breakpoints) = d.(breakpoints) ++ [addr]
  | RemoveSwBreakpoint addr =>
      (addr ∉ d.(breakpoints)) /\ d'.(breakpoints) = d.(breakpoints) \/
      exists before after, d.(breakpoints) = before ++ addr :: after /\ (addr ∉ before) /\ d'.(breakpoints) = before ++ after
  | _ => d'.(breakpoints) = d.(breakpoints)
  end /\
  d'.(debug_state) = match op with Resume None => Continue | SingleStep None => Step | _ => d.(debug_state) end.

Lemma same_interpreter (B : Z) d d' : running program config B d.(interpreter) -> d'.(interpreter) = d.(interpreter) -> same_machine d d'.
Proof. intros Hr He. destruct (remapped_refl B d Hr) as (m & Hm & Heq & E). exists m. split; [done|]. split; [done|]. rewrite He. by rewrite E at 1. Qed.

Lemma position_spec (addr : Z) (l : list Z) : match position addr l with
  | None => addr ∉ l
  | Some i => exists before after, l = before ++ addr :: after /\ (addr ∉ before) /\ delete i l = before ++ after
  end.
Proof.
  induction l as [|x l IH]; cbn [position]; [apply not_elem_of_nil|]. destruct (Z.eqb_spec x addr) as [->|Hne].
  - exists [], l. split; [done|]. split; [apply not_elem_of_nil|done].
  - destruct (position addr l) as [i|]; cbn.
    + destruct IH as (before & after & -> & Hb & Hd). exists (x :: before), after. split; [done|]. split; [by apply not_elem_of_cons|]. cbn. by f_equal.
    + by apply not_elem_of_cons.
Qed.

Lemma write_addrs_spec (data : list Z) : forall addr, 0 <= addr -> addr + zlen data < u64_max -> write_addrs addr data = Ret tt.
Proof.
  induction data as [|v data IH]; intros addr H0 Hmax; cbn [write_addrs]; unfold u64_max in *.
  - by rewrite u64_add_small by (change (zlen (@nil Z)) with 0 in Hmax; lia).
  - rewrite zlen_cons in Hmax. pose proof (zlen_nonneg data). rewrite u64_add_small by lia. cbn [exec_bind]. apply IH; lia.
Qed.

Lemma description_spec (version : SBPFVersion) (annex : list Z) (offset length : Z) (buf : list Z) :
  0 <= offset -> 0 <= length -> offset + length <= u64_max -> exists r, target_description_xml version annex offset length buf = Ret r.
Proof.
  intros H0 Hl Hs. unfold target_description_xml. case_bool_decide; [|by eexists].
  generalize (as_bytes (trim (description_text version))) as data. intros data. destruct (Z.ltb_spec (zlen data) offset); [by eexists|].
  unfold u64_max in *. rewrite u64_add_small by lia. cbn [exec_bind]. unfold slice_range.
  destruct (_ && _) eqn:E; [by eexists|]. cbn [fst snd] in E. lia.
Qed.

Ltac keep := (eexists _, _; split; [reflexivity|]; split; [by auto|done]).

Lemma inspect_safe {R} (B : Z) (op : TargetOp R) d : running program config B d.(interpreter) -> inspects op ->
  exists r d', handle executable op d = Ret (r, d') /\ same_machine d d' /\ session_after op d d'.
Proof.
  intros Hr. assert (Hsame : forall d', d'.(interpreter) = d.(interpreter) -> same_machine d d') by (intros; by apply (same_interpreter B)).
  unfold session_after. destruct op as [|regs|start data|start data|id buf|id val|signal|signal| |addr|addr|id|annex offset length buf]; cbn [handle inspects].
  - intros _. unfold read_registers. destruct (running_reg B FRAME_PTR_REG _ Hr ltac:(done)) as (sp & Esp). destruct (running_pc B _ Hr) as (pc & Epc).
    assert (Hlen : zlen d.(interpreter).(reg) = 12) by (destruct Hr as [[_ [Hlen _] _] _]; unfold zlen; by rewrite Hlen).
    unfold slice_range. rewrite Hlen. cbn [fst snd Z.leb Z.compare Pos.compare Pos.compare_cont andb exec_bind]. rewrite Esp. cbn [exec_bind]. rewrite Epc. cbn [exec_bind]. keep.
  - done.
  - intros [H0 H1]. destruct (read_addrs_spec B data start d Hr H0 H1) as (bytes & d' & -> & m & Hm & He & ->). eexists _, _. split; [done|]. split; [by exists m|done].
  - intros [H0 H1]. rewrite (write_addrs_spec data start H0 H1). cbn [exec_bind]. keep.
  - intros [Hb Hi]. unfold read_register. rewrite Hb. destruct id as [i| | |].
    + destruct (running_reg B i _ Hr ltac:(lia)) as (x & ->). keep.
    + destruct (running_reg B FRAME_PTR_REG _ Hr ltac:(done)) as (x & ->). keep.
    + destruct (running_pc B _ Hr) as (x & ->). keep.
    + keep.
  - done.
  - intros _. destruct signal; keep.
  - intros _. destruct signal; keep.
  - intros _. keep.
  - intros _. keep.
  - intros _. unfold remove_sw_breakpoint. pose proof (position_spec addr d.(breakpoints)) as Hp. destruct (position addr d.(breakpoints)); eexists _, _; (split; [done|]); auto 6.
  - intros _. unfold lldb_register_info, from_raw_id.
    destruct (_ && _) eqn:E; [unfold u64_mul, u64_max; rewrite !(proj2 (Z.leb_le _ _)) by lia; cbn [exec_bind]; keep|].
    destruct (Z.eqb_spec id 10) as [->|]; [keep|]. destruct (Z.eqb_spec id 11) as [->|]; [keep|].
    destruct (Z.eqb_spec id 12) as [->|]; [keep|]. keep.
  - intros (H0 & H1 & H2). destruct (description_spec executable.(sbpf_version) annex offset length buf H0 H1 H2) as (r & ->). cbn [exec_bind]. keep.
Qed.

Lemma same_machine_running (B : Z) d d' : running program config B d.(interpreter) -> same_machine d d' -> running program config B d'.(interpreter).
Proof. intros [[[] ? ?] Hpc] (m & Hm & _ & ->). split; [|done]. split; [split|..]; done. Qed.
End Verified.

(** * Properties *)

(** C32: debugging does not change a verified program, run under system calls that meet their
    contract.  Continued by a client that sends nothing, it stops at the first state whose program
    counter has a breakpoint, and nowhere before; without one it ends within its meter, in the state
    that it ends in without a debugger, which is what is reported; and a session without breakpoints
    returns that state when the client leaves.  No call of a client that does not write registers
    faults, where it asks for memory whose end is below the last address, for registers by a buffer
    of eight bytes, and for a part of the description whose end is a 64-bit number; it leaves the
    registers, the memory, the meter and the regions as they are, the memory mapping up to its
    cache, the breakpoints but for those it adds or removes, and the way to run but where it
    resumes. *)
Theorem debugged_run `{Gdb : GdbStub} `{Bo : LittleEndian} `{Ctx : ContextObject C} `{Hlaws : !MeterLaws C}
    (rust_of : BuiltinFunction -> RustFunction C) (Hrust : forall f, RustOk (rust_of f))
    (executable : Executable) (program : list Z) (program_vm_addr : Z) (config : Config)
    (fuel : nat) (B : Z) (st : Stub) (d : DebugInterpreter C) :
  verified executable program config -> 0 <= get_text_section_offset executable < 2 ^ 63 ->
  running program config B d.(interpreter) -> 0 <= B < Z.of_nat fuel -> conn_peek st = Some (false, st) ->
  exists s', run_interpreter rust_of executable program program_vm_addr fuel d.(interpreter) = Ret s' /\
    stops_first rust_of executable program program_vm_addr d fuel st s' /\
    (forall st', mode st = Running -> d.(debug_state) = Continue -> d.(breakpoints) = [] ->
      report_stop st (end_reason s') = Done st' -> mode st' = Disconnected ->
      execute rust_of executable program program_vm_addr (S fuel) st d = Ret (with_interpreter d s')) /\
    (forall R (op : TargetOp R), inspects op -> exists r d', handle executable op d = Ret (r, d') /\ same_machine d d' /\ session_after op d d' /\
      running program config B d'.(interpreter)).
Proof.
  intros Hv Hoff Hr HB Hpeek. destruct (run_spec rust_of executable program program_vm_addr config Hv fuel B _ Hr HB) as (s' & Hrun & _).
  assert (Hpc : forall k s, steps rust_of executable program program_vm_addr (S k) d.(interpreter) = Some s ->
    exists pc, get_dbg_pc (E := EbpfError) executable s = Ret pc).
  { intros k s Hk. destruct (steps_running rust_of executable program program_vm_addr config Hv (S k) B _ _ Hr Hk) as [B' Hr'].
    by apply (running_pc executable program config Hv Hoff B'). }
  exists s'. split_and!; [done|by apply continue_stops| |].
  - intros st' Hm Hs Hb Hd Hdis. by apply (session_returns rust_of executable program program_vm_addr fuel st st').
  - intros R op Hop. destruct (inspect_safe executable program config Hv Hoff B op d Hr Hop) as (r & d' & E & Hsame & Hafter).
    exists r, d'. split_and!; [done|done|done|]. by apply (same_machine_running program config B d).
Qed.

(** ** Examples *)

#[local] Existing Instances le_reference.

(** A client that sends nothing and leaves when the program has ended; the stub records what was
    reported. *)
#[local] Instance silent_stub : GdbStub := {
  Stub := Mode * list SingleThreadStopReason;
  mode := fst;
  conn_read _ := None;
  conn_peek st := Some (false, st);
  incoming_data st _ := Done st;
  interrupt_handled st _ := Done st;
  report_stop st reason :=
    Done (match reason with Exited _ | Terminated _ => Disconnected | _ => Idle end, st.2 ++ [reason]);
}.

(** [mov64 r0, 7; exit], whose text is at offset 64 of its file. *)
Definition debug_text : list Z := [0xb7; 0; 0; 0; 7; 0; 0; 0; 0x95; 0; 0; 0; 0; 0; 0; 0].
Definition debug_executable : Executable :=
  {| elf_bytes := replicate 64 0 ++ debug_text; sbpf_version := V4; ro_section := Owned 0 []; text_section_vaddr := MM_BYTECODE_START;
     text_section_range := (64, 80); entry_pc := 0; function_registry := ∅; loader := new_mock |}.
Definition debug_machine : EbpfVm Z :=
  {| call_depth := 0; context_object := 10; previous_instruction_meter := 10; due_insn_count := 0; registers := replicate 12 0;
     program_result := SOk 0; memory_mapping := example_mapping; call_frames := replicate 64 default_frame; vm_loader := new_mock;
     register_trace := []; host_memory := zero_memory 0x1000 16 |}.
Definition debug_start (pc : Z) : Interpreter Z := mkInterp debug_machine (replicate 11 0 ++ [pc]).

Lemma debug_verified : verified debug_executable debug_text default_config.
Proof.
  assert (Hb : bytes_ok debug_text) by (apply (bool_decide_unpack _); vm_compute; exact I).
  assert (Hl : slice_len_ok debug_text) by (vm_compute; congruence).
  split; [done|exact default_config_ok|done|done| |].
  - pose proof (verify_decides debug_text V4 Hb Hl) as Hd. replace (verify debug_text V4) with (Ret (E := VerifierError) tt) in Hd by (by vm_compute). exact Hd.
  - intros k name pc Hk. vm_compute in Hk. congruence.
Qed.

Lemma debug_running : running debug_text default_config 10 (debug_start 0).
Proof.
  split; [split|].
  - split; try done; [split; [done|by repeat constructor]|apply Forall_replicate; split_and!; [done|by repeat constructor|done|done]|exact example_mem_inv].
  - split; [done|by repeat constructor].
  - done.
  - exists 0. split; [done|]. vm_compute. split; congruence.
Qed.

Lemma debugged_run_witness : exists s',
  execute (Gdb := silent_stub) nop_syscall debug_executable debug_text MM_BYTECODE_START 12 (Running, []) (debug_new (debug_start 0))
    = Ret (with_interpreter (debug_new (debug_start 0)) s') /\
  s'.(vm).(program_result) = SOk 7.
Proof.
  destruct (debugged_run (Gdb := silent_stub) nop_syscall nop_syscall_ok debug_executable debug_text MM_BYTECODE_START default_config
    11 10 (Running, []) (debug_new (debug_start 0))) as (s' & Hrun & _ & Hsession & _).
  - exact debug_verified.
  - vm_compute. split; congruence.
  - exact debug_running.
  - lia.
  - reflexivity.
  - assert (Hs : match run_interpreter nop_syscall debug_executable debug_text MM_BYTECODE_START 11 (debug_start 0) with
      | Ret s => Some s.(vm).(program_result) | _ => None end = Some (SOk 7)) by (vm_compute; reflexivity).
    change (debug_start 0) with (interpreter (debug_new (debug_start 0))) in Hs. rewrite Hrun in Hs. injection Hs as Hs.
    exists s'. split; [|exact Hs].
    apply (Hsession (Disconnected, [Exited 7])); [reflexivity|reflexivity|reflexivity| |reflexivity].
    unfold end_reason. rewrite Hs. reflexivity.
Defined.

(** ** Limits *)

Definition pc_after (m : Exec EbpfError (DebugInterpreter Z)) : option Z :=
  match m with Ret d => d.(interpreter).(reg) !! 11%nat | _ => None end.

(** A client that reads all registers and writes them back moves the program counter: it is shown
    as an offset in the file, and taken as the index of an instruction. *)
Example registers_written_back :
  pc_after (let d := debug_new (debug_start 1) in let! regs := read_registers debug_executable d in write_registers regs d) = Some 72.
Proof. vm_compute. reflexivity. Qed.

Definition reported (m : Exec EbpfError (Mode * list SingleThreadStopReason * DebugInterpreter Z)) :
    option (list SingleThreadStopReason * ProgramResult) :=
  match m with Ret (st, d) => Some (st.2, d.(interpreter).(vm).(program_result)) | _ => None end.

(** A step over an [exit] that has a breakpoint ends the program, with 5 here, and is reported as
    the breakpoint. *)
Example step_hides_exit :
  reported (run_step (Gdb := silent_stub) nop_syscall debug_executable debug_text MM_BYTECODE_START (Running, [])
    (mkDebug (mkInterp debug_machine (5 :: replicate 10 0 ++ [1])) Step [72])) = Some ([SwBreak], SOk 5).
Proof. vm_compute. reflexivity. Qed.
