(* ===== verification/TestSyscalls.v ===== *)
(** The built-in functions of the test utilities (test_utils/src/syscalls.rs) and the
    context object they run with: definitions, the contract of built-in functions that they
    meet, and what they do to memory.  What they print is not modelled. *)
From Stdlib Require Import String.
From S2P Require Import Prelude Text Error Ebpf Program MemoryRegion MemoryMapping MappingSearch MappingAccess.
From S2P Require Import Vm Interpreter InterpreterSafety.
Open Scope rust_scope.
Open Scope list_scope.

(** * The context *)

(** The field is a [u64]. *)
(* test_utils/src/lib.rs:23-28, TestContextObject *)
Record TestContextObject := mkTest { remaining : Z; remaining_range : in_u 64 remaining }.

Lemma saturating_sub_range (a b : Z) : in_u 64 a -> in_u 64 (u64_saturating_sub a (Z.max 0 b)).
Proof. unfold in_u, u64_saturating_sub. lia. Qed.

(** [amount] is a [u64], so its maximum with 0 is itself. *)
(* test_utils/src/lib.rs:30-38, ContextObject for TestContextObject *)
#[export] Instance TestContextObject_context : ContextObject TestContextObject := {|
  consume self amount :=
    mkTest (u64_saturating_sub self.(remaining) (Z.max 0 amount)) (saturating_sub_range self.(remaining) amount self.(remaining_range));
  get_remaining self := self.(remaining);
|}.

#[export] Instance TestContextObject_laws : MeterLaws TestContextObject.
Proof.
  split.
  - intros c. apply remaining_range.
  - intros c amount Ha. cbn. by rewrite Z.max_r.
Qed.

(* test_utils/src/lib.rs:40-45, TestContextObject::new *)
Definition test_context_new (remaining : Z) (range : in_u 64 remaining) : TestContextObject := mkTest remaining range.

(** * Syscalls *)

(** The text of an error, and the conversion to floating point with the logarithm to base 16,
    rounded down to a [u64], whose precision Rust leaves open. *)
Class SyscallHost := {
  ebpf_display : EbpfError -> string;
  f64_log16_floor : Z -> Z;
  f64_log16_floor_range x : 0 < x < 2 ^ 64 -> 0 <= f64_log16_floor x <= 64;
}.

(** [*(addr as *const u8)] *)
Definition read_u8 {E} (hm : HostMem) (addr : Z) : Exec E Z := expect InvalidHostAccess (hm !! addr).

(** The loop of [SyscallMemFrob] from [i] on, for [n] more bytes. *)
(* test_utils/src/syscalls.rs:103-108, SyscallMemFrob::rust *)
Fixpoint frob_bytes {E} (n : nat) (host_addr i : Z) (hm : HostMem) : Exec E HostMem :=
  match n with
  | O => Ret hm
  | S n =>
      let! p := u64_add host_addr i in
      let! byte := read_u8 hm p in
      frob_bytes n host_addr (i + 1) (<[p := Z.lxor byte 42]> hm)
  end.

(** The loop of [SyscallStrCmp]. *)
(* test_utils/src/syscalls.rs:136-141, SyscallStrCmp::rust *)
Fixpoint strcmp_loop {E} (fuel : nat) (hm : HostMem) (a b a_val b_val : Z) : Exec E (Z * Z) :=
  match fuel with
  | O => Panic OutOfFuel
  | S fuel =>
      if (a_val =? b_val) && negb (a_val =? 0) && negb (b_val =? 0) then
        let! a := u64_add a 1 in
        let! b := u64_add b 1 in
        let! a_val := read_u8 hm a in
        let! b_val := read_u8 hm b in
        strcmp_loop fuel hm a b a_val b_val
      else Ret (a_val, b_val)
  end.

(** Each turn reads another byte of the host memory, so one turn more than it has bytes is enough. *)
Definition strcmp_fuel (hm : HostMem) : nat := S (size hm).

Section Syscalls.
Context `{Host : SyscallHost} {C : Type}.

(** The end of a syscall that does not touch memory. *)
Definition returns {E} (value : Z) (context : C) (mm : MemoryMapping) (hm : HostMem) :
    Exec E (Result Z string * C * MemoryMapping * HostMem) := Ret (Ok value, context, mm, hm).

(** [map(..)?] and the rest of the syscall. *)
Definition mapped {E} (access_type : AccessType) (vm_addr len : Z) (context : C) (mm : MemoryMapping) (hm : HostMem)
    (rest : Z -> MemoryMapping -> Exec E (Result Z string * C * MemoryMapping * HostMem)) :
    Exec E (Result Z string * C * MemoryMapping * HostMem) :=
  let! (host_addr, mm) := mapping_map mm access_type vm_addr len in
  match host_addr with
  | SOk host_addr => rest host_addr mm
  | SErr err => Ret (Error (ebpf_display err), context, mm, hm)
  end.

(* test_utils/src/syscalls.rs:46-52, SyscallTracePrintf::rust *)
Definition size_arg {E} (x : Z) : Exec E Z := if x =? 0 then Ret 1 else u64_add (f64_log16_floor x) 1.

(* test_utils/src/syscalls.rs:36-57, SyscallTracePrintf::rust *)
Definition SyscallTracePrintf : RustFunction C := fun E context _ _ arg3 arg4 arg5 mm hm =>
  let text := zlen (str "bpf_trace_printf: 0x, 0x, 0x" ++ [10]) in
  let! s3 := size_arg arg3 in
  let! n := u64_add text s3 in
  let! s4 := size_arg arg4 in
  let! n := u64_add n s4 in
  let! s5 := size_arg arg5 in
  let! n := u64_add n s5 in
  returns n context mm hm.

(* test_utils/src/syscalls.rs:64-78, SyscallGatherBytes::rust *)
Definition SyscallGatherBytes : RustFunction C := fun E context arg1 arg2 arg3 arg4 arg5 mm hm =>
  returns (Z.lor (Z.lor (Z.lor (Z.lor (u_wrapping_shl 64 arg1 32) (u_wrapping_shl 64 arg2 24)) (u_wrapping_shl 64 arg3 16))
    (u_wrapping_shl 64 arg4 8)) arg5) context mm hm.

(* test_utils/src/syscalls.rs:88-110, SyscallMemFrob::rust *)
Definition SyscallMemFrob : RustFunction C := fun E context vm_addr len _ _ _ mm hm =>
  if len =? 0 then returns 0 context mm hm
  else mapped Store vm_addr len context mm hm (fun host_addr mm =>
    let! hm := frob_bytes (Z.to_nat len) host_addr 0 hm in
    returns 0 context mm hm).

(* test_utils/src/syscalls.rs:116-148, SyscallStrCmp::rust *)
Definition SyscallStrCmp : RustFunction C := fun E context arg1 arg2 _ _ _ mm hm =>
  if (arg1 =? 0) || (arg2 =? 0) then returns u64_max context mm hm
  else mapped Load arg1 1 context mm hm (fun a mm => mapped Load arg2 1 context mm hm (fun b mm =>
    let! a_val := read_u8 hm a in
    let! b_val := read_u8 hm b in
    let! (a_val, b_val) := strcmp_loop (strcmp_fuel hm) hm a b a_val b_val in
    if b_val <=? a_val then returns (a_val - b_val) context mm hm
    else returns (b_val - a_val) context mm hm)).

(** The bytes of the message are read, the message itself is only printed. *)
(* test_utils/src/syscalls.rs:154-176, SyscallString::rust *)
Definition SyscallString : RustFunction C := fun E context vm_addr len _ _ _ mm hm =>
  if len =? 0 then returns 0 context mm hm
  else mapped Load vm_addr len context mm hm (fun host_addr mm =>
    let! c_buf := expect InvalidHostAccess (mapM (fun a => hm !! a) (host_addrs host_addr (Z.to_nat len))) in
    returns 0 context mm hm).

(* test_utils/src/syscalls.rs:182-196, SyscallU64::rust *)
Definition SyscallU64 : RustFunction C := fun E context _ _ _ _ _ mm hm => returns 0 context mm hm.
End Syscalls.

(** * The contract of built-in functions *)

Lemma mapping_map_spec {X} (hm : HostMem) (self : MemoryMapping) (ty : AccessType) (addr size : Z) :
  mem_inv hm self -> in_u 64 addr ->
  exists res self', mapping_map (X := X) self ty addr size = Ret (res, self') /\
    mapping_equiv self self' /\ mem_inv hm self' /\
    match res with SOk h => translated self ty addr size h | SErr _ => ~ exists h, translated self ty addr size h end.
Proof.
  intros Hinv Ha. pose proof Hinv as [Hh Hm Hwf Hb (common & Hc & _)]. unfold mapping_map.
  destruct (find_region_spec (X := X) self addr Hm) as (self' & -> & He & Hm'). cbn [exec_bind].
  assert (Hinv' : mem_inv hm self') by by apply (mem_inv_equiv hm self).
  rewrite <-(common_of_proper _ _ He), Hc.
  destruct (generate_access_violation_err common ty addr size) as [err Herr].
  destruct (found_region self addr) as [[i r]|] eqn:Hf.
  - destruct (vm_to_host r ty addr size) as [h|] eqn:Hv.
    + exists (SOk h), self'. split_and!; [done..|]. by exists i, r.
    + rewrite Herr. exists (SErr err), self'. split_and!; [done..|]. intros (h & j & r' & Hj & Hv'). congruence.
  - rewrite Herr. exists (SErr err), self'. split_and!; [done..|]. intros (h & j & r' & Hj & Hv'). congruence.
Qed.

(** The bytes from [addr] on, [n] of them, with the sixth, fourth and second bit flipped. *)
Definition frobbed (hm hm' : HostMem) (addr n : Z) : Prop :=
  forall a, hm' !! a = (if decide (addr <= a < addr + n) then (fun b => Z.lxor b 42) <$> hm !! a else hm !! a).

Lemma frob_bytes_spec {E} (n : nat) (host_addr i : Z) (hm : HostMem) :
  0 <= host_addr + i -> host_addr + i + Z.of_nat n < 2 ^ 64 -> host_mapped hm (host_addr + i) (Z.of_nat n) ->
  exists hm', frob_bytes (E := E) n host_addr i hm = Ret hm' /\ frobbed hm hm' (host_addr + i) (Z.of_nat n).
Proof.
  revert i hm. induction n as [|n IH]; intros i hm H0 Hn Hm; cbn [frob_bytes].
  { exists hm. split; [done|]. intros a. by rewrite decide_False by lia. }
  rewrite u64_add_small by lia. cbn [exec_bind]. unfold read_u8.
  destruct (Hm (host_addr + i)) as [b Hb]; [lia|]. rewrite Hb. cbn [expect exec_bind].
  destruct (IH (i + 1) (<[host_addr + i := Z.lxor b 42]> hm)) as (hm' & -> & Hl); [lia|lia| |].
  { intros a Ha. destruct (decide (a = host_addr + i)) as [->|]; [by rewrite lookup_insert_eq|].
    rewrite lookup_insert_ne by done. apply Hm. lia. }
  exists hm'. split; [done|]. intros a. rewrite Hl. destruct (decide (a = host_addr + i)) as [->|Hne].
  - rewrite decide_False, decide_True, lookup_insert_eq, Hb by lia. done.
  - rewrite lookup_insert_ne by done. destruct (decide (host_addr + i <= a < _)).
    + by rewrite decide_True by lia.
    + by rewrite decide_False by lia.
Qed.

Lemma frobbed_ok (hm hm' : HostMem) (addr n : Z) : host_ok hm -> frobbed hm hm' addr n -> host_ok hm' /\ dom hm' = dom hm.
Proof.
  intros Hok Hf. split.
  - intros a b. rewrite Hf. destruct (decide _); [|apply Hok].
    intros (b0 & Hb0 & ->)%fmap_Some. apply lxor_range; [lia|by apply (Hok a)|done].
  - apply set_eq. intros a. rewrite !elem_of_dom, Hf. destruct (decide _); [|done]. by rewrite fmap_is_Some.
Qed.

(** Flipping the bits again gives the memory back. *)
Lemma frobbed_twice (hm hm1 hm2 : HostMem) (addr n : Z) : frobbed hm hm1 addr n -> frobbed hm1 hm2 addr n -> hm2 = hm.
Proof.
  intros H1 H2. apply map_eq. intros a. rewrite H2, !H1. destruct (decide _); [|done].
  destruct (hm !! a) as [b|]; [|done]. cbn. by rewrite Z.lxor_assoc, Z.lxor_nilpotent, Z.lxor_0_r.
Qed.

Lemma frob_translated {E} (hm : HostMem) (mm : MemoryMapping) (vm_addr len h : Z) :
  mem_inv hm mm -> in_u 64 vm_addr -> 0 <= len -> translated mm Store vm_addr len h ->
  exists hm', frob_bytes (E := E) (Z.to_nat len) h 0 hm = Ret hm' /\ frobbed hm hm' h len /\ mem_inv hm' mm.
Proof.
  intros Hm Ha Hl Ht.
  destruct (translated_mapped hm mm Store vm_addr len h Hm Ha Hl Ht) as ([Hh _] & Hmap & r & Hr & _ & _ & Hend).
  pose proof (mi_backed _ _ Hm) as Hb. rewrite Forall_forall in Hb. destruct (Hb r Hr) as [Hlim _].
  destruct (frob_bytes_spec (E := E) (Z.to_nat len) h 0 hm) as (hm' & Hrun & Hf); rewrite ?Z.add_0_r, ?Z2Nat.id by lia; [lia|lia|done|].
  rewrite Z.add_0_r, Z2Nat.id in Hf by lia. exists hm'. split_and!; [done|done|].
  destruct (frobbed_ok hm hm' h len (mi_host _ _ Hm) Hf) as [Hok Hdom].
  apply (mem_inv_host hm); [done|done|by rewrite Hdom].
Qed.

Section Contract.
Context `{Host : SyscallHost} `{Ctx : ContextObject C}.

(** What the contract of built-in functions says of one call. *)
Definition call_ok {E} (context : C) (m : Exec E (Result Z string * C * MemoryMapping * HostMem)) : Prop :=
  exists r c' mm' hm', m = Ret (r, c', mm', hm') /\ mem_inv hm' mm' /\ get_remaining c' <= get_remaining context /\
    match r with Ok value => in_u 64 value | Error _ => True end.

Lemma returns_ok {E} (value : Z) (context : C) (mm : MemoryMapping) (hm : HostMem) :
  mem_inv hm mm -> in_u 64 value -> call_ok context (returns (E := E) value context mm hm).
Proof. intros Hm Hv. exists (Ok value), context, mm, hm. split_and!; [done|done|lia|done]. Qed.

Lemma mapped_ok {E} (ty : AccessType) (vm_addr len : Z) (context : C) (mm : MemoryMapping) (hm : HostMem) rest :
  mem_inv hm mm -> in_u 64 vm_addr -> 0 <= len ->
  (forall h mm', mapping_equiv mm mm' -> mem_inv hm mm' -> translated mm ty vm_addr len h -> host_mapped hm h len ->
     0 <= h -> h + len < 2 ^ 64 -> call_ok context (rest h mm')) ->
  call_ok context (mapped (E := E) ty vm_addr len context mm hm rest).
Proof.
  intros Hm Ha Hlen Hrest. unfold mapped.
  destruct (mapping_map_spec (X := E) hm mm ty vm_addr len Hm Ha) as (res & mm' & -> & He & Hm' & Hres). cbn [exec_bind].
  destruct res as [h|err]; [|exists (Error (ebpf_display err)), context, mm', hm; split_and!; [done|done|lia|done]].
  destruct (translated_mapped hm mm ty vm_addr len h Hm Ha Hlen Hres) as ([Hh _] & Hmap & r & Hr & _ & _ & Hend).
  apply (Hrest h mm' He Hm' Hres Hmap Hh). pose proof (mi_backed _ _ Hm) as Hb. rewrite Forall_forall in Hb.
  destruct (Hb r Hr) as [Hlim _]. lia.
Qed.

Lemma size_arg_spec {E} (x : Z) : in_u 64 x -> exists n, size_arg (E := E) x = Ret n /\ 1 <= n <= 65.
Proof.
  intros [H0 H1]. unfold size_arg. destruct (Z.eqb_spec x 0); [by exists 1|].
  pose proof (f64_log16_floor_range x ltac:(lia)). rewrite u64_add_small by lia. eexists. split; [done|lia].
Qed.

#[export] Instance SyscallTracePrintf_ok : RustOk (C := C) SyscallTracePrintf.
Proof.
  intros E c a1 a2 a3 a4 a5 mm hm Hm Ha. change (call_ok c (SyscallTracePrintf E c a1 a2 a3 a4 a5 mm hm)).
  rewrite !Forall_cons in Ha. destruct Ha as (_ & _ & H3 & H4 & H5 & _).
  unfold SyscallTracePrintf. set (text := zlen _). change text with 29.
  destruct (size_arg_spec (E := E) a3 H3) as (n3 & -> & ?). cbn [exec_bind]. rewrite u64_add_small by lia. cbn [exec_bind].
  destruct (size_arg_spec (E := E) a4 H4) as (n4 & -> & ?). cbn [exec_bind]. rewrite u64_add_small by lia. cbn [exec_bind].
  destruct (size_arg_spec (E := E) a5 H5) as (n5 & -> & ?). cbn [exec_bind]. rewrite u64_add_small by lia. cbn [exec_bind].
  apply returns_ok; [done|]. unfold in_u. lia.
Qed.

#[export] Instance SyscallGatherBytes_ok : RustOk (C := C) SyscallGatherBytes.
Proof.
  intros E c a1 a2 a3 a4 a5 mm hm Hm Ha. change (call_ok c (SyscallGatherBytes E c a1 a2 a3 a4 a5 mm hm)).
  rewrite !Forall_cons in Ha. destruct Ha as (_ & _ & _ & _ & H5 & _).
  apply returns_ok; [done|]. repeat (apply lor_range; [lia| |]); try done;
    unfold u_wrapping_shl, uwrap, in_u; apply Z.mod_pos_bound; lia.
Qed.

#[export] Instance SyscallMemFrob_ok : RustOk (C := C) SyscallMemFrob.
Proof.
  intros E c a1 a2 a3 a4 a5 mm hm Hm Ha. change (call_ok c (SyscallMemFrob E c a1 a2 a3 a4 a5 mm hm)).
  rewrite !Forall_cons in Ha. destruct Ha as (H1 & [H2 _] & _). unfold SyscallMemFrob.
  destruct (_ =? _); [by apply returns_ok|]. apply mapped_ok; [done..|]. intros h mm' He Hm' Ht _ _ _.
  destruct (frob_translated (E := E) hm mm a1 a2 h Hm H1 H2 Ht) as (hm' & -> & _ & Hm1). cbn [exec_bind].
  apply returns_ok; [|done]. apply (mem_inv_equiv hm' mm); [done|done|apply Hm'].
Qed.

#[export] Instance SyscallString_ok : RustOk (C := C) SyscallString.
Proof.
  intros E c a1 a2 a3 a4 a5 mm hm Hm Ha. change (call_ok c (SyscallString E c a1 a2 a3 a4 a5 mm hm)).
  rewrite !Forall_cons in Ha. destruct Ha as (H1 & [H2 _] & _). unfold SyscallString.
  destruct (_ =? _); [by apply returns_ok|]. apply mapped_ok; [done..|]. intros h mm' He Hm' _ Hmap Hh Hlim.
  assert (is_Some (mapM (fun a => hm !! a) (host_addrs h (Z.to_nat a2)))) as [bs ->].
  { apply mapM_is_Some, Forall_forall. intros a Hin%elem_of_seqZ. apply Hmap. lia. }
  cbn [expect exec_bind]. by apply returns_ok.
Qed.

#[export] Instance SyscallU64_ok : RustOk (C := C) SyscallU64.
Proof. intros E c a1 a2 a3 a4 a5 mm hm Hm Ha. by apply returns_ok. Qed.
End Contract.

(** * What the syscalls do *)

(** A [strcmp] on lists: 0 for equal lists, else the distance of the first bytes that differ,
    where a list that ends has a zero. *)
Fixpoint first_difference (s t : list Z) : Z :=
  match s, t with
  | [], [] => 0
  | x :: _, [] => x
  | [], y :: _ => y
  | x :: s, y :: t => if x =? y then first_difference s t else Z.abs (x - y)
  end.

(** A string without zeros, at an address of the host and with a zero behind it. *)
Definition c_string (hm : HostMem) (addr : Z) (s : list Z) : Prop :=
  Forall (fun b => 0 < b < 256) s /\ 0 <= addr /\ addr + zlen s < 2 ^ 64 /\
  forall i : nat, (i <= length s)%nat -> hm !! (addr + Z.of_nat i) = (s ++ [0]) !! i.

Definition first_byte (s : list Z) : Z := match s with [] => 0 | b :: _ => b end.

Lemma c_string_head (hm : HostMem) (addr : Z) (s : list Z) : c_string hm addr s ->
  hm !! addr = Some (first_byte s).
Proof. intros (_ & _ & _ & Hs). specialize (Hs O ltac:(lia)). rewrite Z.add_0_r in Hs. rewrite Hs. by destruct s. Qed.

Lemma c_string_tail (hm : HostMem) (addr b : Z) (s : list Z) : c_string hm addr (b :: s) -> c_string hm (addr + 1) s.
Proof.
  intros (Hb & H0 & Hlim & Hs). rewrite zlen_cons in Hlim. apply Forall_cons in Hb as [_ Hb]. split_and!; [done|lia|lia|].
  intros i Hi. specialize (Hs (S i) ltac:(cbn; lia)). replace (addr + 1 + Z.of_nat i) with (addr + Z.of_nat (S i)) by lia. done.
Qed.

Lemma c_string_size (hm : HostMem) (addr : Z) (s : list Z) : c_string hm addr s -> (length s < size hm)%nat.
Proof.
  intros (_ & _ & _ & Hs). rewrite <-size_dom.
  set (A := list_to_set (seqZ addr (Z.of_nat (S (length s)))) : gset Z).
  assert (HA : A ⊆ dom hm).
  { intros a (Ha & Hlt)%elem_of_list_to_set%elem_of_seqZ. specialize (Hs (Z.to_nat (a - addr)) ltac:(lia)).
    apply elem_of_dom. replace (addr + Z.of_nat (Z.to_nat (a - addr))) with a in Hs by lia. rewrite Hs.
    apply lookup_lt_is_Some. rewrite length_app. cbn. lia. }
  apply subseteq_size in HA. unfold A in HA. rewrite size_list_to_set, length_seqZ in HA by apply NoDup_seqZ. lia.
Qed.

Lemma strcmp_loop_spec {E} (hm : HostMem) (s : list Z) : forall t fuel a b,
  c_string hm a s -> c_string hm b t -> (length s < fuel)%nat ->
  exists x y, strcmp_loop (E := E) fuel hm a b (first_byte s) (first_byte t) = Ret (x, y) /\
    Z.abs (x - y) = first_difference s t.
Proof.
  induction s as [|x s IH]; intros t [|fuel] a b Hs Ht Hf; cbn [length] in Hf; try lia; cbn [strcmp_loop].
  - rewrite Z.eqb_refl, andb_false_r. cbn [andb]. eexists _, _. split; [done|].
    destruct t as [|y t]; [done|]. destruct Ht as [Hy _]. apply Forall_cons in Hy as [Hy _]. cbn. lia.
  - cbn [first_byte]. pose proof Hs as (Hx & _ & Hlx & _). apply Forall_cons in Hx as [Hx _]. rewrite zlen_cons in Hlx.
    destruct t as [|y t]; cbn [first_byte].
    { rewrite (proj2 (Z.eqb_neq x 0)) by lia. cbn [andb]. eexists _, _. split; [done|]. cbn. lia. }
    pose proof Ht as (Hy & _ & Hly & _). apply Forall_cons in Hy as [Hy _]. rewrite zlen_cons in Hly. cbn [first_difference].
    pose proof (zlen_nonneg s). pose proof (zlen_nonneg t).
    destruct (Z.eqb_spec x y) as [<-|Hne]; [|by eexists _, _].
    rewrite (proj2 (Z.eqb_neq x 0)) by lia. cbn [andb negb]. rewrite !u64_add_small by lia. cbn [exec_bind]. unfold read_u8.
    apply c_string_tail in Hs, Ht. rewrite (c_string_head _ _ _ Hs), (c_string_head _ _ _ Ht). cbn [expect exec_bind].
    apply IH; [done|done|lia].
Qed.

Lemma first_difference_eq (s t : list Z) : Forall (fun b => 0 < b < 256) s -> Forall (fun b => 0 < b < 256) t ->
  first_difference s t = 0 <-> s = t.
Proof.
  intros Hs. revert t. induction Hs as [|x s Hx Hs IH]; intros t Ht; destruct Ht as [|y t Hy Ht]; cbn [first_difference]; try done.
  - split; [lia|done].
  - split; [lia|done].
  - destruct (Z.eqb_spec x y) as [<-|Hne]; [|split; [lia|congruence]]. rewrite (IH t Ht). split; [by intros ->|by intros [=]].
Qed.

(** The comparison of strings.  For two addresses that can be read, with strings that end in
    a zero behind them in the host memory, [SyscallStrCmp] returns the distance of the
    first bytes that differ, and 0 exactly for equal strings; its loop ends, nothing is
    written, and the meter is not touched. *)
Theorem strcmp_compares `{Host : SyscallHost} {C E : Type} (context : C) (hm : HostMem) (mm : MemoryMapping)
    (arg1 arg2 a3 a4 a5 a b : Z) (s t : list Z) :
  mem_inv hm mm -> in_u 64 arg1 -> in_u 64 arg2 -> arg1 <> 0 -> arg2 <> 0 ->
  translated mm Load arg1 1 a -> translated mm Load arg2 1 b -> c_string hm a s -> c_string hm b t ->
  exists mm', SyscallStrCmp E context arg1 arg2 a3 a4 a5 mm hm = Ret (Ok (first_difference s t), context, mm', hm) /\
    mapping_equiv mm mm' /\ (first_difference s t = 0 <-> s = t).
Proof.
  intros Hm H1 H2 Hn1 Hn2 Ha Hb Hs Ht. unfold SyscallStrCmp, mapped.
  rewrite (proj2 (Z.eqb_neq arg1 0) Hn1), (proj2 (Z.eqb_neq arg2 0) Hn2). cbn [orb].
  destruct (mapping_map_spec (X := E) hm mm Load arg1 1 Hm H1) as (r1 & mm1 & -> & He1 & Hm1 & Hr1). cbn [exec_bind].
  destruct r1 as [a'|]; [|by destruct Hr1; exists a]. assert (a' = a) as -> by (destruct Hr1 as (? & ? & ? & ?), Ha as (? & ? & ? & ?); congruence).
  destruct (mapping_map_spec (X := E) hm mm1 Load arg2 1 Hm1 H2) as (r2 & mm2 & -> & He2 & Hm2 & Hr2). cbn [exec_bind].
  assert (Hb1 : translated mm1 Load arg2 1 b) by (destruct Hb as (i & r & Hf & Hv); exists i, r; by rewrite <-He1).
  destruct r2 as [b'|]; [|by destruct Hr2; exists b]. assert (b' = b) as -> by (destruct Hr2 as (? & ? & ? & ?), Hb1 as (? & ? & ? & ?); congruence).
  unfold read_u8. rewrite (c_string_head _ _ _ Hs), (c_string_head _ _ _ Ht). cbn [expect exec_bind].
  destruct (strcmp_loop_spec (E := E) hm s t (strcmp_fuel hm) a b Hs Ht) as (x & y & -> & Hd);
    [pose proof (c_string_size _ _ _ Hs); unfold strcmp_fuel; lia|]. cbn [exec_bind].
  exists mm2. split; [|split; [by rewrite He1|apply first_difference_eq; [apply Hs|apply Ht]]].
  unfold returns. rewrite <-Hd. destruct (Z.leb_spec y x); do 5 f_equal; lia.
Qed.

(** Frobbing memory.  Over any consistent mapping [SyscallMemFrob] either flips bits 1, 3 and 5 of
    exactly the bytes of the range, which lie in one writable region, and the same call again gives the
    memory back, or, when the range is not writable as a whole, returns an error and writes nothing. *)
Theorem memfrob_twice `{Host : SyscallHost} {C E : Type} (context : C) (hm : HostMem) (mm : MemoryMapping) (vm_addr len a3 a4 a5 : Z) :
  mem_inv hm mm -> in_u 64 vm_addr -> in_u 64 len ->
  (exists h mm' hm', (len = 0 \/ translated mm Store vm_addr len h) /\ frobbed hm hm' h len /\
     SyscallMemFrob E context vm_addr len a3 a4 a5 mm hm = Ret (Ok 0, context, mm', hm') /\
     exists mm'', SyscallMemFrob E context vm_addr len a3 a4 a5 mm' hm' = Ret (Ok 0, context, mm'', hm)) \/
  (len <> 0 /\ ~ (exists h, translated mm Store vm_addr len h) /\
     exists text mm', SyscallMemFrob E context vm_addr len a3 a4 a5 mm hm = Ret (Error text, context, mm', hm)).
Proof.
  intros Hm Ha [Hl0 Hl]. unfold SyscallMemFrob, mapped. destruct (Z.eqb_spec len 0) as [->|Hne].
  { left. exists 0, mm, hm. split_and!; [by left|intros a; by rewrite decide_False by lia|done|by exists mm]. }
  destruct (mapping_map_spec (X := E) hm mm Store vm_addr len Hm Ha) as (res & mm1 & -> & He1 & Hm1 & Hres). cbn [exec_bind].
  destruct res as [h|err]; [left|right; split_and!; [done|done|by eexists _, _]].
  destruct (frob_translated (E := E) hm mm vm_addr len h Hm Ha Hl0 Hres) as (hm1 & Hf1 & Hfr1 & Hm1'). rewrite Hf1. cbn [exec_bind].
  exists h, mm1, hm1. split_and!; [by right|done|done|].
  assert (Hinv : mem_inv hm1 mm1) by (by apply (mem_inv_equiv hm1 mm); [..|apply Hm1]).
  destruct (mapping_map_spec (X := E) hm1 mm1 Store vm_addr len Hinv Ha) as (res & mm2 & -> & He2 & Hm2 & Hres2). cbn [exec_bind].
  assert (Ht : translated mm1 Store vm_addr len h) by (destruct Hres as (i & r & Hf & Hv); exists i, r; by rewrite <-He1).
  destruct res as [h'|]; [|by destruct Hres2; exists h].
  assert (h' = h) as -> by (destruct Hres2 as (? & ? & ? & ?), Ht as (? & ? & ? & ?); congruence).
  destruct (frob_translated (E := E) hm1 mm1 vm_addr len h Hinv Ha Hl0 Ht) as (hm2 & -> & Hfr2 & _). cbn [exec_bind].
  exists mm2. unfold returns. do 3 f_equal. by apply (frobbed_twice hm hm1 hm2 h len).
Qed.

(** For bytes, [SyscallGatherBytes] is the number with the first argument as its most significant byte. *)
Lemma gather_bytes {C E : Type} (context : C) (a1 a2 a3 a4 a5 : Z) (mm : MemoryMapping) (hm : HostMem) :
  Forall is_byte [a1; a2; a3; a4; a5] ->
  SyscallGatherBytes E context a1 a2 a3 a4 a5 mm hm = returns (le_value [a5; a4; a3; a2; a1]) context mm hm.
Proof.
  rewrite !Forall_cons. unfold is_byte, in_u. intros (H1 & H2 & H3 & H4 & H5 & _). unfold SyscallGatherBytes. f_equal.
  assert (Hshl : forall a s, 0 <= a < 256 -> 0 <= s <= 32 -> u_wrapping_shl 64 a s = Z.shiftl a s).
  { intros a s Ha Hs. unfold u_wrapping_shl, uwrap. rewrite (Z.mod_small s) by lia. apply Z.mod_small.
    rewrite Z.shiftl_mul_pow2 by lia. pose proof (Z.pow_le_mono_r 2 s 32). pose proof (Z.pow_nonneg 2 s). nia. }
  rewrite !Hshl by lia.
  replace (Z.shiftl a1 32) with (Z.shiftl (Z.shiftl (Z.shiftl (Z.shiftl a1 8) 8) 8) 8) by by rewrite !Z.shiftl_shiftl.
  replace (Z.shiftl a2 24) with (Z.shiftl (Z.shiftl (Z.shiftl a2 8) 8) 8) by by rewrite !Z.shiftl_shiftl.
  replace (Z.shiftl a3 16) with (Z.shiftl (Z.shiftl a3 8) 8) by by rewrite !Z.shiftl_shiftl.
  rewrite <-!Z.shiftl_lor, !(Z.lor_comm _ a2), !(Z.lor_comm _ a3), !(Z.lor_comm _ a4), !(Z.lor_comm _ a5).
  cbn [le_value]. by rewrite Z.shiftl_0_l, Z.lor_0_r.
Qed.

(** * Examples *)

Lemma log2_range (x : Z) : 0 < x < 2 ^ 64 -> 0 <= Z.log2 x / 4 <= 64.
Proof.
  intros [H0 H1]. pose proof (Z.log2_nonneg x). apply Z.log2_lt_pow2 in H1; [|done].
  split; [apply Z.div_pos; lia|]. apply Z.div_le_upper_bound; lia.
Qed.
(** An embedder that shows no details of errors and whose logarithm is exact. *)
Definition plain_host : SyscallHost :=
  {| ebpf_display _ := "error"%string; f64_log16_floor x := Z.log2 x / 4; f64_log16_floor_range := log2_range |}.

Definition example_host : HostMem :=
  <[0x1000 := 97]> (<[0x1001 := 98]> (<[0x1008 := 97]> (<[0x1009 := 99]> (zero_memory 0x1000 16)))).
Lemma example_host_inv : mem_inv example_host example_mapping.
Proof.
  apply (mem_inv_host (zero_memory 0x1000 16)); [exact example_mem_inv| |].
  - unfold example_host. assert (H0 : host_ok (zero_memory 0x1000 16)) by apply example_mem_inv.
    repeat (apply map_Forall_insert_2; [by vm_compute|]). done.
  - unfold example_host. rewrite !dom_insert_L. set_solver.
Qed.

Lemma strcmp_compares_witness : exists mm',
  SyscallStrCmp (Host := plain_host) EbpfError tt 0x100000000 0x100000008 0 0 0 example_mapping example_host = Ret (Ok 1, tt, mm', example_host).
Proof.
  destruct (strcmp_compares (Host := plain_host) (E := EbpfError) tt example_host example_mapping 0x100000000 0x100000008 0 0 0
    0x1000 0x1008 [97; 98] [97; 99]) as (mm' & H & _).
  - exact example_host_inv.
  - by vm_compute.
  - by vm_compute.
  - done.
  - done.
  - exists 1, (mkRegion 0x1000 0x100000000 16 63 true None). split; vm_compute; reflexivity.
  - exists 1, (mkRegion 0x1000 0x100000000 16 63 true None). split; vm_compute; reflexivity.
  - split_and!; [by repeat (apply Forall_cons; split; [lia|])|lia|by vm_compute|]. intros [|[|[|i]]] Hi; [reflexivity..|cbn in Hi; lia].
  - split_and!; [by repeat (apply Forall_cons; split; [lia|])|lia|by vm_compute|]. intros [|[|[|i]]] Hi; [reflexivity..|cbn in Hi; lia].
  - exists mm'. exact H.
Defined.

Lemma memfrob_twice_witness : exists mm' hm' mm'',
  SyscallMemFrob (Host := plain_host) EbpfError tt 0x100000000 2 0 0 0 example_mapping example_host = Ret (Ok 0, tt, mm', hm') /\
  hm' !! 0x1000 = Some (Z.lxor 97 42) /\
  SyscallMemFrob (Host := plain_host) EbpfError tt 0x100000000 2 0 0 0 mm' hm' = Ret (Ok 0, tt, mm'', example_host).
Proof.
  destruct (memfrob_twice (Host := plain_host) (E := EbpfError) tt example_host example_mapping 0x100000000 2 0 0 0)
    as [(h & mm' & hm' & Ht & Hf & H1 & mm'' & H2)|(_ & Hno & _)].
  - exact example_host_inv.
  - by vm_compute.
  - by vm_compute.
  - exists mm', hm', mm''. split; [exact H1|]. split; [|exact H2].
    destruct Ht as [Ht|(i & r & Hr & Hv)]; [done|]. vm_compute in Hr. injection Hr as <- <-. vm_compute in Hv. injection Hv as <-.
    rewrite Hf. reflexivity.
  - exfalso. apply Hno. exists 0x1000. exists 1, (mkRegion 0x1000 0x100000000 16 63 true None). split; vm_compute; reflexivity.
Defined.

(** Only the first byte of each string is checked against the mapping.  A program whose strings do not end inside
    of their region makes the comparison read beyond it: here the byte behind the region does not exist. *)
Example strcmp_reads_outside :
  SyscallStrCmp (Host := plain_host) EbpfError tt 0x10000000f 0x10000000f 0 0 0 example_mapping (<[0x100f := 1]> (zero_memory 0x1000 16))
  = Panic InvalidHostAccess.
Proof. vm_compute. reflexivity. Qed.

(** ... and here it exists, and decides the result. *)
Example strcmp_leaks_outside :
  exists mm', SyscallStrCmp (Host := plain_host) EbpfError tt 0x100000000 0x10000000f 0 0 0 example_mapping
    (<[0x1000 := 1]> (<[0x100f := 1]> (<[0x1010 := 77]> (zero_memory 0x1000 16))))
  = Ret (Ok 77, tt, mm', <[0x1000 := 1]> (<[0x100f := 1]> (<[0x1010 := 77]> (zero_memory 0x1000 16)))).
Proof. eexists. vm_compute. reflexivity. Qed.
