(* ===== verification/TestUtils.v ===== *)
(** The machine that the tests run programs in (test_utils/src/lib.rs): its memory mapping
    and its creation, the comparison of traces, and the run of a loaded file in it, with the
    syscalls of [TestSyscalls]. *)
From Stdlib Require Import String.
From stdpp Require Import sorting.
From S2P Require Import Prelude Text Error Ebpf Program MemoryRegion MemoryMapping MappingSearch MappingAccess.
From S2P Require Import AlignedMemory ElfParser Executable ElfLoader LoaderSafety.
From S2P Require Import Verifier Vm Interpreter InterpreterSafety Execution LoadedExecution TestSyscalls.
Open Scope rust_scope.
Open Scope list_scope.

(** * Traces *)

(** The trace of the JIT can be longer, since it looks at the meter at branches only. *)
(* test_utils/src/lib.rs:47-58, compare_register_trace *)
Definition compare_register_trace {E} (interpreter jit : list (list Z)) : Exec E bool :=
  let! jit := if zlen interpreter <? zlen jit then slice_range jit (0, zlen interpreter) else Ret jit in
  Ret (bool_decide (interpreter = jit)).

(** * Machines *)

(** Where the bytes of the file, the data of an owned read-only section and an empty slice are. *)
Record Placement := mkPlacement { elf_ptr : Z; owned_ptr : Z; empty_ptr : Z }.

(** The bytes of a slice, in front of whatever else is in the memory of the host. *)
Definition place_slice (ptr : Z) (bytes : list Z) (hm : HostMem) : HostMem :=
  list_to_map (zip (seqZ ptr (zlen bytes)) bytes) ∪ hm.

Section Create.
Context `{Al : Allocator} {C : Type} (pl : Placement).

(* test_utils/src/lib.rs:204-242, create_memory_mapping *)
Definition create_memory_mapping (executable : Executable) (stack heap : AlignedMemory)
    (additional_regions : list MemoryRegion) (access_violation_handler : option AccessViolationHandler) : Exec EbpfError MemoryMapping :=
  let! config := executable_config executable in
  let sbpf_version := executable.(sbpf_version) in
  let! ro := get_ro_region pl.(elf_ptr) pl.(owned_ptr) executable.(ro_section) executable.(elf_bytes) in
  let! stack_slice := as_slice stack in
  let! stack_region := new_writable_gapped (data_ptr stack) (zlen stack_slice) MM_STACK_START
    (if stack_frame_gaps sbpf_version && config.(enable_stack_frame_gaps) then config.(stack_frame_size) else 0) in
  let! heap_slice := as_slice heap in
  let! heap_region := new_writable (data_ptr heap) (zlen heap_slice) MM_HEAP_START in
  let regions := [ro; stack_region; heap_region] ++ additional_regions in
  match access_violation_handler with
  | Some access_violation_handler => mapping_new_with_handler pl.(empty_ptr) regions config sbpf_version access_violation_handler
  | None => mapping_new pl.(empty_ptr) regions config sbpf_version
  end.

(** The stack and the heap, which the machine borrows, become part of its memory of the host. *)
(* test_utils/src/lib.rs:244-269, create_vm *)
Definition create_vm {E} (executable : Executable) (context : C) (additional_regions : list MemoryRegion)
    (access_violation_handler : option AccessViolationHandler) (hm : HostMem) : Exec E (EbpfVm C) :=
  let! config := executable_config executable in
  let! size := stack_size config in
  let! stack := zero_filled HOST_ALIGN size in
  let! heap := with_capacity HOST_ALIGN 0 in
  let stack_len := am_len stack in
  let! memory_mapping := unwrap (create_memory_mapping executable stack heap additional_regions access_violation_handler) in
  let! stack_slice := as_slice stack in
  let! heap_slice := as_slice heap in
  let hm := place_slice (data_ptr heap) heap_slice (place_slice (data_ptr stack) stack_slice hm) in
  let! vm := vm_new executable.(Executable.loader) executable.(sbpf_version) context memory_mapping hm stack_len in
  let! registers := set_index vm.(registers) 1 MM_INPUT_START in
  Ret (with_registers vm registers).
End Create.

(** * Lemmas *)

(** The comparison accepts exactly the traces that continue the one of the interpreter. *)
Lemma compare_register_trace_spec {E} (interpreter jit : list (list Z)) :
  compare_register_trace (E := E) interpreter jit = Ret (bool_decide (interpreter `prefix_of` jit)).
Proof.
  unfold compare_register_trace. destruct (Z.ltb_spec (zlen interpreter) (zlen jit)) as [Hlt|Hge]; cbn [exec_bind].
  - unfold slice_range. cbn [fst snd]. rewrite !(proj2 (Z.leb_le _ _)) by (try apply zlen_nonneg; lia). cbn [andb exec_bind].
    rewrite Z.sub_0_r, drop_0. unfold zlen. rewrite Nat2Z.id. do 2 f_equal. apply bool_decide_ext. split.
    + intros Heq. exists (drop (length interpreter) jit). rewrite Heq at 1. by rewrite take_drop.
    + intros [k ->]. by rewrite take_app_length.
  - do 2 f_equal. apply bool_decide_ext. split; [by intros ->|].
    intros Hp. pose proof (prefix_length _ _ Hp). apply prefix_length_eq; [done|]. unfold zlen in Hge. lia.
Qed.

(** ** Buffers *)

(** The buffers that the allocator grants lie in the address space. *)
Class AllocatorFits `{Al : Allocator} : Prop := {
  vec_addr_fits n : 0 <= n <= i64_max -> 0 <= vec_addr n /\ vec_addr n + vec_cap n < 2 ^ 64;
  grown_addr_fits p c n : 0 <= n <= i64_max -> 0 <= grown_addr p c (grown_cap c n) /\ grown_addr p c (grown_cap c n) + grown_cap c n < 2 ^ 64;
}.

Definition vec_fits (v : VecU8) : Prop := 0 <= v.(vec_ptr) /\ v.(vec_ptr) + capacity v < 2 ^ 64.

Section Buffers.
Context `{Al : Allocator} `{Hfits : !AllocatorFits} {E : Type}.

Lemma length_write_cells (buf : list (option Z)) (pos : Z) (bs : list Z) : 0 <= pos -> pos + zlen bs <= zlen buf ->
  zlen (write_cells buf pos bs) = zlen buf.
Proof. intros H0 H1. unfold write_cells, zlen in *. rewrite !length_app, length_take, length_fmap, length_drop. lia. Qed.

Lemma vec_resize_fits (v v' : VecU8) (n value : Z) : vec_fits v -> capacity v <= i64_max -> 0 <= v.(vec_len) <= capacity v ->
  n <= i64_max -> vec_resize (E := E) v n value = Ret v' -> vec_fits v'.
Proof.
  intros Hv Hc Hl Hn. unfold vec_resize. destruct (Z.ltb_spec v.(vec_len) n) as [Hlt|].
  2: { unfold vec_truncate. destruct (_ <? _); by intros [= <-]. }
  unfold vec_extend_from_slice, vec_reserve. rewrite zlen_replicate by lia. replace (v.(vec_len) + (n - v.(vec_len))) with n by lia.
  destruct (Z.leb_spec n (capacity v)); cbn [exec_bind].
  - intros [= <-]. unfold vec_fits, capacity in *. cbn. by rewrite length_write_cells by (rewrite ?zlen_replicate; lia).
  - destruct (Z.ltb_spec i64_max n); [lia|]. cbn [exec_bind]. intros [= <-].
    pose proof (grown_addr_fits v.(vec_ptr) (capacity v) n ltac:(lia)) as Hg.
    pose proof (grown_cap_law (capacity v) n ltac:(lia)). set (cap := grown_cap _ _) in *.
    assert (Hz : zlen (take (Z.to_nat v.(vec_len)) v.(vec_buf) ++ replicate (Z.to_nat (cap - v.(vec_len))) None) = cap).
    { rewrite zlen_app, zlen_replicate by lia. unfold capacity, zlen in *. rewrite length_take. lia. }
    set (p := grown_addr _ _ _) in *. unfold vec_fits, capacity. cbn. rewrite length_write_cells; rewrite ?Hz, ?zlen_replicate by lia; lia.
Qed.


(** A created buffer: its contents, which lie in the address space. *)
Definition buffer (self : AlignedMemory) (data : list Z) : Prop :=
  (forall F, as_slice (E := F) self = Ret data) /\ 0 <= data_ptr self /\ data_ptr self + zlen data < 2 ^ 64 /\ am_len self = zlen data.

Lemma rep_buffer (self : AlignedMemory) (base : Z) (data : list Z) :
  am_rep self base data -> vec_fits self.(mem) -> buffer self data.
Proof.
  intros Hrep [Hp Hfit]. split; [intros F; by eapply rep_as_slice|].
  destruct Hrep as [(pre & spare & Hb & Hpre & _ & _) Hl _ _ _]. unfold capacity in Hfit. rewrite Hb in Hfit.
  rewrite !zlen_app, zlen_fmap in Hfit. pose proof (zlen_nonneg pre). pose proof (zlen_nonneg spare). pose proof (zlen_nonneg data).
  unfold data_ptr, am_len, u64_saturating_sub. lia.
Qed.

Lemma ptr_align_offset_host (ptr : Z) : exists off, ptr_align_offset (E := E) ptr HOST_ALIGN = Ret off /\ 0 <= off < HOST_ALIGN.
Proof. eexists. split; [done|]. apply Z.mod_pos_bound. done. Qed.

Lemma zero_filled_buffer (n : Z) : 0 <= n -> n + HOST_ALIGN <= i64_max ->
  exists self, zero_filled (E := E) HOST_ALIGN n = Ret self /\ buffer self (replicate (Z.to_nat n) 0).
Proof.
  intros H0 Hn. destruct (create_sim (E := E) HOST_ALIGN (ZeroFilled n) eq_refl H0 Hn) as (self & Hs & (Hrep & _) & _).
  exists self. split; [exact Hs|]. apply (rep_buffer _ _ _ Hrep). revert Hs. cbn. unfold zero_filled, get_mem_zeroed, vec_zeroed.
  destruct (Z.ltb_spec i64_max n) as [|Hle]; [done|]. cbn [exec_bind vec_ptr].
  destruct (ptr_align_offset_host (vec_addr n)) as (off & -> & Hoff). cbn [exec_bind].
  rewrite u64_saturating_add_small by (unfold i64_max in *; lia). set (v := mkVec _ _ _).
  pose proof (vec_cap_law n ltac:(lia)) as Hcap. pose proof (vec_addr_fits n ltac:(lia)) as Hfit.
  assert (Hv : capacity v = vec_cap n) by (unfold capacity, v; cbn; rewrite zlen_app, !zlen_replicate by lia; lia).
  destruct (vec_resize v (n + off) 0) as [v'| |] eqn:Hr; cbn [exec_bind]; [|done..]. intros [= <-]. cbn [mem].
  apply (vec_resize_fits v v' (n + off) 0); [unfold vec_fits; by rewrite Hv|lia|rewrite Hv; cbn; lia|lia|done].
Qed.

Lemma with_capacity_buffer : exists self, with_capacity (E := E) HOST_ALIGN 0 = Ret self /\ buffer self [].
Proof.
  destruct (create_sim (E := E) HOST_ALIGN (WithCapacity 0) eq_refl) as (self & Hs & (Hrep & _) & _); [done|done|].
  exists self. split; [exact Hs|]. apply (rep_buffer _ _ _ Hrep). revert Hs. cbn. unfold with_capacity, get_mem, vec_with_capacity.
  rewrite u64_saturating_add_small by done. change (0 + HOST_ALIGN) with 16. cbn [Z.ltb Z.compare exec_bind vec_ptr].
  change (i64_max <? 16) with false. cbn [exec_bind vec_ptr].
  destruct (ptr_align_offset_host (vec_addr 16)) as (off & -> & Hoff). cbn [exec_bind]. set (v := mkVec _ _ _).
  pose proof (vec_cap_law 16 ltac:(done)) as Hcap. pose proof (vec_addr_fits 16 ltac:(done)) as Hfit.
  assert (Hv : capacity v = vec_cap 16) by (unfold capacity, v; cbn; rewrite zlen_replicate by lia; lia).
  destruct (vec_resize v off 0) as [v'| |] eqn:Hr; cbn [exec_bind]; [|done..]. intros [= <-]. cbn [mem].
  apply (vec_resize_fits v v' off 0); [unfold vec_fits; by rewrite Hv|lia|rewrite Hv; cbn; lia|unfold HOST_ALIGN, i64_max in *; lia|done].
Qed.
End Buffers.

(** ** Memory of the host *)

Lemma place_slice_ok (ptr : Z) (bytes : list Z) (hm : HostMem) : bytes_ok bytes -> host_ok hm ->
  host_ok (place_slice ptr bytes hm) /\ host_mapped (place_slice ptr bytes hm) ptr (zlen bytes) /\ dom hm ⊆ dom (place_slice ptr bytes hm).
Proof.
  intros Hb Hh. unfold place_slice.
  assert (Hl : length (seqZ ptr (zlen bytes)) = length bytes) by (rewrite length_seqZ; unfold zlen; lia). split_and!.
  - apply map_Forall_union_2; [|done]. intros a b Hab%elem_of_list_to_map_2%elem_of_zip_r. rewrite Forall_forall in Hb. by apply Hb.
  - intros a Ha. apply lookup_union_is_Some. left. apply elem_of_dom. rewrite dom_list_to_map, fst_zip by lia.
    apply elem_of_list_to_set, elem_of_seqZ. lia.
  - rewrite dom_union. set_solver.
Qed.

(** ** Regions *)

Lemma region_new_plain {E} (ptr n addr : Z) (w : bool) : region_new (E := E) ptr n addr 0 w = Ret (mkRegion ptr addr n 63 w None).
Proof. reflexivity. Qed.

Lemma region_new_gapped {E} (ptr n addr k : Z) (w : bool) : 0 <= k <= 63 ->
  region_new (E := E) ptr n addr (2 ^ k) w = Ret (mkRegion ptr addr n k w None).
Proof.
  intros Hk. unfold region_new. change (u8_saturating_sub (Z.min (8 * 8) 255) 1) with 63.
  pose proof (Z.pow_pos_nonneg 2 k ltac:(lia) ltac:(lia)). rewrite (proj2 (Z.ltb_lt _ _)) by lia. cbv zeta.
  unfold leading_zeros. rewrite (proj2 (Z.eqb_neq _ _)), Z.log2_pow2 by lia. unfold as_u8, uwrap, u8_saturating_sub.
  rewrite Z.mod_small, Z.max_l by lia. replace (63 - (63 - k)) with k by lia. unfold u64_checked_shl.
  rewrite (proj2 (Z.ltb_lt k 64)), Z.shiftl_1_l by lia. unfold as_u64, uwrap.
  rewrite (Z.mod_small (2 ^ k)), bool_decide_true; [done|done|]. split; [lia|]. apply Z.pow_lt_mono_r; lia.
Qed.

(** ** The mapping *)

Lemma sort_regions_id (rs : list MemoryRegion) : sorted_regions rs -> sort_regions rs = rs.
Proof.
  induction 1 as [|r rs _ IH HF]; [done|]. cbn [sort_regions]. rewrite IH. destruct HF as [|r' rs Hle _]; [done|].
  cbn [insert_region]. unfold region_leb. by rewrite (proj2 (Z.leb_le _ _)).
Qed.

Lemma aligned_regions_small (rs : list MemoryRegion) : aligned_regions rs -> zlen rs < 2 ^ 62.
Proof.
  intros Hal. destruct rs as [|r rs]; [done|]. destruct (lookup_lt_is_Some_2 (r :: rs) (length rs)) as [x Hx]; [cbn; lia|].
  destruct (Hal _ _ Hx) as [Hwf Hi]. apply region_index_range in Hwf. rewrite zlen_cons. unfold zlen. lia.
Qed.

Lemma mem_inv_new (hm : HostMem) (m : MemoryMapping) (rs : list MemoryRegion) :
  host_ok hm -> mapping_inv m -> Forall (region_backed hm) rs -> (exists c, common_of m = Some c /\ HandlerOk c.(access_violation_handler)) ->
  (forall r, r ∈ get_regions m -> region_wf r /\ (r ∈ rs \/ r.(len) = 0)) -> mem_inv hm m.
Proof.
  intros Hh Hm Hb Hc Hr. split; [done|done|apply Forall_forall; by apply Hr| |done].
  apply Forall_forall. intros r Hin. destruct (Hr r Hin) as [([? ?] & _) [Hrs|Hz]].
  - rewrite Forall_forall in Hb. by apply Hb.
  - split; [rewrite Hz; lia|]. intros a Ha. lia.
Qed.

(** The regions of a test: read-only data below the stack, then stack, heap and input, each in its own block of 4 GiB. *)
Record standard_layout (config : Config) (ro st hp inp : MemoryRegion) : Prop := {
  sl_ro : 0 <= ro.(vm_addr) < MM_STACK_START /\ (vm_addr_range ro).2 <= MM_STACK_START;
  sl_stack : st.(vm_addr) = MM_STACK_START /\ (vm_addr_range st).2 <= MM_HEAP_START;
  sl_heap : hp.(vm_addr) = MM_HEAP_START /\ (vm_addr_range hp).2 <= MM_INPUT_START;
  sl_input : inp.(vm_addr) = MM_INPUT_START;
  sl_zero : config.(allow_memory_region_zero) = false -> MM_BYTECODE_START <= ro.(vm_addr);
}.

Section Mapping.
Context (hm : HostMem) (empty_ptr : Z) (config : Config) (handler : AccessViolationHandler) (ro st hp inp : MemoryRegion).
Context (Hempty : in_u 64 empty_ptr) (Hhost : host_ok hm) (Hhandler : HandlerOk handler).
Context (Hlayout : standard_layout config ro st hp inp).
Let rs := [ro; st; hp; inp].
Context (Hwf : Forall region_wf rs) (Hbacked : Forall (region_backed hm) rs).

Lemma standard_sorted : sorted_regions rs.
Proof.
  destruct Hlayout as [[Hro _] [Hst _] [Hhp _] Hin _]. unfold sorted_regions, rs.
  change MM_STACK_START with (2 * 2 ^ 32) in *. change MM_HEAP_START with (3 * 2 ^ 32) in *. change MM_INPUT_START with (4 * 2 ^ 32) in *.
  repeat constructor; lia.
Qed.

Lemma standard_disjoint : regions_disjoint rs.
Proof.
  destruct Hlayout as [[Hro Hro'] [Hst Hst'] [Hhp Hhp'] Hin _].
  change MM_STACK_START with (2 * 2 ^ 32) in *. change MM_HEAP_START with (3 * 2 ^ 32) in *. change MM_INPUT_START with (4 * 2 ^ 32) in *.
  intros [|[|[|[|i]]]] [|[|[|[|j]]]] r1 r2 Hij H1 H2; cbn in H1, H2; simplify_eq; lia.
Qed.

Lemma standard_indices : region_index st = 2 /\ region_index hp = 3 /\ region_index inp = 4 /\ 0 <= region_index ro <= 1 /\
  (config.(allow_memory_region_zero) = false -> region_index ro = 1).
Proof.
  destruct Hlayout as [[Hro _] [Hst _] [Hhp _] Hin Hz]. rewrite !region_index_eq, Hst, Hhp, Hin.
  change MM_STACK_START with (2 * 2 ^ 32) in *. change MM_BYTECODE_START with (2 ^ 32) in *.
  split_and!; [done..|apply Z.div_pos; lia| |].
  - apply Z.lt_succ_r. apply Z.div_lt_upper_bound; lia.
  - intros Ha. specialize (Hz Ha). symmetry. apply (Z.div_unique_pos _ _ _ (ro.(vm_addr) - 2 ^ 32)); lia.
Qed.

Lemma standard_aligned (v : SBPFVersion) : exists m, aligned_new empty_ptr rs config v handler = Ret m /\
  mem_inv hm (Aligned m) /\ rs ⊆ m.(a_common).(regions).
Proof.
  destruct standard_indices as (Hi2 & Hi3 & Hi4 & Hi1 & Hz). unfold aligned_new.
  destruct config.(allow_memory_region_zero) eqn:Ha; cbv zeta.
  - destruct (fill_sorted empty_ptr Hempty rs Hwf) as [[(l & Hl & Hal & Hin & Hout) _]|[_ Hn]]; cbv zeta in *.
    + rewrite Hl. cbn [exec_bind]. eexists. split; [done|]. split; [|cbn; intros r Hr; by apply Hin].
      apply (mem_inv_new hm _ rs Hhost); [split; [by apply aligned_regions_small|done]|done|by eexists|].
      cbn. intros r Hr. split; [apply list_elem_of_lookup in Hr as [i Hr]; by apply (Hal i)|].
      destruct (Hout r Hr) as [?|[? _]]; [by left|by right].
    + destruct Hn. unfold rs. cbn [fmap list_fmap]. rewrite Hi2, Hi3, Hi4. repeat constructor; rewrite ?elem_of_cons, ?elem_of_nil; lia.
  - specialize (Hz eq_refl). change (new_readonly empty_ptr 0 0) with (Ret (E := EbpfError) (hole empty_ptr 0)). cbn [exec_bind].
    rewrite (sort_regions_id (hole empty_ptr 0 :: rs)).
    2: { constructor; [exact standard_sorted|]. apply (Forall_impl _ _ _ Hwf). intros r (_ & [? _] & _). done. }
    cbn [check_region_indices rs]. change (region_index (hole empty_ptr 0)) with 0. rewrite Hi2, Hi3, Hi4, Hz. cbn [Z.add Z.eqb negb exec_bind Pos.eqb Pos.add].
    eexists. split; [done|]. split; [|cbn; intros r Hr; by right].
    destruct (hole_wf empty_ptr 0 Hempty ltac:(lia)) as [Hhole _].
    assert (Hwf' : Forall region_wf (hole empty_ptr 0 :: rs)) by (by constructor).
    apply (mem_inv_new hm _ rs Hhost); [split; [done|]|done|by eexists|].
    + intros i r Hr. split; [by apply (Forall_lookup_1 _ _ _ _ Hwf' Hr)|].
      cbn in Hr. destruct i as [|[|[|[|[|i]]]]]; cbn in Hr; simplify_eq; done.
    + cbn. intros r Hr. rewrite Forall_forall in Hwf'. split; [by apply Hwf'|]. apply elem_of_cons in Hr as [->|?]; [by right|by left].
Qed.

Lemma standard_mapping (v : SBPFVersion) : exists m, mapping_new_with_handler empty_ptr rs config v handler = Ret m /\
  mem_inv hm m /\ rs ⊆ get_regions m.
Proof.
  unfold mapping_new_with_handler. destruct (version_leb V4 v || config.(aligned_memory_mapping)) eqn:Hv.
  { destruct (standard_aligned v) as (m & -> & Hm & Hin). by exists (Aligned m). }
  apply orb_false_iff in Hv as [Hv _].
  destruct (unaligned_new_cases rs config v handler Hwf) as [[(m & Hnew & Hr & Hi) _]|[_ Hd]].
  - done.
  - by destruct v.
  - rewrite Hnew. exists (Unaligned m). rewrite (sort_regions_id rs standard_sorted) in Hr. split; [done|]. split; [|cbn; by rewrite Hr].
    apply (mem_inv_new hm _ rs Hhost); [done|done| |].
    + eexists. split; [done|]. revert Hnew. unfold unaligned_new. destruct (negb _); [done|]. cbv zeta. destruct (check_overlap _ _); cbn [exec_bind]; [|done..].
      destruct (construct_eytzinger_order _ _ _ _ _) as [[? [? ?]]| |]; cbn [exec_bind]; [|done..]. by intros [= <-].
    + cbn. rewrite Hr. intros r Hin. split; [by apply (proj1 (Forall_forall _ _) Hwf)|by left].
  - destruct Hd. rewrite (sort_regions_id rs standard_sorted). exact standard_disjoint.
Qed.
End Mapping.

(** ** Creation *)

(** Guest address and length of the read-only section. *)
Definition ro_extent (s : ElfSection) : Z * Z :=
  match s with Owned offset data => (offset, zlen data) | Borrowed offset range => (offset, range.2 - range.1) end.

(** What a test sets up around an executable: a stack that fits its block, with frames of a power of two where there
    are gaps, and the file, the read-only data and the input in the memory of the host. *)
Record test_setup (config : Config) (pl : Placement) (e : Executable) (hm : HostMem) (input_ptr input_len : Z) : Prop := {
  ts_frames : stack_frame_gaps e.(sbpf_version) && config.(enable_stack_frame_gaps) = true ->
    exists k, 0 <= k <= 63 /\ config.(stack_frame_size) = 2 ^ k;
  ts_stack : config.(stack_frame_size) * config.(max_call_depth) <= 2 ^ 31;
  ts_host : host_ok hm;
  ts_empty : in_u 64 pl.(empty_ptr);
  ts_elf : 0 <= pl.(elf_ptr) /\ pl.(elf_ptr) + zlen e.(elf_bytes) < 2 ^ 64 /\ host_mapped hm pl.(elf_ptr) (zlen e.(elf_bytes));
  ts_owned : match e.(ro_section) with
    | Owned _ data => 0 <= pl.(owned_ptr) /\ pl.(owned_ptr) + zlen data < 2 ^ 64 /\ host_mapped hm pl.(owned_ptr) (zlen data)
    | Borrowed _ _ => True end;
  ts_ro : let '(offset, n) := ro_extent e.(ro_section) in 0 <= offset < MM_STACK_START /\ offset + n <= MM_STACK_START /\
    (config.(allow_memory_region_zero) = false -> MM_BYTECODE_START <= offset);
  ts_input : 0 <= input_ptr /\ 0 <= input_len /\ input_ptr + input_len < 2 ^ 64 /\ host_mapped hm input_ptr input_len;
}.

Section Ready.
Context `{Al : Allocator} `{Hfits : !AllocatorFits} `{Ctx : ContextObject C}.
Context (bytes : list Z) (bp : BuiltinProgram) (config : Config) (pl : Placement) (e : Executable) (hm : HostMem) (input_ptr input_len : Z).
Context (Hloaded : loaded_ok bytes bp e) (Hc : Program.config bp = Some config) (Hok : config_ok config)
  (Htr : config.(enable_address_translation) = true) (Hsetup : test_setup config pl e hm input_ptr input_len).

Lemma ro_region_ready {E} : exists ro, get_ro_region (E := E) pl.(elf_ptr) pl.(owned_ptr) e.(ro_section) e.(elf_bytes) = Ret ro /\
  region_wf ro /\ region_backed hm ro /\ ro.(vm_gap_shift) = 63 /\ (ro.(vm_addr), ro.(len)) = ro_extent e.(ro_section).
Proof.
  destruct Hsetup as [_ _ _ _ (He0 & He1 & Hem) Howned Hro _]. pose proof (lo_ro _ _ _ Hloaded) as Hin.
  change MM_STACK_START with (2 ^ 33) in Hro. unfold get_ro_region, new_readonly.
  destruct e.(ro_section) as [offset data|offset [a b]]; cbn [ro_extent] in Hro; destruct Hro as (Ho & Hend & _).
  - destruct Howned as (H0 & H1 & Hmap). cbn [exec_bind]. rewrite region_new_plain. pose proof (zlen_nonneg data). eexists. split; [done|].
    split_and!; [unfold region_wf, in_u; cbn; lia|done..].
  - destruct Hin as [Hr0 Hr1]. cbn [fst snd] in *. unfold slice_range. cbn [fst snd].
    rewrite !(proj2 (Z.leb_le _ _)) by lia. cbn [andb exec_bind].
    assert (Hlen : zlen (take (Z.to_nat (b - a)) (drop (Z.to_nat a) e.(elf_bytes))) = b - a)
      by (unfold zlen in *; rewrite length_take, length_drop; lia).
    rewrite Hlen, region_new_plain. eexists. split; [done|].
    split_and!; [unfold region_wf, in_u; cbn; lia| |done|done].
    split; [cbn; lia|]. intros x Hx. cbn in Hx. apply Hem. lia.
Qed.

Lemma stack_region_ready {E} (ptr n : Z) : 0 <= ptr -> ptr + n < 2 ^ 64 -> 0 <= n <= 2 ^ 31 ->
  exists k, new_writable_gapped (E := E) ptr n MM_STACK_START
      (if stack_frame_gaps e.(sbpf_version) && config.(enable_stack_frame_gaps) then config.(stack_frame_size) else 0)
    = Ret (mkRegion ptr MM_STACK_START n k true None) /\ 0 <= k <= 63.
Proof.
  intros Hp Hn Hlen. unfold new_writable_gapped. destruct (_ && _) eqn:Hg.
  - destruct (ts_frames _ _ _ _ _ _ Hsetup Hg) as (k & Hk & ->). exists k. by rewrite region_new_gapped.
  - exists 63. by rewrite region_new_plain.
Qed.

Lemma create_mapping_ready (stack heap : AlignedMemory) (data : list Z) (handler : option AccessViolationHandler) hm' :
  match handler with Some h => HandlerOk h | None => True end ->
  buffer stack data -> zlen data <= 2 ^ 31 -> buffer heap [] ->
  host_ok hm' -> dom hm ⊆ dom hm' -> host_mapped hm' (data_ptr stack) (zlen data) ->
  exists m, create_memory_mapping pl e stack heap [mkRegion input_ptr MM_INPUT_START input_len 63 true None] handler = Ret m /\ mem_inv hm' m.
Proof.
  intros Hh (Hsl & Hsp & Hsf & _) Hlen (Hhl & Hhp & Hhf & _) Hok' Hdom Hmap. change (zlen (@nil Z)) with 0 in Hhf.
  unfold create_memory_mapping, executable_config, get_config. rewrite (lo_loader _ _ _ Hloaded), Hc. cbn [expect exec_bind].
  destruct (ro_region_ready (E := EbpfError)) as (ro & -> & Hrwf & [Hr1 Hr2] & Hgap & Hext). cbn [exec_bind]. rewrite Hsl. cbn [exec_bind].
  pose proof (zlen_nonneg data). destruct (stack_region_ready (E := EbpfError) (data_ptr stack) (zlen data)) as (k & -> & Hk); [done|lia|lia|].
  cbn [exec_bind]. rewrite Hhl. cbn [exec_bind]. unfold new_writable. rewrite region_new_plain. cbn [exec_bind app]. change (zlen (@nil Z)) with 0.
  destruct Hsetup as [_ _ _ Hempty _ _ Hro (Hi0 & Hin & Hi1 & Him)]. rewrite <-Hext in Hro. destruct Hro as (Hro1 & Hro2 & Hro3).
  set (h := default default_access_violation_handler handler).
  destruct (standard_mapping hm' pl.(empty_ptr) config h ro (mkRegion (data_ptr stack) MM_STACK_START (zlen data) k true None)
    (mkRegion (data_ptr heap) MM_HEAP_START 0 63 true None) (mkRegion input_ptr MM_INPUT_START input_len 63 true None)) with (v := e.(sbpf_version))
    as (m & Hm & Hinv & _); [done|done|by destruct handler; [|apply default_handler_ok]| | | |exists m; by destruct handler].
  - split; unfold vm_addr_range; rewrite ?Hgap; cbn [vm_addr vm_gap_shift len]; [| | |done|done].
    + change (63 =? 63) with true. cbn [snd]. unfold u64_saturating_add. lia.
    + change MM_HEAP_START with (3 * 2 ^ 32). change MM_STACK_START with (2 * 2 ^ 32). unfold u64_saturating_add, u64_saturating_mul.
      destruct (k =? 63); cbn [snd]; lia.
    + done.
  - change MM_STACK_START with (2 * 2 ^ 32). change MM_HEAP_START with (3 * 2 ^ 32). change MM_INPUT_START with (4 * 2 ^ 32).
    repeat (constructor; [try done; unfold region_wf, in_u; cbn; lia|]). constructor.
  - constructor; [split; [done|by apply (host_mapped_subset hm)]|]. constructor; [split; [cbn; lia|done]|].
    constructor; [split; [cbn; lia|intros a Ha; cbn in Ha; lia]|]. constructor; [|done].
    split; [done|by apply (host_mapped_subset hm)].
Qed.

Lemma create_vm_ready {E} (context : C) (handler : option AccessViolationHandler) :
  match handler with Some h => HandlerOk h | None => True end ->
  exists vm, create_vm (E := E) pl e context [mkRegion input_ptr MM_INPUT_START input_len 63 true None] handler hm = Ret vm /\
    vm_ready config vm /\ vm.(context_object) = context /\ vm.(registers) !! 1%nat = Some MM_INPUT_START.
Proof.
  intros Hh. unfold create_vm, executable_config, get_config. rewrite (lo_loader _ _ _ Hloaded), Hc. cbn [expect exec_bind].
  pose proof Hok as [Hdepth Hframe _]. pose proof (ts_stack _ _ _ _ _ _ Hsetup) as Hst. unfold stack_size, u64_mul.
  set (size := _ * _) in *. assert (Hs0 : 0 <= size) by (unfold size; apply Z.mul_nonneg_nonneg; lia).
  rewrite (proj2 (Z.leb_le size u64_max)) by (unfold u64_max; lia). cbn [exec_bind].
  destruct (zero_filled_buffer (E := E) size Hs0) as (stack & -> & Hstack); [unfold HOST_ALIGN, i64_max; lia|]. cbn [exec_bind].
  destruct (with_capacity_buffer (E := E)) as (heap & -> & Hheap). cbn [exec_bind].
  set (data := replicate _ _) in *. assert (Hdata : zlen data = size) by by apply zlen_replicate.
  pose proof Hstack as (Hsl & _ & _ & Hlen). pose proof Hheap as (Hhl & _).
  destruct (place_slice_ok (data_ptr stack) data hm) as (Hok1 & Hmap1 & Hdom1); [by apply Forall_replicate|apply Hsetup|].
  destruct (place_slice_ok (data_ptr heap) [] _ ltac:(done) Hok1) as (Hok2 & _ & Hdom2). set (hm' := place_slice (data_ptr heap) [] _) in *.
  destruct (create_mapping_ready stack heap data handler hm') as (m & -> & Hinv); [done|done|lia|done|done|by etrans|by eapply host_mapped_subset|].
  cbn [unwrap exec_bind]. rewrite Hsl, Hhl. cbn [exec_bind]. fold hm'.
  assert (exists vm, vm_new (E := E) bp e.(sbpf_version) context m hm' (am_len stack) = Ret vm) as [vm Hvm]
    by (unfold vm_new, get_config; rewrite Hc; by eexists).
  rewrite Hvm. cbn [exec_bind].
  destruct (vm_new_ready bp e.(sbpf_version) context m hm' (am_len stack) config vm Hc Hok Htr Hinv ltac:(lia) Hvm) as [[Hregs ? ? ? ? ?] Hctx].
  destruct (regs_set (E := E) vm.(registers) 1 MM_INPUT_START Hregs ltac:(lia)) as [-> Hregs']; [done|]. cbn [exec_bind].
  eexists. split; [done|]. split; [by split|]. split; [done|]. cbn. apply list_lookup_insert_eq. destruct Hregs as [-> _]. lia.
Qed.
End Ready.

(** * Properties *)


(** * Examples *)

(** Buffers at fixed addresses. *)
#[local] Instance fixed_allocator : Allocator := {
  vec_cap n := n;
  vec_addr n := 0x10008;
  grown_cap c n := n;
  grown_addr p c n := 0x20004;
  vec_cap_law n H := conj (Z.le_refl n) (proj2 H);
  grown_cap_law c n H := conj (Z.le_refl n) (proj2 H)
}.
#[local] Instance fixed_allocator_fits : AllocatorFits.
Proof. split; cbn; unfold i64_max; lia. Qed.

Definition test_config : Config := {|
  max_call_depth := 4; stack_frame_size := 64; enable_address_translation := true; enable_stack_frame_gaps := true;
  instruction_meter_checkpoint_distance := 10000; enable_instruction_meter := true; enable_register_tracing := false;
  enable_symbol_and_section_labels := false; reject_broken_elfs := false; noop_instruction_rate := 256;
  sanitize_user_provided_values := true; optimize_rodata := true; allow_memory_region_zero := true; aligned_memory_mapping := false;
  enabled_sbpf_versions := (V0, V4)
|}.
Definition test_loader : BuiltinProgram := {| config := Some test_config; sparse_registry := default_registry |}.
Lemma test_config_ok : config_ok test_config.
Proof. split; cbn; (done || lia). Qed.

Definition test_placement : Placement := mkPlacement 0x1000 0x3000 0x77.
Lemma ten_range : in_u 64 10.
Proof. done. Qed.
Definition test_context : TestContextObject := test_context_new 10 ten_range.
#[local] Existing Instances le_reference le_write_reference sum_hash plain_text plain_host.

(** The memory of the host with a file, its read-only data and four bytes of input. *)
Definition test_host (e : Executable) : HostMem :=
  place_slice 0x1000 e.(elf_bytes)
    (place_slice 0x3000 (match e.(ro_section) with Owned _ data => data | _ => [] end) (place_slice 0x5000 [1; 2; 3; 4] ∅)).

Definition test_run : option (StableResult Z EbpfError * Z) :=
  match load 4096 calling_elf test_loader with
  | Ret e =>
      match create_vm (E := EbpfError) test_placement e test_context [mkRegion 0x5000 MM_INPUT_START 4 63 true None] None (test_host e) with
      | Ret vm => match execute_program (fun _ => SyscallMemFrob) 11 e vm with Ret (count, result, _) => Some (result, count) | _ => None end
      | _ => None
      end
  | _ => None
  end.

Lemma test_setup_ok (e : Executable) : load 4096 calling_elf test_loader = Ret e ->
  test_setup test_config test_placement e (test_host e) 0x5000 4.
Proof.
  intros He. pose proof (elf_load_spec 4096 calling_elf test_loader test_config) as Hspec. rewrite He in Hspec.
  destruct Hspec as [Hld _]; [apply (bool_decide_unpack _); vm_compute; reflexivity|vm_compute; congruence|reflexivity|reflexivity|].
  assert (Hro : match load 4096 calling_elf test_loader with Ret e => Some e.(ro_section) | _ => None end
    = Some (Borrowed 0x100000100 (256, 288))) by (vm_compute; reflexivity).
  rewrite He in Hro. injection Hro as Hro. unfold test_host. rewrite Hro.
  destruct (place_slice_ok 0x5000 [1; 2; 3; 4] ∅) as (Hok1 & Hmap1 & _); [repeat (apply Forall_cons; split; [split; vm_compute; congruence|]); apply Forall_nil_2|apply map_Forall_empty|].
  destruct (place_slice_ok 0x3000 [] _ (Forall_nil_2 _) Hok1) as (Hok2 & _ & Hdom2).
  destruct (place_slice_ok 0x1000 e.(elf_bytes) _ (lo_bytes _ _ _ Hld) Hok2) as (Hok3 & Hmap3 & Hdom3).
  assert (Hlen : zlen e.(elf_bytes) = 305) by (rewrite (lo_len _ _ _ Hld); vm_compute; reflexivity).
  split; rewrite ?Hro; [intros _; exists 6; split; [lia|reflexivity]|vm_compute; congruence|exact Hok3|split; vm_compute; congruence
    |rewrite Hlen in *; split; [vm_compute; congruence|split; [vm_compute; reflexivity|exact Hmap3]]|exact I|vm_compute; intuition congruence|].
  split; [lia|split; [lia|split; [vm_compute; reflexivity|]]]. eapply host_mapped_subset; [exact Hdom3|]. eapply host_mapped_subset; [exact Hdom2|exact Hmap1].
Qed.

