(* ===== verification/GrammarAware.v ===== *)
(** Programs made of arbitrary operations with arbitrary fields (fuzz/fuzz_targets/grammar_aware.rs),
    built with the methods of [BpfCode]. *)
From S2P Require Import Prelude Ebpf InsnBuilder.
Open Scope rust_scope.

(** * Data *)

(* fuzz/fuzz_targets/grammar_aware.rs:5-31, FuzzedOp *)
Inductive FuzzedOp :=
  | Add (src : Source)
  | Sub (src : Source)
  | Mul (src : Source)
  | Div (src : Source)
  | BitOr (src : Source)
  | BitAnd (src : Source)
  | LeftShift (src : Source)
  | RightShift (src : Source)
  | Negate
  | Modulo (src : Source)
  | BitXor (src : Source)
  | Mov (src : Source)
  | SRS (src : Source)
  | SwapBytes (endian : Endian)
  | Load (mem : MemSize)
  | LoadAbs (mem : MemSize)
  | LoadInd (mem : MemSize)
  | LoadX (mem : MemSize)
  | Store (mem : MemSize)
  | StoreX (mem : MemSize)
  | Jump
  | JumpC (cond : Cond) (src : Source)
  | Call
  | Exit.

#[export] Instance Source_eq_dec : EqDecision Source.
Proof. solve_decision. Defined.
#[export] Instance Endian_eq_dec : EqDecision Endian.
Proof. solve_decision. Defined.
#[export] Instance MemSize_eq_dec : EqDecision MemSize.
Proof. solve_decision. Defined.
#[export] Instance Cond_eq_dec : EqDecision Cond.
Proof. solve_decision. Defined.
#[export] Instance FuzzedOp_eq_dec : EqDecision FuzzedOp.
Proof. solve_decision. Defined.

(** [std::mem::discriminant] *)
Definition op_discriminant (self : FuzzedOp) : Z :=
  match self with
  | Add _ => 0
  | Sub _ => 1
  | Mul _ => 2
  | Div _ => 3
  | BitOr _ => 4
  | BitAnd _ => 5
  | LeftShift _ => 6
  | RightShift _ => 7
  | Negate => 8
  | Modulo _ => 9
  | BitXor _ => 10
  | Mov _ => 11
  | SRS _ => 12
  | SwapBytes _ => 13
  | Load _ => 14
  | LoadAbs _ => 15
  | LoadInd _ => 16
  | LoadX _ => 17
  | Store _ => 18
  | StoreX _ => 19
  | Jump => 20
  | JumpC _ _ => 21
  | Call => 22
  | Exit => 23
  end.

(* fuzz/fuzz_targets/grammar_aware.rs:34-44, FuzzedOp::similarity *)
Definition op_similarity (self other : FuzzedOp) : option Z :=
  if op_discriminant self =? op_discriminant other
  then if bool_decide (self = other) then Some 0 else Some 8
  else None.

(* fuzz/fuzz_targets/grammar_aware.rs:47-54, FuzzedInstruction *)
Record FuzzedInstruction := mkFuzzed { fi_op : FuzzedOp; fi_dst : Z; fi_src : Z; fi_off : Z; fi_imm : Z }.

(** The sum is of a [u8], and at most 12. *)
(* fuzz/fuzz_targets/grammar_aware.rs:57-64, FuzzedInstruction::similarity *)
Definition similarity (self other : FuzzedInstruction) : option Z :=
  (fun s => s + Z.b2z (self.(fi_dst) =? other.(fi_dst)) + Z.b2z (self.(fi_src) =? other.(fi_src))
              + Z.b2z (self.(fi_off) =? other.(fi_off)) + Z.b2z (self.(fi_imm) =? other.(fi_imm)))
    <$> op_similarity self.(fi_op) other.(fi_op).

(** * Programs *)

(** The four setters, which every arm of [make_program] calls with the fields of the instruction. *)
Definition with_fields `{Instruction T} (self : T) (inst : FuzzedInstruction) : T :=
  set_imm (set_off (set_src (set_dst self inst.(fi_dst)) inst.(fi_src)) inst.(fi_off)) inst.(fi_imm).

(* fuzz/fuzz_targets/grammar_aware.rs:72-241, make_program *)
Definition push_fuzzed (arch : Arch) (code : BpfCode) (inst : FuzzedInstruction) : BpfCode :=
  match inst.(fi_op) with
  | Add src => Move_push (with_fields (add code src arch) inst)
  | Sub src => Move_push (with_fields (sub code src arch) inst)
  | Mul src => Move_push (with_fields (mul code src arch) inst)
  | Div src => Move_push (with_fields (div code src arch) inst)
  | BitOr src => Move_push (with_fields (bit_or code src arch) inst)
  | BitAnd src => Move_push (with_fields (bit_and code src arch) inst)
  | LeftShift src => Move_push (with_fields (left_shift code src arch) inst)
  | RightShift src => Move_push (with_fields (right_shift code src arch) inst)
  | Negate => Move_push (with_fields (negate code arch) inst)
  | Modulo src => Move_push (with_fields (modulo code src arch) inst)
  | BitXor src => Move_push (with_fields (bit_xor code src arch) inst)
  | Mov src => Move_push (with_fields (mov code src arch) inst)
  | SRS src => Move_push (with_fields (signed_right_shift code src arch) inst)
  | SwapBytes endian => SwapBytes_push (with_fields (swap_bytes_insn code endian) inst)
  | Load mem => Load_push (with_fields (load code mem) inst)
  | LoadAbs mem => Load_push (with_fields (load_abs code mem) inst)
  | LoadInd mem => Load_push (with_fields (load_ind code mem) inst)
  | LoadX mem => Load_push (with_fields (load_x code mem) inst)
  | Store mem => Store_push (with_fields (store code mem) inst)
  | StoreX mem => Store_push (with_fields (store_x code mem) inst)
  | Jump => Jump_push (with_fields (jump_unconditional code) inst)
  | JumpC cond src => Jump_push (with_fields (jump_conditional code cond src) inst)
  | Call => FunctionCall_push (with_fields (call code) inst)
  | Exit => Exit_push (with_fields (exit code) inst)
  end.

(* fuzz/fuzz_targets/grammar_aware.rs:69-244, make_program *)
Definition make_program (prog : list FuzzedInstruction) (arch : Arch) : BpfCode :=
  foldl (push_fuzzed arch) new_code prog.

(** * Lemmas *)

(** The method of [BpfCode] that stands for an operation. *)
Definition op_method (arch : Arch) (op : FuzzedOp) : Method :=
  match op with
  | Add src => MAdd src arch
  | Sub src => MSub src arch
  | Mul src => MMul src arch
  | Div src => MDiv src arch
  | BitOr src => MBitOr src arch
  | BitAnd src => MBitAnd src arch
  | LeftShift src => MLeftShift src arch
  | RightShift src => MRightShift src arch
  | Negate => MNegate arch
  | Modulo src => MModulo src arch
  | BitXor src => MBitXor src arch
  | Mov src => MMov src arch
  | SRS src => MSignedRightShift src arch
  | SwapBytes endian => MSwapBytes endian
  | Load mem => MLoad mem
  | LoadAbs mem => MLoadAbs mem
  | LoadInd mem => MLoadInd mem
  | LoadX mem => MLoadX mem
  | Store mem => MStore mem
  | StoreX mem => MStoreX mem
  | Jump => MJumpUnconditional
  | JumpC cond src => MJumpConditional cond src
  | Call => MCall
  | Exit => MExit
  end.

Definition fuzzed_chain (arch : Arch) (i : FuzzedInstruction) : Chain :=
  mkChain (op_method arch i.(fi_op)) i.(fi_dst) i.(fi_src) i.(fi_off) i.(fi_imm).

Lemma make_program_build (prog : list FuzzedInstruction) (arch : Arch) : make_program prog arch = build (fuzzed_chain arch <$> prog).
Proof.
  unfold make_program, build. generalize new_code. induction prog as [|i prog IH]; intros code; [done|].
  cbn [foldl fmap list_fmap]. rewrite IH. f_equal. by destruct i as [[] d s o m].
Qed.
