(* ===== verification/SemanticAware.v ===== *)
(** Programs that are meant to pass the verifier (fuzz/fuzz_targets/semantic_aware.rs): instructions
    with operands in the ranges of the instruction set and jumps that are redirected into the
    program.  The feature only-verified is a parameter. *)
From S2P Require Import Prelude Error Ebpf Program InsnBuilder Verifier.
Open Scope rust_scope.

(** * Data *)

(* fuzz/fuzz_targets/semantic_aware.rs:8-9, Register *)
Record Register := mkRegister { reg_0 : Z }.

(* fuzz/fuzz_targets/semantic_aware.rs:27-31, FuzzedSource *)
Inductive FuzzedSource := Reg (r : Register) | Imm (imm : Z).

(* fuzz/fuzz_targets/semantic_aware.rs:33-37, FuzzedNonZeroSource *)
Inductive FuzzedNonZeroSource := NonZeroReg (r : Register) | NonZeroImm (imm : Z).

(* fuzz/fuzz_targets/semantic_aware.rs:39-46, From<&FuzzedSource> for Source *)
Definition source_of (src : FuzzedSource) : Source :=
  match src with Reg _ => SourceReg | Imm _ => SourceImm end.

(* fuzz/fuzz_targets/semantic_aware.rs:48-55, From<&FuzzedNonZeroSource> for Source *)
Definition source_of_nonzero (src : FuzzedNonZeroSource) : Source :=
  match src with NonZeroReg _ => SourceReg | NonZeroImm _ => SourceImm end.

(* fuzz/fuzz_targets/semantic_aware.rs:57-62, SwapSize *)
Inductive SwapSize := S16 | S32 | S64.
(* fuzz/fuzz_targets/semantic_aware.rs:57-62, SwapSize as i64 *)
Definition swap_size_i64 (s : SwapSize) : Z := match s with S16 => 16 | S32 => 32 | S64 => 64 end.

(** [usize::rem_euclid] and [i64::rem_euclid] *)
Definition rem_euclid {E} (a b : Z) : Exec E Z := if b =? 0 then Panic DivisionByZeroFault else Ret (a mod b).
Definition i16_sub {E} (a b : Z) : Exec E Z :=
  if (- 2 ^ 15 <=? a - b) && (a - b <? 2 ^ 15) then Ret (a - b) else Panic ArithmeticOverflow.
Definition u64_checked_sub (a b : Z) : option Z := if b <=? a then Some (a - b) else None.

Section Feature.
Variable only_verified : bool.

(* fuzz/fuzz_targets/semantic_aware.rs:12-20, Register::to_dst *)
Definition to_dst (self : Register) : Z := self.(reg_0) mod (if only_verified then 10 else 11).

(* fuzz/fuzz_targets/semantic_aware.rs:22-24, Register::to_src *)
Definition to_src (self : Register) : Z := self.(reg_0) mod 11.

(** A [Load] is a wide load with its two halves, or, without the feature, a load of any size. *)
(* fuzz/fuzz_targets/semantic_aware.rs:64-95, FuzzedInstruction *)
Inductive FuzzedInstruction :=
  | Add (a : Arch) (d : Register) (s : FuzzedSource)
  | Sub (a : Arch) (d : Register) (s : FuzzedSource)
  | Mul (a : Arch) (d : Register) (s : FuzzedSource)
  | Div (a : Arch) (d : Register) (s : FuzzedNonZeroSource)
  | BitOr (a : Arch) (d : Register) (s : FuzzedSource)
  | BitAnd (a : Arch) (d : Register) (s : FuzzedSource)
  | LeftShift (a : Arch) (d : Register) (s : FuzzedSource)
  | RightShift (a : Arch) (d : Register) (s : FuzzedSource)
  | Negate (a : Arch) (d : Register)
  | Modulo (a : Arch) (d : Register) (s : FuzzedNonZeroSource)
  | BitXor (a : Arch) (d : Register) (s : FuzzedSource)
  | Mov (a : Arch) (d : Register) (s : FuzzedSource)
  | SRS (a : Arch) (d : Register) (s : FuzzedSource)
  | SwapBytes (d : Register) (e : Endian) (s : SwapSize)
  | Load (d : Register) (x : if only_verified then Z else MemSize) (imm : Z)
  | LoadAbs (m : MemSize) (imm : Z)
  | LoadInd (m : MemSize) (s : Register) (imm : Z)
  | LoadX (d : Register) (m : MemSize) (s : Register) (off : Z)
  | Store (d : Register) (m : MemSize) (off imm : Z)
  | StoreX (d : Register) (m : MemSize) (off : Z) (s : Register)
  | Jump (off : Z)
  | JumpC (d : Register) (c : Cond) (s : FuzzedSource) (off : Z)
  | Call (imm : Z)
  | Exit.

(** * Operands *)

(* fuzz/fuzz_targets/semantic_aware.rs:99-104, complete_alu_insn *)
Definition complete_alu_insn (insn : Move) (dst : Register) (src : FuzzedSource) : BpfCode :=
  match src with
  | Reg r => Move_push (set_src (set_dst insn (to_dst dst)) (to_src r))
  | Imm imm => Move_push (set_imm (set_dst insn (to_dst dst)) imm)
  end.

(* fuzz/fuzz_targets/semantic_aware.rs:106-114, complete_alu_insn_shift *)
Definition complete_alu_insn_shift {E} (insn : Move) (dst : Register) (src : FuzzedSource) (max : Z) : Exec E BpfCode :=
  match src with
  | Reg r => Ret (Move_push (set_src (set_dst insn (to_dst dst)) (to_src r)))
  | Imm imm =>
      let! imm := rem_euclid imm max in
      Ret (Move_push (set_imm (set_dst insn (to_dst dst)) imm))
  end.

(* fuzz/fuzz_targets/semantic_aware.rs:116-124, complete_alu_insn_nonzero *)
Definition complete_alu_insn_nonzero (insn : Move) (dst : Register) (src : FuzzedNonZeroSource) : BpfCode :=
  match src with
  | NonZeroReg r => Move_push (set_src (set_dst insn (to_dst dst)) (to_src r))
  | NonZeroImm imm => Move_push (set_imm (set_dst insn (to_dst dst)) imm)
  end.

(** * Jumps *)

(** The number of slots of an instruction. *)
Definition is_load (insn : FuzzedInstruction) : bool := match insn with Load _ _ _ => true | _ => false end.

(* fuzz/fuzz_targets/semantic_aware.rs:133-147, fix_jump *)
Fixpoint fix_jump_loop {E} (prog : list FuzzedInstruction) (target pos remaining : Z) : Exec E Z :=
  match prog with
  | [] => Panic DebugAssertFailed
  | insn :: prog =>
      let next := match insn with
        | Load _ _ _ => u64_checked_sub remaining 2
        | _ => u64_checked_sub remaining 1
        end in
      match next with
      | None => let! t := i16_sub (as_i16 target) (as_i16 pos) in i16_sub t 2
      | Some 0 => let! t := i16_sub (as_i16 target) (as_i16 pos) in i16_sub t 1
      | Some next => fix_jump_loop prog target pos next
      end
  end.

(* fuzz/fuzz_targets/semantic_aware.rs:126-154, fix_jump *)
Definition fix_jump {E} (prog : list FuzzedInstruction) (off pos len : Z) : Exec E Z :=
  if only_verified then
    let! target := rem_euclid (as_u64 off) len in
    if target =? 0 then let! t := i16_sub (as_i16 target) (as_i16 pos) in i16_sub t 1
    else fix_jump_loop prog target pos target
  else Ret off.

(* fuzz/fuzz_targets/semantic_aware.rs:156-163, calculate_length *)
Definition calculate_length {E} (prog : list FuzzedInstruction) : Exec E Z :=
  u64_add (zlen prog) (zlen (filter (fun insn => is_load insn = true) prog)).

(** * Programs *)

(** The arm of a [Load], with what it adds to [pos] on its own. *)
(* fuzz/fuzz_targets/semantic_aware.rs:218-234, make_program *)
Definition push_load (code : BpfCode) (d : Register) : (if only_verified then Z else MemSize) -> Z -> BpfCode * Z :=
  match only_verified as b return (if b then Z else MemSize) -> Z -> BpfCode * Z with
  | true => fun imm1 imm2 =>
      let code := Load_push (set_imm (set_dst (load code DoubleWord) (to_dst d)) imm1) in
      (Load_push (set_imm (load code Word) imm2), 1)
  | false => fun m imm => (Load_push (set_imm (set_dst (load code m) (to_dst d)) imm), 0)
  end.

(* fuzz/fuzz_targets/semantic_aware.rs:170-174, make_program *)
Definition replace_jump (inst : FuzzedInstruction) : FuzzedInstruction :=
  match inst with
  | JumpC _ CondAbs (Reg _) off => Jump off
  | _ => inst
  end.

Definition shift_bits (a : Arch) : Z := match a with X64 => 64 | X32 => 32 end.

(** One turn of the loop: the code and [pos] behind the instruction. *)
(* fuzz/fuzz_targets/semantic_aware.rs:170-293, make_program *)
Definition push_insn {E} (prog : list FuzzedInstruction) (len : Z) (code : BpfCode) (pos : Z) (inst : FuzzedInstruction) : Exec E (BpfCode * Z) :=
  let! (code, pos) :=
    match replace_jump inst with
    | Add a d s => Ret (complete_alu_insn (add code (source_of s) a) d s, pos)
    | Sub a d s => Ret (complete_alu_insn (sub code (source_of s) a) d s, pos)
    | Mul a d s => Ret (complete_alu_insn (mul code (source_of s) a) d s, pos)
    | Div a d s => Ret (complete_alu_insn_nonzero (div code (source_of_nonzero s) a) d s, pos)
    | BitOr a d s => Ret (complete_alu_insn (bit_or code (source_of s) a) d s, pos)
    | BitAnd a d s => Ret (complete_alu_insn (bit_and code (source_of s) a) d s, pos)
    | LeftShift a d s =>
        let! code := complete_alu_insn_shift (left_shift code (source_of s) a) d s (shift_bits a) in Ret (code, pos)
    | RightShift a d s =>
        let! code := complete_alu_insn_shift (right_shift code (source_of s) a) d s (shift_bits a) in Ret (code, pos)
    | Negate a d => Ret (Move_push (set_dst (negate code a) (to_dst d)), pos)
    | Modulo a d s => Ret (complete_alu_insn_nonzero (modulo code (source_of_nonzero s) a) d s, pos)
    | BitXor a d s => Ret (complete_alu_insn (bit_xor code (source_of s) a) d s, pos)
    | Mov a d s => Ret (complete_alu_insn (mov code (source_of s) a) d s, pos)
    | SRS a d s =>
        let! code := complete_alu_insn_shift (signed_right_shift code (source_of s) a) d s (shift_bits a) in Ret (code, pos)
    | SwapBytes d e s => Ret (SwapBytes_push (set_imm (set_dst (swap_bytes_insn code e) (to_dst d)) (swap_size_i64 s)), pos)
    | Load d x imm =>
        let '(code, extra) := push_load code d x imm in
        let! pos := u64_add pos extra in Ret (code, pos)
    | LoadAbs m imm => Ret (Load_push (set_imm (load_abs code m) imm), pos)
    | LoadInd m s imm => Ret (Load_push (set_imm (set_src (load_ind code m) (to_src s)) imm), pos)
    | LoadX d m s off => Ret (Load_push (set_off (set_src (set_dst (load_x code m) (to_dst d)) (to_src s)) off), pos)
    | Store d m off imm => Ret (Store_push (set_imm (set_off (set_dst (store code m) (to_src d)) off) imm), pos)
    | StoreX d m off s => Ret (Store_push (set_src (set_off (set_dst (store_x code m) (to_src d)) off) (to_src s)), pos)
    | Jump off =>
        let! off := fix_jump prog off pos len in
        Ret (Jump_push (set_off (jump_unconditional code) off), pos)
    | JumpC d c s off =>
        let! off := fix_jump prog off pos len in
        match s with
        | Reg r => Ret (Jump_push (set_off (set_src (set_dst (jump_conditional code c (source_of s)) (to_dst d)) (to_src r)) off), pos)
        | Imm imm => Ret (Jump_push (set_off (set_imm (set_dst (jump_conditional code c (source_of s)) (to_dst d)) imm) off), pos)
        end
    | Call imm => Ret (FunctionCall_push (set_imm (call code) imm), pos)
    | Exit => Ret (Exit_push (exit code), pos)
    end in
  let! pos := u64_add pos 1 in
  Ret (code, pos).

(* fuzz/fuzz_targets/semantic_aware.rs:169-294, make_program *)
Fixpoint push_insns {E} (prog : list FuzzedInstruction) (len : Z) (code : BpfCode) (pos : Z) (rest : list FuzzedInstruction) : Exec E BpfCode :=
  match rest with
  | [] => Ret code
  | inst :: rest =>
      let! (code, pos) := push_insn prog len code pos inst in
      push_insns prog len code pos rest
  end.

(* fuzz/fuzz_targets/semantic_aware.rs:165-297, make_program *)
Definition make_program {E} (prog : list FuzzedInstruction) : Exec E BpfCode :=
  let! len := calculate_length prog in
  let! code := push_insns prog len new_code 0 prog in
  Ret (Exit_push (exit code)).
End Feature.

Arguments Add {only_verified} a d s.
Arguments Sub {only_verified} a d s.
Arguments Mul {only_verified} a d s.
Arguments Div {only_verified} a d s.
Arguments BitOr {only_verified} a d s.
Arguments BitAnd {only_verified} a d s.
Arguments LeftShift {only_verified} a d s.
Arguments RightShift {only_verified} a d s.
Arguments Negate {only_verified} a d.
Arguments Modulo {only_verified} a d s.
Arguments BitXor {only_verified} a d s.
Arguments Mov {only_verified} a d s.
Arguments SRS {only_verified} a d s.
Arguments SwapBytes {only_verified} d e s.
Arguments Load {only_verified} d x imm.
Arguments LoadAbs {only_verified} m imm.
Arguments LoadInd {only_verified} m s imm.
Arguments LoadX {only_verified} d m s off.
Arguments Store {only_verified} d m off imm.
Arguments StoreX {only_verified} d m off s.
Arguments Jump {only_verified} off.
Arguments JumpC {only_verified} d c s off.
Arguments Call {only_verified} imm.
Arguments Exit {_}.
Arguments is_load {only_verified} insn.
Arguments make_program {_ E} prog.
Arguments fix_jump {_ E} prog off pos len.
Arguments fix_jump_loop {_ E} prog target pos remaining.
Arguments push_insn {_ E} prog len code pos inst.
Arguments push_insns {_ E} prog len code pos rest.
Arguments calculate_length {_ E} prog.

(** * Chains of builder calls

    With the feature, each instruction is one chain of calls of the builder, or two for a wide load. *)

Definition source_chain (m : Source -> Method) (d : Register) (s : FuzzedSource) : Chain :=
  match s with
  | Reg r => mkChain (m SourceReg) (to_dst true d) (to_src r) 0 0
  | Imm imm => mkChain (m SourceImm) (to_dst true d) 0 0 imm
  end.
Definition shift_chain (m : Source -> Method) (a : Arch) (d : Register) (s : FuzzedSource) : Chain :=
  match s with
  | Reg r => mkChain (m SourceReg) (to_dst true d) (to_src r) 0 0
  | Imm imm => mkChain (m SourceImm) (to_dst true d) 0 0 (imm mod shift_bits a)
  end.
Definition nonzero_chain (m : Source -> Method) (d : Register) (s : FuzzedNonZeroSource) : Chain :=
  match s with
  | NonZeroReg r => mkChain (m SourceReg) (to_dst true d) (to_src r) 0 0
  | NonZeroImm imm => mkChain (m SourceImm) (to_dst true d) 0 0 imm
  end.

(** The first chain of an instruction; a jump gets the offset [o]. *)
Definition head_chain (o : Z) (inst : FuzzedInstruction true) : Chain :=
  match inst with
  | Add a d s => source_chain (fun x => MAdd x a) d s
  | Sub a d s => source_chain (fun x => MSub x a) d s
  | Mul a d s => source_chain (fun x => MMul x a) d s
  | Div a d s => nonzero_chain (fun x => MDiv x a) d s
  | BitOr a d s => source_chain (fun x => MBitOr x a) d s
  | BitAnd a d s => source_chain (fun x => MBitAnd x a) d s
  | LeftShift a d s => shift_chain (fun x => MLeftShift x a) a d s
  | RightShift a d s => shift_chain (fun x => MRightShift x a) a d s
  | Negate a d => mkChain (MNegate a) (to_dst true d) 0 0 0
  | Modulo a d s => nonzero_chain (fun x => MModulo x a) d s
  | BitXor a d s => source_chain (fun x => MBitXor x a) d s
  | Mov a d s => source_chain (fun x => MMov x a) d s
  | SRS a d s => shift_chain (fun x => MSignedRightShift x a) a d s
  | SwapBytes d e s => mkChain (MSwapBytes e) (to_dst true d) 0 0 (swap_size_i64 s)
  | Load d imm1 _ => mkChain (MLoad DoubleWord) (to_dst true d) 0 0 imm1
  | LoadAbs m imm => mkChain (MLoadAbs m) 0 0 0 imm
  | LoadInd m s imm => mkChain (MLoadInd m) 0 (to_src s) 0 imm
  | LoadX d m s off => mkChain (MLoadX m) (to_dst true d) (to_src s) off 0
  | Store d m off imm => mkChain (MStore m) (to_src d) 0 off imm
  | StoreX d m off s => mkChain (MStoreX m) (to_src d) (to_src s) off 0
  | Jump _ | JumpC _ CondAbs (Reg _) _ => mkChain MJumpUnconditional 0 0 o 0
  | JumpC d c (Reg r) _ => mkChain (MJumpConditional c SourceReg) (to_dst true d) (to_src r) o 0
  | JumpC d c (Imm imm) _ => mkChain (MJumpConditional c SourceImm) (to_dst true d) 0 o imm
  | Call imm => mkChain MCall 0 0 0 imm
  | Exit => mkChain MExit 0 0 0 0
  end.
Definition insn_chains (o : Z) (inst : FuzzedInstruction true) : list Chain :=
  head_chain o inst :: match inst with Load _ _ imm2 => [mkChain (MLoad Word) 0 0 0 imm2] | _ => [] end.

(** Slots of an instruction and of a program. *)
Definition slots_of (inst : FuzzedInstruction true) : Z := if is_load inst then 2 else 1.
Definition slots (prog : list (FuzzedInstruction true)) : Z := foldr (fun inst n => slots_of inst + n) 0 prog.

(** The jump offset an instruction asks for. *)
Definition jump_of (inst : FuzzedInstruction true) : option Z :=
  match inst with Jump off | JumpC _ _ _ off => Some off | _ => None end.

(** Where [fix_jump] leads: the slot, or the one in front of it when it is the second half of a wide load. *)
Fixpoint snap (prog : list (FuzzedInstruction true)) (base t : Z) : Z :=
  match prog with
  | [] => t
  | inst :: prog => if t <? base + slots_of inst then base else snap prog (base + slots_of inst) t
  end.
Definition jump_slot (prog : list (FuzzedInstruction true)) (off : Z) : Z := snap prog 0 (as_u64 off mod slots prog).
Definition jump_offset (prog : list (FuzzedInstruction true)) (pos : Z) (inst : FuzzedInstruction true) : Z :=
  match jump_of inst with Some off => jump_slot prog off - pos - 1 | None => 0 end.

Fixpoint chains_from (prog : list (FuzzedInstruction true)) (pos : Z) (rest : list (FuzzedInstruction true)) : list Chain :=
  match rest with
  | [] => []
  | inst :: rest => insn_chains (jump_offset prog pos inst) inst ++ chains_from prog (pos + slots_of inst) rest
  end.
Definition program_chains (prog : list (FuzzedInstruction true)) : list Chain := chains_from prog 0 prog ++ [mkChain MExit 0 0 0 0].

(** * Lemmas *)

Lemma slots_of_range inst : 1 <= slots_of inst <= 2.
Proof. unfold slots_of. destruct (is_load inst); lia. Qed.
Lemma slots_nonneg prog : 0 <= slots prog.
Proof. induction prog as [|i prog IH]; cbn; [done|]. pose proof (slots_of_range i). fold (slots prog). lia. Qed.
Lemma slots_app prog prog' : slots (prog ++ prog') = slots prog + slots prog'.
Proof. induction prog as [|i prog IH]; cbn [app slots foldr]; [done|]. fold (slots (prog ++ prog')) (slots prog). lia. Qed.
Lemma slots_cons i prog : slots (i :: prog) = slots_of i + slots prog.
Proof. done. Qed.

Lemma calculate_length_slots {E} prog : slots prog <= u64_max -> calculate_length (E := E) prog = Ret (slots prog).
Proof.
  intros Hs. unfold calculate_length, u64_add.
  assert (Heq : zlen prog + zlen (filter (fun insn => is_load insn = true) prog) = slots prog).
  { clear Hs. induction prog as [|i prog IH]; [done|]. rewrite filter_cons, slots_cons, zlen_cons, <-IH. unfold slots_of.
    destruct (is_load i); [rewrite decide_True by done|rewrite decide_False by done]; rewrite ?zlen_cons; lia. }
  rewrite Heq. by rewrite (proj2 (Z.leb_le _ _)).
Qed.

(** [snap] finds the start of the instruction that a slot belongs to. *)
Lemma snap_start prog base t : base <= t < base + slots prog ->
  exists pre inst post, prog = pre ++ inst :: post /\ snap prog base t = base + slots pre /\ base + slots pre <= t < base + slots pre + slots_of inst.
Proof.
  revert base. induction prog as [|i prog IH]; intros base Ht; [cbn in Ht; lia|]. cbn [snap]. rewrite slots_cons in Ht.
  destruct (Z.ltb_spec t (base + slots_of i)) as [Hlt|Hge].
  - exists [], i, prog. cbn. split; [done|]. lia.
  - destruct (IH (base + slots_of i)) as (pre & inst & post & -> & -> & Hr); [lia|].
    exists (i :: pre), inst, post. rewrite slots_cons. split; [done|]. lia.
Qed.

Lemma as_i16_small z : 0 <= z < 2 ^ 15 -> as_i16 z = z.
Proof. intros H. apply swrap_small; [done|]. unfold in_s. lia. Qed.

Lemma i16_sub_small {E} a b : - 2 ^ 15 <= a - b < 2 ^ 15 -> i16_sub (E := E) a b = Ret (a - b).
Proof. intros H. unfold i16_sub. rewrite (proj2 (Z.leb_le _ _)), (proj2 (Z.ltb_lt _ _)) by lia. done. Qed.

Lemma fix_jump_loop_spec {E} (prog : list (FuzzedInstruction true)) (base target pos : Z) : 0 <= base -> 0 <= pos ->
  pos < 2 ^ 15 -> base < target < base + slots prog -> target < 2 ^ 15 ->
  fix_jump_loop (E := E) prog target pos (target - base) = Ret (snap prog base target - pos - 1).
Proof.
  intros Hb0 Hp0 Hp Ht Ht'. revert base Hb0 Ht. induction prog as [|i prog IH]; intros base Hb0 Ht; [cbn in Ht; lia|].
  rewrite slots_cons in Ht. cbn [fix_jump_loop snap].
  replace (match i with Load _ _ _ => u64_checked_sub (target - base) 2 | _ => u64_checked_sub (target - base) 1 end)
    with (u64_checked_sub (target - base) (slots_of i)) by (by destruct i). unfold u64_checked_sub.
  pose proof (slots_of_range i) as Hi. rewrite !as_i16_small by lia.
  destruct (Z.leb_spec (slots_of i) (target - base)), (Z.ltb_spec target (base + slots_of i)); try lia.
  - destruct (Z.eqb_spec (target - base - slots_of i) 0) as [Hz|Hz].
    + rewrite Hz. rewrite !i16_sub_small; cbn [exec_bind]; rewrite ?i16_sub_small by lia; [|lia].
      destruct prog as [|j prog]; [cbn in Ht; lia|]. cbn [snap]. pose proof (slots_of_range j).
      rewrite (proj2 (Z.ltb_lt _ _)) by lia. f_equal. lia.
    + destruct (target - base - slots_of i) as [|p|p] eqn:Hr; [done| |lia]. rewrite <-Hr.
      replace (target - base - slots_of i) with (target - (base + slots_of i)) by lia. apply IH; lia.
  - rewrite !i16_sub_small by lia. cbn [exec_bind]. rewrite i16_sub_small by lia. f_equal. lia.
Qed.

Lemma fix_jump_spec {E} (prog : list (FuzzedInstruction true)) (off pos : Z) : 0 < slots prog <= 2 ^ 15 -> 0 <= pos < 2 ^ 15 ->
  fix_jump (E := E) prog off pos (slots prog) = Ret (jump_slot prog off - pos - 1).
Proof.
  intros Hs Hp. unfold fix_jump, rem_euclid, jump_slot. rewrite (proj2 (Z.eqb_neq _ _)) by lia. cbn [exec_bind].
  pose proof (Z.mod_pos_bound (as_u64 off) (slots prog) ltac:(lia)) as Ht. set (t := _ mod _) in *.
  destruct (Z.eqb_spec t 0) as [->|Hne].
  - rewrite !as_i16_small, i16_sub_small by lia. cbn [exec_bind]. rewrite i16_sub_small by lia. f_equal.
    destruct prog as [|i prog]; [cbn in Hs; lia|]. cbn [snap]. pose proof (slots_of_range i). rewrite (proj2 (Z.ltb_lt _ _)) by lia. done.
  - rewrite <-(Z.sub_0_r t) at 2. apply fix_jump_loop_spec; lia.
Qed.

(** ** What the loop emits *)

Lemma push_insn_spec {E} (prog : list (FuzzedInstruction true)) (code : BpfCode) (pos : Z) (inst : FuzzedInstruction true) :
  0 < slots prog <= 2 ^ 15 -> 0 <= pos -> pos + slots_of inst <= slots prog ->
  push_insn (E := E) prog (slots prog) code pos inst
    = Ret (foldl run_chain code (insn_chains (jump_offset prog pos inst) inst), pos + slots_of inst).
Proof.
  intros Hs Hp Hle. pose proof (slots_of_range inst). unfold push_insn.
  assert (Hu : forall k, k <= 2 -> u64_add (E := E) pos k = Ret (pos + k)) by (intros k Hk; apply u64_add_small; lia).
  assert (Hj : forall off, fix_jump (E := E) prog off pos (slots prog) = Ret (jump_slot prog off - pos - 1)) by (intros off; apply fix_jump_spec; lia).
  destruct inst as [a d s|a d s|a d s|a d s|a d s|a d s|[] d s|[] d s|a d|a d s|a d s|a d s|[] d s|d e s|d x imm|m imm|m s imm|d m s off|d m off imm|d m off s|off|d [] s off|imm|];
    cbn [replace_jump push_load]; try destruct s; cbn [complete_alu_insn complete_alu_insn_shift complete_alu_insn_nonzero exec_bind];
    unfold rem_euclid; cbn [shift_bits Z.eqb exec_bind]; rewrite ?Hj; cbn [exec_bind]; rewrite ?Hu by lia; cbn [exec_bind];
    try reflexivity.
  rewrite u64_add_small by lia. cbn [exec_bind]. rewrite <-Z.add_assoc. reflexivity.
Qed.

Lemma push_insns_spec {E} (prog rest : list (FuzzedInstruction true)) (code : BpfCode) (pos : Z) :
  slots prog <= 2 ^ 15 -> 0 <= pos -> pos + slots rest <= slots prog ->
  push_insns (E := E) prog (slots prog) code pos rest = Ret (foldl run_chain code (chains_from prog pos rest)).
Proof.
  intros Hs. revert code pos. induction rest as [|i rest IH]; intros code pos Hp Hle; [done|]. rewrite slots_cons in Hle.
  pose proof (slots_nonneg rest). pose proof (slots_of_range i). cbn [push_insns chains_from].
  rewrite push_insn_spec by lia. cbn [exec_bind]. rewrite IH by lia. by rewrite foldl_app.
Qed.

Lemma made_program_chains {E} (prog : list (FuzzedInstruction true)) : slots prog <= 2 ^ 15 ->
  make_program (E := E) prog = Ret (build (program_chains prog)).
Proof.
  intros Hs. unfold make_program. rewrite calculate_length_slots by (unfold u64_max; lia). cbn [exec_bind].
  rewrite push_insns_spec by lia. cbn [exec_bind]. unfold build, program_chains. by rewrite foldl_app.
Qed.

(** ** The slots of the program *)

Lemma zlen_insn_chains o inst : zlen (insn_chains o inst) = slots_of inst.
Proof. by destruct inst. Qed.

Lemma zlen_chains_from prog pos rest : zlen (chains_from prog pos rest) = slots rest.
Proof.
  revert pos. induction rest as [|i rest IH]; intros pos; [done|]. cbn [chains_from]. by rewrite zlen_app, zlen_insn_chains, IH, slots_cons.
Qed.

Lemma chains_from_app prog pos pre rest : chains_from prog pos (pre ++ rest) = chains_from prog pos pre ++ chains_from prog (pos + slots pre) rest.
Proof.
  revert pos. induction pre as [|i pre IH]; intros pos; cbn [app chains_from]; [by rewrite Z.add_0_r|].
  rewrite IH, slots_cons, <-app_assoc. by rewrite Z.add_assoc.
Qed.

(** The chains of the instruction at a slot. *)
Lemma program_chains_at (prog pre post : list (FuzzedInstruction true)) (inst : FuzzedInstruction true) :
  prog = pre ++ inst :: post -> exists l r, program_chains prog = l ++ insn_chains (jump_offset prog (slots pre) inst) inst ++ r /\ zlen l = slots pre.
Proof.
  intros ->. unfold program_chains. rewrite chains_from_app. cbn [chains_from]. rewrite <-!app_assoc.
  eexists _, _. split; [done|]. apply zlen_chains_from.
Qed.

Lemma build_insn_at (l r : list Chain) (c : Chain) : chain_ok c ->
  insn_at (code_into_bytes (build (l ++ c :: r))) (zlen l) = chain_insn (zlen l) c.
Proof.
  intros (Hd & Hs & Ho & Hi). pose proof (zlen_build l) as Hl. unfold code_into_bytes, build, insn_at, insn_bytes in *. rewrite build_bytes in *.
  rewrite fmap_app, join_app, fmap_cons. change (mjoin (?a :: ?m)) with (a ++ mjoin m). cbn [instructions new_code app] in *.
  rewrite <-Hl. unfold zlen at 2. rewrite Nat2Z.id, drop_app_length, (take_app_length' _ _ 8) by done.
  rewrite (decode_bytes_ptr _ 0). change 0 with (chain_insn 0 c).(ptr) at 1. rewrite decode_to_array; [done|].
  unfold insn_wf. cbn. split_and!; [apply chain_opcode_range|done..].
Qed.

(** ** What is emitted is well-formed *)

(** The operands are in the ranges of their types. *)
Definition source_typed (s : FuzzedSource) : Prop := match s with Reg r => in_u 8 r.(reg_0) | Imm imm => in_s 32 imm end.
Definition nonzero_typed (s : FuzzedNonZeroSource) : Prop :=
  match s with NonZeroReg r => in_u 8 r.(reg_0) | NonZeroImm imm => in_s 32 imm /\ imm <> 0 end.
Definition insn_typed (inst : FuzzedInstruction true) : Prop :=
  match inst with
  | Add _ d s | Sub _ d s | Mul _ d s | BitOr _ d s | BitAnd _ d s | LeftShift _ d s | RightShift _ d s | BitXor _ d s | Mov _ d s
  | SRS _ d s => in_u 8 d.(reg_0) /\ source_typed s
  | Div _ d s | Modulo _ d s => in_u 8 d.(reg_0) /\ nonzero_typed s
  | Negate _ d | SwapBytes d _ _ => in_u 8 d.(reg_0)
  | Load d imm1 imm2 => in_u 8 d.(reg_0) /\ in_s 32 imm1 /\ in_s 32 imm2
  | LoadAbs _ imm | Call imm => in_s 32 imm
  | LoadInd _ s imm => in_u 8 s.(reg_0) /\ in_s 32 imm
  | LoadX d _ s off | StoreX d _ off s => in_u 8 d.(reg_0) /\ in_u 8 s.(reg_0) /\ in_s 16 off
  | Store d _ off imm => in_u 8 d.(reg_0) /\ in_s 16 off /\ in_s 32 imm
  | Jump off => in_s 16 off
  | JumpC d _ s off => in_u 8 d.(reg_0) /\ source_typed s /\ in_s 16 off
  | Exit => True
  end.

(** The absolute and indirect loads, which no version has. *)
Definition legacy_load (inst : FuzzedInstruction true) : bool :=
  match inst with LoadAbs _ _ | LoadInd _ _ _ => true | _ => false end.

Lemma to_dst_range d : 0 <= to_dst true d <= 9.
Proof. unfold to_dst. pose proof (Z.mod_pos_bound (reg_0 d) 10 ltac:(lia)). lia. Qed.
Lemma to_src_range d : 0 <= to_src d <= 10.
Proof. unfold to_src. pose proof (Z.mod_pos_bound (reg_0 d) 11 ltac:(lia)). lia. Qed.

Ltac case_insn inst :=
  destruct inst as [[] ? []|[] ? []|[] ? []|[] ? []|[] ? []|[] ? []|[] ? []|[] ? []|[] ?|[] ? []|[] ? []|[] ? []|[] ? []|? [] []|???|[] ?|[] ??|?[]??|?[]??|?[]??|?|?[] []?|?|].

Lemma insn_chains_ok o inst : in_s 16 o -> insn_typed inst -> Forall chain_ok (insn_chains o inst).
Proof.
  intros Ho Ht. assert (Hd : forall d, in_u 4 (to_dst true d)) by (intros d; pose proof (to_dst_range d); unfold in_u; lia).
  assert (Hs : forall d, in_u 4 (to_src d)) by (intros d; pose proof (to_src_range d); unfold in_u; lia).
  assert (Hm32 : forall imm, in_s 32 (imm mod 32)) by (intros imm; pose proof (Z.mod_pos_bound imm 32); unfold in_s; lia).
  assert (Hm64 : forall imm, in_s 32 (imm mod 64)) by (intros imm; pose proof (Z.mod_pos_bound imm 64); unfold in_s; lia).
  assert (H4 : in_u 4 0) by done. assert (H16 : in_s 16 0) by done. assert (H32 : in_s 32 0) by done.
  assert (Hsw : in_s 32 16 /\ in_s 32 32 /\ in_s 32 64) by done.
  case_insn inst; cbn [insn_typed source_typed nonzero_typed] in Ht; repeat (apply Forall_cons; split); try apply Forall_nil_2;
    refine (conj _ (conj _ (conj _ _))); cbn [head_chain source_chain shift_chain nonzero_chain ch_dst ch_src ch_imm ch_off ch_method shift_bits swap_size_i64];
    first [assumption|apply Hd|apply Hs|apply Hm32|apply Hm64|apply Hsw|apply Ht].
Qed.

(** The class of an instruction, and that it passes the checks that do not depend on its place. *)
Lemma head_class (v : SBPFVersion) o inst : v <> V2 -> insn_typed inst -> legacy_load inst = false ->
  let c := head_chain o inst in
  exists cl, opcode_class v (c.(ch_dst) =? 10) (chain_opcode c.(ch_method)) = Some cl /\
    match cl with
    | ClassPlain | ClassStore => True
    | ClassLddw => is_load inst = true
    | ClassNonzeroImm => c.(ch_imm) <> 0
    | ClassEndian => c.(ch_imm) = 16 \/ c.(ch_imm) = 32 \/ c.(ch_imm) = 64
    | ClassShift bits => 0 <= c.(ch_imm) < bits
    | ClassJump => c.(ch_off) = o /\ jump_of inst <> None
    | ClassStackBump | ClassCallx => False
    end /\
    (c.(ch_src) <= 10 /\ (c.(ch_dst) <= 9 \/ c.(ch_dst) = 10 /\ (cl = ClassStore \/ cl = ClassStackBump))) /\
    (chain_opcode c.(ch_method) =? LD_DW_IMM) = is_load inst.
Proof.
  intros Hv Ht Hl. cbv zeta.
  assert (Hd : forall d, (to_dst true d =? 10) = false /\ to_dst true d <= 9) by (intros d; pose proof (to_dst_range d); lia).
  assert (Hs : forall d, to_src d <= 10) by (intros d; pose proof (to_src_range d); lia).
  assert (Hss : forall d, (to_src d =? 10) = true /\ to_src d = 10 \/ (to_src d =? 10) = false /\ to_src d <= 9) by (intros d; pose proof (to_src_range d); lia).
  assert (Hm : forall imm, 0 <= imm mod 64 < 64 /\ 0 <= imm mod 32 < 32) by (intros imm; pose proof (Z.mod_pos_bound imm 64); pose proof (Z.mod_pos_bound imm 32); lia).
  case_insn inst; try discriminate Hl; clear Hl; cbn [head_chain source_chain shift_chain nonzero_chain ch_dst ch_src ch_imm ch_off ch_method shift_bits swap_size_i64];
    try (match goal with |- context [to_src ?d =? 10] => destruct (Hss d) as [[-> ?]|[-> ?]] end);
    rewrite ?(proj1 (Hd _)); destruct v; try congruence; (eexists; split; [vm_compute; reflexivity|]);
    (split; [|split; [|reflexivity]]); try done; try (split; [first [apply Hs|done]|]; first [left; apply Hd|left; done|right; split; [done|left; done]]);
    try (by apply Ht); first [apply Hm|vm_compute; intuition congruence].
Qed.

Lemma split_slots prog pre inst post : prog = pre ++ inst :: post -> 0 <= slots pre /\ slots pre + slots_of inst + slots post = slots prog.
Proof. intros ->. rewrite slots_app, slots_cons. pose proof (slots_nonneg pre). lia. Qed.

Section Made.
Context (prog : list (FuzzedInstruction true)).
Context (Htyped : Forall insn_typed prog) (Hlen : slots prog <= 2 ^ 15).
Let bytes : list Z := code_into_bytes (build (program_chains prog)).

Lemma made_num_insns : zlen bytes = INSN_SIZE * (slots prog + 1) /\ num_insns bytes = slots prog + 1.
Proof.
  assert (Hz : zlen bytes = INSN_SIZE * (slots prog + 1)).
  { unfold bytes. rewrite zlen_build. unfold program_chains. by rewrite zlen_app, zlen_chains_from. }
  split; [done|]. unfold num_insns. rewrite Hz, Z.mul_comm. by apply Z.div_mul.
Qed.

(** Jumps lead to the start of an instruction. *)
Lemma jump_slot_start off : 0 < slots prog -> exists pre inst post, prog = pre ++ inst :: post /\ jump_slot prog off = slots pre.
Proof.
  intros Hs. unfold jump_slot. pose proof (Z.mod_pos_bound (as_u64 off) (slots prog) Hs).
  destruct (snap_start prog 0 (as_u64 off mod slots prog)) as (pre & inst & post & Hp & Hq & _); [lia|]. by exists pre, inst, post.
Qed.

Lemma jump_offset_range pre inst post : prog = pre ++ inst :: post -> in_s 16 (jump_offset prog (slots pre) inst).
Proof.
  intros Hp. destruct (split_slots _ _ _ _ Hp) as [Hp0 Hps]. pose proof (slots_of_range inst). pose proof (slots_nonneg post).
  unfold jump_offset, in_s. destruct (jump_of inst) as [off|]; [|lia].
  destruct (jump_slot_start off) as (pre' & i' & post' & Hp' & ->); [lia|]. destruct (split_slots _ _ _ _ Hp') as [? ?].
  pose proof (slots_of_range i'). pose proof (slots_nonneg post'). lia.
Qed.

Lemma chains_at_ok pre inst post : prog = pre ++ inst :: post -> Forall chain_ok (insn_chains (jump_offset prog (slots pre) inst) inst).
Proof.
  intros Hp. apply insn_chains_ok; [by apply (jump_offset_range pre inst post)|].
  rewrite Hp in Htyped. apply Forall_app in Htyped as [_ H%Forall_cons]. apply H.
Qed.

Lemma made_chains_ok : Forall chain_ok (program_chains prog).
Proof.
  apply Forall_app. split; [|by repeat constructor]. assert (H : forall pre rest, prog = pre ++ rest -> Forall chain_ok (chains_from prog (slots pre) rest)).
  { intros pre rest. revert pre. induction rest as [|i rest IH]; intros pre Hp; [constructor|]. cbn [chains_from]. apply Forall_app. split.
    - by apply (chains_at_ok pre i rest).
    - specialize (IH (pre ++ [i])). rewrite slots_app, slots_cons in IH. change (slots []) with 0 in IH. rewrite Z.add_0_r in IH.
      apply IH. by rewrite <-app_assoc. }
  by apply (H []).
Qed.

Lemma made_bytes_ok : bytes_ok bytes.
Proof.
  apply build_bytes_ok. apply (Forall_impl _ _ _ made_chains_ok). intros c ([? ?] & _). unfold in_u. lia.
Qed.

Lemma made_insn_at pre inst post : prog = pre ++ inst :: post ->
  insn_at bytes (slots pre) = chain_insn (slots pre) (head_chain (jump_offset prog (slots pre) inst) inst).
Proof.
  intros Hp. pose proof (chains_at_ok _ _ _ Hp) as Hok. destruct (program_chains_at _ _ _ _ Hp) as (l & r & Hl & Hz).
  unfold bytes. rewrite Hl, <-Hz in *. apply Forall_cons in Hok as [Hok _]. by apply build_insn_at.
Qed.

Lemma made_second_half pre inst post : prog = pre ++ inst :: post -> is_load inst = true -> (insn_at bytes (slots pre + 1)).(opc) = 0.
Proof.
  intros Hp Hi. pose proof (chains_at_ok _ _ _ Hp) as Hok. destruct (program_chains_at _ _ _ _ Hp) as (l & r & Hl & Hz).
  unfold bytes. rewrite Hl. destruct inst; try discriminate Hi. unfold insn_chains in *. apply Forall_cons in Hok as [_ [Hok _]%Forall_cons].
  change (l ++ [?a; ?b] ++ r) with (l ++ [a] ++ b :: r). rewrite app_assoc. rewrite <-Hz.
  match goal with |- context [(l ++ [?a]) ++ _] => replace (zlen l + 1) with (zlen (l ++ [a])) by (by rewrite zlen_app) end.
  by rewrite build_insn_at.
Qed.

Lemma made_exit : insn_at bytes (slots prog) = chain_insn (slots prog) (mkChain MExit 0 0 0 0).
Proof.
  unfold bytes, program_chains. rewrite <-(zlen_chains_from prog 0 prog). by apply build_insn_at.
Qed.
End Made.

Section Verified.
Context (v : SBPFVersion) (prog : list (FuzzedInstruction true)).
Context (Hv : v <> V2) (Htyped : Forall insn_typed prog) (Hlen : slots prog <= 2 ^ 15).
Let bytes : list Z := code_into_bytes (build (program_chains prog)).

Lemma typed_at pre inst post : prog = pre ++ inst :: post -> insn_typed inst.
Proof. intros Hp. rewrite Hp in Htyped. apply Forall_app in Htyped as [_ H%Forall_cons]. apply H. Qed.

Lemma head_opcode_nonzero o inst : chain_opcode (head_chain o inst).(ch_method) <> 0.
Proof. case_insn inst; vm_compute; congruence. Qed.

Lemma head_legacy o inst b : legacy_load inst = true -> opcode_class v b (chain_opcode (head_chain o inst).(ch_method)) = None.
Proof. case_insn inst; try done; intros _; destruct v, b; by vm_compute. Qed.

(** An instruction other than a legacy load passes the checks of the verifier. *)
Lemma made_insn_ok pre inst post : prog = pre ++ inst :: post -> legacy_load inst = false ->
  insn_ok bytes v (slots pre) /\ ((insn_at bytes (slots pre)).(opc) =? LD_DW_IMM) = is_load inst.
Proof.
  intros Hp Hl. destruct (head_class v (jump_offset prog (slots pre) inst) inst Hv (typed_at _ _ _ Hp) Hl) as (cl & Hcl & Hok & Hr & Hw).
  pose proof (made_insn_at prog Htyped Hlen _ _ _ Hp) as Hi. fold bytes in Hi. destruct (made_num_insns prog) as [_ Hn]. fold bytes in Hn.
  destruct (split_slots _ _ _ _ Hp) as [Hp0 Hps]. pose proof (slots_of_range inst). pose proof (slots_nonneg post).
  split; [|by rewrite Hi]. exists cl. unfold insn_class. rewrite Hi. split; [exact Hcl|]. split; [|exact Hr].
  unfold class_ok. rewrite Hi. destruct cl; try done.
  - split; [unfold slots_of in *; rewrite Hok in *; lia|]. by apply (made_second_half prog Htyped Hlen pre inst post).
  - destruct Hok as [Ho Hj]. cbn [chain_insn off]. rewrite Ho, Hn. unfold jump_offset. destruct (jump_of inst) as [off|]; [|done].
    destruct (jump_slot_start prog off) as (pre' & i' & post' & Hp' & ->); [lia|]. destruct (split_slots _ _ _ _ Hp') as [? ?].
    pose proof (slots_of_range i'). pose proof (slots_nonneg post'). replace (slots pre + 1 + (slots pre' - slots pre - 1)) with (slots pre') by lia.
    split; [lia|]. unfold bytes. rewrite (made_insn_at prog Htyped Hlen _ _ _ Hp'). apply head_opcode_nonzero.
Qed.

Lemma made_exit_ok : insn_ok bytes v (slots prog).
Proof.
  exists ClassPlain. unfold insn_class, class_ok, bytes. rewrite (made_exit prog). split; [by destruct v|]. split; [done|]. by split; [|left].
Qed.

Lemma made_well_formed_from (rest pre : list (FuzzedInstruction true)) : prog = pre ++ rest ->
  Forall (fun inst => legacy_load inst = false) rest -> well_formed_from bytes v (slots pre).
Proof.
  destruct (made_num_insns prog) as [_ Hn]. fold bytes in Hn.
  revert pre. induction rest as [|i rest IH]; intros pre Hp Hl.
  - rewrite app_nil_r in Hp. subst pre. pose proof (slots_nonneg prog). apply wf_insn; [lia|exact made_exit_ok| |].
    + unfold bytes. by rewrite (made_exit prog).
    + rewrite <-Hn. apply wf_end.
  - apply Forall_cons in Hl as [Hi Hl]. destruct (made_insn_ok pre i rest Hp Hi) as [Hok Hw].
    specialize (IH (pre ++ [i])). rewrite <-app_assoc in IH. specialize (IH Hp Hl). rewrite slots_app in IH. cbn [slots foldr] in IH. rewrite Z.add_0_r in IH.
    destruct (split_slots _ _ _ _ Hp) as [Hp0 Hps]. pose proof (slots_nonneg rest). unfold slots_of in *.
    destruct (is_load i); [apply wf_lddw|apply wf_insn]; try done; try lia; by apply Z.eqb_neq.
Qed.

Lemma made_well_formed : well_formed_program bytes v <-> Forall (fun inst => legacy_load inst = false) prog.
Proof.
  destruct (made_num_insns prog) as [Hz Hn]. fold bytes in Hz, Hn. pose proof (slots_nonneg prog). split.
  - intros (_ & _ & Hwf). apply Forall_forall. intros inst (pre & post & Hp)%list_elem_of_split. apply not_true_is_false. intros Hl.
    destruct (split_slots _ _ _ _ Hp) as [Hp0 Hps]. pose proof (slots_nonneg post). pose proof (slots_of_range inst).
    assert (Hopc : forall q, 0 <= q < num_insns bytes -> in_u 8 (insn_at bytes q).(opc)).
    { intros q Hq. apply insn_at_wf; [by apply made_bytes_ok|rewrite Hz, Z.mul_comm; by apply Z_mod_mult|done]. }
    destruct (well_formed_slots bytes v 0 (slots pre) Hwf Hopc) as [(cl & Hcl & _)|Ho]; [rewrite Hn; lia| |].
    + unfold insn_class, bytes in Hcl. rewrite (made_insn_at prog Htyped Hlen _ _ _ Hp) in Hcl. cbn [chain_insn opc] in Hcl. by rewrite head_legacy in Hcl.
    + unfold bytes in Ho. rewrite (made_insn_at prog Htyped Hlen _ _ _ Hp) in Ho. by apply head_opcode_nonzero in Ho.
  - intros Hl. split; [rewrite Hz, Z.mul_comm; by apply Z_mod_mult|]. split; [|by apply (made_well_formed_from prog [])].
    intros He. assert (Hz0 : zlen bytes = 0) by (by rewrite He). rewrite Hz0 in Hz. unfold INSN_SIZE in Hz. lia.
Qed.
End Verified.

Lemma made_verify `{Bo : LittleEndian} (v : SBPFVersion) (prog : list (FuzzedInstruction true)) :
  v <> V2 -> Forall insn_typed prog -> slots prog <= 2 ^ 15 ->
  verify (code_into_bytes (build (program_chains prog))) v = Ret tt <-> Forall (fun inst => legacy_load inst = false) prog.
Proof.
  intros Hv Ht Hlen. rewrite <-(made_well_formed v prog Hv Ht Hlen).
  pose proof (verify_decides (code_into_bytes (build (program_chains prog))) v) as Hd. destruct (made_num_insns prog) as [Hz _].
  specialize (Hd (made_bytes_ok prog Ht Hlen)). unfold slice_len_ok, i64_max in Hd. rewrite Hz in Hd. unfold INSN_SIZE in Hd. specialize (Hd ltac:(lia)).
  unfold decides in Hd. by destruct (verify _ v) as [[]| |].
Qed.

(** * Properties *)

(** C35: Generated programs pass the verifier.  With the feature only-verified, from every list of fuzzed
    instructions with operands of their types and at most 2^15 slots, [make_program] builds a
    program, and for every version but V2 the verifier accepts it exactly if the list has no
    absolute and no indirect load; by acceptance, every jump of such a program, wherever it was
    meant to go, leads to the start of an instruction and never into a wide load. *)
Theorem generated_programs_verify `{Bo : LittleEndian} {E} (v : SBPFVersion) (prog : list (FuzzedInstruction true)) :
  v <> V2 -> Forall insn_typed prog -> slots prog <= 2 ^ 15 ->
  exists code, make_program (E := E) prog = Ret code /\
    (verify (code_into_bytes code) v = Ret tt <-> Forall (fun inst => legacy_load inst = false) prog).
Proof.
  intros Hv Ht Hlen. eexists. split; [by apply made_program_chains|]. by apply made_verify.
Qed.

Definition fuzzed_example : list (FuzzedInstruction true) :=
  [Load (only_verified := true) (mkRegister 21) 1 2; JumpC (mkRegister 200) CondAbs (Reg (mkRegister 255)) (-1); LeftShift X32 (mkRegister 3) (Imm (-1));
   StoreX (mkRegister 10) HalfWord (-8) (mkRegister 1); Jump 1; Div X64 (mkRegister 7) (NonZeroImm (-5))].

Lemma generated_programs_verify_witness : exists code, make_program (E := unit) fuzzed_example = Ret code /\
  verify (Bo := le_reference) (code_into_bytes code) V3 = Ret tt /\ zlen (code_into_bytes code) = 64.
Proof.
  destruct (generated_programs_verify (Bo := le_reference) (E := unit) V3 fuzzed_example) as (code & Hc & Hd).
  - done.
  - repeat (apply Forall_cons; split; [vm_compute; intuition congruence|]). apply Forall_nil_2.
  - vm_compute. congruence.
  - exists code. split; [exact Hc|]. split; [|vm_compute in Hc; injection Hc as <-; reflexivity].
    apply Hd. apply (bool_decide_unpack _). vm_compute. reflexivity.
Defined.

(** A program with an absolute load is rejected in every version, also with the feature. *)
Example legacy_load_rejected : exists code, make_program (E := unit) [LoadAbs (only_verified := true) Byte 0] = Ret code /\
  forall v, verify (Bo := le_reference) (code_into_bytes code) v = Err (UnknownOpCode 0x30 0).
Proof. eexists. split; [reflexivity|]. intros []; reflexivity. Qed.

(** In version 2 the opcodes have other meanings: a wide load is rejected. *)
Example wide_load_rejected : exists code, make_program (E := unit) [Load (only_verified := true) (mkRegister 0) 0 0] = Ret code /\
  verify (Bo := le_reference) (code_into_bytes code) V2 = Err (UnknownOpCode 0x18 0).
Proof. eexists. split; reflexivity. Qed.
