(* ===== verification/FuzzTargets.v ===== *)
(** The fuzz targets that run programs in the interpreter (fuzz/fuzz_targets: common.rs, dumb.rs, smart.rs)
    and the one that expects generated programs to be accepted (verify_semantic_aware.rs).  A fuzz
    target that returns has found nothing; a panic is a finding. *)
From S2P Require Import Prelude Text Error Ebpf Program MemoryRegion MemoryMapping MappingSearch MappingAccess.
From S2P Require Import AlignedMemory ElfParser Executable ElfLoader LoaderSafety.
From S2P Require Import Verifier Vm Interpreter InterpreterSafety Execution LoadedExecution TestSyscalls TestUtils.
From S2P Require Import InsnBuilder GrammarAware SemanticAware.
Open Scope rust_scope.

(** * Configurations *)

(* fuzz/fuzz_targets/common.rs:7-17, ConfigTemplate *)
Record ConfigTemplate := mkTemplate {
  ct_max_call_depth : Z;
  ct_instruction_meter_checkpoint_distance : Z;
  ct_noop_instruction_rate : Z;
  ct_enable_stack_frame_gaps : bool;
  ct_enable_symbol_and_section_labels : bool;
  ct_sanitize_user_provided_values : bool;
  ct_optimize_rodata : bool;
  ct_sbpf_version : SBPFVersion;
}.

(** The crate arbitrary: integers drawn from the bytes that the fuzzer provides. *)
Class Unstructured (U : Type) := {
  ArbitraryError : Type;
  arbitrary_u8 : U -> Exec ArbitraryError (Z * U);
  arbitrary_u16 : U -> Exec ArbitraryError (Z * U);
  arbitrary_u8_range u : safe (arbitrary_u8 u) (fun r => in_u 8 r.1);
  arbitrary_u16_range u : safe (arbitrary_u16 u) (fun r => in_u 16 r.1)
}.

(* fuzz/fuzz_targets/common.rs:20-42, ConfigTemplate::arbitrary *)
Definition template_arbitrary `{Unstructured U} (u : U) : Exec ArbitraryError (ConfigTemplate * U) :=
  let! (bools, u) := arbitrary_u16 u in
  let! (version, u) := arbitrary_u8 u in
  let sbpf_version := match version with
    | 0 => V0 | 1 => V1 | 2 => V2 | 3 => V3 | 4 => V4 | 5 => Reserved | _ => V3
    end in
  let! (depth, u) := arbitrary_u8 u in
  let! max_call_depth := u64_add depth 1 in
  let! (distance, u) := arbitrary_u16 u in
  let! (rate, u) := arbitrary_u16 u in
  Ret ({| ct_max_call_depth := max_call_depth;
          ct_instruction_meter_checkpoint_distance := distance;
          ct_noop_instruction_rate := rate;
          ct_enable_stack_frame_gaps := negb (Z.land bools (Z.shiftl 1 0) =? 0);
          ct_enable_symbol_and_section_labels := negb (Z.land bools (Z.shiftl 1 1) =? 0);
          ct_sanitize_user_provided_values := negb (Z.land bools (Z.shiftl 1 3) =? 0);
          ct_optimize_rodata := negb (Z.land bools (Z.shiftl 1 9) =? 0);
          ct_sbpf_version := sbpf_version |}, u).

(* fuzz/fuzz_targets/common.rs:44-49, ConfigTemplate::size_hint *)
Definition template_size_hint (depth : Z) : Z * option Z := (1 + 2 + 8 + 2, None).

(* fuzz/fuzz_targets/common.rs:52-76, From<ConfigTemplate> for Config *)
Definition template_config (template : ConfigTemplate) : Config := {|
  max_call_depth := template.(ct_max_call_depth);
  stack_frame_size := default_config.(stack_frame_size);
  enable_address_translation := default_config.(enable_address_translation);
  enable_stack_frame_gaps := template.(ct_enable_stack_frame_gaps);
  instruction_meter_checkpoint_distance := template.(ct_instruction_meter_checkpoint_distance);
  enable_instruction_meter := default_config.(enable_instruction_meter);
  enable_register_tracing := default_config.(enable_register_tracing);
  enable_symbol_and_section_labels := template.(ct_enable_symbol_and_section_labels);
  reject_broken_elfs := default_config.(reject_broken_elfs);
  noop_instruction_rate := template.(ct_noop_instruction_rate);
  sanitize_user_provided_values := template.(ct_sanitize_user_provided_values);
  optimize_rodata := template.(ct_optimize_rodata);
  allow_memory_region_zero := default_config.(allow_memory_region_zero);
  aligned_memory_mapping := default_config.(aligned_memory_mapping);
  enabled_sbpf_versions := default_config.(enabled_sbpf_versions);
|}.

(** * Targets *)

Section Targets.
Context `{Bo : LittleEndian} `{Hash : Murmur3} `{Al : Allocator} (rust_of : BuiltinFunction -> RustFunction TestContextObject).
Context (pl : Placement) (mem_ptr : Z).

(** The targets dumb and smart run a program in the same way, with different meters. *)
Definition run_fuzzed (template : ConfigTemplate) (prog mem : list Z) (meter : Z) (range : in_u 64 meter)
    : Exec (Interpreter TestContextObject) unit :=
  let sbpf_version := template.(ct_sbpf_version) in
  let config := template_config template in
  match verify prog sbpf_version with
  | Panic f => Panic f
  | Err _ => Ret tt
  | Ret _ =>
      let! executable := unwrap (from_text_bytes prog (new_loader config) sbpf_version default_registry) in
      let! mem_region := new_writable mem_ptr (zlen mem) MM_INPUT_START in
      let hm := place_slice pl.(elf_ptr) prog (place_slice mem_ptr mem ∅) in
      let! interp_vm := create_vm pl executable (test_context_new meter range) [mem_region] None hm in
      let! _ := execute_program rust_of (Z.to_nat meter + 1) executable interp_vm in
      Ret tt
  end.

Lemma dumb_meter : in_u 64 29.
Proof. done. Qed.
(* fuzz/fuzz_targets/dumb.rs:27-68, fuzz_target *)
Definition fuzz_dumb (template : ConfigTemplate) (prog mem : list Z) : Exec (Interpreter TestContextObject) unit :=
  run_fuzzed template prog mem 29 dumb_meter.

Lemma smart_meter : in_u 64 (Z.shiftl 1 16).
Proof. done. Qed.
(* fuzz/fuzz_targets/smart.rs:31-71, fuzz_target *)
Definition fuzz_smart (template : ConfigTemplate) (prog : list GrammarAware.FuzzedInstruction) (mem : list Z) (arch : Arch)
    : Exec (Interpreter TestContextObject) unit :=
  run_fuzzed template (code_into_bytes (GrammarAware.make_program prog arch)) mem (Z.shiftl 1 16) smart_meter.

(* fuzz/fuzz_targets/verify_semantic_aware.rs:24-39, fuzz_target *)
Definition fuzz_verify {E} (only_verified : bool) (template : ConfigTemplate) (prog : list (SemanticAware.FuzzedInstruction only_verified)) : Exec E unit :=
  let! code := SemanticAware.make_program prog in
  unwrap (verify (code_into_bytes code) template.(ct_sbpf_version)).
End Targets.

(** * Lemmas *)

(** The ranges of a template. *)
Definition template_ok (t : ConfigTemplate) : Prop :=
  1 <= t.(ct_max_call_depth) <= 256 /\ 0 <= t.(ct_instruction_meter_checkpoint_distance) < 2 ^ 16 /\ 0 <= t.(ct_noop_instruction_rate) < 2 ^ 16.

Lemma template_arbitrary_ok `{Unstructured U} (u : U) : safe (template_arbitrary u) (fun r => template_ok r.1).
Proof.
  unfold template_arbitrary. pose proof arbitrary_u8_range as H8. pose proof arbitrary_u16_range as H16.
  specialize (H16 u) as Hb. destruct (arbitrary_u16 u) as [[bools u1]| |]; cbn [exec_bind safe] in *; [|done..].
  specialize (H8 u1) as Hv. destruct (arbitrary_u8 u1) as [[version u2]| |]; cbn [exec_bind safe] in *; [|done..].
  specialize (H8 u2) as Hd. destruct (arbitrary_u8 u2) as [[depth u3]| |]; cbn [exec_bind safe] in *; [|done..].
  unfold in_u in Hd. cbn in Hd. unfold u64_add. rewrite (proj2 (Z.leb_le _ _)) by (unfold u64_max; lia). cbn [exec_bind].
  specialize (H16 u3) as Hm. destruct (arbitrary_u16 u3) as [[distance u4]| |]; cbn [exec_bind safe] in *; [|done..].
  specialize (H16 u4) as Hr. destruct (arbitrary_u16 u4) as [[rate u5]| |]; cbn [exec_bind safe] in *; [|done..].
  unfold template_ok, in_u in *. cbn in *. lia.
Qed.

Lemma template_config_ok (t : ConfigTemplate) : template_ok t -> config_ok (template_config t).
Proof. intros (Hd & Hm & Hr). split; cbn; try done; lia. Qed.

(** An executable made from text. *)
Lemma text_executable `{Hash : Murmur3} (text : list Z) (config : Config) (v : SBPFVersion) : text <> [] -> bytes_ok text ->
  exists e, from_text_bytes text (new_loader config) v default_registry = Ret e /\ loaded_ok text (new_loader config) e /\
    e.(Executable.sbpf_version) = v /\ e.(Executable.elf_bytes) = text /\
    e.(ro_section) = Borrowed (if enable_lower_rodata_vaddr v then MM_RODATA_START else MM_BYTECODE_START) (0, zlen text) /\
    (forall E, get_text_bytes (E := E) e = Ret (MM_BYTECODE_START, text)).
Proof.
  intros Hne Hb. assert (Hpos : 0 < zlen text) by (destruct text; [done|rewrite zlen_cons; pose proof (zlen_nonneg text); lia]).
  unfold from_text_bytes, new_from_text_bytes. change (lookup_by_name default_registry entrypoint_name) with (@None (list Z * Z)).
  unfold register_function_hashed_legacy. cbn [get_config new_loader Program.config expect exec_bind].
  replace (if negb (static_syscalls v) then _ else _) with (Ret (E := ElfError) (if negb (static_syscalls v) then hash_symbol_name entrypoint_name else as_u32 0))
    by (by destruct (negb _)).
  cbn [exec_bind]. set (key := if negb _ then _ else _). unfold register_function. change (default_registry !! key) with (@None (list Z * Z)).
  cbn [exec_bind exec_map_err]. eexists. split; [done|]. split; [|by repeat split; intros; unfold get_text_bytes; cbn; rewrite slice_range_all].
  assert (Hin : range_in text (0, zlen text)) by (split; cbn; lia). split; cbn; try done; try lia.
  intros k name pc Hk. unfold lookup_by_key in Hk. destruct (decide (key = k)) as [->|].
  - rewrite lookup_insert_eq in Hk. by injection Hk as _ <-.
  - by rewrite lookup_insert_ne in Hk.
Qed.

Section Runs.
Context `{Al : Allocator} `{Hfits : !AllocatorFits} `{Bo : LittleEndian} `{Hash : Murmur3}.
Context (rust_of : BuiltinFunction -> RustFunction TestContextObject) (Hrust : forall f, RustOk (rust_of f)).

(** Where the host puts the program, an empty slice and the input. *)
Record placement_ok (pl : Placement) (prog : list Z) (mem_ptr : Z) (mem : list Z) : Prop := {
  po_prog : 0 <= pl.(elf_ptr) /\ pl.(elf_ptr) + zlen prog < 2 ^ 64;
  po_empty : in_u 64 pl.(empty_ptr);
  po_mem : 0 <= mem_ptr /\ mem_ptr + zlen mem < 2 ^ 64;
}.

Lemma fuzz_setup (t : ConfigTemplate) (pl : Placement) (e : Executable) (prog mem : list Z) (mem_ptr : Z) : template_ok t ->
  e.(Executable.elf_bytes) = prog -> zlen prog <= 2 ^ 32 -> bytes_ok prog -> bytes_ok mem -> placement_ok pl prog mem_ptr mem ->
  e.(ro_section) = Borrowed (if enable_lower_rodata_vaddr t.(ct_sbpf_version) then MM_RODATA_START else MM_BYTECODE_START) (0, zlen prog) ->
  test_setup (template_config t) pl e (place_slice pl.(elf_ptr) prog (place_slice mem_ptr mem ∅)) mem_ptr (zlen mem).
Proof.
  intros (Hd & _) He Hl Hb Hm [[Hp0 Hp1] Hempty [Hm0 Hm1]] Hro.
  destruct (place_slice_ok mem_ptr mem ∅ Hm ltac:(apply map_Forall_empty)) as (Hok1 & Hmap1 & _).
  destruct (place_slice_ok pl.(elf_ptr) prog _ Hb Hok1) as (Hok2 & Hmap2 & Hdom). pose proof (zlen_nonneg prog). pose proof (zlen_nonneg mem).
  split; rewrite ?Hro, ?He; try done.
  - intros _. exists 12. done.
  - change (stack_frame_size (template_config t)) with 4096. cbn [template_config max_call_depth]. lia.
  - cbn [ro_extent fst snd]. change MM_RODATA_START with 0. change MM_BYTECODE_START with (2 ^ 32). change MM_STACK_START with (2 * 2 ^ 32).
    destruct (enable_lower_rodata_vaddr _); (split; [lia|split; [lia|done]]).
  - split_and!; try done. by apply (host_mapped_subset _ _ _ _ Hdom).
Qed.

Lemma run_fuzzed_returns (t : ConfigTemplate) (pl : Placement) (prog mem : list Z) (mem_ptr meter : Z) (range : in_u 64 meter) : template_ok t ->
  zlen prog <= 2 ^ 32 -> bytes_ok prog -> bytes_ok mem -> placement_ok pl prog mem_ptr mem ->
  run_fuzzed rust_of pl mem_ptr t prog mem meter range = Ret tt.
Proof.
  intros Ht Hl Hb Hm Hpl. unfold run_fuzzed. assert (Hlen : slice_len_ok prog) by (unfold slice_len_ok, i64_max; lia).
  pose proof (verify_decides prog t.(ct_sbpf_version) Hb Hlen) as Hd. unfold decides in Hd.
  destruct (verify prog t.(ct_sbpf_version)) as [[]| |] eqn:Hver; [|done|done]. destruct Hd as (_ & Hne & _).
  destruct (text_executable prog (template_config t) t.(ct_sbpf_version) Hne Hb) as (e & -> & Hld & Hv & Heb & Hro & Htext). cbn [unwrap exec_bind].
  unfold new_writable. rewrite region_new_plain. cbn [exec_bind]. pose proof (template_config_ok t Ht) as Hok.
  assert (Hev : executable_verify e = Ret tt).
  { unfold executable_verify, executable_config. rewrite Htext, (lo_loader _ _ _ Hld), Hv. cbn [exec_bind get_config new_loader Program.config expect]. by rewrite Hver. }
  destruct (loaded_verified prog (new_loader (template_config t)) (template_config t) e eq_refl Hok Hlen Hld Hev) as (text & Htext' & Hvf & Hentry).
  pose proof (fuzz_setup t pl e prog mem mem_ptr Ht Heb Hl Hb Hm Hpl Hro) as Hsetup.
  destruct (create_vm_ready (E := Interpreter TestContextObject) prog (new_loader (template_config t)) (template_config t) pl e _ mem_ptr (zlen mem) Hld eq_refl Hok eq_refl Hsetup
    (test_context_new meter range) None I) as (vm & -> & Hready & Hctx & _). cbn [exec_bind].
  destruct (execute_program_spec rust_of e text e.(text_section_vaddr) (template_config t) Hvf (Z.to_nat meter + 1) vm)
    as (count & result & vm' & -> & _); try done.
  rewrite Hctx. cbn. destruct range. lia.
Qed.
End Runs.

(** * Properties *)

(** Fields of their Rust types. *)
Definition fields_typed (i : GrammarAware.FuzzedInstruction) : Prop :=
  in_u 8 i.(fi_dst) /\ in_u 8 i.(fi_src) /\ in_s 16 i.(fi_off) /\ in_s 64 i.(fi_imm).

(** C34: When the fuzz targets return.  For every configuration that a template can ask for and every input, placed
    in the memory of the host with the program, and under syscalls that meet their contract, the target dumb
    returns on every program of at most 2^32 raw bytes and the target smart on every list of fuzzed operations that
    makes at most as many: neither the verifier, nor the creation of the executable and of the machine, nor the run
    panics.  The target that unwraps the verification of generated programs, built with the feature only-verified, returns in
    versions other than V2 and on lists of at most 2^15 slots exactly if the list has no absolute and no
    indirect load; nothing is claimed of it without the feature, in V2, or on longer lists, where the generator's
    arithmetic can overflow. *)
Theorem fuzz_targets_return `{Al : Allocator} `{Hfits : !AllocatorFits} `{Bo : LittleEndian} `{Hash : Murmur3}
    (rust_of : BuiltinFunction -> RustFunction TestContextObject) (Hrust : forall f, RustOk (rust_of f))
    (t : ConfigTemplate) (pl : Placement) (mem_ptr : Z) (mem : list Z) :
  template_ok t -> bytes_ok mem ->
  (forall prog, bytes_ok prog -> zlen prog <= 2 ^ 32 -> placement_ok pl prog mem_ptr mem ->
     fuzz_dumb rust_of pl mem_ptr t prog mem = Ret tt) /\
  (forall prog arch, Forall fields_typed prog -> INSN_SIZE * zlen prog <= 2 ^ 32 ->
     placement_ok pl (code_into_bytes (GrammarAware.make_program prog arch)) mem_ptr mem ->
     fuzz_smart rust_of pl mem_ptr t prog mem arch = Ret tt) /\
  (forall prog, t.(ct_sbpf_version) <> V2 -> Forall insn_typed prog -> slots prog <= 2 ^ 15 ->
     fuzz_verify (E := EbpfError) true t prog = Ret tt <-> Forall (fun inst => legacy_load inst = false) prog).
Proof.
  intros Ht Hm. split_and!.
  - intros prog Hb Hl Hpl. by apply run_fuzzed_returns.
  - intros prog arch Hf Hl Hpl. unfold fuzz_smart. rewrite make_program_build in *. apply run_fuzzed_returns; try done.
    + rewrite zlen_build. by rewrite zlen_fmap.
    + apply build_bytes_ok, Forall_fmap. apply (Forall_impl _ _ _ Hf). by intros i [? _].
  - intros prog Hv Hp Hs. unfold fuzz_verify. rewrite made_program_chains by done. cbn [exec_bind].
    rewrite <-(made_verify t.(ct_sbpf_version) prog Hv Hp Hs). destruct (verify _ _) as [[]| |]; by cbn.
Qed.

(** * Examples *)

(** A source of bytes that returns zero when it is empty. *)
Definition draw (n : nat) (u : list Z) : Exec unit (Z * list Z) := Ret (le_value (as_u8 <$> take n u), drop n u).
Lemma draw_range (n : nat) (u : list Z) : safe (draw n u) (fun r => in_u (8 * Z.of_nat n) r.1).
Proof.
  cbn. assert (Hb : bytes_ok (as_u8 <$> take n u)) by (apply Forall_fmap, Forall_true; intros; by apply uwrap_range).
  destruct (le_value_range _ Hb) as [H0 H1]. split; [done|]. eapply Z.lt_le_trans; [exact H1|]. apply Z.pow_le_mono_r; [done|].
  unfold zlen. rewrite length_fmap, length_take. lia.
Qed.
#[local] Instance byte_source : Unstructured (list Z) := {|
  ArbitraryError := unit;
  arbitrary_u8 := draw 1;
  arbitrary_u16 := draw 2;
  arbitrary_u8_range := draw_range 1;
  arbitrary_u16_range := draw_range 2;
|}.
#[local] Existing Instances le_reference le_write_reference sum_hash plain_text plain_host fixed_allocator fixed_allocator_fits.

Definition drawn_template : ConfigTemplate := mkTemplate 3 0x504 0x706 true true false true V4.
Example template_drawn : template_arbitrary [3; 2; 4; 2; 4; 5; 6; 7] = Ret (drawn_template, []).
Proof. reflexivity. Qed.

(** A program that divides by the input, and runs. *)
Definition smart_example : list GrammarAware.FuzzedInstruction :=
  [mkFuzzed (GrammarAware.LoadX Byte) 2 1 0 0; mkFuzzed (GrammarAware.Div SourceReg) 1 2 0 0; mkFuzzed GrammarAware.Exit 0 0 0 0].

Lemma fuzz_targets_return_witness :
  fuzz_dumb (fun _ => SyscallMemFrob) test_placement 0x5000 drawn_template [0x95; 0; 0; 0; 0; 0; 0; 0] [7] = Ret tt /\
  fuzz_smart (fun _ => SyscallMemFrob) test_placement 0x5000 drawn_template smart_example [7] X64 = Ret tt /\
  (exists code, SemanticAware.make_program (E := EbpfError) fuzzed_example = Ret code /\ fuzz_verify (E := EbpfError) true drawn_template fuzzed_example = Ret tt).
Proof.
  destruct (fuzz_targets_return (fun _ => SyscallMemFrob) (fun _ => SyscallMemFrob_ok) drawn_template test_placement 0x5000 [7]) as (H1 & H2 & H3).
  - vm_compute. intuition congruence.
  - apply (bool_decide_unpack _). vm_compute. reflexivity.
  - split; [|split].
    + apply H1; [apply (bool_decide_unpack _); vm_compute; reflexivity|vm_compute; congruence|]. split; vm_compute; intuition congruence.
    + apply H2; [repeat (apply Forall_cons; split; [vm_compute; intuition congruence|]); apply Forall_nil_2|vm_compute; congruence|].
      split; vm_compute; intuition congruence.
    + eexists. split; [vm_compute; reflexivity|]. apply H3; [done| |vm_compute; congruence|].
      * repeat (apply Forall_cons; split; [vm_compute; intuition congruence|]). apply Forall_nil_2.
      * apply (bool_decide_unpack _). vm_compute. reflexivity.
Defined.
