(* ===== verification/StaticAnalysis.v ===== *)
(** The static analysis of an executable (src/static_analysis.rs): the list of its
    instructions, its basic blocks and their edges, the labels, and the text of the
    whole program. *)
From Stdlib Require Import String.
From stdpp Require Import sorting.
From S2P Require Import Prelude Text Error Ebpf Program Executable Cfg Disassembler.
Open Scope rust_scope.
Open Scope list_scope.

(** [rustc_demangle::demangle], a crate. *)
Class Demangle := { demangle : list Z -> list Z }.

(* src/static_analysis.rs:137-157, Analysis *)
Record Analysis := mkAnalysis {
  an_executable : Executable;
  an_instructions : list Insn;
  an_functions : gmap Z (Z * list Z);
  an_cfg_nodes : CfgNodes;
  an_topological_order : list Z;
  an_entrypoint : Z;
  an_super_root : Z;
  an_dfg_forward_edges : gmap DfgNode (gset DfgEdge);
  an_dfg_reverse_edges : gmap DfgNode (gset DfgEdge);
}.

Definition set_cfg_nodes (nodes : CfgNodes) (self : Analysis) : Analysis :=
  mkAnalysis self.(an_executable) self.(an_instructions) self.(an_functions) nodes self.(an_topological_order)
    self.(an_entrypoint) self.(an_super_root) self.(an_dfg_forward_edges) self.(an_dfg_reverse_edges).
Definition set_functions (functions : gmap Z (Z * list Z)) (self : Analysis) : Analysis :=
  mkAnalysis self.(an_executable) self.(an_instructions) functions self.(an_cfg_nodes) self.(an_topological_order)
    self.(an_entrypoint) self.(an_super_root) self.(an_dfg_forward_edges) self.(an_dfg_reverse_edges).
Definition set_topological_order (order : list Z) (self : Analysis) : Analysis :=
  mkAnalysis self.(an_executable) self.(an_instructions) self.(an_functions) self.(an_cfg_nodes) order
    self.(an_entrypoint) self.(an_super_root) self.(an_dfg_forward_edges) self.(an_dfg_reverse_edges).
Definition set_dfg_edges (forward reverse : gmap DfgNode (gset DfgEdge)) (self : Analysis) : Analysis :=
  mkAnalysis self.(an_executable) self.(an_instructions) self.(an_functions) self.(an_cfg_nodes)
    self.(an_topological_order) self.(an_entrypoint) self.(an_super_root) forward reverse.

Definition set_sources (l : list Z) (n : CfgNode) : CfgNode :=
  mkCfgNode n.(cn_label) l n.(cn_destinations) n.(cn_instructions) n.(cn_topo_index) n.(cn_dominator_parent)
    n.(cn_dominated_children).
Definition set_destinations (l : list Z) (n : CfgNode) : CfgNode :=
  mkCfgNode n.(cn_label) n.(cn_sources) l n.(cn_instructions) n.(cn_topo_index) n.(cn_dominator_parent)
    n.(cn_dominated_children).
Definition set_instructions (r : InsnRange) (n : CfgNode) : CfgNode :=
  mkCfgNode n.(cn_label) n.(cn_sources) n.(cn_destinations) r n.(cn_topo_index) n.(cn_dominator_parent)
    n.(cn_dominated_children).
Definition set_label (l : list Z) (n : CfgNode) : CfgNode :=
  mkCfgNode l n.(cn_sources) n.(cn_destinations) n.(cn_instructions) n.(cn_topo_index) n.(cn_dominator_parent)
    n.(cn_dominated_children).

(** [map.get(&key).unwrap()] and [map[&key]] *)
Definition get_node {A} (m : gmap Z A) (key : Z) : Exec EbpfError A := expect UnwrapNone (m !! key).
(** [f(map.get_mut(&key).unwrap())] *)
Definition update_node {A} (m : gmap Z A) (key : Z) (f : A -> A) : Exec EbpfError (gmap Z A) :=
  let! a := get_node m key in Ret (<[key := f a]> m).
(** [map.entry(key).or_default()] *)
Definition or_default (key : Z) (m : CfgNodes) : CfgNodes :=
  match m !! key with Some _ => m | None => <[key := default_cfg_node]> m end.

(** * The instructions *)

Section Decode.
Context `{Bo : LittleEndian}.

(** The instructions, and the program counter behind them. *)
(* src/static_analysis.rs:178-191, Analysis::from_executable *)
Fixpoint collect_instructions (fuel : nat) (program : list Z) (insn_ptr : Z) (instructions : list Insn) :
    Exec EbpfError (list Insn * Z) :=
  let! base := u64_mul insn_ptr INSN_SIZE in
  if base <? zlen program then
    match fuel with
    | O => Panic OutOfFuel
    | S fuel =>
        let! insn := get_insn_unchecked program insn_ptr in
        if insn.(opc) =? LD_DW_IMM then
          let! insn_ptr := u64_add insn_ptr 1 in
          let! base := u64_mul insn_ptr INSN_SIZE in
          if zlen program <=? base then Ret (instructions, insn_ptr)
          else
            let! insn := augment_lddw_unchecked program insn in
            let! insn_ptr := u64_add insn_ptr 1 in
            collect_instructions fuel program insn_ptr (instructions ++ [insn])
        else
          let! insn_ptr := u64_add insn_ptr 1 in
          collect_instructions fuel program insn_ptr (instructions ++ [insn])
    end
  else Ret (instructions, insn_ptr).
End Decode.

(** * Basic blocks *)

Section Each.
Context {E S A : Type}.
(** [for a in l { .. }] on a state *)
Fixpoint each_state (l : list A) (f : A -> S -> Exec E S) (st : S) : Exec E S :=
  match l with
  | [] => Ret st
  | a :: l => let! st := f a st in each_state l f st
  end.
End Each.

(* src/static_analysis.rs:215-232, Analysis::link_cfg_edges *)
Definition link_cfg_edges (cfg_edges : list (Z * list Z)) (both_directions : bool) (nodes : CfgNodes) :
    Exec EbpfError CfgNodes :=
  each_state cfg_edges (fun '(source, destinations) nodes =>
    let! nodes := if both_directions then update_node nodes source (set_destinations destinations) else Ret nodes in
    each_state destinations (fun destination nodes =>
      update_node nodes destination (fun n => set_sources (n.(cn_sources) ++ [source]) n)) nodes) nodes.

(** Jumps of either width, by their opcodes. *)
(* src/static_analysis.rs:280-302, Analysis::split_into_basic_blocks *)
Definition jmp32_opcodes : list Z :=
  [JEQ32_IMM; JGT32_IMM; JGE32_IMM; JLT32_IMM; JLE32_IMM; JSET32_IMM; JNE32_IMM; JSGT32_IMM; JSGE32_IMM; JSLT32_IMM;
   JSLE32_IMM; JEQ32_REG; JGT32_REG; JGE32_REG; JLT32_REG; JLE32_REG; JSET32_REG; JNE32_REG; JSGT32_REG; JSGE32_REG;
   JSLT32_REG; JSLE32_REG].
(* src/static_analysis.rs:308-328, Analysis::split_into_basic_blocks *)
Definition jmp64_opcodes : list Z :=
  [JEQ64_IMM; JGT64_IMM; JGE64_IMM; JLT64_IMM; JLE64_IMM; JSET64_IMM; JNE64_IMM; JSGT64_IMM; JSGE64_IMM; JSLT64_IMM;
   JSLE64_IMM; JEQ64_REG; JGT64_REG; JGE64_REG; JLT64_REG; JLE64_REG; JSET64_REG; JNE64_REG; JSGT64_REG; JSGE64_REG;
   JSLT64_REG; JSLE64_REG].

(** The nodes and the edges found so far; an edge is the opcode and the destinations. *)
Record Split := mkSplit { sp_nodes : CfgNodes; sp_edges : gmap Z (Z * list Z) }.

Section Blocks.
Context (flatten_call_graph : bool) (sbpf_version : SBPFVersion) (registry : FunctionRegistry Z) (super_root : Z).

Definition add_edge (insn : Insn) (starts destinations : list Z) (st : Split) : Split :=
  mkSplit (fold_left (fun nodes pc => or_default pc nodes) starts st.(sp_nodes))
    (<[insn.(ptr) := (insn.(opc), destinations)]> st.(sp_edges)).

(* src/static_analysis.rs:243-336, Analysis::split_into_basic_blocks *)
Definition scan_insn (pc : Z) (insn : Insn) (st : Split) : Exec EbpfError Split :=
  let! target := i64_add (as_i64 insn.(ptr)) insn.(off) in
  let! target := i64_add target 1 in
  let target_pc := as_u64 target in
  let o := insn.(opc) in
  if o =? CALL_IMM then
    match lookup_by_key registry (calculate_call_imm_target_pc sbpf_version pc insn.(imm)) with
    | Some (_, target_pc) =>
        let! next := u64_add insn.(ptr) 1 in
        Ret (add_edge insn [next; target_pc] (if flatten_call_graph then [next; target_pc] else [next]) st)
    | None => Ret st
    end
  else if o =? CALL_REG then
    let! next := u64_add insn.(ptr) 1 in
    Ret (add_edge insn [next] (if flatten_call_graph then [next; super_root] else [next]) st)
  else if o =? EXIT then
    let! next := u64_add insn.(ptr) 1 in
    Ret (add_edge insn [next] [] st)
  else if o =? JA then
    let! next := u64_add insn.(ptr) 1 in
    Ret (add_edge insn [next; target_pc] [target_pc] st)
  else if bool_decide (o ∈ jmp32_opcodes) && enable_jmp32 sbpf_version then
    let! next := u64_add insn.(ptr) 1 in
    Ret (add_edge insn [next; target_pc] [next; target_pc] st)
  else if bool_decide (o ∈ jmp64_opcodes) then
    let! next := u64_add insn.(ptr) 1 in
    Ret (add_edge insn [next; target_pc] [next; target_pc] st)
  else Ret st.

(* src/static_analysis.rs:238-336, Analysis::split_into_basic_blocks *)
Definition scan_instructions (instructions : list Insn) (functions : gmap Z (Z * list Z)) (nodes : CfgNodes) :
    Exec EbpfError Split :=
  let nodes := <[0 := default_cfg_node]> nodes in
  let nodes := fold_left (fun nodes pc => or_default pc nodes) (sorted_keys functions) nodes in
  each_state (imap (fun i insn => (Z.of_nat i, insn)) instructions) (fun '(pc, insn) => scan_insn pc insn)
    (mkSplit nodes ∅).
End Blocks.

(** Nodes are kept where an instruction starts, by a binary search in the ascending list of
    instructions; edges and functions, where a node is kept. *)
(* src/static_analysis.rs:342-350, Analysis::split_into_basic_blocks *)
Definition starts_insn (instructions : list Insn) (pc : Z) : bool := bool_decide (pc ∈ ptr <$> instructions).
(* src/static_analysis.rs:338-352, Analysis::split_into_basic_blocks *)
Definition retain_nodes (instructions : list Insn) (nodes : CfgNodes) : CfgNodes :=
  filter (fun '(pc, _) => starts_insn instructions pc = true) nodes.
(* src/static_analysis.rs:353-357, Analysis::split_into_basic_blocks *)
Definition retain_edges (nodes : CfgNodes) (edges : gmap Z (Z * list Z)) : gmap Z (Z * list Z) :=
  (fun e => (e.1, filter (fun d => is_Some (nodes !! d)) e.2)) <$> edges.
(* src/static_analysis.rs:358-364, Analysis::split_into_basic_blocks *)
Definition retain_functions (nodes : CfgNodes) (functions : gmap Z (Z * list Z)) : gmap Z (Z * list Z) :=
  filter (fun '(pc, _) => is_Some (nodes !! pc)) functions.

(** The instructions of a block, up to a program counter. *)
(* src/static_analysis.rs:377-384, Analysis::split_into_basic_blocks *)
Fixpoint block_length (rest : list Insn) (cfg_node_end : Z) : Z :=
  match rest with
  | insn :: rest => if insn.(ptr) <=? cfg_node_end then 1 + block_length rest cfg_node_end else 0
  | [] => 0
  end.

(** Each node in turn takes its instructions, and its edge or the edge to the next node. *)
(* src/static_analysis.rs:366-398, Analysis::split_into_basic_blocks *)
Fixpoint assign_blocks (instructions : list Insn) (functions : gmap Z (Z * list Z)) (starts : list Z)
    (edges : list (Z * (Z * list Z))) (instruction_index : Z) (nodes : CfgNodes) : Exec EbpfError CfgNodes :=
  match starts with
  | [] => Ret nodes
  | cfg_node_start :: starts =>
      let! cfg_node_end :=
        match starts with
        | next :: _ => u64_sub next 1
        | [] => let! insn := expect UnwrapNone (last instructions) in Ret insn.(ptr)
        end in
      let! node := get_node nodes cfg_node_start in
      let n := block_length (drop (Z.to_nat instruction_index) instructions) cfg_node_end in
      let range := mkInsnRange instruction_index
                     (if n =? 0 then node.(cn_instructions).(ir_end) else instruction_index + n) in
      let node := set_instructions range node in
      let (destinations, edges) :=
        match edges with
        | (at_pc, (_, destinations)) :: edges' =>
            if at_pc <=? cfg_node_end then (Some destinations, edges') else (None, edges)
        | [] => (None, edges)
        end in
      let node :=
        match destinations with
        | Some destinations => set_destinations destinations node
        | None =>
            match starts with
            | next :: _ =>
                match functions !! cfg_node_start with
                | None => set_destinations (node.(cn_destinations) ++ [next]) node
                | Some _ => node
                end
            | [] => node
            end
        end in
      assign_blocks instructions functions starts edges (instruction_index + n) (<[cfg_node_start := node]> nodes)
  end.

(** With a flattened call graph, a function returns to where it was called from.  The
    destinations are those of the last function start met. *)
(* src/static_analysis.rs:406-428, Analysis::split_into_basic_blocks *)
Definition return_edges (instructions : list Insn) (functions : gmap Z (Z * list Z)) (nodes : CfgNodes) :
    Exec EbpfError (list Z * list (Z * list Z)) :=
  each_state (entries nodes) (fun '(source, node) '(destinations, cfg_edges) =>
    let! destinations :=
      match functions !! source with
      | Some _ =>
          each_state node.(cn_sources) (fun destination l =>
            let! n := get_node nodes destination in
            let! insn := index_slice instructions n.(cn_instructions).(ir_end) in
            Ret (l ++ [insn.(ptr)])) []
      | None => Ret destinations
      end in
    let! is_exit :=
      match node.(cn_destinations) with
      | [] =>
          let! i := u64_sub node.(cn_instructions).(ir_end) 1 in
          let! insn := index_slice instructions i in
          Ret (insn.(opc) =? EXIT)
      | _ => Ret false
      end in
    Ret (destinations, if is_exit : bool then cfg_edges ++ [(source, destinations)] else cfg_edges))
    ([], []).

(* src/static_analysis.rs:234-429, Analysis::split_into_basic_blocks *)
Definition split_into_basic_blocks (flatten_call_graph : bool) (version : SBPFVersion) (self : Analysis) :
    Exec EbpfError Analysis :=
  let instructions := self.(an_instructions) in
  let! found := scan_instructions flatten_call_graph version self.(an_executable).(function_registry)
                  self.(an_super_root) instructions self.(an_functions) self.(an_cfg_nodes) in
  let nodes := retain_nodes instructions found.(sp_nodes) in
  let edges := retain_edges nodes found.(sp_edges) in
  let functions := retain_functions nodes self.(an_functions) in
  let! nodes := assign_blocks instructions functions (sorted_keys nodes) (entries edges) 0 nodes in
  let! nodes := link_cfg_edges ((fun e => (e.1, e.2.(cn_destinations))) <$> entries nodes) false nodes in
  let! nodes :=
    if flatten_call_graph then
      let! (_, cfg_edges) := return_edges instructions functions nodes in
      link_cfg_edges cfg_edges true nodes
    else Ret nodes in
  Ret (set_functions functions (set_cfg_nodes nodes self)).

(** * Labels and text *)

Section Labels.
Context `{Dem : Demangle}.

(* src/static_analysis.rs:431-443, Analysis::label_basic_blocks *)
Definition label_basic_blocks (self : Analysis) : Analysis :=
  let nodes := map_imap (fun pc node => Some (set_label
      match self.(an_functions) !! pc with
      | Some function => demangle function.2
      | None => str "lbb_" ++ decimal pc
      end node)) self.(an_cfg_nodes) in
  let nodes :=
    match nodes !! self.(an_super_root) with
    | Some node => <[self.(an_super_root) := set_label (str "super_root") node]> nodes
    | None => nodes
    end in
  set_cfg_nodes nodes self.

(** A line of output ends with a line feed; writing to the output does not fail. *)
Definition newline : list Z := [10].

(* src/static_analysis.rs:445-469, Analysis::disassemble_label *)
Definition disassemble_label (self : Analysis) (suppress_extra_newlines : bool) (pc last_basic_block : Z) :
    Exec EbpfError (list Z * Z) :=
  match self.(an_cfg_nodes) !! pc with
  | Some cfg_node =>
      let is_function := bool_decide (is_Some (self.(an_functions) !! pc)) in
      let text :=
        if is_function || negb (bool_decide (cfg_node.(cn_sources) = [last_basic_block])) then
          (if is_function && negb suppress_extra_newlines then newline else [])
          ++ cfg_node.(cn_label) ++ str ":" ++ newline
        else [] in
      let! i := u64_sub cfg_node.(cn_instructions).(ir_end) 1 in
      let! last_insn := index_slice self.(an_instructions) i in
      Ret (text, if last_insn.(opc) =? JA then u64_max else pc)
  | None => Ret ([], last_basic_block)
  end.

(* src/static_analysis.rs:471-481, Analysis::disassemble_instruction *)
Definition analysis_disassemble_instruction (self : Analysis) (insn : Insn) (pc : Z) : Exec EbpfError (list Z) :=
  disassemble_instruction insn pc self.(an_cfg_nodes) self.(an_executable).(function_registry)
    self.(an_executable).(loader) self.(an_executable).(sbpf_version).

(* src/static_analysis.rs:483-496, Analysis::disassemble *)
Definition disassemble (self : Analysis) : Exec EbpfError (list Z) :=
  let! (text, _) :=
    each_state (imap (fun i insn => (Z.of_nat i, insn)) self.(an_instructions)) (fun '(pc, insn) '(text, last_block) =>
      let! (label, last_block) := disassemble_label self
        (bool_decide (Some insn = head self.(an_instructions))) insn.(ptr) last_block in
      let! line := analysis_disassemble_instruction self insn pc in
      Ret (text ++ label ++ str "    " ++ line ++ newline, last_block)) ([], u64_max) in
  Ret text.
End Labels.

(** The functions of a node, as a range of program counters. *)
(* src/static_analysis.rs:530-549, Analysis::iter_cfg_by_function *)
Definition iter_cfg_by_function (self : Analysis) : Exec EbpfError (list (InsnRange * Z * CfgNode)) :=
  match sorted_keys self.(an_functions) with
  | [] => Panic UnwrapNone
  | function_start :: functions =>
      let! (_, result) :=
        each_state (entries self.(an_cfg_nodes)) (fun '(cfg_node_start, cfg_node) '((function_start, functions), result) =>
          let (function_start, functions) :=
            match functions with
            | f :: rest => if f =? cfg_node_start then (f, rest) else (function_start, functions)
            | [] => (function_start, functions)
            end in
          let! function_end :=
            match functions with
            | next :: _ => Ret next
            | [] => let! insn := expect UnwrapNone (last self.(an_instructions)) in u64_add insn.(ptr) 1
            end in
          Ret ((function_start, functions), result ++ [(mkInsnRange function_start function_end, cfg_node_start, cfg_node)]))
          ((function_start, functions), []) in
      Ret result
  end.
