(* ===== verification/Tarjan.v ===== *)
(** The strongly connected components of the control-flow graph and its topological order
    (src/static_analysis.rs, [control_flow_graph_tarjan]). *)
From Stdlib Require Import String.
From stdpp Require Import sorting.
From S2P Require Import Prelude Text Error Ebpf Program Executable Cfg StaticAnalysis.
Open Scope rust_scope.
Open Scope list_scope.

(* src/static_analysis.rs:741-747, NodeState *)
Record NodeState := mkNodeState {
  ns_cfg_node : Z;
  ns_discovery : Z;
  ns_lowlink : Z;
  ns_scc_id : Z;
  ns_is_on_scc_stack : bool;
}.

Definition set_topo_index (t : TopologicalIndex) (n : CfgNode) : CfgNode :=
  mkCfgNode n.(cn_label) n.(cn_sources) n.(cn_destinations) n.(cn_instructions) t n.(cn_dominator_parent)
    n.(cn_dominated_children).

Definition set_lowlink (l : Z) (n : NodeState) : NodeState :=
  mkNodeState n.(ns_cfg_node) n.(ns_discovery) l n.(ns_scc_id) n.(ns_is_on_scc_stack).

(** The variables of the search; the stacks have their last element first. *)
Record Search := mkSearch {
  t_nodes : list NodeState;
  t_scc_id : Z;
  t_scc_stack : list Z;
  t_discovered : Z;
  t_next_v : Z;
  t_recursion_stack : list (Z * Z);
}.

(** [f(&mut nodes[v])] *)
Definition update_at (nodes : list NodeState) (v : Z) (f : NodeState -> NodeState) : Exec EbpfError (list NodeState) :=
  let! n := index_slice nodes v in set_index nodes v (f n).

(** Nodes are numbered in the order of their keys; the number is kept in the topological
    index. *)
(* src/static_analysis.rs:748-762, Analysis::control_flow_graph_tarjan *)
Definition number_nodes (cfg_nodes : CfgNodes) : CfgNodes * list NodeState :=
  let keys := sorted_keys cfg_nodes in
  (fold_left (fun nodes '(v, key) =>
      match nodes !! key with
      | Some n => <[key := set_topo_index (mkTopo v n.(cn_topo_index).(discovery)) n]> nodes
      | None => nodes
      end) (imap (fun i k => (Z.of_nat i, k)) keys) cfg_nodes,
   (fun key => mkNodeState key u64_max u64_max u64_max false) <$> keys).

Section Search.
Context (cfg_nodes : CfgNodes).

(** The edges of [v] from index [j] on, up to one that leads to a new node. *)
(* src/static_analysis.rs:778-792, Analysis::control_flow_graph_tarjan *)
Fixpoint visit_edges (v : Z) (destinations : list Z) (j : Z) (nodes : list NodeState) :
    Exec EbpfError (list NodeState * option (Z * Z)) :=
  match destinations with
  | [] => Ret (nodes, None)
  | destination :: destinations =>
      let! n := get_node cfg_nodes destination in
      let w := n.(cn_topo_index).(scc_id) in
      let! node_w := index_slice nodes w in
      let! next := u64_add j 1 in
      if node_w.(ns_discovery) =? u64_max then Ret (nodes, Some (next, w))
      else if node_w.(ns_is_on_scc_stack) then
        let! nodes := update_at nodes v (fun n => set_lowlink (Z.min n.(ns_lowlink) node_w.(ns_discovery)) n) in
        visit_edges v destinations next nodes
      else visit_edges v destinations next nodes
  end.

(** The component of [v] leaves the stack. *)
(* src/static_analysis.rs:794-804, Analysis::control_flow_graph_tarjan *)
Fixpoint pop_scc (v scc_id : Z) (scc_stack : list Z) (index_in_scc : Z) (nodes : list NodeState) :
    Exec EbpfError (list Z * list NodeState) :=
  match scc_stack with
  | [] => Ret ([], nodes)
  | w :: scc_stack =>
      let! nodes := update_at nodes w (fun n => mkNodeState n.(ns_cfg_node) index_in_scc n.(ns_lowlink) scc_id false) in
      let! next := u64_add index_in_scc 1 in
      if w =? v then Ret (scc_stack, nodes) else pop_scc v scc_id scc_stack next nodes
  end.

(** The next node that was not discovered. *)
(* src/static_analysis.rs:810-818, Analysis::control_flow_graph_tarjan *)
Fixpoint find_undiscovered (rest : list NodeState) (next_v : Z) : option Z :=
  match rest with
  | [] => None
  | n :: rest => if n.(ns_discovery) =? u64_max then Some next_v else find_undiscovered rest (next_v + 1)
  end.

(** The first visit of a node. *)
(* src/static_analysis.rs:770-776, Analysis::control_flow_graph_tarjan *)
Definition discover (v : Z) (st : Search) : Exec EbpfError Search :=
  let! nodes := update_at st.(t_nodes) v (fun n =>
    mkNodeState n.(ns_cfg_node) st.(t_discovered) st.(t_discovered) n.(ns_scc_id) true) in
  let! discovered := u64_add st.(t_discovered) 1 in
  Ret (mkSearch nodes st.(t_scc_id) (v :: st.(t_scc_stack)) discovered st.(t_next_v) st.(t_recursion_stack)).

(** [v] is finished: a component may be complete, and its link goes to the node it was
    reached from; without one, the search goes on from a new root, or ends. *)
(* src/static_analysis.rs:793-821, Analysis::control_flow_graph_tarjan *)
Definition finish (v : Z) (st : Search) : Exec EbpfError (bool * Search) :=
  let! node := index_slice st.(t_nodes) v in
  let! (scc_id, scc_stack, nodes) :=
    if node.(ns_discovery) =? node.(ns_lowlink) then
      let! (scc_stack, nodes) := pop_scc v st.(t_scc_id) st.(t_scc_stack) 0 st.(t_nodes) in
      let! scc_id := u64_add st.(t_scc_id) 1 in
      Ret (scc_id, scc_stack, nodes)
    else Ret (st.(t_scc_id), st.(t_scc_stack), st.(t_nodes)) in
  match st.(t_recursion_stack) with
  | (w, _) :: _ =>
      let! node := index_slice nodes v in
      let! nodes := update_at nodes w (fun n => set_lowlink (Z.min n.(ns_lowlink) node.(ns_lowlink)) n) in
      Ret (true, mkSearch nodes scc_id scc_stack st.(t_discovered) st.(t_next_v) st.(t_recursion_stack))
  | [] =>
      match find_undiscovered (drop (Z.to_nat st.(t_next_v)) nodes) st.(t_next_v) with
      | None => Ret (false, mkSearch nodes scc_id scc_stack st.(t_discovered) (zlen nodes) [])
      | Some next_v =>
          let! after := u64_add next_v 1 in
          Ret (true, mkSearch nodes scc_id scc_stack st.(t_discovered) after [(next_v, 0)])
      end
  end.

(** One turn of the loop: whether it goes on. *)
(* src/static_analysis.rs:768-822, Analysis::control_flow_graph_tarjan *)
Definition search_step (st : Search) : Exec EbpfError (bool * Search) :=
  match st.(t_recursion_stack) with
  | [] => Ret (false, st)
  | (v, edge_index) :: stack =>
      let st := mkSearch st.(t_nodes) st.(t_scc_id) st.(t_scc_stack) st.(t_discovered) st.(t_next_v) stack in
      let! st := if edge_index =? 0 then discover v st else Ret st in
      let! node := index_slice st.(t_nodes) v in
      let! cfg_node := get_node cfg_nodes node.(ns_cfg_node) in
      let! (nodes, found) :=
        visit_edges v (drop (Z.to_nat edge_index) cfg_node.(cn_destinations)) edge_index st.(t_nodes) in
      match found with
      | Some (j, w) =>
          Ret (true, mkSearch nodes st.(t_scc_id) st.(t_scc_stack) st.(t_discovered) st.(t_next_v)
                       ((w, 0) :: (v, j) :: st.(t_recursion_stack)))
      | None =>
          finish v (mkSearch nodes st.(t_scc_id) st.(t_scc_stack) st.(t_discovered) st.(t_next_v)
                      st.(t_recursion_stack))
      end
  end.

(* src/static_analysis.rs:768-822, Analysis::control_flow_graph_tarjan *)
Fixpoint search (fuel : nat) (st : Search) : Exec EbpfError Search :=
  match fuel with
  | O => Panic OutOfFuel
  | S fuel =>
      let! (go_on, st) := search_step st in
      if go_on : bool then search fuel st else Ret st
  end.
End Search.

(** * The result *)

Definition topo_of (nodes : CfgNodes) (key : Z) : TopologicalIndex :=
  match nodes !! key with Some n => n.(cn_topo_index) | None => default_topo end.
(** The order of [sort_by(|a, b| b.cmp(a))] *)
Definition topo_ge (nodes : CfgNodes) (a b : Z) : Prop := topo_cmp (topo_of nodes b) (topo_of nodes a) <> Gt.
#[export] Instance topo_ge_dec nodes a b : Decision (topo_ge nodes a b).
Proof. unfold topo_ge. apply _. Defined.

(* src/static_analysis.rs:823-829, Analysis::control_flow_graph_tarjan *)
Definition write_topo_index (nodes : list NodeState) (cfg_nodes : CfgNodes) : Exec EbpfError CfgNodes :=
  each_state nodes (fun node cfg_nodes =>
    update_node cfg_nodes node.(ns_cfg_node) (set_topo_index (mkTopo node.(ns_scc_id) node.(ns_discovery)))) cfg_nodes.

(* src/static_analysis.rs:830-836, Analysis::control_flow_graph_tarjan *)
Definition sort_topologically (cfg_nodes : CfgNodes) : list Z :=
  merge_sort (topo_ge cfg_nodes) (sorted_keys cfg_nodes).

(** [sources.iter().any(..)]: a source in another component *)
(* src/static_analysis.rs:845-847, Analysis::control_flow_graph_tarjan *)
Fixpoint any_external (cfg_nodes : CfgNodes) (scc : Z) (sources : list Z) : Exec EbpfError bool :=
  match sources with
  | [] => Ret false
  | source :: sources =>
      let! n := get_node cfg_nodes source in
      if n.(cn_topo_index).(scc_id) =? scc then any_external cfg_nodes scc sources else Ret true
  end.

(** The first node of every component that cannot be reached from another. *)
(* src/static_analysis.rs:841-862, Analysis::control_flow_graph_tarjan *)
Fixpoint root_destinations (cfg_nodes : CfgNodes) (super_root : Z) (order : list Z) (first_node : option Z)
    (has_external_source : bool) (destinations : list Z) : Exec EbpfError (list Z) :=
  match order with
  | [] => Ret destinations
  | v :: order =>
      let! cfg_node := get_node cfg_nodes v in
      let! external := any_external cfg_nodes cfg_node.(cn_topo_index).(scc_id) cfg_node.(cn_sources) in
      let has_external_source := has_external_source || external in
      let! is_last :=
        match order with
        | next :: _ =>
            let! n := get_node cfg_nodes next in
            Ret (negb (n.(cn_topo_index).(scc_id) =? cfg_node.(cn_topo_index).(scc_id)))
        | [] => Ret true
        end in
      if is_last : bool then
        let! destinations :=
          if negb has_external_source && negb (bool_decide (first_node = Some super_root)) then
            let! first := expect UnwrapNone first_node in Ret (destinations ++ [first])
          else Ret destinations in
        root_destinations cfg_nodes super_root order (head order) false destinations
      else root_destinations cfg_nodes super_root order first_node has_external_source destinations
  end.

Section Functions.
Context `{Hash : Murmur3}.

(* src/static_analysis.rs:863-871, Analysis::control_flow_graph_tarjan *)
Definition link_roots (super_root : Z) (destinations : list Z) (functions : gmap Z (Z * list Z)) (cfg_nodes : CfgNodes) :
    Exec EbpfError (gmap Z (Z * list Z) * CfgNodes) :=
  each_state destinations (fun v '(functions, cfg_nodes) =>
    let! cfg_nodes := update_node cfg_nodes v (fun n => set_sources (n.(cn_sources) ++ [super_root]) n) in
    let functions :=
      match functions !! v with
      | Some _ => functions
      | None =>
          let name := str "function_" ++ decimal v in
          <[v := (hash_symbol_name (as_bytes name), name)]> functions
      end in
    Ret (functions, cfg_nodes)) (functions, cfg_nodes).

(** Each node is on the recursion stack twice at most for every time it is entered: the fuel is
    more than twice the number of nodes. *)
(* src/static_analysis.rs:734-873, Analysis::control_flow_graph_tarjan *)
Definition control_flow_graph_tarjan (self : Analysis) : Exec EbpfError Analysis :=
  if bool_decide (self.(an_cfg_nodes) = ∅) then Ret self
  else
    let (cfg_nodes, nodes) := number_nodes self.(an_cfg_nodes) in
    let! st := search cfg_nodes (S (2 * length nodes)) (mkSearch nodes 0 [] 0 1 [(0, 0)]) in
    let! cfg_nodes := write_topo_index st.(t_nodes) cfg_nodes in
    let order := sort_topologically cfg_nodes in
    let! destinations := root_destinations cfg_nodes self.(an_super_root) order (head order) false [] in
    let n := zlen self.(an_instructions) in
    let super_root := set_destinations destinations (set_instructions (mkInsnRange n n) default_cfg_node) in
    let! (functions, cfg_nodes) := link_roots self.(an_super_root) destinations self.(an_functions) cfg_nodes in
    Ret (set_topological_order order (set_functions functions
      (set_cfg_nodes (<[self.(an_super_root) := super_root]> cfg_nodes) self))).
End Functions.
