(* ===== verification/TarjanProof.v ===== *)
(** Tarjan's algorithm is correct: the components are the classes of mutual reachability,
    numbered against the direction of the edges (src/static_analysis.rs). *)
From stdpp Require Import sorting relations.
From S2P Require Import Prelude Error Cfg StaticAnalysis Tarjan.
Open Scope list_scope.

(** * The vector of nodes *)

Definition dummy_node : NodeState := mkNodeState 0 0 0 0 false.
Definition node_at (nodes : list NodeState) (v : Z) : NodeState := default dummy_node (nodes !! Z.to_nat v).

Lemma index_node {E} (nodes : list NodeState) (v : Z) :
  0 <= v < zlen nodes -> index_slice (E := E) nodes v = Ret (node_at nodes v).
Proof.
  intros Hv. destruct (index_slice_Ret (E := E) nodes v Hv) as (n & Hn & ->). unfold node_at. by rewrite Hn.
Qed.

Lemma update_at_eq (nodes : list NodeState) (v : Z) (f : NodeState -> NodeState) :
  0 <= v < zlen nodes -> update_at nodes v f = Ret (<[Z.to_nat v := f (node_at nodes v)]> nodes).
Proof. intros Hv. unfold update_at. rewrite index_node by done. cbn [exec_bind]. by apply set_index_Ret. Qed.

Lemma node_at_insert (nodes : list NodeState) (v u : Z) (n : NodeState) :
  0 <= v < zlen nodes -> 0 <= u < zlen nodes ->
  node_at (<[Z.to_nat v := n]> nodes) u = if decide (u = v) then n else node_at nodes u.
Proof.
  intros Hv Hu. unfold node_at. case_decide as E.
  - subst u. rewrite list_lookup_insert_eq; [done|]. unfold zlen in Hv. lia.
  - rewrite list_lookup_insert_ne; [done|]. lia.
Qed.

Lemma filter_ext_in {A} (P Q : A -> Prop) `{!forall x, Decision (P x), !forall x, Decision (Q x)} (l : list A) :
  (forall x, x ∈ l -> (P x <-> Q x)) -> filter P l = filter Q l.
Proof.
  intros Hl. induction l as [|a l IH]; [done|]. rewrite !filter_cons.
  rewrite IH by (intros x Hx; apply Hl; by right). specialize (Hl a ltac:(by left)).
  do 2 case_decide; tauto || done.
Qed.

(** * Graphs *)

Section Graph.
Context (N : Z) (succs : Z -> list Z).
Context (Hsuccs : forall v w, 0 <= v < N -> w ∈ succs v -> 0 <= w < N).

Context (succs_bound : forall v, zlen (succs v) < 2 ^ 63).

Definition vertex (v : Z) : Prop := 0 <= v < N.
Definition edge (v w : Z) : Prop := vertex v /\ w ∈ succs v.
Definition reach : relation Z := rtc edge.

Lemma edge_vertex (v w : Z) : edge v w -> vertex w.
Proof. intros [Hv Hw]. by apply (Hsuccs v). Qed.

Lemma edge_lookup (v w : Z) (i : nat) : vertex v -> succs v !! i = Some w -> edge v w.
Proof. intros Hv Hi. split; [done|]. by apply list_elem_of_lookup_2 in Hi. Qed.

Section State.
Context (nodes : list NodeState).
Definition disc (v : Z) : Z := (node_at nodes v).(ns_discovery).
Definition low (v : Z) : Z := (node_at nodes v).(ns_lowlink).
Definition comp (v : Z) : Z := (node_at nodes v).(ns_scc_id).
Definition on_stack (v : Z) : bool := (node_at nodes v).(ns_is_on_scc_stack).
Definition seen (v : Z) : Prop := disc v <> u64_max.
Definition unseen : nat := length (filter (fun v => disc v = u64_max) (seqZ 0 N)).
End State.

(** The state of the search.  [cs] are the open nodes with the numbers of their edges that are
    done, the last opened first; [stack] is the stack of components; [d] nodes were discovered
    and [c] components are complete. *)
Record inv (cs : list (Z * Z)) (nodes : list NodeState) (c : Z) (stack : list Z) (d : Z) : Prop := {
  i_len : zlen nodes = N;
  i_counts : 0 <= c /\ c + zlen stack <= d /\ d + Z.of_nat (unseen nodes) = N;
  i_stack : Forall vertex stack;
  i_sorted : StronglySorted (fun x y => disc nodes y < disc nodes x) stack;
  i_disc : Forall (fun x => 0 <= disc nodes x < d) stack;
  i_on : forall v, vertex v -> (on_stack nodes v = true <-> v ∈ stack);
  i_open : forall g j, (g, j) ∈ cs -> g ∈ stack /\ 0 <= j <= zlen (succs g);
  i_open_sorted : StronglySorted (fun x y => disc nodes y.1 < disc nodes x.1) cs;
  i_up : forall x y, x ∈ stack -> y ∈ stack -> disc nodes x <= disc nodes y -> reach x y;
  i_down : forall y, y ∈ stack -> exists g j, (g, j) ∈ cs /\ disc nodes g <= disc nodes y /\ reach y g;
  i_seen : forall v i w, vertex v -> seen nodes v -> succs v !! i = Some w ->
    (forall j, (v, j) ∈ cs -> Z.of_nat i < j) -> seen nodes w;
  i_closed : forall v w, seen nodes v -> v ∉ stack -> edge v w -> seen nodes w /\ (w ∉ stack);
  i_low : forall g j, (g, j) ∈ cs -> low nodes g <= disc nodes g /\
    exists u, u ∈ stack /\ disc nodes u = low nodes g /\ reach g u;
  i_back : forall x i y g j, x ∈ stack -> y ∈ stack -> succs x !! i = Some y ->
    (forall j, (x, j) ∈ cs -> Z.of_nat i < j) ->
    (g, j) ∈ cs -> disc nodes g <= disc nodes x ->
    (forall g' j', (g', j') ∈ cs -> disc nodes g' <= disc nodes x -> disc nodes g' <= disc nodes g) ->
    low nodes g <= disc nodes y;
  i_comp : forall v, vertex v -> seen nodes v -> v ∉ stack -> 0 <= comp nodes v < c /\ 0 <= disc nodes v < N;
  i_same : forall v w, vertex v -> vertex w -> seen nodes v -> seen nodes w -> v ∉ stack -> w ∉ stack ->
    (comp nodes v = comp nodes w <-> reach v w /\ reach w v);
  i_topo : forall v w, seen nodes v -> v ∉ stack -> edge v w -> comp nodes w <= comp nodes v;
  i_index : forall v w, vertex v -> vertex w -> seen nodes v -> seen nodes w -> v ∉ stack -> w ∉ stack ->
    comp nodes v = comp nodes w -> disc nodes v = disc nodes w -> v = w;
}.

Lemma open_NoDup cs nodes c stack d g j j' :
  inv cs nodes c stack d -> (g, j) ∈ cs -> (g, j') ∈ cs -> j = j'.
Proof.
  intros [_ _ _ _ _ _ _ HS _ _ _ _ _ _ _ _ _ _]. induction HS as [|[x i] l HS IH HF]; [by intros ?%not_elem_of_nil|].
  rewrite Forall_forall in HF. rewrite !elem_of_cons. intros [H1|H1] [H2|H2]; [congruence| | |by apply IH].
  - simplify_eq. specialize (HF _ H2). cbn in HF. lia.
  - simplify_eq. specialize (HF _ H1). cbn in HF. lia.
Qed.

Lemma sorted_disc cs nodes c stack d x y :
  inv cs nodes c stack d -> x ∈ stack -> y ∈ stack -> disc nodes x = disc nodes y -> x = y.
Proof.
  intros [_ _ _ HS _ _ _ _ _ _ _ _ _ _ _ _ _ _]. induction HS as [|a l HS IH HF]; [by intros ?%not_elem_of_nil|].
  rewrite Forall_forall in HF. rewrite !elem_of_cons. intros [->|H1] [->|H2] He; [done| | |by apply IH].
  - specialize (HF _ H2). cbn in HF. lia.
  - specialize (HF _ H1). cbn in HF. lia.
Qed.

Lemma stack_seen cs nodes c stack d x : N <= u64_max -> inv cs nodes c stack d -> x ∈ stack -> seen nodes x.
Proof.
  intros HN Hi Hx. pose proof (i_counts _ _ _ _ _ Hi) as (_ & _ & Hd).
  pose proof (proj1 (Forall_forall _ _) (i_disc _ _ _ _ _ Hi) x Hx) as Hr. cbn in Hr. unfold seen. lia.
Qed.

Lemma stack_vertex cs nodes c stack d x : inv cs nodes c stack d -> x ∈ stack -> vertex x.
Proof. intros Hi Hx. by apply (proj1 (Forall_forall _ _) (i_stack _ _ _ _ _ Hi)). Qed.

(** ** One more edge is done *)

Section Bump.
Context (pre rest : list (Z * Z)) (v j : Z).

Lemma bump_elem (g k : Z) : (g, k) ∈ pre ++ (v, j + 1) :: rest ->
  (g, k) ∈ pre ++ (v, j) :: rest \/ g = v /\ k = j + 1.
Proof.
  rewrite !elem_of_app, !elem_of_cons. intros [?|[[= -> ->]|?]]; [left; by left|by right|left; right; by right].
Qed.

(** The open nodes are the same. *)
Lemma bump_open (g k : Z) : (g, k) ∈ pre ++ (v, j + 1) :: rest -> exists k', (g, k') ∈ pre ++ (v, j) :: rest.
Proof.
  intros [?|[-> ->]]%bump_elem; [by exists k|]. exists j. apply elem_of_app. right. by left.
Qed.
Lemma bump_open' (g k : Z) : (g, k) ∈ pre ++ (v, j) :: rest -> exists k', (g, k') ∈ pre ++ (v, j + 1) :: rest.
Proof.
  rewrite elem_of_app, elem_of_cons. setoid_rewrite elem_of_app. setoid_rewrite elem_of_cons.
  intros [?|[[= -> ->]|?]]; eauto.
Qed.

Lemma bump_done (x : Z) (i : nat) : (forall k, (x, k) ∈ pre ++ (v, j + 1) :: rest -> Z.of_nat i < k) ->
  (forall k k', (x, k) ∈ pre ++ (v, j) :: rest -> (x, k') ∈ pre ++ (v, j) :: rest -> k = k') ->
  (forall k, (x, k) ∈ pre ++ (v, j) :: rest -> Z.of_nat i < k) \/ x = v /\ Z.of_nat i = j.
Proof.
  intros Hx Hu. destruct (decide (x = v)) as [->|Hne].
  - assert (Hj : Z.of_nat i < j + 1) by (apply Hx, elem_of_app; right; by left).
    destruct (decide (Z.of_nat i = j)) as [|Hij]; [by right|]. left. intros k Hk.
    rewrite (Hu k j Hk); [lia|]. apply elem_of_app. right. by left.
  - left. intros k Hk. apply Hx. revert Hk. rewrite !elem_of_app, !elem_of_cons.
    intros [?|[[= ]|?]]; [by left|done|right; by right].
Qed.

Lemma inv_bump nodes c stack d (y : Z) :
  inv (pre ++ (v, j) :: rest) nodes c stack d -> succs v !! Z.to_nat j = Some y -> seen nodes y ->
  (y ∈ stack -> low nodes v <= disc nodes y) -> inv (pre ++ (v, j + 1) :: rest) nodes c stack d.
Proof.
  intros Hi Hy Hsy Hlow.
  assert (Hv : (v, j) ∈ pre ++ (v, j) :: rest) by (apply elem_of_app; right; by left).
  pose proof (i_open _ _ _ _ _ Hi _ _ Hv) as [Hvs Hj].
  assert (Hlt : j < zlen (succs v)) by (apply lookup_lt_Some in Hy; unfold zlen; lia).
  split; try apply Hi.
  - intros g k [Hg|[-> ->]]%bump_elem; [by apply (i_open _ _ _ _ _ Hi)|]. split; [done|lia].
  - pose proof (i_open_sorted _ _ _ _ _ Hi) as HS. clear -HS. induction pre as [|[a b] l IH]; cbn in *.
    + apply StronglySorted_inv in HS as [HS HF]. by constructor.
    + apply StronglySorted_inv in HS as [HS HF]. constructor; [by apply IH|].
      apply Forall_app in HF as [HF1 HF2]. apply Forall_app. split; [done|].
      apply Forall_cons in HF2 as [HF2 HF3]. by constructor.
  - intros x Hx. destruct (i_down _ _ _ _ _ Hi x Hx) as (g & k & Hg & Hd & Hr).
    destruct (bump_open' g k Hg) as [k' Hk']. by exists g, k'.
  - intros x i w Hx Hs Hw Hdone. destruct (bump_done x i Hdone) as [Hd|[-> Hij]].
    + intros k k'. apply (open_NoDup _ _ _ _ _ _ _ _ Hi).
    + by apply (i_seen _ _ _ _ _ Hi x i).
    + assert (i = Z.to_nat j) as -> by lia. congruence.
  - intros g k (k' & Hg)%bump_open. by apply (i_low _ _ _ _ _ Hi g k').
  - intros x i w g k Hx Hw Hi' Hdone (k' & Hg)%bump_open Hgx Hnear.
    assert (Hnear' : forall g' j', (g', j') ∈ pre ++ (v, j) :: rest -> disc nodes g' <= disc nodes x -> disc nodes g' <= disc nodes g).
    { intros g' j' (k'' & Hg')%bump_open'. by apply (Hnear g' k''). }
    destruct (bump_done x i Hdone) as [Hd|[-> Hij]].
    + intros a b. apply (open_NoDup _ _ _ _ _ _ _ _ Hi).
    + by apply (i_back _ _ _ _ _ Hi x i w g k').
    + assert (i = Z.to_nat j) as -> by lia. assert (w = y) as -> by congruence.
      assert (Hvg := Hnear' v j Hv ltac:(lia)). assert (g = v) as ->; [|by apply Hlow].
      apply (sorted_disc _ _ _ _ _ _ _ Hi); [by apply (i_open _ _ _ _ _ Hi g k')|done|lia].
Qed.
End Bump.

(** ** Links *)

Lemma Sorted_impl_in {A} (R1 R2 : A -> A -> Prop) (l : list A) :
  (forall x y, x ∈ l -> y ∈ l -> R1 x y -> R2 x y) -> StronglySorted R1 l -> StronglySorted R2 l.
Proof.
  intros H HS. induction HS as [|a l HS IH HF]; constructor.
  - apply IH. intros x y Hx Hy. apply H; by right.
  - rewrite Forall_forall in HF |- *. intros x Hx. apply H; [by left|by right|by apply HF].
Qed.

Section Agree.
Context (nodes nodes' : list NodeState).
Definition agree : Prop := zlen nodes' = zlen nodes /\
  forall v, vertex v -> disc nodes' v = disc nodes v /\ comp nodes' v = comp nodes v /\ on_stack nodes' v = on_stack nodes v.
Context (Ha : agree).

Lemma agree_disc (v : Z) : vertex v -> disc nodes' v = disc nodes v.
Proof. intros Hv. by apply (proj2 Ha). Qed.
Lemma agree_comp (v : Z) : vertex v -> comp nodes' v = comp nodes v.
Proof. intros Hv. by apply (proj2 Ha). Qed.
Lemma agree_seen (v : Z) : vertex v -> (seen nodes' v <-> seen nodes v).
Proof. intros Hv. unfold seen. by rewrite agree_disc. Qed.
Lemma agree_unseen : unseen nodes' = unseen nodes.
Proof.
  unfold unseen. f_equal. apply filter_ext_in. intros v Hv%elem_of_seqZ. rewrite agree_disc; [done|]. unfold vertex. lia.
Qed.

(** Links may get lower, to nodes on the stack that can be reached. *)
Lemma inv_lower cs c stack d :
  inv cs nodes c stack d ->
  (forall g j, (g, j) ∈ cs -> low nodes' g <= low nodes g /\
    (low nodes' g = low nodes g \/ exists u, u ∈ stack /\ disc nodes u = low nodes' g /\ reach g u)) ->
  inv cs nodes' c stack d.
Proof.
  intros Hi Hlow. assert (Hst : forall x, x ∈ stack -> vertex x) by (intros x; apply (stack_vertex _ _ _ _ _ _ Hi)).
  assert (Hop : forall g j, (g, j) ∈ cs -> vertex g) by (intros g j Hg; apply Hst; by apply (i_open _ _ _ _ _ Hi g j)).
  split; try by apply Hi.
  - rewrite (proj1 Ha). apply (i_len _ _ _ _ _ Hi).
  - rewrite agree_unseen. apply (i_counts _ _ _ _ _ Hi).
  - eapply Sorted_impl_in; [|apply (i_sorted _ _ _ _ _ Hi)]. intros x y Hx Hy. cbn. rewrite !agree_disc by auto. done.
  - apply Forall_forall. intros x Hx. rewrite agree_disc by auto.
    apply (proj1 (Forall_forall _ _) (i_disc _ _ _ _ _ Hi) x Hx).
  - intros v Hv. destruct (proj2 Ha v Hv) as (_ & _ & ->). by apply Hi.
  - eapply Sorted_impl_in; [|apply (i_open_sorted _ _ _ _ _ Hi)]. intros [x i] [y k] Hx Hy. cbn.
    rewrite !agree_disc by eauto. done.
  - intros x y Hx Hy. rewrite !agree_disc by auto. by apply Hi.
  - intros y Hy. destruct (i_down _ _ _ _ _ Hi y Hy) as (g & j & Hg & Hd & Hr). exists g, j.
    rewrite !agree_disc by eauto. done.
  - intros v i w Hv. intros Hs Hw. rewrite agree_seen in Hs |- * by (done || by apply (edge_vertex v), (edge_lookup v w i)).
    by apply (i_seen _ _ _ _ _ Hi v i w).
  - intros v w Hs Hv He. rewrite agree_seen in Hs |- * by (apply He || by apply (edge_vertex v)).
    by apply (i_closed _ _ _ _ _ Hi v w).
  - intros g j Hg. destruct (i_low _ _ _ _ _ Hi g j Hg) as (Hl & u & Hu & Hd & Hr).
    destruct (Hlow g j Hg) as [Hle Hc]. rewrite agree_disc by eauto. split; [lia|].
    destruct Hc as [->|(u' & Hu' & Hd' & Hr')]; [exists u|exists u']; rewrite agree_disc by auto; done.
  - intros x i y g j Hx Hy Hi' Hdone Hg. rewrite !agree_disc by eauto. intros Hgx Hnear.
    destruct (Hlow g j Hg) as [Hle _]. etrans; [exact Hle|].
    apply (i_back _ _ _ _ _ Hi x i y g j); try done. intros g' j' Hg'. specialize (Hnear g' j' Hg').
    rewrite !agree_disc in Hnear by eauto. done.
  - intros v Hv. rewrite agree_seen, agree_comp, agree_disc by done. by apply Hi.
  - intros v w Hv Hw. rewrite !agree_seen, !agree_comp by done. by apply Hi.
  - intros v w Hs Hv He. rewrite agree_seen in Hs by apply He. rewrite !agree_comp by (apply He || by apply (edge_vertex v)).
    by apply (i_topo _ _ _ _ _ Hi v w).
  - intros v w Hv Hw. rewrite !agree_seen, !agree_comp, !agree_disc by done. by apply Hi.
Qed.
End Agree.

Lemma agree_lowlink (nodes : list NodeState) (v l : Z) :
  zlen nodes = N -> vertex v -> agree nodes (<[Z.to_nat v := set_lowlink l (node_at nodes v)]> nodes).
Proof.
  intros Hl Hv. split; [by rewrite zlen_insert|]. intros u Hu. unfold disc, comp, on_stack.
  rewrite node_at_insert by (by rewrite Hl). case_decide as E; [by subst u|done].
Qed.

Lemma low_insert (nodes : list NodeState) (v u l : Z) : zlen nodes = N -> vertex v -> vertex u ->
  low (<[Z.to_nat v := set_lowlink l (node_at nodes v)]> nodes) u = if decide (u = v) then l else low nodes u.
Proof. intros Hl Hv Hu. unfold low. rewrite node_at_insert by (by rewrite Hl). by case_decide. Qed.

(** The link of an open node becomes the least of it and the number of a node on the stack. *)
Lemma inv_link cs nodes c stack d (v jv u : Z) :
  inv cs nodes c stack d -> (v, jv) ∈ cs -> u ∈ stack -> reach v u ->
  inv cs (<[Z.to_nat v := set_lowlink (Z.min (low nodes v) (disc nodes u)) (node_at nodes v)]> nodes) c stack d.
Proof.
  intros Hi Hv Hu Hr. pose proof (i_len _ _ _ _ _ Hi) as Hl.
  assert (Hvv : vertex v) by (apply (stack_vertex _ _ _ _ _ _ Hi), (i_open _ _ _ _ _ Hi v jv Hv)).
  apply (inv_lower nodes); [by apply agree_lowlink|done|]. intros g j Hg.
  assert (vertex g) by (apply (stack_vertex _ _ _ _ _ _ Hi), (i_open _ _ _ _ _ Hi g j Hg)).
  rewrite low_insert by done. case_decide as E; [|split; [lia|by left]]. subst g. split; [lia|].
  destruct (Z.min_spec (low nodes v) (disc nodes u)) as [[_ ->]|[_ ->]]; [by left|right]. by exists u.
Qed.

(** ** A node is discovered *)

Lemma stack_empty nodes c stack d : inv [] nodes c stack d -> stack = [].
Proof.
  intros Hi. destruct stack as [|x l]; [done|]. destruct (i_down _ _ _ _ _ Hi x) as (g & j & Hg & _); [by left|].
  by apply not_elem_of_nil in Hg.
Qed.

(** Everything on the stack reaches the node that was opened last. *)
Lemma reach_open v j cs nodes c stack d x :
  inv ((v, j) :: cs) nodes c stack d -> x ∈ stack -> reach x v.
Proof.
  intros Hi Hx. destruct (i_down _ _ _ _ _ Hi x Hx) as (g & k & Hg & _ & Hr). etrans; [exact Hr|].
  pose proof (i_open _ _ _ _ _ Hi g k Hg) as [Hgs _]. pose proof (i_open _ _ _ _ _ Hi v j ltac:(by left)) as [Hvs _].
  apply (i_up _ _ _ _ _ Hi); [done|done|]. apply elem_of_cons in Hg as [[= -> ->]|Hg]; [done|].
  pose proof (i_open_sorted _ _ _ _ _ Hi) as [_ HF]%StronglySorted_inv. rewrite Forall_forall in HF.
  specialize (HF _ Hg). cbn in HF. lia.
Qed.

Lemma filter_remove (P Q : Z -> Prop) `{!forall x, Decision (P x), !forall x, Decision (Q x)} (l : list Z) (v : Z) :
  NoDup l -> v ∈ l -> P v -> ~ Q v -> (forall x, x ∈ l -> x <> v -> (P x <-> Q x)) ->
  length (filter P l) = S (length (filter Q l)).
Proof.
  intros HN. induction HN as [|a l Ha HN IH]; [by intros ?%not_elem_of_nil|]. rewrite elem_of_cons, !filter_cons.
  intros Hv HP HQ Hx. destruct (decide (a = v)) as [->|Hne].
  - rewrite decide_True, decide_False by done. cbn. do 2 f_equal. apply filter_ext_in. intros x Hin. apply Hx.
    + by right.
    + by intros ->.
  - destruct Hv as [->|Hv]; [done|]. pose proof (Hx a ltac:(by left) Hne) as Hiff.
    assert (IH' := IH Hv HP HQ (fun x Hin => Hx x (proj2 (elem_of_cons _ _ _) (or_intror Hin)))).
    do 2 case_decide; cbn; (tauto || lia).
Qed.

Section Push.
Context (cs : list (Z * Z)) (nodes : list NodeState) (c : Z) (stack : list Z) (d w : Z).
Context (HN : N < u64_max) (Hi : inv cs nodes c stack d) (Hw : vertex w) (Hnew : disc nodes w = u64_max).
Context (Hedge : cs = [] \/ exists v j rest, cs = (v, j) :: rest /\ edge v w).
Let nodes' : list NodeState :=
  <[Z.to_nat w := mkNodeState (node_at nodes w).(ns_cfg_node) d d (node_at nodes w).(ns_scc_id) true]> nodes.

Lemma push_node (u : Z) : vertex u -> node_at nodes' u = if decide (u = w)
  then mkNodeState (node_at nodes w).(ns_cfg_node) d d (node_at nodes w).(ns_scc_id) true else node_at nodes u.
Proof. intros Hu. apply node_at_insert; by rewrite (i_len _ _ _ _ _ Hi). Qed.

Lemma push_disc (u : Z) : vertex u -> disc nodes' u = if decide (u = w) then d else disc nodes u.
Proof. intros Hu. unfold disc. rewrite push_node by done. by case_decide. Qed.
Lemma push_low (u : Z) : vertex u -> low nodes' u = if decide (u = w) then d else low nodes u.
Proof. intros Hu. unfold low. rewrite push_node by done. by case_decide. Qed.
Lemma push_comp (u : Z) : vertex u -> comp nodes' u = comp nodes u.
Proof. intros Hu. unfold comp. rewrite push_node by done. case_decide; by subst. Qed.
Lemma push_stack_ne (u : Z) : u ∈ stack -> u <> w.
Proof. intros Hu ->. by apply (stack_seen _ _ _ _ _ _ ltac:(lia) Hi Hu). Qed.

Lemma push_reach (x : Z) : x ∈ stack -> reach x w.
Proof.
  intros Hx. destruct Hedge as [->|(v & j & rest & -> & He)].
  - pose proof (stack_empty _ _ _ _ Hi) as ->. by apply not_elem_of_nil in Hx.
  - etrans; [by apply (reach_open v j rest _ _ _ _ _ Hi)|]. by apply rtc_once.
Qed.

Lemma push_count : unseen nodes = S (unseen nodes').
Proof.
  apply (filter_remove _ _ _ w); [apply NoDup_seqZ|apply elem_of_seqZ; unfold vertex in Hw; lia|done| |].
  - rewrite push_disc, decide_True by done. pose proof (i_counts _ _ _ _ _ Hi) as (_ & _ & ?). lia.
  - intros x Hx%elem_of_seqZ Hne. rewrite push_disc, decide_False by (done || unfold vertex; lia). done.
Qed.

Lemma push_seen (u : Z) : vertex u -> (seen nodes' u <-> u = w \/ seen nodes u).
Proof.
  intros Hu. unfold seen. rewrite push_disc by done. pose proof (i_counts _ _ _ _ _ Hi) as (_ & _ & ?).
  case_decide as E; [subst; split; [by left|lia]|]. split; [by right|]. by intros [?|?].
Qed.

Lemma push_stack_disc (u : Z) : u ∈ stack -> disc nodes' u = disc nodes u /\ low nodes' u = low nodes u /\
  0 <= disc nodes u < d.
Proof.
  intros Hu. pose proof (stack_vertex _ _ _ _ _ _ Hi Hu). rewrite push_disc, push_low by done.
  rewrite !decide_False by (by apply push_stack_ne). split_and!; [done|done|..];
    apply (proj1 (Forall_forall _ _) (i_disc _ _ _ _ _ Hi) u Hu).
Qed.

Lemma push_open (g j : Z) : (g, j) ∈ cs -> g ∈ stack.
Proof. apply Hi. Qed.

(** Nodes with a component are as before. *)
Lemma push_old (u : Z) : vertex u -> seen nodes' u -> u ∉ w :: stack ->
  u <> w /\ seen nodes u /\ (u ∉ stack) /\ disc nodes' u = disc nodes u.
Proof.
  intros Hu Hs Hn. rewrite not_elem_of_cons in Hn. destruct Hn as [Hne Hn]. rewrite push_seen in Hs by done.
  destruct Hs as [?|Hs]; [done|]. rewrite push_disc, decide_False by done. done.
Qed.

Lemma push_back (x : Z) (i : nat) (y g j : Z) : x ∈ w :: stack -> y ∈ w :: stack -> succs x !! i = Some y ->
  (forall j, (x, j) ∈ (w, 0) :: cs -> Z.of_nat i < j) -> (g, j) ∈ (w, 0) :: cs -> disc nodes' g <= disc nodes' x ->
  (forall g' j', (g', j') ∈ (w, 0) :: cs -> disc nodes' g' <= disc nodes' x -> disc nodes' g' <= disc nodes' g) ->
  low nodes' g <= disc nodes' y.
Proof.
  intros Hx Hy Hs Hdone Hg Hgx Hnear. assert (Hdw : disc nodes' w = d) by (by rewrite push_disc, decide_True).
  apply elem_of_cons in Hx as [->|Hx]; [specialize (Hdone 0 ltac:(by left)); lia|].
  destruct (push_stack_disc x Hx) as (Hdx & _ & Hrx).
  apply elem_of_cons in Hg as [[= -> ->]|Hg]; [rewrite Hdw in Hgx; lia|].
  destruct (push_stack_disc g (push_open g j Hg)) as (Hdg & Hlg & _). rewrite Hlg.
  apply elem_of_cons in Hy as [->|Hy].
  - exfalso. apply (i_seen _ _ _ _ _ Hi x i w); [by apply (stack_vertex _ _ _ _ _ _ Hi)| |done| |done].
    + apply (stack_seen _ _ _ _ _ _ ltac:(lia) Hi Hx).
    + intros k Hk. apply Hdone. by right.
  - destruct (push_stack_disc y Hy) as (-> & _ & _). apply (i_back _ _ _ _ _ Hi x i y g j); try done; [|lia|].
    + intros k Hk. apply Hdone. by right.
    + intros g' j' Hg' Hd'. destruct (push_stack_disc g' (push_open g' j' Hg')) as (Hdg' & _ & _).
      specialize (Hnear g' j' ltac:(by right)). lia.
Qed.

Lemma push_sorted : StronglySorted (fun x y => disc nodes' y < disc nodes' x) (w :: stack) /\
  StronglySorted (fun x y => disc nodes' y.1 < disc nodes' x.1) ((w, 0) :: cs).
Proof.
  assert (Hdw : disc nodes' w = d) by (by rewrite push_disc, decide_True). split; constructor.
  - eapply Sorted_impl_in; [|apply (i_sorted _ _ _ _ _ Hi)]. intros x y Hx Hy. cbn.
    destruct (push_stack_disc x Hx) as (-> & _), (push_stack_disc y Hy) as (-> & _). done.
  - apply Forall_forall. intros x Hx. destruct (push_stack_disc x Hx) as (-> & _ & ?). lia.
  - eapply Sorted_impl_in; [|apply (i_open_sorted _ _ _ _ _ Hi)]. intros [x i] [y k] Hx Hy. cbn.
    destruct (push_stack_disc x (push_open _ _ Hx)) as (-> & _), (push_stack_disc y (push_open _ _ Hy)) as (-> & _). done.
  - apply Forall_forall. intros [x i] Hx. cbn. destruct (push_stack_disc x (push_open _ _ Hx)) as (-> & _ & ?). lia.
Qed.

Lemma inv_push : inv ((w, 0) :: cs) nodes' c (w :: stack) (d + 1).
Proof.
  assert (Hdw : disc nodes' w = d) by (by rewrite push_disc, decide_True).
  pose proof (i_counts _ _ _ _ _ Hi) as (Hc0 & Hcd & Hcount). pose proof push_count as Hcnt.
  pose proof (zlen_nonneg stack).
  split.
  - unfold nodes'. rewrite zlen_insert. apply Hi.
  - rewrite zlen_cons. lia.
  - constructor; [done|apply (i_stack _ _ _ _ _ Hi)].
  - apply push_sorted.
  - constructor; [lia|]. apply Forall_forall. intros x Hx. destruct (push_stack_disc x Hx) as (-> & _ & ?). lia.
  - intros v Hv. unfold on_stack. rewrite push_node by done. rewrite elem_of_cons. case_decide as E; [by cbn; intuition|].
    rewrite (i_on _ _ _ _ _ Hi v Hv). intuition.
  - intros g j [[= -> ->]|Hg]%elem_of_cons; [split; [by left|split; [done|apply zlen_nonneg]]|].
    destruct (i_open _ _ _ _ _ Hi g j Hg). split; [by right|done].
  - apply push_sorted.
  - intros x y [->|Hx]%elem_of_cons [->|Hy]%elem_of_cons; [reflexivity| | |].
    + destruct (push_stack_disc y Hy) as (-> & _ & ?). lia.
    + intros _. by apply push_reach.
    + destruct (push_stack_disc x Hx) as (-> & _), (push_stack_disc y Hy) as (-> & _). by apply Hi.
  - intros y [->|Hy]%elem_of_cons; [exists w, 0; split_and!; [by left|lia|reflexivity]|].
    destruct (i_down _ _ _ _ _ Hi y Hy) as (g & j & Hg & Hd & Hr). exists g, j.
    destruct (push_stack_disc y Hy) as (-> & _), (push_stack_disc g (push_open _ _ Hg)) as (-> & _).
    split; [by right|done].
  - intros v i u Hv Hs Hu Hdone. rewrite push_seen by (by apply (edge_vertex v), (edge_lookup v u i)).
    apply push_seen in Hs as [->|Hs]; [specialize (Hdone 0 ltac:(by left)); lia| |done]. right.
    apply (i_seen _ _ _ _ _ Hi v i u Hv Hs Hu). intros k Hk. apply Hdone. by right.
  - intros v u Hs Hn He. destruct (push_old v (proj1 He) Hs Hn) as (_ & Hs' & Hn' & _).
    destruct (i_closed _ _ _ _ _ Hi v u Hs' Hn' He) as [Hsu Hnu]. rewrite push_seen by (by apply (edge_vertex v)).
    split; [by right|]. rewrite not_elem_of_cons. split; [|done]. intros ->. by apply Hsu.
  - intros g j [[= -> ->]|Hg]%elem_of_cons.
    + rewrite push_low, decide_True, Hdw by done. split; [lia|]. exists w. split; [by left|]. split; [done|reflexivity].
    + destruct (push_stack_disc g (push_open _ _ Hg)) as (-> & -> & _).
      destruct (i_low _ _ _ _ _ Hi g j Hg) as (Hl & u & Hu & Hdu & Hr). split; [done|]. exists u.
      destruct (push_stack_disc u Hu) as (-> & _). split; [by right|done].
  - apply push_back.
  - intros v Hv Hs Hn. destruct (push_old v Hv Hs Hn) as (_ & Hs' & Hn' & ->). rewrite push_comp by done. by apply Hi.
  - intros v u Hv Hu Hs Hsu Hn Hnu. destruct (push_old v Hv Hs Hn) as (_ & Hs' & Hn' & _).
    destruct (push_old u Hu Hsu Hnu) as (_ & Hsu' & Hnu' & _). rewrite !push_comp by done. by apply Hi.
  - intros v u Hs Hn He. destruct (push_old v (proj1 He) Hs Hn) as (_ & Hs' & Hn' & _).
    rewrite !push_comp by (apply He || by apply (edge_vertex v)). by apply (i_topo _ _ _ _ _ Hi v u).
  - intros v u Hv Hu Hs Hsu Hn Hnu. destruct (push_old v Hv Hs Hn) as (_ & Hs' & Hn' & ->).
    destruct (push_old u Hu Hsu Hnu) as (_ & Hsu' & Hnu' & ->). rewrite !push_comp by done. by apply Hi.
Qed.
End Push.

(** ** A node is finished *)

(** When all edges of [v] are done, it need not be open. *)
Lemma done_close v j cs (x : Z) (i : nat) (y : Z) :
  j = zlen (succs v) -> succs x !! i = Some y -> (forall k, (x, k) ∈ cs -> Z.of_nat i < k) ->
  forall k, (x, k) ∈ (v, j) :: cs -> Z.of_nat i < k.
Proof.
  intros -> Hy Hdone k [[= -> ->]|Hk]%elem_of_cons; [|by apply Hdone].
  apply lookup_lt_Some in Hy. unfold zlen. lia.
Qed.

Lemma open_below v j cs nodes c stack d g k :
  inv ((v, j) :: cs) nodes c stack d -> (g, k) ∈ cs -> disc nodes g < disc nodes v.
Proof.
  intros Hi Hg. pose proof (i_open_sorted _ _ _ _ _ Hi) as [_ HF]%StronglySorted_inv. rewrite Forall_forall in HF.
  apply (HF _ Hg).
Qed.

Lemma open_other v j cs nodes c stack d g k :
  inv ((v, j) :: cs) nodes c stack d -> (g, k) ∈ (v, j) :: cs -> disc nodes g < disc nodes v -> (g, k) ∈ cs.
Proof. intros Hi [[= -> ->]|Hg]%elem_of_cons Hlt; [lia|done]. Qed.

Lemma inv_close v j p jp rest nodes c stack d :
  inv ((v, j) :: (p, jp) :: rest) nodes c stack d -> j = zlen (succs v) -> low nodes v < disc nodes v ->
  low nodes p <= low nodes v -> inv ((p, jp) :: rest) nodes c stack d.
Proof.
  intros Hi Hj Hlow Hlp. pose proof (i_open _ _ _ _ _ Hi v j ltac:(by left)) as [Hvs _].
  assert (Hps : p ∈ stack) by (apply (i_open _ _ _ _ _ Hi p jp); right; by left).
  assert (Hpv : disc nodes p < disc nodes v) by (apply (open_below _ _ _ _ _ _ _ p jp Hi); by left).
  split; try by apply Hi.
  - intros g k Hg. apply (i_open _ _ _ _ _ Hi). by right.
  - apply (StronglySorted_inv (i_open_sorted _ _ _ _ _ Hi)).
  - intros y Hy. destruct (i_down _ _ _ _ _ Hi y Hy) as (g & k & Hg & Hd & Hr).
    apply elem_of_cons in Hg as [[= -> ->]|Hg]; [|by exists g, k].
    destruct (i_low _ _ _ _ _ Hi v j ltac:(by left)) as (_ & u & Hu & Hdu & Hru).
    destruct (i_down _ _ _ _ _ Hi u Hu) as (g & k & Hg & Hd' & Hr'). exists g, k.
    split_and!; [apply (open_other _ _ _ _ _ _ _ _ _ Hi Hg); lia|lia|]. by repeat (etrans; [eassumption|]).
  - intros x i w Hx Hs Hw Hdone. apply (i_seen _ _ _ _ _ Hi x i w); [done|done|done|].
    by apply (done_close v j _ x i w).
  - intros g k Hg. apply (i_low _ _ _ _ _ Hi g k). by right.
  - intros x i y g k Hx Hy Hi' Hdone Hg Hgx Hnear.
    pose proof (done_close v j _ x i y Hj Hi' Hdone) as Hdone'.
    destruct (decide (disc nodes v <= disc nodes x)) as [Hvx|Hvx].
    + assert (g = p) as ->.
      { apply (sorted_disc _ _ _ _ _ _ _ Hi); [apply (i_open _ _ _ _ _ Hi g k); by right|done|].
        pose proof (Hnear p jp ltac:(by left) ltac:(lia)). apply elem_of_cons in Hg as [[= -> ->]|Hg]; [done|].
        pose proof (StronglySorted_inv (i_open_sorted _ _ _ _ _ Hi)) as [[_ HF]%StronglySorted_inv _].
        rewrite Forall_forall in HF. specialize (HF _ Hg). cbn in HF. lia. }
      etrans; [exact Hlp|]. apply (i_back _ _ _ _ _ Hi x i y v j); try done; [by left|].
      intros g' j' [[= -> ->]|Hg']%elem_of_cons; [done|]. pose proof (open_below _ _ _ _ _ _ _ _ _ Hi Hg'). lia.
    + apply (i_back _ _ _ _ _ Hi x i y g k); try done; [by right|].
      intros g' j' Hg' Hd. apply (Hnear g' j'); [|done]. apply (open_other _ _ _ _ _ _ _ _ _ Hi Hg'). lia.
Qed.

(** ** A component is complete *)

Section Pop.
Context (v j : Z) (cs : list (Z * Z)) (nodes nodes' : list NodeState) (c : Z) (T stack : list Z) (d : Z).
Context (HN : N < u64_max) (Hi : inv ((v, j) :: cs) nodes c (T ++ stack) d).
Context (Hj : j = zlen (succs v)) (Hlow : low nodes v = disc nodes v).
Context (HT : forall x, x ∈ T ++ stack -> (x ∈ T <-> disc nodes v <= disc nodes x)) (HvT : v ∈ T).
Context (Hlen : zlen nodes' = N).
Context (Hin : forall u, u ∈ T -> comp nodes' u = c /\ on_stack nodes' u = false /\ 0 <= disc nodes' u < N).
Context (Hout : forall u, vertex u -> u ∉ T -> node_at nodes' u = node_at nodes u).
Context (Hinj : forall u w, u ∈ T -> w ∈ T -> disc nodes' u = disc nodes' w -> u = w).

Lemma pop_vertex (x : Z) : x ∈ T ++ stack -> vertex x.
Proof. apply (stack_vertex _ _ _ _ _ _ Hi). Qed.

(** The rest of the stack is below the component. *)
Lemma pop_rest (x : Z) : x ∈ stack <-> x ∈ T ++ stack /\ (x ∉ T).
Proof.
  split; [|intros [[?|?]%elem_of_app ?]; done]. intros Hx. split; [apply elem_of_app; by right|]. intros HxT.
  pose proof (i_sorted _ _ _ _ _ Hi) as HS. clear -HS Hx HxT.
  induction T as [|a l IH]; [by apply not_elem_of_nil in HxT|]. cbn in HS. apply StronglySorted_inv in HS as [HS HF].
  apply elem_of_cons in HxT as [->|HxT]; [|by apply IH]. rewrite Forall_forall in HF.
  specialize (HF a (proj2 (elem_of_app _ _ _) (or_intror Hx))). cbn in HF. lia.
Qed.

Lemma pop_rest_in (x : Z) : x ∈ stack -> x ∈ T ++ stack.
Proof. intros Hx. by apply pop_rest. Qed.
Lemma pop_below (x : Z) : x ∈ T ++ stack -> disc nodes x < disc nodes v -> x ∈ stack.
Proof. intros Hx Hd. apply pop_rest. split; [done|]. rewrite HT by done. lia. Qed.

Lemma pop_same (x : Z) : x ∈ stack -> node_at nodes' x = node_at nodes x.
Proof. intros Hx. apply Hout; [by apply pop_vertex, pop_rest_in|]. by apply pop_rest in Hx as [_ ?]. Qed.
Lemma pop_disc (x : Z) : x ∈ stack -> disc nodes' x = disc nodes x /\ low nodes' x = low nodes x /\ disc nodes x < disc nodes v.
Proof.
  intros Hx. unfold disc at 1, low at 1. rewrite pop_same by done. split_and!; [done|done|].
  apply pop_rest in Hx as [Hx Hn]. rewrite HT in Hn by done. lia.
Qed.

Lemma pop_seen (u : Z) : vertex u -> (seen nodes' u <-> seen nodes u).
Proof.
  intros Hu. destruct (decide (u ∈ T)) as [HuT|HuT].
  - destruct (Hin u HuT) as (_ & _ & Hd). split; intros _; [|unfold seen; lia].
    apply (stack_seen _ _ _ _ _ _ ltac:(lia) Hi). apply elem_of_app. by left.
  - unfold seen, disc. by rewrite Hout.
Qed.

Lemma pop_open (g k : Z) : (g, k) ∈ cs -> g ∈ stack.
Proof.
  intros Hg. apply pop_below; [apply (i_open _ _ _ _ _ Hi g k); by right|]. by apply (open_below _ _ _ _ _ _ _ _ _ Hi Hg).
Qed.

(** Edges of the component stay in it or lead to earlier components. *)
Lemma pop_edges (u w : Z) : u ∈ T -> edge u w -> seen nodes w /\ (w ∈ T \/ (w ∉ T ++ stack)).
Proof.
  intros Hu He. assert (Hus : u ∈ T ++ stack) by (apply elem_of_app; by left).
  destruct He as [Hv Hw]. apply list_elem_of_lookup in Hw as [i Hw].
  assert (Hdone : forall k, (u, k) ∈ (v, j) :: cs -> Z.of_nat i < k).
  { apply (done_close v j cs u i w); [done|done|]. intros k Hk. exfalso.
    pose proof (proj1 (pop_rest u) (pop_open u k Hk)) as [_ ?]. done. }
  assert (Hs : seen nodes w).
  { apply (i_seen _ _ _ _ _ Hi u i w); [done|by apply (stack_seen _ _ _ _ _ _ ltac:(lia) Hi)|done|done]. }
  split; [done|]. destruct (decide (w ∈ T ++ stack)) as [Hws|Hws]; [left|by right]. apply HT; [done|].
  rewrite <-Hlow. apply (i_back _ _ _ _ _ Hi u i w v j); try done; [by left|by apply HT|].
  intros g' j' [[= -> ->]|Hg']%elem_of_cons _; [done|]. pose proof (open_below _ _ _ _ _ _ _ _ _ Hi Hg'). lia.
Qed.

Lemma pop_reach (x y : Z) : x ∈ T -> y ∈ T -> reach x y.
Proof.
  intros Hx Hy. assert (forall z, z ∈ T -> z ∈ T ++ stack) as Hs by (intros z Hz; apply elem_of_app; by left).
  etrans; [apply (reach_open _ _ _ _ _ _ _ _ Hi); auto|]. apply (i_up _ _ _ _ _ Hi); [auto|auto|]. apply HT; auto.
Qed.

(** Earlier components do not reach the stack. *)
Lemma pop_old_closed (x y : Z) : reach x y -> vertex x -> seen nodes x -> x ∉ T ++ stack -> y ∉ T ++ stack.
Proof.
  induction 1 as [x|x z y He Hr IH]; [done|]. intros Hx Hs Hn.
  destruct (i_closed _ _ _ _ _ Hi x z Hs Hn He) as [Hsz Hnz]. apply IH; [by apply (edge_vertex x)|done|done].
Qed.

(** A node with a component: of this one, or an earlier one. *)
Lemma pop_cases (u : Z) : vertex u -> seen nodes' u -> u ∉ stack ->
  u ∈ T /\ comp nodes' u = c \/
  (u ∉ T) /\ (u ∉ T ++ stack) /\ seen nodes u /\ node_at nodes' u = node_at nodes u /\ comp nodes u < c.
Proof.
  intros Hu Hs Hn. destruct (decide (u ∈ T)) as [HuT|HuT]; [left; split; [done|by apply Hin]|right].
  assert (Hn' : u ∉ T ++ stack) by (rewrite elem_of_app; tauto). rewrite pop_seen in Hs by done.
  split_and!; [done|done|done|by apply Hout|]. by apply (i_comp _ _ _ _ _ Hi u).
Qed.

Lemma pop_count : unseen nodes' = unseen nodes.
Proof.
  unfold unseen. f_equal. apply filter_ext_in. intros u Hu%elem_of_seqZ.
  pose proof (pop_seen u ltac:(unfold vertex; lia)) as Hs. unfold seen in Hs.
  destruct (decide (disc nodes u = u64_max)), (decide (disc nodes' u = u64_max)); tauto.
Qed.

Lemma pop_same_comp (u w : Z) : vertex u -> vertex w -> seen nodes' u -> seen nodes' w ->
  u ∉ stack -> w ∉ stack -> (comp nodes' u = comp nodes' w <-> reach u w /\ reach w u).
Proof.
  intros Hu Hw Hsu Hsw Hnu Hnw.
  destruct (pop_cases u Hu Hsu Hnu) as [[HuT Hcu]|(HuT & Hnu' & Hsu' & Heu & Hcu)],
    (pop_cases w Hw Hsw Hnw) as [[HwT Hcw]|(HwT & Hnw' & Hsw' & Hew & Hcw)].
  - split; [intros _; split; by apply pop_reach|]. by rewrite Hcu, Hcw.
  - assert (comp nodes' w = comp nodes w) as -> by (unfold comp; by rewrite Hew). split; [lia|]. intros [_ Hr]. exfalso.
    apply (pop_old_closed w u Hr Hw Hsw' Hnw'). apply elem_of_app. by left.
  - assert (comp nodes' u = comp nodes u) as -> by (unfold comp; by rewrite Heu). split; [lia|]. intros [Hr _]. exfalso.
    apply (pop_old_closed u w Hr Hu Hsu' Hnu'). apply elem_of_app. by left.
  - unfold comp. rewrite Heu, Hew. by apply (i_same _ _ _ _ _ Hi u w).
Qed.

Lemma pop_topo (u w : Z) : seen nodes' u -> u ∉ stack -> edge u w ->
  (seen nodes' w /\ (w ∉ stack)) /\ comp nodes' w <= comp nodes' u.
Proof.
  intros Hs Hn He. assert (Hu : vertex u) by apply He. assert (Hw : vertex w) by (by apply (edge_vertex u)).
  rewrite pop_seen by done. destruct (pop_cases u Hu Hs Hn) as [[HuT Hcu]|(HuT & Hn' & Hs' & Heu & Hcu)].
  - destruct (pop_edges u w HuT He) as [Hsw [HwT|HwT]].
    + split; [split; [done|rewrite pop_rest; tauto]|]. destruct (Hin w HwT) as [-> _]. lia.
    + assert ((w ∉ stack) /\ (w ∉ T)) as [Hnw HnT] by (rewrite elem_of_app in HwT; tauto).
      split; [done|]. unfold comp at 1. rewrite (Hout w Hw HnT).
      pose proof (i_comp _ _ _ _ _ Hi w Hw Hsw HwT) as [? _]. unfold comp in *. lia.
  - destruct (i_closed _ _ _ _ _ Hi u w Hs' Hn' He) as [Hsw Hnw].
    assert ((w ∉ stack) /\ (w ∉ T)) as [Hnw' HnT] by (rewrite elem_of_app in Hnw; tauto). split; [done|].
    unfold comp. rewrite Heu, (Hout w Hw HnT). by apply (i_topo _ _ _ _ _ Hi u w).
Qed.

Lemma inv_pop : inv cs nodes' (c + 1) stack d.
Proof.
  pose proof (i_counts _ _ _ _ _ Hi) as (Hc0 & Hcd & Hcount). rewrite zlen_app in Hcd.
  assert (HTlen : 1 <= zlen T) by (unfold zlen; destruct T; [by apply not_elem_of_nil in HvT|cbn; lia]).
  pose proof (zlen_nonneg stack). split.
  - done.
  - rewrite pop_count. lia.
  - apply Forall_forall. intros x Hx. by apply pop_vertex, pop_rest_in.
  - eapply Sorted_impl_in; [|eapply StronglySorted_app_1_r, (i_sorted _ _ _ _ _ Hi)]. intros x y Hx Hy. cbn.
    destruct (pop_disc x Hx) as (-> & _), (pop_disc y Hy) as (-> & _). done.
  - apply Forall_forall. intros x Hx. destruct (pop_disc x Hx) as (-> & _).
    apply (proj1 (Forall_forall _ _) (i_disc _ _ _ _ _ Hi)). by apply pop_rest_in.
  - intros u Hu. destruct (decide (u ∈ T)) as [HuT|HuT].
    + destruct (Hin u HuT) as (_ & -> & _). rewrite pop_rest. split; [done|tauto].
    + unfold on_stack. rewrite Hout by done. rewrite pop_rest. pose proof (i_on _ _ _ _ _ Hi u Hu) as Hon.
      unfold on_stack in Hon. rewrite Hon. tauto.
  - intros g k Hg. split; [by apply (pop_open g k)|]. apply (i_open _ _ _ _ _ Hi g k). by right.
  - eapply Sorted_impl_in; [|apply (StronglySorted_inv (i_open_sorted _ _ _ _ _ Hi))]. intros [x a] [y b] Hx Hy. cbn.
    destruct (pop_disc x (pop_open _ _ Hx)) as (-> & _), (pop_disc y (pop_open _ _ Hy)) as (-> & _). done.
  - intros x y Hx Hy. destruct (pop_disc x Hx) as (-> & _), (pop_disc y Hy) as (-> & _).
    apply (i_up _ _ _ _ _ Hi); by apply pop_rest_in.
  - intros y Hy. destruct (i_down _ _ _ _ _ Hi y (pop_rest_in y Hy)) as (g & k & Hg & Hd & Hr). exists g, k.
    destruct (pop_disc y Hy) as (-> & _ & ?). apply (open_other _ _ _ _ _ _ _ _ _ Hi) in Hg; [|lia].
    destruct (pop_disc g (pop_open _ _ Hg)) as (-> & _). done.
  - intros x i w Hx Hs Hw Hdone. rewrite pop_seen in Hs |- * by (done || by apply (edge_vertex x), (edge_lookup x w i)).
    apply (i_seen _ _ _ _ _ Hi x i w); [done|done|done|]. by apply (done_close v j cs x i w).
  - intros u w Hs Hn He. by apply pop_topo with u.
  - intros g k Hg. destruct (pop_disc g (pop_open _ _ Hg)) as (-> & -> & Hgv).
    destruct (i_low _ _ _ _ _ Hi g k ltac:(by right)) as (Hl & u & Hu & Hdu & Hr). split; [done|]. exists u.
    assert (Hus : u ∈ stack) by (apply pop_below; [done|lia]). destruct (pop_disc u Hus) as (-> & _). done.
  - intros x i y g k Hx Hy Hs Hdone Hg. destruct (pop_disc x Hx) as (-> & _ & ?), (pop_disc y Hy) as (-> & _).
    destruct (pop_disc g (pop_open _ _ Hg)) as (-> & -> & _). intros Hgx Hnear.
    apply (i_back _ _ _ _ _ Hi x i y g k); try done; [by apply pop_rest_in..|by apply (done_close v j cs x i y)|by right|].
    intros g' k' Hg' Hd'. apply (open_other _ _ _ _ _ _ _ _ _ Hi) in Hg'; [|lia]. specialize (Hnear g' k' Hg').
    destruct (pop_disc g' (pop_open _ _ Hg')) as (E & _). lia.
  - intros u Hu Hs Hn. destruct (pop_cases u Hu Hs Hn) as [[HuT ->]|(HuT & Hn' & Hs' & Heu & Hcu)].
    + destruct (Hin u HuT) as (_ & _ & ?). lia.
    + unfold comp, disc. rewrite Heu. pose proof (i_comp _ _ _ _ _ Hi u Hu Hs' Hn') as [? ?]. unfold comp, disc in *. lia.
  - apply pop_same_comp.
  - intros u w Hs Hn He. by apply pop_topo.
  - intros u w Hu Hw Hsu Hsw Hnu Hnw Hcomp Hdisc.
    destruct (pop_cases u Hu Hsu Hnu) as [[HuT Hcu]|(HuT & Hnu' & Hsu' & Heu & Hcu)],
      (pop_cases w Hw Hsw Hnw) as [[HwT Hcw]|(HwT & Hnw' & Hsw' & Hew & Hcw)].
    + by apply Hinj.
    + unfold comp in *. rewrite Hew in Hcomp. lia.
    + unfold comp in *. rewrite Heu in Hcomp. lia.
    + unfold comp, disc in *. rewrite Heu, Hew in *. by apply (i_index _ _ _ _ _ Hi u w).
Qed.
End Pop.

(** * The program *)

Section Program.
Context (HN : N < u64_max) (cfg : CfgNodes) (key : Z -> Z).
(** Vertices are the numbers of the nodes. *)
Definition leads_to (d w : Z) : Prop := exists m, cfg !! d = Some m /\ m.(cn_topo_index).(scc_id) = w.
Context (Hcfg : forall v, vertex v -> exists n, cfg !! key v = Some n /\ Forall2 leads_to n.(cn_destinations) (succs v)).

Definition keyed (nodes : list NodeState) : Prop := forall v, vertex v -> (node_at nodes v).(ns_cfg_node) = key v.

Lemma keyed_insert (nodes : list NodeState) (v : Z) (n : NodeState) :
  zlen nodes = N -> vertex v -> keyed nodes -> n.(ns_cfg_node) = (node_at nodes v).(ns_cfg_node) ->
  keyed (<[Z.to_nat v := n]> nodes).
Proof.
  intros Hl Hv Hk Hn u Hu. rewrite node_at_insert by (by rewrite Hl). case_decide as E; [|by apply Hk].
  subst u. rewrite Hn. by apply Hk.
Qed.

(** ** Edges *)

Lemma visit_edges_spec (v : Z) (dests : list Z) : forall cs j nodes c stack d,
  inv ((v, j) :: cs) nodes c stack d -> keyed nodes ->
  Forall2 leads_to dests (drop (Z.to_nat j) (succs v)) ->
  exists nodes' found, visit_edges cfg v dests j nodes = Ret (nodes', found) /\ keyed nodes' /\
    (forall u, vertex u -> disc nodes' u = disc nodes u) /\
    match found with
    | Some (k, w) => 1 <= k /\ inv ((v, k - 1) :: cs) nodes' c stack d /\ succs v !! Z.to_nat (k - 1) = Some w /\
        disc nodes' w = u64_max
    | None => inv ((v, zlen (succs v)) :: cs) nodes' c stack d
    end.
Proof.
  induction dests as [|dest dests IH]; intros cs j nodes c stack d Hi Hk Hd.
  - apply Forall2_nil_inv_l in Hd as Hnil. cbn. eexists _, _. split_and!; [done|done|done|].
    pose proof (i_open _ _ _ _ _ Hi v j ltac:(by left)) as [_ Hj].
    replace (zlen (succs v)) with j; [done|]. apply (f_equal length) in Hnil.
    rewrite length_drop in Hnil. unfold zlen in *. cbn in Hnil. lia.
  - apply Forall2_cons_inv_l in Hd as (w & rest & (m & Hm & Hw) & Hd' & Heq2).
    pose proof (i_open _ _ _ _ _ Hi v j ltac:(by left)) as [Hvs Hj].
    assert (Hvv : vertex v) by (by apply (stack_vertex _ _ _ _ _ _ Hi)). pose proof (i_len _ _ _ _ _ Hi) as Hlen.
    assert (Hjw : succs v !! Z.to_nat j = Some w).
    { rewrite <-(Nat.add_0_r (Z.to_nat j)), <-lookup_drop, Heq2. done. }
    assert (Hrest : drop (Z.to_nat (j + 1)) (succs v) = rest).
    { replace (Z.to_nat (j + 1)) with (Z.to_nat j + 1)%nat by lia. rewrite <-drop_drop, Heq2. done. }
    pose proof (edge_lookup v w _ Hvv Hjw) as He.
    pose proof (edge_vertex v w He) as Hww.
    cbn [visit_edges]. unfold get_node. rewrite Hm. cbn [expect exec_bind]. rewrite Hw.
    rewrite index_node by (by rewrite Hlen). cbn [exec_bind].
    assert (Hjl : j < zlen (succs v)) by (apply lookup_lt_Some in Hjw; unfold zlen; lia).
    rewrite u64_add_small by (pose proof (succs_bound v); lia). cbn [exec_bind].
    change (ns_discovery (node_at nodes w)) with (disc nodes w).
    destruct (Z.eqb_spec (disc nodes w) u64_max) as [Hwhite|Hseen].
    { exists nodes, (Some (j + 1, w)). split_and!; [done|done|done|lia| |by rewrite Z.add_simpl_r|done].
      by rewrite Z.add_simpl_r. }
    change (ns_is_on_scc_stack (node_at nodes w)) with (on_stack nodes w).
    destruct (on_stack nodes w) eqn:Hon.
    + rewrite update_at_eq by (by rewrite Hlen). cbn [exec_bind].
      assert (Hws : w ∈ stack) by (by apply (i_on _ _ _ _ _ Hi w Hww)).
      set (nodes1 := <[Z.to_nat v := _]> nodes).
      assert (Hi1 : inv ((v, j) :: cs) nodes1 c stack d).
      { apply (inv_link _ _ _ _ _ v j w Hi); [by left|done|by apply rtc_once]. }
      assert (Hag : agree nodes nodes1) by (by apply agree_lowlink).
      destruct (IH cs (j + 1) nodes1 c stack d) as (nodes' & found & E & Hk' & Hd1 & Hf); [|by apply keyed_insert|by rewrite Hrest|].
      2: { exists nodes', found. split_and!; [done|done| |done]. intros u Hu. by rewrite Hd1, (agree_disc _ _ Hag). }
      apply (inv_bump [] cs v j _ _ _ _ w Hi1 Hjw).
      * apply (stack_seen _ _ _ _ _ _ ltac:(lia) Hi1 Hws).
      * intros _. rewrite (agree_disc _ _ Hag w Hww). unfold nodes1.
        rewrite low_insert, decide_True by done. unfold low, disc. lia.
    + apply IH; [|done|by rewrite Hrest]. apply (inv_bump [] cs v j _ _ _ _ w Hi Hjw); [done|].
      intros Hws%(i_on _ _ _ _ _ Hi w Hww). congruence.
Qed.

(** ** Components *)

Lemma pop_scc_spec (v c : Z) (rest T : list Z) : forall k nodes,
  zlen nodes = N -> keyed nodes -> Forall vertex (T ++ [v]) -> NoDup (T ++ [v]) -> 0 <= k -> k + zlen T < N ->
  exists nodes', pop_scc v c (T ++ v :: rest) k nodes = Ret (rest, nodes') /\ keyed nodes' /\ zlen nodes' = N /\
    (forall u, u ∈ T ++ [v] -> comp nodes' u = c /\ on_stack nodes' u = false /\ low nodes' u = low nodes u /\
      k <= disc nodes' u < N) /\
    (forall u, vertex u -> u ∉ T ++ [v] -> node_at nodes' u = node_at nodes u) /\
    (forall u w, u ∈ T ++ [v] -> w ∈ T ++ [v] -> disc nodes' u = disc nodes' w -> u = w).
Proof.
  induction T as [|w T IH]; intros k nodes Hlen Hk HV HND H0 HkN; cbn [app pop_scc].
  - apply Forall_cons in HV as [Hv _]. rewrite update_at_eq by (by rewrite Hlen). cbn [exec_bind].
    change (zlen []) with 0 in HkN.
    rewrite u64_add_small by (unfold u64_max in HN; lia). cbn [exec_bind]. rewrite Z.eqb_refl.
    eexists. split_and!; [done|by apply keyed_insert|by rewrite zlen_insert|..].
    + intros u ->%list_elem_of_singleton. unfold comp, on_stack, low, disc.
      rewrite node_at_insert, decide_True by (by rewrite ?Hlen). cbn in *. split_and!; [done|done|done|lia|lia].
    + intros u Hu Hne%not_elem_of_cons. rewrite node_at_insert, decide_False by (rewrite ?Hlen; tauto || done). done.
    + intros u u' ->%list_elem_of_singleton ->%list_elem_of_singleton. done.
  - cbn [app] in HV, HND. apply Forall_cons in HV as [Hw HV]. apply NoDup_cons in HND as [HwT HND].
    rewrite zlen_cons in HkN. pose proof (zlen_nonneg T).
    rewrite update_at_eq by (by rewrite Hlen). cbn [exec_bind].
    rewrite u64_add_small by (unfold u64_max in HN; lia). cbn [exec_bind].
    rewrite (proj2 (Z.eqb_neq w v)) by (intros ->; apply HwT, elem_of_app; right; by left).
    set (nodes1 := <[Z.to_nat w := _]> nodes).
    assert (Hn1 : forall u, vertex u -> u <> w -> node_at nodes1 u = node_at nodes u).
    { intros u Hu Hne. unfold nodes1. rewrite node_at_insert, decide_False by (by rewrite ?Hlen). done. }
    destruct (IH (k + 1) nodes1) as (nodes' & E & Hk' & Hl' & Hin & Hout & Hinj);
      [by unfold nodes1; rewrite zlen_insert|by apply keyed_insert|done|done|lia|lia|].
    assert (Hww : node_at nodes' w = mkNodeState (node_at nodes w).(ns_cfg_node) k (low nodes w) c false).
    { rewrite Hout by done. unfold nodes1. by rewrite node_at_insert, decide_True by (by rewrite ?Hlen). }
    exists nodes'. split_and!; [done|done|done|..].
    + intros u [->|Hu]%elem_of_cons.
      * unfold comp, on_stack, low, disc. rewrite Hww. cbn. split_and!; [done|done|done|lia|lia].
      * destruct (Hin u Hu) as (-> & -> & -> & ?). split_and!; [done|done| |lia|lia]. unfold low.
        rewrite Hn1; [done|by apply (proj1 (Forall_forall _ _) HV)|by intros ->].
    + intros u Hu [Hne Hn]%not_elem_of_cons. by rewrite Hout, Hn1.
    + assert (Hdw : disc nodes' w = k) by (unfold disc; by rewrite Hww).
      intros u u' [->|Hu]%elem_of_cons [->|Hu']%elem_of_cons He; [done| | |by apply Hinj].
      * destruct (Hin u' Hu') as (_ & _ & _ & ?). lia.
      * destruct (Hin u Hu) as (_ & _ & _ & ?). lia.
Qed.

(** The stack from the top to [v]. *)
Lemma stack_split v j cs nodes c stack d : inv ((v, j) :: cs) nodes c stack d ->
  exists T rest, stack = T ++ v :: rest /\ NoDup (T ++ [v]) /\ zlen T < N /\
    forall x, x ∈ (T ++ [v]) ++ rest -> (x ∈ T ++ [v] <-> disc nodes v <= disc nodes x).
Proof.
  intros Hi. pose proof (i_open _ _ _ _ _ Hi v j ltac:(by left)) as [Hv _].
  apply list_elem_of_split in Hv as (T & rest & Heq). exists T, rest. split; [done|].
  pose proof (i_sorted _ _ _ _ _ Hi) as HS. rewrite Heq in HS.
  assert (Hlt : forall x y, x ∈ T ++ [v] -> y ∈ rest -> disc nodes y < disc nodes x).
  { intros x y Hx Hy. replace (T ++ v :: rest) with ((T ++ [v]) ++ rest) in HS by (by rewrite <-app_assoc).
    apply (StronglySorted_app_1_elem_of _ _ _ _ _ HS Hx Hy). }
  assert (Hge : forall x, x ∈ T ++ [v] -> disc nodes v <= disc nodes x).
  { intros x [Hx| ->%list_elem_of_singleton]%elem_of_app; [|done].
    pose proof (StronglySorted_app_1_elem_of _ _ _ x v HS Hx ltac:(by left)) as H. cbn in H. lia. }
  split_and!.
  - assert (HND : NoDup stack).
    { apply (NoDup_fmap_1 (disc nodes)). rewrite Heq. clear -HS. induction HS as [|a l HS IH HF]; cbn; constructor; [|done].
      intros (x & Hx & Hin)%list_elem_of_fmap. rewrite Forall_forall in HF. specialize (HF x Hin). cbn in HF. lia. }
    rewrite Heq in HND. replace (T ++ v :: rest) with ((T ++ [v]) ++ rest) in HND by (by rewrite <-app_assoc).
    by apply NoDup_app in HND as [? _].
  - pose proof (i_counts _ _ _ _ _ Hi) as (? & ? & ?). rewrite Heq, zlen_app, zlen_cons in *. pose proof (zlen_nonneg rest). lia.
  - intros x [Hx|Hx]%elem_of_app; [split; [intros _; by apply Hge|done]|].
    split; [intros Hx'; specialize (Hlt x x Hx' Hx); lia|]. intros Hd. specialize (Hlt v x ltac:(apply elem_of_app; right; by left) Hx). lia.
Qed.

(** What [finish] does before it looks at the recursion stack. *)
Lemma finish_component v cs nodes c stack d :
  inv ((v, zlen (succs v)) :: cs) nodes c stack d -> keyed nodes ->
  exists c' stack' nodes',
    (if disc nodes v =? low nodes v then
      let! (scc_stack, nodes) := pop_scc v c stack 0 nodes in
      let! scc_id := u64_add c 1 in
      Ret (scc_id, scc_stack, nodes)
    else Ret (c, stack, nodes)) = Ret (c', stack', nodes') /\ keyed nodes' /\ low nodes' v = low nodes v /\
    (forall u, vertex u -> seen nodes u -> seen nodes' u) /\
    (inv cs nodes' c' stack' d /\ (forall p jp rest, cs = (p, jp) :: rest -> low nodes' p <= low nodes v) \/
     inv ((v, zlen (succs v)) :: cs) nodes' c' stack' d /\ low nodes' v < disc nodes' v).
Proof.
  intros Hi Hk. destruct (Z.eqb_spec (disc nodes v) (low nodes v)) as [He|Hne].
  - destruct (stack_split _ _ _ _ _ _ _ Hi) as (T & rest & -> & HND & HTN & HT).
    assert (Hsplit : T ++ v :: rest = (T ++ [v]) ++ rest) by (by rewrite <-app_assoc).
    pose proof (i_stack _ _ _ _ _ Hi) as HV. rewrite Hsplit in HV. apply Forall_app in HV as [HV _].
    pose proof (i_counts _ _ _ _ _ Hi) as (Hc0 & Hcd & Hcount).
    assert (HvT : v ∈ T ++ [v]) by (apply elem_of_app; right; by left).
    destruct (pop_scc_spec v c rest T 0 nodes (i_len _ _ _ _ _ Hi) Hk HV HND ltac:(lia) ltac:(lia))
      as (nodes' & -> & Hk' & Hl' & Hin & Hout & Hinj). cbn [exec_bind].
    rewrite u64_add_small by (pose proof (zlen_nonneg (T ++ v :: rest)); unfold u64_max in HN; lia). cbn [exec_bind].
    rewrite Hsplit in Hi. exists (c + 1), rest, nodes'.
    assert (Hi' : inv cs nodes' (c + 1) rest d).
    { eapply (inv_pop v _ cs nodes nodes' c (T ++ [v]) rest d); try done. intros u Hu.
      destruct (Hin u Hu) as (? & ? & _ & ?). split_and!; [done|done|lia|lia]. }
    split_and!; [done|done|by apply Hin| |].
    { intros u Hu Hs. destruct (decide (u ∈ T ++ [v])) as [HuT|HuT].
      - destruct (Hin u HuT) as (_ & _ & _ & ?). unfold seen. lia.
      - unfold seen, disc in *. by rewrite Hout. }
    left. split; [done|]. intros p jp cs' ->.
    pose proof (i_low _ _ _ _ _ Hi' p jp ltac:(by left)) as [Hlp _].
    pose proof (open_below _ _ _ _ _ _ _ p jp Hi ltac:(by left)) as Hpv.
    pose proof (i_open _ _ _ _ _ Hi' p jp ltac:(by left)) as [Hps _].
    assert (HpT : p ∉ T ++ [v]).
    { rewrite HT; [lia|]. apply elem_of_app. by right. }
    unfold low, disc in *. rewrite Hout in Hlp by (done || by apply (stack_vertex _ _ _ _ _ _ Hi')).
    rewrite Hout by (done || by apply (stack_vertex _ _ _ _ _ _ Hi')). lia.
  - exists c, stack, nodes. split_and!; [done|done|done|done|]. right. split; [done|].
    pose proof (i_low _ _ _ _ _ Hi v _ ltac:(by left)) as [? _]. lia.
Qed.

(** All nodes have components. *)
Record finished (nodes : list NodeState) (c d : Z) : Prop := {
  fi_inv : inv [] nodes c [] d;
  fi_keyed : keyed nodes;
  fi_seen : forall u, vertex u -> seen nodes u;
}.

(** The state at the head of the loop: a new node [w] is to be entered, from the node that was
    opened last or as a root; or the last node is to be continued.  [open] are the open nodes
    behind it. *)
Inductive entering (nodes : list NodeState) (c : Z) (stack : list Z) (d : Z) : Z -> list (Z * Z) -> Prop :=
  | enter_root w : inv [] nodes c stack d -> vertex w -> disc nodes w = u64_max -> entering nodes c stack d w []
  | enter_edge w v j rest : inv ((v, j) :: rest) nodes c stack d -> 0 <= j -> succs v !! Z.to_nat j = Some w ->
      disc nodes w = u64_max -> entering nodes c stack d w ((v, j + 1) :: rest).

Definition looked (nodes : list NodeState) (next_v : Z) (pending : option Z) : Prop :=
  0 <= next_v <= N /\ forall u, 0 <= u < next_v -> seen nodes u \/ pending = Some u.

Inductive at_head (st : Search) : nat -> Prop :=
  | head_enter w cs : st.(t_recursion_stack) = (w, 0) :: cs ->
      entering st.(t_nodes) st.(t_scc_id) st.(t_scc_stack) st.(t_discovered) w cs ->
      Forall (fun e => 1 <= e.2) cs -> keyed st.(t_nodes) ->
      looked st.(t_nodes) st.(t_next_v) (if decide (cs = []) then Some w else None) ->
      at_head st (2 * unseen st.(t_nodes) + length cs)
  | head_continue v j cs : st.(t_recursion_stack) = (v, j) :: cs ->
      inv ((v, j) :: cs) st.(t_nodes) st.(t_scc_id) st.(t_scc_stack) st.(t_discovered) ->
      Forall (fun e => 1 <= e.2) ((v, j) :: cs) -> keyed st.(t_nodes) ->
      looked st.(t_nodes) st.(t_next_v) None ->
      at_head st (2 * unseen st.(t_nodes) + length cs + 2).

(** [finish] leads to the head of the loop or to the end of the search. *)
Lemma find_undiscovered_spec (nodes : list NodeState) (next_v : Z) :
  zlen nodes = N -> 0 <= next_v <= N -> (forall u, 0 <= u < next_v -> seen nodes u) ->
  match find_undiscovered (drop (Z.to_nat next_v) nodes) next_v with
  | None => forall u, vertex u -> seen nodes u
  | Some w => next_v <= w < N /\ disc nodes w = u64_max /\ forall u, 0 <= u < w -> seen nodes u
  end.
Proof.
  intros Hl. remember (drop (Z.to_nat next_v) nodes) as l eqn:El. revert next_v El.
  induction l as [|n l IH]; intros next_v El Hn Hs; cbn [find_undiscovered].
  - intros u Hu. apply Hs. symmetry in El. apply (f_equal length) in El. rewrite length_drop in El.
    unfold zlen, vertex in *. cbn in El. lia.
  - assert (Hlt : next_v < N).
    { apply (f_equal length) in El. rewrite length_drop in El. unfold zlen in Hl. cbn in El. lia. }
    assert (Hat : node_at nodes next_v = n).
    { unfold node_at. rewrite <-(Nat.add_0_r (Z.to_nat next_v)), <-lookup_drop, <-El. done. }
    assert (El' : l = drop (Z.to_nat (next_v + 1)) nodes).
    { replace (Z.to_nat (next_v + 1)) with (Z.to_nat next_v + 1)%nat by lia. rewrite <-drop_drop, <-El. done. }
    destruct (Z.eqb_spec n.(ns_discovery) u64_max) as [Hw|Hw].
    + split_and!; [lia|lia|unfold disc; by rewrite Hat|done].
    + specialize (IH (next_v + 1) El' ltac:(lia)).
      assert (Hs' : forall u, 0 <= u < next_v + 1 -> seen nodes u).
      { intros u Hu. destruct (decide (u = next_v)) as [->|]; [unfold seen, disc; by rewrite Hat|apply Hs; lia]. }
      specialize (IH Hs'). destruct (find_undiscovered l (next_v + 1)) as [w|]; [|done].
      destruct IH as (? & ? & ?). split_and!; [lia|lia|done|done].
Qed.

(** The link of the finished node goes to its parent. *)
Lemma finish_parent v p jp rest nodes nodes' c stack d :
  low nodes' v = low nodes v -> keyed nodes' ->
  inv ((p, jp) :: rest) nodes' c stack d /\ (forall q jq r, (p, jp) :: rest = (q, jq) :: r -> low nodes' q <= low nodes v) \/
  inv ((v, zlen (succs v)) :: (p, jp) :: rest) nodes' c stack d /\ low nodes' v < disc nodes' v ->
  vertex p /\ zlen nodes' = N /\
  let nodes'' := <[Z.to_nat p := set_lowlink (Z.min (low nodes' p) (low nodes' v)) (node_at nodes' p)]> nodes' in
  inv ((p, jp) :: rest) nodes'' c stack d /\ keyed nodes''.
Proof.
  intros Hlv Hk H. assert (Hp : vertex p /\ zlen nodes' = N).
  { destruct H as [[Hi _]|[Hi _]]; (split; [|apply (i_len _ _ _ _ _ Hi)]); apply (stack_vertex _ _ _ _ _ _ Hi), (i_open _ _ _ _ _ Hi p jp);
      [by left|right; by left]. }
  destruct Hp as [Hp Hl]. split; [done|]. split; [done|]. cbn zeta. split; [|by apply keyed_insert].
  destruct H as [[Hi Hle]|[Hi Hlt]].
  - specialize (Hle p jp rest eq_refl). rewrite Hlv, Z.min_l by lia.
    apply (inv_lower nodes'); [by apply agree_lowlink|done|]. intros g j Hg.
    assert (vertex g) by (apply (stack_vertex _ _ _ _ _ _ Hi), (i_open _ _ _ _ _ Hi g j Hg)).
    rewrite low_insert by done. case_decide as E; [subst g|]; (split; [lia|by left]).
  - destruct (i_low _ _ _ _ _ Hi v _ ltac:(by left)) as (_ & u & Hu & Hdu & Hr).
    pose proof (i_open _ _ _ _ _ Hi v _ ltac:(by left)) as [Hvs _].
    pose proof (i_open _ _ _ _ _ Hi p jp ltac:(right; by left)) as [Hps _].
    pose proof (open_below _ _ _ _ _ _ _ p jp Hi ltac:(by left)) as Hpv.
    assert (vertex v) by (by apply (stack_vertex _ _ _ _ _ _ Hi)).
    assert (Hpu : reach p u) by (etrans; [apply (i_up _ _ _ _ _ Hi p v); [done|done|lia]|done]).
    pose proof (inv_link _ _ _ _ _ p jp u Hi ltac:(right; by left) Hu Hpu) as Hi'. rewrite Hdu in Hi'.
    assert (v <> p) by (intros ->; lia). pose proof (agree_lowlink nodes' p (Z.min (low nodes' p) (low nodes' v)) Hl Hp) as Ha.
    apply (inv_close _ _ _ _ _ _ _ _ _ Hi' eq_refl); rewrite ?(agree_disc _ _ Ha v) by done;
      rewrite !low_insert by done; rewrite (decide_False (P := v = p)) by done; [lia|].
    rewrite decide_True by done. lia.
Qed.

(** After a node is finished, the loop goes on, with a lower measure, or ends. *)
Definition goes_on (m : nat) (r : Exec EbpfError (bool * Search)) : Prop :=
  exists b st', r = Ret (b, st') /\
    if b then exists m', at_head st' m' /\ (m' <= m)%nat
    else exists c d, finished st'.(t_nodes) c d.

Lemma unseen_eq cs cs' nodes nodes' c c' stack stack' d :
  inv cs nodes c stack d -> inv cs' nodes' c' stack' d -> unseen nodes' = unseen nodes.
Proof.
  intros H1 H2. pose proof (i_counts _ _ _ _ _ H1) as (_ & _ & ?). pose proof (i_counts _ _ _ _ _ H2) as (_ & _ & ?). lia.
Qed.

(** Nodes stay seen. *)
Lemma looked_mono nodes nodes' next_v pending : (forall u, vertex u -> seen nodes u -> seen nodes' u) ->
  looked nodes next_v pending -> looked nodes' next_v pending.
Proof.
  intros Hs [Hn Hl]. split; [done|]. intros u Hu. destruct (Hl u Hu) as [H|H]; [left; apply Hs; [unfold vertex; lia|done]|by right].
Qed.

Lemma finish_spec v cs (st : Search) :
  inv ((v, zlen (succs v)) :: cs) st.(t_nodes) st.(t_scc_id) st.(t_scc_stack) st.(t_discovered) ->
  keyed st.(t_nodes) -> st.(t_recursion_stack) = cs -> Forall (fun e => 1 <= e.2) cs ->
  looked st.(t_nodes) st.(t_next_v) None ->
  goes_on (2 * unseen st.(t_nodes) + length cs + 1) (finish v st).
Proof.
  intros Hi Hk Hcs Hpos Hlook. pose proof (i_open _ _ _ _ _ Hi v _ ltac:(by left)) as [Hvs _].
  assert (Hv : vertex v) by (by apply (stack_vertex _ _ _ _ _ _ Hi)).
  unfold finish. rewrite index_node by (by rewrite (i_len _ _ _ _ _ Hi)). cbn [exec_bind].
  change (ns_discovery (node_at (t_nodes st) v)) with (disc (t_nodes st) v).
  change (ns_lowlink (node_at (t_nodes st) v)) with (low (t_nodes st) v).
  destruct (finish_component v cs _ _ _ _ Hi Hk) as (c' & stack' & nodes' & -> & Hk' & Hlv & Hseen & Hcase). cbn [exec_bind].
  rewrite Hcs. destruct cs as [|[p jp] rest].
  - assert (Hi' : inv [] nodes' c' stack' st.(t_discovered)).
    { destruct Hcase as [[Hi' _]|[Hi' Hlt]]; [done|]. exfalso.
      destruct (i_low _ _ _ _ _ Hi' v _ ltac:(by left)) as (_ & u & Hu & Hdu & _).
      destruct (i_down _ _ _ _ _ Hi' u Hu) as (g & k & [= -> ->]%list_elem_of_singleton & Hd & _). lia. }
    destruct (looked_mono _ nodes' _ _ Hseen Hlook) as [Hn Hl].
    pose proof (find_undiscovered_spec nodes' st.(t_next_v) (i_len _ _ _ _ _ Hi') Hn) as Hf.
    assert (Hl' : forall u, 0 <= u < st.(t_next_v) -> seen nodes' u) by (intros u Hu; by destruct (Hl u Hu)).
    specialize (Hf Hl'). destruct (find_undiscovered _ _) as [w|].
    + destruct Hf as (Hw & Hwhite & Hbelow). rewrite u64_add_small by (unfold u64_max in HN; lia). cbn [exec_bind].
      eexists true, _. split; [done|]. eexists. split.
      * apply (head_enter _ w []); cbn; [done| |done|done|].
        { apply enter_root; [done|unfold vertex; lia|done]. }
        split; [lia|]. intros u Hu. destruct (decide (u = w)) as [->|]; [by right|left; apply Hbelow; lia].
      * cbn. rewrite (unseen_eq _ _ _ _ _ _ _ _ _ Hi Hi'). lia.
    + eexists false, _. split; [done|]. exists c', st.(t_discovered). pose proof (stack_empty _ _ _ _ Hi') as ->. by split.
  - destruct (finish_parent v p jp rest _ _ _ _ _ Hlv Hk' Hcase) as (Hp & Hl' & Hi'' & Hk'').
    rewrite index_node by (by rewrite Hl'). cbn [exec_bind]. rewrite update_at_eq by (by rewrite Hl'). cbn [exec_bind].
    eexists true, _. split; [done|]. eexists. split.
    + apply (head_continue _ p jp rest); cbn; [done|exact Hi''|done|exact Hk''|].
      apply (looked_mono st.(t_nodes)); [|done]. intros u Hu Hs.
      apply (agree_seen _ _ (agree_lowlink nodes' p _ Hl' Hp)); [done|]. by apply Hseen.
    + cbn. pose proof (unseen_eq _ _ _ _ _ _ _ _ _ Hi Hi'') as E. unfold low in E. lia.
Qed.

(** ** The loop *)

(** The node [w] with number [d]. *)
Definition discovered_node (nodes : list NodeState) (w d : Z) : NodeState :=
  mkNodeState (node_at nodes w).(ns_cfg_node) d d (node_at nodes w).(ns_scc_id) true.

(** A new node is entered; the edge it was reached by is done. *)
Lemma enter_inv nodes c stack d w cs : entering nodes c stack d w cs ->
  let nodes' := <[Z.to_nat w := discovered_node nodes w d]> nodes in
  vertex w /\ zlen nodes = N /\ d < N /\ inv ((w, 0) :: cs) nodes' c (w :: stack) (d + 1) /\
  unseen nodes = S (unseen nodes') /\ forall u, vertex u -> (seen nodes' u <-> u = w \/ seen nodes u).
Proof.
  intros [w' Hi Hw Hnew|w' v j rest Hi Hj Hs Hnew] nodes'; pose proof (i_counts _ _ _ _ _ Hi) as (_ & _ & Hd).
  - pose proof (push_count _ _ _ _ _ _ HN Hi Hw Hnew) as Hc.
    split_and!; [apply Hw..|apply Hi|lia|apply inv_push; auto|done|].
    apply (push_seen _ _ _ _ _ _ HN Hi Hw Hnew).
  - pose proof (i_open _ _ _ _ _ Hi v j ltac:(by left)) as [Hv _].
    pose proof (edge_lookup v w' _ (stack_vertex _ _ _ _ _ _ Hi Hv) Hs) as Hed.
    pose proof (edge_vertex v w' Hed) as Hw. pose proof (push_count _ _ _ _ _ _ HN Hi Hw Hnew) as Hc.
    assert (Hi' : inv ((w', 0) :: (v, j) :: rest) nodes' c (w' :: stack) (d + 1)).
    { apply inv_push; auto. right. eauto 10. }
    split_and!; [apply Hw..|apply Hi|lia| |done|apply (push_seen _ _ _ _ _ _ HN Hi Hw Hnew)].
    apply (inv_bump [(w', 0)] rest v j _ _ _ _ w' Hi' Hs).
    + apply (push_seen _ _ _ _ _ _ HN Hi Hw Hnew); [done|by left].
    + intros _. destruct (push_stack_disc _ _ _ _ _ w' HN Hi Hw Hnew v Hv) as (_ & Hl & Hr).
      change (low nodes' v = low nodes v) in Hl. rewrite Hl. unfold nodes' at 1. unfold discovered_node.
      rewrite (push_disc _ _ _ _ _ w' Hi Hw w' Hw), decide_True by done.
      pose proof (i_low _ _ _ _ _ Hi v j ltac:(by left)) as [? _]. lia.
Qed.

(** The edges of the last node are visited, from its edge [j] on. *)
Lemma visit_spec v j cs (st : Search) :
  inv ((v, j) :: cs) st.(t_nodes) st.(t_scc_id) st.(t_scc_stack) st.(t_discovered) ->
  keyed st.(t_nodes) -> st.(t_recursion_stack) = cs -> Forall (fun e => 1 <= e.2) cs ->
  looked st.(t_nodes) st.(t_next_v) None ->
  goes_on (2 * unseen st.(t_nodes) + length cs + 1)
    (let! node := index_slice st.(t_nodes) v in
     let! cfg_node := get_node cfg node.(ns_cfg_node) in
     let! (nodes, found) := visit_edges cfg v (drop (Z.to_nat j) cfg_node.(cn_destinations)) j st.(t_nodes) in
     match found with
     | Some (j, w) =>
         Ret (true, mkSearch nodes st.(t_scc_id) st.(t_scc_stack) st.(t_discovered) st.(t_next_v)
                      ((w, 0) :: (v, j) :: st.(t_recursion_stack)))
     | None =>
         finish v (mkSearch nodes st.(t_scc_id) st.(t_scc_stack) st.(t_discovered) st.(t_next_v)
                     st.(t_recursion_stack))
     end).
Proof.
  intros Hi Hk Hcs Hpos Hlook. pose proof (i_open _ _ _ _ _ Hi v j ltac:(by left)) as [Hvs Hj].
  assert (Hv : vertex v) by (by apply (stack_vertex _ _ _ _ _ _ Hi)).
  rewrite index_node by (by rewrite (i_len _ _ _ _ _ Hi)). cbn [exec_bind].
  destruct (Hcfg v Hv) as (n & Hn & Hd). unfold get_node at 1. rewrite (Hk v Hv), Hn. cbn [expect exec_bind].
  destruct (visit_edges_spec v (drop (Z.to_nat j) n.(cn_destinations)) cs j _ _ _ _ Hi Hk)
    as (nodes' & found & -> & Hk' & Hdisc & Hf); [by apply Forall2_drop|]. cbn [exec_bind].
  assert (Hlook' : looked nodes' st.(t_next_v) None).
  { apply (looked_mono st.(t_nodes)); [|done]. intros u Hu. unfold seen. by rewrite Hdisc. }
  destruct found as [[k w]|].
  - destruct Hf as (Hk1 & Hi' & Hs & Hnew). eexists true, _. split; [done|]. eexists. split.
    + apply (head_enter _ w ((v, k) :: cs)); cbn; [by rewrite Hcs| |by constructor|done|done].
      replace k with (k - 1 + 1) by lia. apply enter_edge; [done|lia|done|done].
    + cbn. rewrite (unseen_eq _ _ _ _ _ _ _ _ _ Hi Hi'). lia.
  - rewrite <-(unseen_eq _ _ _ _ _ _ _ _ _ Hi Hf). by apply finish_spec.
Qed.

Lemma search_step_spec (st : Search) (m : nat) : at_head st m ->
  exists m', (S m' <= m)%nat /\ goes_on m' (search_step cfg st).
Proof.
  intros [w cs Hst He Hpos Hk Hlook|v j cs Hst Hi Hpos Hk Hlook]; unfold search_step; rewrite Hst; cbn [t_nodes t_scc_id t_scc_stack t_discovered t_next_v t_recursion_stack].
  - destruct (enter_inv _ _ _ _ _ _ He) as (Hw & Hlen & Hd & Hi & Hun & Hseen).
    unfold discover. cbn [t_nodes t_scc_id t_scc_stack t_discovered t_next_v t_recursion_stack].
    pose proof (i_counts _ _ _ _ _ Hi) as (Hc0 & Hcd & _).  pose proof (zlen_nonneg (w :: st.(t_scc_stack))).
    change (0 =? 0) with true. rewrite update_at_eq by (by rewrite Hlen). cbn [exec_bind].
    rewrite u64_add_small by (unfold u64_max in HN; lia). cbn [exec_bind].
    eexists. split; [|eapply (visit_spec w 0 cs); [exact Hi|by apply keyed_insert|done|done|]].
    + cbn. unfold discovered_node in Hun. lia.
    + destruct Hlook as [Hn Hl]. split; [done|]. cbn. intros u Hu. left.
      apply Hseen; [unfold vertex; lia|]. destruct (Hl u Hu) as [?|Hp]; [by right|].
      case_decide; [left; congruence|done].
  - assert (Hj : 1 <= j) by (by apply Forall_cons in Hpos as [? _]).
    rewrite (proj2 (Z.eqb_neq j 0)) by lia. cbn [exec_bind].
    eexists. split; [|eapply (visit_spec v j cs); [exact Hi|done|done|by apply Forall_cons in Hpos as [_ ?]|done]].
    cbn. lia.
Qed.

(** The loop ends, and then every node has its component. *)
Lemma search_spec (fuel : nat) : forall st m, at_head st m -> (m < fuel)%nat ->
  exists st' c d, search cfg fuel st = Ret st' /\ finished st'.(t_nodes) c d.
Proof.
  induction fuel as [|fuel IH]; intros st m Hst Hm; [lia|].
  destruct (search_step_spec st m Hst) as (m' & Hm' & b & st' & E & Hb). cbn [search]. rewrite E. cbn [exec_bind].
  destruct b; [|destruct Hb as (c & d & ?); eauto]. destruct Hb as (m'' & Hst' & Hm''). apply (IH st' m'' Hst'). lia.
Qed.
End Program.
End Graph.
