(* ===== verification/TarjanCfg.v ===== *)
(** The components of the control-flow graph and its order are right, and every node can be
    reached from the super root (src/static_analysis.rs, [control_flow_graph_tarjan]). *)
From stdpp Require Import sorting relations.
From S2P Require Import Prelude Text Error Ebpf Program Executable Cfg StaticAnalysis Tarjan TarjanProof.
Open Scope list_scope.

(** * The graph of the nodes *)

Section Graph.
Context (cfg : CfgNodes).

Definition cfg_edge (a b : Z) : Prop := exists n, cfg !! a = Some n /\ b ∈ n.(cn_destinations).
Definition cfg_reach : relation Z := rtc cfg_edge.

(** Edges lead to nodes, and the sources of a node are the nodes with an edge to it. *)
Record cfg_ok : Prop := {
  ok_closed : forall a b, cfg_edge a b -> is_Some (cfg !! b);
  ok_sources : forall a b n, cfg !! b = Some n -> (a ∈ n.(cn_sources) <-> cfg_edge a b);
}.

(** Sizes of vectors. *)
Record cfg_small : Prop := {
  small_nodes : Z.of_nat (size cfg) < u64_max;
  small_edges : forall a n, cfg !! a = Some n -> zlen n.(cn_destinations) < 2 ^ 63;
}.
End Graph.

(** * Numbers of nodes *)

Lemma sorted_keys_zlen (cfg : CfgNodes) : zlen (sorted_keys cfg) = Z.of_nat (size cfg).
Proof. unfold zlen, sorted_keys, entries. by rewrite length_fmap, merge_sort_Permutation, length_map_to_list. Qed.

Definition number_of (keys : list Z) (k : Z) : Z :=
  match list_find (k =.) keys with Some (i, _) => Z.of_nat i | None => 0 end.
Definition key_of (keys : list Z) (v : Z) : Z := default 0 (keys !! Z.to_nat v).

Lemma number_of_key (keys : list Z) (k : Z) :
  k ∈ keys -> 0 <= number_of keys k < zlen keys /\ key_of keys (number_of keys k) = k.
Proof.
  intros Hk. unfold number_of. destruct (list_find_elem_of (k =.) keys k Hk eq_refl) as [[i x] E]. rewrite E.
  apply list_find_Some in E as (E & -> & _). unfold key_of. rewrite Nat2Z.id, E.
  apply lookup_lt_Some in E. unfold zlen. cbn. lia.
Qed.

Lemma key_of_number (keys : list Z) (v : Z) : NoDup keys -> 0 <= v < zlen keys ->
  key_of keys v ∈ keys /\ number_of keys (key_of keys v) = v.
Proof.
  intros HN Hv. destruct (lookup_lt_is_Some_2 keys (Z.to_nat v)) as [k E]; [unfold zlen in Hv; lia|].
  unfold key_of. rewrite E. cbn. pose proof (list_elem_of_lookup_2 _ _ _ E) as Hk. split; [done|].
  destruct (number_of_key keys k Hk) as [Hr He]. unfold key_of in He.
  destruct (lookup_lt_is_Some_2 keys (Z.to_nat (number_of keys k))) as [k' E']; [unfold zlen in Hr; lia|].
  rewrite E' in He. cbn in He. subst k'. pose proof (NoDup_lookup _ _ _ _ HN E E'). lia.
Qed.

Definition number_step (nodes : CfgNodes) (vk : Z * Z) : CfgNodes :=
  match nodes !! vk.2 with
  | Some n => <[vk.2 := set_topo_index (mkTopo vk.1 n.(cn_topo_index).(discovery)) n]> nodes
  | None => nodes
  end.

Lemma number_fold (l : list Z) : forall (g : nat -> Z) (m : CfgNodes) (k : Z), NoDup l ->
  fold_left number_step (imap (fun i k => (g i, k)) l) m !! k =
  match list_find (k =.) l with
  | Some (i, _) => (fun n => set_topo_index (mkTopo (g i) n.(cn_topo_index).(discovery)) n) <$> m !! k
  | None => m !! k
  end.
Proof.
  induction l as [|a l IH]; intros g m k HN; [done|]. apply NoDup_cons in HN as [Ha HN].
  rewrite imap_cons. cbn [fold_left list_find].
  rewrite (imap_ext _ (fun i k => ((g ∘ S) i, k))) by done. rewrite IH by done. unfold number_step at 1 2. cbn [fst snd].
  case_decide as E.
  - subst a. destruct (list_find (k =.) l) as [[i x]|] eqn:Ef.
    { apply list_find_Some in Ef as (Ef & -> & _). by apply list_elem_of_lookup_2 in Ef. }
    destruct (m !! k) as [n|] eqn:Em; [by rewrite lookup_insert_eq|by rewrite Em].
  - assert (Hk : (match m !! a with
      | Some n => <[a := set_topo_index (mkTopo (g 0%nat) n.(cn_topo_index).(discovery)) n]> m
      | None => m end) !! k = m !! k) by (destruct (m !! a); [by rewrite lookup_insert_ne|done]).
    rewrite Hk. by destruct (list_find (k =.) l) as [[i x]|].
Qed.

Lemma number_nodes_fst (cfg : CfgNodes) (k : Z) :
  (number_nodes cfg).1 !! k =
  (fun n => set_topo_index (mkTopo (number_of (sorted_keys cfg) k) n.(cn_topo_index).(discovery)) n) <$> cfg !! k.
Proof.
  transitivity (fold_left number_step (imap (fun i k => (Z.of_nat i, k)) (sorted_keys cfg)) cfg !! k).
  { unfold number_nodes. cbn. f_equal. generalize (imap (fun i k => (Z.of_nat i, k)) (sorted_keys cfg)) as l.
    intros l. generalize cfg as m. induction l as [|[v a] l IH]; intros m; [done|]. cbn. apply IH. }
  rewrite number_fold by apply sorted_keys_NoDup. unfold number_of.
  destruct (list_find (k =.) (sorted_keys cfg)) as [[i x]|] eqn:E; [done|].
  destruct (cfg !! k) as [n|] eqn:Ek; [|done]. exfalso.
  assert (Hk : k ∈ sorted_keys cfg) by (apply sorted_keys_elem; by exists n).
  destruct (list_find_elem_of (k =.) _ k Hk eq_refl) as [? ?]. congruence.
Qed.

(** * The search on the numbers *)

Section Numbered.
Context (cfg : CfgNodes) (Hok : cfg_ok cfg) (Hsmall : cfg_small cfg).
Let keys : list Z := sorted_keys cfg.
Let N : Z := zlen keys.

Definition succs (v : Z) : list Z :=
  match cfg !! key_of keys v with Some n => number_of keys <$> n.(cn_destinations) | None => [] end.

Lemma succs_vertex (v w : Z) : 0 <= v < N -> w ∈ succs v -> 0 <= w < N.
Proof.
  intros Hv Hw. unfold succs in Hw. destruct (cfg !! key_of keys v) as [n|] eqn:E; [|by apply not_elem_of_nil in Hw].
  apply list_elem_of_fmap in Hw as (b & -> & Hb). apply number_of_key, sorted_keys_elem.
  apply (ok_closed _ Hok (key_of keys v)). by exists n.
Qed.

Lemma succs_small (v : Z) : zlen (succs v) < 2 ^ 63.
Proof.
  unfold succs. destruct (cfg !! key_of keys v) as [n|] eqn:E; [|done].
  unfold zlen. rewrite length_fmap. apply (small_edges _ Hsmall _ _ E).
Qed.

Lemma keys_length : N = Z.of_nat (size cfg).
Proof.
  apply sorted_keys_zlen.
Qed.

Lemma numbered_edge (a b : Z) : is_Some (cfg !! a) -> is_Some (cfg !! b) ->
  (edge N succs (number_of keys a) (number_of keys b) <-> cfg_edge cfg a b).
Proof.
  intros Ha Hb. pose proof (proj2 (sorted_keys_elem cfg a) Ha) as Ka. pose proof (proj2 (sorted_keys_elem cfg b) Hb) as Kb.
  destruct (number_of_key keys a Ka) as [Ra Ea], (number_of_key keys b Kb) as [Rb Eb].
  unfold edge, succs, cfg_edge. rewrite Ea. destruct Ha as [n Hn]. rewrite Hn. rewrite list_elem_of_fmap. split.
  - intros (_ & b' & Hbb & Hin). exists n. split; [done|].
    assert (is_Some (cfg !! b')) as Hb' by (apply (ok_closed _ Hok a); by exists n).
    destruct (number_of_key keys b') as [_ Eb']; [by apply sorted_keys_elem|]. rewrite <-Eb, Hbb, Eb'. done.
  - intros (n' & [= ->] & Hin). split; [done|]. by exists b.
Qed.

Lemma numbered_reach (a b : Z) : is_Some (cfg !! a) -> is_Some (cfg !! b) ->
  (reach N succs (number_of keys a) (number_of keys b) <-> cfg_reach cfg a b).
Proof.
  intros Ha Hb. split.
  - intros Hr. remember (number_of keys a) as v eqn:Ev. remember (number_of keys b) as w eqn:Ew.
    revert a Ha Ev. induction Hr as [v|v u w Hvu Hr IH]; intros a Ha ->.
    + assert (a = b) as ->; [|done]. rewrite <-(proj2 (number_of_key keys a (proj2 (sorted_keys_elem _ _) Ha))), Ew.
      apply number_of_key. by apply sorted_keys_elem.
    + destruct (key_of_number keys u) as [Hu Eu]; [apply sorted_keys_NoDup|by apply (edge_vertex N succs succs_vertex _ _ Hvu)|].
      assert (Hu' : is_Some (cfg !! key_of keys u)) by (by apply sorted_keys_elem).
      eapply rtc_l; [|by apply (IH Ew (key_of keys u))]. rewrite <-Eu in Hvu. by apply numbered_edge.
  - induction 1 as [a|a c b Hac Hr IH]; [reflexivity|]. assert (Hc : is_Some (cfg !! c)) by (by apply (ok_closed _ Hok a)).
    eapply rtc_l; [by apply numbered_edge|]. by apply IH.
Qed.

Lemma numbered_cfg (v : Z) : vertex N v -> exists n, (number_nodes cfg).1 !! key_of keys v = Some n /\
  Forall2 (leads_to (number_nodes cfg).1) n.(cn_destinations) (succs v).
Proof.
  intros Hv. destruct (key_of_number keys v (sorted_keys_NoDup _) Hv) as [Hk _].
  apply sorted_keys_elem in Hk as [n Hn]. unfold succs. rewrite number_nodes_fst, Hn. eexists. split; [done|].
  cbn [set_topo_index cn_destinations]. apply Forall2_fmap_r, Forall_Forall2_diag, Forall_forall. intros b Hb. unfold leads_to.
  rewrite number_nodes_fst. destruct (ok_closed _ Hok (key_of keys v) b) as [m Hm]; [by exists n|]. rewrite Hm.
  eexists. split; done.
Qed.

Let fresh : list NodeState := (number_nodes cfg).2.

Lemma fresh_at (v : Z) : vertex N v -> node_at fresh v = mkNodeState (key_of keys v) u64_max u64_max u64_max false.
Proof.
  intros Hv. unfold node_at, fresh, number_nodes, key_of. cbn [snd]. rewrite list_lookup_fmap. fold keys.
  destruct (keys !! Z.to_nat v) eqn:E; [done|]. apply lookup_ge_None_1 in E. unfold vertex, N, zlen in Hv. lia.
Qed.

Lemma fresh_unseen : unseen N fresh = length keys.
Proof.
  unfold unseen. transitivity (length (seqZ 0 N)); [|rewrite length_seqZ; unfold N, zlen; lia]. f_equal.
  assert (Hall : forall v, v ∈ seqZ 0 N -> disc fresh v = u64_max).
  { intros v Hv%elem_of_seqZ. unfold disc. rewrite fresh_at by (unfold vertex; lia). done. }
  induction (seqZ 0 N) as [|v l IH]; [done|]. rewrite filter_cons_True by (apply Hall; by left).
  f_equal. apply IH. intros u Hu. apply Hall. by right.
Qed.

(** Before the search. *)
Lemma fresh_inv : inv N succs [] fresh 0 [] 0.
Proof.
  assert (Hs : forall v, vertex N v -> seen fresh v -> False).
  { intros v Hv. unfold seen, disc. by rewrite fresh_at. }
  split; try (by constructor); try (intros ? ? []%not_elem_of_nil).
  all: try (intros u Hu Hsu; exfalso; by apply (Hs u)).
  all: try (intros u w Hsu _ He; exfalso; apply (Hs u); [apply He|done]).
  all: try (intros u w Hu _ Hsu; exfalso; by apply (Hs u)).
  all: try (intros u Hu; by destruct (not_elem_of_nil u)).
  - unfold fresh, number_nodes. cbn. unfold zlen. by rewrite length_fmap.
  - rewrite fresh_unseen. unfold N, zlen. cbn. lia.
  - intros v Hv. unfold on_stack. rewrite fresh_at by done. cbn. split; [done|by intros ?%not_elem_of_nil].
  - intros u i w Hu Hsu. exfalso. by apply (Hs u).
  - intros u i w g k Hu. by apply not_elem_of_nil in Hu.
Qed.

Lemma search_fresh : cfg <> ∅ ->
  exists st c d, search (number_nodes cfg).1 (S (2 * length fresh)) (mkSearch fresh 0 [] 0 1 [(0, 0)]) = Ret st /\
    finished N succs (key_of keys) st.(t_nodes) c d.
Proof.
  intros Hne. assert (HN : 0 < N) by (rewrite keys_length; apply map_size_non_empty_iff in Hne; lia).
  apply (search_spec N succs succs_vertex succs_small ltac:(rewrite keys_length; apply Hsmall) _ _ numbered_cfg _ _ (2 * unseen N fresh + length (@nil (Z * Z)))).
  - apply (head_enter _ _ _ (mkSearch fresh 0 [] 0 1 [(0, 0)]) 0 []); cbn; [done| |done| |].
    + apply enter_root; [apply fresh_inv|unfold vertex; lia|]. unfold disc. rewrite fresh_at; [done|unfold vertex; lia].
    + intros v Hv. by rewrite fresh_at.
    + split; [lia|]. intros u Hu. right. f_equal. lia.
  - rewrite fresh_unseen. unfold fresh, number_nodes. cbn. rewrite length_fmap. fold keys. lia.
Qed.
End Numbered.

(** * The topological indices *)

Lemma write_topo_spec (nodes : list NodeState) : forall m : CfgNodes, NoDup (ns_cfg_node <$> nodes) ->
  (forall n, n ∈ nodes -> is_Some (m !! n.(ns_cfg_node))) ->
  exists m', write_topo_index nodes m = Ret m' /\
    (forall n, n ∈ nodes -> m' !! n.(ns_cfg_node) =
      set_topo_index (mkTopo n.(ns_scc_id) n.(ns_discovery)) <$> m !! n.(ns_cfg_node)) /\
    (forall k, k ∉ ns_cfg_node <$> nodes -> m' !! k = m !! k).
Proof.
  induction nodes as [|a nodes IH]; intros m HN Hm.
  - exists m. split_and!; [done| |done]. by intros n ?%not_elem_of_nil.
  - cbn [fmap list_fmap] in HN. apply NoDup_cons in HN as [Ha HN]. unfold write_topo_index. cbn [each_state].
    unfold update_node, get_node. destruct (Hm a ltac:(by left)) as [na Hna]. rewrite Hna. cbn [expect exec_bind].
    destruct (IH (<[a.(ns_cfg_node) := set_topo_index (mkTopo a.(ns_scc_id) a.(ns_discovery)) na]> m)) as (m' & E & Hin & Hout); [done| |].
    { intros n Hn. apply lookup_insert_is_Some'. right. apply Hm. by right. }
    exists m'. split_and!; [done|..].
    + intros n [->|Hn]%elem_of_cons; [by rewrite Hout, Hna, lookup_insert_eq|]. rewrite Hin by done.
      rewrite lookup_insert_ne; [done|]. intros He. apply Ha. rewrite He. by apply list_elem_of_fmap_2.
    + intros k [Hk Hk']%not_elem_of_cons. rewrite Hout by done. by rewrite lookup_insert_ne.
Qed.

(** [cfg'] is [cfg] with components: classes of mutual reachability, numbered against the
    direction of the edges. *)
Record topological (cfg cfg' : CfgNodes) : Prop := {
  to_nodes : forall k, cfg' !! k = set_topo_index (topo_of cfg' k) <$> cfg !! k;
  to_scc : forall a b, is_Some (cfg !! a) -> is_Some (cfg !! b) ->
    ((topo_of cfg' a).(scc_id) = (topo_of cfg' b).(scc_id) <-> cfg_reach cfg a b /\ cfg_reach cfg b a);
  to_edges : forall a b, cfg_edge cfg a b -> (topo_of cfg' b).(scc_id) <= (topo_of cfg' a).(scc_id);
  to_inj : forall a b, is_Some (cfg !! a) -> is_Some (cfg !! b) -> topo_of cfg' a = topo_of cfg' b -> a = b;
  to_bound : forall k, is_Some (cfg !! k) -> (topo_of cfg' k).(scc_id) < zlen (sorted_keys cfg);
}.

Section Written.
Context (cfg : CfgNodes) (Hok : cfg_ok cfg) (Hsmall : cfg_small cfg).
Let keys : list Z := sorted_keys cfg.
Let N : Z := zlen keys.
Context (nodes : list NodeState) (c d : Z) (Hf : finished N (succs cfg) (key_of keys) nodes c d).

Lemma finished_keys : ns_cfg_node <$> nodes = keys.
Proof.
  destruct Hf as [Hi Hk _]. pose proof (i_len _ _ _ _ _ _ _ Hi) as Hl. apply list_eq. intros i. rewrite list_lookup_fmap.
  destruct (decide (i < length keys)%nat) as [Hlt|Hge].
  - specialize (Hk (Z.of_nat i) ltac:(unfold vertex, N, zlen; lia)). unfold node_at, key_of in Hk. rewrite Nat2Z.id in Hk.
    destruct (lookup_lt_is_Some_2 keys i Hlt) as [k Ek].
    destruct (lookup_lt_is_Some_2 nodes i) as [n En]; [unfold N, zlen in Hl; lia|].
    rewrite Ek, En in *. cbn in *. by rewrite Hk.
  - rewrite (proj2 (lookup_ge_None keys i)) by lia. rewrite (proj2 (lookup_ge_None nodes i)); [done|].
    unfold N, zlen in Hl. lia.
Qed.

Lemma finished_node (k : Z) : k ∈ keys ->
  node_at nodes (number_of keys k) ∈ nodes /\ (node_at nodes (number_of keys k)).(ns_cfg_node) = k.
Proof.
  intros Hk. destruct (number_of_key keys k Hk) as [Hr He]. destruct Hf as [Hi Hkey _]. pose proof (i_len _ _ _ _ _ _ _ Hi) as Hl.
  split; [|by rewrite Hkey, He]. unfold node_at.
  destruct (lookup_lt_is_Some_2 nodes (Z.to_nat (number_of keys k))) as [n En]; [unfold N, zlen in *; lia|].
  rewrite En. cbn. by apply list_elem_of_lookup_2 in En.
Qed.

Lemma written_topological : exists cfg', write_topo_index nodes (number_nodes cfg).1 = Ret cfg' /\ topological cfg cfg'.
Proof.
  destruct (write_topo_spec nodes (number_nodes cfg).1) as (cfg' & E & Hin & Hout).
  { rewrite finished_keys. apply sorted_keys_NoDup. }
  { intros n Hn. apply (list_elem_of_fmap_2 ns_cfg_node) in Hn. rewrite finished_keys in Hn. apply sorted_keys_elem in Hn.
    rewrite number_nodes_fst. by apply fmap_is_Some. }
  assert (Hat : forall k n, cfg !! k = Some n -> cfg' !! k =
    Some (set_topo_index (mkTopo (comp nodes (number_of keys k)) (disc nodes (number_of keys k))) n)).
  { intros k n Hk. destruct (finished_node k) as [Hn He]; [apply sorted_keys_elem; by exists n|].
    specialize (Hin _ Hn). rewrite He, number_nodes_fst, Hk in Hin. done. }
  assert (Htopo : forall k, is_Some (cfg !! k) ->
    topo_of cfg' k = mkTopo (comp nodes (number_of keys k)) (disc nodes (number_of keys k))).
  { intros k [n Hk]. unfold topo_of. by rewrite (Hat k n Hk). }
  assert (Hkey : forall k, is_Some (cfg !! k) -> vertex N (number_of keys k) /\ key_of keys (number_of keys k) = k).
  { intros k Hk. by apply number_of_key, sorted_keys_elem. }
  destruct Hf as [Hi _ Hseen]. exists cfg'. split; [done|]. split.
  - intros k. destruct (cfg !! k) as [n|] eqn:Ek; [rewrite Htopo by done; by apply Hat|].
    rewrite Hout; [by rewrite number_nodes_fst, Ek|]. rewrite finished_keys. intros Hk%sorted_keys_elem. rewrite Ek in Hk.
    by destruct Hk.
  - intros a b Ha Hb. rewrite !Htopo by done. cbn. destruct (Hkey a Ha) as [Va _], (Hkey b Hb) as [Vb _].
    rewrite <-!numbered_reach by done. by apply (i_same _ _ _ _ _ _ _ Hi); auto using not_elem_of_nil.
  - intros a b Hab. pose proof (ok_closed _ Hok a b Hab) as Hb. assert (Ha : is_Some (cfg !! a)) by (destruct Hab as (n & ? & _); by exists n).
    rewrite !Htopo by done. cbn. apply (i_topo _ _ _ _ _ _ _ Hi); [apply Hseen, Hkey, Ha|by apply not_elem_of_nil|].
    by apply numbered_edge.
  - intros a b Ha Hb. rewrite !Htopo by done. intros [= Hc Hd]. destruct (Hkey a Ha) as [Va Ea], (Hkey b Hb) as [Vb Eb].
    rewrite <-Ea, <-Eb. f_equal. apply (i_index _ _ _ _ _ _ _ Hi); auto using not_elem_of_nil.
  - intros k Hk. rewrite Htopo by done. cbn. destruct (Hkey k Hk) as [Vk _]. pose proof (i_counts _ _ _ _ _ _ _ Hi) as (_ & Hc & Hd).
    pose proof (i_comp _ _ _ _ _ _ _ Hi _ Vk (Hseen _ Vk) (not_elem_of_nil _)) as [? _]. unfold N in Hd.
    change (zlen keys) with (zlen (sorted_keys cfg)) in Hd. pose proof (zlen_nonneg (@nil Z)). lia.
Qed.
End Written.

(** * The order *)

Lemma topo_ge_iff (cfg : CfgNodes) (a b : Z) : topo_ge cfg a b <->
  let ta := topo_of cfg a in let tb := topo_of cfg b in
  tb.(scc_id) < ta.(scc_id) \/ tb.(scc_id) = ta.(scc_id) /\ tb.(discovery) <= ta.(discovery).
Proof.
  unfold topo_ge, topo_cmp. cbn. destruct (Z.compare_spec (scc_id (topo_of cfg b)) (scc_id (topo_of cfg a))).
  - rewrite Z.compare_le_iff. lia.
  - split; [lia|done].
  - split; [done|lia].
Qed.

Lemma order_permutation (cfg : CfgNodes) : sort_topologically cfg ≡ₚ sorted_keys cfg.
Proof. apply merge_sort_Permutation. Qed.

Lemma order_sorted (cfg : CfgNodes) : StronglySorted (topo_ge cfg) (sort_topologically cfg).
Proof.
  apply StronglySorted_merge_sort.
  - intros a b c. rewrite !topo_ge_iff. cbn. lia.
  - intros a b. rewrite !topo_ge_iff. cbn. lia.
Qed.

(** * The super root *)

Section Roots.
Context (cfg : CfgNodes).
Let scc (k : Z) : Z := (topo_of cfg k).(scc_id).
Context (Hsources : forall k n s, cfg !! k = Some n -> s ∈ n.(cn_sources) -> is_Some (cfg !! s)).

(** A node with a source in another component. *)
Definition external (k : Z) : Prop := exists n s, cfg !! k = Some n /\ s ∈ n.(cn_sources) /\ scc s <> scc k.

Lemma topo_of_node (k : Z) (n : CfgNode) : cfg !! k = Some n -> n.(cn_topo_index).(scc_id) = scc k.
Proof. intros Hk. unfold scc, topo_of. by rewrite Hk. Qed.

Lemma any_external_spec (k : Z) (sources : list Z) : (forall s, s ∈ sources -> is_Some (cfg !! s)) ->
  exists b, any_external cfg (scc k) sources = Ret b /\ (b = true <-> exists s, s ∈ sources /\ scc s <> scc k).
Proof.
  induction sources as [|s sources IH]; intros Hs; cbn [any_external].
  - exists false. split; [done|]. split; [done|]. by intros (s & ?%not_elem_of_nil & _).
  - unfold get_node. destruct (Hs s ltac:(by left)) as [n Hn]. rewrite Hn. cbn [expect exec_bind].
    rewrite (topo_of_node s n Hn). destruct (Z.eqb_spec (scc s) (scc k)) as [He|Hne].
    + destruct IH as (b & -> & Hb); [intros x Hx; apply Hs; by right|]. exists b. split; [done|]. rewrite Hb.
      split; intros (x & Hx & Hxk); exists x; [split; [by right|done]|].
      apply elem_of_cons in Hx as [->|Hx]; [done|by split].
    + exists true. split; [done|]. split; [|done]. intros _. exists s. split; [by left|done].
Qed.

(** The first of the nodes [l] in a component without edges into it. *)
Definition is_root (super_root : Z) (l : list Z) (f : Z) : Prop :=
  f ∈ l /\ f <> super_root /\ forall x, x ∈ l -> scc x = scc f -> topo_ge cfg f x /\ ~ external x.

Context (Hinj : forall a b, is_Some (cfg !! a) -> is_Some (cfg !! b) -> topo_of cfg a = topo_of cfg b -> a = b).

(** Roots of an order that starts with one component, [run]. *)
Lemma is_root_run (super_root : Z) (first : Z) (run order : list Z) (f : Z) :
  StronglySorted (topo_ge cfg) (first :: run ++ order) ->
  (forall x, x ∈ first :: run ++ order -> is_Some (cfg !! x)) ->
  (forall x, x ∈ run -> scc x = scc first) -> (forall x, x ∈ order -> scc x < scc first) ->
  (is_root super_root (first :: run ++ order) f <->
   f = first /\ first <> super_root /\ (forall x, x ∈ first :: run -> ~ external x) \/ is_root super_root order f).
Proof.
  intros HS Hk Hrun Hord. apply StronglySorted_inv in HS as [HS HF]. rewrite Forall_forall in HF.
  assert (Hall : forall x, x ∈ first :: run ++ order <-> x = first \/ x ∈ run \/ x ∈ order).
  { intros x. by rewrite elem_of_cons, elem_of_app. }
  split.
  - intros (Hf & Hsr & Hx). apply Hall in Hf. destruct (decide (f ∈ order)) as [Hfo|Hfo].
    + right. split_and!; [done|done|]. intros x Hxo. apply Hx, Hall. tauto.
    + left. assert (Hscc : scc f = scc first) by (destruct Hf as [->|[Hf|Hf]]; [done|by apply Hrun|done]).
      assert (f = first) as ->.
      { apply Hinj; [apply Hk, Hall; tauto|apply Hk; by left|].
        destruct (Hx first ltac:(by left) ltac:(done)) as [Hge _].
        destruct Hf as [->|[Hf|Hf]]; [done| |done]. specialize (HF f ltac:(apply elem_of_app; by left)).
        rewrite topo_ge_iff in Hge, HF. unfold scc in Hscc. destruct (topo_of cfg f), (topo_of cfg first). cbn in *. f_equal; lia. }
      split_and!; [done|done|]. intros x Hxr. apply Hx; [apply Hall; rewrite elem_of_cons in Hxr; tauto|].
      apply elem_of_cons in Hxr as [->|Hxr]; [done|by apply Hrun].
  - intros [(-> & Hsr & Hx)|(Hf & Hsr & Hx)].
    + split_and!; [by left|done|]. intros x [->|[Hxr|Hxo]]%Hall Hs.
      * split; [apply topo_ge_iff; cbn; lia|apply Hx; by left].
      * split; [apply HF, elem_of_app; by left|apply Hx; by right].
      * specialize (Hord x Hxo). lia.
    + split_and!; [apply Hall; tauto|done|]. intros x Hxa Hs. apply Hx; [|done]. specialize (Hord f Hf).
      apply Hall in Hxa as [->|[Hxr%Hrun|?]]; [lia|lia|done].
Qed.

(** Whether [v] is the last node of its component. *)
Lemma is_last_spec (v : Z) (order : list Z) :
  StronglySorted (topo_ge cfg) (v :: order) -> (forall x, x ∈ order -> is_Some (cfg !! x)) ->
  exists last, match order with
    | next :: _ => let! n := get_node cfg next in Ret (negb (n.(cn_topo_index).(scc_id) =? scc v))
    | [] => Ret true
    end = @Ret EbpfError bool last /\
    if last then forall x, x ∈ order -> scc x < scc v else exists y, head order = Some y /\ scc v = scc y.
Proof.
  intros HS Hk. destruct order as [|y order].
  { exists true. split; [done|]. by intros x ?%not_elem_of_nil. }
  destruct (Hk y ltac:(by left)) as [n Hn]. unfold get_node. rewrite Hn. cbn [expect exec_bind]. rewrite (topo_of_node y n Hn).
  eexists. split; [done|]. apply StronglySorted_inv in HS as [HS HF]. apply Forall_cons in HF as [Hy _].
  apply StronglySorted_inv in HS as [_ HF]. rewrite Forall_forall in HF.
  destruct (Z.eqb_spec (scc y) (scc v)) as [He|Hne]; cbn [negb]; [by exists y|].
  rewrite topo_ge_iff in Hy. unfold scc in *. cbn in Hy.
  intros x [->|Hx]%elem_of_cons; [lia|]. specialize (HF x Hx). rewrite topo_ge_iff in HF. cbn in HF. lia.
Qed.

Lemma external_next (run : list Z) (ext b : bool) (v : Z) (n : CfgNode) : cfg !! v = Some n ->
  (ext = true <-> exists x, x ∈ run /\ external x) -> (b = true <-> exists s, s ∈ n.(cn_sources) /\ scc s <> scc v) ->
  (ext || b = true <-> exists x, x ∈ run ++ [v] /\ external x).
Proof.
  intros Hn Hext Hb. rewrite orb_true_iff, Hext, Hb. split.
  - intros [(x & Hx & He)|(s & Hs & He)]; [exists x; rewrite elem_of_app; tauto|].
    exists v. rewrite elem_of_app, elem_of_cons. split; [tauto|]. by exists n, s.
  - intros (x & [Hx| ->%list_elem_of_singleton]%elem_of_app & He); [left; by exists x|right].
    destruct He as (n' & s & Hn' & Hs & Hne). exists s. split; [congruence|done].
Qed.

(** The end of a component: its first node becomes a destination when it has no source outside. *)
Lemma root_destinations_close (super_root first : Z) (run order dests : list Z) (ext : bool) :
  StronglySorted (topo_ge cfg) (first :: run ++ order) -> (forall x, x ∈ first :: run ++ order -> is_Some (cfg !! x)) ->
  (forall x, x ∈ run -> scc x = scc first) -> (forall x, x ∈ order -> scc x < scc first) ->
  (ext = true <-> exists x, x ∈ first :: run /\ external x) ->
  (forall dests, exists dests', root_destinations cfg super_root order (head order) false dests = Ret dests' /\
    forall f, f ∈ dests' <-> f ∈ dests \/ is_root super_root order f) ->
  exists dests', (let! dests :=
      if negb ext && negb (bool_decide (Some first = Some super_root)) then
        let! first := expect UnwrapNone (Some first) in Ret (dests ++ [first])
      else Ret dests in
    root_destinations cfg super_root order (head order) false dests) = Ret dests' /\
    forall f, f ∈ dests' <-> f ∈ dests \/ is_root super_root (first :: run ++ order) f.
Proof.
  intros HS Hk Hrun Hord Hext Hrest. pose proof (fun f => is_root_run super_root first run order f HS Hk Hrun Hord) as Hroot.
  destruct ext; cbn [negb andb expect exec_bind].
  - destruct (Hrest dests) as (dests' & E & Hd). exists dests'. split; [done|]. intros f. rewrite Hd, Hroot.
    destruct (proj1 Hext eq_refl) as (x & Hx & He). split; [tauto|]. intros [?|[(_ & _ & Hno)|?]]; [tauto| |tauto].
    exfalso. by apply (Hno x).
  - assert (Hno : forall x, x ∈ first :: run -> ~ external x).
    { intros x Hx He. assert (false = true) by (apply Hext; by exists x). done. }
    case_bool_decide as Hsr; cbn [negb exec_bind].
    + destruct (Hrest dests) as (dests' & E & Hd). exists dests'. split; [done|]. intros f. rewrite Hd, Hroot.
      simplify_eq. tauto.
    + destruct (Hrest (dests ++ [first])) as (dests' & E & Hd). exists dests'. split; [done|]. intros f.
      rewrite Hd, Hroot, elem_of_app, list_elem_of_singleton. assert (first <> super_root) by congruence. tauto.
Qed.

(** [run] are the nodes of the component of which the order goes on. *)
Lemma root_destinations_spec (super_root : Z) (order : list Z) : forall run ext dests,
  StronglySorted (topo_ge cfg) (run ++ order) -> (forall x, x ∈ run ++ order -> is_Some (cfg !! x)) ->
  (forall x y, x ∈ run -> head order = Some y -> scc x = scc y) -> (order = [] -> run = []) ->
  (ext = true <-> exists x, x ∈ run /\ external x) ->
  exists dests', root_destinations cfg super_root order (head (run ++ order)) ext dests = Ret dests' /\
    forall f, f ∈ dests' <-> f ∈ dests \/ is_root super_root (run ++ order) f.
Proof.
  induction order as [|v order IH]; intros run ext dests HS Hk Hrun Hnil Hext.
  - rewrite Hnil by done. exists dests. split; [done|]. intros f. unfold is_root. cbn. pose proof (not_elem_of_nil f). tauto.
  - assert (Happ : run ++ v :: order = (run ++ [v]) ++ order) by (by rewrite <-app_assoc).
    cbn [root_destinations]. unfold get_node at 1. destruct (Hk v) as [n Hn]; [apply elem_of_app; right; by left|].
    rewrite Hn. cbn [expect exec_bind]. rewrite (topo_of_node v n Hn).
    destruct (any_external_spec v n.(cn_sources)) as (b & -> & Hb); [intros s; by apply (Hsources v)|]. cbn [exec_bind].
    pose proof (external_next run ext b v n Hn Hext Hb) as Hext'.
    destruct (is_last_spec v order) as (last & -> & Hlast); [by apply StronglySorted_app_1_r in HS| |].
    { intros x Hx. apply Hk, elem_of_app. right. by right. }
    cbn [exec_bind]. destruct last.
    2: { rewrite Happ. apply IH; [by rewrite <-Happ|by rewrite <-Happ| | |done].
      - destruct Hlast as (y' & Hy' & He). intros x y Hx Hy. assert (y = y') as -> by congruence.
        apply elem_of_app in Hx as [Hx| ->%list_elem_of_singleton]; [|done]. rewrite <-He. by apply Hrun.
      - intros ->. by destruct Hlast as (y & ? & _). }
    destruct (run ++ [v]) as [|first run'] eqn:Erun; [by destruct run|].
    assert (Hrunv : forall x, x ∈ first :: run' -> scc x = scc v).
    { rewrite <-Erun. intros x [Hx| ->%list_elem_of_singleton]%elem_of_app; [by apply Hrun|done]. }
    rewrite Happ in HS, Hk |- *. apply root_destinations_close; [exact HS|exact Hk| | |done|].
    + intros x Hx. rewrite (Hrunv x), (Hrunv first); [done|by left|by right].
    + intros x Hx. rewrite (Hrunv first) by (by left). by apply Hlast.
    + intros dests0. apply (IH [] false dests0); [|..|done|].
      * by apply (StronglySorted_app_1_r _ (first :: run')) in HS.
      * intros x Hx. apply Hk. apply elem_of_app. by right.
      * by intros x y ?%not_elem_of_nil.
      * split; [done|]. by intros (x & ?%not_elem_of_nil & _).
Qed.
End Roots.

(** * The whole pass *)

(** Nodes and edges stay; the destinations of the super root get it as a source. *)
Definition linked (super_root : Z) (dests : list Z) (cfg cfg' : CfgNodes) : Prop := forall k,
  match cfg !! k, cfg' !! k with
  | Some n, Some n' => n'.(cn_destinations) = n.(cn_destinations) /\ n'.(cn_topo_index) = n.(cn_topo_index) /\
      n'.(cn_instructions) = n.(cn_instructions) /\ n'.(cn_dominator_parent) = n.(cn_dominator_parent) /\
      n'.(cn_dominated_children) = n.(cn_dominated_children) /\
      forall s, s ∈ n'.(cn_sources) <-> s ∈ n.(cn_sources) \/ k ∈ dests /\ s = super_root
  | None, None => True
  | _, _ => False
  end.

Section Link.
Context `{Hash : Murmur3}.

Lemma link_roots_spec (super_root : Z) (dests : list Z) : forall functions cfg,
  (forall f, f ∈ dests -> is_Some (cfg !! f)) ->
  exists functions' cfg', link_roots super_root dests functions cfg = Ret (functions', cfg') /\
    linked super_root dests cfg cfg' /\ (forall f, is_Some (functions' !! f) <-> is_Some (functions !! f) \/ f ∈ dests).
Proof.
  induction dests as [|d dests IH]; intros functions cfg Hd.
  - exists functions, cfg. split; [done|]. split; [|intros f; pose proof (not_elem_of_nil f); tauto].
    intros k. destruct (cfg !! k) as [n|]; [|done]. split_and!; [done..|].
    intros s. pose proof (not_elem_of_nil k). tauto.
  - unfold link_roots. cbn [each_state]. unfold update_node, get_node. destruct (Hd d ltac:(by left)) as [n Hn].
    rewrite Hn. cbn [expect exec_bind].
    match goal with |- context [each_state dests _ (?f, ?c)] => destruct (IH f c) as (functions' & cfg' & E & Hl & Hf) end.
    { intros f Hf. apply lookup_insert_is_Some'. right. apply Hd. by right. }
    exists functions', cfg'. split; [exact E|]. split.
    + intros k. specialize (Hl k). destruct (decide (k = d)) as [->|Hne].
      * rewrite lookup_insert_eq in Hl. rewrite Hn. destruct (cfg' !! d) as [n'|]; [|done].
        destruct Hl as (-> & -> & -> & -> & -> & Hs). split_and!; [done..|]. intros s. rewrite Hs. cbn.
        rewrite elem_of_app, list_elem_of_singleton, elem_of_cons. tauto.
      * rewrite lookup_insert_ne in Hl by done. destruct (cfg !! k) as [nk|], (cfg' !! k) as [n'|]; try done.
        destruct Hl as (-> & -> & -> & -> & -> & Hs). split_and!; [done..|]. intros s. rewrite Hs, elem_of_cons. tauto.
    + intros f. rewrite Hf, elem_of_cons. destruct (functions !! d) as [fd|] eqn:Ed.
      * split; [tauto|]. intros [?|[->|?]]; [tauto|left; by exists fd|tauto].
      * rewrite lookup_insert_is_Some'. rewrite (eq_comm d f). tauto.
Qed.
End Link.

(** The graph after the pass. *)
Section Rooted.
Context (cfg indexed linked_cfg : CfgNodes) (super_root : Z) (dests : list Z) (range : InsnRange).
Context (Hok : cfg_ok cfg) (Htopo : topological cfg indexed) (Hnew : cfg !! super_root = None).
Context (Hlinked : linked super_root dests indexed linked_cfg).
Context (Hroots : forall f, f ∈ dests <-> is_root indexed super_root (sort_topologically indexed) f).
Let root : CfgNode := set_destinations dests (set_instructions range default_cfg_node).
Let cfg' : CfgNodes := <[super_root := root]> linked_cfg.

Lemma indexed_node (k : Z) (n : CfgNode) : cfg !! k = Some n ->
  exists n', cfg' !! k = Some n' /\ n'.(cn_destinations) = n.(cn_destinations) /\ n'.(cn_topo_index) = topo_of indexed k /\
    (n'.(cn_instructions) = n.(cn_instructions) /\ n'.(cn_dominator_parent) = n.(cn_dominator_parent) /\
     n'.(cn_dominated_children) = n.(cn_dominated_children)) /\
    forall s, s ∈ n'.(cn_sources) <-> s ∈ n.(cn_sources) \/ k ∈ dests /\ s = super_root.
Proof.
  intros Hk. assert (Hne : super_root <> k) by (intros ->; congruence). unfold cfg'. rewrite lookup_insert_ne by done.
  pose proof (to_nodes _ _ Htopo k) as E. rewrite Hk in E. specialize (Hlinked k). rewrite E in Hlinked.
  destruct (linked_cfg !! k) as [n'|]; [|done]. destruct Hlinked as (? & ? & ? & ? & ? & ?). by exists n'.
Qed.

Lemma rooted_dom (k : Z) : is_Some (cfg' !! k) <-> k = super_root \/ is_Some (cfg !! k).
Proof.
  unfold cfg'. rewrite lookup_insert_is_Some'. rewrite (eq_comm super_root k).
  pose proof (to_nodes _ _ Htopo k) as E. specialize (Hlinked k). rewrite E in Hlinked.
  destruct (cfg !! k) as [n|], (linked_cfg !! k) as [n'|]; cbn in Hlinked; try done.
  split; (intros [?|?]; [by left|right; eauto]).
Qed.

Lemma order_elem (k : Z) : k ∈ sort_topologically indexed <-> is_Some (cfg !! k).
Proof. rewrite order_permutation, sorted_keys_elem, (to_nodes _ _ Htopo k). apply fmap_is_Some. Qed.

Lemma dests_nodes (f : Z) : f ∈ dests -> is_Some (cfg !! f).
Proof. intros Hf%Hroots. apply order_elem, Hf. Qed.

Lemma rooted_edge (a b : Z) : cfg_edge cfg' a b <-> cfg_edge cfg a b \/ a = super_root /\ b ∈ dests.
Proof.
  split.
  - intros (n' & Hn' & Hb). destruct (decide (a = super_root)) as [->|Hne].
    { unfold cfg' in Hn'. rewrite lookup_insert_eq in Hn'. simplify_eq. by right. }
    left. destruct (proj1 (rooted_dom a)) as [?|[n Hn]]; [by exists n'|done|].
    destruct (indexed_node a n Hn) as (n'' & E & Hd & _). exists n. split; [done|]. rewrite <-Hd. congruence.
  - intros [(n & Hn & Hb)|[-> Hb]].
    + destruct (indexed_node a n Hn) as (n' & E & Hd & _). exists n'. split; [done|]. by rewrite Hd.
    + exists root. split; [by apply lookup_insert_eq|done].
Qed.

Lemma rooted_reach (a b : Z) : cfg_reach cfg a b -> cfg_reach cfg' a b.
Proof. apply rtc_subrel. intros x y Hxy. apply rooted_edge. by left. Qed.

Lemma rooted_ok : cfg_ok cfg'.
Proof.
  split.
  - intros a b [He|[-> Hb]]%rooted_edge; apply rooted_dom; right; [by apply (ok_closed _ Hok a)|by apply dests_nodes].
  - intros a b n' Hb. rewrite rooted_edge. destruct (proj1 (rooted_dom b)) as [->|[n Hn]]; [by exists n'| |].
    + unfold cfg' in Hb. rewrite lookup_insert_eq in Hb. simplify_eq. cbn. split; [by intros ?%not_elem_of_nil|].
      intros [He|[_ Hd]]; exfalso; [apply (ok_closed _ Hok) in He|apply dests_nodes in Hd]; rewrite Hnew in *; by eapply is_Some_None.
    + destruct (indexed_node b n Hn) as (n'' & E & _ & _ & _ & Hs). assert (n'' = n') as -> by congruence.
      rewrite Hs, (ok_sources _ Hok a b n Hn). tauto.
Qed.

Let scc (k : Z) : Z := (topo_of indexed k).(scc_id).

Lemma indexed_sources (k : Z) (n : CfgNode) (s : Z) :
  indexed !! k = Some n -> s ∈ n.(cn_sources) -> cfg_edge cfg s k /\ is_Some (indexed !! s).
Proof.
  intros Hk Hs. rewrite (to_nodes _ _ Htopo k) in Hk. apply fmap_Some in Hk as (m & Hm & ->). cbn in Hs.
  apply (ok_sources _ Hok s k m Hm) in Hs. split; [done|]. rewrite (to_nodes _ _ Htopo s), fmap_is_Some.
  destruct Hs as (ns & ? & _). by exists ns.
Qed.

Lemma external_dec (c : Z) (l : list Z) :
  (exists x, x ∈ l /\ scc x = c /\ external indexed x) \/ (forall x, x ∈ l -> scc x = c -> ~ external indexed x).
Proof.
  induction l as [|x l IH]; [right; by intros x ?%not_elem_of_nil|].
  destruct IH as [(y & Hy & Hc & He)|Hno]; [left; exists y; rewrite elem_of_cons; tauto|].
  assert (Hx : external indexed x \/ ~ external indexed x).
  { destruct (indexed !! x) as [n|] eqn:En; [|right; intros (? & ? & ? & _); congruence].
    destruct (any_external_spec indexed x n.(cn_sources)) as (b & _ & Hb); [intros s Hs; by apply (indexed_sources x n s En)|].
    destruct b; [left; destruct (proj1 Hb eq_refl) as (s & ? & ?); by exists n, s|right].
    intros (n' & s & ? & Hs & Hne). assert (false = true); [|done]. apply Hb. exists s. split; [congruence|done]. }
  destruct (decide (scc x = c)) as [Hc|Hc]; [destruct Hx as [Hx|Hx]|].
  - left. exists x. split; [by left|done].
  - right. intros y [->|Hy]%elem_of_cons; [done|by apply Hno].
  - right. intros y [->|Hy]%elem_of_cons; [done|by apply Hno].
Qed.

(** The first node of a component. *)
Lemma first_of (c : Z) (l : list Z) : StronglySorted (topo_ge indexed) l -> (exists x, x ∈ l /\ scc x = c) ->
  exists f, f ∈ l /\ scc f = c /\ forall x, x ∈ l -> scc x = c -> topo_ge indexed f x.
Proof.
  induction 1 as [|a l HS IH HF]; intros (x & Hx & Hc); [by apply not_elem_of_nil in Hx|].
  destruct (decide (scc a = c)) as [Ha|Ha].
  - exists a. split_and!; [by left|done|]. intros y [->|Hy]%elem_of_cons _; [apply topo_ge_iff; cbn; lia|].
    by apply (proj1 (Forall_forall _ _) HF).
  - destruct IH as (f & Hf & Hfc & Hmax).
    { exists x. split; [|done]. apply elem_of_cons in Hx as [->|?]; done. }
    exists f. split_and!; [by right|done|]. intros y [->|Hy]%elem_of_cons; [done|by apply Hmax].
Qed.

Lemma super_root_reach (a : Z) : is_Some (cfg !! a) -> cfg_reach cfg' super_root a.
Proof.
  assert (Hmax : exists M, forall k, k ∈ sort_topologically indexed -> scc k <= M).
  { generalize (sort_topologically indexed) as l. induction l as [|x l [M HM]]; [exists 0; by intros k ?%not_elem_of_nil|].
    exists (Z.max (scc x) M). intros k [->|Hk]%elem_of_cons; [lia|]. specialize (HM k Hk). lia. }
  destruct Hmax as [M HM]. remember (M - scc a) as m eqn:Em. revert a Em.
  induction m as [m IH] using (well_founded_induction (Z.lt_wf 0)). intros a -> Ha.
  pose proof (proj2 (order_elem a) Ha) as Hao.
  destruct (external_dec (scc a) (sort_topologically indexed)) as [(x & Hx & Hc & n & s & Hn & Hs & Hne)|Hno].
  - destruct (indexed_sources x n s Hn Hs) as [Hsx Hsn].
    assert (Hs' : is_Some (cfg !! s)) by (destruct Hsx as (ns & ? & _); by exists ns).
    pose proof (to_edges _ _ Htopo s x Hsx) as Hle. pose proof (HM s (proj2 (order_elem s) Hs')).
    unfold scc in *. etrans; [apply (IH (M - (topo_of indexed s).(scc_id))); [lia|done|done]|].
    apply rooted_reach. eapply rtc_l; [done|]. apply order_elem in Hx. by apply (to_scc _ _ Htopo x a).
  - destruct (first_of (scc a) _ (order_sorted indexed)) as (f & Hf & Hfc & Hmax); [by exists a|].
    pose proof (proj1 (order_elem f) Hf) as Hfn. eapply rtc_l; [|apply rooted_reach; by apply (to_scc _ _ Htopo f a)].
    apply rooted_edge. right. split; [done|]. apply Hroots. split_and!; [done|intros ->; by rewrite Hnew in Hfn; destruct Hfn|].
    intros x Hx Hxf. fold (scc x) (scc f) in Hxf. rewrite Hfc in Hxf. split; [by apply Hmax|by apply Hno].
Qed.
End Rooted.

(** What the pass computes. *)
Record tarjan_result (self self' : Analysis) (indexed : CfgNodes) (dests : list Z) : Prop := {
  ta_topological : topological self.(an_cfg_nodes) indexed;
  ta_order : self'.(an_topological_order) = sort_topologically indexed;
  ta_roots : forall f, f ∈ dests <-> is_root indexed self.(an_super_root) (sort_topologically indexed) f;
  ta_nodes : exists linked_cfg, linked self.(an_super_root) dests indexed linked_cfg /\
    self'.(an_cfg_nodes) = <[self.(an_super_root) := set_destinations dests (set_instructions
      (mkInsnRange (zlen self.(an_instructions)) (zlen self.(an_instructions))) default_cfg_node)]> linked_cfg;
  ta_functions : forall f, is_Some (self'.(an_functions) !! f) <-> is_Some (self.(an_functions) !! f) \/ f ∈ dests;
  ta_instructions : self'.(an_instructions) = self.(an_instructions);
  ta_super_root : self'.(an_super_root) = self.(an_super_root);
  ta_reverse : self'.(an_dfg_reverse_edges) = self.(an_dfg_reverse_edges);
}.

Section Result.
Context `{Hash : Murmur3}.

Lemma control_flow_graph_tarjan_spec (self : Analysis) :
  cfg_ok self.(an_cfg_nodes) -> cfg_small self.(an_cfg_nodes) -> self.(an_cfg_nodes) <> ∅ ->
  exists self' indexed dests, control_flow_graph_tarjan self = Ret self' /\ tarjan_result self self' indexed dests.
Proof.
  intros Hok Hsmall Hne. unfold control_flow_graph_tarjan. rewrite bool_decide_eq_false_2 by done.
  destruct (number_nodes self.(an_cfg_nodes)) as [numbered fresh] eqn:En.
  destruct (search_fresh _ Hok Hsmall Hne) as (st & c & d & Es & Hf). rewrite En in Es. cbn [fst snd] in Es.
  rewrite Es. cbn [exec_bind]. destruct (written_topological _ Hok _ c d Hf) as (indexed & Ew & Htopo).
  rewrite En in Ew. cbn [fst] in Ew. rewrite Ew. cbn [exec_bind].
  pose proof (fun k n s Hk Hs => proj2 (indexed_sources _ _ Hok Htopo k n s Hk Hs)) as Hsrc.
  assert (Hinj : forall a b, is_Some (indexed !! a) -> is_Some (indexed !! b) -> topo_of indexed a = topo_of indexed b -> a = b).
  { intros a b. rewrite (to_nodes _ _ Htopo a), (to_nodes _ _ Htopo b), !fmap_is_Some. apply Htopo. }
  destruct (root_destinations_spec indexed Hsrc Hinj self.(an_super_root) (sort_topologically indexed) [] false [])
    as (dests & Er & Hroots); [apply order_sorted| |by intros x y ?%not_elem_of_nil|done| |].
  { intros x Hx. cbn in Hx. by rewrite order_permutation, sorted_keys_elem in Hx. }
  { split; [done|]. by intros (x & ?%not_elem_of_nil & _). }
  cbn [app] in Er. rewrite Er. cbn [exec_bind].
  assert (Hroots' : forall f, f ∈ dests <-> is_root indexed self.(an_super_root) (sort_topologically indexed) f).
  { intros f. rewrite Hroots. pose proof (not_elem_of_nil f). tauto. }
  destruct (link_roots_spec self.(an_super_root) dests self.(an_functions) indexed) as (functions & cfg' & El & Hl & Hfun).
  { intros f Hfd%Hroots'. destruct Hfd as [Hfd _]. by rewrite order_permutation, sorted_keys_elem in Hfd. }
  rewrite El. cbn [exec_bind]. eexists _, indexed, dests. split; [done|]. split; try done. cbn. by eexists.
Qed.
End Result.

Lemma sorted_lookup {A} (R : relation A) (l : list A) (i j : nat) (x y : A) :
  StronglySorted R l -> l !! i = Some x -> l !! j = Some y -> (i < j)%nat -> R x y.
Proof.
  intros HS. revert i j. induction HS as [|a l HS IH HF]; intros [|i] [|j] Hi Hj Hij; cbn in *; try lia; try done.
  - simplify_eq. apply list_elem_of_lookup_2 in Hj. by apply (proj1 (Forall_forall _ _) HF).
  - apply (IH i j); [done|done|lia].
Qed.

(** Nodes in the order. *)
Lemma order_before (cfg indexed : CfgNodes) (a b : Z) (i j : nat) :
  topological cfg indexed -> cfg_reach cfg a b -> ~ cfg_reach cfg b a ->
  sort_topologically indexed !! i = Some a -> sort_topologically indexed !! j = Some b -> (i < j)%nat.
Proof.
  intros Htopo Hab Hba Hi Hj.
  assert (Hn : forall k l, sort_topologically indexed !! l = Some k -> is_Some (cfg !! k)).
  { intros k l Hk%list_elem_of_lookup_2. by apply (order_elem cfg indexed). }
  assert (Hle : (topo_of indexed b).(scc_id) <= (topo_of indexed a).(scc_id)).
  { clear -Htopo Hab. induction Hab as [x|x y z Hxy Hr IH]; [lia|]. pose proof (to_edges _ _ Htopo x y Hxy). lia. }
  assert (Hne : (topo_of indexed a).(scc_id) <> (topo_of indexed b).(scc_id)).
  { intros He. apply Hba. by apply (to_scc _ _ Htopo a b); eauto. }
  destruct (decide (i < j)%nat) as [|Hge]; [done|]. exfalso.
  destruct (decide (i = j)) as [->|Hij]; [congruence|].
  pose proof (order_sorted indexed) as HS. apply (sorted_lookup _ _ j i b a) in HS; [|done|done|lia].
  rewrite topo_ge_iff in HS. cbn in HS. lia.
Qed.

(** * Properties *)

(** A check of [cfg_ok]. *)
Definition lists_node (cfg : CfgNodes) (side : CfgNode -> list Z) (k a : Z) : bool :=
  match cfg !! k with Some n => bool_decide (a ∈ side n) | None => false end.
Definition cfg_check (cfg : CfgNodes) : bool := bool_decide (map_Forall (fun a n =>
  Forall (fun b => lists_node cfg cn_sources b a = true) n.(cn_destinations) /\
  Forall (fun s => lists_node cfg cn_destinations s a = true) n.(cn_sources)) cfg).

Lemma lists_node_Some (cfg : CfgNodes) (side : CfgNode -> list Z) (k a : Z) :
  lists_node cfg side k a = true <-> exists n, cfg !! k = Some n /\ a ∈ side n.
Proof.
  unfold lists_node. destruct (cfg !! k) as [n|]; [rewrite bool_decide_eq_true|]; split; [by exists n|by intros (? & [= ->] & ?)|done|].
  by intros (? & ? & _).
Qed.

Lemma cfg_check_ok (cfg : CfgNodes) : cfg_check cfg = true -> cfg_ok cfg.
Proof.
  intros Hc%bool_decide_eq_true. split.
  - intros a b (n & Hn & Hb). destruct (Hc a n Hn) as [Hd _]. rewrite Forall_forall in Hd.
    destruct (proj1 (lists_node_Some _ _ _ _) (Hd b Hb)) as (m & Hm & _). by exists m.
  - intros a b n Hn. destruct (Hc b n Hn) as [_ Hs]. rewrite Forall_forall in Hs. split.
    + intros Ha. by apply (lists_node_Some cfg cn_destinations), Hs.
    + intros (m & Hm & Hb). destruct (Hc a m Hm) as [Hd _]. rewrite Forall_forall in Hd.
      destruct (proj1 (lists_node_Some _ _ _ _) (Hd b Hb)) as (n' & Hn' & Ha). congruence.
Qed.

Section Properties.
Context `{Hash : Murmur3}.

(** C26: on a graph whose edges are consistent, the analysis of components returns, within twice
    as many turns of its loop as there are nodes; two nodes have the same component exactly if
    each can be reached from the other; and the topological order lists every node once, a node
    before those it reaches in other components. *)
Theorem tarjan_components (self : Analysis) :
  cfg_ok self.(an_cfg_nodes) -> cfg_small self.(an_cfg_nodes) -> self.(an_cfg_nodes) <> ∅ ->
  self.(an_cfg_nodes) !! self.(an_super_root) = None ->
  exists self', control_flow_graph_tarjan self = Ret self' /\
    (forall a b, is_Some (self.(an_cfg_nodes) !! a) -> is_Some (self.(an_cfg_nodes) !! b) ->
      ((topo_of self'.(an_cfg_nodes) a).(scc_id) = (topo_of self'.(an_cfg_nodes) b).(scc_id) <->
       cfg_reach self.(an_cfg_nodes) a b /\ cfg_reach self.(an_cfg_nodes) b a)) /\
    self'.(an_topological_order) ≡ₚ sorted_keys self.(an_cfg_nodes) /\
    (forall a b i j, self'.(an_topological_order) !! i = Some a -> self'.(an_topological_order) !! j = Some b ->
      cfg_reach self.(an_cfg_nodes) a b -> ~ cfg_reach self.(an_cfg_nodes) b a -> (i < j)%nat).
Proof.
  intros Hok Hsmall Hne Hnew. destruct (control_flow_graph_tarjan_spec self Hok Hsmall Hne) as (self' & indexed & dests & E & H).
  pose proof (ta_topological _ _ _ _ H) as Htopo. exists self'. split; [done|]. split_and!.
  - intros a b Ha Hb. assert (Hsame : forall k, is_Some (self.(an_cfg_nodes) !! k) -> topo_of self'.(an_cfg_nodes) k = topo_of indexed k).
    { intros k [n Hn]. destruct (ta_nodes _ _ _ _ H) as (l & Hl & ->). set (r := mkInsnRange _ _).
      destruct (indexed_node _ _ _ _ _ r Htopo Hnew Hl (ta_roots _ _ _ _ H) k n Hn) as (n' & Hn' & _ & Ht & _). unfold topo_of at 1. by rewrite Hn'. }
    rewrite !Hsame by done. by apply Htopo.
  - rewrite (ta_order _ _ _ _ H), order_permutation. apply NoDup_Permutation; try apply sorted_keys_NoDup.
    intros k. rewrite !sorted_keys_elem, (to_nodes _ _ Htopo k). apply fmap_is_Some.
  - rewrite (ta_order _ _ _ _ H). intros a b i j Hi Hj Hab Hba. by apply (order_before _ indexed a b i j Htopo).
Qed.

(** The analysis of components adds the super root so that every node can be reached from it,
    the edges of the graph stay consistent, and the nodes the super root leads to are functions. *)
Theorem super_root_reaches (self : Analysis) :
  cfg_ok self.(an_cfg_nodes) -> cfg_small self.(an_cfg_nodes) -> self.(an_cfg_nodes) <> ∅ ->
  self.(an_cfg_nodes) !! self.(an_super_root) = None ->
  exists self', control_flow_graph_tarjan self = Ret self' /\ cfg_ok self'.(an_cfg_nodes) /\
    (forall a, is_Some (self'.(an_cfg_nodes) !! a) -> cfg_reach self'.(an_cfg_nodes) self.(an_super_root) a) /\
    (forall a b, a <> self.(an_super_root) -> (cfg_edge self'.(an_cfg_nodes) a b <-> cfg_edge self.(an_cfg_nodes) a b)) /\
    (forall f, cfg_edge self'.(an_cfg_nodes) self.(an_super_root) f -> is_Some (self'.(an_functions) !! f)).
Proof.
  intros Hok Hsmall Hne Hnew. destruct (control_flow_graph_tarjan_spec self Hok Hsmall Hne) as (self' & indexed & dests & E & H).
  pose proof (ta_topological _ _ _ _ H) as Htopo. exists self'. split; [done|].
  destruct (ta_nodes _ _ _ _ H) as (l & Hl & ->). set (r := mkInsnRange _ _). pose proof (ta_roots _ _ _ _ H) as Hr.
  pose proof (rooted_edge _ _ _ _ _ r Htopo Hnew Hl Hr) as He. split_and!.
  - by eapply rooted_ok.
  - intros a [->|Ha]%(rooted_dom _ _ _ _ _ _ Htopo Hl); [apply rtc_refl|]. by eapply super_root_reach.
  - intros a b Ha. rewrite He. tauto.
  - intros f [(n & Hn & _)|[_ Hf]]%He; [congruence|]. apply (ta_functions _ _ _ _ H). by right.
Qed.
End Properties.

(** ** An example *)

Definition example_node (sources destinations : list Z) : CfgNode :=
  set_sources sources (set_destinations destinations default_cfg_node).
(** A loop of two nodes, and a node that nothing leads to. *)
Definition example_cfg : CfgNodes :=
  <[0 := example_node [] [1]]> (<[1 := example_node [0; 2] [2; 3]]> (<[2 := example_node [1] [1]]>
  (<[3 := example_node [1; 5] []]> (<[5 := example_node [] [3]]> ∅)))).
Definition example_analysis : Analysis := {|
  an_executable := {| elf_bytes := []; sbpf_version := V1; ro_section := Owned 0 []; text_section_vaddr := 0;
     text_section_range := (0, 0); entry_pc := 0; function_registry := ∅; loader := new_mock |};
  an_instructions := []; an_functions := ∅; an_cfg_nodes := example_cfg; an_topological_order := [];
  an_entrypoint := 0; an_super_root := 6; an_dfg_forward_edges := ∅; an_dfg_reverse_edges := ∅ |}.

Lemma example_cfg_small : cfg_small example_cfg.
Proof.
  assert (Hall : map_Forall (fun _ n => zlen n.(cn_destinations) < 2 ^ 63) example_cfg).
  { apply (bool_decide_unpack _). by vm_compute. }
  split; [by vm_compute|]. intros a n Hn. apply (Hall a n Hn).
Qed.
Lemma example_cfg_ok : cfg_ok example_cfg.
Proof. apply cfg_check_ok. by vm_compute. Qed.

#[local] Existing Instance sum_hash.

Lemma tarjan_components_witness : exists self', control_flow_graph_tarjan example_analysis = Ret self' /\
  (topo_of self'.(an_cfg_nodes) 1).(scc_id) = (topo_of self'.(an_cfg_nodes) 2).(scc_id) /\
  self'.(an_topological_order) ≡ₚ [0; 1; 2; 3; 5].
Proof.
  destruct (tarjan_components example_analysis) as (self' & E & Hscc & Hord & _).
  - apply example_cfg_ok.
  - apply example_cfg_small.
  - done.
  - reflexivity.
  - exists self'. split; [exact E|]. split; [|exact Hord]. apply Hscc; [by eexists|by eexists|].
    split; apply rtc_once; eexists; (split; [reflexivity|]); cbn; [by left|by left].
Defined.

Lemma super_root_reaches_witness : exists self', control_flow_graph_tarjan example_analysis = Ret self' /\
  cfg_reach self'.(an_cfg_nodes) 6 3 /\ cfg_ok self'.(an_cfg_nodes).
Proof.
  destruct (super_root_reaches example_analysis) as (self' & E & Hok & Hr & He & _).
  - apply example_cfg_ok.
  - apply example_cfg_small.
  - done.
  - reflexivity.
  - exists self'. split; [exact E|]. split; [|exact Hok]. apply Hr, (ok_closed _ Hok 1). apply He; [done|].
    eexists. split; [reflexivity|]. right. by left.
Defined.

(** The graph after the pass: component, destinations. *)
Example example_result : match control_flow_graph_tarjan example_analysis with
  | Ret self => (fun '(k, n) => (k, n.(cn_topo_index).(scc_id), n.(cn_destinations))) <$> entries self.(an_cfg_nodes)
  | _ => []
  end = [(0, 2, [1]); (1, 1, [2; 3]); (2, 1, [1]); (3, 0, []); (5, 3, [3]); (6, u64_max, [5; 0])].
Proof. vm_compute. reflexivity. Qed.
