(* ===== verification/BasicBlocks.v ===== *)
(** The basic blocks of a program (src/static_analysis.rs, [split_into_basic_blocks]): they
    partition its instructions, control is transferred at their ends only, and their edges are
    consistent. *)
From stdpp Require Import sorting relations.
From S2P Require Import Prelude Text Error Ebpf Program Executable Cfg StaticAnalysis TarjanCfg.
Open Scope list_scope.

(** * The list of instructions *)

Definition insn_width (insn : Insn) : Z := if insn.(opc) =? LD_DW_IMM then 2 else 1.

(** Instructions as they follow each other from [pc] on. *)
Fixpoint listing (pc : Z) (insns : list Insn) : Prop :=
  match insns with
  | [] => True
  | insn :: insns => insn.(ptr) = pc /\ pc < 2 ^ 60 /\ in_s 16 insn.(off) /\ listing (pc + insn_width insn) insns
  end.

Lemma insn_width_range (insn : Insn) : 1 <= insn_width insn <= 2.
Proof. unfold insn_width. destruct (opc insn =? LD_DW_IMM); lia. Qed.

Section Listing.
Context (insns : list Insn).

Lemma listing_bounds (pc : Z) (i : nat) (insn : Insn) : listing pc insns -> insns !! i = Some insn ->
  pc <= insn.(ptr) < 2 ^ 60 /\ in_s 16 insn.(off).
Proof.
  revert pc i. induction insns as [|a l IH]; intros pc i Hl Hi; [done|]. destruct Hl as (<- & Hp & Ho & Hl).
  pose proof (insn_width_range a). destruct i as [|i]; cbn in Hi.
  - simplify_eq. split; [lia|done].
  - destruct (IH _ _ Hl Hi) as [? ?]. split; [lia|done].
Qed.

Lemma listing_next (pc : Z) (i : nat) (a b : Insn) : listing pc insns -> insns !! i = Some a -> insns !! S i = Some b ->
  b.(ptr) = a.(ptr) + insn_width a.
Proof.
  revert pc i. induction insns as [|x l IH]; intros pc i Hl Ha Hb; [done|]. destruct Hl as (<- & _ & _ & Hl).
  destruct i as [|i]; cbn in Ha, Hb; [|by apply (IH _ i Hl)]. simplify_eq. destruct l as [|y l]; [done|]. cbn in Hb. simplify_eq.
  by destruct Hl as [-> _].
Qed.

Lemma listing_sorted (pc : Z) (i j : nat) (a b : Insn) : listing pc insns -> insns !! i = Some a -> insns !! j = Some b ->
  (i < j)%nat -> a.(ptr) < b.(ptr).
Proof.
  revert pc i j. induction insns as [|x l IH]; intros pc i j Hl Ha Hb Hij; [done|]. destruct Hl as (<- & _ & _ & Hl).
  destruct i as [|i], j as [|j]; cbn in Ha, Hb; try lia; [|by apply (IH _ _ _ Hl Ha Hb); lia]. simplify_eq.
  pose proof (insn_width_range a).
  assert (a.(ptr) + insn_width a <= b.(ptr)); [|lia]. clear IH Hij. revert j Hb Hl. generalize (a.(ptr) + insn_width a) as q.
  induction l as [|y l IH]; intros q j Hb Hl; [done|]. destruct Hl as (<- & _ & _ & Hl).
  destruct j as [|j]; cbn in Hb; [by simplify_eq|]. specialize (IH _ _ Hb Hl). pose proof (insn_width_range y). lia.
Qed.

(** Positions and program counters. *)
Lemma listing_mono (pc : Z) (i j : nat) (a b : Insn) : listing pc insns -> insns !! i = Some a -> insns !! j = Some b ->
  (a.(ptr) <= b.(ptr) <-> (i <= j)%nat).
Proof.
  intros Hl Ha Hb. destruct (decide (i < j)%nat) as [H|H]; [pose proof (listing_sorted _ _ _ _ _ Hl Ha Hb H); lia|].
  destruct (decide (i = j)) as [->|]; [assert (a = b) as -> by congruence; lia|].
  pose proof (listing_sorted _ _ _ _ _ Hl Hb Ha ltac:(lia)). lia.
Qed.

Lemma listing_inj (pc : Z) (i j : nat) (a b : Insn) : listing pc insns -> insns !! i = Some a -> insns !! j = Some b ->
  a.(ptr) = b.(ptr) -> i = j.
Proof.
  intros Hl Ha Hb He. pose proof (listing_mono _ _ _ _ _ Hl Ha Hb). pose proof (listing_mono _ _ _ _ _ Hl Hb Ha). lia.
Qed.

Lemma listing_first (pc : Z) : listing pc insns -> insns <> [] -> exists a, insns !! 0%nat = Some a /\ a.(ptr) = pc.
Proof. destruct insns as [|a l]; [done|]. intros [Ha _] _. by exists a. Qed.
End Listing.

Section Collect.
Context `{Bo : LittleEndian} (program : list Z).
Context (Hlen : slice_len_ok program) (Hwhole : zlen program mod INSN_SIZE = 0) (Hbytes : bytes_ok program).

(** The instructions of a program; the program counter behind them is none of theirs. *)
Lemma collect_instructions_spec (fuel : nat) : forall pc acc, 0 <= pc -> 8 * pc <= zlen program ->
  zlen program < 8 * pc + 8 * Z.of_nat fuel + 8 ->
  exists insns last, collect_instructions fuel program pc acc = Ret (acc ++ insns, last) /\ listing pc insns /\
    pc <= last /\ 8 * last <= zlen program /\ (forall i insn, insns !! i = Some insn -> insn.(ptr) < last) /\
    (insns = [] -> zlen program <= 8 * pc \/ zlen program = 8 * (pc + 1) /\ program !! Z.to_nat (8 * pc) = Some LD_DW_IMM).
Proof.
  unfold slice_len_ok, i64_max, INSN_SIZE in *.
  assert (exists n, zlen program = 8 * n) as [n Hn] by (apply Z.mod_divide in Hwhole as [n ->]; [exists n; lia|done]).
  induction fuel as [|fuel IH]; intros pc acc H0 Hpc Hfuel; cbn [collect_instructions].
  all: unfold u64_mul, u64_max, INSN_SIZE; rewrite (proj2 (Z.leb_le _ _)) by lia; cbn [exec_bind].
  all: destruct (Z.ltb_spec (pc * 8) (zlen program)) as [Hlt|Hge];
    [|exists [], pc; rewrite app_nil_r; split_and!; [done|done|lia|lia|done|lia]].
  { lia. }
  assert (Hfit : 8 * (pc + 1) <= zlen program) by lia.
  rewrite get_insn_unchecked_eq by (unfold slice_len_ok, i64_max, INSN_SIZE; lia). cbn [exec_bind].
  pose proof (decode_bytes_wf pc (insn_bytes program pc) (insn_bytes_ok _ _ Hbytes) (length_insn_bytes program pc H0 Hfit)) as (_ & _ & _ & Hoff & _).
  set (insn := decode_bytes pc (insn_bytes program pc)) in *. rewrite u64_add_small by lia. cbn [exec_bind].
  destruct (Z.eqb_spec insn.(opc) LD_DW_IMM) as [Hop|Hop].
  - rewrite (proj2 (Z.leb_le ((pc + 1) * 8) _)) by lia. cbn [exec_bind].
    destruct (Z.leb_spec (zlen program) ((pc + 1) * 8)) as [Hend|Hmore].
    { exists [], (pc + 1). rewrite app_nil_r. split_and!; [done|done|lia|lia|done|]. intros _. right. split; [lia|].
      unfold insn, decode_bytes, insn_bytes in Hop. cbn [opc] in Hop. rewrite lookup_take_lt, lookup_drop, Nat.add_0_r in Hop by lia.
      change INSN_SIZE with 8 in Hop. by destruct (program !! Z.to_nat (8 * pc)) as [o|]; [cbn in Hop; subst o|]. }
    assert (exists m, augment_lddw_unchecked (E := EbpfError) program insn = Ret (mkInsn pc insn.(opc) insn.(dst) insn.(src) insn.(off) m)) as [m ->].
    { rewrite augment_lddw_eq by (cbn; unfold slice_len_ok, i64_max, INSN_SIZE; lia). by eexists. }
    cbn [exec_bind]. rewrite u64_add_small by lia. cbn [exec_bind].
    destruct (IH (pc + 1 + 1) (acc ++ [mkInsn pc insn.(opc) insn.(dst) insn.(src) insn.(off) m])) as (insns & last & -> & Hl & Hle & Hle' & Hall & _);
      [lia|lia|lia|].
    eexists (_ :: insns), last. split; [by rewrite <-app_assoc|]. split_and!; [|lia|lia| |done].
    + cbn [listing ptr off]. unfold insn_width. cbn [opc]. rewrite Hop. change (LD_DW_IMM =? LD_DW_IMM) with true.
      cbn match. replace (pc + 2) with (pc + 1 + 1) by lia. split_and!; [done|lia|done..].
    + intros [|i] x Hx; cbn in Hx; [simplify_eq; cbn; lia|by apply (Hall i)].
  - destruct (IH (pc + 1) (acc ++ [insn])) as (insns & last & -> & Hl & Hle & Hle' & Hall & _); [lia|lia|lia|].
    exists (insn :: insns), last. split; [by rewrite <-app_assoc|]. split_and!; [|lia|lia| |done].
    + cbn [listing]. unfold insn_width. rewrite (proj2 (Z.eqb_neq _ _)) by done. split_and!; [done|lia|done..].
    + intros [|i] x Hx; cbn in Hx; [simplify_eq; cbn; lia|by apply (Hall i)].
Qed.
End Collect.

(** * Starts of blocks, and transfers of control *)

Definition add_starts (starts : list Z) (nodes : CfgNodes) : CfgNodes := fold_left (fun nodes pc => or_default pc nodes) starts nodes.

Lemma add_starts_lookup (starts : list Z) : forall nodes k,
  add_starts starts nodes !! k = match nodes !! k with Some n => Some n | None => if bool_decide (k ∈ starts) then Some default_cfg_node else None end.
Proof.
  induction starts as [|a starts IH]; intros nodes k; unfold add_starts; cbn [fold_left].
  - by destruct (nodes !! k).
  - fold (add_starts starts (or_default a nodes)). rewrite IH. unfold or_default.
    destruct (decide (k = a)) as [->|Hne].
    + destruct (nodes !! a) as [n|] eqn:Ea; [by rewrite Ea|]. rewrite lookup_insert_eq, bool_decide_eq_true_2; [done|by left].
    + assert ((match nodes !! a with Some _ => nodes | None => <[a := default_cfg_node]> nodes end) !! k = nodes !! k) as ->.
      { destruct (nodes !! a); [done|by rewrite lookup_insert_ne]. }
      destruct (nodes !! k); [done|]. erewrite bool_decide_ext; [done|]. rewrite elem_of_cons. tauto.
Qed.

Section Scan.
Context (flatten : bool) (version : SBPFVersion) (registry : FunctionRegistry Z) (super_root : Z).
#[local] Abbreviation scan := (scan_insn flatten version registry super_root).

(** What an instruction adds to an empty graph: where it transfers control to, if it does, and
    the blocks it starts. *)
Definition targets (pc : Z) (insn : Insn) : option (Z * list Z) :=
  match scan pc insn (mkSplit ∅ ∅) with Ret st => st.(sp_edges) !! insn.(ptr) | _ => None end.
Definition starts (pc : Z) (insn : Insn) : list Z :=
  match scan pc insn (mkSplit ∅ ∅) with Ret st => sorted_keys st.(sp_nodes) | _ => [] end.

Lemma starts_add (l : list Z) (k : Z) : k ∈ sorted_keys (add_starts l ∅) <-> k ∈ l.
Proof.
  rewrite sorted_keys_elem, add_starts_lookup, lookup_empty. case_bool_decide as Hk; split; done || by intros [? ?].
Qed.

Lemma add_starts_ext (l l' : list Z) (nodes : CfgNodes) : (forall k, k ∈ l <-> k ∈ l') -> add_starts l nodes = add_starts l' nodes.
Proof.
  intros H. apply map_eq. intros k. rewrite !add_starts_lookup. destruct (nodes !! k); [done|]. by erewrite bool_decide_ext by apply H.
Qed.

(** The effect of an instruction on any graph. *)
Definition scanned (pc : Z) (insn : Insn) (st : Split) : Prop :=
  scan pc insn st = Ret (mkSplit (add_starts (starts pc insn) st.(sp_nodes))
    (match targets pc insn with Some e => <[insn.(ptr) := e]> st.(sp_edges) | None => st.(sp_edges) end)) /\
  (forall e, targets pc insn = Some e -> insn.(opc) <> LD_DW_IMM /\ insn.(ptr) + 1 ∈ starts pc insn /\ zlen e.2 <= 2).

Lemma scanned_edge (pc : Z) (insn : Insn) (st : Split) (l d : list Z) (o : Z) :
  (forall st, scan pc insn st = Ret (add_edge insn l d st)) -> zlen d <= 2 -> insn.(opc) = o ->
  bool_decide (o = LD_DW_IMM) = false -> insn.(ptr) + 1 ∈ l -> scanned pc insn st.
Proof.
  intros Hs Hd <- Hop%bool_decide_eq_false Hin. unfold scanned, targets, starts. rewrite !Hs. cbn [add_edge sp_edges sp_nodes].
  rewrite lookup_insert_eq. split; [|intros e [= <-]; split_and!; [done|by apply starts_add|done]]. f_equal. unfold add_edge. f_equal.
  apply add_starts_ext. intros k. by rewrite starts_add.
Qed.

Lemma scanned_none (pc : Z) (insn : Insn) (st : Split) : (forall st, scan pc insn st = Ret st) -> scanned pc insn st.
Proof.
  intros Hs. unfold scanned, targets, starts. rewrite !Hs. cbn [sp_edges sp_nodes]. rewrite lookup_empty.
  split; [by destruct st|done].
Qed.

Lemma jump_opcodes_narrow (o : Z) : o ∈ jmp32_opcodes \/ o ∈ jmp64_opcodes -> bool_decide (o = LD_DW_IMM) = false.
Proof.
  assert (Hall : Forall (fun o => bool_decide (o = LD_DW_IMM) = false) (jmp32_opcodes ++ jmp64_opcodes)).
  { apply (bool_decide_unpack _). by vm_compute. }
  rewrite <-elem_of_app. apply (proj1 (Forall_forall _ _) Hall).
Qed.

(** The arm the conditions of the context lead to. *)
Ltac scan_branch H1 H2 H3 :=
  intros ?; unfold scan_insn; rewrite H1; cbn [exec_bind]; rewrite H2; cbn [exec_bind];
  repeat match goal with
  | E : (opc _ =? _) = _ |- _ => rewrite E; clear E
  | E : lookup_by_key _ _ = _ |- _ => rewrite E; clear E
  | E : bool_decide _ = _ |- _ => rewrite E; clear E
  | E : enable_jmp32 _ = _ |- _ => rewrite E; clear E
  end; cbn [andb]; rewrite ?H3; reflexivity.

Lemma scan_insn_spec (pc : Z) (insn : Insn) (st : Split) :
  0 <= insn.(ptr) < 2 ^ 60 -> in_s 16 insn.(off) -> scanned pc insn st.
Proof.
  intros Hp Ho. unfold in_s in Ho.
  assert (Hadd : forall a b, - 2 ^ 63 <= a + b < 2 ^ 63 -> i64_add (E := EbpfError) a b = Ret (a + b)).
  { intros a b Ha. unfold i64_add, i64_min, i64_max. rewrite !(proj2 (Z.leb_le _ _)) by lia. done. }
  assert (H1 : i64_add (E := EbpfError) (as_i64 insn.(ptr)) insn.(off) = Ret (insn.(ptr) + insn.(off))).
  { unfold as_i64. rewrite swrap_small by (unfold in_s; lia). apply Hadd. lia. }
  pose proof (Hadd (insn.(ptr) + insn.(off)) 1 ltac:(lia)) as H2.
  assert (H3 : u64_add (E := EbpfError) insn.(ptr) 1 = Ret (insn.(ptr) + 1)) by (apply u64_add_small; lia).
  destruct (insn.(opc) =? CALL_IMM) eqn:C1.
  { apply Z.eqb_eq in C1 as E. destruct (lookup_by_key registry (calculate_call_imm_target_pc version pc insn.(imm))) as [[name t]|] eqn:C.
    - eapply scanned_edge; [scan_branch H1 H2 H3|by destruct flatten|done|done|by left].
    - apply scanned_none. scan_branch H1 H2 H3. }
  destruct (insn.(opc) =? CALL_REG) eqn:C2.
  { apply Z.eqb_eq in C2 as E. eapply scanned_edge; [scan_branch H1 H2 H3|by destruct flatten|done|done|by left]. }
  destruct (insn.(opc) =? EXIT) eqn:C3.
  { apply Z.eqb_eq in C3 as E. eapply scanned_edge; [scan_branch H1 H2 H3|by destruct flatten|done|done|by left]. }
  destruct (insn.(opc) =? JA) eqn:C4.
  { apply Z.eqb_eq in C4 as E. eapply scanned_edge; [scan_branch H1 H2 H3|by destruct flatten|done|done|by left]. }
  destruct (bool_decide (insn.(opc) ∈ jmp32_opcodes)) eqn:C5; destruct (enable_jmp32 version) eqn:C6;
    destruct (bool_decide (insn.(opc) ∈ jmp64_opcodes)) eqn:C7.
  all: try (apply scanned_none; scan_branch H1 H2 H3).
  all: eapply scanned_edge; [scan_branch H1 H2 H3|done|done| |by left].
  all: apply jump_opcodes_narrow; rewrite ?bool_decide_eq_true in *; tauto.
Qed.

Lemma add_starts_app (l l' : list Z) (nodes : CfgNodes) : add_starts (l ++ l') nodes = add_starts l' (add_starts l nodes).
Proof. unfold add_starts. apply fold_left_app. Qed.

Lemma scan_each (insns : list Insn) : forall (pc : Z) (g : nat -> Z) (st : Split), listing pc insns -> 0 <= pc ->
  exists ss edges, each_state (imap (fun i insn => (g i, insn)) insns) (fun '(pc, insn) => scan pc insn) st =
      Ret (mkSplit (add_starts ss st.(sp_nodes)) edges) /\
    (forall k, k ∈ ss <-> exists i insn, insns !! i = Some insn /\ k ∈ starts (g i) insn) /\
    (forall i insn, insns !! i = Some insn -> edges !! insn.(ptr) =
      match targets (g i) insn with Some e => Some e | None => st.(sp_edges) !! insn.(ptr) end) /\
    (forall p, p ∉ ptr <$> insns -> edges !! p = st.(sp_edges) !! p).
Proof.
  induction insns as [|a l IH]; intros pc g st Hl H0.
  - exists [], st.(sp_edges). cbn. split; [by destruct st|]. split_and!; [|done|done].
    intros k. split; [by intros ?%not_elem_of_nil|]. by intros (i & insn & ? & _).
  - rewrite imap_cons. cbn [each_state]. pose proof (listing_bounds _ _ 0%nat a Hl eq_refl) as [Hp Ho].
    pose proof Hl as (Hpc & _ & _ & Hl'). pose proof (insn_width_range a).
    destruct (scan_insn_spec (g 0%nat) a st ltac:(lia) Ho) as [-> _]. cbn [exec_bind].
    set (edges0 := match targets (g 0%nat) a with Some e => _ | None => _ end).
    destruct (IH (pc + insn_width a) (g ∘ S) (mkSplit (add_starts (starts (g 0%nat) a) st.(sp_nodes)) edges0) Hl' ltac:(lia))
      as (ss & edges & E & Hss & Hin & Hout). exists (starts (g 0%nat) a ++ ss), edges. cbn [sp_nodes sp_edges] in *.
    assert (Ha : a.(ptr) ∉ ptr <$> l).
    { intros (b & He & [j Hj]%list_elem_of_lookup)%list_elem_of_fmap.
      pose proof (listing_sorted _ _ 0%nat (S j) a b Hl eq_refl Hj ltac:(lia)). lia. }
    split_and!.
    + rewrite add_starts_app. exact E.
    + intros k. rewrite elem_of_app, Hss. split.
      * intros [Hk|(i & insn & Hi & Hk)]; [by exists 0%nat, a|by exists (S i), insn].
      * intros ([|i] & insn & Hi & Hk); cbn in Hi; [simplify_eq; by left|right; by exists i, insn].
    + intros [|i] insn Hi; cbn in Hi.
      * simplify_eq. rewrite (Hout _ Ha). unfold edges0. destruct (targets (g 0%nat) insn); [by rewrite lookup_insert_eq|done].
      * rewrite (Hin i insn Hi). cbn. destruct (targets (g (S i)) insn); [done|]. unfold edges0.
        destruct (targets (g 0%nat) a); [|done]. rewrite lookup_insert_ne; [done|]. intros He. apply Ha. rewrite He.
        by apply list_elem_of_fmap_2, (list_elem_of_lookup_2 l i).
    + intros p [Hp1 Hp2]%not_elem_of_cons. rewrite (Hout _ Hp2). unfold edges0. destruct (targets (g 0%nat) a); [|done].
      by rewrite lookup_insert_ne.
Qed.
End Scan.

(** * Blocks *)

(** Nothing is known of its dominators. *)
Definition untouched (n : CfgNode) : Prop := n.(cn_dominator_parent) = u64_max /\ n.(cn_dominated_children) = [].

Section Blocks.
Context (insns : list Insn) (functions : gmap Z (Z * list Z)) (is_start : Z -> Prop) (edges : gmap Z (Z * list Z)).
Context (Hlist : listing 0 insns).
Context (Hstart : forall k, is_start k -> exists i a, insns !! i = Some a /\ a.(ptr) = k).
(** Transfers are instructions of one slot, and the instruction behind one starts a block. *)
Context (Hedges : forall p e, edges !! p = Some e -> exists i a, insns !! i = Some a /\ a.(ptr) = p /\
  a.(opc) <> LD_DW_IMM /\ forall b, insns !! S i = Some b -> is_start b.(ptr)).

(** The instructions from index [i] to [j], without the last, are no transfers, and only the
    first starts a block; the destinations are those of the transfer at the end, or the next
    block, except at the start of a function. *)
Record block (k : Z) (n : CfgNode) (i j : nat) : Prop := {
  bl_range : n.(cn_instructions) = mkInsnRange (Z.of_nat i) (Z.of_nat j);
  bl_nonempty : (i < j <= length insns)%nat;
  bl_first : exists a, insns !! i = Some a /\ a.(ptr) = k;
  bl_inner : forall x a, (i < x < j)%nat -> insns !! x = Some a -> ~ is_start a.(ptr);
  bl_next : forall a, insns !! j = Some a -> is_start a.(ptr);
  bl_straight : forall x a, (i <= x)%nat -> (S x < j)%nat -> insns !! x = Some a -> edges !! a.(ptr) = None;
  bl_destinations : exists z, insns !! (j - 1)%nat = Some z /\ n.(cn_destinations) =
    match edges !! z.(ptr), insns !! j, functions !! k with
    | Some e, _, _ => e.2
    | None, Some b, None => [b.(ptr)]
    | _, _, _ => []
    end;
}.

Lemma block_length_at (last : Z) (i j : nat) : (i <= j <= length insns)%nat ->
  (forall x a, (i <= x < j)%nat -> insns !! x = Some a -> a.(ptr) <= last) ->
  (forall a, insns !! j = Some a -> last < a.(ptr)) ->
  block_length (drop i insns) last = Z.of_nat (j - i).
Proof.
  remember (j - i)%nat as d eqn:Ed. revert i Ed. induction d as [|d IH]; intros i Ed Hij Hle Hgt.
  - assert (i = j) as -> by lia. destruct (insns !! j) as [a|] eqn:Ej.
    + rewrite (drop_S _ _ _ Ej). cbn [block_length]. rewrite (proj2 (Z.leb_gt _ _)); [done|]. by apply Hgt.
    + apply lookup_ge_None_1 in Ej. by rewrite drop_ge.
  - destruct (lookup_lt_is_Some_2 insns i) as [a Ea]; [lia|]. rewrite (drop_S _ _ _ Ea). cbn [block_length].
    rewrite (proj2 (Z.leb_le _ _)) by (apply (Hle i); [lia|done]). rewrite (IH (S i)); [lia|lia|lia| |done].
    intros x b Hx. apply Hle. lia.
Qed.

(** A transfer within the range of a block is its last instruction. *)
Lemma edge_at_end (i j : nat) (a z : Insn) (p : Z) (e : Z * list Z) : insns !! i = Some a -> insns !! j = Some z -> (i <= j)%nat ->
  (forall q, is_start q -> a.(ptr) < q -> z.(ptr) < q) -> edges !! p = Some e -> a.(ptr) <= p <= z.(ptr) -> p = z.(ptr).
Proof.
  intros Ha Hz Hij Hgap He Hp. destruct (Hedges p e He) as (x & b & Hb & <- & Hop & Hnext).
  pose proof (listing_mono _ _ _ _ _ _ Hlist Ha Hb) as Hab. pose proof (listing_mono _ _ _ _ _ _ Hlist Hb Hz) as Hbz.
  destruct (decide (x = j)) as [->|Hne]; [congruence|]. exfalso.
  destruct (lookup_lt_is_Some_2 insns (S x)) as [c Hc]; [apply lookup_lt_Some in Hz; lia|].
  pose proof (listing_next _ _ _ _ _ Hlist Hb Hc) as Hw. unfold insn_width in Hw.
  rewrite (proj2 (Z.eqb_neq _ _)) in Hw by done. specialize (Hgap _ (Hnext c Hc) ltac:(lia)).
  pose proof (listing_mono _ _ _ _ _ _ Hlist Hc Hz). lia.
Qed.

(** The state of the loop at the block [k]: the blocks and transfers to come. *)
Record pending (k : Z) (rest : list Z) (es : list (Z * (Z * list Z))) (i : nat) : Prop := {
  pe_first : exists a, insns !! i = Some a /\ a.(ptr) = k;
  pe_sorted : StronglySorted Z.lt (k :: rest);
  pe_starts : forall q, is_start q /\ k <= q <-> q ∈ k :: rest;
  pe_edges_sorted : StronglySorted Z.lt es.*1;
  pe_edges : forall p e, (p, e) ∈ es <-> edges !! p = Some e /\ k <= p;
}.

(** The end of the block: its last instruction, and the program counter the code ends it at. *)
Lemma pending_end (k : Z) (rest : list Z) (es : list (Z * (Z * list Z))) (i : nat) : pending k rest es i ->
  exists last j z, (match rest with
      | next :: _ => u64_sub next 1
      | [] => let! insn := expect UnwrapNone (list.last insns) in Ret insn.(ptr)
      end : Exec EbpfError Z) = Ret last /\ (i < j <= length insns)%nat /\ insns !! (j - 1)%nat = Some z /\
    z.(ptr) <= last /\ head rest = ptr <$> insns !! j /\ (forall q, is_start q -> k < q -> last < q) /\
    (forall a, insns !! j = Some a -> is_start a.(ptr) /\ last < a.(ptr)) /\
    block_length (drop i insns) last = Z.of_nat (j - i).
Proof.
  intros [(a & Ha & Hk) HS Hst _ _]. pose proof (lookup_lt_Some _ _ _ Ha) as Hi.
  destruct rest as [|next rest].
  - destruct (last_is_Some insns) as [_ Hlast]. destruct Hlast as [z Hz]; [by intros ->|]. rewrite Hz. cbn [expect exec_bind].
    rewrite last_lookup in Hz. exists z.(ptr), (length insns), z.
    assert (Hnone : insns !! length insns = None) by (by apply lookup_ge_None_2).
    replace (Init.Nat.pred (length insns)) with (length insns - 1)%nat in Hz by lia.
    assert (Hgap : forall q, is_start q -> k < q -> z.(ptr) < q).
    { intros q Hq Hkq. assert (Hin : q ∈ [k]) by (apply Hst; split; [done|lia]). apply list_elem_of_singleton in Hin. lia. }
    split_and!; [done|lia|lia|done|lia|by rewrite Hnone|done|by intros b; rewrite Hnone|].
    apply block_length_at; [lia| |by intros b; rewrite Hnone]. intros x b Hx Hb.
    apply (listing_mono _ _ _ _ _ _ Hlist Hb Hz). lia.
  - assert (Hin : is_start next /\ k <= next) by (apply Hst; right; by left). destruct Hin as [Hn Hkn].
    destruct (Hstart next Hn) as (j & b & Hb & <-). apply StronglySorted_inv in HS as [HS HF].
    apply Forall_cons in HF as [Hkb HF]. pose proof (listing_mono _ _ _ _ _ _ Hlist Hb Ha) as Hba.
    pose proof (lookup_lt_Some _ _ _ Hb) as Hj. pose proof (listing_bounds _ _ _ _ Hlist Ha) as [? _].
    destruct (lookup_lt_is_Some_2 insns (j - 1)) as [z Hz]; [lia|].
    pose proof (listing_sorted _ _ _ _ _ _ Hlist Hz Hb ltac:(lia)) as Hzb.
    exists (b.(ptr) - 1), j, z. unfold u64_sub. rewrite (proj2 (Z.leb_le _ _)) by lia.
    assert (Hgap : forall q, is_start q -> k < q -> b.(ptr) - 1 < q).
    { intros q Hq Hkq. assert (Hin : q ∈ k :: b.(ptr) :: rest) by (apply Hst; split; [done|lia]).
      apply elem_of_cons in Hin as [->|Hin]; [lia|]. apply elem_of_cons in Hin as [->|Hin]; [lia|].
      apply StronglySorted_inv in HS as [_ HF']. pose proof (proj1 (Forall_forall _ _) HF' q Hin) as Hlt. cbn in Hlt. lia. }
    split_and!; [done|lia|lia|done|lia|by rewrite Hb|done| |].
    + intros c Hc. assert (c = b) as -> by congruence. split; [done|lia].
    + apply block_length_at; [lia| |intros c Hc; assert (c = b) as -> by congruence; lia].
      intros x c Hx Hc. pose proof (listing_sorted _ _ _ _ _ _ Hlist Hc Hb ltac:(lia)). lia.
Qed.

(** The transfer of a block, and those that are left. *)
Definition next_transfer (es : list (Z * (Z * list Z))) (last : Z) : option (list Z) * list (Z * (Z * list Z)) :=
  match es with
  | (p, (_, d)) :: es' => if p <=? last then (Some d, es') else (None, es)
  | [] => (None, es)
  end.

Lemma next_transfer_spec (k : Z) (es : list (Z * (Z * list Z))) (last : Z) (z : Insn) :
  StronglySorted Z.lt es.*1 -> (forall p e, (p, e) ∈ es <-> edges !! p = Some e /\ k <= p) ->
  (forall p e, edges !! p = Some e -> k <= p <= last -> p = z.(ptr)) -> k <= z.(ptr) <= last ->
  (next_transfer es last).1 = snd <$> edges !! z.(ptr) /\ StronglySorted Z.lt (next_transfer es last).2.*1 /\
  forall p e, (p, e) ∈ (next_transfer es last).2 <-> edges !! p = Some e /\ last < p.
Proof.
  intros HS Hes Hat Hz. unfold next_transfer. destruct es as [|[p [o d]] es].
  - split_and!; [|done|].
    + destruct (edges !! z.(ptr)) as [e|] eqn:E; [|done]. exfalso. apply (not_elem_of_nil (z.(ptr), e)), Hes. split; [done|lia].
    + intros q e. split; [by intros ?%not_elem_of_nil|]. intros [He Hq]. apply Hes. split; [done|lia].
  - destruct (proj1 (Hes p (o, d)) ltac:(by left)) as [Hp Hkp]. pose proof HS as HS0. cbn in HS.
    apply StronglySorted_inv in HS as [HS HF]. rewrite Forall_forall in HF.
    assert (Hmore : forall q e, (q, e) ∈ es -> p < q).
    { intros q e Hq. apply HF. by apply (list_elem_of_fmap_2 fst) in Hq. }
    destruct (Z.leb_spec p last) as [Hle|Hgt]; cbn [fst snd].
    + assert (p = z.(ptr)) as -> by (by apply (Hat p (o, d))). rewrite Hp. split_and!; [done|done|]. intros q e. split.
      * intros Hq. destruct (proj1 (Hes q e) ltac:(by right)) as [He Hkq]. split; [done|]. specialize (Hmore q e Hq).
        destruct (decide (q <= last)) as [Hql|]; [|lia]. pose proof (Hat q e He ltac:(lia)). lia.
      * intros [He Hq]. assert (Hin : (q, e) ∈ (z.(ptr), (o, d)) :: es) by (apply Hes; split; [done|lia]).
        apply elem_of_cons in Hin as [[= -> ->]|?]; [lia|done].
    + split_and!; [|done|].
      * destruct (edges !! z.(ptr)) as [e|] eqn:E; [|done]. exfalso.
        assert (Hin : (z.(ptr), e) ∈ (p, (o, d)) :: es) by (apply Hes; split; [done|lia]).
        apply elem_of_cons in Hin as [[= He _]|Hin]; [lia|]. specialize (Hmore _ _ Hin). lia.
      * intros q e. rewrite Hes. split; [|intros [? ?]; split; [done|lia]]. intros [He Hkq]. split; [done|].
        assert (Hin : (q, e) ∈ (p, (o, d)) :: es) by (by apply Hes).
        apply elem_of_cons in Hin as [[= -> ->]|Hin]; [lia|]. specialize (Hmore _ _ Hin). lia.
Qed.

Definition block_node (i j : nat) (destinations : list Z) : CfgNode :=
  set_destinations destinations (set_instructions (mkInsnRange (Z.of_nat i) (Z.of_nat j)) default_cfg_node).

(** The code of one turn. *)
Lemma assign_block_eq (k : Z) (rest : list Z) (es : list (Z * (Z * list Z))) (i j : nat) (nodes : CfgNodes) (last : Z) :
  (match rest with
   | next :: _ => u64_sub next 1
   | [] => let! insn := expect UnwrapNone (list.last insns) in Ret insn.(ptr)
   end : Exec EbpfError Z) = Ret last -> nodes !! k = Some default_cfg_node -> (i < j)%nat ->
  block_length (drop i insns) last = Z.of_nat (j - i) ->
  assign_blocks insns functions (k :: rest) es (Z.of_nat i) nodes =
  assign_blocks insns functions rest (next_transfer es last).2 (Z.of_nat j)
    (<[k := block_node i j (match (next_transfer es last).1, head rest, functions !! k with
      | Some d, _, _ => d
      | None, Some next, None => [next]
      | _, _, _ => []
      end)]> nodes).
Proof.
  intros El Hk Hij Hlen. cbn [assign_blocks]. rewrite El. unfold get_node. rewrite Hk. cbn [expect exec_bind].
  rewrite Nat2Z.id, Hlen. rewrite (proj2 (Z.eqb_neq _ _)) by lia. replace (Z.of_nat i + Z.of_nat (j - i)) with (Z.of_nat j) by lia.
  unfold next_transfer. destruct es as [|[p [o d]] es]; [|destruct (p <=? last)]; cbn [fst snd]; [|done|].
  all: destruct rest as [|next rest]; cbn [head]; [done|]; by destruct (functions !! k).
Qed.

Lemma assign_block_step (k : Z) (rest : list Z) (es : list (Z * (Z * list Z))) (i : nat) (nodes : CfgNodes) :
  pending k rest es i -> nodes !! k = Some default_cfg_node ->
  exists destinations es' j, assign_blocks insns functions (k :: rest) es (Z.of_nat i) nodes =
      assign_blocks insns functions rest es' (Z.of_nat j) (<[k := block_node i j destinations]> nodes) /\
    block k (block_node i j destinations) i j /\ forall next rest', rest = next :: rest' -> pending next rest' es' j.
Proof.
  intros Hp Hn. destruct (pending_end _ _ _ _ Hp) as (last & j & z & Elast & Hij & Hz & Hzl & Hhead & Hgap & Hnext & Hlen).
  rewrite (assign_block_eq k rest es i j nodes last Elast Hn ltac:(lia) Hlen). eexists _, _, j. split; [done|].
  destruct Hp as [(a & Ha & Hk) HS Hst HSe Hes]. subst k.
  pose proof (listing_mono _ _ _ _ _ _ Hlist Ha Hz) as Haz.
  assert (Hat : forall p e, edges !! p = Some e -> a.(ptr) <= p <= last -> p = z.(ptr)).
  { intros p e He Hple. apply (edge_at_end i (j - 1) a z p e Ha Hz); [lia| |done|].
    - intros q Hq Haq. specialize (Hgap q Hq Haq). lia.
    - split; [lia|]. destruct (Hedges p e He) as (x & b & Hb & <- & _).
      destruct (decide (x < j)%nat) as [|Hge]; [apply (listing_mono _ _ _ _ _ _ Hlist Hb Hz); lia|]. exfalso.
      destruct (lookup_lt_is_Some_2 insns j) as [c Hc]; [apply lookup_lt_Some in Hb; lia|].
      destruct (Hnext c Hc) as [_ ?]. pose proof (listing_mono _ _ _ _ _ _ Hlist Hc Hb). lia. }
  destruct (next_transfer_spec a.(ptr) es last z HSe Hes Hat ltac:(lia)) as (Ht & HSe' & Hes'). split.
  - split; [done|lia|by exists a| |by intros b Hb; apply Hnext| |].
    + intros x b Hx Hb Hsb. pose proof (listing_sorted _ _ _ _ _ _ Hlist Ha Hb ltac:(lia)) as Hab.
      specialize (Hgap _ Hsb Hab). pose proof (listing_mono _ _ _ _ _ _ Hlist Hb Hz). lia.
    + intros x b Hx Hxj Hb. destruct (edges !! b.(ptr)) as [e|] eqn:E; [|done]. exfalso.
      pose proof (listing_mono _ _ _ _ _ _ Hlist Ha Hb). pose proof (listing_sorted _ _ _ _ _ _ Hlist Hb Hz ltac:(lia)).
      pose proof (Hat _ e E ltac:(lia)). lia.
    + exists z. split; [done|]. cbn. rewrite Ht, Hhead. by destruct (edges !! z.(ptr)), (insns !! j), (functions !! a.(ptr)).
  - intros next rest' ->. cbn in Hhead. destruct (insns !! j) as [b|] eqn:Hb; [|done]. cbn in Hhead. simplify_eq.
    destruct (Hnext b eq_refl) as [Hsb Hlb]. apply StronglySorted_inv in HS as [HS HF].
    apply Forall_cons in HF as [Hab _]. split; [by exists b|done| |done|].
    + intros q. split.
      * intros [Hq Hqb]. assert (Hin : q ∈ a.(ptr) :: b.(ptr) :: rest') by (apply Hst; split; [done|lia]).
        apply elem_of_cons in Hin as [->|?]; [lia|done].
      * intros Hq. assert (Hq' : is_start q /\ a.(ptr) <= q) by (apply Hst; by right). split; [apply Hq'|].
        apply elem_of_cons in Hq as [->|Hq]; [lia|]. apply StronglySorted_inv in HS as [_ HF].
        pose proof (proj1 (Forall_forall _ _) HF q Hq) as Hlt. cbn in Hlt. lia.
    + intros p e. rewrite Hes'. split; intros [He Hpe]; (split; [done|]).
      * destruct (Hedges p e He) as (x & c & Hc & <- & _). apply (listing_mono _ _ _ _ _ _ Hlist Hb Hc).
        destruct (decide (j <= x)%nat) as [|Hlt]; [done|]. pose proof (listing_mono _ _ _ _ _ _ Hlist Hc Hz). lia.
      * lia.
Qed.

Lemma assign_blocks_spec (rest : list Z) : forall k es i nodes,
  pending k rest es i -> (forall q, q ∈ k :: rest -> nodes !! q = Some default_cfg_node) ->
  exists nodes', assign_blocks insns functions (k :: rest) es (Z.of_nat i) nodes = Ret nodes' /\
    (forall q, q ∈ k :: rest -> exists n i j, nodes' !! q = Some n /\ block q n i j /\ n.(cn_sources) = [] /\ untouched n) /\
    (forall q, q ∉ k :: rest -> nodes' !! q = nodes !! q).
Proof.
  induction rest as [|next rest IH]; intros k es i nodes Hp Hn;
    destruct (assign_block_step _ _ _ _ nodes Hp (Hn k ltac:(by left))) as (d & es' & j & -> & Hb & Hnext).
  - eexists. split; [done|]. split.
    + intros q ->%list_elem_of_singleton. eexists _, i, j. split; [apply lookup_insert_eq|done].
    + intros q Hq. rewrite lookup_insert_ne; [done|]. intros ->. apply Hq. by left.
  - assert (Hk : k ∉ next :: rest).
    { intros Hk. pose proof (StronglySorted_inv (pe_sorted _ _ _ _ Hp)) as [_ HF].
      pose proof (proj1 (Forall_forall _ _) HF k Hk) as Hlt. cbn in Hlt. lia. }
    destruct (IH next es' j (<[k := block_node i j d]> nodes) (Hnext next rest eq_refl)) as (nodes' & -> & Hin & Hout).
    { intros q Hq. rewrite lookup_insert_ne; [apply Hn; by right|by intros ->]. }
    exists nodes'. split; [done|]. split.
    + intros q [->|Hq]%elem_of_cons; [|by apply Hin]. rewrite Hout, lookup_insert_eq by done. by eexists _, i, j.
    + intros q [Hqk Hq]%not_elem_of_cons. rewrite Hout by done. by rewrite lookup_insert_ne.
Qed.
End Blocks.

(** * Sources *)

(** Only sources are added. *)
Definition sourced (added : Z -> Z -> Prop) (nodes nodes' : CfgNodes) : Prop := forall k,
  match nodes !! k, nodes' !! k with
  | Some n, Some n' => n'.(cn_destinations) = n.(cn_destinations) /\ n'.(cn_instructions) = n.(cn_instructions) /\
      (untouched n -> untouched n') /\ forall s, s ∈ n'.(cn_sources) <-> s ∈ n.(cn_sources) \/ added s k
  | None, None => True
  | _, _ => False
  end.

Lemma sourced_refl (nodes : CfgNodes) (added : Z -> Z -> Prop) : (forall s k, ~ added s k) -> sourced added nodes nodes.
Proof. intros H k. destruct (nodes !! k); [|done]. split_and!; [done|done|done|]. intros s. specialize (H s k). tauto. Qed.

Lemma sourced_trans (a1 a2 a3 : Z -> Z -> Prop) (n1 n2 n3 : CfgNodes) : sourced a1 n1 n2 -> sourced a2 n2 n3 ->
  (forall s k, a3 s k <-> a1 s k \/ a2 s k) -> sourced a3 n1 n3.
Proof.
  intros H1 H2 Ha k. specialize (H1 k). specialize (H2 k). destruct (n1 !! k) as [m1|], (n2 !! k) as [m2|], (n3 !! k) as [m3|]; try done.
  destruct H1 as (E1 & I1 & U1 & S1), H2 as (E2 & I2 & U2 & S2). split_and!; [congruence|congruence|tauto|]. intros s. rewrite S2, S1, Ha. tauto.
Qed.

Lemma sourced_dom (added : Z -> Z -> Prop) (nodes nodes' : CfgNodes) (k : Z) : sourced added nodes nodes' ->
  (is_Some (nodes' !! k) <-> is_Some (nodes !! k)).
Proof. intros H. specialize (H k). destruct (nodes !! k), (nodes' !! k); by split; [|]; eauto. Qed.

Lemma add_source_spec (source : Z) (dests : list Z) : forall nodes : CfgNodes, (forall d, d ∈ dests -> is_Some (nodes !! d)) ->
  exists nodes', each_state dests (fun destination nodes =>
      update_node nodes destination (fun n => set_sources (n.(cn_sources) ++ [source]) n)) nodes = Ret nodes' /\
    sourced (fun s k => s = source /\ k ∈ dests) nodes nodes'.
Proof.
  induction dests as [|d dests IH]; intros nodes Hd; cbn [each_state].
  - exists nodes. split; [done|]. apply sourced_refl. by intros s k [_ ?%not_elem_of_nil].
  - unfold update_node at 1, get_node. destruct (Hd d ltac:(by left)) as [n Hn]. rewrite Hn. cbn [expect exec_bind].
    set (nodes1 := <[d := _]> nodes). assert (H1 : sourced (fun s k => s = source /\ k = d) nodes nodes1).
    { intros k. unfold nodes1. destruct (decide (k = d)) as [->|Hne].
      - rewrite Hn, lookup_insert_eq. split_and!; [done|done|done|]. intros s. cbn. rewrite elem_of_app, list_elem_of_singleton. tauto.
      - rewrite lookup_insert_ne by done. destruct (nodes !! k); [|done]. split_and!; [done|done|done|]. tauto. }
    destruct (IH nodes1) as (nodes' & E & H2).
    { intros x Hx. apply (sourced_dom _ _ _ _ H1), Hd. by right. }
    exists nodes'. split; [done|]. apply (sourced_trans _ _ _ _ _ _ H1 H2). intros s k. rewrite elem_of_cons. tauto.
Qed.

Lemma link_cfg_edges_spec (l : list (Z * list Z)) : forall nodes : CfgNodes,
  (forall a d b, (a, d) ∈ l -> b ∈ d -> is_Some (nodes !! b)) ->
  exists nodes', link_cfg_edges l false nodes = Ret nodes' /\
    sourced (fun s k => exists d, (s, d) ∈ l /\ k ∈ d) nodes nodes'.
Proof.
  induction l as [|[a d] l IH]; intros nodes Hl; unfold link_cfg_edges; cbn [each_state].
  - exists nodes. split; [done|]. apply sourced_refl. by intros s k (d & ?%not_elem_of_nil & _).
  - cbn [exec_bind]. destruct (add_source_spec a d nodes) as (nodes1 & -> & H1).
    { intros b Hb. apply (Hl a d b); [by left|done]. }
    cbn [exec_bind]. destruct (IH nodes1) as (nodes' & E & H2).
    { intros a' d' b Hd Hb. apply (sourced_dom _ _ _ _ H1), (Hl a' d' b); [by right|done]. }
    exists nodes'. split; [exact E|]. apply (sourced_trans _ _ _ _ _ _ H1 H2). intros s k. cbn. split.
    + intros (d' & [[= -> ->]|Hd]%elem_of_cons & Hk); [by left|right; by exists d'].
    + intros [[-> Hk]|(d' & Hd & Hk)]; [exists d; split; [by left|done]|exists d'; split; [by right|done]].
Qed.

(** When each node gets the nodes with an edge to it. *)
Lemma linked_ok (nodes nodes' : CfgNodes) : (forall a b, cfg_edge nodes a b -> is_Some (nodes !! b)) ->
  (forall k n, nodes !! k = Some n -> n.(cn_sources) = []) ->
  sourced (fun s k => exists d, (s, d) ∈ ((fun e => (e.1, e.2.(cn_destinations))) <$> entries nodes) /\ k ∈ d) nodes nodes' ->
  cfg_ok nodes' /\ forall a b, cfg_edge nodes' a b <-> cfg_edge nodes a b.
Proof.
  intros Hc Hs Hl. assert (He : forall a b, cfg_edge nodes' a b <-> cfg_edge nodes a b).
  { intros a b. unfold cfg_edge. specialize (Hl a). destruct (nodes !! a) as [n|], (nodes' !! a) as [n'|]; try done.
    destruct Hl as (E & _ & _). split; intros (m & [= <-] & Hb); eexists; (split; [done|congruence]). }
  split; [|done]. split.
  - intros a b Hab%He. apply (sourced_dom _ _ _ _ Hl), (Hc a b Hab).
  - intros a b n' Hn'. rewrite He. specialize (Hl b). rewrite Hn' in Hl. destruct (nodes !! b) as [n|] eqn:En; [|done].
    destruct Hl as (_ & _ & _ & Hsrc). rewrite Hsrc, (Hs b n En). split.
    + intros [?%not_elem_of_nil|(d & Hd & Hb)]; [done|].
      apply list_elem_of_fmap in Hd as ([k m] & [= -> ->] & Hm). apply entries_elem in Hm. by exists m.
    + intros (m & Hm & Hb). right. exists m.(cn_destinations). split; [|done].
      apply list_elem_of_fmap. exists (a, m). split; [done|]. by apply entries_elem.
Qed.

(** * The pass *)

Section Pass.
Context (version : SBPFVersion) (registry : FunctionRegistry Z) (super_root : Z).
Context (insns : list Insn) (functions : gmap Z (Z * list Z)).
Context (Hlist : listing 0 insns) (Hne : insns <> []).
Let scan : Exec EbpfError Split := scan_instructions false version registry super_root insns functions ∅.
Let target (i : nat) (insn : Insn) := targets false version registry super_root (Z.of_nat i) insn.

Record scan_result (found : Split) : Prop := {
  sr_default : forall k n, found.(sp_nodes) !! k = Some n -> n = default_cfg_node;
  sr_zero : is_Some (found.(sp_nodes) !! 0);
  sr_functions : forall f, is_Some (functions !! f) -> is_Some (found.(sp_nodes) !! f);
  sr_edges : forall i a, insns !! i = Some a -> found.(sp_edges) !! a.(ptr) = target i a;
  sr_only : forall p, p ∉ ptr <$> insns -> found.(sp_edges) !! p = None;
  sr_next : forall i a e, insns !! i = Some a -> target i a = Some e ->
    a.(opc) <> LD_DW_IMM /\ is_Some (found.(sp_nodes) !! (a.(ptr) + 1)) /\ zlen e.2 <= 2;
}.

Lemma scan_instructions_spec : exists found, scan = Ret found /\ scan_result found.
Proof.
  unfold scan, scan_instructions. cbn zeta. fold (add_starts (sorted_keys functions) (<[0 := default_cfg_node]> ∅)).
  destruct (scan_each false version registry super_root insns 0 Z.of_nat
    (mkSplit (add_starts (sorted_keys functions) (<[0 := default_cfg_node]> ∅)) ∅) Hlist (Z.le_refl 0))
    as (ss & edges & -> & Hss & Hin & Hout).
  cbn [sp_nodes sp_edges] in *. eexists. split; [done|]. split; cbn [sp_nodes sp_edges].
  - intros k n. rewrite !add_starts_lookup. destruct (decide (k = 0)) as [->|Hk].
    + rewrite lookup_insert_eq. by intros [= <-].
    + rewrite lookup_insert_ne, lookup_empty by done. repeat case_bool_decide; by intros [= <-].
  - rewrite !add_starts_lookup, lookup_insert_eq. by eexists.
  - intros f Hf. rewrite !add_starts_lookup. rewrite (bool_decide_eq_true_2 (f ∈ sorted_keys functions)) by (by apply sorted_keys_elem).
    destruct (<[0 := default_cfg_node]> (∅ : CfgNodes) !! f); by eexists.
  - intros i a Hi. rewrite (Hin i a Hi), lookup_empty. unfold target. by destruct (targets _ _ _ _ _ _).
  - intros p Hp. by rewrite (Hout p Hp).
  - intros i a e Hi Ht. pose proof (listing_bounds _ _ _ _ Hlist Hi) as [? ?].
    destruct (scan_insn_spec false version registry super_root (Z.of_nat i) a (mkSplit ∅ ∅) ltac:(lia) ltac:(done)) as [_ Hn].
    destruct (Hn e Ht) as (? & Hs & ?). split; [done|]. split; [|done]. rewrite add_starts_lookup. destruct (_ !! (a.(ptr) + 1)); [by eexists|].
    rewrite bool_decide_eq_true_2; [by eexists|]. apply Hss. by exists i, a.
Qed.

Context (found : Split) (Hfound : scan_result found).
Let nodes : CfgNodes := retain_nodes insns found.(sp_nodes).
Let edges := retain_edges nodes found.(sp_edges).
Let retained := retain_functions nodes functions.
Let is_start (k : Z) : Prop := is_Some (nodes !! k).

Lemma retain_lookup (k : Z) : is_start k <-> is_Some (found.(sp_nodes) !! k) /\ exists i a, insns !! i = Some a /\ a.(ptr) = k.
Proof.
  unfold is_start, nodes, retain_nodes, starts_insn. split.
  - intros [n [Hn Hk]%map_lookup_filter_Some]. split; [by exists n|]. apply bool_decide_eq_true in Hk.
    apply list_elem_of_fmap in Hk as (a & -> & [i Hi]%list_elem_of_lookup). by exists i, a.
  - intros [[n Hn] (i & a & Hi & Ha)]. exists n. apply map_lookup_filter_Some. split; [done|]. apply bool_decide_eq_true.
    apply list_elem_of_fmap. exists a. split; [done|]. by apply list_elem_of_lookup_2 in Hi.
Qed.

Lemma retain_default (k : Z) : is_start k -> nodes !! k = Some default_cfg_node.
Proof.
  intros [n Hn]. rewrite Hn. apply map_lookup_filter_Some in Hn as [Hn _]. by rewrite (sr_default _ Hfound k n Hn).
Qed.

Lemma retain_edges_at (i : nat) (a : Insn) : insns !! i = Some a ->
  edges !! a.(ptr) = (fun e => (e.1, filter (fun d => is_Some (nodes !! d)) e.2)) <$> target i a.
Proof. intros Hi. unfold edges, retain_edges. by rewrite lookup_fmap, (sr_edges _ Hfound i a Hi). Qed.

Lemma retain_edges_insn (p : Z) (e : Z * list Z) : edges !! p = Some e -> exists i a, insns !! i = Some a /\ a.(ptr) = p /\
  a.(opc) <> LD_DW_IMM /\ (forall b, insns !! S i = Some b -> is_start b.(ptr)) /\ Forall is_start e.2 /\ zlen e.2 <= 2.
Proof.
  intros He. destruct (decide (p ∈ ptr <$> insns)) as [Hp|Hp].
  - apply list_elem_of_fmap in Hp as (a & -> & [i Hi]%list_elem_of_lookup). rewrite (retain_edges_at i a Hi) in He.
    destruct (target i a) as [t|] eqn:Et; [|done]. cbn in He. simplify_eq.
    destruct (sr_next _ Hfound i a t Hi Et) as (Hop & Hn & Hlen). exists i, a. split_and!; [done|done|done| | |].
    + intros b Hb. apply retain_lookup. pose proof (listing_next _ _ _ _ _ Hlist Hi Hb) as Hw. unfold insn_width in Hw.
      rewrite (proj2 (Z.eqb_neq _ _)) in Hw by done. rewrite Hw. split; [done|]. by exists (S i), b.
    + cbn. apply Forall_forall. intros d [Hd _]%list_elem_of_filter. done.
    + cbn. etrans; [|exact Hlen]. unfold zlen. pose proof (length_filter (fun d => is_Some (nodes !! d)) t.2). lia.
  - unfold edges, retain_edges in He. by rewrite lookup_fmap, (sr_only _ Hfound p Hp) in He.
Qed.

(** The first block. *)
Lemma pending_first : exists rest, sorted_keys nodes = 0 :: rest /\ pending insns is_start edges 0 rest (entries edges) 0.
Proof.
  destruct (listing_first insns 0 Hlist Hne) as (a & Ha & Hp).
  assert (H0 : is_start 0).
  { apply retain_lookup. split; [apply Hfound|]. by exists 0%nat, a. }
  pose proof (sorted_keys_sorted nodes) as HS. pose proof (proj2 (sorted_keys_elem nodes 0) H0) as Hin.
  assert (Hpos : forall q, q ∈ sorted_keys nodes -> 0 <= q).
  { intros q [_ (i & b & Hb & <-)]%sorted_keys_elem%retain_lookup.
    pose proof (listing_bounds _ _ _ _ Hlist Hb). lia. }
  destruct (sorted_keys nodes) as [|k rest] eqn:Ek; [by apply not_elem_of_nil in Hin|].
  assert (k = 0) as ->.
  { apply elem_of_cons in Hin as [?|Hin]; [done|]. apply StronglySorted_inv in HS as [_ HF].
    pose proof (proj1 (Forall_forall _ _) HF 0 Hin) as Hlt. cbn in Hlt. pose proof (Hpos k ltac:(by left)). lia. }
  exists rest. split; [done|]. split; [by exists a|done| |apply sorted_keys_sorted|].
  - intros q. rewrite <-Ek, sorted_keys_elem. split; [by intros [? _]|]. intros Hq. split; [done|].
    apply Hpos. rewrite <-Ek. by apply sorted_keys_elem.
  - intros p e. rewrite entries_elem. split; [|by intros [? _]]. intros He. split; [done|].
    destruct (retain_edges_insn p e He) as (i & b & Hb & <- & _).
    pose proof (listing_bounds _ _ _ _ Hlist Hb). lia.
Qed.

Lemma block_ext (P Q : Z -> Prop) (es : gmap Z (Z * list Z)) (k : Z) (n n' : CfgNode) (i j : nat) :
  (forall q, P q <-> Q q) -> n'.(cn_instructions) = n.(cn_instructions) -> n'.(cn_destinations) = n.(cn_destinations) ->
  block insns retained P es k n i j -> block insns retained Q es k n' i j.
Proof.
  intros HPQ Hi Hd [H1 H2 H3 H4 H5 H6 H7]. split; [by rewrite Hi|done|done| | |done|by rewrite Hd].
  - intros x a Hx Ha. rewrite <-HPQ. by apply (H4 x a).
  - intros a Ha. apply HPQ. by apply H5.
Qed.

(** Destinations of blocks are blocks. *)
Lemma block_closed (k : Z) (n : CfgNode) (i j : nat) (b : Z) :
  block insns retained is_start edges k n i j -> b ∈ n.(cn_destinations) -> is_start b.
Proof.
  intros Hb Hin. destruct (bl_destinations _ _ _ _ _ _ _ _ Hb) as (z & Hz & Hd). rewrite Hd in Hin.
  destruct (edges !! z.(ptr)) as [e|] eqn:Ee.
  - destruct (retain_edges_insn _ _ Ee) as (_ & _ & _ & _ & _ & _ & HF & _). by apply (proj1 (Forall_forall _ _) HF).
  - destruct (insns !! j) as [c|] eqn:Ec; [|by apply not_elem_of_nil in Hin].
    destruct (retained !! k); [by apply not_elem_of_nil in Hin|]. apply list_elem_of_singleton in Hin as ->.
    by apply (bl_next _ _ _ _ _ _ _ _ Hb).
Qed.

Lemma block_small (P : Z -> Prop) (k : Z) (n : CfgNode) (i j : nat) : block insns retained P edges k n i j ->
  zlen n.(cn_destinations) <= 2.
Proof.
  intros Hb. destruct (bl_destinations _ _ _ _ _ _ _ _ Hb) as (z & Hz & ->). destruct (edges !! z.(ptr)) as [e|] eqn:Ee.
  - by destruct (retain_edges_insn _ _ Ee) as (_ & _ & _ & _ & _ & _ & _ & Hlen).
  - destruct (insns !! j); [|done]. by destruct (retained !! k).
Qed.

Lemma link_blocks : exists nodes1 nodes2, assign_blocks insns retained (sorted_keys nodes) (entries edges) 0 nodes = Ret nodes1 /\
  link_cfg_edges ((fun e => (e.1, e.2.(cn_destinations))) <$> entries nodes1) false nodes1 = Ret nodes2 /\
  cfg_ok nodes2 /\ (forall q, is_Some (nodes2 !! q) <-> is_start q) /\
  forall k n, nodes2 !! k = Some n -> untouched n /\
    exists i j, block insns retained (fun q => is_Some (nodes2 !! q)) edges k n i j.
Proof.
  destruct pending_first as (rest & Ek & Hp). rewrite Ek.
  destruct (assign_blocks_spec insns retained is_start edges Hlist) with (k := 0) (rest := rest) (es := entries edges)
    (i := 0%nat) (nodes := nodes) as (nodes1 & E1 & Hin & Hout); [| |done| |].
  { intros k Hk%retain_lookup. apply Hk. }
  { intros p e He. destruct (retain_edges_insn p e He) as (i & a & ? & ? & ? & ? & _). by exists i, a. }
  { intros q Hq. apply retain_default, sorted_keys_elem. by rewrite Ek. }
  change (Z.of_nat 0) with 0 in E1. exists nodes1. rewrite E1. rewrite <-Ek in Hin, Hout. setoid_rewrite sorted_keys_elem in Hin.
  assert (Hdom : forall q, is_Some (nodes1 !! q) <-> is_start q).
  { intros q. split; [|intros Hq; destruct (Hin q Hq) as (n & _ & _ & ? & _); by exists n]. intros [n Hn].
    destruct (decide (is_start q)) as [|Hq]; [done|]. rewrite Hout in Hn by (by rewrite sorted_keys_elem). by exists n. }
  assert (Hblk : forall k n, nodes1 !! k = Some n -> exists i j, block insns retained is_start edges k n i j /\ n.(cn_sources) = [] /\ untouched n).
  { intros k n Hn. destruct (Hin k) as (n' & i & j & Hn' & Hb & Hs); [apply Hdom; by exists n|].
    assert (n' = n) as -> by congruence. by exists i, j. }
  assert (Hclosed : forall a b, cfg_edge nodes1 a b -> is_Some (nodes1 !! b)).
  { intros a b (n & Hn & Hb). destruct (Hblk a n Hn) as (i & j & Hbl & _). apply Hdom. by apply (block_closed a n i j). }
  destruct (link_cfg_edges_spec ((fun e => (e.1, e.2.(cn_destinations))) <$> entries nodes1) nodes1) as (nodes2 & E2 & Hl).
  { intros a d b Hd Hb. apply list_elem_of_fmap in Hd as ([k n] & [= -> ->] & Hn). apply (Hclosed k). exists n.
    split; [by apply entries_elem|done]. }
  exists nodes2. destruct (linked_ok nodes1 nodes2 Hclosed) as [Hok _]; [|done|].
  { intros k n Hn. by destruct (Hblk k n Hn) as (_ & _ & _ & ? & _). }
  assert (Hdom2 : forall q, is_Some (nodes2 !! q) <-> is_start q).
  { intros q. rewrite (sourced_dom _ _ _ _ Hl). apply Hdom. }
  split_and!; [done|done|done|done|]. intros k n Hn. pose proof (Hl k) as Hk. rewrite Hn in Hk.
  destruct (nodes1 !! k) as [n1|] eqn:En1; [|done]. destruct Hk as (Hd & Hi & Hu & _).
  destruct (Hblk k n1 En1) as (i & j & Hb & _ & Hu1). split; [by apply Hu|]. exists i, j. apply (block_ext is_start) with n1; [|done|done|done].
  intros q. by rewrite Hdom2.
Qed.
End Pass.

(** ** Analyses *)

(** An analysis as it is before the pass: its instructions follow each other, and the super root
    is behind them. *)
Record fresh_analysis (self : Analysis) : Prop := {
  fr_listing : listing 0 self.(an_instructions);
  fr_nonempty : self.(an_instructions) <> [];
  fr_nodes : self.(an_cfg_nodes) = ∅;
  fr_root : forall i a, self.(an_instructions) !! i = Some a -> a.(ptr) < self.(an_super_root);
}.

Definition is_block (self : Analysis) (k : Z) : Prop := is_Some (self.(an_cfg_nodes) !! k).

(** The destinations of the instruction at index [i], if it transfers control: the blocks among
    those the instruction names. *)
Definition transfer (version : SBPFVersion) (self : Analysis) (i : nat) (a : Insn) : option (list Z) :=
  (fun e => filter (is_block self) e.2) <$>
    targets false version self.(an_executable).(function_registry) self.(an_super_root) (Z.of_nat i) a.

Record split_result (version : SBPFVersion) (self self' : Analysis) : Prop := {
  sl_ok : cfg_ok self'.(an_cfg_nodes);
  sl_first : is_block self' 0;
  sl_start : forall k, is_block self' k -> exists i a, self.(an_instructions) !! i = Some a /\ a.(ptr) = k;
  sl_functions : forall f, is_Some (self'.(an_functions) !! f) <->
    is_Some (self.(an_functions) !! f) /\ exists i a, self.(an_instructions) !! i = Some a /\ a.(ptr) = f;
  sl_function_blocks : forall f, is_Some (self'.(an_functions) !! f) -> is_block self' f;
  sl_blocks : exists edges : gmap Z (Z * list Z),
    (forall i a, self.(an_instructions) !! i = Some a -> snd <$> edges !! a.(ptr) = transfer version self' i a) /\
    forall k n, self'.(an_cfg_nodes) !! k = Some n ->
      exists i j, block self.(an_instructions) self'.(an_functions) (is_block self') edges k n i j;
  sl_untouched : forall k n, self'.(an_cfg_nodes) !! k = Some n -> untouched n /\ zlen n.(cn_destinations) <= 2;
  sl_same : self'.(an_instructions) = self.(an_instructions) /\ self'.(an_super_root) = self.(an_super_root) /\
    self'.(an_executable) = self.(an_executable) /\ self'.(an_entrypoint) = self.(an_entrypoint) /\
    self'.(an_dfg_reverse_edges) = self.(an_dfg_reverse_edges);
}.

Lemma filter_dec_ext {A} (P Q : A -> Prop) (d1 : forall x, Decision (P x)) (d2 : forall x, Decision (Q x)) (l : list A) :
  (forall x, P x <-> Q x) -> filter P l = filter Q l.
Proof. intros H. induction l as [|a l IH]; [done|]. rewrite !filter_cons, IH. pose proof (H a). do 2 case_decide; tauto || done. Qed.

Lemma split_spec (version : SBPFVersion) (self : Analysis) : fresh_analysis self ->
  exists self', split_into_basic_blocks false version self = Ret self' /\ split_result version self self'.
Proof.
  intros [Hl Hne Hn Hroot]. unfold split_into_basic_blocks. rewrite Hn.
  destruct (scan_instructions_spec version self.(an_executable).(function_registry) self.(an_super_root) _ self.(an_functions) Hl)
    as (found & -> & Hf). cbn [exec_bind].
  destruct (link_blocks version _ _ _ _ Hl Hne found Hf) as (nodes1 & nodes2 & -> & E2 & Hok & Hdom & Hblk). cbn [exec_bind].
  rewrite E2. cbn [exec_bind]. eexists. split; [done|].
  pose proof (fun k => retain_lookup self.(an_instructions) found k) as Hret. cbn in Hdom.
  split; cbn [an_cfg_nodes set_functions set_cfg_nodes an_functions an_instructions an_super_root an_executable is_block an_entrypoint].
  - done.
  - apply Hdom, Hret. split; [apply Hf|]. destruct (listing_first _ _ Hl Hne) as (a & ? & ?). by exists 0%nat, a.
  - intros k Hk%Hdom%Hret. apply Hk.
  - intros f. split.
    + intros [v [Hv Hk]%map_lookup_filter_Some]. split; [by exists v|]. by apply Hret.
    + intros [[v Hv] Hi]. exists v. apply map_lookup_filter_Some. split; [done|]. apply Hret. split; [|done]. apply Hf. by exists v.
  - intros f [v [_ Hk]%map_lookup_filter_Some]. by apply Hdom.
  - eexists. split; [|intros k n Hk; apply (Hblk k n Hk)]. intros i a Hi. erewrite retain_edges_at by done. unfold transfer.
    cbn [an_executable an_super_root set_functions set_cfg_nodes]. destruct (targets _ _ _ _ _ _) as [t|]; [|done].
    cbn. f_equal. apply filter_dec_ext. intros x. unfold is_block. cbn. by rewrite Hdom.
  - intros k n Hk. destruct (Hblk k n Hk) as (? & i & j & Hb). split; [done|]. by eapply block_small.
  - done.
Qed.

(** Blocks of the same instruction are the same. *)
Lemma block_unique insns functions P es k1 n1 i1 j1 k2 n2 i2 j2 (x : nat) :
  block insns functions P es k1 n1 i1 j1 -> block insns functions P es k2 n2 i2 j2 -> P k1 -> P k2 ->
  (i1 <= x < j1)%nat -> (i2 <= x < j2)%nat -> k1 = k2.
Proof.
  intros H1 H2 P1 P2 Hx1 Hx2. destruct (bl_first _ _ _ _ _ _ _ _ H1) as (a1 & Ha1 & <-), (bl_first _ _ _ _ _ _ _ _ H2) as (a2 & Ha2 & <-).
  destruct (decide (i1 < i2)%nat); [by destruct (bl_inner _ _ _ _ _ _ _ _ H1 i2 a2 ltac:(lia) Ha2)|].
  destruct (decide (i2 < i1)%nat); [by destruct (bl_inner _ _ _ _ _ _ _ _ H2 i1 a1 ltac:(lia) Ha1)|].
  assert (i1 = i2) as -> by lia. congruence.
Qed.

(** Every instruction is in a block. *)
Lemma block_exists insns functions P es (nodes : CfgNodes) : listing 0 insns -> (forall k, P k <-> is_Some (nodes !! k)) -> P 0 ->
  (forall k n, nodes !! k = Some n -> exists i j, block insns functions P es k n i j) ->
  forall x, (x < length insns)%nat -> exists k n i j, nodes !! k = Some n /\ block insns functions P es k n i j /\ (i <= x < j)%nat.
Proof.
  intros Hl HP H0 Hblk. assert (Hat : forall x a, insns !! x = Some a -> P a.(ptr) ->
    exists n j, nodes !! a.(ptr) = Some n /\ block insns functions P es a.(ptr) n x j /\ (x < j)%nat).
  { intros x a Hx Ha. apply HP in Ha as [n Hn]. destruct (Hblk _ n Hn) as (i & j & Hb). exists n, j. split; [done|].
    destruct (bl_first _ _ _ _ _ _ _ _ Hb) as (b & Hb' & He). pose proof (listing_inj _ _ _ _ _ _ Hl Hb' Hx He) as ->.
    split; [done|]. apply (bl_nonempty _ _ _ _ _ _ _ _ Hb). }
  induction x as [|x IH]; intros Hx.
  - destruct (listing_first insns 0 Hl) as (a & Ha & Hp); [intros ->; cbn in Hx; lia|].
    destruct (Hat 0%nat a Ha) as (n & j & ? & ? & ?); [by rewrite Hp|]. exists a.(ptr), n, 0%nat, j. split_and!; [done|done|lia|lia].
  - destruct IH as (k & n & i & j & Hn & Hb & Hij); [lia|]. destruct (decide (S x < j)%nat).
    { exists k, n, i, j. split_and!; [done|done|lia|lia]. }
    destruct (lookup_lt_is_Some_2 insns (S x) Hx) as [a Ha]. assert (j = S x) as -> by lia.
    destruct (Hat (S x) a Ha) as (n' & j' & ? & ? & ?); [by apply (bl_next _ _ _ _ _ _ _ _ Hb)|].
    exists a.(ptr), n', (S x), j'. split_and!; [done|done|lia|lia].
Qed.

(** ** Sizes *)

Lemma listing_length (insns : list Insn) (pc : Z) : listing pc insns -> 0 <= pc <= 2 ^ 60 -> pc + zlen insns <= 2 ^ 60 + 1.
Proof.
  revert pc. induction insns as [|a l IH]; intros pc Hl Hpc; [unfold zlen; cbn; lia|]. destruct Hl as (_ & Hp & _ & Hl).
  pose proof (insn_width_range a). rewrite zlen_cons.
  destruct l as [|b l]; [unfold zlen; cbn; lia|]. pose proof Hl as (_ & Hp' & _). specialize (IH _ Hl ltac:(lia)). lia.
Qed.

Lemma size_list_to_set_le (l : list Z) : (size (list_to_set l : gset Z) <= length l)%nat.
Proof.
  induction l as [|a l IH]; cbn; [by rewrite size_empty|]. rewrite size_union_alt, size_singleton.
  pose proof (subseteq_size ((list_to_set l : gset Z) ∖ {[a]}) (list_to_set l) ltac:(intros x [? _]%elem_of_difference; done)). lia.
Qed.

Lemma split_small (version : SBPFVersion) (self self' : Analysis) : fresh_analysis self -> split_result version self self' ->
  cfg_small self'.(an_cfg_nodes) /\ (u64_max ∉ sorted_keys self'.(an_cfg_nodes)) /\
  self'.(an_cfg_nodes) !! self.(an_super_root) = None.
Proof.
  intros Hfr Hs. pose proof (fr_listing _ Hfr) as Hl.
  assert (Hkey : forall k, is_Some (self'.(an_cfg_nodes) !! k) -> 0 <= k < 2 ^ 60 /\ k < self.(an_super_root)).
  { intros k Hk. destruct (sl_start _ _ _ Hs k Hk) as (i & a & Ha & <-).
    pose proof (listing_bounds _ _ _ _ Hl Ha). pose proof (fr_root _ Hfr i a Ha). lia. }
  split_and!; [split| |].
  - assert (Hsub : dom self'.(an_cfg_nodes) ⊆ list_to_set (ptr <$> self.(an_instructions))).
    { intros k Hk%elem_of_dom. destruct (sl_start _ _ _ Hs k Hk) as (i & a & Ha & <-).
      apply elem_of_list_to_set, list_elem_of_fmap_2. by apply list_elem_of_lookup_2 in Ha. }
    apply subseteq_size in Hsub. rewrite size_dom in Hsub.
    pose proof (size_list_to_set_le (ptr <$> self.(an_instructions))) as Hsz. rewrite length_fmap in Hsz.
    pose proof (listing_length _ _ Hl ltac:(lia)) as Hlen. unfold zlen in Hlen. unfold u64_max. lia.
  - intros a n Hn. pose proof (proj2 (sl_untouched _ _ _ Hs a n Hn)). lia.
  - intros Hk%sorted_keys_elem. destruct (Hkey _ Hk) as [? _]. unfold u64_max in *. lia.
  - destruct (self'.(an_cfg_nodes) !! self.(an_super_root)) as [n|] eqn:En; [|done].
    destruct (Hkey self.(an_super_root)) as [_ ?]; [by exists n|]. lia.
Qed.

(** * Properties *)

(** C28: the split into basic blocks returns; every instruction is in exactly one block; the first
    instruction of a block is at the program counter the block is named by, no other one starts
    a block, and none but the last transfers control. *)
Theorem basic_blocks_partition (version : SBPFVersion) (self : Analysis) : fresh_analysis self ->
  exists self', split_into_basic_blocks false version self = Ret self' /\
    (forall x, (x < length self.(an_instructions))%nat -> exists k n, self'.(an_cfg_nodes) !! k = Some n /\
      n.(cn_instructions).(ir_start) <= Z.of_nat x < n.(cn_instructions).(ir_end) /\
      forall k' n', self'.(an_cfg_nodes) !! k' = Some n' ->
        n'.(cn_instructions).(ir_start) <= Z.of_nat x < n'.(cn_instructions).(ir_end) -> k' = k) /\
    (forall k n x a, self'.(an_cfg_nodes) !! k = Some n -> self.(an_instructions) !! x = Some a ->
      n.(cn_instructions).(ir_start) <= Z.of_nat x < n.(cn_instructions).(ir_end) ->
      (is_block self' a.(ptr) <-> Z.of_nat x = n.(cn_instructions).(ir_start)) /\
      (Z.of_nat x = n.(cn_instructions).(ir_start) -> a.(ptr) = k) /\
      (Z.of_nat x + 1 < n.(cn_instructions).(ir_end) -> transfer version self' x a = None)).
Proof.
  intros Hfr. destruct (split_spec version self Hfr) as (self' & E & [Hok H0 Hst _ _ (es & Hes & Hblk) _ _]).
  exists self'. split; [done|]. pose proof (fr_listing _ Hfr) as Hl. split.
  - intros x Hx. destruct (block_exists _ _ _ es self'.(an_cfg_nodes) Hl (fun k => iff_refl _) H0 Hblk x Hx) as (k & n & i & j & Hn & Hb & Hij).
    exists k, n. split; [done|]. rewrite (bl_range _ _ _ _ _ _ _ _ Hb). cbn. split; [lia|]. intros k' n' Hn' Hx'.
    destruct (Hblk k' n' Hn') as (i' & j' & Hb'). rewrite (bl_range _ _ _ _ _ _ _ _ Hb') in Hx'. cbn in Hx'.
    apply (block_unique _ _ _ _ _ _ _ _ _ _ _ _ x Hb' Hb); [by exists n'|by exists n|lia|lia].
  - intros k n x a Hn Ha. destruct (Hblk k n Hn) as (i & j & Hb). rewrite (bl_range _ _ _ _ _ _ _ _ Hb). cbn. intros Hx.
    destruct (bl_first _ _ _ _ _ _ _ _ Hb) as (b & Hb1 & Hbk).
    assert (Hfirst : x = i -> a.(ptr) = k) by (intros ->; congruence). split_and!.
    + split; [|intros Hxi; rewrite Hfirst by lia; by exists n]. intros Hp. destruct (decide (x = i)) as [->|]; [done|].
      by destruct (bl_inner _ _ _ _ _ _ _ _ Hb x a ltac:(lia) Ha).
    + intros Hxi. apply Hfirst. lia.
    + intros Hxj. rewrite <-(Hes x a Ha), (bl_straight _ _ _ _ _ _ _ _ Hb x a); [done|lia|lia|done].
Qed.

(** after the split, the edges of the graph are consistent: destinations are blocks, and the
    sources of a block are the blocks that lead to it.  The destinations of a block are those of
    its last instruction, if it transfers control; else, for a block that does not start a
    function, the next block. *)
Theorem basic_block_edges (version : SBPFVersion) (self : Analysis) : fresh_analysis self ->
  exists self', split_into_basic_blocks false version self = Ret self' /\ cfg_ok self'.(an_cfg_nodes) /\
    self'.(an_cfg_nodes) !! self.(an_super_root) = None /\
    (forall f, is_Some (self'.(an_functions) !! f) -> is_block self' f) /\
    (forall k n, self'.(an_cfg_nodes) !! k = Some n -> exists z,
      self.(an_instructions) !! Z.to_nat (n.(cn_instructions).(ir_end) - 1) = Some z /\
      n.(cn_destinations) =
        match transfer version self' (Z.to_nat (n.(cn_instructions).(ir_end) - 1)) z,
          self.(an_instructions) !! Z.to_nat n.(cn_instructions).(ir_end), self'.(an_functions) !! k with
        | Some d, _, _ => d
        | None, Some next, None => [next.(ptr)]
        | _, _, _ => []
        end).
Proof.
  intros Hfr. destruct (split_spec version self Hfr) as (self' & E & [Hok H0 Hst _ Hf (es & Hes & Hblk) _ _]).
  exists self'. split_and!; [done|done| |done|].
  - destruct (self'.(an_cfg_nodes) !! self.(an_super_root)) as [n|] eqn:En; [|done].
    destruct (Hst self.(an_super_root)) as (i & a & Ha & Hp); [by exists n|]. pose proof (fr_root _ Hfr i a Ha). lia.
  - intros k n Hn. destruct (Hblk k n Hn) as (i & j & Hb). rewrite (bl_range _ _ _ _ _ _ _ _ Hb). cbn.
    pose proof (bl_nonempty _ _ _ _ _ _ _ _ Hb). replace (Z.to_nat (Z.of_nat j - 1)) with (j - 1)%nat by lia. rewrite Nat2Z.id.
    destruct (bl_destinations _ _ _ _ _ _ _ _ Hb) as (z & Hz & Hd). exists z. split; [done|]. rewrite Hd, <-(Hes _ z Hz).
    by destruct (es !! z.(ptr)), (self.(an_instructions) !! j), (self'.(an_functions) !! k).
Qed.

(** ** An example *)

(** [mov64 r1, 3; add64 r1, -1; jne r1, 0, -2; exit], with a function at its start. *)
Definition loop_insns : list Insn :=
  [mkInsn 0 MOV64_IMM 1 0 0 3; mkInsn 1 ADD64_IMM 1 0 0 (-1); mkInsn 2 JNE64_IMM 1 0 (-2) 0; mkInsn 3 EXIT 0 0 0 0].
Definition loop_analysis (functions : gmap Z (Z * list Z)) : Analysis := {|
  an_executable := {| elf_bytes := []; sbpf_version := V1; ro_section := Owned 0 []; text_section_vaddr := 0;
     text_section_range := (0, 0); entry_pc := 0; function_registry := ∅; loader := new_mock |};
  an_instructions := loop_insns; an_functions := functions; an_cfg_nodes := ∅; an_topological_order := [];
  an_entrypoint := 0; an_super_root := 4; an_dfg_forward_edges := ∅; an_dfg_reverse_edges := ∅ |}.

Lemma loop_fresh (functions : gmap Z (Z * list Z)) : fresh_analysis (loop_analysis functions).
Proof.
  split; [|done|done|].
  - repeat (split; [reflexivity|split; [reflexivity|split; [unfold in_s; cbn; lia|]]]). exact I.
  - intros i a Ha%list_elem_of_lookup_2. cbn in *.
    repeat (apply elem_of_cons in Ha as [->|Ha]; [cbn; lia|]). by apply not_elem_of_nil in Ha.
Qed.

Lemma basic_blocks_partition_witness : exists self', split_into_basic_blocks false V1 (loop_analysis ∅) = Ret self' /\
  exists k n, self'.(an_cfg_nodes) !! k = Some n /\ n.(cn_instructions).(ir_start) <= 2 < n.(cn_instructions).(ir_end).
Proof.
  destruct (basic_blocks_partition V1 (loop_analysis ∅) (loop_fresh ∅)) as (self' & E & Hx & _). exists self'. split; [exact E|].
  destruct (Hx 2%nat) as (k & n & Hn & Hr & _); [cbn; lia|]. exists k, n. split; [exact Hn|exact Hr].
Defined.

Lemma basic_block_edges_witness : exists self', split_into_basic_blocks false V1 (loop_analysis ∅) = Ret self' /\
  cfg_ok self'.(an_cfg_nodes) /\ self'.(an_cfg_nodes) !! 4 = None.
Proof.
  destruct (basic_block_edges V1 (loop_analysis ∅) (loop_fresh ∅)) as (self' & E & Hok & Hr & _). exists self'.
  split; [exact E|]. split; [exact Hok|exact Hr].
Defined.

Definition block_edges (r : Exec EbpfError Analysis) : list (Z * (Z * Z) * list Z) :=
  match r with
  | Ret self => (fun '(k, n) => (k, (n.(cn_instructions).(ir_start), n.(cn_instructions).(ir_end)), n.(cn_destinations)))
      <$> entries self.(an_cfg_nodes)
  | _ => []
  end.

(** Without a function at the start, the first block leads to the loop. *)
Example loop_blocks : block_edges (split_into_basic_blocks false V1 (loop_analysis ∅)) =
  [(0, (0, 1), [1]); (1, (1, 3), [3; 1]); (3, (3, 4), [])].
Proof. vm_compute. reflexivity. Qed.

(** With a function at the start, it does not, though its only instruction is followed by the
    loop: the test of the code is for the block and not for the next one. *)
Example function_block_without_edge :
  block_edges (split_into_basic_blocks false V1 (loop_analysis {[0 := (0, [])]})) =
  [(0, (0, 1), []); (1, (1, 3), [3; 1]); (3, (3, 4), [])].
Proof. vm_compute. reflexivity. Qed.
