(* ===== verification/Dominance.v ===== *)
(** The hierarchy of dominators of the control-flow graph (src/static_analysis.rs,
    [control_flow_graph_dominance_hierarchy]): the parents it stores are dominators. *)
From stdpp Require Import sorting relations.
From S2P Require Import Prelude Text Error Ebpf Program Executable Cfg StaticAnalysis Tarjan TarjanCfg.
Open Scope list_scope.

Definition set_dominator_parent (p : Z) (n : CfgNode) : CfgNode :=
  mkCfgNode n.(cn_label) n.(cn_sources) n.(cn_destinations) n.(cn_instructions) n.(cn_topo_index) p n.(cn_dominated_children).
Definition set_dominated_children (l : list Z) (n : CfgNode) : CfgNode :=
  mkCfgNode n.(cn_label) n.(cn_sources) n.(cn_destinations) n.(cn_instructions) n.(cn_topo_index) n.(cn_dominator_parent) l.

(** Both nodes go up in the hierarchy until they meet; the fuel is the number of moves. *)
(* src/static_analysis.rs:875-891, Analysis::control_flow_graph_dominance_intersect *)
Fixpoint control_flow_graph_dominance_intersect (fuel : nat) (cfg_nodes : CfgNodes) (a b : Z) : Exec EbpfError Z :=
  if a =? b then Ret b
  else
    match fuel with
    | O => Panic OutOfFuel
    | S fuel =>
        let! node_a := get_node cfg_nodes a in
        let! node_b := get_node cfg_nodes b in
        match topo_cmp node_a.(cn_topo_index) node_b.(cn_topo_index) with
        | Gt => control_flow_graph_dominance_intersect fuel cfg_nodes a node_b.(cn_dominator_parent)
        | Lt => control_flow_graph_dominance_intersect fuel cfg_nodes node_a.(cn_dominator_parent) b
        | Eq => Panic DebugAssertFailed
        end
    end.

Definition intersect_fuel (cfg_nodes : CfgNodes) : nat := 2 * size cfg_nodes.

(** What the sources that have a parent have in common. *)
(* src/static_analysis.rs:908-918, Analysis::control_flow_graph_dominance_hierarchy *)
Fixpoint common_dominator (cfg_nodes : CfgNodes) (sources : list Z) (dominator_parent : Z) : Exec EbpfError Z :=
  match sources with
  | [] => Ret dominator_parent
  | p :: sources =>
      let! node := get_node cfg_nodes p in
      if node.(cn_dominator_parent) =? u64_max then common_dominator cfg_nodes sources dominator_parent
      else
        let! dominator_parent :=
          if dominator_parent =? u64_max then Ret p
          else control_flow_graph_dominance_intersect (intersect_fuel cfg_nodes) cfg_nodes p dominator_parent in
        common_dominator cfg_nodes sources dominator_parent
  end.

(** One pass over the nodes: the nodes, and whether none changed. *)
(* src/static_analysis.rs:905-924, Analysis::control_flow_graph_dominance_hierarchy *)
Definition dominance_round (order : list Z) (cfg_nodes : CfgNodes) : Exec EbpfError (CfgNodes * bool) :=
  each_state order (fun b '(cfg_nodes, terminate) =>
    let! cfg_node := get_node cfg_nodes b in
    let! dominator_parent := common_dominator cfg_nodes cfg_node.(cn_sources) u64_max in
    if cfg_node.(cn_dominator_parent) =? dominator_parent then Ret (cfg_nodes, terminate)
    else Ret (<[b := set_dominator_parent dominator_parent cfg_node]> cfg_nodes, false)) (cfg_nodes, true).

(* src/static_analysis.rs:904-928, Analysis::control_flow_graph_dominance_hierarchy *)
Fixpoint dominance_rounds (fuel : nat) (order : list Z) (cfg_nodes : CfgNodes) : Exec EbpfError CfgNodes :=
  match fuel with
  | O => Panic OutOfFuel
  | S fuel =>
      let! (cfg_nodes, terminate) := dominance_round order cfg_nodes in
      if terminate : bool then Ret cfg_nodes else dominance_rounds fuel order cfg_nodes
  end.

(* src/static_analysis.rs:929-938, Analysis::control_flow_graph_dominance_hierarchy *)
Definition dominated_children (order : list Z) (cfg_nodes : CfgNodes) : Exec EbpfError CfgNodes :=
  each_state order (fun b cfg_nodes =>
    let! cfg_node := get_node cfg_nodes b in
    let p := cfg_node.(cn_dominator_parent) in
    if p =? u64_max then Panic DebugAssertFailed
    else if b =? p then Ret cfg_nodes
    else update_node cfg_nodes p (fun n => set_dominated_children (n.(cn_dominated_children) ++ [b]) n)) cfg_nodes.

(* src/static_analysis.rs:896-939, Analysis::control_flow_graph_dominance_hierarchy *)
Definition control_flow_graph_dominance_hierarchy (fuel : nat) (self : Analysis) : Exec EbpfError Analysis :=
  if bool_decide (self.(an_cfg_nodes) = ∅) then Ret self
  else
    let! cfg_nodes := update_node self.(an_cfg_nodes) self.(an_super_root) (set_dominator_parent self.(an_super_root)) in
    let! cfg_nodes := dominance_rounds fuel self.(an_topological_order) cfg_nodes in
    let! cfg_nodes := dominated_children self.(an_topological_order) cfg_nodes in
    Ret (set_cfg_nodes cfg_nodes self).

(** * Ancestors *)

Section Hierarchy.
Context (nodes : CfgNodes).

Definition parent (k p : Z) : Prop := exists n, nodes !! k = Some n /\ n.(cn_dominator_parent) = p.
Definition ancestor : relation Z := rtc parent.

(** Parents are nodes, or not known. *)
Definition parents_ok : Prop := forall k p, parent k p -> p = u64_max \/ is_Some (nodes !! p).

Lemma intersect_ancestor (fuel : nat) : forall a b c,
  control_flow_graph_dominance_intersect fuel nodes a b = Ret c -> ancestor a c /\ ancestor b c.
Proof.
  induction fuel as [|fuel IH]; intros a b c; cbn [control_flow_graph_dominance_intersect];
    (destruct (Z.eqb_spec a b) as [->|Hne]; [intros [= <-]; split; apply rtc_refl|]); [done|].
  unfold get_node. destruct (nodes !! a) as [na|] eqn:Ea; [|done]. cbn [expect exec_bind].
  destruct (nodes !! b) as [nb|] eqn:Eb; [|done]. cbn [expect exec_bind].
  destruct (topo_cmp _ _); [done| |]; intros H; destruct (IH _ _ _ H) as [H1 H2]; split; try done.
  - eapply rtc_l; [by exists na|done].
  - eapply rtc_l; [by exists nb|done].
Qed.

Lemma ancestor_node (a c : Z) : parents_ok -> u64_max ∉ sorted_keys nodes -> is_Some (nodes !! a) -> ancestor a c ->
  c = u64_max \/ is_Some (nodes !! c).
Proof.
  intros Hp Hmax Ha. induction 1 as [a|a b c Hab Hr IH]; [by right|].
  destruct (Hp _ _ Hab) as [->|Hb]; [|by apply IH]. left.
  destruct Hr as [|x y z (n & Hn & _)]; [done|]. destruct Hmax. apply sorted_keys_elem. by exists n.
Qed.

(** The common dominator is above every source that has a parent. *)
Lemma common_dominator_spec (sources : list Z) : forall acc c,
  common_dominator nodes sources acc = Ret c ->
  parents_ok -> u64_max ∉ sorted_keys nodes -> (acc = u64_max \/ is_Some (nodes !! acc)) ->
  (c = u64_max \/ is_Some (nodes !! c)) /\
  ((forall a, is_Some (nodes !! a) -> ~ ancestor a u64_max) ->
   (acc <> u64_max -> ancestor acc c) /\
   forall p q, p ∈ sources -> parent p q -> q <> u64_max -> ancestor p c).
Proof.
  induction sources as [|p sources IH]; intros acc c; cbn [common_dominator].
  - intros [= <-] _ _ Hacc. split; [done|]. intros _. split; [intros _; apply rtc_refl|by intros p q ?%not_elem_of_nil].
  - unfold get_node. destruct (nodes !! p) as [np|] eqn:Ep; [|done]. cbn [expect exec_bind]. intros H Hpo Hmax Hacc.
    assert (Hpar : forall q, parent p q -> q = np.(cn_dominator_parent)) by (intros q (n & ? & <-); congruence).
    destruct (Z.eqb_spec np.(cn_dominator_parent) u64_max) as [Hu|Hu].
    { destruct (IH acc c H Hpo Hmax Hacc) as [Hc Hin]. split; [done|]. intros Hno. destruct (Hin Hno) as [H1 H2].
      split; [done|]. intros x q [->|Hx]%elem_of_cons Hq Hq'; [|by apply (H2 x q)]. by rewrite (Hpar q Hq) in Hq'. }
    set (m := if acc =? u64_max then Ret p else _) in H. destruct m as [d| |] eqn:Em; [|done|done]. cbn [exec_bind] in H.
    unfold m in Em. assert (Hd : ancestor p d /\ (acc <> u64_max -> ancestor acc d)).
    { destruct (Z.eqb_spec acc u64_max) as [->|Hacc']; [injection Em as [= <-]; split; [apply rtc_refl|done]|].
      apply intersect_ancestor in Em as [? ?]. done. }
    destruct Hd as [Hpd Haccd]. assert (Hdn : d = u64_max \/ is_Some (nodes !! d)) by (apply (ancestor_node p d Hpo Hmax); [by exists np|done]).
    destruct (IH d c H Hpo Hmax Hdn) as [Hc Hin]. split; [done|]. intros Hno. destruct (Hin Hno) as [H1 H2].
    assert (Hd' : d <> u64_max) by (intros ->; apply (Hno p); [by exists np|done]).
    split; [intros Ha; etrans; [by apply Haccd|by apply H1]|].
    intros x q [->|Hx]%elem_of_cons Hq Hq'; [etrans; [done|by apply H1]|by apply (H2 x q)].
Qed.
End Hierarchy.

(** * Walks *)

(** A walk from [a] to the node at its end; the list has the nodes before it. *)
Inductive walk (cfg : CfgNodes) (a : Z) : list Z -> Z -> Prop :=
  | walk_here : walk cfg a [] a
  | walk_edge l b c : walk cfg a l b -> cfg_edge cfg b c -> walk cfg a (l ++ [b]) c.

(** A node is reached by a walk that it is only at the end of. *)
Lemma walk_simple (cfg : CfgNodes) (a x : Z) (l : list Z) (b : Z) : walk cfg a l b -> x ∈ l \/ x = b ->
  exists l', walk cfg a l' x /\ x ∉ l'.
Proof.
  induction 1 as [|l b c Hw IH He].
  - intros [?%not_elem_of_nil| ->]; [done|]. exists []. split; [constructor|apply not_elem_of_nil].
  - intros [Hx|Hx]; [apply IH; rewrite elem_of_app, list_elem_of_singleton in Hx; tauto|]. subst x.
    destruct (decide (c ∈ l ++ [b])) as [Hc|Hc]; [apply IH; rewrite elem_of_app, list_elem_of_singleton in Hc; tauto|].
    exists (l ++ [b]). split; [by eapply walk_edge|done].
Qed.

Lemma reach_walk (cfg : CfgNodes) (a b : Z) : cfg_reach cfg a b -> exists l, walk cfg a l b.
Proof.
  revert b. apply rtc_ind_r; [exists []; constructor|]. intros y z _ He [l Hl]. exists (l ++ [y]). by eapply walk_edge.
Qed.

(** * The passes *)

(** What the passes keep. *)
Definition same_graph (nodes nodes' : CfgNodes) : Prop := forall k,
  match nodes !! k, nodes' !! k with
  | Some n, Some n' => n'.(cn_sources) = n.(cn_sources) /\ n'.(cn_destinations) = n.(cn_destinations) /\
      n'.(cn_dominated_children) = n.(cn_dominated_children) /\ n'.(cn_instructions) = n.(cn_instructions) /\
      n'.(cn_topo_index) = n.(cn_topo_index)
  | None, None => True
  | _, _ => False
  end.

#[export] Instance same_graph_preorder : PreOrder same_graph.
Proof.
  split.
  - intros m k. by destruct (m !! k).
  - intros m1 m2 m3 H1 H2 k. specialize (H1 k). specialize (H2 k).
    destruct (m1 !! k), (m2 !! k), (m3 !! k); try done. destruct H1 as (? & ? & ? & ? & ?), H2 as (? & ? & ? & ? & ?). split_and!; congruence.
Qed.

Lemma same_graph_dom (nodes nodes' : CfgNodes) (k : Z) : same_graph nodes nodes' -> (is_Some (nodes' !! k) <-> is_Some (nodes !! k)).
Proof. intros H. specialize (H k). destruct (nodes !! k), (nodes' !! k); by split; [|]; eauto. Qed.

Lemma same_graph_update (nodes : CfgNodes) (k p : Z) (n : CfgNode) : nodes !! k = Some n ->
  same_graph nodes (<[k := set_dominator_parent p n]> nodes).
Proof.
  intros Hk x. destruct (decide (x = k)) as [->|Hne].
  - by rewrite Hk, lookup_insert_eq.
  - rewrite lookup_insert_ne by done. by destruct (nodes !! x).
Qed.

Section Rounds.
Context (super_root : Z) (order : list Z) (Hroot : super_root ∉ order).

Record round_inv (nodes nodes' : CfgNodes) : Prop := {
  ri_same : same_graph nodes nodes';
  ri_parents : parents_ok nodes';
  ri_root : parent nodes' super_root super_root;
}.

Lemma keys_max (nodes nodes' : CfgNodes) : same_graph nodes nodes' -> u64_max ∉ sorted_keys nodes -> u64_max ∉ sorted_keys nodes'.
Proof. intros Hs. rewrite !sorted_keys_elem. by rewrite (same_graph_dom _ _ _ Hs). Qed.

Lemma parents_ok_update (nodes : CfgNodes) (b p : Z) (n : CfgNode) : parents_ok nodes -> nodes !! b = Some n ->
  p = u64_max \/ is_Some (nodes !! p) -> parents_ok (<[b := set_dominator_parent p n]> nodes).
Proof.
  intros Ho Hb Hp k q (m & Hm & Hq). rewrite lookup_insert_is_Some'. destruct (decide (k = b)) as [->|Hne].
  - rewrite lookup_insert_eq in Hm. simplify_eq. cbn. destruct Hp; auto.
  - rewrite lookup_insert_ne in Hm by done. destruct (Ho k q) as [?|?]; [by exists m|by left|right; by right].
Qed.

(** One pass.  If nothing changed, every node has the common dominator of its sources. *)
Lemma dominance_round_spec (nodes : CfgNodes) (t : bool) (l : list Z) : l ⊆ order -> forall cur cur' t',
  u64_max ∉ sorted_keys nodes -> round_inv nodes cur ->
  each_state l (fun b '(cfg_nodes, terminate) =>
    let! cfg_node := get_node cfg_nodes b in
    let! dominator_parent := common_dominator cfg_nodes cfg_node.(cn_sources) u64_max in
    if cfg_node.(cn_dominator_parent) =? dominator_parent then Ret (cfg_nodes, terminate)
    else Ret (<[b := set_dominator_parent dominator_parent cfg_node]> cfg_nodes, false)) (cur, t) = Ret (cur', t') ->
  round_inv nodes cur' /\ (t = false -> t' = false) /\
  (t' = true -> cur' = cur /\ forall b, b ∈ l -> exists n, cur !! b = Some n /\
    common_dominator cur n.(cn_sources) u64_max = Ret n.(cn_dominator_parent)).
Proof.
  revert t. induction l as [|b l IH]; intros t Hl cur cur' t' Hmax Hi; cbn [each_state].
  { intros [= <- <-]. split_and!; [done|done|]. intros _. split; [done|]. by intros b ?%not_elem_of_nil. }
  unfold get_node at 1. destruct (cur !! b) as [n|] eqn:Eb; [|done]. cbn [expect exec_bind].
  destruct (common_dominator cur n.(cn_sources) u64_max) as [p| |] eqn:Ep; [|done|done]. cbn [exec_bind].
  assert (Hlo : l ⊆ order) by (intros x Hx; apply Hl; by right).
  destruct (Z.eqb_spec n.(cn_dominator_parent) p) as [He|Hne]; cbn [exec_bind].
  - intros H. destruct (IH t Hlo cur cur' t' Hmax Hi H) as (Hi' & Ht & Hfix). split_and!; [done|done|].
    intros Ht'. destruct (Hfix Ht') as [-> Hall]. split; [done|]. intros x [->|Hx]%elem_of_cons; [|by apply Hall].
    exists n. split; [done|]. by rewrite He.
  - intros H. destruct (IH false Hlo (<[b := set_dominator_parent p n]> cur) cur' t' Hmax) as (Hi' & Ht & Hfix); [|done|].
    { destruct Hi as [Hs Hp Hr]. split.
      - etrans; [done|]. by apply same_graph_update.
      - apply parents_ok_update; [done|done|].
        apply (common_dominator_spec cur n.(cn_sources) u64_max p Ep Hp (keys_max _ _ Hs Hmax)). by left.
      - destruct Hr as (m & Hm & Hmr). exists m. rewrite lookup_insert_ne; [done|]. intros ->. apply Hroot, Hl. by left. }
    split_and!; [done|intros _; by apply Ht|]. intros ->. by specialize (Ht eq_refl).
Qed.

(** Where the passes end. *)
Definition settled (nodes : CfgNodes) : Prop := forall b, b ∈ order -> exists n, nodes !! b = Some n /\
  common_dominator nodes n.(cn_sources) u64_max = Ret n.(cn_dominator_parent).

Lemma dominance_rounds_spec (nodes : CfgNodes) (fuel : nat) : forall cur cur',
  u64_max ∉ sorted_keys nodes -> round_inv nodes cur -> dominance_rounds fuel order cur = Ret cur' ->
  round_inv nodes cur' /\ settled cur'.
Proof.
  induction fuel as [|fuel IH]; intros cur cur' Hmax Hi; cbn [dominance_rounds]; [done|].
  unfold dominance_round. destruct (each_state _ _ _) as [[cur1 t]| |] eqn:E; [|done|done]. cbn [exec_bind].
  destruct (dominance_round_spec nodes true order ltac:(done) cur cur1 t Hmax Hi E) as (Hi1 & _ & Hfix).
  destruct t; [|by apply IH]. intros [= <-]. destruct (Hfix eq_refl) as [-> Hall]. by split.
Qed.

(** * Parents dominate *)

Section Settled.
Context (nodes : CfgNodes) (Hset : settled nodes) (Hpar : parents_ok nodes) (Hr : parent nodes super_root super_root).
Context (Hmax : u64_max ∉ sorted_keys nodes) (Hok : cfg_ok nodes).
Context (Hall : forall k, is_Some (nodes !! k) -> k = super_root \/ k ∈ order).
Context (Hknown : forall b p, b ∈ order -> parent nodes b p -> p <> u64_max).

Lemma parent_known (k p : Z) : parent nodes k p -> p <> u64_max.
Proof.
  intros Hp. assert (Hk : is_Some (nodes !! k)) by (destruct Hp as (n & ? & _); by exists n).
  destruct (Hall k Hk) as [->|Hko]; [|by apply (Hknown k)].
  destruct Hr as (n & Hn & He), Hp as (m & Hm & <-). assert (n = m) as <- by congruence. rewrite He. intros ->.
  apply Hmax, sorted_keys_elem. by exists n.
Qed.

Lemma never_max (a : Z) : is_Some (nodes !! a) -> ~ ancestor nodes a u64_max.
Proof.
  assert (H : forall c, ancestor nodes a c -> is_Some (nodes !! a) -> c <> u64_max); [|intros Ha Hc; by apply (H u64_max)].
  induction 1 as [x|x y z Hxy Hyz IH]; intros Hx.
  - intros ->. by apply Hmax, sorted_keys_elem.
  - apply IH. destruct (Hpar _ _ Hxy) as [->|?]; [|done]. by destruct (parent_known _ _ Hxy).
Qed.

(** The parent of a node is above each of its sources. *)
Lemma parent_above (a b p : Z) : b ∈ order -> cfg_edge nodes a b -> parent nodes b p -> ancestor nodes a p.
Proof.
  intros Hb He (n & Hn & Hp). destruct (Hset b Hb) as (n' & Hn' & Hc). assert (n' = n) as -> by congruence. rewrite Hp in Hc.
  destruct (common_dominator_spec nodes _ _ _ Hc Hpar Hmax) as [_ Hin]; [by left|].
  destruct (Hin never_max) as [_ Hs]. apply (ok_sources _ Hok a b n Hn) in He as Ha.
  destruct He as (na & Hna & _). assert (Hpa : parent nodes a na.(cn_dominator_parent)) by (by exists na).
  apply (Hs a _ Ha Hpa). by apply (parent_known a).
Qed.

Lemma root_above (c : Z) : ancestor nodes super_root c -> c = super_root.
Proof.
  assert (H : forall x y, ancestor nodes x y -> x = super_root -> y = super_root); [|intros Hc; by apply (H super_root)].
  induction 1 as [x|x y z Hxy Hyz IH]; [done|]. intros ->. apply IH.
  destruct Hxy as (n & Hn & <-), Hr as (m & Hm & He). congruence.
Qed.

(** What is above a node is on every walk to it. *)
Lemma above_on_walk (l : list Z) (v : Z) : walk nodes super_root l v -> forall x, ancestor nodes v x -> x ∈ l \/ x = v.
Proof.
  induction 1 as [|l b c Hw IH He]; intros x Hx; [right; by apply root_above|].
  rewrite elem_of_app, list_elem_of_singleton. apply rtc_inv in Hx as [->|(p & Hp & Hx)]; [by right|].
  assert (Hc : is_Some (nodes !! c)) by (by apply (ok_closed _ Hok b)).
  destruct (Hall c Hc) as [->|Hco].
  - right. apply root_above. by eapply rtc_l.
  - left. apply IH. etrans; [|done]. by apply (parent_above b c p).
Qed.

Lemma parent_dominates (b p : Z) (l : list Z) : b ∈ order -> parent nodes b p -> walk nodes super_root l b -> p ∈ l.
Proof.
  intros Hb Hp Hw. destruct Hw as [|l a c Hw He]; [done|].
  pose proof (parent_above a c p Hb He Hp) as Ha. rewrite elem_of_app, list_elem_of_singleton.
  by apply (above_on_walk l a Hw).
Qed.
End Settled.
End Rounds.

(** * Children *)

(** Only children change. *)
Definition same_parents (nodes nodes' : CfgNodes) : Prop := forall k,
  match nodes !! k, nodes' !! k with
  | Some n, Some n' => n'.(cn_sources) = n.(cn_sources) /\ n'.(cn_destinations) = n.(cn_destinations) /\
      n'.(cn_dominator_parent) = n.(cn_dominator_parent) /\ n'.(cn_instructions) = n.(cn_instructions)
  | None, None => True
  | _, _ => False
  end.

#[export] Instance same_parents_preorder : PreOrder same_parents.
Proof.
  split.
  - intros m k. by destruct (m !! k).
  - intros m1 m2 m3 H1 H2 k. specialize (H1 k). specialize (H2 k).
    destruct (m1 !! k), (m2 !! k), (m3 !! k); try done. destruct H1 as (? & ? & ? & ?), H2 as (? & ? & ? & ?). split_and!; congruence.
Qed.

Lemma same_parents_parent (nodes nodes' : CfgNodes) (k p : Z) : same_parents nodes nodes' -> (parent nodes' k p <-> parent nodes k p).
Proof.
  intros H. specialize (H k). unfold parent. destruct (nodes !! k), (nodes' !! k); try done.
  destruct H as (_ & _ & He & _). split; intros (m & [= <-] & <-); eexists; done.
Qed.

Definition children (nodes : CfgNodes) (p : Z) : list Z :=
  match nodes !! p with Some n => n.(cn_dominated_children) | None => [] end.

Lemma dominated_children_spec (order : list Z) : forall nodes nodes', dominated_children order nodes = Ret nodes' ->
  same_parents nodes nodes' /\ (forall b p, b ∈ order -> parent nodes b p -> p <> u64_max) /\
  forall b p, b ∈ children nodes' p <-> b ∈ children nodes p \/ b ∈ order /\ parent nodes b p /\ b <> p.
Proof.
  induction order as [|b order IH]; intros nodes nodes'; unfold dominated_children; cbn [each_state].
  - intros [= <-]. split_and!.
    + intros k. by destruct (nodes !! k).
    + by intros b p ?%not_elem_of_nil.
    + intros b p. pose proof (not_elem_of_nil b). tauto.
  - unfold get_node at 1. destruct (nodes !! b) as [n|] eqn:Eb; [|done]. cbn [expect exec_bind].
    assert (Hb : forall p, parent nodes b p <-> p = n.(cn_dominator_parent)).
    { intros p. split; [intros (m & ? & <-); congruence|intros ->; by exists n]. }
    destruct (Z.eqb_spec n.(cn_dominator_parent) u64_max) as [|Hne]; [done|].
    destruct (Z.eqb_spec b n.(cn_dominator_parent)) as [He|Hbp]; cbn [exec_bind].
    + intros H. destruct (IH nodes nodes' H) as (Hs & Hk & Hc). split_and!; [done| |].
      * intros x p [->|Hx]%elem_of_cons Hp; [by apply Hb in Hp as ->|by apply (Hk x)].
      * intros x p. rewrite Hc, elem_of_cons. split; [tauto|]. intros [?|([->|?] & Hp & Hxp)]; [tauto| |tauto].
        apply Hb in Hp as ->. by destruct Hxp.
    + unfold update_node, get_node. destruct (nodes !! n.(cn_dominator_parent)) as [m|] eqn:Em; [|done]. cbn [expect exec_bind].
      set (p0 := n.(cn_dominator_parent)) in *. set (nodes1 := <[p0 := _]> nodes). intros H.
      destruct (IH nodes1 nodes' H) as (Hs & Hk & Hc).
      assert (H1 : same_parents nodes nodes1).
      { intros k. unfold nodes1. destruct (decide (k = p0)) as [->|Hk0]; [by rewrite Em, lookup_insert_eq|].
        rewrite lookup_insert_ne by done. by destruct (nodes !! k). }
      assert (Hp1 : forall x p, parent nodes1 x p <-> parent nodes x p) by (intros; by apply same_parents_parent).
      assert (Hc1 : forall x p, x ∈ children nodes1 p <-> x ∈ children nodes p \/ x = b /\ p = p0).
      { intros x p. unfold children, nodes1. destruct (decide (p = p0)) as [->|Hp0].
        - rewrite lookup_insert_eq, Em. cbn. rewrite elem_of_app, list_elem_of_singleton. tauto.
        - rewrite lookup_insert_ne by done. tauto. }
      split_and!; [by etrans| |].
      * intros x p [->|Hx]%elem_of_cons Hp; [by apply Hb in Hp as ->|]. apply (Hk x); [done|by apply Hp1].
      * intros x p. rewrite Hc, Hc1, elem_of_cons, Hp1. split; [|intros [?|([->|?] & Hp & ?)]; [tauto| |tauto]].
        -- intros [[?|[-> ->]]|?]; [tauto| |tauto]. right. split_and!; [by left|by apply Hb|done].
        -- apply Hb in Hp as ->. left. by right.
Qed.

(** * Analyses *)

(** An analysis as it is before the pass. *)
Record rooted_analysis (self : Analysis) : Prop := {
  ra_ok : cfg_ok self.(an_cfg_nodes);
  ra_max : u64_max ∉ sorted_keys self.(an_cfg_nodes);
  ra_root : is_Some (self.(an_cfg_nodes) !! self.(an_super_root));
  ra_order : self.(an_super_root) ∉ self.(an_topological_order);
  ra_all : forall k, is_Some (self.(an_cfg_nodes) !! k) <-> k = self.(an_super_root) \/ k ∈ self.(an_topological_order);
  ra_fresh : forall k n, self.(an_cfg_nodes) !! k = Some n ->
    n.(cn_dominator_parent) = u64_max /\ n.(cn_dominated_children) = [];
  ra_reach : forall k, is_Some (self.(an_cfg_nodes) !! k) -> cfg_reach self.(an_cfg_nodes) self.(an_super_root) k;
}.

(** Sources, destinations and instructions are the same. *)
Definition same_shape (nodes nodes' : CfgNodes) : Prop := forall k,
  match nodes !! k, nodes' !! k with
  | Some n, Some n' => n'.(cn_sources) = n.(cn_sources) /\ n'.(cn_destinations) = n.(cn_destinations) /\
      n'.(cn_instructions) = n.(cn_instructions)
  | None, None => True
  | _, _ => False
  end.

#[export] Instance same_shape_preorder : PreOrder same_shape.
Proof.
  split.
  - intros m k. by destruct (m !! k).
  - intros m1 m2 m3 H1 H2 k. specialize (H1 k). specialize (H2 k).
    destruct (m1 !! k), (m2 !! k), (m3 !! k); try done. destruct H1 as (? & ? & ?), H2 as (? & ? & ?). split_and!; congruence.
Qed.

Lemma same_graph_shape (nodes nodes' : CfgNodes) : same_graph nodes nodes' -> same_shape nodes nodes'.
Proof. intros H k. specialize (H k). destruct (nodes !! k), (nodes' !! k); try done. by destruct H as (? & ? & _ & ? & _). Qed.
Lemma same_parents_shape (nodes nodes' : CfgNodes) : same_parents nodes nodes' -> same_shape nodes nodes'.
Proof. intros H k. specialize (H k). destruct (nodes !! k), (nodes' !! k); try done. by destruct H as (? & ? & _ & ?). Qed.

Lemma same_shape_dom (nodes nodes' : CfgNodes) (k : Z) : same_shape nodes nodes' -> (is_Some (nodes' !! k) <-> is_Some (nodes !! k)).
Proof. intros H. specialize (H k). destruct (nodes !! k), (nodes' !! k); by split; [|]; eauto. Qed.

Lemma same_shape_edge (nodes nodes' : CfgNodes) (a b : Z) : same_shape nodes nodes' -> (cfg_edge nodes' a b <-> cfg_edge nodes a b).
Proof.
  intros H. specialize (H a). unfold cfg_edge. destruct (nodes !! a), (nodes' !! a); try done.
  destruct H as (_ & He & _). split; intros (m & [= <-] & Hb); eexists; (split; [done|congruence]).
Qed.

Lemma same_shape_ok (nodes nodes' : CfgNodes) : same_shape nodes nodes' -> cfg_ok nodes -> cfg_ok nodes'.
Proof.
  intros Hs Hok. split.
  - intros a b He%(same_shape_edge _ _ _ _ Hs). apply (same_shape_dom _ _ _ Hs). by apply (ok_closed _ Hok a).
  - intros a b n' Hn'. rewrite (same_shape_edge _ _ _ _ Hs). pose proof (Hs b) as Hb. rewrite Hn' in Hb.
    destruct (nodes !! b) as [n|] eqn:En; [|done]. destruct Hb as (-> & _). by apply (ok_sources _ Hok).
Qed.

Lemma same_shape_walk (nodes nodes' : CfgNodes) (a b : Z) (l : list Z) : same_shape nodes nodes' -> walk nodes a l b -> walk nodes' a l b.
Proof. intros Hs. induction 1 as [|l b c Hw IH He]; [constructor|]. eapply walk_edge; [done|]. by apply (same_shape_edge _ _ _ _ Hs). Qed.
