(* ===== verification/DominanceOrder.v ===== *)
(** Dominators of graphs without cycles are found in two rounds, and dominators that are found are
    dominators (src/static_analysis.rs, [control_flow_graph_dominance_hierarchy]). *)
From stdpp Require Import sorting relations.
From S2P Require Import Prelude Text Error Ebpf Program Executable Cfg StaticAnalysis Tarjan TarjanProof TarjanCfg Dominance.
Open Scope list_scope.

(** * Graphs without cycles *)

Section Acyclic.
Context (cfg : CfgNodes) (super_root : Z) (order : list Z).

(** Earlier in the topological order. *)
Definition above (a b : Z) : Prop := topo_cmp (topo_of cfg a) (topo_of cfg b) = Gt.

Lemma above_iff (a b : Z) : above a b <-> let ta := topo_of cfg a in let tb := topo_of cfg b in
  tb.(scc_id) < ta.(scc_id) \/ tb.(scc_id) = ta.(scc_id) /\ tb.(discovery) < ta.(discovery).
Proof.
  unfold above, topo_cmp. cbn. destruct (Z.compare_spec (scc_id (topo_of cfg a)) (scc_id (topo_of cfg b))).
  - rewrite Z.compare_gt_iff. lia.
  - split; [done|lia].
  - split; [lia|done].
Qed.

Lemma above_trans (a b c : Z) : above a b -> above b c -> above a c.
Proof. rewrite !above_iff. cbn. lia. Qed.
Lemma above_irrefl (a : Z) : ~ above a a.
Proof. rewrite above_iff. cbn. lia. Qed.

#[local] Instance above_dec a b : Decision (above a b).
Proof. unfold above. apply _. Defined.

(** How many nodes are earlier. *)
Definition rank (k : Z) : nat := length (filter (fun x => above x k) (sorted_keys cfg)).

Lemma rank_above (a b : Z) : is_Some (cfg !! a) -> above a b -> (rank a < rank b)%nat.
Proof.
  intros Ha Hab. unfold rank. pose proof (proj2 (sorted_keys_elem cfg a) Ha) as Hin. clear Ha.
  assert (Hle : forall l, (length (filter (fun x => above x a) l) <= length (filter (fun x => above x b) l))%nat).
  { induction l as [|x l IH]; [done|]. rewrite !filter_cons. pose proof (above_trans x a b). do 2 case_decide; cbn; try lia; tauto. }
  induction (sorted_keys cfg) as [|x l IH]; [by apply not_elem_of_nil in Hin|]. rewrite !filter_cons.
  apply elem_of_cons in Hin as [<-|Hin].
  - rewrite decide_False by apply above_irrefl. rewrite decide_True by done. cbn. pose proof (Hle l). lia.
  - specialize (IH Hin). pose proof (above_trans x a b). do 2 case_decide; cbn; try lia; tauto.
Qed.

Lemma rank_bound (k : Z) : (rank k <= size cfg)%nat.
Proof.
  unfold rank. etrans; [apply length_filter|]. pose proof (sorted_keys_zlen cfg). unfold zlen in *. lia.
Qed.

Context (Hinj : forall a b, is_Some (cfg !! a) -> is_Some (cfg !! b) -> topo_of cfg a = topo_of cfg b -> a = b).
Context (Htop : forall k, is_Some (cfg !! k) -> k <> super_root -> above super_root k).

Lemma above_total (a b : Z) : is_Some (cfg !! a) -> is_Some (cfg !! b) -> a <> b -> above a b \/ above b a.
Proof.
  intros Ha Hb Hne. rewrite !above_iff. cbn.
  assert (topo_of cfg a <> topo_of cfg b) as Ht by (intros He; by apply Hne, Hinj).
  destruct (topo_of cfg a) as [s d], (topo_of cfg b) as [s' d']. cbn in *.
  destruct (decide (s = s')) as [->|]; [|lia]. assert (d <> d') by congruence. lia.
Qed.

(** The nodes [K] have parents, which are among them and earlier. *)
Record known (K : Z -> Prop) (nodes : CfgNodes) : Prop := {
  kn_root : K super_root;
  kn_self : parent nodes super_root super_root;
  kn_node : forall k, K k -> exists n, nodes !! k = Some n /\ is_Some (cfg !! k) /\ n.(cn_topo_index) = topo_of cfg k /\
    n.(cn_dominator_parent) <> u64_max /\ K n.(cn_dominator_parent) /\
    (k <> super_root -> above n.(cn_dominator_parent) k);
}.

Lemma intersect_returns (K : Z -> Prop) (nodes : CfgNodes) (fuel : nat) : known K nodes -> forall a b, K a -> K b ->
  (rank a + rank b <= fuel)%nat ->
  exists c, control_flow_graph_dominance_intersect fuel nodes a b = Ret c /\ K c /\
    (c = a \/ above c a) /\ (c = b \/ above c b).
Proof.
  intros Hkn. induction fuel as [|fuel IH]; intros a b Ha Hb Hfuel; cbn [control_flow_graph_dominance_intersect];
    (destruct (Z.eqb_spec a b) as [->|Hne]; [exists b; split_and!; auto|]);
    destruct (kn_node _ _ Hkn a Ha) as (na & Ea & Ca & Ta & Ua & Pa & Aa);
    destruct (kn_node _ _ Hkn b Hb) as (nb & Eb & Cb & Tb & Ub & Pb & Ab).
  - destruct (above_total a b Ca Cb Hne) as [H|H]; apply rank_above in H; try done; lia.
  - unfold get_node. rewrite Ea, Eb. cbn [expect exec_bind]. rewrite Ta, Tb.
    destruct (above_total a b Ca Cb Hne) as [H|H].
    + rewrite H. assert (Hbr : b <> super_root).
      { intros ->. specialize (Htop a Ca ltac:(done)). by apply (above_irrefl a), (above_trans a super_root a). }
      destruct (IH a nb.(cn_dominator_parent) Ha Pb) as (c & E & Hc & H1 & H2).
      { destruct (kn_node _ _ Hkn _ Pb) as (np & _ & Cp & _). pose proof (rank_above _ _ Cp (Ab Hbr)). lia. }
      exists c. split_and!; [done|done|done|right]. destruct H2 as [->|H2]; [by apply Ab|]. eapply above_trans; [done|by apply Ab].
    + assert (Hcmp : topo_cmp (topo_of cfg a) (topo_of cfg b) = Lt).
      { rewrite above_iff in H. cbn in H. unfold topo_cmp.
        destruct (Z.compare_spec (scc_id (topo_of cfg a)) (scc_id (topo_of cfg b))); [apply Z.compare_lt_iff; lia|done|lia]. }
      rewrite Hcmp. assert (Har : a <> super_root).
      { intros ->. specialize (Htop b Cb ltac:(done)). by apply (above_irrefl b), (above_trans b super_root b). }
      destruct (IH na.(cn_dominator_parent) b Pa Hb) as (c & E & Hc & H1 & H2).
      { destruct (kn_node _ _ Hkn _ Pa) as (np & _ & Cp & _). pose proof (rank_above _ _ Cp (Aa Har)). lia. }
      exists c. split_and!; [done|done|right|done]. destruct H1 as [->|H1]; [by apply Aa|]. eapply above_trans; [done|by apply Aa].
Qed.

(** Only the nodes [K] matter. *)
Lemma intersect_agree (K : Z -> Prop) (nodes nodes' : CfgNodes) (fuel : nat) : known K nodes ->
  (forall k, K k -> nodes' !! k = nodes !! k) -> forall a b, K a -> K b ->
  control_flow_graph_dominance_intersect fuel nodes' a b = control_flow_graph_dominance_intersect fuel nodes a b.
Proof.
  intros Hkn Hag. induction fuel as [|fuel IH]; intros a b Ha Hb; cbn [control_flow_graph_dominance_intersect]; [done|].
  destruct (a =? b); [done|]. unfold get_node. rewrite !Hag by done.
  destruct (kn_node _ _ Hkn a Ha) as (na & -> & _ & _ & _ & Pa & _). cbn [expect exec_bind].
  destruct (kn_node _ _ Hkn b Hb) as (nb & -> & _ & _ & _ & Pb & _). cbn [expect exec_bind].
  destruct (topo_cmp _ _); [done|by apply IH|by apply IH].
Qed.

(** ** The sources of a node *)

Context (Hmax : u64_max ∉ sorted_keys cfg).

Lemma known_max (K : Z -> Prop) (nodes : CfgNodes) (k : Z) : known K nodes -> K k -> k <> u64_max.
Proof. intros Hkn Hk ->. destruct (kn_node _ _ Hkn _ Hk) as (n & _ & Hc & _). by apply Hmax, sorted_keys_elem. Qed.

Lemma common_returns (K : Z -> Prop) (nodes : CfgNodes) (sources : list Z) : known K nodes -> size nodes = size cfg -> forall acc,
  (forall s, s ∈ sources -> K s) -> (acc = u64_max \/ K acc) ->
  exists c, common_dominator nodes sources acc = Ret c /\ (K acc \/ sources <> [] -> K c) /\
    (forall s, s ∈ sources -> c = s \/ above c s) /\ (K acc -> c = acc \/ above c acc).
Proof.
  intros Hkn Hsize. induction sources as [|s sources IH]; intros acc Hs Hacc; cbn [common_dominator].
  { exists acc. split_and!; [done|by intros [?|?]|by intros s ?%not_elem_of_nil|by left]. }
  destruct (kn_node _ _ Hkn s (Hs s ltac:(by left))) as (n & Hn & _ & _ & Hu & _). unfold get_node. rewrite Hn. cbn [expect exec_bind].
  rewrite (proj2 (Z.eqb_neq _ _) Hu). pose proof (Hs s ltac:(by left)) as Ks.
  assert (Hd : exists d, (if acc =? u64_max then Ret s
      else control_flow_graph_dominance_intersect (intersect_fuel nodes) nodes s acc) = Ret d /\ K d /\
    (d = s \/ above d s) /\ (K acc -> d = acc \/ above d acc)).
  { destruct (Z.eqb_spec acc u64_max) as [->|Hne].
    - exists s. split_and!; [done|done|by left|]. intros Ka. by destruct (known_max K nodes u64_max Hkn Ka).
    - destruct Hacc as [?|Ka]; [done|]. destruct (intersect_returns K nodes (intersect_fuel nodes) Hkn s acc Ks Ka) as (d & ? & ? & ? & ?).
      { unfold intersect_fuel. rewrite Hsize. pose proof (rank_bound s). pose proof (rank_bound acc). lia. }
      by exists d. }
  destruct Hd as (d & -> & Kd & Hds & Hda). cbn [exec_bind].
  destruct (IH d) as (c & -> & Kc & Hcs & Hcd); [intros x Hx; apply Hs; by right|by right|].
  assert (Hup : forall x, d = x \/ above d x -> c = x \/ above c x).
  { intros x [->|Hx]; [by apply Hcd|]. destruct (Hcd Kd) as [->|H]; [by right|right; by eapply above_trans]. }
  exists c. split_and!; [done|intros _; apply Kc; by left| |intros Ka; by apply Hup, Hda].
  intros x [->|Hx]%elem_of_cons; [by apply Hup|by apply Hcs].
Qed.

Lemma common_agree (K : Z -> Prop) (nodes nodes' : CfgNodes) (sources : list Z) : known K nodes ->
  size nodes = size cfg -> size nodes' = size cfg -> (forall k, K k -> nodes' !! k = nodes !! k) -> forall acc,
  (forall s, s ∈ sources -> K s) -> (acc = u64_max \/ K acc) ->
  common_dominator nodes' sources acc = common_dominator nodes sources acc.
Proof.
  intros Hkn Hsize Hsize' Hag. induction sources as [|s sources IH]; intros acc Hs Hacc; cbn [common_dominator]; [done|].
  pose proof (Hs s ltac:(by left)) as Ks. unfold get_node. rewrite (Hag s Ks).
  destruct (kn_node _ _ Hkn s Ks) as (n & -> & _ & _ & Hu & _). cbn [expect exec_bind].
  rewrite (proj2 (Z.eqb_neq _ _) Hu). unfold intersect_fuel. rewrite Hsize, Hsize'.
  destruct (Z.eqb_spec acc u64_max) as [->|Hne]; cbn [exec_bind]; [apply IH; [intros x Hx; apply Hs; by right|by right]|].
  destruct Hacc as [?|Ka]; [done|]. rewrite (intersect_agree K nodes nodes' (2 * size cfg) Hkn Hag s acc Ks Ka).
  destruct (intersect_returns K nodes (2 * size cfg) Hkn s acc Ks Ka) as (d & -> & Kd & _).
  { pose proof (rank_bound s). pose proof (rank_bound acc). lia. }
  cbn [exec_bind]. apply IH; [intros x Hx; apply Hs; by right|by right].
Qed.


(** ** The node that the sources have in common *)

Lemma ancestor_above (K : Z -> Prop) (nodes : CfgNodes) (a d : Z) : known K nodes -> ancestor nodes a d -> K a ->
  d = a \/ above d a.
Proof.
  intros Hkn. induction 1 as [|a p d (n & Hn & <-) Hr IH]; intros Ka; [by left|].
  destruct (kn_node _ _ Hkn a Ka) as (m & Hm & _ & _ & _ & Kp & Hab). assert (m = n) as -> by congruence.
  destruct (decide (a = super_root)) as [->|Hne].
  - destruct (kn_self _ _ Hkn) as (m & Hm' & He). assert (m = n) as -> by congruence. rewrite He in IH. by apply IH.
  - right. specialize (Hab Hne). destruct (IH Kp) as [->|?]; [done|by eapply above_trans].
Qed.

Lemma parent_ancestor (nodes : CfgNodes) (a d : Z) (n : CfgNode) : nodes !! a = Some n -> ancestor nodes a d -> d <> a ->
  ancestor nodes n.(cn_dominator_parent) d.
Proof. intros Hn [->|(p & (m & Hm & <-) & Hr)]%rtc_inv Hne; [done|]. by assert (m = n) as <- by congruence. Qed.

Lemma not_above_both (a b : Z) : above a b -> ~ (b = a \/ above b a).
Proof. intros H [->|H']; [by apply (above_irrefl a)|]. apply (above_irrefl a). by eapply above_trans. Qed.

Lemma intersect_below (K : Z -> Prop) (nodes : CfgNodes) (fuel : nat) (d : Z) : known K nodes -> forall a b c, K a -> K b ->
  control_flow_graph_dominance_intersect fuel nodes a b = Ret c -> ancestor nodes a d -> ancestor nodes b d -> ancestor nodes c d.
Proof.
  intros Hkn. induction fuel as [|fuel IH]; intros a b c Ka Kb; cbn [control_flow_graph_dominance_intersect];
    (destruct (Z.eqb_spec a b) as [->|Hne]; [by intros [= <-]|]); [done|].
  destruct (kn_node _ _ Hkn a Ka) as (na & Ea & Ca & Ta & _ & Pa & _), (kn_node _ _ Hkn b Kb) as (nb & Eb & Cb & Tb & _ & Pb & _).
  unfold get_node. rewrite Ea, Eb. cbn [expect exec_bind]. rewrite Ta, Tb. intros H Ha Hb.
  pose proof (ancestor_above K nodes a d Hkn Ha Ka) as Da. pose proof (ancestor_above K nodes b d Hkn Hb Kb) as Db.
  destruct (topo_cmp _ _) eqn:E; [done| |].
  - apply (IH _ _ _ Pa Kb H); [|done]. apply (parent_ancestor nodes a d na Ea Ha). intros ->.
    destruct Db as [->|Db]; [done|]. unfold above in Db. congruence.
  - apply (IH _ _ _ Ka Pb H); [done|]. apply (parent_ancestor nodes b d nb Eb Hb). intros ->. by apply (not_above_both a b).
Qed.

Lemma common_below (K : Z -> Prop) (nodes : CfgNodes) (sources : list Z) (d : Z) : known K nodes -> size nodes = size cfg ->
  forall acc c, (forall s, s ∈ sources -> K s /\ ancestor nodes s d) -> (acc = u64_max \/ K acc /\ ancestor nodes acc d) ->
  (acc <> u64_max \/ sources <> []) ->
  common_dominator nodes sources acc = Ret c -> ancestor nodes c d.
Proof.
  intros Hkn Hsize. induction sources as [|s sources IH]; intros acc c Hs Hacc Hne; cbn [common_dominator].
  { intros [= <-]. destruct Hne as [?|?]; [|done]. by destruct Hacc as [?|[_ ?]]. }
  destruct (Hs s ltac:(by left)) as [Ks As]. destruct (kn_node _ _ Hkn s Ks) as (n & Hn & _ & _ & Hu & _).
  unfold get_node. rewrite Hn. cbn [expect exec_bind]. rewrite (proj2 (Z.eqb_neq _ _) Hu).
  destruct (Z.eqb_spec acc u64_max) as [->|Hacc']; cbn [exec_bind].
  - apply IH; [intros x Hx; apply Hs; by right|by right|left]. by apply (known_max K nodes).
  - destruct Hacc as [?|[Ka Aa]]; [done|].
    destruct (intersect_returns K nodes (intersect_fuel nodes) Hkn s acc Ks Ka) as (e & E & Ke & _).
    { unfold intersect_fuel. rewrite Hsize. pose proof (rank_bound s). pose proof (rank_bound acc). lia. }
    rewrite E. cbn [exec_bind]. apply IH; [intros x Hx; apply Hs; by right| |left; by apply (known_max K nodes)].
    right. split; [done|]. by apply (intersect_below K nodes (intersect_fuel nodes) d Hkn s acc e).
Qed.

(** ** The first pass *)

Context (Hok : cfg_ok cfg) (Hroot : super_root ∉ order) (Hsorted : StronglySorted above order).
Context (Hall : forall k, is_Some (cfg !! k) <-> k = super_root \/ k ∈ order).
Context (Hreach : forall k, is_Some (cfg !! k) -> cfg_reach cfg super_root k).
Context (Hforward : forall a b, cfg_edge cfg a b -> above a b).

Definition among (prefix : list Z) (k : Z) : Prop := k = super_root \/ k ∈ prefix.

Lemma suffix_fresh (prefix suffix : list Z) (b : Z) : order = prefix ++ b :: suffix -> ~ among prefix b.
Proof.
  intros Ho [->|Hb]; [by apply Hroot; rewrite Ho, elem_of_app; right; left|].
  rewrite Ho in Hsorted. apply (above_irrefl b). apply (StronglySorted_app_1_elem_of above prefix (b :: suffix)); [done|done|by left].
Qed.

Lemma sources_earlier (prefix suffix : list Z) (b : Z) (n : CfgNode) : order = prefix ++ b :: suffix -> cfg !! b = Some n ->
  (forall s, s ∈ n.(cn_sources) -> among prefix s /\ above s b) /\ n.(cn_sources) <> [].
Proof.
  intros Ho Hn. split.
  - intros s Hs%(ok_sources _ Hok s b n Hn). pose proof (Hforward _ _ Hs) as Hab. split; [|done].
    destruct (proj1 (Hall s)) as [->|Hso]; [by destruct Hs as (m & ? & _); exists m|by left|]. right.
    rewrite Ho in Hso, Hsorted. rewrite elem_of_app, elem_of_cons in Hso. destruct Hso as [?|[->|Hso]]; [done| |].
    + by destruct (above_irrefl b).
    + apply StronglySorted_app_1_r, StronglySorted_inv in Hsorted as [_ HF]. rewrite Forall_forall in HF.
      by destruct (not_above_both s b Hab (or_intror (HF s Hso))).
  - intros He. assert (Hb : b <> super_root) by (intros ->; apply Hroot; rewrite Ho, elem_of_app; right; by left).
    destruct (rtc_inv_r _ _ (Hreach b ltac:(by exists n))) as [?|(a & _ & Hab)]; [done|].
    apply (ok_sources _ Hok a b n Hn) in Hab. rewrite He in Hab. by apply not_elem_of_nil in Hab.
Qed.

Lemma same_graph_size (nodes nodes' : CfgNodes) : same_graph nodes nodes' -> size nodes' = size nodes.
Proof.
  intros Hs. rewrite <-!size_dom. f_equal. apply set_eq. intros k. rewrite !elem_of_dom. by apply same_graph_dom.
Qed.

Lemma same_graph_lookup (nodes nodes' : CfgNodes) (k : Z) (n : CfgNode) : same_graph nodes nodes' -> nodes !! k = Some n ->
  exists n', nodes' !! k = Some n' /\ n'.(cn_sources) = n.(cn_sources) /\ n'.(cn_topo_index) = n.(cn_topo_index).
Proof.
  intros Hs Hk. specialize (Hs k). rewrite Hk in Hs. destruct (nodes' !! k) as [n'|]; [|done]. destruct Hs as (? & _ & _ & _ & ?). by exists n'.
Qed.

(** The nodes [prefix] have been passed. *)
Record passed (prefix : list Z) (cur : CfgNodes) : Prop := {
  pa_same : same_graph cfg cur;
  pa_known : known (among prefix) cur;
  pa_settled : settled prefix cur;
}.

Lemma pass_next (prefix suffix : list Z) (b : Z) (cur : CfgNodes) : order = prefix ++ b :: suffix -> passed prefix cur ->
  exists n p, cur !! b = Some n /\ common_dominator cur n.(cn_sources) u64_max = Ret p /\
    passed (prefix ++ [b]) (<[b := set_dominator_parent p n]> cur).
Proof.
  intros Ho [Hs Hk Hset]. destruct (proj2 (Hall b)) as [m Hm]; [right; rewrite Ho, elem_of_app; right; by left|].
  destruct (same_graph_lookup _ _ _ _ Hs Hm) as (n & Hn & Hsrc & Htopo). exists n.
  destruct (sources_earlier _ _ _ _ Ho Hm) as [Hearly Hne]. rewrite <-Hsrc in Hearly, Hne.
  destruct (common_returns _ cur n.(cn_sources) Hk (same_graph_size _ _ Hs) u64_max) as (p & Hp & Hpk & Hab & _);
    [intros s Hx; by apply Hearly|by left|].
  exists p. split_and!; [done|done|]. pose proof (suffix_fresh _ _ _ Ho) as Hfresh. set (cur' := <[b := _]> cur).
  assert (Hag : forall k, among prefix k -> cur' !! k = cur !! k) by (intros k Kk; apply lookup_insert_ne; by intros ->).
  assert (Hsz : size cur' = size cfg) by (apply same_graph_size; etrans; [done|by apply same_graph_update]).
  assert (Hcommon : forall l, (forall s, s ∈ l -> among prefix s) -> common_dominator cur' l u64_max = common_dominator cur l u64_max).
  { intros l Hl. apply (common_agree (among prefix) cur cur'); auto using same_graph_size. }
  assert (Hpb : above p b).
  { destruct n.(cn_sources) as [|s l]; [done|]. destruct (Hearly s ltac:(by left)) as [_ Hsb].
    destruct (Hab s ltac:(by left)) as [->|?]; [done|by eapply above_trans]. }
  assert (Hmono : forall k, among prefix k -> among (prefix ++ [b]) k) by (intros k [->|?]; [by left|right; apply elem_of_app; by left]).
  split; [etrans; [done|by apply same_graph_update]|split|].
  - by left.
  - destruct (kn_self _ _ Hk) as (r & Hr & He). exists r. split; [|done]. rewrite Hag; [done|by left].
  - intros k Hkb. assert (Hcase : among prefix k \/ k = b).
    { destruct Hkb as [->|Hkb]; [left; by left|]. apply elem_of_app in Hkb as [?|?%list_elem_of_singleton]; [left; by right|by right]. }
    destruct Hcase as [Kk| ->].
    + rewrite (Hag k Kk). destruct (kn_node _ _ Hk k Kk) as (nk & ? & ? & ? & ? & ? & ?). exists nk. split_and!; auto.
    + exists (set_dominator_parent p n). assert (Kp : among prefix p) by (apply Hpk; by right).
      split_and!; [apply lookup_insert_eq|by exists m| |by apply (known_max _ cur _ Hk)|by apply Hmono|done].
      cbn. rewrite Htopo. unfold topo_of. by rewrite Hm.
  - intros x [Hx| ->%list_elem_of_singleton]%elem_of_app.
    + destruct (Hset x Hx) as (nx & Hnx & Hc). exists nx. split; [rewrite Hag; [done|by right]|]. rewrite Hcommon; [done|].
      apply list_elem_of_split in Hx as (pre & post & ->). destruct (proj2 (Hall x)) as [mx Hmx].
      { right. rewrite Ho, !elem_of_app, elem_of_cons. auto. }
      destruct (same_graph_lookup _ _ _ _ Hs Hmx) as (nx' & Hnx' & Hsx & _). assert (nx' = nx) as -> by congruence. rewrite Hsx.
      intros s Hx'. destruct (sources_earlier pre (post ++ b :: suffix) x mx) as [Hin _]; [by rewrite Ho, <-app_assoc|done|].
      destruct (Hin s Hx') as [[->|?] _]; [by left|right; apply elem_of_app; by left].
    + exists (set_dominator_parent p n). split; [apply lookup_insert_eq|]. cbn. rewrite Hcommon; [done|]. intros s Hx. by apply Hearly.
Qed.

Lemma first_round (suffix : list Z) : forall prefix cur t, order = prefix ++ suffix -> passed prefix cur ->
  exists cur' t', each_state suffix (fun b '(cfg_nodes, terminate) =>
    let! cfg_node := get_node cfg_nodes b in
    let! dominator_parent := common_dominator cfg_nodes cfg_node.(cn_sources) u64_max in
    if cfg_node.(cn_dominator_parent) =? dominator_parent then Ret (cfg_nodes, terminate)
    else Ret (<[b := set_dominator_parent dominator_parent cfg_node]> cfg_nodes, false)) (cur, t) = Ret (cur', t') /\
  passed order cur'.
Proof.
  induction suffix as [|b suffix IH]; intros prefix cur t Ho Hp; cbn [each_state].
  { exists cur, t. rewrite Ho, app_nil_r. done. }
  destruct (pass_next _ _ _ _ Ho Hp) as (n & p & Hn & Hc & Hp').
  assert (Ho' : order = (prefix ++ [b]) ++ suffix) by (by rewrite <-app_assoc).
  unfold get_node at 1. rewrite Hn. cbn [expect exec_bind]. rewrite Hc. cbn [exec_bind].
  destruct (Z.eqb_spec n.(cn_dominator_parent) p) as [<-|Hne]; cbn [exec_bind]; [|by apply (IH (prefix ++ [b]))].
  rewrite insert_id in Hp' by (rewrite Hn; by destruct n). by apply (IH (prefix ++ [b])).
Qed.

(** A pass over settled nodes changes none. *)
Lemma settled_round (nodes : CfgNodes) (l : list Z) (t : bool) : settled l nodes ->
  each_state l (fun b '(cfg_nodes, terminate) =>
    let! cfg_node := get_node cfg_nodes b in
    let! dominator_parent := common_dominator cfg_nodes cfg_node.(cn_sources) u64_max in
    if cfg_node.(cn_dominator_parent) =? dominator_parent then Ret (cfg_nodes, terminate)
    else Ret (<[b := set_dominator_parent dominator_parent cfg_node]> cfg_nodes, false)) (nodes, t) = Ret (nodes, t).
Proof.
  induction l as [|b l IH]; intros Hset; cbn [each_state]; [done|].
  destruct (Hset b ltac:(by left)) as (n & Hn & Hc). unfold get_node at 1. rewrite Hn. cbn [expect exec_bind].
  rewrite Hc. cbn [exec_bind]. rewrite Z.eqb_refl. apply IH. intros x Hx. apply Hset. by right.
Qed.

Lemma two_rounds (cur : CfgNodes) (fuel : nat) : passed [] cur ->
  exists nodes, dominance_rounds (2 + fuel) order cur = Ret nodes /\ passed order nodes.
Proof.
  intros Hp. destruct (first_round order [] cur true eq_refl Hp) as (nodes & t & E & Hn). exists nodes. split; [|done].
  cbn [dominance_rounds Nat.add]. unfold dominance_round at 1. rewrite E. cbn [exec_bind]. destruct t; [done|].
  unfold dominance_round. rewrite settled_round; [done|]. apply Hn.
Qed.

(** Dominators are ancestors. *)
Lemma dominator_ancestor (nodes : CfgNodes) (d : Z) : passed order nodes -> forall b, among order b ->
  (forall l, walk cfg super_root l b -> d ∈ l \/ d = b) -> ancestor nodes b d.
Proof.
  intros [Hs Hk Hset] b Hb. remember (rank b) as r eqn:Er. revert b Hb Er.
  induction (lt_wf r) as [r _ IH]. intros b Hb -> Hdom. destruct (decide (d = b)) as [->|Hne]; [apply rtc_refl|].
  destruct Hb as [->|Hb]; [destruct (Hdom [] (walk_here _ _)) as [?%not_elem_of_nil| ->]; done|].
  destruct (Hset b Hb) as (n & Hn & Hc). eapply rtc_l; [by exists n|].
  destruct (proj2 (Hall b) (or_intror Hb)) as [m Hm]. pose proof Hb as Hb'.
  apply list_elem_of_split in Hb' as (prefix & suffix & Ho). destruct (sources_earlier _ _ _ _ Ho Hm) as [Hearly Hnil].
  destruct (same_graph_lookup _ _ _ _ Hs Hm) as (n' & Hn' & Hsrc & _). assert (n' = n) as -> by congruence. rewrite <-Hsrc in Hearly, Hnil.
  apply (common_below (among order) nodes n.(cn_sources) d Hk (same_graph_size _ _ Hs) u64_max); [|by left|by right|done].
  intros s Hx. destruct (Hearly s Hx) as [Hps Hsb].
  assert (Hso : among order s) by (destruct Hps as [->|?]; [by left|right; rewrite Ho; apply elem_of_app; by left]).
  split; [done|]. rewrite Hsrc in Hx. apply (IH (rank s)); [apply rank_above; [by apply Hall|done]|done|done|].
  intros l Hw. assert (Hw' : walk cfg super_root (l ++ [s]) b) by (eapply walk_edge; [done|]; by apply (ok_sources _ Hok s b m Hm)).
  destruct (Hdom _ Hw') as [Hd|?]; [|done]. by rewrite elem_of_app, list_elem_of_singleton in Hd.
Qed.
End Acyclic.

(** * The hierarchy *)

Lemma children_return (order : list Z) : forall nodes,
  (forall b, b ∈ order -> exists p, parent nodes b p /\ p <> u64_max /\ is_Some (nodes !! p)) ->
  exists nodes', dominated_children order nodes = Ret nodes'.
Proof.
  induction order as [|b order IH]; intros nodes Hp; unfold dominated_children; cbn [each_state]; [by exists nodes|].
  destruct (Hp b ltac:(by left)) as (p & (n & Hn & <-) & Hne & m & Hm). unfold get_node at 1. rewrite Hn. cbn [expect exec_bind].
  rewrite (proj2 (Z.eqb_neq _ _) Hne). assert (Hp' : forall x, x ∈ order -> exists p, parent nodes x p /\ p <> u64_max /\ is_Some (nodes !! p)).
  { intros x Hx. apply Hp. by right. }
  destruct (b =? _); cbn [exec_bind]; [by apply IH|]. unfold update_node, get_node. rewrite Hm. cbn [expect exec_bind]. apply IH.
  intros x Hx. destruct (Hp' x Hx) as (q & Hq & Hqm & Hqn). exists q. split_and!; [|done|rewrite lookup_insert_is_Some'; by right].
  destruct Hq as (nx & Hnx & He). destruct (decide (x = n.(cn_dominator_parent))) as [->|Hxp].
  - eexists. split; [apply lookup_insert_eq|]. cbn. congruence.
  - exists nx. by rewrite lookup_insert_ne.
Qed.

(** No node is on a cycle. *)
Definition acyclic (cfg : CfgNodes) : Prop := forall a b, cfg_edge cfg a b -> ~ cfg_reach cfg b a.

(** The order that the search for components leaves. *)
Record ordered_analysis (self : Analysis) : Prop := {
  oa_inj : forall a b, is_Some (self.(an_cfg_nodes) !! a) -> is_Some (self.(an_cfg_nodes) !! b) ->
    topo_of self.(an_cfg_nodes) a = topo_of self.(an_cfg_nodes) b -> a = b;
  oa_top : forall k, is_Some (self.(an_cfg_nodes) !! k) -> k <> self.(an_super_root) -> above self.(an_cfg_nodes) self.(an_super_root) k;
  oa_sorted : StronglySorted (above self.(an_cfg_nodes)) self.(an_topological_order);
  oa_edges : forall a b, cfg_edge self.(an_cfg_nodes) a b ->
    cfg_reach self.(an_cfg_nodes) b a \/ above self.(an_cfg_nodes) a b;
}.

Lemma acyclic_settled (self : Analysis) (fuel : nat) : rooted_analysis self -> ordered_analysis self -> acyclic self.(an_cfg_nodes) ->
  exists self' nodes, control_flow_graph_dominance_hierarchy (2 + fuel) self = Ret self' /\
    round_inv self.(an_super_root) self.(an_cfg_nodes) nodes /\
    passed self.(an_cfg_nodes) self.(an_super_root) self.(an_topological_order) nodes /\
    dominated_children self.(an_topological_order) nodes = Ret self'.(an_cfg_nodes).
Proof.
  intros Hra [Hinj Htop Hsorted Hedges] Hac. pose proof Hra as [Hok Hmax [r Hr] Hro Hall Hfresh Hreach].
  set (cfg := self.(an_cfg_nodes)) in *. set (root := self.(an_super_root)) in *. set (order := self.(an_topological_order)) in *.
  assert (Hfw : forall a b, cfg_edge cfg a b -> above cfg a b) by (intros a b He; destruct (Hedges a b He) as [?|?]; [by destruct (Hac a b)|done]).
  set (nodes0 := <[root := set_dominator_parent root r]> cfg).
  assert (Hp0 : passed cfg root [] nodes0).
  { split; [by apply same_graph_update|split|by intros b ?%not_elem_of_nil].
    - by left.
    - exists (set_dominator_parent root r). split; [apply lookup_insert_eq|done].
    - intros k [->|?%not_elem_of_nil]; [|done]. exists (set_dominator_parent root r).
      split_and!; [apply lookup_insert_eq|by exists r|cbn; unfold topo_of; by rewrite Hr| |by left|done].
      intros He. cbn in He. apply Hmax, sorted_keys_elem. rewrite <-He. by exists r. }
  destruct (two_rounds cfg root order Hinj Htop Hmax Hok Hro Hsorted Hall Hreach Hfw nodes0 fuel Hp0) as (nodes & E & Hp).
  destruct (children_return order nodes) as [nodes' E'].
  { intros b Hb. destruct (kn_node _ _ _ _ (pa_known _ _ _ _ Hp) b ltac:(by right)) as (n & Hn & _ & _ & Hu & Kp & _).
    exists n.(cn_dominator_parent). split_and!; [by exists n|done|].
    destruct (kn_node _ _ _ _ (pa_known _ _ _ _ Hp) _ Kp) as (m & Hm & _). by exists m. }
  assert (Eh : control_flow_graph_dominance_hierarchy (2 + fuel) self = Ret (set_cfg_nodes nodes' self)).
  { unfold control_flow_graph_dominance_hierarchy. fold cfg root order. rewrite bool_decide_eq_false_2 by (intros He; by rewrite He in Hr).
    unfold update_node, get_node. rewrite Hr. cbn [expect exec_bind]. fold nodes0. rewrite E. cbn [exec_bind]. rewrite E'. done. }
  exists (set_cfg_nodes nodes' self), nodes. split_and!; [done| |done|done].
  destruct Hp as [Hs Hk _]. split; [done| |by apply Hk].
  intros k p (n & Hn & <-). right. assert (Hkc : among root order k) by (apply Hall, (same_graph_dom _ _ _ Hs); by exists n).
  destruct (kn_node _ _ _ _ Hk k Hkc) as (m & Hm & _ & _ & _ & Kp & _). assert (m = n) as -> by congruence.
  destruct (kn_node _ _ _ _ Hk _ Kp) as (q & Hq & _). by exists q.
Qed.

(** The nodes before the children are written. *)
Lemma hierarchy_settled (fuel : nat) (self self' : Analysis) : rooted_analysis self ->
  control_flow_graph_dominance_hierarchy fuel self = Ret self' ->
  exists nodes, round_inv self.(an_super_root) self.(an_cfg_nodes) nodes /\ settled self.(an_topological_order) nodes /\
    dominated_children self.(an_topological_order) nodes = Ret self'.(an_cfg_nodes) /\
    self' = set_cfg_nodes self'.(an_cfg_nodes) self.
Proof.
  intros [Hok Hmax [r Hr] Hro Hall Hfresh Hreach]. unfold control_flow_graph_dominance_hierarchy.
  rewrite bool_decide_eq_false_2 by (intros He; by rewrite He in Hr).
  unfold update_node, get_node. rewrite Hr. cbn [expect exec_bind].
  set (nodes0 := <[_ := _]> self.(an_cfg_nodes)).
  destruct (dominance_rounds fuel self.(an_topological_order) nodes0) as [nodes1| |] eqn:E1; [|done|done]. cbn [exec_bind].
  destruct (dominated_children self.(an_topological_order) nodes1) as [nodes2| |] eqn:E2; [|done|done]. cbn [exec_bind].
  intros [= <-]. exists nodes1. cbn [an_cfg_nodes set_cfg_nodes].
  assert (Hi : round_inv self.(an_super_root) self.(an_cfg_nodes) nodes0).
  { split; [by apply same_graph_update| |].
    2: { exists (set_dominator_parent self.(an_super_root) r). split; [apply lookup_insert_eq|done]. }
    apply parents_ok_update; [|done|right; by exists r]. intros k p (n & Hn & <-). left. by apply (Hfresh k n). }
  destruct (dominance_rounds_spec _ _ Hro _ _ _ _ Hmax Hi E1) as [? ?]. done.
Qed.

(** [d] is on every walk from [root] to [b]. *)
Definition dominates (cfg : CfgNodes) (root d b : Z) : Prop := forall l, walk cfg root l b -> d ∈ l \/ d = b.

Lemma hierarchy_sound (fuel : nat) (self self' : Analysis) : rooted_analysis self ->
  control_flow_graph_dominance_hierarchy fuel self = Ret self' ->
  (forall b, b ∈ self.(an_topological_order) -> exists p, parent self'.(an_cfg_nodes) b p /\ p <> b /\
    is_Some (self.(an_cfg_nodes) !! p) /\
    dominates self.(an_cfg_nodes) self.(an_super_root) p b) /\
  (forall b p, b ∈ children self'.(an_cfg_nodes) p <-> b ∈ self.(an_topological_order) /\ parent self'.(an_cfg_nodes) b p).
Proof.
  intros Hra Hret. destruct (hierarchy_settled _ _ _ Hra Hret) as (nodes & [Hs Hp Hpr] & Hset & E2 & _).
  destruct Hra as [Hok Hmax _ Hro Hall Hfresh Hreach]. destruct (dominated_children_spec _ _ _ E2) as (Hsp & Hknown & Hch).
  pose proof (keys_max _ _ Hs Hmax) as Hmax1. pose proof (same_graph_shape _ _ Hs) as Hsh. pose proof (same_shape_ok _ _ Hsh Hok) as Hok1.
  assert (Hall1 : forall k, is_Some (nodes !! k) -> k = self.(an_super_root) \/ k ∈ self.(an_topological_order)).
  { intros k Hk. by apply Hall, (same_graph_dom _ _ _ Hs). }
  assert (Hpar : forall b p, parent self'.(an_cfg_nodes) b p <-> parent nodes b p) by (intros b p; by apply same_parents_parent).
  assert (Hdom : forall b p l, b ∈ self.(an_topological_order) -> parent nodes b p ->
    walk self.(an_cfg_nodes) self.(an_super_root) l b -> p ∈ l).
  { intros b p l Hb Hbp Hw. apply (same_shape_walk _ _ _ _ _ Hsh) in Hw.
    by apply (parent_dominates _ _ Hro nodes Hset Hp Hpr Hmax1 Hok1 Hall1 Hknown b p l). }
  assert (Hne : forall b p, b ∈ self.(an_topological_order) -> parent nodes b p -> p <> b).
  { intros b p Hb Hbp ->. destruct (reach_walk _ _ _ (Hreach b ltac:(apply Hall; by right))) as [l Hw].
    destruct (walk_simple _ _ b l b Hw ltac:(by right)) as (l' & Hw' & Hn'). by apply Hn', (Hdom b b l'). }
  split.
  - intros b Hb. destruct (Hset b Hb) as (n & Hn & _). exists n.(cn_dominator_parent).
    assert (Hbp : parent nodes b n.(cn_dominator_parent)) by (by exists n).
    split_and!; [by apply Hpar|by apply Hne| |intros l Hw; left; by apply (Hdom b)].
    destruct (Hp _ _ Hbp) as [He|Hk]; [by destruct (Hknown b _ Hb Hbp)|by apply (same_graph_dom _ _ _ Hs)].
  - intros b p. rewrite Hch, Hpar. split; [|intros [Hb Hbp]; right; split_and!; [done|done|by apply not_eq_sym, Hne]].
    intros [Hb|(? & ? & _)]; [|done]. exfalso. unfold children in Hb. pose proof (Hs p) as Hsp'.
    destruct (nodes !! p) as [n1|]; [|by apply not_elem_of_nil in Hb].
    destruct (self.(an_cfg_nodes) !! p) as [n|] eqn:En; [|done]. destruct Hsp' as (_ & _ & Hc & _).
    rewrite Hc in Hb. destruct (Hfresh p n En) as [_ He]. rewrite He in Hb. by apply not_elem_of_nil in Hb.
Qed.

(** On graphs without cycles, what dominates a node is above it. *)
Lemma hierarchy_exact (fuel : nat) (self : Analysis) : rooted_analysis self -> ordered_analysis self -> acyclic self.(an_cfg_nodes) ->
  exists self', control_flow_graph_dominance_hierarchy (2 + fuel) self = Ret self' /\
    forall b d p, b ∈ self.(an_topological_order) -> parent self'.(an_cfg_nodes) b p ->
      dominates self.(an_cfg_nodes) self.(an_super_root) d b -> d <> b -> dominates self.(an_cfg_nodes) self.(an_super_root) d p.
Proof.
  intros Hra Hoa Hac. destruct (acyclic_settled self fuel Hra Hoa Hac) as (self' & nodes & E & [Hs Hpar Hpr] & Hp & Ec).
  exists self'. split; [done|]. intros b d p Hb Hbp Hd Hne l Hw.
  destruct Hra as [Hok Hmax _ Hro Hall Hfresh Hreach], Hoa as [Hinj Htop Hsorted Hedges].
  destruct (dominated_children_spec _ _ _ Ec) as (Hsp & Hknown & _). apply (same_parents_parent _ _ _ _ Hsp) in Hbp.
  assert (Hfw : forall x y, cfg_edge self.(an_cfg_nodes) x y -> above self.(an_cfg_nodes) x y).
  { intros x y He. destruct (Hedges x y He) as [?|?]; [by destruct (Hac x y)|done]. }
  pose proof (dominator_ancestor _ _ _ Hinj Htop Hmax Hok Hro Hsorted Hall Hreach Hfw nodes d Hp b ltac:(by right) Hd) as Han.
  destruct Hbp as (n & Hn & <-). pose proof (parent_ancestor _ _ _ _ Hn Han Hne) as Hpd.
  pose proof (same_graph_shape _ _ Hs) as Hsh.
  apply (above_on_walk self.(an_super_root) self.(an_topological_order) Hro nodes (pa_settled _ _ _ _ Hp) Hpar Hpr (keys_max _ _ Hs Hmax)
    (same_shape_ok _ _ Hsh Hok)); [|done|by apply (same_shape_walk _ _ _ _ _ Hsh)|done].
  intros k Hk. by apply Hall, (same_graph_dom _ _ _ Hs).
Qed.

(** C27: the hierarchy of dominators is found and right: on a graph without cycles two rounds are
    enough, and the parent of a node is its immediate dominator, as every other node on all walks
    from the super root to the node is on all walks to the parent; whenever the rounds end, on any
    graph, the parent of a node is another node and on every walk to it, and the children of a node
    are those it is the parent of. *)
Theorem dominators_found (self : Analysis) : rooted_analysis self ->
  (ordered_analysis self -> acyclic self.(an_cfg_nodes) -> forall fuel,
    exists self', control_flow_graph_dominance_hierarchy (2 + fuel) self = Ret self' /\
    forall b d p, b ∈ self.(an_topological_order) -> parent self'.(an_cfg_nodes) b p ->
      dominates self.(an_cfg_nodes) self.(an_super_root) d b -> d <> b -> dominates self.(an_cfg_nodes) self.(an_super_root) d p) /\
  (forall fuel self', control_flow_graph_dominance_hierarchy fuel self = Ret self' ->
    (forall b, b ∈ self.(an_topological_order) -> exists p, parent self'.(an_cfg_nodes) b p /\ p <> b /\
      is_Some (self.(an_cfg_nodes) !! p) /\ dominates self.(an_cfg_nodes) self.(an_super_root) p b) /\
    (forall b p, b ∈ children self'.(an_cfg_nodes) p <-> b ∈ self.(an_topological_order) /\ parent self'.(an_cfg_nodes) b p)).
Proof. intros Hra. split; [intros ? ? fuel; by apply hierarchy_exact|intros fuel self'; by apply hierarchy_sound]. Qed.

(** ** Examples *)

(** The analysis of components on a graph. *)
Definition rooted (cfg : CfgNodes) (super_root : Z) : option Analysis :=
  match control_flow_graph_tarjan (Hash := sum_hash) {|
    an_executable := example_analysis.(an_executable);
    an_instructions := []; an_functions := ∅; an_cfg_nodes := cfg; an_topological_order := [];
    an_entrypoint := 0; an_super_root := super_root; an_dfg_forward_edges := ∅; an_dfg_reverse_edges := ∅ |}
  with Ret self => Some self | _ => None end.

Definition dominators (self : option Analysis) : list (Z * Z) :=
  match self with
  | Some self =>
      match control_flow_graph_dominance_hierarchy 10 self with
      | Ret self => (fun '(k, n) => (k, n.(cn_dominator_parent))) <$> entries self.(an_cfg_nodes)
      | _ => []
      end
  | None => []
  end.

Example example_dominators : dominators (rooted example_cfg 6) = [(0, 6); (1, 0); (2, 1); (3, 6); (5, 6); (6, 6)].
Proof. vm_compute. reflexivity. Qed.

(** [jeq -1; ja -2; ja -2]: the second node enters a loop whose first node is found first. *)
Definition side_entry_cfg : CfgNodes :=
  <[0 := example_node [0; 1] [1; 0]]> (<[1 := example_node [0; 2] [0]]> (<[2 := example_node [] [1]]> ∅)).
(** Every walk to node 0 passes node 1, which is not its parent. *)
Example imprecise_dominator : dominators (rooted side_entry_cfg 3) = [(0, 2); (1, 2); (2, 3); (3, 3)].
Proof. vm_compute. reflexivity. Qed.

Definition pair_cfg : CfgNodes := <[0 := example_node [] [1]]> (<[1 := example_node [0] []]> ∅).
Definition pair_analysis : Analysis := default example_analysis (rooted pair_cfg 2).

Lemma pair_rooted : rooted_analysis pair_analysis.
Proof.
  assert (Hkeys : sorted_keys pair_analysis.(an_cfg_nodes) = [0; 1; 2]) by (by vm_compute).
  assert (Hedge : forall a b, lists_node pair_analysis.(an_cfg_nodes) cn_destinations a b = true -> cfg_edge pair_analysis.(an_cfg_nodes) a b).
  { intros a b H. by apply lists_node_Some in H. }
  assert (H0 : cfg_reach pair_analysis.(an_cfg_nodes) 2 0) by (apply rtc_once, Hedge; by vm_compute).
  split.
  - apply cfg_check_ok. by vm_compute.
  - rewrite Hkeys. apply (bool_decide_unpack _). by vm_compute.
  - apply (bool_decide_unpack _). by vm_compute.
  - apply (bool_decide_unpack _). by vm_compute.
  - intros k. rewrite <-sorted_keys_elem, Hkeys. change (an_super_root pair_analysis) with 2.
    replace (an_topological_order pair_analysis) with [0; 1] by (by vm_compute). rewrite !elem_of_cons. tauto.
  - assert (H : map_Forall (fun _ n => n.(cn_dominator_parent) = u64_max /\ length n.(cn_dominated_children) = 0%nat) pair_analysis.(an_cfg_nodes)).
    { apply (bool_decide_unpack _). by vm_compute. }
    intros k n Hn. destruct (H k n Hn) as [? He]. split; [done|]. by apply nil_length_inv.
  - intros k Hk%sorted_keys_elem. rewrite Hkeys in Hk. change (an_super_root pair_analysis) with 2.
    apply elem_of_cons in Hk as [->|Hk]; [done|].
    apply elem_of_cons in Hk as [->|Hk]; [eapply rtc_r; [done|]; apply Hedge; by vm_compute|].
    apply list_elem_of_singleton in Hk as ->. apply rtc_refl.
Qed.


(** An analysis whose nodes and order are these, with edges from the super root down. *)
Lemma small_ordered (cfg : CfgNodes) (super_root : Z) (order : list Z) (destinations : Z -> list Z) :
  (forall k n, cfg !! k = Some n -> k ∈ super_root :: order /\ n.(cn_destinations) = destinations k) ->
  StronglySorted (above cfg) (super_root :: order) ->
  (forall k, k ∈ super_root :: order -> Forall (above cfg k) (destinations k)) ->
  (forall a b, is_Some (cfg !! a) -> is_Some (cfg !! b) -> topo_of cfg a = topo_of cfg b -> a = b) /\
  (forall k, is_Some (cfg !! k) -> k <> super_root -> above cfg super_root k) /\
  StronglySorted (above cfg) order /\ (forall a b, cfg_edge cfg a b -> above cfg a b) /\ acyclic cfg.
Proof.
  intros Hn HS Hd. assert (Hfw : forall a b, cfg_edge cfg a b -> above cfg a b).
  { intros a b (n & Ha & Hb). destruct (Hn a n Ha) as [Hk He]. specialize (Hd a Hk). rewrite He, Forall_forall in *. by apply Hd. }
  pose proof (StronglySorted_inv HS) as [HS' HF]. rewrite Forall_forall in HF. split_and!; [| |done|done|].
  - intros a b [na Ha] [nb Hb] He. destruct (Hn a na Ha) as [Ka _], (Hn b nb Hb) as [Kb _]. clear - HS Ka Kb He.
    assert (Hirr : forall x y, topo_of cfg x = topo_of cfg y -> ~ above cfg x y) by (intros x y E; rewrite above_iff, E; cbn; lia).
    induction HS as [|x l HS IH HF]; [by apply not_elem_of_nil in Ka|]. rewrite Forall_forall in HF.
    apply elem_of_cons in Ka as [->|Ka], Kb as [->|Kb]; [done|by destruct (Hirr x b He (HF b Kb))| |auto].
    by destruct (Hirr x a (eq_sym He) (HF a Ka)).
  - intros k [n Hk] Hne. destruct (Hn k n Hk) as [[->|Hko]%elem_of_cons _]; [done|by apply HF].
  - intros a b He Hr. assert (Hle : a = b \/ above cfg b a).
    { clear - Hr Hfw. induction Hr as [|x y z Hxy _ IH]; [by left|]. right. apply Hfw in Hxy. destruct IH as [->|IH]; [done|by eapply above_trans]. }
    apply Hfw in He. destruct Hle as [->|Hle]; [by apply above_irrefl in He|]. apply (above_irrefl cfg a). by eapply above_trans.
Qed.

Lemma pair_ordered : ordered_analysis pair_analysis /\ acyclic pair_analysis.(an_cfg_nodes).
Proof.
  assert (Ho : pair_analysis.(an_super_root) :: pair_analysis.(an_topological_order) = [2; 0; 1]) by (vm_compute; reflexivity).
  destruct (small_ordered pair_analysis.(an_cfg_nodes) pair_analysis.(an_super_root) pair_analysis.(an_topological_order)
    (fun k => if k =? 2 then [0] else if k =? 0 then [1] else [])) as (Hinj & Htop & Hs & Hfw & Hac).
  - intros k n Hk. assert (H : map_Forall (fun k n => k ∈ pair_analysis.(an_super_root) :: pair_analysis.(an_topological_order) /\
      n.(cn_destinations) = if k =? 2 then [0] else if k =? 0 then [1] else []) pair_analysis.(an_cfg_nodes)).
    { apply (bool_decide_unpack _). vm_compute. exact I. }
    exact (H k n Hk).
  - rewrite Ho. repeat constructor; vm_compute; reflexivity.
  - rewrite Ho. apply Forall_forall. repeat constructor; vm_compute; reflexivity.
  - split; [split; auto|done].
Qed.

Lemma dominators_found_witness : exists self' p, control_flow_graph_dominance_hierarchy 2 pair_analysis = Ret self' /\
  parent self'.(an_cfg_nodes) 1 p /\ p <> 1.
Proof.
  destruct (dominators_found pair_analysis pair_rooted) as [Hex Hsound].
  destruct (Hex (proj1 pair_ordered) (proj2 pair_ordered) 0%nat) as (self' & E & _).
  destruct (Hsound _ self' E) as [Hd _].
  destruct (Hd 1) as (p & Hp & Hne & _).
  - apply (bool_decide_unpack _). vm_compute. exact I.
  - exists self', p. split; [exact E|]. split; [exact Hp|exact Hne].
Defined.
