(* ===== verification/DataFlow.v ===== *)
(** Data flow between instructions (src/static_analysis.rs, [intra_basic_block_data_flow] and
    [inter_basic_block_data_flow]). *)
From S2P Require Import Prelude Text Error Ebpf Program Verifier Executable Cfg StaticAnalysis.
Open Scope list_scope.

(** * Within a block *)

(* src/static_analysis.rs:985-995, Analysis::intra_basic_block_data_flow *)
Definition jmp32_imm_opcodes : list Z :=
  [JEQ32_IMM; JGT32_IMM; JGE32_IMM; JLT32_IMM; JLE32_IMM; JSET32_IMM; JNE32_IMM; JSGT32_IMM; JSGE32_IMM; JSLT32_IMM; JSLE32_IMM].
(* src/static_analysis.rs:1000-1010, Analysis::intra_basic_block_data_flow *)
Definition jmp32_reg_opcodes : list Z :=
  [JEQ32_REG; JGT32_REG; JGE32_REG; JLT32_REG; JLE32_REG; JSET32_REG; JNE32_REG; JSGT32_REG; JSGE32_REG; JSLT32_REG; JSLE32_REG].
(* src/static_analysis.rs:1016-1026, Analysis::intra_basic_block_data_flow *)
Definition jmp64_imm_opcodes : list Z :=
  [JEQ64_IMM; JGT64_IMM; JGE64_IMM; JLT64_IMM; JLE64_IMM; JSET64_IMM; JNE64_IMM; JSGT64_IMM; JSGE64_IMM; JSLT64_IMM; JSLE64_IMM].
(* src/static_analysis.rs:1029-1039, Analysis::intra_basic_block_data_flow *)
Definition jmp64_reg_opcodes : list Z :=
  [JEQ64_REG; JGT64_REG; JGE64_REG; JLT64_REG; JLE64_REG; JSET64_REG; JNE64_REG; JSGT64_REG; JSGE64_REG; JSLT64_REG; JSLE64_REG].
(* src/static_analysis.rs:1086-1114, Analysis::intra_basic_block_data_flow *)
Definition update_imm_opcodes : list Z :=
  [ADD32_IMM; SUB32_IMM; MUL32_IMM; DIV32_IMM; SDIV32_IMM; OR32_IMM; AND32_IMM; LSH32_IMM; RSH32_IMM; MOD32_IMM; XOR32_IMM;
   ARSH32_IMM; ADD64_IMM; SUB64_IMM; MUL64_IMM; DIV64_IMM; SDIV64_IMM; OR64_IMM; AND64_IMM; LSH64_IMM; RSH64_IMM; MOD64_IMM;
   XOR64_IMM; ARSH64_IMM; HOR64_IMM; NEG32; NEG64; LE; BE].
(* src/static_analysis.rs:1121-1144, Analysis::intra_basic_block_data_flow *)
Definition update_reg_opcodes : list Z :=
  [ADD32_REG; SUB32_REG; MUL32_REG; DIV32_REG; SDIV32_REG; OR32_REG; AND32_REG; LSH32_REG; RSH32_REG; MOD32_REG; XOR32_REG;
   ARSH32_REG; ADD64_REG; SUB64_REG; MUL64_REG; DIV64_REG; SDIV64_REG; OR64_REG; AND64_REG; LSH64_REG; RSH64_REG; MOD64_REG;
   XOR64_REG; ARSH64_REG].

(** The registers a call passes. *)
Definition call_registers : list Z := seqZ 0 FIRST_SCRATCH_REG ++ [10].

(** The calls of [bind] for an instruction: whether it is an output, and the resource. *)
(* src/static_analysis.rs:984-1154, Analysis::intra_basic_block_data_flow *)
Definition insn_binds (version : SBPFVersion) (insn : Insn) : list (bool * DataResource) :=
  let o := insn.(opc) in
  let dst := RegisterResource insn.(dst) in
  let src := RegisterResource insn.(src) in
  if bool_decide (o ∈ jmp32_imm_opcodes) && enable_jmp32 version then [(false, dst)]
  else if bool_decide (o ∈ jmp32_reg_opcodes) && enable_jmp32 version then [(false, src); (false, dst)]
  else if bool_decide (o ∈ jmp64_imm_opcodes) then [(false, dst)]
  else if bool_decide (o ∈ jmp64_reg_opcodes) then [(false, src); (false, dst)]
  else if (o =? CALL_REG) || (o =? CALL_IMM) then
    let target := as_u64 insn.(imm) in
    (if (o =? CALL_REG) && negb ((FIRST_SCRATCH_REG <=? target) && (target <? FIRST_SCRATCH_REG + SCRATCH_REGS))
     then [(false, RegisterResource (as_u8 insn.(imm)))] else []) ++
    [(false, MemoryResource); (true, MemoryResource)] ++
    (r ← call_registers; [(false, RegisterResource r); (true, RegisterResource r)])
  else if o =? EXIT then
    (false, MemoryResource) :: ((fun r => (false, RegisterResource r)) <$> call_registers)
  else if o =? LD_DW_IMM then [(true, dst)]
  else if bool_decide (o ∈ [LD_B_REG; LD_H_REG; LD_W_REG; LD_DW_REG]) then [(false, MemoryResource); (false, src); (true, dst)]
  else if bool_decide (o ∈ [ST_B_IMM; ST_H_IMM; ST_W_IMM; ST_DW_IMM]) then [(false, dst); (true, MemoryResource)]
  else if bool_decide (o ∈ [ST_B_REG; ST_H_REG; ST_W_REG; ST_DW_REG]) then [(false, src); (false, dst); (true, MemoryResource)]
  else if bool_decide (o ∈ update_imm_opcodes) then [(false, dst); (true, dst)]
  else if bool_decide (o ∈ [MOV32_IMM; MOV64_IMM]) then [(true, dst)]
  else if bool_decide (o ∈ update_reg_opcodes) then [(false, src); (false, dst); (true, dst)]
  else if bool_decide (o ∈ [MOV32_REG; MOV64_REG]) then [(false, src); (true, dst)]
  else [].

(** Edges by their keys, and what a block has written so far. *)
Abbreviation DfgEdges := (gmap DfgNode (gset DfgEdge)).
Abbreviation Outputs := (gmap DataResource Z).

(** [edges.entry(key).or_default().insert(edge)] *)
Definition insert_edge (key : DfgNode) (edge : DfgEdge) (edges : DfgEdges) : DfgEdges :=
  <[key := {[edge]} ∪ default ∅ (edges !! key)]> edges.

(* src/static_analysis.rs:946-976, bind *)
Definition bind (block : Z) (insn_ptr : Z) (is_output : bool) (resource : DataResource) (st : DfgEdges * Outputs) :
    DfgEdges * Outputs :=
  let kind := if is_output then Empty else Filled in
  let source := match st.2 !! resource with Some source => InstructionNode source | None => PhiNode block end in
  (insert_edge source (mkDfgEdge source (InstructionNode insn_ptr) kind resource) st.1,
   if is_output then <[resource := insn_ptr]> st.2 else st.2).

(* src/static_analysis.rs:942-1163, Analysis::intra_basic_block_data_flow *)
Definition intra_basic_block_data_flow (version : SBPFVersion) (self : Analysis) :
    Exec EbpfError (Analysis * gmap Z Outputs) :=
  let! (forward, deps) :=
    each_state (entries self.(an_cfg_nodes)) (fun '(start, block) '(forward, deps) =>
      let! insns := slice_range self.(an_instructions) (block.(cn_instructions).(ir_start), block.(cn_instructions).(ir_end)) in
      let (forward, outputs) :=
        fold_left (fun st insn => fold_left (fun st b => bind start insn.(ptr) b.1 b.2 st) (insn_binds version insn) st)
          insns (forward, ∅) in
      Ret (forward, <[start := outputs]> deps)) (∅, ∅) in
  Ret (set_dfg_edges forward self.(an_dfg_reverse_edges) self, deps).

(** * Between blocks *)

(** What a predecessor provides for an edge into a block, and whether it is its own input. *)
(* src/static_analysis.rs:1191-1197, Analysis::inter_basic_block_data_flow *)
Definition provider (predecessor : Z) (outputs : Outputs) (resource : DataResource) : DfgNode * bool :=
  match outputs !! resource with
  | Some source => (InstructionNode source, false)
  | None => (PhiNode predecessor, true)
  end.

Section Propagate.
Context (outputs : gmap Z Outputs) (cfg_nodes : CfgNodes).

(* src/static_analysis.rs:1190-1212, Analysis::inter_basic_block_data_flow *)
Definition propagate_edge (block : Z) (sources : list Z) (predecessor : Z) (provided : Outputs) (edge : DfgEdge)
    (st : DfgEdges * bool) : DfgEdges * bool :=
  let '(forward, continue_propagation) := st in
  let (source, source_is_a_phi_node) := provider predecessor provided edge.(de_resource) in
  let edge := if zlen sources =? 1 then edge
              else mkDfgEdge edge.(de_source) (PhiNode block) edge.(de_kind) edge.(de_resource) in
  let is_new := bool_decide (edge ∉ default ∅ (forward !! source)) in
  (insert_edge source edge forward,
   continue_propagation || (is_new && source_is_a_phi_node && bool_decide (source <> PhiNode block))).

(** The edges into one block: the order of the edges does not matter. *)
(* src/static_analysis.rs:1173-1224, Analysis::inter_basic_block_data_flow *)
Definition propagate_block (block : Z) (st : DfgEdges * bool) : Exec EbpfError (DfgEdges * bool) :=
  let '(forward, continue_propagation) := st in
  match forward !! PhiNode block with
  | None => Ret st
  | Some edges =>
      let! basic_block := get_node cfg_nodes block in
      let sources := basic_block.(cn_sources) in
      let! (forward, continue_propagation) :=
        each_state sources (fun predecessor st =>
          let! provided := get_node outputs predecessor in
          Ret (fold_left (fun st edge => propagate_edge block sources predecessor provided edge st) (elements edges) st))
          (<[PhiNode block := ∅]> forward, continue_propagation) in
      let! reflective_edges := expect UnwrapNone (forward !! PhiNode block) in
      Ret (<[PhiNode block := edges ∪ reflective_edges]> forward,
           continue_propagation || bool_decide (~ reflective_edges ⊆ edges))
  end.

(* src/static_analysis.rs:1170-1225, Analysis::inter_basic_block_data_flow *)
Fixpoint propagate (fuel : nat) (order : list Z) (forward : DfgEdges) : Exec EbpfError DfgEdges :=
  match fuel with
  | O => Panic OutOfFuel
  | S fuel =>
      let! (forward, continue_propagation) := each_state (reverse order) propagate_block (forward, false) in
      if continue_propagation : bool then propagate fuel order forward else Ret forward
  end.
End Propagate.

(** ** The bound of the propagation *)

(** An edge moves on with its destination, or with a block as its destination: the edges there
    are in the end come from those at the start. *)
Definition all_edges (forward : DfgEdges) : gset DfgEdge := ⋃ (map_to_list forward).*2.
Definition redirect (block : Z) (edge : DfgEdge) : DfgEdge :=
  mkDfgEdge edge.(de_source) (PhiNode block) edge.(de_kind) edge.(de_resource).
Definition universe (blocks : list Z) (forward : DfgEdges) : gset DfgEdge :=
  all_edges forward ∪ list_to_set (edge ← elements (all_edges forward); (fun b => redirect b edge) <$> blocks).

(** Each turn of the loop but the last adds an edge to a block. *)
Definition propagate_fuel (cfg_nodes : CfgNodes) (forward : DfgEdges) : nat :=
  S (length (sorted_keys cfg_nodes) * size (universe (sorted_keys cfg_nodes) forward)).

(** Blocks with one source have no edges of their own in the end. *)
(* src/static_analysis.rs:1226-1231, Analysis::inter_basic_block_data_flow *)
Definition remove_single_sources (cfg_nodes : CfgNodes) (forward : DfgEdges) : DfgEdges :=
  fold_left (fun forward '(start, block) =>
    if zlen block.(cn_sources) =? 1 then delete (PhiNode start) forward else forward) (entries cfg_nodes) forward.

(* src/static_analysis.rs:1232-1239, Analysis::inter_basic_block_data_flow *)
Definition reverse_edges (forward reverse : DfgEdges) : DfgEdges :=
  fold_left (fun reverse edge => insert_edge edge.(de_destination) edge reverse)
    (edges ← (map_to_list forward).*2; elements edges) reverse.

(* src/static_analysis.rs:1165-1240, Analysis::inter_basic_block_data_flow *)
Definition inter_basic_block_data_flow (outputs : gmap Z Outputs) (self : Analysis) : Exec EbpfError Analysis :=
  let! forward := propagate outputs self.(an_cfg_nodes) (propagate_fuel self.(an_cfg_nodes) self.(an_dfg_forward_edges))
                    self.(an_topological_order) self.(an_dfg_forward_edges) in
  let forward := remove_single_sources self.(an_cfg_nodes) forward in
  Ret (set_dfg_edges forward (reverse_edges forward self.(an_dfg_reverse_edges)) self).

(** * Within a block: the last writer *)

(** An access: the instruction, whether it writes, and the resource. *)
Definition Access : Type := Z * bool * DataResource.

Definition block_accesses (version : SBPFVersion) (insns : list Insn) : list Access :=
  insn ← insns; (fun b => (insn.(ptr), b.1, b.2)) <$> insn_binds version insn.

(** The instruction that wrote a resource last. *)
Definition last_output (accesses : list Access) (resource : DataResource) : option Z :=
  fold_left (fun last '(p, is_output, r) => if is_output && bool_decide (r = resource) then Some p else last) accesses None.
(** What an access depends on: the last write before it, or the entry of the block. *)
Definition last_write (block : Z) (accesses : list Access) (resource : DataResource) : DfgNode :=
  match last_output accesses resource with Some p => InstructionNode p | None => PhiNode block end.
Definition access_edge (block : Z) (before : list Access) (a : Access) : DfgEdge :=
  let '(p, is_output, r) := a in
  mkDfgEdge (last_write block before r) (InstructionNode p) (if is_output then Empty else Filled) r.

Definition edges_at (forward : DfgEdges) (key : DfgNode) : gset DfgEdge := default ∅ (forward !! key).

Lemma edges_at_insert (key key' : DfgNode) (e e' : DfgEdge) (forward : DfgEdges) :
  e' ∈ edges_at (insert_edge key e forward) key' <-> e' ∈ edges_at forward key' \/ key' = key /\ e' = e.
Proof.
  unfold edges_at, insert_edge. destruct (decide (key' = key)) as [->|Hne].
  - rewrite lookup_insert_eq. cbn. rewrite elem_of_union, elem_of_singleton. tauto.
  - rewrite lookup_insert_ne by done. tauto.
Qed.

Definition bind_access (block : Z) (st : DfgEdges * Outputs) (a : Access) : DfgEdges * Outputs :=
  let '(p, is_output, r) := a in bind block p is_output r st.

Lemma last_output_snoc (pre : list Access) (p : Z) (is_output : bool) (r r' : DataResource) :
  last_output (pre ++ [(p, is_output, r)]) r' = if is_output && bool_decide (r = r') then Some p else last_output pre r'.
Proof. unfold last_output. rewrite fold_left_app. done. Qed.

Lemma bind_accesses_spec (block : Z) (accs : list Access) : forall pre st, (forall r, st.2 !! r = last_output pre r) ->
  (forall r, (fold_left (bind_access block) accs st).2 !! r = last_output (pre ++ accs) r) /\
  forall key e, e ∈ edges_at (fold_left (bind_access block) accs st).1 key <->
    e ∈ edges_at st.1 key \/ exists i a, accs !! i = Some a /\ e = access_edge block (pre ++ take i accs) a /\ key = e.(de_source).
Proof.
  induction accs as [|[[p is_output] r] accs IH]; intros pre st Hst; cbn [fold_left].
  - rewrite app_nil_r. split; [done|]. intros key e. split; [by left|]. by intros [?|(i & a & ? & _)].
  - destruct (IH (pre ++ [(p, is_output, r)]) (bind block p is_output r st)) as [Ho He].
    { intros r'. rewrite last_output_snoc. unfold bind. cbn [snd]. destruct is_output; [|apply Hst]. cbn [andb].
      case_bool_decide as Hr; [by rewrite Hr, lookup_insert_eq|]. rewrite lookup_insert_ne by done. apply Hst. }
    rewrite <-app_assoc in Ho. split; [exact Ho|]. intros key e. cbn [bind_access]. rewrite He. unfold bind. cbn [fst].
    rewrite edges_at_insert, Hst. fold (last_write block pre r).
    set (e0 := mkDfgEdge _ _ _ _). assert (He0 : e0 = access_edge block pre (p, is_output, r)) by done. split.
    + intros [[?|[-> ->]]|(i & a & Hi & Hea & Hk)]; [by left| |].
      * right. exists 0%nat, (p, is_output, r). cbn. by rewrite app_nil_r.
      * right. exists (S i), a. cbn. rewrite <-app_assoc in Hea. done.
    + intros [?|([|i] & a & Hi & Hea & Hk)]; [left; by left| |]; cbn in Hi.
      * injection Hi as [= <-]. cbn in Hea. rewrite app_nil_r in Hea. left. right. split; [by rewrite Hk, Hea|by rewrite Hea].
      * right. exists i, a. rewrite <-app_assoc. done.
Qed.

Lemma bind_insns_flat (version : SBPFVersion) (block : Z) (insns : list Insn) : forall st,
  fold_left (fun st insn => fold_left (fun st b => bind block insn.(ptr) b.1 b.2 st) (insn_binds version insn) st) insns st =
  fold_left (bind_access block) (block_accesses version insns) st.
Proof.
  induction insns as [|insn insns IH]; intros st; [done|]. cbn [fold_left]. rewrite IH.
  unfold block_accesses. cbn [mbind list_bind]. rewrite fold_left_app. f_equal.
  generalize (insn_binds version insn) as l. intros l. revert st. induction l as [|b l IHl]; intros st; [done|]. cbn. apply IHl.
Qed.

Section Intra.
Context (version : SBPFVersion) (instructions : list Insn).

Definition block_range (n : CfgNode) : list Insn :=
  take (Z.to_nat (n.(cn_instructions).(ir_end) - n.(cn_instructions).(ir_start))) (drop (Z.to_nat n.(cn_instructions).(ir_start)) instructions).
Definition accesses_of (n : CfgNode) : list Access := block_accesses version (block_range n).
Definition range_ok (n : CfgNode) : Prop :=
  0 <= n.(cn_instructions).(ir_start) <= n.(cn_instructions).(ir_end) /\ n.(cn_instructions).(ir_end) <= zlen instructions.

(** The edge of an access of the block [start]. *)
Definition is_access_edge (start : Z) (n : CfgNode) (e : DfgEdge) : Prop :=
  exists i a, accesses_of n !! i = Some a /\ e = access_edge start (take i (accesses_of n)) a.

Lemma intra_blocks_spec (l : list (Z * CfgNode)) : forall (forward : DfgEdges) (deps : gmap Z Outputs), NoDup l.*1 -> (forall k n, (k, n) ∈ l -> range_ok n) ->
  exists (forward' : DfgEdges) (deps' : gmap Z Outputs), each_state l (fun '(start, block) '(forward, deps) =>
      let! insns := slice_range instructions (block.(cn_instructions).(ir_start), block.(cn_instructions).(ir_end)) in
      let (forward, outputs) :=
        fold_left (fun st insn => fold_left (fun st b => bind start insn.(ptr) b.1 b.2 st) (insn_binds version insn) st)
          insns (forward, ∅) in
      Ret (forward, <[start := outputs]> deps)) (forward, deps) = @Ret EbpfError _ (forward', deps') /\
    (forall key e, e ∈ edges_at forward' key <-> e ∈ edges_at forward key \/
      exists start n, (start, n) ∈ l /\ is_access_edge start n e /\ key = e.(de_source)) /\
    (forall start n, (start, n) ∈ l -> exists o, deps' !! start = Some o /\ forall r, o !! r = last_output (accesses_of n) r) /\
    (forall k, k ∉ l.*1 -> deps' !! k = deps !! k).
Proof.
  induction l as [|[start n] l IH]; intros forward deps HN Hr; cbn [each_state].
  { exists forward, deps. split_and!; [done| |by intros s n ?%not_elem_of_nil|done].
    intros key e. split; [by left|]. intros [?|(s & n & ?%not_elem_of_nil & _)]; done. }
  cbn [fmap list_fmap fst] in HN. apply NoDup_cons in HN as [Hs HN].
  destruct (Hr start n ltac:(by left)) as [Hr1 Hr2]. unfold slice_range. cbn [fst snd].
  rewrite !(proj2 (Z.leb_le _ _)) by lia. cbn [andb exec_bind]. fold (block_range n). rewrite bind_insns_flat. fold (accesses_of n).
  destruct (bind_accesses_spec start (accesses_of n) [] (forward, ∅)) as [Ho He]; [done|].
  destruct (fold_left (bind_access start) (accesses_of n) (forward, ∅)) as [forward1 outputs]. cbn [fst snd app] in Ho, He.
  destruct (IH forward1 (<[start := outputs]> deps) HN) as (forward' & deps' & E & Hf & Hd & Hout).
  { intros k m Hk. apply (Hr k m). by right. }
  exists forward', deps'. split_and!; [exact E|..].
  - intros key e. rewrite Hf, He. split.
    + intros [[?|(i & a & Hi & Hea & Hk)]|(s & m & Hm & H)]; [by left| |right; exists s, m; split; [by right|done]].
      right. exists start, n. split; [by left|]. split; [by exists i, a|done].
    + intros [?|(s & m & [[= -> ->]|Hm]%elem_of_cons & (i & a & Hi & Hea) & Hk)]; [left; by left| |].
      * left. right. by exists i, a.
      * right. exists s, m. split; [done|]. split; [by exists i, a|done].
  - intros s m [[= -> ->]|Hm]%elem_of_cons; [|by apply Hd]. exists outputs. rewrite Hout, lookup_insert_eq by done. done.
  - intros k [Hk1 Hk2]%not_elem_of_cons. rewrite Hout by done. by rewrite lookup_insert_ne.
Qed.
End Intra.

Lemma intra_spec (version : SBPFVersion) (self : Analysis) :
  (forall k n, self.(an_cfg_nodes) !! k = Some n -> range_ok self.(an_instructions) n) ->
  exists forward outputs,
    intra_basic_block_data_flow version self = Ret (set_dfg_edges forward self.(an_dfg_reverse_edges) self, outputs) /\
    (forall key e, e ∈ edges_at forward key <-> exists start n, self.(an_cfg_nodes) !! start = Some n /\
      is_access_edge version self.(an_instructions) start n e /\ key = e.(de_source)) /\
    (forall start n, self.(an_cfg_nodes) !! start = Some n -> exists o, outputs !! start = Some o /\
      forall r, o !! r = last_output (accesses_of version self.(an_instructions) n) r).
Proof.
  intros Hr. unfold intra_basic_block_data_flow.
  destruct (intra_blocks_spec version self.(an_instructions) (entries self.(an_cfg_nodes)) ∅ ∅) as (forward & deps & -> & Hf & Hd & _).
  { apply (sorted_keys_NoDup self.(an_cfg_nodes)). }
  { intros k n Hn%entries_elem. by apply (Hr k). }
  cbn [exec_bind]. exists forward, deps. split; [done|]. split.
  - intros key e. rewrite Hf. unfold edges_at at 1. rewrite lookup_empty. setoid_rewrite entries_elem.
    split; [|by right]. intros [?%elem_of_empty|?]; done.
  - intros start n Hn. apply Hd. by apply entries_elem.
Qed.

(** ** What instructions access *)

(** The registers and the memory that an instruction of the instruction set reads and writes, from
    the fields of its opcode: the class in the lowest three bits, the source bit, and the operation
    in the highest four. *)
Definition class_field (o : Z) : Z := Z.land o 7.
Definition by_register (o : Z) : bool := Z.testbit o 3.
Definition operation (o : Z) : Z := Z.shiftr o 4.

Definition reading (l : list DataResource) : list (bool * DataResource) := (fun r => (false, r)) <$> l.
Definition writing (l : list DataResource) : list (bool * DataResource) := (fun r => (true, r)) <$> l.

(** Functions and system calls take r0 to r5 and r10, and may use the memory. *)
Definition passed : list DataResource := MemoryResource :: (RegisterResource <$> [0; 1; 2; 3; 4; 5; 10]).

(** The second version takes the multiplications, divisions and remainders of the 32-bit class by
    register as loads, and those of the 64-bit class as stores. *)
Definition moved_operation (o : Z) : bool := opc_in (operation o) [2; 3; 8; 9].

Definition insn_accesses (version : SBPFVersion) (insn : Insn) : list (bool * DataResource) :=
  let o := insn.(opc) in
  let d := RegisterResource insn.(dst) in
  let s := if by_register o then [RegisterResource insn.(src)] else [] in
  let load := reading [MemoryResource; RegisterResource insn.(src)] ++ writing [d] in
  let store := reading (s ++ [d]) ++ writing [MemoryResource] in
  let arithmetic := reading (s ++ [d]) ++ writing [d] in
  let operation_accesses :=
    if operation o =? 0xb then reading s ++ writing [d]                                (* mov *)
    else if (operation o =? 0xd) && (class_field o =? 4) then reading [d] ++ writing [d] (* le, be *)
    else arithmetic in
  match class_field o with
  | 0 => writing [d]
  | 1 => load
  | 2 => reading [d] ++ writing [MemoryResource]
  | 3 => reading [RegisterResource insn.(src); d] ++ writing [MemoryResource]
  | 4 => if move_memory_instruction_classes version && by_register o && moved_operation o then load else operation_accesses
  | 7 => if move_memory_instruction_classes version && moved_operation o then store else operation_accesses
  | 5 =>
      if operation o =? 0 then []
      else if operation o =? 8 then
        (if by_register o then reading [RegisterResource (callx_operand version insn)] else []) ++ reading passed ++ writing passed
      else if operation o =? 9 then reading passed
      else reading (s ++ [d])
  | _ => if enable_pqr version then arithmetic else reading (s ++ [d])
  end.

(** The instructions for which the analysis binds these: those of the version, but in the second
    one no memory instruction and of the class of products, quotients and remainders only signed
    quotients; and [callx] by r0 to r5, with a register in its immediate. *)
Definition analysed (version : SBPFVersion) (insn : Insn) : bool :=
  let o := insn.(opc) in
  match insn_class version insn with
  | None => false
  | Some _ =>
      if o =? CALL_REG then
        let target := callx_operand version insn in
        (0 <=? target) && (target <? 6) && (0 <=? insn.(imm)) && (insn.(imm) <? 10)
      else if version_eqb version V2 then
        negb ((class_field o =? 4) && by_register o && moved_operation o) && negb ((class_field o =? 7) && moved_operation o) &&
        (negb (class_field o =? 6) || opc_in o [SDIV32_IMM; SDIV32_REG; SDIV64_IMM; SDIV64_REG])
      else true
  end.

(** The instruction of a list that writes a resource last. *)
Definition last_writer (version : SBPFVersion) (insns : list Insn) (r : DataResource) : option Z :=
  fold_left (fun last insn => if bool_decide ((true, r) ∈ insn_accesses version insn) then Some insn.(ptr) else last) insns None.

(** An access of an instruction of a block depends on the last instruction before it in the block
    that writes the resource, or on the entry of the block. *)
Definition is_dependency (version : SBPFVersion) (start : Z) (insns : list Insn) (e : DfgEdge) : Prop :=
  exists i insn is_output r, insns !! i = Some insn /\ (is_output, r) ∈ insn_accesses version insn /\
    e = mkDfgEdge (match last_writer version (take i insns) r with Some p => InstructionNode p | None => PhiNode start end)
          (InstructionNode insn.(ptr)) (if is_output : bool then Empty else Filled) r.

(** *** The analysis binds what instructions access *)

Lemma insn_class_listed (version : SBPFVersion) (insn : Insn) : is_Some (insn_class version insn) ->
  Exists (fun row => row.1.1 = true /\ insn.(opc) ∈ row.1.2) (class_table version (insn.(dst) =? 10)).
Proof.
  unfold insn_class, opcode_class. induction (class_table _ _) as [|row l IH]; cbn [fmap list_fmap first_arm]; [by intros []|].
  destruct (row.1.1 && opc_in insn.(opc) row.1.2) eqn:Hr.
  - intros _. left. apply andb_prop in Hr as [? Ho]. split; [done|]. unfold opc_in in Ho. apply existsb_exists in Ho as (x & Hx & ->%Z.eqb_eq). by apply list_elem_of_In.
  - intros H. right. by apply IH.
Qed.

Lemma opcodes_listed (version : SBPFVersion) (insn : Insn) : is_Some (insn_class version insn) ->
  insn.(opc) ∈ (row ← class_table version (insn.(dst) =? 10); if row.1.1 : bool then row.1.2 else []).
Proof.
  intros H%insn_class_listed. apply Exists_exists in H as (row & Hrow & Hg & Ho). apply list_elem_of_bind. exists row. by rewrite Hg.
Qed.

(** But for calls, in the same order. *)
Lemma binds_listed (version : SBPFVersion) (insn : Insn) : analysed version insn = true -> opc_in insn.(opc) [CALL_IMM; CALL_REG] = false ->
  insn_binds version insn = insn_accesses version insn.
Proof.
  intros H Hcall. assert (Hc : is_Some (insn_class version insn)) by (unfold analysed in H; destruct (insn_class version insn); done).
  apply opcodes_listed in Hc. unfold analysed in H. destruct (insn_class version insn); [|done].
  destruct insn as [p o d s f im]. cbn [opc dst src imm] in *. unfold insn_accesses, insn_binds. cbn [opc dst src imm].
  destruct version, (d =? 10); cbn in Hc; repeat (apply elem_of_cons in Hc as [-> | Hc]; [first [reflexivity | discriminate H | discriminate Hcall]|]); by apply not_elem_of_nil in Hc.
Qed.

Abbreviation call_binds :=
  ([(false, MemoryResource); (true, MemoryResource)] ++ (r ← call_registers; [(false, RegisterResource r); (true, RegisterResource r)])).

Lemma call_binds_passed (x : bool * DataResource) : x ∈ call_binds <-> x ∈ reading passed ++ writing passed.
Proof.
  assert (Hl : Forall (fun x => x ∈ reading passed ++ writing passed) call_binds) by (apply (bool_decide_unpack _); vm_compute; reflexivity).
  assert (Hr : Forall (fun x => x ∈ call_binds) (reading passed ++ writing passed)) by (apply (bool_decide_unpack _); vm_compute; reflexivity).
  rewrite Forall_forall in Hl, Hr. split; [apply Hl|apply Hr].
Qed.

Lemma binds_accesses (version : SBPFVersion) (insn : Insn) (a : bool * DataResource) : analysed version insn = true ->
  a ∈ insn_binds version insn <-> a ∈ insn_accesses version insn.
Proof.
  intros H. destruct (opc_in insn.(opc) [CALL_IMM; CALL_REG]) eqn:Hcall; [|by rewrite binds_listed].
  unfold analysed in H. destruct (insn_class version insn); [|done]. destruct insn as [p o d s f im]. cbn [opc imm] in *. unfold opc_in in Hcall. cbn in Hcall.
  assert (Hb : forall x, x ∈ call_binds <-> x ∈ reading passed ++ writing passed) by apply call_binds_passed.
  destruct (Z.eqb_spec o CALL_IMM) as [->|Hne]; [apply Hb|]. destruct (Z.eqb_spec o CALL_REG) as [->|]; [|done].
  set (insn := mkInsn p CALL_REG d s f im) in *. set (t := callx_operand version insn) in *. assert (Ht : 0 <= t < 6) by lia. assert (Him : 0 <= im < 10) by lia.
  assert (Hp : forall k, 0 <= k < 6 -> (false, RegisterResource k) ∈ reading passed ++ writing passed).
  { intros k Hk. assert (k = 0 \/ k = 1 \/ k = 2 \/ k = 3 \/ k = 4 \/ k = 5) as Hk' by lia. destruct_or! Hk'; subst k; apply (bool_decide_unpack _); vm_compute; reflexivity. }
  change (insn_accesses version insn) with ((false, RegisterResource t) :: reading passed ++ writing passed).
  change (insn_binds version insn) with ((if negb ((6 <=? as_u64 im) && (as_u64 im <? 10)) then [(false, RegisterResource (as_u8 im))] else []) ++ call_binds).
  unfold as_u64, as_u8. rewrite !uwrap_small by (unfold in_u; lia). rewrite elem_of_cons, elem_of_app, Hb. specialize (Hp t Ht) as Hpt.
  destruct (negb _) eqn:Hn.
  - rewrite list_elem_of_singleton. specialize (Hp im ltac:(lia)). split; intros [->|]; auto.
  - rewrite elem_of_nil. split; [tauto|]. intros [->|]; auto.
Qed.

(** No resource is accessed behind its write. *)
Fixpoint fresh_after (l : list (bool * DataResource)) : bool :=
  match l with
  | [] => true
  | (is_output, r) :: l => (negb is_output || forallb (fun a => negb (bool_decide (a.2 = r))) l) && fresh_after l
  end.

Lemma fresh_after_take (l : list (bool * DataResource)) (k : nat) (is_output : bool) (r : DataResource) :
  fresh_after l = true -> l !! k = Some (is_output, r) -> (true, r) ∉ take k l.
Proof.
  revert k. induction l as [|[w r'] l IH]; intros [|k] Hf Hk; cbn in *; try done; [apply not_elem_of_nil|]. apply andb_prop in Hf as [Hw Hf].
  apply not_elem_of_cons. split; [|by apply IH]. intros [= <- <-]. cbn in Hw. rewrite forallb_forall in Hw.
  apply list_elem_of_lookup_2, list_elem_of_In, Hw in Hk. cbn in Hk. by rewrite bool_decide_true in Hk.
Qed.

Lemma binds_fresh (version : SBPFVersion) (insn : Insn) : fresh_after (insn_binds version insn) = true.
Proof.
  unfold insn_binds. repeat match goal with |- context [if ?b then _ else _] => destruct b; [try reflexivity|] end; try reflexivity.
  all: vm_compute; reflexivity.
Qed.

Lemma last_output_binds (pre : list Access) (p : Z) (l : list (bool * DataResource)) (r : DataResource) :
  last_output (pre ++ ((fun b => (p, b.1, b.2)) <$> l)) r = if bool_decide ((true, r) ∈ l) then Some p else last_output pre r.
Proof.
  revert pre. induction l as [|[w r'] l IH] using rev_ind; intros pre; [by rewrite app_nil_r|].
  rewrite fmap_app, app_assoc. cbn [fmap list_fmap fst snd]. rewrite last_output_snoc, IH.
  assert (Hin : (true, r) ∈ l ++ [(w, r')] <-> (true, r) ∈ l \/ w = true /\ r' = r) by (rewrite elem_of_app, list_elem_of_singleton; intuition congruence).
  destruct w; cbn [andb]; repeat case_bool_decide; intuition congruence.
Qed.

Section Dependencies.
Context (version : SBPFVersion).

Lemma block_accesses_cons (insn : Insn) (insns : list Insn) :
  block_accesses version (insn :: insns) = ((fun b => (insn.(ptr), b.1, b.2)) <$> insn_binds version insn) ++ block_accesses version insns.
Proof. done. Qed.
Lemma block_accesses_snoc (insns : list Insn) (insn : Insn) :
  block_accesses version (insns ++ [insn]) = block_accesses version insns ++ ((fun b => (insn.(ptr), b.1, b.2)) <$> insn_binds version insn).
Proof. unfold block_accesses. rewrite bind_app. cbn. by rewrite app_nil_r. Qed.

Lemma last_writer_spec (insns : list Insn) (r : DataResource) : Forall (fun i => analysed version i = true) insns ->
  last_output (block_accesses version insns) r = last_writer version insns r.
Proof.
  induction insns as [|insn insns IH] using rev_ind; intros Ha; [done|]. apply Forall_app in Ha as [Ha Hi]. rewrite Forall_singleton in Hi.
  rewrite block_accesses_snoc, last_output_binds, IH by done. unfold last_writer. rewrite fold_left_app. cbn [fold_left].
  pose proof (binds_accesses version insn (true, r) Hi) as Hb. by rewrite (bool_decide_ext _ _ Hb).
Qed.

Definition entry_or (start : Z) (p : option Z) : DfgNode := match p with Some p => InstructionNode p | None => PhiNode start end.

(** The edges of the accesses behind [pre] are those of the instructions behind it. *)
Lemma access_dependencies (start : Z) (e : DfgEdge) (insns : list Insn) : forall pre, Forall (fun i => analysed version i = true) (pre ++ insns) ->
  (exists i a, block_accesses version insns !! i = Some a /\
     e = access_edge start (block_accesses version pre ++ take i (block_accesses version insns)) a) <->
  (exists i insn is_output r, insns !! i = Some insn /\ (is_output, r) ∈ insn_accesses version insn /\
     e = mkDfgEdge (entry_or start (last_writer version (pre ++ take i insns) r)) (InstructionNode insn.(ptr)) (if is_output : bool then Empty else Filled) r).
Proof.
  induction insns as [|insn insns IH]; intros pre Hall; [split; [intros (i & a & Hi & _)|intros (i & ? & ? & ? & Hi & _)]; done|].
  rewrite (cons_middle insn pre insns), app_assoc in Hall. specialize (IH (pre ++ [insn]) Hall).
  apply Forall_app in Hall as [[Hpre Hi]%Forall_app _]. rewrite Forall_singleton in Hi.
  rewrite block_accesses_snoc in IH. set (l := (fun b => (insn.(ptr), b.1, b.2)) <$> insn_binds version insn) in *.
  assert (Hfirst : forall k b, insn_binds version insn !! k = Some b ->
    access_edge start (block_accesses version pre ++ take k l) (insn.(ptr), b.1, b.2) =
    mkDfgEdge (entry_or start (last_writer version pre b.2)) (InstructionNode insn.(ptr)) (if b.1 : bool then Empty else Filled) b.2).
  { intros k [w r] Hk. cbn. unfold last_write. unfold l. rewrite <-fmap_take, last_output_binds.
    rewrite bool_decide_false by (by apply (fresh_after_take _ k w r (binds_fresh version insn))). by rewrite last_writer_spec. }
  rewrite block_accesses_cons. fold l. split.
  - intros (i & a & Hia & ->). apply lookup_app_Some in Hia as [Hia|[Hlen Hia]].
    + unfold l in Hia. apply list_lookup_fmap_Some in Hia as ([w r] & -> & Hk). exists 0%nat, insn, w, r. split; [done|].
      split; [apply (binds_accesses version insn (w, r) Hi); by eapply list_elem_of_lookup_2|].
      rewrite take_app_le by (unfold l; rewrite length_fmap; apply lookup_lt_Some in Hk; lia). cbn [take]. rewrite app_nil_r. by apply (Hfirst i (w, r)).
    + destruct (proj1 IH) as (j & insn' & w & r & Hj & Hin & He).
      { exists (i - length l)%nat, a. split; [done|]. rewrite take_app_ge by done. by rewrite app_assoc. }
      exists (S j), insn', w, r. cbn [take]. rewrite (cons_middle insn pre), app_assoc. done.
  - intros ([|j] & insn' & w & r & Hj & Hin & He0); cbn [lookup list_lookup] in Hj.
    + rewrite He0. injection Hj as <-. apply (binds_accesses version insn (w, r) Hi), list_elem_of_lookup_1 in Hin as [k Hk].
      exists k, (insn.(ptr), w, r). split; [apply lookup_app_l_Some; unfold l; by rewrite list_lookup_fmap, Hk|].
      rewrite take_app_le by (unfold l; rewrite length_fmap; apply lookup_lt_Some in Hk; lia). cbn [take]. rewrite app_nil_r. symmetry. by apply (Hfirst k (w, r)).
    + destruct (proj2 IH) as (k & a & Hk & He).
      { exists j, insn', w, r. cbn [take] in He0. rewrite (cons_middle insn pre), app_assoc in He0. done. }
      exists (length l + k)%nat, a. split; [rewrite lookup_app_r by apply Nat.le_add_r; by rewrite Nat.add_comm, Nat.add_sub|].
      by rewrite take_app_add', app_assoc.
Qed.
End Dependencies.

(** C30: within the blocks, the data-flow edges are those of the reads and writes of the
    instructions: each access of a register or of the memory depends on the last instruction before
    it in its block that writes the same, and on the entry of the block when there is none; and the
    outputs of a block are the last writes in it.  What instructions read and write is told from
    the fields of their opcodes.  It is asked that the ranges of the blocks lie in the listing, and
    of the instructions that the analysis treats them as the version does: in the second version no
    memory instruction, and no product, remainder or unsigned quotient; and [callx] only by r0 to
    r5. *)
Theorem block_data_flow (version : SBPFVersion) (self : Analysis) :
  (forall k n, self.(an_cfg_nodes) !! k = Some n -> range_ok self.(an_instructions) n) ->
  Forall (fun i => analysed version i = true) self.(an_instructions) ->
  exists self' outputs, intra_basic_block_data_flow version self = Ret (self', outputs) /\
    (forall key e, e ∈ edges_at self'.(an_dfg_forward_edges) key <-> exists start n, self.(an_cfg_nodes) !! start = Some n /\
      is_dependency version start (block_range self.(an_instructions) n) e /\ key = e.(de_source)) /\
    (forall start n, self.(an_cfg_nodes) !! start = Some n -> exists o, outputs !! start = Some o /\
      forall r, o !! r = last_writer version (block_range self.(an_instructions) n) r).
Proof.
  intros Hr Ha. assert (Hb : forall n, Forall (fun i => analysed version i = true) (block_range self.(an_instructions) n)).
  { intros n. unfold block_range. by apply Forall_take, Forall_drop. }
  destruct (intra_spec version self Hr) as (forward & outputs & E & Hf & Ho). eexists _, outputs. split; [exact E|]. split.
  - intros key e. cbn [an_dfg_forward_edges set_dfg_edges]. rewrite Hf. apply exist_proper. intros start. apply exist_proper. intros n.
    pose proof (access_dependencies version start e (block_range self.(an_instructions) n) [] (Hb n)) as Hd. unfold is_access_edge, accesses_of, is_dependency.
    cbn [app] in Hd. change (block_accesses version []) with (@nil Access) in Hd. cbn [app] in Hd. by rewrite Hd.
  - intros start n Hn. destruct (Ho start n Hn) as (o & Ho1 & Ho2). exists o. split; [done|]. intros r. rewrite Ho2. by apply last_writer_spec.
Qed.

(** ** An example *)

(** [mov64 r1, 1; add64 r1, 2] in one block. *)
Definition straight_analysis : Analysis := {|
  an_executable := {| elf_bytes := []; sbpf_version := V1; ro_section := Owned 0 []; text_section_vaddr := 0;
     text_section_range := (0, 0); entry_pc := 0; function_registry := ∅; loader := new_mock |};
  an_instructions := [mkInsn 0 MOV64_IMM 1 0 0 1; mkInsn 1 ADD64_IMM 1 0 0 2];
  an_functions := ∅; an_cfg_nodes := {[0 := set_instructions (mkInsnRange 0 2) default_cfg_node]};
  an_topological_order := [0]; an_entrypoint := 0; an_super_root := 2; an_dfg_forward_edges := ∅; an_dfg_reverse_edges := ∅ |}.

Lemma block_data_flow_witness : exists self' outputs,
  intra_basic_block_data_flow V1 straight_analysis = Ret (self', outputs) /\
  mkDfgEdge (InstructionNode 0) (InstructionNode 1) Filled (RegisterResource 1)
    ∈ edges_at self'.(an_dfg_forward_edges) (InstructionNode 0).
Proof.
  destruct (block_data_flow V1 straight_analysis) as (self' & outputs & E & Hf & _).
  - intros k n Hn. cbn in Hn. apply lookup_singleton_Some in Hn as [_ <-]. split; [split|]; by vm_compute.
  - repeat constructor; by vm_compute.
  - exists self', outputs. split; [exact E|]. apply Hf. eexists 0, _. split; [reflexivity|]. split; [|reflexivity].
    exists 1%nat, (mkInsn 1 ADD64_IMM 1 0 0 2), false, (RegisterResource 1). split; [reflexivity|]. split; [left|reflexivity].
Defined.

(** In the second version, an instruction that loads from memory has the opcode of a
    multiplication, and no access of the memory. *)
Example load_without_memory : LD_1B_REG = MUL32_REG /\
  insn_binds V2 (mkInsn 0 LD_1B_REG 1 2 0 0) =
    [(false, RegisterResource 2); (false, RegisterResource 1); (true, RegisterResource 1)].
Proof. split; by vm_compute. Qed.

(** And [callx] by a register that is not passed on has no read of it. *)
Example callx_without_register : ((false, RegisterResource 7) ∉ insn_binds V0 (mkInsn 0 CALL_REG 0 0 0 7)) /\
  ((false, RegisterResource 7) ∈ insn_accesses V0 (mkInsn 0 CALL_REG 0 0 0 7)).
Proof. split; apply (bool_decide_unpack _); vm_compute; reflexivity. Qed.
