(* ===== verification/DataFlowProof.v ===== *)
(** The data flow between blocks settles, and then every input of a block is linked to what each
    of its predecessors provides (src/static_analysis.rs, [inter_basic_block_data_flow]). *)
From S2P Require Import Prelude Text Error Ebpf Program Executable Cfg StaticAnalysis TarjanCfg DataFlow.
Open Scope list_scope.

Section Flow.
Context (outputs : gmap Z Outputs) (cfg : CfgNodes) (order : list Z).
Context (Hsources : forall b n p, cfg !! b = Some n -> p ∈ n.(cn_sources) -> is_Some (cfg !! p)).
Context (Horder : forall b, b ∈ order -> is_Some (cfg !! b)).
Context (Houtputs : forall b, is_Some (cfg !! b) -> is_Some (outputs !! b)).

(** ** Moves *)

(** Where an edge goes, and the edge. *)
Definition Move : Type := DfgNode * DfgEdge.
Definition is_phi (n : DfgNode) : bool := match n with PhiNode _ => true | InstructionNode _ => false end.

Definition apply_move (b : Z) (st : DfgEdges * bool) (m : Move) : DfgEdges * bool :=
  (insert_edge m.1 m.2 st.1,
   st.2 || (bool_decide (m.2 ∉ edges_at st.1 m.1) && is_phi m.1 && bool_decide (m.1 <> PhiNode b))).

Lemma apply_moves_spec (b : Z) (ms : list Move) : forall st,
  (forall key e, e ∈ edges_at (fold_left (apply_move b) ms st).1 key <-> e ∈ edges_at st.1 key \/ (key, e) ∈ ms) /\
  ((fold_left (apply_move b) ms st).2 = true <-> st.2 = true \/
    exists key e, (key, e) ∈ ms /\ is_phi key = true /\ key <> PhiNode b /\ e ∉ edges_at st.1 key).
Proof.
  induction ms as [|[source x] ms IH]; intros st; cbn [fold_left].
  - split.
    + intros key e. split; [by left|]. by intros [?|?%not_elem_of_nil].
    + split; [by left|]. by intros [?|(key & e & ?%not_elem_of_nil & _)].
  - destruct (IH (apply_move b st (source, x))) as [He Hc]. split.
    + intros key e. rewrite He. cbn [apply_move fst snd]. rewrite edges_at_insert, elem_of_cons. split.
      * intros [[?|[-> ->]]|?]; tauto.
      * intros [?|[[= -> ->]|?]]; tauto.
    + rewrite Hc. cbn [apply_move fst snd]. rewrite orb_true_iff, !andb_true_iff, !bool_decide_eq_true. setoid_rewrite elem_of_cons.
      split.
      * intros [[?|[[Hn Hp] Hs]]|(key & e & Hin & Hp & Hk & Hn)]; [by left|right; exists source, x; split; [by left|done]|].
        right. exists key, e. split; [by right|]. split_and!; [done|done|]. intros H. apply Hn. apply edges_at_insert. by left.
      * intros [?|(key & e & [[= -> ->]|Hin] & Hp & Hk & Hn)]; [left; by left|left; by right|].
        destruct (decide (key = source /\ e = x)) as [[-> ->]|Hne]; [left; by right|].
        right. exists key, e. split_and!; [done|done|done|]. rewrite edges_at_insert. tauto.
Qed.

(** ** One block *)

Definition provided (p : Z) : Outputs := default ∅ (outputs !! p).
Definition moved (b : Z) (sources : list Z) (e : DfgEdge) : DfgEdge := if zlen sources =? 1 then e else redirect b e.
Definition moves (b : Z) (sources : list Z) (edges : gset DfgEdge) : list Move :=
  p ← sources; (fun e => ((provider p (provided p) e.(de_resource)).1, moved b sources e)) <$> elements edges.

Lemma provider_phi (p : Z) (o : Outputs) (r : DataResource) : (provider p o r).2 = is_phi (provider p o r).1.
Proof. unfold provider. by destruct (o !! r). Qed.

Lemma moves_elem (b : Z) (sources : list Z) (edges : gset DfgEdge) (key : DfgNode) (e : DfgEdge) :
  (key, e) ∈ moves b sources edges <->
  exists p x, p ∈ sources /\ x ∈ edges /\ key = (provider p (provided p) x.(de_resource)).1 /\ e = moved b sources x.
Proof.
  unfold moves. rewrite list_elem_of_bind. split.
  - intros (p & Hin & Hp). apply list_elem_of_fmap in Hin as (x & [= -> ->] & Hx%elem_of_elements). by exists p, x.
  - intros (p & x & Hp & Hx & -> & ->). exists p. split; [|done]. apply list_elem_of_fmap. exists x. split; [done|]. by apply elem_of_elements.
Qed.

Lemma propagate_sources (b : Z) (all sources : list Z) (edges : gset DfgEdge) : forall st,
  (forall p, p ∈ sources -> is_Some (outputs !! p)) ->
  each_state sources (fun predecessor st =>
    let! provided := get_node outputs predecessor in
    Ret (fold_left (fun st edge => propagate_edge b all predecessor provided edge st) (elements edges) st)) st =
  @Ret EbpfError _ (fold_left (apply_move b)
    (p ← sources; (fun e => ((provider p (provided p) e.(de_resource)).1, moved b all e)) <$> elements edges) st).
Proof.
  induction sources as [|p sources IH]; intros st Hs; [done|]. cbn [each_state]. unfold get_node.
  destruct (Hs p ltac:(by left)) as [o Ho]. rewrite Ho. cbn [expect exec_bind]. cbn [mbind list_bind]. rewrite fold_left_app.
  rewrite IH by (intros q Hq; apply Hs; by right). do 2 f_equal.
  assert (Hp : provided p = o) by (unfold provided; by rewrite Ho). rewrite Hp.
  generalize (elements edges) as l. intros l. revert st. induction l as [|e l IHl]; intros st; [done|]. cbn [fold_left fmap list_fmap].
  rewrite <-IHl. f_equal. unfold propagate_edge, apply_move. destruct st as [f c]. cbn [fst snd].
  pose proof (provider_phi p o e.(de_resource)) as Hphi. destruct (provider p o (de_resource e)) as [source phi]. cbn [fst snd] in *.
  by rewrite Hphi.
Qed.

(** ** What a turn of the loop does *)

Context (U : gset DfgEdge) (HU : forall b e, is_Some (cfg !! b) -> e ∈ U -> redirect b e ∈ U).

Definition within (f : DfgEdges) : Prop := forall key, edges_at f key ⊆ U.
Definition grows (f f' : DfgEdges) : Prop := forall key, edges_at f key ⊆ edges_at f' key.
(** The inputs of no block changed. *)
Definition same_inputs (f f' : DfgEdges) : Prop := forall b, edges_at f' (PhiNode b) = edges_at f (PhiNode b).
(** The inputs of a block are linked to what its predecessors provide. *)
Definition linked_block (f : DfgEdges) (b : Z) : Prop := forall n p e, cfg !! b = Some n -> p ∈ n.(cn_sources) ->
  e ∈ edges_at f (PhiNode b) ->
  moved b n.(cn_sources) e ∈ edges_at f (provider p (provided p) e.(de_resource)).1.

#[local] Instance grows_preorder : PreOrder grows.
Proof. split; [intros f key; done|]. intros f g h H1 H2 key. etrans; [apply H1|apply H2]. Qed.

Lemma strict_subset_l (x y z : gset DfgEdge) : x ⊂ y -> y ⊆ z -> x ⊂ z.
Proof. intros [H1 H2] H3. split; [by etrans|]. intros H4. apply H2. by etrans. Qed.
Lemma strict_subset_r (x y z : gset DfgEdge) : x ⊆ y -> y ⊂ z -> x ⊂ z.
Proof. intros H1 [H2 H3]. split; [by etrans|]. intros H4. apply H3. by etrans. Qed.
Lemma strict_subset_new (x y : gset DfgEdge) (e : DfgEdge) : x ⊆ y -> e ∈ y -> e ∉ x -> x ⊂ y.
Proof. intros H1 H2 H3. split; [done|]. intros H4. by apply H3, H4. Qed.

(** The effect of a turn, from [f] with the flag [c] to [f'] with the flag [c']. *)
Record turn (f : DfgEdges) (c : bool) (f' : DfgEdges) (c' : bool) : Prop := {
  tu_within : within f -> within f';
  tu_grows : grows f f';
  tu_flag : c = true -> c' = true;
  tu_new : c' = true -> c = false -> exists b, is_Some (cfg !! b) /\ edges_at f (PhiNode b) ⊂ edges_at f' (PhiNode b);
  tu_same : c' = false -> same_inputs f f';
}.

Lemma turn_refl (f : DfgEdges) (c : bool) : turn f c f c.
Proof. split; [done|done|done|congruence|by intros _ b]. Qed.

Lemma turn_trans f1 c1 f2 c2 f3 c3 : turn f1 c1 f2 c2 -> turn f2 c2 f3 c3 -> turn f1 c1 f3 c3.
Proof.
  intros [W1 G1 F1 N1 S1] [W2 G2 F2 N2 S2]. split; [tauto|by etrans|tauto| |].
  - intros H3 H1. destruct c2.
    + destruct (N1 eq_refl H1) as (b & Hb & Hlt). exists b. split; [done|]. by eapply strict_subset_l; [|apply G2].
    + destruct (N2 H3 eq_refl) as (b & Hb & Hlt). exists b. split; [done|]. by eapply strict_subset_r; [apply G1|].
  - intros H3 b. destruct c2; [by rewrite F2 in H3|]. by rewrite (S2 H3 b), (S1 eq_refl b).
Qed.

Lemma edges_at_put (f : DfgEdges) (key key' : DfgNode) (s : gset DfgEdge) :
  edges_at (<[key := s]> f) key' = if decide (key' = key) then s else edges_at f key'.
Proof.
  unfold edges_at. case_decide as E; [subst; by rewrite lookup_insert_eq|]. by rewrite lookup_insert_ne.
Qed.

Lemma edges_at_Some (f : DfgEdges) (key : DfgNode) (s : gset DfgEdge) : f !! key = Some s -> edges_at f key = s.
Proof. unfold edges_at. by intros ->. Qed.

Lemma apply_moves_key (b : Z) (ms : list Move) (key : DfgNode) : forall st, is_Some (st.1 !! key) ->
  is_Some ((fold_left (apply_move b) ms st).1 !! key).
Proof.
  induction ms as [|m ms IH]; intros st Hk; [done|]. cbn [fold_left]. apply IH. cbn. unfold insert_edge.
  apply lookup_insert_is_Some'. by right.
Qed.

(** The turn of a block, in terms of its moves. *)
Lemma propagate_block_moves (b : Z) (n : CfgNode) (f : DfgEdges) (c : bool) : cfg !! b = Some n ->
  exists f' c', propagate_block outputs cfg b (f, c) = Ret (f', c') /\
    let ms := moves b n.(cn_sources) (edges_at f (PhiNode b)) in
    (forall key e, e ∈ edges_at f' key <-> e ∈ edges_at f key \/ (key, e) ∈ ms) /\
    (c' = true <-> c = true \/ exists key e, (key, e) ∈ ms /\ is_phi key = true /\ e ∉ edges_at f key).
Proof.
  intros Hn. unfold propagate_block. destruct (f !! PhiNode b) as [edges|] eqn:Ef.
  2: { exists f, c. split; [done|]. cbn zeta.
    assert (edges_at f (PhiNode b) = ∅) as -> by (unfold edges_at; by rewrite Ef).
    assert (Hno : forall key e, (key, e) ∉ moves b n.(cn_sources) ∅).
    { intros key e (p & x & _ & Hx & _)%moves_elem. by apply elem_of_empty in Hx. }
    split; [intros key e; specialize (Hno key e); tauto|]. split; [by left|].
    intros [?|(key & e & Hin & _)]; [done|]. by destruct (Hno key e). }
  rewrite (edges_at_Some _ _ _ Ef). unfold get_node. rewrite Hn. cbn [expect exec_bind].
  rewrite propagate_sources by (intros p Hp; apply Houtputs; by apply (Hsources b n)). cbn [exec_bind]. fold (moves b n.(cn_sources) edges).
  set (ms := moves b n.(cn_sources) edges). cbn zeta.
  destruct (apply_moves_spec b ms (<[PhiNode b := ∅]> f, c)) as [He Hc].
  destruct (apply_moves_key b ms (PhiNode b) (<[PhiNode b := ∅]> f, c)) as [refl Hr]; [cbn; rewrite lookup_insert_eq; by eexists|].
  destruct (fold_left (apply_move b) ms (<[PhiNode b := ∅]> f, c)) as [f1 c1]. cbn [fst snd] in *. rewrite Hr. cbn [expect exec_bind].
  eexists _, _. split; [done|].
  assert (Hrefl : forall e, e ∈ refl <-> (PhiNode b, e) ∈ ms).
  { intros e. rewrite <-(edges_at_Some _ _ _ Hr), He, edges_at_put, decide_True by done. pose proof (not_elem_of_empty (C := gset DfgEdge) e). tauto. }
  split.
  - intros key e. rewrite edges_at_put. case_decide as Ek.
    + subst key. rewrite elem_of_union, Hrefl, (edges_at_Some _ _ _ Ef). tauto.
    + rewrite He, edges_at_put, decide_False by done. tauto.
  - rewrite orb_true_iff, Hc, bool_decide_eq_true. split.
    + intros [[?|(key & e & Hin & Hp & Hk & Hne)]|Hsub]; [by left|right|right].
      * rewrite edges_at_put, decide_False in Hne by done. by exists key, e.
      * destruct (set_choose_or_empty (refl ∖ edges)) as [[e He']|Hemp].
        -- apply elem_of_difference in He' as [He1 He2]. exists (PhiNode b), e. rewrite (edges_at_Some _ _ _ Ef).
           split_and!; [by apply Hrefl|done|done].
        -- destruct Hsub. intros e Hin. destruct (decide (e ∈ edges)); [done|]. exfalso.
           apply (not_elem_of_empty (C := gset DfgEdge) e). apply Hemp, elem_of_difference. done.
    + intros [?|(key & e & Hin & Hp & Hne)]; [left; by left|]. destruct (decide (key = PhiNode b)) as [->|Hk].
      * right. intros Hsub. apply Hne. rewrite (edges_at_Some _ _ _ Ef). by apply Hsub, Hrefl.
      * left. right. exists key, e. rewrite edges_at_put, decide_False by done. done.
Qed.

Lemma propagate_block_turn (b : Z) (f : DfgEdges) (c : bool) : is_Some (cfg !! b) ->
  exists f' c', propagate_block outputs cfg b (f, c) = Ret (f', c') /\ turn f c f' c' /\ (c' = false -> linked_block f' b).
Proof.
  intros [n Hn]. destruct (propagate_block_moves b n f c Hn) as (f' & c' & E & He & Hc). exists f', c'. split; [done|].
  set (ms := moves b n.(cn_sources) (edges_at f (PhiNode b))) in *. cbn zeta in He, Hc.
  assert (Hold : c' = false -> forall q e, (PhiNode q, e) ∈ ms -> e ∈ edges_at f (PhiNode q)).
  { intros -> q e Hin. destruct (decide (e ∈ edges_at f (PhiNode q))) as [|Hne]; [done|]. exfalso.
    assert (false = true); [|done]. apply Hc. right. by exists (PhiNode q), e. }
  split; [split|].
  - intros Hw key e [Hin|Hin]%He; [by apply (Hw key)|]. apply moves_elem in Hin as (p & x & _ & Hx & _ & ->).
    unfold moved. apply Hw in Hx. destruct (zlen n.(cn_sources) =? 1); [done|]. apply HU; [by exists n|done].
  - intros key e Hin. apply He. by left.
  - intros ->. apply Hc. by left.
  - intros Hc' Hc0. apply Hc in Hc' as [?|(key & e & Hin & Hp & Hne)]; [congruence|].
    destruct key as [|q]; [done|]. exists q. split.
    + apply moves_elem in Hin as (p & x & Hp' & _ & Hk & _). unfold provider in Hk.
      destruct (provided p !! de_resource x); [done|]. injection Hk as ->. by apply (Hsources b n p).
    + apply (strict_subset_new _ _ e); [intros x Hx; apply He; by left|apply He; by right|done].
  - intros Hc' q. apply set_eq. intros e. rewrite He. split; [|by left]. intros [?|Hin]; [done|by apply (Hold Hc')].
  - intros Hc' n' p e Hn' Hp Hin. assert (n' = n) as -> by congruence. apply He. right. apply moves_elem.
    exists p, e. split_and!; [done| |done|done]. apply He in Hin as [?|Hin]; [done|by apply (Hold Hc')].
Qed.

(** A linked block stays linked while no input changes. *)
Lemma linked_mono (f f' : DfgEdges) (b : Z) : grows f f' -> same_inputs f f' -> linked_block f b -> linked_block f' b.
Proof.
  intros Hg Hs Hl n p e Hn Hp. rewrite Hs. intros Hin. apply Hg. by apply Hl.
Qed.

Lemma propagate_round (l : list Z) : (forall b, b ∈ l -> is_Some (cfg !! b)) -> forall f c,
  exists f' c', each_state l (propagate_block outputs cfg) (f, c) = Ret (f', c') /\ turn f c f' c' /\
    (c' = false -> forall b, b ∈ l -> linked_block f' b).
Proof.
  induction l as [|b l IH]; intros Hl f c.
  - exists f, c. split; [done|]. split; [apply turn_refl|]. by intros _ b ?%not_elem_of_nil.
  - cbn [each_state]. destruct (propagate_block_turn b f c (Hl b ltac:(by left))) as (f1 & c1 & -> & T1 & L1). cbn [exec_bind].
    destruct (IH ltac:(intros x Hx; apply Hl; by right) f1 c1) as (f2 & c2 & E & T2 & L2). exists f2, c2.
    split; [done|]. split; [by eapply turn_trans|]. intros Hc x [->|Hx]%elem_of_cons; [|by apply L2].
    assert (Hc1 : c1 = false) by (destruct c1; [by rewrite (tu_flag _ _ _ _ T2 eq_refl) in Hc|done]).
    apply (linked_mono f1); [apply T2|by apply T2|by apply L1].
Qed.

(** ** The loop *)

(** How many edges lead into blocks. *)
Definition inputs (keys : list Z) (f : DfgEdges) : nat := sum_list_with (fun b => size (edges_at f (PhiNode b))) keys.

Lemma inputs_bound (keys : list Z) (f : DfgEdges) : within f -> (inputs keys f <= length keys * size U)%nat.
Proof.
  intros Hw. induction keys as [|b keys IH]; cbn; [lia|]. pose proof (subseteq_size _ _ (Hw (PhiNode b))).
  fold (inputs keys f). lia.
Qed.

Lemma inputs_mono (keys : list Z) (f f' : DfgEdges) : grows f f' -> (inputs keys f <= inputs keys f')%nat.
Proof.
  intros Hg. induction keys as [|b keys IH]; cbn; [lia|]. pose proof (subseteq_size _ _ (Hg (PhiNode b))).
  fold (inputs keys f) (inputs keys f'). lia.
Qed.

Lemma inputs_strict (keys : list Z) (f f' : DfgEdges) (b : Z) : grows f f' -> b ∈ keys ->
  edges_at f (PhiNode b) ⊂ edges_at f' (PhiNode b) -> (inputs keys f < inputs keys f')%nat.
Proof.
  intros Hg Hb Hlt. induction keys as [|x keys IH]; [by apply not_elem_of_nil in Hb|]. cbn.
  fold (inputs keys f) (inputs keys f'). apply elem_of_cons in Hb as [<-|Hb].
  - pose proof (inputs_mono keys _ _ Hg). pose proof (subset_size _ _ Hlt). lia.
  - specialize (IH Hb). pose proof (subseteq_size _ _ (Hg (PhiNode x))). lia.
Qed.

Lemma propagate_spec (fuel : nat) : forall f, within f ->
  (length (sorted_keys cfg) * size U < fuel + inputs (sorted_keys cfg) f)%nat ->
  exists f', propagate outputs cfg fuel order f = Ret f' /\ within f' /\ grows f f' /\ forall b, b ∈ order -> linked_block f' b.
Proof.
  induction fuel as [|fuel IH]; intros f Hw Hfuel; [pose proof (inputs_bound (sorted_keys cfg) f Hw); lia|].
  cbn [propagate]. destruct (propagate_round (reverse order)) with (f := f) (c := false) as (f1 & c1 & -> & T & L).
  { intros b. rewrite elem_of_reverse. apply Horder. }
  cbn [exec_bind]. pose proof (tu_within _ _ _ _ T Hw) as Hw1. pose proof (tu_grows _ _ _ _ T) as Hg. destruct c1.
  - destruct (tu_new _ _ _ _ T eq_refl eq_refl) as (b & Hb & Hlt).
    pose proof (inputs_strict (sorted_keys cfg) f f1 b Hg ltac:(by apply sorted_keys_elem) Hlt).
    destruct (IH f1 Hw1 ltac:(lia)) as (f' & E & Hw' & Hg' & Hl). exists f'. split_and!; [done|done|by etrans|done].
  - exists f1. split_and!; [done|done|done|]. intros b Hb. apply (L eq_refl).
    by apply elem_of_reverse.
Qed.
End Flow.

(** * The bound *)

Lemma all_edges_elem (f : DfgEdges) (e : DfgEdge) : e ∈ all_edges f <-> exists key, e ∈ edges_at f key.
Proof.
  unfold all_edges, edges_at. rewrite elem_of_union_list. split.
  - intros (s & Hs & He). apply list_elem_of_fmap in Hs as ([key s'] & -> & Hk%elem_of_map_to_list). exists key. by rewrite Hk.
  - intros (key & He). destruct (f !! key) as [s|] eqn:Ek; [|by apply elem_of_empty in He]. exists s. split; [|done].
    apply list_elem_of_fmap. exists (key, s). split; [done|]. by apply elem_of_map_to_list.
Qed.

Lemma universe_elem (blocks : list Z) (f : DfgEdges) (e : DfgEdge) : e ∈ universe blocks f <->
  e ∈ all_edges f \/ exists x b, x ∈ all_edges f /\ b ∈ blocks /\ e = redirect b x.
Proof.
  unfold universe. rewrite elem_of_union, elem_of_list_to_set, list_elem_of_bind. split.
  - intros [?|(x & Hin & Hx%elem_of_elements)]; [by left|]. apply list_elem_of_fmap in Hin as (b & -> & Hb). right. by exists x, b.
  - intros [?|(x & b & Hx & Hb & ->)]; [by left|right]. exists x. split; [|by apply elem_of_elements].
    apply list_elem_of_fmap. by exists b.
Qed.

Lemma universe_closed (blocks : list Z) (f : DfgEdges) (b : Z) (e : DfgEdge) : b ∈ blocks -> e ∈ universe blocks f -> redirect b e ∈ universe blocks f.
Proof.
  intros Hb. rewrite !universe_elem. intros [He|(x & c & Hx & _ & ->)]; right; [by exists e, b|]. by exists x, b.
Qed.

(** * The result *)

Definition single_source (cfg : CfgNodes) (key : DfgNode) : Prop :=
  exists b n, key = PhiNode b /\ cfg !! b = Some n /\ zlen n.(cn_sources) = 1.

Lemma edges_at_delete (f : DfgEdges) (key key' : DfgNode) :
  edges_at (delete key f) key' = if decide (key' = key) then ∅ else edges_at f key'.
Proof. unfold edges_at. case_decide as E; [subst; by rewrite lookup_delete_eq|]. by rewrite lookup_delete_ne. Qed.

Lemma remove_single_sources_spec (cfg : CfgNodes) (f : DfgEdges) (key : DfgNode) (e : DfgEdge) :
  e ∈ edges_at (remove_single_sources cfg f) key <-> e ∈ edges_at f key /\ ~ single_source cfg key.
Proof.
  assert (H : forall (l : list (Z * CfgNode)) f, e ∈ edges_at (fold_left (fun forward '(start, block) =>
      if zlen block.(cn_sources) =? 1 then delete (PhiNode start) forward else forward) l f) key <->
    e ∈ edges_at f key /\ ~ exists b n, key = PhiNode b /\ (b, n) ∈ l /\ zlen n.(cn_sources) = 1).
  { induction l as [|[b n] l IH]; intros g; cbn [fold_left].
    - split; [|tauto]. intros He. split; [done|]. by intros (b & n & _ & ?%not_elem_of_nil & _).
    - rewrite IH. setoid_rewrite elem_of_cons. destruct (Z.eqb_spec (zlen n.(cn_sources)) 1) as [H1|H1].
      + rewrite edges_at_delete. case_decide as Ek.
        * subst key. split; [by intros [?%elem_of_empty _]|]. intros [_ Hno]. destruct Hno. exists b, n. split_and!; [done|by left|done].
        * split; intros [He Hno]; (split; [done|]); intros (b' & n' & Hk & Hin & Hz); apply Hno; [|exists b', n'; tauto].
          destruct Hin as [[= -> ->]|Hin]; [done|]. by exists b', n'.
      + split; intros [He Hno]; (split; [done|]); intros (b' & n' & Hk & Hin & Hz); apply Hno; [|exists b', n'; tauto].
        destruct Hin as [[= -> ->]|Hin]; [done|]. by exists b', n'. }
  unfold remove_single_sources. rewrite H. unfold single_source. by setoid_rewrite entries_elem.
Qed.

Lemma reverse_edges_spec (f r : DfgEdges) (key : DfgNode) (e : DfgEdge) :
  e ∈ edges_at (reverse_edges f r) key <-> e ∈ edges_at r key \/ key = e.(de_destination) /\ exists k, e ∈ edges_at f k.
Proof.
  assert (H : forall (l : list DfgEdge) r, e ∈ edges_at (fold_left (fun reverse edge =>
      insert_edge edge.(de_destination) edge reverse) l r) key <-> e ∈ edges_at r key \/ key = e.(de_destination) /\ e ∈ l).
  { induction l as [|x l IH]; intros g; cbn [fold_left].
    - split; [by left|]. by intros [?|[_ ?%not_elem_of_nil]].
    - rewrite IH, edges_at_insert, elem_of_cons. split.
      + intros [[?|[-> ->]]|?]; tauto.
      + intros [?|[-> [->|?]]]; tauto. }
  unfold reverse_edges. rewrite H. rewrite <-all_edges_elem. unfold all_edges. rewrite elem_of_union_list, list_elem_of_bind.
  setoid_rewrite elem_of_elements. split; (intros [?|[? (s & ? & ?)]]; [by left|right; split; [done|by exists s]]).
Qed.

(** What the data flow between the blocks needs. *)
Record flow_ready (outputs : gmap Z Outputs) (self : Analysis) : Prop := {
  fl_ok : cfg_ok self.(an_cfg_nodes);
  fl_order : forall b, b ∈ self.(an_topological_order) -> is_Some (self.(an_cfg_nodes) !! b);
  fl_outputs : forall b, is_Some (self.(an_cfg_nodes) !! b) -> is_Some (outputs !! b);
  fl_reverse : self.(an_dfg_reverse_edges) = ∅;
}.

Lemma inter_spec (outputs : gmap Z Outputs) (self : Analysis) : flow_ready outputs self ->
  exists settled, let forward := remove_single_sources self.(an_cfg_nodes) settled in
    inter_basic_block_data_flow outputs self = Ret (set_dfg_edges forward (reverse_edges forward ∅) self) /\
    grows self.(an_dfg_forward_edges) settled /\
    forall b, b ∈ self.(an_topological_order) -> linked_block outputs self.(an_cfg_nodes) settled b.
Proof.
  intros [Hok Hord Hout Hrev]. unfold inter_basic_block_data_flow. rewrite Hrev.
  set (cfg := self.(an_cfg_nodes)) in *. set (f := self.(an_dfg_forward_edges)). set (U := universe (sorted_keys cfg) f).
  destruct (propagate_spec outputs cfg self.(an_topological_order)) with (U := U) (fuel := propagate_fuel cfg f) (f := f)
    as (settled & -> & _ & Hg & Hl); [|done|done| | | |].
  - intros b n p Hn Hp. apply (ok_sources _ Hok p b n Hn) in Hp as (m & Hm & _). by exists m.
  - intros b e Hb. apply universe_closed. by apply sorted_keys_elem.
  - intros key e He. apply universe_elem. left. apply all_edges_elem. by exists key.
  - unfold propagate_fuel. fold U. lia.
  - exists settled. split; [done|]. split; [exact Hg|exact Hl].
Qed.

(** C29: the propagation of data flow between the blocks ends, within as many rounds as there can be
    edges into blocks; then every input of a block is linked to what each predecessor of the
    block provides, the instruction that wrote the resource last or the predecessor's own input;
    inputs of blocks with one source are left out; and the reverse edges are the edges, by
    their destinations. *)
Theorem data_flow_settles (outputs : gmap Z Outputs) (self : Analysis) : flow_ready outputs self ->
  exists settled self', inter_basic_block_data_flow outputs self = Ret self' /\
    (forall key, edges_at self.(an_dfg_forward_edges) key ⊆ edges_at settled key) /\
    (forall b n p e, b ∈ self.(an_topological_order) -> self.(an_cfg_nodes) !! b = Some n -> p ∈ n.(cn_sources) ->
      e ∈ edges_at settled (PhiNode b) ->
      moved b n.(cn_sources) e ∈ edges_at settled (provider p (provided outputs p) e.(de_resource)).1) /\
    (forall key e, e ∈ edges_at self'.(an_dfg_forward_edges) key <->
      e ∈ edges_at settled key /\ ~ single_source self.(an_cfg_nodes) key) /\
    (forall key e, e ∈ edges_at self'.(an_dfg_reverse_edges) key <->
      key = e.(de_destination) /\ exists k, e ∈ edges_at self'.(an_dfg_forward_edges) k).
Proof.
  intros Hready. destruct (inter_spec outputs self Hready) as (settled & E & Hg & Hl).
  eexists settled, _. split; [exact E|]. cbn [an_dfg_forward_edges an_dfg_reverse_edges set_dfg_edges].
  split_and!; [exact Hg| | |].
  - intros b n p e Hb Hn Hp He. by apply (Hl b Hb n p e).
  - intros key e. apply remove_single_sources_spec.
  - intros key e. rewrite reverse_edges_spec. unfold edges_at at 1. rewrite lookup_empty.
    split; [intros [?%elem_of_empty|?]; done|by right].
Qed.

(** ** An example *)

Lemma straight_ready : flow_ready {[0 := ∅]} straight_analysis.
Proof.
  split; [apply cfg_check_ok; by vm_compute| | |done].
  - intros b ->%list_elem_of_singleton. by eexists.
  - intros b [n Hn]. cbn in Hn. apply lookup_singleton_Some in Hn as [<- _]. by eexists.
Qed.

Lemma data_flow_settles_witness : exists self', inter_basic_block_data_flow {[0 := ∅]} straight_analysis = Ret self' /\
  forall key e, e ∈ edges_at self'.(an_dfg_reverse_edges) key -> key = e.(de_destination).
Proof.
  destruct (data_flow_settles {[0 := ∅]} straight_analysis straight_ready) as (settled & self' & E & _ & _ & _ & Hr).
  exists self'. split; [exact E|]. intros key e He. apply Hr in He. apply He.
Defined.
