(* ===== verification/Analyzer.v ===== *)
(** The analysis of an executable as a whole (src/static_analysis.rs, [Analysis::from_executable]),
    the text of a register trace and the branch counters of a trace (src/vm.rs, [DynamicAnalysis]). *)
From Stdlib Require Import String.
From stdpp Require Import sorting relations.
From S2P Require Import Prelude Text Error Ebpf Program Executable Cfg StaticAnalysis Tarjan TarjanCfg BasicBlocks.
From S2P Require Import Dominance DominanceOrder DataFlow DataFlowProof.
Open Scope rust_scope.
Open Scope list_scope.

(** * The passes *)

(* src/static_analysis.rs:165-171, Analysis::from_executable *)
Definition registered_functions (registry : FunctionRegistry Z) : gmap Z (Z * list Z) :=
  fold_left (fun functions '(key, (function_name, pc)) => <[pc := (key, from_utf8_lossy function_name)]> functions)
    (iter registry) ∅.

Section FromExecutable.
Context `{Bo : LittleEndian} `{Hash : Murmur3} `{Dem : Demangle}.

(** The instructions are fewer than the bytes. *)
(* src/static_analysis.rs:164-205, Analysis::from_executable *)
Definition decode_executable (executable : Executable) : Exec EbpfError Analysis :=
  let! (_, program) := get_text_bytes executable in
  if negb (zlen program mod INSN_SIZE =? 0) then Panic DebugAssertFailed
  else
    let! (instructions, insn_ptr) := collect_instructions (length program) program 0 [] in
    Ret {| an_executable := executable; an_instructions := instructions;
           an_functions := registered_functions executable.(function_registry);
           an_cfg_nodes := ∅; an_topological_order := [];
           an_entrypoint := get_entrypoint_instruction_offset executable; an_super_root := insn_ptr;
           an_dfg_forward_edges := ∅; an_dfg_reverse_edges := ∅ |}.

(** The control-flow graph. *)
(* src/static_analysis.rs:164-207, Analysis::from_executable *)
Definition analysis_graph (executable : Executable) : Exec EbpfError Analysis :=
  let! self := decode_executable executable in
  let! self := split_into_basic_blocks false executable.(sbpf_version) self in
  control_flow_graph_tarjan self.

(** [fuel] is for the rounds of the hierarchy of dominators. *)
(* src/static_analysis.rs:161-213, Analysis::from_executable *)
Definition from_executable (fuel : nat) (executable : Executable) : Exec EbpfError Analysis :=
  let! self := analysis_graph executable in
  let! self := control_flow_graph_dominance_hierarchy fuel self in
  let self := label_basic_blocks self in
  let! (self, basic_block_outputs) := intra_basic_block_data_flow executable.(sbpf_version) self in
  inter_basic_block_data_flow basic_block_outputs self.
End FromExecutable.

(** * Register traces *)

(** [{:5?}] of an unsigned integer, and [{:016X?}] of a slice of them. *)
Definition padded (width : nat) (pad : Z) (s : list Z) : list Z := replicate (width - length s) pad ++ s.
Definition upper (c : Z) : Z := if (0x61 <=? c) && (c <=? 0x7a) then c - 0x20 else c.
Definition hex_016 (n : Z) : list Z := padded 16 0x30 (upper <$> radix_digits 16 16 n []).
Fixpoint hex_list (l : list Z) : list Z :=
  match l with
  | [] => []
  | [n] => hex_016 n
  | n :: l => hex_016 n ++ str ", " ++ hex_list l
  end.

(** The index of the instruction at a program counter, or of the one that starts before it. *)
(* src/static_analysis.rs:504-514, Analysis::disassemble_register_trace *)
Definition pc_to_insn_index (instructions : list Insn) : Exec EbpfError (list Z) :=
  let! size := match last instructions with Some insn => u64_add insn.(ptr) 2 | None => Ret 0 end in
  each_state (imap (fun i insn => (Z.of_nat i, insn)) instructions) (fun '(index, insn) table =>
    let! table := set_index table insn.(ptr) index in
    let! next := u64_add insn.(ptr) 1 in
    set_index table next index) (replicate (Z.to_nat size) 0).

(** An entry has the registers and the program counter. *)
(* src/static_analysis.rs:498-528, Analysis::disassemble_register_trace *)
Definition disassemble_register_trace (self : Analysis) (register_trace : list (list Z)) : Exec EbpfError (list Z) :=
  let! table := pc_to_insn_index self.(an_instructions) in
  each_state (imap (fun i entry => (Z.of_nat i, entry)) register_trace) (fun '(index, entry) text =>
    let! pc := index_slice entry 11 in
    let! i := index_slice table pc in
    let! insn := index_slice self.(an_instructions) i in
    let! registers := slice_range entry (0, 11) in
    let! line := analysis_disassemble_instruction self insn pc in
    Ret (text ++ padded 5 0x20 (decimal index) ++ str " [" ++ hex_list registers ++ str "] " ++ padded 5 0x20 (decimal pc)
         ++ str ": " ++ line ++ newline)) [].

(** ** Recorded traces *)

(* src/vm.rs:150-156, DynamicAnalysis *)
Record DynamicAnalysis := mkDynamic { edge_counter_max : Z; edges : gmap Z (gmap Z Z) }.

(** A traced instruction is counted when it is the first of a block. *)
(* src/vm.rs:166-179, DynamicAnalysis::new *)
Definition count_traced (analysis : Analysis) (traced_instruction : list Z) (state : DynamicAnalysis * Z) : Exec EbpfError (DynamicAnalysis * Z) :=
  let '(result, last_basic_block) := state in
  let! pc := index_slice traced_instruction 11 in
  match analysis.(an_cfg_nodes) !! pc with
  | None => Ret (result, last_basic_block)
  | Some _ =>
      let targets := default ∅ (result.(edges) !! last_basic_block) in
      let! counter := u64_add (default 0 (targets !! pc)) 1 in
      Ret (mkDynamic (Z.max result.(edge_counter_max) counter)
             (<[last_basic_block := <[pc := counter]> targets]> result.(edges)), pc)
  end.

(* src/vm.rs:160-181, DynamicAnalysis::new *)
Definition dynamic_analysis_new (register_trace : list (list Z)) (analysis : Analysis) : Exec EbpfError DynamicAnalysis :=
  let! (result, _) := each_state register_trace (count_traced analysis) (mkDynamic 0 ∅, u64_max) in
  Ret result.

(** * The analysis returns *)

(** The text of an executable: whole instructions, of which the first is complete. *)
Record text_ok (text : list Z) : Prop := {
  tx_len : slice_len_ok text;
  tx_bytes : bytes_ok text;
  tx_whole : zlen text mod INSN_SIZE = 0;
  tx_first : 2 * INSN_SIZE <= zlen text \/ text <> [] /\ head text <> Some LD_DW_IMM;
}.

Section Returns.
Context `{Bo : LittleEndian} `{Hash : Murmur3} `{Dem : Demangle}.
Context (executable : Executable) (vaddr : Z) (text : list Z).
Context (Htext : get_text_bytes (E := EbpfError) executable = Ret (vaddr, text)) (Hok : text_ok text).

Lemma decode_executable_fresh : exists self, decode_executable executable = Ret self /\ fresh_analysis self /\
  self.(an_super_root) < 2 ^ 60 /\ self.(an_executable) = executable /\
  self.(an_dfg_forward_edges) = ∅ /\ self.(an_dfg_reverse_edges) = ∅.
Proof.
  destruct Hok as [Hlen Hb Hw Hf]. unfold decode_executable. rewrite Htext. cbn [exec_bind]. rewrite (proj2 (Z.eqb_eq _ _) Hw). cbn [negb].
  destruct (collect_instructions_spec text Hlen Hw Hb (length text) 0 []) as (insns & last & -> & Hl & H0 & Hle & Hlast & Hnil);
    [lia|unfold zlen; lia|unfold zlen; lia|].
  cbn [exec_bind app]. eexists. split; [done|]. unfold slice_len_ok, i64_max in Hlen. split_and!; [|cbn; lia|done|done|done].
  split; cbn; [done| |done|done]. intros ->. destruct (Hnil eq_refl) as [He|[He Ho]]; unfold INSN_SIZE in *.
  - destruct Hf as [?|[Hne _]]; [lia|]. destruct text; [done|]. unfold zlen in He. cbn in He. lia.
  - destruct Hf as [?|[_ Hne]]; [lia|]. apply Hne. by destruct text.
Qed.

Lemma tarjan_rooted (version : SBPFVersion) (self0 self1 self2 : Analysis) (indexed : CfgNodes) (dests : list Z) :
  fresh_analysis self0 -> self0.(an_super_root) < 2 ^ 60 -> split_result version self0 self1 ->
  tarjan_result self1 self2 indexed dests ->
  rooted_analysis self2 /\ forall k n, self2.(an_cfg_nodes) !! k = Some n -> range_ok self2.(an_instructions) n.
Proof.
  intros Hfr Hsr Hs Ht. destruct (split_small _ _ _ Hfr Hs) as (Hsmall & Hmax & Hnone).
  destruct (sl_same _ _ _ Hs) as (Hinsns & Hroot & _). rewrite <-Hroot in *.
  pose proof (ta_topological _ _ _ _ Ht) as Htopo. destruct (ta_nodes _ _ _ _ Ht) as (l & Hl & Hn2).
  pose proof (ta_roots _ _ _ _ Ht) as Hr. set (r := mkInsnRange _ _) in Hn2.
  pose proof (rooted_dom _ _ _ _ _ r Htopo Hl) as Hdom. pose proof (sl_ok _ _ _ Hs) as Hcfg.
  assert (Hin : forall k, k ∈ self2.(an_topological_order) <-> is_Some (self1.(an_cfg_nodes) !! k)).
  { intros k. rewrite (ta_order _ _ _ _ Ht). by apply order_elem. }
  assert (Hnode : forall k n, self2.(an_cfg_nodes) !! k = Some n -> untouched n /\ range_ok self2.(an_instructions) n).
  { intros k n Hn. rewrite (ta_instructions _ _ _ _ Ht). rewrite Hn2 in Hn. destruct (decide (k = self1.(an_super_root))) as [->|Hne].
    - rewrite lookup_insert_eq in Hn. simplify_eq. split; [done|]. unfold range_ok. cbn. pose proof (zlen_nonneg self1.(an_instructions)). lia.
    - destruct (proj1 (Hdom k)) as [?|[m Hm]]; [by exists n|done|].
      destruct (indexed_node _ _ _ _ _ r Htopo Hnone Hl Hr k m Hm) as (n' & Hn' & _ & _ & (Hi & Hp & Hc) & _).
      assert (n' = n) as -> by congruence. unfold untouched, range_ok. rewrite Hi, Hp, Hc. split; [by apply (sl_untouched _ _ _ Hs k m)|].
      destruct (sl_blocks _ _ _ Hs) as (es & _ & Hblk). destruct (Hblk k m Hm) as (i & j & Hb).
      rewrite (bl_range _ _ _ _ _ _ _ _ Hb), Hinsns. cbn. pose proof (bl_nonempty _ _ _ _ _ _ _ _ Hb). unfold zlen. lia. }
  split; [|intros k n Hn; by apply (Hnode k n)]. rewrite Hn2 in *. pose proof (ta_super_root _ _ _ _ Ht) as Hsr2.
  split; rewrite ?Hn2, ?Hsr2.
  - by eapply rooted_ok.
  - intros Hk%sorted_keys_elem. apply Hdom in Hk as [Hk|Hk]; [unfold u64_max in *; lia|]. by apply Hmax, sorted_keys_elem.
  - rewrite lookup_insert_eq. by eexists.
  - rewrite Hin, Hnone. by intros [? ?].
  - intros k. rewrite Hdom, Hin. done.
  - intros k n Hn. by apply (Hnode k n).
  - intros k [->|Hk]%Hdom; [apply rtc_refl|]. by eapply super_root_reach.
Qed.

Lemma strictly_sorted (R R' : relation Z) (l : list Z) : StronglySorted R l -> NoDup l ->
  (forall x y, x ∈ l -> y ∈ l -> R x y -> x <> y -> R' x y) -> StronglySorted R' l.
Proof.
  induction 1 as [|x l HS IH HF]; [constructor|]. intros [Hx Hnd]%NoDup_cons Hr. constructor.
  - apply IH; [done|]. intros a b Ha Hb. apply Hr; by right.
  - rewrite Forall_forall in *. intros y Hy. apply Hr; [by left|by right|by apply HF|]. by intros ->.
Qed.

Lemma tarjan_ordered (self1 self2 : Analysis) (indexed : CfgNodes) (dests : list Z) :
  cfg_ok self1.(an_cfg_nodes) -> cfg_small self1.(an_cfg_nodes) -> self1.(an_cfg_nodes) !! self1.(an_super_root) = None ->
  tarjan_result self1 self2 indexed dests -> ordered_analysis self2.
Proof.
  intros Hcfg Hsmall Hnone Ht. pose proof (ta_topological _ _ _ _ Ht) as Htopo. destruct (ta_nodes _ _ _ _ Ht) as (l & Hl & Hn2).
  pose proof (ta_roots _ _ _ _ Ht) as Hr. set (r := mkInsnRange _ _) in Hn2. pose proof (rooted_dom _ _ _ _ _ r Htopo Hl) as Hdom.
  pose proof (rooted_edge _ _ _ _ _ r Htopo Hnone Hl Hr) as Hedge. rewrite <-Hn2 in Hdom, Hedge.
  assert (Hin : forall k, is_Some (self1.(an_cfg_nodes) !! k) -> topo_of self2.(an_cfg_nodes) k = topo_of indexed k).
  { intros k [m Hm]. destruct (indexed_node _ _ _ _ _ r Htopo Hnone Hl Hr k m Hm) as (n & Hn & _ & He & _). unfold topo_of at 1.
    by rewrite Hn2, Hn. }
  assert (Htop : topo_of self2.(an_cfg_nodes) self1.(an_super_root) = default_topo) by (unfold topo_of; by rewrite Hn2, lookup_insert_eq).
  assert (Habove : forall k, is_Some (self1.(an_cfg_nodes) !! k) -> above self2.(an_cfg_nodes) self1.(an_super_root) k).
  { intros k Hk. apply above_iff. cbn. rewrite Htop, Hin by done. left. cbn. pose proof (to_bound _ _ Htopo k Hk).
    pose proof (small_nodes _ Hsmall). rewrite sorted_keys_zlen in *. lia. }
  split; rewrite ?(ta_super_root _ _ _ _ Ht).
  - intros a b [->|Ha]%Hdom [->|Hb]%Hdom He; [done| | |apply (to_inj _ _ Htopo); [done|done|by rewrite !Hin in He]].
    + specialize (Habove b Hb). rewrite above_iff, He in Habove. cbn in Habove. lia.
    + specialize (Habove a Ha). rewrite above_iff, He in Habove. cbn in Habove. lia.
  - intros k [->|Hk]%Hdom Hne; [done|by apply Habove].
  - rewrite (ta_order _ _ _ _ Ht). apply (strictly_sorted (topo_ge indexed)); [apply order_sorted|rewrite order_permutation; apply sorted_keys_NoDup|].
    intros x y Hx%(order_elem _ _ Htopo) Hy%(order_elem _ _ Htopo) Hge Hne. apply above_iff. cbn. rewrite !Hin by done.
    apply topo_ge_iff in Hge. cbn in Hge. assert (Ht' : topo_of indexed x <> topo_of indexed y) by (intros He; by apply Hne, (to_inj _ _ Htopo)).
    destruct (topo_of indexed x) as [sx dx], (topo_of indexed y) as [sy dy]. cbn in *.
    destruct (decide (sx = sy)) as [->|]; [|lia]. assert (dx <> dy) by congruence. lia.
  - intros a b [He|[-> Hd]]%Hedge; [|right; apply Habove; by eapply dests_nodes].
    assert (Ha : is_Some (self1.(an_cfg_nodes) !! a)) by (destruct He as (n & ? & _); by exists n).
    pose proof (ok_closed _ Hcfg a b He) as Hb. pose proof (to_edges _ _ Htopo a b He) as Hle.
    destruct (decide ((topo_of indexed a).(scc_id) = (topo_of indexed b).(scc_id))) as [Hs|Hs].
    + left. eapply rtc_subrel; [|by apply (to_scc _ _ Htopo a b)]. intros x y Hxy. apply Hedge. by left.
    + right. apply above_iff. cbn. rewrite !Hin by done. lia.
Qed.

Lemma analysis_graph_spec : exists self, analysis_graph executable = Ret self /\ rooted_analysis self /\ ordered_analysis self /\
  (forall k n, self.(an_cfg_nodes) !! k = Some n -> range_ok self.(an_instructions) n) /\ self.(an_dfg_reverse_edges) = ∅.
Proof.
  unfold analysis_graph. destruct decode_executable_fresh as (self0 & -> & Hfr & Hsr & _ & _ & Hrev). cbn [exec_bind].
  destruct (split_spec executable.(sbpf_version) self0 Hfr) as (self1 & -> & Hs). cbn [exec_bind].
  destruct (split_small _ _ _ Hfr Hs) as (Hsmall & _ & Hnone). pose proof (sl_same _ _ _ Hs) as (_ & Hsame & _). rewrite <-Hsame in Hnone.
  destruct (control_flow_graph_tarjan_spec self1 (sl_ok _ _ _ Hs) Hsmall) as (self2 & indexed & dests & E & Ht).
  { intros He. destruct (sl_first _ _ _ Hs) as [n Hn]. by rewrite He in Hn. }
  exists self2. split; [done|]. destruct (tarjan_rooted _ _ _ _ _ _ Hfr Hsr Hs Ht) as [Hroot Hrange].
  split_and!; [done|by apply (tarjan_ordered self1 self2 indexed dests (sl_ok _ _ _ Hs))|done|]. rewrite (ta_reverse _ _ _ _ Ht). destruct (sl_same _ _ _ Hs) as (_ & _ & _ & _ & ->). done.
Qed.

(** The labels change nothing else. *)
Lemma label_shape (self : Analysis) : same_shape self.(an_cfg_nodes) (label_basic_blocks self).(an_cfg_nodes) /\
  label_basic_blocks self = set_cfg_nodes (label_basic_blocks self).(an_cfg_nodes) self.
Proof.
  split; [|done]. intros k. unfold label_basic_blocks. cbn [an_cfg_nodes set_cfg_nodes].
  set (labelled := map_imap _ self.(an_cfg_nodes)).
  assert (H : match self.(an_cfg_nodes) !! k, labelled !! k with
    | Some n, Some n' => n'.(cn_sources) = n.(cn_sources) /\ n'.(cn_destinations) = n.(cn_destinations) /\
        n'.(cn_instructions) = n.(cn_instructions)
    | None, None => True | _, _ => False end).
  { unfold labelled. rewrite map_lookup_imap. by destruct (self.(an_cfg_nodes) !! k). }
  destruct (labelled !! self.(an_super_root)) as [n|] eqn:En; [|done]. destruct (decide (k = self.(an_super_root))) as [->|Hne].
  - rewrite En in H. rewrite lookup_insert_eq. done.
  - by rewrite lookup_insert_ne.
Qed.

Lemma shape_ranges (nodes nodes' : CfgNodes) (insns : list Insn) : same_shape nodes nodes' ->
  (forall k n, nodes !! k = Some n -> range_ok insns n) -> forall k n, nodes' !! k = Some n -> range_ok insns n.
Proof.
  intros Hs Hr k n' Hn'. specialize (Hs k). rewrite Hn' in Hs. destruct (nodes !! k) as [n|] eqn:En; [|done].
  destruct Hs as (_ & _ & Hi). unfold range_ok. rewrite Hi. by apply (Hr k).
Qed.

Lemma from_executable_spec : exists graph, analysis_graph executable = Ret graph /\ rooted_analysis graph /\ ordered_analysis graph /\
  forall fuel dominated, control_flow_graph_dominance_hierarchy fuel graph = Ret dominated ->
  exists self', from_executable fuel executable = Ret self' /\ same_shape graph.(an_cfg_nodes) self'.(an_cfg_nodes) /\
    self'.(an_functions) = graph.(an_functions) /\ self'.(an_topological_order) = graph.(an_topological_order).
Proof.
  destruct analysis_graph_spec as (graph & E & Hroot & Hord & Hrange & Hrev). exists graph. split_and!; [done|done|done|].
  intros fuel dom Hdom. unfold from_executable. rewrite E. cbn [exec_bind]. rewrite Hdom. cbn [exec_bind].
  destruct (hierarchy_settled _ _ _ Hroot Hdom) as (nodes & [Hs _ _] & _ & Hch & Hset).
  destruct (dominated_children_spec _ _ _ Hch) as (Hsp & _ & _). destruct (label_shape dom) as [Hlab Hlabset].
  set (lab := label_basic_blocks dom) in *.
  assert (Hshape : same_shape graph.(an_cfg_nodes) lab.(an_cfg_nodes)).
  { etrans; [by apply same_graph_shape|]. etrans; [by apply same_parents_shape|done]. }
  assert (Hl : lab = set_cfg_nodes lab.(an_cfg_nodes) graph) by (rewrite Hlabset, Hset at 1; done).
  clearbody lab. assert (Hi : lab.(an_instructions) = graph.(an_instructions)) by (by rewrite Hl).
  destruct (intra_spec executable.(sbpf_version) lab) as (forward & outputs & -> & _ & Ho).
  { rewrite Hi. by apply (shape_ranges graph.(an_cfg_nodes)). }
  cbn [exec_bind]. destruct (inter_spec outputs (set_dfg_edges forward lab.(an_dfg_reverse_edges) lab)) as (settled & -> & _ & _).
  { split; cbn.
    - by apply (same_shape_ok _ _ Hshape), Hroot.
    - intros b Hb. rewrite Hl in Hb. cbn in Hb. apply (same_shape_dom _ _ _ Hshape), (ra_all _ Hroot). by right.
    - intros b [n Hn]. destruct (Ho b n Hn) as (o & ? & _). by exists o.
    - by rewrite Hl. }
  eexists. split; [done|]. cbn. split; [done|]. by rewrite Hl.
Qed.
End Returns.

(** * Recorded traces *)

(** The blocks that a trace enters, and how often it goes from one to another. *)
Definition entered (cfg : CfgNodes) (register_trace : list (list Z)) : list Z :=
  filter (fun pc => is_Some (cfg !! pc)) ((fun entry => default 0 (entry !! 11%nat)) <$> register_trace).
Fixpoint transitions (last : Z) (blocks : list Z) : list (Z * Z) :=
  match blocks with [] => [] | b :: blocks => (last, b) :: transitions b blocks end.
Definition count (e : Z * Z) (l : list (Z * Z)) : Z := Z.of_nat (length (filter (e =.) l)).

Definition counter (result : DynamicAnalysis) (a b : Z) : Z := default 0 (default ∅ (result.(edges) !! a) !! b).

Record counted (result : DynamicAnalysis) (l : list (Z * Z)) : Prop := {
  ct_edges : forall a b, counter result a b = count (a, b) l;
  ct_above : forall a b, counter result a b <= result.(edge_counter_max);
  ct_met : result.(edge_counter_max) = 0 \/ exists a b, counter result a b = result.(edge_counter_max);
}.

Lemma count_snoc (e e' : Z * Z) (l : list (Z * Z)) : count e (l ++ [e']) = count e l + (if decide (e = e') then 1 else 0).
Proof. unfold count. rewrite filter_app, length_app, filter_cons, filter_nil. destruct (decide (e = e')); cbn; lia. Qed.

Lemma count_bound (e : Z * Z) (l : list (Z * Z)) : 0 <= count e l <= zlen l.
Proof. unfold count, zlen. pose proof (length_filter (e =.) l). lia. Qed.

Lemma counted_next (result : DynamicAnalysis) (l : list (Z * Z)) (a b : Z) : counted result l ->
  let n := counter result a b + 1 in
  counted (mkDynamic (Z.max result.(edge_counter_max) n) (<[a := <[b := n]> (default ∅ (result.(edges) !! a))]> result.(edges))) (l ++ [(a, b)]).
Proof.
  intros [He Ha Hm] n. set (result' := mkDynamic _ _).
  assert (Hc : forall x y, counter result' x y = if decide ((x, y) = (a, b)) then n else counter result x y).
  { intros x y. unfold counter, result'. cbn [edges]. destruct (decide (x = a)) as [->|Hx].
    - rewrite lookup_insert_eq. cbn [from_option id]. destruct (decide (y = b)) as [->|Hy].
      + rewrite lookup_insert_eq, decide_True by done. done.
      + rewrite lookup_insert_ne, decide_False by congruence. done.
    - rewrite lookup_insert_ne, decide_False by congruence. done. }
  split.
  - intros x y. rewrite Hc, count_snoc. destruct (decide ((x, y) = (a, b))) as [[= -> ->]|]; [unfold n; rewrite He; done|]. rewrite He. lia.
  - intros x y. rewrite Hc. cbn. destruct (decide _); [lia|]. specialize (Ha x y). lia.
  - right. cbn [edge_counter_max result']. destruct (Z.max_spec result.(edge_counter_max) n) as [[Hlt ->]|[Hle ->]].
    + exists a, b. by rewrite Hc, decide_True.
    + specialize (Ha a b). destruct Hm as [Hm|(x & y & Hxy)].
      * pose proof (count_bound (a, b) l). specialize (He a b). unfold n in *. lia.
      * exists x, y. rewrite Hc. destruct (decide ((x, y) = (a, b))) as [[= -> ->]|]; [unfold n in *; lia|done].
Qed.

Lemma dynamic_each (analysis : Analysis) (register_trace : list (list Z)) : forall result last l,
  Forall (fun entry => length entry = 12%nat) register_trace -> zlen l + zlen register_trace <= i64_max -> counted result l ->
  exists result' last', each_state register_trace (count_traced analysis) (result, last) = Ret (E := EbpfError) (result', last') /\
    counted result' (l ++ transitions last (entered analysis.(an_cfg_nodes) register_trace)).
Proof.
  induction register_trace as [|entry trace IH]; intros result last l Hall Hlen Hc; cbn [each_state].
  { exists result, last. split; [done|]. unfold entered. cbn. by rewrite app_nil_r. }
  apply Forall_cons in Hall as [He Hall]. rewrite zlen_cons in Hlen.
  destruct (lookup_lt_is_Some_2 entry 11) as [pc Hpc]; [lia|]. unfold count_traced at 1. rewrite (index_slice_lookup entry 11 pc) by done. cbn [exec_bind].
  unfold entered. rewrite fmap_cons, Hpc, filter_cons. cbn [from_option id]. pose proof (zlen_nonneg trace). fold (entered analysis.(an_cfg_nodes) trace).
  destruct (analysis.(an_cfg_nodes) !! pc) as [n|] eqn:En.
  - rewrite decide_True by (by eexists). pose proof (count_bound (last, pc) l) as Hb. pose proof (ct_edges _ _ Hc last pc) as Hcnt. unfold counter in Hcnt at 1.
    rewrite u64_add_small by (unfold i64_max in Hlen; lia). cbn [exec_bind].
    pose proof (counted_next result l last pc Hc) as Hnext. unfold counter in Hnext.
    assert (Hlen' : zlen (l ++ [(last, pc)]) + zlen trace <= i64_max).
    { rewrite zlen_app, zlen_cons. change (zlen (@nil (Z * Z))) with 0. lia. }
    destruct (IH _ pc _ Hall Hlen' Hnext) as (result' & last' & Heq & Hc').
    exists result', last'. split; [exact Heq|]. cbn [transitions]. by rewrite <-app_assoc in Hc'.
  - rewrite decide_False by (intros [? [=]]). cbn [exec_bind]. apply IH; [done|lia|done].
Qed.

(** The counters are the numbers of transitions between blocks in the trace, which starts outside of
    all blocks, and the maximum is the largest of them. *)
Lemma dynamic_analysis_counts (analysis : Analysis) (register_trace : list (list Z)) :
  Forall (fun entry => length entry = 12%nat) register_trace -> slice_len_ok register_trace ->
  exists result, dynamic_analysis_new register_trace analysis = Ret result /\
    counted result (transitions u64_max (entered analysis.(an_cfg_nodes) register_trace)).
Proof.
  intros Hall Hlen. unfold dynamic_analysis_new.
  destruct (dynamic_each analysis register_trace (mkDynamic 0 ∅) u64_max [] Hall) as (result & last & -> & Hc).
  - unfold slice_len_ok in Hlen. cbn. done.
  - assert (Hz : forall a b, counter (mkDynamic 0 ∅) a b = 0) by (intros a b; unfold counter; cbn; by rewrite lookup_empty).
    split; [intros a b; by rewrite Hz|intros a b; by rewrite Hz|by left].
  - exists result. split; [done|exact Hc].
Qed.

(** * Properties *)

(** C31: for an executable whose text consists of whole instructions, the analysis decodes it,
    splits it into blocks and finds the components, without faults, and gets a graph with
    consistent edges, in topological order, in which every node can be reached from the super root;
    when the graph has no cycles, two rounds give the dominators and the whole analysis returns,
    with the same blocks and edges; with cycles it returns once the rounds end. *)
Theorem analysis_returns `{Bo : LittleEndian} `{Hash : Murmur3} `{Dem : Demangle}
    (executable : Executable) (vaddr : Z) (text : list Z) :
  get_text_bytes (E := EbpfError) executable = Ret (vaddr, text) -> text_ok text ->
  exists graph, analysis_graph executable = Ret graph /\ rooted_analysis graph /\ ordered_analysis graph /\
    forall fuel, (acyclic graph.(an_cfg_nodes) /\ (2 <= fuel)%nat \/
      exists dominated, control_flow_graph_dominance_hierarchy fuel graph = Ret dominated) ->
    exists self', from_executable fuel executable = Ret self' /\ same_shape graph.(an_cfg_nodes) self'.(an_cfg_nodes) /\
      self'.(an_functions) = graph.(an_functions) /\ self'.(an_topological_order) = graph.(an_topological_order).
Proof.
  intros Htext Hok. destruct (from_executable_spec executable vaddr text Htext Hok) as (graph & E & Hroot & Hord & H).
  exists graph. split_and!; [done|done|done|]. intros fuel [[Hac Hfuel]|[dominated Hd]]; [|by apply (H fuel dominated)].
  destruct (acyclic_settled graph (fuel - 2) Hroot Hord Hac) as (dominated & _ & Hd & _).
  replace (2 + (fuel - 2))%nat with fuel in Hd by lia. by apply (H fuel dominated).
Qed.

(** ** Examples *)

(** [mov64 r1, 1; ja +0; mov64 r0, r1; exit] *)
Definition flow_text : list Z :=
  [0xb7; 1; 0; 0; 1; 0; 0; 0] ++ [0x05; 0; 0; 0; 0; 0; 0; 0] ++ [0xbf; 0x10; 0; 0; 0; 0; 0; 0] ++ [0x95; 0; 0; 0; 0; 0; 0; 0].
Definition flow_executable : Executable :=
  {| elf_bytes := flow_text; sbpf_version := V1; ro_section := Owned 0 []; text_section_vaddr := 0x100000000;
     text_section_range := (0, 32); entry_pc := 0; function_registry := ∅; loader := new_mock |}.
#[local] Instance plain_demangle : Demangle := { demangle := id }.
#[local] Existing Instances le_reference sum_hash.

Lemma flow_text_ok : text_ok flow_text.
Proof. split; [by vm_compute|apply (bool_decide_unpack _); by vm_compute|by vm_compute|left; by vm_compute]. Qed.

Lemma flow_dominators : match analysis_graph flow_executable with
  | Ret graph => match control_flow_graph_dominance_hierarchy 10 graph with Ret _ => true | _ => false end
  | _ => false end = true.
Proof. vm_compute. reflexivity. Qed.

Lemma analysis_returns_witness : exists self', from_executable 10 flow_executable = Ret self'.
Proof.
  destruct (analysis_returns flow_executable 0x100000000 flow_text) as (graph & E & _ & _ & H).
  - reflexivity.
  - apply flow_text_ok.
  - pose proof flow_dominators as Hd. rewrite E in Hd.
    destruct (control_flow_graph_dominance_hierarchy 10 graph) as [dominated| |] eqn:Ed; [|discriminate Hd|discriminate Hd].
    destruct (H 10%nat (or_intror (ex_intro _ dominated Ed))) as (self' & Er & _). exists self'. exact Er.
Defined.

(** The edges of a key. *)
Definition edges_of (r : Exec EbpfError Analysis) (key : DfgNode) : list DfgEdge :=
  match r with Ret self => elements (edges_at self.(an_dfg_forward_edges) key) | _ => [] end.

(** The read of [r1] in the second block is found under the instruction that wrote it, but the
    edge names the input of the second block as its source, which is no key. *)
Example stale_source : mkDfgEdge (PhiNode 2) (InstructionNode 2) Filled (RegisterResource 1)
    ∈ edges_of (from_executable 10 flow_executable) (InstructionNode 0) /\
  edges_of (from_executable 10 flow_executable) (PhiNode 2) = [].
Proof. split; [apply (bool_decide_unpack _)|]; by vm_compute. Qed.
